(* ===== verification/_CoqProject ===== *)
-Q . S2P
Prelude.v
Errors.v
MsgTypes.v
Options.v
Encode.v
Decode.v
Codec.v
OptionsBuilder.v
OptionValues.v
MessageOptions.v
MissingBlocks.v
Ids.v
Occupancy.v
Pending.v
DatagramPool.v
PendingCons.v
SlotTable.v
Dedup.v
Observe.v
OscoreHeader.v
OscoreCbor.v
OscoreContext.v
OscoreProtect.v
OscoreSeal.v
OscoreOutcome.v
Block.v
BlockFrame.v
BodyPool.v
BodyLaws.v
BlockClassic.v
QBlock.v
QBlockSend.v
BlockBinding.v
AllocDedup.v
Exchange.v
Engine.v
EngineExchange.v
EngineObserve.v
Progress.v
ObserveNstart.v
EngineBlock.v
EngineBlockTx.v
BlockIssue.v
AsciiText.v
LinkFormat.v
Uri.v
Problem.v
ProblemLaws.v
ProblemRound.v
AppIdentity.v
DatagramBuffer.v
Transport.v
AppSend.v
AppReplay.v
AppReplayLaws.v
AppResponse.v
AppResponseLaws.v
AppEncode.v
AppEncodeLaws.v
AppReply.v
AppReplyLaws.v
AppAssociations.v
AppOscore.v
AppOscoreLaws.v
AppOscoreRound.v
AppPath.v
AppSite.v
AppSiteLaws.v
AppCatalog.v
AppCalls.v
LakersCred.v
Credential.v
Ead.v
Trust.v
Receipt.v
Policy.v
PairingCodec.v
Pairing.v
Authority.v
Enrollment.v
