(* ===== verification/Prelude.v ===== *)
(** * Coaptic: a verified model of a bounded CoAP library

    Coaptic is a Rust implementation of CoAP (RFC 7252) with fixed or
    once-allocated storage.  This development models its wire codec, its text
    and CBOR payload formats, its storage core, its block-wise transfers, its
    engine, its OSCORE security layer, its transport calls and the parts of its
    application layer that own slots, identities, responses and replies as Rocq
    functions, and proves what these parts promise each other.  Paths below are relative to the
    repository's [src/] directory.

    ** The program and how its parts interact

    A datagram is decoded ([message/decode.rs]) into a message whose options are
    read lazily ([message/option.rs], [message/value.rs]).  Outgoing
    messages collect options in a sorted array ([message/builder.rs]) and are
    encoded into a caller's buffer ([message/encode.rs]), which normally is a
    slot of a datagram pool ([storage/pool.rs], [storage/alloc_memory.rs]).
    Slots are handed out by a rotating allocator ([storage/occupancy.rs]).  A
    confirmable message stays in its slot until it is acknowledged or its
    timer gives up ([storage/pending.rs], [storage/memory.rs]).  Tables of
    the same slot shape keep the history of answered exchanges and the
    registered observers ([storage/table.rs]).  OSCORE ([oscore/]) protects
    messages with sequence numbers and a replay window kept in a security
    context.

    A body larger than a datagram occupies a slot of a body pool with a
    sidecar that assembles or issues its blocks ([storage/block.rs]); requests
    waiting for a response are rows of the exchange table
    ([storage/exchange.rs]).  The engine ([storage/engine.rs]) owns all the
    stores: it decodes what is in an RX slot, matches acknowledgements and
    responses, keeps observers, moves blocks between datagrams and bodies, and
    counts what it does ([storage/metrics.rs]).  A pass of
    [storage/progress.rs] selects at most one piece of work of each kind.
    Datagrams enter and leave through a transport the caller supplies
    ([storage/io.rs], [storage/async_io.rs]).

    The application layer ([app/]) calls passes and acts on what they select.
    It draws Message IDs, tokens and jitter from the caller's entropy
    ([app/identity.rs]), owns an outgoing slot until it is sent or given up
    ([app/send.rs]), answers a repeated confirmable request from the duplicate
    history instead of running its handler again ([app/mod.rs]), finds the
    handler of a new one in its table of routes ([app/site.rs]), encodes the
    response that handler built ([app/response.rs]), and keeps the outstanding
    calls of a client, the delays servers asked for, and the replies until they
    are collected ([app/client.rs]).  With the [oscore]
    feature it owns a bounded table of security associations
    ([app/associations.rs]), routes a datagram to the one it belongs to, opens
    it, and seals what it sends into the slot ([app/oscore.rs]).
    With the [edhoc] feature an endpoint has a credential made from its P-256
    key ([provisioning/identity.rs], over the parsers of the vendored EDHOC
    library), keeps which peer it trusts in a record committed to the caller's
    store ([provisioning/trust.rs]) and, when it is paired on the spot, lets its
    owner change that peer or hand the device over
    ([provisioning/local_pairing.rs]).  A device that is managed from a service
    asks an authority for its current policy in one protected exchange
    ([provisioning/enrollment.rs]); the authority keeps one durable record of each
    registered device ([provisioning/authority.rs]).  Once trusted, a device has
    operations applied by a service and keeps them until it holds a durable
    receipt ([provisioning/receipt.rs]).
    Beside the engine stand the formats an application reads and writes:
    request URIs ([uri.rs]), catalogs of links ([link_format.rs]) and problem
    details of error responses ([message/problem.rs]).

    ** Files

    - [Prelude]: outcomes, the state-and-error monad, machine integers,
      slices, automation, and lemmas on lists, searches and bytes.
    - [Errors]: the error enums of [error.rs] and of the storage layer.
    - [MsgTypes]: [message/mod.rs] and the tokens of [message/extended.rs];
      [OwnedToken] is the trait, [OwnedTokenLaws] its contract, with the
      compact and the extended token as instances.
    - [Options], [Encode], [Decode]: [message/option.rs],
      [message/encode.rs], [message/decode.rs] and the RFC 8974 lengths.
      [Encode.msg_wire] is the reference encoding both sides are compared
      with.
    - [Codec]: theorems across encoder and decoder.
    - [OptionsBuilder], [OptionValues], [MessageOptions], [MissingBlocks],
      [Ids]: [message/builder.rs]; [value.rs], [hop.rs], [no_response.rs] and
      [echo.rs]; typed lookup, Table 4 checks and [precondition.rs];
      [missing_blocks.rs]; [id.rs].
    - [Occupancy]: [storage/occupancy.rs] for both backends.
    - [Pending]: [storage/endpoint.rs] and the data of [storage/pending.rs].
    - [DatagramPool]: the classes [SlotPool], [DatagramBytes] and
      [DatagramLaws], and the compile-time and the heap pool as instances.
    - [PendingCons]: the pending-confirmable operations of
      [storage/memory.rs], proved from the laws and thus for both pools.
    - [SlotTable], [Dedup], [Observe]: [storage/table.rs]; the shape
      common to its tables over a [Keyed] class, and its two instances.
    - [OscoreHeader], [OscoreCbor], [OscoreContext]: [oscore/header.rs],
      [oscore/cbor.rs] with [oscore/aead.rs], [oscore/context.rs].
    - [OscoreProtect], [OscoreSeal], [OscoreOutcome]: [oscore/protect.rs] over
      the rest of [oscore/aead.rs]; the direct and the staged way of sealing
      compared; every outcome of sealing.
    - [Block], [BlockFrame]: the data and operations of [storage/block.rs], and
      which fields each operation leaves alone.
    - [BodyPool], [BodyLaws]: the body pools of [storage/pool.rs] and
      [storage/alloc_memory.rs] over the class [BodyCells], with the contract
      [BodyLaws] proved for both.
    - [BlockClassic], [QBlock], [QBlockSend], [BlockBinding]: theorems on
      Block1/Block2, Q-Block reception, Q-Block sending and recovery, and
      request bindings.
    - [AllocDedup]: the heap duplicate history with its deadline bound.
    - [Exchange]: [storage/exchange.rs].
    - [Engine], [EngineObserve], [EngineBlock], [EngineBlockTx]:
      [storage/engine.rs] over [storage/memory.rs], by group of operations.
    - [EngineExchange], [ObserveNstart], [BlockIssue]: theorems on exchanges,
      notifications and outgoing blocks.
    - [Progress]: [storage/progress.rs] and its fairness.
    - [AsciiText]: what the text parsers use of Rust's strings.
    - [LinkFormat]: [link_format.rs], its grammar and its theorems.
    - [Uri]: [uri.rs] and its theorems.
    - [Problem], [ProblemLaws], [ProblemRound]: [message/problem.rs], the grammar
      its readers recognise and that they return on every input, and what its
      writers write.
    - [DatagramBuffer]: what a transport may do to a slot's bytes.
    - [Transport]: [storage/io.rs] and [storage/async_io.rs]
      over the classes [DatagramIo] and [AsyncDatagramIo].
    - [AppIdentity]: [app/identity.rs].
    - [AppSend]: [app/send.rs] with its destructors.
    - [AppReplay], [AppReplayLaws]: the duplicate answers of [app/mod.rs] and
      the packet headroom of [app/admission.rs].
    - [AppResponse], [AppResponseLaws]: [app/response.rs].
    - [AppEncode], [AppEncodeLaws]: the response encoders of [app/mod.rs].
    - [AppReply], [AppReplyLaws]: the stored replies and the inbox of
      [app/client.rs].
    - [AppAssociations]: [app/associations.rs] with the class
      [ContextStorage]; [AppOscore]: [app/oscore.rs] over that class, with the
      [oscore] feature; [AppOscoreLaws], [AppOscoreRound]: their theorems and a
      request through both ends.
    - [AppPath]: [app/request.rs] and [app/routing.rs]; [AppSite]:
      [app/site.rs]; [AppSiteLaws], [AppCatalog]: the route table against a
      bounded map, dispatch, and the discovery catalog read back.
    - [AppCalls]: the table of outstanding calls, the retained queries and the
      canonical request of [app/client.rs], with their theorems.
    - [LakersCred]: readers over a slice and a position and how they compose;
      the buffers, the CBOR decoder and the credentials of
      [provisioning/lakers/shared/].  [Credential]: [provisioning/identity.rs]
      with the classes [P256] and [Blake3].
    - [Ead]: [provisioning/ead.rs] and [provisioning/connection_id.rs].
    - [Trust]: [provisioning/trust.rs] and runs of a device over a durable
      authority.  [Receipt]: [provisioning/receipt.rs] over the class
      [ReceiptStore], and runs of a service.
    - [Policy]: the policies, queries and payloads of
      [provisioning/enrollment.rs], with their round trips; [Authority]:
      [provisioning/authority.rs] and runs of several replicas on one store;
      [Enrollment]: the protected exchange of [provisioning/enrollment.rs], with
      the class [OnlinePolicyAuthority] and the authority as its instance.
    - [PairingCodec]: the records, challenges and updates of
      [provisioning/local_pairing.rs] and their encoding; [Pairing]: its
      operations and runs of a device.

    ** How code becomes definitions

    A function that returns [Result] returns [res E A], whose extra outcomes
    [Panic] and [Diverge] stand for a failed index, slice copy or overflow
    check and for a loop out of fuel; a theorem that gives [Ok] or [Err] thus
    excludes both.  Code behind a [&mut] reference is in [st S E], which keeps
    the state on every outcome.  Unsigned integers are [Z] with wrapping,
    saturating and checked operations written out; [usize] is [nat] bounded by
    the class [Target] (32 to 64 bits).  Bytes are [Z] below 256 under
    [bytes_ok].  Fixed arrays are lists whose length is part of the invariant.
    Borrowed slices are values: nothing modelled here aliases one.

    Loops over an array or an input are structural, or run on fuel equal to the
    length of what they consume: option iteration takes one unit per
    remaining byte, and each step consumes at least one, which
    [Codec.decode_total] turns into the absence of [Diverge]; the allocator scan and
    the due-timer scan take one unit per slot; missing-block decoding one per
    payload byte; the text parsers and the problem-details reader one per input
    byte; a Q-Block window moves by one group per accepted block.
    Scans of a pass are structural in the number of slots.  A transfer needs
    one turn per 16 bytes of the body and one more, the smallest block size
    that can be negotiated.

    ** What the theorems show

    - Codec: encoding and decoding are inverse in both directions; the
      decoder accepts exactly the reference encodings; every outcome of the
      encoder has its cause; all decoders are total; the compact and the
      extended decoder agree; layouts rebind.
    - Options: the builder is a stable sort; lookup is exact although it stops
      early; Table 4 and precondition checks; round trips of option values.
    - Storage: the allocator takes the nearest free slot and keeps its
      counter exact; at most NSTART confirmables are outstanding per address
      under any sequence of operations, the raw setters of a pool only where
      they do not themselves add a second one; retransmission backs off within the
      RFC bounds, serves every due message once and ends; acknowledgement
      matching, reservation and replacement are exact and atomic.
    - Tables: keyed tables refine a bounded finite map; the duplicate history
      evicts the earliest deadline and hands back exactly its pin; observe
      rows keep their 24-bit order and their chain of superseded IDs.
    - OSCORE: a protected request, and the response bound to it, are recovered
      by the peer as they were sent, and a repeated datagram is refused as a
      replay; no nonce is used twice under a sender key across reboots and
      failing storage, by requests, notifications and responses together, when
      a response without its own number is sealed once per request; the
      replay window is exact, checkpoints recover it and never weaken it;
      bindings form a finite map; notifications are accepted in increasing
      order; the authenticated data identify their request; the option
      round trips; sealing in place and through a staging buffer agree.
    - Block transfers: a body sent block by block arrives whole, for every
      combination of pools and of negotiated sizes; Q-Block reception refines a
      set of received numbers, reports exactly the missing ones and asks for
      them a bounded number of times; a sender issues each block once, in
      order and inside its window; a binding identifies its request.
    - Engine: a response completes exactly the exchange it answers, which was
      recorded or inserted before and not completed or taken since; at most
      NSTART notifications per client address are outstanding under any sequence
      of operations, those that set a row without an admission test only where
      they do not add a second one; a failed encoding gives the block back and
      leaves the rest of the engine as it was; the heap tables agree with the
      fixed ones; every received datagram is served in turn.
    - Formats: the link parser accepts exactly its grammar, a written link parses
      back, and a failed write leaves the buffer as it was; a printed URI parses
      back to its parts; problem details, built or decoded and edited, are read
      back from what is written, and unedited ones are forwarded byte for byte.
    - Transport and application: a receive call keeps a slot exactly when it
      stored a datagram there; a failed or abandoned send gives its slot back and
      a successful one keeps it exactly as long as the message needs it; Message
      IDs repeat only after all others were used; a repeated confirmable request
      is never run again; a response is well formed whatever its handler asked
      of it and reports the first setter refused, and the peer reads it as it was
      built, with no option besides; a reply is collected as it
      was received, once, and never displaced by another call's.
    - Calls: under sends, removals, expiry, overload answers and notifications
      the table of outstanding calls refines a map of calls and a map of
      cool-downs, and loses neither; notifications are ordered as RFC 7641 says;
      the retained identity of an observation decides its target exactly.
    - Associations: a handle names one context for ever; a protected request is
      routed to the one context its identifiers name; once a context is attached
      nothing leaves in the clear and nothing unverified enters; a request
      sealed into a slot by one application is opened by the other, once.
    - Routes: a site refines a map of at most N paths and keeps the identity of
      each route; a request reaches the handler its path and method name, or
      the right refusal; the catalog, read back with the link parser and the URI
      reader, gives exactly the routes and their metadata.
    - Trust: a pin is its key and identifier; a grant is honoured only while
      nothing was committed since, whatever files are restored, or the two records
      collide; every committed change of a paired device is the one the running
      call asked for, and the device changes hands only when that call shows the
      owner replaced or the backup owner configured before; pairing records and updates have one
      encoding each.
    - Enrollment: what the authority commits is a history of an abstract claim,
      however many replicas fail or are restored; whichever replica answers,
      it answers with the record committed last, and a device with any older
      snapshot is brought up to date; the exchange between device and authority
      completes with exactly that snapshot, and what a device accepts is bound to
      its question, was accepted on a clock that never ran back since the question,
      and is never behind it.
    - Receipts and handshake data: an accepted receipt means that the operation
      was applied exactly once; authorization data arrive item by item, and
      connection identifiers have one encoding each.

    Two theorems are negative: [MissingBlocks.missing_blocks_truncated] shows that
    every buffer that ends inside an integer of the list yields a payload its own
    decoder refuses, and
    [BlockClassic.refused_shrink_sticks] that a refused block can leave its
    smaller size adopted.

    ** Parameters

    HKDF-SHA-256 is an argument of [OscoreCbor.hkdf_expand] and
    [OscoreContext.derive]; the nonce theorem assumes of it only that the output has
    the requested length.  AES-CCM is the class [OscoreProtect.Ccm] with the
    contract [CcmLaws]: encryption within the length limit succeeds and
    decryption undoes it.  The persistence callback of a reservation acts on the
    caller's storage; [OscoreContext.stores] is its documented contract.
    Randomness sources and clocks are arguments, and so are the handlers of
    routes.  P-256 and BLAKE3 are the classes [Credential.P256] and
    [Credential.Blake3], with the laws that coordinates are 32 bytes, that 65
    bytes decode only as the uncompressed form of a point, and that digests are
    32 bytes.  The commit callbacks of trust and pairing act on the caller's store;
    [Trust.cas] and [Pairing.local_cas] are their documented contracts, and
    [Authority.StoreLaws] is that of the authority's store.  Restored files of the
    authority are arbitrary, but for digest collisions with the current record
    ([Authority.resists]).  The provider of receipts is [Receipt.ReceiptStore] with the
    contract [Receipt.ReceiptLaws].  The keying material that a handshake exports is an
    argument of [Enrollment.session_derive].

    ** Not modelled

    Text formatting, conversions to socket types, borrow guards, diagnostic
    counters and static configuration carry no protocol decision.  The EDHOC
    handshake ([provisioning/]) sits on a vendored library and external
    cryptography; adapters, tools and examples are glue.

    Of the application layer, the poll loop, the preparation and sending of
    client requests, and the walk that releases the slots of a removed
    association are not modelled: each drives the engine, the transport, the
    inbox, the call table and the association table at once.  The response
    encoders of [app/mod.rs] are modelled in the build without the [oscore]
    feature. *)
From Stdlib Require Export ZArith Lia.
From stdpp Require Export base tactics numbers option.
From stdpp Require Export sorting relations.
From stdpp Require Export list.

Open Scope Z_scope.

(** ** Outcomes of fallible code

    [Ok] and [Err] are the two variants of Rust's [Result].  [Panic] is an
    out-of-range index, a failed [copy_from_slice] or an arithmetic overflow
    check; [Diverge] is a loop that used up the fuel of its model.  A theorem
    that a function returns [Ok] or [Err] therefore shows at once that it
    neither panics nor runs forever. *)
Inductive res (E A : Type) : Type :=
  | Ok (a : A)
  | Err (e : E)
  | Panic
  | Diverge.
Arguments Ok {E A} a.
Arguments Err {E A} e.
Arguments Panic {E A}.
Arguments Diverge {E A}.

Definition res_bind {E A B : Type} (f : A → res E B) (r : res E A) : res E B :=
  match r with
  | Ok a => f a
  | Err e => Err e
  | Panic => Panic
  | Diverge => Diverge
  end.

#[export] Instance res_mret {E} : MRet (res E) := fun A a => Ok a.
#[export] Instance res_mbind {E} : MBind (res E) := fun A B f r => res_bind f r.

Definition map_err {E F A : Type} (f : E → F) (r : res E A) : res F A :=
  match r with
  | Ok a => Ok a
  | Err e => Err (f e)
  | Panic => Panic
  | Diverge => Diverge
  end.

Definition ok_or {E A : Type} (o : option A) (e : E) : res E A :=
  match o with Some a => Ok a | None => Err e end.

(** [Result::ok]. *)
Definition res_ok {E A : Type} (r : res E A) : option A :=
  match r with Ok a => Some a | _ => None end.

(** A result that is neither a panic nor a loop without end. *)
Definition returns {E A : Type} (r : res E A) : Prop :=
  match r with Ok _ | Err _ => True | Panic | Diverge => False end.

(** ** State passing with errors

    [st S E A] is code that mutates a value of type [S] behind a [&mut]
    reference and returns a [Result]: the state is kept on every outcome, so
    partial writes before an error stay visible. *)
Definition st (S E A : Type) : Type := S → S * res E A.

Definition st_bind {S E A B : Type} (f : A → st S E B) (m : st S E A) : st S E B :=
  fun s =>
    match m s with
    | (s', Ok a) => f a s'
    | (s', Err e) => (s', Err e)
    | (s', Panic) => (s', Panic)
    | (s', Diverge) => (s', Diverge)
    end.

#[export] Instance st_mret {S E} : MRet (st S E) := fun A a s => (s, Ok a).
#[export] Instance st_mbind {S E} : MBind (st S E) := fun A B f m => st_bind f m.

Definition st_get {S E} : st S E S := fun s => (s, Ok s).
Definition st_put {S E} (s' : S) : st S E unit := fun _ => (s', Ok tt).
Definition st_lift {S E A} (r : res E A) : st S E A := fun s => (s, r).
Definition st_fail {S E A} (e : E) : st S E A := fun s => (s, Err e).
(** [m.map_err(f)] in the monad. *)
Definition st_map_err {S E F A} (f : E → F) (m : st S E A) : st S F A := fun s =>
  match m s with (s, r) => (s, map_err f r) end.

(** [st_upd f] runs a checked update of the state, e.g. a slice write. *)
Definition st_upd {S E} (f : S → res E S) : st S E unit :=
  fun s =>
    match f s with
    | Ok s' => (s', Ok tt)
    | Err e => (s, Err e)
    | Panic => (s, Panic)
    | Diverge => (s, Diverge)
    end.

(** ** Machine integers

    A [w]-bit unsigned integer is a [Z] in [0, 2^w). *)
Definition in_u (w x : Z) : Prop := 0 ≤ x < 2 ^ w.
Definition wrap (w x : Z) : Z := x mod 2 ^ w.
Definition shl (w x k : Z) : Z := wrap w (Z.shiftl x k).
Definition max_u (w : Z) : Z := 2 ^ w - 1.
Definition wrapping_add (w x y : Z) : Z := wrap w (x + y).
Definition wrapping_sub (w x y : Z) : Z := wrap w (x - y).
Definition wrapping_mul (w x y : Z) : Z := wrap w (x * y).
Definition checked_add (w x y : Z) : option Z :=
  if x + y <=? max_u w then Some (x + y) else None.
Definition checked_mul (w x y : Z) : option Z :=
  if x * y <=? max_u w then Some (x * y) else None.
Definition checked_sub (x y : Z) : option Z :=
  if y <=? x then Some (x - y) else None.
Definition saturating_add (w x y : Z) : Z := Z.min (x + y) (max_u w).
Definition saturating_mul (w x y : Z) : Z := Z.min (x * y) (max_u w).
Definition saturating_sub (x y : Z) : Z := Z.max (x - y) 0.

(** [usize] values are [nat]s; what the target fixes is the largest one.
    Every supported target has pointers of 32 to 64 bits. *)
Class Target : Type := {
  usize_max : Z;
  usize_max_ge : 2 ^ 32 - 1 ≤ usize_max;
  usize_max_le : usize_max ≤ 2 ^ 64 - 1
}.

Definition usize_ok `{Target} (n : nat) : Prop := Z.of_nat n ≤ usize_max.

Definition usize_checked_add `{Target} (a b : nat) : option nat :=
  if Z.of_nat (a + b) <=? usize_max then Some (a + b)%nat else None.
Definition usize_checked_mul `{Target} (a b : nat) : option nat :=
  if Z.of_nat a * Z.of_nat b <=? usize_max then Some (a * b)%nat else None.
Definition usize_checked_sub (a b : nat) : option nat :=
  if (b <=? a)%nat then Some (a - b)%nat else None.

(** [u32::try_from(usize)], [u16::try_from(usize)], [usize::try_from(u32)]. *)
Definition u_try_from_usize (w : Z) (n : nat) : option Z :=
  if Z.of_nat n <=? max_u w then Some (Z.of_nat n) else None.
Definition usize_try_from `{Target} (x : Z) : option nat :=
  if x <=? usize_max then Some (Z.to_nat x) else None.

(** Targets with 32-bit and 64-bit pointers. *)
#[refine] Definition target32 : Target := {| usize_max := 2 ^ 32 - 1 |}.
Proof. all: discriminate. Defined.
#[refine] Definition target64 : Target := {| usize_max := 2 ^ 64 - 1 |}.
Proof. all: discriminate. Defined.

(** ** Bytes and slices *)
Definition bytes_ok (bs : list Z) : Prop := Forall (in_u 8) bs.

(** [bs.get(a..b)] and [&bs[a..b]]. *)
Definition slice_get (bs : list Z) (a b : nat) : option (list Z) :=
  if (a <=? b)%nat && (b <=? length bs)%nat then Some (take (b - a) (drop a bs)) else None.
Definition slice_idx {E} (bs : list Z) (a b : nat) : res E (list Z) :=
  match slice_get bs a b with Some s => Ok s | None => Panic end.

(** [bs[i]]. *)
Definition idx {E A} (l : list A) (i : nat) : res E A :=
  match l !! i with Some b => Ok b | None => Panic end.

(** [bs[i] = x]. *)
Definition set_idx {E A} (i : nat) (x : A) (l : list A) : res E (list A) :=
  if (i <? length l)%nat then Ok (<[i:=x]> l) else Panic.

(** The bytes of [src] over those of [buf] from [i] on. *)
Definition splice {A} (buf : list A) (i : nat) (src : list A) : list A :=
  take i buf ++ src ++ drop (i + length src) buf.

(** [buf[a..b].copy_from_slice(src)]. *)
Definition copy_into {E A} (a b : nat) (src buf : list A) : res E (list A) :=
  if (a <=? b)%nat && (b <=? length buf)%nat && (length src =? b - a)%nat
  then Ok (splice buf a src) else Panic.

(** [x.to_be_bytes()] of an [8 * n]-bit integer, and [from_be_bytes]. *)
Fixpoint be_bytes (n : nat) (x : Z) : list Z :=
  match n with
  | O => []
  | S n => be_bytes n (x / 256) ++ [x mod 256]
  end.
Definition from_be (bs : list Z) : Z := foldl (fun a b => 256 * a + b) 0 bs.

(** [iter().position(p)]. *)
Fixpoint position {A} (p : A → bool) (l : list A) : option nat :=
  match l with
  | [] => None
  | x :: l => if p x then Some O else S <$> position p l
  end.

(** [iter().find_map(f)]. *)
Fixpoint find_map {A B} (f : A → option B) (l : list A) : option B :=
  match l with
  | [] => None
  | x :: l => match f x with Some b => Some b | None => find_map f l end
  end.

(** [x == y] on a type with decidable equality. *)
Definition eqb {A} `{EqDecision A} (x y : A) : bool := bool_decide (x = y).

#[global] Arguments splice {A} buf i src : simpl never.
#[global] Arguments slice_get bs a b : simpl never.
#[global] Arguments slice_idx {E} bs a b : simpl never.
#[global] Arguments idx {E A} l i : simpl never.
#[global] Arguments set_idx {E A} i x l : simpl never.
#[global] Arguments copy_into {E A} a b src buf : simpl never.

(** ** Automation *)
Create HintDb coap.

Ltac div_lia := Z.to_euclidean_division_equations; lia.

(** Unfold binds and the state operations, then reduce. *)
Ltac simp_monad :=
  unfold mret, mbind, res_mret, res_mbind, st_mret, st_mbind, res_bind, st_bind,
    st_get, st_put, st_lift, st_fail, st_upd in *;
  simpl in *.

(** The same without computing in the arguments. *)
Ltac unbind :=
  unfold mret, mbind, res_mret, res_mbind, st_mret, st_mbind, res_bind, st_bind,
    st_get, st_put, st_lift, st_fail, st_upd in *;
  cbn beta iota in *.

(** Equality of lists up to the grouping of [++]. *)
Ltac app_norm := repeat (progress (rewrite <- ?app_assoc; simpl)); done.

(** Case analysis on every match in sight, closing the impossible cases. *)
Ltac crush_matches :=
  repeat (case_match; simplify_eq/=); try done; try lia.

(** Boolean tests of the code as propositions. *)
Ltac bools :=
  repeat match goal with
  | H : (_ && _) = true |- _ => apply andb_true_iff in H as [? ?]
  | H : (_ && _) = false |- _ => apply andb_false_iff in H
  | H : (_ || _) = false |- _ => apply orb_false_iff in H as [? ?]
  | H : (_ || _) = true |- _ => apply orb_true_iff in H
  | H : negb _ = true |- _ => apply negb_true_iff in H
  | H : negb _ = false |- _ => apply negb_false_iff in H
  | H : (_ <=? _) = true |- _ => apply Z.leb_le in H
  | H : (_ <=? _) = false |- _ => apply Z.leb_gt in H
  | H : (_ <? _) = true |- _ => apply Z.ltb_lt in H
  | H : (_ <? _) = false |- _ => apply Z.ltb_ge in H
  | H : (_ =? _) = true |- _ => apply Z.eqb_eq in H
  | H : (_ =? _) = false |- _ => apply Z.eqb_neq in H
  | H : (_ <=? _)%nat = true |- _ => apply Nat.leb_le in H
  | H : (_ <=? _)%nat = false |- _ => apply Nat.leb_gt in H
  | H : (_ <? _)%nat = true |- _ => apply Nat.ltb_lt in H
  | H : (_ <? _)%nat = false |- _ => apply Nat.ltb_ge in H
  | H : (_ =? _)%nat = true |- _ => apply Nat.eqb_eq in H
  | H : (_ =? _)%nat = false |- _ => apply Nat.eqb_neq in H
  | H : eqb _ _ = true |- _ => apply bool_decide_eq_true in H
  | H : eqb _ _ = false |- _ => apply bool_decide_eq_false in H
  | H : bool_decide _ = true |- _ => apply bool_decide_eq_true in H
  | H : bool_decide _ = false |- _ => apply bool_decide_eq_false in H
  end.

(** ** Lemmas on integers *)
Lemma shiftr_pow (x k : Z) : 0 ≤ k → Z.shiftr x k = x / 2 ^ k.
Proof. intros. by apply Z.shiftr_div_pow2. Qed.

Lemma land_mask (x k m : Z) : 0 ≤ k → m = 2 ^ k - 1 → Z.land x m = x mod 2 ^ k.
Proof.
  intros Hk ->. rewrite <- Z.land_ones by done. f_equal.
  rewrite Z.ones_equiv. lia.
Qed.

(** A shifted field beside a low one is a sum: [(a << k) | b]. *)
Lemma lor_shiftl_add (a b k : Z) :
  0 ≤ k → 0 ≤ b < 2 ^ k → Z.lor (Z.shiftl a k) b = a * 2 ^ k + b.
Proof.
  intros Hk Hb. rewrite <- Z.shiftl_mul_pow2 by done.
  rewrite <- Z.lxor_lor, <- Z.add_nocarry_lxor; [done| |].
  - apply Z.bits_inj'. intros n Hn. rewrite Z.land_spec, Z.bits_0.
    destruct (Z.ltb_spec n k).
    + by rewrite Z.shiftl_spec_low.
    + rewrite <- (Z.mod_small b (2 ^ k)) by done.
      rewrite Z.mod_pow2_bits_high by lia. apply andb_false_r.
  - apply Z.bits_inj'. intros n Hn. rewrite Z.land_spec, Z.bits_0.
    destruct (Z.ltb_spec n k).
    + by rewrite Z.shiftl_spec_low.
    + rewrite <- (Z.mod_small b (2 ^ k)) by done.
      rewrite Z.mod_pow2_bits_high by lia. apply andb_false_r.
Qed.

Lemma wrap_small (w x : Z) : in_u w x → wrap w x = x.
Proof. intros H. apply Z.mod_small, H. Qed.

Lemma wrap_in_u (w x : Z) : 0 ≤ w → in_u w (wrap w x).
Proof. intros. apply Z.mod_pos_bound. by apply Z.pow_pos_nonneg. Qed.

Lemma in_u_mono (v w x : Z) : 0 ≤ v ≤ w → in_u v x → in_u w x.
Proof.
  intros Hw [H0 H1]. split; [done|].
  eapply Z.lt_le_trans; [exact H1|]. apply Z.pow_le_mono_r; lia.
Qed.

Lemma usize_checked_sub_ok (a b : nat) :
  (b ≤ a)%nat → usize_checked_sub a b = Some (a - b)%nat.
Proof. intros. unfold usize_checked_sub. by rewrite (proj2 (Nat.leb_le _ _)). Qed.

(** ** Lemmas on lists and slices *)
Lemma slice_get_Some (bs : list Z) a b s :
  slice_get bs a b = Some s ↔ (a ≤ b ≤ length bs)%nat ∧ s = take (b - a) (drop a bs).
Proof.
  unfold slice_get. destruct (_ && _) eqn:E; bools; split; intros Hs.
  - by simplify_eq.
  - by destruct Hs as [_ ->].
  - done.
  - destruct Hs as [? _], E; bools; lia.
Qed.

Lemma slice_get_app (p s q : list Z) a b :
  a = length p → b = (length p + length s)%nat →
  slice_get (p ++ s ++ q) a b = Some s.
Proof.
  intros -> ->. apply slice_get_Some. rewrite !length_app. split; [lia|].
  rewrite drop_app_length, Nat.add_sub'. by rewrite take_app_length.
Qed.

Lemma slice_get_tail (p s : list Z) a b :
  a = length p → b = (length p + length s)%nat → slice_get (p ++ s) a b = Some s.
Proof. intros. rewrite <- (app_nil_r s) at 1. by apply slice_get_app. Qed.

Lemma slice_prefix {E} (bs : list Z) n :
  (n ≤ length bs)%nat → slice_idx (E:=E) bs 0 n = Ok (take n bs).
Proof.
  intros Hn. unfold slice_idx. assert (slice_get bs 0 n = Some (take n bs)) as ->; [|done].
  apply slice_get_Some. split; [lia|]. by rewrite Nat.sub_0_r.
Qed.

Lemma slice_get_length (bs : list Z) a b s :
  slice_get bs a b = Some s → length s = (b - a)%nat.
Proof. intros [H ->]%slice_get_Some. rewrite length_take, length_drop. lia. Qed.

(** A slice read splits the list it was read from. *)
Lemma slice_get_split (bs : list Z) a b s :
  slice_get bs a b = Some s →
  bs = take a bs ++ s ++ drop b bs ∧ length (take a bs) = a ∧ b = (a + length s)%nat.
Proof.
  intros H. pose proof (slice_get_length _ _ _ _ H) as Hl.
  apply slice_get_Some in H as [H ->]. repeat split.
  - replace (drop b bs) with (drop (b - a) (drop a bs)).
    + by rewrite take_drop, take_drop.
    + rewrite drop_drop. f_equal. lia.
  - rewrite length_take. lia.
  - lia.
Qed.

Lemma lookup_app_mid {A} (p : list A) x q i : i = length p → (p ++ x :: q) !! i = Some x.
Proof. intros ->. by apply list_lookup_middle. Qed.

Lemma length_splice {A} (buf src : list A) i :
  (i + length src ≤ length buf)%nat → length (splice buf i src) = length buf.
Proof. intros. unfold splice. rewrite !length_app, length_take, length_drop. lia. Qed.

Lemma splice_nil {A} (buf : list A) i : splice buf i [] = buf.
Proof. unfold splice. simpl. by rewrite Nat.add_0_r, take_drop. Qed.

Lemma take_splice {A} (buf src : list A) i :
  (i ≤ length buf)%nat → take (i + length src) (splice buf i src) = take i buf ++ src.
Proof.
  intros. unfold splice. rewrite app_assoc. apply take_app_length'.
  rewrite length_app, length_take. lia.
Qed.

(** Two adjacent writes are one. *)
Lemma splice_splice {A} (buf s1 s2 : list A) i j :
  j = (i + length s1)%nat → (j + length s2 ≤ length buf)%nat →
  splice (splice buf i s1) j s2 = splice buf i (s1 ++ s2).
Proof.
  intros -> H. unfold splice at 1. rewrite take_splice by lia.
  unfold splice. rewrite length_app, <- !app_assoc. do 3 f_equal.
  rewrite app_assoc, drop_app_ge; rewrite length_app, length_take.
  - rewrite drop_drop. f_equal. lia.
  - lia.
Qed.

Lemma insert_splice {A} (buf : list A) i x :
  (i < length buf)%nat → <[i:=x]> buf = splice buf i [x].
Proof.
  intros H. unfold splice. rewrite insert_take_drop by done. simpl.
  by rewrite Nat.add_1_r.
Qed.

Lemma copy_into_ok {E A} (a b : nat) (src buf : list A) :
  b = (a + length src)%nat → (b ≤ length buf)%nat →
  copy_into (E:=E) a b src buf = Ok (splice buf a src).
Proof.
  intros -> H. unfold copy_into.
  by rewrite Nat.add_sub', (proj2 (Nat.leb_le _ _)), (proj2 (Nat.leb_le _ _)), Nat.eqb_refl
    by lia.
Qed.

Lemma set_idx_ok {E A} i (x : A) (buf : list A) :
  (i < length buf)%nat → set_idx (E:=E) i x buf = Ok (splice buf i [x]).
Proof.
  intros H. unfold set_idx. rewrite (proj2 (Nat.ltb_lt _ _)) by done.
  by rewrite insert_splice.
Qed.

Lemma bytes_ok_app (a b : list Z) : bytes_ok (a ++ b) ↔ bytes_ok a ∧ bytes_ok b.
Proof. apply Forall_app. Qed.

Lemma bytes_ok_cons (x : Z) (b : list Z) : bytes_ok (x :: b) ↔ in_u 8 x ∧ bytes_ok b.
Proof. unfold bytes_ok. by rewrite Forall_cons. Qed.

Lemma bytes_ok_take (n : nat) (b : list Z) : bytes_ok b → bytes_ok (take n b).
Proof. apply Forall_take. Qed.

Lemma bytes_ok_drop (n : nat) (b : list Z) : bytes_ok b → bytes_ok (drop n b).
Proof. apply Forall_drop. Qed.

Lemma bytes_ok_lookup (b : list Z) i x : bytes_ok b → b !! i = Some x → in_u 8 x.
Proof. intros H Hi. by eapply Forall_lookup_1 in H. Qed.

(** ** Big-endian integers *)
Lemma length_be_bytes (n : nat) (x : Z) : length (be_bytes n x) = n.
Proof. revert x. induction n; intros; simpl; [done|]. rewrite length_app, IHn. simpl. lia. Qed.

Lemma be_bytes_ok (n : nat) (x : Z) : bytes_ok (be_bytes n x).
Proof.
  revert x. induction n; intros; simpl; [constructor|].
  apply bytes_ok_app. split; [done|]. repeat constructor; div_lia.
Qed.

Lemma from_be_snoc (bs : list Z) b : from_be (bs ++ [b]) = 256 * from_be bs + b.
Proof. unfold from_be. by rewrite foldl_snoc. Qed.

Lemma from_be_bytes (n : nat) (x : Z) : from_be (be_bytes n x) = x mod 2 ^ (8 * Z.of_nat n).
Proof.
  revert x. induction n as [|n IH]; intros; simpl.
  - by rewrite Z.mod_1_r.
  - rewrite from_be_snoc, IH. replace (8 * Z.of_nat (S n)) with (8 + 8 * Z.of_nat n) by lia.
    rewrite Z.pow_add_r by lia. rewrite Z.rem_mul_r by lia. change (2 ^ 8) with 256. lia.
Qed.

Lemma from_be_bound (bs : list Z) :
  bytes_ok bs → 0 ≤ from_be bs < 2 ^ (8 * Z.of_nat (length bs)).
Proof.
  induction bs as [|b bs IH] using rev_ind; intros Hok; [done|].
  apply bytes_ok_app in Hok as [Hok Hb]. inversion_clear Hb as [|? ? Hx _].
  rewrite from_be_snoc, length_app. simpl. specialize (IH Hok).
  replace (8 * Z.of_nat (length bs + 1)) with (8 * Z.of_nat (length bs) + 8) by lia.
  rewrite Z.pow_add_r by lia. change (2 ^ 8) with 256. destruct Hx. lia.
Qed.

Lemma be_bytes_from (bs : list Z) n :
  bytes_ok bs → n = length bs → be_bytes n (from_be bs) = bs.
Proof.
  revert n. induction bs as [|b bs IH] using rev_ind; intros n Hok ->; [done|].
  apply bytes_ok_app in Hok as [Hok Hb]. inversion_clear Hb as [|? ? Hx _].
  rewrite length_app, Nat.add_1_r. simpl. rewrite from_be_snoc. destruct Hx.
  change (2 ^ 8) with 256 in *.
  replace ((256 * from_be bs + b) / 256) with (from_be bs) by div_lia.
  replace ((256 * from_be bs + b) mod 256) with b by div_lia.
  by rewrite IH.
Qed.

Lemma from_be_inj (a b : list Z) :
  bytes_ok a → bytes_ok b → length a = length b → from_be a = from_be b → a = b.
Proof.
  intros Ha Hb Hl He. rewrite <- (be_bytes_from a (length a)), <- (be_bytes_from b (length a)) by done.
  by rewrite He.
Qed.

Lemma from_be_zeros (n : nat) (bs : list Z) : from_be (replicate n 0 ++ bs) = from_be bs.
Proof. induction n as [|n IH]; [done|]. exact IH. Qed.

(** ** Searches *)
Lemma exists_fmap_S (o : option nat) i : (∃ j, o = Some j ∧ S i = S j) ↔ o = Some i.
Proof. split; [by intros (j & -> & [= ->])|eauto]. Qed.

Lemma position_Some {A} (p : A → bool) (l : list A) i :
  position p l = Some i ↔
  (∃ x, l !! i = Some x ∧ p x = true) ∧ ∀ j y, (j < i)%nat → l !! j = Some y → p y = false.
Proof.
  revert i. induction l as [|x l IH]; intros i; simpl.
  - split; [done|]. intros [[? [? _]] _]. done.
  - destruct (p x) eqn:Hp.
    + split.
      * intros [= <-]. split; [by exists x|]. lia.
      * intros [_ H]. destruct i; [done|]. rewrite (H O x) in Hp; [done|lia|done].
    + destruct i as [|i].
      * split; [by destruct (position p l)|]. intros [[? [? ?]] _]. simplify_eq/=. congruence.
      * rewrite fmap_Some, (exists_fmap_S (position p l)), IH. split; intros [? H]; (split; [done|]).
        -- intros [|j] y ? ?; simplify_eq/=; [done|]. eapply H; [|done]. lia.
        -- intros j y ? ?. apply (H (S j)); [lia|done].
Qed.

Lemma position_None {A} (p : A → bool) (l : list A) :
  position p l = None ↔ Forall (fun x => p x = false) l.
Proof.
  induction l as [|x l IH]; simpl; [by split|].
  rewrite Forall_cons, <- IH. destruct (p x); [split; [done|by intros [? _]]|].
  by destruct (position p l); split; [|intros [_ ?]| |].
Qed.

Lemma position_app {A} (p : A → bool) (l1 l2 : list A) :
  position p (l1 ++ l2) =
  match position p l1 with Some i => Some i | None => Nat.add (length l1) <$> position p l2 end.
Proof.
  induction l1 as [|x l1 IH]; simpl; [by destruct (position p l2)|].
  destruct (p x); [done|]. rewrite IH. by destruct (position p l1), (position p l2).
Qed.


(** [find_map] returns the image of the first element that has one. *)
Lemma find_map_Some {A B} (f : A → option B) (l : list A) b :
  find_map f l = Some b ↔
  ∃ l1 x l2, l = l1 ++ x :: l2 ∧ f x = Some b ∧ Forall (fun y => f y = None) l1.
Proof.
  induction l as [|x l IH]; simpl.
  - split; [done|]. intros (l1 & x & l2 & H & _). by destruct l1.
  - destruct (f x) as [c|] eqn:Hx.
    + split.
      * intros [= <-]. by exists [], x, l.
      * intros (l1 & y & l2 & H & Hy & Hn). destruct l1 as [|z l1]; [by simplify_eq/=; congruence|].
        simplify_eq/=. apply Forall_cons in Hn as [? _]. congruence.
    + rewrite IH. split.
      * intros (l1 & y & l2 & -> & Hy & Hn). exists (x :: l1), y, l2. by repeat constructor.
      * intros (l1 & y & l2 & H & Hy & Hn). destruct l1 as [|z l1]; [by simplify_eq/=; congruence|].
        simplify_eq/=. apply Forall_cons in Hn as [_ Hn]. by exists l1, y, l2.
Qed.

Lemma find_map_None {A B} (f : A → option B) (l : list A) :
  find_map f l = None ↔ Forall (fun x => f x = None) l.
Proof.
  induction l as [|x l IH]; simpl; [by split|]. rewrite Forall_cons, <- IH.
  destruct (f x); [by split; [|intros [? _]]|by split; [|intros [_ ?]]].
Qed.
