(* ===== verification/Errors.v ===== *)
(** * Error types of the codec and of the storage layer

    The error enumerations of [src/error.rs], with the [From] conversions that
    [?] inserts where one component calls another. *)
From S2P Require Import Prelude.

(** [message/extended.rs], [CapacityError]: a valid wire token that the
    selected owned storage cannot hold. *)
Record CapacityError : Type := mkCapacityError {
  required : nat;
  available : nat
}.

(** [ParseError]: failures of the datagram decoder.  Option numbers are the
    raw [u16]s. *)
Inductive ParseError : Type :=
  | TruncatedHeader
  | UnsupportedVersion
  | BadTokenLength
  | TruncatedToken
  | TruncatedOption
  | ReservedOptionDelta
  | ReservedOptionLength
  | OptionNumberOverflow
  | ParseEmptyMessageNotEmpty
  | PayloadMarkerWithoutPayload
  | UnrecognizedCritical (n : Z)
  | BadOptionFormat (n : Z).

(** [message/decode.rs], [TokenDecodeError]. *)
Inductive TokenDecodeError : Type :=
  | Malformed (e : ParseError)
  | Capacity (e : CapacityError).

(** [EncodeError]: failures of the datagram encoder. *)
Inductive EncodeError : Type :=
  | TokenTooLong
  | BufferTooSmall
  | EmptyMessageNotEmpty
  | OptionsNotAscending
  | OptionValueTooLong
  | EncodeOptionsFull.

(** [ValueError]: failures to read an option value in its format. *)
Inductive ValueError : Type :=
  | InvalidUtf8
  | UintOverflow
  | IllegalSzx
  | BlockNumOverflow
  | OpaqueLength
  | EchoLength
  | HopLimitError
  | NoResponseLength.

(** [OptionsFull]: the options builder has no free slot. *)
Inductive OptionsFull : Type := mkOptionsFull.

(** [storage/slot.rs], [SlotError]. *)
Inductive SlotError : Type :=
  | InvalidSlot
  | NotOccupied
  | LengthExceedsSlot
  | Pinned.

(** [BlockTransferError]: failures of a block-wise body transfer. *)
Inductive BlockTransferError : Type :=
  | NoBodyPools
  | Saturated
  | BSlot (e : SlotError)
  | NoTransfer
  | IdentityMismatch
  | MissingBlock
  | Overlap
  | Gap
  | OutsideWindow
  | Duplicate
  | SzxMismatch
  | Overflow
  | LengthInconsistent
  | MissingSize
  | MissingIdentity
  | AlreadyComplete
  | PayloadLength
  | BValue (e : ValueError)
  | BParse (e : ParseError)
  | BTokenCapacity (e : CapacityError)
  | BEncode (e : EncodeError).

(** [From<TokenDecodeError> for BlockTransferError]. *)
Definition BlockTransferError_from_token (e : TokenDecodeError) : BlockTransferError :=
  match e with
  | Malformed e => BParse e
  | Capacity e => BTokenCapacity e
  end.

(** [SlotMessageError]: failures to decode or encode in an occupied slot. *)
Inductive SlotMessageError : Type :=
  | SMSlot (e : SlotError)
  | SMParse (e : ParseError)
  | SMTokenCapacity (e : CapacityError)
  | SMEncode (e : EncodeError).

(** [From<TokenDecodeError> for SlotMessageError]. *)
Definition SlotMessageError_from_token (e : TokenDecodeError) : SlotMessageError :=
  match e with
  | Malformed e => SMParse e
  | Capacity e => SMTokenCapacity e
  end.

#[export] Instance ParseError_eq_dec : EqDecision ParseError.
Proof. solve_decision. Defined.
#[export] Instance CapacityError_eq_dec : EqDecision CapacityError.
Proof. solve_decision. Defined.
#[export] Instance EncodeError_eq_dec : EqDecision EncodeError.
Proof. solve_decision. Defined.
#[export] Instance ValueError_eq_dec : EqDecision ValueError.
Proof. solve_decision. Defined.
#[export] Instance SlotError_eq_dec : EqDecision SlotError.
Proof. solve_decision. Defined.
#[export] Instance BlockTransferError_eq_dec : EqDecision BlockTransferError.
Proof. solve_decision. Defined.
