(* ===== verification/MsgTypes.v ===== *)
(** * Message types: header fields, tokens and codes

    [src/message/mod.rs] and the owned extended token of
    [src/message/extended.rs].  [OwnedToken] is the trait of the same name; its
    documented contract is the class [OwnedTokenLaws], which the compact and
    the extended token both meet and against which the decoder is proved. *)
From S2P Require Import Prelude Errors.

(** ** Message type, the header's T field *)
Inductive MType : Type := Confirmable | NonConfirmable | Acknowledgement | Reset.

Definition Type_from_bits (bits : Z) : option MType :=
  match bits with
  | 0 => Some Confirmable
  | 1 => Some NonConfirmable
  | 2 => Some Acknowledgement
  | 3 => Some Reset
  | _ => None
  end.

Definition Type_to_bits (t : MType) : Z :=
  match t with
  | Confirmable => 0
  | NonConfirmable => 1
  | Acknowledgement => 2
  | Reset => 3
  end.

#[export] Instance MType_eq_dec : EqDecision MType.
Proof. solve_decision. Defined.

(** ** Message ID, a [u16] *)
Definition MessageId : Type := Z.
Definition MessageId_wrapping_add (id : MessageId) (n : Z) : MessageId := wrapping_add 16 id n.

(** ** Code, a [u8] of a 3-bit class and a 5-bit detail *)
Definition Code : Type := Z.

Definition pack_code (class detail : Z) : Z := Z.lor (shl 8 class 5) detail.

Definition Code_EMPTY : Code := 0.
Definition Code_GET : Code := 1.
Definition Code_POST : Code := 2.
Definition Code_PUT : Code := 3.
Definition Code_DELETE : Code := 4.
Definition Code_FETCH : Code := 5.
Definition Code_PATCH : Code := 6.
Definition Code_IPATCH : Code := 7.
Definition Code_CREATED : Code := pack_code 2 1.
Definition Code_DELETED : Code := pack_code 2 2.
Definition Code_VALID : Code := pack_code 2 3.
Definition Code_CHANGED : Code := pack_code 2 4.
Definition Code_CONTENT : Code := pack_code 2 5.
Definition Code_CONTINUE : Code := pack_code 2 31.
Definition Code_BAD_REQUEST : Code := pack_code 4 0.
Definition Code_BAD_OPTION : Code := pack_code 4 2.
Definition Code_REQUEST_ENTITY_INCOMPLETE : Code := pack_code 4 8.
Definition Code_PRECONDITION_FAILED : Code := pack_code 4 12.
Definition Code_REQUEST_ENTITY_TOO_LARGE : Code := pack_code 4 13.
Definition Code_HOP_LIMIT_REACHED : Code := pack_code 5 8.

Definition Code_from_raw (raw : Z) : Code := raw.
Definition Code_as_raw (c : Code) : Z := c.

Definition Code_from_class_detail (class detail : Z) : option Code :=
  if (7 <? class) || (31 <? detail) then None else Some (pack_code class detail).

Definition Code_class (c : Code) : Z := Z.shiftr c 5.
Definition Code_detail (c : Code) : Z := Z.land c 31.
Definition Code_is_empty (c : Code) : bool := c =? 0.
Definition Code_is_request (c : Code) : bool := (Code_class c =? 0) && negb (Code_is_empty c).
Definition Code_is_safe (c : Code) : bool := (c =? Code_GET) || (c =? Code_FETCH).
Definition Code_is_idempotent (c : Code) : bool :=
  (c =? Code_GET) || (c =? Code_PUT) || (c =? Code_DELETE) || (c =? Code_FETCH)
  || (c =? Code_IPATCH).
Definition Code_is_response (c : Code) : bool :=
  (Code_class c =? 2) || (Code_class c =? 4) || (Code_class c =? 5).
Definition Code_is_success (c : Code) : bool := Code_class c =? 2.
Definition Code_is_client_error (c : Code) : bool := Code_class c =? 4.
Definition Code_is_server_error (c : Code) : bool := Code_class c =? 5.

(** ** Parsed header *)
Record Header : Type := mkHeader {
  hdr_version : Z;
  hdr_ty : MType;
  hdr_tkl : Z;
  hdr_code : Code;
  hdr_id : MessageId
}.

(** ** Transmission parameters *)
Definition ACK_TIMEOUT_MS : Z := 2000.
Definition ACK_RANDOM_FACTOR_NUM : Z := 3.
Definition ACK_RANDOM_FACTOR_DEN : Z := 2.
Definition ACK_RANDOM_SPAN_MS : Z :=
  ACK_TIMEOUT_MS / ACK_RANDOM_FACTOR_DEN * (ACK_RANDOM_FACTOR_NUM - ACK_RANDOM_FACTOR_DEN).
Definition MAX_RETRANSMIT : Z := 4.
Definition NSTART : Z := 1.
Definition MAX_TRANSMIT_SPAN_MS : Z := 45000.
Definition EXCHANGE_LIFETIME_MS : Z := 247000.
Definition NON_LIFETIME_MS : Z := 145000.

Definition initial_timeout_ms (jitter_ms : Z) : Z :=
  let extra := if ACK_RANDOM_SPAN_MS <? jitter_ms then ACK_RANDOM_SPAN_MS else jitter_ms in
  saturating_add 32 ACK_TIMEOUT_MS extra.

(** ** The compact token: eight bytes of storage and a length *)
Record Token : Type := mkToken { tok_bytes : list Z; tok_len : Z }.
#[export] Instance Token_eq_dec : EqDecision Token.
Proof. solve_decision. Defined.

Definition Token_MAX_LEN : nat := 8.
Definition Token_EMPTY : Token := mkToken (replicate 8 0) 0.

(** The copy loop of [from_checked]: [k] bytes are left, [i] is the index. *)
Fixpoint Token_copy_loop {E} (k i : nat) (bytes : list Z) (buf : list Z) : res E (list Z) :=
  match k with
  | O => Ok buf
  | S k =>
      b ← idx bytes i;
      buf ← set_idx i b buf;
      Token_copy_loop k (S i) bytes buf
  end.

Definition Token_from_checked {E} (bytes : list Z) : res E Token :=
  let n := if (Token_MAX_LEN <? length bytes)%nat then Token_MAX_LEN else length bytes in
  buf ← Token_copy_loop n 0 bytes (tok_bytes Token_EMPTY);
  mret (mkToken buf (wrap 8 (Z.of_nat n))).

Definition Token_new {E} (bytes : list Z) : res E (option Token) :=
  if (Token_MAX_LEN <? length bytes)%nat then Ok None
  else t ← Token_from_checked bytes; mret (Some t).

Definition Token_as_bytes {E} (t : Token) : res E (list Z) :=
  slice_idx (tok_bytes t) 0 (Z.to_nat (tok_len t)).

Definition Token_is_empty (t : Token) : bool := tok_len t =? 0.

(** [as_bytes_mut().copy_from_slice(bs)]. *)
Definition Token_write {E} (t : Token) (bs : list Z) : res E Token :=
  buf ← copy_into 0 (Z.to_nat (tok_len t)) bs (tok_bytes t);
  mret (mkToken buf (tok_len t)).

Definition Token_try_zeroed (len : nat) : res CapacityError Token :=
  if (Token_MAX_LEN <? len)%nat then Err (mkCapacityError len Token_MAX_LEN)
  else Ok (mkToken (tok_bytes Token_EMPTY) (wrap 8 (Z.of_nat len))).

Definition Token_try_from_bytes (bytes : list Z) : res CapacityError Token :=
  o ← Token_new bytes;
  ok_or o (mkCapacityError (length bytes) Token_MAX_LEN).

(** ** The extended token: [N] bytes of storage and a length *)
Definition MAX_TOKEN_LEN : nat := Z.to_nat 65804.

Record XToken : Type := mkXToken { xtok_bytes : list Z; xtok_len : nat }.

Definition XToken_EMPTY (N : nat) : XToken := mkXToken (replicate N 0) 0.

Definition XToken_new (N : nat) (bytes : list Z) : res CapacityError XToken :=
  let available := Nat.min N MAX_TOKEN_LEN in
  if (available <? length bytes)%nat then Err (mkCapacityError (length bytes) available)
  else
    buf ← copy_into 0 (length bytes) bytes (xtok_bytes (XToken_EMPTY N));
    mret (mkXToken buf (length bytes)).

Definition XToken_as_bytes {E} (t : XToken) : res E (list Z) :=
  slice_idx (xtok_bytes t) 0 (xtok_len t).

Definition XToken_is_empty (t : XToken) : bool := (xtok_len t =? 0)%nat.

Definition XToken_write {E} (t : XToken) (bs : list Z) : res E XToken :=
  buf ← copy_into 0 (xtok_len t) bs (xtok_bytes t);
  mret (mkXToken buf (xtok_len t)).

Definition XToken_MAX_LEN (N : nat) : nat := if (N <? MAX_TOKEN_LEN)%nat then N else MAX_TOKEN_LEN.

Definition XToken_try_zeroed (N : nat) (len : nat) : res CapacityError XToken :=
  if (XToken_MAX_LEN N <? len)%nat then Err (mkCapacityError len (XToken_MAX_LEN N))
  else Ok (mkXToken (xtok_bytes (XToken_EMPTY N)) len).

(** ** The [OwnedToken] trait *)
Class OwnedToken (T : Type) : Type := {
  ot_EMPTY : T;
  ot_MAX_LEN : nat;
  ot_try_from_bytes : list Z → res CapacityError T;
  ot_try_zeroed : nat → res CapacityError T;
  ot_write {E} : T → list Z → res E T;
  ot_as_bytes {E} : T → res E (list Z)
}.

#[export] Instance Token_OwnedToken : OwnedToken Token := {
  ot_EMPTY := Token_EMPTY;
  ot_MAX_LEN := Token_MAX_LEN;
  ot_try_from_bytes := Token_try_from_bytes;
  ot_try_zeroed := Token_try_zeroed;
  ot_write := @Token_write;
  ot_as_bytes := @Token_as_bytes
}.

(** The const parameter [N] of an extended token. *)
#[local] Instance XToken_OwnedToken (N : nat) : OwnedToken XToken := {
  ot_EMPTY := XToken_EMPTY N;
  ot_MAX_LEN := XToken_MAX_LEN N;
  ot_try_from_bytes := XToken_new N;
  ot_try_zeroed := XToken_try_zeroed N;
  ot_write := @XToken_write;
  ot_as_bytes := @XToken_as_bytes
}.

(** What the trait's documentation demands of an implementation: successful
    construction preserves every byte, lengths above the capacity are refused,
    and equality is equality of length and bytes.  [ot_wf] holds of the values
    the operations build. *)
Class OwnedTokenLaws (T : Type) `{OwnedToken T} : Type := {
  ot_wf : T → Prop;
  ot_max_len_wire : (ot_MAX_LEN ≤ MAX_TOKEN_LEN)%nat;
  ot_empty_wf : ot_wf ot_EMPTY;
  ot_empty_bytes {E} : ot_as_bytes (E:=E) ot_EMPTY = Ok [];
  ot_wf_bytes t : ot_wf t → ∃ bs, (∀ E, ot_as_bytes (E:=E) t = Ok bs) ∧ (length bs ≤ ot_MAX_LEN)%nat;
  ot_from_bytes_ok bs :
    (length bs ≤ ot_MAX_LEN)%nat →
    ∃ t, ot_try_from_bytes bs = Ok t ∧ ot_wf t ∧ ∀ E, ot_as_bytes (E:=E) t = Ok bs;
  ot_from_bytes_err bs :
    (ot_MAX_LEN < length bs)%nat →
    ot_try_from_bytes bs = Err (mkCapacityError (length bs) ot_MAX_LEN);
  ot_zeroed_ok n :
    (n ≤ ot_MAX_LEN)%nat →
    ∃ t, ot_try_zeroed n = Ok t ∧ ot_wf t ∧ ∀ E, ot_as_bytes (E:=E) t = Ok (replicate n 0);
  ot_zeroed_err n :
    (ot_MAX_LEN < n)%nat → ot_try_zeroed n = Err (mkCapacityError n ot_MAX_LEN);
  ot_write_ok t old bs :
    ot_wf t → (∀ E, ot_as_bytes (E:=E) t = Ok old) → length bs = length old →
    ∃ u, (∀ E, ot_write (E:=E) t bs = Ok u) ∧ ot_wf u ∧ ∀ E, ot_as_bytes (E:=E) u = Ok bs;
  ot_eq_bytes t u :
    ot_wf t → ot_wf u → ot_as_bytes (E:=unit) t = ot_as_bytes (E:=unit) u → t = u
}.

(** ** Lemmas on types and codes *)
Lemma Type_bits_ok (t : MType) : in_u 2 (Type_to_bits t).
Proof. by destruct t. Qed.

Lemma Type_bits_roundtrip (t : MType) : Type_from_bits (Type_to_bits t) = Some t.
Proof. by destruct t. Qed.

Lemma Type_from_bits_Some (b : Z) t : Type_from_bits b = Some t ↔ b = Type_to_bits t.
Proof.
  split; [|intros ->; apply Type_bits_roundtrip].
  unfold Type_from_bits. intros H.
  destruct b as [|p|p]; [by simplify_eq|..]; [|done].
  by destruct p as [[|[]|]|[[]|[]|]|]; simplify_eq.
Qed.

Lemma pack_code_sum (c d : Z) : in_u 3 c → in_u 5 d → pack_code c d = 32 * c + d.
Proof.
  unfold in_u. intros Hc Hd. unfold pack_code, shl.
  rewrite Z.shiftl_mul_pow2, wrap_small by (unfold in_u; lia).
  rewrite <- Z.shiftl_mul_pow2, lor_shiftl_add by lia. lia.
Qed.

(** ** Lemmas on tokens *)
Lemma slice_idx_prefix {E} (buf : list Z) n :
  (n ≤ length buf)%nat → slice_idx (E:=E) buf 0 n = Ok (take n buf).
Proof.
  intros H. unfold slice_idx, slice_get. rewrite (proj2 (Nat.leb_le n _)) by done.
  simpl. by rewrite Nat.sub_0_r, drop_0.
Qed.

Lemma splice_0 {A} (buf src : list A) : splice buf 0 src = src ++ drop (length src) buf.
Proof. done. Qed.

Lemma Token_copy_loop_splice {E} (k i : nat) (bytes buf : list Z) :
  (i + k ≤ length bytes)%nat → (i + k ≤ length buf)%nat →
  Token_copy_loop (E:=E) k i bytes buf = Ok (splice buf i (take k (drop i bytes))).
Proof.
  revert i buf. induction k as [|k IH]; intros i buf Hb Hl; simpl.
  - by rewrite take_0, splice_nil.
  - destruct (lookup_lt_is_Some_2 bytes i) as [x Hx]; [lia|].
    unfold idx. rewrite Hx. simp_monad. rewrite set_idx_ok by lia.
    rewrite IH; [|lia|rewrite length_splice; simpl; lia].
    rewrite splice_splice; [|simpl; lia|rewrite length_take, length_drop; lia].
    by rewrite (drop_S bytes x i) by done.
Qed.

(** A padded array: the bytes, then zeroes up to the capacity. *)
Definition padded (N n : nat) (buf : list Z) : Prop :=
  (n ≤ N)%nat ∧ length buf = N ∧ drop n buf = replicate (N - n) 0.

Lemma padded_splice (N : nat) (bs : list Z) :
  (length bs ≤ N)%nat → padded N (length bs) (splice (replicate N 0) 0 bs).
Proof.
  intros H. rewrite splice_0, drop_replicate. repeat split; [done| |].
  - rewrite length_app, length_replicate. lia.
  - by rewrite drop_app_length.
Qed.

Lemma padded_write (N n : nat) (bs buf : list Z) :
  padded N n buf → length bs = n → padded N n (splice buf 0 bs).
Proof.
  intros (Hn & Hl & Hz) Hb. rewrite splice_0. repeat split; [done| |].
  - rewrite length_app, length_drop. lia.
  - rewrite drop_app_length' by done. by rewrite Hb.
Qed.

Lemma padded_inj (N n m : nat) (b c : list Z) :
  padded N n b → padded N m c → take n b = take m c → n = m ∧ b = c.
Proof.
  intros (Hn & Hb & Hzb) (Hm & Hc & Hzc) Ht.
  assert (n = m) as <-.
  { apply (f_equal length) in Ht. rewrite !length_take in Ht. lia. }
  split; [done|]. by rewrite <- (take_drop n b), <- (take_drop n c), Ht, Hzb, Hzc.
Qed.

Lemma take_splice_0 {A} (buf src : list A) : take (length src) (splice buf 0 src) = src.
Proof. by rewrite splice_0, take_app_length. Qed.

Definition Token_wf (t : Token) : Prop :=
  0 ≤ tok_len t ∧ padded 8 (Z.to_nat (tok_len t)) (tok_bytes t).

(** What [from_checked] builds: the first eight bytes of its input. *)
Lemma Token_from_checked_spec {E} (bs : list Z) :
  Token_from_checked (E:=E) bs =
  Ok (mkToken (splice (replicate 8 0) 0 (take 8 bs)) (Z.of_nat (Nat.min 8 (length bs)))).
Proof.
  unfold Token_from_checked, Token_MAX_LEN.
  set (n := if (8 <? length bs)%nat then 8%nat else length bs).
  assert (n = Nat.min 8 (length bs)) as Hn by (unfold n; case_match; bools; lia).
  rewrite Hn, Token_copy_loop_splice;
    [|lia|change (length (tok_bytes Token_EMPTY)) with 8%nat; lia].
  unbind.
  rewrite drop_0, wrap_small by (unfold in_u; lia). do 2 f_equal.
  destruct (Nat.le_ge_cases (length bs) 8).
  - by rewrite Nat.min_r, !take_ge.
  - by rewrite Nat.min_l.
Qed.

Lemma Token_from_checked_ok {E} (bs : list Z) :
  (length bs ≤ 8)%nat →
  ∃ t, Token_from_checked (E:=E) bs = Ok t ∧ Token_wf t ∧ ∀ E', Token_as_bytes (E:=E') t = Ok bs.
Proof.
  intros H. eexists. rewrite Token_from_checked_spec. split; [done|].
  rewrite take_ge, Nat.min_r by done.
  pose proof (padded_splice 8 bs H) as Hp. split.
  - split; simpl; [lia|]. by rewrite Nat2Z.id.
  - intros E'. unfold Token_as_bytes. cbn [tok_bytes tok_len]. rewrite Nat2Z.id.
    rewrite slice_idx_prefix by (destruct Hp as (_ & -> & _); done).
    by rewrite take_splice_0.
Qed.

Lemma Token_wf_bytes t :
  Token_wf t →
  (∀ E, Token_as_bytes (E:=E) t = Ok (take (Z.to_nat (tok_len t)) (tok_bytes t))) ∧
  (length (take (Z.to_nat (tok_len t)) (tok_bytes t)) = Z.to_nat (tok_len t)) ∧
  (Z.to_nat (tok_len t) ≤ 8)%nat.
Proof.
  intros (H0 & Hn & Hl & _). split; [|split; [rewrite length_take; lia|done]].
  intros E. unfold Token_as_bytes. by rewrite slice_idx_prefix by lia.
Qed.

#[export, refine] Instance Token_laws : OwnedTokenLaws Token := {| ot_wf := Token_wf |}.
Proof.
  - cbn [ot_MAX_LEN Token_OwnedToken]. unfold Token_MAX_LEN, MAX_TOKEN_LEN. lia.
  - split; [done|]. repeat split; simpl; lia.
  - done.
  - intros t (H & Hl & Hn)%Token_wf_bytes. eexists. split; [done|]. by rewrite Hl.
  - intros bs Hl. destruct (Token_from_checked_ok (E:=CapacityError) bs Hl) as (t & Ht & Hw & Hb).
    exists t. split; [|done]. simpl. unfold Token_try_from_bytes, Token_new.
    rewrite (proj2 (Nat.ltb_ge _ _)) by done. rewrite Ht. done.
  - intros bs Hl. simpl. unfold Token_try_from_bytes, Token_new.
    by rewrite (proj2 (Nat.ltb_lt _ _)) by done.
  - simpl. intros n Hn. unfold Token_try_zeroed. rewrite (proj2 (Nat.ltb_ge _ _)) by done.
    eexists. split; [done|]. unfold Token_wf, Token_as_bytes. cbn [tok_bytes tok_len].
    unfold Token_MAX_LEN in Hn. rewrite wrap_small by (unfold in_u; lia). rewrite Nat2Z.id.
    split; [split; [lia|]|].
    + repeat split; [done|]. apply drop_replicate.
    + intros E. rewrite slice_idx_prefix by done. unfold Token_EMPTY. cbn [tok_bytes].
      by rewrite take_replicate, Nat.min_l.
  - intros n Hn. simpl. unfold Token_try_zeroed. by rewrite (proj2 (Nat.ltb_lt _ _)) by done.
  - simpl. intros t old bs Hw Hold Hl.
    destruct (Token_wf_bytes t Hw) as (Hb & Hlen & H8).
    specialize (Hold unit). rewrite Hb in Hold. simplify_eq. destruct Hw as [H0 Hp].
    exists (mkToken (splice (tok_bytes t) 0 bs) (tok_len t)).
    assert (length bs = Z.to_nat (tok_len t)) as Hbs by congruence.
    assert (Token_wf (mkToken (splice (tok_bytes t) 0 bs) (tok_len t))) as Hw'.
    { split; [done|]. by apply padded_write. }
    split; [|split; [done|]].
    + intros E. unfold Token_write. rewrite copy_into_ok; [done|simpl; lia|].
      destruct Hp as (? & ? & _). lia.
    + intros E. apply Token_wf_bytes in Hw' as [-> _]. cbn [tok_bytes tok_len].
      by rewrite <- Hbs, take_splice_0.
  - simpl. intros t u Ht Hu.
    rewrite (proj1 (Token_wf_bytes t Ht)), (proj1 (Token_wf_bytes u Hu)).
    destruct t as [b n], u as [c m], Ht as [Hn Hb], Hu as [Hm Hc]. cbn [tok_bytes tok_len] in *.
    intros [= He]. destruct (padded_inj _ _ _ _ _ Hb Hc He) as [? ->]. f_equal. lia.
Defined.

Definition XToken_wf (N : nat) (t : XToken) : Prop :=
  padded N (xtok_len t) (xtok_bytes t) ∧ (xtok_len t ≤ MAX_TOKEN_LEN)%nat.

Lemma XToken_MAX_LEN_min N : XToken_MAX_LEN N = Nat.min N MAX_TOKEN_LEN.
Proof. unfold XToken_MAX_LEN. case_match; bools; lia. Qed.

Lemma XToken_wf_bytes N t :
  XToken_wf N t →
  (∀ E, XToken_as_bytes (E:=E) t = Ok (take (xtok_len t) (xtok_bytes t))) ∧
  length (take (xtok_len t) (xtok_bytes t)) = xtok_len t.
Proof.
  intros ((Hn & Hl & _) & _). split; [|rewrite length_take; lia].
  intros E. unfold XToken_as_bytes. by rewrite slice_idx_prefix by lia.
Qed.

(** Overwriting the used part of a padded array keeps it well formed. *)
Lemma XToken_splice_wf N (bs buf : list Z) n :
  padded N n buf → n = length bs → (n ≤ MAX_TOKEN_LEN)%nat →
  XToken_wf N (mkXToken (splice buf 0 bs) n) ∧
  ∀ E, XToken_as_bytes (E:=E) (mkXToken (splice buf 0 bs) n) = Ok bs.
Proof.
  intros Hp Hn Hm. assert (XToken_wf N (mkXToken (splice buf 0 bs) n)) as Hw.
  { split; [|done]. by apply padded_write. }
  split; [done|]. intros E. rewrite (proj1 (XToken_wf_bytes _ _ Hw)). cbn [xtok_len xtok_bytes].
  by rewrite Hn, take_splice_0.
Qed.

#[local, refine] Instance XToken_laws (N : nat) : @OwnedTokenLaws XToken (XToken_OwnedToken N) :=
  {| ot_wf := XToken_wf N |}.
Proof.
  all: cbn [ot_MAX_LEN ot_EMPTY ot_as_bytes ot_try_from_bytes ot_try_zeroed ot_write
            XToken_OwnedToken]; rewrite ?XToken_MAX_LEN_min.
  - lia.
  - repeat split; simpl; [lia|by rewrite length_replicate| |lia].
    by rewrite drop_0, Nat.sub_0_r.
  - intros E. unfold XToken_as_bytes. simpl. rewrite slice_idx_prefix by lia. by rewrite take_0.
  - intros t Hw. destruct (XToken_wf_bytes N t Hw) as [H Hl]. eexists. split; [done|].
    rewrite Hl. destruct Hw as [[? _] ?]. lia.
  - intros bs Hl. unfold XToken_new. rewrite (proj2 (Nat.ltb_ge _ _)) by done.
    rewrite copy_into_ok; [|done|simpl; rewrite length_replicate; lia].
    eexists. split; [done|]. cbn [XToken_EMPTY xtok_bytes]. split.
    + split; [|simpl; lia]. apply padded_splice. lia.
    + intros E. unfold XToken_as_bytes. cbn [xtok_len xtok_bytes].
      rewrite slice_idx_prefix by (rewrite length_splice; rewrite length_replicate; lia).
      by rewrite take_splice_0.
  - intros bs Hl. unfold XToken_new. by rewrite (proj2 (Nat.ltb_lt _ _)) by done.
  - intros n Hn. unfold XToken_try_zeroed. rewrite XToken_MAX_LEN_min.
    rewrite (proj2 (Nat.ltb_ge _ _)) by done. eexists. split; [done|]. split.
    + split; [|simpl; lia]. repeat split; simpl; [lia|apply length_replicate|apply drop_replicate].
    + intros E. unfold XToken_as_bytes. simpl.
      rewrite slice_idx_prefix by (rewrite length_replicate; lia).
      by rewrite take_replicate, Nat.min_l by lia.
  - intros n Hn. unfold XToken_try_zeroed. rewrite XToken_MAX_LEN_min.
    by rewrite (proj2 (Nat.ltb_lt _ _)) by done.
  - intros t old bs Hw Hold Hl. destruct (XToken_wf_bytes N t Hw) as [Hb Hlen].
    specialize (Hold unit). rewrite Hb in Hold. simplify_eq. destruct Hw as [Hp Hm].
    destruct (XToken_splice_wf N bs (xtok_bytes t) (xtok_len t)) as [? ?]; [done|lia|done|].
    exists (mkXToken (splice (xtok_bytes t) 0 bs) (xtok_len t)).
    split; [|done]. intros E. unfold XToken_write. destruct Hp as (? & ? & _).
    rewrite copy_into_ok by lia. done.
  - intros t u Ht Hu.
    rewrite (proj1 (XToken_wf_bytes N t Ht)), (proj1 (XToken_wf_bytes N u Hu)).
    destruct t as [b n], u as [c m], Ht as [Hb _], Hu as [Hc _]. cbn [xtok_bytes xtok_len] in *.
    intros [= He]. by destruct (padded_inj _ _ _ _ _ Hb Hc He) as [-> ->].
Defined.
