(* ===== verification/Options.v ===== *)
(** * Options: numbers, the wire format and the option iterator

    [src/message/option.rs].  [read_option] is the one parser of option wire
    data; the decoder and the [Options] iterator both call it.  The reference
    encoding [opt_wire] of RFC 7252 section 3.1 is what it is proved against:
    it reads exactly the reference encodings, each from exactly one option. *)
From S2P Require Import Prelude Errors.

(** ** Option numbers, [u16]s *)
Definition OptionNumber : Type := Z.

Definition ON_IF_MATCH : OptionNumber := 1.
Definition ON_URI_HOST : OptionNumber := 3.
Definition ON_ETAG : OptionNumber := 4.
Definition ON_IF_NONE_MATCH : OptionNumber := 5.
Definition ON_OBSERVE : OptionNumber := 6.
Definition ON_URI_PORT : OptionNumber := 7.
Definition ON_LOCATION_PATH : OptionNumber := 8.
Definition ON_OSCORE : OptionNumber := 9.
Definition ON_URI_PATH : OptionNumber := 11.
Definition ON_CONTENT_FORMAT : OptionNumber := 12.
Definition ON_MAX_AGE : OptionNumber := 14.
Definition ON_URI_QUERY : OptionNumber := 15.
Definition ON_HOP_LIMIT : OptionNumber := 16.
Definition ON_ACCEPT : OptionNumber := 17.
Definition ON_Q_BLOCK1 : OptionNumber := 19.
Definition ON_LOCATION_QUERY : OptionNumber := 20.
Definition ON_BLOCK2 : OptionNumber := 23.
Definition ON_BLOCK1 : OptionNumber := 27.
Definition ON_SIZE2 : OptionNumber := 28.
Definition ON_Q_BLOCK2 : OptionNumber := 31.
Definition ON_PROXY_URI : OptionNumber := 35.
Definition ON_PROXY_SCHEME : OptionNumber := 39.
Definition ON_SIZE1 : OptionNumber := 60.
Definition ON_ECHO : OptionNumber := 252.
Definition ON_NO_RESPONSE : OptionNumber := 258.
Definition ON_REQUEST_TAG : OptionNumber := 292.

Definition OptionNumber_is_rfc7252 (n : OptionNumber) : bool :=
  existsb (Z.eqb n) [1; 3; 4; 5; 7; 8; 11; 12; 14; 15; 17; 20; 35; 39; 60].

Definition OptionNumber_is_known (n : OptionNumber) : bool :=
  OptionNumber_is_rfc7252 n
  || existsb (Z.eqb n)
       [ON_OBSERVE; ON_OSCORE; ON_HOP_LIMIT; ON_Q_BLOCK1; ON_BLOCK2; ON_BLOCK1; ON_SIZE2;
        ON_Q_BLOCK2; ON_ECHO; ON_NO_RESPONSE; ON_REQUEST_TAG].

Definition OptionNumber_is_critical (n : OptionNumber) : bool := Z.land n 1 =? 1.
Definition OptionNumber_is_unsafe (n : OptionNumber) : bool := Z.land n 2 =? 2.
Definition OptionNumber_is_no_cache_key (n : OptionNumber) : bool := Z.land n 30 =? 28.

(** ** One option: number and value bytes *)
Record Opt : Type := mkOpt { opt_number : OptionNumber; opt_value : list Z }.

#[export] Instance Opt_eq_dec : EqDecision Opt.
Proof. solve_decision. Defined.

(** ** Reading options

    The cursor [i] and the running number [prev] are the two [&mut]
    arguments. *)
Definition decode_u16_be (b0 b1 : Z) : Z := from_be [b0; b1].

Definition take_extended (bytes : list Z) (n : Z) : st (nat * Z) ParseError Z :=
  '(i, prev) ← st_get;
  match n with
  | 13 =>
      extra ← st_lift (ok_or (bytes !! i) TruncatedOption);
      st_put (S i, prev);;
      mret (13 + extra)
  | 14 =>
      if (length bytes <=? i + 1)%nat then st_fail TruncatedOption
      else
        b0 ← st_lift (idx bytes i);
        b1 ← st_lift (idx bytes (i + 1)%nat);
        st_put ((i + 2)%nat, prev);;
        mret (269 + decode_u16_be b0 b1)
  | _ => mret n
  end.

Section read.
  Context `{Target}.

Definition read_option (bytes : list Z) : st (nat * Z) ParseError Opt :=
  '(i, prev) ← st_get;
  head ← st_lift (ok_or (bytes !! i) TruncatedOption);
  st_put (S i, prev);;
  let delta := Z.shiftr head 4 in
  let len := Z.land head 15 in
  if delta =? 15 then st_fail ReservedOptionDelta
  else if len =? 15 then st_fail ReservedOptionLength
  else
    delta ← take_extended bytes delta;
    len ← take_extended bytes len;
    '(start, prev) ← st_get;
    number ← st_lift (ok_or
      (match checked_add 32 prev delta with
       | Some n => if n <=? 65535 then Some n else None
       | None => None
       end) OptionNumberOverflow);
    st_put (start, number);;
    value_len ← st_lift (ok_or (usize_try_from len) TruncatedOption);
    end_ ← st_lift (ok_or (usize_checked_add start value_len) TruncatedOption);
    if (length bytes <? end_)%nat then st_fail TruncatedOption
    else
      st_put (end_, number);;
      value ← st_lift (slice_idx bytes start end_);
      mret (mkOpt (wrap 16 number) value).

(** ** The [Options] iterator *)
Record Options : Type := mkOptions { os_bytes : list Z; os_i : nat; os_prev : Z }.

Definition Options_new (bytes : list Z) : Options := mkOptions bytes 0 0.

(** [next]: [.ok()] turns a parse error into the end of the iteration. *)
Definition Options_next {E} (o : Options) : Options * res E (option Opt) :=
  if (length (os_bytes o) <=? os_i o)%nat then (o, Ok None)
  else
    let '((i, prev), r) := read_option (os_bytes o) (os_i o, os_prev o) in
    (mkOptions (os_bytes o) i prev,
     match r with
     | Ok opt => Ok (Some opt)
     | Err _ => Ok None
     | Panic => Panic
     | Diverge => Diverge
     end).

(** Iteration until [None], as a [for] loop or [find_map] consumes it. *)
Fixpoint Options_collect {E} (fuel : nat) (o : Options) : res E (list Opt) :=
  match fuel with
  | O => Diverge
  | S fuel =>
      let '(o', r) := Options_next o in
      next ← r;
      match next with
      | None => mret []
      | Some opt => rest ← Options_collect fuel o'; mret (opt :: rest)
      end
  end.

(** Each option takes at least one byte, so [length bytes + 1] calls of
    [next] reach the end. *)
Definition Options_iter {E} (bytes : list Z) : res E (list Opt) :=
  Options_collect (S (length bytes)) (Options_new bytes).

End read.

(** ** Reference wire format (RFC 7252 section 3.1) *)
Definition ext_field (n : Z) : Z * list Z :=
  if n <? 13 then (n, [])
  else if n <? 269 then (13, [n - 13])
  else (14, [(n - 269) / 256; (n - 269) mod 256]).

Definition opt_wire (delta : Z) (value : list Z) : list Z :=
  let '(dn, de) := ext_field delta in
  let '(ln, le) := ext_field (Z.of_nat (length value)) in
  (16 * dn + ln) :: de ++ le ++ value.

Fixpoint options_wire (prev : Z) (os : list Opt) : list Z :=
  match os with
  | [] => []
  | o :: os => opt_wire (opt_number o - prev) (opt_value o) ++ options_wire (opt_number o) os
  end.

(** Options that have a wire form after the option number [prev]. *)
Fixpoint opts_wf (prev : Z) (os : list Opt) : Prop :=
  match os with
  | [] => True
  | o :: os =>
      prev ≤ opt_number o ≤ 65535 ∧ bytes_ok (opt_value o) ∧
      Z.of_nat (length (opt_value o)) ≤ 65804 ∧ opts_wf (opt_number o) os
  end.

(** ** Extended fields *)
Lemma ext_field_nibble (n : Z) : 0 ≤ n → 0 ≤ (ext_field n).1 < 15.
Proof. intros. unfold ext_field. repeat case_match; simpl; bools; lia. Qed.

Lemma ext_field_bytes (n : Z) : 0 ≤ n ≤ 65804 → bytes_ok (ext_field n).2.
Proof.
  intros. unfold ext_field. repeat case_match; simpl; bools; repeat constructor; try lia;
    change (2 ^ 8) with 256; div_lia.
Qed.

Lemma take_extended_wire (n : Z) (nib : Z) (ext pre post : list Z) i prev :
  0 ≤ n ≤ 65804 → ext_field n = (nib, ext) → i = length pre →
  take_extended (pre ++ ext ++ post) nib (i, prev) = (((i + length ext)%nat, prev), Ok n).
Proof.
  intros Hn He ->. unfold ext_field in He. repeat case_match; simplify_eq; bools.
  - assert (nib ≠ 13 ∧ nib ≠ 14) as [H13 H14] by lia. unfold take_extended. simp_monad.
    rewrite Nat.add_0_r. by repeat case_match.
  - unfold take_extended. simp_monad. rewrite lookup_app_mid by done. simpl.
    by rewrite Nat.add_1_r, Zplus_minus.
  - unfold take_extended. simp_monad.
    rewrite (proj2 (Nat.leb_gt _ _)) by (rewrite length_app; simpl; lia).
    unfold idx. rewrite lookup_app_mid by done.
    rewrite (lookup_app_r _ _ (length pre + 1)), Nat.add_sub' by lia. simpl.
    unfold decode_u16_be, from_be. cbn [foldl].
    do 2 f_equal. div_lia.
Qed.

Lemma take_extended_inv (bytes : list Z) (nib n : Z) i prev s :
  bytes_ok bytes → 0 ≤ nib < 15 → (i ≤ length bytes)%nat →
  take_extended bytes nib (i, prev) = (s, Ok n) →
  ∃ ext, ext_field n = (nib, ext) ∧ s = ((i + length ext)%nat, prev) ∧ 0 ≤ n ≤ 65804 ∧
    (i + length ext ≤ length bytes)%nat ∧ drop i bytes = ext ++ drop (i + length ext) bytes.
Proof.
  intros Hok Hnib Hi H. destruct (decide (nib = 13)) as [->|H13].
  { unfold take_extended in H. simp_monad. destruct (bytes !! i) as [x|] eqn:Hx; simplify_eq/=.
    pose proof (bytes_ok_lookup _ _ _ Hok Hx) as [? Hb]. change (2 ^ 8) with 256 in Hb.
    pose proof (lookup_lt_Some _ _ _ Hx). exists [x]. simpl. rewrite Nat.add_1_r.
    split; [|split; [done|split; [lia|split; [lia|by apply drop_S]]]].
    unfold ext_field. rewrite (proj2 (Z.ltb_ge _ _)), (proj2 (Z.ltb_lt _ _)) by lia.
    do 2 f_equal. lia. }
  destruct (decide (nib = 14)) as [->|H14].
  { unfold take_extended in H. simp_monad. case_match eqn:Hl; simplify_eq/=. bools.
    unfold idx in H. destruct (bytes !! i) as [x|] eqn:Hx; simplify_eq/=.
    destruct (bytes !! (i + 1)%nat) as [y|] eqn:Hy; simplify_eq/=.
    pose proof (bytes_ok_lookup _ _ _ Hok Hx) as [? Hbx].
    pose proof (bytes_ok_lookup _ _ _ Hok Hy) as [? Hby]. change (2 ^ 8) with 256 in *.
    exists [x; y]. unfold decode_u16_be, from_be. simpl.
    split; [|split; [done|split; [lia|split; [lia|]]]].
    - unfold ext_field. rewrite !(proj2 (Z.ltb_ge _ _)) by lia. do 2 f_equal; [div_lia|].
      f_equal. div_lia.
    - rewrite (drop_S _ _ _ Hx). f_equal. rewrite Nat.add_1_r in Hy. rewrite (drop_S _ _ _ Hy).
      do 2 f_equal. lia. }
  assert (take_extended bytes nib (i, prev) = ((i, prev), Ok nib)) as He.
  { unfold take_extended. simp_monad. by repeat case_match. }
  rewrite He in H. simplify_eq. exists []. simpl. rewrite Nat.add_0_r.
  split; [|by repeat split; lia].
  unfold ext_field. by rewrite (proj2 (Z.ltb_lt _ _)) by lia.
Qed.

(** ** [read_option] reads the reference encodings *)
Lemma opt_wire_bytes (delta : Z) (value : list Z) :
  0 ≤ delta ≤ 65804 → Z.of_nat (length value) ≤ 65804 → bytes_ok value →
  bytes_ok (opt_wire delta value).
Proof.
  intros Hd Hv Hb. unfold opt_wire.
  pose proof (ext_field_nibble delta) as Hdn. pose proof (ext_field_bytes delta Hd) as Hde.
  pose proof (ext_field_nibble (Z.of_nat (length value))) as Hln.
  pose proof (ext_field_bytes (Z.of_nat (length value))) as Hle.
  destruct (ext_field delta), (ext_field (Z.of_nat (length value))). simpl in *.
  apply bytes_ok_cons. split; [unfold in_u; lia|]. rewrite !bytes_ok_app. auto with lia.
Qed.

Lemma opt_wire_nonempty (delta : Z) (value : list Z) : opt_wire delta value ≠ [].
Proof. unfold opt_wire. by destruct (ext_field delta), (ext_field (Z.of_nat (length value))). Qed.

(** The first byte of an option is never the payload marker. *)
Lemma opt_wire_head (delta : Z) (value rest : list Z) b :
  0 ≤ delta → (opt_wire delta value ++ rest) !! O = Some b → b ≠ 255.
Proof.
  intros Hd. unfold opt_wire.
  pose proof (ext_field_nibble delta Hd). 
  pose proof (ext_field_nibble (Z.of_nat (length value))).
  destruct (ext_field delta), (ext_field (Z.of_nat (length value))). simpl in *.
  intros [= <-]. lia.
Qed.

Section read_lemmas.
  Context `{Target}.

(** A slice: its length is at most half the address space. *)
Definition slice_fits (bs : list Z) : Prop := 2 * Z.of_nat (length bs) ≤ usize_max.

Lemma nibbles (dn ln : Z) :
  0 ≤ dn < 15 → 0 ≤ ln < 15 →
  Z.shiftr (16 * dn + ln) 4 = dn ∧ Z.land (16 * dn + ln) 15 = ln.
Proof.
  intros. rewrite shiftr_pow, (land_mask _ 4) by lia. change (2 ^ 4) with 16. split; div_lia.
Qed.

Lemma read_option_wire (pre post value : list Z) (delta prev : Z) :
  slice_fits (pre ++ opt_wire delta value ++ post) →
  0 ≤ prev → 0 ≤ delta → prev + delta ≤ 65535 → Z.of_nat (length value) ≤ 65804 →
  read_option (pre ++ opt_wire delta value ++ post) (length pre, prev) =
    (((length pre + length (opt_wire delta value))%nat, prev + delta),
     Ok (mkOpt (prev + delta) value)).
Proof.
  intros Hfit Hp Hd Hs Hv. unfold opt_wire in *.
  destruct (ext_field delta) as [dn de] eqn:Ede.
  destruct (ext_field (Z.of_nat (length value))) as [ln le] eqn:Ele.
  pose proof (ext_field_nibble delta Hd) as Hdn.
  pose proof (ext_field_nibble (Z.of_nat (length value)) ltac:(lia)) as Hln.
  rewrite Ede in Hdn. rewrite Ele in Hln. simpl in Hdn, Hln.
  set (all := pre ++ _ ++ post) in *.
  assert (all = (pre ++ [16 * dn + ln]) ++ de ++ (le ++ value ++ post)) as H1.
  { unfold all. app_norm. }
  assert (all = (pre ++ [16 * dn + ln] ++ de) ++ le ++ (value ++ post)) as H2.
  { rewrite H1. app_norm. }
  assert (all = (pre ++ [16 * dn + ln] ++ de ++ le) ++ value ++ post) as H3.
  { rewrite H1. app_norm. }
  assert (Z.of_nat (length all) = Z.of_nat (length pre) + 1 + Z.of_nat (length de) +
    Z.of_nat (length le) + Z.of_nat (length value) + Z.of_nat (length post)) as Hlen.
  { rewrite H3, !length_app. simpl. lia. }
  pose proof usize_max_ge as Hmax. unfold slice_fits in Hfit.
  destruct (nibbles dn ln) as [Hsh Hla]; [done..|].
  unfold read_option. unbind.
  replace (all !! length pre) with (Some (16 * dn + ln)) by (symmetry; by apply lookup_app_mid).
  cbn [ok_or]. rewrite Hsh, Hla, !(proj2 (Z.eqb_neq _ _)) by lia.
  rewrite H1, (take_extended_wire delta), <- H1 by (done || lia || (rewrite length_app; simpl; lia)).
  rewrite H2, (take_extended_wire (Z.of_nat (length value))), <- H2
    by (done || lia || (rewrite !length_app; simpl; lia)).
  unfold checked_add, max_u. rewrite (proj2 (Z.leb_le _ _)), (proj2 (Z.leb_le _ _)) by lia.
  cbn [ok_or]. unfold usize_try_from. rewrite (proj2 (Z.leb_le _ _)) by lia. cbn [ok_or].
  unfold usize_checked_add. rewrite Nat2Z.id, (proj2 (Z.leb_le _ _)) by lia. cbn [ok_or].
  rewrite (proj2 (Nat.ltb_ge _ _)) by lia.
  unfold slice_idx. rewrite H3, slice_get_app by (rewrite !length_app; simpl; lia).
  rewrite wrap_small by (unfold in_u; lia). do 2 f_equal. cbn [length]. rewrite !length_app. lia.
Qed.

Lemma read_option_inv (bytes : list Z) i prev s o :
  bytes_ok bytes → 0 ≤ prev → read_option bytes (i, prev) = (s, Ok o) →
  prev ≤ opt_number o ≤ 65535 ∧ Z.of_nat (length (opt_value o)) ≤ 65804 ∧
  bytes_ok (opt_value o) ∧
  s = ((i + length (opt_wire (opt_number o - prev) (opt_value o)))%nat, opt_number o) ∧
  (i + length (opt_wire (opt_number o - prev) (opt_value o)) ≤ length bytes)%nat ∧
  drop i bytes = opt_wire (opt_number o - prev) (opt_value o) ++ drop s.1 bytes.
Proof.
  intros Hok Hp H0. unfold read_option in H0. unbind.
  destruct (bytes !! i) as [head|] eqn:Hh; simplify_eq/=.
  pose proof (bytes_ok_lookup _ _ _ Hok Hh) as Hhd. unfold in_u in Hhd.
  pose proof (lookup_lt_Some _ _ _ Hh) as Hil.
  rewrite shiftr_pow, (land_mask _ 4) in H0 by lia. change (2 ^ 4) with 16 in H0.
  destruct (head / 16 =? 15) eqn:E1; simplify_eq/=.
  destruct (head mod 16 =? 15) eqn:E2; simplify_eq/=. bools.
  destruct (take_extended bytes (head / 16) _) as [s1 [delta| | |]] eqn:T1; simplify_eq/=.
  apply take_extended_inv in T1 as (de & Ede & -> & Hd & Hl1 & Hdr1); [|done|div_lia|lia].
  destruct (take_extended bytes (head mod 16) _) as [s2 [len| | |]] eqn:T2; simplify_eq/=.
  apply take_extended_inv in T2 as (le & Ele & -> & Hlen & Hl2 & Hdr2); [|done|div_lia|lia].
  unfold checked_add, max_u in H0. destruct (_ <=? _) eqn:E3 in H0; simplify_eq/=.
  destruct (_ <=? 65535) eqn:E4; simplify_eq/=.
  unfold usize_try_from in H0. destruct (len <=? usize_max) eqn:E5; simplify_eq/=.
  unfold usize_checked_add in H0. destruct (Z.of_nat _ <=? usize_max) eqn:E6; simplify_eq/=.
  case_match eqn:E7; simplify_eq/=. bools.
  unfold slice_idx in H0. destruct (slice_get _ _ _) as [value|] eqn:Hv; simplify_eq/=.
  pose proof (slice_get_length _ _ _ _ Hv) as Hvl.
  apply slice_get_Some in Hv as [Hr Hv]. rewrite wrap_small by (unfold in_u; lia).
  assert (Z.of_nat (length value) = len) as Hvlen by lia.
  replace (prev + delta - prev) with delta by lia.
  assert (opt_wire delta value = head :: de ++ le ++ value) as Hw.
  { unfold opt_wire. rewrite Ede, Hvlen, Ele. f_equal. div_lia. }
  rewrite Hw. simpl. rewrite !length_app.
  split; [lia|]. split; [lia|]. split.
  { rewrite Hv. by apply bytes_ok_take, bytes_ok_drop. }
  split; [f_equal; lia|]. split; [lia|].
  rewrite (drop_S _ _ _ Hh). f_equal. rewrite Hdr1, <- app_assoc. f_equal.
  rewrite Hdr2, <- app_assoc. f_equal.
  rewrite <- (take_drop (length value) (drop (S (i + length de + length le)) bytes)).
  f_equal; [by rewrite Hvl|]. rewrite drop_drop. f_equal. lia.
Qed.

(** ** No panic, and progress *)
Lemma take_extended_returns (bytes : list Z) (n : Z) s :
  returns (take_extended bytes n s).2 ∧ (s.1 ≤ (take_extended bytes n s).1.1)%nat.
Proof.
  destruct s as [i prev]. destruct (decide (n = 13)) as [->|H13].
  { unfold take_extended. simp_monad. destruct (bytes !! i); simpl; [split; [done|lia]|done]. }
  destruct (decide (n = 14)) as [->|H14].
  { unfold take_extended. simp_monad. case_match eqn:Hl; simpl; [done|]. bools.
    destruct (lookup_lt_is_Some_2 bytes i) as [x Hx]; [lia|].
    destruct (lookup_lt_is_Some_2 bytes (i + 1)) as [y Hy]; [lia|].
    unfold idx. rewrite Hx, Hy. simpl. split; [done|lia]. }
  assert (take_extended bytes n (i, prev) = ((i, prev), Ok n)) as ->.
  { unfold take_extended. simp_monad. by repeat case_match. }
  done.
Qed.

Lemma read_option_returns (bytes : list Z) s :
  returns (read_option bytes s).2 ∧
  (is_Some (res_ok (read_option bytes s).2) → (s.1 < (read_option bytes s).1.1 ≤ length bytes)%nat).
Proof.
  destruct s as [i prev]. unfold read_option. unbind.
  destruct (bytes !! i) as [head|]; simpl; [|by split; [|intros []]].
  case_match; [by split; [|intros []]|]. case_match; [by split; [|intros []]|].
  pose proof (take_extended_returns bytes (Z.shiftr head 4) (S i, prev)) as [R1 P1].
  destruct (take_extended bytes (Z.shiftr head 4) (S i, prev)) as [s1 [delta| | |]];
    simpl in *; try (by split; [|intros []]).
  pose proof (take_extended_returns bytes (Z.land head 15) s1) as [R2 P2].
  destruct (take_extended bytes (Z.land head 15) s1) as [[start p2] [len| | |]];
    simpl in *; try (by split; [|intros []]).
  destruct (ok_or _ OptionNumberOverflow) as [number| | |] eqn:En; simpl;
    try (by split; [|intros []]); try (unfold ok_or in En; by case_match).
  destruct (ok_or (usize_try_from len) _) as [vl| | |] eqn:Ev; simpl;
    try (by split; [|intros []]); try (unfold ok_or in Ev; by case_match).
  unfold usize_checked_add.
  destruct (Z.of_nat _ <=? usize_max); simpl; [|by split; [|intros []]].
  destruct (length bytes <? start + vl)%nat eqn:El; simpl; [by split; [|intros []]|]. bools.
  unfold slice_idx, slice_get.
  rewrite (proj2 (Nat.leb_le _ _)), (proj2 (Nat.leb_le _ _)) by lia. simpl.
  split; [done|]. intros _. lia.
Qed.

Lemma Options_collect_S {E} (fuel : nat) (o : Options) :
  Options_collect (E:=E) (S fuel) o =
  (let '(o', r) := Options_next o in
   next ← r;
   match next with
   | None => mret []
   | Some opt => rest ← Options_collect fuel o'; mret (opt :: rest)
   end).
Proof. done. Qed.

(** The iterator over any bytes ends, without a panic. *)
Lemma Options_collect_total {E} (fuel : nat) (o : Options) :
  (length (os_bytes o) ≤ os_i o + fuel)%nat →
  ∃ os, Options_collect (E:=E) (S fuel) o = Ok os.
Proof.
  revert o. induction fuel as [|fuel IH]; intros [bs i prev] Hf; simpl in Hf;
    rewrite Options_collect_S; unfold Options_next; cbn [os_bytes os_i os_prev].
  { rewrite (proj2 (Nat.leb_le _ _)) by lia. by eexists. }
  destruct (length bs <=? i)%nat; [by eexists|]. destruct (read_option_returns bs (i, prev)) as [R P].
  destruct (read_option bs (i, prev)) as [[i' p'] [opt| | |]]; try done; simpl in P.
  - destruct P as [Hi Hl]; [done|].
    destruct (IH (mkOptions bs i' p')) as [os Hos]; [simpl; lia|].
    exists (opt :: os). unbind. by rewrite Hos.
  - by eexists.
Qed.

Lemma Options_iter_total {E} (bytes : list Z) : ∃ os, Options_iter (E:=E) bytes = Ok os.
Proof. apply Options_collect_total. simpl. lia. Qed.

(** ** Iterating over reference encodings *)
Lemma options_wire_bytes (prev : Z) (os : list Opt) :
  0 ≤ prev → opts_wf prev os → bytes_ok (options_wire prev os).
Proof.
  revert prev. induction os as [|o os IH]; intros prev Hp Hw; simpl; [constructor|].
  destruct Hw as (Hn & Hb & Hl & Hw). apply bytes_ok_app. split.
  - apply opt_wire_bytes; [lia|done|done].
  - apply IH; [lia|done].
Qed.

Lemma Options_collect_wire {E} (os : list Opt) (pre : list Z) (prev : Z) fuel :
  slice_fits (pre ++ options_wire prev os) → 0 ≤ prev → opts_wf prev os →
  (length os < fuel)%nat →
  Options_collect (E:=E) fuel (mkOptions (pre ++ options_wire prev os) (length pre) prev) = Ok os.
Proof.
  revert pre prev fuel. induction os as [|o os IH]; intros pre prev fuel Hfit Hp Hw Hf;
    (destruct fuel as [|fuel]; [simpl in Hf; lia|]); rewrite Options_collect_S; unfold Options_next;
    cbn [os_bytes os_i os_prev].
  - rewrite (proj2 (Nat.leb_le _ _)); [done|]. simpl. rewrite app_nil_r. lia.
  - destruct Hw as (Hn & Hb & Hl & Hw). cbn [options_wire] in *.
    pose proof (opt_wire_nonempty (opt_number o - prev) (opt_value o)) as Hne.
    rewrite (proj2 (Nat.leb_gt _ _)).
    2: { rewrite !length_app. destruct (opt_wire _ _); [done|simpl; lia]. }
    rewrite read_option_wire by (done || lia). unbind.
    replace (prev + (opt_number o - prev)) with (opt_number o) by lia.
    rewrite app_assoc, <- length_app. rewrite IH.
    + by destruct o.
    + by rewrite <- app_assoc.
    + lia.
    + done.
    + simpl in Hf. lia.
Qed.

Lemma length_options_wire (prev : Z) (os : list Opt) :
  (length os ≤ length (options_wire prev os))%nat.
Proof.
  revert prev. induction os as [|o os IH]; intros prev; simpl; [done|].
  rewrite length_app. specialize (IH (opt_number o)).
  pose proof (opt_wire_nonempty (opt_number o - prev) (opt_value o)).
  destruct (opt_wire _ _); [done|simpl; lia].
Qed.

(** The iterator yields the options a reference encoding was made from. *)
Lemma Options_iter_wire {E} (os : list Opt) :
  slice_fits (options_wire 0 os) → opts_wf 0 os →
  Options_iter (E:=E) (options_wire 0 os) = Ok os.
Proof.
  intros Hfit Hw. apply (Options_collect_wire os []); [done|lia|done|].
  pose proof (length_options_wire 0 os). lia.
Qed.

End read_lemmas.
