(* ===== verification/Encode.v ===== *)
(** * The encoder

    [src/message/encode.rs], with [encode_length] and [Message] of
    [src/message/extended.rs].  The output buffer is the state: what a failing
    call has already written stays in it.  Every successful call writes exactly
    the reference encoding [msg_wire] at the start of the buffer, and nothing
    else; it fails exactly when the message has no wire form or the buffer is
    too short. *)
From S2P Require Import Prelude Errors MsgTypes Options.

(** ** Extended nibbles *)
Definition MAX_EXTENDED : Z := 269 + 65535.

Definition ext_nibble (n : Z) : res EncodeError (Z * list Z * nat) :=
  if n <? 13 then Ok (wrap 8 n, [0; 0], 0%nat)
  else if n <? 269 then Ok (13, [wrap 8 (n - 13); 0], 1%nat)
  else if n <=? MAX_EXTENDED then
    let e := n - 269 in
    Ok (14, [wrap 8 (Z.shiftr e 8); wrap 8 (Z.land e 255)], 2%nat)
  else Err OptionValueTooLong.

Definition encode_length (len : nat) : res EncodeError (Z * list Z * nat) :=
  len ← ok_or (u_try_from_usize 32 len) TokenTooLong;
  map_err (fun _ => TokenTooLong) (ext_nibble len).

Section encode.
  Context `{Target}.

(** ** Writing one option at [i] *)
Definition write_option (i : nat) (delta : Z) (value : list Z) : st (list Z) EncodeError nat :=
  len ← st_lift (ok_or (u_try_from_usize 32 (length value)) OptionValueTooLong);
  '(dn, de, dn_n) ← st_lift (ext_nibble delta);
  '(ln, le, ln_n) ← st_lift (ext_nibble len);
  need ← st_lift (ok_or
    (n ← usize_checked_add 1 dn_n; n ← usize_checked_add n ln_n; usize_checked_add n (length value))
    BufferTooSmall);
  buf ← st_get;
  if (match usize_checked_add i need with
      | None => true
      | Some end_ => (length buf <? end_)%nat
      end)
  then st_fail BufferTooSmall
  else
    st_upd (set_idx i (Z.lor (shl 8 dn 4) ln));;
    let i := (i + 1)%nat in
    st_upd (copy_into i (i + dn_n)%nat (take dn_n de));;
    let i := (i + dn_n)%nat in
    st_upd (copy_into i (i + ln_n)%nat (take ln_n le));;
    let i := (i + ln_n)%nat in
    st_upd (copy_into i (i + length value)%nat value);;
    mret (i + length value)%nat.

(** The [for opt in options] loop. *)
Fixpoint encode_options (os : list Opt) (i : nat) (prev : Z) : st (list Z) EncodeError nat :=
  match os with
  | [] => mret i
  | opt :: os =>
      let number := opt_number opt in
      if number <? prev then st_fail OptionsNotAscending
      else
        let delta := number - prev in
        i ← write_option i delta (opt_value opt);
        encode_options os i number
  end.

Definition is_nil {A} (l : list A) : bool := match l with [] => true | _ => false end.

(** The [if !payload.is_empty()] tail. *)
Definition encode_payload (payload : list Z) (i : nat) : st (list Z) EncodeError nat :=
  if is_nil payload then mret i
  else
    buf ← st_get;
    if (length buf <=? i)%nat then st_fail BufferTooSmall
    else
      st_upd (set_idx i 255);;
      let i := (i + 1)%nat in
      end_ ← st_lift (ok_or (usize_checked_add i (length payload)) BufferTooSmall);
      if (length buf <? end_)%nat then st_fail BufferTooSmall
      else
        st_upd (copy_into i end_ payload);;
        mret end_.

Definition encode_token_iter (ty : MType) (code : Code) (id : MessageId) (token : list Z)
    (options : list Opt) (payload : list Z) : st (list Z) EncodeError nat :=
  '(tkl, extension, extension_len) ← st_lift (encode_length (length token));
  if Code_is_empty code && (negb (is_nil token) || negb (is_nil payload) || negb (is_nil options))
  then st_fail EmptyMessageNotEmpty
  else
    let token_start := (4 + extension_len)%nat in
    let header_end := (token_start + length token)%nat in
    buf ← st_get;
    if (length buf <? header_end)%nat then st_fail BufferTooSmall
    else
      st_upd (set_idx 0 (Z.lor (Z.lor (shl 8 1 6) (shl 8 (Type_to_bits ty) 4)) tkl));;
      st_upd (set_idx 1 (Code_as_raw code));;
      let mid := be_bytes 2 id in
      m0 ← st_lift (idx mid 0);
      st_upd (set_idx 2 m0);;
      m1 ← st_lift (idx mid 1);
      st_upd (set_idx 3 m1);;
      st_upd (copy_into 4 token_start (take extension_len extension));;
      st_upd (copy_into token_start header_end token);;
      i ← encode_options options header_end 0;
      encode_payload payload i.

(** ** Messages *)
Record Message (T : Type) : Type := mkMessage {
  msg_ty : MType;
  msg_code : Code;
  msg_id : MessageId;
  msg_token : T;
  msg_options : list Opt;
  msg_payload : list Z
}.

Definition Message_new (ty : MType) (code : Code) (id : MessageId) : Message Token :=
  mkMessage _ ty code id Token_EMPTY [] [].

Definition Message_with_token {T U} (m : Message T) (token : U) : Message U :=
  mkMessage _ (msg_ty _ m) (msg_code _ m) (msg_id _ m) token (msg_options _ m) (msg_payload _ m).
Definition Message_with_options {T} (m : Message T) (os : list Opt) : Message T :=
  mkMessage _ (msg_ty _ m) (msg_code _ m) (msg_id _ m) (msg_token _ m) os (msg_payload _ m).
Definition Message_with_payload {T} (m : Message T) (p : list Z) : Message T :=
  mkMessage _ (msg_ty _ m) (msg_code _ m) (msg_id _ m) (msg_token _ m) (msg_options _ m) p.

Definition Message_empty_ack (id : MessageId) : Message Token :=
  Message_new Acknowledgement Code_EMPTY id.
Definition Message_empty_rst (id : MessageId) : Message Token :=
  Message_new Reset Code_EMPTY id.
Definition Message_con {T} (code : Code) (id : MessageId) (token : T) : Message T :=
  Message_with_token (Message_new Confirmable code id) token.
Definition Message_non {T} (code : Code) (id : MessageId) (token : T) : Message T :=
  Message_with_token (Message_new NonConfirmable code id) token.

Section token.
  Context {T : Type} `{OwnedToken T}.

Definition encode_iter (ty : MType) (code : Code) (id : MessageId) (token : T)
    (options : list Opt) (payload : list Z) : st (list Z) EncodeError nat :=
  bytes ← st_lift (ot_as_bytes token);
  encode_token_iter ty code id bytes options payload.

(** [encode] tests [token.is_empty()], by default the length of its bytes. *)
Definition encode (msg : Message T) : st (list Z) EncodeError nat :=
  bytes ← st_lift (ot_as_bytes (msg_token _ msg));
  if Code_is_empty (msg_code _ msg)
     && (negb (is_nil bytes) || negb (is_nil (msg_options _ msg)) || negb (is_nil (msg_payload _ msg)))
  then st_fail EmptyMessageNotEmpty
  else
    encode_iter (msg_ty _ msg) (msg_code _ msg) (msg_id _ msg) (msg_token _ msg)
      (msg_options _ msg) (msg_payload _ msg).
End token.

(** [extended::Message::encode]: the same message with borrowed token bytes. *)
Definition extended_encode (msg : Message (list Z)) : st (list Z) EncodeError nat :=
  encode_token_iter (msg_ty _ msg) (msg_code _ msg) (msg_id _ msg) (msg_token _ msg)
    (msg_options _ msg) (msg_payload _ msg).

End encode.

(** ** Reference encoding of a message *)
Definition payload_wire (payload : list Z) : list Z :=
  if is_nil payload then [] else 255 :: payload.

Definition header_wire (ty : MType) (code id : Z) (token : list Z) : list Z :=
  let '(tkl, ext) := ext_field (Z.of_nat (length token)) in
  [64 + 16 * Type_to_bits ty + tkl; code; id / 256; id mod 256] ++ ext ++ token.

Definition msg_wire (ty : MType) (code id : Z) (token : list Z) (os : list Opt)
    (payload : list Z) : list Z :=
  header_wire ty code id token ++ options_wire 0 os ++ payload_wire payload.

(** Messages with a wire form: the token and the option values fit their
    length fields, option numbers do not decrease, and code 0.00 comes with
    nothing else. *)
Definition msg_wf (code : Z) (token : list Z) (os : list Opt) (payload : list Z) : Prop :=
  Z.of_nat (length token) ≤ 65804 ∧ opts_wf 0 os ∧
  (code = 0 → token = [] ∧ os = [] ∧ payload = []).

(** Values of the Rust types: option numbers are [u16]s, values are bytes of
    a slice in memory. *)
Definition opt_typed `{Target} (o : Opt) : Prop :=
  in_u 16 (opt_number o) ∧ bytes_ok (opt_value o) ∧ slice_fits (opt_value o).

(** ** Extended nibbles against the reference *)
Lemma ext_nibble_ok (n : Z) :
  0 ≤ n ≤ 65804 →
  ∃ arr, ext_nibble n = Ok ((ext_field n).1, arr, length (ext_field n).2) ∧
    take (length (ext_field n).2) arr = (ext_field n).2.
Proof.
  intros Hn. unfold ext_nibble, ext_field.
  destruct (n <? 13) eqn:E1; [|destruct (n <? 269) eqn:E2]; bools; eexists.
  - rewrite wrap_small by (unfold in_u; lia). done.
  - split; [done|]. simpl. rewrite wrap_small by (unfold in_u; lia). done.
  - unfold MAX_EXTENDED. rewrite (proj2 (Z.leb_le _ _)) by lia. split; [done|].
    rewrite shiftr_pow, (land_mask _ 8) by lia. cbn [take length snd].
    rewrite !wrap_small; [done|..]; unfold in_u; change (2 ^ 8) with 256; div_lia.
Qed.

Lemma ext_nibble_err (n : Z) : 65804 < n → ext_nibble n = Err OptionValueTooLong.
Proof.
  intros Hn. unfold ext_nibble, MAX_EXTENDED.
  by rewrite !(proj2 (Z.ltb_ge _ _)), (proj2 (Z.leb_gt _ _)) by lia.
Qed.

Lemma encode_length_ok (n : nat) :
  Z.of_nat n ≤ 65804 →
  ∃ arr, encode_length n = Ok ((ext_field (Z.of_nat n)).1, arr, length (ext_field (Z.of_nat n)).2) ∧
    take (length (ext_field (Z.of_nat n)).2) arr = (ext_field (Z.of_nat n)).2.
Proof.
  intros Hn. destruct (ext_nibble_ok (Z.of_nat n)) as (arr & He & Ht); [lia|].
  exists arr. split; [|done]. unfold encode_length, u_try_from_usize, max_u.
  rewrite (proj2 (Z.leb_le _ _)) by lia. unbind. cbn [ok_or]. by rewrite He.
Qed.

Lemma encode_length_err (n : nat) : 65804 < Z.of_nat n → encode_length n = Err TokenTooLong.
Proof.
  intros Hn. unfold encode_length, u_try_from_usize. case_match; [|done].
  unbind. cbn [ok_or]. by rewrite ext_nibble_err.
Qed.

Lemma length_ext_field (n : Z) : (length (ext_field n).2 ≤ 2)%nat.
Proof. unfold ext_field. repeat case_match; simpl; lia. Qed.

Lemma length_opt_wire (delta : Z) (value : list Z) :
  length (opt_wire delta value) =
  (1 + length (ext_field delta).2 + length (ext_field (Z.of_nat (length value))).2
   + length value)%nat.
Proof.
  unfold opt_wire. destruct (ext_field delta), (ext_field _). simpl. rewrite !length_app. lia.
Qed.

Lemma head_byte (dn ln : Z) :
  0 ≤ dn < 15 → 0 ≤ ln < 15 → Z.lor (shl 8 dn 4) ln = 16 * dn + ln.
Proof.
  intros. unfold shl. rewrite Z.shiftl_mul_pow2, wrap_small by (unfold in_u; lia).
  rewrite <- Z.shiftl_mul_pow2, lor_shiftl_add by lia. lia.
Qed.

Section encode_lemmas.
  Context `{Target}.

(** Checked additions below the address-space bound succeed. *)
Lemma usize_checked_add_ok (a b : nat) :
  Z.of_nat (a + b) ≤ usize_max → usize_checked_add a b = Some (a + b)%nat.
Proof. intros. unfold usize_checked_add. by rewrite (proj2 (Z.leb_le _ _)). Qed.

(** A sequence of adjacent slice writes. *)
Lemma st_upd_copy {E} (a b : nat) (src buf : list Z) (k : unit → st (list Z) E nat) :
  b = (a + length src)%nat → (b ≤ length buf)%nat →
  st_bind k (st_upd (copy_into a b src)) buf = k tt (splice buf a src).
Proof. intros. unfold st_bind, st_upd. by rewrite copy_into_ok. Qed.

Lemma st_upd_set {E} (i : nat) (x : Z) (buf : list Z) (k : unit → st (list Z) E nat) :
  (i < length buf)%nat → st_bind k (st_upd (set_idx i x)) buf = k tt (splice buf i [x]).
Proof. intros. unfold st_bind, st_upd. by rewrite set_idx_ok. Qed.

Lemma write_option_spec (i : nat) (delta : Z) (value buf : list Z) :
  slice_fits value → slice_fits buf → (i ≤ length buf)%nat → 0 ≤ delta ≤ 65804 →
  write_option i delta value buf =
    (if 65804 <? Z.of_nat (length value) then (buf, Err OptionValueTooLong)
     else if (length buf <? i + length (opt_wire delta value))%nat then (buf, Err BufferTooSmall)
     else (splice buf i (opt_wire delta value), Ok (i + length (opt_wire delta value))%nat)).
Proof.
  intros Hv Hbuf Hi Hd. unfold write_option, slice_fits in *.
  pose proof usize_max_ge as Hmax.
  destruct (65804 <? Z.of_nat (length value)) eqn:El; bools.
  { unfold u_try_from_usize. case_match; [|done]. destruct (ext_nibble_ok delta Hd) as (? & He & _).
    unbind. cbn [ok_or]. by rewrite He, ext_nibble_err. }
  unfold u_try_from_usize, max_u. rewrite (proj2 (Z.leb_le _ _)) by lia.
  destruct (ext_nibble_ok delta Hd) as (de & He & Hde).
  destruct (ext_nibble_ok (Z.of_nat (length value))) as (le & Hle & Hlet); [lia|].
  pose proof (ext_field_nibble delta ltac:(lia)) as Hdn.
  pose proof (ext_field_nibble (Z.of_nat (length value)) ltac:(lia)) as Hln.
  pose proof (length_ext_field delta) as Hd2.
  pose proof (length_ext_field (Z.of_nat (length value))) as Hl2.
  rewrite length_opt_wire. unfold opt_wire.
  destruct (ext_field delta) as [dn dx], (ext_field (Z.of_nat (length value))) as [ln lx].
  cbn [fst snd] in *. unfold mbind at 1, st_mbind, st_bind at 1, st_lift at 1. cbn [ok_or].
  unfold mbind at 1, st_bind at 1, st_lift at 1. rewrite He.
  unfold mbind at 1, st_bind at 1, st_lift at 1. rewrite Hle.
  unfold mbind at 1, st_bind at 1, st_lift at 1.
  rewrite usize_checked_add_ok by lia. simpl (Some _ ≫= _).
  rewrite usize_checked_add_ok by lia. simpl (Some _ ≫= _).
  rewrite usize_checked_add_ok by lia. cbn [ok_or].
  unfold mbind at 1, st_bind at 1, st_get at 1.
  rewrite usize_checked_add_ok by lia.
  replace (i + (1 + length dx + length lx + length value))%nat
    with (i + (S (length dx + length lx + length value)))%nat by lia.
  destruct (_ <? _)%nat eqn:Ef; [done|]. bools.
  unfold mbind. rewrite st_upd_set by lia.
  rewrite st_upd_copy; [|rewrite Hde; lia|rewrite length_splice; simpl; lia].
  rewrite Hde, splice_splice by (simpl; lia).
  rewrite st_upd_copy; [|rewrite Hlet; lia|rewrite length_splice; simpl; lia].
  rewrite Hlet, splice_splice by (simpl; lia).
  rewrite st_upd_copy; [|lia|rewrite length_splice; rewrite ?length_app; simpl; lia].
  rewrite splice_splice by (rewrite ?length_app; simpl; lia).
  rewrite head_byte by done. unfold mret, st_mret. f_equal; [f_equal; app_norm|f_equal; lia].
Qed.

(** Option numbers do not decrease from [prev] on. *)
Fixpoint opts_ascending (prev : Z) (os : list Opt) : Prop :=
  match os with
  | [] => True
  | o :: os => prev ≤ opt_number o ∧ opts_ascending (opt_number o) os
  end.

Definition opt_too_long (o : Opt) : Prop := 65804 < Z.of_nat (length (opt_value o)).

(** Every outcome of the option loop. *)
Lemma encode_options_spec (os : list Opt) (i : nat) (prev : Z) (buf : list Z) :
  Forall opt_typed os → slice_fits buf → (i ≤ length buf)%nat → 0 ≤ prev →
  let '(buf', r) := encode_options os i prev buf in
  length buf' = length buf ∧
  match r with
  | Ok n =>
      opts_wf prev os ∧ n = (i + length (options_wire prev os))%nat ∧ (n ≤ length buf)%nat ∧
      buf' = splice buf i (options_wire prev os)
  | Err BufferTooSmall => (length buf < i + length (options_wire prev os))%nat
  | Err OptionsNotAscending => ¬ opts_ascending prev os
  | Err OptionValueTooLong => Exists opt_too_long os
  | _ => False
  end.
Proof.
  revert i prev buf. induction os as [|o os IH]; intros i prev buf Ht Hbuf Hi Hp; simpl.
  { unbind. rewrite splice_nil. repeat split; lia. }
  apply Forall_cons in Ht as [(Hn & Hv & Hf) Ht]. unfold in_u in Hn.
  destruct (opt_number o <? prev) eqn:E1; bools.
  { unbind. split; [done|]. intros [? _]. lia. }
  unfold mbind, st_mbind, st_bind. rewrite write_option_spec by (done || lia).
  destruct (65804 <? _) eqn:E2; bools; [by split; [|left]|].
  rewrite length_app. destruct (_ <? _)%nat eqn:E3; bools; [split; [done|lia]|].
  set (w := opt_wire _ _) in *.
  assert (length (splice buf i w) = length buf) as Hl by (rewrite length_splice; lia).
  specialize (IH (i + length w)%nat (opt_number o) (splice buf i w) Ht).
  unfold slice_fits in *. rewrite Hl in IH. specialize (IH Hbuf ltac:(lia) ltac:(lia)).
  destruct (encode_options os _ _ _) as [buf' [n|[]| |]]; try done;
    destruct IH as [Hlen IH]; (split; [congruence|]).
  - destruct IH as (Hw & -> & Hn' & ->). split; [by repeat split; try lia|].
    split; [lia|]. split; [lia|]. by rewrite splice_splice by lia.
  - lia.
  - intros [_ ?]. by apply IH.
  - by right.
Qed.

Lemma encode_payload_spec (payload : list Z) (i : nat) (buf : list Z) :
  slice_fits payload → slice_fits buf → (i ≤ length buf)%nat →
  let '(buf', r) := encode_payload payload i buf in
  length buf' = length buf ∧
  match r with
  | Ok n =>
      n = (i + length (payload_wire payload))%nat ∧ (n ≤ length buf)%nat ∧
      buf' = splice buf i (payload_wire payload)
  | Err BufferTooSmall => (length buf < i + length (payload_wire payload))%nat
  | _ => False
  end.
Proof.
  intros Hp Hb Hi. unfold encode_payload, payload_wire, slice_fits in *.
  pose proof usize_max_ge. destruct (is_nil payload) eqn:En.
  { unbind. rewrite splice_nil. simpl. repeat split; lia || done. }
  unfold mbind, st_mbind. unfold st_bind at 1, st_get.
  destruct (length buf <=? i)%nat eqn:E1; bools; [simpl; lia|].
  rewrite st_upd_set by lia. unfold st_bind at 1, st_lift.
  rewrite usize_checked_add_ok by lia. cbn [ok_or].
  destruct (length buf <? _)%nat eqn:E2; bools.
  { split; [apply length_splice; simpl; lia|simpl; lia]. }
  rewrite st_upd_copy by (rewrite ?length_splice; simpl; lia).
  unfold mret, st_mret. rewrite splice_splice by (simpl; lia).
  split; [apply length_splice; rewrite length_app; simpl; lia|]. simpl. repeat split; lia || done.
Qed.

Lemma first_byte (ty : MType) (tkl : Z) :
  0 ≤ tkl < 15 →
  Z.lor (Z.lor (shl 8 1 6) (shl 8 (Type_to_bits ty) 4)) tkl = 64 + 16 * Type_to_bits ty + tkl.
Proof.
  intros Ht. replace (Z.lor (shl 8 1 6) (shl 8 (Type_to_bits ty) 4))
    with (Z.shiftl (4 + Type_to_bits ty) 4) by (by destruct ty).
  rewrite lor_shiftl_add by lia. change (2 ^ 4) with 16. lia.
Qed.

Lemma be_bytes_2 (x : Z) : in_u 16 x → be_bytes 2 x = [x / 256; x mod 256].
Proof. unfold in_u. intros. simpl. f_equal. div_lia. Qed.

Lemma length_header_wire (ty : MType) (code id : Z) (token : list Z) :
  length (header_wire ty code id token) =
  (4 + length (ext_field (Z.of_nat (length token))).2 + length token)%nat.
Proof. unfold header_wire. destruct (ext_field _). simpl. rewrite length_app. lia. Qed.

(** The header and token writes, up to the option loop. *)
Lemma encode_token_iter_body (ty : MType) (code id : Z) (token : list Z) (os : list Opt)
    (payload buf : list Z) :
  in_u 16 id → Z.of_nat (length token) ≤ 65804 →
  (length (header_wire ty code id token) ≤ length buf)%nat →
  Code_is_empty code && (negb (is_nil token) || negb (is_nil payload) || negb (is_nil os)) = false →
  encode_token_iter ty code id token os payload buf =
  st_bind (encode_payload payload) (encode_options os (length (header_wire ty code id token)) 0)
    (splice buf 0 (header_wire ty code id token)).
Proof.
  intros Hid Ht Hl He. rewrite length_header_wire in *. unfold encode_token_iter, header_wire.
  destruct (encode_length_ok (length token) Ht) as (arr & Hen & Hx).
  pose proof (ext_field_nibble (Z.of_nat (length token)) ltac:(lia)) as Hnib.
  destruct (ext_field (Z.of_nat (length token))) as [tkl ext]. cbn [fst snd] in *.
  unfold mbind, st_mbind. unfold st_bind at 1, st_lift at 1. rewrite Hen, He.
  unfold st_bind at 1, st_get at 1. rewrite (proj2 (Nat.ltb_ge _ _)) by lia.
  rewrite be_bytes_2 by done. unfold idx. simpl lookup.
  unfold st_lift. rewrite st_upd_set by lia.
  rewrite st_upd_set by (rewrite length_splice; simpl; lia).
  rewrite splice_splice by (simpl; lia). unfold st_bind at 1.
  rewrite st_upd_set by (rewrite length_splice; simpl; lia).
  rewrite splice_splice by (simpl; lia). unfold st_bind at 1.
  rewrite st_upd_set by (rewrite length_splice; simpl; lia).
  rewrite splice_splice by (simpl; lia). rewrite Hx.
  rewrite st_upd_copy by (rewrite ?length_splice; simpl; lia).
  rewrite splice_splice by (simpl; lia).
  rewrite st_upd_copy; [|lia|rewrite length_splice; rewrite ?length_app; simpl; lia].
  rewrite splice_splice by (rewrite ?length_app; simpl; lia).
  rewrite first_byte by lia. f_equal.
Qed.

Lemma encode_token_iter_short (ty : MType) (code id : Z) (token : list Z) (os : list Opt)
    (payload buf : list Z) :
  Z.of_nat (length token) ≤ 65804 →
  (length buf < length (header_wire ty code id token))%nat →
  Code_is_empty code && (negb (is_nil token) || negb (is_nil payload) || negb (is_nil os)) = false →
  encode_token_iter ty code id token os payload buf = (buf, Err BufferTooSmall).
Proof.
  intros Ht Hl He. rewrite length_header_wire in Hl. unfold encode_token_iter.
  destruct (encode_length_ok (length token) Ht) as (arr & Hen & _).
  unbind. rewrite Hen, He. cbn beta iota. by rewrite (proj2 (Nat.ltb_lt _ _)) by lia.
Qed.

Lemma is_nil_true {A} (l : list A) : is_nil l = true ↔ l = [].
Proof. by destruct l. Qed.

Lemma is_nil_false {A} (l : list A) : is_nil l = false ↔ l ≠ [].
Proof. by destruct l. Qed.

Lemma empty_guard (code : Z) (token : list Z) (os : list Opt) (payload : list Z) :
  Code_is_empty code && (negb (is_nil token) || negb (is_nil payload) || negb (is_nil os)) = false ↔
  (code = 0 → token = [] ∧ os = [] ∧ payload = []).
Proof.
  unfold Code_is_empty. destruct (Z.eqb_spec code 0) as [->|Hc]; simpl; [|by split].
  rewrite !orb_false_iff, !negb_false_iff, !is_nil_true. tauto.
Qed.

(** Every outcome of [encode_token_iter]. *)
Lemma encode_token_iter_outcome (ty : MType) (code id : Z) (token : list Z) (os : list Opt)
    (payload buf : list Z) :
  in_u 16 id → Forall opt_typed os → slice_fits payload → slice_fits buf →
  let '(buf', r) := encode_token_iter ty code id token os payload buf in
  length buf' = length buf ∧
  match r with
  | Ok n =>
      msg_wf code token os payload ∧ n = length (msg_wire ty code id token os payload) ∧
      (n ≤ length buf)%nat ∧ buf' = splice buf 0 (msg_wire ty code id token os payload)
  | Err TokenTooLong => 65804 < Z.of_nat (length token) ∧ buf' = buf
  | Err EmptyMessageNotEmpty =>
      code = 0 ∧ ¬ (token = [] ∧ os = [] ∧ payload = []) ∧ buf' = buf
  | Err BufferTooSmall => (length buf < length (msg_wire ty code id token os payload))%nat
  | Err OptionsNotAscending => ¬ opts_ascending 0 os
  | Err OptionValueTooLong => Exists opt_too_long os
  | Err EncodeOptionsFull | Panic | Diverge => False
  end.
Proof.
  intros Hid Hos Hp Hbuf. destruct (Z.le_gt_cases (Z.of_nat (length token)) 65804) as [Ht|Ht].
  2: { unfold encode_token_iter. unbind. by rewrite encode_length_err. }
  destruct (Code_is_empty code && (negb (is_nil token) || negb (is_nil payload) || negb (is_nil os)))
    eqn:He.
  { destruct (encode_length_ok (length token) Ht) as (arr & Hen & _).
    unfold encode_token_iter. unbind. rewrite Hen, He. cbn beta iota. split; [done|].
    unfold Code_is_empty in He. apply andb_true_iff in He as [Hc%Z.eqb_eq He]. split; [done|].
    split; [|done]. by intros (-> & -> & ->). }
  pose proof (proj1 (empty_guard code token os payload) He) as Hempty.
  assert (Hwire : length (msg_wire ty code id token os payload) =
    (length (header_wire ty code id token) + length (options_wire 0 os)
     + length (payload_wire payload))%nat) by (unfold msg_wire; rewrite !length_app; lia).
  destruct (le_lt_dec (length (header_wire ty code id token)) (length buf)) as [Hh|Hh].
  2: { rewrite encode_token_iter_short by done. split; [done|lia]. }
  rewrite encode_token_iter_body by done.
  set (h := header_wire ty code id token) in *.
  assert (Hl1 : length (splice buf 0 h) = length buf) by (rewrite length_splice; lia).
  pose proof (encode_options_spec os (length h) 0 (splice buf 0 h) Hos) as Ho.
  unfold slice_fits in *. rewrite Hl1 in Ho. specialize (Ho Hbuf Hh ltac:(lia)).
  unfold st_bind. destruct (encode_options os _ _ _) as [b1 [n|[]| |]]; try done;
    destruct Ho as [Hl2 Ho]; try (split; [congruence|]; done || lia).
  destruct Ho as (Hw & -> & Hn & ->).
  pose proof (encode_payload_spec payload (length h + length (options_wire 0 os))
    (splice (splice buf 0 h) (length h) (options_wire 0 os)) Hp) as Hpl.
  unfold slice_fits in Hpl. rewrite Hl2 in Hpl. specialize (Hpl Hbuf Hn).
  destruct (encode_payload payload _ _) as [b2 [n|[]| |]]; try done;
    destruct Hpl as [Hl3 Hpl]; try done; (split; [congruence|]); [|lia].
  destruct Hpl as (-> & Hn2 & ->). split; [done|]. split; [lia|]. split; [done|].
  unfold msg_wire. fold h. rewrite splice_splice by lia.
  rewrite splice_splice by (rewrite ?length_app; lia). by rewrite app_assoc.
Qed.

Lemma opts_wf_typed (prev : Z) (os : list Opt) :
  0 ≤ prev → opts_wf prev os →
  Forall opt_typed os ∧ opts_ascending prev os ∧ ¬ Exists opt_too_long os.
Proof.
  revert prev. induction os as [|o os IH]; intros prev Hp Hw; simpl.
  { split; [constructor|]. split; [done|]. by intros ?%Exists_nil. }
  destruct Hw as (Hn & Hb & Hl & Hw). destruct (IH (opt_number o)) as (Ht & Ha & He); [lia|done|].
  pose proof usize_max_ge. rewrite Exists_cons. unfold opt_too_long at 1.
  split; [|split; [split; [lia|done]|intros [?|?]; [lia|done]]].
  constructor; [|done]. repeat split; [lia|lia|done|]. unfold slice_fits. lia.
Qed.

(** A message with a wire form that fits the buffer is encoded. *)
Lemma encode_token_iter_ok (ty : MType) (code id : Z) (token : list Z) (os : list Opt)
    (payload buf : list Z) :
  in_u 16 id → msg_wf code token os payload → slice_fits payload → slice_fits buf →
  (length (msg_wire ty code id token os payload) ≤ length buf)%nat →
  encode_token_iter ty code id token os payload buf =
    (splice buf 0 (msg_wire ty code id token os payload),
     Ok (length (msg_wire ty code id token os payload))).
Proof.
  intros Hid (Ht & Hos & He) Hp Hb Hl. destruct (opts_wf_typed 0 os) as (Hty & Ha & Hx); [lia|done|].
  pose proof (encode_token_iter_outcome ty code id token os payload buf Hid Hty Hp Hb) as Ho.
  destruct (encode_token_iter _ _ _ _ _ _ _) as [b [n|[]| |]]; destruct Ho as [_ Ho].
  - destruct Ho as (_ & -> & _ & ->). done.
  - lia.
  - lia.
  - destruct Ho as (-> & Hne & _). by destruct Hne; apply He.
  - done.
  - done.
  - done.
  - done.
  - done.
Qed.

End encode_lemmas.
