(* ===== verification/Decode.v ===== *)
(** * The decoder

    [src/message/decode.rs], with the RFC 8974 parts of
    [src/message/extended.rs].  [decode_parts] is shown to accept exactly the
    reference encodings [msg_wire], and to end without a panic on every byte
    string. *)
From S2P Require Import Prelude Errors MsgTypes Options Encode.

(** ** Token length nibble (RFC 8974) *)
Definition decode_length (nibble : Z) (rest : list Z) : res ParseError (nat * nat) :=
  if nibble <=? 12 then Ok (Z.to_nat nibble, 0%nat)
  else if nibble =? 13 then
    b ← ok_or (rest !! 0%nat) TruncatedToken;
    mret ((13 + Z.to_nat b)%nat, 1%nat)
  else if nibble =? 14 then
    bytes ← ok_or (slice_get rest 0 2) TruncatedToken;
    b0 ← idx bytes 0;
    b1 ← idx bytes 1;
    mret ((269 + Z.to_nat (decode_u16_be b0 b1))%nat, 2%nat)
  else Err BadTokenLength.

Section decode.
  Context `{Target}.

(** ** Options and payload *)
Fixpoint split_loop (fuel : nat) (bytes : list Z) (start : nat) (i : nat) (prev : Z)
    : res ParseError (list Z * list Z) :=
  match fuel with
  | O => Diverge
  | S fuel =>
      if (i <? length bytes)%nat then
        b ← idx bytes i;
        if b =? 255 then
          if (i + 1 =? length bytes)%nat then Err PayloadMarkerWithoutPayload
          else
            options ← ok_or (slice_get bytes start i) TruncatedOption;
            payload ← slice_idx bytes (i + 1)%nat (length bytes);
            mret (options, payload)
        else
          let '((i, prev), r) := read_option bytes (i, prev) in
          _ ← r;
          split_loop fuel bytes start i prev
      else
        options ← ok_or (slice_get bytes start (length bytes)) TruncatedOption;
        mret (options, [])
  end.

(** Each turn consumes at least one byte, so [length bytes + 1] turns are
    enough. *)
Definition split_options_and_payload (bytes : list Z) (start : nat)
    : res ParseError (list Z * list Z) :=
  split_loop (S (length bytes)) bytes start start 0.

Definition decode_options_payload (bytes : list Z) : res ParseError (Options * list Z) :=
  '(options, payload) ← split_options_and_payload bytes 0;
  mret (Options_new options, payload).

(** ** Datagrams *)
Record Parts : Type := mkParts {
  pt_header : Header;
  pt_token : list Z;
  pt_options : list Z;
  pt_payload : list Z
}.

(** From the token length on (the header fields are read). *)
Definition decode_body (buf : list Z) (extended : bool) (hdr : Header) (rest : list Z)
    : res ParseError Parts :=
  let tkl := hdr_tkl hdr in
  '(tkl_usize, prefix) ←
    (if extended then decode_length tkl rest else Ok (Z.to_nat tkl, 0%nat));
  token_start ← ok_or (usize_checked_add 4 prefix) TruncatedToken;
  options_start ← ok_or (usize_checked_add token_start tkl_usize) TruncatedToken;
  token_bytes ← ok_or (slice_get buf token_start options_start) TruncatedToken;
  if Code_is_empty (hdr_code hdr) then
    if negb (tkl =? 0) || negb (options_start =? length buf)%nat
    then Err ParseEmptyMessageNotEmpty
    else mret (mkParts hdr token_bytes [] [])
  else
    '(options, payload) ← split_options_and_payload buf options_start;
    mret (mkParts hdr token_bytes options payload).

Definition ty_of_bits (b : Z) : MType :=
  match b with
  | 0 => Confirmable
  | 1 => NonConfirmable
  | 2 => Acknowledgement
  | _ => Reset
  end.

Definition decode_parts (buf : list Z) (extended : bool) : res ParseError Parts :=
  if (length buf <? 4)%nat then Err TruncatedHeader
  else
    b0 ← idx buf 0;
    let version := Z.shiftr b0 6 in
    if negb (version =? 1) then Err UnsupportedVersion
    else
      let ty := ty_of_bits (Z.land (Z.shiftr b0 4) 3) in
      let tkl := Z.land b0 15 in
      if negb extended && (8 <? tkl) then Err BadTokenLength
      else
        b1 ← idx buf 1;
        let code := Code_from_raw b1 in
        b2 ← idx buf 2;
        b3 ← idx buf 3;
        let id := from_be [b2; b3] in
        rest ← slice_idx buf 4 (length buf);
        decode_body buf extended (mkHeader version ty tkl code id) rest.

(** [extended::decode] keeps the borrowed token: a [Datagram] has the fields
    of [Parts]. *)
Definition Datagram : Type := Parts.
Definition extended_decode (bytes : list Z) : res ParseError Datagram := decode_parts bytes true.

Definition Datagram_copy_token (N : nat) (d : Datagram) : res CapacityError XToken :=
  XToken_new N (pt_token d).

Definition Datagram_with_token (d : Datagram) (token : list Z) : Datagram :=
  mkParts (pt_header d) token (pt_options d) (pt_payload d).

Definition Datagram_encode (d : Datagram) : st (list Z) EncodeError nat :=
  os ← st_lift (Options_iter (pt_options d));
  encode_token_iter (hdr_ty (pt_header d)) (hdr_code (pt_header d)) (hdr_id (pt_header d))
    (pt_token d) os (pt_payload d).

(** ** Parsed messages *)
Record ParsedMessage (T : Type) : Type := mkParsed {
  pm_header : Header;
  pm_token : T;
  pm_options : list Z;
  pm_payload : list Z
}.

Definition pm_ty {T} (m : ParsedMessage T) : MType := hdr_ty (pm_header _ m).
Definition pm_code {T} (m : ParsedMessage T) : Code := hdr_code (pm_header _ m).
Definition pm_message_id {T} (m : ParsedMessage T) : MessageId := hdr_id (pm_header _ m).
Definition pm_is_empty {T} (m : ParsedMessage T) : bool := Code_is_empty (pm_code m).
Definition pm_is_empty_ack {T} (m : ParsedMessage T) : bool :=
  eqb (pm_ty m) Acknowledgement && pm_is_empty m.
Definition pm_is_empty_rst {T} (m : ParsedMessage T) : bool :=
  eqb (pm_ty m) Reset && pm_is_empty m.
Definition pm_is_empty_ack_or_rst {T} (m : ParsedMessage T) : bool :=
  pm_is_empty_ack m || pm_is_empty_rst m.

(** [options()]: the options in wire order. *)
Definition pm_opts {T E} (m : ParsedMessage T) : res E (list Opt) := Options_iter (pm_options _ m).

Definition unrecognized_critical {T E} (m : ParsedMessage T) : res E (option OptionNumber) :=
  os ← pm_opts m;
  mret (find_map (fun opt =>
    let n := opt_number opt in
    if OptionNumber_is_critical n && negb (OptionNumber_is_rfc7252 n) then Some n else None) os).

Definition unknown_critical {T E} (m : ParsedMessage T) : res E (option OptionNumber) :=
  os ← pm_opts m;
  mret (find_map (fun opt =>
    let n := opt_number opt in
    if OptionNumber_is_critical n && negb (OptionNumber_is_known n) then Some n else None) os).

Definition check_rfc7252_options {T} (m : ParsedMessage T) : res ParseError unit :=
  o ← unrecognized_critical m;
  match o with
  | Some n => Err (UnrecognizedCritical n)
  | None => Ok tt
  end.

Definition decode (buf : list Z) : res ParseError (ParsedMessage Token) :=
  parts ← decode_parts buf false;
  token ← Token_from_checked (pt_token parts);
  mret (mkParsed _ (pt_header parts) token (pt_options parts) (pt_payload parts)).

Section token.
  Context {T : Type} `{OwnedToken T}.

Definition decode_with_token (buf : list Z) : res TokenDecodeError (ParsedMessage T) :=
  parts ← map_err Malformed (decode_parts buf true);
  token ← map_err Capacity (ot_try_from_bytes (pt_token parts));
  mret (mkParsed _ (pt_header parts) token (pt_options parts) (pt_payload parts)).

Definition decode_without_token (buf : list Z) : res ParseError (ParsedMessage T) :=
  parts ← decode_parts buf true;
  mret (mkParsed _ (pt_header parts) ot_EMPTY (pt_options parts) (pt_payload parts)).

(** [ParsedMessage::encode]. *)
Definition pm_encode (m : ParsedMessage T) : st (list Z) EncodeError nat :=
  os ← st_lift (pm_opts m);
  encode_iter (pm_ty m) (pm_code m) (pm_message_id m) (pm_token _ m) os (pm_payload _ m).
End token.

(** ** Layouts: offsets detached from a validated datagram *)
Record MessageLayout (T : Type) : Type := mkLayout {
  ml_header : Header;
  ml_token : T;
  ml_wire_len : nat;
  ml_options_len : nat;
  ml_payload_len : nat
}.

Definition pm_layout {T} (m : ParsedMessage T) (wire_len : nat) : MessageLayout T :=
  mkLayout _ (pm_header _ m) (pm_token _ m) wire_len
    (length (pm_options _ m)) (length (pm_payload _ m)).

Definition MessageLayout_bind {T E} (l : MessageLayout T) (wire : list Z)
    : res E (option (ParsedMessage T)) :=
  if negb (length wire =? ml_wire_len _ l)%nat then Ok None
  else
    match usize_checked_sub (length wire) (ml_payload_len _ l) with
    | None => Ok None
    | Some payload_start =>
        match usize_checked_sub payload_start
                (if (ml_payload_len _ l =? 0)%nat then 0%nat else 1%nat) with
        | None => Ok None
        | Some options_end =>
            match usize_checked_sub options_end (ml_options_len _ l) with
            | None => Ok None
            | Some options_start =>
                options ← slice_idx wire options_start options_end;
                payload ← slice_idx wire payload_start (length wire);
                mret (Some (mkParsed _ (ml_header _ l) (ml_token _ l) options payload))
            end
        end
    end.

End decode.

(** ** Options and payload against the reference encoding *)
Lemma payload_wire_head (payload : list Z) b :
  payload_wire payload !! O = Some b → b = 255 ∧ payload ≠ [].
Proof. unfold payload_wire. destruct payload; simpl; [done|]. by intros [= <-]. Qed.

Section decode_lemmas.
  Context `{Target}.

Lemma split_loop_S (fuel : nat) (bytes : list Z) start i prev :
  split_loop (S fuel) bytes start i prev =
  (if (i <? length bytes)%nat then
     b ← idx bytes i;
     if b =? 255 then
       if (i + 1 =? length bytes)%nat then Err PayloadMarkerWithoutPayload
       else
         options ← ok_or (slice_get bytes start i) TruncatedOption;
         payload ← slice_idx bytes (i + 1)%nat (length bytes);
         mret (options, payload)
     else
       let '((i, prev), r) := read_option bytes (i, prev) in
       _ ← r;
       split_loop fuel bytes start i prev
   else
     options ← ok_or (slice_get bytes start (length bytes)) TruncatedOption;
     mret (options, [])).
Proof. done. Qed.

(** At the end of the options: the payload marker or the end of the data. *)
Lemma split_loop_end (fuel : nat) (pre payload : list Z) start prev :
  (start ≤ length pre)%nat →
  split_loop (S fuel) (pre ++ payload_wire payload) start (length pre) prev =
    Ok (drop start pre, payload).
Proof.
  intros Hs. rewrite split_loop_S. unfold payload_wire. destruct payload as [|x payload]; simpl.
  - rewrite app_nil_r, Nat.ltb_irrefl. unfold slice_get.
    rewrite (proj2 (Nat.leb_le _ _)), (proj2 (Nat.leb_le _ _)) by lia. simpl.
    by rewrite take_ge by (rewrite length_drop; lia).
  - rewrite length_app. cbn [length]. rewrite (proj2 (Nat.ltb_lt _ _)) by lia.
    unfold idx. rewrite lookup_app_mid by done. unbind. simpl (255 =? 255).
    rewrite (proj2 (Nat.eqb_neq _ _)) by lia.
    replace (slice_get (pre ++ 255 :: x :: payload) start (length pre)) with (Some (drop start pre)).
    2: { symmetry. rewrite <- (take_drop start pre) at 1. rewrite <- app_assoc.
         apply slice_get_app; rewrite ?length_take, ?length_drop; lia. }
    cbn [ok_or]. unfold slice_idx. rewrite (cons_middle 255), app_assoc.
    by rewrite slice_get_tail by (rewrite length_app; simpl; lia).
Qed.

Lemma split_loop_wire (os : list Opt) (fuel : nat) (pre payload : list Z) start prev :
  slice_fits (pre ++ options_wire prev os ++ payload_wire payload) →
  opts_wf prev os → 0 ≤ prev → (start ≤ length pre)%nat → (length os < fuel)%nat →
  split_loop fuel (pre ++ options_wire prev os ++ payload_wire payload) start (length pre) prev =
    Ok (drop start pre ++ options_wire prev os, payload).
Proof.
  revert fuel pre prev. induction os as [|o os IH]; intros fuel pre prev Hfit Hw Hp Hs Hf;
    (destruct fuel as [|fuel]; [simpl in Hf; lia|]).
  - simpl. rewrite app_nil_r. by apply split_loop_end.
  - destruct Hw as (Hn & Hb & Hl & Hw). cbn [options_wire] in *. rewrite split_loop_S.
    set (w := opt_wire (opt_number o - prev) (opt_value o)) in *.
    rewrite <- app_assoc in *.
    pose proof (opt_wire_nonempty (opt_number o - prev) (opt_value o)) as Hne. fold w in Hne.
    set (tl := options_wire _ _ ++ payload_wire _) in *.
    assert (∃ b, (pre ++ w ++ tl) !! length pre = Some b ∧ b ≠ 255) as (b & Hb0 & Hb1).
    { rewrite lookup_app_r, Nat.sub_diag by lia. destruct w as [|b w'] eqn:Ew; [done|].
      exists b. split; [done|]. eapply (opt_wire_head (opt_number o - prev) (opt_value o) []);
        [lia|]. fold w. rewrite app_nil_r. by rewrite Ew. }
    rewrite (proj2 (Nat.ltb_lt _ _)) by (eapply lookup_lt_Some, Hb0).
    unfold idx. rewrite Hb0. unbind. rewrite (proj2 (Z.eqb_neq b 255)) by done.
    subst w. rewrite read_option_wire by (done || lia). cbn beta iota.
    replace (prev + (opt_number o - prev)) with (opt_number o) by lia.
    rewrite app_assoc, <- length_app. subst tl. rewrite IH.
    + rewrite drop_app_le by lia. by rewrite <- app_assoc.
    + by rewrite <- app_assoc.
    + done.
    + lia.
    + rewrite length_app. lia.
    + simpl in Hf. lia.
Qed.

Lemma split_loop_inv (fuel : nat) (bytes : list Z) start i prev opts payload :
  bytes_ok bytes → (start ≤ i ≤ length bytes)%nat → 0 ≤ prev →
  split_loop fuel bytes start i prev = Ok (opts, payload) →
  ∃ os, opts_wf prev os ∧ opts = take (i - start) (drop start bytes) ++ options_wire prev os ∧
    drop i bytes = options_wire prev os ++ payload_wire payload.
Proof.
  revert i prev. induction fuel as [|fuel IH]; intros i prev Hok Hi Hp H0; [done|].
  rewrite split_loop_S in H0. destruct (i <? length bytes)%nat eqn:Hil; bools.
  - unfold idx in H0. destruct (bytes !! i) as [b|] eqn:Hb; [|done]. unbind.
    destruct (Z.eqb_spec b 255) as [->|Hne].
    + destruct (i + 1 =? length bytes)%nat eqn:He; [done|]. bools.
      destruct (slice_get bytes start i) as [o|] eqn:Ho; [|done]. cbn [ok_or] in H0.
      unfold slice_idx in H0. destruct (slice_get bytes (i + 1) _) as [p|] eqn:Hpl; [|done].
      simplify_eq. apply slice_get_Some in Ho as [_ ->], Hpl as [_ ->].
      exists []. simpl. rewrite app_nil_r. split; [done|]. split; [done|].
      rewrite take_ge by (rewrite length_drop; lia).
      rewrite (drop_S _ _ _ Hb), Nat.add_1_r. unfold payload_wire.
      destruct (drop (S i) bytes) eqn:Hd; [|done]. apply (f_equal length) in Hd.
      rewrite length_drop in Hd. simpl in Hd. lia.
    + destruct (read_option bytes (i, prev)) as [[i' p'] [o| | |]] eqn:Hr; try done.
      apply read_option_inv in Hr as (Hn & Hl & Hob & [= -> ->] & Hle & Hd); [|done..].
      cbn [fst] in Hd. set (w := opt_wire _ _) in *.
      apply IH in H0 as (os & Hw & -> & Hd2); [|done|lia|lia].
      exists (o :: os). split; [by repeat split; try lia|]. split.
      * cbn [options_wire]. fold w. rewrite app_assoc. f_equal.
        replace (i + length w - start)%nat with (i - start + length w)%nat by lia.
        rewrite <- take_take_drop. f_equal. rewrite drop_drop.
        replace (start + (i - start))%nat with i by lia. rewrite Hd. by rewrite take_app_length.
      * cbn [options_wire]. fold w. by rewrite Hd, Hd2, <- app_assoc.
  - assert (i = length bytes) as -> by lia.
    destruct (slice_get bytes start (length bytes)) as [o|] eqn:Ho; [|done]. simp_monad. simplify_eq.
    apply slice_get_Some in Ho as [_ ->]. exists []. simpl. by rewrite app_nil_r, drop_all.
Qed.

Lemma split_loop_returns (fuel : nat) (bytes : list Z) start i prev :
  (length bytes < i + fuel)%nat → (0 < fuel)%nat → returns (split_loop fuel bytes start i prev).
Proof.
  revert i prev. induction fuel as [|fuel IH]; intros i prev Hf H0; [lia|].
  rewrite split_loop_S. destruct (i <? length bytes)%nat eqn:Hi; bools.
  - destruct (lookup_lt_is_Some_2 bytes i) as [b Hb]; [lia|]. unfold idx. rewrite Hb. unbind.
    destruct (b =? 255).
    + destruct (_ =? _)%nat eqn:He; [done|]. bools. destruct (slice_get bytes start i); [|done].
      cbn [ok_or]. unfold slice_idx, slice_get.
      by rewrite (proj2 (Nat.leb_le _ _)), (proj2 (Nat.leb_le _ _)) by lia.
    + destruct (read_option_returns bytes (i, prev)) as [R P].
      destruct (read_option bytes (i, prev)) as [[i' p'] [o| | |]]; try done.
      destruct P as [? ?]; [done|]. simpl in *. apply IH; lia.
  - by destruct (slice_get bytes start (length bytes)).
Qed.

(** ** Token lengths *)
Lemma decode_length_wire (n : nat) (nib : Z) (ext rest : list Z) :
  Z.of_nat n ≤ 65804 → ext_field (Z.of_nat n) = (nib, ext) →
  decode_length nib (ext ++ rest) = Ok (n, length ext).
Proof.
  intros Hn He. unfold ext_field in He. unfold decode_length.
  destruct (Z.of_nat n <? 13) eqn:E1; [|destruct (Z.of_nat n <? 269) eqn:E2]; simplify_eq; bools.
  - rewrite (proj2 (Z.leb_le _ _)) by lia. by rewrite Nat2Z.id.
  - simpl. unbind. do 2 f_equal. lia.
  - simpl. unfold slice_get. simpl. rewrite ?take_0. unbind. cbn [ok_or]. unfold idx. simpl.
    unfold decode_u16_be, from_be. cbn [foldl]. do 3 f_equal. div_lia.
Qed.

Lemma decode_length_inv (nib : Z) (rest : list Z) n k :
  bytes_ok rest → 0 ≤ nib → decode_length nib rest = Ok (n, k) →
  ∃ ext tl, ext_field (Z.of_nat n) = (nib, ext) ∧ k = length ext ∧ rest = ext ++ tl ∧
    Z.of_nat n ≤ 65804.
Proof.
  intros Hok Hnib H0. unfold decode_length in H0.
  destruct (nib <=? 12) eqn:E1; [|destruct (Z.eqb_spec nib 13) as [->|];
    [|destruct (Z.eqb_spec nib 14) as [->|]; [|done]]]; bools.
  - simplify_eq. exists [], rest. unfold ext_field. rewrite Z2Nat.id by done.
    rewrite (proj2 (Z.ltb_lt _ _)) by lia. repeat split. lia.
  - destruct rest as [|b rest]; simp_monad; simplify_eq.
    apply bytes_ok_cons in Hok as [Hb _]. unfold in_u in Hb. change (2 ^ 8) with 256 in Hb.
    exists [b], rest. unfold ext_field.
    rewrite (proj2 (Z.ltb_ge _ _)), (proj2 (Z.ltb_lt _ _)) by lia.
    split; [do 2 f_equal; lia|]. repeat split. lia.
  - destruct rest as [|x [|y rest]]; [done..|]. unfold slice_get, idx in H0. simpl in H0.
    rewrite ?take_0 in H0. simp_monad. simplify_eq.
    apply bytes_ok_cons in Hok as [Hx Hok]. apply bytes_ok_cons in Hok as [Hy _].
    unfold in_u in *. change (2 ^ 8) with 256 in *.
    exists [x; y], rest. unfold decode_u16_be, from_be. cbn [foldl]. unfold ext_field.
    rewrite !(proj2 (Z.ltb_ge _ _)) by lia. split; [|repeat split; lia].
    f_equal. f_equal; [div_lia|]. f_equal. div_lia.
Qed.

Lemma decode_length_returns (nib : Z) (rest : list Z) : returns (decode_length nib rest).
Proof.
  unfold decode_length. destruct (nib <=? 12); [done|]. destruct (nib =? 13).
  - by destruct rest.
  - destruct (nib =? 14); [|done]. by destruct rest as [|x [|y rest]].
Qed.

(** ** The first header byte *)
Lemma header_fields (ty : MType) (tkl : Z) :
  0 ≤ tkl < 16 →
  let b := 64 + 16 * Type_to_bits ty + tkl in
  Z.shiftr b 6 = 1 ∧ Z.land (Z.shiftr b 4) 3 = Type_to_bits ty ∧ Z.land b 15 = tkl.
Proof.
  intros Ht. simpl. rewrite !shiftr_pow, (land_mask _ 2), (land_mask _ 4) by lia.
  change (2 ^ 6) with 64. change (2 ^ 4) with 16. change (2 ^ 2) with 4.
  pose proof (Type_bits_ok ty) as Hb. unfold in_u in Hb. change (2 ^ 2) with 4 in Hb.
  repeat split; div_lia.
Qed.

Lemma header_fields_inv (b : Z) :
  in_u 8 b → Z.shiftr b 6 = 1 →
  b = 64 + 16 * Type_to_bits (ty_of_bits (Z.land (Z.shiftr b 4) 3)) + Z.land b 15 ∧
  0 ≤ Z.land b 15 < 16.
Proof.
  unfold in_u. rewrite !shiftr_pow, (land_mask _ 2), (land_mask _ 4) by lia.
  change (2 ^ 6) with 64. change (2 ^ 4) with 16. change (2 ^ 2) with 4. change (2 ^ 8) with 256.
  intros Hb H6. assert (Hm : 0 ≤ (b / 16) mod 4 < 4) by div_lia.
  assert (Type_to_bits (ty_of_bits ((b / 16) mod 4)) = (b / 16) mod 4) as ->.
  { destruct ((b / 16) mod 4) as [|[[]|[]|]|]; try done; lia. }
  div_lia.
Qed.

(** ** [decode_parts] and the reference encoding *)
Definition wire_parts (ty : MType) (code id : Z) (token : list Z) (os : list Opt)
    (payload : list Z) : Parts :=
  mkParts (mkHeader 1 ty (ext_field (Z.of_nat (length token))).1 code id) token
    (options_wire 0 os) payload.

(** Messages whose parts have their Rust types. *)
Definition msg_typed (code id : Z) (token : list Z) (payload : list Z) : Prop :=
  in_u 8 code ∧ in_u 16 id ∧ bytes_ok token ∧ bytes_ok payload.

Lemma slice_from_4 {E} (a b c d : Z) (l : list Z) :
  slice_idx (E:=E) (a :: b :: c :: d :: l) 4 (length (a :: b :: c :: d :: l)) = Ok l.
Proof.
  unfold slice_idx. change (a :: b :: c :: d :: l) with ([a; b; c; d] ++ l).
  by rewrite slice_get_tail by (rewrite ?length_app; done).
Qed.

Lemma decode_parts_cons (b0 c m1 m0 : Z) (rest : list Z) (extended : bool) :
  decode_parts (b0 :: c :: m1 :: m0 :: rest) extended =
  (if negb (Z.shiftr b0 6 =? 1) then Err UnsupportedVersion
   else if negb extended && (8 <? Z.land b0 15) then Err BadTokenLength
   else decode_body (b0 :: c :: m1 :: m0 :: rest) extended
          (mkHeader (Z.shiftr b0 6) (ty_of_bits (Z.land (Z.shiftr b0 4) 3)) (Z.land b0 15) c
             (from_be [m1; m0])) rest).
Proof.
  unfold decode_parts, idx. cbn [length Nat.ltb Nat.leb lookup list_lookup]. unbind.
  rewrite slice_from_4. done.
Qed.

(** The token length field, compact or extended. *)
Lemma token_length_wire (token rest : list Z) (nib : Z) (ext : list Z) (extended : bool) :
  ext_field (Z.of_nat (length token)) = (nib, ext) → Z.of_nat (length token) ≤ 65804 →
  (extended = false → (length token ≤ 8)%nat) →
  (if extended then decode_length nib (ext ++ rest) else Ok (Z.to_nat nib, 0%nat)) =
    Ok (length token, length ext) ∧
  negb extended && (8 <? nib) = false.
Proof.
  intros Ee Ht Hext. destruct extended; [by split; [apply decode_length_wire|]|].
  specialize (Hext eq_refl). unfold ext_field in Ee.
  rewrite (proj2 (Z.ltb_lt _ _)) in Ee by lia. simplify_eq. rewrite Nat2Z.id. split; [done|].
  apply Z.ltb_ge. lia.
Qed.

Lemma decode_body_wire (b0 c m1 m0 : Z) (ext token : list Z) (os : list Opt) (payload : list Z)
    (extended : bool) (hdr : Header) :
  let rest := ext ++ token ++ options_wire 0 os ++ payload_wire payload in
  slice_fits (b0 :: c :: m1 :: m0 :: rest) → msg_wf (hdr_code hdr) token os payload →
  ext_field (Z.of_nat (length token)) = (hdr_tkl hdr, ext) →
  (extended = false → (length token ≤ 8)%nat) →
  decode_body (b0 :: c :: m1 :: m0 :: rest) extended hdr rest =
    Ok (mkParts hdr token (options_wire 0 os) payload).
Proof.
  intros rest Hfit (Ht & Hos & He0) Ee Hext. unfold decode_body.
  destruct (token_length_wire token (token ++ options_wire 0 os ++ payload_wire payload)
    _ _ _ Ee Ht Hext) as [Hl _].
  fold rest in Hl. rewrite Hl. set (buf := b0 :: _) in *. unbind.
  set (pre := [b0; c; m1; m0] ++ ext ++ token).
  assert (Hpre : length pre = (4 + length ext + length token)%nat)
    by (unfold pre; rewrite !length_app; simpl; lia).
  assert (Hbuf : buf = pre ++ options_wire 0 os ++ payload_wire payload)
    by (unfold buf, rest, pre; app_norm).
  unfold slice_fits in *. pose proof usize_max_ge as Hmax.
  pose proof (f_equal length Hbuf) as Hlen. rewrite !length_app in Hlen.
  rewrite usize_checked_add_ok by lia. cbn [ok_or].
  rewrite usize_checked_add_ok by lia. cbn [ok_or].
  replace (slice_get buf (4 + length ext) (4 + length ext + length token)) with (Some token).
  2: { symmetry. change buf with ([b0; c; m1; m0] ++ rest). unfold rest. rewrite app_assoc.
       apply slice_get_app; rewrite length_app; simpl; lia. }
  cbn [ok_or]. unfold Code_is_empty. destruct (Z.eqb_spec (hdr_code hdr) 0) as [H0|H0].
  - destruct (He0 H0) as (-> & -> & ->). unfold ext_field in Ee. simpl in Ee.
    injection Ee as <- <-. done.
  - unfold split_options_and_payload. rewrite <- Hpre, Hbuf.
    rewrite split_loop_wire; [|unfold slice_fits; by rewrite <- Hbuf|done|lia|lia|].
    + by rewrite drop_all.
    + rewrite !length_app. pose proof (length_options_wire 0 os). lia.
Qed.

(** The decoder accepts every reference encoding. *)
Lemma decode_parts_wire (ty : MType) (code id : Z) (token : list Z) (os : list Opt)
    (payload : list Z) (extended : bool) :
  slice_fits (msg_wire ty code id token os payload) →
  in_u 16 id → msg_wf code token os payload →
  (extended = false → (length token ≤ 8)%nat) →
  decode_parts (msg_wire ty code id token os payload) extended =
    Ok (wire_parts ty code id token os payload).
Proof.
  intros Hfit Hid Hwf Hext. unfold wire_parts, msg_wire, header_wire in *.
  destruct (ext_field (Z.of_nat (length token))) as [nib ext] eqn:Ee.
  pose proof (ext_field_nibble (Z.of_nat (length token)) ltac:(lia)) as Hnib.
  rewrite Ee in Hnib. cbn [fst snd] in *.
  destruct (header_fields ty nib ltac:(lia)) as (Hv & Hty & Htk).
  destruct (token_length_wire token [] _ _ _ Ee (proj1 Hwf) Hext) as [_ H8].
  rewrite <- !app_assoc in *. simpl in Hfit. simpl ([_; _; _; _] ++ _).
  rewrite decode_parts_cons, Hv, Hty, Htk, H8. cbn [negb Z.eqb Pos.eqb].
  replace (ty_of_bits (Type_to_bits ty)) with ty by (by destruct ty).
  replace (from_be [id / 256; id mod 256]) with id by (unfold from_be; cbn [foldl]; div_lia).
  by rewrite decode_body_wire.
Qed.

Lemma token_length_inv (tkl : Z) (rest : list Z) (extended : bool) n k :
  bytes_ok rest → 0 ≤ tkl → (extended = false → tkl ≤ 8) →
  (if extended then decode_length tkl rest else Ok (Z.to_nat tkl, 0%nat)) = Ok (n, k) →
  ∃ ext tl, ext_field (Z.of_nat n) = (tkl, ext) ∧ k = length ext ∧ rest = ext ++ tl ∧
    Z.of_nat n ≤ 65804 ∧ (extended = false → (n ≤ 8)%nat).
Proof.
  intros Hok H0 H8 Hl. destruct extended.
  - apply decode_length_inv in Hl as (ext & tl & ? & ? & ? & ?); [|done..]. by exists ext, tl.
  - specialize (H8 eq_refl). simplify_eq. exists [], rest. unfold ext_field.
    rewrite Z2Nat.id, (proj2 (Z.ltb_lt _ _)) by lia. repeat split; lia.
Qed.

Lemma decode_body_inv (b0 c m1 m0 : Z) (rest : list Z) (extended : bool) (hdr : Header) p :
  bytes_ok (b0 :: c :: m1 :: m0 :: rest) → 0 ≤ hdr_tkl hdr →
  (extended = false → hdr_tkl hdr ≤ 8) →
  decode_body (b0 :: c :: m1 :: m0 :: rest) extended hdr rest = Ok p →
  ∃ ext token os payload, p = mkParts hdr token (options_wire 0 os) payload ∧
    rest = ext ++ token ++ options_wire 0 os ++ payload_wire payload ∧
    ext_field (Z.of_nat (length token)) = (hdr_tkl hdr, ext) ∧
    msg_wf (hdr_code hdr) token os payload ∧ (extended = false → (length token ≤ 8)%nat).
Proof.
  intros Hok Ht H8 Hd. unfold decode_body in Hd.
  assert (Hrest : bytes_ok rest) by (apply (bytes_ok_drop 4) in Hok; exact Hok).
  destruct (if extended then decode_length (hdr_tkl hdr) rest else _) as [[n k]| | |] eqn:El;
    try done.
  apply token_length_inv in El as (ext & tl & Ee & -> & -> & Hn & Hn8); [|done..].
  set (buf := b0 :: _) in *. unbind. unfold usize_checked_add in Hd.
  destruct (Z.of_nat (4 + length ext) <=? usize_max); [cbn [ok_or] in Hd|done].
  destruct (Z.of_nat (4 + length ext + n) <=? usize_max); [cbn [ok_or] in Hd|done].
  destruct (slice_get buf _ _) as [token|] eqn:Hs; [cbn [ok_or] in Hd|done].
  pose proof (slice_get_length _ _ _ _ Hs) as Hlt.
  assert (n = length token) as -> by lia. clear Hlt.
  set (pre := [b0; c; m1; m0] ++ ext) in *.
  assert (Hp : length pre = (4 + length ext)%nat) by (unfold pre; rewrite length_app; done).
  assert (Hbuf : buf = pre ++ tl) by (unfold buf, pre; app_norm).
  apply slice_get_Some in Hs as [Hrng Hs]. rewrite Hbuf, length_app in Hrng.
  rewrite <- Hp, Nat.add_sub', Hbuf, drop_app_length in Hs.
  set (st := (4 + length ext + length token)%nat) in *.
  assert (Htl : tl = token ++ drop st buf).
  { rewrite Hs at 1. rewrite <- (take_drop (length token) tl) at 1. f_equal.
    rewrite Hbuf. unfold st. rewrite <- Hp, drop_app_add. done. }
  exists ext, token. destruct (Code_is_empty (hdr_code hdr)) eqn:Ec.
  - destruct (negb (hdr_tkl hdr =? 0) || _) eqn:Eg; [done|]. simplify_eq.
    apply orb_false_iff in Eg as [Eg1%negb_false_iff%Z.eqb_eq Eg2%negb_false_iff%Nat.eqb_eq].
    exists [], []. assert (length token = 0%nat) as Hz.
    { rewrite Eg1 in Ee. unfold ext_field in Ee. repeat case_match; simplify_eq; bools; lia. }
    apply nil_length_inv in Hz as ->. simpl. rewrite Htl, Eg2, drop_all. repeat split; try done; lia.
  - destruct (split_options_and_payload buf st) as [[o pl]| | |] eqn:Esp; try done. simplify_eq.
    apply split_loop_inv in Esp as (os & Hw & -> & Hdr); [|done|rewrite Hbuf, length_app; lia|lia].
    rewrite Nat.sub_diag, take_0. simpl. exists os, pl. split; [done|].
    split; [by rewrite Htl, Hdr|]. split; [done|]. split; [|done].
    split; [lia|]. split; [done|]. intros H0. unfold Code_is_empty in Ec. bools. done.
Qed.

(** The decoder accepts nothing but reference encodings. *)
Lemma decode_parts_inv (buf : list Z) (extended : bool) p :
  bytes_ok buf → decode_parts buf extended = Ok p →
  ∃ ty code id token os payload,
    p = wire_parts ty code id token os payload ∧ buf = msg_wire ty code id token os payload ∧
    msg_wf code token os payload ∧ in_u 8 code ∧ in_u 16 id ∧
    (extended = false → (length token ≤ 8)%nat).
Proof.
  intros Hok Hd. destruct buf as [|b0 [|c [|m1 [|m0 rest]]]]; try done.
  rewrite decode_parts_cons in Hd.
  destruct (Z.eqb_spec (Z.shiftr b0 6) 1) as [Hv|]; [|done]. cbn [negb] in Hd.
  destruct (negb extended && _) eqn:H8; [done|].
  pose proof Hok as Hok'. rewrite !bytes_ok_cons in Hok'. destruct Hok' as (Hb0 & Hc & Hm1 & Hm0 & _).
  destruct (header_fields_inv b0 Hb0 Hv) as [Heq Ht].
  apply decode_body_inv in Hd as (ext & token & os & payload & -> & Hr & Ee & Hw & He);
    [|done|simpl; lia|].
  2: { intros ->. simpl in H8. apply Z.ltb_ge in H8. done. }
  unfold in_u in *. change (2 ^ 8) with 256 in *.
  eexists _, c, _, token, os, payload. unfold wire_parts, msg_wire, header_wire.
  cbn [hdr_tkl hdr_code] in *. rewrite Ee, Hv. split; [done|]. split.
  - rewrite Hr at 1. rewrite <- !app_assoc. simpl. f_equal; [exact Heq|]. f_equal.
    unfold from_be. cbn [foldl]. f_equal; [div_lia|]. f_equal. div_lia.
  - split; [done|]. split; [done|]. split; [|done]. unfold from_be. cbn [foldl]. lia.
Qed.

(** The decoder ends without a panic on every input. *)
Lemma decode_parts_returns (buf : list Z) (extended : bool) : returns (decode_parts buf extended).
Proof.
  destruct buf as [|b0 [|c [|m1 [|m0 rest]]]]; try done. rewrite decode_parts_cons.
  destruct (negb _); [done|]. destruct (_ && _); [done|]. unfold decode_body.
  set (hdr := mkHeader _ _ _ _ _). set (buf := b0 :: _).
  assert (Hl : returns (if extended then decode_length (hdr_tkl hdr) rest
                        else Ok (Z.to_nat (hdr_tkl hdr), 0%nat))).
  { destruct extended; [apply decode_length_returns|done]. }
  destruct (if extended then _ else _) as [[n k]| | |]; try done. unbind.
  destruct (usize_checked_add 4 k); [cbn [ok_or]|done].
  destruct (usize_checked_add _ n) as [st|]; [cbn [ok_or]|done].
  destruct (slice_get buf _ st); [cbn [ok_or]|done].
  destruct (Code_is_empty _); [by destruct (_ || _)|].
  pose proof (split_loop_returns (S (length buf)) buf st st 0 ltac:(lia) ltac:(lia)) as Hr.
  unfold split_options_and_payload. by destruct (split_loop _ _ _ _ _) as [[]| | |].
Qed.

End decode_lemmas.
