(* ===== verification/Codec.v ===== *)
(** * Codec theorems

    What the encoder and the decoder promise each other, stated on the public
    entry points [encode], [decode], [decode_with_token], [ParsedMessage::encode]
    and [MessageLayout::bind].  The token representation is any implementation
    of [OwnedToken] that keeps the trait's contract. *)
From S2P Require Import Prelude Errors MsgTypes Options Encode Decode.

Section codec.
  Context `{Target} {T : Type} `{OwnedTokenLaws T}.

(** A message whose fields have their Rust types. *)
Definition message_typed (m : Message T) : Prop :=
  in_u 8 (msg_code _ m) ∧ in_u 16 (msg_id _ m) ∧ ot_wf (msg_token _ m) ∧
  Forall opt_typed (msg_options _ m) ∧ slice_fits (msg_payload _ m).

Lemma slice_fits_take (n : nat) (bs : list Z) : slice_fits bs → slice_fits (take n bs).
Proof. unfold slice_fits. rewrite length_take. lia. Qed.

(** [encode] on a token with bytes [bs] is [encode_token_iter]. *)
Lemma encode_bytes (m : Message T) (bs : list Z) :
  (∀ E, ot_as_bytes (E:=E) (msg_token _ m) = Ok bs) →
  ∀ buf, encode m buf =
    (if Code_is_empty (msg_code _ m) &&
        (negb (is_nil bs) || negb (is_nil (msg_options _ m)) || negb (is_nil (msg_payload _ m)))
     then (buf, Err EmptyMessageNotEmpty)
     else encode_token_iter (msg_ty _ m) (msg_code _ m) (msg_id _ m) bs (msg_options _ m)
            (msg_payload _ m) buf).
Proof.
  intros Hb buf. unfold encode, encode_iter. unbind. rewrite !Hb. by destruct (_ && _).
Qed.

Lemma encode_ok_inv (m : Message T) (bs buf buf' : list Z) n :
  message_typed m → slice_fits buf → (∀ E, ot_as_bytes (E:=E) (msg_token _ m) = Ok bs) →
  encode m buf = (buf', Ok n) →
  let wire := msg_wire (msg_ty _ m) (msg_code _ m) (msg_id _ m) bs (msg_options _ m)
                (msg_payload _ m) in
  msg_wf (msg_code _ m) bs (msg_options _ m) (msg_payload _ m) ∧ n = length wire ∧
  (n ≤ length buf)%nat ∧ buf' = splice buf 0 wire.
Proof.
  intros (Hc & Hid & Ht & Hos & Hp) Hbuf Hb. rewrite (encode_bytes _ _ Hb).
  destruct (_ && _); [done|]. intros He.
  pose proof (encode_token_iter_outcome (msg_ty _ m) (msg_code _ m) (msg_id _ m) bs
    (msg_options _ m) (msg_payload _ m) buf Hid Hos Hp Hbuf) as Ho.
  rewrite He in Ho. apply Ho.
Qed.

(** Decoding what [encode] wrote. *)
Lemma encode_decodes (m : Message T) (buf buf' : list Z) (n : nat) :
  message_typed m → slice_fits buf → encode m buf = (buf', Ok n) →
  ∃ pm, decode_with_token (take n buf') = Ok pm ∧
    pm_ty pm = msg_ty _ m ∧ pm_code pm = msg_code _ m ∧ pm_message_id pm = msg_id _ m ∧
    pm_token _ pm = msg_token _ m ∧ pm_opts (E:=ParseError) pm = Ok (msg_options _ m) ∧
    pm_payload _ pm = msg_payload _ m.
Proof.
  intros Hm Hbuf He. pose proof Hm as (Hc & Hid & Ht & Hos & Hp).
  destruct (ot_wf_bytes _ Ht) as (bs & Hb & Hbl).
  destruct (encode_ok_inv m bs buf buf' n Hm Hbuf Hb He) as (Hwf & -> & Hn & ->).
  rewrite <- (Nat.add_0_l (length _)), take_splice, take_0 by lia. simpl ([] ++ _).
  set (wire := msg_wire _ _ _ _ _ _) in *.
  assert (Hfit : slice_fits wire) by (unfold slice_fits in *; lia).
  unfold decode_with_token. unbind. unfold wire in *. rewrite decode_parts_wire by done.
  destruct (ot_from_bytes_ok bs Hbl) as (t & Hft & Htw & Htb). unfold wire_parts.
  cbn [map_err pt_token]. rewrite Hft. cbn [map_err].
  eexists. split; [done|]. repeat split; [|].
  - apply ot_eq_bytes; [done|done|]. by rewrite Hb, Htb.
  - unfold pm_opts. cbn [pm_options pt_options]. apply Options_iter_wire; [|apply Hwf].
    unfold slice_fits, msg_wire in *. rewrite !length_app in Hfit. lia.
Qed.

(** C1: decoding what [encode] wrote gives back the message.  Whatever was in
    the output buffer, a successful [encode] of a message with a token of any
    lawful representation is decoded, from the returned prefix alone, to the
    same type, code, Message ID, token, options and payload. *)
Theorem encode_decode_roundtrip (m : Message T) (buf buf' : list Z) (n : nat) :
  message_typed m → slice_fits buf → encode m buf = (buf', Ok n) →
  ∃ pm, decode_with_token (take n buf') = Ok pm ∧
    pm_ty pm = msg_ty _ m ∧ pm_code pm = msg_code _ m ∧ pm_message_id pm = msg_id _ m ∧
    pm_token _ pm = msg_token _ m ∧ pm_opts (E:=ParseError) pm = Ok (msg_options _ m) ∧
    pm_payload _ pm = msg_payload _ m.
Proof. apply encode_decodes. Qed.

(** Re-encoding a decoded datagram reproduces its bytes.  The option and
    token encodings are canonical: there is one wire form per message. *)
Theorem decode_encode_roundtrip (buf out : list Z) (pm : ParsedMessage T) :
  bytes_ok buf → slice_fits buf → slice_fits out → (length buf ≤ length out)%nat →
  decode_with_token buf = Ok pm →
  pm_encode pm out = (splice out 0 buf, Ok (length buf)).
Proof.
  intros Hok Hfit Hout Hl Hd. unfold decode_with_token in Hd. unbind.
  destruct (decode_parts buf true) as [p| | |] eqn:Ep; try done. cbn [map_err] in Hd.
  apply decode_parts_inv in Ep as (ty & code & id & token & os & payload & -> & -> & Hwf & Hc & Hid & _);
    [|done].
  cbn [wire_parts pt_token] in Hd.
  destruct (ot_try_from_bytes token) as [t| | |] eqn:Et; try done. cbn [map_err] in Hd. simplify_eq.
  destruct (decide (length token ≤ ot_MAX_LEN)%nat) as [Hlt|Hlt].
  2: { by rewrite ot_from_bytes_err in Et by lia. }
  destruct (ot_from_bytes_ok token Hlt) as (t' & Ht' & _ & Hb). rewrite Et in Ht'. simplify_eq.
  assert (slice_fits (options_wire 0 os) ∧ slice_fits payload) as [Hfo Hfp].
  { unfold slice_fits, msg_wire, payload_wire in *. rewrite !length_app in Hfit.
    split; [lia|]. destruct payload; simpl in *; lia. }
  unfold pm_encode, pm_opts, encode_iter. cbn [pm_options]. unbind.
  rewrite Options_iter_wire by (done || apply Hwf). rewrite Hb. cbn beta iota.
  apply encode_token_iter_ok; done.
Qed.

(** Every outcome of [encode], with the state of the output buffer.
    Success writes exactly the reference encoding and nothing else; each error
    has the cause its name says, and the two errors found before the first
    write leave the buffer as it was.  There is no panic. *)
Theorem encode_outcome (m : Message T) (bs buf : list Z) :
  message_typed m → slice_fits buf → (∀ E, ot_as_bytes (E:=E) (msg_token _ m) = Ok bs) →
  let wire := msg_wire (msg_ty _ m) (msg_code _ m) (msg_id _ m) bs (msg_options _ m)
                (msg_payload _ m) in
  let '(buf', r) := encode m buf in
  length buf' = length buf ∧
  match r with
  | Ok n =>
      msg_wf (msg_code _ m) bs (msg_options _ m) (msg_payload _ m) ∧ n = length wire ∧
      (n ≤ length buf)%nat ∧ buf' = splice buf 0 wire
  | Err BufferTooSmall => (length buf < length wire)%nat
  | Err EmptyMessageNotEmpty =>
      msg_code _ m = 0 ∧ ¬ (bs = [] ∧ msg_options _ m = [] ∧ msg_payload _ m = []) ∧ buf' = buf
  | Err TokenTooLong => 65804 < Z.of_nat (length bs) ∧ buf' = buf
  | Err OptionsNotAscending => ¬ opts_ascending 0 (msg_options _ m)
  | Err OptionValueTooLong => Exists opt_too_long (msg_options _ m)
  | Err EncodeOptionsFull | Panic | Diverge => False
  end.
Proof.
  intros (Hc & Hid & Ht & Hos & Hp) Hbuf Hb wire. rewrite (encode_bytes _ _ Hb).
  destruct (_ && _) eqn:He.
  - split; [done|]. apply andb_true_iff in He as [Hc0%Z.eqb_eq He]. split; [done|].
    split; [|done]. intros (-> & Ho & Hpl). by rewrite Ho, Hpl in He.
  - exact (encode_token_iter_outcome (msg_ty _ m) (msg_code _ m) (msg_id _ m) bs
      (msg_options _ m) (msg_payload _ m) buf Hid Hos Hp Hbuf).
Qed.

(** The decoder ends without a panic on every byte string, and so does
    every iteration over the options of its result. *)
Theorem decode_total (buf : list Z) :
  returns (decode buf) ∧ returns (decode_with_token (T:=T) buf) ∧
  returns (decode_without_token (T:=T) buf) ∧ returns (extended_decode buf) ∧
  ∀ (pm : ParsedMessage T), ∃ os, pm_opts (E:=ParseError) pm = Ok os.
Proof.
  pose proof (decode_parts_returns buf false) as R0. pose proof (decode_parts_returns buf true) as R1.
  unfold decode, decode_with_token, decode_without_token, extended_decode. unbind.
  split; [destruct (decode_parts buf false); try done; by rewrite Token_from_checked_spec|].
  split; [|split; [by destruct (decode_parts buf true)|split; [done|]]].
  - destruct (decode_parts buf true) as [p| | |]; try done. cbn [map_err].
    destruct (decide (length (pt_token p) ≤ ot_MAX_LEN)%nat) as [Hl|Hl].
    + by destruct (ot_from_bytes_ok _ Hl) as (t & -> & _).
    + by rewrite ot_from_bytes_err by lia.
  - intros pm. apply Options_iter_total.
Qed.

(** C6: the decoder accepts exactly the reference encodings: a byte string is
    accepted, with these parts, if and only if it is the wire form of a
    well-formed message with these parts. *)
Theorem decode_parts_iff (buf : list Z) (extended : bool) (p : Parts) :
  bytes_ok buf → slice_fits buf →
  decode_parts buf extended = Ok p ↔
  ∃ ty code id token os payload,
    p = wire_parts ty code id token os payload ∧ buf = msg_wire ty code id token os payload ∧
    msg_wf code token os payload ∧ in_u 8 code ∧ in_u 16 id ∧
    (extended = false → (length token ≤ 8)%nat).
Proof.
  intros Hok Hfit. split; [by apply decode_parts_inv|].
  intros (ty & code & id & token & os & payload & -> & -> & Hwf & Hc & Hid & He).
  by apply decode_parts_wire.
Qed.

(** A syntactically valid datagram is refused for capacity exactly when
    its token is longer than the selected storage, and the refusal reports both
    lengths. *)
Theorem decode_with_token_capacity (buf : list Z) (e : CapacityError) :
  decode_with_token (T:=T) buf = Err (Capacity e) ↔
  ∃ p, extended_decode buf = Ok p ∧ (ot_MAX_LEN < length (pt_token p))%nat ∧
    e = mkCapacityError (length (pt_token p)) ot_MAX_LEN.
Proof.
  unfold decode_with_token, extended_decode. unbind. split.
  - destruct (decode_parts buf true) as [p| | |] eqn:Ep; try done. cbn [map_err]. intros He.
    exists p. split; [done|].
    destruct (decide (length (pt_token p) ≤ ot_MAX_LEN)%nat) as [Hl|Hl].
    + destruct (ot_from_bytes_ok _ Hl) as (t & Ht & _). by rewrite Ht in He.
    + rewrite ot_from_bytes_err in He by lia. cbn [map_err] in He. simplify_eq. split; [lia|done].
  - intros (p & -> & Hl & ->). cbn [map_err]. by rewrite ot_from_bytes_err.
Qed.

Lemma layout_offsets (h o payload : list Z) (hdr : Header) (t : T) :
  MessageLayout_bind (E:=ParseError)
    (mkLayout _ hdr t (length (h ++ o ++ payload_wire payload)) (length o) (length payload))
    (h ++ o ++ payload_wire payload) = Ok (Some (mkParsed _ hdr t o payload)).
Proof.
  unfold MessageLayout_bind. cbn [ml_wire_len ml_payload_len ml_options_len ml_header ml_token].
  rewrite Nat.eqb_refl. cbn [negb]. unfold payload_wire, slice_idx.
  destruct payload as [|x payload]; cbn [is_nil length Nat.eqb].
  - rewrite app_nil_r, !length_app. rewrite usize_checked_sub_ok, Nat.sub_0_r by lia.
    rewrite usize_checked_sub_ok, Nat.sub_0_r by lia. rewrite usize_checked_sub_ok by lia.
    rewrite (slice_get_tail h o (length h + length o - length o)) by lia. unbind.
    rewrite <- (app_nil_r (h ++ o)), <- length_app.
    by rewrite (slice_get_tail (h ++ o) []) by (simpl; lia).
  - rewrite !length_app. cbn [length]. rewrite usize_checked_sub_ok by lia.
    rewrite usize_checked_sub_ok by lia. rewrite usize_checked_sub_ok by lia.
    match goal with |- context [slice_get _ (?a - length o) ?b] =>
      rewrite (slice_get_app h o (255 :: x :: payload) (a - length o) b) by lia end.
    unbind.
    rewrite (cons_middle 255), !app_assoc.
    by rewrite slice_get_tail by (rewrite ?length_app; simpl; lia).
Qed.

(** Detaching the layout of a decoded datagram and binding it to the same
    bytes gives back the parsed message. *)
Theorem layout_bind_roundtrip (buf : list Z) (pm : ParsedMessage T) :
  bytes_ok buf → decode_with_token buf = Ok pm →
  MessageLayout_bind (E:=ParseError) (pm_layout pm (length buf)) buf = Ok (Some pm).
Proof.
  intros Hok Hd. unfold decode_with_token in Hd. unbind.
  destruct (decode_parts buf true) as [p| | |] eqn:Ep; try done. cbn [map_err] in Hd.
  destruct (map_err _ _) as [t| | |]; try done. simplify_eq.
  apply decode_parts_inv in Ep as (ty & code & id & token & os & payload & -> & -> & _); [|done].
  apply layout_offsets.
Qed.

End codec.

(** The compact decoder and the RFC 8974 decoder over compact tokens accept
    the same datagrams with the same result. *)
Theorem decode_compact_agree `{Target} (buf : list Z) (pm : ParsedMessage Token) :
  bytes_ok buf → slice_fits buf →
  decode buf = Ok pm ↔ decode_with_token buf = Ok pm.
Proof.
  intros Hok Hfit. unfold decode, decode_with_token. unbind. split.
  - destruct (decode_parts buf false) as [p| | |] eqn:Ep; try done.
    apply decode_parts_inv in Ep as (ty & c & id & tk & os & pl & -> & -> & Hw & Hc & Hid & Hl);
      [|done].
    rewrite decode_parts_wire by done. cbn [map_err wire_parts pt_token]. specialize (Hl eq_refl).
    destruct (Token_from_checked_ok (E:=ParseError) tk Hl) as (t & Ht & Htw & Htb).
    destruct (@ot_from_bytes_ok Token _ Token_laws tk Hl) as (t' & Ht' & Htw' & Htb').
    rewrite Ht, Ht'. cbn [map_err]. intros [= <-]. do 2 f_equal.
    apply ot_eq_bytes; [done|done|]. by rewrite Htb'.
  - destruct (decode_parts buf true) as [p| | |] eqn:Ep; try done. cbn [map_err].
    apply decode_parts_inv in Ep as (ty & c & id & tk & os & pl & -> & -> & Hw & Hc & Hid & _);
      [|done].
    cbn [wire_parts pt_token]. destruct (decide (length tk ≤ 8)%nat) as [Hl|Hl].
    2: { rewrite (ot_from_bytes_err (T:=Token) tk) by (simpl; unfold Token_MAX_LEN; lia). done. }
    rewrite decode_parts_wire by done. cbn [wire_parts pt_token].
    destruct (Token_from_checked_ok (E:=ParseError) tk Hl) as (t & Ht & Htw & Htb).
    destruct (@ot_from_bytes_ok Token _ Token_laws tk Hl) as (t' & Ht' & Htw' & Htb').
    rewrite Ht, Ht'. cbn [map_err]. intros [= <-]. do 2 f_equal.
    apply ot_eq_bytes; [done|done|]. by rewrite Htb'.
Qed.

(** ** Witnesses: a confirmable GET with a two-byte token *)
Definition ex_opts : list Opt :=
  [mkOpt ON_URI_PATH [116; 101]; mkOpt ON_URI_QUERY [97]; mkOpt ON_REQUEST_TAG [1; 2; 3]].
Definition ex_token : Token := mkToken [7; 9; 0; 0; 0; 0; 0; 0] 2.
Definition ex_msg : Message Token :=
  Message_with_payload (Message_with_options (Message_con Code_GET 4660 ex_token) ex_opts) [42; 43].
Definition ex_wire : list Z :=
  [66; 1; 18; 52; 7; 9; 178; 116; 101; 65; 97; 227; 0; 8; 1; 2; 3; 255; 42; 43].

Lemma ex_typed : @message_typed target64 Token _ _ ex_msg.
Proof. repeat (constructor || split); by vm_compute. Defined.

Lemma ex_encode : @encode target64 Token _ ex_msg (replicate 24 0) =
  (ex_wire ++ [0; 0; 0; 0], Ok 20%nat).
Proof. by vm_compute. Defined.

Lemma encode_decode_roundtrip_witness :
  ∃ pm, @decode_with_token target64 Token _ (take 20 (ex_wire ++ [0; 0; 0; 0])) = Ok pm ∧
    pm_ty pm = Confirmable ∧ pm_code pm = 1 ∧ pm_message_id pm = 4660 ∧
    pm_token _ pm = ex_token ∧ @pm_opts target64 Token ParseError pm = Ok ex_opts ∧
    pm_payload _ pm = [42; 43].
Proof.
  apply (@encode_decode_roundtrip target64 Token _ _ ex_msg (replicate 24 0));
    [apply ex_typed|by vm_compute|apply ex_encode].
Defined.

Definition ex_pm : ParsedMessage Token :=
  mkParsed _ (mkHeader 1 Confirmable 2 1 4660) ex_token
    [178; 116; 101; 65; 97; 227; 0; 8; 1; 2; 3] [42; 43].

Lemma ex_decode : @decode_with_token target64 Token _ ex_wire = Ok ex_pm.
Proof. by vm_compute. Defined.

Lemma ex_wire_ok : bytes_ok ex_wire.
Proof. repeat constructor; by vm_compute. Defined.

Lemma decode_encode_roundtrip_witness :
  @pm_encode target64 Token _ ex_pm (replicate 24 5) =
    (splice (replicate 24 5) 0 ex_wire, Ok (length ex_wire)).
Proof.
  apply (@decode_encode_roundtrip target64 Token _ _);
    [apply ex_wire_ok|by vm_compute|by vm_compute|simpl; lia|apply ex_decode].
Defined.

Lemma encode_outcome_witness :
  (∀ E, ot_as_bytes (E:=E) (msg_token _ ex_msg) = Ok [7; 9]) ∧
  let '(buf', r) := @encode target64 Token _ ex_msg (replicate 24 0) in length buf' = 24%nat.
Proof.
  assert (Hb : ∀ E, ot_as_bytes (E:=E) (msg_token _ ex_msg) = Ok [7; 9]) by done.
  split; [done|].
  pose proof (@encode_outcome target64 Token _ _ ex_msg [7; 9] (replicate 24 0) ex_typed
    ltac:(by vm_compute) Hb) as Hx.
  destruct (encode ex_msg (replicate 24 0)). apply Hx.
Defined.

Lemma decode_parts_iff_witness :
  ∃ ty code id token os payload,
    ex_wire = msg_wire ty code id token os payload ∧ msg_wf code token os payload.
Proof.
  destruct (proj1 (@decode_parts_iff target64 ex_wire true
    (mkParts (mkHeader 1 Confirmable 2 1 4660) [7; 9]
       [178; 116; 101; 65; 97; 227; 0; 8; 1; 2; 3] [42; 43])
    ex_wire_ok ltac:(by vm_compute)) ltac:(by vm_compute))
    as (ty & code & id & token & os & payload & _ & Hw & Hwf & _).
  by exists ty, code, id, token, os, payload.
Defined.

Lemma layout_bind_roundtrip_witness :
  @MessageLayout_bind Token ParseError (pm_layout ex_pm 20) ex_wire = Ok (Some ex_pm).
Proof. apply (@layout_bind_roundtrip target64 Token _ ex_wire ex_pm ex_wire_ok ex_decode). Defined.

Lemma decode_compact_agree_witness : @decode target64 ex_wire = Ok ex_pm.
Proof.
  apply (@decode_compact_agree target64 ex_wire ex_pm ex_wire_ok ltac:(by vm_compute)), ex_decode.
Defined.
