(* ===== verification/OptionsBuilder.v ===== *)
(** * The fixed-capacity options builder

    [src/message/builder.rs].  [push] shifts larger options one slot to the
    right inside the array and drops the new option into the gap; it is proved
    to be a stable insertion into the sorted used part, so that any sequence of
    pushes leaves a stable sort of the pushed options, in the order the
    encoder demands. *)
From S2P Require Import Prelude Errors Options Encode.

Record OptionsBuilder : Type := mkBuilder { ob_items : list Opt; ob_len : nat }.

Definition OB_PLACEHOLDER : Opt := mkOpt 0 [].

Definition OptionsBuilder_new (N : nat) : OptionsBuilder :=
  mkBuilder (replicate N OB_PLACEHOLDER) 0.

(** The [while i > 0 && ...] loop: the array and the slot it stops at. *)
Fixpoint push_loop {E} (i : nat) (items : list Opt) (opt : Opt) : res E (list Opt * nat) :=
  match i with
  | O => mret (items, O)
  | S k =>
      prev ← idx items k;
      if opt_number opt <? opt_number prev then
        x ← idx items k;
        items ← set_idx i x items;
        push_loop k items opt
      else mret (items, i)
  end.

Definition OptionsBuilder_push (N : nat) (b : OptionsBuilder) (opt : Opt)
    : res OptionsFull OptionsBuilder :=
  if (N <=? ob_len b)%nat then Err mkOptionsFull
  else
    '(items, i) ← push_loop (ob_len b) (ob_items b) opt;
    items ← set_idx i opt items;
    mret (mkBuilder items (S (ob_len b))).

Definition OptionsBuilder_as_slice {E} (b : OptionsBuilder) : res E (list Opt) :=
  if (ob_len b <=? length (ob_items b))%nat then Ok (take (ob_len b) (ob_items b)) else Panic.

Definition OptionsBuilder_is_empty (b : OptionsBuilder) : bool := (ob_len b =? 0)%nat.
Definition OptionsBuilder_is_full (N : nat) (b : OptionsBuilder) : bool := (ob_len b =? N)%nat.
Definition OptionsBuilder_remaining (N : nat) (b : OptionsBuilder) : nat := (N - ob_len b)%nat.
Definition OptionsBuilder_clear (b : OptionsBuilder) : OptionsBuilder := mkBuilder (ob_items b) 0.

(** A sequence of pushes. *)
Fixpoint push_all (N : nat) (b : OptionsBuilder) (os : list Opt) : res OptionsFull OptionsBuilder :=
  match os with
  | [] => Ok b
  | o :: os => b ← OptionsBuilder_push N b o; push_all N b os
  end.

(** ** Invariant and specification *)
Definition number_le (o p : Opt) : Prop := opt_number o ≤ opt_number p.

Definition used (b : OptionsBuilder) : list Opt := take (ob_len b) (ob_items b).

Definition builder_inv (N : nat) (b : OptionsBuilder) : Prop :=
  length (ob_items b) = N ∧ (ob_len b ≤ N)%nat ∧ StronglySorted number_le (used b).

(** Stable insertion: after every option with the same or a smaller number. *)
Definition insert_stable (o : Opt) (l : list Opt) : list Opt :=
  filter (fun p => opt_number p ≤ opt_number o) l ++ o ::
  filter (fun p => opt_number o < opt_number p) l.

Lemma filter_all {A} (P : A → Prop) `{∀ x, Decision (P x)} (l : list A) :
  Forall P l → filter P l = l.
Proof. induction 1 as [|x l Hx Hl IH]; [done|]. by rewrite filter_cons_True, IH. Qed.

Lemma filter_none {A} (P : A → Prop) `{∀ x, Decision (P x)} (l : list A) :
  Forall (fun x => ¬ P x) l → filter P l = [].
Proof. induction 1 as [|x l Hx Hl IH]; [done|]. by rewrite filter_cons_False, IH. Qed.

(** A sorted list splits at the place the loop looks for. *)
Lemma insert_stable_split (o : Opt) (l1 l2 : list Opt) :
  Forall (fun p => opt_number p ≤ opt_number o) l1 →
  Forall (fun p => opt_number o < opt_number p) l2 →
  insert_stable o (l1 ++ l2) = l1 ++ o :: l2.
Proof.
  intros H1 H2. unfold insert_stable. rewrite !filter_app.
  rewrite (filter_all _ l1 H1), (filter_all _ l2 H2).
  rewrite (filter_none _ l2), (filter_none _ l1), app_nil_r; [done|..];
    (eapply Forall_impl; [eassumption|]); simpl; lia.
Qed.

Lemma sorted_last (l : list Opt) (x : Opt) :
  StronglySorted number_le (l ++ [x]) → Forall (fun p => opt_number p ≤ opt_number x) l.
Proof.
  induction l as [|y l IH]; simpl; [constructor|]. intros [Hs Hf]%StronglySorted_inv.
  constructor; [|by apply IH]. apply Forall_app in Hf as [_ Hf]. by inversion Hf.
Qed.

(** What the shifting loop leaves behind: it stops at the insertion point [j],
    and the options from [j] on have moved up by one slot. *)
Lemma push_loop_spec {E} (l rest : list Opt) (y opt : Opt) :
  StronglySorted number_le l →
  ∃ l1 l2 g, l = l1 ++ l2 ∧ Forall (fun p => opt_number p ≤ opt_number opt) l1 ∧
    Forall (fun p => opt_number opt < opt_number p) l2 ∧
    push_loop (E:=E) (length l) (l ++ y :: rest) opt =
      Ok (l1 ++ g :: l2 ++ rest, length l1).
Proof.
  revert y rest. induction l as [|x l IH] using rev_ind; intros y rest Hs.
  { by exists [], [], y. }
  rewrite length_app, Nat.add_1_r. cbn [push_loop]. rewrite <- app_assoc. simpl ([x] ++ _).
  unfold idx. rewrite lookup_app_mid by done. unbind.
  destruct (opt_number opt <? opt_number x) eqn:E1; bools.
  - rewrite set_idx_ok by (rewrite length_app; simpl; lia).
    assert (splice (l ++ x :: y :: rest) (S (length l)) [x] = l ++ x :: x :: rest) as ->.
    { rewrite (cons_middle x), app_assoc. unfold splice.
      rewrite take_app_length' by (rewrite length_app; simpl; lia).
      rewrite drop_app_ge by (rewrite length_app; simpl; lia). rewrite length_app. simpl.
      replace (S (length l + 1) - (length l + 1))%nat with 1%nat by lia. app_norm. }
    destruct (IH x (x :: rest)) as (l1 & l2 & g & -> & H1 & H2 & Hl).
    { by apply StronglySorted_app_1_l in Hs. }
    exists l1, (l2 ++ [x]), g. rewrite app_assoc. split; [done|]. split; [done|].
    split; [by apply Forall_app_2; [|constructor]|]. rewrite Hl. do 2 f_equal. app_norm.
  - exists (l ++ [x]), [], y. rewrite app_nil_r. split; [done|].
    split; [apply Forall_app_2; [|by repeat constructor]|].
    { eapply Forall_impl; [by apply sorted_last|]. simpl. lia. }
    split; [constructor|]. rewrite length_app, Nat.add_1_r. do 2 f_equal. app_norm.
Qed.

Lemma insert_stable_sorted (o : Opt) (l : list Opt) :
  StronglySorted number_le l → StronglySorted number_le (insert_stable o l).
Proof.
  intros Hs. unfold insert_stable.
  assert (∀ P `{∀ x, Decision (P x)}, StronglySorted number_le (filter P l)) as Hf.
  { intros P ?. induction Hs as [|x l Hs IH Hx]; [constructor|].
    rewrite filter_cons. destruct (decide (P x)); [|done]. constructor; [done|].
    rewrite Forall_forall in *. intros y [_ Hy]%list_elem_of_filter. auto. }
  apply StronglySorted_app_2; [|apply Hf|].
  - intros x y [Hx _]%list_elem_of_filter [->|[Hy _]%list_elem_of_filter]%elem_of_cons;
      unfold number_le; lia.
  - constructor; [apply Hf|]. apply Forall_forall. intros y [Hy _]%list_elem_of_filter.
    unfold number_le. lia.
Qed.

(** Inserting keeps the relative order of the options with any one number. *)
Lemma insert_stable_filter (o : Opt) (l : list Opt) (n : Z) :
  filter (fun p => opt_number p = n) (insert_stable o l) =
  filter (fun p => opt_number p = n) l ++ filter (fun p => opt_number p = n) [o].
Proof.
  unfold insert_stable. rewrite filter_app, filter_cons, !list_filter_filter.
  destruct (decide (opt_number o = n)) as [<-|Hn].
  - rewrite (list_filter_iff _ (fun p => opt_number p = opt_number o)) by (intros; lia).
    f_equal. rewrite filter_cons_True by done. f_equal. apply filter_none.
    apply Forall_forall. intros. lia.
  - rewrite (filter_cons_False _ o) by done. rewrite app_nil_r.
    destruct (Z.lt_total n (opt_number o)) as [H|[H|H]]; [|done|].
    + rewrite (filter_none (fun x => opt_number x = n ∧ opt_number o < opt_number x))
        by (apply Forall_forall; intros; lia).
      rewrite app_nil_r. apply list_filter_iff. intros; lia.
    + rewrite (filter_none (fun x => opt_number x = n ∧ opt_number x ≤ opt_number o))
        by (apply Forall_forall; intros; lia).
      apply list_filter_iff. intros; lia.
Qed.

Lemma insert_stable_perm (o : Opt) (l : list Opt) : insert_stable o l ≡ₚ l ++ [o].
Proof.
  unfold insert_stable. rewrite <- Permutation_middle, <- Permutation_cons_append. f_equiv.
  rewrite <- (filter_app_complement (fun p => opt_number p ≤ opt_number o) l) at 3. f_equiv.
  apply reflexive_eq, list_filter_iff. intros. lia.
Qed.

(** [push] is stable insertion, until the array is full. *)
Lemma OptionsBuilder_push_ok (N : nat) (b : OptionsBuilder) (o : Opt) :
  builder_inv N b → (ob_len b < N)%nat →
  ∃ b', OptionsBuilder_push N b o = Ok b' ∧ builder_inv N b' ∧ ob_len b' = S (ob_len b) ∧
    used b' = insert_stable o (used b).
Proof.
  intros (Hl & Hn & Hs) Hlt. unfold OptionsBuilder_push, used in *.
  rewrite (proj2 (Nat.leb_gt _ _)) by lia.
  destruct (drop (ob_len b) (ob_items b)) as [|y rest] eqn:Ed.
  { apply (f_equal length) in Ed. rewrite length_drop in Ed. simpl in Ed. lia. }
  assert (Hlen : length (take (ob_len b) (ob_items b)) = ob_len b) by (rewrite length_take; lia).
  destruct (push_loop_spec (E:=OptionsFull) _ rest y o Hs) as (l1 & l2 & g & Hu & H1 & H2 & Hp).
  rewrite <- Ed, take_drop, Hlen in Hp. rewrite Hp. unbind.
  rewrite set_idx_ok by (rewrite length_app; simpl; lia).
  assert (splice (l1 ++ g :: l2 ++ rest) (length l1) [o] = (l1 ++ o :: l2) ++ rest) as ->.
  { unfold splice. rewrite take_app_length, drop_app_ge by (simpl; lia). simpl.
    replace (length l1 + 1 - length l1)%nat with 1%nat by lia. app_norm. }
  assert (Hlu : ob_len b = (length l1 + length l2)%nat) by (rewrite <- Hlen, Hu, length_app; done).
  assert (Hlr : length rest = (N - S (ob_len b))%nat).
  { apply (f_equal length) in Ed. rewrite length_drop in Ed. simpl in Ed. lia. }
  assert (Ht : take (S (ob_len b)) ((l1 ++ o :: l2) ++ rest) = insert_stable o (l1 ++ l2)).
  { rewrite take_app_length' by (rewrite length_app; simpl; lia). by rewrite insert_stable_split. }
  eexists. split; [done|]. unfold builder_inv, used. cbn [ob_items ob_len]. rewrite Ht, <- Hu.
  repeat split; [rewrite !length_app; simpl; lia|lia|by apply insert_stable_sorted].
Qed.

Lemma OptionsBuilder_new_inv (N : nat) : builder_inv N (OptionsBuilder_new N).
Proof.
  repeat split; simpl; [by rewrite length_replicate|lia|]. unfold used. simpl. rewrite take_0.
  constructor.
Qed.

Lemma push_all_spec (N : nat) (os : list Opt) (b : OptionsBuilder) :
  builder_inv N b → (ob_len b + length os ≤ N)%nat →
  ∃ b', push_all N b os = Ok b' ∧ builder_inv N b' ∧
    used b' = foldl (fun l o => insert_stable o l) (used b) os ∧
    ob_len b' = (ob_len b + length os)%nat.
Proof.
  revert b. induction os as [|o os IH]; intros b Hb Hl; simpl in *.
  { exists b. by rewrite Nat.add_0_r. }
  destruct (OptionsBuilder_push_ok N b o Hb) as (b1 & Hp & Hb1 & Hl1 & Hu); [lia|].
  unbind. rewrite Hp. destruct (IH b1 Hb1) as (b2 & ? & ? & Hu2 & ?); [lia|].
  exists b2. rewrite <- Hu. split_and!; done || lia.
Qed.

Lemma foldl_insert_stable (os acc : list Opt) :
  foldl (fun l o => insert_stable o l) acc os ≡ₚ acc ++ os ∧
  ∀ n, filter (fun p => opt_number p = n) (foldl (fun l o => insert_stable o l) acc os) =
       filter (fun p => opt_number p = n) (acc ++ os).
Proof.
  revert acc. induction os as [|o os IH]; intros acc; simpl.
  { by rewrite app_nil_r. }
  destruct (IH (insert_stable o acc)) as [Hp Hf]. split.
  - rewrite Hp, insert_stable_perm, <- app_assoc. done.
  - intros n. rewrite Hf, (cons_middle o), app_assoc, filter_app, insert_stable_filter, !filter_app.
    done.
Qed.

Lemma sorted_ascending (l : list Opt) (prev : Z) :
  StronglySorted number_le l → Forall (fun p => prev ≤ opt_number p) l → opts_ascending prev l.
Proof.
  revert prev. induction l as [|o l IH]; intros prev Hs Hf; simpl; [done|].
  apply StronglySorted_inv in Hs as [Hs Ho]. apply Forall_cons in Hf as [Hp _].
  split; [done|]. by apply IH.
Qed.

(** Any sequence of at most [N] pushes into an empty builder succeeds and
    leaves a stable sort of the pushed options: a permutation of them, in
    non-decreasing number order as the encoder requires, in which options with
    the same number keep the order they were pushed in. *)
Theorem push_all_stable_sort (N : nat) (os : list Opt) :
  (length os ≤ N)%nat → Forall (fun o => in_u 16 (opt_number o)) os →
  ∃ b l, push_all N (OptionsBuilder_new N) os = Ok b ∧
    OptionsBuilder_as_slice (E:=OptionsFull) b = Ok l ∧ l ≡ₚ os ∧ opts_ascending 0 l ∧
    ∀ n, filter (fun p => opt_number p = n) l = filter (fun p => opt_number p = n) os.
Proof.
  intros Hl Hty. destruct (push_all_spec N os _ (OptionsBuilder_new_inv N)) as (b & Hp & Hb & Hu & Hn);
    [done|].
  exists b, (used b). split; [done|]. destruct Hb as (Hbl & Hbn & Hs). split.
  { unfold OptionsBuilder_as_slice. by rewrite (proj2 (Nat.leb_le _ _)) by lia. }
  destruct (foldl_insert_stable os (used (OptionsBuilder_new N))) as [Hperm Hf].
  rewrite <- Hu in Hperm, Hf. unfold used in Hperm, Hf at 2. cbn [OptionsBuilder_new ob_len] in *.
  rewrite take_0 in *. split; [done|]. split; [|done].
  apply sorted_ascending; [done|]. rewrite Hperm. eapply Forall_impl; [done|].
  simpl. unfold in_u. lia.
Qed.

(** A full builder refuses the push and a builder that is not full accepts
    it; the invariant (array length, used length, sortedness) is kept. *)
Theorem OptionsBuilder_push_outcome (N : nat) (b : OptionsBuilder) (o : Opt) :
  builder_inv N b →
  match OptionsBuilder_push N b o with
  | Ok b' => OptionsBuilder_is_full N b = false ∧ builder_inv N b' ∧ ob_len b' = S (ob_len b)
  | Err _ => OptionsBuilder_is_full N b = true
  | Panic | Diverge => False
  end.
Proof.
  intros Hb. unfold OptionsBuilder_is_full. pose proof Hb as (_ & Hn & _).
  destruct (decide (ob_len b < N)%nat) as [Hlt|Hge].
  - destruct (OptionsBuilder_push_ok N b o Hb Hlt) as (b' & -> & Hb' & Hl & _).
    rewrite (proj2 (Nat.eqb_neq _ _)) by lia. done.
  - unfold OptionsBuilder_push. rewrite (proj2 (Nat.leb_le _ _)) by lia. apply Nat.eqb_eq. lia.
Qed.

Definition ex_push : list Opt :=
  [mkOpt 12 [50]; mkOpt 11 [97]; mkOpt 258 []; mkOpt 11 [98]; mkOpt 1 [9]].

Lemma push_all_stable_sort_witness :
  ∃ b l, push_all 5 (OptionsBuilder_new 5) ex_push = Ok b ∧
    OptionsBuilder_as_slice (E:=OptionsFull) b = Ok l ∧ l ≡ₚ ex_push ∧ opts_ascending 0 l ∧
    ∀ n, filter (fun p => opt_number p = n) l = filter (fun p => opt_number p = n) ex_push.
Proof. apply (push_all_stable_sort 5); [simpl; lia|]. repeat constructor; by vm_compute. Defined.

Lemma OptionsBuilder_push_outcome_witness :
  builder_inv 1 (OptionsBuilder_new 1) ∧
  match OptionsBuilder_push 1 (OptionsBuilder_new 1) (mkOpt 3 []) with
  | Ok b' => OptionsBuilder_is_full 1 (OptionsBuilder_new 1) = false ∧ builder_inv 1 b' ∧ ob_len b' = 1%nat
  | Err _ => OptionsBuilder_is_full 1 (OptionsBuilder_new 1) = true
  | Panic | Diverge => False
  end.
Proof.
  split; [apply OptionsBuilder_new_inv|].
  apply (OptionsBuilder_push_outcome 1 (OptionsBuilder_new 1) (mkOpt 3 [])), OptionsBuilder_new_inv.
Defined.
