(* ===== verification/OptionValues.v ===== *)
(** * Option value formats

    The value codecs of [src/message/value.rs] (uint, Observe, Content-Format,
    Block), [hop.rs], [no_response.rs] and [echo.rs]: each decoder inverts its
    encoder, encodings have no leading zero byte, and decoders refuse exactly
    the values outside the format. *)
From S2P Require Import Prelude Errors MsgTypes.

(** ** Unsigned integers without leading zeroes *)
Record EncodedUint : Type := mkEncodedUint { eu_buf : list Z; eu_len : Z }.

(** [while i < len { buf[i] = b[start + i]; i += 1 }], with [k = len - i]. *)
Fixpoint EncodedUint_copy {E} (k i start : nat) (b buf : list Z) : res E (list Z) :=
  match k with
  | O => Ok buf
  | S k =>
      x ← idx b (start + i)%nat;
      buf ← set_idx i x buf;
      EncodedUint_copy k (S i) start b buf
  end.

Definition EncodedUint_new {E} (n : Z) : res E EncodedUint :=
  let b := be_bytes 4 n in
  b0 ← idx b 0; b1 ← idx b 1; b2 ← idx b 2; b3 ← idx b 3;
  let start :=
    if negb (b0 =? 0) then 0%nat
    else if negb (b1 =? 0) then 1%nat
    else if negb (b2 =? 0) then 2%nat
    else if negb (b3 =? 0) then 3%nat
    else 4%nat in
  let len := (4 - start)%nat in
  buf ← EncodedUint_copy len 0 start b (replicate 4 0);
  mret (mkEncodedUint buf (wrap 8 (Z.of_nat len))).

Definition EncodedUint_as_bytes {E} (e : EncodedUint) : res E (list Z) :=
  slice_idx (eu_buf e) 0 (Z.to_nat (eu_len e)).

Definition EncodedUint_is_empty (e : EncodedUint) : bool := eu_len e =? 0.

(** [encode_uint(n).as_bytes()]. *)
Definition encode_uint {E} (n : Z) : res E (list Z) :=
  e ← EncodedUint_new n; EncodedUint_as_bytes e.

Fixpoint decode_uint_loop (bytes : list Z) (n : Z) : res ValueError Z :=
  match bytes with
  | [] => Ok n
  | b :: bytes =>
      n ← ok_or (m ← checked_mul 32 n 256; checked_add 32 m b) UintOverflow;
      decode_uint_loop bytes n
  end.

Definition decode_uint (bytes : list Z) : res ValueError Z := decode_uint_loop bytes 0.

Definition decode_uint16 (bytes : list Z) : res ValueError Z :=
  n ← decode_uint bytes;
  if n <=? max_u 16 then Ok n else Err UintOverflow.

(** ** Observe *)
Definition OBSERVE_REGISTER : Z := 0.
Definition OBSERVE_DEREGISTER : Z := 1.
Definition OBSERVE_SEQUENCE_MASK : Z := 16777215.

Definition encode_observe {E} (n : Z) : res E (list Z) :=
  encode_uint (Z.land n OBSERVE_SEQUENCE_MASK).

Definition decode_observe (bytes : list Z) : res ValueError Z :=
  if (3 <? length bytes)%nat then Err UintOverflow else decode_uint bytes.

(** ** Content-Format *)
Definition ContentFormat_encode {E} (id : Z) : res E (list Z) := encode_uint id.

(** ** Block values: NUM, M and SZX *)
Record BlockValue : Type := mkBlock { bv_num : Z; bv_more : bool; bv_szx : Z }.

Definition SZX_MAX : Z := 6.
Definition SZX_BERT : Z := 7.
Definition NUM_MAX : Z := 1048575.
Definition SIZE_MAX : Z := 1024.

Definition BlockValue_new (num : Z) (more : bool) (szx : Z) : res ValueError BlockValue :=
  if SZX_BERT <? szx then Err IllegalSzx
  else if NUM_MAX <? num then Err BlockNumOverflow
  else Ok (mkBlock num more szx).

Definition szx_from_size (size : Z) : res ValueError Z :=
  match size with
  | 16 => Ok 0
  | 32 => Ok 1
  | 64 => Ok 2
  | 128 => Ok 3
  | 256 => Ok 4
  | 512 => Ok 5
  | 1024 => Ok 6
  | _ => Err IllegalSzx
  end.

Definition size_from_szx (szx : Z) : res ValueError Z :=
  if szx =? SZX_BERT then Ok SIZE_MAX
  else if SZX_MAX <? szx then Err IllegalSzx
  else Ok (shl 16 16 szx).

Definition BlockValue_from_size (num : Z) (more : bool) (size : Z) : res ValueError BlockValue :=
  szx ← szx_from_size size; BlockValue_new num more szx.

Definition BlockValue_is_bert (b : BlockValue) : bool := bv_szx b =? SZX_BERT.
Definition BlockValue_bert (num : Z) (more : bool) : res ValueError BlockValue :=
  BlockValue_new num more SZX_BERT.
Definition BlockValue_size (b : BlockValue) : Z :=
  if BlockValue_is_bert b then SIZE_MAX else shl 16 16 (bv_szx b).
Definition BlockValue_as_uint (b : BlockValue) : Z :=
  Z.lor (Z.lor (shl 32 (bv_num b) 4) (shl 32 (Z.b2z (bv_more b)) 3)) (bv_szx b).
Definition BlockValue_encode {E} (b : BlockValue) : res E (list Z) :=
  encode_uint (BlockValue_as_uint b).

Definition BlockValue_from_uint (val : Z) : res ValueError BlockValue :=
  if 16777215 <? val then Err BlockNumOverflow
  else BlockValue_new (Z.shiftr val 4) (negb (Z.land val 8 =? 0)) (wrap 8 (Z.land val 7)).

Definition BlockValue_decode (bytes : list Z) : res ValueError BlockValue :=
  if (3 <? length bytes)%nat then Err UintOverflow
  else val ← decode_uint bytes; BlockValue_from_uint val.

(** ** Hop-Limit *)
Definition HopLimit : Type := Z.
Definition HopLimit_DEFAULT : HopLimit := 16.
Definition HopLimit_new (n : Z) : res ValueError HopLimit :=
  if n <? 1 then Err HopLimitError else Ok n.
Definition HopLimit_decode (bytes : list Z) : res ValueError HopLimit :=
  match bytes with
  | [n] => HopLimit_new n
  | _ => Err HopLimitError
  end.
Definition HopLimit_from_option (bytes : option (list Z)) : option HopLimit :=
  b ← bytes; res_ok (HopLimit_decode b).
Definition HopLimit_decrement (h : HopLimit) : option HopLimit :=
  match HopLimit_new (saturating_sub h 1) with
  | Ok next => Some next
  | _ => None
  end.
Definition HopLimit_encode {E} (h : HopLimit) : res E (list Z) := encode_uint h.

(** ** No-Response *)
Definition NoResponse : Type := Z.
Definition NoResponse_DEFAULT : NoResponse := 0.
Definition SUPPRESS_2 : Z := 2.
Definition SUPPRESS_4 : Z := 8.
Definition SUPPRESS_5 : Z := 16.
Definition SUPPRESS_ALL : Z := Z.lor (Z.lor SUPPRESS_2 SUPPRESS_4) SUPPRESS_5.
Definition NoResponse_decode (bytes : list Z) : res ValueError NoResponse :=
  match bytes with
  | [] => Ok NoResponse_DEFAULT
  | [b] => Ok b
  | _ => Err NoResponseLength
  end.
Definition NoResponse_from_option (bytes : option (list Z)) : option NoResponse :=
  b ← bytes; res_ok (NoResponse_decode b).
Definition NoResponse_suppresses (nr : NoResponse) (code : Code) : bool :=
  if negb (Code_is_response code) then false
  else
    let class := Code_class code in
    if (class =? 0) || (8 <? class) then false
    else
      let bit := shl 8 1 (class - 1) in
      negb (Z.land nr bit =? 0).
Definition NoResponse_encode {E} (nr : NoResponse) : res E (list Z) := encode_uint nr.

(** ** Echo *)
Record Echo : Type := mkEcho { echo_bytes : list Z; echo_len : Z }.

Definition Echo_MAX_LEN : nat := 40.
Definition Echo_TIME_PREFIX_LEN : nat := 8.

Definition Echo_new (bytes : list Z) : res ValueError Echo :=
  if (length bytes =? 0)%nat || (Echo_MAX_LEN <? length bytes)%nat then Err EchoLength
  else
    buf ← copy_into 0 (length bytes) bytes (replicate Echo_MAX_LEN 0);
    mret (mkEcho buf (wrap 8 (Z.of_nat (length bytes)))).

Definition Echo_from_option (bytes : option (list Z)) : option Echo :=
  b ← bytes; res_ok (Echo_new b).

Definition Echo_mint `{Target} (now_ms : Z) (pad : list Z) : res ValueError Echo :=
  let total := Z.to_nat (Z.min (Z.of_nat (Echo_TIME_PREFIX_LEN + length pad)) usize_max) in
  if (Echo_MAX_LEN <? total)%nat then Err EchoLength
  else
    buf ← copy_into 0 Echo_TIME_PREFIX_LEN (be_bytes 8 now_ms) (replicate Echo_MAX_LEN 0);
    buf ← copy_into Echo_TIME_PREFIX_LEN total pad buf;
    s ← slice_idx buf 0 total;
    Echo_new s.

Definition Echo_as_slice {E} (e : Echo) : res E (list Z) :=
  slice_idx (echo_bytes e) 0 (Z.to_nat (echo_len e)).

Definition Echo_issued_at {E} (e : Echo) : res E (option Z) :=
  if (Z.to_nat (echo_len e) <? Echo_TIME_PREFIX_LEN)%nat then Ok None
  else
    prefix ← slice_idx (echo_bytes e) 0 Echo_TIME_PREFIX_LEN;
    mret (Some (from_be prefix)).

Definition Echo_age_ms {E} (e : Echo) (now_ms : Z) : res E (option Z) :=
  t ← Echo_issued_at e;
  mret (t ← t; checked_sub now_ms t).

Definition Echo_is_time_fresh {E} (e : Echo) (now_ms fresh_ms : Z) : res E bool :=
  age ← Echo_age_ms e now_ms;
  mret (match age with Some age => age <? fresh_ms | None => false end).

(** ** Lemmas: unsigned integers *)
Lemma checked_mul_add (n b : Z) :
  0 ≤ n → 0 ≤ b →
  (m ← checked_mul 32 n 256; checked_add 32 m b) =
  if 256 * n + b <=? max_u 32 then Some (256 * n + b) else None.
Proof.
  intros Hn Hb. unfold checked_mul, checked_add, max_u.
  destruct (n * 256 <=? 2 ^ 32 - 1) eqn:E1; simpl; bools.
  - by rewrite (Z.mul_comm n).
  - by rewrite (proj2 (Z.leb_gt _ _)) by lia.
Qed.

(** [decode_uint] is the big-endian value, if it fits. *)
Lemma decode_uint_loop_spec (bytes : list Z) (n : Z) :
  bytes_ok bytes → in_u 32 n →
  decode_uint_loop bytes n =
  (let v := foldl (fun a b => 256 * a + b) n bytes in
   if v <=? max_u 32 then Ok v else Err UintOverflow).
Proof.
  revert n. induction bytes as [|b bytes IH]; intros n Hok Hn; cbn [decode_uint_loop foldl].
  { unfold in_u, max_u in *. by rewrite (proj2 (Z.leb_le _ _)) by lia. }
  apply bytes_ok_cons in Hok as [Hb Hok]. unfold in_u in Hn, Hb.
  rewrite checked_mul_add by lia. unfold max_u in *.
  destruct (256 * n + b <=? 2 ^ 32 - 1) eqn:E1; bools; unbind; cbn [ok_or].
  - rewrite IH; [done|done|]. unfold in_u. lia.
  - assert (∀ l m, bytes_ok l → 2 ^ 32 - 1 < m → 2 ^ 32 - 1 < foldl (fun a b => 256 * a + b) m l) as Hm.
    { induction l as [|c l IHl]; intros m Hl Hm; [done|].
      apply bytes_ok_cons in Hl as [[? ?] ?]. apply IHl; [done|]. lia. }
    by rewrite (proj2 (Z.leb_gt _ _)) by (apply Hm; [done|lia]).
Qed.

Lemma decode_uint_spec (bytes : list Z) :
  bytes_ok bytes →
  decode_uint bytes =
  if from_be bytes <=? max_u 32 then Ok (from_be bytes) else Err UintOverflow.
Proof. intros. by apply decode_uint_loop_spec. Qed.

(** What a uint encoding is: the value, big endian, no leading zero. *)
Definition uint_bytes (n : Z) (bs : list Z) : Prop :=
  from_be bs = n ∧ bytes_ok bs ∧ (length bs ≤ 4)%nat ∧ ∀ b, bs !! O = Some b → b ≠ 0.

Lemma encode_uint_4 {E} (n a b c d : Z) :
  be_bytes 4 n = [a; b; c; d] →
  encode_uint (E:=E) n =
  Ok (if negb (a =? 0) then [a; b; c; d] else if negb (b =? 0) then [b; c; d]
      else if negb (c =? 0) then [c; d] else if negb (d =? 0) then [d] else []).
Proof.
  intros Hb. unfold encode_uint, EncodedUint_new. rewrite Hb. unfold idx, set_idx.
  cbn [lookup list_lookup]. unbind.
  destruct (negb (a =? 0)); [done|]. destruct (negb (b =? 0)); [done|].
  destruct (negb (c =? 0)); [done|]. by destruct (negb (d =? 0)).
Qed.

Lemma encode_uint_spec (n : Z) :
  in_u 32 n → ∃ bs, (∀ E, encode_uint (E:=E) n = Ok bs) ∧ uint_bytes n bs.
Proof.
  intros Hn. pose proof (length_be_bytes 4 n) as Hl. pose proof (be_bytes_ok 4 n) as Hok.
  pose proof (from_be_bytes 4 n) as Hf. rewrite Z.mod_small in Hf by exact Hn.
  destruct (be_bytes 4 n) as [|a [|b [|c [|d [|]]]]] eqn:Hb; try done.
  eexists. split; [intros E; by apply encode_uint_4|].
  rewrite !bytes_ok_cons in Hok. destruct Hok as (Ha & Hb' & Hc & Hd & _).
  unfold uint_bytes. rewrite <- Hf. unfold from_be. cbn [foldl].
  destruct (Z.eqb_spec a 0) as [->|]; [destruct (Z.eqb_spec b 0) as [->|];
    [destruct (Z.eqb_spec c 0) as [->|]; [destruct (Z.eqb_spec d 0) as [->|]|]|]|];
    cbn [negb foldl length lookup list_lookup]; rewrite ?bytes_ok_cons;
    split_and!; try lia; try done; try constructor; by intros ? [= <-].
Qed.

(** An integer below [256 ^ k] takes at most [k] bytes. *)
Lemma uint_bytes_length (n : Z) (bs : list Z) (k : nat) :
  uint_bytes n bs → n < 256 ^ Z.of_nat k → (length bs ≤ k)%nat.
Proof.
  intros (Hf & Hok & Hl & Hz) Hn. destruct bs as [|b bs]; simpl; [lia|].
  specialize (Hz b eq_refl). apply bytes_ok_cons in Hok as [Hb Hok]. unfold in_u in Hb.
  assert (Hfold : ∀ l acc, bytes_ok l → 0 ≤ acc →
    acc * 256 ^ Z.of_nat (length l) ≤ foldl (fun a b => 256 * a + b) acc l).
  { induction l as [|x l IH]; intros acc Hl' Ha; cbn [foldl length]; [lia|].
    apply bytes_ok_cons in Hl' as [[? ?] ?]. etransitivity; [|apply IH; [done|lia]].
    rewrite Nat2Z.inj_succ, Z.pow_succ_r by lia. nia. }
  specialize (Hfold bs b Hok ltac:(lia)). unfold from_be in Hf. cbn [foldl] in Hf.
  destruct (decide (S (length bs) ≤ k)%nat) as [|Hk]; [done|].
  assert (256 ^ Z.of_nat k ≤ 256 ^ Z.of_nat (length bs)) by (apply Z.pow_le_mono_r; lia).
  rewrite Z.add_0_l in Hf. nia.
Qed.

Lemma decode_uint_bytes (n : Z) (bs : list Z) :
  in_u 32 n → uint_bytes n bs → decode_uint bs = Ok n.
Proof.
  intros Hn (Hf & Hok & _). rewrite decode_uint_spec, Hf by done. unfold in_u, max_u in *.
  by rewrite (proj2 (Z.leb_le _ _)) by lia.
Qed.

(** Uint option values.  Every [u32] is encoded, without a leading zero
    byte, and decoded back; the decoder computes the big-endian value of any
    byte string, leading zeroes included, and refuses exactly the values that
    do not fit in 32 bits. *)
Theorem uint_roundtrip (n : Z) (bytes : list Z) :
  in_u 32 n → bytes_ok bytes →
  (∃ bs, encode_uint (E:=ValueError) n = Ok bs ∧ uint_bytes n bs ∧ decode_uint bs = Ok n) ∧
  decode_uint bytes =
    (if from_be bytes <=? max_u 32 then Ok (from_be bytes) else Err UintOverflow).
Proof.
  intros Hn Hb. destruct (encode_uint_spec n Hn) as (bs & He & Hu). split.
  - exists bs. split; [apply He|]. split; [done|]. by apply decode_uint_bytes.
  - by apply decode_uint_spec.
Qed.

(** ** Observe *)
Lemma observe_mask (n : Z) : 0 ≤ n → Z.land n OBSERVE_SEQUENCE_MASK = n mod 2 ^ 24.
Proof. intros. by apply land_mask. Qed.

(** An encoded Observe number takes at most three bytes and decodes to the
    low 24 bits of the number; longer values are refused. *)
Theorem observe_roundtrip (n : Z) (bytes : list Z) :
  in_u 32 n →
  (∃ bs, encode_observe (E:=ValueError) n = Ok bs ∧ (length bs ≤ 3)%nat ∧
     decode_observe bs = Ok (n mod 2 ^ 24)) ∧
  ((3 < length bytes)%nat → decode_observe bytes = Err UintOverflow).
Proof.
  intros Hn. unfold in_u in Hn. split.
  - unfold encode_observe. rewrite observe_mask by lia.
    assert (Hm : 0 ≤ n mod 2 ^ 24 < 2 ^ 24) by (apply Z.mod_pos_bound; lia).
    assert (Hu : in_u 32 (n mod 2 ^ 24)) by (unfold in_u; lia).
    destruct (encode_uint_spec _ Hu) as (bs & He & Hb). exists bs. split; [apply He|].
    pose proof (uint_bytes_length _ bs 3 Hb ltac:(simpl; lia)) as Hl. split; [done|].
    unfold decode_observe. rewrite (proj2 (Nat.ltb_ge _ _)) by done. by apply decode_uint_bytes.
  - intros Hl. unfold decode_observe. by rewrite (proj2 (Nat.ltb_lt _ _)).
Qed.

(** ** Block values *)
Definition block_wf (b : BlockValue) : Prop :=
  0 ≤ bv_num b ≤ NUM_MAX ∧ 0 ≤ bv_szx b ≤ SZX_BERT.

Lemma as_uint_sum (b : BlockValue) :
  block_wf b → BlockValue_as_uint b = 16 * bv_num b + 8 * Z.b2z (bv_more b) + bv_szx b.
Proof.
  unfold block_wf, NUM_MAX, SZX_BERT. intros [Hn Hs]. unfold BlockValue_as_uint, shl.
  assert (Hb : 0 ≤ Z.b2z (bv_more b) ≤ 1) by (destruct (bv_more b); simpl; lia).
  rewrite !Z.shiftl_mul_pow2, !wrap_small by (unfold in_u; lia).
  replace (Z.lor (bv_num b * 2 ^ 4) (Z.b2z (bv_more b) * 2 ^ 3))
    with (Z.shiftl (2 * bv_num b + Z.b2z (bv_more b)) 3).
  - rewrite lor_shiftl_add by lia. lia.
  - rewrite <- (Z.shiftl_mul_pow2 (bv_num b)) by lia. rewrite lor_shiftl_add by lia.
    rewrite Z.shiftl_mul_pow2 by lia. lia.
Qed.

Lemma land_bit3 (v : Z) : negb (Z.land v 8 =? 0) = ((v / 8) mod 2 =? 1).
Proof.
  change 8 with (Z.land 15 8) at 1. rewrite Z.land_assoc, (land_mask v 4) by lia.
  change (2 ^ 4) with 16. replace ((v / 8) mod 2) with (v mod 16 / 8) by div_lia.
  assert (Hm : 0 ≤ v mod 16 < 16) by (apply Z.mod_pos_bound; lia).
  rewrite <- (Z2Nat.id (v mod 16)) by lia.
  assert (Z.to_nat (v mod 16) < 16)%nat as Hk by lia. revert Hk. clear Hm.
  generalize (Z.to_nat (v mod 16)). intros k Hk.
  do 16 (destruct k as [|k]; [done|]). lia.
Qed.

Lemma from_uint_fields (v : Z) :
  0 ≤ v < 2 ^ 24 →
  BlockValue_from_uint v = Ok (mkBlock (v / 16) ((v / 8) mod 2 =? 1) (v mod 8)).
Proof.
  intros Hv. unfold BlockValue_from_uint. rewrite (proj2 (Z.ltb_ge _ _)) by lia.
  rewrite land_bit3, shiftr_pow, (land_mask _ 3) by lia.
  change (2 ^ 4) with 16. change (2 ^ 3) with 8. unfold BlockValue_new, SZX_BERT, NUM_MAX.
  rewrite wrap_small by (unfold in_u; div_lia).
  by rewrite !(proj2 (Z.ltb_ge _ _)) by div_lia.
Qed.

(** Block and Q-Block values.  Every NUM, M and SZX that [BlockValue::new]
    accepts is encoded in at most three bytes and decoded back, and the decoder
    accepts exactly the values of at most three bytes. *)
Theorem block_roundtrip (num szx : Z) (more : bool) (b : BlockValue) (bytes : list Z) :
  in_u 32 num → in_u 8 szx → bytes_ok bytes →
  BlockValue_new num more szx = Ok b →
  (∃ bs, BlockValue_encode (E:=ValueError) b = Ok bs ∧ (length bs ≤ 3)%nat ∧
     BlockValue_decode bs = Ok b) ∧
  (is_Some (res_ok (BlockValue_decode bytes)) ↔ (length bytes ≤ 3)%nat).
Proof.
  unfold BlockValue_new. intros Hn Hs Hok Hnew. unfold in_u in Hn, Hs.
  destruct (SZX_BERT <? szx) eqn:E1; [done|]. destruct (NUM_MAX <? num) eqn:E2; [done|].
  injection Hnew as <-. bools.
  assert (Hwf : block_wf (mkBlock num more szx)) by (split; simpl; lia).
  unfold SZX_BERT, NUM_MAX in *. split.
  - pose proof (as_uint_sum _ Hwf) as Hu. simpl in Hu.
    assert (Hb : 0 ≤ Z.b2z more ≤ 1) by (destruct more; simpl; lia).
    set (v := 16 * num + 8 * Z.b2z more + szx) in *.
    assert (Hv : 0 ≤ v < 2 ^ 24) by lia.
    destruct (encode_uint_spec v) as (bs & He & Hbs); [unfold in_u; lia|].
    exists bs. unfold BlockValue_encode. rewrite Hu. split; [apply He|].
    pose proof (uint_bytes_length _ _ 3 Hbs ltac:(simpl; lia)) as Hl. split; [done|].
    unfold BlockValue_decode. rewrite (proj2 (Nat.ltb_ge _ _)) by done.
    rewrite (decode_uint_bytes v) by (done || unfold in_u; lia). unbind.
    rewrite from_uint_fields by done. do 2 f_equal; [|destruct more|]; unfold v; simpl Z.b2z; div_lia.
  - unfold BlockValue_decode. destruct (3 <? length bytes)%nat eqn:E3; bools.
    + split; [by intros []|lia].
    + split; [done|]. intros _. rewrite decode_uint_spec by done.
      pose proof (from_be_bound bytes Hok) as Hf.
      assert (2 ^ (8 * Z.of_nat (length bytes)) ≤ 2 ^ 24) by (apply Z.pow_le_mono_r; lia).
      unfold max_u. rewrite (proj2 (Z.leb_le _ _)) by lia. unbind.
      by rewrite from_uint_fields by lia.
Qed.

(** Block sizes.  A legal SZX below BERT is a power of two from 16 to 1024,
    BERT counts as 1024, and sizes and exponents convert back and forth. *)
Theorem block_size_spec (b : BlockValue) :
  block_wf b →
  BlockValue_size b = 2 ^ (4 + Z.min (bv_szx b) 6) ∧ 16 ≤ BlockValue_size b ≤ 1024 ∧
  size_from_szx (bv_szx b) = Ok (BlockValue_size b) ∧
  (BlockValue_is_bert b = false → szx_from_size (BlockValue_size b) = Ok (bv_szx b)).
Proof.
  destruct b as [num more szx]. unfold block_wf. cbn [bv_num bv_szx]. intros [_ Hs].
  unfold SZX_BERT in Hs.
  rewrite <- (Z2Nat.id szx) by lia. assert (Z.to_nat szx < 8)%nat as Hk by lia. revert Hk.
  generalize (Z.to_nat szx). intros k Hk. do 8 (destruct k as [|k]; [by vm_compute|]). lia.
Qed.

(** ** Hop-Limit *)

(** Hop-Limit.  Exactly one non-zero byte is accepted, a legal value is
    encoded to one byte that decodes to it, and each decrement lowers it by one
    until it reports exhaustion at one, so a datagram is forwarded at most
    255 times. *)
Theorem hop_limit_spec (h : Z) (bytes : list Z) :
  1 ≤ h ≤ 255 → bytes_ok bytes →
  (∃ bs, HopLimit_encode (E:=ValueError) h = Ok bs ∧ length bs = 1%nat ∧ HopLimit_decode bs = Ok h) ∧
  HopLimit_decrement h = (if h =? 1 then None else Some (h - 1)) ∧
  (∀ x, HopLimit_decode bytes = Ok x ↔ bytes = [x] ∧ 1 ≤ x).
Proof.
  intros Hh Hok. split; [|split].
  - destruct (encode_uint_spec h) as (bs & He & Hb); [unfold in_u; lia|]. exists bs.
    split; [apply He|]. pose proof (uint_bytes_length _ _ 1 Hb ltac:(simpl; lia)) as Hl.
    destruct Hb as (Hf & _). destruct bs as [|x [|]]; [unfold from_be in Hf; simpl in Hf; lia| |simpl in Hl; lia].
    split; [done|]. unfold from_be in Hf. cbn [foldl] in Hf. replace x with h by lia.
    unfold HopLimit_decode, HopLimit_new. by rewrite (proj2 (Z.ltb_ge _ _)) by lia.
  - unfold HopLimit_decrement, HopLimit_new, saturating_sub.
    destruct (Z.eqb_spec h 1) as [->|]; [done|]. rewrite Z.max_l by lia.
    by rewrite (proj2 (Z.ltb_ge _ _)) by lia.
  - intros x. unfold HopLimit_decode, HopLimit_new. destruct bytes as [|y [|]].
    + split; [done|by intros [? _]].
    + destruct (y <? 1) eqn:E; bools.
      * split; [done|]. intros [[= ->] ?]. lia.
      * split; [by intros [= ->]|by intros [[= ->] _]].
    + split; [done|by intros [? _]].
Qed.

(** ** No-Response *)
Lemma land_pow2_bit (n k : Z) : 0 ≤ k → negb (Z.land n (2 ^ k) =? 0) = Z.testbit n k.
Proof.
  intros Hk. destruct (Z.testbit n k) eqn:Ht.
  - apply negb_true_iff, Z.eqb_neq. intros H. apply (f_equal (fun x => Z.testbit x k)) in H.
    rewrite Z.land_spec, Z.pow2_bits_true, Z.bits_0, Ht in H by lia. done.
  - apply negb_false_iff, Z.eqb_eq, Z.bits_inj'. intros i Hi.
    rewrite Z.land_spec, Z.bits_0, Z.pow2_bits_eqb by lia.
    destruct (Z.eqb_spec k i) as [<-|]; [by rewrite Ht|apply andb_false_r].
Qed.

(** No-Response suppresses a code exactly when it is a response of a class
    whose bit is set; the bitmap survives encoding and decoding. *)
Theorem no_response_spec (nr : Z) (code : Code) :
  in_u 8 nr → in_u 8 code →
  NoResponse_suppresses nr code =
    (Code_is_response code && Z.testbit nr (Code_class code - 1)) ∧
  ∃ bs, NoResponse_encode (E:=ValueError) nr = Ok bs ∧ NoResponse_decode bs = Ok nr.
Proof.
  intros Hn Hc. split.
  - unfold NoResponse_suppresses. destruct (Code_is_response code) eqn:Hr; [|done]. cbn [negb andb].
    unfold Code_is_response in Hr.
    assert (2 ≤ Code_class code ≤ 5) as Hcl by (rewrite !orb_true_iff, !Z.eqb_eq in Hr; lia).
    rewrite (proj2 (Z.eqb_neq _ _)), (proj2 (Z.ltb_ge _ _)) by lia. cbn [orb].
    rewrite <- land_pow2_bit by lia. do 3 f_equal. unfold shl.
    rewrite Z.shiftl_mul_pow2, Z.mul_1_l by lia. apply wrap_small. split; [lia|].
    apply Z.pow_lt_mono_r; lia.
  - destruct (encode_uint_spec nr) as (bs & He & Hb); [unfold in_u in *; lia|].
    exists bs. split; [apply He|].
    pose proof (uint_bytes_length _ _ 1 Hb ltac:(unfold in_u in *; simpl; lia)) as Hl.
    destruct Hb as (Hf & _). unfold from_be in Hf.
    destruct bs as [|x [|]]; cbn [foldl] in Hf; [|by rewrite <- Hf|simpl in Hl; lia].
    by rewrite <- Hf.
Qed.

(** ** Echo *)
Lemma Echo_new_ok (bytes : list Z) :
  (1 ≤ length bytes ≤ 40)%nat →
  ∃ e, Echo_new bytes = Ok e ∧ (∀ E, Echo_as_slice (E:=E) e = Ok bytes) ∧
    echo_len e = Z.of_nat (length bytes) ∧ echo_bytes e = splice (replicate 40 0) 0 bytes.
Proof.
  intros Hl. unfold Echo_new, Echo_MAX_LEN.
  rewrite (proj2 (Nat.eqb_neq _ _)), (proj2 (Nat.ltb_ge _ _)) by lia. cbn [orb].
  rewrite copy_into_ok by (rewrite ?length_replicate; lia). unbind. eexists. split; [done|].
  rewrite wrap_small by (unfold in_u; lia). split; [|done].
  intros E. unfold Echo_as_slice. cbn [echo_bytes echo_len]. rewrite Nat2Z.id.
  rewrite slice_idx_prefix by (rewrite length_splice; rewrite length_replicate; lia).
  by rewrite take_splice_0.
Qed.

(** Echo.  [new] accepts exactly 1 to 40 bytes and keeps them; a minted
    value carries its time, and is fresh exactly while its age, which is never
    negative, is below the limit. *)
Theorem echo_spec `{Target} (bytes pad : list Z) (t0 now fresh : Z) :
  in_u 64 t0 → (length pad ≤ 32)%nat →
  match Echo_new bytes with
  | Ok e => (1 ≤ length bytes ≤ 40)%nat ∧ Echo_as_slice (E:=ValueError) e = Ok bytes
  | Err err => ¬ (1 ≤ length bytes ≤ 40)%nat ∧ err = EchoLength
  | Panic | Diverge => False
  end ∧
  ∃ e, Echo_mint t0 pad = Ok e ∧ Echo_as_slice (E:=ValueError) e = Ok (be_bytes 8 t0 ++ pad) ∧
    Echo_issued_at (E:=ValueError) e = Ok (Some t0) ∧
    Echo_is_time_fresh (E:=ValueError) e now fresh = Ok ((t0 <=? now) && (now - t0 <? fresh)).
Proof.
  intros Ht Hp. split.
  { destruct (decide (1 ≤ length bytes ≤ 40)%nat) as [Hl|Hl].
    - destruct (Echo_new_ok bytes Hl) as (e & -> & Hs & _). split; [done|apply Hs].
    - unfold Echo_new, Echo_MAX_LEN. destruct (_ || _) eqn:E; [done|]. bools. lia. }
  pose proof usize_max_ge. pose proof (length_be_bytes 8 t0) as Hb8.
  unfold Echo_mint, Echo_TIME_PREFIX_LEN, Echo_MAX_LEN.
  rewrite Z.min_l, Nat2Z.id by lia. rewrite (proj2 (Nat.ltb_ge _ _)) by lia.
  rewrite copy_into_ok by (rewrite ?length_replicate, ?Hb8; lia). unbind.
  rewrite copy_into_ok by (rewrite ?length_splice; rewrite ?length_replicate, ?Hb8; lia).
  rewrite splice_splice by (rewrite ?length_replicate, ?Hb8; lia).
  assert (Hl : length (be_bytes 8 t0 ++ pad) = (8 + length pad)%nat) by (rewrite length_app, Hb8; done).
  rewrite slice_idx_prefix by (rewrite length_splice; rewrite ?length_replicate, ?Hl; lia).
  rewrite <- Hl, take_splice_0.
  destruct (Echo_new_ok (be_bytes 8 t0 ++ pad)) as (e & He & Hs & Hlen & Hbuf); [lia|].
  exists e. split; [done|]. split; [apply Hs|].
  assert (Hat : ∀ E, Echo_issued_at (E:=E) e = Ok (Some t0)).
  { intros E. unfold Echo_issued_at, Echo_TIME_PREFIX_LEN. rewrite Hlen, Nat2Z.id, Hbuf.
    rewrite (proj2 (Nat.ltb_ge _ _)) by lia.
    rewrite slice_idx_prefix by (rewrite length_splice; rewrite ?length_replicate, ?Hl; lia).
    unbind. rewrite splice_0, <- app_assoc, take_app_length' by done.
    rewrite from_be_bytes. by rewrite Z.mod_small by exact Ht. }
  split; [apply Hat|]. unfold Echo_is_time_fresh, Echo_age_ms. rewrite Hat. unbind.
  unfold checked_sub. simpl. by destruct (t0 <=? now).
Qed.

(** ** Witnesses *)
Lemma bytes_ok_ex : bytes_ok [1; 44].
Proof. repeat constructor; by vm_compute. Defined.

Lemma uint_roundtrip_witness :
  (∃ bs, encode_uint (E:=ValueError) 70000 = Ok bs ∧ uint_bytes 70000 bs ∧ decode_uint bs = Ok 70000) ∧
  decode_uint [1; 44] = Ok 300.
Proof. apply (uint_roundtrip 70000 [1; 44]); [by vm_compute|apply bytes_ok_ex]. Defined.

Lemma observe_roundtrip_witness :
  (∃ bs, encode_observe (E:=ValueError) 16777218 = Ok bs ∧ (length bs ≤ 3)%nat ∧
     decode_observe bs = Ok 2) ∧ decode_observe [0; 0; 0; 1] = Err UintOverflow.
Proof.
  destruct (observe_roundtrip 16777218 [0; 0; 0; 1]) as [H1 H2]; [by vm_compute|].
  split; [exact H1|]. apply H2. simpl. lia.
Defined.

Lemma block_roundtrip_witness :
  (∃ bs, BlockValue_encode (E:=ValueError) (mkBlock 1000 true 6) = Ok bs ∧ (length bs ≤ 3)%nat ∧
     BlockValue_decode bs = Ok (mkBlock 1000 true 6)) ∧
  (is_Some (res_ok (BlockValue_decode [1; 44])) ↔ (length [1; 44] ≤ 3)%nat).
Proof.
  apply (block_roundtrip 1000 6 true); [by vm_compute|by vm_compute|apply bytes_ok_ex|done].
Defined.

Lemma block_size_spec_witness : size_from_szx 2 = Ok (BlockValue_size (mkBlock 5 false 2)).
Proof. apply (block_size_spec (mkBlock 5 false 2)). by vm_compute. Defined.

Lemma hop_limit_spec_witness :
  HopLimit_decrement 16 = Some 15 ∧ (∀ x, HopLimit_decode [1; 44] = Ok x ↔ [1; 44] = [x] ∧ 1 ≤ x).
Proof.
  destruct (hop_limit_spec 16 [1; 44]) as (_ & Hd & Hb); [lia|apply bytes_ok_ex|]. split; [exact Hd|exact Hb].
Defined.

Lemma no_response_spec_witness :
  NoResponse_suppresses SUPPRESS_ALL Code_CONTENT = true ∧
  ∃ bs, NoResponse_encode (E:=ValueError) SUPPRESS_ALL = Ok bs ∧ NoResponse_decode bs = Ok SUPPRESS_ALL.
Proof. apply (no_response_spec SUPPRESS_ALL Code_CONTENT); by vm_compute. Defined.

Lemma echo_spec_witness :
  ∃ e, @Echo_mint target64 1000 [7; 7] = Ok e ∧
    Echo_is_time_fresh (E:=ValueError) e 1500 600 = Ok true.
Proof.
  destruct (proj2 (@echo_spec target64 [] [7; 7] 1000 1500 600 ltac:(by vm_compute) ltac:(simpl; lia)))
    as (e & He & _ & _ & Hf).
  exists e. split; [exact He|exact Hf].
Defined.
