(* ===== verification/MessageOptions.v ===== *)
(** * Options of a message, by number and by meaning

    The option constructors, Table 4 format checks, the [OptionsByNumber]
    iterators and the [ParsedMessage] accessors of [src/message/value.rs], the
    classification of [src/message/precondition.rs], and the [from_message]
    readers of [hop.rs], [echo.rs] and [no_response.rs].

    [OptionsByNumber] stops at the first larger number; because option numbers
    never decrease on the wire, that finds every option with the number.  The
    accessors are proved against the list of options of the message. *)
From S2P Require Import Prelude Errors MsgTypes Options Encode Decode OptionValues.

(** ** UTF-8, [core::str::from_utf8] *)
Definition in_range (lo hi b : Z) : bool := (lo <=? b) && (b <=? hi).
Definition utf8_cont (b : Z) : bool := in_range 128 191 b.

Fixpoint utf8_valid (bs : list Z) : bool :=
  match bs with
  | [] => true
  | b :: r0 =>
      if b <=? 127 then utf8_valid r0
      else
        match r0 with
        | c1 :: r1 =>
            if in_range 194 223 b then utf8_cont c1 && utf8_valid r1
            else
              match r1 with
              | c2 :: r2 =>
                  if in_range 224 239 b then
                    in_range (if b =? 224 then 160 else 128) (if b =? 237 then 159 else 191) c1
                    && utf8_cont c2 && utf8_valid r2
                  else
                    match r2 with
                    | c3 :: r3 =>
                        in_range 240 244 b
                        && in_range (if b =? 240 then 144 else 128) (if b =? 244 then 143 else 191) c1
                        && utf8_cont c2 && utf8_cont c3 && utf8_valid r3
                    | [] => false
                    end
              | [] => false
              end
        | [] => false
        end
  end.

Definition as_str (bytes : list Z) : res ValueError (list Z) :=
  if utf8_valid bytes then Ok bytes else Err InvalidUtf8.

(** ** Constructors *)
Definition Opt_empty (number : OptionNumber) : Opt := mkOpt number [].
Definition Opt_opaque (number : OptionNumber) (value : list Z) : Opt := mkOpt number value.
Definition Opt_string (number : OptionNumber) (value : list Z) : Opt := mkOpt number value.
Definition Opt_uint {E} (number : OptionNumber) (encoded : EncodedUint) : res E Opt :=
  bytes ← EncodedUint_as_bytes encoded; mret (mkOpt number bytes).

Definition Opt_if_match (etag : list Z) : Opt := Opt_opaque ON_IF_MATCH etag.
Definition Opt_uri_host (host : list Z) : Opt := Opt_string ON_URI_HOST host.
Definition Opt_etag (tag : list Z) : Opt := Opt_opaque ON_ETAG tag.
Definition Opt_request_tag (tag : list Z) : Opt := Opt_opaque ON_REQUEST_TAG tag.
Definition Opt_echo (value : list Z) : Opt := Opt_opaque ON_ECHO value.
Definition Opt_if_none_match : Opt := Opt_empty ON_IF_NONE_MATCH.
Definition Opt_uri_port {E} (e : EncodedUint) : res E Opt := Opt_uint ON_URI_PORT e.
Definition Opt_location_path (segment : list Z) : Opt := Opt_string ON_LOCATION_PATH segment.
Definition Opt_oscore (value : list Z) : Opt := Opt_opaque ON_OSCORE value.
Definition Opt_uri_path (segment : list Z) : Opt := Opt_string ON_URI_PATH segment.
Definition Opt_content_format {E} (e : EncodedUint) : res E Opt := Opt_uint ON_CONTENT_FORMAT e.
Definition Opt_max_age {E} (e : EncodedUint) : res E Opt := Opt_uint ON_MAX_AGE e.
Definition Opt_uri_query (query : list Z) : Opt := Opt_string ON_URI_QUERY query.
Definition Opt_accept {E} (e : EncodedUint) : res E Opt := Opt_uint ON_ACCEPT e.
Definition Opt_location_query (query : list Z) : Opt := Opt_string ON_LOCATION_QUERY query.
Definition Opt_proxy_uri (uri : list Z) : Opt := Opt_string ON_PROXY_URI uri.
Definition Opt_proxy_scheme (scheme : list Z) : Opt := Opt_string ON_PROXY_SCHEME scheme.
Definition Opt_size1 {E} (e : EncodedUint) : res E Opt := Opt_uint ON_SIZE1 e.
Definition Opt_hop_limit {E} (e : EncodedUint) : res E Opt := Opt_uint ON_HOP_LIMIT e.
Definition Opt_no_response {E} (e : EncodedUint) : res E Opt := Opt_uint ON_NO_RESPONSE e.
Definition Opt_size2 {E} (e : EncodedUint) : res E Opt := Opt_uint ON_SIZE2 e.
Definition Opt_block1 {E} (e : EncodedUint) : res E Opt := Opt_uint ON_BLOCK1 e.
Definition Opt_block2 {E} (e : EncodedUint) : res E Opt := Opt_uint ON_BLOCK2 e.
Definition Opt_q_block1 {E} (e : EncodedUint) : res E Opt := Opt_uint ON_Q_BLOCK1 e.
Definition Opt_q_block2 {E} (e : EncodedUint) : res E Opt := Opt_uint ON_Q_BLOCK2 e.
Definition Opt_observe {E} (e : EncodedUint) : res E Opt := Opt_uint ON_OBSERVE e.
Definition Opt_observe_register : Opt := Opt_empty ON_OBSERVE.
Definition Opt_observe_deregister : Opt := mkOpt ON_OBSERVE [1].

Definition Opt_as_str (o : Opt) : res ValueError (list Z) := as_str (opt_value o).
Definition Opt_as_uint (o : Opt) : res ValueError Z := decode_uint (opt_value o).
Definition Opt_as_uint16 (o : Opt) : res ValueError Z := decode_uint16 (opt_value o).
Definition Opt_as_block (o : Opt) : res ValueError BlockValue := BlockValue_decode (opt_value o).

(** ** RFC 7252 Table 4 formats *)
Inductive OptionValueFormat : Type := FEmpty | FOpaque | FUint | FString.

Definition table4_spec (number : OptionNumber) : option (OptionValueFormat * nat * nat) :=
  match number with
  | 1 => Some (FOpaque, 0%nat, 8%nat)
  | 3 => Some (FString, 1%nat, 255%nat)
  | 4 => Some (FOpaque, 1%nat, 8%nat)
  | 5 => Some (FEmpty, 0%nat, 0%nat)
  | 7 => Some (FUint, 0%nat, 2%nat)
  | 8 => Some (FString, 0%nat, 255%nat)
  | 11 => Some (FString, 0%nat, 255%nat)
  | 12 => Some (FUint, 0%nat, 2%nat)
  | 14 => Some (FUint, 0%nat, 4%nat)
  | 15 => Some (FString, 0%nat, 255%nat)
  | 17 => Some (FUint, 0%nat, 2%nat)
  | 20 => Some (FString, 0%nat, 255%nat)
  | 35 => Some (FString, 1%nat, 1034%nat)
  | 39 => Some (FString, 1%nat, 255%nat)
  | 60 => Some (FUint, 0%nat, 4%nat)
  | _ => None
  end.

Definition option_value_format (number : OptionNumber) : option OptionValueFormat :=
  match table4_spec number with
  | Some (kind, _, _) => Some kind
  | None => None
  end.

Definition check_format (opt : Opt) : res ParseError unit :=
  match table4_spec (opt_number opt) with
  | None => Ok tt
  | Some (kind, min, max) =>
      let len := length (opt_value opt) in
      let in_range := (min <=? len)%nat && (len <=? max)%nat in
      let ok := match kind with
                | FEmpty => (len =? 0)%nat
                | FOpaque | FUint => in_range
                | FString => in_range &&
                    match as_str (opt_value opt) with Ok _ => true | _ => false end
                end in
      if ok then Ok tt else Err (BadOptionFormat (opt_number opt))
  end.

(** ** Options with a given number *)
Record OptionsByNumber : Type := mkByNumber { obn_inner : Options; obn_number : OptionNumber }.

Section by_number.
  Context `{Target}.

(** [for option in self.inner.by_ref()]. *)
Fixpoint obn_loop {E} (fuel : nat) (inner : Options) (number : OptionNumber)
    : Options * res E (option Opt) :=
  match fuel with
  | O => (inner, Diverge)
  | S fuel =>
      match Options_next inner with
      | (inner, Ok (Some option)) =>
          if opt_number option =? number then (inner, Ok (Some option))
          else if number <? opt_number option then (Options_new [], Ok None)
          else obn_loop fuel inner number
      | (inner, r) => (inner, r)
      end
  end.

(** Every [next] of the inner iterator consumes a byte or ends it. *)
Definition OptionsByNumber_next {E} (o : OptionsByNumber) : OptionsByNumber * res E (option Opt) :=
  let '(inner, r) := obn_loop (S (length (os_bytes (obn_inner o)))) (obn_inner o) (obn_number o) in
  (mkByNumber inner (obn_number o), r).

Fixpoint obn_collect {E} (fuel : nat) (o : OptionsByNumber) : res E (list Opt) :=
  match fuel with
  | O => Diverge
  | S fuel =>
      let '(o, r) := OptionsByNumber_next o in
      next ← r;
      match next with
      | None => mret []
      | Some opt => rest ← obn_collect fuel o; mret (opt :: rest)
      end
  end.

(** ** Accessors of a parsed message *)
Section accessors.
  Context {T E : Type}.

Definition get_options (m : ParsedMessage T) (number : OptionNumber) : OptionsByNumber :=
  mkByNumber (Options_new (pm_options _ m)) number.

(** All options with [number], as a [for] loop over [get_options] sees them. *)
Definition get_options_list (m : ParsedMessage T) (number : OptionNumber) : res E (list Opt) :=
  obn_collect (S (length (pm_options _ m))) (get_options m number).

Definition get_option (m : ParsedMessage T) (number : OptionNumber) : res E (option Opt) :=
  (OptionsByNumber_next (get_options m number)).2.

Definition pm_uri_host (m : ParsedMessage T) : res E (option (res ValueError (list Z))) :=
  o ← get_option m ON_URI_HOST; mret (option_map Opt_as_str o).
Definition pm_uri_port (m : ParsedMessage T) : res E (option (res ValueError Z)) :=
  o ← get_option m ON_URI_PORT; mret (option_map Opt_as_uint16 o).
Definition pm_uri_path (m : ParsedMessage T) : res E (list (res ValueError (list Z))) :=
  os ← get_options_list m ON_URI_PATH; mret (map Opt_as_str os).
Definition pm_uri_query (m : ParsedMessage T) : res E (list (res ValueError (list Z))) :=
  os ← get_options_list m ON_URI_QUERY; mret (map Opt_as_str os).
Definition pm_location_path (m : ParsedMessage T) : res E (list (res ValueError (list Z))) :=
  os ← get_options_list m ON_LOCATION_PATH; mret (map Opt_as_str os).
Definition pm_oscore (m : ParsedMessage T) : res E (option (list Z)) :=
  o ← get_option m ON_OSCORE; mret (option_map opt_value o).
Definition pm_location_query (m : ParsedMessage T) : res E (list (res ValueError (list Z))) :=
  os ← get_options_list m ON_LOCATION_QUERY; mret (map Opt_as_str os).
Definition pm_proxy_uri (m : ParsedMessage T) : res E (option (res ValueError (list Z))) :=
  o ← get_option m ON_PROXY_URI; mret (option_map Opt_as_str o).
Definition pm_proxy_scheme (m : ParsedMessage T) : res E (option (res ValueError (list Z))) :=
  o ← get_option m ON_PROXY_SCHEME; mret (option_map Opt_as_str o).
Definition pm_content_format (m : ParsedMessage T) : res E (option (res ValueError Z)) :=
  o ← get_option m ON_CONTENT_FORMAT; mret (option_map Opt_as_uint16 o).
Definition pm_accept (m : ParsedMessage T) : res E (option (res ValueError Z)) :=
  o ← get_option m ON_ACCEPT; mret (option_map Opt_as_uint16 o).
Definition pm_max_age (m : ParsedMessage T) : res E (option (res ValueError Z)) :=
  o ← get_option m ON_MAX_AGE; mret (option_map Opt_as_uint o).
Definition pm_size1 (m : ParsedMessage T) : res E (option (res ValueError Z)) :=
  o ← get_option m ON_SIZE1; mret (option_map Opt_as_uint o).
Definition pm_size2 (m : ParsedMessage T) : res E (option (res ValueError Z)) :=
  o ← get_option m ON_SIZE2; mret (option_map Opt_as_uint o).
Definition pm_block1 (m : ParsedMessage T) : res E (option (res ValueError BlockValue)) :=
  o ← get_option m ON_BLOCK1; mret (option_map Opt_as_block o).
Definition pm_block2 (m : ParsedMessage T) : res E (option (res ValueError BlockValue)) :=
  o ← get_option m ON_BLOCK2; mret (option_map Opt_as_block o).
Definition pm_q_block1 (m : ParsedMessage T) : res E (option (res ValueError BlockValue)) :=
  o ← get_option m ON_Q_BLOCK1; mret (option_map Opt_as_block o).
Definition pm_q_block2 (m : ParsedMessage T) : res E (list (res ValueError BlockValue)) :=
  os ← get_options_list m ON_Q_BLOCK2; mret (map Opt_as_block os).
Definition pm_observe (m : ParsedMessage T) : res E (option (res ValueError Z)) :=
  o ← get_option m ON_OBSERVE; mret (option_map (fun opt => decode_observe (opt_value opt)) o).

Definition is_observe_method (code : Code) : bool := (code =? Code_GET) || (code =? Code_FETCH).

Definition is_observe_register (m : ParsedMessage T) : res E bool :=
  if is_observe_method (pm_code m) then
    o ← pm_observe m;
    mret (match o with Some (Ok v) => v =? OBSERVE_REGISTER | _ => false end)
  else Ok false.

Definition is_observe_deregister (m : ParsedMessage T) : res E bool :=
  if is_observe_method (pm_code m) then
    o ← pm_observe m;
    mret (match o with Some (Ok v) => v =? OBSERVE_DEREGISTER | _ => false end)
  else Ok false.

Definition is_some {A} (o : option A) : bool := match o with Some _ => true | None => false end.

Definition pm_if_none_match (m : ParsedMessage T) : res E bool :=
  o ← get_option m ON_IF_NONE_MATCH; mret (is_some o).
Definition pm_if_match (m : ParsedMessage T) : res E (list (list Z)) :=
  os ← get_options_list m ON_IF_MATCH; mret (map opt_value os).
Definition pm_etag (m : ParsedMessage T) : res E (list (list Z)) :=
  os ← get_options_list m ON_ETAG; mret (map opt_value os).
Definition pm_request_tag (m : ParsedMessage T) : res E (list (list Z)) :=
  os ← get_options_list m ON_REQUEST_TAG; mret (map opt_value os).
Definition pm_echo (m : ParsedMessage T) : res E (option (list Z)) :=
  o ← get_option m ON_ECHO; mret (option_map opt_value o).
Definition pm_hop_limit (m : ParsedMessage T) : res E (option (res ValueError HopLimit)) :=
  o ← get_option m ON_HOP_LIMIT; mret (option_map (fun opt => HopLimit_decode (opt_value opt)) o).
Definition pm_no_response (m : ParsedMessage T) : res E (option (res ValueError NoResponse)) :=
  o ← get_option m ON_NO_RESPONSE; mret (option_map (fun opt => NoResponse_decode (opt_value opt)) o).

Definition bad_option_format (m : ParsedMessage T) : res E (option OptionNumber) :=
  os ← pm_opts m;
  mret (find_map (fun opt =>
    match check_format opt with Ok _ => None | _ => Some (opt_number opt) end) os).

(** ** Preconditions *)
Inductive Precondition : Type := Unconditional | Satisfied | FailedIfMatch | FailedIfNoneMatch.

Definition Precondition_holds (p : Precondition) : bool :=
  match p with Unconditional | Satisfied => true | _ => false end.

(** The [for v in self.if_match()] loop with the flag [saw]. *)
Fixpoint if_match_loop (vs : list (list Z)) (saw : bool) (exist : bool) (etag : option (list Z))
    : bool :=
  match vs with
  | [] => negb saw
  | v :: vs =>
      if is_nil v then
        if exist then true else if_match_loop vs true exist etag
      else if exist && eqb etag (Some v) then true
      else if_match_loop vs true exist etag
  end.

Definition if_match_holds (m : ParsedMessage T) (exist : bool) (etag : option (list Z)) : res E bool :=
  vs ← pm_if_match m; mret (if_match_loop vs false exist etag).

Definition precondition (m : ParsedMessage T) (exist : bool) (etag : option (list Z))
    : res E Precondition :=
  inm ← pm_if_none_match m;
  if inm && exist then Ok FailedIfNoneMatch
  else
    holds ← if_match_holds m exist etag;
    if negb holds then Ok FailedIfMatch
    else
      im ← get_option m ON_IF_MATCH;
      if inm || is_some im then Ok Satisfied else Ok Unconditional.

End accessors.

Definition check_rfc7252_formats {T} (m : ParsedMessage T) : res ParseError unit :=
  o ← bad_option_format m;
  match o with
  | Some n => Err (BadOptionFormat n)
  | None => Ok tt
  end.

(** ** [from_message] readers *)
Definition HopLimit_from_message {T} (m : ParsedMessage T) : res ValueError (option HopLimit) :=
  o ← pm_hop_limit m;
  match o with
  | None => Ok None
  | Some r => h ← r; mret (Some h)
  end.

Definition NoResponse_from_message {T} (m : ParsedMessage T) : res ValueError NoResponse :=
  o ← pm_no_response m;
  match o with
  | None => Ok NoResponse_DEFAULT
  | Some r => r
  end.

Definition Echo_from_message {T} (m : ParsedMessage T) : res ValueError (option Echo) :=
  o ← pm_echo m;
  match o with
  | None => Ok None
  | Some bytes => e ← Echo_new bytes; mret (Some e)
  end.

Inductive EchoFreshness : Type := Missing | Invalid | Stale | Fresh.

Definition EchoFreshness_needs_challenge (f : EchoFreshness) : bool :=
  match f with Fresh => false | _ => true end.

Definition EchoFreshness_of {T E} (m : ParsedMessage T) (now_ms fresh_ms : Z) : res E EchoFreshness :=
  match Echo_from_message m with
  | Ok None => Ok Missing
  | Err _ => Ok Invalid
  | Ok (Some echo) =>
      fresh ← Echo_is_time_fresh echo now_ms fresh_ms;
      mret (if fresh : bool then Fresh else Stale)
  | Panic => Panic
  | Diverge => Diverge
  end.

End by_number.

(** ** Lemmas: the early exit of [OptionsByNumber] *)
Section by_number_lemmas.
  Context `{Target}.

Definition os_ok (o : Options) : Prop := bytes_ok (os_bytes o) ∧ 0 ≤ os_prev o.

Lemma Options_next_inv {E} (o o' : Options) (x : Opt) :
  os_ok o → Options_next (E:=E) o = (o', Ok (Some x)) →
  os_ok o' ∧ os_prev o ≤ opt_number x ∧ os_prev o' = opt_number x ∧
  os_bytes o' = os_bytes o ∧ (os_i o < os_i o' ≤ length (os_bytes o))%nat.
Proof.
  intros [Hok Hp] Hn. unfold Options_next in Hn.
  destruct (_ <=? _)%nat; [done|].
  pose proof (read_option_returns (os_bytes o) (os_i o, os_prev o)) as [_ Hadv].
  destruct (read_option _ _) as [[i p] [y| | |]] eqn:Er; simplify_eq.
  apply read_option_inv in Er as (Hr & _ & _ & Hs & _); [|done..]. simplify_eq. simpl in *.
  unfold os_ok. simpl. specialize (Hadv ltac:(done)). split_and!; done || lia.
Qed.

Lemma collect_inv {E} (fuel : nat) (o : Options) (os : list Opt) :
  Options_collect (E:=E) fuel o = Ok os →
  match os with
  | [] => ∃ o', ∀ E', Options_next (E:=E') o = (o', Ok None)
  | x :: os' => ∃ o' fuel', (∀ E', Options_next (E:=E') o = (o', Ok (Some x))) ∧
      Options_collect (E:=E) fuel' o' = Ok os'
  end.
Proof.
  destruct fuel as [|fuel]; [done|]. rewrite Options_collect_S. unfold Options_next.
  destruct (_ <=? _)%nat; [intros [= <-]; by eexists|].
  destruct (read_option _ _) as [[i p] [y| | |]]; unbind; try done.
  - destruct (Options_collect fuel _) as [l| | |] eqn:Ec; try done. intros [= <-]. by eexists _, _.
  - intros [= <-]. by eexists.
Qed.

(** Collected option numbers never decrease, and each option took a byte. *)
Lemma collect_ascending {E} (fuel : nat) (os : list Opt) (o : Options) :
  os_ok o → Options_collect (E:=E) fuel o = Ok os →
  Forall (fun x => os_prev o ≤ opt_number x) os ∧ (os_i o + length os ≤ os_i o `max` length (os_bytes o))%nat.
Proof.
  revert fuel o. induction os as [|x os IH]; intros fuel o Ho Hc; [split; [constructor|simpl; lia]|].
  apply collect_inv in Hc as (o' & fuel' & Hn & Hc). specialize (Hn E).
  apply Options_next_inv in Hn as (Ho' & Hp & Hp' & Hb & Hi); [|done].
  apply IH in Hc as [Hf Hl]; [|done]. rewrite Hb in Hl. split; [|simpl; lia].
  constructor; [done|]. eapply Forall_impl; [done|]. simpl. lia.
Qed.

Lemma obn_loop_spec {E} (fuel fuel' : nat) (os : list Opt) (o : Options) (n : Z) :
  os_ok o → Options_collect (E:=E) fuel o = Ok os → (length os < fuel')%nat →
  match filter (fun x => opt_number x = n) os with
  | [] => ∃ o', obn_loop (E:=E) fuel' o n = (o', Ok None)
  | x :: rest => ∃ o' os' f, obn_loop (E:=E) fuel' o n = (o', Ok (Some x)) ∧ os_ok o' ∧
      os_bytes o' = os_bytes o ∧ (os_i o < os_i o')%nat ∧
      Options_collect (E:=E) f o' = Ok os' ∧ filter (fun x => opt_number x = n) os' = rest
  end.
Proof.
  revert fuel fuel' o. induction os as [|x os IH]; intros fuel fuel' o Ho Hc Hf;
    (destruct fuel' as [|fuel']; [simpl in Hf; lia|]); apply collect_inv in Hc.
  - destruct Hc as (o' & Hn). exists o'. simpl. by rewrite Hn.
  - destruct Hc as (o' & f & Hn & Hc). pose proof (Hn E) as Hi.
    apply Options_next_inv in Hi as (Ho' & Hp & Hp' & Hb & Hi); [|done].
    cbn [obn_loop]. rewrite Hn, filter_cons.
    destruct (decide (opt_number x = n)) as [->|Hne].
    + rewrite Z.eqb_refl. exists o', os, f. split_and!; done || lia.
    + rewrite (proj2 (Z.eqb_neq _ _)) by done.
      destruct (n <? opt_number x) eqn:El; bools.
      * pose proof (collect_ascending _ _ _ Ho' Hc) as [Ha _].
        assert (filter (fun x => opt_number x = n) os = []) as ->; [|by eexists].
        clear -Ha El Hp'. induction Ha as [|y l Hy Hl IHl]; [done|].
        rewrite filter_cons_False; [done|lia].
      * specialize (IH f fuel' o' Ho' Hc ltac:(simpl in Hf; lia)).
        destruct (filter _ os) as [|y rest]; [done|].
        destruct IH as (o2 & os2 & f2 & ? & ? & Hb2 & ? & ? & ?).
        exists o2, os2, f2. rewrite Hb2. split_and!; done || lia.
Qed.

Lemma obn_collect_spec {E} (k fuel fuel' : nat) (os : list Opt) (o : Options) (n : Z) :
  os_ok o → Options_collect (E:=E) fuel o = Ok os → (length (os_bytes o) ≤ os_i o + k)%nat →
  (k < fuel')%nat →
  obn_collect (E:=E) fuel' (mkByNumber o n) = Ok (filter (fun x => opt_number x = n) os).
Proof.
  revert fuel fuel' os o. induction k as [|k IH]; intros fuel fuel' os o Ho Hc Hk Hf;
    (destruct fuel' as [|fuel']; [lia|]); cbn [obn_collect]; unfold OptionsByNumber_next;
    cbn [obn_inner obn_number];
    pose proof (collect_ascending _ _ _ Ho Hc) as [_ Hl];
    pose proof (obn_loop_spec fuel (S (length (os_bytes o))) os o n Ho Hc ltac:(lia)) as Hloop;
    destruct (filter _ os) as [|x rest] eqn:Ef.
  - destruct Hloop as (o' & ->). done.
  - exfalso. destruct os; [done|simpl in Hl; lia].
  - destruct Hloop as (o' & ->). done.
  - destruct Hloop as (o' & os' & f & -> & Ho' & Hb & Hi & Hc' & <-). unbind.
    rewrite (IH f fuel' os' o'); [done|done|done|rewrite Hb; lia|lia].
Qed.

End by_number_lemmas.

(** ** Theorems on accessors *)
Section accessor_theorems.
  Context `{Target} {T : Type}.

Lemma get_options_list_spec {E} (m : ParsedMessage T) (os : list Opt) (n : Z) :
  bytes_ok (pm_options _ m) → pm_opts (E:=E) m = Ok os →
  get_options_list (E:=E) m n = Ok (filter (fun x => opt_number x = n) os).
Proof.
  intros Hb Ho. unfold get_options_list, get_options.
  eapply (obn_collect_spec (length (pm_options _ m))); [|exact Ho|simpl; lia|lia].
  split; simpl; [done|lia].
Qed.

Lemma get_option_spec {E} (m : ParsedMessage T) (os : list Opt) (n : Z) :
  bytes_ok (pm_options _ m) → pm_opts (E:=E) m = Ok os →
  get_option (E:=E) m n = Ok (head (filter (fun x => opt_number x = n) os)).
Proof.
  intros Hb Ho. unfold get_option, get_options, OptionsByNumber_next. cbn [obn_inner obn_number].
  assert (os_ok (Options_new (pm_options _ m))) as Hok by (split; simpl; [done|lia]).
  unfold pm_opts, Options_iter in Ho.
  pose proof (collect_ascending _ _ _ Hok Ho) as [_ Hl].
  pose proof (obn_loop_spec _ (S (length (pm_options _ m))) os _ n Hok Ho) as Hloop.
  cbn [Options_new os_i os_bytes] in *. specialize (Hloop ltac:(lia)).
  destruct (filter _ os) as [|x rest].
  - destruct Hloop as (o' & ->). done.
  - destruct Hloop as (o' & ? & ? & -> & _). done.
Qed.

(** Looking up options by number, which stops reading at the first larger
    number, gives exactly the options with that number, in wire order, and the
    first of them for single-valued options. *)
Theorem get_options_exact (m : ParsedMessage T) (os : list Opt) (n : Z) :
  bytes_ok (pm_options _ m) → pm_opts (E:=ParseError) m = Ok os →
  get_options_list (E:=ParseError) m n = Ok (filter (fun x => opt_number x = n) os) ∧
  get_option (E:=ParseError) m n = Ok (head (filter (fun x => opt_number x = n) os)).
Proof. intros Hb Ho. split; [by apply get_options_list_spec|by apply get_option_spec]. Qed.

(** ** Preconditions *)
Lemma if_match_loop_spec (vs : list (list Z)) (saw exist : bool) (etag : option (list Z)) :
  if_match_loop vs saw exist etag =
  (is_nil vs && negb saw) || (exist && existsb (fun v => is_nil v || eqb etag (Some v)) vs).
Proof.
  revert saw. induction vs as [|v vs IH]; intros saw; simpl.
  { by rewrite andb_false_r, orb_false_r. }
  rewrite IH, andb_false_r. destruct exist, (is_nil v); simpl; done.
Qed.

Lemma is_nil_map {A B} (f : A → B) (l : list A) : is_nil (map f l) = is_nil l.
Proof. by destruct l. Qed.

Lemma is_some_head {A} (l : list A) : is_some (head l) = negb (is_nil l).
Proof. by destruct l. Qed.

(** If-Match and If-None-Match.  With the options of the message as a list:
    If-None-Match fails exactly when the resource exists; If-Match fails exactly
    when there are If-Match options and none holds (an empty one holds if the
    resource exists, another if it equals the current ETag); otherwise the
    result says whether a condition was present. *)
Theorem precondition_spec (m : ParsedMessage T) (os : list Opt) (exist : bool)
    (etag : option (list Z)) :
  bytes_ok (pm_options _ m) → pm_opts (E:=ParseError) m = Ok os →
  let inm := negb (is_nil (filter (fun x => opt_number x = ON_IF_NONE_MATCH) os)) in
  let vs := map opt_value (filter (fun x => opt_number x = ON_IF_MATCH) os) in
  let matches := exist && existsb (fun v => is_nil v || eqb etag (Some v)) vs in
  precondition (E:=ParseError) m exist etag =
  Ok (if inm && exist then FailedIfNoneMatch
      else if negb (is_nil vs) && negb matches then FailedIfMatch
      else if inm || negb (is_nil vs) then Satisfied
      else Unconditional).
Proof.
  intros Hb Ho inm vs matches. unfold precondition, pm_if_none_match, if_match_holds, pm_if_match.
  rewrite !(get_option_spec m os) by done. rewrite (get_options_list_spec m os) by done.
  unbind. rewrite !is_some_head. fold inm. destruct (inm && exist); [done|].
  fold vs. rewrite if_match_loop_spec. cbn [negb]. rewrite andb_true_r. fold matches.
  rewrite negb_orb. rewrite <- (is_nil_map opt_value). fold vs.
  by destruct (negb (is_nil vs) && negb matches), (inm || negb (is_nil vs)).
Qed.

(** ** Table 4 *)
Definition format_ok (o : Opt) : bool :=
  match table4_spec (opt_number o) with
  | None => true
  | Some (kind, min, max) =>
      (min <=? length (opt_value o))%nat && (length (opt_value o) <=? max)%nat &&
      (match kind with FString => utf8_valid (opt_value o) | _ => true end)
  end.

Lemma check_format_spec (o : Opt) :
  check_format o = if format_ok o then Ok tt else Err (BadOptionFormat (opt_number o)).
Proof.
  unfold check_format, format_ok, as_str.
  destruct (table4_spec (opt_number o)) as [[[k min] max]|] eqn:Et; [|done].
  destruct k; rewrite ?andb_true_r; try done; [|by destruct (utf8_valid (opt_value o))].
  assert (min = 0 ∧ max = 0)%nat as [-> ->].
  { unfold table4_spec in Et. repeat case_match; by simplify_eq. }
  by destruct (opt_value o).
Qed.

(** The Table 4 checks.  The option numbers with a Table 4 format are
    exactly the RFC 7252 numbers; the format check passes exactly when every
    option has its length range (and UTF-8 for strings), and otherwise names
    the first option that does not; the critical check passes exactly when no
    option is critical and outside RFC 7252. *)
Theorem table4_checks (m : ParsedMessage T) (os : list Opt) :
  pm_opts (E:=ParseError) m = Ok os →
  (∀ n, is_some (option_value_format n) = OptionNumber_is_rfc7252 n) ∧
  check_rfc7252_formats m =
    match head (filter (fun o => format_ok o = false) os) with
    | Some o => Err (BadOptionFormat (opt_number o))
    | None => Ok tt
    end ∧
  (check_rfc7252_options m = Ok tt ↔
   Forall (fun o => OptionNumber_is_critical (opt_number o) = true →
                    OptionNumber_is_rfc7252 (opt_number o) = true) os).
Proof.
  intros Ho. split; [|split].
  - intros n. unfold option_value_format, OptionNumber_is_rfc7252, table4_spec. simpl.
    repeat (case_match; simplify_eq; try done).
  - unfold check_rfc7252_formats, bad_option_format. rewrite Ho. unbind. clear Ho.
    induction os as [|o os IH]; [done|]. cbn [find_map]. rewrite check_format_spec, filter_cons.
    destruct (format_ok o); [rewrite decide_False by done; apply IH|by rewrite decide_True].
  - unfold check_rfc7252_options, unrecognized_critical. rewrite Ho. unbind. clear Ho.
    induction os as [|o os IH]; [by split; [constructor|]|]. cbn [find_map]. rewrite Forall_cons, <- IH.
    destruct (OptionNumber_is_critical _), (OptionNumber_is_rfc7252 _); clear IH; simpl; naive_solver.
Qed.

End accessor_theorems.

(** ** Witnesses: If-Match, If-None-Match and two Uri-Path segments *)
Definition ex_options : ParsedMessage Token :=
  mkParsed _ (mkHeader 1 Confirmable 0 3 77) Token_EMPTY [17; 1; 64; 97; 97; 1; 98] [].
Definition ex_option_list : list Opt := [mkOpt 1 [1]; mkOpt 5 []; mkOpt 11 [97]; mkOpt 11 [98]].

Lemma ex_options_ok : bytes_ok (pm_options _ ex_options).
Proof. repeat constructor; by vm_compute. Defined.

Lemma ex_options_list : @pm_opts target64 Token ParseError ex_options = Ok ex_option_list.
Proof. by vm_compute. Defined.

Lemma get_options_exact_witness :
  @get_options_list target64 Token ParseError ex_options ON_URI_PATH =
    Ok (filter (fun x => opt_number x = ON_URI_PATH) ex_option_list) ∧
  @get_option target64 Token ParseError ex_options ON_URI_PATH =
    Ok (head (filter (fun x => opt_number x = ON_URI_PATH) ex_option_list)).
Proof.
  apply (@get_options_exact target64 Token ex_options ex_option_list ON_URI_PATH
    ex_options_ok ex_options_list).
Defined.

Lemma precondition_spec_witness :
  @precondition target64 Token ParseError ex_options false (Some [1]) = Ok FailedIfMatch.
Proof.
  rewrite (@precondition_spec target64 Token ex_options ex_option_list false (Some [1])
    ex_options_ok ex_options_list).
  by vm_compute.
Defined.

Lemma table4_checks_witness : @check_rfc7252_formats target64 Token ex_options = Ok tt.
Proof.
  rewrite (proj1 (proj2 (@table4_checks target64 Token ex_options ex_option_list ex_options_list))).
  by vm_compute.
Defined.
