(* ===== verification/MissingBlocks.v ===== *)
(** * Missing-blocks payloads (RFC 9177)

    [src/message/missing_blocks.rs]: a CBOR sequence of strictly ascending
    unsigned integers.  The output buffer and the write position are the state
    of the writer, so bytes of an integer that did not fit stay written and
    counted, as in the code. *)
From S2P Require Import Prelude.

Inductive MissingBlocksError : Type := MBBufferTooSmall | MBInvalid.

(** ** Writing *)
Definition mb_put (byte : Z) : st (list Z * nat) MissingBlocksError unit :=
  '(buf, pos) ← st_get;
  if (length buf <=? pos)%nat then st_fail MBBufferTooSmall
  else
    buf ← st_lift (set_idx pos byte buf);
    st_put (buf, S pos).

(** [for shift in [..] { put(buf, at, (n >> shift) as u8)?; }] *)
Fixpoint mb_put_shifts (n : Z) (shifts : list Z) : st (list Z * nat) MissingBlocksError unit :=
  match shifts with
  | [] => mret tt
  | s :: shifts => mb_put (wrap 8 (Z.shiftr n s));; mb_put_shifts n shifts
  end.

Definition mb_put_uint (n : Z) : st (list Z * nat) MissingBlocksError unit :=
  if n <=? 23 then mb_put (wrap 8 n)
  else if n <=? 255 then mb_put 24;; mb_put (wrap 8 n)
  else if n <=? max_u 16 then
    mb_put 25;; mb_put (wrap 8 (Z.shiftr n 8));; mb_put (wrap 8 n)
  else if n <=? max_u 32 then mb_put 26;; mb_put_shifts n [24; 16; 8; 0]
  else mb_put 27;; mb_put_shifts n [56; 48; 40; 32; 24; 16; 8; 0].

(** The [for num in nums] loop, with [prev] and [wrote]. *)
Fixpoint mb_encode_loop (nums : list Z) (prev : option Z) (wrote : bool)
    : st (list Z * nat) MissingBlocksError bool :=
  match nums with
  | [] => mret wrote
  | num :: nums =>
      if (match prev with Some p => num <=? p | None => false end)
      then mb_encode_loop nums prev wrote
      else
        fun s =>
          match mb_put_uint num s with
          | (s, Ok _) => mb_encode_loop nums (Some num) true s
          | (s, Err MBBufferTooSmall) => if wrote then (s, Ok wrote) else (s, Err MBBufferTooSmall)
          | (s, Err e) => (s, Err e)
          | (s, Panic) => (s, Panic)
          | (s, Diverge) => (s, Diverge)
          end
  end.

Definition MissingBlocks_encode (nums : list Z) (buf : list Z)
    : list Z * res MissingBlocksError nat :=
  match mb_encode_loop nums None false (buf, 0%nat) with
  | ((buf, pos), Ok wrote) => (buf, if wrote : bool then Ok pos else Err MBInvalid)
  | ((buf, _), Err e) => (buf, Err e)
  | ((buf, _), Panic) => (buf, Panic)
  | ((buf, _), Diverge) => (buf, Diverge)
  end.

(** ** Reading *)
Definition mb_need (bytes : list Z) (pos n : nat) : res MissingBlocksError unit :=
  if (length bytes - pos <? n)%nat then Err MBInvalid else Ok tt.

(** [need] and the read of the [n] bytes after the head. *)
Definition mb_take_be (bytes : list Z) (n : nat) : st nat MissingBlocksError Z :=
  pos ← st_get;
  st_lift (mb_need bytes pos n);;
  bs ← st_lift (slice_idx bytes pos (pos + n)%nat);
  st_put (pos + n)%nat;;
  mret (from_be bs).

Definition mb_read_uint (bytes : list Z) : st nat MissingBlocksError Z :=
  pos ← st_get;
  st_lift (mb_need bytes pos 1);;
  b ← st_lift (idx bytes pos);
  st_put (S pos);;
  if negb (Z.shiftr b 5 =? 0) then st_fail MBInvalid
  else
    let ai := Z.land b 31 in
    if ai <=? 23 then mret ai
    else if ai =? 24 then mb_take_be bytes 1
    else if ai =? 25 then mb_take_be bytes 2
    else if ai =? 26 then mb_take_be bytes 4
    else if ai =? 27 then mb_take_be bytes 8
    else st_fail MBInvalid.

(** The [while at < bytes.len()] loop; each turn reads at least one byte. *)
Fixpoint mb_decode_loop (fuel : nat) (bytes : list Z) (pos n : nat) (prev : option Z)
    (out : list Z) : list Z * res MissingBlocksError nat :=
  match fuel with
  | O => (out, Diverge)
  | S fuel =>
      if (pos <? length bytes)%nat then
        match mb_read_uint bytes pos with
        | (pos, Ok raw) =>
            if max_u 32 <? raw then (out, Err MBInvalid)
            else
              let num := wrap 32 raw in
              if (match prev with Some p => num <=? p | None => false end)
              then (out, Err MBInvalid)
              else if (length out <=? n)%nat then (out, Err MBBufferTooSmall)
              else
                match set_idx n num out with
                | Ok out => mb_decode_loop fuel bytes pos (S n) (Some num) out
                | Err e => (out, Err e)
                | Panic => (out, Panic)
                | Diverge => (out, Diverge)
                end
        | (_, Err e) => (out, Err e)
        | (_, Panic) => (out, Panic)
        | (_, Diverge) => (out, Diverge)
        end
      else (out, if (n =? 0)%nat then Err MBInvalid else Ok n)
  end.

Definition MissingBlocks_decode (bytes : list Z) (out : list Z)
    : list Z * res MissingBlocksError nat :=
  match bytes with
  | [] => (out, Err MBInvalid)
  | _ => mb_decode_loop (S (length bytes)) bytes 0 0 None out
  end.

(** ** Reference: shortest CBOR encoding, and the numbers that are kept *)
Definition cbor_uint (n : Z) : list Z :=
  if n <=? 23 then [n]
  else if n <=? 255 then 24 :: be_bytes 1 n
  else if n <=? max_u 16 then 25 :: be_bytes 2 n
  else if n <=? max_u 32 then 26 :: be_bytes 4 n
  else 27 :: be_bytes 8 n.

Fixpoint ascending (prev : option Z) (nums : list Z) : list Z :=
  match nums with
  | [] => []
  | num :: nums =>
      if (match prev with Some p => num <=? p | None => false end)
      then ascending prev nums
      else num :: ascending (Some num) nums
  end.

Definition cbor_seq (nums : list Z) : list Z := concat (map cbor_uint nums).

(** ** Writing the reference *)
Lemma mb_put_ok (byte : Z) (buf : list Z) (pos : nat) :
  (pos < length buf)%nat → mb_put byte (buf, pos) = ((splice buf pos [byte], S pos), Ok tt).
Proof.
  intros H. unfold mb_put. unbind. rewrite (proj2 (Nat.leb_gt _ _)) by done.
  by rewrite set_idx_ok.
Qed.

Lemma mb_put_shifts_ok (n : Z) (shifts buf : list Z) (pos : nat) :
  (pos + length shifts ≤ length buf)%nat →
  mb_put_shifts n shifts (buf, pos) =
    ((splice buf pos (map (fun s => wrap 8 (Z.shiftr n s)) shifts), (pos + length shifts)%nat), Ok tt).
Proof.
  revert buf pos. induction shifts as [|s shifts IH]; intros buf pos Hl; simpl in *.
  { by rewrite splice_nil, Nat.add_0_r. }
  unfold mbind, st_mbind, st_bind. rewrite mb_put_ok by lia.
  rewrite IH by (rewrite length_splice; simpl; lia).
  rewrite splice_splice by (rewrite ?length_map; simpl; lia). do 2 f_equal. lia.
Qed.

Lemma wrap_shiftr (n s : Z) : 0 ≤ s → wrap 8 (Z.shiftr n s) = (n / 2 ^ s) mod 256.
Proof. intros. unfold wrap. by rewrite shiftr_pow. Qed.

Lemma shifts_4 (n : Z) : map (fun s => wrap 8 (Z.shiftr n s)) [24; 16; 8; 0] = be_bytes 4 n.
Proof.
  cbn [map be_bytes app]. rewrite !wrap_shiftr by lia. rewrite !Z.div_div by lia.
  change (2 ^ 0) with 1. by rewrite Z.div_1_r.
Qed.

Lemma shifts_8 (n : Z) :
  map (fun s => wrap 8 (Z.shiftr n s)) [56; 48; 40; 32; 24; 16; 8; 0] = be_bytes 8 n.
Proof.
  cbn [map be_bytes app]. rewrite !wrap_shiftr by lia. rewrite !Z.div_div by lia.
  change (2 ^ 0) with 1. by rewrite Z.div_1_r.
Qed.

Lemma mb_put_uint_ok (n : Z) (buf : list Z) (pos : nat) :
  0 ≤ n → (pos + length (cbor_uint n) ≤ length buf)%nat →
  mb_put_uint n (buf, pos) =
    ((splice buf pos (cbor_uint n), (pos + length (cbor_uint n))%nat), Ok tt).
Proof.
  intros Hn Hl. unfold mb_put_uint, cbor_uint in *.
  destruct (n <=? 23) eqn:E1; bools.
  { simpl in Hl. rewrite mb_put_ok by lia. rewrite wrap_small by (unfold in_u; lia).
    simpl. do 2 f_equal. lia. }
  destruct (n <=? 255) eqn:E2; bools.
  { simpl in Hl. unfold mbind, st_mbind, st_bind. rewrite mb_put_ok by lia.
    rewrite mb_put_ok by (rewrite length_splice; simpl; lia).
    rewrite splice_splice by (simpl; lia). simpl. unfold wrap. do 2 f_equal. lia. }
  destruct (n <=? max_u 16) eqn:E3; bools.
  { simpl in Hl. unfold mbind, st_mbind, st_bind. rewrite mb_put_ok by lia.
    rewrite mb_put_ok by (rewrite length_splice; simpl; lia).
    rewrite splice_splice by (simpl; lia).
    rewrite mb_put_ok by (rewrite length_splice; simpl; lia).
    rewrite splice_splice by (simpl; lia). rewrite wrap_shiftr by lia. unfold wrap.
    simpl. do 2 f_equal. lia. }
  unfold mbind, st_mbind, st_bind.
  destruct (n <=? max_u 32) eqn:E4; cbn [length] in *; rewrite length_be_bytes in *;
    rewrite mb_put_ok by lia; rewrite mb_put_shifts_ok by (rewrite length_splice; simpl; lia);
    rewrite ?shifts_4, ?shifts_8; rewrite splice_splice by (rewrite ?length_be_bytes; simpl; lia);
    simpl; do 2 f_equal; lia.
Qed.

Lemma cbor_uint_nonempty (n : Z) : cbor_uint n ≠ [].
Proof. unfold cbor_uint. by repeat case_match. Qed.

Lemma cbor_seq_cons (n : Z) (ns : list Z) :
  cbor_seq (n :: ns) = cbor_uint n ++ cbor_seq ns.
Proof. done. Qed.

Lemma length_cbor_seq (ns : list Z) : (length ns ≤ length (cbor_seq ns))%nat.
Proof.
  induction ns as [|n ns IH]; [done|]. rewrite cbor_seq_cons, length_app. simpl.
  pose proof (cbor_uint_nonempty n). destruct (cbor_uint n); [done|simpl; lia].
Qed.

Lemma mb_encode_loop_ok (nums buf : list Z) (pos : nat) (prev : option Z) (wrote : bool) :
  Forall (in_u 32) nums → (pos + length (cbor_seq (ascending prev nums)) ≤ length buf)%nat →
  mb_encode_loop nums prev wrote (buf, pos) =
    ((splice buf pos (cbor_seq (ascending prev nums)),
      (pos + length (cbor_seq (ascending prev nums)))%nat),
     Ok (wrote || match ascending prev nums with [] => false | _ => true end)).
Proof.
  revert buf pos prev wrote. induction nums as [|n nums IH]; intros buf pos prev wrote Hu Hl;
    cbn [mb_encode_loop ascending].
  { change (cbor_seq []) with (@nil Z). by rewrite splice_nil, Nat.add_0_r, orb_false_r. }
  apply Forall_cons in Hu as [Hn Hu]. unfold in_u in Hn. cbn [ascending] in Hl.
  destruct (match prev with Some p => n <=? p | None => false end); [by apply IH|].
  rewrite cbor_seq_cons, length_app in *. rewrite mb_put_uint_ok by lia.
  rewrite IH by (done || rewrite length_splice; lia). rewrite splice_splice by lia.
  rewrite orb_true_r. do 2 f_equal. lia.
Qed.

(** ** Reading the reference *)
Lemma mb_take_be_ok (pre bs post : list Z) (n pos : nat) :
  pos = length pre → n = length bs →
  mb_take_be (pre ++ bs ++ post) n pos = ((pos + n)%nat, Ok (from_be bs)).
Proof.
  intros -> ->. unfold mb_take_be, mb_need. unbind.
  rewrite (proj2 (Nat.ltb_ge _ _)) by (rewrite !length_app; lia).
  unfold slice_idx. by rewrite slice_get_app.
Qed.

(** A head byte with additional information 24 to 27 and its argument. *)
Lemma mb_read_uint_arg (pre post arg : list Z) (b : Z) :
  (b, length arg) ∈ [(24, 1%nat); (25, 2%nat); (26, 4%nat); (27, 8%nat)] →
  mb_read_uint (pre ++ (b :: arg) ++ post) (length pre) =
    ((length pre + S (length arg))%nat, Ok (from_be arg)).
Proof.
  intros Hb. unfold mb_read_uint, mb_need, idx. unbind.
  rewrite (proj2 (Nat.ltb_ge _ _)) by (rewrite !length_app; simpl; lia).
  simpl ((b :: arg) ++ post). rewrite lookup_app_mid by done. rewrite (cons_middle b).
  replace (pre ++ [b] ++ arg ++ post) with ((pre ++ [b]) ++ arg ++ post) by app_norm.
  assert (∀ k, k = length arg → mb_take_be ((pre ++ [b]) ++ arg ++ post) k (S (length pre)) =
    ((length pre + S (length arg))%nat, Ok (from_be arg))) as Ht.
  { intros k ->. rewrite mb_take_be_ok by (rewrite ?length_app; simpl; lia). f_equal. lia. }
  rewrite !elem_of_cons in Hb.
  destruct Hb as [Hb|[Hb|[Hb|[Hb|Hb]]]]; [..|by apply elem_of_nil in Hb]; injection Hb as -> Hb;
    simpl; by apply Ht.
Qed.

Lemma mb_read_uint_ok (pre post : list Z) (n : Z) :
  in_u 64 n →
  mb_read_uint (pre ++ cbor_uint n ++ post) (length pre) =
    ((length pre + length (cbor_uint n))%nat, Ok n).
Proof.
  intros Hn. unfold in_u in Hn. unfold cbor_uint, max_u.
  destruct (n <=? 23) eqn:E1; bools.
  { unfold mb_read_uint, mb_need, idx. unbind.
    rewrite (proj2 (Nat.ltb_ge _ _)) by (rewrite !length_app; simpl; lia).
    simpl ([n] ++ post). rewrite lookup_app_mid by done.
    rewrite shiftr_pow, (land_mask _ 5) by lia. rewrite Z.div_small, Z.mod_small by lia.
    simpl. rewrite (proj2 (Z.leb_le _ _)) by lia. by rewrite Nat.add_1_r. }
  destruct (n <=? 255) eqn:E2; [|destruct (n <=? 2 ^ 16 - 1) eqn:E3;
    [|destruct (n <=? 2 ^ 32 - 1) eqn:E4]]; bools;
    (rewrite mb_read_uint_arg; [cbn [length]; do 2 f_equal|
       rewrite length_be_bytes, !elem_of_cons; tauto]);
    rewrite from_be_bytes; apply Z.mod_small; simpl; lia.
Qed.

(** Numbers strictly above [prev] and strictly ascending. *)
Fixpoint strictly_above (prev : option Z) (ns : list Z) : Prop :=
  match ns with
  | [] => True
  | n :: ns => (match prev with Some p => p < n | None => True end) ∧ strictly_above (Some n) ns
  end.

Lemma ascending_above (prev : option Z) (nums : list Z) :
  strictly_above prev (ascending prev nums) ∧
  (Forall (in_u 32) nums → Forall (in_u 32) (ascending prev nums)).
Proof.
  revert prev. induction nums as [|n nums IH]; intros prev; cbn [ascending]; [by split|].
  destruct (match prev with Some p => n <=? p | None => false end) eqn:E.
  - destruct (IH prev) as [? Hf]. split; [done|]. intros [_ ?]%Forall_cons. auto.
  - destruct (IH (Some n)) as [? Hf]. split.
    + split; [|done]. destruct prev; [|done]. bools. lia.
    + intros [? ?]%Forall_cons. constructor; auto.
Qed.

(** A strictly ascending list is kept whole. *)
Lemma ascending_id (prev : option Z) (ns : list Z) : strictly_above prev ns → ascending prev ns = ns.
Proof.
  revert prev. induction ns as [|n ns IH]; intros prev; cbn [ascending strictly_above]; [done|].
  intros [Hp Hs]. rewrite (IH (Some n)) by done. destruct prev as [p|]; [|done].
  by rewrite (proj2 (Z.leb_gt _ _)).
Qed.

(** The numbers at the front are read one by one. *)
Lemma mb_decode_loop_reads (ns : list Z) (fuel n : nat) (prev : option Z) (pre post out : list Z) :
  Forall (in_u 32) ns → strictly_above prev ns → (n + length ns ≤ length out)%nat →
  ∃ prev', mb_decode_loop (length ns + fuel) (pre ++ cbor_seq ns ++ post) (length pre) n prev out =
    mb_decode_loop fuel (pre ++ cbor_seq ns ++ post) (length (pre ++ cbor_seq ns)) (n + length ns) prev' (splice out n ns).
Proof.
  revert n prev pre out. induction ns as [|x ns IH]; intros n prev pre out Hu Hs Ho.
  - exists prev. change (cbor_seq []) with (@nil Z). by rewrite app_nil_r, Nat.add_0_r, splice_nil.
  - apply Forall_cons in Hu as [Hx Hu]. destruct Hs as [Hp Hs]. rewrite cbor_seq_cons, <- app_assoc. cbn [length Nat.add mb_decode_loop].
    pose proof (cbor_uint_nonempty x) as Hne.
    assert (0 < length (cbor_uint x))%nat by (destruct (cbor_uint x); [done|simpl; lia]).
    rewrite (proj2 (Nat.ltb_lt _ _)) by (rewrite !length_app; lia).
    rewrite mb_read_uint_ok by (eapply in_u_mono; [|exact Hx]; lia).
    unfold in_u in Hx. unfold max_u. rewrite (proj2 (Z.ltb_ge _ _)) by lia.
    rewrite wrap_small by exact Hx.
    replace (match prev with Some p => x <=? p | None => false end) with false
      by (destruct prev; [symmetry; by apply Z.leb_gt|done]).
    simpl in Ho. rewrite (proj2 (Nat.leb_gt _ _)) by lia. rewrite set_idx_ok by lia.
    rewrite !(app_assoc pre (cbor_uint x)), <- length_app.
    destruct (IH (S n) (Some x) (pre ++ cbor_uint x) (splice out n [x]) Hu Hs) as [prev' ->]; [rewrite length_splice; simpl; lia|].
    exists prev'. rewrite splice_splice by (simpl; lia). f_equal. lia.
Qed.

Lemma mb_decode_loop_ok (ns : list Z) (fuel n : nat) (prev : option Z) (pre out : list Z) :
  Forall (in_u 32) ns → strictly_above prev ns → (length ns < fuel)%nat →
  (n + length ns ≤ length out)%nat → (0 < n + length ns)%nat →
  mb_decode_loop fuel (pre ++ cbor_seq ns) (length pre) n prev out =
    (splice out n ns, Ok (n + length ns)%nat).
Proof.
  intros Hu Hs Hf Ho H0. destruct (mb_decode_loop_reads ns (fuel - length ns) n prev pre [] out Hu Hs Ho) as [prev' Hr].
  rewrite app_nil_r in Hr. replace (length ns + (fuel - length ns))%nat with fuel in Hr by lia. rewrite Hr.
  destruct (fuel - length ns)%nat eqn:Ef; [lia|]. cbn [mb_decode_loop]. rewrite Nat.ltb_irrefl. by rewrite (proj2 (Nat.eqb_neq _ _)) by lia.
Qed.

(** Missing-blocks round trip.  If the buffer holds the numbers that are
    kept (each larger than the last one kept), [encode] writes their shortest
    CBOR encodings and [decode] reads exactly these numbers back; with nothing
    to write it reports [Invalid]. *)
Theorem missing_blocks_roundtrip (nums buf out : list Z) :
  Forall (in_u 32) nums → (length (cbor_seq (ascending None nums)) ≤ length buf)%nat →
  (length (ascending None nums) ≤ length out)%nat →
  let wire := cbor_seq (ascending None nums) in
  if decide (nums = []) then MissingBlocks_encode nums buf = (buf, Err MBInvalid)
  else MissingBlocks_encode nums buf = (splice buf 0 wire, Ok (length wire)) ∧
       MissingBlocks_decode (take (length wire) (splice buf 0 wire)) out =
         (splice out 0 (ascending None nums), Ok (length (ascending None nums))).
Proof.
  intros Hu Hl Ho wire. case_decide as Hn; [by subst|].
  assert (∃ x l, ascending None nums = x :: l) as (x & l & Ha).
  { destruct nums as [|y nums]; [done|]. by exists y, (ascending (Some y) nums). }
  split.
  - unfold MissingBlocks_encode. rewrite mb_encode_loop_ok by done. unfold wire. by rewrite Ha.
  - assert (take (length wire) (splice buf 0 wire) = wire) as ->
      by (unfold splice; simpl; by rewrite take_app_length).
    destruct (ascending_above None nums) as [Hs Hf]. specialize (Hf Hu).
    pose proof (length_cbor_seq (ascending None nums)) as Hlen. fold wire in Hlen.
    assert (MissingBlocks_decode wire out =
      mb_decode_loop (S (length wire)) ([] ++ cbor_seq (ascending None nums)) 0 0 None out) as ->.
    { unfold MissingBlocks_decode. fold wire. simpl.
      destruct wire; [|done]. rewrite Ha in Hlen. simpl in Hlen. lia. }
    apply (mb_decode_loop_ok _ _ 0 None []); try done; [lia|].
    rewrite Ha. simpl. lia.
Qed.

(** ** Reading never panics *)
Lemma mb_take_be_returns (bytes : list Z) (n pos : nat) :
  (0 < n)%nat →
  returns (mb_take_be bytes n pos).2 ∧ (pos ≤ (mb_take_be bytes n pos).1)%nat.
Proof.
  intros Hn. unfold mb_take_be, mb_need. unbind.
  destruct (length bytes - pos <? n)%nat eqn:E; bools; simpl; [done|].
  unfold slice_idx, slice_get.
  rewrite (proj2 (Nat.leb_le _ _)), (proj2 (Nat.leb_le _ _)) by lia. simpl. split; [done|lia].
Qed.

Lemma mb_read_uint_returns (bytes : list Z) (pos : nat) :
  (pos < length bytes)%nat →
  returns (mb_read_uint bytes pos).2 ∧ (pos < (mb_read_uint bytes pos).1)%nat.
Proof.
  intros Hp. destruct (lookup_lt_is_Some_2 bytes pos Hp) as [b Hb].
  unfold mb_read_uint, mb_need, idx. unbind. rewrite (proj2 (Nat.ltb_ge _ _)) by lia. rewrite Hb.
  pose proof (fun n => mb_take_be_returns bytes n (S pos)) as Ht.
  destruct (negb _); [simpl; split; [done|lia]|].
  repeat (destruct (_ <=? _) || destruct (_ =? _));
    try (simpl; split; [done|lia]);
    match goal with |- context [mb_take_be bytes ?n] => destruct (Ht n ltac:(lia)); split; [done|lia] end.
Qed.

Lemma mb_decode_loop_returns (fuel : nat) (bytes : list Z) (pos n : nat) (prev : option Z) (out : list Z) :
  (length bytes < pos + fuel)%nat → (0 < fuel)%nat →
  returns (mb_decode_loop fuel bytes pos n prev out).2.
Proof.
  revert pos n prev out. induction fuel as [|fuel IH]; intros pos n prev out Hf H0; [lia|].
  cbn [mb_decode_loop]. destruct (pos <? length bytes)%nat eqn:Ep; bools; [|by destruct (n =? 0)%nat].
  destruct (mb_read_uint_returns bytes pos Ep) as [Hr Hp].
  destruct (mb_read_uint bytes pos) as [pos' [raw| | |]]; try done. simpl in Hp.
  destruct (max_u 32 <? raw); [done|].
  destruct (match prev with Some p => _ | None => false end); [done|].
  destruct (length out <=? n)%nat eqn:Eo; [done|]. bools. rewrite set_idx_ok by lia.
  apply IH; lia.
Qed.

(** [decode] ends without a panic on every byte string and output buffer. *)
Theorem missing_blocks_decode_total (bytes out : list Z) :
  returns (MissingBlocks_decode bytes out).2.
Proof.
  unfold MissingBlocks_decode. destruct bytes as [|b bytes]; [done|].
  apply mb_decode_loop_returns; simpl; lia.
Qed.

(** ** A buffer too small for all the numbers *)
Definition mb_put_all (bs : list Z) : st (list Z * nat) MissingBlocksError unit :=
  foldr (fun b rest => mb_put b;; rest) (mret tt) bs.

Lemma mb_put_last (b : Z) s : (mb_put b;; mret tt) s = mb_put b s.
Proof. unbind. by destruct (mb_put b s) as [? [[]| | |]]. Qed.
Lemma mb_put_shifts_all (n : Z) (shifts : list Z) s : mb_put_shifts n shifts s = mb_put_all (map (fun s => wrap 8 (Z.shiftr n s)) shifts) s.
Proof.
  revert s. induction shifts as [|x shifts IH]; intros s; [done|]. cbn [mb_put_shifts map mb_put_all foldr]. unbind.
  destruct (mb_put _ s) as [? [| | |]]; [apply IH|done..].
Qed.
(** The writer puts the shortest encoding, byte by byte. *)
Lemma mb_put_uint_all (n : Z) s : 0 ≤ n → mb_put_uint n s = mb_put_all (cbor_uint n) s.
Proof.
  intros Hn. unfold mb_put_uint, cbor_uint. destruct (n <=? 23) eqn:E1; bools.
  { rewrite wrap_small by (unfold in_u; lia). symmetry. apply mb_put_last. }
  assert (∀ h bs m, (∀ s, m s = mb_put_all bs s) → ∀ s, (mb_put h;; m) s = mb_put_all (h :: bs) s) as Hh.
  { intros h bs m Hm s'. cbn [mb_put_all foldr]. unbind. destruct (mb_put h s') as [? [| | |]]; [apply Hm|done..]. }
  repeat case_match; apply Hh; intros s'.
  - cbn [be_bytes app]. symmetry. apply mb_put_last.
  - cbn [be_bytes app]. rewrite wrap_shiftr by lia. unfold wrap. apply Hh. intros s''. symmetry. apply mb_put_last.
  - by rewrite mb_put_shifts_all, shifts_4.
  - by rewrite mb_put_shifts_all, shifts_8.
Qed.
(** Bytes that do not fit fill the buffer before the writer gives up. *)
Lemma mb_put_all_short (bs buf : list Z) (pos : nat) :
  (pos ≤ length buf < pos + length bs)%nat →
  mb_put_all bs (buf, pos) = ((splice buf pos (take (length buf - pos) bs), length buf), Err MBBufferTooSmall).
Proof.
  revert buf pos. induction bs as [|b bs IH]; intros buf pos Hl; cbn [length] in Hl; [lia|]. cbn [mb_put_all foldr]. fold (mb_put_all bs). unbind.
  destruct (decide (pos = length buf)) as [->|Hne].
  { unfold mb_put. unbind. rewrite Nat.leb_refl, Nat.sub_diag. cbn [take st_fail]. by rewrite splice_nil. }
  rewrite mb_put_ok by lia. rewrite IH by (rewrite length_splice; simpl; lia). rewrite length_splice by (simpl; lia).
  replace (length buf - pos)%nat with (S (length buf - S pos)) by lia. cbn [take]. do 2 f_equal.
  rewrite splice_splice; [done|simpl; lia|]. rewrite length_take. lia.
Qed.
Lemma mb_encode_loop_short (nums buf : list Z) (pos : nat) (prev : option Z) (wrote : bool) :
  Forall (in_u 32) nums → (pos ≤ length buf < pos + length (cbor_seq (ascending prev nums)))%nat →
  wrote = true ∨ (∀ n rest, ascending prev nums = n :: rest → pos + length (cbor_uint n) ≤ length buf)%nat →
  mb_encode_loop nums prev wrote (buf, pos) =
    ((splice buf pos (take (length buf - pos) (cbor_seq (ascending prev nums))), length buf), Ok true).
Proof.
  revert buf pos prev wrote. induction nums as [|n nums IH]; intros buf pos prev wrote Hu Hl Hw; cbn [mb_encode_loop ascending] in *.
  { change (cbor_seq []) with (@nil Z) in Hl. simpl in Hl. lia. }
  apply Forall_cons in Hu as [[Hn _] Hu]. destruct (match prev with Some p => n <=? p | None => false end); [by apply IH|].
  rewrite cbor_seq_cons, length_app in *. destruct (decide (pos + length (cbor_uint n) ≤ length buf)%nat) as [Hf|Hf].
  - rewrite mb_put_uint_ok by done. rewrite IH; [|done|rewrite length_splice; lia|by left].
    rewrite length_splice by lia. rewrite splice_splice by (rewrite ?length_take; lia). rewrite take_app, (take_ge (cbor_uint n)) by lia. do 3 f_equal.
    f_equal. f_equal. lia.
  - assert (wrote = true) as -> by (destruct Hw as [|Hw]; [done|]; destruct Hf; by eapply Hw).
    rewrite mb_put_uint_all, mb_put_all_short by lia. rewrite take_app_le by lia. done.
Qed.

(** The numbers that fit whole, which is where the documentation says encoding
    stops. *)
Fixpoint fitting (room : nat) (ns : list Z) : list Z :=
  match ns with
  | [] => []
  | n :: ns => if (length (cbor_uint n) <=? room)%nat then n :: fitting (room - length (cbor_uint n)) ns else []
  end.
Lemma fitting_split (room : nat) (ns : list Z) :
  fitting room ns = ns ∨
  ∃ n rest, ns = fitting room ns ++ n :: rest ∧
    (length (cbor_seq (fitting room ns)) ≤ room < length (cbor_seq (fitting room ns)) + length (cbor_uint n))%nat.
Proof.
  revert room. induction ns as [|n ns IH]; intros room; cbn [fitting]; [by left|].
  destruct (Nat.leb_spec (length (cbor_uint n)) room); [|right; exists n, ns; split; [done|]; simpl; lia].
  destruct (IH (room - length (cbor_uint n))%nat) as [E|(m & rest & E & Hl)]; [left; by rewrite E|].
  right. exists m, rest. split; [cbn [app]; by rewrite <- E|]. rewrite cbor_seq_cons, length_app. lia.
Qed.
Lemma cbor_seq_app (xs ys : list Z) : cbor_seq (xs ++ ys) = cbor_seq xs ++ cbor_seq ys.
Proof. unfold cbor_seq. by rewrite map_app, concat_app. Qed.
Lemma above_app (prev : option Z) (xs ys : list Z) : strictly_above prev (xs ++ ys) → strictly_above prev xs.
Proof. revert prev. induction xs as [|x xs IH]; intros prev; cbn [app strictly_above]; [done|]. intros [Hp Hs]. eauto. Qed.

(** A proper part of an integer is refused. *)
Lemma mb_read_part (pre : list Z) (n : Z) (p : nat) :
  0 ≤ n → (0 < p < length (cbor_uint n))%nat → (mb_read_uint (pre ++ take p (cbor_uint n)) (length pre)).2 = Err MBInvalid.
Proof.
  intros Hn Hp. destruct p as [|p]; [lia|]. assert (∃ h k, (h, k) ∈ [(24, 1%nat); (25, 2%nat); (26, 4%nat); (27, 8%nat)] ∧
    ∃ arg, length arg = k ∧ cbor_uint n = h :: arg) as (h & k & Hk & arg & Ha & E).
  { revert Hp. unfold cbor_uint. repeat case_match; intros Hp; [simpl in Hp; lia|..];
      eexists _, _; (split; [|eexists; split; [apply length_be_bytes|reflexivity]]); rewrite !elem_of_cons; tauto. }
  rewrite E in *. cbn [length take] in *. unfold mb_read_uint, mb_need, idx. unbind.
  rewrite (proj2 (Nat.ltb_ge _ _)) by (rewrite !length_app; simpl; lia). rewrite lookup_app_mid by done.
  assert ((mb_take_be (pre ++ h :: take p arg) k (S (length pre))).2 = Err MBInvalid) as Ht.
  { unfold mb_take_be, mb_need. unbind. rewrite (proj2 (Nat.ltb_lt _ _)); [done|]. rewrite length_app. simpl. rewrite length_take. lia. }
  rewrite !elem_of_cons in Hk.
  destruct Hk as [Hk|[Hk|[Hk|[Hk|Hk]]]]; [..|by apply elem_of_nil in Hk]; injection Hk as -> ->; exact Ht.
Qed.

(** C39: a buffer too small for all the numbers to report.  When the first one
    fits and not all of them do, [encode] fills the whole buffer and reports its
    whole length.  That is a readable payload exactly when the numbers that fit
    end where the buffer ends; whenever the buffer ends inside an integer, of
    whichever width, the payload ends in a cut integer and the decoder refuses
    all of it.  The documented behaviour is to stop before an integer that does
    not fit. *)
Theorem missing_blocks_truncated (nums buf out : list Z) :
  Forall (in_u 32) nums →
  let kept := ascending None nums in
  let fit := fitting (length buf) kept in
  fit ≠ [] → fit ≠ kept → (length kept ≤ length out)%nat →
  let wire := take (length buf) (cbor_seq kept) in
  MissingBlocks_encode nums buf = (wire, Ok (length buf)) ∧
  if decide (length (cbor_seq fit) = length buf)
  then MissingBlocks_decode wire out = (splice out 0 fit, Ok (length fit))
  else (MissingBlocks_decode wire out).2 = Err MBInvalid.
Proof.
  intros Hu kept fit Hne Hnk Ho wire. destruct (fitting_split (length buf) kept) as [|(n & rest & Hk & Hl)]; [done|]. fold fit in Hk, Hl.
  assert (cbor_seq kept = cbor_seq fit ++ cbor_uint n ++ cbor_seq rest) as Hw by (by rewrite Hk, cbor_seq_app, cbor_seq_cons).
  destruct (ascending_above None nums) as [Hs Hf]. specialize (Hf Hu). fold kept in Hs, Hf. rewrite Hk in Hs, Hf, Ho.
  apply Forall_app in Hf as [Hfu [[Hn _] _]%Forall_cons]. apply above_app in Hs. rewrite length_app in Ho. split.
  - unfold MissingBlocks_encode. rewrite mb_encode_loop_short; [|done| |right].
    + unfold splice. rewrite take_0, Nat.sub_0_r. cbn [app]. fold kept. fold wire.
      rewrite drop_ge; [by rewrite app_nil_r|]. unfold wire. rewrite length_take, Hw, !length_app. lia.
    + fold kept. rewrite Hw, !length_app. lia.
    + fold kept. intros x l E. destruct fit as [|y fit'] eqn:Ef; [done|]. rewrite E in Hk. injection Hk as -> _.
      rewrite cbor_seq_cons, length_app in Hl. lia.
  - set (p := (length buf - length (cbor_seq fit))%nat).
    assert (wire = cbor_seq fit ++ take p (cbor_uint n)) as ->.
    { unfold wire. rewrite Hw, take_app, take_ge by lia. f_equal. by apply take_app_le; unfold p; lia. }
    destruct (mb_decode_loop_reads fit (S (length (cbor_seq fit ++ take p (cbor_uint n))) - length fit) 0 None [] (take p (cbor_uint n)) out Hfu Hs) as [prev' Hr];
      [lia|]. pose proof (length_cbor_seq fit) as Hlen.
    replace (length fit + _)%nat with (S (length (cbor_seq fit ++ take p (cbor_uint n)))) in Hr by (rewrite length_app; lia). cbn [app length] in Hr.
    assert (0 < length fit)%nat by (destruct fit; [done|simpl; lia]).
    unfold MissingBlocks_decode. destruct (cbor_seq fit ++ take p (cbor_uint n)) as [|b bs] eqn:Eb;
      [apply (f_equal length) in Eb; rewrite length_app in Eb; simpl in Eb; lia|]. rewrite <- Eb in *. rewrite Hr. clear Hr Eb.
    destruct (S _ - _)%nat as [|fuel] eqn:Efu; [rewrite length_app in Efu; lia|]. cbn [mb_decode_loop Nat.add]. case_decide as Hd.
    + assert (p = 0%nat) as -> by (unfold p; lia). rewrite take_0, app_nil_r, Nat.ltb_irrefl. by rewrite (proj2 (Nat.eqb_neq _ _)) by lia.
    + rewrite (proj2 (Nat.ltb_lt _ _)) by (rewrite length_app, length_take; unfold p; lia).
      pose proof (mb_read_part (cbor_seq fit) n p Hn ltac:(unfold p; lia)) as Hp.
      destruct (mb_read_uint _ _) as [pos [v|e| |]]; cbn [snd] in *; congruence.
Qed.

Lemma missing_blocks_roundtrip_witness :
  MissingBlocks_encode [3; 3; 300; 2; 70000] (replicate 10 0) =
    (splice (replicate 10 0) 0 (cbor_seq [3; 300; 70000]), Ok 9%nat).
Proof.
  pose proof (missing_blocks_roundtrip [3; 3; 300; 2; 70000] (replicate 10 0) (replicate 5 0)) as Hr.
  destruct Hr as [He _]; [repeat constructor; by vm_compute|vm_compute; lia|vm_compute; lia|].
  exact He.
Defined.

(** 70000 takes five bytes, of which three are left. *)
Lemma missing_blocks_truncated_witness :
  MissingBlocks_encode [1; 24; 70000] (replicate 6 0) = ([1; 24; 24; 26; 0; 1], Ok 6%nat) ∧
  (MissingBlocks_decode [1; 24; 24; 26; 0; 1] (replicate 4 0)).2 = Err MBInvalid.
Proof.
  apply (missing_blocks_truncated [1; 24; 70000] (replicate 6 0) (replicate 4 0)); [by repeat constructor|by vm_compute..|vm_compute; lia].
Defined.
