(* ===== verification/Ids.v ===== *)
(** * Message ID sequence and token minting

    [src/message/id.rs].  [TokenSource] is a trait the caller implements: a
    source is a state and a [fill] function that writes as many bytes as asked
    or reports failure. *)
From S2P Require Import Prelude Errors MsgTypes Encode.

(** ** Message IDs *)
Record Ids : Type := mkIds { ids_next : Z }.

Definition Ids_new (start : Z) : Ids := mkIds start.
Definition Ids_from_id (id : MessageId) : Ids := Ids_new id.
Definition Ids_peek (ids : Ids) : MessageId := ids_next ids.
Definition Ids_take (ids : Ids) : Ids * MessageId :=
  (mkIds (wrapping_add 16 (ids_next ids) 1), ids_next ids).
Definition Ids_con (ids : Ids) (code : Code) (token : Token) : Ids * Message Token :=
  let '(ids, id) := Ids_take ids in (ids, Message_con code id token).
Definition Ids_non (ids : Ids) (code : Code) (token : Token) : Ids * Message Token :=
  let '(ids, id) := Ids_take ids in (ids, Message_non code id token).
Definition Ids_request (ids : Ids) (ty : MType) (code : Code) (token : Token)
    : Ids * option (Message Token) :=
  match ty with
  | Confirmable | NonConfirmable =>
      let '(ids, id) := Ids_take ids in
      (ids, Some (Message_with_token (Message_new ty code id) token))
  | Acknowledgement | Reset => (ids, None)
  end.

(** [n] calls of [next]. *)
Fixpoint Ids_take_n (n : nat) (ids : Ids) : Ids * list MessageId :=
  match n with
  | O => (ids, [])
  | S n =>
      let '(ids, id) := Ids_take ids in
      let '(ids, rest) := Ids_take_n n ids in
      (ids, id :: rest)
  end.

(** ** Token sources *)
Class TokenSource (S : Type) : Type := {
  ts_fill : S → nat → S * option (list Z)
}.

Definition fill_from_slice {E} (src : list Z) (n : nat) : res E (option (list Z)) :=
  if (length src <? n)%nat then Ok None
  else s ← slice_idx src 0 n; mret (Some s).

(** [impl TokenSource for &[u8]]: a filled request is cut off the slice. *)
#[export] Instance slice_source : TokenSource (list Z) := {
  ts_fill src n :=
    match fill_from_slice (E:=unit) src n with
    | Ok (Some s) => (drop n src, Some s)
    | _ => (src, None)
    end
}.

Definition Token_mint {E} (len : nat) (entropy : list Z) : res E (option Token) :=
  if (len =? 0)%nat then Ok (Some Token_EMPTY)
  else if (Token_MAX_LEN <? len)%nat || (length entropy <? len)%nat then Ok None
  else
    s ← slice_idx entropy 0 len;
    t ← Token_from_checked s;
    mret (Some t).

Section mint_from.
  Context {S : Type} `{TokenSource S}.

Definition Token_mint_from {E} (len : nat) (source : S) : S * res E (option Token) :=
  if (len =? 0)%nat then (source, Ok (Some Token_EMPTY))
  else if (Token_MAX_LEN <? len)%nat then (source, Ok None)
  else
    match ts_fill source len with
    | (source, None) => (source, Ok None)
    | (source, Some dest) =>
        (source, t ← Token_from_checked dest; mret (Some t))
    end.
End mint_from.

(** ** Theorems *)
Lemma Ids_take_n_spec (n : nat) (start : Z) :
  Ids_take_n n (mkIds start) =
  (mkIds (if decide (n = 0%nat) then start else (start + Z.of_nat n) mod 2 ^ 16),
   map (fun k => if decide (k = 0%nat) then start else (start + Z.of_nat k) mod 2 ^ 16) (seq 0 n)).
Proof.
  revert start. induction n as [|n IH]; intros start; [done|].
  cbn [Ids_take_n Ids_take ids_next]. rewrite IH.
  unfold wrapping_add, wrap. f_equal.
  - f_equal. destruct n as [|n]; [done|]. rewrite !decide_False by done.
    rewrite Zplus_mod_idemp_l. f_equal. lia.
  - cbn [seq map]. f_equal. rewrite <- seq_shift, map_map. apply map_ext_in. intros k _.
    rewrite (decide_False (P := S k = 0%nat)) by done.
    destruct (decide (k = 0%nat)) as [->|Hk]; [done|].
    rewrite Zplus_mod_idemp_l. f_equal. lia.
Qed.

(** Message IDs.  From any start, the sequence counts up modulo 65536, and
    any 65536 consecutive IDs are pairwise different. *)
Theorem ids_unique (start : Z) (n : nat) :
  in_u 16 start → (Z.of_nat n ≤ 65536) →
  (Ids_take_n n (Ids_new start)).2 = map (fun k => (start + Z.of_nat k) mod 65536) (seq 0 n) ∧
  NoDup (Ids_take_n n (Ids_new start)).2.
Proof.
  intros Hs Hn. unfold in_u in Hs. unfold Ids_new. rewrite Ids_take_n_spec. cbn [snd].
  assert (map (fun k => if decide (k = 0%nat) then start else (start + Z.of_nat k) mod 2 ^ 16) (seq 0 n) =
    map (fun k => (start + Z.of_nat k) mod 65536) (seq 0 n)) as ->.
  { apply map_ext. intros k. case_decide as Hk; [|done]. subst. rewrite Z.add_0_r.
    by rewrite Z.mod_small by lia. }
  split; [done|]. apply NoDup_fmap_2_strong; [|apply NoDup_seq].
  intros x y Hx%elem_of_seq Hy%elem_of_seq Heq. div_lia.
Qed.

(** A request takes one Message ID if it is confirmable or
    non-confirmable, and none otherwise. *)
Theorem ids_request_spec (ids : Ids) (ty : MType) (code : Code) (token : Token) :
  let '(ids', m) := Ids_request ids ty code token in
  match ty with
  | Confirmable | NonConfirmable =>
      ids' = mkIds ((ids_next ids + 1) mod 65536) ∧
      m = Some (mkMessage _ ty code (Ids_peek ids) token [] [])
  | Acknowledgement | Reset => ids' = ids ∧ m = None
  end.
Proof. by destruct ty. Qed.

(** Minting.  A token of length [len] is minted exactly when [len] is at
    most eight and the source has that many bytes, and then it is their first
    [len] bytes; a slice source loses exactly these bytes. *)
Theorem mint_from_slice (len : nat) (entropy : list Z) :
  let '(rest, r) := Token_mint_from (E:=unit) len entropy in
  if (len <=? 8)%nat && (len <=? length entropy)%nat then
    rest = drop len entropy ∧
    ∃ t, r = Ok (Some t) ∧ Token_as_bytes (E:=unit) t = Ok (take len entropy) ∧
      Token_mint (E:=unit) len entropy = Ok (Some t)
  else rest = entropy ∧ r = Ok None ∧ Token_mint (E:=unit) len entropy = Ok None.
Proof.
  unfold Token_mint_from, Token_mint, Token_MAX_LEN. destruct len as [|len].
  { simpl. split; [done|]. eexists. split; [done|]. split; [|done]. by rewrite take_0. }
  cbn [Nat.eqb]. set (n := S len).
  destruct (8 <? n)%nat eqn:E8; bools.
  { by rewrite (proj2 (Nat.leb_gt n 8)) by lia. }
  rewrite (proj2 (Nat.leb_le n 8)) by lia. cbn [andb orb]. simpl (ts_fill _ _). unfold fill_from_slice.
  destruct (length entropy <? n)%nat eqn:El; bools.
  { by rewrite (proj2 (Nat.leb_gt n _)) by lia. }
  rewrite (proj2 (Nat.leb_le n _)) by lia.
  rewrite !slice_idx_prefix by lia. unbind.
  destruct (Token_from_checked_ok (E:=unit) (take n entropy)) as (t & Ht & _ & Hb);
    [rewrite length_take; lia|].
  rewrite Ht. split; [done|]. exists t. split; [done|]. split; [apply Hb|done].
Qed.

Lemma ids_unique_witness : NoDup (Ids_take_n 5 (Ids_new 65534)).2.
Proof. apply (ids_unique 65534 5); [by vm_compute|lia]. Defined.
