(* ===== verification/Occupancy.v ===== *)
(** * Rotating slot occupancy

    [src/storage/occupancy.rs]: the slot allocator under every pool and table,
    for the compile-time ([Occupancy]) and the heap ([HeapOccupancy]) backend
    alike; the number of slots is the length of the flag array.  [acquire] is
    proved to be a first-fit search in cursor order, and a sequence of
    operations to keep the live counter, the cursor and the pins consistent. *)
From S2P Require Import Prelude Errors.

(** Slot identifiers are indices. *)
Abbreviation SlotId := nat (only parsing).

(** ** Searching for a free slot *)
Definition CHUNK : nat := 32.

(** [as_chunks::<CHUNK>()]: full chunks and the rest. *)
Fixpoint as_chunks (fuel : nat) (l : list bool) : list (list bool) * list bool :=
  match fuel with
  | O => ([], l)
  | S fuel =>
      if (length l <? CHUNK)%nat then ([], l)
      else
        let '(chunks, tail) := as_chunks fuel (drop CHUNK l) in
        (take CHUNK l :: chunks, tail)
  end.

(** The [for (index, chunk)] loop; [Some r] is an early [return r]. *)
Fixpoint first_free_chunks (index : nat) (chunks : list (list bool)) : option (option nat) :=
  match chunks with
  | [] => None
  | chunk :: chunks =>
      if negb (eqb chunk (replicate CHUNK true)) then
        Some ((fun i => (index * CHUNK + i)%nat) <$> position negb chunk)
      else first_free_chunks (S index) chunks
  end.

Definition first_free (occupied : list bool) : option nat :=
  if (length occupied <? CHUNK)%nat then position negb occupied
  else
    let '(chunks, tail) := as_chunks (length occupied) occupied in
    match first_free_chunks 0 chunks with
    | Some r => r
    | None => (fun i => (length occupied - length tail + i)%nat) <$> position negb tail
    end.

(** ** The state: flags, pins, cursor and live counter *)
Record Occupancy : Type := mkOcc {
  oc_occupied : list bool;
  oc_pinned : list bool;
  oc_cursor : nat;
  oc_count : nat
}.

Definition Occupancy_new (n pins : nat) : Occupancy :=
  mkOcc (replicate n false) (replicate pins false) 0 0.

(** The free function [acquire] on the three arrays. *)
Definition acquire_slot {E} (occupied pinned : list bool) (cursor : nat)
    : res E (list bool * list bool * nat * option SlotId) :=
  let n := length occupied in
  if (n =? 0)%nat then Ok (occupied, pinned, cursor, None)
  else
    let start := cursor in
    b ← idx occupied start;
    let i := if negb b then Some start
             else match (fun offset => (start + offset)%nat) <$> first_free (drop start occupied) with
                  | Some i => Some i
                  | None => first_free (take start occupied)
                  end in
    match i with
    | None => Ok (occupied, pinned, cursor, None)
    | Some i =>
        occupied ← set_idx i true occupied;
        let pinned := <[i := false]> pinned in
        let cursor := if (i + 1 =? n)%nat then 0%nat else (i + 1)%nat in
        mret (occupied, pinned, cursor, Some i)
    end.

Definition occupied_flags (occupied : list bool) : nat := length (filter (eq true) occupied).

Definition Occupancy_acquire {E} (o : Occupancy) : res E (Occupancy * option SlotId) :=
  if (oc_count o =? length (oc_occupied o))%nat then Ok (o, None)
  else
    '(occupied, pinned, cursor, r) ← acquire_slot (oc_occupied o) (oc_pinned o) (oc_cursor o);
    match r with
    | None => mret (mkOcc occupied pinned cursor (oc_count o), None)
    | Some id =>
        let count := S (oc_count o) in
        if negb (count =? occupied_flags occupied)%nat then Panic
        else mret (mkOcc occupied pinned cursor count, Some id)
    end.

Definition Occupancy_release (o : Occupancy) (id : SlotId) : res SlotError Occupancy :=
  match oc_occupied o !! id with
  | None => Err InvalidSlot
  | Some slot =>
      if negb slot then Err NotOccupied
      else if default false (oc_pinned o !! id) then Err Pinned
      else
        let occupied := <[id := false]> (oc_occupied o) in
        match usize_checked_sub (oc_count o) 1 with
        | None => Panic
        | Some count =>
            if negb (count =? occupied_flags occupied)%nat then Panic
            else Ok (mkOcc occupied (oc_pinned o) (oc_cursor o) count)
        end
  end.

Definition Occupancy_try_pin (o : Occupancy) (id : SlotId) : res SlotError Occupancy :=
  match oc_occupied o !! id with
  | None => Err InvalidSlot
  | Some occ =>
      if negb occ then Err NotOccupied
      else
        match oc_pinned o !! id with
        | None => Err InvalidSlot
        | Some pin =>
            if pin : bool then Err Pinned
            else Ok (mkOcc (oc_occupied o) (<[id := true]> (oc_pinned o)) (oc_cursor o) (oc_count o))
        end
  end.

(** [pin_flag_mut]: [Access] keeps the flag and clears it when dropped. *)
Definition Occupancy_unpin (o : Occupancy) (id : SlotId) : Occupancy :=
  mkOcc (oc_occupied o) (<[id := false]> (oc_pinned o)) (oc_cursor o) (oc_count o).

Definition Occupancy_is_pinned (o : Occupancy) (id : SlotId) : bool := default false (oc_pinned o !! id).
Definition Occupancy_is_occupied (o : Occupancy) (id : SlotId) : bool :=
  default false (oc_occupied o !! id).

Definition Occupancy_set_cursor (o : Occupancy) (cursor : nat) : Occupancy :=
  if (length (oc_occupied o) =? 0)%nat then o
  else mkOcc (oc_occupied o) (oc_pinned o) (cursor mod length (oc_occupied o)) (oc_count o).

Definition Occupancy_advance (o : Occupancy) (steps : nat) : Occupancy :=
  if (length (oc_occupied o) =? 0)%nat then o
  else Occupancy_set_cursor o (oc_cursor o + steps mod length (oc_occupied o)).

(** ** The chunked search is the linear search *)
Lemma position_all_true (l : list bool) : position negb l = None ↔ l = replicate (length l) true.
Proof.
  rewrite position_None. split.
  - induction 1 as [|b l Hb Hl IH]; [done|]. simpl. destruct b; [by rewrite <- IH|done].
  - intros ->. apply Forall_replicate. done.
Qed.

Lemma as_chunks_concat (fuel : nat) (l : list bool) :
  let '(chunks, tail) := as_chunks fuel l in
  l = concat chunks ++ tail ∧ Forall (fun c => length c = CHUNK) chunks.
Proof.
  revert l. induction fuel as [|fuel IH]; intros l; simpl; [by split|].
  destruct (length l <? CHUNK)%nat eqn:E; [by split|]. bools.
  specialize (IH (drop CHUNK l)). destruct (as_chunks fuel (drop CHUNK l)) as [chunks tail].
  destruct IH as [Hc Hf]. cbn [concat]. split.
  - rewrite <- app_assoc, <- Hc. by rewrite take_drop.
  - constructor; [|done]. rewrite length_take. lia.
Qed.

Lemma first_free_chunks_spec (chunks : list (list bool)) (index : nat) :
  Forall (fun c => length c = CHUNK) chunks →
  first_free_chunks index chunks =
  match position negb (concat chunks) with
  | Some i => Some (Some (index * CHUNK + i)%nat)
  | None => None
  end.
Proof.
  revert index. induction chunks as [|c chunks IH]; intros index Hf; [done|].
  apply Forall_cons in Hf as [Hc Hf]. cbn [first_free_chunks concat]. rewrite position_app.
  destruct (eqb c (replicate CHUNK true)) eqn:Ee; bools; cbn [negb].
  - rewrite IH by done. rewrite (proj2 (position_all_true c)) by (by rewrite Hc).
    destruct (position negb (concat chunks)) as [i|]; [|done].
    cbn [fmap option_fmap option_map]. rewrite Hc. do 2 f_equal. lia.
  - destruct (position negb c) as [i|] eqn:Ep; [done|].
    apply position_all_true in Ep. rewrite Hc in Ep. done.
Qed.

(** [first_free], which compares whole chunks of 32 flags, is the linear
    search for the first free slot. *)
Lemma first_free_linear (occupied : list bool) : first_free occupied = position negb occupied.
Proof.
  unfold first_free. destruct (length occupied <? CHUNK)%nat; [done|].
  pose proof (as_chunks_concat (length occupied) occupied) as Hc.
  destruct (as_chunks (length occupied) occupied) as [chunks tail]. destruct Hc as [Hl Hf].
  rewrite first_free_chunks_spec by done.
  replace (position negb occupied) with (position negb (concat chunks ++ tail)) by (by rewrite <- Hl).
  rewrite position_app.
  destruct (position negb (concat chunks)) as [i|]; [done|].
  assert (length occupied - length tail = length (concat chunks))%nat as ->; [|done].
  rewrite Hl, length_app. lia.
Qed.

(** ** Invariant *)
Definition occ_inv (o : Occupancy) : Prop :=
  oc_count o = occupied_flags (oc_occupied o) ∧
  (oc_cursor o < length (oc_occupied o) ∨ length (oc_occupied o) = 0 ∧ oc_cursor o = 0)%nat ∧
  (length (oc_pinned o) ≤ length (oc_occupied o))%nat ∧
  ∀ i, oc_pinned o !! i = Some true → oc_occupied o !! i = Some true.

(** Steps from the cursor up to slot [j], wrapping at [n]. *)
Definition cyclic_dist (n cursor j : nat) : nat :=
  if (cursor <=? j)%nat then (j - cursor)%nat else (j + n - cursor)%nat.

Lemma occupied_flags_cons (b : bool) (l : list bool) :
  occupied_flags (b :: l) = ((if b then 1 else 0) + occupied_flags l)%nat.
Proof. unfold occupied_flags. rewrite filter_cons. by destruct b. Qed.

Lemma occupied_flags_insert (l : list bool) (i : nat) (b c : bool) :
  l !! i = Some c →
  (occupied_flags (<[i := b]> l) + (if c then 1 else 0) =
   occupied_flags l + (if b then 1 else 0))%nat.
Proof.
  revert i. induction l as [|x l IH]; intros [|i] Hi; simplify_eq/=.
  - rewrite !occupied_flags_cons. lia.
  - rewrite !occupied_flags_cons. specialize (IH i Hi). lia.
Qed.

Lemma occupied_flags_full (l : list bool) :
  occupied_flags l = length l ↔ position negb l = None.
Proof.
  rewrite position_None. induction l as [|b l IH]; [by split; [constructor|]|].
  rewrite occupied_flags_cons, Forall_cons, <- IH. cbn [length].
  assert (occupied_flags l ≤ length l)%nat by (unfold occupied_flags; apply length_filter).
  destruct b; simpl; intuition lia.
Qed.

(** [i] is the free slot nearest to the cursor. *)
Definition nearest_free (occupied : list bool) (cursor i : nat) : Prop :=
  occupied !! i = Some false ∧
  ∀ j, occupied !! j = Some false →
    (cyclic_dist (length occupied) cursor i ≤ cyclic_dist (length occupied) cursor j)%nat.

Lemma position_negb_Some (l : list bool) i :
  position negb l = Some i ↔ l !! i = Some false ∧ ∀ j, (j < i)%nat → l !! j ≠ Some false.
Proof.
  rewrite position_Some. split.
  - intros [(b & Hb & Hn) Hmin]. destruct b; [done|]. split; [done|].
    intros j Hj Hf. by specialize (Hmin j false Hj Hf).
  - intros [Hi Hmin]. split; [by exists false|]. intros j [] Hj Hl; [done|]. by destruct (Hmin j Hj).
Qed.

Lemma position_negb_None (l : list bool) : position negb l = None ↔ ∀ j, l !! j ≠ Some false.
Proof.
  rewrite position_None, Forall_lookup. split.
  - intros H j Hj. by specialize (H j false Hj).
  - intros H j [] Hj; [done|]. by destruct (H j).
Qed.

(** The two-range search of [acquire] when the slot at the cursor is used. *)
Lemma search_upper (occupied : list bool) (cursor off : nat) :
  position negb (drop cursor occupied) = Some off → nearest_free occupied cursor (cursor + off).
Proof.
  intros [Hoff Hmin]%position_negb_Some. rewrite lookup_drop in Hoff. split; [done|].
  intros j Hj. pose proof (lookup_lt_Some _ _ _ Hoff). unfold cyclic_dist.
  rewrite (proj2 (Nat.leb_le _ _)) by lia.
  destruct (cursor <=? j)%nat eqn:El; bools; [|lia].
  destruct (decide (j < cursor + off)%nat) as [Hlt|]; [|lia].
  destruct (Hmin (j - cursor)%nat); [lia|]. rewrite lookup_drop.
  by replace (cursor + (j - cursor))%nat with j by lia.
Qed.

Lemma free_above (occupied : list bool) (cursor j : nat) :
  position negb (drop cursor occupied) = None → occupied !! j = Some false → (j < cursor)%nat.
Proof.
  intros Hn Hj. destruct (decide (j < cursor)%nat) as [|Hge]; [done|].
  destruct (proj1 (position_negb_None _) Hn (j - cursor)%nat). rewrite lookup_drop.
  by replace (cursor + (j - cursor))%nat with j by lia.
Qed.

Lemma search_lower (occupied : list bool) (cursor i : nat) :
  position negb (drop cursor occupied) = None →
  position negb (take cursor occupied) = Some i → nearest_free occupied cursor i.
Proof.
  intros Hn [Hi Hmin]%position_negb_Some. apply lookup_take_Some in Hi as [Hi Hlt].
  split; [done|]. intros j Hj. pose proof (free_above _ _ _ Hn Hj) as Hjc. unfold cyclic_dist.
  rewrite !(proj2 (Nat.leb_gt _ _)) by done.
  destruct (decide (j < i)%nat) as [Hji|]; [|lia]. destruct (Hmin j Hji). by apply lookup_take_Some.
Qed.

Lemma search_none (occupied : list bool) (cursor : nat) :
  position negb (drop cursor occupied) = None → position negb (take cursor occupied) = None →
  ∀ j, occupied !! j ≠ Some false.
Proof.
  intros Hd Ht j Hj. pose proof (free_above _ _ _ Hd Hj).
  by destruct (proj1 (position_negb_None _) Ht j); apply lookup_take_Some.
Qed.

(** The free function [acquire]: the nearest free slot, or nothing changes. *)
Lemma acquire_slot_spec {E} (occupied pinned : list bool) (cursor : nat) :
  (cursor < length occupied)%nat →
  (∃ i, nearest_free occupied cursor i ∧
    acquire_slot (E:=E) occupied pinned cursor =
      Ok (<[i := true]> occupied, <[i := false]> pinned,
          if (i + 1 =? length occupied)%nat then 0%nat else (i + 1)%nat, Some i)) ∨
  (∀ j, occupied !! j ≠ Some false) ∧
    acquire_slot (E:=E) occupied pinned cursor = Ok (occupied, pinned, cursor, None).
Proof.
  intros Hc. unfold acquire_slot. rewrite (proj2 (Nat.eqb_neq _ _)) by lia.
  destruct (lookup_lt_is_Some_2 occupied cursor Hc) as [b Hb]. unfold idx. rewrite Hb. unbind.
  rewrite !first_free_linear. set (r := if negb b then _ else _).
  assert ((∃ i, r = Some i ∧ nearest_free occupied cursor i) ∨
    (r = None ∧ ∀ j, occupied !! j ≠ Some false)) as [(i & -> & Hn)|[-> Hn]].
  { unfold r. destruct b; cbn [negb].
    - destruct (position negb (drop cursor occupied)) as [off|] eqn:Ed.
      + left. eexists. split; [done|]. by apply search_upper.
      + destruct (position negb (take cursor occupied)) as [i|] eqn:Et.
        * left. exists i. split; [done|]. by apply search_lower.
        * right. split; [done|]. by apply (search_none _ cursor).
    - left. exists cursor. split; [done|]. split; [done|]. intros j _. unfold cyclic_dist.
      rewrite Nat.leb_refl. lia. }
  - left. exists i. split; [done|]. unfold set_idx.
    rewrite (proj2 (Nat.ltb_lt _ _)); [done|]. destruct Hn as [Hi _]. by eapply lookup_lt_Some.
  - by right.
Qed.

(** ** Operations keep the invariant *)
Lemma pinned_insert (o : Occupancy) i b :
  (∀ j, oc_pinned o !! j = Some true → oc_occupied o !! j = Some true) →
  ∀ j, <[i := false]> (oc_pinned o) !! j = Some true → <[i := b]> (oc_occupied o) !! j = Some true.
Proof.
  intros Hp j Hj. destruct (decide (i = j)) as [->|Hne].
  - apply list_lookup_insert_Some in Hj as [(_ & ? & _)|[? _]]; done.
  - rewrite list_lookup_insert_ne in * by done. auto.
Qed.

(** Every outcome of [acquire]. *)
Lemma acquire_outcome {E} (o : Occupancy) :
  occ_inv o →
  match Occupancy_acquire (E:=E) o with
  | Ok (o', Some i) =>
      nearest_free (oc_occupied o) (oc_cursor o) i ∧ occ_inv o' ∧
      oc_occupied o' = <[i := true]> (oc_occupied o) ∧ oc_pinned o' = <[i := false]> (oc_pinned o) ∧
      oc_cursor o' = ((i + 1) mod length (oc_occupied o))%nat ∧ oc_count o' = S (oc_count o)
  | Ok (o', None) => o' = o ∧ ∀ i, Occupancy_is_occupied o i = (i <? length (oc_occupied o))%nat
  | _ => False
  end.
Proof.
  intros (Hcnt & Hcur & Hpl & Hpin). unfold Occupancy_acquire.
  destruct (oc_count o =? length (oc_occupied o))%nat eqn:Ef; bools.
  { split; [done|]. intros i. unfold Occupancy_is_occupied. rewrite Hcnt in Ef.
    apply occupied_flags_full in Ef. pose proof (proj1 (position_negb_None _) Ef i) as Hi.
    destruct (oc_occupied o !! i) as [[]|] eqn:El; simpl; [|done|].
    - symmetry. apply Nat.ltb_lt. by eapply lookup_lt_Some.
    - symmetry. apply Nat.ltb_ge. by apply lookup_ge_None. }
  assert (oc_cursor o < length (oc_occupied o))%nat as Hlt.
  { destruct Hcur as [|[H0 _]]; [done|]. rewrite Hcnt in Ef. apply nil_length_inv in H0.
    by rewrite H0 in Ef. }
  destruct (acquire_slot_spec (E:=E) _ (oc_pinned o) _ Hlt) as [(i & Hn & ->)|[Hall ->]].
  2: { exfalso. apply Ef. rewrite Hcnt. by apply occupied_flags_full, position_negb_None. }
  unbind. pose proof Hn as [Hi _]. pose proof (lookup_lt_Some _ _ _ Hi) as Hil.
  pose proof (occupied_flags_insert _ _ true _ Hi) as Hfl. cbv iota in Hfl.
  rewrite (proj2 (Nat.eqb_eq _ _)) by lia. cbn [negb].
  assert ((if (i + 1 =? length (oc_occupied o))%nat then 0 else i + 1) =
    (i + 1) mod length (oc_occupied o))%nat as Hmod.
  { destruct (i + 1 =? _)%nat eqn:E1; bools; [by rewrite E1, Nat.Div0.mod_same|].
    by rewrite Nat.mod_small by lia. }
  split; [done|]. split_and!; try done. unfold occ_inv.
  cbn [oc_count oc_occupied oc_cursor oc_pinned]. rewrite Hmod, !length_insert.
  split_and!; [lia| |done|].
  - left. apply Nat.mod_upper_bound. lia.
  - by apply pinned_insert.
Qed.

(** [acquire] takes the free slot nearest to the cursor, going up and
    wrapping around, unpins it, moves the cursor behind it and keeps the
    invariant; it fails, changing nothing, exactly when every slot is used. *)
Theorem acquire_nearest (o : Occupancy) :
  occ_inv o →
  match Occupancy_acquire (E:=SlotError) o with
  | Ok (o', Some i) =>
      nearest_free (oc_occupied o) (oc_cursor o) i ∧ occ_inv o' ∧
      oc_occupied o' = <[i := true]> (oc_occupied o) ∧ oc_pinned o' = <[i := false]> (oc_pinned o) ∧
      oc_cursor o' = ((i + 1) mod length (oc_occupied o))%nat ∧ oc_count o' = S (oc_count o)
  | Ok (o', None) => o' = o ∧ ∀ i, Occupancy_is_occupied o i = (i <? length (oc_occupied o))%nat
  | _ => False
  end.
Proof. apply acquire_outcome. Qed.

(** Every outcome of [release]. *)
Lemma release_all (o : Occupancy) (id : SlotId) :
  occ_inv o →
  match Occupancy_release o id with
  | Ok o' =>
      Occupancy_is_occupied o id = true ∧ Occupancy_is_pinned o id = false ∧ occ_inv o' ∧
      o' = mkOcc (<[id := false]> (oc_occupied o)) (oc_pinned o) (oc_cursor o) (oc_count o - 1) ∧
      (0 < oc_count o)%nat
  | Err InvalidSlot => (length (oc_occupied o) ≤ id)%nat
  | Err NotOccupied => oc_occupied o !! id = Some false
  | Err Pinned => Occupancy_is_pinned o id = true ∧ Occupancy_is_occupied o id = true
  | Err LengthExceedsSlot | Panic | Diverge => False
  end.
Proof.
  intros (Hcnt & Hcur & Hpl & Hpin).
  unfold Occupancy_release, Occupancy_is_occupied, Occupancy_is_pinned.
  destruct (oc_occupied o !! id) as [[]|] eqn:El; cbn [negb]; [|done|by apply lookup_ge_None].
  destruct (default false (oc_pinned o !! id)) eqn:Ep; [done|].
  pose proof (occupied_flags_insert _ _ false _ El) as Hfl. cbv iota in Hfl.
  rewrite usize_checked_sub_ok by lia.
  replace (oc_count o - 1 =? occupied_flags (<[id:=false]> (oc_occupied o)))%nat with true
    by (symmetry; apply Nat.eqb_eq; lia).
  cbn [negb]. split_and!; try done; try lia.
  unfold occ_inv. cbn [oc_count oc_occupied oc_cursor oc_pinned]. rewrite !length_insert.
  split_and!; [lia|done|done|]. intros j Hj. destruct (decide (id = j)) as [->|Hne].
  - by rewrite Hj in Ep.
  - rewrite list_lookup_insert_ne by done. auto.
Qed.

Lemma release_inv (o o' : Occupancy) (id : SlotId) :
  occ_inv o → Occupancy_release o id = Ok o' →
  occ_inv o' ∧ Occupancy_is_pinned o id = false ∧ oc_pinned o' = oc_pinned o ∧
  oc_occupied o' = <[id := false]> (oc_occupied o).
Proof.
  intros Ho Hr. pose proof (release_all o id Ho) as H. rewrite Hr in H.
  by destruct H as (_ & Hp & Hi & -> & _).
Qed.

(** Every outcome of [release], which refuses unknown, free and pinned
    slots and otherwise frees exactly that slot, and keeps the invariant. *)
Theorem release_outcome (o : Occupancy) (id : SlotId) :
  occ_inv o →
  match Occupancy_release o id with
  | Ok o' =>
      Occupancy_is_occupied o id = true ∧ Occupancy_is_pinned o id = false ∧ occ_inv o' ∧
      o' = mkOcc (<[id := false]> (oc_occupied o)) (oc_pinned o) (oc_cursor o) (oc_count o - 1) ∧
      (0 < oc_count o)%nat
  | Err InvalidSlot => (length (oc_occupied o) ≤ id)%nat
  | Err NotOccupied => oc_occupied o !! id = Some false
  | Err Pinned => Occupancy_is_pinned o id = true ∧ Occupancy_is_occupied o id = true
  | Err LengthExceedsSlot | Panic | Diverge => False
  end.
Proof. apply release_all. Qed.

Lemma try_pin_inv (o o' : Occupancy) (id : SlotId) :
  occ_inv o → Occupancy_try_pin o id = Ok o' → occ_inv o' ∧ oc_occupied o' = oc_occupied o.
Proof.
  intros (Hcnt & Hcur & Hpl & Hpin). unfold Occupancy_try_pin.
  destruct (oc_occupied o !! id) as [[]|] eqn:El; try done.
  destruct (oc_pinned o !! id) as [[]|] eqn:Ep; try done. intros [= <-]. split; [|done].
  unfold occ_inv. cbn [oc_count oc_occupied oc_cursor oc_pinned]. rewrite !length_insert.
  split_and!; try done. intros j Hj. destruct (decide (id = j)) as [->|Hne]; [done|].
  rewrite list_lookup_insert_ne in Hj by done. auto.
Qed.

Lemma unpin_inv (o : Occupancy) (id : SlotId) : occ_inv o → occ_inv (Occupancy_unpin o id).
Proof.
  intros (Hcnt & Hcur & Hpl & Hpin). unfold occ_inv, Occupancy_unpin.
  cbn [oc_count oc_occupied oc_cursor oc_pinned]. rewrite !length_insert.
  split_and!; try done. intros j Hj. apply list_lookup_insert_Some in Hj as [(_ & ? & _)|[_ Hj]]; [done|auto].
Qed.

Lemma set_cursor_inv (o : Occupancy) (c : nat) : occ_inv o → occ_inv (Occupancy_set_cursor o c).
Proof.
  intros (Hcnt & Hcur & Hpl & Hpin). unfold Occupancy_set_cursor.
  destruct (length (oc_occupied o) =? 0)%nat eqn:E; bools; [done|].
  unfold occ_inv. cbn [oc_count oc_occupied oc_cursor oc_pinned]. split_and!; try done.
  left. by apply Nat.mod_upper_bound.
Qed.

Lemma Occupancy_new_inv (n pins : nat) : (pins ≤ n)%nat → occ_inv (Occupancy_new n pins).
Proof.
  intros Hp. unfold occ_inv, Occupancy_new. cbn [oc_count oc_occupied oc_cursor oc_pinned].
  rewrite !length_replicate. split_and!.
  - induction n as [|n IH] in pins, Hp |- *; [done|]. simpl. rewrite occupied_flags_cons.
    apply (IH 0%nat). lia.
  - lia.
  - done.
  - intros i Hi. apply lookup_replicate in Hi as [? _]. done.
Qed.

(** One successful operation. *)
Inductive occ_step : Occupancy → Occupancy → Prop :=
  | step_acquire o o' i : Occupancy_acquire (E:=SlotError) o = Ok (o', Some i) → occ_step o o'
  | step_release o o' id : Occupancy_release o id = Ok o' → occ_step o o'
  | step_pin o o' id : Occupancy_try_pin o id = Ok o' → occ_step o o'
  | step_unpin o id : occ_step o (Occupancy_unpin o id)
  | step_cursor o c : occ_step o (Occupancy_set_cursor o c)
  | step_advance o k : occ_step o (Occupancy_advance o k).

Lemma acquire_inv (o o' : Occupancy) i :
  occ_inv o → Occupancy_acquire (E:=SlotError) o = Ok (o', Some i) →
  occ_inv o' ∧ oc_occupied o !! i = Some false ∧ oc_occupied o' = <[i := true]> (oc_occupied o) ∧
  oc_pinned o' = <[i := false]> (oc_pinned o).
Proof.
  intros Ho Ha. pose proof (acquire_outcome (E:=SlotError) o Ho) as Hr. rewrite Ha in Hr.
  destruct Hr as ([Hf _] & Hi & Hocc & Hp & _). done.
Qed.

Lemma occ_step_inv (o o' : Occupancy) : occ_inv o → occ_step o o' → occ_inv o'.
Proof.
  intros Ho. destruct 1.
  - by eapply acquire_inv.
  - by eapply release_inv.
  - by eapply try_pin_inv.
  - by apply unpin_inv.
  - by apply set_cursor_inv.
  - unfold Occupancy_advance. case_match; [done|]. by apply set_cursor_inv.
Qed.

(** A pinned slot is not touched by any step but its own unpin. *)
Lemma pinned_stays (o o' : Occupancy) i :
  occ_inv o → occ_step o o' → Occupancy_is_pinned o i = true →
  Occupancy_is_occupied o' i = true ∧ (o' = Occupancy_unpin o i ∨ Occupancy_is_pinned o' i = true).
Proof.
  intros Ho Hs Hp. unfold Occupancy_is_pinned, Occupancy_is_occupied in *.
  assert (Hpi : oc_pinned o !! i = Some true) by (by destruct (oc_pinned o !! i) as [[]|]).
  pose proof Ho as (_ & _ & _ & Hpin). pose proof (Hpin i Hpi) as Hoi.
  destruct Hs as [o o' j Ha|o o' j Hr|o o' j Ht|o j|o c|o k].
  - apply acquire_inv in Ha as (_ & Hj & -> & ->); [|done].
    assert (i ≠ j) by congruence. rewrite !list_lookup_insert_ne by done. rewrite Hpi, Hoi. auto.
  - apply release_inv in Hr as (_ & Hnp & -> & ->); [|done].
    assert (i ≠ j). { intros ->. unfold Occupancy_is_pinned in Hnp. by rewrite Hpi in Hnp. }
    rewrite !list_lookup_insert_ne by done. rewrite Hpi, Hoi. auto.
  - pose proof Ht as Ht'. apply try_pin_inv in Ht' as [_ ->]; [|done]. split; [by rewrite Hoi|].
    right. unfold Occupancy_try_pin in Ht.
    destruct (oc_occupied o !! j) as [[]|]; try done. destruct (oc_pinned o !! j) as [[]|] eqn:Ej; try done.
    injection Ht as <-. simpl. assert (i ≠ j) by congruence. by rewrite list_lookup_insert_ne, Hpi.
  - simpl. rewrite Hoi. split; [done|]. destruct (decide (i = j)) as [->|Hne]; [by left|].
    right. by rewrite list_lookup_insert_ne, Hpi.
  - unfold Occupancy_set_cursor. case_match; simpl; rewrite Hpi, Hoi; auto.
  - unfold Occupancy_advance, Occupancy_set_cursor. repeat case_match; simpl; rewrite Hpi, Hoi; auto.
Qed.

(** In every state an allocator can reach, the live counter is the number
    of used slots, the cursor is in range and every pinned slot is used; no
    acquire or release panics; and a pinned slot stays used and pinned under
    every step but its own unpin. *)
Theorem occ_reachable (n pins : nat) (o : Occupancy) :
  (pins ≤ n)%nat → rtc occ_step (Occupancy_new n pins) o →
  occ_inv o ∧ (∀ id, returns (Occupancy_release o id)) ∧
  returns (Occupancy_acquire (E:=SlotError) o) ∧
  ∀ o' i, occ_step o o' → Occupancy_is_pinned o i = true →
    Occupancy_is_occupied o' i = true ∧
    (o' = Occupancy_unpin o i ∨ Occupancy_is_pinned o' i = true).
Proof.
  intros Hp Hr. assert (Ho : occ_inv o).
  { eapply (rtc_ind_r occ_inv); [by apply Occupancy_new_inv| |exact Hr].
    intros y z _ Hs Hy. by eapply occ_step_inv. }
  split; [done|]. split; [|split].
  - intros id. pose proof (release_all o id Ho) as H. by destruct (Occupancy_release o id) as [|[]| |].
  - pose proof (acquire_outcome (E:=SlotError) o Ho) as H. by destruct (Occupancy_acquire o) as [[? []]| | |].
  - intros o' i Hs. by apply pinned_stays.
Qed.

(** ** Witnesses: three slots, the first taken and pinned *)
Definition ex_occ : Occupancy := mkOcc [true; false; true] [true; false; false] 2 2.

Lemma ex_occ_inv : occ_inv ex_occ.
Proof.
  split_and!; [done|simpl; lia|simpl; lia|]. intros [|[|[|i]]] Hi; by simplify_eq/=.
Defined.

Lemma acquire_nearest_witness :
  match Occupancy_acquire (E:=SlotError) ex_occ with
  | Ok (o', Some i) => nearest_free (oc_occupied ex_occ) (oc_cursor ex_occ) i
  | _ => False
  end.
Proof.
  pose proof (acquire_nearest ex_occ ex_occ_inv) as H.
  change (Occupancy_acquire (E:=SlotError) ex_occ) with
    (Ok (E:=SlotError) (mkOcc [true; true; true] [true; false; false] 2 3, Some 1%nat)) in *.
  apply H.
Defined.

Lemma release_outcome_witness :
  match Occupancy_release ex_occ 0 with
  | Err Pinned => Occupancy_is_pinned ex_occ 0 = true ∧ Occupancy_is_occupied ex_occ 0 = true
  | _ => False
  end.
Proof. apply (release_outcome ex_occ 0 ex_occ_inv). Defined.

Lemma occ_reachable_witness :
  ∃ o, rtc occ_step (Occupancy_new 2 2) o ∧ oc_occupied o = [true; false] ∧ occ_inv o.
Proof.
  assert (rtc occ_step (Occupancy_new 2 2) (mkOcc [true; false] [false; false] 1 1)) as Hr.
  { eapply rtc_l; [by eapply (step_acquire _ _ 0)|apply rtc_refl]. }
  eexists. split; [exact Hr|]. split; [done|].
  apply (occ_reachable 2 2 (mkOcc [true; false] [false; false] 1 1) ltac:(lia) Hr).
Defined.
