(* ===== verification/Pending.v ===== *)
(** * Peers, pending confirmable messages and their timers

    [src/storage/endpoint.rs] and the pure half of [src/storage/pending.rs]:
    the peer identity, the retransmission timer [PendingRto] with its
    exponential back-off, the selection of a due timer in cursor order, the
    NSTART admission test and the checks that precede an in-place replacement.
    The operations on slots are in [PendingCons]. *)
From S2P Require Import Prelude Errors MsgTypes Options Decode Occupancy.

(** ** Endpoint *)
Record Endpoint : Type := mkEndpoint {
  ep_octets : list Z;
  ep_scope : Z;
  ep_association : Z;
  ep_port : Z;
  ep_ipv6 : bool
}.
#[export] Instance Endpoint_eq_dec : EqDecision Endpoint.
Proof. solve_decision. Defined.

(** The physical address: the association namespace is dropped. *)
Definition Endpoint_physical (e : Endpoint) : Endpoint :=
  mkEndpoint (ep_octets e) (ep_scope e) 0 (ep_port e) (ep_ipv6 e).

Definition Endpoint_with_association (e : Endpoint) (association : Z) : Endpoint :=
  mkEndpoint (ep_octets e) (ep_scope e) association (ep_port e) (ep_ipv6 e).

(** An array [[u8; 4]] is indexed at constants, as in the source. *)
Definition Endpoint_v4 {E} (addr : list Z) (port : Z) : res E Endpoint :=
  a ← idx addr 0; b ← idx addr 1; c ← idx addr 2; d ← idx addr 3;
  mret (mkEndpoint ([a; b; c; d] ++ replicate 12 0) 0 0 port false).

Definition Endpoint_v6_scoped (addr : list Z) (port scope_id : Z) : Endpoint :=
  mkEndpoint addr scope_id 0 port true.
Definition Endpoint_v6 (addr : list Z) (port : Z) : Endpoint := Endpoint_v6_scoped addr port 0.

Definition Endpoint_as_ipv4 {E} (e : Endpoint) : res E (option (list Z * Z)) :=
  if ep_ipv6 e then Ok None
  else
    a ← idx (ep_octets e) 0; b ← idx (ep_octets e) 1;
    c ← idx (ep_octets e) 2; d ← idx (ep_octets e) 3;
    mret (Some ([a; b; c; d], ep_port e)).

Definition Endpoint_as_ipv6 (e : Endpoint) : option (list Z * Z) :=
  if ep_ipv6 e then Some (ep_octets e, ep_port e) else None.

(** ** The retransmission timer *)
Record PendingRto : Type := mkRto {
  rto_attempts : Z;
  rto_started : bool;
  rto_next_timeout_ms : Z;
  rto_timeout_ms : Z
}.
#[export] Instance PendingRto_eq_dec : EqDecision PendingRto.
Proof. solve_decision. Defined.

Definition PendingRto_new (now_ms jitter_ms : Z) : PendingRto :=
  let timeout_ms := initial_timeout_ms jitter_ms in
  mkRto 0 true (saturating_add 64 now_ms timeout_ms) timeout_ms.

Definition PendingRto_reserved : PendingRto := mkRto 0 false 0 0.

Definition PendingRto_next_timeout_ms (r : PendingRto) : option Z :=
  if rto_started r then Some (rto_next_timeout_ms r) else None.

Definition PendingRto_is_due (r : PendingRto) (now_ms : Z) : bool :=
  rto_started r && (rto_next_timeout_ms r <=? now_ms).

Definition PendingRto_next_attempt (r : PendingRto) (now_ms : Z) : option PendingRto :=
  if negb (rto_started r) || (MAX_RETRANSMIT <=? rto_attempts r) then None
  else
    let timeout_ms := saturating_mul 32 (rto_timeout_ms r) 2 in
    Some (mkRto (saturating_add 8 (rto_attempts r) 1) true
            (saturating_add 64 now_ms timeout_ms) timeout_ms).

(** ** Pending confirmable messages *)
Record PendingCon : Type := mkPendingCon {
  pc_message_id : MessageId;
  pc_endpoint : Endpoint;
  pc_tx_slot : SlotId;
  pc_rto : PendingRto
}.
#[export] Instance MessageId_eq_dec : EqDecision MessageId := Z.eq_dec.
#[export] Instance PendingCon_eq_dec : EqDecision PendingCon.
Proof. solve_decision. Defined.

Definition PendingCon_new (message_id : MessageId) (endpoint : Endpoint) (tx_slot : SlotId)
    : PendingCon := mkPendingCon message_id endpoint tx_slot (PendingRto_new 0 0).
Definition PendingCon_with_rto (p : PendingCon) (rto : PendingRto) : PendingCon :=
  mkPendingCon (pc_message_id p) (pc_endpoint p) (pc_tx_slot p) rto.

Inductive Retransmit : Type := Due (p : PendingCon) | GiveUp (p : PendingCon).

(** Message ID and timer kept on one slot; the endpoint has its own sidecar. *)
Record PendingMark : Type := mkMark { mark_mid : MessageId; mark_rto : PendingRto }.
#[export] Instance PendingMark_eq_dec : EqDecision PendingMark.
Proof. solve_decision. Defined.

Record DueSlot : Type := mkDueSlot {
  due_id : SlotId;
  due_event : Retransmit;
  due_mark : option PendingMark
}.

Definition due_snapshot (pending : PendingCon) (now_ms : Z) : option DueSlot :=
  if negb (PendingRto_is_due (pc_rto pending) now_ms) then None
  else
    let id := pc_tx_slot pending in
    Some (match PendingRto_next_attempt (pc_rto pending) now_ms with
          | Some rto =>
              mkDueSlot id (Due (PendingCon_with_rto pending rto))
                (Some (mkMark (pc_message_id pending) rto))
          | None => mkDueSlot id (GiveUp pending) None
          end).

(** The [for] loop of [next_due_slot] over the slots still to inspect. *)
Fixpoint next_due_loop {E} (ids : list SlotId) (now_ms : Z)
    (pending_at : SlotId → res E (option PendingCon)) : res E (option DueSlot) :=
  match ids with
  | [] => Ok None
  | id :: ids =>
      pending ← pending_at id;
      match pending with
      | None => next_due_loop ids now_ms pending_at
      | Some pending =>
          match due_snapshot pending now_ms with
          | Some due => Ok (Some due)
          | None => next_due_loop ids now_ms pending_at
          end
      end
  end.

Definition next_due_slot {E} (slot_count start : nat) (now_ms : Z)
    (pending_at : SlotId → res E (option PendingCon)) : res E (option DueSlot) :=
  if (slot_count =? 0)%nat then Ok None
  else
    let start := (start mod slot_count)%nat in
    next_due_loop (seq start (slot_count - start) ++ seq 0 start) now_ms pending_at.

Fixpoint outstanding_loop {E} (ids : list SlotId) (endpoint : Endpoint)
    (pending_at : SlotId → res E (option PendingCon)) : res E nat :=
  match ids with
  | [] => Ok 0%nat
  | id :: ids =>
      pending ← pending_at id;
      count ← outstanding_loop ids endpoint pending_at;
      mret (match pending with
            | Some p =>
                if eqb (Endpoint_physical (pc_endpoint p)) (Endpoint_physical endpoint)
                then S count else count
            | None => count
            end)
  end.

Definition outstanding_pending {E} (slot_count : nat) (endpoint : Endpoint)
    (pending_at : SlotId → res E (option PendingCon)) : res E nat :=
  outstanding_loop (seq 0 slot_count) endpoint pending_at.

(** [Some false]: the same CON again; [Some true]: admitted; [None]: NSTART. *)
Definition record_admission (existing : option PendingCon) (message_id : MessageId)
    (endpoint : Endpoint) (outstanding : nat) : option bool :=
  let limit := if NSTART <=? Z.of_nat outstanding then None else Some true in
  match existing with
  | Some pending =>
      if eqb (pc_message_id pending) message_id && eqb (pc_endpoint pending) endpoint
      then Some false
      else if eqb (Endpoint_physical (pc_endpoint pending)) (Endpoint_physical endpoint)
      then Some true
      else limit
  | None => limit
  end.

(** ** Replacing a retained message *)
Inductive PendingReplaceError : Type :=
  | Stale
  | InvalidMessage
  | PRSlot (e : SlotError)
  | PRBody (e : BlockTransferError)
  | Unsupported.

Definition validate_replacement `{Target} (expected : PendingCon) (current : option PendingCon)
    (original : option (list Z)) (bytes : list Z) (capacity : nat) (pinned : bool)
    : res PendingReplaceError PendingCon :=
  if negb (eqb current (Some expected)) || negb (rto_started (pc_rto expected)) then Err Stale
  else if pinned then Err (PRSlot Pinned)
  else if (capacity <? length bytes)%nat then Err (PRSlot LengthExceedsSlot)
  else
    original ← ok_or original Stale;
    old ← map_err (fun _ => InvalidMessage) (extended_decode original);
    new ← map_err (fun _ => InvalidMessage) (extended_decode bytes);
    if negb (eqb (hdr_ty (pt_header old)) Confirmable)
       || Code_is_empty (hdr_code (pt_header old))
       || negb (eqb (hdr_id (pt_header old)) (pc_message_id expected))
       || negb (eqb (hdr_ty (pt_header new)) Confirmable)
       || Code_is_empty (hdr_code (pt_header new))
       || eqb (hdr_id (pt_header new)) (pc_message_id expected)
       || negb (eqb (pt_token new) (pt_token old))
    then Err InvalidMessage
    else mret (PendingCon_with_rto
                 (PendingCon_new (hdr_id (pt_header new)) (pc_endpoint expected) (pc_tx_slot expected))
                 (pc_rto expected)).

(** What a successful validation established. *)
Lemma validate_replacement_ok `{Target} q current original bytes cap pinned q' :
  validate_replacement q current original bytes cap pinned = Ok q' →
  current = Some q ∧ rto_started (pc_rto q) = true ∧ pinned = false ∧ (length bytes ≤ cap)%nat ∧
  pc_endpoint q' = pc_endpoint q ∧ pc_tx_slot q' = pc_tx_slot q ∧ pc_rto q' = pc_rto q ∧
  pc_message_id q' ≠ pc_message_id q ∧
  ∃ old wire new, original = Some wire ∧ extended_decode wire = Ok old ∧ extended_decode bytes = Ok new ∧
    hdr_ty (pt_header old) = Confirmable ∧ hdr_id (pt_header old) = pc_message_id q ∧
    hdr_ty (pt_header new) = Confirmable ∧ Code_is_empty (hdr_code (pt_header new)) = false ∧
    hdr_id (pt_header new) = pc_message_id q' ∧ pt_token new = pt_token old.
Proof.
  unfold validate_replacement. destruct (_ || _) eqn:E1; [done|]. bools.
  destruct pinned; [done|]. destruct (cap <? length bytes)%nat eqn:E2; [done|]. bools.
  destruct original as [wire|]; [|done]. unbind. unfold ok_or, map_err.
  destruct (extended_decode wire) as [old| | |] eqn:Eo; try done.
  destruct (extended_decode bytes) as [new| | |] eqn:En; try done.
  destruct (_ || _) eqn:E3; [done|]. intros [= <-]. bools. simpl.
  split_and!; try done. exists old, wire, new. split_and!; done.
Qed.

Lemma validate_replacement_returns `{Target} q current original bytes cap pinned :
  returns (validate_replacement q current original bytes cap pinned).
Proof.
  unfold validate_replacement. destruct (_ || _); [done|]. destruct pinned; [done|].
  destruct (cap <? length bytes)%nat; [done|]. destruct original as [wire|]; [|done]. unbind.
  unfold ok_or, map_err, extended_decode. pose proof (decode_parts_returns wire true) as R1.
  pose proof (decode_parts_returns bytes true) as R2.
  destruct (decode_parts wire true) as [old| | |]; try done.
  destruct (decode_parts bytes true) as [new| | |]; try done. by destruct (_ || _).
Qed.

(** What each refusal means. *)
Lemma validate_replacement_err `{Target} q current original bytes cap pinned e :
  validate_replacement q current original bytes cap pinned = Err e →
  match e with
  | Stale => current ≠ Some q ∨ rto_started (pc_rto q) = false ∨ original = None
  | PRSlot Pinned => pinned = true
  | PRSlot LengthExceedsSlot => (cap < length bytes)%nat
  | InvalidMessage => current = Some q
  | _ => False
  end.
Proof.
  unfold validate_replacement. destruct (_ || _) eqn:E1.
  { intros [= <-]. bools. destruct E1; bools; auto. }
  bools. destruct pinned; [by intros [= <-]|].
  destruct (cap <? length bytes)%nat eqn:E2; [intros [= <-]; by bools|].
  destruct original as [wire|]; [|intros [= <-]; auto]. unbind. unfold ok_or, map_err.
  destruct (extended_decode wire) as [old| | |]; [|by intros [= <-]|done..].
  destruct (extended_decode bytes) as [new| | |]; [|by intros [= <-]|done..].
  destruct (_ || _); [by intros [= <-]|done].
Qed.

(** ** The timer: exponential back-off, then giving up *)

(** [rto_run r ts r']: the timer [r] fires at the poll times [ts], each not
    before it is due, and is [r'] afterwards. *)
Inductive rto_run : PendingRto → list Z → PendingRto → Prop :=
  | rto_run_nil r : rto_run r [] r
  | rto_run_cons r t r1 ts r2 :
      in_u 64 t → PendingRto_is_due r t = true → PendingRto_next_attempt r t = Some r1 →
      rto_run r1 ts r2 → rto_run r (t :: ts) r2.

(** A started timer with initial timeout [T]. *)
Definition rto_ok (T : Z) (r : PendingRto) : Prop :=
  rto_started r = true ∧ 0 ≤ rto_attempts r ≤ MAX_RETRANSMIT ∧
  rto_timeout_ms r = T * 2 ^ rto_attempts r ∧ 2000 ≤ T ≤ 3000.

Lemma initial_timeout_bounds (j : Z) : 0 ≤ j → 2000 ≤ initial_timeout_ms j ≤ 3000.
Proof.
  intros Hj. unfold initial_timeout_ms, saturating_add, max_u.
  change ACK_RANDOM_SPAN_MS with 1000. change ACK_TIMEOUT_MS with 2000.
  destruct (1000 <? j) eqn:E; bools; lia.
Qed.

Lemma rto_new_ok (now j : Z) : 0 ≤ j → rto_ok (initial_timeout_ms j) (PendingRto_new now j).
Proof.
  intros Hj. unfold rto_ok, PendingRto_new; cbn [rto_started rto_attempts rto_timeout_ms].
  pose proof (initial_timeout_bounds j Hj). unfold MAX_RETRANSMIT. split_and!; lia || done.
Qed.

(** What [next_attempt] does to a timer. *)
Lemma rto_next_ok (T t : Z) (r : PendingRto) :
  rto_ok T r →
  match PendingRto_next_attempt r t with
  | Some r1 =>
      rto_attempts r < 4 ∧ rto_ok T r1 ∧ rto_attempts r1 = rto_attempts r + 1 ∧
      rto_next_timeout_ms r1 = saturating_add 64 t (rto_timeout_ms r1)
  | None => rto_attempts r = 4
  end.
Proof.
  intros (Hs & Ha & Ht & HT). unfold PendingRto_next_attempt. rewrite Hs. unfold MAX_RETRANSMIT in *.
  cbn [negb orb]. destruct (4 <=? rto_attempts r) eqn:E; bools; [lia|].
  assert (saturating_add 8 (rto_attempts r) 1 = rto_attempts r + 1) as Ha1
    by (unfold saturating_add, max_u; lia).
  assert (saturating_mul 32 (rto_timeout_ms r) 2 = T * 2 ^ (rto_attempts r + 1)) as Ht1.
  { unfold saturating_mul, max_u. rewrite Ht, Z.pow_add_r by lia.
    assert (0 < 2 ^ rto_attempts r ≤ 2 ^ 3); [|change (2 ^ 1) with 2; change (2 ^ 32) with 4294967296; nia].
    split; [apply Z.pow_pos_nonneg; lia|apply Z.pow_le_mono_r; lia]. }
  unfold rto_ok; cbn [rto_attempts rto_started rto_timeout_ms rto_next_timeout_ms].
  rewrite Ha1, Ht1. unfold MAX_RETRANSMIT. split_and!; done || lia.
Qed.

Lemma rto_run_ok (T : Z) (r r' : PendingRto) (ts : list Z) :
  rto_run r ts r' → rto_ok T r →
  rto_ok T r' ∧ rto_attempts r' = rto_attempts r + Z.of_nat (length ts).
Proof.
  induction 1 as [r|r t r1 ts r2 Ht Hd Hn Hr IH]; intros Hok; [by split; [|simpl; lia]|].
  pose proof (rto_next_ok T t r Hok) as H. rewrite Hn in H. destruct H as (_ & Hok1 & Ha & _).
  destruct (IH Hok1) as [? ?]. split; [done|]. cbn [length]. lia.
Qed.

(** One prompt poll, [k] timeouts after the start. *)
Lemma rto_run_fire (now T a a1 b b1 k k1 : Z) (ts : list Z) (r : PendingRto) :
  0 ≤ now → now + 93000 ≤ max_u 64 → 2000 ≤ T ≤ 3000 →
  0 ≤ a < 4 → 0 ≤ k → 0 < b ≤ 8 → k + 2 * b ≤ 31 →
  a1 = a + 1 → b1 = 2 * b → k1 = k + 2 * b →
  rto_run (mkRto a1 true (now + k1 * T) (b1 * T)) ts r →
  rto_run (mkRto a true (now + k * T) (b * T)) ((now + k * T) :: ts) r.
Proof.
  intros Hn Hm HT Ha Hk Hb Hkb -> -> -> Hr.
  assert (0 ≤ k * T ∧ 0 ≤ b * T ≤ 24000 ∧ (k + 2 * b) * T ≤ 93000) as (HkT & HbT & HkbT) by nia.
  econstructor; [..|exact Hr].
  - unfold in_u, max_u in *. lia.
  - unfold PendingRto_is_due. apply Z.leb_refl.
  - unfold PendingRto_next_attempt, MAX_RETRANSMIT, saturating_mul, saturating_add.
    cbn [rto_started rto_attempts rto_timeout_ms negb orb]. rewrite (proj2 (Z.leb_gt 4 a)) by lia.
    f_equal. unfold max_u in *. f_equal; lia.
Qed.

(** Polled at its deadlines, a timer fires after 1, 3, 7 and 15 timeouts. *)
Lemma rto_run_prompt (now T j : Z) :
  0 ≤ j → 0 ≤ now → now + 93000 ≤ max_u 64 → T = initial_timeout_ms j →
  rto_run (PendingRto_new now j) [now + T; now + 3 * T; now + 7 * T; now + 15 * T]
    (mkRto 4 true (now + 31 * T) (16 * T)).
Proof.
  intros Hj Hn Hm ->. pose proof (initial_timeout_bounds j Hj) as HT.
  unfold PendingRto_new. generalize dependent (initial_timeout_ms j). intros T HT.
  replace (mkRto 0 true (saturating_add 64 now T) T) with (mkRto 0 true (now + 1 * T) (1 * T))
    by (unfold saturating_add; f_equal; lia).
  replace (now + T) with (now + 1 * T) by lia.
  apply (rto_run_fire now T 0 1 1 2 1 3); [lia..|].
  apply (rto_run_fire now T 1 2 2 4 3 7); [lia..|].
  apply (rto_run_fire now T 2 3 4 8 7 15); [lia..|].
  apply (rto_run_fire now T 3 4 8 16 15 31); [lia..|]. constructor.
Qed.

(** C40: The retransmission timer of RFC 7252 section 4.2: a started timer has
    an initial timeout of 2 to 3 seconds, doubles it each time it fires, fires
    at most four times and refuses exactly the fifth attempt; polled at its
    deadlines it fires after 1, 3, 7 and 15 timeouts, the last within
    MAX_TRANSMIT_SPAN, and gives up after 31. *)
Theorem rto_backoff (now j : Z) (ts : list Z) (r : PendingRto) :
  in_u 32 j → 0 ≤ now → now + 93000 ≤ max_u 64 → rto_run (PendingRto_new now j) ts r →
  let T := initial_timeout_ms j in
  (2000 ≤ T ≤ 3000) ∧ (length ts ≤ 4)%nat ∧
  rto_attempts r = Z.of_nat (length ts) ∧ rto_timeout_ms r = T * 2 ^ Z.of_nat (length ts) ∧
  (∀ t, PendingRto_next_attempt r t = None ↔ length ts = 4%nat) ∧
  rto_run (PendingRto_new now j) [now + T; now + 3 * T; now + 7 * T; now + 15 * T]
    (mkRto 4 true (now + 31 * T) (16 * T)) ∧
  15 * T ≤ MAX_TRANSMIT_SPAN_MS.
Proof.
  intros [Hj _] Hn Hm Hr T. pose proof (rto_new_ok now j Hj) as Hok0.
  destruct (rto_run_ok T _ _ _ Hr Hok0) as [Hok Ha].
  assert (rto_attempts (PendingRto_new now j) = 0) as E0 by done. rewrite E0, Z.add_0_l in Ha.
  pose proof Hok as (_ & Hb & Ht & HT). unfold MAX_RETRANSMIT in Hb. rewrite Ha in Ht.
  split_and!; try lia; [|by apply rto_run_prompt|unfold MAX_TRANSMIT_SPAN_MS; lia].
  intros t. pose proof (rto_next_ok T t r Hok) as H.
  destruct (PendingRto_next_attempt r t); [split; [done|lia]|split; [lia|done]].
Qed.

Lemma rto_backoff_witness :
  (length ([4000; 9000]%Z) ≤ 4)%nat ∧ PendingRto_next_attempt (mkRto 2 true 17000 8000) 17000 ≠ None.
Proof.
  pose proof (rto_backoff 1000 0 [4000; 9000] (mkRto 2 true 17000 8000)) as H.
  assert (rto_run (PendingRto_new 1000 0) [4000; 9000] (mkRto 2 true 17000 8000)) as Hr.
  { repeat (econstructor; [split; reflexivity || lia|reflexivity|reflexivity|]). constructor. }
  assert (in_u 32 0) as Hj by (split; reflexivity || lia).
  destruct (H Hj ltac:(lia) ltac:(unfold max_u; lia) Hr) as (_ & Hl & _ & _ & Hn & _).
  split; [exact Hl|]. intros Hf. apply (Hn 17000) in Hf. discriminate Hf.
Defined.
