(* ===== verification/DatagramPool.v ===== *)
(** * Datagram pools

    [src/storage/pool.rs], [DatagramPool] (parallel arrays, sizes fixed at
    compile time) and [src/storage/alloc_memory.rs], [AllocDatagramPool] (a
    vector of slot records).  The traits [SlotPool] and [DatagramBytes] are
    type classes; [DatagramLaws] states what a pool promises to its clients in
    terms of an abstract table of slots, and both pools are proved to keep the
    promise. *)
From S2P Require Import Prelude Errors MsgTypes Options Encode Decode Occupancy Pending.

(** ** The traits *)
Class SlotPool (P : Type) : Type := {
  sp_acquire : ∀ {E}, P → res E (P * option SlotId);
  sp_release : P → SlotId → res SlotError P;
  sp_advance : P → nat → P;
  sp_slot_count : P → nat;
  sp_occupied_count : P → nat;
  sp_is_occupied : P → SlotId → bool;
  sp_is_pinned : P → SlotId → bool;
  sp_cursor : P → nat
}.

(** [payload_mut] is the slot's whole buffer with the function that stores it
    back; [access] pins the slot and reads its payload. *)
Class DatagramBytes (P : Type) : Type := {
  db_replace_pending : P → PendingCon → list Z → res PendingReplaceError (P * PendingCon);
  db_payload : ∀ {E}, P → SlotId → res E (option (list Z));
  db_payload_mut : ∀ {E}, P → SlotId → res E (option (list Z * (list Z → P)));
  db_set_len : P → SlotId → nat → res SlotError P;
  db_endpoint : ∀ {E}, P → SlotId → res E (option Endpoint);
  db_set_endpoint : P → SlotId → Endpoint → res SlotError P;
  db_pending_mid : P → SlotId → option MessageId;
  db_pending_rto : P → SlotId → option PendingRto;
  db_set_pending : P → SlotId → MessageId → PendingRto → res SlotError P;
  db_clear_pending_mid : P → SlotId → res SlotError P;
  db_lookup_pending : ∀ {E}, P → MessageId → Endpoint → res E (option SlotId);
  db_access : P → SlotId → res SlotError (P * list Z)
}.

(** The three-part test of [lookup_pending] at one slot. *)
Definition pending_match {E} (pending_mid : option MessageId) (endpoint : res E (option Endpoint))
    (pending_rto : option PendingRto) (message_id : MessageId) (ep : Endpoint) : res E bool :=
  if eqb pending_mid (Some message_id) then
    e ← endpoint;
    mret (eqb e (Some ep) && match pending_rto with Some r => rto_started r | None => false end)
  else mret false.

(** [find_map] over the slots [i], [i+1], ... with a test that may panic. *)
Fixpoint find_slot {E} (ids : list SlotId) (test : SlotId → res E bool) : res E (option SlotId) :=
  match ids with
  | [] => Ok None
  | id :: ids => b ← test id; if b : bool then mret (Some id) else find_slot ids test
  end.

(** The refusal of every setter on a slot that is not occupied. *)
Definition slot_refusal (slots : nat) (id : SlotId) : SlotError :=
  if (id <? slots)%nat then NotOccupied else InvalidSlot.

(** ** [DatagramPool]: parallel arrays *)
Record DatagramPool (SLOTS BYTES : nat) : Type := mkPool {
  dp_bytes : list (list Z);
  dp_lens : list nat;
  dp_endpoints : list (option Endpoint);
  dp_pending : list (option PendingMark);
  dp_occ : Occupancy
}.
Arguments mkPool {SLOTS BYTES} _ _ _ _ _.
Arguments dp_bytes {SLOTS BYTES} _.
Arguments dp_lens {SLOTS BYTES} _.
Arguments dp_endpoints {SLOTS BYTES} _.
Arguments dp_pending {SLOTS BYTES} _.
Arguments dp_occ {SLOTS BYTES} _.

Definition DatagramPool_new (SLOTS BYTES : nat) : DatagramPool SLOTS BYTES :=
  mkPool (replicate SLOTS (replicate BYTES 0)) (replicate SLOTS 0%nat) (replicate SLOTS None)
    (replicate SLOTS None) (Occupancy_new SLOTS SLOTS).

Section datagram_pool.
Context {SLOTS BYTES : nat} `{Target}.
Implicit Types (p : DatagramPool SLOTS BYTES) (id : SlotId).

Definition dp_with_occ p (occ : Occupancy) : DatagramPool SLOTS BYTES :=
  mkPool (dp_bytes p) (dp_lens p) (dp_endpoints p) (dp_pending p) occ.
Definition dp_with_bytes p (bytes : list (list Z)) : DatagramPool SLOTS BYTES :=
  mkPool bytes (dp_lens p) (dp_endpoints p) (dp_pending p) (dp_occ p).

Definition dp_payload {E} p id : res E (option (list Z)) :=
  if negb (Occupancy_is_occupied (dp_occ p) id) then Ok None
  else
    buf ← idx (dp_bytes p) id;
    len ← idx (dp_lens p) id;
    s ← slice_idx buf 0 len;
    mret (Some s).

Definition dp_payload_mut {E} p id : res E (option (list Z * (list Z → DatagramPool SLOTS BYTES))) :=
  if negb (Occupancy_is_occupied (dp_occ p) id) then Ok None
  else
    buf ← idx (dp_bytes p) id;
    mret (Some (buf, fun buf => dp_with_bytes p (<[id := buf]> (dp_bytes p)))).

Definition dp_set_len p id (len : nat) : res SlotError (DatagramPool SLOTS BYTES) :=
  if negb (Occupancy_is_occupied (dp_occ p) id) then Err (slot_refusal SLOTS id)
  else if (BYTES <? len)%nat then Err LengthExceedsSlot
  else
    lens ← set_idx id len (dp_lens p);
    mret (mkPool (dp_bytes p) lens (dp_endpoints p) (dp_pending p) (dp_occ p)).

Definition dp_endpoint {E} p id : res E (option Endpoint) :=
  if negb (Occupancy_is_occupied (dp_occ p) id) then Ok None else idx (dp_endpoints p) id.

Definition dp_set_endpoint p id (endpoint : Endpoint) : res SlotError (DatagramPool SLOTS BYTES) :=
  if negb (Occupancy_is_occupied (dp_occ p) id) then Err (slot_refusal SLOTS id)
  else
    endpoints ← set_idx id (Some endpoint) (dp_endpoints p);
    mret (mkPool (dp_bytes p) (dp_lens p) endpoints (dp_pending p) (dp_occ p)).

Definition dp_write p id (bytes : list Z) (endpoint : Endpoint)
    : res SlotError (DatagramPool SLOTS BYTES * nat) :=
  slot ← dp_payload_mut p id;
  '(buf, store) ← ok_or slot (slot_refusal SLOTS id);
  if (length buf <? length bytes)%nat then Err LengthExceedsSlot
  else
    buf ← copy_into 0 (length bytes) bytes buf;
    p ← dp_set_len (store buf) id (length bytes);
    p ← dp_set_endpoint p id endpoint;
    mret (p, length bytes).

Definition dp_decode p id : res SlotMessageError (ParsedMessage Token) :=
  payload ← dp_payload p id;
  payload ← ok_or payload (SMSlot NotOccupied);
  map_err SMParse (decode payload).

(** [encode] writes in place, so a failed encoding may leave part of it in
    the buffer; the recorded length is unchanged then. *)
Definition dp_encode p id (msg : Message Token)
    : DatagramPool SLOTS BYTES * res SlotMessageError nat :=
  match dp_payload_mut (E:=SlotMessageError) p id with
  | Ok (Some (buf, store)) =>
      match encode msg buf with
      | (buf, Ok n) =>
          match dp_set_len (store buf) id n with
          | Ok p => (p, Ok n)
          | Err e => (store buf, Err (SMSlot e))
          | Panic => (store buf, Panic)
          | Diverge => (store buf, Diverge)
          end
      | (buf, Err e) => (store buf, Err (SMEncode e))
      | (buf, Panic) => (store buf, Panic)
      | (buf, Diverge) => (store buf, Diverge)
      end
  | Ok None => (p, Err (SMSlot NotOccupied))
  | Err e => (p, Err e)
  | Panic => (p, Panic)
  | Diverge => (p, Diverge)
  end.

Definition dp_pending_mark p id : option PendingMark :=
  if negb (Occupancy_is_occupied (dp_occ p) id) then None else mjoin (dp_pending p !! id).
Definition dp_pending_mid p id : option MessageId := option_map mark_mid (dp_pending_mark p id).
Definition dp_pending_rto p id : option PendingRto := option_map mark_rto (dp_pending_mark p id).

Definition dp_set_pending p id (message_id : MessageId) (rto : PendingRto)
    : res SlotError (DatagramPool SLOTS BYTES) :=
  if negb (Occupancy_is_occupied (dp_occ p) id) then Err (slot_refusal SLOTS id)
  else
    pending ← set_idx id (Some (mkMark message_id rto)) (dp_pending p);
    mret (mkPool (dp_bytes p) (dp_lens p) (dp_endpoints p) pending (dp_occ p)).

Definition dp_set_pending_mid p id (message_id : MessageId) : res SlotError (DatagramPool SLOTS BYTES) :=
  dp_set_pending p id message_id (PendingRto_new 0 0).

Definition dp_clear_pending_mid p id : res SlotError (DatagramPool SLOTS BYTES) :=
  if negb (Occupancy_is_occupied (dp_occ p) id) then Err (slot_refusal SLOTS id)
  else
    pending ← set_idx id None (dp_pending p);
    mret (mkPool (dp_bytes p) (dp_lens p) (dp_endpoints p) pending (dp_occ p)).

Definition dp_access p id : res SlotError (DatagramPool SLOTS BYTES * list Z) :=
  occ ← Occupancy_try_pin (dp_occ p) id;
  buf ← idx (dp_bytes p) id;
  len ← idx (dp_lens p) id;
  bytes ← slice_idx buf 0 len;
  mret (dp_with_occ p occ, bytes).

Definition dp_lookup_pending {E} p (message_id : MessageId) (endpoint : Endpoint)
    : res E (option SlotId) :=
  find_slot (seq 0 SLOTS) (fun id =>
    pending_match (dp_pending_mid p id) (dp_endpoint p id) (dp_pending_rto p id) message_id endpoint).

Definition dp_reset {E} p id : res E (DatagramPool SLOTS BYTES) :=
  lens ← set_idx id 0%nat (dp_lens p);
  endpoints ← set_idx id None (dp_endpoints p);
  pending ← set_idx id None (dp_pending p);
  mret (mkPool (dp_bytes p) lens endpoints pending (dp_occ p)).

Definition dp_acquire {E} p : res E (DatagramPool SLOTS BYTES * option SlotId) :=
  '(occ, r) ← Occupancy_acquire (dp_occ p);
  match r with
  | None => mret (dp_with_occ p occ, None)
  | Some id => p ← dp_reset (dp_with_occ p occ) id; mret (p, Some id)
  end.

Definition dp_release p id : res SlotError (DatagramPool SLOTS BYTES) :=
  occ ← Occupancy_release (dp_occ p) id;
  dp_reset (dp_with_occ p occ) id.

(** [a.zip(b).zip(c).map(...)]. *)
Definition zip_pending (id : SlotId) (mid : option MessageId) (endpoint : option Endpoint)
    (rto : option PendingRto) : option PendingCon :=
  match mid, endpoint, rto with
  | Some mid, Some endpoint, Some rto =>
      Some (PendingCon_with_rto (PendingCon_new mid endpoint id) rto)
  | _, _, _ => None
  end.

Definition dp_replace_pending p (expected : PendingCon) (bytes : list Z)
    : res PendingReplaceError (DatagramPool SLOTS BYTES * PendingCon) :=
  let id := pc_tx_slot expected in
  endpoint ← dp_endpoint p id;
  let current := zip_pending id (dp_pending_mid p id) endpoint (dp_pending_rto p id) in
  payload ← dp_payload p id;
  replacement ← validate_replacement expected current payload bytes BYTES
                  (Occupancy_is_pinned (dp_occ p) id);
  buf ← idx (dp_bytes p) id;
  buf ← copy_into 0 (length bytes) bytes buf;
  let all := <[id := buf]> (dp_bytes p) in
  lens ← set_idx id (length bytes) (dp_lens p);
  pending ← set_idx id (Some (mkMark (pc_message_id replacement) (pc_rto replacement))) (dp_pending p);
  mret (mkPool all lens (dp_endpoints p) pending (dp_occ p), replacement).

#[export] Instance DatagramPool_SlotPool : SlotPool (DatagramPool SLOTS BYTES) := {|
  sp_acquire := @dp_acquire;
  sp_release := dp_release;
  sp_advance p steps := dp_with_occ p (Occupancy_advance (dp_occ p) steps);
  sp_slot_count p := length (oc_occupied (dp_occ p));
  sp_occupied_count p := oc_count (dp_occ p);
  sp_is_occupied p := Occupancy_is_occupied (dp_occ p);
  sp_is_pinned p := Occupancy_is_pinned (dp_occ p);
  sp_cursor p := oc_cursor (dp_occ p)
|}.

#[export] Instance DatagramPool_DatagramBytes : DatagramBytes (DatagramPool SLOTS BYTES) := {|
  db_replace_pending := dp_replace_pending;
  db_payload := @dp_payload;
  db_payload_mut := @dp_payload_mut;
  db_set_len := dp_set_len;
  db_endpoint := @dp_endpoint;
  db_set_endpoint := dp_set_endpoint;
  db_pending_mid := dp_pending_mid;
  db_pending_rto := dp_pending_rto;
  db_set_pending := dp_set_pending;
  db_clear_pending_mid := dp_clear_pending_mid;
  db_lookup_pending := @dp_lookup_pending;
  db_access := dp_access
|}.
End datagram_pool.

(** ** [AllocDatagramPool]: a vector of slots *)
Record AllocSlot : Type := mkAllocSlot {
  as_buf : list Z;
  as_len : nat;
  as_endpoint : option Endpoint;
  as_pending : option PendingMark
}.

Record AllocDatagramPool : Type := mkAlloc {
  ad_slots : list AllocSlot;
  ad_slot_bytes : nat;
  ad_occ : Occupancy
}.

(** The value [AllocDatagramPool::new] returns when every allocation succeeds. *)
Definition AllocDatagramPool_new (slots bytes : nat) : AllocDatagramPool :=
  mkAlloc (replicate slots (mkAllocSlot (replicate bytes 0) 0 None None)) bytes
    (Occupancy_new slots slots).

Section alloc_pool.
Context `{Target}.
Implicit Types (p : AllocDatagramPool) (id : SlotId).

Definition ad_with_occ p (occ : Occupancy) : AllocDatagramPool :=
  mkAlloc (ad_slots p) (ad_slot_bytes p) occ.
Definition ad_with_slots p (slots : list AllocSlot) : AllocDatagramPool :=
  mkAlloc slots (ad_slot_bytes p) (ad_occ p).

Definition ad_reset p id : AllocDatagramPool :=
  match ad_slots p !! id with
  | Some slot => ad_with_slots p (<[id := mkAllocSlot (as_buf slot) 0 None None]> (ad_slots p))
  | None => p
  end.

Definition ad_payload {E} p id : res E (option (list Z)) :=
  if negb (Occupancy_is_occupied (ad_occ p) id) then Ok None
  else
    match ad_slots p !! id with
    | None => Ok None
    | Some slot => s ← slice_idx (as_buf slot) 0 (as_len slot); mret (Some s)
    end.

Definition ad_payload_mut {E} p id : res E (option (list Z * (list Z → AllocDatagramPool))) :=
  if negb (Occupancy_is_occupied (ad_occ p) id) then Ok None
  else
    match ad_slots p !! id with
    | None => Ok None
    | Some slot =>
        Ok (Some (as_buf slot, fun buf =>
          ad_with_slots p (<[id := mkAllocSlot buf (as_len slot) (as_endpoint slot) (as_pending slot)]>
            (ad_slots p))))
    end.

(** [self.slots[id.index()].field = ...]. *)
Definition ad_modify p id (f : AllocSlot → AllocSlot) : res SlotError AllocDatagramPool :=
  slot ← idx (ad_slots p) id;
  slots ← set_idx id (f slot) (ad_slots p);
  mret (ad_with_slots p slots).

Definition ad_set_len p id (len : nat) : res SlotError AllocDatagramPool :=
  if negb (Occupancy_is_occupied (ad_occ p) id)
  then Err (slot_refusal (length (oc_occupied (ad_occ p))) id)
  else if (ad_slot_bytes p <? len)%nat then Err LengthExceedsSlot
  else ad_modify p id (fun s => mkAllocSlot (as_buf s) len (as_endpoint s) (as_pending s)).

Definition ad_endpoint p id : option Endpoint :=
  if negb (Occupancy_is_occupied (ad_occ p) id) then None
  else mjoin (option_map as_endpoint (ad_slots p !! id)).

Definition ad_set_endpoint p id (endpoint : Endpoint) : res SlotError AllocDatagramPool :=
  if negb (Occupancy_is_occupied (ad_occ p) id)
  then Err (slot_refusal (length (oc_occupied (ad_occ p))) id)
  else ad_modify p id (fun s => mkAllocSlot (as_buf s) (as_len s) (Some endpoint) (as_pending s)).

Definition ad_pending_mark p id : option PendingMark :=
  if negb (Occupancy_is_occupied (ad_occ p) id) then None
  else mjoin (option_map as_pending (ad_slots p !! id)).
Definition ad_pending_mid p id : option MessageId := option_map mark_mid (ad_pending_mark p id).
Definition ad_pending_rto p id : option PendingRto := option_map mark_rto (ad_pending_mark p id).

Definition ad_set_pending p id (message_id : MessageId) (rto : PendingRto)
    : res SlotError AllocDatagramPool :=
  if negb (Occupancy_is_occupied (ad_occ p) id)
  then Err (slot_refusal (length (oc_occupied (ad_occ p))) id)
  else ad_modify p id (fun s =>
         mkAllocSlot (as_buf s) (as_len s) (as_endpoint s) (Some (mkMark message_id rto))).

Definition ad_set_pending_mid p id (message_id : MessageId) : res SlotError AllocDatagramPool :=
  ad_set_pending p id message_id (PendingRto_new 0 0).

Definition ad_clear_pending_mid p id : res SlotError AllocDatagramPool :=
  if negb (Occupancy_is_occupied (ad_occ p) id)
  then Err (slot_refusal (length (oc_occupied (ad_occ p))) id)
  else ad_modify p id (fun s => mkAllocSlot (as_buf s) (as_len s) (as_endpoint s) None).

Definition ad_lookup_pending {E} p (message_id : MessageId) (endpoint : Endpoint)
    : res E (option SlotId) :=
  find_slot (seq 0 (length (oc_occupied (ad_occ p)))) (fun id =>
    pending_match (ad_pending_mid p id) (Ok (ad_endpoint p id)) (ad_pending_rto p id)
      message_id endpoint).

Definition ad_access p id : res SlotError (AllocDatagramPool * list Z) :=
  occ ← Occupancy_try_pin (ad_occ p) id;
  slot ← ok_or (ad_slots p !! id) InvalidSlot;
  bytes ← slice_idx (as_buf slot) 0 (as_len slot);
  mret (ad_with_occ p occ, bytes).

Definition ad_acquire {E} p : res E (AllocDatagramPool * option SlotId) :=
  '(occ, r) ← Occupancy_acquire (ad_occ p);
  match r with
  | None => mret (ad_with_occ p occ, None)
  | Some id => mret (ad_reset (ad_with_occ p occ) id, Some id)
  end.

Definition ad_release p id : res SlotError AllocDatagramPool :=
  occ ← Occupancy_release (ad_occ p) id;
  mret (ad_reset (ad_with_occ p occ) id).

(** [AllocMemory::replace_pending_con]. *)
Definition ad_replace_pending p (expected : PendingCon) (bytes : list Z)
    : res PendingReplaceError (AllocDatagramPool * PendingCon) :=
  let id := pc_tx_slot expected in
  let current := zip_pending id (ad_pending_mid p id) (ad_endpoint p id) (ad_pending_rto p id) in
  payload ← ad_payload p id;
  replacement ← validate_replacement expected current payload bytes (ad_slot_bytes p)
                  (Occupancy_is_pinned (ad_occ p) id);
  slot ← idx (ad_slots p) id;
  buf ← copy_into 0 (length bytes) bytes (as_buf slot);
  mret (ad_with_slots p (<[id := mkAllocSlot buf (length bytes) (as_endpoint slot)
          (Some (mkMark (pc_message_id replacement) (pc_rto replacement)))]> (ad_slots p)), replacement).

#[export] Instance AllocDatagramPool_SlotPool : SlotPool AllocDatagramPool := {|
  sp_acquire := @ad_acquire;
  sp_release := ad_release;
  sp_advance p steps := ad_with_occ p (Occupancy_advance (ad_occ p) steps);
  sp_slot_count p := length (oc_occupied (ad_occ p));
  sp_occupied_count p := oc_count (ad_occ p);
  sp_is_occupied p := Occupancy_is_occupied (ad_occ p);
  sp_is_pinned p := Occupancy_is_pinned (ad_occ p);
  sp_cursor p := oc_cursor (ad_occ p)
|}.

#[export] Instance AllocDatagramPool_DatagramBytes : DatagramBytes AllocDatagramPool := {|
  db_replace_pending := ad_replace_pending;
  db_payload := @ad_payload;
  db_payload_mut := @ad_payload_mut;
  db_set_len := ad_set_len;
  db_endpoint E p id := Ok (ad_endpoint p id);
  db_set_endpoint := ad_set_endpoint;
  db_pending_mid := ad_pending_mid;
  db_pending_rto := ad_pending_rto;
  db_set_pending := ad_set_pending;
  db_clear_pending_mid := ad_clear_pending_mid;
  db_lookup_pending := @ad_lookup_pending;
  db_access := ad_access
|}.
End alloc_pool.

(** ** What a pool promises

    The abstract state of a pool is a table with one entry per slot: [None]
    for a free slot, the visible contents for an occupied one. *)
Record SlotView : Type := mkView {
  sv_payload : list Z;
  sv_endpoint : option Endpoint;
  sv_pending : option PendingMark;
  sv_pinned : bool
}.

Definition fresh_view : SlotView := mkView [] None None false.
Definition set_view_endpoint (e : Endpoint) (s : SlotView) : SlotView :=
  mkView (sv_payload s) (Some e) (sv_pending s) (sv_pinned s).
Definition set_view_pending (m : option PendingMark) (s : SlotView) : SlotView :=
  mkView (sv_payload s) (sv_endpoint s) m (sv_pinned s).
Definition set_view_pinned (b : bool) (s : SlotView) : SlotView :=
  mkView (sv_payload s) (sv_endpoint s) (sv_pending s) b.
Definition set_view_payload (bs : list Z) (s : SlotView) : SlotView :=
  mkView bs (sv_endpoint s) (sv_pending s) (sv_pinned s).

(** The occupied slot [id] of a table. *)
Definition slot_at (v : list (option SlotView)) (id : SlotId) : option SlotView := mjoin (v !! id).

(** The pending message a table shows at [id]. *)
Definition view_pending (v : list (option SlotView)) (id : SlotId) : option PendingCon :=
  match slot_at v id with
  | Some s =>
      match sv_pending s, sv_endpoint s with
      | Some m, Some e => Some (mkPendingCon (mark_mid m) e id (mark_rto m))
      | _, _ => None
      end
  | None => None
  end.

Section laws.
Context (P : Type) `{SlotPool P}.

(** An update of one occupied slot, refused on any other. *)
Definition updates (inv : P → Prop) (view : P → list (option SlotView)) (cap : P → nat)
    (p : P) (id : SlotId) (r : res SlotError P) (f : SlotView → SlotView) : Prop :=
  match view p !! id with
  | None => r = Err InvalidSlot
  | Some None => r = Err NotOccupied
  | Some (Some s) =>
      ∃ p', r = Ok p' ∧ inv p' ∧ cap p' = cap p ∧ view p' = <[id := Some (f s)]> (view p)
  end.
End laws.
Arguments updates {P} inv view cap p id r f.

Class DatagramLaws (P : Type) `{Target} `{SlotPool P} `{DatagramBytes P} : Type := {
  pool_inv : P → Prop;
  pool_view : P → list (option SlotView);
  pool_cap : P → nat;
  law_count (p : P) : pool_inv p → sp_slot_count p = length (pool_view p);
  law_occupied (p : P) id :
    pool_inv p → sp_is_occupied p id = bool_decide (is_Some (slot_at (pool_view p) id));
  law_acquire (p : P) {E} :
    pool_inv p →
    match sp_acquire (E:=E) p with
    | Ok (p', Some id) =>
        pool_inv p' ∧ pool_cap p' = pool_cap p ∧ pool_view p !! id = Some None ∧
        pool_view p' = <[id := Some fresh_view]> (pool_view p)
    | Ok (p', None) => p' = p ∧ ∀ id, pool_view p !! id ≠ Some None
    | _ => False
    end;
  law_release (p : P) id :
    pool_inv p →
    match pool_view p !! id with
    | None => sp_release p id = Err InvalidSlot
    | Some None => sp_release p id = Err NotOccupied
    | Some (Some s) =>
        if sv_pinned s then sp_release p id = Err Pinned
        else ∃ p', sp_release p id = Ok p' ∧ pool_inv p' ∧ pool_cap p' = pool_cap p ∧
             pool_view p' = <[id := None]> (pool_view p)
    end;
  law_advance (p : P) n :
    pool_inv p → pool_inv (sp_advance p n) ∧ pool_view (sp_advance p n) = pool_view p ∧
                 pool_cap (sp_advance p n) = pool_cap p;
  law_payload (p : P) id {E} :
    pool_inv p → db_payload (E:=E) p id = Ok (option_map sv_payload (slot_at (pool_view p) id));
  law_endpoint (p : P) id {E} :
    pool_inv p → db_endpoint (E:=E) p id = Ok (mjoin (option_map sv_endpoint (slot_at (pool_view p) id)));
  law_mid (p : P) id :
    pool_inv p →
    db_pending_mid p id = option_map mark_mid (mjoin (option_map sv_pending (slot_at (pool_view p) id)));
  law_rto (p : P) id :
    pool_inv p →
    db_pending_rto p id = option_map mark_rto (mjoin (option_map sv_pending (slot_at (pool_view p) id)));
  law_set_endpoint (p : P) id e :
    pool_inv p →
    updates pool_inv pool_view pool_cap p id (db_set_endpoint p id e) (set_view_endpoint e);
  law_set_pending (p : P) id mid rto :
    pool_inv p →
    updates pool_inv pool_view pool_cap p id (db_set_pending p id mid rto)
      (set_view_pending (Some (mkMark mid rto)));
  law_clear_pending (p : P) id :
    pool_inv p →
    updates pool_inv pool_view pool_cap p id (db_clear_pending_mid p id) (set_view_pending None);
  law_lookup_pending (p : P) mid e {E} :
    pool_inv p →
    db_lookup_pending (E:=E) p mid e =
      find_slot (seq 0 (length (pool_view p))) (fun id => Ok (
        match view_pending (pool_view p) id with
        | Some q => eqb (pc_message_id q) mid && eqb (pc_endpoint q) e && rto_started (pc_rto q)
        | None => false
        end));
  law_access (p : P) id :
    pool_inv p →
    match slot_at (pool_view p) id with
    | Some s =>
        if sv_pinned s then db_access p id = Err Pinned
        else ∃ p', db_access p id = Ok (p', sv_payload s) ∧ pool_inv p' ∧ pool_cap p' = pool_cap p ∧
             pool_view p' = <[id := Some (set_view_pinned true s)]> (pool_view p)
    | None => db_access p id = Err (slot_refusal (length (pool_view p)) id)
    end;
  law_replace (p : P) q bytes :
    pool_inv p →
    let v := pool_view p in
    let id := pc_tx_slot q in
    match validate_replacement q (view_pending v id) (option_map sv_payload (slot_at v id)) bytes
            (pool_cap p) (match slot_at v id with Some s => sv_pinned s | None => false end) with
    | Ok q' =>
        ∃ p' s, db_replace_pending p q bytes = Ok (p', q') ∧ slot_at v id = Some s ∧
          pool_inv p' ∧ pool_cap p' = pool_cap p ∧
          pool_view p' = <[id := Some (set_view_payload bytes
            (set_view_pending (Some (mkMark (pc_message_id q') (pc_rto q'))) s))]> v
    | Err e => db_replace_pending p q bytes = Err e
    | Panic => db_replace_pending p q bytes = Panic
    | Diverge => db_replace_pending p q bytes = Diverge
    end
}.

(** ** Tables of an allocator and a content function *)
Definition table (occ : Occupancy) (f : SlotId → SlotView) : list (option SlotView) :=
  imap (fun i (b : bool) => if b then Some (f i) else None) (oc_occupied occ).

Lemma table_length (occ : Occupancy) f : length (table occ f) = length (oc_occupied occ).
Proof. apply length_imap. Qed.

Lemma table_lookup (occ : Occupancy) f i :
  table occ f !! i = option_map (fun b : bool => if b then Some (f i) else None) (oc_occupied occ !! i).
Proof. unfold table. rewrite list_lookup_imap. by destruct (oc_occupied occ !! i). Qed.

Lemma table_slot_at (occ : Occupancy) f i :
  slot_at (table occ f) i = if Occupancy_is_occupied occ i then Some (f i) else None.
Proof.
  unfold slot_at, Occupancy_is_occupied. rewrite table_lookup.
  by destruct (oc_occupied occ !! i) as [[]|].
Qed.

(** Changing one slot, its occupancy included, changes one entry. *)
Lemma table_insert (occ occ' : Occupancy) f f' i b :
  oc_occupied occ' = <[i := b]> (oc_occupied occ) →
  (i < length (oc_occupied occ))%nat → (∀ j, j ≠ i → f' j = f j) →
  table occ' f' = <[i := if b : bool then Some (f' i) else None]> (table occ f).
Proof.
  intros Ho Hi Hf. apply list_eq. intros j. rewrite table_lookup, Ho.
  destruct (decide (i = j)) as [<-|Hne].
  - rewrite !list_lookup_insert_eq by (by rewrite ?table_length). by destruct b.
  - rewrite !list_lookup_insert_ne, table_lookup by done.
    destruct (oc_occupied occ !! j) as [[]|]; simpl; by rewrite ?Hf.
Qed.

Lemma table_update (occ : Occupancy) f f' i :
  Occupancy_is_occupied occ i = true → (∀ j, j ≠ i → f' j = f j) →
  table occ f' = <[i := Some (f' i)]> (table occ f).
Proof.
  intros Hocc Hf. unfold Occupancy_is_occupied in Hocc.
  destruct (oc_occupied occ !! i) as [b|] eqn:El; [simpl in Hocc; subst b|done].
  apply (table_insert occ occ f f' i true); [|by eapply lookup_lt_Some|done].
  by rewrite list_insert_id.
Qed.

(** Only occupied slots are pinned. *)
Lemma pinned_of_slot (occ : Occupancy) i :
  occ_inv occ → Occupancy_is_occupied occ i = false → Occupancy_is_pinned occ i = false.
Proof.
  intros (_ & _ & _ & Hp) Ho. unfold Occupancy_is_occupied, Occupancy_is_pinned in *.
  destruct (oc_pinned occ !! i) as [[]|] eqn:E; [|done..]. by rewrite (Hp i E) in Ho.
Qed.

Lemma occupied_lt (occ : Occupancy) i :
  Occupancy_is_occupied occ i = true → (i < length (oc_occupied occ))%nat.
Proof.
  unfold Occupancy_is_occupied. destruct (oc_occupied occ !! i) eqn:E; [|done].
  intros _. by eapply lookup_lt_Some.
Qed.

(** The refusal of a setter, read off the table. *)
Lemma table_refusal (occ : Occupancy) f i :
  Occupancy_is_occupied occ i = false →
  table occ f !! i = if (i <? length (oc_occupied occ))%nat then Some None else None.
Proof.
  unfold Occupancy_is_occupied. intros Ho. rewrite table_lookup.
  destruct (oc_occupied occ !! i) as [[]|] eqn:E; [done| |].
  - by rewrite (proj2 (Nat.ltb_lt _ _)) by (by eapply lookup_lt_Some).
  - rewrite (proj2 (Nat.ltb_ge _ _)); [done|]. by apply lookup_ge_None.
Qed.

(** [acquire], [release] and [try_pin] on the table. *)
Lemma release_table (occ : Occupancy) i f f' :
  occ_inv occ → (∀ j, j ≠ i → f' j = f j) →
  match table occ f !! i with
  | None => Occupancy_release occ i = Err InvalidSlot
  | Some None => Occupancy_release occ i = Err NotOccupied
  | Some (Some _) =>
      if Occupancy_is_pinned occ i then Occupancy_release occ i = Err Pinned
      else ∃ occ', Occupancy_release occ i = Ok occ' ∧ occ_inv occ' ∧
           oc_occupied occ' = <[i := false]> (oc_occupied occ) ∧ oc_pinned occ' = oc_pinned occ ∧
           table occ' f' = <[i := None]> (table occ f)
  end.
Proof.
  intros Hi Hf. pose proof (release_all occ i Hi) as H. rewrite table_lookup.
  unfold Occupancy_release in *. destruct (oc_occupied occ !! i) as [[]|] eqn:El; simpl in *; [|done..].
  change (default false (oc_pinned occ !! i)) with (Occupancy_is_pinned occ i) in *.
  destruct (Occupancy_is_pinned occ i); [done|].
  destruct (usize_checked_sub (oc_count occ) 1); [|done].
  destruct (negb _); [done|]. destruct H as (_ & _ & Hi' & Heq & _).
  eexists. split_and!; [done|done|done|done|].
  apply (table_insert occ _ f f' i false); [done|by eapply lookup_lt_Some|done].
Qed.

Lemma try_pin_table (occ : Occupancy) i :
  occ_inv occ → length (oc_pinned occ) = length (oc_occupied occ) →
  if Occupancy_is_occupied occ i
  then if Occupancy_is_pinned occ i then Occupancy_try_pin occ i = Err Pinned
       else ∃ occ', Occupancy_try_pin occ i = Ok occ' ∧ occ_inv occ' ∧
            oc_occupied occ' = oc_occupied occ ∧ oc_pinned occ' = <[i := true]> (oc_pinned occ)
  else Occupancy_try_pin occ i = Err (slot_refusal (length (oc_occupied occ)) i).
Proof.
  intros Hi Hl. unfold slot_refusal.
  destruct (Occupancy_is_occupied occ i) eqn:Ho; unfold Occupancy_is_occupied in Ho.
  - destruct (oc_occupied occ !! i) as [[]|] eqn:El; [|done..].
    assert (is_Some (oc_pinned occ !! i)) as [b Hb]
      by (apply lookup_lt_is_Some_2; rewrite Hl; by eapply lookup_lt_Some).
    unfold Occupancy_is_pinned. rewrite Hb. simpl.
    assert (Occupancy_try_pin occ i = if b then Err Pinned else
      Ok (mkOcc (oc_occupied occ) (<[i:=true]> (oc_pinned occ)) (oc_cursor occ) (oc_count occ))) as Ht
      by (unfold Occupancy_try_pin; by rewrite El, Hb).
    destruct b; [done|]. eexists. split; [done|]. split; [|done]. by apply (try_pin_inv _ _ i Hi).
  - unfold Occupancy_try_pin. destruct (oc_occupied occ !! i) as [[]|] eqn:El; [done| |].
    + by rewrite (proj2 (Nat.ltb_lt _ _)) by (by eapply lookup_lt_Some).
    + rewrite (proj2 (Nat.ltb_ge _ _)); [done|]. by apply lookup_ge_None.
Qed.

Lemma advance_flags (occ : Occupancy) n :
  occ_inv occ →
  occ_inv (Occupancy_advance occ n) ∧ oc_occupied (Occupancy_advance occ n) = oc_occupied occ ∧
  oc_pinned (Occupancy_advance occ n) = oc_pinned occ.
Proof.
  intros Hi. split; [by eapply occ_step_inv, step_advance|].
  unfold Occupancy_advance, Occupancy_set_cursor. by destruct (length (oc_occupied occ) =? 0)%nat.
Qed.

(** [zip] of the three sidecars and the pending message of the table. *)
Lemma zip_pending_view (v : list (option SlotView)) (id : SlotId) :
  zip_pending id (option_map mark_mid (mjoin (option_map sv_pending (slot_at v id))))
    (mjoin (option_map sv_endpoint (slot_at v id)))
    (option_map mark_rto (mjoin (option_map sv_pending (slot_at v id)))) = view_pending v id.
Proof.
  unfold view_pending, zip_pending. destruct (slot_at v id) as [s|]; [|done]. simpl.
  by destruct (sv_pending s), (sv_endpoint s).
Qed.

Lemma pending_match_view {E} (v : list (option SlotView)) (id : SlotId) mid e :
  pending_match (E:=E) (option_map mark_mid (mjoin (option_map sv_pending (slot_at v id))))
    (Ok (mjoin (option_map sv_endpoint (slot_at v id))))
    (option_map mark_rto (mjoin (option_map sv_pending (slot_at v id)))) mid e =
  Ok (match view_pending v id with
      | Some q => eqb (pc_message_id q) mid && eqb (pc_endpoint q) e && rto_started (pc_rto q)
      | None => false
      end).
Proof.
  unfold view_pending, pending_match. unbind. destruct (slot_at v id) as [s|]; [|done]. simpl.
  assert (∀ (A : Type) `{EqDecision A} (x y : A), eqb (Some x) (Some y) = eqb x y) as Hs.
  { intros. unfold eqb. apply bool_decide_ext. split; congruence. }
  destruct (sv_pending s) as [m|], (sv_endpoint s) as [ep|]; simpl; rewrite ?Hs; try done.
  - by destruct (eqb (mark_mid m) mid).
  - by destruct (eqb (mark_mid m) mid).
Qed.

Lemma find_slot_ext {E} (ids : list SlotId) (t1 t2 : SlotId → res E bool) :
  (∀ id, t1 id = t2 id) → find_slot ids t1 = find_slot ids t2.
Proof. intros Ht. induction ids as [|id ids IH]; simpl; [done|]. by rewrite Ht, IH. Qed.

(** ** [DatagramPool] keeps the promise *)
Section datagram_pool_laws.
Context {SLOTS BYTES : nat} `{Target}.
Implicit Types (p : DatagramPool SLOTS BYTES) (id : SlotId).

Definition dp_inv p : Prop :=
  occ_inv (dp_occ p) ∧ length (oc_occupied (dp_occ p)) = SLOTS ∧
  length (oc_pinned (dp_occ p)) = SLOTS ∧ length (dp_bytes p) = SLOTS ∧
  length (dp_lens p) = SLOTS ∧ length (dp_endpoints p) = SLOTS ∧ length (dp_pending p) = SLOTS ∧
  Forall (fun b => length b = BYTES) (dp_bytes p) ∧ Forall (fun n => n ≤ BYTES)%nat (dp_lens p).

Definition dp_slot p id : SlotView :=
  mkView (take (default 0%nat (dp_lens p !! id)) (default [] (dp_bytes p !! id)))
    (mjoin (dp_endpoints p !! id)) (mjoin (dp_pending p !! id)) (Occupancy_is_pinned (dp_occ p) id).

Definition dp_view p : list (option SlotView) := table (dp_occ p) (dp_slot p).

(** Reads of an occupied slot are in range. *)
Lemma dp_slot_range p id :
  dp_inv p → Occupancy_is_occupied (dp_occ p) id = true →
  ∃ buf len e m, dp_bytes p !! id = Some buf ∧ dp_lens p !! id = Some len ∧
    dp_endpoints p !! id = Some e ∧ dp_pending p !! id = Some m ∧
    length buf = BYTES ∧ (len ≤ BYTES)%nat ∧ (id < SLOTS)%nat ∧
    dp_slot p id = mkView (take len buf) e m (Occupancy_is_pinned (dp_occ p) id).
Proof.
  intros (_ & Hl & _ & H1 & H2 & H3 & H4 & Hb & Hn) Hocc%occupied_lt.
  destruct (lookup_lt_is_Some_2 (dp_bytes p) id) as [buf Ebuf]; [lia|].
  destruct (lookup_lt_is_Some_2 (dp_lens p) id) as [len Elen]; [lia|].
  destruct (lookup_lt_is_Some_2 (dp_endpoints p) id) as [e Ee]; [lia|].
  destruct (lookup_lt_is_Some_2 (dp_pending p) id) as [m Em]; [lia|].
  exists buf, len, e, m. unfold dp_slot. rewrite Ebuf, Elen, Ee, Em.
  split_and!; try done; [by eapply (Forall_lookup_1 _ _ _ _ Hb)|by eapply (Forall_lookup_1 _ _ _ _ Hn)|lia].
Qed.

Lemma dp_count p : dp_inv p → length (oc_occupied (dp_occ p)) = length (dp_view p).
Proof. intros _. unfold dp_view. by rewrite table_length. Qed.

Lemma dp_occupied p id :
  Occupancy_is_occupied (dp_occ p) id = bool_decide (is_Some (slot_at (dp_view p) id)).
Proof.
  unfold dp_view. rewrite table_slot_at.
  destruct (Occupancy_is_occupied _ _); symmetry; [by apply bool_decide_eq_true; eauto|].
  apply bool_decide_eq_false. by intros [? ?].
Qed.

Lemma dp_payload_view {E} p id :
  dp_inv p → dp_payload (E:=E) p id = Ok (option_map sv_payload (slot_at (dp_view p) id)).
Proof.
  intros Hi. unfold dp_payload, dp_view. rewrite table_slot_at.
  destruct (Occupancy_is_occupied _ _) eqn:Ho; [|done].
  destruct (dp_slot_range p id Hi Ho) as (buf & len & e & m & Eb & El & _ & _ & Hlb & Hle & _ & Hs).
  rewrite Hs. cbn [negb]. unfold idx. rewrite Eb, El. unbind. by rewrite slice_prefix by lia.
Qed.

Lemma dp_endpoint_view {E} p id :
  dp_inv p → dp_endpoint (E:=E) p id = Ok (mjoin (option_map sv_endpoint (slot_at (dp_view p) id))).
Proof.
  intros Hi. unfold dp_endpoint, dp_view. rewrite table_slot_at.
  destruct (Occupancy_is_occupied _ _) eqn:Ho; [|done].
  destruct (dp_slot_range p id Hi Ho) as (buf & len & e & m & _ & _ & Ee & _ & _ & _ & _ & Hs).
  rewrite Hs. cbn [negb]. unfold idx. by rewrite Ee.
Qed.

Lemma dp_mark_view p id :
  dp_pending_mark p id = mjoin (option_map sv_pending (slot_at (dp_view p) id)).
Proof.
  unfold dp_pending_mark, dp_view. rewrite table_slot_at. by destruct (Occupancy_is_occupied _ _).
Qed.

(** Every setter: a refusal or a change of one slot. *)
Lemma dp_updates p id (r : res SlotError (DatagramPool SLOTS BYTES)) f :
  (Occupancy_is_occupied (dp_occ p) id = false → r = Err (slot_refusal SLOTS id)) →
  (Occupancy_is_occupied (dp_occ p) id = true →
    ∃ p', r = Ok p' ∧ dp_inv p' ∧ dp_occ p' = dp_occ p ∧ dp_slot p' id = f (dp_slot p id) ∧
          ∀ j, j ≠ id → dp_slot p' j = dp_slot p j) →
  dp_inv p → updates dp_inv dp_view (fun _ => BYTES) p id r f.
Proof.
  intros Hno Hyes (_ & Hl & _). unfold updates, dp_view.
  destruct (Occupancy_is_occupied (dp_occ p) id) eqn:Ho.
  - destruct (Hyes eq_refl) as (p' & -> & Hi' & Hocc & Hs & Hj).
    pose proof (table_slot_at (dp_occ p) (dp_slot p) id) as Hat. rewrite Ho in Hat. unfold slot_at in Hat.
    destruct (table (dp_occ p) (dp_slot p) !! id) as [[s|]|]; simplify_eq/=.
    exists p'. split_and!; try done. rewrite Hocc, <- Hs. by apply table_update.
  - rewrite table_refusal, Hl by done. rewrite Hno by done. unfold slot_refusal.
    by destruct (id <? SLOTS)%nat.
Qed.

Ltac dp_len Hi := destruct Hi as (? & ? & ? & ? & ? & ? & ? & _); lia.

Ltac dp_setter p id Hi :=
  apply dp_updates; [| |done]; intros Ho; rewrite Ho; cbn [negb]; [done|];
  destruct (dp_slot_range p id Hi Ho)
    as (buf & len & e' & m' & Eb & El & Ee & Em & Hlb & Hle & Hid & Hs);
  unfold set_idx; rewrite (proj2 (Nat.ltb_lt _ _)) by (dp_len Hi);
  unbind; eexists; split; [done|].

Lemma dp_set_endpoint_view p id e :
  dp_inv p → updates dp_inv dp_view (fun _ => BYTES) p id (dp_set_endpoint p id e) (set_view_endpoint e).
Proof.
  intros Hi. unfold dp_set_endpoint. dp_setter p id Hi. split_and!; [|done| |].
  - destruct Hi as (? & ? & ? & ? & ? & ? & ? & ? & ?). unfold dp_inv; simpl. by split_and!; rewrite ?length_insert.
  - rewrite Hs. unfold dp_slot. simpl. by rewrite list_lookup_insert_eq, Eb, El, Em by (dp_len Hi).
  - intros j Hj. unfold dp_slot. simpl. by rewrite list_lookup_insert_ne.
Qed.

Lemma dp_set_mark_view p id (m : option PendingMark) (r : res SlotError (DatagramPool SLOTS BYTES)) :
  r = (if negb (Occupancy_is_occupied (dp_occ p) id) then Err (slot_refusal SLOTS id)
       else pending ← set_idx id m (dp_pending p);
            mret (mkPool (dp_bytes p) (dp_lens p) (dp_endpoints p) pending (dp_occ p))) →
  dp_inv p → updates dp_inv dp_view (fun _ => BYTES) p id r (set_view_pending m).
Proof.
  intros -> Hi. dp_setter p id Hi. split_and!; [|done| |].
  - destruct Hi as (? & ? & ? & ? & ? & ? & ? & ? & ?). unfold dp_inv; simpl. by split_and!; rewrite ?length_insert.
  - rewrite Hs. unfold dp_slot. simpl. by rewrite list_lookup_insert_eq, Eb, El, Ee by (dp_len Hi).
  - intros j Hj. unfold dp_slot. simpl. by rewrite list_lookup_insert_ne.
Qed.

Lemma dp_lookup_view {E} p mid e :
  dp_inv p →
  dp_lookup_pending (E:=E) p mid e =
    find_slot (seq 0 (length (dp_view p))) (fun id => Ok (
      match view_pending (dp_view p) id with
      | Some q => eqb (pc_message_id q) mid && eqb (pc_endpoint q) e && rto_started (pc_rto q)
      | None => false
      end)).
Proof.
  intros Hi. unfold dp_lookup_pending. rewrite <- dp_count by done.
  pose proof Hi as (_ & -> & _). apply find_slot_ext. intros id.
  unfold dp_pending_mid, dp_pending_rto. rewrite dp_mark_view, dp_endpoint_view by done.
  apply pending_match_view.
Qed.

(** Resetting the sidecars of an in-range slot. *)
Lemma dp_reset_view {E} p id :
  dp_inv p → (id < SLOTS)%nat →
  ∃ p', dp_reset (E:=E) p id = Ok p' ∧ dp_inv p' ∧ dp_occ p' = dp_occ p ∧
    dp_slot p' id = mkView [] None None (Occupancy_is_pinned (dp_occ p) id) ∧
    ∀ j, j ≠ id → dp_slot p' j = dp_slot p j.
Proof.
  intros Hi Hid. unfold dp_reset, set_idx.
  rewrite !(proj2 (Nat.ltb_lt _ _)) by (dp_len Hi). unbind. eexists. split; [done|]. split_and!; [|done| |].
  - destruct Hi as (? & ? & ? & ? & ? & ? & ? & ? & ?). unfold dp_inv.
    simpl.
    split_and!; rewrite ?length_insert; try done. apply Forall_insert; [done|lia].
  - unfold dp_slot. simpl. by rewrite !list_lookup_insert_eq by (dp_len Hi).
  - intros j Hj. unfold dp_slot. simpl. by rewrite !list_lookup_insert_ne.
Qed.

Lemma dp_with_occ_inv p occ :
  dp_inv p → occ_inv occ → length (oc_occupied occ) = SLOTS → length (oc_pinned occ) = SLOTS →
  dp_inv (dp_with_occ p occ).
Proof. intros (? & ? & ? & ? & ? & ? & ? & ? & ?) ? ? ?. unfold dp_inv. by split_and!. Qed.

Lemma dp_acquire_view {E} p :
  dp_inv p →
  match dp_acquire (E:=E) p with
  | Ok (p', Some id) =>
      dp_inv p' ∧ BYTES = BYTES ∧ dp_view p !! id = Some None ∧
      dp_view p' = <[id := Some fresh_view]> (dp_view p)
  | Ok (p', None) => p' = p ∧ ∀ id, dp_view p !! id ≠ Some None
  | _ => False
  end.
Proof.
  intros Hi. pose proof Hi as (Ho & Hl & Hp & Hrest). unfold dp_acquire, dp_view.
  pose proof (acquire_outcome (E:=E) (dp_occ p) Ho) as Ha.
  destruct (Occupancy_acquire (dp_occ p)) as [[occ [id|]]| | |]; try done.
  - destruct Ha as ([Hf _] & Hoi & Hocc & Hpin & _). unbind.
    assert (dp_inv (dp_with_occ p occ)) as Hi2
      by (apply dp_with_occ_inv; rewrite ?Hocc, ?Hpin, ?length_insert; done).
    assert (id < SLOTS)%nat as Hid by (rewrite <- Hl; by eapply lookup_lt_Some).
    destruct (dp_reset_view (E:=E) _ id Hi2 Hid) as (p' & -> & Hi' & Ho' & Hs & Hj).
    split_and!; [done|done|by rewrite table_lookup, Hf|].
    rewrite (table_insert (dp_occ p) (dp_occ p') (dp_slot p) (dp_slot p') id true).
    + rewrite Hs. simpl. unfold Occupancy_is_pinned. by rewrite Hpin, list_lookup_insert_eq by lia.
    + by rewrite Ho'.
    + lia.
    + intros j Hne. rewrite Hj by done. unfold dp_slot, Occupancy_is_pinned. simpl.
      by rewrite Hpin, list_lookup_insert_ne.
  - destruct Ha as [-> Hall]. unbind. split; [by destruct p|]. intros id. rewrite table_lookup.
    specialize (Hall id). unfold Occupancy_is_occupied in Hall.
    destruct (oc_occupied (dp_occ p) !! id) as [[]|] eqn:E1; [done| |done].
    apply lookup_lt_Some in E1. symmetry in Hall. simpl in Hall. bools. lia.
Qed.

Lemma dp_release_view p id :
  dp_inv p →
  match dp_view p !! id with
  | None => dp_release p id = Err InvalidSlot
  | Some None => dp_release p id = Err NotOccupied
  | Some (Some s) =>
      if sv_pinned s then dp_release p id = Err Pinned
      else ∃ p', dp_release p id = Ok p' ∧ dp_inv p' ∧ BYTES = BYTES ∧
           dp_view p' = <[id := None]> (dp_view p)
  end.
Proof.
  intros Hi. pose proof Hi as (Ho & Hl & Hp & Hrest). unfold dp_release, dp_view.
  pose proof (release_table (dp_occ p) id (dp_slot p) (dp_slot p) Ho ltac:(done)) as Hr.
  pose proof (table_lookup (dp_occ p) (dp_slot p) id) as Hlk.
  destruct (table (dp_occ p) (dp_slot p) !! id) as [[s|]|]; [|by rewrite Hr..].
  destruct (oc_occupied (dp_occ p) !! id) as [[]|] eqn:Eo; simplify_eq/=.
  destruct (Occupancy_is_pinned (dp_occ p) id); [by rewrite Hr|].
  destruct Hr as (occ & -> & Hoi & Hocc & Hpin & _). unbind.
  assert (id < SLOTS)%nat as Hid by (rewrite <- Hl; by eapply lookup_lt_Some).
  assert (dp_inv (dp_with_occ p occ)) as Hi2
    by (apply dp_with_occ_inv; rewrite ?Hocc, ?Hpin, ?length_insert; done).
  destruct (dp_reset_view (E:=SlotError) _ id Hi2 Hid) as (p' & -> & Hi' & Ho' & Hs & Hj).
  exists p'. split_and!; try done. rewrite Ho'.
  apply (table_insert (dp_occ p) occ (dp_slot p) (dp_slot p') id false); [done|lia|].
  intros j Hne. rewrite Hj by done. unfold dp_slot, Occupancy_is_pinned. simpl. by rewrite Hpin.
Qed.

Lemma dp_advance_view p n :
  dp_inv p →
  let p' := dp_with_occ p (Occupancy_advance (dp_occ p) n) in
  dp_inv p' ∧ dp_view p' = dp_view p ∧ BYTES = BYTES.
Proof.
  intros Hi p'. pose proof Hi as (Ho & Hl & Hp & _).
  destruct (advance_flags (dp_occ p) n Ho) as (Hoi & Hocc & Hpin). split_and!; [| |done].
  - apply dp_with_occ_inv; by rewrite ?Hocc, ?Hpin.
  - unfold dp_view, table, p'. simpl. rewrite Hocc. apply imap_ext. intros i b _. simpl.
    unfold dp_slot, Occupancy_is_pinned. simpl. by rewrite Hpin.
Qed.

Lemma dp_access_view p id :
  dp_inv p →
  match slot_at (dp_view p) id with
  | Some s =>
      if sv_pinned s then dp_access p id = Err Pinned
      else ∃ p', dp_access p id = Ok (p', sv_payload s) ∧ dp_inv p' ∧ BYTES = BYTES ∧
           dp_view p' = <[id := Some (set_view_pinned true s)]> (dp_view p)
  | None => dp_access p id = Err (slot_refusal (length (dp_view p)) id)
  end.
Proof.
  intros Hi. pose proof Hi as (Ho & Hl & Hp & _). rewrite <- dp_count by done.
  pose proof (try_pin_table (dp_occ p) id Ho ltac:(lia)) as Ht. unfold dp_view. rewrite table_slot_at.
  unfold dp_access. destruct (Occupancy_is_occupied (dp_occ p) id) eqn:Hoc; [|by rewrite Ht].
  destruct (dp_slot_range p id Hi Hoc) as (buf & len & e & m & Eb & El & _ & _ & Hlb & Hle & Hid & Hs).
  rewrite Hs. simpl. destruct (Occupancy_is_pinned (dp_occ p) id); [by rewrite Ht|].
  destruct Ht as (occ & -> & Hoi & Hocc & Hpin). unbind. unfold idx. rewrite Eb, El, slice_prefix by lia.
  eexists. split; [done|]. split_and!; [|done|].
  - apply dp_with_occ_inv; rewrite ?Hocc, ?Hpin, ?length_insert; done.
  - assert (dp_slot (dp_with_occ p occ) id = set_view_pinned true (dp_slot p id)) as Hs'.
    { unfold dp_slot, set_view_pinned, Occupancy_is_pinned. simpl.
      by rewrite Hpin, list_lookup_insert_eq by lia. }
    rewrite Hs in Hs'. change (mkView (take len buf) e m true) with (set_view_pinned true (mkView (take len buf) e m false)).
    rewrite <- Hs'. simpl. apply (table_insert (dp_occ p) occ (dp_slot p) _ id true).
    + rewrite Hocc. symmetry. apply list_insert_id. unfold Occupancy_is_occupied in Hoc.
      by destruct (oc_occupied (dp_occ p) !! id) as [[]|].
    + lia.
    + intros j Hne. unfold dp_slot, Occupancy_is_pinned. simpl. by rewrite Hpin, list_lookup_insert_ne.
Qed.

Lemma dp_replace_view p q bytes :
  dp_inv p →
  let v := dp_view p in
  let id := pc_tx_slot q in
  match validate_replacement q (view_pending v id) (option_map sv_payload (slot_at v id)) bytes
          BYTES (match slot_at v id with Some s => sv_pinned s | None => false end) with
  | Ok q' =>
      ∃ p' s, dp_replace_pending p q bytes = Ok (p', q') ∧ slot_at v id = Some s ∧
        dp_inv p' ∧ BYTES = BYTES ∧
        dp_view p' = <[id := Some (set_view_payload bytes
          (set_view_pending (Some (mkMark (pc_message_id q') (pc_rto q'))) s))]> v
  | Err e => dp_replace_pending p q bytes = Err e
  | Panic => dp_replace_pending p q bytes = Panic
  | Diverge => dp_replace_pending p q bytes = Diverge
  end.
Proof.
  intros Hi v id. pose proof Hi as (Ho & Hl & Hp & _).
  assert (Occupancy_is_pinned (dp_occ p) id =
    match slot_at v id with Some s => sv_pinned s | None => false end) as Hpin.
  { unfold v, dp_view. rewrite table_slot_at. destruct (Occupancy_is_occupied _ _) eqn:E; [done|].
    by apply pinned_of_slot. }
  unfold dp_replace_pending. fold id. rewrite dp_endpoint_view, dp_payload_view by done. unbind.
  unfold dp_pending_mid, dp_pending_rto. rewrite dp_mark_view. fold v. rewrite zip_pending_view, Hpin.
  destruct (validate_replacement _ _ _ _ _ _) as [q'| | |] eqn:Ev; try done.
  apply validate_replacement_ok in Ev as (Hq & _ & _ & Hlen & _).
  unfold view_pending in Hq. unfold v, dp_view in *. rewrite table_slot_at in *.
  destruct (Occupancy_is_occupied (dp_occ p) id) eqn:Hoc; [|done].
  destruct (dp_slot_range p id Hi Hoc) as (buf & len & e & m & Eb & El & Ee & Em & Hlb & Hle & Hid & Hs).
  unfold idx. rewrite Eb, copy_into_ok by lia. unfold set_idx.
  rewrite !(proj2 (Nat.ltb_lt _ _)) by (dp_len Hi). unbind.
  eexists _, _. split; [done|]. split; [done|]. split_and!; [|done|].
  - destruct Hi as (? & ? & ? & ? & ? & ? & ? & ? & ?). unfold dp_inv; simpl.
    split_and!; rewrite ?length_insert; try done; apply Forall_insert; try done.
    by rewrite length_splice by (simpl; lia).
  - erewrite table_update; [|done|].
    + do 2 f_equal. rewrite Hs. unfold dp_slot. simpl. rewrite !list_lookup_insert_eq by (dp_len Hi).
      rewrite Ee. unfold set_view_payload, set_view_pending. simpl. f_equal.
      by apply (take_splice buf bytes 0); lia.
    + intros j Hj. unfold dp_slot. simpl. by rewrite !list_lookup_insert_ne.
Qed.
End datagram_pool_laws.

#[export] Instance DatagramPool_laws {SLOTS BYTES : nat} `{Target} :
  DatagramLaws (DatagramPool SLOTS BYTES).
Proof.
  refine {| pool_inv := dp_inv; pool_view := dp_view; pool_cap := fun _ => BYTES |}.
  - apply dp_count.
  - intros p id _. apply dp_occupied.
  - intros p E. apply dp_acquire_view.
  - apply dp_release_view.
  - intros p n Hi. by apply dp_advance_view.
  - intros p id E. apply dp_payload_view.
  - intros p id E. apply dp_endpoint_view.
  - intros p id _. simpl. unfold dp_pending_mid. by rewrite dp_mark_view.
  - intros p id _. simpl. unfold dp_pending_rto. by rewrite dp_mark_view.
  - apply dp_set_endpoint_view.
  - intros p id mid rto. by apply dp_set_mark_view.
  - intros p id. by apply dp_set_mark_view.
  - intros p mid e E. apply dp_lookup_view.
  - apply dp_access_view.
  - apply dp_replace_view.
Defined.

(** ** [AllocDatagramPool] keeps the promise *)
Section alloc_pool_laws.
Context `{Target}.
Implicit Types (p : AllocDatagramPool) (id : SlotId).

Definition ad_inv p : Prop :=
  occ_inv (ad_occ p) ∧ length (oc_occupied (ad_occ p)) = length (ad_slots p) ∧
  length (oc_pinned (ad_occ p)) = length (ad_slots p) ∧
  Forall (fun s => length (as_buf s) = ad_slot_bytes p ∧ (as_len s ≤ ad_slot_bytes p)%nat) (ad_slots p).

(** The contents of a slot record. *)
Definition as_view (pinned : bool) (s : AllocSlot) : SlotView :=
  mkView (take (as_len s) (as_buf s)) (as_endpoint s) (as_pending s) pinned.

Definition ad_slot p id : SlotView :=
  match ad_slots p !! id with
  | Some s => as_view (Occupancy_is_pinned (ad_occ p) id) s
  | None => fresh_view
  end.

Definition ad_view p : list (option SlotView) := table (ad_occ p) (ad_slot p).

Lemma ad_slot_range p id :
  ad_inv p → Occupancy_is_occupied (ad_occ p) id = true →
  ∃ s, ad_slots p !! id = Some s ∧ length (as_buf s) = ad_slot_bytes p ∧
    (as_len s ≤ ad_slot_bytes p)%nat ∧ (id < length (ad_slots p))%nat ∧
    ad_slot p id = as_view (Occupancy_is_pinned (ad_occ p) id) s.
Proof.
  intros (_ & Hl & _ & Hf) Hocc%occupied_lt.
  destruct (lookup_lt_is_Some_2 (ad_slots p) id) as [s Es]; [lia|]. exists s.
  pose proof (Forall_lookup_1 _ _ _ _ Hf Es) as [? ?]. unfold ad_slot. rewrite Es. split_and!; done || lia.
Qed.

Lemma ad_count p : ad_inv p → length (oc_occupied (ad_occ p)) = length (ad_view p).
Proof. intros _. unfold ad_view. by rewrite table_length. Qed.

Lemma ad_occupied p id :
  Occupancy_is_occupied (ad_occ p) id = bool_decide (is_Some (slot_at (ad_view p) id)).
Proof.
  unfold ad_view. rewrite table_slot_at.
  destruct (Occupancy_is_occupied _ _); symmetry; [by apply bool_decide_eq_true; eauto|].
  apply bool_decide_eq_false. by intros [? ?].
Qed.

Lemma ad_payload_view {E} p id :
  ad_inv p → ad_payload (E:=E) p id = Ok (option_map sv_payload (slot_at (ad_view p) id)).
Proof.
  intros Hi. unfold ad_payload, ad_view. rewrite table_slot_at.
  destruct (Occupancy_is_occupied _ _) eqn:Ho; [|done].
  destruct (ad_slot_range p id Hi Ho) as (s & Es & Hb & Hn & _ & Hs).
  rewrite Hs, Es. cbn [negb]. rewrite slice_prefix by lia. done.
Qed.

Lemma ad_endpoint_view p id :
  ad_inv p → ad_endpoint p id = mjoin (option_map sv_endpoint (slot_at (ad_view p) id)).
Proof.
  intros Hi. unfold ad_endpoint, ad_view. rewrite table_slot_at.
  destruct (Occupancy_is_occupied _ _) eqn:Ho; [|done].
  destruct (ad_slot_range p id Hi Ho) as (s & Es & _ & _ & _ & Hs). by rewrite Hs, Es.
Qed.

Lemma ad_mark_view p id :
  ad_inv p → ad_pending_mark p id = mjoin (option_map sv_pending (slot_at (ad_view p) id)).
Proof.
  intros Hi. unfold ad_pending_mark, ad_view. rewrite table_slot_at.
  destruct (Occupancy_is_occupied _ _) eqn:Ho; [|done].
  destruct (ad_slot_range p id Hi Ho) as (s & Es & _ & _ & _ & Hs). by rewrite Hs, Es.
Qed.

(** Replacing the record of a slot. *)
Lemma ad_put_slot p id s s' :
  ad_inv p → ad_slots p !! id = Some s →
  length (as_buf s') = ad_slot_bytes p → (as_len s' ≤ ad_slot_bytes p)%nat →
  let p' := ad_with_slots p (<[id := s']> (ad_slots p)) in
  ad_inv p' ∧ ad_slot p' id = as_view (Occupancy_is_pinned (ad_occ p) id) s' ∧
  ∀ j, j ≠ id → ad_slot p' j = ad_slot p j.
Proof.
  intros (Ho & Hl & Hp & Hf) Es Hb Hn p'. pose proof (lookup_lt_Some _ _ _ Es). split_and!.
  - unfold ad_inv. simpl. split_and!; rewrite ?length_insert; try done. by apply Forall_insert.
  - unfold ad_slot. simpl. by rewrite list_lookup_insert_eq.
  - intros j Hj. unfold ad_slot. simpl. by rewrite list_lookup_insert_ne.
Qed.

(** Every setter. *)
Lemma ad_modify_view p id f g :
  (∀ s b, as_view b (f s) = g (as_view b s)) →
  (∀ s, as_buf (f s) = as_buf s ∧ as_len (f s) = as_len s) → ad_inv p →
  updates ad_inv ad_view ad_slot_bytes p id
    (if negb (Occupancy_is_occupied (ad_occ p) id)
     then Err (slot_refusal (length (oc_occupied (ad_occ p))) id) else ad_modify p id f) g.
Proof.
  intros Hg Hf Hi. unfold updates, ad_view.
  pose proof (table_slot_at (ad_occ p) (ad_slot p) id) as Hat.
  destruct (Occupancy_is_occupied (ad_occ p) id) eqn:Ho; cbn [negb].
  - destruct (ad_slot_range p id Hi Ho) as (s & Es & Hb & Hn & Hid & Hs). unfold slot_at in Hat.
    destruct (table (ad_occ p) (ad_slot p) !! id) as [[t|]|]; simplify_eq/=.
    destruct (Hf s) as [Hfb Hfl].
    destruct (ad_put_slot p id s (f s) Hi Es) as (Hi' & Hs' & Hj); [by rewrite Hfb|by rewrite Hfl|].
    eexists. split; [|split_and!; [exact Hi'|done|]].
    + unfold ad_modify, idx, set_idx. rewrite Es. unbind. by rewrite (proj2 (Nat.ltb_lt _ _)).
    + rewrite Hs, <- Hg, <- Hs'. by apply (table_update (ad_occ p)).
  - rewrite table_refusal by done. unfold slot_refusal. by destruct (id <? _)%nat.
Qed.

Lemma ad_lookup_view {E} p mid e :
  ad_inv p →
  ad_lookup_pending (E:=E) p mid e =
    find_slot (seq 0 (length (ad_view p))) (fun id => Ok (
      match view_pending (ad_view p) id with
      | Some q => eqb (pc_message_id q) mid && eqb (pc_endpoint q) e && rto_started (pc_rto q)
      | None => false
      end)).
Proof.
  intros Hi. unfold ad_lookup_pending. rewrite <- ad_count by done.
  apply find_slot_ext. intros id. unfold ad_pending_mid, ad_pending_rto.
  rewrite ad_mark_view, ad_endpoint_view by done. apply pending_match_view.
Qed.

Lemma ad_with_occ_inv p occ :
  ad_inv p → occ_inv occ → length (oc_occupied occ) = length (ad_slots p) →
  length (oc_pinned occ) = length (ad_slots p) → ad_inv (ad_with_occ p occ).
Proof. intros (? & ? & ? & ?) ? ? ?. unfold ad_inv. by split_and!. Qed.

Lemma ad_reset_view p id :
  ad_inv p → (id < length (ad_slots p))%nat →
  ad_inv (ad_reset p id) ∧ ad_occ (ad_reset p id) = ad_occ p ∧
  ad_slot_bytes (ad_reset p id) = ad_slot_bytes p ∧
  ad_slot (ad_reset p id) id = mkView [] None None (Occupancy_is_pinned (ad_occ p) id) ∧
  ∀ j, j ≠ id → ad_slot (ad_reset p id) j = ad_slot p j.
Proof.
  intros Hi Hid. unfold ad_reset. destruct (lookup_lt_is_Some_2 (ad_slots p) id Hid) as [s Es]. rewrite Es.
  pose proof Hi as (_ & _ & _ & Hf). pose proof (Forall_lookup_1 _ _ _ _ Hf Es) as [? ?].
  destruct (ad_put_slot p id s (mkAllocSlot (as_buf s) 0 None None) Hi Es) as (Hi' & Hs' & Hj);
    [done|simpl; lia|]. by split_and!.
Qed.

Lemma ad_acquire_view {E} p :
  ad_inv p →
  match ad_acquire (E:=E) p with
  | Ok (p', Some id) =>
      ad_inv p' ∧ ad_slot_bytes p' = ad_slot_bytes p ∧ ad_view p !! id = Some None ∧
      ad_view p' = <[id := Some fresh_view]> (ad_view p)
  | Ok (p', None) => p' = p ∧ ∀ id, ad_view p !! id ≠ Some None
  | _ => False
  end.
Proof.
  intros Hi. pose proof Hi as (Ho & Hl & Hp & Hrest). unfold ad_acquire, ad_view.
  pose proof (acquire_outcome (E:=E) (ad_occ p) Ho) as Ha.
  destruct (Occupancy_acquire (ad_occ p)) as [[occ [id|]]| | |]; try done.
  - destruct Ha as ([Hf _] & Hoi & Hocc & Hpin & _). unbind.
    assert (ad_inv (ad_with_occ p occ)) as Hi2
      by (apply ad_with_occ_inv; rewrite ?Hocc, ?Hpin, ?length_insert; done).
    assert (id < length (ad_slots p))%nat as Hid by (rewrite <- Hl; by eapply lookup_lt_Some).
    destruct (ad_reset_view (ad_with_occ p occ) id Hi2 Hid) as (Hi' & Ho' & Hb & Hs & Hj).
    split_and!; [done|done|by rewrite table_lookup, Hf|].
    rewrite (table_insert (ad_occ p) _ (ad_slot p) (ad_slot (ad_reset (ad_with_occ p occ) id)) id true).
    + rewrite Hs. simpl. unfold Occupancy_is_pinned. by rewrite Hpin, list_lookup_insert_eq by lia.
    + by rewrite Ho'.
    + lia.
    + intros j Hne. rewrite Hj by done. unfold ad_slot, Occupancy_is_pinned. simpl.
      by rewrite Hpin, list_lookup_insert_ne.
  - destruct Ha as [-> Hall]. unbind. split; [by destruct p|]. intros id. rewrite table_lookup.
    specialize (Hall id). unfold Occupancy_is_occupied in Hall.
    destruct (oc_occupied (ad_occ p) !! id) as [[]|] eqn:E1; [done| |done].
    apply lookup_lt_Some in E1. symmetry in Hall. simpl in Hall. bools. lia.
Qed.

Lemma ad_release_view p id :
  ad_inv p →
  match ad_view p !! id with
  | None => ad_release p id = Err InvalidSlot
  | Some None => ad_release p id = Err NotOccupied
  | Some (Some s) =>
      if sv_pinned s then ad_release p id = Err Pinned
      else ∃ p', ad_release p id = Ok p' ∧ ad_inv p' ∧ ad_slot_bytes p' = ad_slot_bytes p ∧
           ad_view p' = <[id := None]> (ad_view p)
  end.
Proof.
  intros Hi. pose proof Hi as (Ho & Hl & Hp & Hrest). unfold ad_release, ad_view.
  pose proof (release_table (ad_occ p) id (ad_slot p) (ad_slot p) Ho ltac:(done)) as Hr.
  pose proof (table_lookup (ad_occ p) (ad_slot p) id) as Hlk.
  destruct (table (ad_occ p) (ad_slot p) !! id) as [[s|]|]; [|by rewrite Hr..].
  assert (Occupancy_is_occupied (ad_occ p) id = true) as Hoc.
  { unfold Occupancy_is_occupied. by destruct (oc_occupied (ad_occ p) !! id) as [[]|]. }
  destruct (oc_occupied (ad_occ p) !! id) as [[]|] eqn:Eo; simplify_eq/=.
  destruct (ad_slot_range p id Hi Hoc) as (s & Es & _ & _ & Hid & Hs). rewrite Hs. simpl.
  destruct (Occupancy_is_pinned (ad_occ p) id); [by rewrite Hr|].
  destruct Hr as (occ & -> & Hoi & Hocc & Hpin & _). unbind.
  assert (ad_inv (ad_with_occ p occ)) as Hi2
    by (apply ad_with_occ_inv; rewrite ?Hocc, ?Hpin, ?length_insert; done).
  destruct (ad_reset_view (ad_with_occ p occ) id Hi2 Hid) as (Hi' & Ho' & Hb & Hs' & Hj).
  eexists. split; [done|]. split_and!; try done. rewrite Ho'.
  apply (table_insert (ad_occ p) occ (ad_slot p) _ id false); [done|lia|].
  intros j Hne. rewrite Hj by done. unfold ad_slot, Occupancy_is_pinned. simpl. by rewrite Hpin.
Qed.

Lemma ad_advance_view p n :
  ad_inv p →
  let p' := ad_with_occ p (Occupancy_advance (ad_occ p) n) in
  ad_inv p' ∧ ad_view p' = ad_view p ∧ ad_slot_bytes p' = ad_slot_bytes p.
Proof.
  intros Hi p'. pose proof Hi as (Ho & Hl & Hp & _).
  destruct (advance_flags (ad_occ p) n Ho) as (Hoi & Hocc & Hpin). split_and!; [| |done].
  - apply ad_with_occ_inv; by rewrite ?Hocc, ?Hpin.
  - unfold ad_view, table, p'. simpl. rewrite Hocc. apply imap_ext. intros i b _. simpl.
    unfold ad_slot, Occupancy_is_pinned. simpl. by rewrite Hpin.
Qed.

Lemma ad_access_view p id :
  ad_inv p →
  match slot_at (ad_view p) id with
  | Some s =>
      if sv_pinned s then ad_access p id = Err Pinned
      else ∃ p', ad_access p id = Ok (p', sv_payload s) ∧ ad_inv p' ∧ ad_slot_bytes p' = ad_slot_bytes p ∧
           ad_view p' = <[id := Some (set_view_pinned true s)]> (ad_view p)
  | None => ad_access p id = Err (slot_refusal (length (ad_view p)) id)
  end.
Proof.
  intros Hi. pose proof Hi as (Ho & Hl & Hp & _). rewrite <- ad_count by done.
  pose proof (try_pin_table (ad_occ p) id Ho ltac:(lia)) as Ht. unfold ad_view. rewrite table_slot_at.
  unfold ad_access. destruct (Occupancy_is_occupied (ad_occ p) id) eqn:Hoc; [|by rewrite Ht].
  destruct (ad_slot_range p id Hi Hoc) as (s & Es & Hb & Hn & Hid & Hs).
  rewrite Hs. simpl. destruct (Occupancy_is_pinned (ad_occ p) id); [by rewrite Ht|].
  destruct Ht as (occ & -> & Hoi & Hocc & Hpin). unbind. rewrite Es. unfold ok_or.
  rewrite slice_prefix by lia. eexists. split; [done|]. split_and!; [|done|].
  - apply ad_with_occ_inv; rewrite ?Hocc, ?Hpin, ?length_insert; done.
  - assert (ad_slot (ad_with_occ p occ) id = as_view true s) as Hs'.
    { unfold ad_slot, Occupancy_is_pinned. simpl. by rewrite Es, Hpin, list_lookup_insert_eq by lia. }
    change (set_view_pinned true (as_view false s)) with (as_view true s). rewrite <- Hs'. simpl.
    apply (table_insert (ad_occ p) occ (ad_slot p) _ id true).
    + rewrite Hocc. symmetry. apply list_insert_id. unfold Occupancy_is_occupied in Hoc.
      by destruct (oc_occupied (ad_occ p) !! id) as [[]|].
    + lia.
    + intros j Hne. unfold ad_slot, Occupancy_is_pinned. simpl. by rewrite Hpin, list_lookup_insert_ne.
Qed.

Lemma ad_replace_view p q bytes :
  ad_inv p →
  let v := ad_view p in
  let id := pc_tx_slot q in
  match validate_replacement q (view_pending v id) (option_map sv_payload (slot_at v id)) bytes
          (ad_slot_bytes p) (match slot_at v id with Some s => sv_pinned s | None => false end) with
  | Ok q' =>
      ∃ p' s, ad_replace_pending p q bytes = Ok (p', q') ∧ slot_at v id = Some s ∧
        ad_inv p' ∧ ad_slot_bytes p' = ad_slot_bytes p ∧
        ad_view p' = <[id := Some (set_view_payload bytes
          (set_view_pending (Some (mkMark (pc_message_id q') (pc_rto q'))) s))]> v
  | Err e => ad_replace_pending p q bytes = Err e
  | Panic => ad_replace_pending p q bytes = Panic
  | Diverge => ad_replace_pending p q bytes = Diverge
  end.
Proof.
  intros Hi v id. pose proof Hi as (Ho & Hl & Hp & _).
  assert (Occupancy_is_pinned (ad_occ p) id =
    match slot_at v id with Some s => sv_pinned s | None => false end) as Hpin.
  { unfold v, ad_view. rewrite table_slot_at. destruct (Occupancy_is_occupied _ _) eqn:E.
    - destruct (ad_slot_range p id Hi E) as (s & _ & _ & _ & _ & Hs). by rewrite Hs.
    - by apply pinned_of_slot. }
  unfold ad_replace_pending. fold id. rewrite ad_endpoint_view, ad_payload_view by done. unbind.
  unfold ad_pending_mid, ad_pending_rto. rewrite ad_mark_view by done. fold v.
  rewrite zip_pending_view, Hpin.
  destruct (validate_replacement _ _ _ _ _ _) as [q'| | |] eqn:Ev; try done.
  apply validate_replacement_ok in Ev as (Hq & _ & _ & Hlen & _).
  unfold view_pending in Hq. unfold v, ad_view in *. rewrite table_slot_at in *.
  destruct (Occupancy_is_occupied (ad_occ p) id) eqn:Hoc; [|done].
  destruct (ad_slot_range p id Hi Hoc) as (s & Es & Hb & Hn & Hid & Hs).
  unfold idx. rewrite Es, copy_into_ok by lia. unbind.
  eexists _, _. split; [done|]. split; [done|].
  match goal with |- context [<[id := ?s']> (ad_slots p)] =>
    destruct (ad_put_slot p id s s' Hi Es) as (Hi' & Hs' & Hj) end;
    [by simpl; rewrite length_splice by (simpl; lia)|done|].
  split_and!; [done|done|]. erewrite table_update; [|done|exact Hj].
  do 2 f_equal. rewrite Hs', Hs. unfold set_view_payload, set_view_pending, as_view. simpl. f_equal.
  by apply (take_splice (as_buf s) bytes 0); lia.
Qed.
End alloc_pool_laws.

#[export] Instance AllocDatagramPool_laws `{Target} : DatagramLaws AllocDatagramPool.
Proof.
  refine {| pool_inv := ad_inv; pool_view := ad_view; pool_cap := ad_slot_bytes |}.
  - apply ad_count.
  - intros p id _. apply ad_occupied.
  - intros p E. apply ad_acquire_view.
  - apply ad_release_view.
  - intros p n Hi. by apply ad_advance_view.
  - intros p id E. apply ad_payload_view.
  - intros p id E Hi. simpl. by rewrite ad_endpoint_view.
  - intros p id Hi. simpl. unfold ad_pending_mid. by rewrite ad_mark_view.
  - intros p id Hi. simpl. unfold ad_pending_rto. by rewrite ad_mark_view.
  - intros p id e. by apply ad_modify_view.
  - intros p id mid rto. by apply ad_modify_view.
  - intros p id. by apply ad_modify_view.
  - intros p mid e E. apply ad_lookup_view.
  - apply ad_access_view.
  - apply ad_replace_view.
Defined.
