(* ===== verification/PendingCons.v ===== *)
(** * Pending confirmable messages on the outgoing pool

    [src/storage/memory.rs], [impl PendingCons for Memory] (and the same code
    in [src/storage/alloc_memory.rs]): recording a sent CON, reserving and
    committing one around an asynchronous send, matching ACK and RST, and
    driving retransmissions.  The operations are generic in the pool, as in the
    source, and the theorems use only the laws of [DatagramLaws]. *)
From S2P Require Import Prelude Errors MsgTypes Options Decode Occupancy Pending DatagramPool.

(** The fields of [Memory] these operations touch. *)
Record TxMemory (P : Type) : Type := mkTx { tx_pool : P; tx_retransmit_cursor : nat }.
Arguments mkTx {P} _ _.
Arguments tx_pool {P} _.
Arguments tx_retransmit_cursor {P} _.

(** [r.ok()]: an error is dropped, a panic is not. *)
Definition ok_of {E F A} (r : res F A) : res E (option A) :=
  match r with
  | Ok a => Ok (Some a)
  | Err _ => Ok None
  | Panic => Panic
  | Diverge => Diverge
  end.

Section pending_cons.
Context {P : Type} `{Target} `{SlotPool P} `{DatagramBytes P}.
Implicit Types (m : TxMemory P) (id : SlotId).

Definition tx_with_pool m (p : P) : TxMemory P := mkTx p (tx_retransmit_cursor m).

Definition pending_con {E} m id : res E (option PendingCon) :=
  match db_pending_mid (tx_pool m) id with
  | None => Ok None
  | Some message_id =>
      endpoint ← db_endpoint (tx_pool m) id;
      match endpoint with
      | None => mret None
      | Some endpoint =>
          match db_pending_rto (tx_pool m) id with
          | None => mret None
          | Some rto =>
              mret (Some (PendingCon_with_rto (PendingCon_new message_id endpoint id) rto))
          end
      end
  end.

(** [set_endpoint(..).ok()?; set_pending(..).ok()?; Some(tt)]. *)
Definition store_pending {E} m id (endpoint : Endpoint) (message_id : MessageId) (rto : PendingRto)
    : res E (TxMemory P * option unit) :=
  p1 ← ok_of (db_set_endpoint (tx_pool m) id endpoint);
  match p1 with
  | None => mret (m, None)
  | Some p1 =>
      p2 ← ok_of (db_set_pending p1 id message_id rto);
      match p2 with
      | None => mret (tx_with_pool m p1, None)
      | Some p2 => mret (tx_with_pool m p2, Some tt)
      end
  end.

Definition reserve_pending_con {E} m id (endpoint : Endpoint) (message_id : MessageId)
    : res E (TxMemory P * option PendingCon) :=
  if negb (sp_is_occupied (tx_pool m) id) then mret (m, None)
  else
    current ← pending_con m id;
    match current with
    | Some current =>
        mret (m, if negb (rto_started (pc_rto current)) && eqb (pc_message_id current) message_id
                    && eqb (pc_endpoint current) endpoint
                 then Some current else None)
    | None =>
        outstanding ← outstanding_pending (sp_slot_count (tx_pool m)) endpoint (pending_con m);
        match record_admission None message_id endpoint outstanding with
        | None => mret (m, None)
        | Some _ =>
            '(m, stored) ← store_pending m id endpoint message_id PendingRto_reserved;
            match stored with
            | None => mret (m, None)
            | Some _ => r ← pending_con m id; mret (m, r)
            end
        end
    end.

Definition commit_pending_con {E} m (expected : PendingCon) (now_ms jitter_ms : Z)
    : res E (TxMemory P * option PendingCon) :=
  if rto_started (pc_rto expected) then mret (m, None)
  else
    current ← pending_con m (pc_tx_slot expected);
    if negb (eqb current (Some expected)) then mret (m, None)
    else
      p ← ok_of (db_set_pending (tx_pool m) (pc_tx_slot expected) (pc_message_id expected)
                   (PendingRto_new now_ms jitter_ms));
      match p with
      | None => mret (m, None)
      | Some p =>
          let m := tx_with_pool m p in
          r ← pending_con m (pc_tx_slot expected);
          mret (m, r)
      end.

Definition cancel_pending_con {E} m (expected : PendingCon) : res E (TxMemory P * bool) :=
  if rto_started (pc_rto expected) then mret (m, false)
  else
    current ← pending_con m (pc_tx_slot expected);
    if negb (eqb current (Some expected)) then mret (m, false)
    else
      p ← ok_of (db_clear_pending_mid (tx_pool m) (pc_tx_slot expected));
      match p with
      | None => mret (m, false)
      | Some p => mret (tx_with_pool m p, true)
      end.

Definition record_pending_con {E} m id (endpoint : Endpoint) (message_id : MessageId)
    (now_ms jitter_ms : Z) : res E (TxMemory P * option SlotId) :=
  if negb (sp_is_occupied (tx_pool m) id) then mret (m, None)
  else
    existing ← pending_con m id;
    if match existing with Some pending => negb (rto_started (pc_rto pending)) | None => false end
    then mret (m, None)
    else
      outstanding ← outstanding_pending (sp_slot_count (tx_pool m)) endpoint (pending_con m);
      match record_admission existing message_id endpoint outstanding with
      | None => mret (m, None)
      | Some false => mret (m, Some id)
      | Some true =>
          '(m, stored) ← store_pending m id endpoint message_id (PendingRto_new now_ms jitter_ms);
          match stored with
          | None => mret (m, None)
          | Some _ => mret (m, Some id)
          end
      end.

Definition lookup_pending_con {E} m (message_id : MessageId) (endpoint : Endpoint)
    : res E (option SlotId) := db_lookup_pending (tx_pool m) message_id endpoint.

Definition take_pending_con {E} m (message_id : MessageId) (endpoint : Endpoint)
    : res E (TxMemory P * option SlotId) :=
  id ← db_lookup_pending (tx_pool m) message_id endpoint;
  match id with
  | None => mret (m, None)
  | Some id =>
      p ← ok_of (db_clear_pending_mid (tx_pool m) id);
      match p with
      | None => mret (m, None)
      | Some p => mret (tx_with_pool m p, Some id)
      end
  end.

Definition peek_retransmit {E} m (now_ms : Z) : res E (option PendingCon) :=
  due ← next_due_slot (sp_slot_count (tx_pool m)) (tx_retransmit_cursor m) now_ms (pending_con m);
  match due with
  | None => mret None
  | Some due => pending_con m (due_id due)
  end.

Definition commit_retransmit {E} m (expected : PendingCon) (now_ms : Z)
    : res E (TxMemory P * option Retransmit) :=
  current ← pending_con m (pc_tx_slot expected);
  if negb (eqb current (Some expected)) then mret (m, None)
  else
    match due_snapshot expected now_ms with
    | None => mret (m, None)
    | Some due =>
        p ← ok_of (match due_mark due with
                   | Some mark => db_set_pending (tx_pool m) (due_id due) (mark_mid mark) (mark_rto mark)
                   | None => db_clear_pending_mid (tx_pool m) (due_id due)
                   end);
        match p with
        | None => mret (m, None)
        | Some p => mret (mkTx p (due_id due + 1)%nat, Some (due_event due))
        end
    end.

Definition poll_retransmit {E} m (now_ms : Z) : res E (TxMemory P * option Retransmit) :=
  expected ← peek_retransmit m now_ms;
  match expected with
  | None => mret (m, None)
  | Some expected => commit_retransmit m expected now_ms
  end.

Definition replace_pending_con m (expected : PendingCon) (bytes : list Z)
    : res PendingReplaceError (TxMemory P * PendingCon) :=
  '(p, r) ← db_replace_pending (tx_pool m) expected bytes;
  mret (tx_with_pool m p, r).
End pending_cons.

(** ** Tables of slots and what they show as pending *)

(** The pending message an entry shows. *)
Definition slot_pending (id : SlotId) (s : option SlotView) : option PendingCon :=
  match s with
  | Some s =>
      match sv_pending s, sv_endpoint s with
      | Some k, Some e => Some (mkPendingCon (mark_mid k) e id (mark_rto k))
      | _, _ => None
      end
  | None => None
  end.

Lemma view_pending_slot v id : view_pending v id = slot_pending id (slot_at v id).
Proof. done. Qed.

Lemma slot_at_insert v id s j :
  (id < length v)%nat → slot_at (<[id := s]> v) j = if decide (j = id) then s else slot_at v j.
Proof.
  intros Hid. unfold slot_at. destruct (decide (j = id)) as [->|Hne].
  - by rewrite list_lookup_insert_eq.
  - by rewrite list_lookup_insert_ne.
Qed.

Lemma view_pending_insert v id s j :
  (id < length v)%nat →
  view_pending (<[id := s]> v) j = if decide (j = id) then slot_pending id s else view_pending v j.
Proof.
  intros Hid. rewrite !view_pending_slot, slot_at_insert by done.
  destruct (decide (j = id)) as [->|]; done.
Qed.

Lemma slot_at_lt v id s : slot_at v id = Some s → (id < length v)%nat.
Proof. unfold slot_at. destruct (v !! id) eqn:E; [|done]. intros _. by eapply lookup_lt_Some. Qed.

Lemma view_pending_at v id q :
  view_pending v id = Some q →
  ∃ s, slot_at v id = Some s ∧ sv_pending s = Some (mkMark (pc_message_id q) (pc_rto q)) ∧
    sv_endpoint s = Some (pc_endpoint q) ∧ pc_tx_slot q = id.
Proof.
  unfold view_pending. destruct (slot_at v id) as [s|]; [|done].
  destruct (sv_pending s) as [[mid rto]|] eqn:E1, (sv_endpoint s) eqn:E2; try done.
  intros [= <-]. by exists s.
Qed.

(** At most one outstanding message per physical address. *)
Definition nstart (v : list (option SlotView)) : Prop :=
  ∀ i j qi qj, view_pending v i = Some qi → view_pending v j = Some qj →
    Endpoint_physical (pc_endpoint qi) = Endpoint_physical (pc_endpoint qj) → i = j.

(** Does the table show a message outstanding to [e]'s address at [id]? *)
Definition outstanding_at (v : list (option SlotView)) (e : Endpoint) (id : SlotId) : bool :=
  match view_pending v id with
  | Some q => eqb (Endpoint_physical (pc_endpoint q)) (Endpoint_physical e)
  | None => false
  end.

(** Replacing one entry keeps [nstart] when the new message, if any, is the
    only one to its address. *)
Lemma nstart_insert v id s :
  nstart v → (id < length v)%nat →
  (∀ q, slot_pending id s = Some q → ∀ j, j ≠ id → outstanding_at v (pc_endpoint q) j = false) →
  nstart (<[id := s]> v).
Proof.
  intros Hn Hid Hs i j qi qj Hi Hj He. rewrite view_pending_insert in Hi, Hj by done.
  destruct (decide (i = id)) as [->|Hi'], (decide (j = id)) as [->|Hj']; try done.
  - specialize (Hs qi Hi j Hj'). unfold outstanding_at in Hs. rewrite Hj in Hs. bools. congruence.
  - specialize (Hs qj Hj i Hi'). unfold outstanding_at in Hs. rewrite Hi in Hs. bools. congruence.
  - by eapply Hn.
Qed.

Lemma outstanding_loop_spec {E} ids e (v : list (option SlotView)) :
  outstanding_loop (E:=E) ids e (fun id => Ok (view_pending v id)) =
  Ok (length (filter (fun id => outstanding_at v e id = true) ids)).
Proof.
  induction ids as [|id ids IH]; [done|]. cbn [outstanding_loop]. unbind. rewrite IH. f_equal.
  rewrite filter_cons. destruct (decide _) as [Ho|Ho]; unfold outstanding_at in Ho;
    destruct (view_pending v id) as [q|]; try done; by destruct (eqb _ _).
Qed.

(** Under [nstart] the count is at most one, and zero when no slot is. *)
Lemma outstanding_le v e n :
  nstart v → (length (filter (fun id => outstanding_at v e id = true) (seq 0 n)) ≤ 1)%nat.
Proof.
  intros Hn. set (l := filter _ _).
  assert (NoDup l) as Hd by (apply NoDup_filter, NoDup_seq).
  assert (∀ i, i ∈ l → outstanding_at v e i = true) as Hl by (intros i [Hi _]%list_elem_of_filter; done).
  destruct l as [|i [|j l]]; simpl; [lia..|]. exfalso.
  assert (i = j); [|subst; apply NoDup_cons in Hd as [Hd _]; apply Hd; apply list_elem_of_here].
  pose proof (Hl i ltac:(apply list_elem_of_here)) as Hi.
  pose proof (Hl j ltac:(apply list_elem_of_further, list_elem_of_here)) as Hj.
  unfold outstanding_at in *. destruct (view_pending v i) eqn:Ei; [|done].
  destruct (view_pending v j) eqn:Ej; [|done]. bools. eapply Hn; [done..|]. congruence.
Qed.

Lemma outstanding_zero v e n j :
  length (filter (fun id => outstanding_at v e id = true) (seq 0 n)) = 0%nat →
  (j < n)%nat → outstanding_at v e j = false.
Proof.
  intros Hl Hj. apply nil_length_inv in Hl. destruct (outstanding_at v e j) eqn:E; [|done].
  assert (j ∈ filter (fun id => outstanding_at v e id = true) (seq 0 n)) as Hin.
  { apply list_elem_of_filter. split; [done|]. apply elem_of_seq. lia. }
  rewrite Hl in Hin. by apply not_elem_of_nil in Hin.
Qed.

Lemma outstanding_outside v e j : (length v ≤ j)%nat → outstanding_at v e j = false.
Proof.
  intros Hj. unfold outstanding_at, view_pending, slot_at. by rewrite lookup_ge_None_2.
Qed.

(** What [record_admission] decides, in terms of the table. *)
Lemma admission_ok v id e mid :
  nstart v →
  match record_admission (view_pending v id) mid e
          (length (filter (fun i => outstanding_at v e i = true) (seq 0 (length v)))) with
  | None => True
  | Some false => ∃ q, view_pending v id = Some q ∧ pc_message_id q = mid ∧ pc_endpoint q = e
  | Some true => ∀ k, k ≠ id → outstanding_at v e k = false
  end.
Proof.
  intros Hn. unfold record_admission. set (lim := if NSTART <=? _ then None else Some true).
  assert (Hlim : lim = None ∨ lim = Some true ∧ ∀ k, k ≠ id → outstanding_at v e k = false).
  { unfold lim. destruct (NSTART <=? _) eqn:Ez; [by left|right]. split; [done|]. unfold NSTART in Ez. bools.
    intros k _. destruct (decide (k < length v)%nat); [|apply outstanding_outside; lia].
    eapply outstanding_zero; [|done]. lia. }
  clearbody lim. destruct (view_pending v id) as [q|] eqn:Hq; [|by destruct Hlim as [->|[-> Hk]]].
  destruct (eqb _ _ && eqb _ _) eqn:E1; [bools; by exists q|].
  destruct (eqb (Endpoint_physical _) _) eqn:E2; [|by destruct Hlim as [->|[-> Hk]]]. bools.
  intros k Hk. unfold outstanding_at. destruct (view_pending v k) as [qk|] eqn:Ek; [|done].
  apply bool_decide_eq_false. intros Hek. apply Hk. eapply Hn; [done..|congruence].
Qed.

Lemma find_slot_position {E} ids (f : SlotId → bool) :
  find_slot (E:=E) ids (fun id => Ok (f id)) =
  Ok (match position f ids with Some k => ids !! k | None => None end).
Proof.
  induction ids as [|id ids IH]; [done|]. cbn [find_slot position]. unbind. rewrite IH.
  destruct (f id); [done|]. by destruct (position f ids).
Qed.

Lemma next_due_slot_ext {E} n c now (f g : SlotId → res E (option PendingCon)) :
  (∀ id, f id = g id) → next_due_slot n c now f = next_due_slot n c now g.
Proof.
  intros Hfg. unfold next_due_slot. destruct (n =? 0)%nat; [done|].
  induction (_ ++ _) as [|id ids IH]; [done|]. cbn [next_due_loop]. rewrite Hfg. by rewrite IH.
Qed.

Lemma omap_length_le {A B} (f : A → option B) (l : list A) : (length (omap f l) ≤ length l)%nat.
Proof. induction l as [|x l IH]; [done|]. cbn. destruct (f x); simpl; lia. Qed.

(** Switching off one element of an [omap]. *)
Lemma omap_remove {A B} `{EqDecision A} (f g : A → option B) (l : list A) i b :
  NoDup l → i ∈ l → f i = Some b → g i = None → (∀ j, j ≠ i → f j = g j) →
  omap f l ≡ₚ b :: omap g l.
Proof.
  intros Hd Hin Hf Hg Hj. induction l as [|x l IH]; [by apply not_elem_of_nil in Hin|].
  apply NoDup_cons in Hd as [Hx Hd]. destruct (decide (x = i)) as [->|Hne].
  - cbn. rewrite Hf, Hg. f_equiv. clear IH Hin Hd.
    induction l as [|y l IH]; [done|]. apply not_elem_of_cons in Hx as [Hy Hx].
    cbn. rewrite Hj by done. destruct (g y); [f_equiv|]; by apply IH.
  - apply elem_of_cons in Hin as [->|Hin]; [done|]. cbn. rewrite (Hj x) by done.
    specialize (IH Hd Hin). destruct (g x) as [c|]; [|done]. rewrite IH. apply Permutation_swap.
Qed.

(** ** The due slot nearest to the cursor *)
Definition due_at (v : list (option SlotView)) (now : Z) (id : SlotId) : bool :=
  match view_pending v id with Some q => PendingRto_is_due (pc_rto q) now | None => false end.

Definition nearest_due (v : list (option SlotView)) (cursor : nat) (now : Z) (id : SlotId) : Prop :=
  due_at v now id = true ∧
  ∀ j, due_at v now j = true →
    (cyclic_dist (length v) (cursor mod length v) id ≤
     cyclic_dist (length v) (cursor mod length v) j)%nat.

(** The [k]-th slot inspected is the one at cyclic distance [k]. *)
Lemma search_order (n c k id : nat) :
  (c < n)%nat →
  (seq c (n - c) ++ seq 0 c) !! k = Some id ↔ (id < n)%nat ∧ cyclic_dist n c id = k.
Proof.
  intros Hc. rewrite lookup_app_Some, !lookup_seq, length_seq. unfold cyclic_dist.
  destruct (c <=? id)%nat eqn:E; bools; lia.
Qed.

Lemma due_at_lt v now id : due_at v now id = true → (id < length v)%nat.
Proof.
  unfold due_at. destruct (view_pending v id) as [q|] eqn:Hq; [|done]. intros _.
  apply view_pending_at in Hq as (s & Hs & _). by eapply slot_at_lt.
Qed.

Lemma next_due_loop_position {E} v now ids :
  next_due_loop (E:=E) ids now (fun id => Ok (view_pending v id)) =
  Ok (match position (due_at v now) ids with
      | Some k => id ← ids !! k; q ← view_pending v id; due_snapshot q now
      | None => None
      end).
Proof.
  induction ids as [|id ids IH]; [done|]. cbn [next_due_loop position]. unbind. rewrite IH.
  assert (due_at v now id = match view_pending v id with
    | Some q => PendingRto_is_due (pc_rto q) now | None => false end) as -> by done.
  destruct (view_pending v id) as [q|] eqn:Hq; [|by destruct (position _ ids)].
  destruct (PendingRto_is_due (pc_rto q) now) eqn:Hd.
  - assert (∃ d, due_snapshot q now = Some d) as [d Hs] by (unfold due_snapshot; rewrite Hd; eauto).
    rewrite Hs. simpl. rewrite Hq. simpl. by rewrite Hs.
  - assert (due_snapshot q now = None) as -> by (unfold due_snapshot; by rewrite Hd).
    by destruct (position _ ids).
Qed.

Lemma next_due_ok {E} v cursor now :
  ∃ r, next_due_slot (E:=E) (length v) cursor now (fun id => Ok (view_pending v id)) = Ok r ∧
    match r with
    | Some due =>
        ∃ q, view_pending v (due_id due) = Some q ∧ due_snapshot q now = Some due ∧
             nearest_due v cursor now (due_id due)
    | None => ∀ id, due_at v now id = false
    end.
Proof.
  unfold next_due_slot. destruct (length v =? 0)%nat eqn:En; bools.
  { eexists. split; [done|]. intros id. destruct (due_at v now id) eqn:E1; [|done].
    apply due_at_lt in E1. lia. }
  rewrite next_due_loop_position. eexists. split; [done|].
  pose proof (Nat.mod_upper_bound cursor (length v) En) as Hc.
  destruct (position _ _) as [k|] eqn:Ep.
  - apply position_Some in Ep as [(id & Hk & Hd) Hmin]. rewrite Hk. cbn.
    unfold due_at in Hd. destruct (view_pending v id) as [q|] eqn:Hq; [|done]. cbn.
    destruct (view_pending_at _ _ _ Hq) as (_ & _ & _ & _ & Hsl).
    assert (∃ d, due_snapshot q now = Some d ∧ due_id d = id) as (d & Hs & Hid).
    { unfold due_snapshot. rewrite Hd. eexists. split; [done|]. by destruct (PendingRto_next_attempt _ _). }
    assert (nearest_due v cursor now id) as Hnear.
    { split; [unfold due_at; by rewrite Hq|]. intros j Hj. apply search_order in Hk as [_ Hdk]; [|done].
      destruct (decide (cyclic_dist (length v) (cursor mod length v) j < k)%nat) as [Hlt|]; [|lia].
      rewrite (Hmin _ j Hlt) in Hj; [done|]. apply search_order; [done|]. split; [by eapply due_at_lt|done]. }
    rewrite Hs. rewrite Hid. by exists q.
  - intros id. destruct (due_at v now id) eqn:E1; [|done]. apply position_None in Ep.
    rewrite Forall_lookup in Ep. rewrite (Ep (cyclic_dist (length v) (cursor mod length v) id) id) in E1; [done|].
    apply search_order; [done|]. split; [by eapply due_at_lt|done].
Qed.

(** ** The operations on the table *)
Section pending_laws.
Context {P : Type} `{Target} `{SlotPool P} `{DatagramBytes P} `{!DatagramLaws P}.
Implicit Types (m : TxMemory P) (id : SlotId).

Definition mview m : list (option SlotView) := pool_view (tx_pool m).
Definition mcap m : nat := pool_cap (tx_pool m).

(** [m'] is [m] with the entry of [id] replaced. *)
Definition changed m m' id (s : option SlotView) : Prop :=
  pool_inv (tx_pool m') ∧ mcap m' = mcap m ∧ mview m' = <[id := s]> (mview m).

Definition with_pending (s : SlotView) (e : Endpoint) (mid : MessageId) (rto : PendingRto) : SlotView :=
  set_view_pending (Some (mkMark mid rto)) (set_view_endpoint e s).

Lemma pending_con_ok {E} m id :
  pool_inv (tx_pool m) → pending_con (E:=E) m id = Ok (view_pending (mview m) id).
Proof.
  intros Hi. unfold pending_con, mview. rewrite law_mid, law_endpoint, law_rto by done. unbind.
  unfold view_pending. destruct (slot_at _ id) as [s|]; [|done]. simpl.
  by destruct (sv_pending s), (sv_endpoint s).
Qed.

Lemma occupied_ok m id :
  pool_inv (tx_pool m) →
  sp_is_occupied (tx_pool m) id = match slot_at (mview m) id with Some _ => true | None => false end.
Proof.
  intros Hi. rewrite law_occupied by done. unfold mview. destruct (slot_at _ id); [|by apply bool_decide_eq_false; intros [? ?]].
  apply bool_decide_eq_true. eauto.
Qed.

Lemma outstanding_ok {E} m e :
  pool_inv (tx_pool m) →
  outstanding_pending (E:=E) (sp_slot_count (tx_pool m)) e (pending_con m) =
    Ok (length (filter (fun id => outstanding_at (mview m) e id = true) (seq 0 (length (mview m))))).
Proof.
  intros Hi. unfold outstanding_pending. rewrite law_count by done. fold (mview m).
  rewrite <- outstanding_loop_spec. induction (seq 0 (length (mview m))) as [|id ids IH]; [done|].
  cbn [outstanding_loop]. by rewrite pending_con_ok, IH.
Qed.

Lemma set_mark_ok m id s (r : res SlotError P) f :
  slot_at (mview m) id = Some s →
  updates pool_inv pool_view pool_cap (tx_pool m) id r f →
  ∃ p, r = Ok p ∧ changed m (tx_with_pool m p) id (Some (f s)).
Proof.
  intros Hs. unfold updates, mview, slot_at in *.
  destruct (pool_view (tx_pool m) !! id) as [[t|]|]; simplify_eq/=.
  intros (p & -> & Hi & Hc & Hv). by exists p.
Qed.

Lemma store_pending_ok {E} m id s e mid rto :
  pool_inv (tx_pool m) → slot_at (mview m) id = Some s →
  ∃ m', store_pending (E:=E) m id e mid rto = Ok (m', Some tt) ∧
    changed m m' id (Some (with_pending s e mid rto)) ∧
    tx_retransmit_cursor m' = tx_retransmit_cursor m.
Proof.
  intros Hi Hs. unfold store_pending. pose proof (slot_at_lt _ _ _ Hs) as Hlt.
  destruct (set_mark_ok m id s _ _ Hs (law_set_endpoint _ id e Hi)) as (p1 & -> & Hi1 & Hc1 & Hv1).
  cbn [ok_of]. unbind.
  assert (slot_at (mview (tx_with_pool m p1)) id = Some (set_view_endpoint e s)) as Hs1
    by (by rewrite Hv1, slot_at_insert, decide_True).
  destruct (set_mark_ok (tx_with_pool m p1) id _ _ _ Hs1 (law_set_pending p1 id mid rto Hi1))
    as (p2 & -> & Hi2 & Hc2 & Hv2).
  cbn [ok_of]. eexists. split; [done|]. split; [|done]. split_and!; [done| |].
  - etrans; [apply Hc2|apply Hc1].
  - change (mview (tx_with_pool m p2)) with (mview (tx_with_pool (tx_with_pool m p1) p2)).
    by rewrite Hv2, Hv1, list_insert_insert_eq.
Qed.

(** Every outcome of [record_pending_con]. *)
Lemma record_ok {E} m id e mid now j :
  pool_inv (tx_pool m) → nstart (mview m) →
  ∃ m' r, record_pending_con (E:=E) m id e mid now j = Ok (m', r) ∧
    tx_retransmit_cursor m' = tx_retransmit_cursor m ∧
    match r with
    | None => m' = m
    | Some i =>
        i = id ∧
        ((m' = m ∧ ∃ q, view_pending (mview m) id = Some q ∧ pc_message_id q = mid ∧ pc_endpoint q = e) ∨
         ∃ s, slot_at (mview m) id = Some s ∧
           changed m m' id (Some (with_pending s e mid (PendingRto_new now j))) ∧
           ∀ k, k ≠ id → outstanding_at (mview m) e k = false)
    end.
Proof.
  intros Hi Hn. unfold record_pending_con. rewrite occupied_ok by done.
  destruct (slot_at (mview m) id) as [s|] eqn:Hs; cbn [negb]; [|by exists m, None].
  rewrite pending_con_ok, outstanding_ok by done. unbind.
  destruct (match view_pending (mview m) id with Some p => _ | None => false end); [by exists m, None|].
  pose proof (admission_ok (mview m) id e mid Hn) as Ha.
  destruct (record_admission _ _ _ _) as [[]|]; [| |by exists m, None].
  - destruct (store_pending_ok (E:=E) m id s e mid (PendingRto_new now j) Hi Hs) as (m' & -> & Hch & Hcur).
    exists m', (Some id). split_and!; try done. right. exists s. by split_and!.
  - exists m, (Some id). split_and!; try done. by left.
Qed.

(** Every outcome of [reserve_pending_con]. *)
Lemma reserve_ok {E} m id e mid :
  pool_inv (tx_pool m) → nstart (mview m) →
  ∃ m' r, reserve_pending_con (E:=E) m id e mid = Ok (m', r) ∧
    tx_retransmit_cursor m' = tx_retransmit_cursor m ∧
    match r with
    | None => m' = m
    | Some q =>
        q = mkPendingCon mid e id (pc_rto q) ∧ rto_started (pc_rto q) = false ∧
        view_pending (mview m') id = Some q ∧
        (m' = m ∨
         ∃ s, slot_at (mview m) id = Some s ∧ view_pending (mview m) id = None ∧
           q = mkPendingCon mid e id PendingRto_reserved ∧
           changed m m' id (Some (with_pending s e mid PendingRto_reserved)) ∧
           ∀ k, k ≠ id → outstanding_at (mview m) e k = false)
    end.
Proof.
  intros Hi Hn. unfold reserve_pending_con. rewrite occupied_ok by done.
  destruct (slot_at (mview m) id) as [s|] eqn:Hs; cbn [negb]; [|by exists m, None].
  rewrite pending_con_ok, outstanding_ok by done. unbind.
  pose proof (admission_ok (mview m) id e mid Hn) as Ha.
  destruct (view_pending (mview m) id) as [q|] eqn:Hq.
  - eexists m, _. split; [done|]. split; [done|].
    destruct (_ && _) eqn:Ec; [|done]. bools. split_and!; try done; [|by left].
    destruct (view_pending_at _ _ _ Hq) as (_ & _ & _ & _ & <-). subst. by destruct q.
  - destruct (record_admission _ _ _ _) as [[]|]; [|by destruct Ha as (? & ? & _)|by exists m, None].
    destruct (store_pending_ok (E:=E) m id s e mid PendingRto_reserved Hi Hs) as (m' & -> & Hch & Hcur).
    rewrite pending_con_ok by apply Hch. pose proof Hch as (_ & _ & Hv).
    assert (view_pending (mview m') id = Some (mkPendingCon mid e id PendingRto_reserved)) as Hq'
      by (rewrite Hv, view_pending_insert by (by eapply slot_at_lt); by rewrite decide_True).
    rewrite Hq'. eexists m', _. split; [done|]. split_and!; try done. right. exists s. by split_and!.
Qed.

(** Every outcome of [commit_pending_con] and of [cancel_pending_con]. *)
Lemma commit_ok {E} m q now j :
  pool_inv (tx_pool m) →
  ∃ m' r, commit_pending_con (E:=E) m q now j = Ok (m', r) ∧
    tx_retransmit_cursor m' = tx_retransmit_cursor m ∧
    match r with
    | None => m' = m ∧ (rto_started (pc_rto q) = true ∨ view_pending (mview m) (pc_tx_slot q) ≠ Some q)
    | Some q' =>
        q' = PendingCon_with_rto q (PendingRto_new now j) ∧ rto_started (pc_rto q) = false ∧
        view_pending (mview m) (pc_tx_slot q) = Some q ∧
        ∃ s, slot_at (mview m) (pc_tx_slot q) = Some s ∧
          changed m m' (pc_tx_slot q)
            (Some (set_view_pending (Some (mkMark (pc_message_id q) (PendingRto_new now j))) s))
    end.
Proof.
  intros Hi. unfold commit_pending_con. destruct (rto_started (pc_rto q)) eqn:Hst.
  { exists m, None. split_and!; try done. by left. }
  rewrite pending_con_ok by done. unbind.
  destruct (eqb _ _) eqn:Eq; bools; cbn [negb]; [|exists m, None; split_and!; try done; by right].
  destruct (view_pending_at _ _ _ Eq) as (s & Hs & Hm & He & _).
  destruct (set_mark_ok m _ s _ _ Hs (law_set_pending _ (pc_tx_slot q) (pc_message_id q) (PendingRto_new now j) Hi))
    as (p & -> & Hch).
  cbn [ok_of]. rewrite pending_con_ok by apply Hch. pose proof Hch as (_ & _ & Hv).
  assert (view_pending (mview (tx_with_pool m p)) (pc_tx_slot q) =
    Some (PendingCon_with_rto q (PendingRto_new now j))) as ->.
  { rewrite Hv, view_pending_insert by (by eapply slot_at_lt). rewrite decide_True by done. simpl. by rewrite He. }
  eexists _, _. split; [done|]. split_and!; try done. by exists s.
Qed.

Lemma cancel_ok {E} m q :
  pool_inv (tx_pool m) →
  ∃ m' b, cancel_pending_con (E:=E) m q = Ok (m', b) ∧
    tx_retransmit_cursor m' = tx_retransmit_cursor m ∧
    if b : bool then
      rto_started (pc_rto q) = false ∧ view_pending (mview m) (pc_tx_slot q) = Some q ∧
      ∃ s, slot_at (mview m) (pc_tx_slot q) = Some s ∧
        changed m m' (pc_tx_slot q) (Some (set_view_pending None s))
    else m' = m ∧ (rto_started (pc_rto q) = true ∨ view_pending (mview m) (pc_tx_slot q) ≠ Some q).
Proof.
  intros Hi. unfold cancel_pending_con. destruct (rto_started (pc_rto q)) eqn:Hst.
  { exists m, false. split_and!; try done. by left. }
  rewrite pending_con_ok by done. unbind.
  destruct (eqb _ _) eqn:Eq; bools; cbn [negb]; [|exists m, false; split_and!; try done; by right].
  destruct (view_pending_at _ _ _ Eq) as (s & Hs & Hm & He & _).
  destruct (set_mark_ok m _ s _ _ Hs (law_clear_pending _ (pc_tx_slot q) Hi)) as (p & -> & Hch).
  cbn [ok_of]. eexists _, true. split; [done|]. split_and!; try done. by exists s.
Qed.

Definition match_test (v : list (option SlotView)) (mid : MessageId) (e : Endpoint) id : bool :=
  match view_pending v id with
  | Some q => eqb (pc_message_id q) mid && eqb (pc_endpoint q) e && rto_started (pc_rto q)
  | None => false
  end.

(** The message [lookup_pending_con] and [take_pending_con] look for. *)
Definition matches m (mid : MessageId) (e : Endpoint) id : Prop :=
  ∃ q, view_pending (mview m) id = Some q ∧ pc_message_id q = mid ∧ pc_endpoint q = e ∧
       rto_started (pc_rto q) = true.

Lemma lookup_ok {E} m mid e :
  pool_inv (tx_pool m) →
  ∃ r, lookup_pending_con (E:=E) m mid e = Ok r ∧
    match r with
    | Some id => matches m mid e id ∧ ∀ i, matches m mid e i → (id ≤ i)%nat
    | None => ∀ i, ¬ matches m mid e i
    end.
Proof.
  intros Hi. unfold lookup_pending_con. rewrite law_lookup_pending by done. fold (mview m).
  set (test := match_test (mview m) mid e).
  change (find_slot _ _) with (find_slot (E:=E) (seq 0 (length (mview m))) (fun id => Ok (test id))).
  assert (∀ i, test i = true ↔ matches m mid e i) as Ht.
  { intros i. unfold test, match_test, matches. destruct (view_pending (mview m) i) as [q|].
    - rewrite !andb_true_iff. unfold eqb. rewrite !bool_decide_eq_true. naive_solver.
    - naive_solver. }
  rewrite find_slot_position. eexists. split; [done|].
  destruct (position test (seq 0 (length (mview m)))) as [k|] eqn:Ep; simpl.
  - apply position_Some in Ep as [(i & Hk & Hti) Hmin]. rewrite Hk.
    apply lookup_seq in Hk as [-> Hk]. simpl in *. split; [by apply Ht|]. intros i Hm.
    destruct (decide (i < k)%nat) as [Hlt|]; [|lia]. apply Ht in Hm.
    rewrite (Hmin i i Hlt) in Hm; [done|]. apply lookup_seq. lia.
  - intros i Hm. pose proof Hm as (q & Hq & _). apply view_pending_at in Hq as (s & Hs & _).
    apply slot_at_lt in Hs. apply position_None in Ep. apply Ht in Hm.
    rewrite Forall_lookup in Ep. rewrite (Ep i i) in Hm; [done|]. apply lookup_seq. lia.
Qed.

Lemma take_ok {E} m mid e :
  pool_inv (tx_pool m) →
  ∃ m' r, take_pending_con (E:=E) m mid e = Ok (m', r) ∧
    tx_retransmit_cursor m' = tx_retransmit_cursor m ∧
    match r with
    | Some id =>
        matches m mid e id ∧ ∃ s, slot_at (mview m) id = Some s ∧
          changed m m' id (Some (set_view_pending None s))
    | None => m' = m ∧ ∀ i, ¬ matches m mid e i
    end.
Proof.
  intros Hi. unfold take_pending_con. destruct (lookup_ok (E:=E) m mid e Hi) as (r & Hr & Hspec).
  unfold lookup_pending_con in Hr. rewrite Hr. unbind. destruct r as [id|]; [|by exists m, None].
  destruct Hspec as [Hm _]. pose proof Hm as (q & Hq & _).
  destruct (view_pending_at _ _ _ Hq) as (s & Hs & _).
  destruct (set_mark_ok m _ s _ _ Hs (law_clear_pending _ id Hi)) as (p & -> & Hch).
  cbn [ok_of]. eexists _, (Some id). split; [done|]. split_and!; try done. by exists s.
Qed.

(** The entry a committed retransmission leaves behind. *)
Definition after_due (q : PendingCon) (now : Z) (s : SlotView) : SlotView :=
  set_view_pending (option_map (mkMark (pc_message_id q)) (PendingRto_next_attempt (pc_rto q) now)) s.

Definition due_outcome (q : PendingCon) (now : Z) : Retransmit :=
  match PendingRto_next_attempt (pc_rto q) now with
  | Some rto => Due (PendingCon_with_rto q rto)
  | None => GiveUp q
  end.

Lemma commit_retransmit_ok {E} m q now :
  pool_inv (tx_pool m) →
  ∃ m' r, commit_retransmit (E:=E) m q now = Ok (m', r) ∧
    match r with
    | None =>
        m' = m ∧ (view_pending (mview m) (pc_tx_slot q) ≠ Some q ∨ PendingRto_is_due (pc_rto q) now = false)
    | Some ev =>
        view_pending (mview m) (pc_tx_slot q) = Some q ∧ PendingRto_is_due (pc_rto q) now = true ∧
        ev = due_outcome q now ∧ tx_retransmit_cursor m' = (pc_tx_slot q + 1)%nat ∧
        ∃ s, slot_at (mview m) (pc_tx_slot q) = Some s ∧
             changed m m' (pc_tx_slot q) (Some (after_due q now s))
    end.
Proof.
  intros Hi. unfold commit_retransmit. rewrite pending_con_ok by done. unbind.
  destruct (eqb _ _) eqn:Eq; bools; cbn [negb]; [|exists m, None; split_and!; try done; by left].
  unfold due_snapshot. destruct (PendingRto_is_due _ _) eqn:Ed; cbn [negb];
    [|exists m, None; split_and!; try done; by right].
  destruct (view_pending_at _ _ _ Eq) as (s & Hs & _).
  unfold due_outcome, after_due. destruct (PendingRto_next_attempt (pc_rto q) now) as [rto|]; simpl.
  - destruct (set_mark_ok m _ s _ _ Hs (law_set_pending _ (pc_tx_slot q) (pc_message_id q) rto Hi))
      as (p & -> & Hch). cbn [ok_of].
    eexists _, _. split; [done|]. split_and!; try done. by exists s.
  - destruct (set_mark_ok m _ s _ _ Hs (law_clear_pending _ (pc_tx_slot q) Hi)) as (p & -> & Hch).
    cbn [ok_of]. eexists _, _. split; [done|]. split_and!; try done. by exists s.
Qed.

Lemma poll_ok {E} m now :
  pool_inv (tx_pool m) →
  ∃ m' r, poll_retransmit (E:=E) m now = Ok (m', r) ∧
    match r with
    | None => m' = m ∧ ∀ id, due_at (mview m) now id = false
    | Some ev =>
        ∃ q s, view_pending (mview m) (pc_tx_slot q) = Some q ∧
          nearest_due (mview m) (tx_retransmit_cursor m) now (pc_tx_slot q) ∧
          ev = due_outcome q now ∧ tx_retransmit_cursor m' = (pc_tx_slot q + 1)%nat ∧
          slot_at (mview m) (pc_tx_slot q) = Some s ∧
          changed m m' (pc_tx_slot q) (Some (after_due q now s))
    end.
Proof.
  intros Hi. unfold poll_retransmit, peek_retransmit. rewrite law_count by done. fold (mview m).
  rewrite (next_due_slot_ext _ _ _ _ (fun id => Ok (view_pending (mview m) id)))
    by (intros; by apply pending_con_ok).
  destruct (next_due_ok (E:=E) (mview m) (tx_retransmit_cursor m) now) as (r & -> & Hr). unbind.
  destruct r as [due|]; [|by exists m, None]. destruct Hr as (q & Hq & Hd & Hnear).
  rewrite pending_con_ok, Hq by done.
  destruct (view_pending_at _ _ _ Hq) as (s0 & _ & _ & _ & Hid).
  destruct (commit_retransmit_ok (E:=E) m q now Hi) as (m' & r & -> & Hr). exists m', r. split; [done|].
  rewrite <- Hid in Hq, Hnear. destruct r as [ev|].
  - destruct Hr as (_ & _ & -> & Hcur & s & Hs & Hch). exists q, s. by split_and!.
  - destruct Hr as [-> [Hr|Hr]]; [done|]. destruct Hnear as [Hnd _]. unfold due_at in Hnd. rewrite Hq in Hnd.
    congruence.
Qed.
End pending_laws.

(** ** Invariant *)
Section pending_invariant.
Context {P : Type} `{Target} `{SlotPool P} `{DatagramBytes P} `{!DatagramLaws P}.
Implicit Types (m : TxMemory P) (id : SlotId).

Definition timer_ok (r : PendingRto) : Prop := r = PendingRto_reserved ∨ ∃ T, rto_ok T r.

Definition tx_inv m : Prop :=
  pool_inv (tx_pool m) ∧ nstart (mview m) ∧
  ∀ id q, view_pending (mview m) id = Some q → timer_ok (pc_rto q).

Lemma tx_inv_changed m m' id s :
  tx_inv m → changed m m' id s → (id < length (mview m))%nat →
  (∀ q, slot_pending id s = Some q →
    timer_ok (pc_rto q) ∧ ∀ j, j ≠ id → outstanding_at (mview m) (pc_endpoint q) j = false) →
  tx_inv m'.
Proof.
  intros (Hi & Hn & Ht) (Hi' & _ & Hv) Hid Hs. unfold tx_inv. rewrite Hv. split_and!; [done| |].
  - apply nstart_insert; [done..|]. intros q Hq. by apply Hs.
  - intros j q. rewrite view_pending_insert by done.
    destruct (decide (j = id)) as [->|]; [|by apply Ht]. intros Hq. by apply Hs.
Qed.

(** The message of an occupied slot is the only one to its address. *)
Lemma nstart_alone v id q :
  nstart v → view_pending v id = Some q → ∀ j, j ≠ id → outstanding_at v (pc_endpoint q) j = false.
Proof.
  intros Hn Hq j Hj. unfold outstanding_at. destruct (view_pending v j) as [qj|] eqn:E; [|done].
  apply bool_decide_eq_false. intros He. apply Hj. by eapply Hn.
Qed.

(** Changing the mark of a pending message keeps the invariant. *)
Lemma tx_inv_mark m m' id q s s' :
  tx_inv m → view_pending (mview m) id = Some q → slot_at (mview m) id = Some s →
  sv_endpoint s' = sv_endpoint s → changed m m' id (Some s') →
  (∀ k, sv_pending s' = Some k → timer_ok (mark_rto k)) → tx_inv m'.
Proof.
  intros Hm Hq Hs He Hch Hk. pose proof Hm as (_ & Hn & _).
  apply (tx_inv_changed m m' id (Some s')); [done|done|by eapply slot_at_lt|].
  destruct (view_pending_at _ _ _ Hq) as (s0 & Hs0 & _ & He0 & _). simplify_eq.
  intros q' Hq'. simpl in Hq'. rewrite He, He0 in Hq'.
  destruct (sv_pending s') as [k|] eqn:Ek; [|done]. injection Hq' as <-. simpl. split; [by apply Hk|].
  by apply (nstart_alone _ id).
Qed.

(** No other slot has a message outstanding to the address of [e]. *)
Definition admits m id (e : Endpoint) : Prop := ∀ j, j ≠ id → outstanding_at (mview m) e j = false.

(** The slot has no mark, or one whose timer the constructors made and [e] admits. *)
Definition unmarked_or_admitted m id (e : Endpoint) : Prop :=
  ∀ rto, db_pending_rto (tx_pool m) id = Some rto → timer_ok rto ∧ admits m id e.

(** One operation on the outgoing pool, by any result.  The pool's own setters
    make no admission test: [set_endpoint] (and [Engine::set_tx_endpoint]) on a
    slot with a mark, and [set_pending] or [set_pending_mid], are steps where
    the caller has made it.  [step_tx_bytes] is whatever changes neither a mark
    nor an endpoint: payloads, lengths, pins that are dropped. *)
Inductive tx_step : TxMemory P → TxMemory P → Prop :=
  | step_tx_acquire m p r : sp_acquire (E:=SlotError) (tx_pool m) = Ok (p, r) → tx_step m (tx_with_pool m p)
  | step_tx_release m p id : sp_release (tx_pool m) id = Ok p → tx_step m (tx_with_pool m p)
  | step_tx_advance m n : tx_step m (tx_with_pool m (sp_advance (tx_pool m) n))
  | step_tx_access m p id bs : db_access (tx_pool m) id = Ok (p, bs) → tx_step m (tx_with_pool m p)
  | step_tx_bytes m p :
      pool_inv p → (∀ id, view_pending (pool_view p) id = view_pending (mview m) id) → tx_step m (tx_with_pool m p)
  | step_tx_endpoint m p id e :
      db_set_endpoint (tx_pool m) id e = Ok p → unmarked_or_admitted m id e → tx_step m (tx_with_pool m p)
  | step_tx_pending m p id mid rto :
      db_set_pending (tx_pool m) id mid rto = Ok p → timer_ok rto →
      (∀ e, db_endpoint (E:=SlotError) (tx_pool m) id = Ok (Some e) → admits m id e) → tx_step m (tx_with_pool m p)
  | step_tx_clear m p id : db_clear_pending_mid (tx_pool m) id = Ok p → tx_step m (tx_with_pool m p)
  | step_reserve m m' r id e mid :
      reserve_pending_con (E:=SlotError) m id e mid = Ok (m', r) → tx_step m m'
  | step_commit m m' r q now j :
      0 ≤ j → commit_pending_con (E:=SlotError) m q now j = Ok (m', r) → tx_step m m'
  | step_cancel m m' r q : cancel_pending_con (E:=SlotError) m q = Ok (m', r) → tx_step m m'
  | step_record m m' r id e mid now j :
      0 ≤ j → record_pending_con (E:=SlotError) m id e mid now j = Ok (m', r) → tx_step m m'
  | step_take m m' r mid e : take_pending_con (E:=SlotError) m mid e = Ok (m', r) → tx_step m m'
  | step_retransmit m m' r q now :
      commit_retransmit (E:=SlotError) m q now = Ok (m', r) → tx_step m m'
  | step_poll m m' r now : poll_retransmit (E:=SlotError) m now = Ok (m', r) → tx_step m m'
  | step_replace m m' r q bytes : replace_pending_con m q bytes = Ok (m', r) → tx_step m m'.

Lemma pool_step_inv m p :
  tx_inv m → pool_inv p → (pool_view p = mview m ∨
    ∃ id s, (id < length (mview m))%nat ∧ pool_view p = <[id := s]> (mview m) ∧
      (slot_pending id s = None ∨ slot_pending id s = view_pending (mview m) id)) →
  tx_inv (tx_with_pool m p).
Proof.
  intros Hm Hi Hv. pose proof Hm as (_ & Hn & Ht). unfold tx_inv, mview in *. simpl.
  destruct Hv as [->|(id & s & Hid & Hv & Hs)]; [done|]. rewrite Hv. split_and!; [done| |].
  - apply nstart_insert; [done..|]. intros q Hq. destruct Hs as [Hs|Hs]; [congruence|].
    apply (nstart_alone _ id); [done|congruence].
  - intros j q. rewrite view_pending_insert by done. destruct (decide (j = id)) as [->|]; [|by apply Ht].
    destruct Hs as [Hs|Hs]; rewrite Hs; [done|by apply Ht].
Qed.

Lemma timer_after_due q now s k :
  timer_ok (pc_rto q) → PendingRto_is_due (pc_rto q) now = true →
  sv_pending (after_due q now s) = Some k → timer_ok (mark_rto k).
Proof.
  intros [Hr|[T HT]] Hd Hk; [by rewrite Hr in Hd|]. unfold after_due in Hk. simpl in Hk.
  pose proof (rto_next_ok T now (pc_rto q) HT) as Hnx.
  destruct (PendingRto_next_attempt (pc_rto q) now) as [r|]; [|done]. simplify_eq/=. destruct Hnx as (_ & Hok & _). right. by exists T.
Qed.

Lemma due_step_inv m m' q now s :
  tx_inv m → view_pending (mview m) (pc_tx_slot q) = Some q → PendingRto_is_due (pc_rto q) now = true →
  slot_at (mview m) (pc_tx_slot q) = Some s → changed m m' (pc_tx_slot q) (Some (after_due q now s)) →
  tx_inv m'.
Proof.
  intros Hm Hq Hd Hs Hch. pose proof Hm as (_ & _ & Ht).
  apply (tx_inv_mark m m' _ q s _ Hm Hq Hs) in Hch; [done..|]. intros k Hk.
  eapply timer_after_due; [by eapply Ht|done|exact Hk].
Qed.

(** Each operation keeps the invariant. *)
Lemma acquire_keeps m p r :
  tx_inv m → sp_acquire (E:=SlotError) (tx_pool m) = Ok (p, r) → tx_inv (tx_with_pool m p).
Proof.
  intros Hm Ha. pose proof Hm as (Hi & _). pose proof (law_acquire (tx_pool m) (E:=SlotError) Hi) as Hl.
  rewrite Ha in Hl. destruct r as [id|]; [|destruct Hl as [-> _]; by destruct m].
  destruct Hl as (Hp & _ & Hf & Hv). apply pool_step_inv; [done..|]. right. exists id, (Some fresh_view).
  split_and!; [by eapply lookup_lt_Some|done|by left].
Qed.

Lemma release_keeps m p id :
  tx_inv m → sp_release (tx_pool m) id = Ok p → tx_inv (tx_with_pool m p).
Proof.
  intros Hm Ha. pose proof Hm as (Hi & _). pose proof (law_release (tx_pool m) id Hi) as Hl. rewrite Ha in Hl.
  destruct (pool_view (tx_pool m) !! id) as [[s|]|] eqn:El; try done. destruct (sv_pinned s); [done|].
  destruct Hl as (p' & [= <-] & Hp & _ & Hv). apply pool_step_inv; [done..|]. right. exists id, None.
  split_and!; [by eapply lookup_lt_Some|done|by left].
Qed.

Lemma advance_keeps m n : tx_inv m → tx_inv (tx_with_pool m (sp_advance (tx_pool m) n)).
Proof.
  intros Hm. pose proof Hm as (Hi & _). destruct (law_advance (tx_pool m) n Hi) as (Hp & Hv & _).
  apply pool_step_inv; [done..|]. by left.
Qed.

Lemma access_keeps m p id bs :
  tx_inv m → db_access (tx_pool m) id = Ok (p, bs) → tx_inv (tx_with_pool m p).
Proof.
  intros Hm Ha. pose proof Hm as (Hi & _). pose proof (law_access (tx_pool m) id Hi) as Hl. rewrite Ha in Hl.
  destruct (slot_at (pool_view (tx_pool m)) id) as [s|] eqn:Es; [|done]. destruct (sv_pinned s); [done|].
  destruct Hl as (p' & [= <- Hbs] & Hp & _ & Hv). apply pool_step_inv; [done..|]. right.
  exists id, (Some (set_view_pinned true s)). split_and!; [by eapply slot_at_lt|done|right].
  rewrite view_pending_slot. unfold mview. by rewrite Es.
Qed.

Lemma bytes_keep m p :
  tx_inv m → pool_inv p → (∀ id, view_pending (pool_view p) id = view_pending (mview m) id) → tx_inv (tx_with_pool m p).
Proof.
  intros (_ & Hn & Ht) Hi Hv. unfold tx_inv, mview. simpl. split_and!; [done| |].
  - intros i j qi qj. rewrite !Hv. apply Hn.
  - intros id q. rewrite Hv. apply Ht.
Qed.

(** A setter that wrote: the slot was in use and holds the change. *)
Lemma updates_changed m p id r f :
  updates pool_inv pool_view pool_cap (tx_pool m) id r f → r = Ok p →
  ∃ s, slot_at (mview m) id = Some s ∧ changed m (tx_with_pool m p) id (Some (f s)).
Proof.
  unfold updates. intros Hu ->. unfold mview, slot_at. destruct (pool_view (tx_pool m) !! id) as [[s|]|]; [|done..].
  destruct Hu as (p' & [= <-] & Hi & Hc & Hv). exists s. done.
Qed.

Lemma endpoint_keeps m p id e :
  tx_inv m → db_set_endpoint (tx_pool m) id e = Ok p → unmarked_or_admitted m id e → tx_inv (tx_with_pool m p).
Proof.
  intros Hm Hp Ha. pose proof Hm as (Hi & _).
  destruct (updates_changed m p id _ _ (law_set_endpoint _ id e Hi) Hp) as (s & Hs & Hch).
  apply (tx_inv_changed _ _ _ _ Hm Hch); [by eapply slot_at_lt|]. intros q Hq. simpl in Hq.
  destruct (sv_pending s) as [k|] eqn:Ek; [|done]. injection Hq as <-. simpl. apply Ha.
  rewrite law_rto by done. unfold mview in Hs. rewrite Hs. simpl. by rewrite Ek.
Qed.

Lemma pending_keeps m p id mid rto :
  tx_inv m → db_set_pending (tx_pool m) id mid rto = Ok p → timer_ok rto →
  (∀ e, db_endpoint (E:=SlotError) (tx_pool m) id = Ok (Some e) → admits m id e) → tx_inv (tx_with_pool m p).
Proof.
  intros Hm Hp Ht Ha. pose proof Hm as (Hi & _).
  destruct (updates_changed m p id _ _ (law_set_pending _ id mid rto Hi) Hp) as (s & Hs & Hch).
  apply (tx_inv_changed _ _ _ _ Hm Hch); [by eapply slot_at_lt|]. intros q Hq. simpl in Hq.
  destruct (sv_endpoint s) as [e|] eqn:Ee; [|done]. injection Hq as <-. simpl. split; [done|]. apply Ha.
  rewrite law_endpoint by done. unfold mview in Hs. rewrite Hs. simpl. by rewrite Ee.
Qed.

Lemma clear_keeps m p id :
  tx_inv m → db_clear_pending_mid (tx_pool m) id = Ok p → tx_inv (tx_with_pool m p).
Proof.
  intros Hm Hp. pose proof Hm as (Hi & _).
  destruct (updates_changed m p id _ _ (law_clear_pending _ id Hi) Hp) as (s & Hs & Hch).
  by apply (tx_inv_changed _ _ _ _ Hm Hch); [eapply slot_at_lt|].
Qed.

Lemma reserve_keeps m m' r id e mid :
  tx_inv m → reserve_pending_con (E:=SlotError) m id e mid = Ok (m', r) → tx_inv m'.
Proof.
  intros Hm Ha. pose proof Hm as (Hi & Hn & _).
  destruct (reserve_ok (E:=SlotError) m id e mid Hi Hn) as (m2 & r2 & Ho & _ & Hr). rewrite Ha in Ho. simplify_eq.
  destruct r2 as [q|]; [|by subst]. destruct Hr as (_ & _ & _ & [->|(s & Hs & _ & _ & Hch & Hk)]); [done|].
  apply (tx_inv_changed _ _ _ _ Hm Hch); [by eapply slot_at_lt|]. intros q' [= <-]. simpl. split; [by left|done].
Qed.

Lemma commit_keeps m m' r q now j :
  0 ≤ j → tx_inv m → commit_pending_con (E:=SlotError) m q now j = Ok (m', r) → tx_inv m'.
Proof.
  intros Hj Hm Ha. pose proof Hm as (Hi & _).
  destruct (commit_ok (E:=SlotError) m q now j Hi) as (m2 & r2 & Ho & _ & Hr). rewrite Ha in Ho. simplify_eq.
  destruct r2 as [q'|]; [|by destruct Hr as [-> _]]. destruct Hr as (_ & _ & Hq & s & Hs & Hch).
  apply (tx_inv_mark m m2 _ q s _ Hm Hq Hs) in Hch; [done..|]. intros k [= <-]. right. eexists.
  by apply rto_new_ok.
Qed.

Lemma cancel_keeps m m' r q :
  tx_inv m → cancel_pending_con (E:=SlotError) m q = Ok (m', r) → tx_inv m'.
Proof.
  intros Hm Ha. pose proof Hm as (Hi & _).
  destruct (cancel_ok (E:=SlotError) m q Hi) as (m2 & b & Ho & _ & Hr). rewrite Ha in Ho. simplify_eq.
  destruct b; [|by destruct Hr as [-> _]]. destruct Hr as (_ & Hq & s & Hs & Hch).
  by apply (tx_inv_mark m m2 _ q s _ Hm Hq Hs) in Hch.
Qed.

Lemma record_keeps m m' r id e mid now j :
  0 ≤ j → tx_inv m → record_pending_con (E:=SlotError) m id e mid now j = Ok (m', r) → tx_inv m'.
Proof.
  intros Hj Hm Ha. pose proof Hm as (Hi & Hn & _).
  destruct (record_ok (E:=SlotError) m id e mid now j Hi Hn) as (m2 & r2 & Ho & _ & Hr). rewrite Ha in Ho. simplify_eq.
  destruct r2 as [i|]; [|by subst]. destruct Hr as (-> & [[-> _]|(s & Hs & Hch & Hk)]); [done|].
  apply (tx_inv_changed _ _ _ _ Hm Hch); [by eapply slot_at_lt|]. intros q' [= <-]. simpl. split; [|done].
  right. eexists. by apply rto_new_ok.
Qed.

Lemma take_keeps m m' r mid e :
  tx_inv m → take_pending_con (E:=SlotError) m mid e = Ok (m', r) → tx_inv m'.
Proof.
  intros Hm Ha. pose proof Hm as (Hi & _).
  destruct (take_ok (E:=SlotError) m mid e Hi) as (m2 & r2 & Ho & _ & Hr). rewrite Ha in Ho. simplify_eq.
  destruct r2 as [i|]; [|by destruct Hr as [-> _]]. destruct Hr as ((q & Hq & _) & s & Hs & Hch).
  by apply (tx_inv_mark m m2 _ q s _ Hm Hq Hs) in Hch.
Qed.

Lemma retransmit_keeps m m' r q now :
  tx_inv m → commit_retransmit (E:=SlotError) m q now = Ok (m', r) → tx_inv m'.
Proof.
  intros Hm Ha. pose proof Hm as (Hi & _).
  destruct (commit_retransmit_ok (E:=SlotError) m q now Hi) as (m2 & r2 & Ho & Hr). rewrite Ha in Ho. simplify_eq.
  destruct r2 as [ev|]; [|by destruct Hr as [-> _]]. destruct Hr as (Hq & Hd & _ & _ & s & Hs & Hch).
  by eapply due_step_inv.
Qed.

Lemma poll_keeps {E} m m' r now :
  tx_inv m → poll_retransmit (E:=E) m now = Ok (m', r) → tx_inv m'.
Proof.
  intros Hm Ha. pose proof Hm as (Hi & _).
  destruct (poll_ok (E:=E) m now Hi) as (m2 & r2 & Ho & Hr). rewrite Ha in Ho. simplify_eq.
  destruct r2 as [ev|]; [|by destruct Hr as [-> _]].
  destruct Hr as (q & s & Hq & [Hd _] & _ & _ & Hs & Hch). eapply due_step_inv; [done..| |done|done].
  unfold due_at in Hd. by rewrite Hq in Hd.
Qed.

(** Every outcome of [replace_pending_con]. *)
Lemma replace_ok m q bytes :
  pool_inv (tx_pool m) →
  match replace_pending_con m q bytes with
  | Ok (m', q') =>
      view_pending (mview m) (pc_tx_slot q) = Some q ∧
      validate_replacement q (Some q) (option_map sv_payload (slot_at (mview m) (pc_tx_slot q)))
        bytes (mcap m) false = Ok q' ∧
      tx_retransmit_cursor m' = tx_retransmit_cursor m ∧
      ∃ s, slot_at (mview m) (pc_tx_slot q) = Some s ∧ sv_pinned s = false ∧
        changed m m' (pc_tx_slot q) (Some (set_view_payload bytes
          (set_view_pending (Some (mkMark (pc_message_id q') (pc_rto q'))) s)))
  | Err e =>
      validate_replacement q (view_pending (mview m) (pc_tx_slot q))
        (option_map sv_payload (slot_at (mview m) (pc_tx_slot q))) bytes (mcap m)
        (match slot_at (mview m) (pc_tx_slot q) with Some s => sv_pinned s | None => false end) = Err e
  | Panic | Diverge => False
  end.
Proof.
  intros Hi. unfold replace_pending_con. pose proof (law_replace (tx_pool m) q bytes Hi) as Hl. cbv zeta in Hl.
  fold (mview m) (mcap m) in Hl.
  pose proof (validate_replacement_returns q (view_pending (mview m) (pc_tx_slot q))
    (option_map sv_payload (slot_at (mview m) (pc_tx_slot q))) bytes (mcap m)
    (match slot_at (mview m) (pc_tx_slot q) with Some s => sv_pinned s | None => false end)) as Hret.
  destruct (validate_replacement _ _ _ _ _ _) as [q'|e| |] eqn:Ev; [|by rewrite Hl|done..].
  destruct Hl as (p' & s & -> & Hs & Hi' & Hc & Hv). unbind. pose proof Ev as Ev'.
  apply validate_replacement_ok in Ev' as (Hq & _ & Hpin & _). rewrite Hq, Hs in *. rewrite Hpin in Ev.
  split_and!; try done. exists s. by split_and!.
Qed.

Lemma replace_keeps m m' q q' bytes :
  tx_inv m → replace_pending_con m q bytes = Ok (m', q') → tx_inv m'.
Proof.
  intros Hm Ha. pose proof Hm as (Hi & _ & Ht). pose proof (replace_ok m q bytes Hi) as Hr. rewrite Ha in Hr.
  destruct Hr as (Hq & Hval & _ & s & Hs & _ & Hch).
  apply validate_replacement_ok in Hval as (_ & _ & _ & _ & _ & _ & Hrto & _).
  eapply (tx_inv_mark m m' _ q s _ Hm Hq Hs); [|exact Hch|]; [done|].
  intros k [= <-]. simpl. rewrite Hrto. by eapply Ht.
Qed.

Lemma tx_step_inv m m' : tx_inv m → tx_step m m' → tx_inv m'.
Proof.
  intros Hm. destruct 1; [by eapply acquire_keeps|by eapply release_keeps|by apply advance_keeps|by eapply access_keeps
    |by apply bytes_keep|by eapply endpoint_keeps|by eapply pending_keeps|by eapply clear_keeps|by eapply reserve_keeps
    |by eapply commit_keeps|by eapply cancel_keeps|by eapply record_keeps|by eapply take_keeps|by eapply retransmit_keeps
    |by eapply poll_keeps|by eapply replace_keeps].
Qed.

(** ** Serving every due message *)

(** Poll until nothing is due. *)
Fixpoint poll_all {E} (fuel : nat) m (now : Z) : res E (TxMemory P * list Retransmit) :=
  match fuel with
  | O => Diverge
  | S fuel =>
      '(m, r) ← poll_retransmit m now;
      match r with
      | None => mret (m, [])
      | Some ev => '(m, evs) ← poll_all fuel m now; mret (m, ev :: evs)
      end
  end.

(** What is due in a table, and what serving it reports. *)
Definition due_event (v : list (option SlotView)) (now : Z) id : option Retransmit :=
  match view_pending v id with
  | Some q => if PendingRto_is_due (pc_rto q) now then Some (due_outcome q now) else None
  | None => None
  end.
Definition due_events (v : list (option SlotView)) (now : Z) : list Retransmit :=
  omap (due_event v now) (seq 0 (length v)).

Lemma due_event_none v now id : due_event v now id = None ↔ due_at v now id = false.
Proof. unfold due_event, due_at. destruct (view_pending v id) as [q|]; [|done]. by destruct (PendingRto_is_due _ _). Qed.

(** A timer that fired is not due again at once. *)
Lemma after_due_later q now s id :
  timer_ok (pc_rto q) → PendingRto_is_due (pc_rto q) now = true → now + 96000 ≤ max_u 64 →
  match slot_pending id (Some (after_due q now s)) with
  | Some q' => PendingRto_is_due (pc_rto q') now = false
  | None => True
  end.
Proof.
  intros [Hr|[T HT]] Hd Hm; [by rewrite Hr in Hd|]. pose proof (rto_next_ok T now (pc_rto q) HT) as Hnx.
  unfold after_due, slot_pending. simpl. destruct (PendingRto_next_attempt (pc_rto q) now) as [r|]; [|done].
  simpl. destruct (sv_endpoint s); [|done]. simpl. destruct Hnx as (_ & (Hst & Ha & Ht & HT') & _ & Hn).
  unfold PendingRto_is_due. rewrite Hst, Hn, Ht. simpl. apply Z.leb_gt. unfold MAX_RETRANSMIT in Ha.
  assert (0 < 2 ^ rto_attempts r ≤ 2 ^ 4) as [Hp1 Hp2]
    by (split; [apply Z.pow_pos_nonneg; lia|apply Z.pow_le_mono_r; lia]).
  change (2 ^ 4) with 16 in Hp2. unfold saturating_add. assert (0 < T * 2 ^ rto_attempts r ≤ 48000) by nia. lia.
Qed.

Lemma poll_serves_one {E} m m' ev now :
  tx_inv m → now + 96000 ≤ max_u 64 → poll_retransmit (E:=E) m now = Ok (m', Some ev) →
  length (mview m') = length (mview m) ∧ due_events (mview m) now ≡ₚ ev :: due_events (mview m') now.
Proof.
  intros Hm Hmax Hp. pose proof Hm as (Hi & _ & Ht).
  destruct (poll_ok (E:=E) m now Hi) as (m2 & r2 & Ho & Hr). rewrite Hp in Ho. simplify_eq.
  destruct Hr as (q & s & Hq & [Hd _] & -> & _ & Hs & _ & _ & Hv).
  unfold due_at in Hd. rewrite Hq in Hd. pose proof (slot_at_lt _ _ _ Hs) as Hlt.
  unfold due_events. rewrite Hv, length_insert. split; [done|].
  apply (omap_remove _ _ _ (pc_tx_slot q)).
  - apply NoDup_seq.
  - apply elem_of_seq. lia.
  - unfold due_event. by rewrite Hq, Hd.
  - unfold due_event. rewrite view_pending_insert, decide_True by done.
    pose proof (after_due_later q now s (pc_tx_slot q) ltac:(by eapply Ht) Hd Hmax) as Hl.
    destruct (slot_pending _ _); [by rewrite Hl|done].
  - intros j Hj. unfold due_event. by rewrite view_pending_insert, decide_False.
Qed.

Lemma poll_all_ok {E} fuel m now :
  tx_inv m → now + 96000 ≤ max_u 64 → (length (due_events (mview m) now) < fuel)%nat →
  ∃ m' evs, poll_all (E:=E) fuel m now = Ok (m', evs) ∧ tx_inv m' ∧
    evs ≡ₚ due_events (mview m) now ∧ ∀ id, due_at (mview m') now id = false.
Proof.
  revert m. induction fuel as [|fuel IH]; intros m Hm Hmax Hf; [lia|]. cbn [poll_all].
  destruct (poll_ok (E:=E) m now ltac:(apply Hm)) as (m1 & r & Hp & Hr). rewrite Hp. unbind.
  destruct r as [ev|].
  - destruct (poll_serves_one m m1 ev now Hm Hmax Hp) as [_ Hev].
    destruct (IH m1) as (m' & evs & -> & Hm' & Hevs & Hdone); [by eapply poll_keeps|done| |].
    { apply Permutation_length in Hev. simpl in Hev. lia. }
    exists m', (ev :: evs). split_and!; try done. by rewrite Hev, Hevs.
  - destruct Hr as [-> Hnone]. exists m, []. split_and!; try done.
    assert (due_events (mview m) now = []) as ->; [|done]. unfold due_events.
    induction (seq 0 (length (mview m))) as [|id ids IHl]; [done|]. cbn.
    by rewrite (proj2 (due_event_none _ now id) (Hnone id)).
Qed.
End pending_invariant.

(** ** What the operations promise *)
Section pending_theorems.
Context {P : Type} `{Target} `{SlotPool P} `{DatagramBytes P} `{!DatagramLaws P}.
Implicit Types (m : TxMemory P) (id : SlotId).

(** Two slots that match the same message are one. *)
Lemma matches_unique m mid e i j : tx_inv m → matches m mid e i → matches m mid e j → i = j.
Proof. intros (_ & Hn & _) (q & Hq & _ & He & _) (q' & Hq' & _ & He' & _). eapply Hn; [done..|]. congruence. Qed.

(** What a setter of the pool answers is never a panic. *)
Lemma updates_returns m id r f : updates pool_inv pool_view pool_cap (tx_pool m) id r f → returns r.
Proof. unfold updates. destruct (pool_view (tx_pool m) !! id) as [[s|]|]; [|by intros ->..]. by intros (p & -> & _). Qed.

Lemma pool_returns m :
  pool_inv (tx_pool m) →
  returns (sp_acquire (E:=SlotError) (tx_pool m)) ∧ (∀ id, returns (sp_release (tx_pool m) id)) ∧
  (∀ id, returns (db_access (tx_pool m) id)) ∧ (∀ id e, returns (db_set_endpoint (tx_pool m) id e)) ∧
  (∀ id mid rto, returns (db_set_pending (tx_pool m) id mid rto)) ∧ (∀ id, returns (db_clear_pending_mid (tx_pool m) id)).
Proof.
  intros Hi. split_and!.
  - pose proof (law_acquire (tx_pool m) (E:=SlotError) Hi) as Hl. by destruct (sp_acquire _) as [[? ?]| | |].
  - intros id. pose proof (law_release (tx_pool m) id Hi) as Hl.
    destruct (pool_view (tx_pool m) !! id) as [[s|]|]; [destruct (sv_pinned s)|..]; try (by rewrite Hl).
    by destruct Hl as (p & -> & _).
  - intros id. pose proof (law_access (tx_pool m) id Hi) as Hl. destruct (slot_at _ id) as [s|]; [|by rewrite Hl].
    destruct (sv_pinned s); [by rewrite Hl|]. by destruct Hl as (p & -> & _).
  - intros id e. by eapply updates_returns, law_set_endpoint.
  - intros id mid rto. by eapply updates_returns, law_set_pending.
  - intros id. by eapply updates_returns, law_clear_pending.
Qed.


(** ACK and RST matching: [take_pending_con] clears exactly the started
    message with that Message ID and endpoint, the one [lookup_pending_con]
    reports; afterwards nothing matches and every other slot is as before. *)
Theorem take_pending_exact m mid e :
  tx_inv m →
  ∃ m' r, take_pending_con (E:=SlotError) m mid e = Ok (m', r) ∧
    lookup_pending_con (E:=SlotError) m mid e = Ok r ∧
    lookup_pending_con (E:=SlotError) m' mid e = Ok None ∧
    (∀ id, r = Some id ↔ matches m mid e id) ∧
    ∀ id, r ≠ Some id → slot_at (mview m') id = slot_at (mview m) id.
Proof.
  intros Hm. pose proof Hm as (Hi & _).
  destruct (take_ok (E:=SlotError) m mid e Hi) as (m' & r & Ht & _ & Hr).
  pose proof (take_keeps _ _ _ _ _ Hm Ht) as Hm'. pose proof Hm' as (Hi' & _).
  destruct (lookup_ok (E:=SlotError) m mid e Hi) as (r1 & Hl & Hr1).
  destruct (lookup_ok (E:=SlotError) m' mid e Hi') as (r2 & Hl2 & Hr2).
  exists m', r. split; [done|]. destruct r as [id|].
  - destruct Hr as (Hmt & s & Hs & Hch). pose proof Hch as (_ & _ & Hv). pose proof (slot_at_lt _ _ _ Hs) as Hlt.
    assert (∀ i, ¬ matches m' mid e i) as Hno.
    { intros i (q & Hq & Hrest). rewrite Hv, view_pending_insert in Hq by done.
      destruct (decide (i = id)) as [->|Hne]; [done|]. apply Hne.
      apply (matches_unique m mid e i id Hm); [by exists q|done]. }
    split_and!.
    + rewrite Hl. destruct r1 as [i|]; [|by destruct (Hr1 id)]. destruct Hr1 as [Hi1 _].
      by rewrite (matches_unique m mid e i id Hm Hi1 Hmt).
    + rewrite Hl2. destruct r2 as [i|]; [|done]. by destruct Hr2 as [Hx _], (Hno i).
    + intros i. split; [by intros [= <-]|]. intros Hmi. f_equal. by apply (matches_unique m mid e id i Hm).
    + intros i Hi2. rewrite Hv, slot_at_insert by done. destruct (decide (i = id)); [by subst|done].
  - destruct Hr as [-> Hno].
    assert (r1 = None) as -> by (destruct r1 as [i|]; [by destruct Hr1 as [Hx _], (Hno i)|done]).
    split_and!; [done|done| |done]. intros i. split; [done|]. intros Hx. by destruct (Hno i).
Qed.

(** C22: Fairness: polling at one instant until nothing is due terminates
    within one poll per slot and one more, reports each due message exactly
    once (a retransmission, or giving up after the fourth), and leaves nothing
    due. *)
Theorem poll_serves_all m now :
  tx_inv m → now + 96000 ≤ max_u 64 →
  ∃ m' evs, poll_all (E:=SlotError) (S (length (mview m))) m now = Ok (m', evs) ∧ tx_inv m' ∧
    evs ≡ₚ due_events (mview m) now ∧ (∀ id, due_at (mview m') now id = false) ∧
    ∀ q, view_pending (mview m) (pc_tx_slot q) = Some q → PendingRto_is_due (pc_rto q) now = true →
      (rto_attempts (pc_rto q) < MAX_RETRANSMIT ∧
         ∃ rto, Due (PendingCon_with_rto q rto) ∈ evs ∧ rto_attempts rto = rto_attempts (pc_rto q) + 1) ∨
      (rto_attempts (pc_rto q) = MAX_RETRANSMIT ∧ GiveUp q ∈ evs).
Proof.
  intros Hm Hmax.
  destruct (poll_all_ok (E:=SlotError) (S (length (mview m))) m now Hm Hmax) as (m' & evs & Hp & Hm' & Hev & Hno).
  { unfold due_events. pose proof (omap_length_le (due_event (mview m) now) (seq 0 (length (mview m)))) as Hl.
    rewrite length_seq in Hl. lia. }
  exists m', evs. split_and!; try done. intros q Hq Hd.
  assert (due_outcome q now ∈ evs) as Hin.
  { rewrite Hev. unfold due_events. apply list_elem_of_omap. exists (pc_tx_slot q). split.
    - destruct (view_pending_at _ _ _ Hq) as (s & Hs & _). apply slot_at_lt in Hs. apply elem_of_seq. lia.
    - unfold due_event. by rewrite Hq, Hd. }
  pose proof Hm as (_ & _ & Ht). destruct (Ht _ _ Hq) as [Hr|[T HT]]; [by rewrite Hr in Hd|].
  pose proof (rto_next_ok T now (pc_rto q) HT) as Hn. unfold due_outcome in Hin. unfold MAX_RETRANSMIT.
  destruct (PendingRto_next_attempt (pc_rto q) now) as [r|]; [left|right; done].
  destruct Hn as (? & _ & ? & _). split; [done|]. by exists r.
Qed.

(** A stale or started snapshot is refused, an exact one accepted. *)
Lemma commit_case {E} m q now j :
  pool_inv (tx_pool m) →
  if decide (rto_started (pc_rto q) = false ∧ view_pending (mview m) (pc_tx_slot q) = Some q)
  then ∃ m' s, commit_pending_con (E:=E) m q now j =
           Ok (m', Some (PendingCon_with_rto q (PendingRto_new now j))) ∧
         slot_at (mview m) (pc_tx_slot q) = Some s ∧
         changed m m' (pc_tx_slot q)
           (Some (set_view_pending (Some (mkMark (pc_message_id q) (PendingRto_new now j))) s))
  else commit_pending_con (E:=E) m q now j = Ok (m, None).
Proof.
  intros Hi. destruct (commit_ok (E:=E) m q now j Hi) as (m' & r & -> & _ & Hr). destruct (decide _) as [[Hs Hq]|Hn].
  - destruct r; [|by destruct Hr as [_ [?|?]]; congruence]. destruct Hr as (-> & _ & _ & s & Hs' & Hch). by exists m', s.
  - destruct r; [|by destruct Hr as [-> _]]. destruct Hr as (_ & ? & ? & _). by destruct Hn.
Qed.

Lemma cancel_case {E} m q :
  pool_inv (tx_pool m) →
  if decide (rto_started (pc_rto q) = false ∧ view_pending (mview m) (pc_tx_slot q) = Some q)
  then ∃ m' s, cancel_pending_con (E:=E) m q = Ok (m', true) ∧
         slot_at (mview m) (pc_tx_slot q) = Some s ∧
         changed m m' (pc_tx_slot q) (Some (set_view_pending None s))
  else cancel_pending_con (E:=E) m q = Ok (m, false).
Proof.
  intros Hi. destruct (cancel_ok (E:=E) m q Hi) as (m' & r & -> & _ & Hr). destruct (decide _) as [[Hs Hq]|Hn].
  - destruct r; [|by destruct Hr as [_ [?|?]]; congruence]. destruct Hr as (_ & _ & s & Hs' & Hch). by exists m', s.
  - destruct r; [|by destruct Hr as [-> _]]. destruct Hr as (? & ? & _). by destruct Hn.
Qed.

(** The two-phase send: a reservation counts as outstanding but matches no
    ACK or RST; cancelling it restores every pending message to what it was
    before; committing it starts the timer, after which the message matches
    and neither a second commit nor a cancel of the old snapshot does
    anything. *)
Theorem reserve_lifecycle m m1 q id e mid now j :
  tx_inv m → 0 ≤ j → view_pending (mview m) id = None →
  reserve_pending_con (E:=SlotError) m id e mid = Ok (m1, Some q) →
  q = mkPendingCon mid e id PendingRto_reserved ∧ outstanding_at (mview m1) e id = true ∧
  (∀ i, ¬ matches m1 mid e i) ∧
  (∃ m2, cancel_pending_con (E:=SlotError) m1 q = Ok (m2, true) ∧
         ∀ i, view_pending (mview m2) i = view_pending (mview m) i) ∧
  ∃ m3, commit_pending_con (E:=SlotError) m1 q now j =
          Ok (m3, Some (PendingCon_with_rto q (PendingRto_new now j))) ∧
        matches m3 mid e id ∧
        commit_pending_con (E:=SlotError) m3 q now j = Ok (m3, None) ∧
        cancel_pending_con (E:=SlotError) m3 q = Ok (m3, false).
Proof.
  intros Hm Hj Hnone Hres. pose proof Hm as (Hi & Hn & _).
  pose proof (reserve_keeps _ _ _ _ _ _ Hm Hres) as Hm1. pose proof Hm1 as (Hi1 & Hn1 & _).
  destruct (reserve_ok (E:=SlotError) m id e mid Hi Hn) as (m1' & r & Hr & _ & Hspec).
  rewrite Hres in Hr. injection Hr as <- <-.
  destruct Hspec as (_ & _ & Hq & [->|(s & Hs & _ & -> & Hch & _)]); [congruence|].
  set (q := mkPendingCon mid e id PendingRto_reserved) in *. pose proof (slot_at_lt _ _ _ Hs) as Hlt.
  pose proof Hch as (_ & _ & Hv). assert (Hlt1 : (id < length (mview m1))%nat) by (by rewrite Hv, length_insert).
  pose proof (cancel_case (E:=SlotError) m1 q Hi1) as Hcan. rewrite decide_True in Hcan by done.
  pose proof (commit_case (E:=SlotError) m1 q now j Hi1) as Hcom. rewrite decide_True in Hcom by done.
  destruct Hcan as (m2 & s2 & Hc2 & _ & _ & _ & Hv2). destruct Hcom as (m3 & s3 & Hc3 & Hs3 & Hi3 & _ & Hv3).
  change (pc_tx_slot q) with id in Hs3, Hv2, Hv3.
  split_and!; [done|unfold outstanding_at; rewrite Hq; by apply bool_decide_eq_true| | |].
  - intros i (q' & Hq' & _ & He & Hst). assert (i = id) as -> by (eapply Hn1; [done..|]; by rewrite He).
    rewrite Hq in Hq'. by injection Hq' as <-.
  - exists m2. split; [done|]. intros i. rewrite Hv2, view_pending_insert by done.
    destruct (decide (i = id)) as [->|Hne]; [by rewrite Hnone|]. by rewrite Hv, view_pending_insert, decide_False.
  - assert (view_pending (mview m3) id = Some (PendingCon_with_rto q (PendingRto_new now j))) as Hq3.
    { rewrite Hv3, view_pending_insert, decide_True by done. simpl.
      destruct (view_pending_at _ _ _ Hq) as (s1 & Hs1 & _ & He1 & _). rewrite Hs3 in Hs1. simplify_eq.
      by rewrite He1. }
    exists m3. split_and!; [done|by eexists| |].
    + pose proof (commit_case (E:=SlotError) m3 q now j Hi3) as Hc. rewrite decide_False in Hc; [done|].
      intros [_ Hx]. simpl in Hx. rewrite Hq3 in Hx. done.
    + pose proof (cancel_case (E:=SlotError) m3 q Hi3) as Hc. rewrite decide_False in Hc; [done|].
      intros [_ Hx]. simpl in Hx. rewrite Hq3 in Hx. done.
Qed.

(** In-place replacement is atomic: it succeeds only on the exact current
    message, keeps its timer, endpoint and Token, gives it a new Message ID
    and the staged bytes, and touches no other slot; every refusal names its
    reason, and nothing panics. *)
Theorem replace_pending_atomic m q bytes :
  tx_inv m →
  match replace_pending_con m q bytes with
  | Ok (m', q') =>
      tx_inv m' ∧ view_pending (mview m) (pc_tx_slot q) = Some q ∧
      view_pending (mview m') (pc_tx_slot q) = Some q' ∧
      pc_rto q' = pc_rto q ∧ pc_endpoint q' = pc_endpoint q ∧ pc_message_id q' ≠ pc_message_id q ∧
      option_map sv_payload (slot_at (mview m') (pc_tx_slot q)) = Some bytes ∧
      (∀ i, ¬ matches m' (pc_message_id q) (pc_endpoint q) i) ∧
      (∀ i, i ≠ pc_tx_slot q → slot_at (mview m') i = slot_at (mview m) i) ∧
      ∃ wire old new, option_map sv_payload (slot_at (mview m) (pc_tx_slot q)) = Some wire ∧
        extended_decode wire = Ok old ∧ extended_decode bytes = Ok new ∧ pt_token new = pt_token old
  | Err Stale => view_pending (mview m) (pc_tx_slot q) ≠ Some q ∨ rto_started (pc_rto q) = false
  | Err (PRSlot Pinned) => ∃ s, slot_at (mview m) (pc_tx_slot q) = Some s ∧ sv_pinned s = true
  | Err (PRSlot LengthExceedsSlot) => (mcap m < length bytes)%nat
  | Err InvalidMessage => view_pending (mview m) (pc_tx_slot q) = Some q
  | _ => False
  end.
Proof.
  intros Hm. pose proof Hm as (Hi & Hn & _). pose proof (replace_ok m q bytes Hi) as Hr.
  destruct (replace_pending_con m q bytes) as [[m' q']|e| |] eqn:Ha; [| |done..].
  - pose proof (replace_keeps _ _ _ _ _ Hm Ha) as Hm'. pose proof Hm' as (_ & Hn' & _).
    destruct Hr as (Hq & Hval & _ & s & Hs & _ & _ & _ & Hv). pose proof (slot_at_lt _ _ _ Hs) as Hlt.
    apply validate_replacement_ok in Hval
      as (_ & Hst & _ & _ & He & Hsl & Hrto & Hmid & old & wire & new & Hw & Ho & Hb & _ & _ & _ & _ & _ & Htok).
    destruct (view_pending_at _ _ _ Hq) as (s0 & Hs0 & _ & He0 & _). rewrite Hs in Hs0. simplify_eq.
    assert (view_pending (mview m') (pc_tx_slot q) = Some q') as Hq'.
    { rewrite Hv, view_pending_insert, decide_True by done. simpl. rewrite He0. destruct q'. simpl in *. by subst. }
    split_and!; try done.
    + by rewrite Hv, slot_at_insert, decide_True.
    + intros i (q2 & Hq2 & Hm2 & He2 & _). assert (i = pc_tx_slot q) as -> by (eapply Hn'; [done..|congruence]).
      rewrite Hq' in Hq2. by simplify_eq.
    + intros i Hne. by rewrite Hv, slot_at_insert, decide_False.
    + exists wire, old, new. by rewrite Hs in *.
  - apply (validate_replacement_err _ _ _ _ _ _ _) in Hr. destruct e as [| |[]| |]; try done.
    + destruct Hr as [Hr|[Hr|Hr]]; [by left|by right|]. left. unfold view_pending.
      destruct (slot_at (mview m) (pc_tx_slot q)); done.
    + destruct (slot_at (mview m) (pc_tx_slot q)) as [s|]; [by exists s|done].
Qed.
End pending_theorems.

(** ** Witnesses: a pool of two slots of eight bytes *)
Lemma DatagramPool_new_inv (n b : nat) :
  dp_inv (DatagramPool_new n b) ∧ ∀ id, slot_at (dp_view (DatagramPool_new n b)) id = None.
Proof.
  split.
  - unfold dp_inv, DatagramPool_new. simpl. rewrite !length_replicate. split_and!; try done.
    + by apply Occupancy_new_inv.
    + apply Forall_replicate. apply length_replicate.
    + apply Forall_replicate. lia.
  - intros id. unfold dp_view. rewrite table_slot_at. unfold Occupancy_is_occupied. simpl.
    destruct (replicate n false !! id) as [b'|] eqn:E; [|done]. by apply lookup_replicate in E as [-> _].
Qed.

Section witnesses.
#[local] Existing Instance target64.

Definition ex_peer : Endpoint := mkEndpoint ([192; 0; 2; 1] ++ replicate 12 0) 0 0 5683 false.
Definition ex_con (mid : Z) : list Z := [64; 1; 0; mid].

Definition ex_m0 : TxMemory (DatagramPool 2 8) := mkTx (DatagramPool_new 2 8) 0.
Definition ex_m1 : TxMemory (DatagramPool 2 8) :=
  Eval vm_compute in match sp_acquire (E:=SlotError) (tx_pool ex_m0) with
                     | Ok (p, _) => tx_with_pool ex_m0 p
                     | _ => ex_m0
                     end.
Definition ex_m2 : TxMemory (DatagramPool 2 8) :=
  Eval vm_compute in match record_pending_con (E:=SlotError) ex_m1 0 ex_peer 7 1000 0 with
                     | Ok (m, _) => m
                     | _ => ex_m1
                     end.
Definition ex_q : PendingCon := mkPendingCon 7 ex_peer 0 (mkRto 0 true 3000 2000).

Lemma ex_m1_step : tx_step ex_m0 ex_m1.
Proof. apply (step_tx_acquire ex_m0 (tx_pool ex_m1) (Some 0%nat)). vm_compute. reflexivity. Qed.

Lemma ex_m2_step : tx_step ex_m1 ex_m2.
Proof.
  eapply (step_record ex_m1 ex_m2 (Some 0%nat) 0 ex_peer 7 1000 0); [lia|]. vm_compute. reflexivity.
Qed.

Lemma ex_m0_inv : tx_inv ex_m0.
Proof.
  destruct (DatagramPool_new_inv 2 8) as [Hi Hv]. split_and!; [exact Hi| |]; intros i; intros *;
    unfold mview, view_pending; simpl; by rewrite Hv.
Qed.

Lemma ex_m1_inv : tx_inv ex_m1.
Proof. eapply tx_step_inv; [apply ex_m0_inv|apply ex_m1_step]. Qed.

Lemma ex_m2_inv : tx_inv ex_m2.
Proof. eapply tx_step_inv; [apply ex_m1_inv|apply ex_m2_step]. Qed.


Lemma take_pending_exact_witness :
  ∃ m' r, take_pending_con (E:=SlotError) ex_m2 7 ex_peer = Ok (m', r) ∧
    lookup_pending_con (E:=SlotError) m' 7 ex_peer = Ok None ∧ r = Some 0%nat.
Proof.
  destruct (take_pending_exact ex_m2 7 ex_peer ex_m2_inv) as (m' & r & Ht & _ & Hl & Hm & _).
  exists m', r. split; [exact Ht|]. split; [exact Hl|]. apply Hm. exists ex_q. vm_compute. done.
Defined.

Lemma poll_serves_all_witness :
  ∃ m' evs, poll_all (E:=SlotError) 3 ex_m2 3500 = Ok (m', evs) ∧
    (∀ id, due_at (mview m') 3500 id = false) ∧ ∃ rto, Due (PendingCon_with_rto ex_q rto) ∈ evs.
Proof.
  destruct (poll_serves_all ex_m2 3500 ex_m2_inv ltac:(unfold max_u; lia))
    as (m' & evs & Hp & _ & _ & Hno & Hq).
  exists m', evs. split; [exact Hp|]. split; [exact Hno|].
  destruct (Hq ex_q ltac:(vm_compute; reflexivity) ltac:(reflexivity)) as [[_ (rto & Hr & _)]|[Hf _]].
  - by exists rto.
  - discriminate Hf.
Defined.

Lemma reserve_lifecycle_witness :
  ∃ m1 q, reserve_pending_con (E:=SlotError) ex_m1 0 ex_peer 7 = Ok (m1, Some q) ∧
    (∀ i, ¬ matches m1 7 ex_peer i).
Proof.
  destruct (reserve_pending_con (E:=SlotError) ex_m1 0 ex_peer 7) as [[m1 [q|]]| | |] eqn:Hr;
    try (vm_compute in Hr; discriminate Hr).
  exists m1, q. split; [done|].
  apply (reserve_lifecycle ex_m1 m1 q 0 ex_peer 7 1000 0 ex_m1_inv ltac:(lia) ltac:(reflexivity) Hr).
Defined.

Definition ex_m3 : TxMemory (DatagramPool 2 8) :=
  mkTx (mkPool [ex_con 7 ++ [0; 0; 0; 0]; replicate 8 0] [4%nat; 0%nat]
          (dp_endpoints (tx_pool ex_m2)) (dp_pending (tx_pool ex_m2)) (dp_occ (tx_pool ex_m2)))
       (tx_retransmit_cursor ex_m2).

Lemma ex_m3_inv : tx_inv ex_m3.
Proof.
  destruct ex_m2_inv as ((Ho & Hl & Hp & Hb & Hn & He & Hpe & Hfb & Hfl) & Hns & Ht).
  split_and!; [split_and!; try done; repeat constructor; simpl; lia| |].
  - intros i j qi qj Hi Hj. apply (Hns i j qi qj).
    + destruct i as [|[|i]]; vm_compute in Hi |- *; done.
    + destruct j as [|[|j]]; vm_compute in Hj |- *; done.
  - intros i q Hq. apply (Ht i q). destruct i as [|[|i]]; vm_compute in Hq |- *; done.
Qed.

Lemma replace_pending_atomic_witness :
  match replace_pending_con ex_m3 ex_q (ex_con 9) with
  | Ok (m', q') => pc_message_id q' = 9 ∧ tx_inv m'
  | _ => False
  end.
Proof.
  pose proof (replace_pending_atomic ex_m3 ex_q (ex_con 9) ex_m3_inv) as Hr.
  destruct (replace_pending_con ex_m3 ex_q (ex_con 9)) as [[m' q']| | |] eqn:E;
    try (vm_compute in E; discriminate E).
  split; [|apply Hr]. vm_compute in E. by injection E as _ <-.
Defined.
End witnesses.
