(* ===== verification/SlotTable.v ===== *)
(** * Keyed slot tables

    The code that [DedupTable] and [ObserveTable] ([src/storage/table.rs]) and
    [ExchangeTable] ([src/storage/exchange.rs]) share: rows in an array beside
    an allocator without pins, found by a linear scan for their key.  The
    table is proved to implement a bounded partial map from keys to rows. *)
From S2P Require Import Prelude Errors Occupancy.

(** A row type with a lookup identity. *)
Class Keyed (R K : Type) : Type := row_key : R → K.

Record SlotTable (R : Type) : Type := mkTable {
  tb_entries : list (option R);
  tb_occ : Occupancy
}.
Arguments mkTable {R} _ _.
Arguments tb_entries {R} _.
Arguments tb_occ {R} _.

Definition SlotTable_new {R} (entries : nat) : SlotTable R :=
  mkTable (replicate entries None) (Occupancy_new entries 0).

Section slot_table.
Context {R K : Type} `{Keyed R K} `{EqDecision K}.
Implicit Types (t : SlotTable R) (id : SlotId).

Definition tb_entry t id : option R :=
  if negb (Occupancy_is_occupied (tb_occ t) id) then None else mjoin (tb_entries t !! id).

(** The closure of [find_map]. *)
Definition tb_match t (key : K) id : option SlotId :=
  match tb_entry t id with
  | Some row => if eqb (row_key row) key then Some id else None
  | None => None
  end.

Definition tb_lookup t (key : K) : option SlotId :=
  find_map (tb_match t key) (seq 0 (length (tb_entries t))).

Definition tb_reset t id : SlotTable R :=
  match tb_entries t !! id with
  | Some _ => mkTable (<[id := None]> (tb_entries t)) (tb_occ t)
  | None => t
  end.

Definition tb_with_occ t (occ : Occupancy) : SlotTable R := mkTable (tb_entries t) occ.

(** [self.entries[id.index()] = Some(row)]. *)
Definition tb_put {E} t id (row : R) : res E (SlotTable R) :=
  entries ← set_idx id (Some row) (tb_entries t);
  mret (mkTable entries (tb_occ t)).

Definition tb_insert {E} t (row : R) : res E (SlotTable R * option SlotId) :=
  match tb_lookup t (row_key row) with
  | Some id => mret (t, Some id)
  | None =>
      '(occ, r) ← Occupancy_acquire (tb_occ t);
      match r with
      | None => mret (tb_with_occ t occ, None)
      | Some id => t ← tb_put (tb_with_occ t occ) id row; mret (t, Some id)
      end
  end.

Definition tb_release t id : res SlotError (SlotTable R) :=
  occ ← Occupancy_release (tb_occ t) id;
  mret (tb_reset (tb_with_occ t occ) id).

Definition tb_acquire {E} t : res E (SlotTable R * option SlotId) :=
  '(occ, r) ← Occupancy_acquire (tb_occ t);
  match r with
  | None => mret (tb_with_occ t occ, None)
  | Some id => mret (tb_reset (tb_with_occ t occ) id, Some id)
  end.

(** [release(id)] with its error dropped. *)
Definition tb_release_ok {E} t id : res E (SlotTable R * bool) :=
  match tb_release t id with
  | Ok t => Ok (t, true)
  | Err _ => Ok (t, false)
  | Panic => Panic
  | Diverge => Diverge
  end.

Definition tb_remove {E} t (key : K) : res E (SlotTable R * bool) :=
  match tb_lookup t key with
  | Some id => tb_release_ok t id
  | None => mret (t, false)
  end.

Definition tb_take {E} t (key : K) : res E (SlotTable R * option R) :=
  match tb_lookup t key with
  | None => mret (t, None)
  | Some id =>
      match tb_entry t id with
      | None => mret (t, None)
      | Some row => '(t, _) ← tb_release_ok t id; mret (t, Some row)
      end
  end.

Definition tb_advance t (steps : nat) : SlotTable R := tb_with_occ t (Occupancy_advance (tb_occ t) steps).

Definition tb_set_entry t id (row : R) : res SlotError (SlotTable R) :=
  if negb (Occupancy_is_occupied (tb_occ t) id)
  then Err (if (id <? length (tb_entries t))%nat then NotOccupied else InvalidSlot)
  else tb_put t id row.

(** ** Invariant and abstract map *)
Definition tb_inv t : Prop :=
  occ_inv (tb_occ t) ∧ oc_pinned (tb_occ t) = [] ∧
  length (tb_entries t) = length (oc_occupied (tb_occ t)) ∧
  ∀ i j ri rj, tb_entry t i = Some ri → tb_entry t j = Some rj → row_key ri = row_key rj → i = j.

(** The row stored under a key. *)
Definition tb_get t (key : K) : option R := match tb_lookup t key with Some id => tb_entry t id | None => None end.

(** Every slot is used. *)
Definition tb_full t : Prop := ∀ id, (id < length (tb_entries t))%nat → Occupancy_is_occupied (tb_occ t) id = true.

Lemma tb_entry_lt t id row : tb_entry t id = Some row → (id < length (tb_entries t))%nat.
Proof.
  unfold tb_entry. destruct (negb _); [done|]. destruct (tb_entries t !! id) eqn:E; [|done].
  intros _. by eapply lookup_lt_Some.
Qed.

Lemma tb_lookup_Some t key id :
  tb_inv t → tb_lookup t key = Some id ↔ ∃ row, tb_entry t id = Some row ∧ row_key row = key.
Proof.
  intros (_ & _ & _ & Hu). unfold tb_lookup. split.
  - rewrite find_map_Some. intros (l1 & x & l2 & _ & Hx & _). unfold tb_match in Hx.
    destruct (tb_entry t x) as [row|] eqn:E; [|done]. destruct (eqb _ _) eqn:Ek; [|done]. bools.
    simplify_eq. by exists row.
  - intros (row & He & Hk).
    destruct (find_map _ _) as [j|] eqn:Ef.
    + apply find_map_Some in Ef as (l1 & x & l2 & _ & Hx & _). unfold tb_match in Hx.
      destruct (tb_entry t x) as [r|] eqn:E; [|done]. destruct (eqb _ _) eqn:Ek; [|done]. bools.
      injection Hx as <-. f_equal. eapply Hu; [done..|]. congruence.
    + apply find_map_None in Ef. rewrite Forall_forall in Ef.
      assert (tb_match t key id = None) as Hm
        by (apply Ef, elem_of_seq; apply tb_entry_lt in He; lia).
      unfold tb_match in Hm. rewrite He in Hm.
      assert (eqb (row_key row) key = true) as Hkk by (by apply bool_decide_eq_true).
      by rewrite Hkk in Hm.
Qed.

Lemma tb_lookup_None t key :
  tb_inv t → tb_lookup t key = None ↔ ∀ id row, tb_entry t id = Some row → row_key row ≠ key.
Proof.
  intros Hi. destruct (tb_lookup t key) as [id|] eqn:E.
  - split; [done|]. apply tb_lookup_Some in E as (row & He & Hk); [|done]. intros Hn. by destruct (Hn id row He).
  - split; [|done]. intros _ id row He Hk.
    assert (tb_lookup t key = Some id) by (apply tb_lookup_Some; [done|by exists row]). congruence.
Qed.

Lemma tb_get_Some t key row :
  tb_inv t → tb_get t key = Some row ↔ ∃ id, tb_entry t id = Some row ∧ row_key row = key.
Proof.
  intros Hi. unfold tb_get. split.
  - destruct (tb_lookup t key) as [id|] eqn:E; [|done]. intros He.
    apply tb_lookup_Some in E as (r & He' & Hk); [|done]. exists id. split; [done|]. congruence.
  - intros (id & He & Hk). assert (tb_lookup t key = Some id) as -> by (apply tb_lookup_Some; [done|by exists row]).
    done.
Qed.

(** Two tables with the same rows under the same keys. *)
Lemma tb_get_ext t t' key :
  tb_inv t → tb_inv t' →
  (∀ row, row_key row = key → (∃ id, tb_entry t id = Some row) ↔ ∃ id, tb_entry t' id = Some row) →
  tb_get t key = tb_get t' key.
Proof.
  intros Hi Hi' Hx. apply option_eq. intros row. rewrite !tb_get_Some by done.
  split; intros (id & He & Hk).
  - destruct (proj1 (Hx row Hk)) as [j Hj]; eauto.
  - destruct (proj2 (Hx row Hk)) as [j Hj]; eauto.
Qed.

(** ** The operations on rows *)

(** A table whose allocator marks [id] used and whose row [id] is [r]. *)
Lemma tb_entry_update t t' id b r j :
  oc_occupied (tb_occ t') = <[id := b]> (oc_occupied (tb_occ t)) →
  tb_entries t' = <[id := r]> (tb_entries t) → (id < length (tb_entries t))%nat →
  length (tb_entries t) = length (oc_occupied (tb_occ t)) →
  tb_entry t' j = if decide (j = id) then (if b : bool then r else None) else tb_entry t j.
Proof.
  intros Ho He Hid Hl. unfold tb_entry, Occupancy_is_occupied. rewrite Ho, He.
  destruct (decide (j = id)) as [->|Hne].
  - rewrite !list_lookup_insert_eq by lia. by destruct b.
  - by rewrite !list_lookup_insert_ne.
Qed.

(** Keys stay unique when a row with a new key, or no row, is stored. *)
Lemma unique_update t t' id r :
  tb_inv t → (∀ j, tb_entry t' j = if decide (j = id) then r else tb_entry t j) →
  (∀ row, r = Some row → ∀ j rj, j ≠ id → tb_entry t j = Some rj → row_key rj ≠ row_key row) →
  ∀ i j ri rj, tb_entry t' i = Some ri → tb_entry t' j = Some rj → row_key ri = row_key rj → i = j.
Proof.
  intros (_ & _ & _ & Hu) He Hr i j ri rj. rewrite !He.
  destruct (decide (i = id)) as [->|Hi], (decide (j = id)) as [->|Hj]; [done|..].
  - intros -> Hj' Hk. by destruct (Hr ri eq_refl j rj Hj Hj').
  - intros Hi' -> Hk. by destruct (Hr rj eq_refl i ri Hi Hi').
  - by apply Hu.
Qed.

Lemma tb_acquire_occ {E} t :
  tb_inv t →
  ∃ occ r, Occupancy_acquire (E:=E) (tb_occ t) = Ok (occ, r) ∧
    match r with
    | Some id =>
        occ_inv occ ∧ oc_pinned occ = [] ∧ Occupancy_is_occupied (tb_occ t) id = false ∧
        (id < length (tb_entries t))%nat ∧ oc_occupied occ = <[id := true]> (oc_occupied (tb_occ t))
    | None => occ = tb_occ t ∧ tb_full t
    end.
Proof.
  intros (Ho & Hp & Hl & _). pose proof (acquire_outcome (E:=E) (tb_occ t) Ho) as Ha.
  destruct (Occupancy_acquire (tb_occ t)) as [[occ [id|]]| | |]; [| |done..].
  - destruct Ha as ([Hf _] & Hoi & Hocc & Hpin & _). exists occ, (Some id). split; [done|].
    rewrite Hp in Hpin. split_and!; try done; [unfold Occupancy_is_occupied; by rewrite Hf|].
    rewrite Hl. by eapply lookup_lt_Some.
  - destruct Ha as [-> Hall]. exists (tb_occ t), None. split_and!; try done. intros id Hid.
    rewrite Hall. apply Nat.ltb_lt. lia.
Qed.

Lemma tb_insert_ok {E} t row :
  tb_inv t →
  ∃ t' r, tb_insert (E:=E) t row = Ok (t', r) ∧ tb_inv t' ∧ length (tb_entries t') = length (tb_entries t) ∧
    match tb_lookup t (row_key row) with
    | Some id => t' = t ∧ r = Some id
    | None =>
        match r with
        | Some id =>
            Occupancy_is_occupied (tb_occ t) id = false ∧ (id < length (tb_entries t))%nat ∧
            ∀ j, tb_entry t' j = if decide (j = id) then Some row else tb_entry t j
        | None => t' = t ∧ tb_full t
        end
    end.
Proof.
  intros Hi. unfold tb_insert. destruct (tb_lookup t (row_key row)) as [id|] eqn:Hlk; [by exists t, (Some id)|].
  destruct (tb_acquire_occ (E:=E) t Hi) as (occ & r & -> & Hr). unbind. pose proof Hi as (_ & Hp0 & Hl & _).
  destruct r as [id|]; [|destruct Hr as [-> Hf]; exists t, None; by destruct t].
  destruct Hr as (Hoi & Hp & Hfree & Hid & Hocc). unfold tb_put, set_idx. simpl.
  rewrite (proj2 (Nat.ltb_lt _ _)) by done. unbind. eexists _, (Some id). split; [done|].
  set (t' := mkTable (<[id := Some row]> (tb_entries t)) occ).
  assert (∀ j, tb_entry t' j = if decide (j = id) then Some row else tb_entry t j) as He
    by (intros j; by apply (tb_entry_update t t' id true)).
  split_and!; try done; [|by simpl; rewrite length_insert]. unfold tb_inv. split_and!; [done|done| |].
  - simpl. by rewrite Hocc, !length_insert.
  - eapply unique_update; [done..|]. intros row' [= <-] j rj _ Hj. by eapply tb_lookup_None.
Qed.

Lemma tb_release_spec t id :
  tb_inv t → Occupancy_is_occupied (tb_occ t) id = true →
  ∃ t', tb_release t id = Ok t' ∧ tb_inv t' ∧ length (tb_entries t') = length (tb_entries t) ∧
    Occupancy_is_occupied (tb_occ t') id = false ∧
    ∀ j, tb_entry t' j = if decide (j = id) then None else tb_entry t j.
Proof.
  intros Hi Hocc. pose proof Hi as (Ho & Hp & Hl & _). unfold tb_release.
  pose proof (release_all (tb_occ t) id Ho) as Hr. unfold Occupancy_is_occupied in Hocc.
  assert (oc_occupied (tb_occ t) !! id = Some true) as Hlk
    by (by destruct (oc_occupied (tb_occ t) !! id) as [[]|]).
  pose proof (lookup_lt_Some _ _ _ Hlk) as Hid.
  destruct (Occupancy_release (tb_occ t) id) as [occ|[]| |]; try done.
  2: lia. 2: congruence. 2: { destruct Hr as [Hr _]. unfold Occupancy_is_pinned in Hr. by rewrite Hp in Hr. }
  destruct Hr as (_ & _ & Hoi & -> & _). unbind. unfold tb_reset. simpl.
  destruct (lookup_lt_is_Some_2 (tb_entries t) id) as [r Er]; [lia|]. rewrite Er.
  eexists. split; [done|]. set (t' := mkTable (<[id := None]> (tb_entries t)) _).
  assert (∀ j, tb_entry t' j = if decide (j = id) then None else tb_entry t j) as He
    by (intros j; apply (tb_entry_update t t' id false None); [done..|lia|done]).
  split_and!; [|by simpl; rewrite length_insert| |done].
  - unfold tb_inv. split_and!; [done|done|simpl; by rewrite !length_insert|]. by eapply unique_update.
  - unfold Occupancy_is_occupied. simpl. by rewrite list_lookup_insert_eq.
Qed.

Lemma tb_entry_occupied t id row : tb_entry t id = Some row → Occupancy_is_occupied (tb_occ t) id = true.
Proof. unfold tb_entry. by destruct (Occupancy_is_occupied _ _). Qed.

Lemma tb_remove_ok {E} t key :
  tb_inv t →
  ∃ t' b, tb_remove (E:=E) t key = Ok (t', b) ∧ tb_inv t' ∧ length (tb_entries t') = length (tb_entries t) ∧
    match tb_lookup t key with
    | Some id =>
        b = true ∧ Occupancy_is_occupied (tb_occ t') id = false ∧
        ∀ j, tb_entry t' j = if decide (j = id) then None else tb_entry t j
    | None => b = false ∧ t' = t
    end.
Proof.
  intros Hi. unfold tb_remove. destruct (tb_lookup t key) as [id|] eqn:E1; [|by exists t, false].
  apply tb_lookup_Some in E1 as (row & He & _); [|done].
  destruct (tb_release_spec t id Hi (tb_entry_occupied _ _ _ He)) as (t' & Hr & Hi' & Hl & Hf & Hj).
  unfold tb_release_ok. rewrite Hr. by exists t', true.
Qed.

(** ** Reading the map off the rows *)
Lemma tb_get_stored t t' id row :
  tb_inv t → tb_inv t' → (∀ j, tb_entry t' j = if decide (j = id) then Some row else tb_entry t j) →
  tb_entry t id = None →
  tb_get t' (row_key row) = Some row ∧ ∀ k, k ≠ row_key row → tb_get t' k = tb_get t k.
Proof.
  intros Hi Hi' He Hn. split.
  - apply tb_get_Some; [done|]. exists id. by rewrite He, decide_True.
  - intros k Hk. apply tb_get_ext; [done..|]. intros r Hr. split; intros [j Hj].
    + rewrite He in Hj. destruct (decide (j = id)); [by simplify_eq|]. by exists j.
    + exists j. rewrite He. destruct (decide (j = id)); [by subst; rewrite Hn in Hj|done].
Qed.

Lemma tb_get_removed t t' id row :
  tb_inv t → tb_inv t' → (∀ j, tb_entry t' j = if decide (j = id) then None else tb_entry t j) →
  tb_entry t id = Some row →
  tb_get t' (row_key row) = None ∧ ∀ k, k ≠ row_key row → tb_get t' k = tb_get t k.
Proof.
  intros Hi Hi' He Hn. pose proof Hi as (_ & _ & _ & Hu). split.
  - destruct (tb_get t' (row_key row)) as [r|] eqn:E; [|done]. apply tb_get_Some in E as (j & Hj & Hk); [|done].
    rewrite He in Hj. destruct (decide (j = id)) as [|Hne]; [done|]. destruct Hne. by eapply Hu.
  - intros k Hk. apply tb_get_ext; [done..|]. intros r Hr. split; intros [j Hj].
    + rewrite He in Hj. destruct (decide (j = id)); [done|]. by exists j.
    + exists j. rewrite He. destruct (decide (j = id)); [subst; congruence|done].
Qed.

Lemma tb_lookup_get t key :
  tb_inv t → tb_lookup t key = None ↔ tb_get t key = None.
Proof.
  intros Hi. unfold tb_get. destruct (tb_lookup t key) as [id|] eqn:E; [|done].
  apply tb_lookup_Some in E as (row & -> & _); done.
Qed.

Lemma tb_free_entry t id : Occupancy_is_occupied (tb_occ t) id = false → tb_entry t id = None.
Proof. unfold tb_entry. by intros ->. Qed.

(** Insertion, removal and taking, on the map. *)
Lemma tb_insert_map {E} t row :
  tb_inv t →
  ∃ t' r, tb_insert (E:=E) t row = Ok (t', r) ∧ tb_inv t' ∧
    match tb_get t (row_key row), r with
    | Some _, Some id => t' = t ∧ tb_lookup t (row_key row) = Some id
    | Some _, None => False
    | None, Some id =>
        tb_entry t' id = Some row ∧
        ∀ k, tb_get t' k = if decide (k = row_key row) then Some row else tb_get t k
    | None, None => t' = t ∧ tb_full t
    end.
Proof.
  intros Hi. destruct (tb_insert_ok (E:=E) t row Hi) as (t' & r & Hins & Hi' & _ & Hr). exists t', r. split_and!; try done.
  destruct (tb_lookup t (row_key row)) as [i|] eqn:El.
  - destruct Hr as [-> ->]. unfold tb_get. rewrite El.
    pose proof El as El'. by apply tb_lookup_Some in El' as (r' & -> & _).
  - pose proof (proj1 (tb_lookup_get t _ Hi) El) as Hg. rewrite Hg. destruct r as [id|]; [|done].
    destruct Hr as (Hf & Hid & He). split; [by rewrite He, decide_True|].
    destruct (tb_get_stored t t' id row Hi Hi' He (tb_free_entry _ _ Hf)) as [H1 H2].
    intros k. destruct (decide (k = row_key row)) as [->|Hk]; [done|by apply H2].
Qed.

Lemma tb_remove_map {E} t key :
  tb_inv t →
  ∃ t' b, tb_remove (E:=E) t key = Ok (t', b) ∧ tb_inv t' ∧ (b = true ↔ is_Some (tb_get t key)) ∧
    ∀ k, tb_get t' k = if decide (k = key) then None else tb_get t k.
Proof.
  intros Hi. destruct (tb_remove_ok (E:=E) t key Hi) as (t' & b & Hrm & Hi' & _ & Hr). exists t', b. split_and!; try done.
  - destruct (tb_lookup t key) as [i|] eqn:El.
    + destruct Hr as [-> _]. apply tb_lookup_Some in El as (r & He & Hk); [|done].
      split; [intros _; exists r; apply tb_get_Some; [done|by exists i]|done].
    + apply tb_lookup_get in El; [|done]. destruct Hr as [-> _]. rewrite El. split; [done|by intros []].
  - intros k. destruct (tb_lookup t key) as [i|] eqn:El.
    + destruct Hr as (_ & _ & He). apply tb_lookup_Some in El as (r & Hr & <-); [|done].
      destruct (tb_get_removed t t' i r Hi Hi' He Hr) as [H1 H2].
      destruct (decide (k = row_key r)) as [->|Hk]; [done|by apply H2].
    + apply tb_lookup_get in El; [|done]. destruct Hr as [_ ->]. destruct (decide (k = key)) as [->|]; done.
Qed.

Lemma tb_take_map {E} t key :
  tb_inv t →
  ∃ t', tb_take (E:=E) t key = Ok (t', tb_get t key) ∧ tb_inv t' ∧
    ∀ k, tb_get t' k = if decide (k = key) then None else tb_get t k.
Proof.
  intros Hi. destruct (tb_remove_map (E:=E) t key Hi) as (t' & b & Hrm & Hi' & _ & Hr).
  unfold tb_take. unfold tb_remove in Hrm. unfold tb_get at 1. destruct (tb_lookup t key) as [i|] eqn:El.
  - pose proof El as El'. apply tb_lookup_Some in El' as (r & He & _); [|done]. rewrite He, Hrm. by exists t'.
  - injection Hrm as <- _. by exists t.
Qed.

Lemma SlotTable_new_inv (n : nat) : tb_inv (SlotTable_new (R:=R) n) ∧ ∀ k, tb_get (SlotTable_new n) k = None.
Proof.
  assert (∀ id, tb_entry (SlotTable_new (R:=R) n) id = None) as Hn.
  { intros id. unfold tb_entry, SlotTable_new. simpl. destruct (negb _); [done|].
    destruct (replicate n None !! id) eqn:E; [|done]. by apply lookup_replicate in E as [-> _]. }
  assert (tb_inv (SlotTable_new (R:=R) n)) as Hi.
  { unfold tb_inv. split_and!; [by apply Occupancy_new_inv; lia|done|by simpl; rewrite !length_replicate|].
    intros i j ri rj. by rewrite Hn. }
  split; [done|]. intros k. apply tb_lookup_get; [done|]. apply tb_lookup_None; [done|]. intros id row. by rewrite Hn.
Qed.

(** A keyed slot table implements a bounded partial map from keys to rows:
    a new table is the empty map; [insert] adds the row under a new key, keeps
    the old row under a known one and refuses exactly when every slot is used;
    [remove] and [take] delete exactly the key; none of them panics, and keys
    stay unique. *)
Theorem slot_table_refines_map (n : nat) t row key :
  tb_inv t →
  tb_inv (SlotTable_new (R:=R) n) ∧ (∀ k, tb_get (SlotTable_new n) k = None) ∧
  (∃ t' r, tb_insert (E:=SlotError) t row = Ok (t', r) ∧ tb_inv t' ∧
    match tb_get t (row_key row), r with
    | Some _, Some id => t' = t ∧ tb_lookup t (row_key row) = Some id
    | Some _, None => False
    | None, Some id =>
        tb_entry t' id = Some row ∧
        ∀ k, tb_get t' k = if decide (k = row_key row) then Some row else tb_get t k
    | None, None => t' = t ∧ tb_full t
    end) ∧
  (∃ t' b, tb_remove (E:=SlotError) t key = Ok (t', b) ∧ tb_inv t' ∧ (b = true ↔ is_Some (tb_get t key)) ∧
    ∀ k, tb_get t' k = if decide (k = key) then None else tb_get t k) ∧
  (∃ t', tb_take (E:=SlotError) t key = Ok (t', tb_get t key) ∧ tb_inv t' ∧
    ∀ k, tb_get t' k = if decide (k = key) then None else tb_get t k).
Proof.
  intros Hi. destruct (SlotTable_new_inv n) as [H1 H2].
  split_and!; [done|done|by apply tb_insert_map|by apply tb_remove_map|by apply tb_take_map].
Qed.
End slot_table.

(** ** Witness: rows that are their own keys *)
#[local] Instance nat_keyed : Keyed nat nat := fun n => n.

Lemma slot_table_refines_map_witness :
  ∃ t', tb_insert (E:=SlotError) (SlotTable_new (R:=nat) 2) 5%nat = Ok (t', Some 0%nat) ∧
    tb_get t' 5%nat = Some 5%nat.
Proof.
  destruct (slot_table_refines_map (R:=nat) (K:=nat) 2 (SlotTable_new 2) 5%nat 5%nat
    (proj1 (SlotTable_new_inv 2))) as (_ & _ & (t' & r & Hr & _ & Hm) & _).
  destruct r as [id|]; [|vm_compute in Hr; discriminate Hr].
  destruct Hm as [_ Hm]. exists t'. split; [|rewrite Hm; reflexivity].
  rewrite Hr. vm_compute in Hr. injection Hr as _ <-. reflexivity.
Defined.
