(* ===== verification/Dedup.v ===== *)
(** * Duplicate detection and cached replies

    [src/storage/table.rs], [DedupKey], [DedupEntry] and [DedupTable]: a row
    per recently answered message, keyed by Message ID and endpoint, with the
    encoded reply inline or pinned in a TX slot.  [try_store_app] replaces a
    row, takes a free one or evicts the row that expires first. *)
From S2P Require Import Prelude Errors MsgTypes Occupancy Pending SlotTable.

Record DedupKey : Type := mkDedupKey { dk_message_id : MessageId; dk_endpoint : Endpoint }.
#[export] Instance DedupKey_eq_dec : EqDecision DedupKey.
Proof. solve_decision. Defined.

Record DedupEntry : Type := mkDedupEntry {
  de_key : DedupKey;
  de_due_ms : Z;
  de_replay_len : Z;
  de_replay : list Z;
  de_tx_pin : option SlotId
}.

Definition REPLAY_MAX : nat := 256.

Definition DedupEntry_new (message_id : MessageId) (endpoint : Endpoint) : DedupEntry :=
  mkDedupEntry (mkDedupKey message_id endpoint) 0 0 (replicate REPLAY_MAX 0) None.

Definition with_due_ms (e : DedupEntry) (due_ms : Z) : DedupEntry :=
  mkDedupEntry (de_key e) due_ms (de_replay_len e) (de_replay e) (de_tx_pin e).

Definition with_replay {E} (e : DedupEntry) (bytes : list Z) : res E DedupEntry :=
  if (REPLAY_MAX <? length bytes)%nat then Ok e
  else
    replay ← copy_into 0 (length bytes) bytes (de_replay e);
    mret (mkDedupEntry (de_key e) (de_due_ms e) (wrap 16 (Z.of_nat (length bytes))) replay None).

Definition with_tx_pin (e : DedupEntry) (id : SlotId) : DedupEntry :=
  mkDedupEntry (de_key e) (de_due_ms e) 0 (de_replay e) (Some id).

Definition DedupEntry_replay {E} (e : DedupEntry) : res E (option (list Z)) :=
  if de_replay_len e =? 0 then Ok None
  else s ← slice_idx (de_replay e) 0 (Z.to_nat (de_replay_len e)); mret (Some s).

Definition has_usable_replay {E} (e : DedupEntry) : res E bool :=
  r ← DedupEntry_replay e;
  mret (match r with Some _ => true | None => match de_tx_pin e with Some _ => true | None => false end end).

(** ** The table *)
#[export] Instance DedupEntry_keyed : Keyed DedupEntry DedupKey := de_key.
Definition DedupTable : Type := SlotTable DedupEntry.
Definition DedupTable_new (entries : nat) : DedupTable := SlotTable_new entries.
Definition DedupTable_insert {E} (t : DedupTable) (e : DedupEntry) : res E (DedupTable * option SlotId) := tb_insert t e.
Definition DedupTable_lookup (t : DedupTable) (k : DedupKey) : option SlotId := tb_lookup t k.
Definition DedupTable_remove {E} (t : DedupTable) (k : DedupKey) : res E (DedupTable * bool) := tb_remove t k.
Definition DedupTable_entry_ref (t : DedupTable) (id : SlotId) : option DedupEntry := tb_entry t id.

(** The scan of [try_store_app]: the slot of the key, or the oldest timed row. *)
Fixpoint store_scan (t : DedupTable) (key : DedupKey) (ids : list SlotId) (oldest : option (SlotId * Z))
    : option SlotId * option (SlotId * Z) :=
  match ids with
  | [] => (None, oldest)
  | id :: ids =>
      match DedupTable_entry_ref t id with
      | None => store_scan t key ids oldest
      | Some row =>
          if eqb (de_key row) key then (Some id, oldest)
          else
            let oldest :=
              if negb (de_due_ms row =? 0)
                 && match oldest with None => true | Some (_, due) => de_due_ms row <? due end
              then Some (id, de_due_ms row) else oldest in
            store_scan t key ids oldest
      end
  end.

Definition pins_of (e : DedupEntry) : list SlotId := match de_tx_pin e with Some pin => [pin] | None => [] end.

(** [try_store_app]; the second component lists the TX slots handed to
    [release_tx], in order. *)
Definition try_store_app {E} (t : DedupTable) (entry : DedupEntry) : res E (DedupTable * list SlotId * bool) :=
  let '(existing, oldest) := store_scan t (de_key entry) (seq 0 (length (tb_entries t))) None in
  match existing with
  | Some id =>
      match DedupTable_entry_ref t id with
      | None => Panic
      | Some old =>
          '(t, _) ← DedupTable_remove t (de_key old);
          '(t, r) ← DedupTable_insert t entry;
          mret (t, pins_of old, match r with Some _ => true | None => false end)
      end
  | None =>
      '(occ, r) ← Occupancy_acquire (tb_occ t);
      match r with
      | Some id => t ← tb_put (tb_with_occ t occ) id entry; mret (t, [], true)
      | None =>
          let t := tb_with_occ t occ in
          match oldest with
          | None => mret (t, [], false)
          | Some (victim, _) =>
              match DedupTable_entry_ref t victim with
              | None => Panic
              | Some old =>
                  '(t, _) ← DedupTable_remove t (de_key old);
                  '(occ, r) ← Occupancy_acquire (tb_occ t);
                  let t := tb_with_occ t occ in
                  match r with
                  | None => mret (t, pins_of old, false)
                  | Some id => t ← tb_put t id entry; mret (t, pins_of old, true)
                  end
              end
          end
      end
  end.

(** ** The scan *)

(** The deadline of the row at [id], when it has one. *)
Definition timed (t : DedupTable) (id : SlotId) : option Z :=
  match tb_entry t id with
  | Some row => if de_due_ms row =? 0 then None else Some (de_due_ms row)
  | None => None
  end.

(** [o] is the first slot below [n] with the earliest deadline. *)
Definition oldest_below (t : DedupTable) (n : nat) (o : option (SlotId * Z)) : Prop :=
  match o with
  | None => ∀ j, (j < n)%nat → timed t j = None
  | Some (id, due) =>
      (id < n)%nat ∧ timed t id = Some due ∧
      ∀ j d, (j < n)%nat → timed t j = Some d → due < d ∨ due = d ∧ (id ≤ j)%nat
  end.

Lemma oldest_step (t : DedupTable) (k : nat) o row :
  oldest_below t k o → tb_entry t k = Some row →
  oldest_below t (S k)
    (if negb (de_due_ms row =? 0) && match o with None => true | Some (_, due) => de_due_ms row <? due end
     then Some (k, de_due_ms row) else o).
Proof.
  intros Ho Hrow.
  assert (timed t k = if de_due_ms row =? 0 then None else Some (de_due_ms row)) as Hk
    by (unfold timed; by rewrite Hrow).
  destruct (de_due_ms row =? 0) eqn:E0; cbn [negb andb].
  { destruct o as [[id due]|].
    - destruct Ho as (Hid & Ht & Hmin). split_and!; [lia|done|]. intros j d Hj Hd.
      destruct (decide (j = k)) as [->|]; [congruence|]. apply Hmin; [lia|done].
    - intros j Hj. destruct (decide (j = k)) as [->|]; [done|]. apply Ho. lia. }
  destruct o as [[id due]|].
  - destruct Ho as (Hid & Ht & Hmin). destruct (de_due_ms row <? due) eqn:E1; bools.
    + split_and!; [lia|done|]. intros j d Hj Hd. destruct (decide (j = k)) as [->|].
      * rewrite Hk in Hd. simplify_eq. right. lia.
      * destruct (Hmin j d) as [?|[? ?]]; [lia|done|left; lia|left; lia].
    + split_and!; [lia|done|]. intros j d Hj Hd. destruct (decide (j = k)) as [->|]; [|apply Hmin; [lia|done]].
      rewrite Hk in Hd. simplify_eq. destruct (decide (due < de_due_ms row)); [by left|right; lia].
  - split_and!; [lia|done|]. intros j d Hj Hd. destruct (decide (j = k)) as [->|].
    + rewrite Hk in Hd. simplify_eq. right. lia.
    + rewrite Ho in Hd by lia. done.
Qed.

Lemma oldest_skip (t : DedupTable) (k : nat) o :
  oldest_below t k o → tb_entry t k = None → oldest_below t (S k) o.
Proof.
  intros Ho Hk. assert (timed t k = None) as Ht by (unfold timed; by rewrite Hk). destruct o as [[id due]|].
  - destruct Ho as (Hid & Hd & Hmin). split_and!; [lia|done|]. intros j d Hj Hjd.
    destruct (decide (j = k)) as [->|]; [congruence|]. apply Hmin; [lia|done].
  - intros j Hj. destruct (decide (j = k)) as [->|]; [done|]. apply Ho. lia.
Qed.

Lemma store_scan_spec (t : DedupTable) key n k o :
  oldest_below t k o →
  match store_scan t key (seq k n) o with
  | (Some id, _) => ∃ row, tb_entry t id = Some row ∧ de_key row = key
  | (None, o') =>
      oldest_below t (k + n) o' ∧
      ∀ id row, (k ≤ id < k + n)%nat → tb_entry t id = Some row → de_key row ≠ key
  end.
Proof.
  revert k o. induction n as [|n IH]; intros k o Ho; cbn [seq store_scan].
  { split; [by rewrite Nat.add_0_r|]. intros; lia. }
  unfold DedupTable_entry_ref. destruct (tb_entry t k) as [row|] eqn:Hk.
  - destruct (eqb (de_key row) key) eqn:Ek; bools; [by exists row|].
    specialize (IH (S k) _ (oldest_step t k o row Ho Hk)).
    destruct (store_scan t key (seq (S k) n) _) as [[id|] o']; [done|].
    replace (S k + n)%nat with (k + S n)%nat in IH by lia. destruct IH as [H1 H2]. split; [done|].
    intros id r Hid Hr. destruct (decide (id = k)) as [->|]; [congruence|]. eapply H2; [|done]. lia.
  - specialize (IH (S k) _ (oldest_skip t k o Ho Hk)).
    destruct (store_scan t key (seq (S k) n) _) as [[id|] o']; [done|].
    replace (S k + n)%nat with (k + S n)%nat in IH by lia. destruct IH as [H1 H2]. split; [done|].
    intros id r Hid Hr. destruct (decide (id = k)) as [->|]; [congruence|]. eapply H2; [|done]. lia.
Qed.

(** Storing in an acquired slot is inserting under an unknown key. *)
Lemma put_acquired {E} (t : DedupTable) (e : DedupEntry) :
  tb_inv t → tb_lookup t (de_key e) = None →
  ('(occ, r) ← Occupancy_acquire (E:=E) (tb_occ t);
   match r with
   | Some id => t ← tb_put (tb_with_occ t occ) id e; mret (t, Some id)
   | None => mret (tb_with_occ t occ, None)
   end) = tb_insert t e.
Proof.
  intros Hi Hl. unfold tb_insert. change (row_key e) with (de_key e). rewrite Hl. unbind.
  destruct (Occupancy_acquire (tb_occ t)) as [[occ [id|]]| | |]; done.
Qed.

(** Removing a row makes room for another key. *)
Lemma remove_then_insert {E} (t : DedupTable) (old e : DedupEntry) id :
  tb_inv t → tb_entry t id = Some old → de_key old = de_key e ∨ tb_get t (de_key e) = None →
  ∃ t1 t2 i, tb_remove (E:=E) t (de_key old) = Ok (t1, true) ∧ tb_inv t1 ∧
    tb_lookup t1 (de_key e) = None ∧ tb_insert (E:=E) t1 e = Ok (t2, Some i) ∧ tb_inv t2 ∧
    ∀ k, tb_get t2 k = if decide (k = de_key e) then Some e
                       else if decide (k = de_key old) then None else tb_get t k.
Proof.
  intros Hi He Hk. assert (tb_lookup t (de_key old) = Some id) as Hl by (apply tb_lookup_Some; [done|by exists old]).
  destruct (tb_remove_ok (E:=E) t (de_key old) Hi) as (t1 & b & Hr & Hi1 & Hlen & Hspec).
  rewrite Hl in Hspec. destruct Hspec as (-> & Hfree & Hrows).
  destruct (tb_get_removed t t1 id old Hi Hi1 Hrows He) as [Hg Hg'].
  assert (tb_get t1 (de_key e) = None) as Hnone.
  { destruct (decide (de_key e = de_key old)) as [->|Hne]; [done|]. rewrite Hg' by done. by destruct Hk. }
  destruct (tb_insert_map (E:=E) t1 e Hi1) as (t2 & r & Hins & Hi2 & Hm).
  change (row_key e) with (de_key e) in Hm. rewrite Hnone in Hm.
  destruct r as [i|]; [|exfalso; destruct Hm as [_ Hf]; pose proof (tb_entry_lt _ _ _ He);
    by rewrite Hf in Hfree by lia].
  destruct Hm as [_ Hm]. exists t1, t2, i. split_and!; try done; [by apply tb_lookup_get|].
  intros k. rewrite Hm. destruct (decide (k = de_key e)); [done|].
  destruct (decide (k = de_key old)) as [->|Hne]; [done|by apply Hg'].
Qed.

(** The victim of an eviction: the first row with the earliest deadline. *)
Definition evictable (t : DedupTable) (old : DedupEntry) : Prop :=
  ∃ id, tb_entry t id = Some old ∧ de_due_ms old ≠ 0 ∧
    ∀ j row, tb_entry t j = Some row → de_due_ms row ≠ 0 →
      de_due_ms old < de_due_ms row ∨ de_due_ms old = de_due_ms row ∧ (id ≤ j)%nat.

Lemma timed_Some (t : DedupTable) id d :
  timed t id = Some d ↔ ∃ row, tb_entry t id = Some row ∧ de_due_ms row = d ∧ d ≠ 0.
Proof.
  unfold timed. destruct (tb_entry t id) as [row|]; [|split; [done|by intros (? & ? & _)]].
  destruct (de_due_ms row =? 0) eqn:E; bools.
  - split; [done|]. intros (r & [= <-] & <- & ?). done.
  - split; [intros [= <-]; by exists row|]. by intros (r & [= <-] & <- & _).
Qed.

Lemma oldest_evictable (t : DedupTable) id due :
  oldest_below t (length (tb_entries t)) (Some (id, due)) → ∃ old, tb_entry t id = Some old ∧ evictable t old.
Proof.
  intros (Hid & Ht & Hmin). apply timed_Some in Ht as (old & He & <- & Hd). exists old. split; [done|].
  exists id. split_and!; [done..|]. intros j row Hj Hr. apply Hmin; [by eapply tb_entry_lt|].
  apply timed_Some. by exists row.
Qed.

(** Every outcome of [try_store_app]. *)
Lemma try_store_cases {E} (t : DedupTable) (e : DedupEntry) :
  tb_inv t →
  ∃ t' rel b, try_store_app (E:=E) t e = Ok (t', rel, b) ∧ tb_inv t' ∧
    match tb_get t (de_key e) with
    | Some old =>
        b = true ∧ rel = pins_of old ∧
        ∀ k, tb_get t' k = if decide (k = de_key e) then Some e else tb_get t k
    | None =>
        (¬ tb_full t ∧ b = true ∧ rel = [] ∧
          ∀ k, tb_get t' k = if decide (k = de_key e) then Some e else tb_get t k) ∨
        (tb_full t ∧ b = false ∧ rel = [] ∧ t' = t ∧
          ∀ j row, tb_entry t j = Some row → de_due_ms row = 0) ∨
        (tb_full t ∧ b = true ∧ ∃ old, evictable t old ∧ rel = pins_of old ∧
          ∀ k, tb_get t' k = if decide (k = de_key e) then Some e
                             else if decide (k = de_key old) then None else tb_get t k)
    end.
Proof.
  intros Hi. unfold try_store_app, DedupTable_remove, DedupTable_insert, DedupTable_entry_ref.
  pose proof (store_scan_spec t (de_key e) (length (tb_entries t)) 0 None) as Hs.
  destruct (store_scan _ _ _ _) as [[id|] o]; (specialize (Hs ltac:(intros j Hj; lia))).
  - destruct Hs as (old & He & Hk). rewrite He.
    destruct (remove_then_insert (E:=E) t old e id Hi He ltac:(by left))
      as (t1 & t2 & i & -> & _ & _ & Hins & Hi2 & Hm).
    unbind. rewrite Hins. exists t2, (pins_of old), true. split_and!; [done..|].
    assert (tb_get t (de_key e) = Some old) as -> by (apply tb_get_Some; [done|by exists id]).
    split_and!; try done. intros k. rewrite Hm, Hk. by destruct (decide (k = de_key e)).
  - destruct Hs as [Ho Hno]. rewrite Nat.add_0_l in *.
    assert (tb_lookup t (de_key e) = None) as Hl.
    { apply tb_lookup_None; [done|]. intros i row Hr. eapply Hno; [|done]. pose proof (tb_entry_lt _ _ _ Hr). lia. }
    rewrite (proj1 (tb_lookup_get t _ Hi) Hl).
    destruct (tb_insert_map (E:=E) t e Hi) as (t' & r & Hins & Hi' & Hm).
    change (row_key e) with (de_key e) in Hm. rewrite (proj1 (tb_lookup_get t _ Hi) Hl) in Hm.
    rewrite <- put_acquired in Hins by done. unbind.
    destruct (tb_acquire_occ (E:=E) t Hi) as (occ & ra & Ha & Hra). rewrite Ha in *.
    destruct ra as [id|].
    + destruct (tb_put (tb_with_occ t occ) id e) as [t2| | |]; simplify_eq.
      exists t', [], true. split_and!; try done. left. destruct Hra as (_ & _ & Hf & Hid & _).
      split_and!; [intros Hfull; by rewrite Hfull in Hf|done|done|apply Hm].
    + destruct Hra as [-> Hfull]. assert (tb_with_occ t (tb_occ t) = t) as Ht by (by destruct t). rewrite Ht in *.
      destruct o as [[v due]|].
      * destruct (oldest_evictable t v due Ho) as (old & He & Hev). rewrite He.
        destruct (remove_then_insert (E:=E) t old e v Hi He
          ltac:(right; by apply tb_lookup_get)) as (t1 & t2 & i & -> & Hi1 & Hl1 & Hins2 & Hi2 & Hm2).
        rewrite <- put_acquired in Hins2 by done. unbind.
        destruct (tb_acquire_occ (E:=E) t1 Hi1) as (occ1 & r1 & Ha1 & _). rewrite Ha1 in *.
        destruct r1 as [i1|]; [|done].
        destruct (tb_put (tb_with_occ t1 occ1) i1 e) as [t3| | |]; simplify_eq.
        exists t2, (pins_of old), true. split_and!; try done. right. right. split_and!; try done. by exists old.
      * exists t, [], false. split_and!; try done. right. left. split_and!; try done.
        intros j row Hj. pose proof (Ho j (tb_entry_lt _ _ _ Hj)) as Hn. unfold timed in Hn. rewrite Hj in Hn.
        destruct (de_due_ms row =? 0) eqn:E0; [by bools|done].
Qed.

(** Storing a reply: a known key has its row replaced; an unknown one takes
    a free slot, or on a full table the slot of the first row with the
    earliest deadline; without any timed row the store is refused and nothing
    changes.  The TX slot pinned by the replaced or evicted row, and no other,
    is handed back, every other key keeps its row, and nothing panics. *)
Theorem try_store_outcome (t : DedupTable) (e : DedupEntry) :
  tb_inv t →
  ∃ t' rel b, try_store_app (E:=SlotError) t e = Ok (t', rel, b) ∧ tb_inv t' ∧
    match tb_get t (de_key e) with
    | Some old =>
        b = true ∧ rel = pins_of old ∧
        ∀ k, tb_get t' k = if decide (k = de_key e) then Some e else tb_get t k
    | None =>
        (¬ tb_full t ∧ b = true ∧ rel = [] ∧
          ∀ k, tb_get t' k = if decide (k = de_key e) then Some e else tb_get t k) ∨
        (tb_full t ∧ b = false ∧ rel = [] ∧ t' = t ∧
          ∀ j row, tb_entry t j = Some row → de_due_ms row = 0) ∨
        (tb_full t ∧ b = true ∧ ∃ old, evictable t old ∧ rel = pins_of old ∧
          ∀ k, tb_get t' k = if decide (k = de_key e) then Some e
                             else if decide (k = de_key old) then None else tb_get t k)
    end.
Proof. apply try_store_cases. Qed.

(** ** Witness *)
Definition ex_ep (n : Z) : Endpoint := mkEndpoint (replicate 16 n) 0 0 5683 true.
Definition ex_entry (n due : Z) (pin : nat) : DedupEntry :=
  with_tx_pin (with_due_ms (DedupEntry_new n (ex_ep n)) due) pin.

Lemma try_store_outcome_witness :
  ∃ t' rel b, try_store_app (E:=SlotError) (DedupTable_new 1) (ex_entry 1 10 0) = Ok (t', rel, b) ∧
    tb_get t' (de_key (ex_entry 1 10 0)) = Some (ex_entry 1 10 0).
Proof.
  destruct (SlotTable_new_inv (R:=DedupEntry) 1) as [Hi Hg].
  destruct (try_store_outcome (DedupTable_new 1) (ex_entry 1 10 0) Hi) as (t' & rel & b & Hs & _ & Hm).
  exists t', rel, b. split; [exact Hs|].
  assert (tb_get (DedupTable_new 1) (de_key (ex_entry 1 10 0)) = None) as Hn by apply Hg. rewrite Hn in Hm.
  destruct Hm as [(_ & _ & _ & Hm)|[(Hf & _)|(Hf & _)]].
  - rewrite Hm. by rewrite decide_True.
  - specialize (Hf 0%nat ltac:(simpl; lia)). discriminate Hf.
  - specialize (Hf 0%nat ltac:(simpl; lia)). discriminate Hf.
Defined.
