(* ===== verification/Observe.v ===== *)
(** * Observe relations

    [src/storage/table.rs], [ObserveKey], [ObserveResource], [ObserveLifetime],
    [ObserveNotifyHold], [ObserveInterest] and [ObserveTable]: who observes
    which resource, the 24-bit notification sequence, the congestion hold of
    the last notification, the confirmable deadline and the bounded chain of
    superseded Message IDs.  Generic in the token type [T] and in the type [Q]
    of the OSCORE request binding. *)
From S2P Require Import Prelude Errors MsgTypes OptionValues Occupancy Pending SlotTable.

(** [ObserveTransmission]. *)
Definition CONFIRM_INTERVAL_MS : Z := 24 * 60 * 60 * 1000.
Definition OBSERVE_NON_TIMEOUT_MS : Z := 3000.

(** ** Resource identity: FNV-1a over length-prefixed segments *)
Definition ObserveResource : Type := Z.
Definition RESOURCE_NONE : ObserveResource := 0.
Definition app_route (index : Z) : ObserveResource := index + 1.
Definition FNV_OFFSET : Z := 14695981039346656037.
Definition FNV_PRIME : Z := 1099511628211.
Definition fnv_byte (hash byte : Z) : Z := wrapping_mul 64 (Z.lxor hash byte) FNV_PRIME.

Definition from_path (segments : list (list Z)) : ObserveResource :=
  foldl (fun hash segment =>
    foldl fnv_byte (foldl fnv_byte hash (be_bytes 8 (Z.of_nat (length segment)))) segment)
    FNV_OFFSET segments.

Definition resource_matches (r : ObserveResource) (segments : list (list Z)) : bool :=
  negb (r =? RESOURCE_NONE) && (r =? from_path segments).

(** ** Lifetimes and holds *)
Inductive ObserveLifetime : Type :=
  | MaxAge (due_ms : Z)
  | Unacked (due_ms : Z) (message_id : MessageId).

Definition max_age_due_ms (now_ms max_age_secs : Z) : Z :=
  saturating_add 64 now_ms (saturating_mul 64 max_age_secs 1000).
Definition ObserveLifetime_max_age (now_ms max_age_secs : Z) : ObserveLifetime :=
  MaxAge (max_age_due_ms now_ms max_age_secs).
Definition ObserveLifetime_unacked (now_ms max_age_secs : Z) (mid : MessageId) : ObserveLifetime :=
  Unacked (max_age_due_ms now_ms max_age_secs) mid.
Definition ObserveLifetime_due_ms (l : ObserveLifetime) : Z :=
  match l with MaxAge due_ms => due_ms | Unacked due_ms _ => due_ms end.
Definition ObserveLifetime_con_mid (l : ObserveLifetime) : option MessageId :=
  match l with MaxAge _ => None | Unacked _ mid => Some mid end.
Definition ObserveLifetime_is_due (l : ObserveLifetime) (now_ms : Z) : bool :=
  ObserveLifetime_due_ms l <=? now_ms.

Inductive ObserveNotifyHold : Type :=
  | HoldNon (until_ms : Z) (message_id : MessageId)
  | HoldCon (message_id : MessageId).

Definition hold_non (now_ms : Z) (mid : MessageId) : ObserveNotifyHold :=
  HoldNon (saturating_add 64 now_ms OBSERVE_NON_TIMEOUT_MS) mid.
Definition hold_is_held (h : ObserveNotifyHold) (now_ms : Z) : bool :=
  match h with HoldNon until_ms _ => now_ms <? until_ms | HoldCon _ => true end.
Definition hold_con_mid (h : ObserveNotifyHold) : option MessageId :=
  match h with HoldNon _ _ => None | HoldCon mid => Some mid end.
Definition hold_message_id (h : ObserveNotifyHold) : MessageId :=
  match h with HoldNon _ mid => mid | HoldCon mid => mid end.

(** ** Interests *)
Record ObserveKey (T : Type) : Type := mkObserveKey {
  ok_token : T;
  ok_endpoint : Endpoint;
  ok_client : bool
}.
Arguments mkObserveKey {T} _ _ _.
Arguments ok_token {T} _.
Arguments ok_endpoint {T} _.
Arguments ok_client {T} _.
#[export] Instance ObserveKey_eq_dec {T} `{EqDecision T} : EqDecision (ObserveKey T).
Proof. solve_decision. Defined.

Definition ObserveKey_new {T} (token : T) (endpoint : Endpoint) : ObserveKey T :=
  mkObserveKey token endpoint false.
Definition ObserveKey_new_client {T} (token : T) (endpoint : Endpoint) : ObserveKey T :=
  mkObserveKey token endpoint true.

Record ObserveSelection : Type := mkSelection { sel_bytes : list Z; sel_len : Z }.

Record ObserveInterest (T Q : Type) : Type := mkInterest {
  oi_selection : option ObserveSelection;
  oi_key : ObserveKey T;
  oi_resource : ObserveResource;
  oi_content_format : option Z;
  oi_response_policy : Z;
  oi_seq : Z;
  oi_pending : bool;
  oi_deleted : bool;
  oi_lifetime : option ObserveLifetime;
  oi_confirm_due_ms : option Z;
  oi_notify_hold : option ObserveNotifyHold;
  oi_superseded : list MessageId;
  oi_superseded_len : Z;
  oi_oscore : option Q
}.
Arguments mkInterest {T Q} _ _ _ _ _ _ _ _ _ _ _ _ _ _.
Arguments oi_selection {T Q} _.
Arguments oi_key {T Q} _.
Arguments oi_resource {T Q} _.
Arguments oi_content_format {T Q} _.
Arguments oi_response_policy {T Q} _.
Arguments oi_seq {T Q} _.
Arguments oi_pending {T Q} _.
Arguments oi_deleted {T Q} _.
Arguments oi_lifetime {T Q} _.
Arguments oi_confirm_due_ms {T Q} _.
Arguments oi_notify_hold {T Q} _.
Arguments oi_superseded {T Q} _.
Arguments oi_superseded_len {T Q} _.
Arguments oi_oscore {T Q} _.

Section interest.
Context {T Q : Type}.
Abbreviation Interest := (ObserveInterest T Q).
Implicit Types i : Interest.

(** What a request retains: key, selection, resource, formats and binding. *)
Definition with_identity i (selection : option ObserveSelection) (key : ObserveKey T)
    (resource : ObserveResource) (format : option Z) (policy : Z) (oscore : option Q) : Interest :=
  mkInterest selection key resource format policy (oi_seq i) (oi_pending i) (oi_deleted i)
    (oi_lifetime i) (oi_confirm_due_ms i) (oi_notify_hold i) (oi_superseded i) (oi_superseded_len i) oscore.

(** What notifying changes. *)
Definition with_delivery i (seq : Z) (pending deleted : bool) (lifetime : option ObserveLifetime)
    (confirm : option Z) (hold : option ObserveNotifyHold) (superseded : list MessageId)
    (superseded_len : Z) : Interest :=
  mkInterest (oi_selection i) (oi_key i) (oi_resource i) (oi_content_format i) (oi_response_policy i)
    seq pending deleted lifetime confirm hold superseded superseded_len (oi_oscore i).

Definition ObserveInterest_new (token : T) (endpoint : Endpoint) : Interest :=
  mkInterest None (ObserveKey_new token endpoint) RESOURCE_NONE None 0 0 false false None None None
    (replicate (Z.to_nat MAX_RETRANSMIT) 0) 0 None.

Definition ObserveInterest_new_client (token : T) (endpoint : Endpoint) : Interest :=
  with_identity (ObserveInterest_new token endpoint) None (ObserveKey_new_client token endpoint)
    RESOURCE_NONE None 0 None.

Definition with_selection i (s : option ObserveSelection) : Interest :=
  with_identity i s (oi_key i) (oi_resource i) (oi_content_format i) (oi_response_policy i) (oi_oscore i).
Definition with_resource i (r : ObserveResource) : Interest :=
  with_identity i (oi_selection i) (oi_key i) r (oi_content_format i) (oi_response_policy i) (oi_oscore i).
Definition with_oscore i (q : option Q) : Interest :=
  with_identity i (oi_selection i) (oi_key i) (oi_resource i) (oi_content_format i) (oi_response_policy i) q.
Definition with_format_policy i (format : option Z) (policy : Z) : Interest :=
  with_identity i (oi_selection i) (oi_key i) (oi_resource i) format policy (oi_oscore i).

(** [!m] on [u8]. *)
Definition not8 (m : Z) : Z := 255 - m.

Definition with_content_format i (format : option Z) : Interest :=
  with_format_policy i format (Z.land (oi_response_policy i) (not8 32)).
Definition format_unbound i : bool := negb (Z.land (oi_response_policy i) 32 =? 0).
Definition with_unbound_format i : Interest :=
  with_format_policy i None (Z.lor (oi_response_policy i) 32).
Definition content_format_matches i (code : Code) (format : option Z) : bool :=
  format_unbound i || ((code =? Code_VALID) && eqb format None) || eqb (oi_content_format i) format.
Definition block2_max_szx i : option Z :=
  if negb (Z.land (oi_response_policy i) 128 =? 0) then Some (Z.land (oi_response_policy i) 7) else None.
Definition with_block2_max_szx i (szx : option Z) : Interest :=
  with_format_policy i (oi_content_format i)
    (Z.lor (Z.land (oi_response_policy i) (Z.lor 24 32))
           (match szx with Some value => Z.lor 128 (Z.land value 7) | None => 0 end)).
Definition with_q_block2 i (enabled : bool) : Interest :=
  with_format_policy i (oi_content_format i)
    (Z.lor (Z.land (oi_response_policy i) (not8 64)) (if enabled then 64 else 0)).
Definition q_block2 i : bool := negb (Z.land (oi_response_policy i) 64 =? 0).
Definition with_no_response i (mask : NoResponse) : Interest :=
  with_format_policy i (oi_content_format i)
    (Z.lor (Z.land (oi_response_policy i) (not8 24)) (Z.land mask 24)).
Definition interest_suppresses i (code : Code) : bool :=
  NoResponse_suppresses (Z.land (oi_response_policy i) 24) code.

Definition mark_deleted i : Interest :=
  if negb (ok_client (oi_key i)) then
    with_delivery i (oi_seq i) true true (oi_lifetime i) (oi_confirm_due_ms i) (oi_notify_hold i)
      (oi_superseded i) (oi_superseded_len i)
  else i.

Definition with_seq i (seq : Z) : Interest :=
  with_delivery i (Z.land seq OBSERVE_SEQUENCE_MASK) (oi_pending i) (oi_deleted i) (oi_lifetime i)
    (oi_confirm_due_ms i) (oi_notify_hold i) (oi_superseded i) (oi_superseded_len i).
Definition with_lifetime i (l : option ObserveLifetime) : Interest :=
  with_delivery i (oi_seq i) (oi_pending i) (oi_deleted i) l (oi_confirm_due_ms i) (oi_notify_hold i)
    (oi_superseded i) (oi_superseded_len i).
Definition is_lifetime_due i (now_ms : Z) : bool :=
  match oi_lifetime i with Some l => ObserveLifetime_is_due l now_ms | None => false end.
Definition must_confirm i (now_ms : Z) : bool :=
  match oi_confirm_due_ms i with Some due => due <=? now_ms | None => false end.
Definition require_confirmation i : Interest :=
  with_delivery i (oi_seq i) (oi_pending i) (oi_deleted i) (oi_lifetime i) (Some 0) (oi_notify_hold i)
    (oi_superseded i) (oi_superseded_len i).
Definition is_notify_held i (now_ms : Z) : bool :=
  match oi_lifetime i with
  | Some (Unacked _ _) => true
  | _ => match oi_notify_hold i with Some h => hold_is_held h now_ms | None => false end
  end.

Definition record_notify i (now_ms : Z) (mid : MessageId) (confirmable : bool) : Interest :=
  if ok_client (oi_key i) then i
  else if confirmable then
    with_delivery i (oi_seq i) (oi_pending i) (oi_deleted i) None
      (Some (saturating_add 64 now_ms CONFIRM_INTERVAL_MS)) (Some (HoldCon mid)) (oi_superseded i) 0
  else
    with_delivery i (oi_seq i) (oi_pending i) (oi_deleted i) (oi_lifetime i)
      (match oi_confirm_due_ms i with
       | None => Some (saturating_add 64 now_ms CONFIRM_INTERVAL_MS)
       | Some due => Some due
       end)
      (Some (hold_non now_ms mid)) (oi_superseded i) 0.

Definition clear_notify_hold i : Interest :=
  with_delivery i (oi_seq i) (oi_pending i) (oi_deleted i) (oi_lifetime i) (oi_confirm_due_ms i) None
    (oi_superseded i) 0.

Definition mark_due i : Interest :=
  if negb (ok_client (oi_key i)) then
    with_delivery i (oi_seq i) true (oi_deleted i) (oi_lifetime i) (oi_confirm_due_ms i) (oi_notify_hold i)
      (oi_superseded i) (oi_superseded_len i)
  else i.

Definition take_due i : Interest * option Z :=
  if negb (oi_pending i) then (i, None)
  else
    let seq := Z.land (wrapping_add 32 (oi_seq i) 1) OBSERVE_SEQUENCE_MASK in
    (with_delivery i seq false (oi_deleted i) (oi_lifetime i) (oi_confirm_due_ms i) (oi_notify_hold i)
       (oi_superseded i) (oi_superseded_len i), Some seq).

Definition restore_due i (assigned_seq : Z) : Interest :=
  if oi_pending i || negb (oi_seq i =? assigned_seq) then i
  else
    with_delivery i (Z.land (wrapping_sub 32 assigned_seq 1) OBSERVE_SEQUENCE_MASK) true (oi_deleted i)
      (oi_lifetime i) (oi_confirm_due_ms i) (oi_notify_hold i) (oi_superseded i) (oi_superseded_len i).

Definition superseded_con_mids {E} i : res E (list MessageId) :=
  slice_idx (oi_superseded i) 0 (Z.to_nat (oi_superseded_len i)).

Definition supersede_con {E} i (now_ms : Z) (mid : MessageId) : res E (option Interest) :=
  match oi_notify_hold i ≫= hold_con_mid with
  | None => Ok None
  | Some old =>
      if negb (oi_pending i) || ok_client (oi_key i)
         || (Z.to_nat (oi_superseded_len i) =? length (oi_superseded i))%nat || eqb mid old
      then Ok None
      else
        mids ← superseded_con_mids i;
        if existsb (eqb mid) mids then mret None
        else
          match take_due i with
          | (_, None) => mret None
          | (i, Some _) =>
              superseded ← set_idx (Z.to_nat (oi_superseded_len i)) old (oi_superseded i);
              mret (Some (with_delivery i (oi_seq i) (oi_pending i) (oi_deleted i) None
                (Some (saturating_add 64 now_ms CONFIRM_INTERVAL_MS)) (Some (HoldCon mid))
                superseded (oi_superseded_len i + 1)))
          end
  end.

Definition take_expired i (now_ms : Z) : Interest * option ObserveLifetime :=
  match oi_lifetime i with
  | None => (i, None)
  | Some life =>
      if negb (ObserveLifetime_is_due life now_ms) then (i, None)
      else
        match life with
        | Unacked _ _ =>
            (with_delivery i (oi_seq i) false (oi_deleted i) None (oi_confirm_due_ms i) None
               (oi_superseded i) 0, Some life)
        | MaxAge _ =>
            (with_delivery i (oi_seq i) (oi_pending i) (oi_deleted i) None (oi_confirm_due_ms i)
               (oi_notify_hold i) (oi_superseded i) (oi_superseded_len i), Some life)
        end
  end.
End interest.

(** ** The table *)
#[export] Instance ObserveInterest_keyed {T Q} : Keyed (ObserveInterest T Q) (ObserveKey T) := oi_key.
Definition ObserveTable (T Q : Type) : Type := SlotTable (ObserveInterest T Q).

Section observe_table.
Context {T Q : Type} `{EqDecision T}.
Implicit Types t : ObserveTable T Q.
Definition ObserveTable_insert {E} t (i : ObserveInterest T Q) : res E (ObserveTable T Q * option SlotId) :=
  tb_insert t i.
Definition ObserveTable_lookup t (k : ObserveKey T) : option SlotId := tb_lookup t k.
Definition ObserveTable_remove {E} t (k : ObserveKey T) : res E (ObserveTable T Q * bool) := tb_remove t k.
Definition ObserveTable_take {E} t (k : ObserveKey T)
    : res E (ObserveTable T Q * option (ObserveInterest T Q)) := tb_take t k.
Definition ObserveTable_entry t (id : SlotId) : option (ObserveInterest T Q) := tb_entry t id.
Definition ObserveTable_set_entry t (id : SlotId) (i : ObserveInterest T Q)
    : res SlotError (ObserveTable T Q) := tb_set_entry t id i.
End observe_table.

(** ** The notification sequence *)
Section sequence.
Context {T Q : Type}.
Implicit Types i : ObserveInterest T Q.

(** RFC 7641 section 3.4: [s2] is more recent than [s1]. *)
Definition fresher (s1 s2 : Z) : Prop := (s1 < s2 ∧ s2 - s1 < 2 ^ 23) ∨ (s1 > s2 ∧ s1 - s2 > 2 ^ 23).

(** [n] rounds of signalling a change and taking the notification. *)
Fixpoint notify_run (n : nat) i : ObserveInterest T Q * list (option Z) :=
  match n with
  | O => (i, [])
  | S n =>
      let '(i, s) := take_due (mark_due i) in
      let '(i, ss) := notify_run n i in
      (i, s :: ss)
  end.

Lemma next_seq_mod (s : Z) :
  0 ≤ s < 2 ^ 24 → Z.land (wrapping_add 32 s 1) OBSERVE_SEQUENCE_MASK = (s + 1) mod 2 ^ 24.
Proof.
  intros Hs. unfold wrapping_add. rewrite wrap_small by (unfold in_u; lia). by rewrite observe_mask by lia.
Qed.

Lemma prev_seq_mod (s : Z) :
  0 ≤ s < 2 ^ 24 → Z.land (wrapping_sub 32 s 1) OBSERVE_SEQUENCE_MASK = (s - 1) mod 2 ^ 24.
Proof.
  intros Hs. unfold wrapping_sub, wrap. rewrite observe_mask by (apply Z.mod_pos_bound; lia).
  change (2 ^ 32) with (2 ^ 8 * 2 ^ 24). rewrite Z.mul_comm, Z.rem_mul_r by lia.
  rewrite (Z.mul_comm (2 ^ 24)), Z.add_mod, Z.mod_mul, Z.add_0_r, Z.mod_mod, Z.mod_mod by lia. done.
Qed.

Lemma take_due_pending i :
  0 ≤ oi_seq i < 2 ^ 24 → oi_pending i = true →
  ∃ i', take_due i = (i', Some ((oi_seq i + 1) mod 2 ^ 24)) ∧ oi_pending i' = false ∧
    oi_seq i' = (oi_seq i + 1) mod 2 ^ 24 ∧ oi_key i' = oi_key i ∧ restore_due i' (oi_seq i') = i.
Proof.
  intros Hs Hp. unfold take_due. rewrite Hp. cbn [negb]. rewrite next_seq_mod by done.
  eexists. split_and!; [done..|]. unfold restore_due. cbn [oi_pending oi_seq with_delivery orb].
  rewrite Z.eqb_refl. cbn [negb]. rewrite prev_seq_mod by (apply Z.mod_pos_bound; lia).
  assert (((oi_seq i + 1) mod 2 ^ 24 - 1) mod 2 ^ 24 = oi_seq i) as ->.
  { rewrite Zminus_mod_idemp_l. replace (oi_seq i + 1 - 1) with (oi_seq i) by lia. by apply Z.mod_small. }
  rewrite <- Hp. by destruct i.
Qed.

Lemma mark_due_pending i :
  ok_client (oi_key i) = false →
  oi_pending (mark_due i) = true ∧ oi_seq (mark_due i) = oi_seq i ∧ oi_key (mark_due i) = oi_key i.
Proof. intros Hc. unfold mark_due. by rewrite Hc. Qed.

Lemma notify_run_seqs n i :
  ok_client (oi_key i) = false → 0 ≤ oi_seq i < 2 ^ 24 →
  snd (notify_run n i) = map (fun k => Some ((oi_seq i + 1 + Z.of_nat k) mod 2 ^ 24)) (seq 0 n).
Proof.
  revert i. induction n as [|n IH]; intros i Hc Hs; [done|]. cbn [notify_run].
  destruct (mark_due_pending i Hc) as (Hp & Hsq & Hk).
  destruct (take_due_pending (mark_due i) ltac:(by rewrite Hsq) Hp) as (i' & -> & _ & Hs' & Hk' & _).
  specialize (IH i' ltac:(by rewrite Hk', Hk) ltac:(rewrite Hs'; apply Z.mod_pos_bound; lia)).
  destruct (notify_run n i') as [i2 ss]. cbn [snd] in *. rewrite IH. cbn [seq map]. rewrite Hsq in *.
  f_equal; [do 2 f_equal; lia|]. rewrite <- seq_shift, map_map. apply map_ext. intros k.
  rewrite Hs'. f_equal. replace ((oi_seq i + 1) mod 2 ^ 24 + 1 + Z.of_nat k)
    with ((oi_seq i + 1) mod 2 ^ 24 + (1 + Z.of_nat k)) by lia.
  rewrite Zplus_mod_idemp_l. f_equal. lia.
Qed.

Lemma fresher_mod (s a b : Z) :
  0 ≤ a → a < b → b - a < 2 ^ 23 → fresher ((s + a) mod 2 ^ 24) ((s + b) mod 2 ^ 24).
Proof. intros Ha Hab Hd. unfold fresher. change (2 ^ 24) with 16777216. change (2 ^ 23) with 8388608 in *. div_lia. Qed.

(** Notification numbers: taking a due notification assigns the next
    24-bit number and clears the mark, a second signal before it is coalesced,
    restoring the number just assigned is the exact inverse and any other
    restore does nothing; successive numbers follow each other modulo 2^24, so
    that a client that orders by RFC 7641 section 3.4 sees each as more recent
    than every earlier one less than 2^23 notifications back. *)
Theorem observe_sequence i (n : nat) :
  ok_client (oi_key i) = false → 0 ≤ oi_seq i < 2 ^ 24 →
  (oi_pending i = false → take_due i = (i, None)) ∧
  mark_due (mark_due i) = mark_due i ∧
  (∃ i', take_due (mark_due i) = (i', Some ((oi_seq i + 1) mod 2 ^ 24)) ∧ oi_pending i' = false ∧
     restore_due i' ((oi_seq i + 1) mod 2 ^ 24) = mark_due i) ∧
  (∀ s, s ≠ oi_seq i → restore_due i s = i) ∧
  snd (notify_run n i) = map (fun k => Some ((oi_seq i + 1 + Z.of_nat k) mod 2 ^ 24)) (seq 0 n) ∧
  ∀ a b, (a < b < n)%nat → (b - a < Z.to_nat (2 ^ 23))%nat →
    ∃ sa sb, snd (notify_run n i) !! a = Some (Some sa) ∧ snd (notify_run n i) !! b = Some (Some sb) ∧
      fresher sa sb.
Proof.
  intros Hc Hs. destruct (mark_due_pending i Hc) as (Hp & Hsq & Hk). split_and!.
  - intros Hn. unfold take_due. by rewrite Hn.
  - unfold mark_due. rewrite Hc. cbn [negb with_delivery oi_key]. by rewrite Hc.
  - destruct (take_due_pending (mark_due i) ltac:(by rewrite Hsq) Hp) as (i' & Ht & Hp' & Hs' & _ & Hr).
    rewrite Hsq in *. exists i'. split_and!; [done..|]. by rewrite <- Hs'.
  - intros s Hne. unfold restore_due. rewrite (proj2 (Z.eqb_neq _ _)) by lia. by rewrite orb_true_r.
  - by apply notify_run_seqs.
  - intros a b Hab Hd. rewrite notify_run_seqs by done.
    exists ((oi_seq i + 1 + Z.of_nat a) mod 2 ^ 24), ((oi_seq i + 1 + Z.of_nat b) mod 2 ^ 24).
    rewrite !list_lookup_fmap, !lookup_seq_lt by lia. split_and!; [done..|]. apply fresher_mod; lia.
Qed.
End sequence.

(** ** The supersession chain *)
Section chain.
Context {T Q : Type}.
Implicit Types i : ObserveInterest T Q.

Definition con_mids i : list MessageId :=
  match oi_notify_hold i with Some (HoldCon mid) => [mid] | _ => [] end.

(** The superseded Message IDs and the current one, oldest first. *)
Definition chain i : list MessageId := take (Z.to_nat (oi_superseded_len i)) (oi_superseded i) ++ con_mids i.

Definition interest_inv i : Prop :=
  0 ≤ oi_seq i < 2 ^ 24 ∧ length (oi_superseded i) = Z.to_nat MAX_RETRANSMIT ∧
  0 ≤ oi_superseded_len i ≤ MAX_RETRANSMIT ∧ NoDup (chain i) ∧
  (con_mids i = [] → oi_superseded_len i = 0).

(** One operation of a row's life. *)
Inductive interest_step : ObserveInterest T Q → ObserveInterest T Q → Prop :=
  | istep_mark i : interest_step i (mark_due i)
  | istep_delete i : interest_step i (mark_deleted i)
  | istep_take i : interest_step i (take_due i).1
  | istep_restore i s : interest_step i (restore_due i s)
  | istep_record i now mid c : interest_step i (record_notify i now mid c)
  | istep_clear i : interest_step i (clear_notify_hold i)
  | istep_supersede i i' now mid : supersede_con (E:=SlotError) i now mid = Ok (Some i') → interest_step i i'
  | istep_expire i now : interest_step i (take_expired i now).1
  | istep_lifetime i l : interest_step i (with_lifetime i l)
  | istep_confirm i : interest_step i (require_confirmation i)
  | istep_seq i s : 0 ≤ s → interest_step i (with_seq i s).

Lemma seq_masked (s : Z) : 0 ≤ s → 0 ≤ Z.land s OBSERVE_SEQUENCE_MASK < 2 ^ 24.
Proof. intros Hs. rewrite observe_mask by done. apply Z.mod_pos_bound. lia. Qed.

(** Only hold, chain and sequence matter to the invariant. *)
Lemma interest_inv_same i i' :
  interest_inv i → 0 ≤ oi_seq i' < 2 ^ 24 → oi_superseded i' = oi_superseded i →
  oi_superseded_len i' = oi_superseded_len i → oi_notify_hold i' = oi_notify_hold i → interest_inv i'.
Proof.
  intros (Hs & Hl & Hn & Hd & Hc) Hs' E1 E2 E3. unfold interest_inv, chain, con_mids in *. by rewrite E1, E2, E3.
Qed.

(** A fresh hold starts a new chain. *)
Lemma interest_inv_reset i i' :
  interest_inv i → oi_seq i' = oi_seq i → oi_superseded i' = oi_superseded i →
  oi_superseded_len i' = 0 → interest_inv i'.
Proof.
  intros (Hs & Hl & Hn & Hd & Hc) E0 E1 E2. unfold interest_inv, chain. rewrite E0, E1, E2.
  unfold MAX_RETRANSMIT in *. split_and!; try done; try lia.
  unfold con_mids. simpl. destruct (oi_notify_hold i') as [[]|]; [constructor| |constructor].
  apply NoDup_singleton.
Qed.

(** Every outcome of [supersede_con]. *)
Lemma supersede_ok {E} i now mid :
  interest_inv i →
  ∃ r, supersede_con (E:=E) i now mid = Ok r ∧
    match r with
    | Some i' =>
        (∃ old, oi_notify_hold i = Some (HoldCon old)) ∧ oi_pending i = true ∧
        ok_client (oi_key i) = false ∧ oi_superseded_len i < MAX_RETRANSMIT ∧ (mid ∉ chain i) ∧
        interest_inv i' ∧ chain i' = chain i ++ [mid] ∧ oi_pending i' = false ∧
        oi_seq i' = (oi_seq i + 1) mod 2 ^ 24 ∧ oi_superseded_len i' = oi_superseded_len i + 1
    | None =>
        con_mids i = [] ∨ oi_pending i = false ∨ ok_client (oi_key i) = true ∨
        oi_superseded_len i = MAX_RETRANSMIT ∨ mid ∈ chain i
    end.
Proof.
  intros (Hs & Hl & Hn & Hd & Hc). unfold supersede_con, chain, con_mids in *.
  destruct (oi_notify_hold i) as [[u m|old]|] eqn:Hh; simpl; [by exists None; auto| |by exists None; auto].
  rewrite Hl. unfold MAX_RETRANSMIT in *. change (Z.to_nat 4) with 4%nat in *.
  destruct (_ || eqb mid old) eqn:E1.
  { exists None. split; [done|]. bools. destruct E1 as [E1|E1]; bools; [|subst; right; right; right; right;
      apply elem_of_app; right; by apply list_elem_of_singleton].
    destruct E1 as [E1|E1]; bools; [destruct E1; bools; auto|]. right; right; right; left. lia. }
  bools. unfold superseded_con_mids.
  assert (Z.to_nat (oi_superseded_len i) ≤ length (oi_superseded i))%nat as Hle by (rewrite Hl; lia).
  rewrite slice_prefix by done. unbind.
  set (mids := take (Z.to_nat (oi_superseded_len i)) (oi_superseded i)) in *.
  change (@take Z (Z.to_nat (oi_superseded_len i)) (oi_superseded i)) with mids.
  destruct (existsb (eqb mid) mids) eqn:Ex.
  { exists None. split; [done|]. do 4 right. apply existsb_exists in Ex as (x & Hx & Hxe). bools. subst x.
    apply elem_of_app. left. by apply list_elem_of_In. }
  assert (mid ∉ mids) as Hnin.
  { intros Hin. assert (existsb (eqb mid) mids = true); [|congruence]. apply existsb_exists. exists mid.
    split; [by apply list_elem_of_In|by apply bool_decide_eq_true]. }
  destruct (oi_pending i) eqn:Hp; [|done].
  destruct (take_due_pending i Hs Hp) as (i1 & Ht & Hp1 & Hs1 & Hk1 & _).
  assert (oi_superseded i1 = oi_superseded i ∧ oi_superseded_len i1 = oi_superseded_len i) as [Es El].
  { unfold take_due in Ht. rewrite Hp in Ht. cbn [negb] in Ht. by injection Ht as <- _. }
  rewrite Ht, Es, El. unfold set_idx. rewrite (proj2 (Nat.ltb_lt _ _)) by lia. unbind.
  eexists. split; [done|]. set (n := Z.to_nat (oi_superseded_len i)) in *.
  assert (take (Z.to_nat (oi_superseded_len i + 1)) (<[n:=old]> (oi_superseded i)) = mids ++ [old]) as Htk.
  { replace (Z.to_nat (oi_superseded_len i + 1)) with (S n) by (unfold n; lia).
    rewrite (take_S_r _ _ old) by (apply list_lookup_insert_eq; lia). by rewrite take_insert_ge by lia. }
  assert (mid ∉ mids ++ [old]) as Hnin2.
  { intros [?|?%list_elem_of_singleton]%elem_of_app; done. }
  split_and!; try done; [by exists old|lia| |].
  - unfold interest_inv, chain, con_mids, MAX_RETRANSMIT.
    cbn [with_delivery oi_seq oi_superseded oi_superseded_len oi_notify_hold].
    rewrite Htk, Hs1, length_insert, Hl. split_and!; try done; try lia; [apply Z.mod_pos_bound; lia..|].
    apply NoDup_app. split_and!; [done| |apply NoDup_singleton].
    intros x Hx ->%list_elem_of_singleton. done.
  - cbn [with_delivery oi_superseded oi_superseded_len oi_notify_hold]. by rewrite Htk.
Qed.

Lemma interest_step_inv i i' : interest_inv i → interest_step i i' → interest_inv i'.
Proof.
  intros Hi Hs. pose proof Hi as (Hq & _).
  destruct Hs as [i|i|i|i s|i now mid c|i|i i' now mid Hsup|i now|i l|i|i s Hs0].
  - unfold mark_due. destruct (negb _); by apply (interest_inv_same i).
  - unfold mark_deleted. destruct (negb _); by apply (interest_inv_same i).
  - unfold take_due. destruct (oi_pending i); [|done]. simpl. apply (interest_inv_same i); try done.
    simpl. rewrite next_seq_mod by done. apply Z.mod_pos_bound. lia.
  - unfold restore_due. destruct (_ || _) eqn:E; [done|]. bools. subst s. apply (interest_inv_same i); try done.
    simpl. rewrite prev_seq_mod by done. apply Z.mod_pos_bound. lia.
  - unfold record_notify. destruct (ok_client _); [done|]. by destruct c; apply (interest_inv_reset i).
  - by apply (interest_inv_reset i).
  - destruct (supersede_ok (E:=SlotError) i now mid Hi) as (r & Hr & Hspec). rewrite Hsup in Hr. injection Hr as <-.
    apply Hspec.
  - unfold take_expired. destruct (oi_lifetime i) as [life|]; [|done]. destruct (negb _); [done|].
    destruct life; simpl; [by apply (interest_inv_same i)|by apply (interest_inv_reset i)].
  - by apply (interest_inv_same i).
  - by apply (interest_inv_same i).
  - apply (interest_inv_same i); try done. simpl. by apply seq_masked.
Qed.

(** Through every sequence of signals, notifications, acknowledgements,
    expiries and supersessions, a row keeps a 24-bit sequence and a chain of
    at most four superseded Message IDs, all different from each other and
    from the current one, which is empty unless a confirmable notification is
    outstanding; [supersede_con] never panics and succeeds exactly on a
    pending server row with such a notification, room in the chain and a
    Message ID that is new to it, which it appends. *)
Theorem observe_supersession (token : T) (e : Endpoint) i now mid :
  rtc interest_step (ObserveInterest_new token e) i →
  interest_inv i ∧
  ∃ r, supersede_con (E:=SlotError) i now mid = Ok r ∧
    match r with
    | Some i' =>
        (∃ old, oi_notify_hold i = Some (HoldCon old)) ∧ oi_pending i = true ∧
        ok_client (oi_key i) = false ∧ oi_superseded_len i < MAX_RETRANSMIT ∧ (mid ∉ chain i) ∧
        interest_inv i' ∧ chain i' = chain i ++ [mid] ∧ oi_pending i' = false ∧
        oi_seq i' = (oi_seq i + 1) mod 2 ^ 24 ∧ oi_superseded_len i' = oi_superseded_len i + 1
    | None =>
        con_mids i = [] ∨ oi_pending i = false ∨ ok_client (oi_key i) = true ∨
        oi_superseded_len i = MAX_RETRANSMIT ∨ mid ∈ chain i
    end.
Proof.
  intros Hr. assert (Hi : interest_inv i); [|split; [done|by apply supersede_ok]].
  eapply (rtc_ind_r interest_inv); [|by intros; eapply interest_step_inv|exact Hr].
  unfold interest_inv, chain, con_mids. simpl. unfold MAX_RETRANSMIT. split_and!; try done; try lia. constructor.
Qed.
End chain.

(** ** Witnesses *)
Definition ex_interest : ObserveInterest nat unit := ObserveInterest_new 7%nat (mkEndpoint (replicate 16 0) 0 0 5683 true).

Lemma observe_sequence_witness :
  snd (notify_run 2 ex_interest) = [Some 1; Some 2] ∧ fresher 1 2.
Proof.
  destruct (observe_sequence ex_interest 2 ltac:(reflexivity) ltac:(simpl; lia)) as (_ & _ & _ & _ & Hr & Hf).
  split; [rewrite Hr; reflexivity|]. destruct (Hf 0%nat 1%nat ltac:(lia) ltac:(lia)) as (sa & sb & Ha & Hb & Hfr).
  rewrite Hr in Ha, Hb. injection Ha as <-. injection Hb as <-. exact Hfr.
Defined.

Lemma observe_supersession_witness :
  ∃ i i', rtc interest_step ex_interest i ∧
    supersede_con (E:=SlotError) i 5 9 = Ok (Some i') ∧ chain i' = [8; 9].
Proof.
  set (i := mark_due (record_notify ex_interest 3 8 true)).
  assert (rtc interest_step ex_interest i) as Hr.
  { eapply rtc_l; [apply (istep_record ex_interest 3 8 true)|eapply rtc_l; [apply istep_mark|apply rtc_refl]]. }
  destruct (observe_supersession 7%nat _ i 5 9 Hr) as (_ & r & Hs & Hm).
  destruct r as [i'|]; [|vm_compute in Hs; discriminate Hs].
  exists i, i'. split; [exact Hr|]. split; [exact Hs|]. apply Hm.
Defined.
