(* ===== verification/OscoreHeader.v ===== *)
(** * The OSCORE option and the AEAD nonce

    [src/oscore/header.rs] and [nonce] of [src/oscore/aead.rs]: Partial IVs,
    the compressed OSCORE option with its parser and encoder, the option
    classes of RFC 8613, and the nonce built from an identifier and a Partial
    IV. *)
From S2P Require Import Prelude Errors.

(** [src/oscore/error.rs]. *)
Inductive OscoreError : Type :=
  | OMasterSecret | OMasterSalt | OId | OIdCollision | ODerive | OBufferTooSmall | OMessageLength
  | OMessageCode | OHeader | OContext | OUnprotected | OSaturated | OPartialIv | OSequenceExhausted
  | OSequenceRollback | OSequenceUnreserved | OReplay | OReplayState | OReplayRollback | ODecrypt
  | OEncrypt | OEncode (e : EncodeError) | OParse (e : ParseError) | OOptions | OUnsupported.

Definition NONCE_LEN : nat := 13.
Definition MAX_ID_LEN : nat := 7.
Definition MAX_ID_CONTEXT_LEN : nat := 16.
Definition MAX_PIV_LEN : nat := 5.

(** ** Partial IV *)
Record PartialIv : Type := mkPiv { piv_bytes : list Z; piv_len : Z }.

(** The [while be[start] == 0] loop. *)
Fixpoint zero_prefix (be : list Z) : nat :=
  match be with
  | b :: be => if b =? 0 then S (zero_prefix be) else O
  | [] => O
  end.

Definition PartialIv_from_seq (seq : Z) : res OscoreError PartialIv :=
  let be := be_bytes 8 seq in
  let start := zero_prefix be in
  if (start =? 8)%nat then Ok (mkPiv [0; 0; 0; 0; 0] 1)
  else
    let len := (8 - start)%nat in
    if (MAX_PIV_LEN <? len)%nat then Err OPartialIv
    else
      bytes ← copy_into 0 len (drop start be) (replicate MAX_PIV_LEN 0);
      mret (mkPiv bytes (Z.of_nat len)).

Definition PartialIv_from_bytes (bytes : list Z) : res OscoreError PartialIv :=
  if (length bytes =? 0)%nat || (MAX_PIV_LEN <? length bytes)%nat then Err OPartialIv
  else
    out ← copy_into 0 (length bytes) bytes (replicate MAX_PIV_LEN 0);
    mret (mkPiv out (Z.of_nat (length bytes))).

Definition PartialIv_as_bytes {E} (p : PartialIv) : res E (list Z) :=
  slice_idx (piv_bytes p) 0 (Z.to_nat (piv_len p)).

Definition PartialIv_seq {E} (p : PartialIv) : res E Z :=
  let n := Z.to_nat (piv_len p) in
  bs ← slice_idx (piv_bytes p) 0 n;
  be ← copy_into (8 - n) 8 bs (replicate 8 0);
  mret (from_be be).

(** ** The option *)
Record OscoreHeader : Type := mkOscoreHeader {
  oh_piv : option PartialIv;
  oh_kid_context : option (list Z);
  oh_kid : option (list Z)
}.

Section header.
Context `{Target}.

(** [value.get(i..end)] of a checked end. *)
Definition take_field (value : list Z) (i n : nat) : res OscoreError (list Z * nat) :=
  stop ← ok_or (usize_checked_add i n) OHeader;
  bytes ← ok_or (slice_get value i stop) OHeader;
  mret (bytes, stop).

(** The Partial IV of [n] bytes behind the flags, and the next index. *)
Definition parse_piv (value : list Z) (n : nat) : res OscoreError (option PartialIv * nat) :=
  if (0 <? n)%nat then
    '(bytes, stop) ← take_field value 1 n;
    p ← PartialIv_from_bytes bytes;
    mret (Some p, stop)
  else mret (None, 1%nat).

(** The kid context at [i], when the flag [h] announces one. *)
Definition parse_kid_context (value : list Z) (i : nat) (h : bool)
    : res OscoreError (option (list Z) * nat) :=
  if h then
    s ← ok_or (value !! i) OHeader;
    '(bytes, stop) ← take_field value (i + 1) (Z.to_nat s);
    mret (Some bytes, stop)
  else mret (None, i).

Definition OscoreHeader_parse (value : list Z) : res OscoreError OscoreHeader :=
  if (length value =? 0)%nat then Ok (mkOscoreHeader None None None)
  else
    flags ← idx value 0;
    if negb (Z.land flags 224 =? 0) then Err OHeader
    else
      let n := Z.to_nat (Z.land flags 7) in
      if (n =? 6)%nat || (n =? 7)%nat then Err OHeader
      else
        let k := negb (Z.land flags 8 =? 0) in
        let h := negb (Z.land flags 16 =? 0) in
        '(piv, i) ← parse_piv value n;
        '(kid_context, i) ← parse_kid_context value i h;
        if k then
          bytes ← ok_or (slice_get value i (length value)) OHeader;
          mret (mkOscoreHeader piv kid_context (Some bytes))
        else if negb (i =? length value)%nat then Err OHeader
        else mret (mkOscoreHeader piv kid_context None).

(** [out[i..i + bytes.len()].copy_from_slice(bytes); i += bytes.len()]. *)
Definition put_field (i : nat) (bytes : list Z) : st (list Z) OscoreError nat :=
  _ ← st_upd (copy_into i (i + length bytes) bytes);
  mret (i + length bytes)%nat.

Definition put_opt (i : nat) (o : option (list Z)) : st (list Z) OscoreError nat :=
  match o with Some bytes => put_field i bytes | None => mret i end.

Definition put_kid_context (i : nat) (kid_context : option (list Z)) : st (list Z) OscoreError nat :=
  match kid_context with
  | Some ctx =>
      _ ← st_upd (set_idx i (wrap 8 (Z.of_nat (length ctx))));
      put_field (i + 1) ctx
  | None => mret i
  end.

Definition too_long (o : option (list Z)) (limit : nat) : bool :=
  match o with Some l => (limit <? length l)%nat | None => false end.

Definition encode_option (piv : option PartialIv) (kid_context kid : option (list Z))
    : st (list Z) OscoreError nat :=
  if too_long kid_context MAX_ID_CONTEXT_LEN then st_fail OId
  else if too_long kid MAX_ID_LEN then st_fail OId
  else
    piv ← st_lift (match piv with
                   | Some p => bs ← PartialIv_as_bytes p; mret (Some bs)
                   | None => mret None
                   end);
    let n := match piv with Some p => length p | None => O end in
    if (5 <? n)%nat then st_fail OPartialIv
    else
      let k := match kid with Some _ => true | None => false end in
      let h := match kid_context with Some _ => true | None => false end in
      if (n =? 0)%nat && negb k && negb h then mret 0%nat
      else
        let kid_ctx_len := match kid_context with Some c => length c | None => O end in
        let kid_len := match kid with Some c => length c | None => O end in
        let total := (1 + n + (if h then 1 + kid_ctx_len else 0) + kid_len)%nat in
        out ← st_get;
        if (length out <? total)%nat then st_fail OBufferTooSmall
        else
          let flags := Z.of_nat n in
          let flags := if k then Z.lor flags 8 else flags in
          let flags := if h then Z.lor flags 16 else flags in
          _ ← st_upd (set_idx 0 flags);
          i ← put_opt 1 piv;
          i ← put_kid_context i kid_context;
          put_opt i kid.
End header.

(** ** Option classes *)
Inductive OptionClass : Type := ClassInner | ClassOuter | ClassDual.

Definition in_plaintext (c : OptionClass) : bool :=
  match c with ClassInner | ClassDual => true | ClassOuter => false end.

Definition classify (number : Z) : OptionClass :=
  match number with
  | 3 | 7 | 9 | 16 | 35 | 39 => ClassOuter
  | 6 | 14 | 19 | 23 | 27 | 28 | 31 | 60 | 258 => ClassDual
  | _ => ClassInner
  end.

Definition encode_as_outer (number : Z) : bool :=
  match classify number with
  | ClassOuter => true
  | ClassDual => number =? 6
  | ClassInner => false
  end.

Definition is_oscore (number : Z) : bool := number =? 9.

(** ** The nonce *)
Definition nonce {E} (common_iv id_piv : list Z) (piv : PartialIv) : res E (list Z) :=
  let raw := replicate NONCE_LEN 0 in
  raw ← set_idx 0 (wrap 8 (Z.of_nat (length id_piv))) raw;
  let id_pad := (NONCE_LEN - 6)%nat in
  start ← match usize_checked_sub (1 + id_pad) (length id_piv) with Some s => Ok s | None => Panic end;
  raw ← copy_into start (1 + id_pad) id_piv raw;
  piv_bytes ← PartialIv_as_bytes piv;
  start ← match usize_checked_sub NONCE_LEN (length piv_bytes) with Some s => Ok s | None => Panic end;
  raw ← copy_into start NONCE_LEN piv_bytes raw;
  mret (zip_with Z.lxor raw common_iv).

(** ** Partial IVs *)

(** A Partial IV as the constructors build it: its bytes, then zeroes. *)
Definition piv_of (bs : list Z) : PartialIv :=
  mkPiv (bs ++ replicate (MAX_PIV_LEN - length bs) 0) (Z.of_nat (length bs)).

Definition piv_wf (p : PartialIv) : Prop :=
  ∃ bs, p = piv_of bs ∧ (1 ≤ length bs ≤ MAX_PIV_LEN)%nat ∧ bytes_ok bs.

Lemma splice_front {A} (n : nat) (x : A) (bs : list A) :
  splice (replicate n x) 0 bs = bs ++ replicate (n - length bs) x.
Proof. unfold splice. simpl. by rewrite drop_replicate. Qed.

Lemma from_bytes_ok (bs : list Z) :
  (1 ≤ length bs ≤ MAX_PIV_LEN)%nat → PartialIv_from_bytes bs = Ok (piv_of bs).
Proof.
  intros Hl. unfold PartialIv_from_bytes. rewrite (proj2 (Nat.eqb_neq _ _)), (proj2 (Nat.ltb_ge _ _)) by lia.
  cbn [orb]. rewrite copy_into_ok by (rewrite ?length_replicate; lia). unbind. by rewrite splice_front.
Qed.

Lemma as_bytes_ok {E} (bs : list Z) :
  (length bs ≤ MAX_PIV_LEN)%nat → PartialIv_as_bytes (E:=E) (piv_of bs) = Ok bs.
Proof.
  intros Hl. unfold PartialIv_as_bytes, piv_of. simpl. rewrite Nat2Z.id, slice_prefix.
  - by rewrite take_app_length.
  - rewrite length_app. lia.
Qed.

Lemma piv_seq_ok {E} (bs : list Z) :
  (length bs ≤ MAX_PIV_LEN)%nat → PartialIv_seq (E:=E) (piv_of bs) = Ok (from_be bs).
Proof.
  intros Hl. unfold MAX_PIV_LEN in *. unfold PartialIv_seq. pose proof (as_bytes_ok (E:=E) bs Hl) as Ha.
  unfold PartialIv_as_bytes in Ha. rewrite Ha. unbind. simpl piv_len. rewrite Nat2Z.id.
  rewrite copy_into_ok by (rewrite ?length_replicate; lia). f_equal. unfold splice.
  rewrite take_replicate, drop_replicate, Nat.min_l by lia.
  replace (8 - (8 - length bs + length bs))%nat with 0%nat by lia. rewrite app_nil_r. apply from_be_zeros.
Qed.

Lemma zero_prefix_split (be : list Z) :
  be = replicate (zero_prefix be) 0 ++ drop (zero_prefix be) be ∧
  match drop (zero_prefix be) be with [] => True | b :: _ => b ≠ 0 end.
Proof.
  induction be as [|b be [IH1 IH2]]; [done|]. simpl. destruct (b =? 0) eqn:E; bools; [|by split].
  simpl. subst b. split; [by f_equal|done].
Qed.

(** A leading non-zero byte bounds the number from below. *)
Lemma from_be_lower (b : Z) (bs : list Z) :
  bytes_ok (b :: bs) → b ≠ 0 → 256 ^ Z.of_nat (length bs) ≤ from_be (b :: bs).
Proof.
  intros Hok Hb. apply bytes_ok_cons in Hok as [[Hb0 _] Hok].
  induction bs as [|x bs IH] using rev_ind; [unfold from_be; simpl; lia|].
  apply bytes_ok_app in Hok as [Hok Hx]. specialize (IH Hok). inversion_clear Hx as [|? ? [Hx0 _] _].
  change (b :: bs ++ [x]) with ((b :: bs) ++ [x]). rewrite from_be_snoc, length_app. simpl length.
  replace (Z.of_nat (length bs + 1)) with (Z.of_nat (length bs) + 1) by lia. rewrite Z.pow_add_r by lia. lia.
Qed.

(** [from_seq] strips leading zeroes and refuses exactly what needs more than
    five bytes. *)
Lemma from_seq_ok (s : Z) :
  in_u 64 s →
  if s <? 2 ^ 40 then
    ∃ p, PartialIv_from_seq s = Ok p ∧ piv_wf p ∧ PartialIv_seq (E:=OscoreError) p = Ok s
  else PartialIv_from_seq s = Err OPartialIv.
Proof.
  intros Hs. unfold PartialIv_from_seq. set (be := be_bytes 8 s).
  pose proof (be_bytes_ok 8 s) as Hok. fold be in Hok. pose proof (length_be_bytes 8 s) as Hl. fold be in Hl.
  assert (from_be be = s) as Hbe by (unfold be; rewrite from_be_bytes; by apply Z.mod_small).
  destruct (zero_prefix_split be) as [Hsp Hhd]. set (z := zero_prefix be) in *.
  assert (length be = z + length (drop z be))%nat as Hlen
    by (rewrite Hsp at 1; by rewrite length_app, length_replicate).
  assert (from_be (drop z be) = s) as Hrest
    by (rewrite <- Hbe, <- (from_be_zeros z (drop z be)); by rewrite <- Hsp).
  pose proof (bytes_ok_drop z _ Hok) as Hok'.
  destruct (z =? 8)%nat eqn:Ez; bools.
  { assert (drop z be = []) as Hn by (apply nil_length_inv; lia). rewrite Hn in Hrest. simpl in Hrest.
    rewrite <- Hrest. exists (piv_of [0]). split_and!; [done| |done]. exists [0].
    split_and!; [done|simpl; unfold MAX_PIV_LEN; lia..|]. apply bytes_ok_cons. split; [unfold in_u; lia|constructor]. }
  destruct (drop z be) as [|b rest] eqn:Ed; [simpl in Hlen; lia|]. simpl length in Hlen.
  pose proof (from_be_lower b rest Hok' Hhd) as Hlow. pose proof (from_be_bound _ Hok') as Hup.
  rewrite Hrest in Hlow, Hup. simpl length in Hup. unfold MAX_PIV_LEN.
  destruct (5 <? 8 - z)%nat eqn:E5; bools.
  - rewrite (proj2 (Z.ltb_ge _ _)); [done|]. etrans; [|exact Hlow]. change (2 ^ 40) with (256 ^ 5).
    apply Z.pow_le_mono_r; lia.
  - rewrite (proj2 (Z.ltb_lt _ _)).
    2: { eapply Z.lt_le_trans; [apply Hup|]. apply Z.pow_le_mono_r; lia. }
    rewrite copy_into_ok by (rewrite ?length_replicate; simpl; lia). unbind. rewrite splice_front.
    exists (piv_of (b :: rest)). split_and!.
    + unfold piv_of, MAX_PIV_LEN. do 2 f_equal. simpl. lia.
    + exists (b :: rest). unfold MAX_PIV_LEN. split_and!; simpl; done || lia.
    + rewrite piv_seq_ok by (unfold MAX_PIV_LEN; simpl; lia). by rewrite Hrest.
Qed.

(** ** The option on the wire *)
Definition header_flags (n : nat) (k h : bool) : Z :=
  let flags := Z.of_nat n in
  let flags := if k then Z.lor flags 8 else flags in
  if h then Z.lor flags 16 else flags.

Lemma header_flags_fields (n : nat) (k h : bool) :
  (n ≤ 5)%nat →
  Z.land (header_flags n k h) 224 = 0 ∧ Z.to_nat (Z.land (header_flags n k h) 7) = n ∧
  negb (Z.land (header_flags n k h) 8 =? 0) = k ∧ negb (Z.land (header_flags n k h) 16 =? 0) = h.
Proof. intros Hn. do 6 (destruct n as [|n]; [by destruct k, h|]). lia. Qed.

(** The fields after the flags. *)
Definition context_wire (ctx : option (list Z)) : list Z :=
  match ctx with Some c => Z.of_nat (length c) :: c | None => [] end.
Definition kid_wire (kid : option (list Z)) : list Z := default [] kid.
Definition is_some_b {A} (o : option A) : bool := match o with Some _ => true | None => false end.

Definition oscore_wire (piv : list Z) (ctx kid : option (list Z)) : list Z :=
  if (length piv =? 0)%nat && negb (is_some_b kid) && negb (is_some_b ctx) then []
  else header_flags (length piv) (is_some_b kid) (is_some_b ctx) :: piv ++ context_wire ctx ++ kid_wire kid.

(** The bytes of an optional Partial IV. *)
Definition opt_piv (bs : list Z) : option PartialIv := if (length bs =? 0)%nat then None else Some (piv_of bs).

Section header_proofs.
Context `{Target}.

Lemma take_field_ok (p s q : list Z) (i n : nat) :
  i = length p → n = length s → (length p + length s ≤ 1000)%nat →
  take_field (p ++ s ++ q) i n = Ok (s, (length p + length s)%nat).
Proof.
  intros -> -> Hl. unfold take_field, usize_checked_add. pose proof usize_max_ge.
  rewrite (proj2 (Z.leb_le _ _)) by lia. unfold ok_or. unbind. by rewrite slice_get_app.
Qed.

Lemma parse_piv_ok (fl : Z) (piv rest : list Z) :
  (length piv ≤ MAX_PIV_LEN)%nat →
  parse_piv (fl :: piv ++ rest) (length piv) = Ok (opt_piv piv, (1 + length piv)%nat).
Proof.
  unfold MAX_PIV_LEN. intros Hp. unfold parse_piv, opt_piv.
  destruct (length piv =? 0)%nat eqn:E0; bools; [by rewrite E0|]. rewrite (proj2 (Nat.ltb_lt _ _)) by lia.
  rewrite (take_field_ok [fl] piv rest) by (simpl; lia || done). unbind.
  by rewrite from_bytes_ok by (unfold MAX_PIV_LEN; lia).
Qed.

Lemma parse_kid_context_ok (pre rest : list Z) (ctx : option (list Z)) :
  (length pre ≤ 6)%nat → too_long ctx MAX_ID_CONTEXT_LEN = false →
  parse_kid_context (pre ++ context_wire ctx ++ rest) (length pre) (is_some_b ctx) =
    Ok (ctx, (length pre + length (context_wire ctx))%nat).
Proof.
  unfold MAX_ID_CONTEXT_LEN. intros Hp Hc. unfold parse_kid_context.
  destruct ctx as [c|]; simpl is_some_b; cbv iota; [|simpl; by rewrite Nat.add_0_r].
  simpl in Hc. bools. simpl context_wire. cbn [app]. rewrite lookup_app_mid by done. unfold ok_or. unbind.
  replace (pre ++ Z.of_nat (length c) :: c ++ rest)
    with ((pre ++ [Z.of_nat (length c)]) ++ c ++ rest) by (by rewrite <- app_assoc).
  rewrite take_field_ok; [unbind; do 2 f_equal|..]; rewrite ?length_app; simpl; lia.
Qed.

Lemma parse_wire (piv : list Z) (ctx kid : option (list Z)) :
  (length piv ≤ MAX_PIV_LEN)%nat → too_long ctx MAX_ID_CONTEXT_LEN = false →
  too_long kid MAX_ID_LEN = false →
  OscoreHeader_parse (oscore_wire piv ctx kid) = Ok (mkOscoreHeader (opt_piv piv) ctx kid).
Proof.
  intros Hp Hc Hk. unfold oscore_wire. destruct (_ && negb _) eqn:E0.
  { apply andb_true_iff in E0 as [[E1 E2]%andb_true_iff E3]. unfold opt_piv. rewrite E1.
    by destruct ctx, kid. }
  clear E0. unfold OscoreHeader_parse. set (fl := header_flags _ _ _).
  destruct (header_flags_fields (length piv) (is_some_b kid) (is_some_b ctx) Hp) as (F1 & F2 & F3 & F4).
  fold fl in F1, F2, F3, F4. cbn [length Nat.eqb]. unfold idx. cbn [lookup list_lookup]. unbind.
  rewrite F1, F2, F3, F4. cbn [negb Z.eqb]. unfold MAX_PIV_LEN in Hp.
  rewrite (proj2 (Nat.eqb_neq _ 6)), (proj2 (Nat.eqb_neq _ 7)) by lia. cbn [orb].
  rewrite parse_piv_ok by (unfold MAX_PIV_LEN; lia). unbind.
  pose proof (parse_kid_context_ok (fl :: piv) (kid_wire kid) ctx ltac:(simpl; lia) Hc) as Hctx.
  simpl in Hctx. simpl plus. rewrite Hctx. unbind.
  assert (fl :: piv ++ context_wire ctx ++ kid_wire kid = (fl :: piv ++ context_wire ctx) ++ kid_wire kid) as ->
    by (simpl; by rewrite app_assoc).
  destruct kid as [k|]; simpl is_some_b; cbv iota.
  - rewrite slice_get_tail; [done|simpl; rewrite length_app; lia|simpl; rewrite !length_app; simpl; lia].
  - rewrite (proj2 (Nat.eqb_eq _ _)); [done|]. simpl. rewrite !length_app. simpl. lia.
Qed.

Lemma put_field_ok (i : nat) (bytes buf : list Z) :
  (i + length bytes ≤ length buf)%nat →
  put_field i bytes buf = (splice buf i bytes, Ok (i + length bytes)%nat).
Proof. intros Hl. unfold put_field. unbind. by rewrite copy_into_ok by lia. Qed.

Lemma put_opt_ok (i : nat) (o : option (list Z)) (buf : list Z) :
  (i + length (default [] o) ≤ length buf)%nat →
  put_opt i o buf = (splice buf i (default [] o), Ok (i + length (default [] o))%nat).
Proof.
  intros Hl. destruct o; [by apply put_field_ok|]. simpl. by rewrite splice_nil, Nat.add_0_r.
Qed.

Lemma put_kid_context_ok (i : nat) (ctx : option (list Z)) (buf : list Z) :
  too_long ctx MAX_ID_CONTEXT_LEN = false → (i + length (context_wire ctx) ≤ length buf)%nat →
  put_kid_context i ctx buf = (splice buf i (context_wire ctx), Ok (i + length (context_wire ctx))%nat).
Proof.
  unfold MAX_ID_CONTEXT_LEN. intros Hc Hl. destruct ctx as [c|]; simpl in *.
  2: by rewrite splice_nil, Nat.add_0_r.
  bools. unbind. rewrite set_idx_ok by lia. rewrite wrap_small by (unfold in_u; lia).
  rewrite put_field_ok by (rewrite length_splice; simpl; lia). rewrite splice_splice by (simpl; lia).
  f_equal. f_equal. lia.
Qed.

(** Every outcome of [encode_option]. *)
Lemma encode_option_outcome (piv : list Z) (ctx kid : option (list Z)) (buf : list Z) :
  (length piv ≤ MAX_PIV_LEN)%nat →
  encode_option (opt_piv piv) ctx kid buf =
    if too_long ctx MAX_ID_CONTEXT_LEN || too_long kid MAX_ID_LEN then (buf, Err OId)
    else if (length buf <? length (oscore_wire piv ctx kid))%nat then (buf, Err OBufferTooSmall)
    else (splice buf 0 (oscore_wire piv ctx kid), Ok (length (oscore_wire piv ctx kid))).
Proof.
  intros Hp. unfold encode_option. destruct (too_long ctx _) eqn:Hc; [done|].
  destruct (too_long kid _) eqn:Hk; [done|]. cbn [orb].
  assert (match opt_piv piv with Some p => bs ← PartialIv_as_bytes p; mret (Some bs) | None => mret None end =
    Ok (E:=OscoreError) (if (length piv =? 0)%nat then None else Some piv)) as Hb.
  { unfold opt_piv. destruct (length piv =? 0)%nat; [done|]. unbind. by rewrite as_bytes_ok. }
  rewrite Hb. unbind. set (pb := if (length piv =? 0)%nat then None else Some piv).
  assert (default [] pb = piv) as Hpb by (unfold pb; by destruct piv).
  assert (match pb with Some p => length p | None => O end = length piv) as -> by (unfold pb; by destruct piv).
  unfold MAX_PIV_LEN in Hp. rewrite (proj2 (Nat.ltb_ge 5 _)) by lia. unfold oscore_wire, is_some_b.
  destruct (_ && negb _ && negb _) eqn:E0.
  { change (length []) with 0%nat. rewrite (proj2 (Nat.ltb_ge _ _)) by lia. by rewrite splice_nil. }
  set (fl := header_flags _ _ _).
  assert (length (fl :: piv ++ context_wire ctx ++ kid_wire kid) =
    1 + length piv + length (context_wire ctx) + length (kid_wire kid))%nat as Hlen
    by (simpl; rewrite !length_app; lia).
  assert (1 + length piv + (if match ctx with Some _ => true | None => false end
     then 1 + match ctx with Some c => length c | None => 0 end else 0) +
     match kid with Some c => length c | None => 0 end =
    length (fl :: piv ++ context_wire ctx ++ kid_wire kid))%nat as ->
    by (rewrite Hlen; by destruct ctx, kid).
  destruct (length buf <? _)%nat eqn:El; [done|]. bools. rewrite Hlen in El |- *. fold fl.
  rewrite set_idx_ok by lia.
  assert (∀ X, (length X ≤ length buf)%nat → length (splice buf 0 X) = length buf) as Hsp
    by (intros; by apply length_splice).
  rewrite put_opt_ok, Hpb by (rewrite Hpb, Hsp; simpl; lia). rewrite splice_splice by (simpl; lia).
  rewrite put_kid_context_ok by (try done; rewrite Hsp; simpl; lia).
  rewrite splice_splice by (simpl; lia).
  change (default [] kid) with (kid_wire kid).
  rewrite (put_opt_ok _ kid) by (change (default [] kid) with (kid_wire kid);
    rewrite Hsp; rewrite ?length_app; simpl; lia).
  change (default [] kid) with (kid_wire kid). rewrite splice_splice by (rewrite ?length_app; simpl; lia).
  f_equal. by rewrite <- !app_assoc.
Qed.
End header_proofs.

Section header_theorems.
Context `{Target}.

Lemma opt_piv_of (piv : option PartialIv) :
  match piv with Some p => piv_wf p | None => True end →
  ∃ bs, piv = opt_piv bs ∧ (length bs ≤ MAX_PIV_LEN)%nat.
Proof.
  destruct piv as [p|].
  - intros (bs & -> & Hl & _). exists bs. split; [|lia]. unfold opt_piv.
    by rewrite (proj2 (Nat.eqb_neq _ _)) by lia.
  - intros _. exists []. split; [done|]. simpl. lia.
Qed.

(** The OSCORE option: whatever [encode_option] writes, the parser reads
    back as the same Partial IV, kid context and kid, and the buffer is
    unchanged behind it; it fails, changing nothing, exactly on an identifier
    beyond its limit or a buffer shorter than the option, and never panics. *)
Theorem oscore_header_roundtrip (piv : option PartialIv) (ctx kid : option (list Z)) (buf : list Z) :
  match piv with Some p => piv_wf p | None => True end →
  match encode_option piv ctx kid buf with
  | (buf', Ok n) =>
      too_long ctx MAX_ID_CONTEXT_LEN = false ∧ too_long kid MAX_ID_LEN = false ∧ (n ≤ length buf)%nat ∧
      OscoreHeader_parse (take n buf') = Ok (mkOscoreHeader piv ctx kid) ∧ drop n buf' = drop n buf
  | (buf', Err OId) => buf' = buf ∧ (too_long ctx MAX_ID_CONTEXT_LEN || too_long kid MAX_ID_LEN) = true
  | (buf', Err OBufferTooSmall) =>
      buf' = buf ∧ ∃ bs, piv = opt_piv bs ∧ (length buf < length (oscore_wire bs ctx kid))%nat
  | _ => False
  end.
Proof.
  intros (bs & -> & Hl)%opt_piv_of. rewrite encode_option_outcome by done.
  destruct (_ || _) eqn:Et; [done|]. bools.
  destruct (length buf <? _)%nat eqn:El; bools; [by split; [|exists bs]|].
  split_and!; [done|done|done| |].
  - unfold splice. simpl. rewrite take_app_length. by apply parse_wire.
  - unfold splice. simpl. by rewrite drop_app_length.
Qed.
End header_theorems.

Lemma oscore_header_roundtrip_witness :
  OscoreHeader_parse (H:=target64) [25; 7; 2; 1; 2; 9] =
    Ok (mkOscoreHeader (Some (piv_of [7])) (Some [1; 2]) (Some [9])).
Proof.
  assert (piv_wf (piv_of [7])) as Hp.
  { exists [7]. split; [reflexivity|]. split; [simpl; unfold MAX_PIV_LEN; lia|].
    apply bytes_ok_cons. split; [unfold in_u; lia|constructor]. }
  pose proof (oscore_header_roundtrip (H:=target64) (Some (piv_of [7])) (Some [1; 2]) (Some [9])
    (replicate 8 0) Hp) as Hr.
  vm_compute in Hr. exact (proj1 (proj2 (proj2 (proj2 Hr)))).
Defined.

(** ** Nonces *)
Definition nonce_raw (id piv : list Z) : list Z :=
  Z.of_nat (length id) :: replicate (7 - length id) 0 ++ id ++ replicate (5 - length piv) 0 ++ piv.

(** Writing into a run of zeroes. *)
Lemma splice_zeros (p s : list Z) (n k i : nat) :
  i = (length p + k)%nat → (k + length s ≤ n)%nat →
  splice (p ++ replicate n 0) i s = (p ++ replicate k 0 ++ s) ++ replicate (n - k - length s) 0.
Proof.
  intros -> Hl. unfold splice. rewrite take_app_add, take_replicate, Nat.min_l by lia.
  rewrite drop_app_ge by lia. rewrite drop_replicate. rewrite <- !app_assoc. do 4 f_equal. lia.
Qed.

Lemma nonce_ok {E} (iv id bs : list Z) :
  (length id ≤ MAX_ID_LEN)%nat → (length bs ≤ MAX_PIV_LEN)%nat →
  nonce (E:=E) iv id (piv_of bs) = Ok (zip_with Z.lxor (nonce_raw id bs) iv).
Proof.
  intros Hi Hb. unfold nonce. rewrite as_bytes_ok by done. unfold MAX_PIV_LEN, MAX_ID_LEN in *.
  rewrite set_idx_ok by (rewrite length_replicate; unfold NONCE_LEN; lia). unbind. unfold NONCE_LEN.
  rewrite !usize_checked_sub_ok by lia. rewrite wrap_small by (unfold in_u; lia).
  rewrite splice_front. set (n := Z.of_nat (length id)). change (13 - length [n])%nat with 12%nat.
  rewrite copy_into_ok by (rewrite ?length_app, ?length_replicate; simpl; lia).
  rewrite (splice_zeros [n] id 12 (7 - length id)) by (simpl; lia).
  replace (12 - (7 - length id) - length id)%nat with 5%nat by lia.
  rewrite copy_into_ok by (rewrite ?length_app, ?length_replicate; simpl; rewrite ?length_app, ?length_replicate; simpl; lia).
  rewrite (splice_zeros _ bs 5 (5 - length bs)) by (rewrite ?length_app, ?length_replicate; simpl;
    rewrite ?length_app, ?length_replicate; simpl; lia).
  replace (5 - (5 - length bs) - length bs)%nat with 0%nat by lia.
  do 2 f_equal. unfold nonce_raw. simpl replicate at 2. rewrite app_nil_r. simpl. by rewrite <- !app_assoc.
Qed.

Lemma lxor_inj (a b c : Z) : Z.lxor a c = Z.lxor b c → a = b.
Proof.
  intros Hx. rewrite <- (Z.lxor_0_r a), <- (Z.lxor_0_r b), <- (Z.lxor_nilpotent c), <- !Z.lxor_assoc.
  by rewrite Hx.
Qed.

Lemma zip_lxor_inj (a b c : list Z) :
  length a = length c → length b = length c → zip_with Z.lxor a c = zip_with Z.lxor b c → a = b.
Proof.
  revert a b. induction c as [|z c IH]; intros [|x a] [|y b] Ha Hb Hz; simplify_eq/=; [done|].
  f_equal; [by eapply lxor_inj|by apply IH].
Qed.

(** Equal nonces under one Common IV come from one identifier and one number. *)
Lemma nonce_inj {E} (iv id id' bs bs' nc : list Z) :
  length iv = NONCE_LEN → (length id ≤ MAX_ID_LEN)%nat → (length id' ≤ MAX_ID_LEN)%nat →
  (length bs ≤ MAX_PIV_LEN)%nat → (length bs' ≤ MAX_PIV_LEN)%nat →
  nonce (E:=E) iv id (piv_of bs) = Ok nc → nonce (E:=E) iv id' (piv_of bs') = Ok nc →
  id = id' ∧ from_be bs = from_be bs'.
Proof.
  intros Hiv Hi Hi' Hb Hb'. rewrite !nonce_ok by done. intros H1 H2.
  assert (Hz : zip_with Z.lxor (nonce_raw id bs) iv = zip_with Z.lxor (nonce_raw id' bs') iv) by congruence.
  clear H1 H2.
  unfold MAX_PIV_LEN, MAX_ID_LEN, NONCE_LEN in *.
  apply zip_lxor_inj in Hz; [|unfold nonce_raw; simpl; rewrite !length_app, !length_replicate; lia..].
  unfold nonce_raw in Hz. injection Hz as Hn Hz. apply Nat2Z.inj in Hn. rewrite Hn in Hz.
  apply app_inv_head in Hz. apply app_inj_1 in Hz as [-> Hz]; [|done]. split; [done|].
  rewrite <- (from_be_zeros (5 - length bs) bs), <- (from_be_zeros (5 - length bs') bs'). by rewrite Hz.
Qed.
