(* ===== verification/OscoreCbor.v ===== *)
(** * CBOR of the key derivation and of the authenticated data

    [src/oscore/cbor.rs], with [Aad] and [hkdf_expand] of [src/oscore/aead.rs].
    The functions write into a borrowed slice behind a cursor; the state is the
    pair of both.  HKDF-SHA-256 is a parameter of [hkdf_expand]. *)
From S2P Require Import Prelude OscoreHeader.

Definition AEAD_AES_CCM_16_64_128 : Z := 10.
Definition OSCORE_VERSION : Z := 1.

(** [0x83, 0x68, "Encrypt0", 0x40]. *)
Definition ENC0_PREFIX : list Z := [131; 104; 69; 110; 99; 114; 121; 112; 116; 48; 64].

(** The output slice and the cursor. *)
Definition writer (A : Type) : Type := st (list Z * nat) OscoreError A.

Section cbor.
Context `{Target}.

Definition push (b : Z) : writer unit := fun '(out, i) =>
  if (length out <=? i)%nat then ((out, i), Err OBufferTooSmall)
  else
    match set_idx (E:=OscoreError) i b out with
    | Ok out => ((out, (i + 1)%nat), Ok tt)
    | _ => ((out, i), Panic)
    end.

Definition push_slice (bytes : list Z) : writer unit := fun '(out, i) =>
  match usize_checked_add i (length bytes) with
  | None => ((out, i), Err OBufferTooSmall)
  | Some stop =>
      if (length out <? stop)%nat then ((out, i), Err OBufferTooSmall)
      else
        match copy_into (E:=OscoreError) i stop bytes out with
        | Ok out => ((out, stop), Ok tt)
        | _ => ((out, i), Panic)
        end
  end.

Definition put_len (major : Z) (len : nat) : writer unit :=
  if (len <=? 23)%nat then push (Z.lor major (wrap 8 (Z.of_nat len)))
  else if (len <=? 255)%nat then
    _ ← push (Z.lor major 24);
    push (wrap 8 (Z.of_nat len))
  else st_fail OId.

Definition put_uint (n : Z) : writer unit :=
  if n <=? 23 then push n
  else
    _ ← push 24;
    push n.

Definition put_bstr (value : list Z) : writer unit :=
  _ ← put_len 64 (length value);
  push_slice value.

(** The argument is the UTF-8 of the label. *)
Definition put_tstr (value : list Z) : writer unit :=
  _ ← put_len 96 (length value);
  push_slice value.

Definition info_body (id : list Z) (id_context : option (list Z)) (label : list Z) (l : Z) : writer unit :=
  _ ← push 133;
  _ ← put_bstr id;
  _ ← match id_context with None => push 246 | Some ctx => put_bstr ctx end;
  _ ← put_uint (wrap 8 AEAD_AES_CCM_16_64_128);
  _ ← put_tstr label;
  put_uint l.

Definition encode_info (id : list Z) (id_context : option (list Z)) (label : list Z) (l : Z)
    : st (list Z) OscoreError nat := fun out =>
  match info_body id id_context label l (out, 0%nat) with
  | ((out, i), r) => (out, _ ← r; mret i)
  end.

Definition aad_bstr_end (i len : nat) : res OscoreError nat :=
  header_len ← (if (len <=? 23)%nat then Ok 1%nat
                else if (len <=? 255)%nat then Ok 2%nat else Err OId);
  stop ← ok_or (n ← usize_checked_add i header_len; usize_checked_add n len) OBufferTooSmall;
  if (48 <? stop)%nat then Err OBufferTooSmall else mret stop.

Definition b2n (b : bool) : nat := if b then 1%nat else 0%nat.

(** What is written into [out[n..end]]. *)
Definition aad_payload (request_kid request_piv class_i : list Z) : writer unit :=
  _ ← push 133;
  _ ← put_uint OSCORE_VERSION;
  _ ← push 129;
  _ ← put_uint (wrap 8 AEAD_AES_CCM_16_64_128);
  _ ← put_bstr request_kid;
  _ ← put_bstr request_piv;
  put_bstr class_i.

(** The length of the external array, in the order the fields are sized. *)
Definition aad_array_len (kid piv class_i : nat) : res OscoreError nat :=
  let array_len := (4 + b2n (23 <? OSCORE_VERSION)%Z + b2n (23 <? wrap 8 AEAD_AES_CCM_16_64_128)%Z)%nat in
  array_len ← aad_bstr_end array_len kid;
  array_len ← aad_bstr_end array_len piv;
  aad_bstr_end array_len class_i.

(** Run [m] on the sub-slice [out[n..end]], which it borrows, from its start. *)
Definition in_subslice (n stop : nat) (m : writer unit) : st (list Z) OscoreError unit := fun out =>
  match slice_idx (E:=OscoreError) out n stop with
  | Ok payload => match m (payload, 0%nat) with ((payload, _), r) => (splice out n payload, r) end
  | _ => (out, Panic)
  end.

(** [put_len(out, &mut n, ...)] on a cursor of its own. *)
Definition at_cursor (n : nat) (m : writer unit) : st (list Z) OscoreError nat := fun out =>
  match m (out, n) with ((out, n), r) => (out, _ ← r; mret n) end.

Definition encode_aad (request_kid request_piv class_i : list Z) : st (list Z) OscoreError nat :=
  array_len ← st_lift (aad_array_len (length request_kid) (length request_piv) (length class_i));
  out ← st_get;
  if (length out <? length ENC0_PREFIX)%nat then st_fail OBufferTooSmall
  else
    _ ← st_upd (copy_into 0 (length ENC0_PREFIX) ENC0_PREFIX);
    n ← at_cursor (length ENC0_PREFIX) (put_len 64 array_len);
    stop ← st_lift (ok_or (usize_checked_add n array_len) OBufferTooSmall);
    out ← st_get;
    if (length out <? stop)%nat then st_fail OBufferTooSmall
    else
      _ ← in_subslice n stop (aad_payload request_kid request_piv class_i);
      mret stop.

(** ** [Aad] and [hkdf_expand] *)
Record Aad : Type := mkAad { aad_bytes : list Z; aad_len : nat }.

Definition Aad_new (request_kid request_piv : list Z) : res OscoreError Aad :=
  match encode_aad request_kid request_piv [] (replicate 32 0) with
  | (bytes, r) => len ← r; mret (mkAad bytes len)
  end.

Definition Aad_as_bytes {E} (a : Aad) : res E (list Z) := slice_idx (aad_bytes a) 0 (aad_len a).

(** [hkdf salt ikm info n] is what [Hkdf::<Sha256>::new(Some(salt), ikm)] expands
    to [n] bytes, [None] the library's error. *)
Definition hkdf_expand (hkdf : list Z → list Z → list Z → nat → option (list Z))
    (master_secret master_salt id : list Z) (id_context : option (list Z)) (label : list Z)
    (out_len : nat) : res OscoreError (list Z) :=
  l ← ok_or (u_try_from_usize 8 out_len) ODerive;
  match encode_info id id_context label l (replicate 48 0) with
  | (info, r) =>
      n ← r;
      info ← slice_idx info 0 n;
      ok_or (hkdf master_salt master_secret info out_len) ODerive
  end.
End cbor.

(** ** What each function puts on the wire *)
Definition len_wire (major : Z) (n : nat) : list Z :=
  if (n <=? 23)%nat then [Z.lor major (Z.of_nat n)] else [Z.lor major 24; Z.of_nat n].
Definition str_wire (major : Z) (bs : list Z) : list Z := len_wire major (length bs) ++ bs.
Definition uint_wire (n : Z) : list Z := if n <=? 23 then [n] else [24; n].

Section emits.
Context `{Target}.

(** [m] appends [w] at the cursor when it fits and otherwise refuses. *)
Definition emits (m : writer unit) (w : list Z) : Prop :=
  ∀ out i, usize_ok (length out) → (i ≤ length out)%nat →
  if (length out <? i + length w)%nat
  then ∃ s, m (out, i) = (s, Err OBufferTooSmall)
  else m (out, i) = ((splice out i w, (i + length w)%nat), Ok tt).

Lemma push_emits (b : Z) : emits (push b) [b].
Proof.
  intros out i _ Hi. unfold push. simpl length.
  destruct (length out <=? i)%nat eqn:E; bools.
  - rewrite (proj2 (Nat.ltb_lt _ _)) by lia. eauto.
  - rewrite (proj2 (Nat.ltb_ge _ _)) by lia. rewrite set_idx_ok by done.
    by rewrite ?insert_splice by done.
Qed.

Lemma push_slice_emits (bs : list Z) : emits (push_slice bs) bs.
Proof.
  intros out i Ho Hi. unfold push_slice, usize_checked_add.
  destruct (length out <? i + length bs)%nat eqn:E; bools.
  - case_match eqn:Hc; [|by eauto]. destruct (_ <=? _); simplify_eq.
    rewrite (proj2 (Nat.ltb_lt _ _)) by lia. eauto.
  - unfold usize_ok in *. rewrite (proj2 (Z.leb_le _ _)) by lia.
    rewrite (proj2 (Nat.ltb_ge _ _)) by lia. by rewrite copy_into_ok by lia.
Qed.

Lemma seq_emits (m1 m2 : writer unit) (w1 w2 : list Z) :
  emits m1 w1 → emits m2 w2 → emits (_ ← m1; m2) (w1 ++ w2).
Proof.
  intros H1 H2 out i Ho Hi. specialize (H1 out i Ho Hi). rewrite length_app. unbind.
  destruct (length out <? i + length w1)%nat eqn:E1; bools.
  - destruct H1 as [s ->]. rewrite (proj2 (Nat.ltb_lt _ _)) by lia. by eauto.
  - rewrite H1. specialize (H2 (splice out i w1) (i + length w1)%nat).
    rewrite length_splice in H2 by lia. specialize (H2 Ho ltac:(lia)).
    rewrite Nat.add_assoc. destruct (length out <? i + length w1 + length w2)%nat eqn:E2; bools; [done|].
    rewrite H2. by rewrite (splice_splice out w1 w2 i).
Qed.

Lemma len_emits (major : Z) (n : nat) : (n ≤ 255)%nat → emits (put_len major n) (len_wire major n).
Proof.
  intros Hn. unfold put_len, len_wire. rewrite wrap_small by (unfold in_u; lia).
  destruct (n <=? 23)%nat eqn:E; [apply push_emits|]. rewrite (proj2 (Nat.leb_le _ _)) by lia.
  apply (seq_emits _ _ [_] [_]); apply push_emits.
Qed.

Lemma uint_emits (n : Z) : emits (put_uint n) (uint_wire n).
Proof.
  unfold put_uint, uint_wire. destruct (n <=? 23); [apply push_emits|].
  apply (seq_emits _ _ [_] [_]); apply push_emits.
Qed.

Lemma bstr_emits (bs : list Z) : (length bs ≤ 255)%nat → emits (put_bstr bs) (str_wire 64 bs).
Proof. intros Hl. apply seq_emits; [by apply len_emits|apply push_slice_emits]. Qed.

Lemma tstr_emits (bs : list Z) : (length bs ≤ 255)%nat → emits (put_tstr bs) (str_wire 96 bs).
Proof. intros Hl. apply seq_emits; [by apply len_emits|apply push_slice_emits]. Qed.

#[local] Hint Resolve push_emits uint_emits bstr_emits tstr_emits : coap.

(** The two bodies, as bytes. *)
Definition info_wire (id : list Z) (id_context : option (list Z)) (label : list Z) (l : Z) : list Z :=
  [133] ++ str_wire 64 id ++ match id_context with None => [246] | Some ctx => str_wire 64 ctx end ++
  uint_wire 10 ++ str_wire 96 label ++ uint_wire l.

Definition external_wire (kid piv class_i : list Z) : list Z :=
  [133] ++ uint_wire 1 ++ [129] ++ uint_wire 10 ++ str_wire 64 kid ++ str_wire 64 piv ++ str_wire 64 class_i.

Definition aad_wire (kid piv class_i : list Z) : list Z :=
  ENC0_PREFIX ++ str_wire 64 (external_wire kid piv class_i).

Lemma info_emits (id : list Z) (id_context : option (list Z)) (label : list Z) (l : Z) :
  (length id ≤ 255)%nat → (∀ ctx, id_context = Some ctx → (length ctx ≤ 255)%nat) →
  (length label ≤ 255)%nat →
  emits (info_body id id_context label l) (info_wire id id_context label l).
Proof.
  intros Hi Hc Hl. unfold info_body, info_wire.
  apply seq_emits; [auto with coap|]. apply seq_emits; [auto with coap|].
  apply seq_emits; [destruct id_context; [by apply bstr_emits, Hc|apply push_emits]|].
  apply seq_emits; [apply (uint_emits 10)|]. apply seq_emits; auto with coap.
Qed.

Lemma payload_emits (kid piv class_i : list Z) :
  (length kid ≤ 255)%nat → (length piv ≤ 255)%nat → (length class_i ≤ 255)%nat →
  emits (aad_payload kid piv class_i) (external_wire kid piv class_i).
Proof.
  intros. unfold aad_payload, external_wire. apply seq_emits; [auto with coap|].
  apply seq_emits; [apply (uint_emits 1)|]. apply seq_emits; [auto with coap|].
  apply seq_emits; [apply (uint_emits 10)|]. apply seq_emits; [auto with coap|]. apply seq_emits; auto with coap.
Qed.

Lemma length_str_wire (major : Z) (bs : list Z) :
  length (str_wire major bs) = ((if (length bs <=? 23)%nat then 1 else 2) + length bs)%nat.
Proof. unfold str_wire, len_wire. rewrite length_app. by destruct (_ <=? _)%nat. Qed.
End emits.

Section wire_inj.

(** A length header names one length. *)
Lemma len_wire_inj (major : Z) (n m : nat) (r r' : list Z) :
  major = 64 ∨ major = 96 → (n ≤ 255)%nat → (m ≤ 255)%nat →
  len_wire major n ++ r = len_wire major m ++ r' → n = m ∧ r = r'.
Proof.
  intros Hmaj Hn Hm. assert (∀ k, (k ≤ 24)%nat → Z.lor major (Z.of_nat k) = major + Z.of_nat k) as Hlor.
  { intros k Hk. destruct Hmaj as [Hj|Hj]; rewrite Hj; do 25 (destruct k as [|k]; [reflexivity|]); lia. }
  unfold len_wire. destruct (n <=? 23)%nat eqn:En, (m <=? 23)%nat eqn:Em; bools; simpl; intros Hw.
  - injection Hw as Hx Hr. rewrite !Hlor in Hx by lia. split; [lia|done].
  - injection Hw as Hx Hr. change 24 with (Z.of_nat 24) in Hx. rewrite !Hlor in Hx by lia. lia.
  - injection Hw as Hx Hr. change 24 with (Z.of_nat 24) in Hx. rewrite !Hlor in Hx by lia. lia.
  - injection Hw as Hx Hr. split; [lia|done].
Qed.

(** A string is read back whatever follows it. *)
Lemma str_wire_inj (major : Z) (a b r r' : list Z) :
  major = 64 ∨ major = 96 → (length a ≤ 255)%nat → (length b ≤ 255)%nat →
  str_wire major a ++ r = str_wire major b ++ r' → a = b ∧ r = r'.
Proof.
  intros Hmaj Ha Hb. unfold str_wire. rewrite <- !app_assoc. intros [Hl Hw]%len_wire_inj; [|done..].
  by apply app_inj_1 in Hw.
Qed.

Lemma external_wire_inj (kid kid' piv piv' class_i class_i' : list Z) :
  (length kid ≤ 255)%nat → (length kid' ≤ 255)%nat → (length piv ≤ 255)%nat → (length piv' ≤ 255)%nat →
  (length class_i ≤ 255)%nat → (length class_i' ≤ 255)%nat →
  external_wire kid piv class_i = external_wire kid' piv' class_i' →
  kid = kid' ∧ piv = piv' ∧ class_i = class_i'.
Proof.
  intros. unfold external_wire in *. simplify_list_eq.
  match goal with H : _ = _ |- _ => apply str_wire_inj in H as [-> H]; [|auto..];
    apply str_wire_inj in H as [-> H]; [|auto..] end.
  match goal with H : _ = _ |- _ =>
    rewrite <- (app_nil_r (str_wire 64 class_i)), <- (app_nil_r (str_wire 64 class_i')) in H;
    by apply str_wire_inj in H as [-> _]; [|auto..] end.
Qed.
End wire_inj.

Section aad.
Context `{Target}.

Lemma usize_add_small (a b : nat) : (a + b ≤ 1000)%nat → usize_checked_add a b = Some (a + b)%nat.
Proof. intros Hs. unfold usize_checked_add. pose proof usize_max_ge. by rewrite (proj2 (Z.leb_le _ _)) by lia. Qed.

(** The size of one field after [i] bytes of the array. *)
Lemma aad_bstr_end_ok (i : nat) (bs : list Z) :
  (i ≤ 48)%nat →
  aad_bstr_end i (length bs) =
    if (255 <? length bs)%nat then Err OId
    else if (48 <? i + length (str_wire 64 bs))%nat then Err OBufferTooSmall
    else Ok (i + length (str_wire 64 bs))%nat.
Proof.
  intros Hi. unfold aad_bstr_end. rewrite length_str_wire. destruct (255 <? length bs)%nat eqn:E; bools.
  { by rewrite !(proj2 (Nat.leb_gt _ _)) by lia. }
  rewrite (proj2 (Nat.leb_le _ 255)) by lia. destruct (length bs <=? 23)%nat; unbind;
    rewrite usize_add_small by lia; cbn [mbind option_bind]; rewrite usize_add_small by lia; unfold ok_or; cbn iota;
    rewrite <- Nat.add_assoc; done.
Qed.

Lemma length_external_wire (kid piv class_i : list Z) :
  length (external_wire kid piv class_i) =
    (4 + length (str_wire 64 kid) + length (str_wire 64 piv) + length (str_wire 64 class_i))%nat.
Proof. unfold external_wire. rewrite !length_app. change (length (uint_wire 1)) with 1%nat.
  change (length (uint_wire 10)) with 1%nat. simpl. lia. Qed.

(** The sizing pass agrees with the array that is written. *)
Lemma aad_array_len_ok (kid piv class_i : list Z) :
  (length (external_wire kid piv class_i) ≤ 48)%nat →
  aad_array_len (length kid) (length piv) (length class_i) = Ok (length (external_wire kid piv class_i)).
Proof.
  rewrite length_external_wire. intros Hl. unfold aad_array_len. cbn [b2n].
  change (4 + b2n (23 <? OSCORE_VERSION)%Z + b2n (23 <? wrap 8 AEAD_AES_CCM_16_64_128)%Z)%nat with 4%nat.
  pose proof (length_str_wire 64 kid). pose proof (length_str_wire 64 piv). pose proof (length_str_wire 64 class_i).
  rewrite aad_bstr_end_ok, (proj2 (Nat.ltb_ge _ _)), (proj2 (Nat.ltb_ge _ _)) by (repeat case_match; lia). unbind.
  rewrite aad_bstr_end_ok, (proj2 (Nat.ltb_ge _ _)), (proj2 (Nat.ltb_ge _ _)) by (repeat case_match; lia). unbind.
  by rewrite aad_bstr_end_ok, (proj2 (Nat.ltb_ge _ _)), (proj2 (Nat.ltb_ge _ _)) by (repeat case_match; lia).
Qed.

Lemma at_cursor_emits (m : writer unit) (w out : list Z) (i : nat) :
  emits m w → usize_ok (length out) → (i + length w ≤ length out)%nat →
  at_cursor i m out = (splice out i w, Ok (i + length w)%nat).
Proof.
  intros Hm Ho Hl. unfold at_cursor. specialize (Hm out i Ho ltac:(lia)).
  rewrite (proj2 (Nat.ltb_ge _ _)) in Hm by lia. by rewrite Hm.
Qed.

Lemma in_subslice_emits (m : writer unit) (w out : list Z) (n : nat) :
  emits m w → usize_ok (length out) → (n + length w ≤ length out)%nat →
  in_subslice n (n + length w) m out = (splice out n w, Ok tt).
Proof.
  intros Hm Ho Hl. unfold in_subslice, slice_idx.
  assert (slice_get out n (n + length w) = Some (take (length w) (drop n out))) as ->.
  { apply slice_get_Some. split; [lia|]. f_equal. lia. }
  set (p := take (length w) (drop n out)).
  assert (length p = length w) as Hp by (unfold p; rewrite length_take, length_drop; lia).
  specialize (Hm p 0%nat). unfold usize_ok in *. specialize (Hm ltac:(lia) ltac:(lia)).
  rewrite (proj2 (Nat.ltb_ge _ _)) in Hm by lia. rewrite Hm. do 2 f_equal.
  unfold splice at 1. simpl. rewrite drop_ge by lia. apply app_nil_r.
Qed.

Lemma encode_aad_ok (kid piv class_i out : list Z) :
  (length (external_wire kid piv class_i) ≤ 48)%nat → usize_ok (length out) →
  (length (aad_wire kid piv class_i) ≤ length out)%nat →
  encode_aad kid piv class_i out =
    (splice out 0 (aad_wire kid piv class_i), Ok (length (aad_wire kid piv class_i))).
Proof.
  intros Hx Ho Hl. pose proof (aad_array_len_ok _ _ _ Hx) as Ha. revert Hl. unfold aad_wire, str_wire.
  rewrite length_external_wire in Hx. rewrite !length_str_wire in Hx.
  assert (emits (aad_payload kid piv class_i) (external_wire kid piv class_i)) as Hp
    by (apply payload_emits; repeat case_match; lia).
  set (x := external_wire kid piv class_i) in *.
  assert (length x ≤ 48)%nat as Hx' by (unfold x; rewrite length_external_wire, !length_str_wire; lia).
  pose proof (len_emits 64 (length x) ltac:(lia)) as Hh. set (h := len_wire 64 (length x)) in *.
  rewrite !length_app. intros Hl. unfold encode_aad. rewrite Ha. unbind.
  rewrite (proj2 (Nat.ltb_ge _ _)) by lia. rewrite copy_into_ok by (simpl in *; lia).
  assert (length (splice out 0 ENC0_PREFIX) = length out) as Hs by (rewrite length_splice; lia).
  rewrite (at_cursor_emits _ h) by (rewrite ?Hs; done || lia).
  assert (length h ≤ 2)%nat by (unfold h, len_wire; destruct (length x <=? 23)%nat; cbn [length]; lia).
  pose proof (eq_refl : length ENC0_PREFIX = 11%nat).
  rewrite usize_add_small by lia. unfold ok_or. cbn iota.
  rewrite (splice_splice _ _ h) by (simpl; lia).
  assert (length (splice out 0 (ENC0_PREFIX ++ h)) = length out) as Hs' by (rewrite length_splice; rewrite ?length_app; lia).
  rewrite Hs', (proj2 (Nat.ltb_ge _ _)) by lia.
  rewrite (in_subslice_emits _ x) by (rewrite ?Hs'; done || lia).
  rewrite splice_splice by (rewrite ?length_app; lia). by rewrite <- !app_assoc, !Nat.add_assoc.
Qed.

Lemma aad_new_ok (kid piv : list Z) :
  (length kid ≤ MAX_ID_LEN)%nat → (length piv ≤ MAX_PIV_LEN)%nat →
  ∃ a, Aad_new kid piv = Ok a ∧ Aad_as_bytes (E:=OscoreError) a = Ok (aad_wire kid piv []) ∧
       length (aad_wire kid piv []) = (19 + length kid + length piv)%nat.
Proof.
  unfold MAX_ID_LEN, MAX_PIV_LEN. intros Hk Hp.
  assert (length (external_wire kid piv []) = 7 + length kid + length piv)%nat as Hx.
  { rewrite length_external_wire, !length_str_wire. rewrite !(proj2 (Nat.leb_le _ 23)) by (simpl; lia). simpl; lia. }
  assert (length (aad_wire kid piv []) = 19 + length kid + length piv)%nat as Hw.
  { unfold aad_wire. rewrite length_app, length_str_wire, Hx, (proj2 (Nat.leb_le _ 23)) by lia. simpl. lia. }
  pose proof usize_max_ge. unfold Aad_new.
  rewrite encode_aad_ok; rewrite ?length_replicate; unfold usize_ok; try lia. unbind. eexists. split; [done|].
  unfold Aad_as_bytes. cbn [aad_bytes aad_len]. rewrite slice_prefix.
  - split; [|done]. f_equal. unfold splice. rewrite take_0, app_nil_l. apply take_app_length.
  - rewrite length_splice; rewrite length_replicate; lia.
Qed.

Lemma aad_wire_inj (kid kid' piv piv' : list Z) :
  (length kid ≤ MAX_ID_LEN)%nat → (length kid' ≤ MAX_ID_LEN)%nat →
  (length piv ≤ MAX_PIV_LEN)%nat → (length piv' ≤ MAX_PIV_LEN)%nat →
  aad_wire kid piv [] = aad_wire kid' piv' [] → kid = kid' ∧ piv = piv'.
Proof.
  unfold MAX_ID_LEN, MAX_PIV_LEN. intros Hk Hk' Hp Hp' Hw. unfold aad_wire in Hw. apply app_inv_head in Hw.
  rewrite <- (app_nil_r (str_wire 64 (external_wire kid _ _))), <- (app_nil_r (str_wire 64 (external_wire kid' _ _))) in Hw.
  apply str_wire_inj in Hw as [Hw _]; [|by left|..].
  - apply external_wire_inj in Hw as (-> & -> & _); simpl; done || lia.
  - rewrite length_external_wire, !length_str_wire. repeat case_match; simpl; lia.
  - rewrite length_external_wire, !length_str_wire. repeat case_match; simpl; lia.
Qed.

(** The authenticated data of a request with a legal [kid] and Partial IV is
    always built in its 32-byte array, is exactly the RFC 8613
    [Enc_structure], and two of them agree exactly when both the [kid] and the
    Partial IV do: a response is bound to one request. *)
Theorem aad_binds_request (kid kid' piv piv' : list Z) :
  (length kid ≤ MAX_ID_LEN)%nat → (length kid' ≤ MAX_ID_LEN)%nat →
  (length piv ≤ MAX_PIV_LEN)%nat → (length piv' ≤ MAX_PIV_LEN)%nat →
  ∃ a a', Aad_new kid piv = Ok a ∧ Aad_new kid' piv' = Ok a' ∧
    Aad_as_bytes (E:=OscoreError) a = Ok (aad_wire kid piv []) ∧
    aad_len a = (19 + length kid + length piv)%nat ∧
    (Aad_as_bytes (E:=OscoreError) a = Aad_as_bytes a' ↔ kid = kid' ∧ piv = piv').
Proof.
  intros Hk Hk' Hp Hp'. destruct (aad_new_ok kid piv Hk Hp) as (a & Ha & Hb & Hl).
  destruct (aad_new_ok kid' piv' Hk' Hp') as (a' & Ha' & Hb' & _).
  exists a, a'. split_and!; [done..| |].
  - unfold Aad_as_bytes, slice_idx in Hb. destruct (slice_get _ _ _) as [w|] eqn:Hs; [|done].
    assert (w = aad_wire kid piv []) as -> by congruence. apply slice_get_length in Hs. lia.
  - rewrite Hb, Hb'. split; [intros Hw; apply aad_wire_inj; [done..|]; congruence|]. intros [-> ->]. congruence.
Qed.
End aad.

(** Witness: two requests of one endpoint. *)
Lemma aad_binds_request_witness :
  ∃ a a', Aad_new (H:=target64) [1] [20] = Ok a ∧ Aad_new (H:=target64) [1] [21] = Ok a' ∧
    Aad_as_bytes (E:=OscoreError) a ≠ Aad_as_bytes a'.
Proof.
  destruct (aad_binds_request (H:=target64) [1] [1] [20] [21]) as (a & a' & Ha & Ha' & _ & _ & Hb);
    [by apply Nat.leb_le..|].
  exists a, a'. split; [done|]. split; [done|]. intros Heq. by apply Hb in Heq as [_ Heq].
Defined.

Section info.
Context `{Target}.
Context (hkdf : list Z → list Z → list Z → nat → option (list Z)).

(** The key derivation hands exactly the RFC 8613 [info] array to HKDF. *)
Lemma hkdf_expand_ok (secret salt id : list Z) (ctx : option (list Z)) (label : list Z) (n : nat) :
  (length id ≤ MAX_ID_LEN)%nat → (∀ c, ctx = Some c → (length c ≤ MAX_ID_CONTEXT_LEN)%nat) →
  (length label ≤ 3)%nat → (n ≤ 23)%nat →
  hkdf_expand hkdf secret salt id ctx label n =
    ok_or (hkdf salt secret (info_wire id ctx label (Z.of_nat n)) n) ODerive.
Proof.
  unfold MAX_ID_LEN, MAX_ID_CONTEXT_LEN. intros Hi Hc Hl Hn. unfold hkdf_expand, u_try_from_usize.
  change (max_u 8) with 255. rewrite (proj2 (Z.leb_le _ _)) by lia. unfold ok_or. unbind. unfold encode_info.
  assert (length (info_wire id ctx label (Z.of_nat n)) ≤ 48)%nat as Hw.
  { unfold info_wire, uint_wire. rewrite !length_app, !length_str_wire.
    rewrite (proj2 (Nat.leb_le (length id) _)), (proj2 (Nat.leb_le (length label) _)), (proj2 (Z.leb_le (Z.of_nat n) _)) by lia.
    destruct ctx as [c|]; [rewrite length_str_wire; specialize (Hc c eq_refl); case_match|]; simpl; lia. }
  assert (emits (info_body id ctx label (Z.of_nat n)) (info_wire id ctx label (Z.of_nat n))) as He.
  { apply info_emits; [lia| |lia]. intros c Hcc. specialize (Hc c Hcc). lia. }
  specialize (He (replicate 48 0) 0%nat). rewrite length_replicate in He. pose proof usize_max_ge.
  specialize (He ltac:(unfold usize_ok; lia) ltac:(lia)). rewrite (proj2 (Nat.ltb_ge _ _)) in He by lia.
  rewrite He. unbind. rewrite slice_prefix by (rewrite length_splice; rewrite ?length_replicate; lia).
  assert (take (0 + length (info_wire id ctx label (Z.of_nat n)))
    (splice (replicate 48 0) 0 (info_wire id ctx label (Z.of_nat n))) = info_wire id ctx label (Z.of_nat n)) as ->; [|done].
  unfold splice. rewrite take_0, app_nil_l. apply take_app_length.
Qed.

(** Two derivations in one context share their [info] only if they are for the
    same identifier and the same purpose. *)
Lemma info_wire_inj (id id' : list Z) (ctx : option (list Z)) (label label' : list Z) (l l' : Z) :
  (length id ≤ MAX_ID_LEN)%nat → (length id' ≤ MAX_ID_LEN)%nat →
  (length label ≤ 3)%nat → (length label' ≤ 3)%nat →
  info_wire id ctx label l = info_wire id' ctx label' l' → id = id' ∧ label = label'.
Proof.
  unfold MAX_ID_LEN. intros Hi Hi' Hl Hl' Hw. unfold info_wire in Hw. apply app_inv_head in Hw.
  apply str_wire_inj in Hw as [-> Hw]; [|by left|lia..]. apply app_inv_head, app_inv_head in Hw.
  apply str_wire_inj in Hw as [-> _]; [|by right|lia..]. done.
Qed.
End info.
