(* ===== verification/OscoreContext.v ===== *)
(** * The OSCORE security context

    [src/oscore/context.rs]: derivation, the Sender Sequence Number with its
    durable reservations, the recipient replay window with its checkpoints, and
    the table of live request bindings.  HKDF and the persistence callback are
    arguments.  Tokens are any type with decidable equality. *)
From S2P Require Import Prelude OscoreHeader OscoreCbor.

Definition KEY_LEN : nat := 16.
Definition REPLAY_WINDOW : Z := 32.
Definition LIVE_REQUESTS : nat := 4.

(** [1u64 << 40], the exhausted sentinel. *)
Definition SEQ_END : Z := 2 ^ 40.
Definition U64_MAX : Z := 2 ^ 64 - 1.

Definition leading_zeros32 (x : Z) : Z := if x =? 0 then 32 else 31 - Z.log2 x.

(** ** Replay checkpoints *)
Record ReplayCheckpoint : Type := mkCheckpoint { ck_left : Z; ck_received : Z }.

Definition from_parts (left received : Z) : res OscoreError ReplayCheckpoint :=
  if (SEQ_END <? left)
     || (negb (received =? 0)
         && ((left =? SEQ_END) || (SEQ_END - left <=? 31 - leading_zeros32 received)))
  then Err OReplayState
  else Ok (mkCheckpoint left received).

Definition parts (c : ReplayCheckpoint) : Z * Z := (ck_left c, ck_received c).

(** [!x] of a [u32]. *)
Definition not32 (x : Z) : Z := Z.lxor x (2 ^ 32 - 1).

Definition validate_successor (self next : ReplayCheckpoint) : res OscoreError unit :=
  if ck_left next <? ck_left self then Err OReplayRollback
  else
    let shift := ck_left next - ck_left self in
    let retained := if REPLAY_WINDOW <=? shift then 0 else Z.shiftr (ck_received self) (wrap 32 shift) in
    if negb (Z.land retained (not32 (ck_received next)) =? 0) then Err OReplayRollback
    else Ok tt.

(** ** Identifiers and request references *)
Record Id : Type := mkId { id_bytes : list Z; id_len : Z }.

Definition Id_new (bytes : list Z) : res OscoreError Id :=
  if (MAX_ID_LEN <? length bytes)%nat then Err OId
  else
    bs ← copy_into 0 (length bytes) bytes (replicate MAX_ID_LEN 0);
    mret (mkId bs (wrap 8 (Z.of_nat (length bytes)))).

Definition Id_as_bytes {E} (i : Id) : res E (list Z) := slice_idx (id_bytes i) 0 (Z.to_nat (id_len i)).

Record RequestRef : Type := mkRequestRef { rr_kid : Id; rr_piv : PartialIv }.

Definition from_kid (kid : list Z) (piv : PartialIv) : res OscoreError RequestRef :=
  i ← Id_new kid;
  mret (mkRequestRef i piv).

Definition RequestRef_kid {E} (r : RequestRef) : res E (list Z) := Id_as_bytes (rr_kid r).

Record DeriveParams : Type := mkDeriveParams {
  dp_master_secret : list Z;
  dp_master_salt : list Z;
  dp_sender_id : list Z;
  dp_recipient_id : list Z;
  dp_id_context : list Z
}.

Inductive SenderReservationError (E : Type) : Type :=
  | RNotEnabled
  | RInvalidSize
  | RSequenceExhausted
  | RPersistence (e : E).
Arguments RNotEnabled {E}.
Arguments RInvalidSize {E}.
Arguments RSequenceExhausted {E}.
Arguments RPersistence {E} e.

Section context.
Context `{Target}.
Context {T : Type} `{!EqDecision T}.

Record LiveRequest : Type := mkLive {
  lr_token : T;
  lr_request : RequestRef;
  lr_observe : bool;
  lr_observe_request : option RequestRef;
  lr_response_no_piv : bool;
  lr_notify_no_piv : bool;
  lr_notify_number : option Z
}.

Record SecurityContext : Type := mkContext {
  sc_sender_id : Id;
  sc_recipient_id : Id;
  sc_id_context : list Z;
  sc_id_context_len : Z;
  sc_sender_key : list Z;
  sc_recipient_key : list Z;
  sc_common_iv : list Z;
  sc_sender_seq : Z;
  sc_sender_reserved_end : Z;
  sc_replay_left : Z;
  sc_replay_bits : Z;
  sc_live : list (option LiveRequest)
}.

(** Assignments to the mutable fields. *)
Definition set_sender (c : SecurityContext) (seq stop : Z) : SecurityContext :=
  mkContext (sc_sender_id c) (sc_recipient_id c) (sc_id_context c) (sc_id_context_len c)
    (sc_sender_key c) (sc_recipient_key c) (sc_common_iv c) seq stop
    (sc_replay_left c) (sc_replay_bits c) (sc_live c).
Definition set_replay (c : SecurityContext) (left bits : Z) : SecurityContext :=
  mkContext (sc_sender_id c) (sc_recipient_id c) (sc_id_context c) (sc_id_context_len c)
    (sc_sender_key c) (sc_recipient_key c) (sc_common_iv c) (sc_sender_seq c) (sc_sender_reserved_end c)
    left bits (sc_live c).
Definition set_live (c : SecurityContext) (live : list (option LiveRequest)) : SecurityContext :=
  mkContext (sc_sender_id c) (sc_recipient_id c) (sc_id_context c) (sc_id_context_len c)
    (sc_sender_key c) (sc_recipient_key c) (sc_common_iv c) (sc_sender_seq c) (sc_sender_reserved_end c)
    (sc_replay_left c) (sc_replay_bits c) live.

(** ** Derivation *)
Definition LABEL_KEY : list Z := [75; 101; 121].
Definition LABEL_IV : list Z := [73; 86].

Definition derive (hkdf : list Z → list Z → list Z → nat → option (list Z)) (REQUESTS : nat)
    (params : DeriveParams) : res OscoreError SecurityContext :=
  let secret := dp_master_secret params in
  let salt := dp_master_salt params in
  if (length secret =? 0)%nat || (64 <? length secret)%nat then Err OMasterSecret
  else if (64 <? length salt)%nat then Err OMasterSalt
  else if (MAX_ID_CONTEXT_LEN <? length (dp_id_context params))%nat then Err OId
  else
    sender_id ← Id_new (dp_sender_id params);
    recipient_id ← Id_new (dp_recipient_id params);
    sid ← Id_as_bytes sender_id;
    rid ← Id_as_bytes recipient_id;
    if eqb sid rid then Err OIdCollision
    else
      let id_context := if (length (dp_id_context params) =? 0)%nat then None else Some (dp_id_context params) in
      sender_key ← hkdf_expand hkdf secret salt sid id_context LABEL_KEY KEY_LEN;
      recipient_key ← hkdf_expand hkdf secret salt rid id_context LABEL_KEY KEY_LEN;
      common_iv ← hkdf_expand hkdf secret salt [] id_context LABEL_IV NONCE_LEN;
      stored_ctx ← copy_into 0 (length (dp_id_context params)) (dp_id_context params)
                     (replicate MAX_ID_CONTEXT_LEN 0);
      mret (mkContext sender_id recipient_id stored_ctx (wrap 8 (Z.of_nat (length (dp_id_context params))))
              sender_key recipient_key common_iv 0 U64_MAX 0 0 (replicate REQUESTS None)).

Definition id_context {E} (c : SecurityContext) : res E (list Z) :=
  slice_idx (sc_id_context c) 0 (Z.to_nat (sc_id_context_len c)).

Definition matches_recipient {E} (c : SecurityContext) (kid kid_context : option (list Z)) : res E bool :=
  let kid := default [] kid in
  rid ← Id_as_bytes (sc_recipient_id c);
  if negb (eqb kid rid) then mret false
  else
    match kid_context with
    | None => mret (sc_id_context_len c =? 0)
    | Some ctx => own ← id_context c; mret (eqb ctx own)
    end.

(** ** Sender Sequence Numbers *)
Definition ctx_st (A : Type) : Type := st SecurityContext OscoreError A.

Definition set_sender_seq (seq : Z) : ctx_st unit :=
  c ← st_get;
  if seq <? sc_sender_seq c then st_fail OSequenceRollback
  else if SEQ_END <? seq then st_fail OSequenceExhausted
  else st_put (set_sender c seq (sc_sender_reserved_end c)).

Definition restore_sender_reservation (exclusive_end : Z) : ctx_st unit :=
  c ← st_get;
  if (exclusive_end <? sc_sender_seq c)
     || (negb (sc_sender_reserved_end c =? U64_MAX) && (exclusive_end <? sc_sender_reserved_end c))
  then st_fail OSequenceRollback
  else if SEQ_END <? exclusive_end then st_fail OSequenceExhausted
  else st_put (set_sender c exclusive_end exclusive_end).

Definition sender_reservation_end (c : SecurityContext) : option Z :=
  if sc_sender_reserved_end c =? U64_MAX then None else Some (sc_sender_reserved_end c).

(** The new bound a reservation asks storage for. *)
Definition reservation_bound (c : SecurityContext) (stop additional : Z) : option Z :=
  stop ← checked_add 64 (Z.max stop (sc_sender_seq c)) additional;
  if stop <=? SEQ_END then Some stop else None.

(** [persist] acts on the caller's storage [W], which it may change on both
    outcomes. *)
Definition reserve_sender_sequences {W E : Type} (additional : Z) (persist : Z → W → W * res E unit)
    : st (SecurityContext * W) (SenderReservationError E) Z := fun '(c, w) =>
  match sender_reservation_end c with
  | None => ((c, w), Err RNotEnabled)
  | Some stop =>
      if additional =? 0 then ((c, w), Err RInvalidSize)
      else
        match reservation_bound c stop additional with
        | None => ((c, w), Err RSequenceExhausted)
        | Some stop =>
            match persist stop w with
            | (w, Ok _) => ((set_sender c (sc_sender_seq c) stop, w), Ok stop)
            | (w, Err e) => ((c, w), Err (RPersistence e))
            | (w, Panic) => ((c, w), Panic)
            | (w, Diverge) => ((c, w), Diverge)
            end
        end
  end.

Definition take_sender_piv : ctx_st PartialIv :=
  c ← st_get;
  if SEQ_END <=? sc_sender_seq c then st_fail OSequenceExhausted
  else if sc_sender_reserved_end c <=? sc_sender_seq c then st_fail OSequenceUnreserved
  else
    piv ← st_lift (PartialIv_from_seq (sc_sender_seq c));
    next ← st_lift (match checked_add 64 (sc_sender_seq c) 1 with Some n => Ok n | None => Panic end);
    _ ← st_put (set_sender c next (sc_sender_reserved_end c));
    mret piv.

Definition request_ref (c : SecurityContext) (piv : PartialIv) : RequestRef := mkRequestRef (sc_sender_id c) piv.

Definition request_nonce {E} (c : SecurityContext) (piv : PartialIv) : res E (list Z) :=
  sid ← Id_as_bytes (sc_sender_id c);
  nonce (sc_common_iv c) sid piv.

Definition recipient_nonce {E} (c : SecurityContext) (piv : PartialIv) : res E (list Z) :=
  rid ← Id_as_bytes (sc_recipient_id c);
  nonce (sc_common_iv c) rid piv.

(** ** The replay window *)
Definition replay_checkpoint (c : SecurityContext) : ReplayCheckpoint :=
  mkCheckpoint (sc_replay_left c) (sc_replay_bits c).

Definition restore_replay (ck : ReplayCheckpoint) : ctx_st unit :=
  c ← st_get;
  _ ← st_lift (validate_successor (replay_checkpoint c) ck);
  st_put (set_replay c (ck_left ck) (ck_received ck)).

Definition replay_fresh (c : SecurityContext) (seq : Z) : bool :=
  if (SEQ_END <=? seq) || (seq <? sc_replay_left c) then false
  else
    let delta := seq - sc_replay_left c in
    if REPLAY_WINDOW <=? delta then true
    else
      let bit := shl 32 1 (wrap 32 delta) in
      Z.land (sc_replay_bits c) bit =? 0.

Definition replay_accept (c : SecurityContext) (seq : Z) : SecurityContext :=
  if (SEQ_END <=? seq) || (seq <? sc_replay_left c) then c
  else
    let delta := seq - sc_replay_left c in
    if REPLAY_WINDOW <=? delta then
      let shift := delta - (REPLAY_WINDOW - 1) in
      let bits := if 32 <=? shift then 0 else Z.shiftr (sc_replay_bits c) (wrap 32 shift) in
      let bit := shl 32 1 (wrap 32 (REPLAY_WINDOW - 1)) in
      set_replay c (seq - (REPLAY_WINDOW - 1)) (Z.lor bits bit)
    else set_replay c (sc_replay_left c) (Z.lor (sc_replay_bits c) (shl 32 1 (wrap 32 delta))).

(** ** Live request bindings *)
Definition row_has (token : T) (row : option LiveRequest) : bool :=
  match row with Some r => eqb (lr_token r) token | None => false end.

Definition find_row (token : T) (c : SecurityContext) : option LiveRequest :=
  find_map (fun row => r ← row; if eqb (lr_token r) token then Some r else None) (sc_live c).

Definition is_none_row (row : option LiveRequest) : bool :=
  match row with None => true | Some _ => false end.

Definition has_live_requests (c : SecurityContext) : bool :=
  existsb (fun row => negb (is_none_row row)) (sc_live c).

Definition remember_live (token : T) (request : RequestRef) (observe : bool) : ctx_st unit :=
  let binding := mkLive token request observe (if observe then Some request else None) false false None in
  c ← st_get;
  match position (row_has token) (sc_live c) with
  | Some i => st_put (set_live c (<[i := Some binding]> (sc_live c)))
  | None =>
      match position is_none_row (sc_live c) with
      | Some i => st_put (set_live c (<[i := Some binding]> (sc_live c)))
      | None => st_fail OSaturated
      end
  end.

Definition remember (token : T) (request : RequestRef) : ctx_st unit := remember_live token request false.

(** Replace the first row that satisfies [p] by [f] of it. *)
Definition update_row (p : LiveRequest → bool) (f : LiveRequest → LiveRequest)
    (live : list (option LiveRequest)) : option (list (option LiveRequest)) :=
  i ← position (fun row => match row with Some r => p r | None => false end) live;
  row ← live !! i;
  r ← row;
  Some (<[i := Some (f r)]> live).

Definition with_download (request : RequestRef) (r : LiveRequest) : LiveRequest :=
  mkLive (lr_token r) request (lr_observe r) (lr_observe_request r) false
    (lr_notify_no_piv r) (lr_notify_number r).
Definition with_response_no_piv (r : LiveRequest) : LiveRequest :=
  mkLive (lr_token r) (lr_request r) (lr_observe r) (lr_observe_request r) true
    (lr_notify_no_piv r) (lr_notify_number r).
Definition with_notify_no_piv (r : LiveRequest) : LiveRequest :=
  mkLive (lr_token r) (lr_request r) (lr_observe r) (lr_observe_request r) (lr_response_no_piv r)
    true (lr_notify_number r).
Definition with_notify_number (n : Z) (r : LiveRequest) : LiveRequest :=
  mkLive (lr_token r) (lr_request r) (lr_observe r) (lr_observe_request r) (lr_response_no_piv r)
    (lr_notify_no_piv r) (Some n).

Definition remember_download (token : T) (request : RequestRef) : ctx_st unit :=
  c ← st_get;
  match update_row (fun r => eqb (lr_token r) token && lr_observe r) (with_download request) (sc_live c) with
  | Some live => st_put (set_live c live)
  | None => remember token request
  end.

Definition observe_request (c : SecurityContext) (token : T) : option RequestRef :=
  r ← find_row token c;
  lr_observe_request r.

Definition response_without_piv_fresh (c : SecurityContext) (token : T) : res OscoreError unit :=
  row ← ok_or (find_row token c) OContext;
  if lr_response_no_piv row then Err OReplay else Ok tt.

Definition accept_response_without_piv (token : T) : ctx_st unit :=
  c ← st_get;
  _ ← st_lift (response_without_piv_fresh c token);
  match update_row (fun r => eqb (lr_token r) token) with_response_no_piv (sc_live c) with
  | Some live => st_put (set_live c live)
  | None => st_fail OContext
  end.

Definition lookup_request (c : SecurityContext) (token : T) : option RequestRef :=
  find_map (fun row => r ← row; if eqb (lr_token r) token then Some (lr_request r) else None) (sc_live c).

Definition is_observe (c : SecurityContext) (token : T) : bool :=
  existsb (fun row => match row with Some r => eqb (lr_token r) token && lr_observe r | None => false end)
    (sc_live c).

Definition take_request (token : T) (c : SecurityContext) : SecurityContext * option RequestRef :=
  match position (row_has token) (sc_live c) with
  | Some i =>
      (set_live c (<[i := None]> (sc_live c)), row ← sc_live c !! i; r ← row; Some (lr_request r))
  | None => (c, None)
  end.

Definition notification_fresh (c : SecurityContext) (token : T) (piv : option PartialIv)
    : res OscoreError unit :=
  row ← ok_or (find_row token c) OContext;
  stale ← match piv with
          | None => mret (lr_notify_no_piv row)
          | Some piv =>
              match lr_notify_number row with
              | Some n => s ← PartialIv_seq piv; mret (s <=? n)
              | None => mret false
              end
          end;
  if stale : bool then Err OReplay else Ok tt.

Definition accept_notification (token : T) (piv : option PartialIv) : ctx_st unit :=
  c ← st_get;
  _ ← st_lift (notification_fresh c token piv);
  f ← st_lift (match piv with
               | None => mret with_notify_no_piv
               | Some piv => s ← PartialIv_seq piv; mret (with_notify_number s)
               end);
  match update_row (fun r => eqb (lr_token r) token) f (sc_live c) with
  | Some live => st_put (set_live c live)
  | None => st_fail OContext
  end.

Definition request_capacity (c : SecurityContext) : nat := length (sc_live c).
End context.
Arguments LiveRequest : clear implicits.
Arguments SecurityContext : clear implicits.

(** Move a context without bindings to another token type. *)
Definition into_token_storage {T K : Type} (c : SecurityContext T) : res OscoreError (SecurityContext K) :=
  if has_live_requests c then Err OContext
  else Ok (mkContext (sc_sender_id c) (sc_recipient_id c) (sc_id_context c) (sc_id_context_len c)
             (sc_sender_key c) (sc_recipient_key c) (sc_common_iv c) (sc_sender_seq c)
             (sc_sender_reserved_end c) (sc_replay_left c) (sc_replay_bits c)
             (replicate (length (sc_live c)) None)).

(** ** The replay window is exact *)
Lemma bit_shl (d : Z) : 0 ≤ d < 32 → shl 32 1 (wrap 32 d) = 2 ^ d.
Proof.
  intros Hd. unfold shl. rewrite (wrap_small 32 d) by (unfold in_u; lia). rewrite Z.shiftl_1_l.
  apply wrap_small. split; [lia|]. apply Z.pow_lt_mono_r; lia.
Qed.

Lemma land_bit (x d : Z) : 0 ≤ d → (Z.land x (2 ^ d) =? 0) = negb (Z.testbit x d).
Proof.
  intros Hd. destruct (Z.testbit x d) eqn:E; simpl.
  - apply Z.eqb_neq. intros H0. apply (f_equal (fun z => Z.testbit z d)) in H0.
    rewrite Z.land_spec, E, Z.pow2_bits_true, Z.bits_0 in H0 by done. done.
  - apply Z.eqb_eq, Z.bits_inj'. intros n Hn. rewrite Z.land_spec, Z.bits_0, Z.pow2_bits_eqb by done.
    destruct (Z.eqb_spec d n); [subst; by rewrite E|apply andb_false_r].
Qed.

Lemma lor_bit (x d i : Z) : 0 ≤ d → Z.testbit (Z.lor x (2 ^ d)) i = true ↔ Z.testbit x i = true ∨ i = d.
Proof.
  intros Hd. rewrite Z.lor_spec, orb_true_iff, Z.pow2_bits_eqb, Z.eqb_eq by done. intuition congruence.
Qed.

(** The largest of a list of sequence numbers. *)
Definition top (l : list Z) : Z := foldr Z.max 0 l.

Lemma top_snoc (l : list Z) (s : Z) : 0 ≤ s → top (l ++ [s]) = Z.max (top l) s.
Proof. intros Hs. unfold top. induction l as [|x l IH]; simpl; lia. Qed.

Lemma top_bound (l : list Z) (x : Z) : x ∈ l → x ≤ top l.
Proof. unfold top. induction 1; simpl; lia. Qed.

Lemma top_nonneg (l : list Z) : 0 ≤ top l.
Proof. unfold top. induction l; simpl; lia. Qed.

Section replay.
Context {T : Type}.
Implicit Types (c : SecurityContext T) (l : list Z).

(** The window of a context that has received [l]. *)
Definition window_of c l : Prop :=
  sc_replay_left c = Z.max 0 (top l - 31) ∧
  ∀ i, 0 ≤ i → Z.testbit (sc_replay_bits c) i = true ↔ sc_replay_left c + i ∈ l.

Lemma window_fresh c l s :
  window_of c l → replay_fresh c s = true ↔ 0 ≤ s < SEQ_END ∧ top l - 31 ≤ s ∧ s ∉ l.
Proof.
  intros [Hl Hb]. unfold replay_fresh. pose proof (top_nonneg l) as H0.
  destruct ((SEQ_END <=? s) || (s <? sc_replay_left c)) eqn:E; bools.
  { split; [done|]. intros (? & ? & ?). destruct E; bools; lia. }
  unfold REPLAY_WINDOW. destruct (32 <=? s - sc_replay_left c) eqn:Ed; bools.
  { split; [|done]. intros _. split_and!; try lia. intros Hin%top_bound. lia. }
  rewrite bit_shl, land_bit, negb_true_iff, <- not_true_iff_false, Hb by lia.
  rewrite Zplus_minus. split; [intros; split_and!; done || lia|tauto].
Qed.

Lemma window_accept c l s :
  0 ≤ s < SEQ_END → window_of c l → window_of (replay_accept c s) (l ++ [s]).
Proof.
  intros Hs [Hl Hb]. unfold replay_accept. pose proof (top_nonneg l) as H0.
  rewrite (proj2 (Z.leb_gt _ _)) by lia. cbn [orb].
  unfold window_of. rewrite top_snoc by lia. setoid_rewrite elem_of_app. setoid_rewrite list_elem_of_singleton.
  destruct (s <? sc_replay_left c) eqn:E; bools.
  { split; [lia|]. intros i Hi. rewrite Hb by done. split; [by left|]. intros [?|?]; [done|lia]. }
  unfold REPLAY_WINDOW. destruct (32 <=? s - sc_replay_left c) eqn:Ed; bools; simpl.
  - split; [lia|]. intros i Hi. change (32 - 1) with 31. rewrite bit_shl, lor_bit by lia.
    assert (Z.testbit (if 32 <=? s - sc_replay_left c - 31 then 0
        else Z.shiftr (sc_replay_bits c) (wrap 32 (s - sc_replay_left c - 31))) i = true
      ↔ s - 31 + i ∈ l) as ->; [|by rewrite <- (Z.add_cancel_l i 31 (s - 31)); intuition lia].
    destruct (32 <=? _) eqn:E2; bools.
    + rewrite Z.bits_0. split; [done|]. intros Hin%top_bound. lia.
    + rewrite wrap_small by (unfold in_u; lia). rewrite Z.shiftr_spec, Hb by lia.
      by replace (sc_replay_left c + (i + (s - sc_replay_left c - 31))) with (s - 31 + i) by lia.
  - split; [lia|]. intros i Hi. rewrite bit_shl, lor_bit, Hb by lia. intuition lia.
Qed.

Lemma window_foldl c l :
  Forall (in_u 64) l → sc_replay_left c = 0 → sc_replay_bits c = 0 →
  window_of (foldl replay_accept c l) (filter (fun x => x < SEQ_END) l).
Proof.
  intros Hl Hc Hb. induction l as [|s l IH] using rev_ind.
  { split; [done|]. intros i _. simpl. rewrite Hb, Z.bits_0. split; [done|]. by intros ?%elem_of_nil. }
  apply Forall_app in Hl as [Hl Hx]. specialize (IH Hl). inversion_clear Hx as [|? ? [Hs _] _].
  rewrite foldl_app. simpl. rewrite filter_app, filter_cons, filter_nil. case_decide as Hd.
  - by apply window_accept.
  - rewrite app_nil_r. unfold replay_accept. by rewrite (proj2 (Z.leb_le _ _)) by lia.
Qed.

(** C21: whatever sequence numbers arrived before and in whatever order, the
    replay window of a fresh context accepts exactly the 40-bit numbers it has not
    received and that are at most 31 below the largest one received: no
    number is ever accepted twice and none inside the window is lost. *)
Theorem replay_window_exact c l s :
  sc_replay_left c = 0 → sc_replay_bits c = 0 → Forall (in_u 64) l → in_u 64 s →
  replay_fresh (foldl replay_accept c l) s = true ↔
    s < SEQ_END ∧ (s ∉ l) ∧ top (filter (fun x => x < SEQ_END) l) - 31 ≤ s.
Proof.
  intros Hc Hb Hl [Hs _]. rewrite (window_fresh _ _ s (window_foldl c l Hl Hc Hb)), list_elem_of_filter.
  intuition lia.
Qed.

(** ** Checkpoints *)
Lemma not32_bits (x i : Z) : 0 ≤ i < 32 → Z.testbit (not32 x) i = negb (Z.testbit x i).
Proof.
  intros Hi. unfold not32. replace (2 ^ 32 - 1) with (Z.ones 32) by reflexivity.
  rewrite Z.lxor_spec, Z.ones_spec_low by lia. apply xorb_true_r.
Qed.

(** The test of the code: every retained bit is also set in the successor. *)
Lemma retained_bits (a b i : Z) : Z.land a (not32 b) = 0 → 0 ≤ i < 32 → Z.testbit a i = true → Z.testbit b i = true.
Proof.
  intros H0 Hi Ha. apply (f_equal (fun z => Z.testbit z i)) in H0.
  rewrite Z.land_spec, not32_bits, Ha, Z.bits_0 in H0 by done. by destruct (Z.testbit b i).
Qed.

Lemma validate_successor_bits (a b : ReplayCheckpoint) :
  validate_successor a b = Ok tt →
  ck_left a ≤ ck_left b ∧
  ∀ d, 0 ≤ d < 32 → ck_left b ≤ ck_left a + d → Z.testbit (ck_received a) d = true →
       Z.testbit (ck_received b) (ck_left a + d - ck_left b) = true.
Proof.
  unfold validate_successor, REPLAY_WINDOW. destruct (_ <? _) eqn:E; bools; [done|].
  destruct (negb _) eqn:E2; bools; [done|]. intros _. split; [done|]. intros d Hd Hle Hbit.
  eapply retained_bits; [exact E2|lia|]. rewrite (proj2 (Z.leb_gt _ _)) by lia.
  rewrite wrap_small by (unfold in_u; lia). rewrite Z.shiftr_spec by lia.
  by replace (ck_left a + d - ck_left b + (ck_left b - ck_left a)) with d by lia.
Qed.

(** Restoring a checkpoint never weakens replay protection.  When it
    succeeds every number the context rejected before is still rejected and
    nothing but the window has changed; when it is refused, which happens only as a
    rollback, the context is unchanged. *)
Theorem replay_restore_sound c (ck : ReplayCheckpoint) :
  match restore_replay ck c with
  | (c', Ok _) =>
      c' = set_replay c (ck_left ck) (ck_received ck) ∧
      ∀ s, replay_fresh c s = false → replay_fresh c' s = false
  | (c', Err e) => c' = c ∧ e = OReplayRollback
  | _ => False
  end.
Proof.
  unfold restore_replay. unbind. destruct (validate_successor _ _) as [[]|e| |] eqn:Hv.
  - split; [done|]. intros s. apply validate_successor_bits in Hv as [Hl Hb]. simpl in *.
    unfold replay_fresh, REPLAY_WINDOW. simpl. destruct (SEQ_END <=? s); [done|]. cbn [orb].
    destruct (s <? ck_left ck) eqn:E1; bools; [done|]. rewrite (proj2 (Z.ltb_ge _ _)) by lia.
    destruct (32 <=? s - sc_replay_left c) eqn:E2; bools; [done|].
    rewrite (proj2 (Z.leb_gt _ _)), !bit_shl, !land_bit, !negb_false_iff by lia. intros Hbit.
    specialize (Hb (s - sc_replay_left c) ltac:(lia) ltac:(lia) Hbit). by rewrite Zplus_minus in Hb.
  - unfold validate_successor in Hv. by repeat case_match; simplify_eq.
  - unfold validate_successor in Hv. by repeat case_match.
  - unfold validate_successor in Hv. by repeat case_match.
Qed.

Lemma top_below (l : list Z) : Forall (fun x => x < SEQ_END) l → top l < SEQ_END.
Proof. unfold top, SEQ_END. induction 1; simpl; lia. Qed.

Lemma from_parts_ok c l :
  window_of c l → Forall (fun x => x < SEQ_END) l → 0 ≤ sc_replay_bits c →
  from_parts (sc_replay_left c) (sc_replay_bits c) = Ok (replay_checkpoint c).
Proof.
  intros [Hl Hb] Hall H0. pose proof (top_below l Hall). unfold from_parts.
  rewrite (proj2 (Z.ltb_ge _ _)) by (unfold SEQ_END in *; lia). cbn [orb].
  destruct (sc_replay_bits c =? 0) eqn:E0; bools; [done|]. cbn [negb andb].
  rewrite (proj2 (Z.eqb_neq (sc_replay_left c) _)) by (unfold SEQ_END in *; lia). cbn [orb].
  unfold leading_zeros32. rewrite (proj2 (Z.eqb_neq _ 0)) by done.
  assert (sc_replay_left c + Z.log2 (sc_replay_bits c) ∈ l) as Hin.
  { apply Hb; [apply Z.log2_nonneg|]. apply Z.bit_log2. lia. }
  rewrite Forall_forall in Hall. specialize (Hall _ Hin). simpl in Hall.
  by rewrite (proj2 (Z.leb_gt _ _)) by lia.
Qed.

Lemma accept_bits_nonneg c s : 0 ≤ sc_replay_bits c → 0 ≤ sc_replay_bits (replay_accept c s).
Proof.
  intros H0. unfold replay_accept, REPLAY_WINDOW.
  destruct ((SEQ_END <=? s) || (s <? sc_replay_left c)) eqn:E; bools; [done|].
  destruct (32 <=? _) eqn:E2; bools; simpl; apply Z.lor_nonneg.
  - split; [|done]. destruct (32 <=? _); [done|]. by apply Z.shiftr_nonneg.
  - split; [done|]. rewrite bit_shl by lia. lia.
Qed.

(** A reboot loses no replay protection.  After any sequence of receptions
    the checkpoint's persisted parts are accepted by [from_parts] as they are,
    and restoring them into a newly derived context gives a window that
    answers every later freshness question as the old one would have. *)
Theorem checkpoint_recovers c c2 l :
  sc_replay_left c = 0 → sc_replay_bits c = 0 → sc_replay_left c2 = 0 → sc_replay_bits c2 = 0 →
  Forall (in_u 64) l →
  let old := foldl replay_accept c l in
  let '(lo, received) := parts (replay_checkpoint old) in
  ∃ ck c', from_parts lo received = Ok ck ∧ restore_replay ck c2 = (c', Ok tt) ∧
    ∀ s, replay_fresh c' s = replay_fresh old s.
Proof.
  intros Hl Hb Hl2 Hb2 Hall. simpl. pose proof (window_foldl c l Hall Hl Hb) as Hw.
  set (old := foldl replay_accept c l) in *.
  assert (0 ≤ sc_replay_bits old) as H0.
  { unfold old. clear Hw old Hl Hall. assert (0 ≤ sc_replay_bits c) as H0 by lia. clear Hb. revert c H0.
    induction l as [|s l IH]; intros c H0; [done|]. simpl. by apply IH, accept_bits_nonneg. }
  exists (replay_checkpoint old), (set_replay c2 (sc_replay_left old) (sc_replay_bits old)). split_and!.
  - eapply from_parts_ok; [exact Hw| |done]. apply Forall_forall. intros x [? _]%list_elem_of_filter. done.
  - unfold restore_replay, validate_successor. unbind. simpl. rewrite Hl2, Hb2.
    destruct Hw as [Hw _]. rewrite (proj2 (Z.ltb_ge _ _)) by lia. by rewrite Z.shiftr_0_l; destruct (_ <=? _).
  - done.
Qed.
End replay.

(** ** Sender Sequence Numbers across reboots

    A node is a live context, the exclusive upper bound its storage holds, the
    Partial IVs it has issued since the keys were first used, newest first, and
    the requests of the peer it has answered without a Partial IV of its own. *)
Section sender.
Context `{Target}.
Context {T : Type} `{!EqDecision T}.
Context (hkdf : list Z → list Z → list Z → nat → option (list Z)) (REQUESTS : nat) (params : DeriveParams).
Implicit Types (c : SecurityContext T).

Record node : Type := mkNode {
  nd_ctx : SecurityContext T;
  nd_durable : Z;
  nd_issued : list PartialIv;
  nd_answered : list RequestRef
}.

(** What [reserve_sender_sequences] asks of its callback: success means the
    bound is stored; a failure may or may not have stored it. *)
Definition stores {E} (persist : Z → Z → Z * res E unit) : Prop :=
  ∀ stop d,
    match persist stop d with
    | (d', Ok _) => d' = stop
    | (d', Err _) => d' = stop ∨ d' = d
    | _ => False
    end.

(** The operations that have nothing to do with the sender's counter. *)
Inductive other_step c : SecurityContext T → Prop :=
  | other_accept seq : other_step c (replay_accept c seq)
  | other_restore ck c' r : restore_replay ck c = (c', r) → other_step c c'
  | other_remember t q o c' r : remember_live t q o c = (c', r) → other_step c c'
  | other_download t q c' r : remember_download t q c = (c', r) → other_step c c'
  | other_response t c' r : accept_response_without_piv t c = (c', r) → other_step c c'
  | other_take t c' r : take_request t c = (c', r) → other_step c c'
  | other_notification t p c' r : accept_notification t p c = (c', r) → other_step c c'.

(** The nonce [protect_response] seals with: that of the request. *)
Definition response_nonce {E} c (request : RequestRef) : res E (list Z) :=
  kid ← RequestRef_kid request;
  nonce (sc_common_iv c) kid (rr_piv request).

(** What [protect_response] asks of its caller: the reference is of a request of
    the peer, and no earlier response without a Partial IV answered a request
    with that number ("at most one distinct response plaintext per RequestRef"). *)
Definition may_answer (r : RequestRef) (answered : list RequestRef) : Prop :=
  RequestRef_kid (E:=OscoreError) r = Ok (dp_recipient_id params) ∧ piv_wf (rr_piv r) ∧
  Forall (fun q => PartialIv_seq (E:=OscoreError) (rr_piv q) ≠ PartialIv_seq (rr_piv r)) answered.

(** [protect_request] and [protect_response_piv] seal with the number they take;
    [protect_response] changes no context. *)
Inductive node_step : node → node → Prop :=
  | step_take c d l a c' p :
      take_sender_piv c = (c', Ok p) → node_step (mkNode c d l a) (mkNode c' d (p :: l) a)
  | step_respond c d l a r :
      may_answer r a → node_step (mkNode c d l a) (mkNode c d l (r :: a))
  | step_refused c d l a c' e :
      take_sender_piv c = (c', Err e) → node_step (mkNode c d l a) (mkNode c' d l a)
  | step_skip c d l a seq c' r :
      in_u 64 seq → set_sender_seq seq c = (c', r) → node_step (mkNode c d l a) (mkNode c' d l a)
  | step_reserve E (persist : Z → Z → Z * res E unit) c d l a additional c' d' r :
      in_u 64 additional → stores persist →
      reserve_sender_sequences additional persist (c, d) = ((c', d'), r) →
      node_step (mkNode c d l a) (mkNode c' d' l a)
  | step_other c d l a c' : other_step c c' → node_step (mkNode c d l a) (mkNode c' d l a)
  | step_reboot c d l a c0 c' :
      derive hkdf REQUESTS params = Ok c0 → restore_sender_reservation d c0 = (c', Ok tt) →
      node_step (mkNode c d l a) (mkNode c' d l a).

(** First use of the keys: storage holds the bound zero. *)
Inductive node_init : node → Prop :=
  | node_first c0 c : derive hkdf REQUESTS params = Ok c0 → restore_sender_reservation 0 c0 = (c, Ok tt) →
      node_init (mkNode c 0 [] []).

Inductive node_reachable : node → Prop :=
  | reach_init n : node_init n → node_reachable n
  | reach_step n n' : node_reachable n → node_step n n' → node_reachable n'.

(** What every context of these keys has in common. *)
Definition keyed c : Prop :=
  (length (dp_sender_id params) ≤ MAX_ID_LEN)%nat ∧
  Id_as_bytes (E:=OscoreError) (sc_sender_id c) = Ok (dp_sender_id params) ∧
  hkdf (dp_master_salt params) (dp_master_secret params)
    (info_wire [] (if (length (dp_id_context params) =? 0)%nat then None else Some (dp_id_context params))
       LABEL_IV (Z.of_nat NONCE_LEN)) NONCE_LEN = Some (sc_common_iv c) ∧
  (length (dp_recipient_id params) ≤ MAX_ID_LEN)%nat ∧ dp_sender_id params ≠ dp_recipient_id params.

Definition same_sender c c' : Prop :=
  sc_sender_id c' = sc_sender_id c ∧ sc_common_iv c' = sc_common_iv c ∧
  sc_sender_seq c' = sc_sender_seq c ∧ sc_sender_reserved_end c' = sc_sender_reserved_end c.

Lemma other_same c c' : other_step c c' → same_sender c c'.
Proof.
  assert (same_sender c c) as Hrefl by done.
  destruct 1 as [seq|ck c' r Hr|t q o c' r Hr|t q c' r Hr|t c' r Hr|t c' r Hr|t p c' r Hr].
  - unfold replay_accept. by repeat case_match.
  - unfold restore_replay in Hr. unbind. by repeat case_match; simplify_eq.
  - unfold remember_live in Hr. unbind. by repeat case_match; simplify_eq.
  - unfold remember_download, remember, remember_live in Hr. unbind. by repeat case_match; simplify_eq.
  - unfold accept_response_without_piv in Hr. unbind. by repeat case_match; simplify_eq.
  - unfold take_request in Hr. by repeat case_match; simplify_eq.
  - unfold accept_notification in Hr. unbind. by repeat case_match; simplify_eq.
Qed.

Lemma Id_new_ok (bytes : list Z) :
  (length bytes ≤ MAX_ID_LEN)%nat →
  ∃ i, Id_new bytes = Ok i ∧ ∀ E, Id_as_bytes (E:=E) i = Ok bytes.
Proof.
  unfold MAX_ID_LEN. intros Hl. unfold Id_new, MAX_ID_LEN. rewrite (proj2 (Nat.ltb_ge _ _)) by lia.
  rewrite copy_into_ok by (rewrite ?length_replicate; lia). unbind. eexists. split; [done|].
  intros E. unfold Id_as_bytes. cbn [id_bytes id_len]. rewrite wrap_small by (unfold in_u; lia).
  rewrite Nat2Z.id, slice_prefix, splice_front by (rewrite ?splice_front, ?length_app; lia).
  by rewrite take_app_length.
Qed.

Lemma Id_new_too_long (bytes : list Z) : (MAX_ID_LEN < length bytes)%nat → Id_new bytes = Err OId.
Proof. intros Hl. unfold Id_new. by rewrite (proj2 (Nat.ltb_lt _ _)). Qed.

(** A derived context starts unguarded at zero with an open replay window. *)
Lemma derive_start c :
  derive hkdf REQUESTS params = Ok c →
  keyed c ∧ sc_sender_seq c = 0 ∧ sc_sender_reserved_end c = U64_MAX ∧
  sc_replay_left c = 0 ∧ sc_replay_bits c = 0 ∧ sc_live c = replicate REQUESTS None.
Proof.
  unfold derive. destruct (_ || _); [done|]. destruct (64 <? _)%nat; [done|].
  destruct (MAX_ID_CONTEXT_LEN <? _)%nat eqn:Ec; bools; [done|].
  destruct (decide (length (dp_sender_id params) ≤ MAX_ID_LEN)%nat) as [Hs|Hs];
    [|by rewrite (Id_new_too_long (dp_sender_id params)) by (by apply Nat.nle_gt)].
  destruct (Id_new_ok _ Hs) as (sid & -> & Hsid). unbind.
  destruct (decide (length (dp_recipient_id params) ≤ MAX_ID_LEN)%nat) as [Hr|Hr];
    [|by rewrite (Id_new_too_long (dp_recipient_id params)) by (by apply Nat.nle_gt)].
  destruct (Id_new_ok _ Hr) as (rid & -> & Hrid). rewrite Hsid, Hrid. destruct (eqb _ _) eqn:Eids; bools; [done|].
  set (ctx := if (length (dp_id_context params) =? 0)%nat then None else Some (dp_id_context params)).
  assert (∀ x, ctx = Some x → (length x ≤ MAX_ID_CONTEXT_LEN)%nat) as Hctx
    by (intros x; unfold ctx; case_match; intros; by simplify_eq).
  destruct (hkdf_expand _ _ _ (dp_sender_id params) _ _ _); try done.
  destruct (hkdf_expand _ _ _ (dp_recipient_id params) _ _ _); try done.
  rewrite hkdf_expand_ok; [|done || (unfold MAX_ID_LEN, NONCE_LEN; simpl; lia)..].
  destruct (hkdf _ _ _ NONCE_LEN) as [iv|] eqn:Hiv; [|done]. unfold ok_or. cbn iota.
  destruct (copy_into _ _ _ _) as [st| | |]; try done. intros [= <-]. simpl. split_and!; try done.
Qed.

(** The number a Partial IV carries. *)
Definition carries (p : PartialIv) (s : Z) : Prop :=
  piv_wf p ∧ PartialIv_seq (E:=OscoreError) p = Ok s.

(** Issued numbers fall strictly from the newest on, each is below both the
    counter and the stored bound, and the grant never passes that bound; the
    requests answered are of the peer and have distinct numbers. *)
Definition node_inv (n : node) : Prop :=
  keyed (nd_ctx n) ∧
  0 ≤ sc_sender_seq (nd_ctx n) ≤ SEQ_END ∧
  0 ≤ sc_sender_reserved_end (nd_ctx n) ≤ nd_durable n ∧ nd_durable n ≤ SEQ_END ∧
  ∃ seqs, Forall2 carries (nd_issued n) seqs ∧ StronglySorted Z.gt seqs ∧
    Forall (fun s => 0 ≤ s ∧ s < sc_sender_seq (nd_ctx n) ∧ s < nd_durable n) seqs ∧
  ∃ nums, Forall2 (fun r s => RequestRef_kid (E:=OscoreError) r = Ok (dp_recipient_id params) ∧ carries (rr_piv r) s)
    (nd_answered n) nums ∧ NoDup nums.

(** Changes that move the counter up and keep the grant within storage. *)
Lemma node_inv_grow c c' d d' l a :
  node_inv (mkNode c d l a) → keyed c' → sc_sender_seq c ≤ sc_sender_seq c' ≤ SEQ_END →
  0 ≤ sc_sender_reserved_end c' ≤ d' → d ≤ d' ∨ sc_sender_seq c ≤ d' → d' ≤ SEQ_END →
  node_inv (mkNode c' d' l a).
Proof.
  intros (_ & Hs & He & Hd & seqs & Hc & Hsort & Hall & Hans) Hk Hs' He' Hd' Hm. simpl in *.
  split_and!; simpl; try done || lia. exists seqs. split_and!; [done..| |done].
  eapply Forall_impl; [exact Hall|]. simpl. lia.
Qed.

Lemma take_sender_piv_ok c c' p :
  0 ≤ sc_sender_seq c → take_sender_piv c = (c', Ok p) →
  carries p (sc_sender_seq c) ∧ sc_sender_seq c < SEQ_END ∧ sc_sender_seq c < sc_sender_reserved_end c ∧
  c' = set_sender c (sc_sender_seq c + 1) (sc_sender_reserved_end c).
Proof.
  intros H0. unfold take_sender_piv. unbind. destruct (SEQ_END <=? _) eqn:E1; bools; [done|].
  destruct (sc_sender_reserved_end c <=? _) eqn:E2; bools; [done|]. unfold SEQ_END in *.
  pose proof (from_seq_ok (sc_sender_seq c)) as Hf. rewrite (proj2 (Z.ltb_lt _ _)) in Hf by lia.
  destruct Hf as (q & -> & Hwf & Hq); [unfold in_u; lia|]. unfold checked_add.
  rewrite (proj2 (Z.leb_le _ _)) by (unfold max_u; lia). intros ?; simplify_eq. done.
Qed.

Lemma take_sender_piv_err c c' e : take_sender_piv c = (c', Err e) → c' = c.
Proof. unfold take_sender_piv. unbind. intros. by repeat case_match; simplify_eq. Qed.

Lemma set_sender_seq_effect c c' seq r :
  set_sender_seq seq c = (c', r) →
  c' = c ∨ (sc_sender_seq c ≤ seq ≤ SEQ_END ∧ c' = set_sender c seq (sc_sender_reserved_end c)).
Proof.
  unfold set_sender_seq. unbind. destruct (seq <? _) eqn:E1; bools; [by intros; simplify_eq; left|].
  destruct (SEQ_END <? _) eqn:E2; bools; intros; simplify_eq; [by left|by right].
Qed.

Lemma restore_effect c c' stop r :
  restore_sender_reservation stop c = (c', r) →
  match r with
  | Ok _ => sc_sender_seq c ≤ stop ≤ SEQ_END ∧ c' = set_sender c stop stop
  | Err _ => c' = c
  | _ => False
  end.
Proof.
  unfold restore_sender_reservation. unbind. destruct (_ || _) eqn:E1; bools; [by intros; simplify_eq|].
  destruct (SEQ_END <? _) eqn:E2; bools; intros; simplify_eq; done.
Qed.

Lemma reserve_effect {E} (persist : Z → Z → Z * res E unit) c c' d d' additional r :
  stores persist → in_u 64 additional →
  0 ≤ sc_sender_seq c → 0 ≤ sc_sender_reserved_end c ≤ d → d ≤ SEQ_END →
  reserve_sender_sequences additional persist (c, d) = ((c', d'), r) →
  (c' = c ∧ d' = d) ∨
  (∃ stop, sc_sender_reserved_end c < stop ≤ SEQ_END ∧ sc_sender_seq c < stop ∧ d' = stop ∧
     (c' = c ∨ c' = set_sender c (sc_sender_seq c) stop)).
Proof.
  intros Hp [Ha _] Hs He Hd. unfold reserve_sender_sequences, sender_reservation_end, reservation_bound.
  destruct (_ =? U64_MAX); [intros; simplify_eq; by left|].
  destruct (additional =? 0) eqn:E0; bools; [intros; simplify_eq; by left|].
  unfold checked_add. destruct (_ <=? max_u 64); cbn [mbind option_bind]; [|intros; simplify_eq; by left].
  destruct (_ <=? SEQ_END) eqn:E1; bools; [|intros; simplify_eq; by left].
  remember (Z.max _ _ + additional) as stop eqn:Hstop. specialize (Hp stop d).
  destruct (persist stop d) as [w [[]|e| |]]; try done.
  - subst w. intros [= <- <- <-]. right. exists stop. split_and!; [lia..|by right].
  - destruct Hp as [Hw|Hw]; subst w; intros [= <- <- <-]; [|by left]. right. exists stop.
    split_and!; [lia..|by left].
Qed.

Lemma keyed_same c c' :
  sc_sender_id c' = sc_sender_id c → sc_common_iv c' = sc_common_iv c → keyed c → keyed c'.
Proof. unfold keyed. by intros -> ->. Qed.

Lemma node_inv_init n : node_init n → node_inv n.
Proof.
  destruct 1 as [c0 c Hd Hr]. apply derive_start in Hd as (Hk & Hs & _). apply restore_effect in Hr as [Hle ->].
  unfold SEQ_END in *. split; [by eapply keyed_same; [..|exact Hk]|]. split_and!; simpl; try (unfold SEQ_END; lia).
  exists []. split_and!; [constructor..|]. exists []. split; constructor.
Qed.

Lemma node_inv_take c d l a c' p :
  take_sender_piv c = (c', Ok p) → node_inv (mkNode c d l a) → node_inv (mkNode c' d (p :: l) a).
Proof.
  intros Ht (Hk & Hs & He & Hd & seqs & Hc & Hsort & Hall & Hans). simpl in *.
  apply take_sender_piv_ok in Ht as (Hcar & Hlt & Hlt' & ->); [|lia].
  split; [by eapply keyed_same; [..|exact Hk]|]. split_and!; simpl; try lia.
  exists (sc_sender_seq c :: seqs). split_and!.
  - by constructor.
  - constructor; [done|]. eapply Forall_impl; [exact Hall|]. simpl. lia.
  - constructor; [lia|]. eapply Forall_impl; [exact Hall|]. simpl. lia.
  - done.
Qed.

Lemma node_inv_respond c d l a r :
  may_answer r a → node_inv (mkNode c d l a) → node_inv (mkNode c d l (r :: a)).
Proof.
  intros (Hk & Hp & Hnew) (Hkeyed & Hs & He & Hd & seqs & Hc & Hsort & Hall & nums & Hn & Hnd). simpl in *.
  do 4 (split; [done|]). exists seqs. split_and!; [done..|]. destruct Hp as (bs & Hbs & Hlen & Hb).
  assert (PartialIv_seq (E:=OscoreError) (rr_piv r) = Ok (from_be bs)) as Hseq by (rewrite Hbs; apply piv_seq_ok; lia).
  exists (from_be bs :: nums). split; [constructor; [|done]|].
  - split; [done|]. split; [by exists bs|done].
  - constructor; [|done]. intros (i & Hi)%list_elem_of_lookup.
    destruct (Forall2_lookup_r _ _ _ _ _ Hn Hi) as (q & Hq & _ & _ & Hqs).
    pose proof (Forall_lookup_1 _ _ _ _ Hnew Hq) as Hne. simpl in Hne. congruence.
Qed.

Lemma node_inv_step n n' : node_step n n' → node_inv n → node_inv n'.
Proof.
  destruct 1 as [c d l a c' p Ht|c d l a r Hr|c d l a c' e Ht|c d l a seq c' r Hu Hset|E persist c d l a k c' d' r Hu Hp Hr
    |c d l a c' Ho|c d l a c0 c' Hd Hr]; intros Hinv.
  - by eapply node_inv_take.
  - by apply node_inv_respond.
  - by apply take_sender_piv_err in Ht as ->.
  - pose proof Hinv as (Hk & Hs & He & Hd & _). simpl in Hk, Hs, He, Hd.
    apply set_sender_seq_effect in Hset as [->|[Hle ->]]; [done|].
    eapply node_inv_grow; [exact Hinv|by eapply keyed_same; [..|exact Hk]|simpl; lia..].
  - pose proof Hinv as (Hk & Hs & He & Hd & _). simpl in Hk, Hs, He, Hd.
    eapply reserve_effect in Hr as [[-> ->]|(stop & H1 & H2 & -> & Hc)]; [done| |done|done|lia..].
    destruct Hc as [->| ->]; eapply node_inv_grow; try exact Hinv; simpl; try lia; [done|].
    by eapply keyed_same; [..|exact Hk].
  - pose proof Hinv as (Hk & Hs & He & Hd & _). simpl in Hk, Hs, He, Hd.
    apply other_same in Ho as (Hid & Hiv & Hseq & Hend).
    eapply node_inv_grow; [exact Hinv|by eapply keyed_same; [..|exact Hk]|lia..].
  - destruct Hinv as (Hk & Hs & He & Hd' & seqs & Hc & Hsort & Hall & Hans). simpl in *.
    apply derive_start in Hd as (Hk0 & _). apply restore_effect in Hr as [Hle ->].
    split; [by eapply keyed_same; [..|exact Hk0]|]. split_and!; simpl; try lia.
    exists seqs. split_and!; [done..| |done]. eapply Forall_impl; [exact Hall|]. simpl. lia.
Qed.

Lemma node_inv_reachable n : node_reachable n → node_inv n.
Proof. induction 1; [by apply node_inv_init|by eapply node_inv_step]. Qed.

Lemma falling_distinct (seqs : list Z) : StronglySorted Z.gt seqs → NoDup seqs.
Proof.
  induction 1 as [|s seqs _ IH Hgt]; constructor; [|done]. intros Hin. rewrite Forall_forall in Hgt. specialize (Hgt _ Hin). lia.
Qed.

(** Partial IVs with distinct numbers give distinct nonces. *)
Lemma nonces_distinct (iv id : list Z) (ps : list PartialIv) (seqs : list Z) :
  length iv = NONCE_LEN → (length id ≤ MAX_ID_LEN)%nat →
  Forall2 carries ps seqs → NoDup seqs →
  ∃ ncs, Forall2 (fun p nc => nonce (E:=OscoreError) iv id p = Ok nc) ps ncs ∧ NoDup ncs.
Proof.
  intros Hiv Hid Hc. induction Hc as [|p s ps seqs Hps Hc IH]; intros Hsort.
  { exists []. split; constructor. }
  apply NoDup_cons in Hsort as [Hnin Hsort]. destruct (IH Hsort) as (ncs & Hncs & Hnd).
  destruct Hps as [(bs & -> & [_ Hbs] & _) Hseq]. rewrite piv_seq_ok in Hseq by done. simplify_eq.
  eexists (_ :: ncs). split; [constructor; [by apply nonce_ok|done]|]. constructor; [|done].
  intros (i & Hi)%list_elem_of_lookup. destruct (Forall2_lookup_r _ _ _ _ _ Hncs Hi) as (q & Hq & Hn).
  destruct (Forall2_lookup_l _ _ _ _ _ Hc Hq) as (s' & Hs' & (bs' & -> & [_ Hbs'] & _) & Hseq').
  rewrite piv_seq_ok in Hseq' by done.
  assert (from_be bs = from_be bs') as Heq
    by (eapply nonce_inj; [exact Hiv|exact Hid|exact Hid|exact Hbs|exact Hbs'|by apply nonce_ok|exact Hn]).
  apply list_elem_of_lookup_2 in Hs'. assert (s' = from_be bs') by congruence. congruence.
Qed.

(** Nonces of two identifiers never meet. *)
Lemma nonces_apart (iv id id' : list Z) (ps ps' : list PartialIv) (ncs ncs' : list (list Z)) :
  length iv = NONCE_LEN → (length id ≤ MAX_ID_LEN)%nat → (length id' ≤ MAX_ID_LEN)%nat → id ≠ id' →
  Forall piv_wf ps → Forall piv_wf ps' →
  Forall2 (fun p nc => nonce (E:=OscoreError) iv id p = Ok nc) ps ncs →
  Forall2 (fun p nc => nonce (E:=OscoreError) iv id' p = Ok nc) ps' ncs' →
  ∀ nc, nc ∈ ncs → nc ∉ ncs'.
Proof.
  intros Hiv Hid Hid' Hne Hw Hw' Hf Hf' nc (i & Hi)%list_elem_of_lookup (j & Hj)%list_elem_of_lookup.
  destruct (Forall2_lookup_r _ _ _ _ _ Hf Hi) as (p & Hp & Hn). destruct (Forall2_lookup_r _ _ _ _ _ Hf' Hj) as (q & Hq & Hn').
  destruct (Forall_lookup_1 _ _ _ _ Hw Hp) as (bs & -> & [_ Hbs] & _).
  destruct (Forall_lookup_1 _ _ _ _ Hw' Hq) as (bs' & -> & [_ Hbs'] & _).
  destruct (nonce_inj iv id id' bs bs' nc Hiv Hid Hid' Hbs Hbs' Hn Hn') as [Heq _]. done.
Qed.

(** C17: no two messages protected under a sender key use the same AEAD nonce.
    Over any interleaving of sealing with a fresh number ([protect_request],
    [protect_response_with_piv]), sealing a response with the nonce of its request
    ([protect_response], at most once per request of the peer, as its
    documentation demands of the caller), skipping, reserving, receiving,
    binding requests and rebooting, with storage that may fail before or after the
    write, the nonces of all fresh numbers and of all requests answered are
    pairwise distinct; and every fresh number was durably reserved before it was
    used. *)
Theorem sender_nonces_unique (n : node) :
  (∀ salt ikm info k out, hkdf salt ikm info k = Some out → length out = k) →
  node_reachable n →
  (∃ fresh answers,
     Forall2 (fun p nc => request_nonce (E:=OscoreError) (nd_ctx n) p = Ok nc) (nd_issued n) fresh ∧
     Forall2 (fun r nc => response_nonce (E:=OscoreError) (nd_ctx n) r = Ok nc) (nd_answered n) answers ∧
     NoDup (fresh ++ answers)) ∧
  Forall (fun p => ∃ s, PartialIv_seq (E:=OscoreError) p = Ok s ∧ 0 ≤ s < nd_durable n) (nd_issued n) ∧
  nd_durable n ≤ SEQ_END.
Proof.
  intros Hlen Hr.
  apply node_inv_reachable in Hr as ((Hid & Hsid & Hiv & Hrid & Hne) & _ & _ & Hd & seqs & Hc & Hsort & Hall & nums & Hn & Hnd).
  apply Hlen in Hiv. split_and!; [| |done].
  - destruct (nonces_distinct _ _ _ _ Hiv Hid Hc (falling_distinct _ Hsort)) as (fresh & Hf & Hfd).
    assert (Forall2 carries (rr_piv <$> nd_answered n) nums) as Hc'
      by (apply Forall2_fmap_l; eapply Forall2_impl; [exact Hn|]; by intros r s [_ ?]).
    destruct (nonces_distinct _ _ _ _ Hiv Hrid Hc' Hnd) as (answers & Ha & Had). exists fresh, answers. split_and!.
    + eapply Forall2_impl; [exact Hf|]. intros p nc Hp. unfold request_nonce. by rewrite Hsid.
    + apply Forall2_fmap_l in Ha. apply Forall2_same_length_lookup. apply Forall2_same_length_lookup in Ha as [Hl Ha].
      split; [done|]. intros i r nc Hi Hnc. destruct (Forall2_lookup_l _ _ _ _ _ Hn Hi) as (s & _ & Hk & _).
      unfold response_nonce. rewrite Hk. by apply (Ha i r nc).
    + apply NoDup_app. split_and!; [done| |done]. eapply nonces_apart; [exact Hiv|exact Hid|exact Hrid|done| | |exact Hf|exact Ha].
      * apply Forall_lookup. intros i p Hi. destruct (Forall2_lookup_l _ _ _ _ _ Hc Hi) as (s & _ & Hw & _). done.
      * apply Forall_lookup. intros i p Hi. destruct (Forall2_lookup_l _ _ _ _ _ Hc' Hi) as (s & _ & Hw & _). done.
  - apply Forall_lookup. intros i p Hi. destruct (Forall2_lookup_l _ _ _ _ _ Hc Hi) as (s & Hs & _ & Hp).
    exists s. split; [done|]. pose proof (Forall_lookup_1 _ _ _ _ Hall Hs). simpl in *. lia.
Qed.
End sender.

(** ** Live bindings as a finite map *)
Section bindings.
Context {T : Type} `{!EqDecision T}.
Implicit Types (c : SecurityContext T) (live : list (option (LiveRequest T))) (t : T).

(** No two rows have the same token. *)
Definition rows_wf live : Prop :=
  ∀ i j r r', live !! i = Some (Some r) → live !! j = Some (Some r') → lr_token r = lr_token r' → i = j.

Definition get_row live t : option (LiveRequest T) :=
  find_map (fun row => r ← row; if eqb (lr_token r) t then Some r else None) live.

Lemma get_row_Some live t r :
  rows_wf live → get_row live t = Some r ↔ ∃ i, live !! i = Some (Some r) ∧ lr_token r = t.
Proof.
  intros Hwf. unfold get_row. rewrite find_map_Some. split.
  - intros (l1 & row & l2 & -> & Hf & _). destruct row as [r'|]; [|done]. simpl in Hf.
    destruct (eqb _ _) eqn:E; bools; simplify_eq. exists (length l1). by rewrite list_lookup_middle.
  - intros (i & Hi & Ht). exists (take i live), (Some r), (drop (S i) live). split_and!.
    + by rewrite take_drop_middle.
    + simpl. unfold eqb. by rewrite bool_decide_eq_true_2.
    + apply Forall_lookup. intros j row [Hj Hlt]%lookup_take_Some. destruct row as [r'|]; [|done]. simpl.
      destruct (eqb _ _) eqn:E; bools; [|done]. assert (j = i) by (eapply Hwf; [done..|congruence]). lia.
Qed.

(** Row [i] is the only one that may hold [t], and it holds nothing else. *)
Definition row_for live t i : Prop :=
  (∃ row, live !! i = Some row ∧ ∀ r, row = Some r → lr_token r = t) ∧
  ∀ j r, live !! j = Some (Some r) → lr_token r = t → j = i.

(** Writing the row of [t] is a point update of the map. *)
Lemma set_row_map live t i row :
  rows_wf live → row_for live t i → (∀ r, row = Some r → lr_token r = t) →
  rows_wf (<[i:=row]> live) ∧ get_row (<[i:=row]> live) t = row ∧
  ∀ t', t' ≠ t → get_row (<[i:=row]> live) t' = get_row live t'.
Proof.
  intros Hwf [(old & Hold & Ho) Hu] Hrow. pose proof (lookup_lt_Some _ _ _ Hold) as Hlt.
  assert (rows_wf (<[i:=row]> live)) as Hwf'.
  { intros j k r r' Hj Hk Ht. apply list_lookup_insert_Some in Hj, Hk.
    destruct Hj as [(-> & -> & _)|[Hji Hj]], Hk as [(-> & Hx & _)|[Hki Hk]]; simplify_eq.
    - done.
    - symmetry. eapply Hu; [exact Hk|]. rewrite <- Ht. by apply Hrow.
    - eapply Hu; [exact Hj|]. rewrite Ht. by apply Hrow.
    - by eapply Hwf. }
  split_and!; [done| |].
  - apply option_eq. intros r. rewrite get_row_Some by done. split.
    + intros (j & [(-> & -> & _)|[Hne Hj]]%list_lookup_insert_Some & Ht); [done|]. by apply Hu in Hj.
    + intros Hr. exists i. rewrite list_lookup_insert_eq by done. split; [by f_equal|by apply Hrow].
  - intros t' Hne. apply option_eq. intros r. rewrite !get_row_Some by done.
    split; intros (j & Hj & Ht); exists j; (split; [|done]).
    + apply list_lookup_insert_Some in Hj as [(-> & Hx & _)|[_ Hj]]; [|done].
      destruct Hne. rewrite <- Ht. by apply Hrow.
    + apply list_lookup_insert_Some. right. split; [|done]. intros <-. simplify_eq. destruct Hne. by apply Ho.
Qed.

Lemma row_has_true t row : row_has t row = true ↔ ∃ r, row = Some r ∧ lr_token r = t.
Proof.
  destruct row as [r|]; simpl; [|by split; [|intros (? & ? & _)]]. unfold eqb. rewrite bool_decide_eq_true.
  split; [eauto|]. by intros (? & [= ->] & ?).
Qed.

(** The row of a token that has one. *)
Lemma position_row live t i :
  rows_wf live → position (row_has t) live = Some i →
  row_for live t i ∧ ∃ r, live !! i = Some (Some r) ∧ lr_token r = t ∧ get_row live t = Some r.
Proof.
  intros Hwf [(row & Hi & Hp) _]%position_Some. apply row_has_true in Hp as (r & -> & Ht). split.
  - split; [exists (Some r); split; [done|]; by intros ? [= <-]|]. intros j r' Hj Ht'.
    eapply Hwf; [done..|congruence].
  - exists r. split_and!; [done..|]. apply get_row_Some; eauto.
Qed.

Lemma position_no_row live t : rows_wf live → position (row_has t) live = None ↔ get_row live t = None.
Proof.
  intros Hwf. unfold get_row. rewrite position_None, find_map_None. apply Forall_iff. intros [r|]; [|done].
  simpl. by destruct (eqb _ _).
Qed.

(** A free row serves a token that has none. *)
Lemma free_row live t i :
  rows_wf live → get_row live t = None → position is_none_row live = Some i → row_for live t i.
Proof.
  intros Hwf Hn [(row & Hi & Hp) _]%position_Some. destruct row; [done|]. split; [by exists None|].
  intros j r Hj Ht. assert (get_row live t = Some r) by (apply get_row_Some; eauto). congruence.
Qed.

Lemma lookup_request_row c t : lookup_request c t = lr_request <$> find_row t c.
Proof.
  unfold lookup_request, find_row. induction (sc_live c) as [|[r|] live IH]; simpl; [done| |done].
  by destruct (eqb _ _).
Qed.

Lemma is_observe_row c t :
  rows_wf (sc_live c) → is_observe c t = match find_row t c with Some r => lr_observe r | None => false end.
Proof.
  intros Hwf. unfold is_observe. destruct (existsb _ _) eqn:E.
  - apply existsb_exists in E as (row & Hin & Hr). destruct row as [r|]; [|done].
    apply andb_true_iff in Hr as [Ht Ho]. bools. apply list_elem_of_In, list_elem_of_lookup in Hin as [i Hi].
    assert (find_row t c = Some r) as -> by (apply (get_row_Some (sc_live c)); eauto). done.
  - destruct (find_row t c) as [r|] eqn:Hf; [|done]. apply (get_row_Some (sc_live c)) in Hf as (i & Hi & Ht); [|done].
    destruct (lr_observe r) eqn:Ho; [|done]. apply not_true_iff_false in E. destruct E.
    apply existsb_exists. exists (Some r). split; [by apply list_elem_of_In, list_elem_of_lookup; exists i|].
    rewrite Ho. unfold eqb. by rewrite bool_decide_eq_true_2.
Qed.

(** The update of a row keeps its token. *)
Lemma update_row_map (p : LiveRequest T → bool) (f : LiveRequest T → LiveRequest T) live t r :
  rows_wf live → (∀ x, lr_token (f x) = lr_token x) → (∀ x, p x = true → lr_token x = t) →
  get_row live t = Some r → p r = true →
  ∃ live', update_row p f live = Some live' ∧ rows_wf live' ∧ get_row live' t = Some (f r) ∧
    ∀ t', t' ≠ t → get_row live' t' = get_row live t'.
Proof.
  intros Hwf Hf Hp Hr Hpr. apply get_row_Some in Hr as (i & Hi & Ht); [|done]. unfold update_row.
  destruct (position _ live) as [k|] eqn:Hk.
  2: { rewrite position_None in Hk. pose proof (Forall_lookup_1 _ _ _ _ Hk Hi) as Hc. simpl in Hc. congruence. }
  apply position_Some in Hk as [(row & Hrow & Hpk) _]. destruct row as [x|]; [|done].
  assert (k = i) as -> by (eapply Hwf; [done..|]; rewrite Hp; done). simplify_eq. cbn [mbind option_bind]. rewrite Hi. cbn [mbind option_bind].
  eexists. split; [done|]. apply set_row_map; [done| |intros ? [= <-]; by rewrite Hf].
  split; [exists (Some r); split; [done|]; by intros ? [= <-]|]. intros j r' Hj Ht'. by eapply Hwf.
Qed.

Lemma remember_live_map c t q o :
  rows_wf (sc_live c) →
  match remember_live t q o c with
  | (c', Ok _) =>
      rows_wf (sc_live c') ∧
      find_row t c' = Some (mkLive t q o (if o then Some q else None) false false None) ∧
      ∀ t', t' ≠ t → find_row t' c' = find_row t' c
  | (c', Err e) => e = OSaturated ∧ c' = c ∧ find_row t c = None ∧ position is_none_row (sc_live c) = None
  | _ => False
  end.
Proof.
  intros Hwf. unfold remember_live. unbind. destruct (position (row_has t) _) as [i|] eqn:Hp.
  - destruct (position_row _ _ _ Hwf Hp) as [Hfor _]. apply set_row_map; [done..|]. by intros ? [= <-].
  - apply position_no_row in Hp; [|done]. destruct (position is_none_row _) as [i|] eqn:Hn; [|done].
    apply set_row_map; [done|by apply free_row|]. by intros ? [= <-].
Qed.

(** The live-request table is a finite map from tokens to bindings.
    Remembering binds exactly one token, replacing its old binding, and is refused
    only for a new token in a full table, without evicting anything; taking
    returns and removes exactly one; a download on an observed token replaces only
    the latest request and keeps the registration and its notification
    history. *)
Theorem live_bindings_map c t :
  rows_wf (sc_live c) →
  (∀ q o, match remember_live t q o c with
          | (c', Ok _) =>
              rows_wf (sc_live c') ∧ lookup_request c' t = Some q ∧ is_observe c' t = o ∧
              observe_request c' t = (if o then Some q else None) ∧
              ∀ t', t' ≠ t → find_row t' c' = find_row t' c
          | (c', Err e) =>
              e = OSaturated ∧ c' = c ∧ lookup_request c t = None ∧ position is_none_row (sc_live c) = None
          | _ => False
          end) ∧
  (let '(c', o) := take_request t c in
   rows_wf (sc_live c') ∧ o = lookup_request c t ∧ lookup_request c' t = None ∧
   ∀ t', t' ≠ t → find_row t' c' = find_row t' c) ∧
  (∀ q r, find_row t c = Some r → lr_observe r = true →
     ∃ c', remember_download t q c = (c', Ok tt) ∧ rows_wf (sc_live c') ∧
       find_row t c' = Some (with_download q r) ∧ ∀ t', t' ≠ t → find_row t' c' = find_row t' c).
Proof.
  intros Hwf. split_and!.
  - intros q o. pose proof (remember_live_map c t q o Hwf) as Hm.
    destruct (remember_live t q o c) as [c' [[]|e| |]]; try done.
    + destruct Hm as (Hwf' & Hf & Ho). rewrite lookup_request_row, is_observe_row by done.
      unfold observe_request. by rewrite Hf.
    + destruct Hm as (-> & -> & Hf & Hn). by rewrite lookup_request_row, Hf.
  - unfold take_request. destruct (position _ _) as [i|] eqn:Hp.
    + destruct (position_row _ _ _ Hwf Hp) as (Hfor & r & Hi & _ & Hg).
      destruct (set_row_map _ t i None Hwf Hfor ltac:(done)) as (Hwf' & Hn & Ho). split_and!; [done| | |done].
      * rewrite lookup_request_row. unfold find_row. unfold get_row in Hg. by rewrite Hg, Hi.
      * rewrite lookup_request_row. unfold find_row. unfold get_row in Hn. simpl. by rewrite Hn.
    + apply position_no_row in Hp; [|done]. unfold get_row in Hp.
      split_and!; [done|..]; [by rewrite lookup_request_row; unfold find_row; rewrite Hp..|done].
  - intros q r Hr Ho. destruct (update_row_map (fun x => eqb (lr_token x) t && lr_observe x) (with_download q)
      (sc_live c) t r) as (live' & Hu & Hwf' & Hg & Hne); [done|done| |done| |].
    + intros x Hx. by bools.
    + apply (get_row_Some (sc_live c)) in Hr as (_ & _ & Ht); [|done]. unfold eqb.
      by rewrite bool_decide_eq_true_2, Ho.
    + exists (set_live c live'). unfold remember_download. unbind. by rewrite Hu.
Qed.

(** ** Notification replay *)

(** Offer notifications for [t] in turn; the ones that were accepted. *)
Fixpoint deliver t (ns : list (option PartialIv)) c : SecurityContext T * list (option PartialIv) :=
  match ns with
  | [] => (c, [])
  | n :: ns =>
      match accept_notification t n c with
      | (c', Ok _) => let '(c'', acc) := deliver t ns c' in (c'', n :: acc)
      | (c', _) => deliver t ns c'
      end
  end.

(** The numbers of the accepted notifications that carry one. *)
Definition numbers (acc : list (option PartialIv)) : list Z :=
  omap (fun n => p ← n; res_ok (PartialIv_seq (E:=OscoreError) p)) acc.
Definition bare (acc : list (option PartialIv)) : nat := length (filter (fun n => n = None) acc).

Definition opt_piv_wf (n : option PartialIv) : Prop := match n with Some p => piv_wf p | None => True end.

Lemma piv_wf_seq (p : PartialIv) : piv_wf p → ∃ s, ∀ E, PartialIv_seq (E:=E) p = Ok s.
Proof. intros (bs & -> & [_ Hl] & _). exists (from_be bs). intros E. by apply piv_seq_ok. Qed.

(** The verdict on one notification, from the row of its token. *)
Definition judge (r : LiveRequest T) (n : option PartialIv) : option (LiveRequest T) :=
  match n with
  | None => if lr_notify_no_piv r then None else Some (with_notify_no_piv r)
  | Some p =>
      s ← res_ok (PartialIv_seq (E:=OscoreError) p);
      if match lr_notify_number r with Some m => s <=? m | None => false end then None
      else Some (with_notify_number s r)
  end.

Lemma accept_notification_judge c t n r :
  rows_wf (sc_live c) → find_row t c = Some r → opt_piv_wf n →
  match judge r n with
  | Some r' => ∃ c', accept_notification t n c = (c', Ok tt) ∧ rows_wf (sc_live c') ∧ find_row t c' = Some r'
  | None => accept_notification t n c = (c, Err OReplay)
  end.
Proof.
  intros Hwf Hr Hn. assert (∀ x, eqb (lr_token x) t = true → lr_token x = t) as Hp by (intros x Hx; by bools).
  assert (eqb (lr_token r) t = true) as Hpr.
  { apply (get_row_Some (sc_live c)) in Hr as (_ & _ & Ht); [|done]. unfold eqb. by rewrite bool_decide_eq_true_2. }
  assert (∀ f, (∀ x, lr_token (f x) = lr_token x) → ∃ live', update_row (fun x => eqb (lr_token x) t) f (sc_live c) = Some live' ∧
    rows_wf live' ∧ get_row live' t = Some (f r)) as Hup.
  { intros f Hf. destruct (update_row_map (fun x => eqb (lr_token x) t) f (sc_live c) t r) as (l & ? & ? & ? & _); eauto. }
  unfold accept_notification, notification_fresh. unbind. rewrite Hr. unfold ok_or. cbn iota.
  destruct n as [p|]; simpl judge.
  - destruct (piv_wf_seq p Hn) as (s & Hs). rewrite !Hs. simpl.
    destruct (lr_notify_number r) as [m|]; [destruct (s <=? m) eqn:E; [done|]|];
      (destruct (Hup (with_notify_number s)) as (l & -> & Hl & Hg); [done|]; by exists (set_live c l)).
  - destruct (lr_notify_no_piv r); [done|]. destruct (Hup with_notify_no_piv) as (l & -> & Hl & Hg); [done|].
    by exists (set_live c l).
Qed.

Lemma deliver_bounds t ns c r c' acc :
  rows_wf (sc_live c) → find_row t c = Some r → Forall opt_piv_wf ns → deliver t ns c = (c', acc) →
  StronglySorted Z.lt (numbers acc) ∧
  (∀ m, lr_notify_number r = Some m → Forall (Z.lt m) (numbers acc)) ∧
  (bare acc ≤ if lr_notify_no_piv r then 0 else 1)%nat.
Proof.
  intros Hwf Hr Hns. revert c r c' acc Hwf Hr. induction Hns as [|n ns Hn Hns IH]; intros c r c' acc Hwf Hr.
  { intros [= <- <-]. unfold numbers, bare. cbn. split_and!; [constructor|constructor|lia]. }
  simpl. pose proof (accept_notification_judge c t n r Hwf Hr Hn) as Hj.
  destruct (judge r n) as [r'|] eqn:Ej; [|rewrite Hj; by apply IH].
  destruct Hj as (c1 & -> & Hwf1 & Hr1). destruct (deliver t ns c1) as [c2 acc'] eqn:Hd. intros [= <- <-].
  destruct (IH c1 r' c2 acc' Hwf1 Hr1 Hd) as (Hs & Hlt & Hb). destruct n as [p|]; simpl in Ej.
  - destruct (piv_wf_seq p Hn) as (s & Hps). rewrite Hps in Ej. simpl in Ej.
    assert (numbers (Some p :: acc') = s :: numbers acc') as -> by (unfold numbers; simpl; by rewrite Hps).
    assert (bare (Some p :: acc') = bare acc') as -> by (unfold bare; by rewrite filter_cons_False).
    destruct (match lr_notify_number r with Some m => s <=? m | None => false end) eqn:Em; [done|].
    simplify_eq. specialize (Hlt s eq_refl). split_and!; [by constructor| |done].
    intros m Hm. rewrite Hm in Em. bools. constructor; [done|]. eapply Forall_impl; [exact Hlt|]. simpl. lia.
  - assert (bare (None :: acc') = S (bare acc')) as -> by (unfold bare; by rewrite filter_cons_True).
    destruct (lr_notify_no_piv r) eqn:Eb; [done|]. simplify_eq. simpl in Hb. split_and!; [done..|]. lia.
Qed.

(** An observation never accepts a notification twice.  Of any notifications
    offered for a bound token, those accepted have strictly increasing Partial IVs,
    all above the last one accepted before, and at most one of them has none. *)
Theorem notifications_fresh t ns c r :
  rows_wf (sc_live c) → find_row t c = Some r → Forall opt_piv_wf ns →
  let acc := snd (deliver t ns c) in
  StronglySorted Z.lt (numbers acc) ∧
  (∀ m, lr_notify_number r = Some m → Forall (Z.lt m) (numbers acc)) ∧
  (bare acc ≤ if lr_notify_no_piv r then 0 else 1)%nat.
Proof.
  intros Hwf Hr Hns. simpl. destruct (deliver t ns c) as [c' acc] eqn:Hd. by eapply deliver_bounds.
Qed.
End bindings.

(** ** Concrete instances *)
Module Demo.
(** A stand-in for HKDF that keeps its length contract. *)
Definition hkdf (salt ikm info : list Z) (n : nat) : option (list Z) :=
  Some (replicate n (Z.of_nat (length info))).
Definition params : DeriveParams := mkDeriveParams [1; 2] [] [] [1] [].

(** The derived context, with the sender's counter and grant as given. *)
Definition ctx (seq stop : Z) : SecurityContext nat :=
  mkContext (mkId [0; 0; 0; 0; 0; 0; 0] 0) (mkId [1; 0; 0; 0; 0; 0; 0] 1) (replicate 16 0) 0
    (replicate 16 9) (replicate 16 10) (replicate 13 8) seq stop 0 0 [None; None].

Definition persist (stop d : Z) : Z * res unit unit := (stop, Ok tt).
Definition flaky (stop d : Z) : Z * res unit unit := (stop, Err tt).

(** The peer's first request, whose number is also our first. *)
Definition answer : RequestRef := mkRequestRef (mkId [1; 0; 0; 0; 0; 0; 0] 1) (mkPiv [0; 0; 0; 0; 0] 1).

(** A reservation, a use, a reservation whose acknowledgement is lost, a
    reboot, another reservation, another use and the answer to a request. *)
Lemma reached :
  node_reachable (H:=target64) hkdf 2 params (mkNode (ctx 5 6) 6 [mkPiv [4; 0; 0; 0; 0] 1; mkPiv [0; 0; 0; 0; 0] 1] [answer]).
Proof.
  assert (derive (T:=nat) (H:=target64) hkdf 2 params = Ok (ctx 0 U64_MAX)) as Hd by (vm_compute; reflexivity).
  assert (stores persist) as Hp by done. assert (stores flaky) as Hf by (intros stop d; by left).
  eapply (reach_step (T:=nat) (H:=target64) _ _ _ (mkNode (ctx 5 6) 6 [mkPiv [4; 0; 0; 0; 0] 1; mkPiv [0; 0; 0; 0; 0] 1] [])).
  2: { apply (step_respond (T:=nat)). split; [reflexivity|]. split; [|constructor]. exists [0]. split; [reflexivity|]. split; [unfold MAX_PIV_LEN; simpl; lia|].
    repeat constructor; lia. }
  eapply (reach_step (T:=nat) (H:=target64) _ _ _ (mkNode (ctx 4 6) 6 [mkPiv [0; 0; 0; 0; 0] 1] [])).
  2: { apply (step_take (T:=nat)). vm_compute. reflexivity. }
  eapply (reach_step (T:=nat) (H:=target64) _ _ _ (mkNode (ctx 4 4) 4 [mkPiv [0; 0; 0; 0; 0] 1] [])).
  2: { by eapply (step_reserve (T:=nat) (H:=target64) _ _ _ _ persist) with (additional := 2). }
  eapply (reach_step (T:=nat) (H:=target64) _ _ _ (mkNode (ctx 1 2) 4 [mkPiv [0; 0; 0; 0; 0] 1] [])).
  2: { eapply (step_reboot (T:=nat)); [exact Hd|]. vm_compute. reflexivity. }
  eapply (reach_step (T:=nat) (H:=target64) _ _ _ (mkNode (ctx 1 2) 2 [mkPiv [0; 0; 0; 0; 0] 1] [])).
  2: { by eapply (step_reserve (T:=nat) (H:=target64) _ _ _ _ flaky) with (additional := 2). }
  eapply (reach_step (T:=nat) (H:=target64) _ _ _ (mkNode (ctx 0 2) 2 [] [])).
  2: { apply (step_take (T:=nat)). vm_compute. reflexivity. }
  eapply (reach_step (T:=nat) (H:=target64) _ _ _ (mkNode (ctx 0 0) 0 [] [])).
  2: { by eapply (step_reserve (T:=nat) (H:=target64) _ _ _ _ persist) with (additional := 2). }
  apply reach_init. eapply node_first; [exact Hd|]. vm_compute. reflexivity.
Qed.
End Demo.

(** Witness: two messages, one on each side of a reboot, and an answer. *)
Lemma sender_nonces_unique_witness :
  ∃ a b x, request_nonce (E:=OscoreError) (Demo.ctx 5 6) (mkPiv [4; 0; 0; 0; 0] 1) = Ok a ∧
    request_nonce (E:=OscoreError) (Demo.ctx 5 6) (mkPiv [0; 0; 0; 0; 0] 1) = Ok b ∧
    response_nonce (E:=OscoreError) (Demo.ctx 5 6) Demo.answer = Ok x ∧ NoDup [a; b; x].
Proof.
  destruct (sender_nonces_unique (T:=nat) (H:=target64) Demo.hkdf 2 Demo.params _
    ltac:(intros salt ikm info k out [= <-]; apply length_replicate) Demo.reached) as ((ncs & xs & Hf & Hg & Hn) & _).
  apply Forall2_cons_inv_l in Hf as (a & l & Ha & Hf & ->). apply Forall2_cons_inv_l in Hf as (b & l' & Hb & Hf & ->).
  apply Forall2_cons_inv_l in Hg as (x & l2 & Hx & Hg & ->). apply Forall2_nil_inv_l in Hf as ->. apply Forall2_nil_inv_l in Hg as ->.
  exists a, b, x. split; [exact Ha|]. split; [exact Hb|]. split; [exact Hx|exact Hn].
Defined.

(** Witness: a large jump, a number inside the window and a stale one. *)
Lemma replay_window_exact_witness :
  replay_fresh (foldl replay_accept (Demo.ctx 0 0) [7; 100; 90]) 91 = true ↔
    91 < SEQ_END ∧ (91 ∉ [7; 100; 90]) ∧ top (filter (fun x => x < SEQ_END) [7; 100; 90]) - 31 ≤ 91.
Proof.
  apply replay_window_exact; [reflexivity..| |split; [lia|reflexivity]].
  repeat constructor; lia.
Defined.

(** Witness: the same receptions, recovered. *)
Lemma checkpoint_recovers_witness :
  ∃ ck c', from_parts 69 2149580801 = Ok ck ∧ restore_replay ck (Demo.ctx 0 0) = (c', Ok tt) ∧
    ∀ s, replay_fresh c' s = replay_fresh (foldl replay_accept (Demo.ctx 0 0) [69; 100; 90]) s.
Proof.
  apply (checkpoint_recovers (Demo.ctx 0 0) (Demo.ctx 0 0) [69; 100; 90]); [reflexivity..|].
  repeat constructor; lia.
Defined.

(** Witness: an empty table. *)
Lemma live_bindings_map_witness :
  rows_wf (sc_live (Demo.ctx 0 0)) ∧
  ∃ c', remember_live 3%nat (mkRequestRef (mkId [] 0) (mkPiv [] 0)) true (Demo.ctx 0 0) = (c', Ok tt) ∧
    is_observe c' 3%nat = true.
Proof.
  assert (rows_wf (sc_live (Demo.ctx 0 0))) as Hwf by (intros [|[|i]] j r r' Hi; simplify_eq/=).
  split; [exact Hwf|]. destruct (live_bindings_map (Demo.ctx 0 0) 3%nat Hwf) as [Hr _].
  specialize (Hr (mkRequestRef (mkId [] 0) (mkPiv [] 0)) true). eexists. split; [reflexivity|]. apply Hr.
Defined.

(** A table with one observed token. *)
Definition demo_row : LiveRequest nat :=
  mkLive 3%nat (mkRequestRef (mkId [] 0) (mkPiv [] 0)) true None false false (Some 5).

(** Witness: an old number, a new one, the new one again. *)
Lemma notifications_fresh_witness :
  let c := set_live (Demo.ctx 0 0) [Some demo_row] in
  let acc := snd (deliver 3%nat [Some (piv_of [4]); Some (piv_of [8]); Some (piv_of [8])] c) in
  StronglySorted Z.lt (numbers acc) ∧ numbers acc = [8].
Proof.
  split; [|reflexivity].
  apply (notifications_fresh 3%nat _ (set_live (Demo.ctx 0 0) [Some demo_row]) demo_row).
  - intros [|i] [|j] r r' Hi Hj _; simplify_eq/=; done.
  - reflexivity.
  - assert (∀ x, in_u 8 x → piv_wf (piv_of [x])) as Hp.
    { intros x Hx. exists [x]. split_and!; [done|simpl; unfold MAX_PIV_LEN; lia..|]. by constructor. }
    repeat constructor; apply Hp; split; lia.
Defined.
