(* ===== verification/OscoreProtect.v ===== *)
(** * Protecting and opening whole messages

    [src/oscore/protect.rs], with [seal_in_place] and [open] of
    [src/oscore/aead.rs].  AES-CCM is the class [Ccm], its documented
    behaviour the class [CcmLaws].  Functions that borrow a context and an
    output slice run on the pair of both; what a failing call has written or
    spent stays in it. *)
From S2P Require Import Prelude Errors MsgTypes Options Encode Decode Codec OptionsBuilder MessageOptions.
From S2P Require Import OscoreHeader OscoreCbor OscoreContext.

Definition TAG_LEN : nat := 8.
Definition OPT_SLOTS : nat := 16.
Definition INNER : nat := Z.to_nat 1280.

(** AES-CCM-16-64-128 with detached tags.  Encryption returns the new contents
    of its in-place buffer and the tag, or no tag on an error; decryption the
    contents of its output buffer and whether the tag was valid. *)
Class Ccm : Type := {
  ccm_encrypt : list Z → list Z → list Z → list Z → list Z * option (list Z);
  ccm_decrypt : list Z → list Z → list Z → list Z → list Z → list Z * bool
}.

(** A two-byte length field bounds the plaintext; within the bound encryption
    succeeds, keeps the length, and is undone by decryption under the same key,
    nonce and associated data. *)
Class CcmLaws `{Ccm} : Prop := {
  ccm_encrypt_ok key nonce aad pt :
    length key = KEY_LEN → length nonce = NONCE_LEN → (length aad ≤ 32)%nat →
    Z.of_nat (length pt) < 2 ^ 16 →
    ∃ ct tag, ccm_encrypt key nonce aad pt = (ct, Some tag) ∧ length ct = length pt ∧ length tag = TAG_LEN ∧
      ccm_decrypt key nonce aad ct tag = (pt, true)
}.

(** Run code on one half of the borrowed pair, or on a sub-slice. *)
Definition on_fst {S R E A} (m : st S E A) : st (S * R) E A := fun '(s, r) =>
  match m s with (s, a) => ((s, r), a) end.
Definition on_snd {S R E A} (m : st R E A) : st (S * R) E A := fun '(s, r) =>
  match m r with (r, a) => ((s, r), a) end.
Definition on_slice {E A} (a b : nat) (m : st (list Z) E A) : st (list Z) E A := fun out =>
  match slice_idx (E:=E) out a b with
  | Ok part => match m part with (part, r) => (splice out a part, r) end
  | _ => (out, Panic)
  end.

Section aead.
Context `{Target, Ccm}.

Definition seal_in_place (key nonce aad : list Z) (plaintext_len : nat) : st (list Z) OscoreError nat :=
  n ← st_lift (ok_or (usize_checked_add plaintext_len TAG_LEN) OMessageLength);
  buffer ← st_get;
  if (length buffer <? n)%nat then st_fail OBufferTooSmall
  else
    pt ← st_lift (slice_idx buffer 0 plaintext_len);
    let '(ct, tag) := ccm_encrypt key nonce aad pt in
    st_put (splice buffer 0 ct);;
    tag ← st_lift (ok_or tag OEncrypt);
    st_upd (copy_into plaintext_len n tag);;
    mret n.

Definition aead_open (key nonce aad ciphertext : list Z) : st (list Z) OscoreError nat :=
  if (length ciphertext <? TAG_LEN)%nat then st_fail OMessageLength
  else
    let pt_len := (length ciphertext - TAG_LEN)%nat in
    out ← st_get;
    if (length out <? pt_len)%nat then st_fail OBufferTooSmall
    else
      tag ← st_lift (slice_idx ciphertext pt_len (length ciphertext));
      body ← st_lift (slice_idx ciphertext 0 pt_len);
      let '(pt, valid) := ccm_decrypt key nonce aad body tag in
      st_put (splice out 0 pt);;
      if (valid : bool) then mret pt_len else st_fail ODecrypt.
End aead.

(** ** Inner and outer halves of a message *)
Section halves.
Context `{Target}.

Definition is_observe_opt (opt : Opt) : bool := opt_number opt =? 6.

Definition outer_code (inner : Code) (opts : list Opt) : Code :=
  if negb (existsb is_observe_opt opts) then if Code_is_request inner then Code_POST else Code_CHANGED
  else if Code_is_request inner then Code_FETCH
  else Code_CONTENT.

(** The [for opt in plain.options()] loop. *)
Fixpoint plaintext_options (notify : bool) (opts : list Opt) (i : nat) (prev : Z)
    : st (list Z) OscoreError nat :=
  match opts with
  | [] => mret i
  | opt :: opts =>
      let n := opt_number opt in
      if is_oscore n || negb (in_plaintext (classify n)) then plaintext_options notify opts i prev
      else if n <? prev then st_fail (OEncode OptionsNotAscending)
      else
        let value := if (n =? 6) && notify then [] else opt_value opt in
        i ← st_map_err OEncode (write_option i (n - prev) value);
        plaintext_options notify opts i n
  end.

Definition plaintext_payload (payload : list Z) (i : nat) : st (list Z) OscoreError nat :=
  if is_nil payload then mret i
  else
    out ← st_get;
    if (length out <=? i)%nat then st_fail OBufferTooSmall
    else
      st_upd (set_idx i 255);;
      let i := (i + 1)%nat in
      end_ ← st_lift (ok_or (usize_checked_add i (length payload)) OBufferTooSmall);
      if (length out <? end_)%nat then st_fail OBufferTooSmall
      else
        st_upd (copy_into i end_ payload);;
        mret end_.

Definition encode_plaintext {T} (plain : Message T) : st (list Z) OscoreError nat :=
  out ← st_get;
  if is_nil out then st_fail OBufferTooSmall
  else
    st_upd (set_idx 0 (Code_as_raw (msg_code _ plain)));;
    i ← plaintext_options (Code_is_response (msg_code _ plain)) (msg_options _ plain) 1 0;
    plaintext_payload (msg_payload _ plain) i.

(** [opts.push(opt).map_err(|_| e)] for the options that satisfy [keep]. *)
Fixpoint push_where (keep : Opt → bool) (b : OptionsBuilder) (opts : list Opt)
    : res OscoreError OptionsBuilder :=
  match opts with
  | [] => Ok b
  | opt :: opts =>
      if negb (keep opt) then push_where keep b opts
      else
        b ← map_err (fun _ => OOptions) (OptionsBuilder_push OPT_SLOTS b opt);
        push_where keep b opts
  end.

Definition outer_keep (opt : Opt) : bool :=
  negb (is_oscore (opt_number opt) || negb (encode_as_outer (opt_number opt))).

Section tokens.
Context {T : Type} `{OwnedToken T}.

Definition encode_outer (ty : MType) (code : Code) (mid : MessageId) (token : T) (inner_opts : list Opt)
    (piv : option PartialIv) (kid_context kid : option (list Z)) (ciphertext : list Z)
    : st (list Z) OscoreError nat :=
  let '(oscore, r) := encode_option piv kid_context kid
    (replicate (1 + MAX_PIV_LEN + 1 + MAX_ID_CONTEXT_LEN + MAX_ID_LEN) 0) in
  oscore_n ← st_lift r;
  opts ← st_lift (push_where outer_keep (OptionsBuilder_new OPT_SLOTS) inner_opts);
  value ← st_lift (slice_idx oscore 0 oscore_n);
  opts ← st_lift (map_err (fun _ => OOptions) (OptionsBuilder_push OPT_SLOTS opts (Opt_oscore value)));
  opts ← st_lift (if Code_is_response code && existsb is_observe_opt inner_opts
                  then map_err (fun _ => OEncode EncodeOptionsFull)
                         (OptionsBuilder_push OPT_SLOTS opts (mkOpt ON_MAX_AGE []))
                  else Ok opts);
  slice ← st_lift (OptionsBuilder_as_slice opts);
  st_map_err OEncode
    (encode (Message_with_payload
       (Message_with_options (Message_with_token (Message_new ty code mid) token) slice) ciphertext)).

Context `{Ccm}.

(** Plaintext and tag into one buffer. *)
Definition seal_plaintext (plain : Message T) (key nonce aad : list Z) : st (list Z) OscoreError nat :=
  pt_len ← encode_plaintext plain;
  seal_in_place key nonce aad pt_len.

Definition seal_direct (plain : Message T) (key nonce aad : list Z) (piv : option PartialIv)
    (kid_context kid : option (list Z)) : st (list Z) OscoreError nat :=
  prefix ← encode_outer (msg_ty _ plain) (outer_code (msg_code _ plain) (msg_options _ plain)) (msg_id _ plain)
             (msg_token _ plain) (msg_options _ plain) piv kid_context kid [];
  out ← st_get;
  tail ← st_lift (ok_or (slice_get out prefix (length out)) OBufferTooSmall);
  match tail with
  | [] => st_fail OBufferTooSmall
  | _ :: ciphertext =>
      st_upd (set_idx prefix 255);;
      let capacity := Nat.min (length ciphertext) INNER in
      ct_len ← on_slice (prefix + 1) (prefix + 1 + capacity) (seal_plaintext plain key nonce aad);
      mret (prefix + 1 + ct_len)%nat
  end.

Definition seal_message_staged (plain : Message T) (key nonce aad : list Z) (piv : option PartialIv)
    (kid_context kid : option (list Z)) : st (list Z) OscoreError nat :=
  let '(ciphertext, r) := seal_plaintext plain key nonce aad (replicate INNER 0) in
  ct_len ← st_lift r;
  ct ← st_lift (slice_idx ciphertext 0 ct_len);
  encode_outer (msg_ty _ plain) (outer_code (msg_code _ plain) (msg_options _ plain)) (msg_id _ plain)
    (msg_token _ plain) (msg_options _ plain) piv kid_context kid ct.

Definition seal_message (plain : Message T) (key nonce aad : list Z) (piv : option PartialIv)
    (kid_context kid : option (list Z)) : st (list Z) OscoreError nat := fun out =>
  match seal_direct plain key nonce aad piv kid_context kid out with
  | (out, Err _) => seal_message_staged plain key nonce aad piv kid_context kid out
  | r => r
  end.

Definition stitch_keep (opt : Opt) : bool :=
  negb (is_oscore (opt_number opt) ||
        match classify (opt_number opt) with ClassOuter => false | _ => true end).

Definition stitch_inner (ty : MType) (mid : MessageId) (token : T) (outer_opts : list Z)
    (plaintext : list Z) : st (list Z) OscoreError nat :=
  if is_nil plaintext then st_fail OMessageLength
  else
    body ← st_lift (slice_idx plaintext 1 (length plaintext));
    '(inner_opts, payload) ← st_lift (map_err OParse (decode_options_payload body));
    outer_list ← st_lift (Options_iter outer_opts);
    opts ← st_lift (push_where stitch_keep (OptionsBuilder_new OPT_SLOTS) outer_list);
    inner_list ← st_lift (Options_collect (S (length (os_bytes inner_opts))) inner_opts);
    opts ← st_lift (push_where (fun _ => true) opts inner_list);
    slice ← st_lift (OptionsBuilder_as_slice opts);
    code ← st_lift (idx plaintext 0);
    out ← st_get;
    let limit := Nat.min (length out) INNER in
    on_slice 0 limit
      (st_map_err OEncode
         (encode (Message_with_payload (Message_with_options
            (Message_with_token (Message_new ty (Code_from_raw code) mid) token) slice) payload))).

Definition decode_owned (wire : list Z) : res OscoreError (ParsedMessage T) :=
  map_err (fun error => match error with Malformed e => OParse e | Capacity _ => OMessageLength end)
    (decode_with_token wire).

Definition parse_protected (protected : ParsedMessage T) : res OscoreError OscoreHeader :=
  value ← pm_oscore protected;
  value ← ok_or value OHeader;
  if is_nil (pm_payload _ protected) then Err OMessageLength
  else OscoreHeader_parse value.
End tokens.
End halves.

(** ** The entry points *)
#[export] Instance Id_eq_dec : EqDecision Id.
Proof. solve_decision. Defined.
#[export] Instance PartialIv_eq_dec : EqDecision PartialIv.
Proof. solve_decision. Defined.
#[export] Instance RequestRef_eq_dec : EqDecision RequestRef.
Proof. solve_decision. Defined.

Section protect.
Context `{Target, Ccm}.
Context {T : Type} `{OwnedToken T, !EqDecision T}.

(** The borrowed context and output slice. *)
Definition oscore_st (A : Type) : Type := st (SecurityContext T * list Z) OscoreError A.

Definition is_block2_opt (opt : Opt) : bool :=
  (opt_number opt =? ON_BLOCK2) || (opt_number opt =? ON_Q_BLOCK2).

Definition protect_request (plain : Message T) : oscore_st nat :=
  if negb (Code_is_request (msg_code _ plain)) then st_fail OMessageLength
  else
    piv ← on_fst take_sender_piv;
    '(ctx, _) ← st_get;
    let request := request_ref ctx piv in
    nonce ← st_lift (request_nonce ctx piv);
    kid ← st_lift (RequestRef_kid request);
    piv_bytes ← st_lift (PartialIv_as_bytes piv);
    aad ← st_lift (Aad_new kid piv_bytes);
    ctx_bytes ← st_lift (id_context ctx);
    let kid_ctx := if is_nil ctx_bytes then None else Some ctx_bytes in
    aad_bytes ← st_lift (Aad_as_bytes aad);
    sender ← st_lift (Id_as_bytes (sc_sender_id ctx));
    n ← on_snd (seal_message plain (sc_sender_key ctx) nonce aad_bytes (Some piv) kid_ctx (Some sender));
    let observe := existsb is_observe_opt (msg_options _ plain) in
    if negb observe && existsb is_block2_opt (msg_options _ plain)
    then on_fst (remember_download (msg_token _ plain) request);; mret n
    else on_fst (remember_live (msg_token _ plain) request observe);; mret n.

Definition unprotect_request_wire (protected : ParsedMessage T) : oscore_st (list Z * RequestRef) :=
  header ← st_lift (parse_protected protected);
  '(ctx, _) ← st_get;
  ours ← st_lift (matches_recipient ctx (oh_kid header) (oh_kid_context header));
  if negb ours then st_fail OContext
  else
    piv ← st_lift (ok_or (oh_piv header) OPartialIv);
    seq ← st_lift (PartialIv_seq piv);
    if negb (replay_fresh ctx seq) then st_fail OReplay
    else if (length (pm_payload _ protected) <? TAG_LEN)%nat then st_fail OMessageLength
    else
      let kid := default [] (oh_kid header) in
      piv_bytes ← st_lift (PartialIv_as_bytes piv);
      aad ← st_lift (Aad_new kid piv_bytes);
      nonce ← st_lift (recipient_nonce ctx piv);
      aad_bytes ← st_lift (Aad_as_bytes aad);
      let '(plaintext, r) :=
        aead_open (sc_recipient_key ctx) nonce aad_bytes (pm_payload _ protected) (replicate INNER 0) in
      pt_len ← st_lift r;
      on_fst (st_put (replay_accept ctx seq));;
      pt ← st_lift (slice_idx plaintext 0 pt_len);
      first ← st_lift (ok_or (head pt) OMessageLength);
      if negb (Code_is_request (Code_from_raw first)) then st_fail OMessageCode
      else
        n ← on_snd (stitch_inner (pm_ty protected) (pm_message_id protected) (pm_token _ protected)
                      (pm_options _ protected) pt);
        request ← st_lift (from_kid kid piv);
        '(_, out) ← st_get;
        wire ← st_lift (slice_idx out 0 n);
        mret (wire, request).

Definition unprotect_request (protected : ParsedMessage T) : oscore_st (ParsedMessage T * RequestRef) :=
  '(wire, request) ← unprotect_request_wire protected;
  pm ← st_lift (decode_owned wire);
  mret (pm, request).

Definition protect_response (ctx : SecurityContext T) (plain : Message T) (request : RequestRef)
    : st (list Z) OscoreError nat :=
  if negb (Code_is_response (msg_code _ plain)) then st_fail OMessageLength
  else
    kid ← st_lift (RequestRef_kid request);
    piv_bytes ← st_lift (PartialIv_as_bytes (rr_piv request));
    aad ← st_lift (Aad_new kid piv_bytes);
    nonce ← st_lift (nonce (sc_common_iv ctx) kid (rr_piv request));
    aad_bytes ← st_lift (Aad_as_bytes aad);
    seal_message plain (sc_sender_key ctx) nonce aad_bytes None None None.

Definition protect_response_piv (plain : Message T) (request : RequestRef) : oscore_st nat :=
  if negb (Code_is_response (msg_code _ plain)) then st_fail OMessageLength
  else
    piv ← on_fst take_sender_piv;
    kid ← st_lift (RequestRef_kid request);
    piv_bytes ← st_lift (PartialIv_as_bytes (rr_piv request));
    aad ← st_lift (Aad_new kid piv_bytes);
    '(ctx, _) ← st_get;
    nonce ← st_lift (request_nonce ctx piv);
    aad_bytes ← st_lift (Aad_as_bytes aad);
    on_snd (seal_message plain (sc_sender_key ctx) nonce aad_bytes (Some piv) None None).

(** [match m { Ok(a) => k, Err(Error::Decrypt) => retry, Err(e) => return Err(e) }]. *)
Definition or_decrypt {S A B} (m : st S OscoreError A) (k : A → st S OscoreError B)
    (retry : st S OscoreError B) : st S OscoreError B := fun s =>
  match m s with
  | (s, Ok a) => k a s
  | (s, Err ODecrypt) => retry s
  | (s, Err e) => (s, Err e)
  | (s, Panic) => (s, Panic)
  | (s, Diverge) => (s, Diverge)
  end.

(** The [for candidate in ...] loop: the scratch buffer, and what was
    accepted. *)
Fixpoint try_candidates (ctx : SecurityContext T) (header : OscoreHeader) (payload : list Z)
    (candidates : list RequestRef) : st (list Z) OscoreError (option (nat * RequestRef)) :=
  match candidates with
  | [] => mret None
  | candidate :: candidates =>
      kid ← st_lift (RequestRef_kid candidate);
      piv_bytes ← st_lift (PartialIv_as_bytes (rr_piv candidate));
      aad ← st_lift (Aad_new kid piv_bytes);
      nonce ← st_lift (match oh_piv header with
                       | Some piv => rid ← Id_as_bytes (sc_recipient_id ctx); nonce (sc_common_iv ctx) rid piv
                       | None => nonce (sc_common_iv ctx) kid (rr_piv candidate)
                       end);
      aad_bytes ← st_lift (Aad_as_bytes aad);
      or_decrypt (aead_open (sc_recipient_key ctx) nonce aad_bytes payload)
        (fun len => mret (Some (len, candidate)))
        (try_candidates ctx header payload candidates)
  end.

Definition unprotect_response_candidates (ctx : SecurityContext T) (protected : ParsedMessage T)
    (request : RequestRef) (fallback : option RequestRef) : st (list Z) OscoreError (list Z * RequestRef) :=
  header ← st_lift (parse_protected protected);
  if (length (pm_payload _ protected) <? TAG_LEN)%nat then st_fail OMessageLength
  else
    let '(plaintext, r) := try_candidates ctx header (pm_payload _ protected)
      (request :: match fallback with Some f => [f] | None => [] end) (replicate INNER 0) in
    accepted ← st_lift r;
    '(len, request) ← st_lift (ok_or accepted ODecrypt);
    pt ← st_lift (slice_idx plaintext 0 len);
    first ← st_lift (ok_or (head pt) OMessageLength);
    if negb (Code_is_response (Code_from_raw first)) then st_fail OMessageCode
    else
      n ← stitch_inner (pm_ty protected) (pm_message_id protected) (pm_token _ protected)
            (pm_options _ protected) pt;
      out ← st_get;
      wire ← st_lift (slice_idx out 0 n);
      mret (wire, request).

Definition unprotect_response (ctx : SecurityContext T) (protected : ParsedMessage T) (request : RequestRef)
    : st (list Z) OscoreError (ParsedMessage T) :=
  '(wire, _) ← unprotect_response_candidates ctx protected request None;
  st_lift (decode_owned wire).

Definition unprotect_bound_response_wire (ctx : SecurityContext T) (protected : ParsedMessage T)
    : st (list Z) OscoreError (list Z * RequestRef) :=
  request ← st_lift (ok_or (lookup_request ctx (pm_token _ protected)) OContext);
  let observation :=
    match observe_request ctx (pm_token _ protected) with
    | Some old => if eqb old request then None else Some old
    | None => None
    end in
  unprotect_response_candidates ctx protected request observation.
End protect.

(** ** What the halves contain *)
Definition in_plain (opt : Opt) : bool :=
  negb (is_oscore (opt_number opt) || negb (in_plaintext (classify (opt_number opt)))).
Definition inner_view (notify : bool) (opt : Opt) : Opt :=
  if (opt_number opt =? 6) && notify then mkOpt (opt_number opt) [] else opt.
Definition inner_options (notify : bool) (os : list Opt) : list Opt :=
  map (inner_view notify) (filter (fun o => in_plain o = true) os).

(** The plaintext of RFC 8613 section 5.3. *)
Definition plain_wire {T} (m : Message T) : list Z :=
  msg_code _ m :: options_wire 0 (inner_options (Code_is_response (msg_code _ m)) (msg_options _ m))
    ++ payload_wire (msg_payload _ m).

Section plaintext.
Context `{Target}.

Lemma plaintext_options_eq (notify : bool) (os : list Opt) (i : nat) (prev : Z) (buf : list Z) :
  plaintext_options notify os i prev buf = st_map_err OEncode (encode_options (inner_options notify os) i prev) buf.
Proof.
  revert i prev buf. induction os as [|o os IH]; intros i prev buf; [done|]. cbn [plaintext_options].
  unfold inner_options. rewrite filter_cons. change (in_plain o) with
    (negb (is_oscore (opt_number o) || negb (in_plaintext (classify (opt_number o))))).
  destruct (is_oscore (opt_number o) || _); [apply IH|]. cbn [negb]. rewrite decide_True by done. cbn [map encode_options].
  fold (inner_options notify os). unfold inner_view.
  destruct ((opt_number o =? 6) && notify); cbn [opt_number opt_value];
    (destruct (opt_number o <? prev); [done|]); unfold st_map_err; unbind;
    (destruct (write_option _ _ _ buf) as [buf' [k|e| |]]; [|done..]); cbn [map_err]; by rewrite IH.
Qed.

Lemma plaintext_payload_eq (payload : list Z) (i : nat) (buf : list Z) :
  plaintext_payload payload i buf = st_map_err (fun _ => OBufferTooSmall) (encode_payload payload i) buf.
Proof.
  unfold plaintext_payload, encode_payload, st_map_err. destruct (is_nil payload); [done|]. unbind.
  destruct (length buf <=? i)%nat; [done|]. destruct (set_idx i 255 buf) eqn:E1.
  - assert (set_idx (E:=EncodeError) i 255 buf = Ok a) as -> by (unfold set_idx in *; by case_match; simplify_eq).
    destruct (usize_checked_add _ _) as [stop|]; [|done]. unfold ok_or. destruct (length buf <? stop)%nat; [done|].
    unfold copy_into. by destruct (_ && _).
  - unfold set_idx in E1. by case_match.
  - assert (set_idx (E:=EncodeError) i 255 buf = Panic) as -> by (unfold set_idx in *; by case_match). done.
  - unfold set_idx in E1. by case_match.
Qed.

Lemma encode_plaintext_ok {T} (m : Message T) (buf : list Z) :
  opts_wf 0 (inner_options (Code_is_response (msg_code _ m)) (msg_options _ m)) →
  slice_fits (msg_payload _ m) → slice_fits buf → (length (plain_wire m) ≤ length buf)%nat →
  encode_plaintext m buf = (splice buf 0 (plain_wire m), Ok (length (plain_wire m))).
Proof.
  intros Hw Hp Hb. unfold plain_wire, encode_plaintext. set (os := inner_options _ _) in *.
  cbn [length]. rewrite length_app. intros Hl. destruct buf as [|b0 buf']; [simpl in Hl; lia|].
  set (buf := b0 :: buf') in *. unbind. change (is_nil buf) with false. cbn beta iota.
  rewrite set_idx_ok by lia. unfold Code_as_raw.
  rewrite plaintext_options_eq. fold os. unfold st_map_err.
  match goal with |- context [encode_options os 1 0 ?b] => remember b as buf1 eqn:Hb1 end.
  assert (length buf1 = length buf) as Hl1 by (rewrite Hb1; apply length_splice; simpl in *; lia).
  destruct (opts_wf_typed 0 os) as (Ht & Ha & Hx); [lia|done|].
  pose proof (encode_options_spec os 1 0 buf1 Ht) as Ho. unfold slice_fits in *. rewrite Hl1 in Ho.
  specialize (Ho Hb ltac:(lia) ltac:(lia)).
  destruct (encode_options os 1 0 buf1) as [buf2 [k|e| |]]; destruct Ho as [Hl2 Ho]; try done.
  2: { destruct e; (try done); lia. }
  destruct Ho as (_ & -> & _ & ->). cbn [map_err]. rewrite plaintext_payload_eq. unfold st_map_err.
  assert (splice buf1 1 (options_wire 0 os) = splice buf 0 (msg_code T m :: options_wire 0 os)) as ->
    by (rewrite Hb1, splice_splice; done || lia).
  assert (length (splice buf 0 (msg_code T m :: options_wire 0 os)) = length buf) as Hl3
    by (rewrite length_splice; simpl in *; lia).
  pose proof (encode_payload_spec (msg_payload T m) (1 + length (options_wire 0 os))
    (splice buf 0 (msg_code T m :: options_wire 0 os))) as Hq. unfold slice_fits in *. rewrite Hl3 in Hq.
  specialize (Hq Hp Hb ltac:(lia)).
  destruct (encode_payload _ _ _) as [buf4 [k|e| |]]; destruct Hq as [_ Hq]; try done.
  2: { destruct e; (try done); lia. }
  destruct Hq as (-> & _ & ->). cbn [map_err]. rewrite splice_splice by (simpl in *; lia). done.
Qed.
End plaintext.

(** ** Option lists *)
Section lists.

(** An option with a wire form. *)
Definition opt_ok (o : Opt) : Prop :=
  0 ≤ opt_number o ≤ 65535 ∧ bytes_ok (opt_value o) ∧ Z.of_nat (length (opt_value o)) ≤ 65804.

Lemma opts_wf_alt (prev : Z) (os : list Opt) :
  0 ≤ prev →
  opts_wf prev os ↔ StronglySorted number_le os ∧ Forall opt_ok os ∧ Forall (fun o => prev ≤ opt_number o) os.
Proof.
  revert prev. induction os as [|o os IH]; intros prev Hp; simpl.
  { split; [|done]. intros _. split_and!; constructor. }
  split.
  - intros (Hn & Hb & Hl & Hw). apply IH in Hw as (Hs & Ho & Hge); [|lia]. split_and!.
    + by constructor.
    + constructor; [|done]. unfold opt_ok. split_and!; done || lia.
    + constructor; [lia|]. eapply Forall_impl; [exact Hge|]. simpl. lia.
  - intros (Hs & Ho & Hge). apply StronglySorted_inv in Hs as [Hs Hle].
    apply Forall_cons in Ho as [(Hn & Hb & Hl) Ho]. apply Forall_cons in Hge as [Hge _].
    split_and!; try done; try lia. by apply IH; [lia|].
Qed.

Lemma opts_wf_0 (os : list Opt) : opts_wf 0 os ↔ StronglySorted number_le os ∧ Forall opt_ok os.
Proof.
  rewrite opts_wf_alt by lia. split; [by intros (? & ? & _)|]. intros [Hs Ho]. split_and!; [done..|].
  eapply Forall_impl; [exact Ho|]. intros o (Hn & _). lia.
Qed.

Lemma sorted_filter (P : Opt → Prop) `{∀ x, Decision (P x)} (l : list Opt) :
  StronglySorted number_le l → StronglySorted number_le (filter P l).
Proof.
  induction 1 as [|x l Hs IH Hx]; [constructor|]. rewrite filter_cons. case_decide; [|done]. constructor; [done|].
  rewrite Forall_forall in *. intros y [_ Hy]%list_elem_of_filter. auto.
Qed.

Lemma inner_view_number (notify : bool) (o : Opt) : opt_number (inner_view notify o) = opt_number o.
Proof. unfold inner_view. by destruct (_ && _). Qed.

Lemma sorted_view (notify : bool) (l : list Opt) :
  StronglySorted number_le l → StronglySorted number_le (map (inner_view notify) l).
Proof.
  induction 1 as [|o l Hs IH Hle]; [constructor|]. simpl. constructor; [done|]. apply Forall_map.
  eapply Forall_impl; [exact Hle|]. intros x. unfold number_le. simpl. by rewrite !inner_view_number.
Qed.

Lemma opt_ok_view (notify : bool) (o : Opt) : opt_ok o → opt_ok (inner_view notify o).
Proof.
  intros (Hn & Hb & Hl). unfold opt_ok. rewrite inner_view_number. split; [done|]. unfold inner_view.
  destruct (_ && _); [|done]. simpl. split; [constructor|lia].
Qed.

Lemma view_filter_wf (notify : bool) (P : Opt → Prop) `{∀ x, Decision (P x)} (os : list Opt) :
  opts_wf 0 os → opts_wf 0 (map (inner_view notify) (filter P os)).
Proof.
  rewrite !opts_wf_0. intros [Hs Ho]. split; [by apply sorted_view, sorted_filter|]. apply Forall_map, Forall_forall.
  intros o [_ Hin]%list_elem_of_filter. rewrite Forall_forall in Ho. by apply opt_ok_view, Ho.
Qed.

(** Sorted lists agree when their sublists of each number do. *)
Lemma sorted_ext (l l' : list Opt) :
  StronglySorted number_le l → StronglySorted number_le l' →
  (∀ n, filter (fun p => opt_number p = n) l = filter (fun p => opt_number p = n) l') → l = l'.
Proof.
  intros Hs. revert l'. induction Hs as [|x l Hs IH Hx]; intros l' Hs' Hf.
  - destruct l' as [|y l']; [done|]. specialize (Hf (opt_number y)). by rewrite filter_cons_True in Hf.
  - destruct Hs' as [|y l' Hs' Hy].
    { specialize (Hf (opt_number x)). by rewrite filter_cons_True in Hf. }
    assert (opt_number x = opt_number y) as Hxy.
    { apply Z.le_antisymm.
      - assert (y ∈ filter (fun p => opt_number p = opt_number y) (x :: l)) as Hin
          by (rewrite Hf, filter_cons_True by done; left).
        apply list_elem_of_filter in Hin as [_ [->|Hin]%elem_of_cons]; [done|].
        rewrite Forall_forall in Hx. by apply Hx.
      - assert (x ∈ filter (fun p => opt_number p = opt_number x) (y :: l')) as Hin
          by (rewrite <- Hf, filter_cons_True by done; left).
        apply list_elem_of_filter in Hin as [_ [->|Hin]%elem_of_cons]; [done|].
        rewrite Forall_forall in Hy. by apply Hy. }
    pose proof (Hf (opt_number x)) as Hh. rewrite !filter_cons_True in Hh by done. injection Hh as -> Hh. f_equal.
    apply IH; [done|]. intros n. specialize (Hf n). rewrite !filter_cons in Hf. case_decide; [by simplify_eq|done].
Qed.

(** [push_where] inserts what it keeps, as long as there is room. *)
Lemma push_where_all (keep : Opt → bool) (b : OptionsBuilder) (os : list Opt) :
  push_where keep b os = map_err (fun _ => OOptions) (push_all OPT_SLOTS b (filter (fun o => keep o = true) os)).
Proof.
  revert b. induction os as [|o os IH]; intros b; [done|]. cbn [push_where]. rewrite filter_cons.
  destruct (keep o); cbn [negb]; [|apply IH]. rewrite decide_True by done. cbn [push_all]. unbind.
  destruct (OptionsBuilder_push _ _ _); try done. cbn [map_err]. by rewrite IH.
Qed.

Lemma push_all_sorted (os : list Opt) (b : OptionsBuilder) :
  builder_inv OPT_SLOTS b → (ob_len b + length os ≤ OPT_SLOTS)%nat →
  ∃ b', push_all OPT_SLOTS b os = Ok b' ∧ builder_inv OPT_SLOTS b' ∧
    ob_len b' = (ob_len b + length os)%nat ∧ used b' ≡ₚ used b ++ os ∧
    ∀ n, filter (fun p => opt_number p = n) (used b') = filter (fun p => opt_number p = n) (used b ++ os).
Proof.
  intros Hb Hl. destruct (push_all_spec OPT_SLOTS os b Hb Hl) as (b' & Hp & Hb' & Hu & Hn).
  exists b'. destruct (foldl_insert_stable os (used b)) as [Hperm Hf]. rewrite Hu. done.
Qed.

Lemma as_slice_used {E} (b : OptionsBuilder) :
  builder_inv OPT_SLOTS b → OptionsBuilder_as_slice (E:=E) b = Ok (used b).
Proof. intros (Hl & Hn & _). unfold OptionsBuilder_as_slice. by rewrite (proj2 (Nat.leb_le _ _)) by lia. Qed.
End lists.

(** ** The outer message *)
Definition outer_extra (code : Code) (os : list Opt) : list Opt :=
  if Code_is_response code && existsb is_observe_opt os then [mkOpt ON_MAX_AGE []] else [].

Definition insert_all (l os : list Opt) : list Opt := foldl (fun l o => insert_stable o l) l os.

(** Options of the outer message, in wire order. *)
Definition outer_opts (code : Code) (os : list Opt) (value : list Z) : list Opt :=
  insert_all [] (filter (fun o => outer_keep o = true) os ++ [Opt_oscore value] ++ outer_extra code os).

Definition outer_count (code : Code) (os : list Opt) : nat :=
  length (filter (fun o => outer_keep o = true) os ++ [Opt_oscore []] ++ outer_extra code os).

(** Legal fields of an OSCORE option. *)
Definition header_ok (bs : list Z) (ctx kid : option (list Z)) : Prop :=
  (length bs ≤ MAX_PIV_LEN)%nat ∧ bytes_ok bs ∧ too_long ctx MAX_ID_CONTEXT_LEN = false ∧
  too_long kid MAX_ID_LEN = false ∧ bytes_ok (default [] ctx) ∧ bytes_ok (default [] kid).

Lemma header_flags_byte (n : nat) (k h : bool) : (n ≤ 5)%nat → in_u 8 (header_flags n k h).
Proof. intros Hn. do 6 (destruct n as [|n]; [by destruct k, h|]). lia. Qed.

Lemma oscore_wire_ok (bs : list Z) (ctx kid : option (list Z)) :
  header_ok bs ctx kid →
  (length (oscore_wire bs ctx kid) ≤ 30)%nat ∧ bytes_ok (oscore_wire bs ctx kid).
Proof.
  intros (Hl & Hb & Hc & Hk & Hbc & Hbk). unfold oscore_wire. unfold MAX_PIV_LEN in Hl.
  destruct (_ && _); [split; [simpl; lia|constructor]|]. split.
  - unfold too_long, MAX_ID_CONTEXT_LEN, MAX_ID_LEN in *. cbn [length]. rewrite !length_app.
    destruct ctx as [c|], kid as [k|]; bools; simpl; lia.
  - apply bytes_ok_cons. split.
    + by apply header_flags_byte.
    + rewrite !bytes_ok_app. split_and!; [done| |done].
      destruct ctx as [c|]; simpl in *; [|constructor]. apply bytes_ok_cons. split; [|done]. bools.
      unfold MAX_ID_CONTEXT_LEN in *. unfold in_u. lia.
Qed.

Section outer.
Context `{Target} {T : Type} `{OwnedTokenLaws T}.

Lemma encode_ok (m : Message T) (tb buf : list Z) :
  (∀ E, ot_as_bytes (E:=E) (msg_token _ m) = Ok tb) → in_u 16 (msg_id _ m) →
  msg_wf (msg_code _ m) tb (msg_options _ m) (msg_payload _ m) → slice_fits (msg_payload _ m) → slice_fits buf →
  let wire := msg_wire (msg_ty _ m) (msg_code _ m) (msg_id _ m) tb (msg_options _ m) (msg_payload _ m) in
  (length wire ≤ length buf)%nat → encode m buf = (splice buf 0 wire, Ok (length wire)).
Proof.
  intros Hb Hid Hwf Hp Hbuf wire Hl. rewrite (encode_bytes m tb Hb).
  assert (Code_is_empty (msg_code T m) &&
    (negb (is_nil tb) || negb (is_nil (msg_options T m)) || negb (is_nil (msg_payload T m))) = false) as ->.
  { unfold Code_is_empty. destruct (Z.eqb_spec (msg_code T m) 0) as [E|]; [|done].
    destruct Hwf as (_ & _ & Hwf). by destruct (Hwf E) as (-> & -> & ->). }
  by apply encode_token_iter_ok.
Qed.

Lemma insert_all_sorted (l os : list Opt) : StronglySorted number_le l → StronglySorted number_le (insert_all l os).
Proof. revert l. induction os as [|o os IH]; intros l Hl; [done|]. by apply IH, insert_stable_sorted. Qed.

Lemma insert_all_app (l a b : list Opt) : insert_all l (a ++ b) = insert_all (insert_all l a) b.
Proof. apply foldl_app. Qed.

Lemma insert_all_perm (os : list Opt) : insert_all [] os ≡ₚ os.
Proof. apply (foldl_insert_stable os []). Qed.

Lemma insert_all_number (os : list Opt) (n : Z) :
  filter (fun p => opt_number p = n) (insert_all [] os) = filter (fun p => opt_number p = n) os.
Proof. apply (foldl_insert_stable os []). Qed.

Lemma outer_opts_wf (code : Code) (os : list Opt) (value : list Z) :
  Forall opt_ok os → bytes_ok value → Z.of_nat (length value) ≤ 65804 → opts_wf 0 (outer_opts code os value).
Proof.
  intros Hos Hv Hl. apply opts_wf_0. split; [apply insert_all_sorted; constructor|].
  unfold outer_opts. rewrite insert_all_perm, !Forall_app. split_and!.
  - apply Forall_forall. intros o [_ Ho]%list_elem_of_filter. rewrite Forall_forall in Hos. by apply Hos.
  - constructor; [|done]. unfold opt_ok. simpl. unfold ON_OSCORE. split_and!; done || lia.
  - unfold outer_extra. destruct (_ && _); [|done]. constructor; [|done]. unfold opt_ok, ON_MAX_AGE. simpl.
    split_and!; done || lia || constructor.
Qed.

(** [encode_outer] encodes exactly the outer message. *)
Lemma encode_outer_ok (ty : MType) (code : Code) (mid : MessageId) (token : T) (tb : list Z) (os : list Opt)
    (bs : list Z) (ctx kid : option (list Z)) (ct out : list Z) :
  (∀ E, ot_as_bytes (E:=E) token = Ok tb) → Z.of_nat (length tb) ≤ 65804 → in_u 16 mid → code ≠ 0 →
  Forall opt_ok os → (outer_count code os ≤ OPT_SLOTS)%nat → header_ok bs ctx kid →
  slice_fits ct → slice_fits out →
  let wire := msg_wire ty code mid tb (outer_opts code os (oscore_wire bs ctx kid)) ct in
  (length wire ≤ length out)%nat →
  encode_outer ty code mid token os (opt_piv bs) ctx kid ct out = (splice out 0 wire, Ok (length wire)).
Proof.
  intros Htb Htl Hmid Hcode Hos Hcount Hh Hct Hout wire Hl. pose proof Hh as (Hbl & _ & Hc & Hk & _).
  destruct (oscore_wire_ok bs ctx kid Hh) as [Hwl Hwb]. unfold encode_outer.
  rewrite encode_option_outcome by done. rewrite Hc, Hk. cbn [orb]. rewrite length_replicate.
  change (1 + MAX_PIV_LEN + 1 + MAX_ID_CONTEXT_LEN + MAX_ID_LEN)%nat with 30%nat.
  rewrite (proj2 (Nat.ltb_ge _ _)) by lia. unbind. rewrite push_where_all.
  unfold outer_count in Hcount. rewrite !length_app in Hcount. cbn [length] in Hcount.
  destruct (push_all_spec OPT_SLOTS (filter (fun o => outer_keep o = true) os) _ (OptionsBuilder_new_inv OPT_SLOTS))
    as (b1 & -> & Hb1 & Hu1 & Hn1); [simpl; lia|]. cbn [map_err]. cbn [ob_len OptionsBuilder_new] in Hn1.
  rewrite slice_prefix by (rewrite length_splice; rewrite length_replicate; lia).
  rewrite take_splice_0. destruct (OptionsBuilder_push_ok OPT_SLOTS b1 (Opt_oscore (oscore_wire bs ctx kid)) Hb1)
    as (b2 & -> & Hb2 & Hn2 & Hu2); [lia|]. cbn [map_err].
  assert (∃ b3, (if Code_is_response code && existsb is_observe_opt os
      then map_err (fun _ => OEncode EncodeOptionsFull) (OptionsBuilder_push OPT_SLOTS b2 (mkOpt ON_MAX_AGE []))
      else Ok b2) = Ok b3 ∧ builder_inv OPT_SLOTS b3 ∧
      used b3 = outer_opts code os (oscore_wire bs ctx kid)) as (b3 & -> & Hb3 & Hu3).
  { unfold outer_opts. rewrite !insert_all_app.
    replace (insert_all [] (filter (fun o => outer_keep o = true) os)) with (used b1)
      by (by rewrite Hu1).
    cbn [insert_all foldl]. rewrite <- Hu2. unfold outer_extra in *. destruct (_ && _); [|by exists b2].
    cbn [length] in Hcount. destruct (OptionsBuilder_push_ok OPT_SLOTS b2 (mkOpt ON_MAX_AGE []) Hb2)
      as (b3 & -> & Hb3 & _ & Hu3); [lia|]. by exists b3. }
  rewrite as_slice_used by done. rewrite Hu3. unfold st_map_err.
  assert (opts_wf 0 (outer_opts code os (oscore_wire bs ctx kid))) as Hwf by (apply outer_opts_wf; done || lia).
  rewrite (encode_ok _ tb); simpl; try done.
Qed.
End outer.

(** ** Sealing *)
Lemma on_slice_ok {E A} (a b : nat) (m : st (list Z) E A) (out w : list Z) (r : res E A) :
  (a ≤ b ≤ length out)%nat → (length w ≤ b - a)%nat →
  (∀ part, length part = (b - a)%nat → m part = (splice part 0 w, r)) →
  on_slice a b m out = (splice out a w, r).
Proof.
  intros Hab Hw Hm. unfold on_slice, slice_idx.
  assert (slice_get out a b = Some (take (b - a) (drop a out))) as -> by (by apply slice_get_Some).
  rewrite Hm by (rewrite length_take, length_drop; lia). f_equal. unfold splice. rewrite take_0, app_nil_l.
  rewrite !length_app, length_drop, length_take, length_drop. f_equal.
  rewrite <- app_assoc. f_equal. simpl (0 + _)%nat.
  replace (a + (length w + (Nat.min (b - a) (length out - a) - length w)))%nat with b by lia.
  rewrite <- (take_drop (b - a - length w) (drop (a + length w) out)). f_equal.
  - rewrite <- (drop_drop out (length w) a), (take_drop_commute (drop a out)). do 2 f_equal. lia.
  - rewrite drop_drop. f_equal. lia.
Qed.

Lemma splice_over {A} (buf s1 s2 : list A) :
  length s2 = length s1 → splice (splice buf 0 s1) 0 s2 = splice buf 0 s2.
Proof.
  intros Hl. rewrite !splice_0. f_equal. rewrite Hl, drop_app_length. done.
Qed.

Section seal.
Context `{Target, CcmLaws} {T : Type} `{OwnedTokenLaws T}.

(** What sealing makes of the plaintext. *)
Definition sealed (key nonce aad pt ct : list Z) : Prop :=
  ∃ body tag, ct = body ++ tag ∧ length body = length pt ∧ length tag = TAG_LEN ∧
    ccm_decrypt key nonce aad body tag = (pt, true).

Definition sealable_keys (key nonce aad : list Z) : Prop :=
  length key = KEY_LEN ∧ length nonce = NONCE_LEN ∧ (length aad ≤ 32)%nat.

Lemma seal_plaintext_ok (m : Message T) (key nonce aad : list Z) :
  opts_wf 0 (inner_options (Code_is_response (msg_code _ m)) (msg_options _ m)) →
  slice_fits (msg_payload _ m) → sealable_keys key nonce aad → Z.of_nat (length (plain_wire m)) < 2 ^ 16 →
  ∃ ct, sealed key nonce aad (plain_wire m) ct ∧ length ct = (length (plain_wire m) + TAG_LEN)%nat ∧
    ∀ buf, slice_fits buf → (length ct ≤ length buf)%nat →
      seal_plaintext m key nonce aad buf = (splice buf 0 ct, Ok (length ct)).
Proof.
  intros Hw Hp (Hk & Hn & Ha) Hl. destruct (ccm_encrypt_ok key nonce aad (plain_wire m) Hk Hn Ha Hl)
    as (body & tag & He & Hbl & Htl & Hd).
  exists (body ++ tag). split; [by exists body, tag|]. rewrite length_app. split; [lia|].
  intros buf Hb Hle. unfold seal_plaintext. unbind. rewrite encode_plaintext_ok by (done || lia).
  unfold seal_in_place. unbind. rewrite usize_checked_add_ok by (unfold slice_fits in *; lia). unfold ok_or. cbn iota.
  rewrite length_splice by lia. rewrite (proj2 (Nat.ltb_ge _ _)) by lia.
  rewrite slice_prefix by (rewrite length_splice; lia). rewrite take_splice_0, He.
  rewrite (splice_over buf) by done.
  rewrite copy_into_ok by (rewrite ?length_splice; lia). cbn iota. rewrite splice_splice by lia.
  f_equal. f_equal. lia.
Qed.

(** The outer datagram around a ciphertext. *)
Definition protected_wire (m : Message T) (tb bs : list Z) (ctx kid : option (list Z)) (ct : list Z) : list Z :=
  let code := outer_code (msg_code _ m) (msg_options _ m) in
  msg_wire (msg_ty _ m) code (msg_id _ m) tb (outer_opts code (msg_options _ m) (oscore_wire bs ctx kid)) ct.

Lemma outer_code_nonzero (code : Code) (os : list Opt) : outer_code code os ≠ 0.
Proof. unfold outer_code. by destruct (negb _), (Code_is_request code). Qed.

(** A message that can be protected, with the fields of its OSCORE option. *)
Definition protectable (m : Message T) (tb bs : list Z) (ctx kid : option (list Z)) : Prop :=
  (∀ E, ot_as_bytes (E:=E) (msg_token _ m) = Ok tb) ∧ Z.of_nat (length tb) ≤ 65804 ∧ in_u 16 (msg_id _ m) ∧
  opts_wf 0 (msg_options _ m) ∧ slice_fits (msg_payload _ m) ∧ header_ok bs ctx kid ∧
  (outer_count (outer_code (msg_code _ m) (msg_options _ m)) (msg_options _ m) ≤ OPT_SLOTS)%nat ∧
  (length (plain_wire m) + TAG_LEN ≤ INNER)%nat.

Lemma inner_options_wf (notify : bool) (os : list Opt) : opts_wf 0 os → opts_wf 0 (inner_options notify os).
Proof. apply view_filter_wf. Qed.

Lemma protected_wire_app (m : Message T) (tb bs ct : list Z) (ctx kid : option (list Z)) :
  ct ≠ [] → protected_wire m tb bs ctx kid ct = protected_wire m tb bs ctx kid [] ++ 255 :: ct.
Proof.
  intros Hct. unfold protected_wire, msg_wire. rewrite <- !app_assoc. do 2 f_equal. unfold payload_wire.
  by destruct ct.
Qed.

(** Sealing writes the outer datagram around the sealed plaintext. *)
Lemma seal_message_ok (m : Message T) (tb bs key nonce aad : list Z) (ctx kid : option (list Z)) :
  protectable m tb bs ctx kid → sealable_keys key nonce aad →
  ∃ ct, sealed key nonce aad (plain_wire m) ct ∧ length ct = (length (plain_wire m) + TAG_LEN)%nat ∧
    ∀ out, slice_fits out → (length (protected_wire m tb bs ctx kid ct) ≤ length out)%nat →
      seal_message m key nonce aad (opt_piv bs) ctx kid out =
        (splice out 0 (protected_wire m tb bs ctx kid ct), Ok (length (protected_wire m tb bs ctx kid ct))).
Proof.
  intros (Htb & Htl & Hid & Hos & Hp & Hh & Hc & Hin) Hkeys.
  assert (Z.of_nat INNER = 1280) as HI by done.
  destruct (seal_plaintext_ok m key nonce aad) as (ct & Hs & Hcl & Hseal);
    [by apply inner_options_wf|done|done|lia|].
  exists ct. split; [done|]. split; [done|]. intros out Hout Hl.
  rewrite protected_wire_app in * by (intros ->; unfold TAG_LEN in *; simpl in Hcl; lia).
  set (w0 := protected_wire m tb bs ctx kid []) in *. rewrite length_app in Hl. cbn [length] in Hl.
  unfold seal_message, seal_direct. unbind.
  rewrite (encode_outer_ok _ _ _ _ tb); try done.
  2: { apply outer_code_nonzero. } 2: { by apply opts_wf_0 in Hos as [_ Ho]. }
  2: { unfold slice_fits. pose proof usize_max_ge. simpl. lia. }
  2: { unfold w0, protected_wire in Hl. lia. }
  change (msg_wire _ _ _ _ _ []) with w0. cbn iota beta.
  assert (∀ w, (length w ≤ length out)%nat → length (splice out 0 w) = length out) as Hsp
    by (intros w Hw; by apply length_splice).
  rewrite Hsp by lia.
  assert (slice_get (splice out 0 w0) (length w0) (length out) = Some (drop (length w0) out)) as ->.
  { apply slice_get_Some. rewrite Hsp by lia. split; [lia|]. rewrite splice_0, drop_app_length.
    rewrite take_ge; [done|]. rewrite length_drop. lia. }
  unfold ok_or. cbn iota beta. destruct (drop (length w0) out) as [|x tail] eqn:Et.
  { apply (f_equal length) in Et. rewrite length_drop in Et. simpl in Et. lia. }
  assert (length out = length w0 + 1 + length tail)%nat as Hlen.
  { apply (f_equal length) in Et. rewrite length_drop in Et. simpl in Et. lia. }
  rewrite set_idx_ok by (rewrite Hsp; lia). cbn iota beta. rewrite splice_splice by (simpl; lia).
  rewrite (on_slice_ok _ _ _ _ ct (Ok (length ct))).
  - cbn iota beta. rewrite splice_splice by (rewrite ?length_app; simpl; lia). rewrite <- app_assoc. simpl.
    f_equal. f_equal. rewrite length_app. simpl. lia.
  - rewrite Hsp by (rewrite length_app; simpl; lia). lia.
  - lia.
  - intros part Hpart. apply Hseal; [unfold slice_fits in *; lia|lia].
Qed.
End seal.

(** ** Opening *)
Section opening.
Context `{Target, CcmLaws} {T : Type} `{OwnedTokenLaws T}.

Lemma decode_wire_ok (ty : MType) (code id : Z) (t : T) (tb : list Z) (os : list Opt) (p : list Z) :
  ot_wf t → (∀ E, ot_as_bytes (E:=E) t = Ok tb) → in_u 16 id → msg_wf code tb os p →
  slice_fits (msg_wire ty code id tb os p) →
  decode_with_token (msg_wire ty code id tb os p) =
    Ok (mkParsed _ (mkHeader 1 ty (ext_field (Z.of_nat (length tb))).1 code id) t (options_wire 0 os) p).
Proof.
  intros Ht Hb Hid Hwf Hfit. unfold decode_with_token. unbind. rewrite decode_parts_wire by done.
  destruct (ot_wf_bytes t Ht) as (tb' & Hb' & Hl). assert (tb' = tb) as -> by (pose proof (Hb unit); pose proof (Hb' unit); congruence).
  destruct (ot_from_bytes_ok tb Hl) as (t' & Hft & Htw & Htb). unfold wire_parts. cbn [map_err pt_token].
  rewrite Hft. cbn [map_err]. assert (t' = t) as ->; [|done]. apply ot_eq_bytes; [done..|]. by rewrite Hb, Htb.
Qed.

(** The outer options have one OSCORE option, and the Class U ones unchanged. *)
Lemma outer_opts_oscore (code : Code) (os : list Opt) (value : list Z) :
  filter (fun p => opt_number p = 9) (outer_opts code os value) = [Opt_oscore value].
Proof.
  unfold outer_opts. rewrite insert_all_number, !filter_app, list_filter_filter.
  rewrite (filter_none _ os); [|apply Forall_forall; intros o _ [H9 Hk]; unfold outer_keep in Hk; by rewrite H9 in Hk].
  rewrite filter_cons_True by done. rewrite (filter_none _ (outer_extra code os)); [done|].
  unfold outer_extra. destruct (_ && _); by repeat constructor.
Qed.

Lemma get_option_wire (pm : ParsedMessage T) (os : list Opt) (n : Z) :
  pm_options _ pm = options_wire 0 os → opts_wf 0 os → slice_fits (options_wire 0 os) →
  get_option (E:=OscoreError) pm n = Ok (head (filter (fun p => opt_number p = n) os)).
Proof.
  intros Hpm Hwf Hfit. apply get_option_spec.
  - rewrite Hpm. by apply options_wire_bytes.
  - unfold pm_opts. rewrite Hpm. by apply Options_iter_wire.
Qed.

(** A parsed datagram whose options are [os]. *)
Lemma parse_protected_ok (pm : ParsedMessage T) (code : Code) (os : list Opt) (bs : list Z)
    (ctx kid : option (list Z)) :
  let oos := outer_opts code os (oscore_wire bs ctx kid) in
  pm_options _ pm = options_wire 0 oos → Forall opt_ok os → header_ok bs ctx kid →
  slice_fits (options_wire 0 oos) → pm_payload _ pm ≠ [] →
  parse_protected pm = Ok (mkOscoreHeader (opt_piv bs) ctx kid).
Proof.
  intros oos Hpm Hos Hh Hfit Hpay. pose proof Hh as (Hbl & _ & Hc & Hk & _).
  destruct (oscore_wire_ok bs ctx kid Hh) as [Hwl Hwb]. unfold parse_protected, pm_oscore. unbind.
  rewrite (get_option_wire pm oos ON_OSCORE) by (done || (apply outer_opts_wf; done || lia)).
  unfold oos, ON_OSCORE. rewrite outer_opts_oscore. cbn [head option_map opt_value Opt_oscore Opt_opaque ok_or].
  rewrite (proj2 (is_nil_false _)) by done. by apply parse_wire.
Qed.

Lemma aead_open_ok (key nonce aad pt ct out : list Z) :
  sealed key nonce aad pt ct → (length pt ≤ length out)%nat →
  aead_open key nonce aad ct out = (splice out 0 pt, Ok (length pt)).
Proof.
  intros (body & tag & -> & Hb & Ht & Hd) Hl. unfold aead_open. rewrite length_app, Ht.
  rewrite (proj2 (Nat.ltb_ge _ _)) by lia. rewrite Nat.add_sub. unbind. rewrite (proj2 (Nat.ltb_ge _ _)) by lia.
  unfold slice_idx. rewrite slice_get_tail by lia.
  assert (slice_get (body ++ tag) 0 (length body) = Some body) as ->.
  { apply slice_get_Some. rewrite length_app. split; [lia|]. by rewrite Nat.sub_0_r, drop_0, take_app_length. }
  rewrite Hd. by rewrite Hb.
Qed.
End opening.

(** ** The merged options *)
Section merge.

(** The options the application sees: all but the OSCORE option, with the
    Observe value of a notification blanked. *)
Definition app_options (notify : bool) (os : list Opt) : list Opt :=
  map (inner_view notify) (filter (fun o => opt_number o ≠ 9) os).

Lemma filter_view (notify : bool) (n : Z) (l : list Opt) :
  filter (fun p => opt_number p = n) (map (inner_view notify) l) =
  map (inner_view notify) (filter (fun p => opt_number p = n) l).
Proof.
  induction l as [|o l IH]; [done|]. cbn [map]. rewrite !filter_cons, inner_view_number. case_decide; [|done].
  simpl. by f_equal.
Qed.

(** Filters by number through a test that depends only on the number. *)
Lemma filter_number_keep (keep : Opt → bool) (n : Z) (b : bool) (l : list Opt) :
  (∀ o, opt_number o = n → keep o = b) →
  filter (fun p => opt_number p = n) (filter (fun o => keep o = true) l) =
    if b then filter (fun p => opt_number p = n) l else [].
Proof.
  intros Hk. rewrite list_filter_filter. destruct b.
  - apply list_filter_iff. intros o. split; [by intros [? _]|]. intros Ho. split; [done|by apply Hk].
  - apply filter_none, Forall_forall. intros o _ [Ho Hko]. rewrite Hk in Hko by done. done.
Qed.

Lemma merged_options (notify : bool) (code : Code) (os : list Opt) (value : list Z) :
  StronglySorted number_le os →
  insert_all [] (filter (fun o => stitch_keep o = true) (outer_opts code os value) ++ inner_options notify os) =
  app_options notify os.
Proof.
  intros Hs. apply sorted_ext.
  { apply insert_all_sorted. constructor. }
  { by apply sorted_view, sorted_filter. }
  intros n. rewrite insert_all_number, filter_app. unfold inner_options, app_options. rewrite !filter_view.
  assert (filter (fun p => opt_number p = n) (filter (fun o => opt_number o ≠ 9) os) =
    if decide (n = 9) then [] else filter (fun p => opt_number p = n) os) as ->.
  { rewrite list_filter_filter. case_decide as Hn.
    - apply filter_none, Forall_forall. intros o _ [-> ?]. done.
    - apply list_filter_iff. intros o. split; [by intros [? _]|]. by intros ->. }
  rewrite (filter_number_keep stitch_keep n
    (negb (is_oscore n || match classify n with ClassOuter => false | _ => true end)))
    by (by intros o <-).
  rewrite (filter_number_keep in_plain n (negb (is_oscore n || negb (in_plaintext (classify n)))))
    by (by intros o <-).
  unfold is_oscore. case_decide as H9; [by rewrite H9|]. rewrite (proj2 (Z.eqb_neq n 9)) by done. cbn [orb].
  destruct (classify n) eqn:Hc; cbn [in_plaintext negb]; [done| |done].
  rewrite app_nil_r. unfold outer_opts. rewrite insert_all_number, !filter_app.
  rewrite (filter_number_keep outer_keep n true).
  2: { intros o <-. unfold outer_keep, encode_as_outer, is_oscore. rewrite Hc.
       by rewrite (proj2 (Z.eqb_neq _ 9)). }
  rewrite (filter_none _ [_]) by (constructor; [|done]; simpl; unfold ON_OSCORE; lia).
  rewrite (filter_none _ (outer_extra code os)).
  2: { unfold outer_extra. destruct (_ && _); constructor; [|done]. simpl. intros <-. done. }
  rewrite !app_nil_r. assert (n ≠ 6) as H6 by (by intros ->).
  assert (Forall (fun o => opt_number o = n) (filter (fun p => opt_number p = n) os)) as Hall
    by (apply Forall_forall; by intros o [? _]%list_elem_of_filter).
  induction Hall as [|o l Ho Hl IH]; [done|]. simpl. rewrite <- IH. f_equal. unfold inner_view.
  by rewrite (proj2 (Z.eqb_neq _ 6)) by lia.
Qed.
End merge.

Section stitch.
Context `{Target} {T : Type} `{OwnedTokenLaws T}.

(** The message the application receives. *)
Definition app_message (m : Message T) : Message T :=
  Message_with_options m (app_options (Code_is_response (msg_code _ m)) (msg_options _ m)).

Definition app_wire (m : Message T) (tb : list Z) : list Z :=
  msg_wire (msg_ty _ m) (msg_code _ m) (msg_id _ m) tb
    (app_options (Code_is_response (msg_code _ m)) (msg_options _ m)) (msg_payload _ m).

Lemma decode_plain_options (os : list Opt) (payload : list Z) :
  opts_wf 0 os → slice_fits (options_wire 0 os ++ payload_wire payload) →
  decode_options_payload (options_wire 0 os ++ payload_wire payload) =
    Ok (Options_new (options_wire 0 os), payload).
Proof.
  intros Hwf Hfit. unfold decode_options_payload, split_options_and_payload.
  pose proof (split_loop_wire os (S (length (options_wire 0 os ++ payload_wire payload))) [] payload 0 0) as Hs.
  cbn [app length] in Hs. rewrite Hs; [|done..|lia|lia|].
  - unbind. by rewrite drop_0.
  - rewrite length_app. pose proof (length_options_wire 0 os). lia.
Qed.

(** Both halves are merged back into the application's message. *)
Lemma stitch_inner_ok (m : Message T) (tb value : list Z) (ocode : Code) (out : list Z) :
  let oos := outer_opts ocode (msg_options _ m) value in
  let notify := Code_is_response (msg_code _ m) in
  (∀ E, ot_as_bytes (E:=E) (msg_token _ m) = Ok tb) → Z.of_nat (length tb) ≤ 65804 → in_u 16 (msg_id _ m) →
  msg_code _ m ≠ 0 → opts_wf 0 (msg_options _ m) → slice_fits (msg_payload _ m) →
  bytes_ok value → Z.of_nat (length value) ≤ 65804 → slice_fits (options_wire 0 oos) → slice_fits (plain_wire m) →
  (length (app_options notify (msg_options _ m)) ≤ OPT_SLOTS)%nat → slice_fits out →
  (length (app_wire m tb) ≤ length out)%nat → (length (app_wire m tb) ≤ INNER)%nat →
  stitch_inner (msg_ty _ m) (msg_id _ m) (msg_token _ m) (options_wire 0 oos) (plain_wire m) out =
    (splice out 0 (app_wire m tb), Ok (length (app_wire m tb))).
Proof.
  intros oos notify Htb Htl Hid Hcode Hos Hp Hvb Hvl Hfo Hfp Hcount Hout Hlo HlI.
  pose proof (proj1 (opts_wf_0 _) Hos) as [Hsort Hok].
  assert (opts_wf 0 oos) as Hoos by (by apply outer_opts_wf).
  assert (opts_wf 0 (inner_options notify (msg_options _ m))) as Hin by (by apply inner_options_wf).
  pose proof (merged_options notify ocode (msg_options _ m) value Hsort) as Hmerge. fold oos in Hmerge.
  set (keep := filter (fun o => stitch_keep o = true) oos) in *.
  set (inner := inner_options notify (msg_options _ m)) in *.
  assert (length keep + length inner ≤ OPT_SLOTS)%nat as Hroom.
  { rewrite <- length_app, <- (Permutation_length (insert_all_perm (keep ++ inner))), Hmerge. done. }
  unfold stitch_inner, plain_wire. cbn [is_nil]. unbind.
  assert (slice_idx (E:=OscoreError) (plain_wire m) 1 (length (plain_wire m)) =
    Ok (options_wire 0 inner ++ payload_wire (msg_payload T m))) as Hbody.
  { unfold slice_idx. rewrite (proj2 (slice_get_Some _ _ _ (options_wire 0 inner ++ payload_wire (msg_payload T m)))); [done|].
    unfold plain_wire. fold notify inner. split; [simpl; lia|]. simpl drop. by rewrite drop_0, take_ge by (simpl; lia). }
  unfold plain_wire in Hbody. fold notify inner in Hbody |- *. rewrite Hbody. cbn iota beta.
  rewrite decode_plain_options; [|done|unfold slice_fits, plain_wire in Hfp |- *; fold notify inner in Hfp; simpl in Hfp; lia].
  cbn [map_err]. cbn iota beta. rewrite Options_iter_wire by done. rewrite push_where_all. fold keep.
  destruct (push_all_spec OPT_SLOTS keep _ (OptionsBuilder_new_inv OPT_SLOTS)) as (b1 & -> & Hb1 & Hu1 & Hn1); [simpl; lia|].
  cbn [map_err os_bytes Options_new ob_len OptionsBuilder_new] in *. cbn iota beta.
  assert (slice_fits (options_wire 0 inner)) as Hfi.
  { unfold slice_fits, plain_wire in *. fold notify inner in Hfp. simpl in Hfp. rewrite length_app in Hfp. lia. }
  pose proof (Options_iter_wire (E:=OscoreError) inner Hfi Hin) as Hit. unfold Options_iter in Hit. rewrite Hit.
  rewrite push_where_all, filter_all by (apply Forall_forall; done).
  destruct (push_all_spec OPT_SLOTS inner b1 Hb1) as (b2 & -> & Hb2 & Hu2 & _); [lia|]. cbn [map_err]. cbn iota beta.
  rewrite as_slice_used by done. cbn iota beta.
  assert (used b2 = app_options notify (msg_options T m)) as ->.
  { rewrite <- Hmerge, insert_all_app. rewrite Hu2, Hu1. done. }
  unfold idx. cbn [lookup list_lookup]. cbn iota beta.
  apply on_slice_ok; [lia|lia|]. intros part Hpart. unfold st_map_err, Code_from_raw.
  rewrite (encode_ok _ tb).
  - simpl. done.
  - done.
  - done.
  - simpl. split_and!; [done|by apply view_filter_wf|done].
  - done.
  - unfold slice_fits in *. lia.
  - simpl. unfold app_wire in Hlo, HlI. fold notify in Hlo, HlI. lia.
Qed.
End stitch.

(** ** A request from end to end *)
Section request.
Context `{Target, CcmLaws} {T : Type} `{OwnedTokenLaws T} `{!EqDecision T}.
Implicit Types (c s : SecurityContext T) (m : Message T).

(** [s] receives what [c] sends: the sender half of [c] is the recipient half
    of [s].  The identifiers are [sid] and the ID Context [ctx]. *)
Definition paired c s (sid ctx : list Z) : Prop :=
  sc_recipient_key s = sc_sender_key c ∧ sc_common_iv s = sc_common_iv c ∧
  length (sc_sender_key c) = KEY_LEN ∧ length (sc_common_iv c) = NONCE_LEN ∧
  (∀ E, Id_as_bytes (E:=E) (sc_sender_id c) = Ok sid) ∧ (∀ E, Id_as_bytes (E:=E) (sc_recipient_id s) = Ok sid) ∧
  (length sid ≤ MAX_ID_LEN)%nat ∧ bytes_ok sid ∧
  (∀ E, id_context (E:=E) c = Ok ctx) ∧ (∀ E, id_context (E:=E) s = Ok ctx) ∧
  (length ctx ≤ MAX_ID_CONTEXT_LEN)%nat ∧ bytes_ok ctx ∧ sc_id_context_len s = Z.of_nat (length ctx).

(** The [kid context] field that announces an ID Context. *)
Definition context_field (ctx : list Z) : option (list Z) := if is_nil ctx then None else Some ctx.

(** What the application gets from a message sent as [m]. *)
Definition received (pm : ParsedMessage T) m : Prop :=
  pm_ty pm = msg_ty _ m ∧ pm_code pm = msg_code _ m ∧ pm_message_id pm = msg_id _ m ∧
  pm_token _ pm = msg_token _ m ∧ pm_payload _ pm = msg_payload _ m ∧
  pm_opts (E:=ParseError) pm = Ok (app_options (Code_is_response (msg_code _ m)) (msg_options _ m)).

Lemma context_field_ok (ctx : list Z) :
  (length ctx ≤ MAX_ID_CONTEXT_LEN)%nat → bytes_ok ctx →
  too_long (context_field ctx) MAX_ID_CONTEXT_LEN = false ∧ bytes_ok (default [] (context_field ctx)).
Proof.
  intros Hl Hb. unfold context_field. destruct ctx; [by split; [|constructor]|]. cbn [is_nil too_long default].
  split; [by apply Nat.ltb_ge|done].
Qed.

Lemma matches_paired c s (sid ctx : list Z) :
  paired c s sid ctx → matches_recipient (E:=OscoreError) s (Some sid) (context_field ctx) = Ok true.
Proof.
  intros (_ & _ & _ & _ & _ & Hr & _ & _ & _ & Hc & _ & _ & Hl). unfold matches_recipient. unbind. rewrite Hr.
  cbn [default]. unfold eqb. rewrite bool_decide_eq_true_2 by done. cbn [negb]. unfold context_field.
  destruct ctx as [|x ctx]; cbn [is_nil]; [by rewrite Hl|]. rewrite Hc. by rewrite bool_decide_eq_true_2.
Qed.

Lemma take_sender_piv_fwd c (p : PartialIv) :
  0 ≤ sc_sender_seq c < SEQ_END → sc_sender_seq c < sc_sender_reserved_end c →
  PartialIv_from_seq (sc_sender_seq c) = Ok p →
  take_sender_piv c = (set_sender c (sc_sender_seq c + 1) (sc_sender_reserved_end c), Ok p).
Proof.
  intros Hs Hr Hp. unfold take_sender_piv. unbind. rewrite (proj2 (Z.leb_gt _ _)) by lia.
  rewrite (proj2 (Z.leb_gt (sc_sender_reserved_end c) _)) by lia. rewrite Hp. unfold checked_add, SEQ_END in *.
  by rewrite (proj2 (Z.leb_le _ _)) by (unfold max_u; lia).
Qed.

Lemma remember_free c t q o j :
  position is_none_row (sc_live c) = Some j → ∃ c', remember_live t q o c = (c', Ok tt).
Proof. intros Hj. unfold remember_live. unbind. rewrite Hj.
  destruct (position (row_has t) (sc_live c)); by eexists. Qed.

Lemma remember_download_free c t q j :
  position is_none_row (sc_live c) = Some j → ∃ c', remember_download t q c = (c', Ok tt).
Proof.
  intros Hj. unfold remember_download. unbind. destruct (update_row _ _ _); [by eexists|]. by apply (remember_free _ _ _ _ j).
Qed.

(** Nonce and authenticated data of a request, as both ends compute them. *)
Lemma nonce_aad_ok {E} (iv kid bs : list Z) :
  length iv = NONCE_LEN → (length kid ≤ MAX_ID_LEN)%nat → (length bs ≤ MAX_PIV_LEN)%nat →
  ∃ nc, nonce (E:=E) iv kid (piv_of bs) = Ok nc ∧ length nc = NONCE_LEN ∧
    ∃ a, Aad_new kid bs = Ok a ∧ (∀ F, Aad_as_bytes (E:=F) a = Ok (aad_wire kid bs [])) ∧
      (length (aad_wire kid bs []) ≤ 32)%nat.
Proof.
  intros Hiv Hk Hb. rewrite nonce_ok by done. eexists. split; [done|].
  unfold MAX_ID_LEN, MAX_PIV_LEN, NONCE_LEN in *. split.
  { rewrite length_zip_with, Hiv. unfold nonce_raw. simpl. rewrite !length_app, !length_replicate. lia. }
  destruct (aad_new_ok kid bs Hk Hb) as (a & Ha & Hbytes & Hl). exists a. split_and!; [done| |lia].
  intros F. unfold Aad_as_bytes, slice_idx in *. destruct (slice_get _ _ _); [|done]. congruence.
Qed.

Lemma length_protected_wire m (tb bs ct ct' : list Z) (ctx kid : option (list Z)) :
  length ct = length ct' → length (protected_wire m tb bs ctx kid ct) = length (protected_wire m tb bs ctx kid ct').
Proof.
  intros Hl. unfold protected_wire, msg_wire. rewrite !length_app. do 2 f_equal. unfold payload_wire.
  destruct ct, ct'; simpl in *; done || lia.
Qed.

Lemma opt_piv_some (bs : list Z) : bs ≠ [] → opt_piv bs = Some (piv_of bs).
Proof. by destruct bs. Qed.

(** What the client puts on the wire. *)
Lemma protect_request_ok c s m (sid ctx tb bs out : list Z) (j : nat) :
  paired c s sid ctx → Code_is_request (msg_code _ m) = true → bs ≠ [] →
  protectable m tb bs (context_field ctx) (Some sid) →
  0 ≤ sc_sender_seq c < SEQ_END → sc_sender_seq c < sc_sender_reserved_end c →
  PartialIv_from_seq (sc_sender_seq c) = Ok (piv_of bs) →
  position is_none_row (sc_live c) = Some j → slice_fits out →
  (length (protected_wire m tb bs (context_field ctx) (Some sid)
     (replicate (length (plain_wire m) + TAG_LEN) 0%Z)) ≤ length out)%nat →
  ∃ c' nc ct, nonce (E:=OscoreError) (sc_common_iv c) sid (piv_of bs) = Ok nc ∧
    sealed (sc_sender_key c) nc (aad_wire sid bs []) (plain_wire m) ct ∧
    length ct = (length (plain_wire m) + TAG_LEN)%nat ∧
    protect_request m (c, out) =
      ((c', splice out 0 (protected_wire m tb bs (context_field ctx) (Some sid) ct)),
       Ok (length (protected_wire m tb bs (context_field ctx) (Some sid) ct))).
Proof.
  intros (Hkey & Hiv & Hkl & Hivl & Hsid & Hrid & Hsl & Hsb & Hctx & _ & Hcl & Hcb & _) Hreq Hne Hprot Hseq Hres Hpiv Hj Hout Hlen.
  pose proof Hprot as (_ & _ & _ & _ & _ & (Hbl & _) & _).
  destruct (nonce_aad_ok (E:=OscoreError) (sc_common_iv c) sid bs Hivl Hsl Hbl) as (nc & Hnc & Hncl & a & Ha & Hab & Hal).
  destruct (seal_message_ok m tb bs (sc_sender_key c) nc (aad_wire sid bs []) (context_field ctx) (Some sid) Hprot)
    as (ct & Hsealed & Hctl & Hseal); [done|].
  set (c1 := set_sender c (sc_sender_seq c + 1) (sc_sender_reserved_end c)).
  assert (∃ c', (if negb (existsb is_observe_opt (msg_options T m)) && existsb is_block2_opt (msg_options T m)
      then remember_download (msg_token T m) (request_ref c1 (piv_of bs)) c1
      else remember_live (msg_token T m) (request_ref c1 (piv_of bs)) (existsb is_observe_opt (msg_options T m)) c1)
      = (c', Ok tt)) as [c' Hrem].
  { destruct (_ && _); [by apply (remember_download_free _ _ _ j)|by apply (remember_free _ _ _ _ j)]. }
  exists c', nc, ct. split_and!; [done..|]. unfold protect_request. rewrite Hreq. cbn [negb]. unbind. unfold on_fst at 1.
  rewrite (take_sender_piv_fwd c (piv_of bs)) by done. fold c1. cbn iota beta.
  unfold request_nonce, RequestRef_kid. unbind. cbn [request_ref rr_kid rr_piv c1 set_sender sc_sender_id sc_common_iv].
  rewrite !Hsid. cbn iota beta. rewrite Hnc. cbn iota beta. rewrite as_bytes_ok by done. rewrite Ha. cbn iota beta.
  change (id_context (E:=OscoreError) c1) with (id_context (E:=OscoreError) c). rewrite Hctx, Hab. cbn iota beta.
  unfold on_snd. cbn [sc_sender_key c1 set_sender]. change (if is_nil ctx then None else Some ctx) with (context_field ctx).
  rewrite <- opt_piv_some by done.
  rewrite Hseal; [|done|by erewrite length_protected_wire; [exact Hlen|rewrite length_replicate]]. cbn iota beta.
  unfold on_fst. fold c1. destruct (negb _ && _); by rewrite Hrem.
Qed.

(** The outer datagram, parsed. *)
Definition protected_pm m (tb bs : list Z) (ctx kid : option (list Z)) (ct : list Z) : ParsedMessage T :=
  let code := outer_code (msg_code _ m) (msg_options _ m) in
  mkParsed _ (mkHeader 1 (msg_ty _ m) (ext_field (Z.of_nat (length tb))).1 code (msg_id _ m)) (msg_token _ m)
    (options_wire 0 (outer_opts code (msg_options _ m) (oscore_wire bs ctx kid))) ct.

Lemma decode_protected m (tb bs ct : list Z) (ctx kid : option (list Z)) :
  ot_wf (msg_token _ m) → protectable m tb bs ctx kid → slice_fits (protected_wire m tb bs ctx kid ct) →
  decode_with_token (protected_wire m tb bs ctx kid ct) = Ok (protected_pm m tb bs ctx kid ct).
Proof.
  intros Ht (Htb & Htl & Hid & Hos & Hp & Hh & Hc & Hin) Hfit. destruct (oscore_wire_ok _ _ _ Hh) as [Hwl Hwb].
  unfold protected_wire. rewrite (decode_wire_ok _ _ _ (msg_token _ m)); try done. split_and!; [done| |].
  - apply outer_opts_wf; [by apply opts_wf_0 in Hos as [_ Ho]|done|lia].
  - intros E. by apply outer_code_nonzero in E.
Qed.

(** The stitched datagram, decoded. *)
Lemma decode_app_wire m (tb : list Z) :
  ot_wf (msg_token _ m) → (∀ E, ot_as_bytes (E:=E) (msg_token _ m) = Ok tb) → Z.of_nat (length tb) ≤ 65804 →
  in_u 16 (msg_id _ m) → msg_code _ m ≠ 0 → opts_wf 0 (msg_options _ m) → slice_fits (app_wire m tb) →
  ∃ pm, decode_owned (app_wire m tb) = Ok pm ∧ received pm m.
Proof.
  intros Ht Htb Htl Hid Hc Hos Hfit.
  assert (opts_wf 0 (app_options (Code_is_response (msg_code _ m)) (msg_options _ m))) as Hwf by (by apply view_filter_wf).
  unfold decode_owned, app_wire in *. rewrite (decode_wire_ok _ _ _ (msg_token _ m)); try done. eexists. split; [done|].
  unfold received, pm_ty, pm_code, pm_message_id, pm_opts. simpl. split_and!; try done.
  apply Options_iter_wire; [|done]. unfold slice_fits, msg_wire in *. rewrite !length_app in Hfit. lia.
Qed.

Lemma inner_small (l : list Z) : (length l ≤ INNER)%nat → slice_fits l.
Proof. intros Hl. unfold slice_fits. pose proof usize_max_ge. assert (Z.of_nat INNER = 1280) by done. lia. Qed.

Lemma code_nonzero (code : Code) : Code_is_request code = true ∨ Code_is_response code = true → code ≠ 0.
Proof. intros [Hr|Hr] ->; done. Qed.

(** What is common to opening a request and a response: the authenticated
    plaintext [pt] is stitched and decoded. *)
Lemma stitch_protected m (tb bs ct out : list Z) (ctx kid : option (list Z)) :
  let pm := protected_pm m tb bs ctx kid ct in
  protectable m tb bs ctx kid → msg_code _ m ≠ 0 →
  (length (app_options (Code_is_response (msg_code _ m)) (msg_options _ m)) ≤ OPT_SLOTS)%nat →
  slice_fits (pm_options _ pm) → slice_fits out →
  (length (app_wire m tb) ≤ length out)%nat → (length (app_wire m tb) ≤ INNER)%nat →
  stitch_inner (pm_ty pm) (pm_message_id pm) (pm_token _ pm) (pm_options _ pm) (plain_wire m) out =
    (splice out 0 (app_wire m tb), Ok (length (app_wire m tb))).
Proof.
  intros pm (Htb & Htl & Hid & Hos & Hp & Hh & Hc & Hin) Hcode Hcount Hfo Hout Hl HlI.
  destruct (oscore_wire_ok _ _ _ Hh) as [Hwl Hwb].
  apply stitch_inner_ok; try done; try lia. apply inner_small. lia.
Qed.

Lemma unprotect_request_ok c s m (sid ctx tb bs ct nc out : list Z) (seq : Z) :
  let pm := protected_pm m tb bs (context_field ctx) (Some sid) ct in
  paired c s sid ctx → Code_is_request (msg_code _ m) = true → bs ≠ [] → ot_wf (msg_token _ m) →
  protectable m tb bs (context_field ctx) (Some sid) →
  nonce (E:=OscoreError) (sc_common_iv c) sid (piv_of bs) = Ok nc →
  sealed (sc_sender_key c) nc (aad_wire sid bs []) (plain_wire m) ct →
  PartialIv_seq (E:=OscoreError) (piv_of bs) = Ok seq → replay_fresh s seq = true →
  (length (app_options false (msg_options _ m)) ≤ OPT_SLOTS)%nat → slice_fits (pm_options _ pm) → slice_fits out →
  (length (app_wire m tb) ≤ length out)%nat → (length (app_wire m tb) ≤ INNER)%nat →
  ∃ pm2 r, unprotect_request pm (s, out) =
      ((replay_accept s seq, splice out 0 (app_wire m tb)), Ok (pm2, r)) ∧ received pm2 m ∧
    RequestRef_kid (E:=OscoreError) r = Ok sid ∧ rr_piv r = piv_of bs.
Proof.
  intros pm Hpair Hreq Hne Htok Hprot Hnc Hsealed Hseq Hfresh Hcount Hfo Hout Hl HlI.
  pose proof (matches_paired c s sid ctx Hpair) as Hmatch.
  destruct Hpair as (Hkey & Hiv & Hkl & Hivl & Hsid & Hrid & Hsl & Hsb & Hctx & _ & Hcl & Hcb & _).
  pose proof Hprot as (Htb & Htl & Hid & Hos & Hp & Hh & Hc & Hin). pose proof Hh as (Hbl & _).
  pose proof (code_nonzero _ (or_introl Hreq)) as Hcode.
  assert (Code_is_response (msg_code _ m) = false) as Hresp.
  { unfold Code_is_request, Code_is_response in *. apply andb_true_iff in Hreq as [E%Z.eqb_eq _]. by rewrite E. }
  destruct (nonce_aad_ok (E:=OscoreError) (sc_common_iv c) sid bs Hivl Hsl Hbl) as (nc' & Hnc' & _ & a & Ha & Hab & _).
  destruct Hsealed as (body & tag & Hct & Hbody & Htag & Hdec).
  assert (length ct = length (plain_wire m) + TAG_LEN)%nat as Hctl by (rewrite Hct, length_app; lia).
  destruct (Id_new_ok sid Hsl) as (i & Hi & Hib).
  destruct (decode_app_wire m tb) as (pm2 & Hpm2 & Hrec); try done; [by apply inner_small|].
  exists pm2, (mkRequestRef i (piv_of bs)). split_and!; [|done|apply Hib|done].
  unfold unprotect_request, unprotect_request_wire. unbind.
  rewrite (parse_protected_ok pm (outer_code (msg_code T m) (msg_options T m)) (msg_options T m) bs (context_field ctx) (Some sid));
    try done; [|by apply opts_wf_0 in Hos as [_ Ho]|simpl; intros ->; simpl in Hctl; unfold TAG_LEN in *; lia].
  cbn [oh_kid oh_kid_context oh_piv]. rewrite Hmatch. cbn [negb]. rewrite opt_piv_some by done. cbn [ok_or].
  rewrite Hseq, Hfresh. cbn [negb]. change (pm_payload T pm) with ct.
  rewrite (proj2 (Nat.ltb_ge _ _)) by lia. cbn [default]. change (id sid) with sid.
  rewrite as_bytes_ok by done. rewrite Ha. cbn iota beta. unfold recipient_nonce. unbind. rewrite Hrid, Hiv, Hnc. cbn iota beta. rewrite Hab. cbn iota beta.
  rewrite Hkey, (aead_open_ok _ _ _ (plain_wire m)).
  2: { by exists body, tag. } 2: { rewrite length_replicate. lia. }
  cbn iota beta. unfold on_fst. cbn iota beta.
  rewrite slice_prefix by (rewrite length_splice; rewrite length_replicate; lia). rewrite take_splice_0. cbn iota beta.
  change (head (plain_wire m)) with (Some (msg_code T m)). cbn [ok_or]. unfold Code_from_raw. rewrite Hreq. cbn [negb].
  assert (stitch_inner (pm_ty pm) (pm_message_id pm) (pm_token _ pm) (pm_options _ pm) (plain_wire m) out =
    (splice out 0 (app_wire m tb), Ok (length (app_wire m tb)))) as Hst
    by (apply stitch_protected; done || by rewrite Hresp).
  unfold on_snd. rewrite Hst. cbn iota beta. unfold from_kid. unbind. rewrite Hi. cbn iota beta.
  rewrite slice_prefix by (rewrite length_splice; lia). rewrite take_splice_0. cbn iota beta. by rewrite Hpm2.
Qed.

Lemma replay_accept_marks s (seq : Z) : replay_fresh (replay_accept s seq) seq = false.
Proof.
  unfold replay_accept, replay_fresh, REPLAY_WINDOW.
  destruct ((SEQ_END <=? seq) || (seq <? sc_replay_left s)) eqn:E1; [cbn iota; by rewrite E1|]. bools.
  assert (∀ x d, 0 ≤ d < 32 → (Z.land (Z.lor x (shl 32 1 (wrap 32 d))) (shl 32 1 (wrap 32 d)) =? 0) = false) as Hbit.
  { intros x d Hd. rewrite bit_shl, land_bit by lia. rewrite (proj2 (lor_bit x d d ltac:(lia))); [done|by right]. }
  destruct (32 <=? seq - sc_replay_left s) eqn:E3; bools; simpl.
  - rewrite (proj2 (Z.leb_gt _ _)), (proj2 (Z.ltb_ge _ _)) by lia. cbn [orb].
    replace (seq - (seq - (32 - 1))) with 31 by lia. by apply Hbit.
  - rewrite (proj2 (Z.leb_gt SEQ_END _)), (proj2 (Z.ltb_ge _ _)) by lia. cbn [orb].
    rewrite (proj2 (Z.leb_gt 32 _)) by lia. apply Hbit. lia.
Qed.

Lemma unprotect_replayed c s m (sid ctx tb bs ct out : list Z) (seq : Z) :
  let pm := protected_pm m tb bs (context_field ctx) (Some sid) ct in
  paired c s sid ctx → bs ≠ [] → protectable m tb bs (context_field ctx) (Some sid) → ct ≠ [] →
  slice_fits (pm_options _ pm) → PartialIv_seq (E:=OscoreError) (piv_of bs) = Ok seq →
  unprotect_request pm (replay_accept s seq, out) = ((replay_accept s seq, out), Err OReplay).
Proof.
  intros pm Hpair Hne Hprot Hct Hfo Hseq. pose proof Hprot as (_ & _ & _ & Hos & _ & Hh & _).
  assert (paired c (replay_accept s seq) sid ctx) as Hpair'.
  { unfold replay_accept. by destruct (_ || _); [|destruct (_ <=? _)]. }
  unfold unprotect_request, unprotect_request_wire. unbind.
  rewrite (parse_protected_ok pm (outer_code (msg_code T m) (msg_options T m)) (msg_options T m) bs (context_field ctx) (Some sid));
    try done; [|by apply opts_wf_0 in Hos as [_ Ho]].
  cbn [oh_kid oh_kid_context oh_piv]. rewrite (matches_paired c _ sid ctx Hpair'). cbn [negb].
  rewrite opt_piv_some by done. cbn [ok_or]. by rewrite Hseq, replay_accept_marks.
Qed.

(** A request protected by one end is recovered by the other.  With contexts
    of matching keys, a free number and buffers that are large enough, [protect_request]
    succeeds, its datagram decodes, and [unprotect_request] returns a
    message with the sender's type, code, Message ID, token, payload and options
    (all but the OSCORE option, in order) and the reference that binds the
    response; the same datagram offered again is refused as a replay. *)
Theorem oscore_request_roundtrip c s m (sid ctx tb bs out out2 : list Z) (j : nat) :
  paired c s sid ctx → Code_is_request (msg_code _ m) = true → ot_wf (msg_token _ m) → bs ≠ [] →
  protectable m tb bs (context_field ctx) (Some sid) →
  0 ≤ sc_sender_seq c < SEQ_END → sc_sender_seq c < sc_sender_reserved_end c →
  PartialIv_from_seq (sc_sender_seq c) = Ok (piv_of bs) → replay_fresh s (sc_sender_seq c) = true →
  position is_none_row (sc_live c) = Some j → slice_fits out → slice_fits out2 →
  (length (protected_wire m tb bs (context_field ctx) (Some sid)
     (replicate (length (plain_wire m) + TAG_LEN) 0%Z)) ≤ length out)%nat →
  (length (app_options false (msg_options _ m)) ≤ OPT_SLOTS)%nat →
  (length (app_wire m tb) ≤ length out2)%nat → (length (app_wire m tb) ≤ INNER)%nat →
  ∃ c' out' n pm s' out2' pm2 r,
    protect_request m (c, out) = ((c', out'), Ok n) ∧ decode_with_token (take n out') = Ok pm ∧
    unprotect_request pm (s, out2) = ((s', out2'), Ok (pm2, r)) ∧ received pm2 m ∧
    RequestRef_kid (E:=OscoreError) r = Ok sid ∧ rr_piv r = piv_of bs ∧
    ∀ out3, unprotect_request pm (s', out3) = ((s', out3), Err OReplay).
Proof.
  intros Hpair Hreq Htok Hne Hprot Hseq Hres Hpiv Hfresh Hj Hout Hout2 Hlen Hcount Hl HlI.
  destruct (protect_request_ok c s m sid ctx tb bs out j) as (c' & nc & ct & Hnc & Hsealed & Hctl & Hpr); try done.
  set (wire := protected_wire m tb bs (context_field ctx) (Some sid) ct) in *.
  assert (length wire ≤ length out)%nat as Hwl
    by (unfold wire; erewrite length_protected_wire; [exact Hlen|by rewrite length_replicate]).
  assert (slice_fits wire) as Hwf by (unfold slice_fits in *; lia).
  assert (PartialIv_seq (E:=OscoreError) (piv_of bs) = Ok (sc_sender_seq c)) as Hsq.
  { pose proof (from_seq_ok (sc_sender_seq c)) as Hf. unfold SEQ_END in *. rewrite (proj2 (Z.ltb_lt _ _)) in Hf by lia.
    destruct Hf as (p & Hp & _ & Hq); [unfold in_u; lia|]. by rewrite Hpiv in Hp; simplify_eq. }
  assert (slice_fits (pm_options _ (protected_pm m tb bs (context_field ctx) (Some sid) ct))) as Hfo.
  { unfold slice_fits, wire, protected_wire, msg_wire, protected_pm in *. simpl. rewrite !length_app in Hwf. lia. }
  destruct (unprotect_request_ok c s m sid ctx tb bs ct nc out2 (sc_sender_seq c))
    as (pm2 & r & Hun & Hrec & Hkid & Hrp); try done.
  exists c', (splice out 0 wire), (length wire), (protected_pm m tb bs (context_field ctx) (Some sid) ct),
    (replay_accept s (sc_sender_seq c)), (splice out2 0 (app_wire m tb)), pm2, r.
  split_and!; try done.
  - rewrite take_splice_0. by apply decode_protected.
  - intros out3. apply (unprotect_replayed c); try done. intros ->. simpl in Hctl. unfold TAG_LEN in Hctl. lia.
Qed.

(** What the server puts on the wire in answer. *)
Lemma protect_response_ok s m (kid tb bs out : list Z) (r : RequestRef) :
  length (sc_sender_key s) = KEY_LEN → length (sc_common_iv s) = NONCE_LEN →
  Code_is_response (msg_code _ m) = true → protectable m tb [] None None →
  (∀ E, RequestRef_kid (E:=E) r = Ok kid) → (length kid ≤ MAX_ID_LEN)%nat →
  rr_piv r = piv_of bs → (length bs ≤ MAX_PIV_LEN)%nat → slice_fits out →
  (length (protected_wire m tb [] None None (replicate (length (plain_wire m) + TAG_LEN) 0%Z)) ≤ length out)%nat →
  ∃ nc ct, nonce (E:=OscoreError) (sc_common_iv s) kid (piv_of bs) = Ok nc ∧
    sealed (sc_sender_key s) nc (aad_wire kid bs []) (plain_wire m) ct ∧
    length ct = (length (plain_wire m) + TAG_LEN)%nat ∧
    protect_response s m r out = (splice out 0 (protected_wire m tb [] None None ct),
      Ok (length (protected_wire m tb [] None None ct))).
Proof.
  intros Hkl Hivl Hresp Hprot Hkid Hkidl Hrp Hbl Hout Hlen.
  destruct (nonce_aad_ok (E:=OscoreError) (sc_common_iv s) kid bs Hivl Hkidl Hbl) as (nc & Hnc & Hncl & a & Ha & Hab & Hal).
  destruct (seal_message_ok m tb [] (sc_sender_key s) nc (aad_wire kid bs []) None None Hprot)
    as (ct & Hsealed & Hctl & Hseal); [done|].
  exists nc, ct. split_and!; [done..|].
  unfold protect_response. rewrite Hresp. cbn [negb]. unbind. rewrite Hkid, Hrp. cbn iota beta.
  rewrite as_bytes_ok by done. rewrite Ha. cbn iota beta. rewrite Hnc, Hab. cbn iota beta. apply Hseal; [done|].
  by erewrite length_protected_wire; [exact Hlen|rewrite length_replicate].
Qed.

(** ** The nonce each message is sealed with

    A request, and a response with a Partial IV, take a fresh number and seal
    with its nonce; a response without one seals with the nonce of its request.
    These are the nonces the runs of [OscoreContext.node_step] log. *)
Ltac past_res :=
  repeat match goal with
  | |- context [match ?r with Ok _ => _ | Err _ => _ | Panic => _ | Diverge => _ end] =>
      match type of r with res _ _ => destruct r eqn:?; try done; cbn beta iota end
  end.

Lemma protect_response_nonce c m (r : RequestRef) out out' n :
  protect_response c m r out = (out', Ok n) →
  ∃ nc aad, response_nonce (E:=OscoreError) c r = Ok nc ∧
    seal_message m (sc_sender_key c) nc aad None None None out = (out', Ok n).
Proof.
  unfold protect_response. destruct (Code_is_response (msg_code T m)); [|done]. cbn [negb]. unbind.
  destruct (RequestRef_kid r) as [kid| | |] eqn:Ek; try done. cbn beta iota.
  destruct (PartialIv_as_bytes (rr_piv r)) as [pb| | |]; try done. cbn beta iota. destruct (Aad_new kid pb) as [aad| | |]; try done. cbn beta iota.
  destruct (nonce (sc_common_iv c) kid (rr_piv r)) as [nc| | |] eqn:En; try done. cbn beta iota.
  destruct (Aad_as_bytes aad) as [bytes| | |]; try done. intros Hs. exists nc, bytes. split; [|done].
  unfold response_nonce. unbind. by rewrite Ek.
Qed.

Lemma protect_request_nonce c m out c' out' n :
  protect_request m (c, out) = ((c', out'), Ok n) →
  ∃ c1 piv nc aad ctx kid, take_sender_piv c = (c1, Ok piv) ∧ request_nonce (E:=OscoreError) c1 piv = Ok nc ∧
    seal_message m (sc_sender_key c1) nc aad (Some piv) ctx (Some kid) out = (out', Ok n).
Proof.
  unfold protect_request. destruct (Code_is_request (msg_code T m)); [|done]. cbn [negb]. unbind. unfold on_fst at 1.
  destruct (take_sender_piv c) as [c1 [piv| | |]]; try done. cbn beta iota.
  destruct (request_nonce c1 piv) as [nc| | |] eqn:En; try done. cbn beta iota. intros HE. exists c1, piv, nc. revert HE. past_res.
  unfold on_snd. destruct (seal_message _ _ _ _ _ _ _ out) as [o [k| | |]] eqn:Es; try done. cbn beta iota. unfold on_fst.
  intros HE. eexists _, _, _. split_and!; [done|done|]. rewrite Es. revert HE.
  destruct (_ && _); [destruct (remember_download _ _ c1) as [c2 [[]| | |]]|destruct (remember_live _ _ _ c1) as [c2 [[]| | |]]];
    try done; by intros [= _ <- <-].
Qed.

Lemma protect_response_piv_nonce c m (r : RequestRef) out c' out' n :
  protect_response_piv m r (c, out) = ((c', out'), Ok n) →
  ∃ piv nc aad, take_sender_piv c = (c', Ok piv) ∧ request_nonce (E:=OscoreError) c' piv = Ok nc ∧
    seal_message m (sc_sender_key c') nc aad (Some piv) None None out = (out', Ok n).
Proof.
  unfold protect_response_piv. destruct (Code_is_response (msg_code T m)); [|done]. cbn [negb]. unbind. unfold on_fst at 1.
  destruct (take_sender_piv c) as [c1 [piv| | |]]; try done. cbn beta iota. past_res.
  unfold on_snd. destruct (seal_message _ _ _ _ _ _ _ out) as [o [k| | |]] eqn:Es; try done.
  intros [= -> <- <-]. by eexists _, _, _.
Qed.

Lemma unprotect_response_ok c m (key iv kid tb bs ct nc out : list Z) (r : RequestRef) :
  let pm := protected_pm m tb [] None None ct in
  sc_recipient_key c = key → sc_common_iv c = iv → length iv = NONCE_LEN →
  Code_is_response (msg_code _ m) = true → ot_wf (msg_token _ m) → protectable m tb [] None None →
  nonce (E:=OscoreError) iv kid (piv_of bs) = Ok nc → sealed key nc (aad_wire kid bs []) (plain_wire m) ct →
  (∀ E, RequestRef_kid (E:=E) r = Ok kid) → (length kid ≤ MAX_ID_LEN)%nat →
  rr_piv r = piv_of bs → (length bs ≤ MAX_PIV_LEN)%nat →
  (length (app_options true (msg_options _ m)) ≤ OPT_SLOTS)%nat → slice_fits (pm_options _ pm) → slice_fits out →
  (length (app_wire m tb) ≤ length out)%nat → (length (app_wire m tb) ≤ INNER)%nat →
  ∃ pm2, unprotect_response c pm r out = (splice out 0 (app_wire m tb), Ok pm2) ∧ received pm2 m.
Proof.
  intros pm Hkey Hiv Hivl Hresp Htok Hprot Hnc Hsealed Hkid Hkidl Hrp Hbl Hcount Hfo Hout Hl HlI.
  pose proof Hprot as (Htb & Htl & Hid & Hos & Hp & Hh & Hc & Hin).
  pose proof (code_nonzero _ (or_intror Hresp)) as Hcode.
  destruct (nonce_aad_ok (E:=OscoreError) iv kid bs Hivl Hkidl Hbl) as (nc' & Hnc' & _ & a & Ha & Hab & _).
  pose proof Hsealed as (body & tag & Hct & Hbody & Htag & _).
  assert (length ct = length (plain_wire m) + TAG_LEN)%nat as Hctl by (rewrite Hct, length_app; lia).
  destruct (decode_app_wire m tb) as (pm2 & Hpm2 & Hrec); try done; [by apply inner_small|].
  exists pm2. split; [|done]. unfold unprotect_response, unprotect_response_candidates. unbind.
  rewrite (parse_protected_ok pm (outer_code (msg_code T m) (msg_options T m)) (msg_options T m) [] None None);
    try done; [|by apply opts_wf_0 in Hos as [_ Ho]|simpl; intros ->; simpl in Hctl; unfold TAG_LEN in *; lia].
  change (pm_payload T pm) with ct. rewrite (proj2 (Nat.ltb_ge _ _)) by lia. cbn [try_candidates]. unbind.
  rewrite Hkid, Hrp. cbn iota beta. rewrite as_bytes_ok by done. rewrite Ha. cbn iota beta.
  cbn [oh_piv opt_piv length Nat.eqb]. rewrite Hiv, Hnc. cbn iota beta. rewrite Hab. cbn iota beta.
  unfold or_decrypt. rewrite Hkey, (aead_open_ok _ _ _ (plain_wire m) ct) by (done || (rewrite length_replicate; lia)).
  cbn iota beta. unfold ok_or. cbn iota beta.
  rewrite slice_prefix by (rewrite length_splice; rewrite length_replicate; lia). rewrite take_splice_0. cbn iota beta.
  change (head (plain_wire m)) with (Some (msg_code T m)). cbn iota beta. unfold Code_from_raw. rewrite Hresp. cbn [negb].
  assert (stitch_inner (pm_ty pm) (pm_message_id pm) (pm_token _ pm) (pm_options _ pm) (plain_wire m) out =
    (splice out 0 (app_wire m tb), Ok (length (app_wire m tb)))) as ->
    by (apply stitch_protected; done || by rewrite Hresp).
  cbn iota beta. rewrite slice_prefix by (rewrite length_splice; lia). rewrite take_splice_0. cbn iota beta. by rewrite Hpm2.
Qed.

(** C18: the response bound to a request is recovered by its sender.  With the
    reference of the request on both sides, [protect_response] succeeds without
    spending a number, its datagram decodes, and [unprotect_response] returns a
    message with the sender's type, code, Message ID, token, payload and options
    (all but the OSCORE option, in order, and with the Observe value of a
    notification empty). *)
Theorem oscore_response_roundtrip c s m (sid ctx kid tb bs out out2 : list Z) (r : RequestRef) :
  paired s c sid ctx → Code_is_response (msg_code _ m) = true → ot_wf (msg_token _ m) →
  protectable m tb [] None None →
  (∀ E, RequestRef_kid (E:=E) r = Ok kid) → (length kid ≤ MAX_ID_LEN)%nat →
  rr_piv r = piv_of bs → (length bs ≤ MAX_PIV_LEN)%nat → slice_fits out → slice_fits out2 →
  (length (protected_wire m tb [] None None (replicate (length (plain_wire m) + TAG_LEN) 0%Z)) ≤ length out)%nat →
  (length (app_options true (msg_options _ m)) ≤ OPT_SLOTS)%nat →
  (length (app_wire m tb) ≤ length out2)%nat → (length (app_wire m tb) ≤ INNER)%nat →
  ∃ out' n pm out2' pm2,
    protect_response s m r out = (out', Ok n) ∧ decode_with_token (take n out') = Ok pm ∧
    unprotect_response c pm r out2 = (out2', Ok pm2) ∧ received pm2 m.
Proof.
  intros (Hkey & Hiv & Hkl & Hivl & _) Hresp Htok Hprot Hkid Hkidl Hrp Hbl Hout Hout2 Hlen Hcount Hl HlI.
  destruct (protect_response_ok s m kid tb bs out r) as (nc & ct & Hnc & Hsealed & Hctl & Hpr); try done.
  set (wire := protected_wire m tb [] None None ct) in *.
  assert (length wire ≤ length out)%nat as Hwl
    by (unfold wire; erewrite length_protected_wire; [exact Hlen|by rewrite length_replicate]).
  assert (slice_fits wire) as Hwf by (unfold slice_fits in *; lia).
  assert (slice_fits (pm_options _ (protected_pm m tb [] None None ct))) as Hfo.
  { unfold slice_fits, wire, protected_wire, msg_wire, protected_pm in *. simpl. rewrite !length_app in Hwf. lia. }
  destruct (unprotect_response_ok c m (sc_sender_key s) (sc_common_iv s) kid tb bs ct nc out2 r)
    as (pm2 & Hun & Hrec); try done.
  exists (splice out 0 wire), (length wire), (protected_pm m tb [] None None ct), (splice out2 0 (app_wire m tb)), pm2.
  split_and!; try done. rewrite take_splice_0. by apply decode_protected.
Qed.
End request.

(** ** A concrete exchange *)
Module ProtectDemo.
#[local] Existing Instance target64.

(** A stand-in with the length and round-trip behaviour of AES-CCM: the text
    is left as it is and the tag is a checksum of everything. *)
Definition checksum (key nonce aad text : list Z) : list Z :=
  replicate TAG_LEN (foldl (fun a b => (31 * a + b) mod 256) 7 (key ++ nonce ++ aad ++ text)).
#[global] Instance toy_ccm : Ccm := {
  ccm_encrypt key nonce aad pt := (pt, Some (checksum key nonce aad pt));
  ccm_decrypt key nonce aad ct tag := (ct, eqb tag (checksum key nonce aad ct))
}.
#[global] Instance toy_ccm_laws : CcmLaws.
Proof.
  constructor. intros key nonce aad pt _ _ _ _. exists pt, (checksum key nonce aad pt). split_and!; try done.
  simpl. unfold eqb. by rewrite bool_decide_eq_true_2.
Qed.

Definition server_params : DeriveParams := mkDeriveParams [1; 2] [] [1] [] [].
Definition client : SecurityContext Token :=
  mkContext (mkId [0; 0; 0; 0; 0; 0; 0] 0) (mkId [1; 0; 0; 0; 0; 0; 0] 1) (replicate 16 0) 0
    (replicate 16 9) (replicate 16 10) (replicate 13 8) 0 U64_MAX 0 0 [None].
Definition server : SecurityContext Token :=
  mkContext (mkId [1; 0; 0; 0; 0; 0; 0] 1) (mkId [0; 0; 0; 0; 0; 0; 0] 0) (replicate 16 0) 0
    (replicate 16 10) (replicate 16 9) (replicate 13 8) 0 U64_MAX 0 0 [None].

(** They are what both ends derive from one secret. *)
Lemma derived :
  derive (T:=Token) Demo.hkdf 1 Demo.params = Ok client ∧ derive (T:=Token) Demo.hkdf 1 server_params = Ok server.
Proof. split; vm_compute; reflexivity. Qed.

Definition request : Message Token :=
  mkMessage _ Confirmable Code_GET 77 ex_token [mkOpt 3 [104]; mkOpt 6 []; mkOpt 11 [116]; mkOpt 60 [5]] [8; 9].
Definition notification : Message Token :=
  mkMessage _ Confirmable Code_CONTENT 78 ex_token [mkOpt 4 [1]; mkOpt 6 [3]; mkOpt 12 []] [50; 49].

Lemma request_paired : paired client server [] [].
Proof. repeat split; try (by apply Nat.leb_le) || constructor. Qed.
Lemma response_paired : paired server client [1] [].
Proof. repeat split; try (by apply Nat.leb_le) || (repeat constructor; lia). Qed.

Lemma request_protectable : protectable request [7; 9] [0] (context_field []) (Some []).
Proof.
  split; [intros E; reflexivity|]. split; [by apply Z.leb_le|]. split; [done|]. split.
  { vm_compute. repeat split; try done; repeat constructor; done. }
  split; [by apply Z.leb_le|]. split.
  { repeat split; try done; try (by apply Nat.leb_le); repeat constructor; done. }
  split; by apply Nat.leb_le.
Qed.

Lemma notification_protectable : protectable notification [7; 9] [] None None.
Proof.
  split; [intros E; reflexivity|]. split; [by apply Z.leb_le|]. split; [done|]. split.
  { vm_compute. repeat split; try done; repeat constructor; done. }
  split; [by apply Z.leb_le|]. split.
  { repeat split; try done; try (by apply Nat.leb_le); repeat constructor; done. }
  split; by apply Nat.leb_le.
Qed.

Lemma token_wf : ot_wf ex_token.
Proof. apply ex_typed. Qed.
End ProtectDemo.

(** Witness: an observed GET with a Uri-Host. *)
Lemma oscore_request_roundtrip_witness :
  ∃ c' out' n pm s' out2' pm2 r,
    protect_request (H:=target64) ProtectDemo.request (ProtectDemo.client, replicate 64 0) = ((c', out'), Ok n) ∧
    decode_with_token (H:=target64) (take n out') = Ok pm ∧
    unprotect_request (H:=target64) pm (ProtectDemo.server, replicate 32 0) = ((s', out2'), Ok (pm2, r)) ∧
    received (H:=target64) pm2 ProtectDemo.request.
Proof.
  destruct (oscore_request_roundtrip (H:=target64) ProtectDemo.client ProtectDemo.server ProtectDemo.request [] [] [7; 9]
    [0] (replicate 64 0) (replicate 32 0) 0) as (c' & out' & n & pm & s' & out2' & pm2 & r & H1 & H2 & H3 & H4 & _).
  - exact ProtectDemo.request_paired.
  - reflexivity.
  - exact ProtectDemo.token_wf.
  - discriminate.
  - exact ProtectDemo.request_protectable.
  - split; [apply Z.le_refl|reflexivity].
  - reflexivity.
  - reflexivity.
  - reflexivity.
  - reflexivity.
  - by apply Z.leb_le.
  - by apply Z.leb_le.
  - by apply Nat.leb_le.
  - by apply Nat.leb_le.
  - by apply Nat.leb_le.
  - by apply Nat.leb_le.
  - exists c', out', n, pm, s', out2', pm2, r. exact (conj H1 (conj H2 (conj H3 H4))).
Defined.

(** Witness: a notification for it. *)
Lemma oscore_response_roundtrip_witness :
  let r := mkRequestRef (mkId [0; 0; 0; 0; 0; 0; 0] 0) (piv_of [0]) in
  ∃ out' n pm out2' pm2,
    protect_response (H:=target64) ProtectDemo.server ProtectDemo.notification r (replicate 64 0) = (out', Ok n) ∧
    decode_with_token (H:=target64) (take n out') = Ok pm ∧
    unprotect_response (H:=target64) ProtectDemo.client pm r (replicate 32 0) = (out2', Ok pm2) ∧
    received (H:=target64) pm2 ProtectDemo.notification.
Proof.
  apply (oscore_response_roundtrip (H:=target64) ProtectDemo.client ProtectDemo.server ProtectDemo.notification [1] [] []
    [7; 9] [0] (replicate 64 0) (replicate 32 0)).
  - exact ProtectDemo.response_paired.
  - reflexivity.
  - exact ProtectDemo.token_wf.
  - exact ProtectDemo.notification_protectable.
  - intros E. reflexivity.
  - by apply Nat.leb_le.
  - reflexivity.
  - by apply Nat.leb_le.
  - by apply Z.leb_le.
  - by apply Z.leb_le.
  - by apply Nat.leb_le.
  - by apply Nat.leb_le.
  - by apply Nat.leb_le.
  - by apply Nat.leb_le.
Defined.
