(* ===== verification/OscoreSeal.v ===== *)
(** * Sealing in place against sealing through a staging buffer

    [seal_message] of [src/oscore/protect.rs] encrypts in the tail of the
    output slice and falls back to a staging buffer when that fails.  This file
    shows that the shortcut cannot be told from the staging path, for every
    message and every output length, errors included. *)
From S2P Require Import Prelude Errors MsgTypes Options Encode Codec OptionsBuilder MessageOptions.
From S2P Require Import OscoreHeader OscoreCbor OscoreContext OscoreProtect.

(** ** Writers that do not read

    A writer is blind when its outcome depends on the length of its buffer
    and not on the bytes in it, and it keeps that length. *)
Definition blind {E A} (m : st (list Z) E A) : Prop :=
  ∀ b1 b2, length b1 = length b2 → (m b1).2 = (m b2).2 ∧ length (m b1).1 = length b1.

Lemma blind_bind {E A B} (m : st (list Z) E A) (k : A → st (list Z) E B) :
  blind m → (∀ a, blind (k a)) → blind (m ≫= k).
Proof.
  intros Hm Hk b1 b2 Hl. destruct (Hm b1 b2 Hl) as [H1 H2]. destruct (Hm b2 b1 (eq_sym Hl)) as [_ H3]. unbind.
  destruct (m b1) as [c1 r1], (m b2) as [c2 r2]. simpl in *. subst r2.
  destruct r1 as [a|e| |]; try done. destruct (Hk a c1 c2) as [-> ->]; [congruence|]. done.
Qed.

Lemma blind_ret {E A} (a : A) : blind (mret a : st (list Z) E A).
Proof. by intros b1 b2 _. Qed.

Lemma blind_lift {E A} (r : res E A) : blind (st_lift r).
Proof. by intros b1 b2 _. Qed.

Lemma blind_fail {E A} (e : E) : blind (st_fail e : st (list Z) E A).
Proof. by intros b1 b2 _. Qed.

Lemma blind_get {E A} (k : list Z → st (list Z) E A) :
  (∀ b1 b2, length b1 = length b2 → k b1 = k b2) → (∀ b, blind (k b)) → blind (st_get ≫= k).
Proof. intros Hk Hb b1 b2 Hl. unbind. rewrite (Hk b1 b2 Hl). by apply Hb. Qed.

Lemma blind_set {E} (i : nat) (x : Z) : blind (st_upd (E:=E) (set_idx i x)).
Proof.
  intros b1 b2 Hl. unfold st_upd, set_idx. rewrite <- Hl. destruct (_ <? _)%nat; [|done].
  simpl. by rewrite length_insert.
Qed.

Lemma blind_copy {E} (i j : nat) (src : list Z) : blind (st_upd (E:=E) (copy_into i j src)).
Proof.
  intros b1 b2 Hl. unfold st_upd, copy_into. rewrite <- Hl. destruct (_ && _) eqn:Hc; [|done]. bools.
  simpl. by rewrite length_splice by lia.
Qed.

Lemma blind_map_err {E F A} (f : E → F) (m : st (list Z) E A) : blind m → blind (st_map_err f m).
Proof.
  intros Hm b1 b2 Hl. destruct (Hm b1 b2 Hl) as [H1 H2]. unfold st_map_err.
  destruct (m b1), (m b2). simpl in *. by rewrite H1.
Qed.

Create HintDb blind.
#[export] Hint Resolve blind_ret blind_lift blind_fail blind_set blind_copy blind_map_err : blind.

(** One step through a writer: binds, length reads and branches. *)
Ltac blind_step :=
  match goal with
  | |- blind (st_get ≫= _) =>
      apply blind_get; [intros ?b1 ?b2 ?Hl; cbn beta; rewrite ?Hl; reflexivity|intros ?b]
  | |- blind (_ ≫= _) => apply blind_bind; [|intros ?]
  | |- blind (if ?c then _ else _) => destruct c
  | |- blind (match ?x with (_, _) => _ end) => destruct x
  | |- _ => solve [auto with blind]
  end.

Section writers.
Context `{Target}.

Lemma blind_write_option (i : nat) (delta : Z) (value : list Z) : blind (write_option i delta value).
Proof. unfold write_option. repeat blind_step. Qed.
Hint Resolve blind_write_option : blind.

Lemma blind_encode_options (os : list Opt) (i : nat) (prev : Z) : blind (encode_options os i prev).
Proof.
  revert i prev. induction os as [|o os IH]; intros i prev; cbn [encode_options]; repeat blind_step.
Qed.
Hint Resolve blind_encode_options : blind.

Lemma blind_encode_payload (payload : list Z) (i : nat) : blind (encode_payload payload i).
Proof. unfold encode_payload. repeat blind_step. Qed.
Hint Resolve blind_encode_payload : blind.

Lemma blind_encode_token_iter (ty : MType) (code : Code) (id : MessageId) (token : list Z) (os : list Opt)
    (payload : list Z) : blind (encode_token_iter ty code id token os payload).
Proof. unfold encode_token_iter. repeat blind_step. Qed.

Lemma blind_encode {T} `{OwnedToken T} (m : Message T) : blind (encode m).
Proof. unfold encode, encode_iter. repeat blind_step. apply blind_encode_token_iter. Qed.
Hint Resolve blind_encode : blind.

Lemma blind_encode_outer {T} `{OwnedToken T} (ty : MType) (code : Code) (mid : MessageId) (token : T)
    (os : list Opt) (piv : option PartialIv) (ctx kid : option (list Z)) (ct : list Z) :
  blind (encode_outer ty code mid token os piv ctx kid ct).
Proof. unfold encode_outer. repeat blind_step. Qed.
End writers.

(** ** The outer encoder *)
Lemma push_all_cases (N : nat) (os : list Opt) (b : OptionsBuilder) :
  builder_inv N b →
  (∃ e, push_all N b os = Err e) ∨
  (∃ b', push_all N b os = Ok b' ∧ builder_inv N b' ∧ used b' = insert_all (used b) os).
Proof.
  revert b. induction os as [|o os IH]; intros b Hb; [right; by exists b|]. cbn [push_all]. unbind.
  pose proof Hb as (_ & Hn & _). destruct (decide (ob_len b < N)%nat) as [Hlt|Hge].
  - destruct (OptionsBuilder_push_ok N b o Hb Hlt) as (b1 & -> & Hb1 & _ & Hu).
    destruct (IH b1 Hb1) as [[e ->]|(b2 & -> & Hb2 & Hu2)]; [left; by exists e|].
    right. exists b2. by rewrite Hu2, Hu.
  - left. unfold OptionsBuilder_push. rewrite (proj2 (Nat.leb_le _ _)) by lia. by eexists.
Qed.

Section outer_cases.
Context `{Target} {T : Type} `{OwnedToken T}.

(** What can go wrong before the first write does so for any ciphertext and
    any buffer; after that the outer options are encoded. *)
Lemma encode_outer_cases (ty : MType) (code : Code) (mid : MessageId) (token : T) (tb : list Z) (os : list Opt)
    (bs : list Z) (ctx kid : option (list Z)) :
  (∀ E, ot_as_bytes (E:=E) token = Ok tb) → (length bs ≤ MAX_PIV_LEN)%nat → code ≠ 0 →
  bytes_ok bs → bytes_ok (default [] ctx) → bytes_ok (default [] kid) →
  (∃ e, ∀ ct out, encode_outer ty code mid token os (opt_piv bs) ctx kid ct out = (out, Err e)) ∨
  header_ok bs ctx kid ∧
  ∀ ct out, encode_outer ty code mid token os (opt_piv bs) ctx kid ct out =
    st_map_err OEncode (encode_token_iter ty code mid tb (outer_opts code os (oscore_wire bs ctx kid)) ct) out.
Proof.
  intros Htb Hbl Hcode Hb Hc Hk. unfold encode_outer. rewrite encode_option_outcome by done.
  destruct (too_long ctx _) eqn:Tc; [left; by eexists|]. destruct (too_long kid _) eqn:Tk; [left; by eexists|].
  assert (header_ok bs ctx kid) as Hh by done. destruct (oscore_wire_ok bs ctx kid Hh) as [Hwl _].
  cbn [orb]. rewrite length_replicate. change (1 + MAX_PIV_LEN + 1 + MAX_ID_CONTEXT_LEN + MAX_ID_LEN)%nat with 30%nat.
  rewrite (proj2 (Nat.ltb_ge _ _)) by lia. unbind. rewrite push_where_all.
  destruct (push_all_cases OPT_SLOTS (filter (fun o => outer_keep o = true) os) _ (OptionsBuilder_new_inv OPT_SLOTS))
    as [[e ->]|(b1 & -> & Hb1 & Hu1)]; [left; by eexists|]. cbn [map_err].
  rewrite slice_prefix by (rewrite length_splice; rewrite length_replicate; lia). rewrite take_splice_0.
  destruct (push_all_cases OPT_SLOTS [Opt_oscore (oscore_wire bs ctx kid)] b1 Hb1) as [[e He]|(b2 & H2 & Hb2 & Hu2)];
    cbn [push_all] in *; unbind.
  { destruct (OptionsBuilder_push OPT_SLOTS b1 _); try done. left. by eexists. }
  destruct (OptionsBuilder_push OPT_SLOTS b1 _); try done. injection H2 as ->. cbn [map_err].
  assert (∃ r, (if Code_is_response code && existsb is_observe_opt os
      then map_err (fun _ => OEncode EncodeOptionsFull) (OptionsBuilder_push OPT_SLOTS b2 (mkOpt ON_MAX_AGE []))
      else Ok b2) = r ∧ ((∃ e, r = Err e) ∨ ∃ b3, r = Ok b3 ∧ builder_inv OPT_SLOTS b3 ∧
      used b3 = outer_opts code os (oscore_wire bs ctx kid))) as (r & -> & [[e ->]|(b3 & -> & Hb3 & Hu3)]).
  { eexists. split; [done|]. unfold outer_opts, outer_extra. rewrite !insert_all_app.
    replace (insert_all [] (filter (fun o => outer_keep o = true) os)) with (used b1) by (by rewrite Hu1).
    rewrite <- Hu2. destruct (_ && _); [|right; by exists b2].
    destruct (push_all_cases OPT_SLOTS [mkOpt ON_MAX_AGE []] b2 Hb2) as [[e He]|(b3 & H3 & Hb3 & Hu3)];
      cbn [push_all] in *; unbind; destruct (OptionsBuilder_push OPT_SLOTS b2 _); try done.
    - left. by eexists.
    - right. injection H3 as ->. by exists b3. }
  { left. by eexists. }
  right. split; [done|]. intros ct out. rewrite as_slice_used by done. rewrite Hu3. unfold st_map_err.
  rewrite (encode_bytes _ tb) by done. simpl msg_code.
  assert (Code_is_empty code = false) as -> by (unfold Code_is_empty; by destruct (Z.eqb_spec code 0)). done.
Qed.
End outer_cases.

(** ** The inner half *)
Section inner_cases.
Context `{Target, CcmLaws} {T : Type}.

Lemma inner_options_typed (notify : bool) (os : list Opt) :
  Forall opt_typed os → Forall opt_typed (inner_options notify os).
Proof.
  rewrite !Forall_forall. intros Hos o (p & -> & [_ Hp]%list_elem_of_filter)%list_elem_of_fmap.
  destruct (Hos p Hp) as (Hn & Hv & Hf). unfold inner_view. destruct (_ && _); [|done]. split_and!; [done|constructor|]. unfold slice_fits. simpl.
  pose proof usize_max_ge. lia.
Qed.

Lemma encode_plaintext_outcome (m : Message T) (buf : list Z) :
  Forall opt_typed (msg_options _ m) → slice_fits (msg_payload _ m) → slice_fits buf →
  let '(b, r) := encode_plaintext m buf in
  length b = length buf ∧
  match r with
  | Ok n => opts_wf 0 (inner_options (Code_is_response (msg_code _ m)) (msg_options _ m)) ∧
      n = length (plain_wire m) ∧ (n ≤ length buf)%nat
  | Err _ => True
  | Panic | Diverge => False
  end.
Proof.
  intros Hos Hp Hb. unfold encode_plaintext. unbind. destruct buf as [|b0 buf']; [done|].
  set (buf := b0 :: buf') in *. change (is_nil buf) with false. cbn beta iota.
  rewrite set_idx_ok by (simpl; lia). rewrite plaintext_options_eq. unfold st_map_err.
  set (os := inner_options _ _) in *. set (buf1 := splice buf 0 _).
  assert (length buf1 = length buf) as Hl1 by (apply length_splice; simpl; lia).
  pose proof (encode_options_spec os 1 0 buf1 (inner_options_typed _ _ Hos)) as Ho. unfold slice_fits in *.
  rewrite Hl1 in Ho. specialize (Ho Hb ltac:(simpl; lia) ltac:(lia)).
  destruct (encode_options os 1 0 buf1) as [buf2 [k|e| |]]; destruct Ho as [Hl2 Ho]; try done.
  destruct Ho as (Hw & Hk & Hkl & ->). cbn [map_err]. rewrite plaintext_payload_eq. unfold st_map_err.
  pose proof (encode_payload_spec (msg_payload T m) k (splice buf1 1 (options_wire 0 os))) as Hq.
  unfold slice_fits in Hq. rewrite Hl2 in Hq. specialize (Hq Hp Hb Hkl).
  destruct (encode_payload _ _ _) as [buf4 [n|e| |]]; destruct Hq as [Hl4 Hq]; try done; cbn [map_err].
  destruct Hq as (-> & Hn & _). split; [congruence|]. split; [done|]. unfold plain_wire. fold os.
  simpl. rewrite length_app. split; [lia|]. exact Hn.
Qed.

Lemma seal_plaintext_outcome (m : Message T) (key nonce aad buf : list Z) :
  Forall opt_typed (msg_options _ m) → slice_fits (msg_payload _ m) → sealable_keys key nonce aad →
  (length buf ≤ INNER)%nat →
  let '(b, r) := seal_plaintext m key nonce aad buf in
  length b = length buf ∧
  match r with
  | Ok n => opts_wf 0 (inner_options (Code_is_response (msg_code _ m)) (msg_options _ m)) ∧
      n = (length (plain_wire m) + TAG_LEN)%nat ∧ (n ≤ length buf)%nat
  | Err _ => True
  | Panic | Diverge => False
  end.
Proof.
  intros Hos Hp (Hkl & Hnl & Hal) Hb. pose proof usize_max_ge.
  assert (Z.of_nat INNER = 1280) as HI by done. unfold seal_plaintext. unbind.
  pose proof (encode_plaintext_outcome m buf Hos Hp ltac:(unfold slice_fits; lia)) as Hpt.
  destruct (encode_plaintext m buf) as [b [n|e| |]]; destruct Hpt as [Hl Hpt]; try done.
  destruct Hpt as (Hw & -> & Hn). unfold seal_in_place. unbind.
  rewrite usize_checked_add_ok by (unfold TAG_LEN; lia). unfold ok_or. cbn iota.
  destruct (length b <? _)%nat eqn:E1; bools; [done|].
  rewrite slice_prefix by (unfold TAG_LEN in *; lia).
  set (pt := take (length (plain_wire m)) b).
  assert (length pt = length (plain_wire m)) as Hpl by (unfold pt; rewrite length_take; lia).
  destruct (ccm_encrypt_ok key nonce aad pt Hkl Hnl Hal) as (body & tag & -> & Hbl & Htl & _); [lia|]. cbn iota.
  rewrite copy_into_ok by (rewrite ?length_splice; unfold TAG_LEN in *; lia). cbn iota.
  split; [rewrite !length_splice; unfold TAG_LEN in *; rewrite ?length_splice; lia|]. split; [done|]. lia.
Qed.
End inner_cases.

Section equivalence.
Context `{Target, CcmLaws} {T : Type} `{OwnedTokenLaws T}.

Lemma outer_opts_typed (code : Code) (os : list Opt) (bs : list Z) (ctx kid : option (list Z)) :
  Forall opt_typed os → header_ok bs ctx kid → Forall opt_typed (outer_opts code os (oscore_wire bs ctx kid)).
Proof.
  intros Hos Hh. destruct (oscore_wire_ok bs ctx kid Hh) as [Hwl Hwb]. pose proof usize_max_ge.
  unfold outer_opts. rewrite insert_all_perm, !Forall_app. split_and!.
  - rewrite Forall_forall in *. intros o [_ Ho]%list_elem_of_filter. by apply Hos.
  - constructor; [|done]. unfold opt_typed, Opt_oscore, slice_fits, in_u, ON_OSCORE. simpl. split_and!; done || lia.
  - unfold outer_extra. destruct (_ && _); [|done]. constructor; [|done].
    unfold opt_typed, slice_fits, in_u, ON_MAX_AGE. simpl. split_and!; done || lia || constructor.
Qed.

(** Every outcome of the direct path; success is what staging does. *)
Lemma seal_direct_cases (m : Message T) (tb bs key nonce aad out : list Z) (ctx kid : option (list Z)) :
  message_typed m → (∀ E, ot_as_bytes (E:=E) (msg_token _ m) = Ok tb) → sealable_keys key nonce aad →
  (length bs ≤ MAX_PIV_LEN)%nat → bytes_ok bs → bytes_ok (default [] ctx) → bytes_ok (default [] kid) →
  slice_fits out →
  let '(out1, r) := seal_direct m key nonce aad (opt_piv bs) ctx kid out in
  length out1 = length out ∧
  match r with
  | Ok n => seal_message_staged m key nonce aad (opt_piv bs) ctx kid out = (out1, Ok n)
  | Err _ => True
  | Panic | Diverge => False
  end.
Proof.
  intros (_ & Hid & _ & Hos & Hp) Htb Hkeys Hbl Hb Hc Hk Hout. pose proof usize_max_ge.
  assert (Z.of_nat INNER = 1280) as HI by done. unfold seal_direct. unbind.
  set (code := outer_code (msg_code _ m) (msg_options _ m)).
  destruct (encode_outer_cases (msg_ty _ m) code (msg_id _ m) (msg_token _ m) tb (msg_options _ m) bs ctx kid)
    as [[e He]|[Hh He]]; try done; [apply outer_code_nonzero|by rewrite He|].
  rewrite He. unfold st_map_err. set (os := outer_opts _ _ _) in *.
  assert (Forall opt_typed os) as Hty by (by apply outer_opts_typed).
  assert (slice_fits []) as Hnil by (unfold slice_fits; simpl; lia).
  pose proof (encode_token_iter_outcome (msg_ty _ m) code (msg_id _ m) tb os [] out Hid Hty Hnil Hout) as Ho.
  destruct (encode_token_iter _ _ _ _ _ _ _) as [o0 [n0|e0| |]]; destruct Ho as [Hl0 Ho]; try done.
  destruct Ho as (Hwf & -> & Hn0 & ->). cbn [map_err]. set (w0 := msg_wire _ _ _ _ _ _) in *.
  rewrite Hl0. unfold ok_or.
  assert (slice_get (splice out 0 w0) (length w0) (length out) = Some (drop (length w0) out)) as ->.
  { apply slice_get_Some. rewrite Hl0. split; [lia|]. rewrite splice_0, drop_app_length.
    rewrite take_ge; [done|]. rewrite length_drop. lia. }
  cbn iota. destruct (drop (length w0) out) as [|x tail] eqn:Et; [done|].
  assert (length out = length w0 + 1 + length tail)%nat as Hlen.
  { apply (f_equal length) in Et. rewrite length_drop in Et. simpl in Et. lia. }
  rewrite set_idx_ok by lia. cbn iota. rewrite splice_splice by (simpl; lia). simpl (0 + _)%nat.
  set (o1 := splice out 0 (w0 ++ [255])).
  assert (length o1 = length out) as Hl1 by (apply length_splice; rewrite length_app; simpl; lia).
  set (cap := Nat.min (length tail) INNER).
  unfold on_slice at 1, slice_idx.
  assert (slice_get o1 (length w0 + 1) (length w0 + 1 + cap) =
    Some (take cap (drop (length w0 + 1) o1))) as Hsl.
  { apply slice_get_Some. rewrite Hl1. split; [lia|]. f_equal. lia. }
  rewrite Hsl. set (part := take cap _).
  assert (length part = cap) as Hpl by (unfold part; rewrite length_take, length_drop; lia).
  pose proof (seal_plaintext_outcome m key nonce aad part Hos Hp Hkeys ltac:(lia)) as Hs.
  destruct (seal_plaintext m key nonce aad part) as [part' [n|e| |]] eqn:Es; destruct Hs as [Hl2 Hs]; try done.
  2: { split; [|done]. rewrite length_splice; lia. }
  split; [rewrite length_splice; lia|]. destruct Hs as (Hw & -> & Hn).
  destruct (seal_plaintext_ok m key nonce aad) as (ct & _ & Hcl & Hseal); try done; [lia|].
  rewrite Hseal in Es by (unfold slice_fits; lia). injection Es as <- _.
  assert (splice o1 (length w0 + 1) (splice part 0 ct) = splice out 0 (w0 ++ 255 :: ct)) as ->.
  { transitivity (splice o1 (length w0 + 1) ct).
    2: { unfold o1. rewrite splice_splice by (rewrite ?length_app; simpl; lia). by rewrite <- app_assoc. }
    pose proof (on_slice_ok (E:=OscoreError) (A:=unit) (length w0 + 1) (length w0 + 1 + cap)
      (fun b => (splice b 0 ct, Ok tt)) o1 ct (Ok tt) ltac:(lia) ltac:(lia) ltac:(done)) as Hx.
    unfold on_slice, slice_idx in Hx. rewrite Hsl in Hx. by injection Hx. }
  unfold seal_message_staged. rewrite Hseal by (unfold slice_fits; rewrite ?length_replicate; lia). unbind.
  rewrite slice_prefix by (rewrite length_splice; rewrite length_replicate; lia). rewrite take_splice_0. cbn iota.
  fold code. rewrite He. unfold st_map_err. fold os.
  assert (ct ≠ []) as Hct by (intros ->; unfold TAG_LEN in *; simpl in Hcl; lia).
  assert (msg_wire (msg_ty _ m) code (msg_id _ m) tb os ct = w0 ++ 255 :: ct) as Hwire.
  { unfold w0, msg_wire. rewrite <- !app_assoc. do 2 f_equal. unfold payload_wire. by destruct ct. }
  rewrite encode_token_iter_ok; try done.
  - rewrite Hwire. cbn [map_err]. f_equal. f_equal. rewrite length_app. cbn [length]. rewrite Hcl. lia.
  - destruct Hwf as (Ht & Ho & _). split_and!; try done. intros E. by apply outer_code_nonzero in E.
  - unfold slice_fits. lia.
  - rewrite Hwire, length_app. simpl. lia.
Qed.

(** Every outcome of the staging path. *)
Lemma seal_staged_cases (m : Message T) (tb bs key nonce aad : list Z) (ctx kid : option (list Z)) (L : nat) :
  message_typed m → (∀ E, ot_as_bytes (E:=E) (msg_token _ m) = Ok tb) → sealable_keys key nonce aad →
  (length bs ≤ MAX_PIV_LEN)%nat → bytes_ok bs → bytes_ok (default [] ctx) → bytes_ok (default [] kid) →
  2 * Z.of_nat L ≤ usize_max →
  ∃ wire, ∀ out, length out = L →
    let '(out1, r) := seal_message_staged m key nonce aad (opt_piv bs) ctx kid out in
    length out1 = length out ∧
    match r with Ok n => take n out1 = wire | Err _ => True | Panic | Diverge => False end.
Proof.
  intros (_ & Hid & _ & Hos & Hp) Htb Hkeys Hbl Hb Hc Hk HL. pose proof usize_max_ge.
  assert (Z.of_nat INNER = 1280) as HI by done. unfold seal_message_staged.
  pose proof (seal_plaintext_outcome m key nonce aad (replicate INNER 0) Hos Hp Hkeys) as Hs.
  rewrite length_replicate in Hs. specialize (Hs ltac:(lia)).
  destruct (seal_plaintext m key nonce aad (replicate INNER 0)) as [ct [n|e| |]]; destruct Hs as [Hcl Hs]; try done.
  2: { exists []. by intros out _. }
  destruct Hs as (_ & -> & Hn). unbind. rewrite slice_prefix by lia. set (body := take _ ct).
  set (code := outer_code (msg_code _ m) (msg_options _ m)).
  destruct (encode_outer_cases (msg_ty _ m) code (msg_id _ m) (msg_token _ m) tb (msg_options _ m) bs ctx kid)
    as [[e He]|[Hh He]]; try done; [apply outer_code_nonzero|exists []; intros out _; by rewrite He|].
  set (os := outer_opts code (msg_options _ m) (oscore_wire bs ctx kid)) in *.
  exists (msg_wire (msg_ty _ m) code (msg_id _ m) tb os body). intros out Hl. rewrite He. unfold st_map_err.
  pose proof (encode_token_iter_outcome (msg_ty _ m) code (msg_id _ m) tb os body out Hid
    ltac:(by apply outer_opts_typed) ltac:(unfold slice_fits, body; rewrite length_take; lia)
    ltac:(unfold slice_fits; lia)) as Ho.
  destruct (encode_token_iter _ _ _ _ _ _ _) as [o0 [n0|e0| |]]; destruct Ho as [Hl0 Ho]; try done.
  split; [done|]. destruct Ho as (_ & -> & _ & ->). cbn [map_err]. apply take_splice_0.
Qed.

Lemma blind_seal_staged (m : Message T) (key nonce aad : list Z) (piv : option PartialIv) (ctx kid : option (list Z)) :
  blind (seal_message_staged m key nonce aad piv ctx kid).
Proof. unfold seal_message_staged. repeat blind_step. apply blind_encode_outer. Qed.

(** C36: encrypting in the output slice cannot be told from staging.  For every
    message, well-formed or not, and every output length, [seal_message] returns
    what [seal_message_staged] returns, the same error or the same length, with
    the same bytes in the returned prefix; neither panics. *)
Theorem seal_direct_matches_staged (m : Message T) (tb bs key nonce aad out : list Z) (ctx kid : option (list Z)) :
  message_typed m → (∀ E, ot_as_bytes (E:=E) (msg_token _ m) = Ok tb) → sealable_keys key nonce aad →
  (length bs ≤ MAX_PIV_LEN)%nat → bytes_ok bs → bytes_ok (default [] ctx) → bytes_ok (default [] kid) →
  slice_fits out →
  let '(out1, r1) := seal_message m key nonce aad (opt_piv bs) ctx kid out in
  let '(out2, r2) := seal_message_staged m key nonce aad (opt_piv bs) ctx kid out in
  r1 = r2 ∧ returns r1 ∧ length out1 = length out ∧ length out2 = length out ∧
  ∀ n, r1 = Ok n → take n out1 = take n out2.
Proof.
  intros Hm Htb Hkeys Hbl Hb Hc Hk Hout.
  destruct (seal_staged_cases m tb bs key nonce aad ctx kid (length out)) as [wire Hst]; try done.
  pose proof (seal_direct_cases m tb bs key nonce aad out ctx kid Hm Htb Hkeys Hbl Hb Hc Hk Hout) as Hd.
  unfold seal_message. destruct (seal_direct _ _ _ _ _ _ _ out) as [o1 r1]. destruct Hd as [Hl1 Hd].
  pose proof (Hst out eq_refl) as Hs2. pose proof (Hst o1 Hl1) as Hs1.
  pose proof (blind_seal_staged m key nonce aad (opt_piv bs) ctx kid o1 out Hl1) as [Hbr _].
  destruct r1 as [n|e| |]; try done.
  - rewrite Hd. done.
  - destruct (seal_message_staged _ _ _ _ _ _ _ o1) as [o1' r1'], (seal_message_staged _ _ _ _ _ _ _ out) as [o2' r2'].
    simpl in Hbr. subst r2'. destruct Hs1 as [Hx1 Hs1], Hs2 as [Hx2 Hs2]. split; [done|].
    split; [by destruct r1'|]. split; [congruence|]. split; [done|]. intros n ->. by rewrite Hs1, Hs2.
Qed.
End equivalence.

(** Witness: a request that does not fit twenty bytes fails alike. *)
Lemma seal_direct_matches_staged_witness :
  (seal_message (H:=target64) ProtectDemo.request (replicate 16 9) (replicate 13 8) [1; 2] (opt_piv [5]) None
     (Some [1]) (replicate 20 0)).2 =
  (seal_message_staged (H:=target64) ProtectDemo.request (replicate 16 9) (replicate 13 8) [1; 2] (opt_piv [5]) None
     (Some [1]) (replicate 20 0)).2.
Proof.
  pose proof (seal_direct_matches_staged (H:=target64) ProtectDemo.request [7; 9] [5] (replicate 16 9)
    (replicate 13 8) [1; 2] (replicate 20 0) None (Some [1])) as Hx.
  destruct (seal_message _ _ _ _ _ _ _ _) as [o1 r1], (seal_message_staged _ _ _ _ _ _ _ _) as [o2 r2].
  apply Hx.
  - split; [by vm_compute|]. split; [by vm_compute|]. split; [exact ProtectDemo.token_wf|]. split; [|by apply Z.leb_le].
    repeat constructor; done.
  - intros E. reflexivity.
  - split; [reflexivity|]. split; [reflexivity|]. by apply Nat.leb_le.
  - by apply Nat.leb_le.
  - repeat constructor; done.
  - constructor.
  - repeat constructor; done.
  - by apply Z.leb_le.
Defined.
