(* ===== verification/OscoreOutcome.v ===== *)
(** * Every outcome of sealing a message

    [OscoreProtect] shows that sealing succeeds where it should; here is what
    any call of the three entry points of [src/oscore/protect.rs] can return,
    for messages and buffers of any size: an error, or a datagram that carries
    the message only as ciphertext. *)
From S2P Require Import Prelude Errors MsgTypes Options Encode Decode Codec OptionsBuilder OptionValues MessageOptions.
From S2P Require Import OscoreHeader OscoreCbor OscoreContext OscoreProtect OscoreSeal.

Section outcome.
Context `{Target, CcmLaws} {T : Type} `{OwnedTokenLaws T} `{!EqDecision T}.
Implicit Types (c : SecurityContext T) (m : Message T).

(** A datagram whose only use of [m] is its outer half and a ciphertext of the
    rest under [key]. *)
Definition ciphertext_of (key : list Z) m (tb bs : list Z) (ctx kid : option (list Z)) (bytes : list Z) : Prop :=
  header_ok bs ctx kid ∧
  ∃ nonce aad ct, sealed key nonce aad (plain_wire m) ct ∧ bytes = protected_wire m tb bs ctx kid ct.

(** What a call that returns [r] and leaves [out'] may have done to [out]. *)
Definition seals (key : list Z) m (tb : list Z) (out out' : list Z) (r : res OscoreError nat) : Prop :=
  length out' = length out ∧
  match r with
  | Ok n => (n ≤ length out)%nat ∧ ∃ bs ctx kid, ciphertext_of key m tb bs ctx kid (take n out')
  | Err _ => True
  | Panic | Diverge => False
  end.

Lemma seal_staged_sealed m (tb bs key nonce aad out : list Z) (ctx kid : option (list Z)) :
  message_typed m → (∀ E, ot_as_bytes (E:=E) (msg_token _ m) = Ok tb) → sealable_keys key nonce aad →
  (length bs ≤ MAX_PIV_LEN)%nat → bytes_ok bs → bytes_ok (default [] ctx) → bytes_ok (default [] kid) →
  slice_fits out →
  let '(out', r) := seal_message_staged m key nonce aad (opt_piv bs) ctx kid out in seals key m tb out out' r.
Proof.
  intros (_ & Hid & _ & Hos & Hp) Htb Hkeys Hbl Hb Hc Hk Hout. pose proof usize_max_ge.
  assert (Z.of_nat INNER = 1280) as HI by done. unfold seal_message_staged, seals.
  assert (length (replicate INNER 0) = INNER) as Hz by apply length_replicate. generalize dependent (replicate INNER 0). intros z Hz.
  pose proof (seal_plaintext_outcome m key nonce aad z Hos Hp Hkeys ltac:(lia)) as Hs.
  destruct (seal_plaintext m key nonce aad z) as [b [n|e| |]] eqn:Es; destruct Hs as [Hcl Hs]; try done.
  destruct Hs as (Hw & -> & Hn). unbind.
  destruct (seal_plaintext_ok m key nonce aad Hw Hp Hkeys) as (ct & Hsealed & Hctl & Hok); [lia|].
  rewrite Hok in Es by (unfold slice_fits; lia). injection Es as <- _.
  rewrite slice_prefix by (rewrite length_splice; lia). rewrite <- Hctl, take_splice_0. cbn iota.
  set (code := outer_code (msg_code _ m) (msg_options _ m)).
  destruct (encode_outer_cases (msg_ty _ m) code (msg_id _ m) (msg_token _ m) tb (msg_options _ m) bs ctx kid)
    as [[e He]|[Hh He]]; try done; [apply outer_code_nonzero|by rewrite He|].
  rewrite He. unfold st_map_err.
  pose proof (encode_token_iter_outcome (msg_ty _ m) code (msg_id _ m) tb (outer_opts code (msg_options _ m) (oscore_wire bs ctx kid)) ct out Hid
    ltac:(by apply outer_opts_typed) ltac:(unfold slice_fits; lia) Hout) as Ho.
  destruct (encode_token_iter _ _ _ _ _ _ _) as [o0 [n0|e0| |]]; destruct Ho as [Hl0 Ho]; try done.
  split; [done|]. destruct Ho as (_ & -> & Hn0 & ->). cbn [map_err]. split; [done|]. exists bs, ctx, kid. split; [done|]. exists nonce, aad, ct.
  split; [done|]. apply take_splice_0.
Qed.

Lemma seal_message_seals m (tb bs key nonce aad out : list Z) (ctx kid : option (list Z)) :
  message_typed m → (∀ E, ot_as_bytes (E:=E) (msg_token _ m) = Ok tb) → sealable_keys key nonce aad →
  (length bs ≤ MAX_PIV_LEN)%nat → bytes_ok bs → bytes_ok (default [] ctx) → bytes_ok (default [] kid) →
  slice_fits out →
  let '(out', r) := seal_message m key nonce aad (opt_piv bs) ctx kid out in seals key m tb out out' r.
Proof.
  intros Hm Htb Hkeys Hbl Hb Hc Hk Hout.
  pose proof (seal_direct_cases m tb bs key nonce aad out ctx kid Hm Htb Hkeys Hbl Hb Hc Hk Hout) as Hd.
  pose proof (fun o Ho => seal_staged_sealed m tb bs key nonce aad o ctx kid Hm Htb Hkeys Hbl Hb Hc Hk Ho) as Hst.
  unfold seal_message. destruct (seal_direct _ _ _ _ _ _ _ out) as [o1 [n|e| |]]; destruct Hd as [Hl1 Hd]; try done.
  - specialize (Hst out Hout). by rewrite Hd in Hst.
  - specialize (Hst o1 ltac:(unfold slice_fits in *; lia)). destruct (seal_message_staged _ _ _ _ _ _ _ o1) as [o2 r]. unfold seals in *. by rewrite Hl1 in Hst.
Qed.

(** ** The entry points *)
(** A context whose keys have their lengths and whose identifiers read back. *)
Definition context_wf c (sid ctx : list Z) : Prop :=
  length (sc_sender_key c) = KEY_LEN ∧ length (sc_common_iv c) = NONCE_LEN ∧
  (∀ E, Id_as_bytes (E:=E) (sc_sender_id c) = Ok sid) ∧ (length sid ≤ MAX_ID_LEN)%nat ∧ bytes_ok sid ∧
  (∀ E, id_context (E:=E) c = Ok ctx) ∧ bytes_ok ctx ∧ in_u 64 (sc_sender_seq c).
(** A reference that names a request. *)
Definition request_wf (r : RequestRef) : Prop :=
  ∃ kid bs, (∀ E, RequestRef_kid (E:=E) r = Ok kid) ∧ (length kid ≤ MAX_ID_LEN)%nat ∧ rr_piv r = piv_of bs ∧ (length bs ≤ MAX_PIV_LEN)%nat.

(** Drawing a number: the context keeps everything else. *)
Lemma take_sender_piv_cases c :
  in_u 64 (sc_sender_seq c) →
  (∃ e, take_sender_piv c = (c, Err e)) ∨
  (∃ bs, take_sender_piv c = (set_sender c (sc_sender_seq c + 1) (sc_sender_reserved_end c), Ok (piv_of bs)) ∧
     bs ≠ [] ∧ (length bs ≤ MAX_PIV_LEN)%nat ∧ bytes_ok bs).
Proof.
  intros Hs. unfold take_sender_piv. unbind. destruct (_ <=? sc_sender_seq c) eqn:E1; bools; [left; by eexists|].
  destruct (sc_sender_reserved_end c <=? _) eqn:E2; bools; [left; by eexists|].
  pose proof (from_seq_ok (sc_sender_seq c) Hs) as Hf. unfold SEQ_END in E1. rewrite (proj2 (Z.ltb_lt _ _)) in Hf by lia.
  destruct Hf as (p & -> & (bs & -> & [Hb1 Hb2] & Hbo) & _). unfold checked_add.
  rewrite (proj2 (Z.leb_le _ _)) by (unfold max_u, in_u in *; lia). right. exists bs. split_and!; [done| |done|done].
  intros ->. simpl in Hb1. lia.
Qed.

(** What sealing a request changes in its context. *)
Definition only_bindings c c' : Prop :=
  ∃ seq live, c' = set_live (set_sender c seq (sc_sender_reserved_end c)) live ∧ sc_sender_seq c ≤ seq.
Lemma remember_frame t q o c : ∃ live, (remember_live t q o c).1 = set_live c live ∧ returns (remember_live t q o c).2.
Proof.
  unfold remember_live. unbind. destruct (position (row_has t) _); [by eexists|]. destruct (position is_none_row _); [by eexists|].
  exists (sc_live c). by destruct c.
Qed.
Lemma remember_download_frame t q c : ∃ live, (remember_download t q c).1 = set_live c live ∧ returns (remember_download t q c).2.
Proof. unfold remember_download. unbind. destruct (update_row _ _ _); [by eexists|]. apply remember_frame. Qed.

Lemma protect_request_seals c m (sid ctx tb out : list Z) :
  context_wf c sid ctx → message_typed m → (∀ E, ot_as_bytes (E:=E) (msg_token _ m) = Ok tb) → slice_fits out →
  let '((c', out'), r) := protect_request m (c, out) in
  seals (sc_sender_key c) m tb out out' r ∧ only_bindings c c'.
Proof.
  intros (Hkl & Hivl & Hsid & Hsl & Hsb & Hctx & Hcb & Hseq) Hm Htb Hout.
  assert (only_bindings c c) as Hrefl by (exists (sc_sender_seq c), (sc_live c); split; [by destruct c|lia]).
  unfold protect_request. destruct (Code_is_request (msg_code T m)); cbn [negb]; [|by split]. unbind. unfold on_fst at 1.
  destruct (take_sender_piv_cases c Hseq) as [[e ->]|(bs & -> & Hne & Hbl & Hbo)]; [by split|]. cbn iota beta.
  set (c1 := set_sender c (sc_sender_seq c + 1) (sc_sender_reserved_end c)).
  destruct (nonce_aad_ok (E:=OscoreError) (sc_common_iv c) sid bs Hivl Hsl Hbl) as (nc & Hnc & Hncl & a & Ha & Hab & Hal).
  unfold request_nonce, RequestRef_kid. unbind. cbn [request_ref rr_kid rr_piv c1 set_sender sc_sender_id sc_common_iv].
  rewrite !Hsid. cbn iota beta. rewrite Hnc. cbn iota beta. rewrite as_bytes_ok by done. rewrite Ha. cbn iota beta.
  change (id_context (E:=OscoreError) c1) with (id_context (E:=OscoreError) c).
  rewrite Hctx, Hab. cbn iota beta. cbn [c1 set_sender sc_sender_key].
  pose proof (seal_message_seals m tb bs (sc_sender_key c) nc (aad_wire sid bs []) out (if is_nil ctx then None else Some ctx) (Some sid) Hm Htb) as Hs.
  rewrite opt_piv_some in Hs by done. specialize (Hs ltac:(done) Hbl Hbo ltac:(destruct ctx; [constructor|done]) Hsb Hout).
  unfold on_snd. destruct (seal_message _ _ _ _ _ _ _ out) as [out' [n|e| |]]; try (by destruct Hs).
  2: { split; [done|]. exists (sc_sender_seq c + 1), (sc_live c). split; [by destruct c|lia]. }
  assert (∀ (r : SecurityContext T * res OscoreError unit) live, r.1 = set_live c1 live → returns r.2 →
    let '((c', out'), r) := match r with (s, Ok _) => ((s, out'), Ok n) | (s, Err e) => ((s, out'), Err e) | (s, Panic) => ((s, out'), Panic) | (s, Diverge) => ((s, out'), Diverge) end in
    seals (sc_sender_key c) m tb out out' r ∧ only_bindings c c') as Hend.
  { intros [c' r] live Hc' Hret. simpl in Hc'. subst c'.
    assert (only_bindings c (set_live c1 live)) by (exists (sc_sender_seq c + 1), live; split; [done|lia]).
    destruct r as [[]|e| |]; [by split| |done|done]. split; [|done]. split; [by destruct Hs|done]. }
  destruct (_ && _).
  - destruct (remember_download_frame (msg_token T m) (request_ref c1 (piv_of bs)) c1) as (live & Hl & Hret). specialize (Hend _ live Hl Hret).
    unfold on_fst, c1 in *. by destruct (remember_download _ _ _) as [c' [[]|e| |]].
  - destruct (remember_frame (msg_token T m) (request_ref c1 (piv_of bs)) (existsb is_observe_opt (msg_options T m)) c1) as (live & Hl & Hret). specialize (Hend _ live Hl Hret).
    unfold on_fst, c1 in *. by destruct (remember_live _ _ _ _) as [c' [[]|e| |]].
Qed.

Lemma protect_response_seals c m r (sid ctx tb out : list Z) :
  context_wf c sid ctx → request_wf r → message_typed m → (∀ E, ot_as_bytes (E:=E) (msg_token _ m) = Ok tb) → slice_fits out →
  let '(out', x) := protect_response c m r out in seals (sc_sender_key c) m tb out out' x.
Proof.
  intros (Hkl & Hivl & _) (kid & bs & Hkid & Hkidl & Hrp & Hbl) Hm Htb Hout.
  unfold protect_response. destruct (Code_is_response (msg_code T m)); cbn [negb]; [|done]. unbind.
  destruct (nonce_aad_ok (E:=OscoreError) (sc_common_iv c) kid bs Hivl Hkidl Hbl) as (nc & Hnc & Hncl & a & Ha & Hab & Hal).
  rewrite Hkid, Hrp. cbn iota beta. rewrite as_bytes_ok by done. rewrite Ha. cbn iota beta. rewrite Hnc, Hab. cbn iota beta.
  apply (seal_message_seals m tb [] (sc_sender_key c) nc (aad_wire kid bs []) out None None Hm Htb); try done; [unfold MAX_PIV_LEN; simpl; lia|constructor..].
Qed.

Lemma protect_response_piv_seals c m r (sid ctx tb out : list Z) :
  context_wf c sid ctx → request_wf r → message_typed m → (∀ E, ot_as_bytes (E:=E) (msg_token _ m) = Ok tb) → slice_fits out →
  let '((c', out'), x) := protect_response_piv m r (c, out) in
  seals (sc_sender_key c) m tb out out' x ∧ only_bindings c c'.
Proof.
  intros (Hkl & Hivl & Hsid & Hsl & Hsb & Hctx & Hcb & Hseq) (kid & bs & Hkid & Hkidl & Hrp & Hbl) Hm Htb Hout.
  assert (only_bindings c c) as Hrefl by (exists (sc_sender_seq c), (sc_live c); split; [by destruct c|lia]).
  unfold protect_response_piv. destruct (Code_is_response (msg_code T m)); cbn [negb]; [|by split]. unbind. unfold on_fst.
  destruct (take_sender_piv_cases c Hseq) as [[e ->]|(bs' & -> & Hne & Hbl' & Hbo)]; [by split|]. cbn iota beta.
  destruct (nonce_aad_ok (E:=OscoreError) (sc_common_iv c) kid bs Hivl Hkidl Hbl) as (nc & _ & _ & a & Ha & Hab & Hal).
  rewrite Hkid, Hrp. cbn iota beta. rewrite as_bytes_ok by done. rewrite Ha. cbn iota beta.
  destruct (nonce_aad_ok (E:=OscoreError) (sc_common_iv c) sid bs' Hivl Hsl Hbl') as (nc' & Hnc' & Hncl' & _).
  unfold request_nonce. unbind. cbn [set_sender sc_sender_id sc_common_iv sc_sender_key]. rewrite Hsid, Hnc', Hab. cbn iota beta.
  pose proof (seal_message_seals m tb bs' (sc_sender_key c) nc' (aad_wire kid bs []) out None None Hm Htb) as Hs.
  rewrite opt_piv_some in Hs by done. specialize (Hs ltac:(done) Hbl' Hbo ltac:(constructor) ltac:(constructor) Hout).
  unfold on_snd. destruct (seal_message _ _ _ _ _ _ _ out) as [out' x]. split; [done|].
  exists (sc_sender_seq c + 1), (sc_live c). split; [by destruct c|lia].
Qed.
End outcome.
