(* ===== verification/Block.v ===== *)
(** * Block-wise transfer state

    [src/storage/block.rs]: the sidecar of a body slot for classic Block, BERT
    and Q-Block transfers in both directions, with its identity, its receive
    timer and the request binding.  A method on [&mut self] runs in the state
    monad, so that what a refused call has already changed stays visible.
    [debug_assert!] lines are absent from optimised builds and not modelled. *)
From S2P Require Import Prelude Errors MsgTypes Options Encode Decode OptionsBuilder OptionValues MessageOptions.
From S2P Require Import Pending OscoreContext Occupancy SlotTable Observe.

(** ** Bit counts of [u16] masks *)
Fixpoint trailing_ones (w : nat) (m : Z) : Z :=
  match w with
  | O => 0
  | S w => if Z.odd m then 1 + trailing_ones w (m / 2) else 0
  end.
Fixpoint trailing_zeros (w : nat) (m : Z) : Z :=
  match w with
  | O => 0
  | S w => if Z.odd m then 0 else 1 + trailing_zeros w (m / 2)
  end.
Fixpoint count_ones (w : nat) (m : Z) : Z :=
  match w with
  | O => 0
  | S w => Z.b2z (Z.odd m) + count_ones w (m / 2)
  end.
Definition leading_zeros16 (m : Z) : Z := if m =? 0 then 16 else 15 - Z.log2 m.

(** [x - y] and [x + y] with their overflow checks. *)
Definition sub_panics {E} (x y : Z) : res E Z := if y <=? x then Ok (x - y) else Panic.
Definition add_panics {E} (w x y : Z) : res E Z := if x + y <=? max_u w then Ok (x + y) else Panic.

Definition NON_TIMEOUT_MS : Z := ACK_TIMEOUT_MS.
Definition NON_RECEIVE_TIMEOUT_MS : Z := saturating_mul 32 NON_TIMEOUT_MS 2.
Definition NON_MAX_RETRANSMIT : Z := MAX_RETRANSMIT.

(** ** Ranges *)
Section ranges.
Context `{Target}.

Definition block_offset (num : Z) (size : nat) : res BlockTransferError nat :=
  ok_or (n ← usize_try_from num; usize_checked_mul n size) Overflow.

(** [usize::from(block.size())]. *)
Definition block_size (b : BlockValue) : nat := Z.to_nat (BlockValue_size b).

Definition classic_block2_range (total : nat) (requested : BlockValue)
    : res BlockTransferError (BlockValue * (nat * nat)) :=
  if BlockValue_is_bert requested then Err IdentityMismatch
  else
    let size := block_size requested in
    offset ← ok_or (n ← usize_try_from (bv_num requested); usize_checked_mul n size) Overflow;
    if (total <? offset)%nat || ((offset =? total)%nat && (0 <? total)%nat) then Err Gap
    else
      let stop := (offset + Nat.min (total - offset) size)%nat in
      block ← map_err BValue (BlockValue_new (bv_num requested) (stop <? total)%nat (bv_szx requested));
      mret (block, (offset, stop)).

Definition q_incoming_range (block : BlockValue) (payload_len capacity : nat) (expected_len : option Z)
    : res BlockTransferError (nat * Z) :=
  let size := block_size block in
  if (if bv_more block then negb (payload_len =? size)%nat else (size <? payload_len)%nat) then Err PayloadLength
  else
    final_payload_len ← ok_or (u_try_from_usize 16 payload_len) Overflow;
    offset ← block_offset (bv_num block) size;
    stop ← ok_or (usize_checked_add offset payload_len) Overflow;
    if (capacity <? stop)%nat then Err Overflow
    else
      match expected_len with
      | None => Ok (offset, final_payload_len)
      | Some expected =>
          expected ← ok_or (usize_try_from expected) Overflow;
          if (expected <? stop)%nat || (negb (bv_more block) && negb (stop =? expected)%nat)
          then Err LengthInconsistent
          else Ok (offset, final_payload_len)
      end.
End ranges.

(** ** Identity *)
Record BodyTag : Type := mkBodyTag { bt_bytes : list Z; bt_n : Z }.
#[export] Instance BodyTag_eq_dec : EqDecision BodyTag.
Proof. solve_decision. Defined.

Definition BodyTag_ABSENT : BodyTag := mkBodyTag (replicate 8 0) 255.
Definition BodyTag_EMPTY : BodyTag := mkBodyTag (replicate 8 0) 0.

Definition BodyTag_new (bytes : list Z) : res ValueError BodyTag :=
  if (8 <? length bytes)%nat then Err OpaqueLength
  else
    b ← copy_into 0 (length bytes) bytes (bt_bytes BodyTag_EMPTY);
    mret (mkBodyTag b (wrap 8 (Z.of_nat (length bytes)))).

Definition BodyTag_from_first (bytes : option (list Z)) : res ValueError BodyTag :=
  match bytes with
  | None => Ok BodyTag_ABSENT
  | Some b => BodyTag_new b
  end.

Definition BodyTag_is_absent (t : BodyTag) : bool := bt_n t =? 255.

Definition BodyTag_as_slice {E} (t : BodyTag) : res E (option (list Z)) :=
  if 8 <? bt_n t then Ok None
  else s ← slice_idx (bt_bytes t) 0 (Z.to_nat (bt_n t)); mret (Some s).

Record BlockKey (T : Type) : Type := mkBlockKey { bk_token : T; bk_endpoint : Endpoint; bk_identity : BodyTag }.
Arguments mkBlockKey {T} _ _ _.
Arguments bk_token {T} _.
Arguments bk_endpoint {T} _.
Arguments bk_identity {T} _.
#[export] Instance BlockKey_eq_dec {T} `{EqDecision T} : EqDecision (BlockKey T).
Proof. solve_decision. Defined.

Definition BlockKey_new {T} (token : T) (endpoint : Endpoint) : BlockKey T :=
  mkBlockKey token endpoint BodyTag_ABSENT.
Definition BlockKey_with_identity {T} (k : BlockKey T) (identity : BodyTag) : BlockKey T :=
  mkBlockKey (bk_token k) (bk_endpoint k) identity.

Inductive BlockRole : Type :=
  | IncomingBlock1 | IncomingBlock2 | IncomingQBlock1 | IncomingQBlock2
  | OutgoingBlock1 | OutgoingBlock2 | OutgoingQBlock1 | OutgoingQBlock2.
#[export] Instance BlockRole_eq_dec : EqDecision BlockRole.
Proof. solve_decision. Defined.

Definition is_incoming (r : BlockRole) : bool :=
  match r with IncomingBlock1 | IncomingBlock2 | IncomingQBlock1 | IncomingQBlock2 => true | _ => false end.
Definition is_outgoing (r : BlockRole) : bool :=
  match r with OutgoingBlock1 | OutgoingBlock2 | OutgoingQBlock1 | OutgoingQBlock2 => true | _ => false end.
Definition is_q_block (r : BlockRole) : bool :=
  match r with IncomingQBlock1 | IncomingQBlock2 | OutgoingQBlock1 | OutgoingQBlock2 => true | _ => false end.

Record BlockProgress : Type := mkProgress { bp_id : SlotId; bp_filled : nat; bp_complete : bool }.

Record OutgoingBlock : Type := mkOutgoing {
  ob_id : SlotId;
  ob_block : BlockValue;
  ob_offset : nat;
  ob_out_len : nat;
  ob_complete : bool
}.

(** ** The receive timer *)
Record QBlockReceiveWait : Type := mkWait { qw_attempts : Z; qw_next_timeout_ms : Z; qw_timeout_ms : Z }.
#[export] Instance QBlockReceiveWait_eq_dec : EqDecision QBlockReceiveWait.
Proof. solve_decision. Defined.

Definition QBlockReceiveWait_new (now_ms : Z) : QBlockReceiveWait :=
  mkWait 0 (saturating_add 64 now_ms NON_RECEIVE_TIMEOUT_MS) NON_RECEIVE_TIMEOUT_MS.
Definition wait_is_due (w : QBlockReceiveWait) (now_ms : Z) : bool := qw_next_timeout_ms w <=? now_ms.
Definition wait_next_attempt (w : QBlockReceiveWait) (now_ms : Z) : option QBlockReceiveWait :=
  if NON_MAX_RETRANSMIT <=? qw_attempts w then None
  else
    let timeout_ms := saturating_mul 32 (qw_timeout_ms w) 2 in
    Some (mkWait (saturating_add 8 (qw_attempts w) 1) (saturating_add 64 now_ms timeout_ms) timeout_ms).

Record QWindow : Type := mkQ {
  qx_base : Z;
  qx_mask : Z;
  qx_final_num : option Z;
  qx_final_payload_len : Z;
  qx_continue_trigger : option Z;
  qx_continue_ack : option Z
}.
Definition QWindow_empty : QWindow := mkQ 0 0 None 0 None None.
Definition q_with_mask (q : QWindow) (mask : Z) : QWindow :=
  mkQ (qx_base q) mask (qx_final_num q) (qx_final_payload_len q) (qx_continue_trigger q) (qx_continue_ack q).
Definition q_with_base (q : QWindow) (base mask : Z) : QWindow :=
  mkQ base mask (qx_final_num q) (qx_final_payload_len q) (qx_continue_trigger q) (qx_continue_ack q).
Definition q_with_final (q : QWindow) (num len : Z) : QWindow :=
  mkQ (qx_base q) (qx_mask q) (Some num) len (qx_continue_trigger q) (qx_continue_ack q).
Definition q_with_continue (q : QWindow) (trigger ack : option Z) : QWindow :=
  mkQ (qx_base q) (qx_mask q) (qx_final_num q) (qx_final_payload_len q) trigger ack.

Record NotificationSnapshot : Type := mkSnapshot { ns_code : Code; ns_format : option Z; ns_max_age : option Z }.

Inductive BodyRetention : Type := RNone | RWait (w : QBlockReceiveWait) | RStatic (body : list Z).
Definition retention_wait (r : BodyRetention) : option QBlockReceiveWait :=
  match r with RWait w => Some w | _ => None end.

Definition REQUEST_IDENTITY_BYTES : nat := 512.
Definition MAX_PAYLOADS : Z := 10.
(** [(1u16 << MAX_PAYLOADS) - 1]. *)
Definition window_full : Z := shl 16 1 MAX_PAYLOADS - 1.

(** ** The request binding *)
Record RequestBinding : Type := mkBinding {
  rb_bytes : list Z;
  rb_len : Z;
  rb_if_none_match : option bool;
  rb_non_confirmable : bool
}.
#[export] Instance RequestBinding_eq_dec : EqDecision RequestBinding.
Proof. solve_decision. Defined.

(** [while value.first() == Some(&0) { value = &value[1..] }]. *)
Fixpoint strip_zeros (value : list Z) : list Z :=
  match value with
  | b :: rest => if b =? 0 then strip_zeros rest else value
  | [] => []
  end.

Definition is_block_number (n : OptionNumber) : bool :=
  (n =? ON_BLOCK1) || (n =? ON_BLOCK2) || (n =? ON_Q_BLOCK1) || (n =? ON_Q_BLOCK2).

Section binding.
Context `{Target}.

(** One framed option of the cache key, appended to the binding. *)
Definition binding_append (b : RequestBinding) (number : OptionNumber) (value : list Z)
    : res BlockTransferError RequestBinding :=
  let start := Z.to_nat (rb_len b) in
  stop ← ok_or (n ← usize_checked_add start 4; usize_checked_add n (length value)) Overflow;
  if (length (rb_bytes b) <? stop)%nat then Err Overflow
  else
    bytes ← copy_into start (start + 2)%nat (be_bytes 2 number) (rb_bytes b);
    bytes ← copy_into (start + 2)%nat (start + 4)%nat (be_bytes 2 (wrap 16 (Z.of_nat (length value)))) bytes;
    bytes ← copy_into (start + 4)%nat stop value bytes;
    mret (mkBinding bytes (wrap 16 (Z.of_nat stop)) (rb_if_none_match b) (rb_non_confirmable b)).

(** The [for option in message.options()] loop. *)
Fixpoint binding_loop (os : list Opt) (saw_if_none_match : bool) (b : RequestBinding)
    : res BlockTransferError RequestBinding :=
  match os with
  | [] => Ok b
  | option :: os =>
      let number := opt_number option in
      if number =? ON_IF_NONE_MATCH then
        if saw_if_none_match || negb (is_nil (opt_value option)) then Err IdentityMismatch
        else binding_loop os true b
      else if OptionNumber_is_no_cache_key number || is_block_number number
      then binding_loop os saw_if_none_match b
      else
        let value :=
          match option_value_format number with
          | Some FUint => strip_zeros (opt_value option)
          | _ => opt_value option
          end in
        b ← binding_append b number value;
        binding_loop os saw_if_none_match b
  end.

Definition RequestBinding_from_message {T} (message : ParsedMessage T) (num : Z)
    : res BlockTransferError RequestBinding :=
  condition ← (if num =? 0 then b ← pm_if_none_match message; mret (Some b) else mret None);
  let binding := mkBinding (replicate REQUEST_IDENTITY_BYTES 0) 1 condition (eqb (pm_ty message) NonConfirmable) in
  bytes ← set_idx 0 (Code_as_raw (pm_code message)) (rb_bytes binding);
  os ← pm_opts message;
  binding_loop os false (mkBinding bytes 1 (rb_if_none_match binding) (rb_non_confirmable binding)).
End binding.

Definition same_options (a b : RequestBinding) : bool := (rb_len a =? rb_len b) && eqb (rb_bytes a) (rb_bytes b).
Definition binding_if_none_match (b : RequestBinding) : bool :=
  match rb_if_none_match b with Some true => true | _ => false end.
Definition retain_condition (a candidate : RequestBinding) : res BlockTransferError RequestBinding :=
  if negb (same_options a candidate)
     || match rb_if_none_match a, rb_if_none_match candidate with
        | Some x, Some y => negb (eqb x y)
        | _, _ => false
        end
  then Err IdentityMismatch
  else Ok (mkBinding (rb_bytes a) (rb_len a)
             (match rb_if_none_match a with Some x => Some x | None => rb_if_none_match candidate end)
             (rb_non_confirmable a)).

(** ** The sidecar *)
Record BlockTransfer (T : Type) : Type := mkTransfer {
  bx_key : BlockKey T;
  bx_role : BlockRole;
  bx_num : Z;
  bx_szx : Z;
  bx_more : bool;
  bx_next_num : Z;
  bx_filled : nat;
  bx_complete : bool;
  bx_expected_len : option Z;
  bx_q : option QWindow;
  bx_q_receive : BodyRetention;
  bx_request_binding : option RequestBinding;
  bx_oscore_request : option (T * RequestRef);
  bx_notification : option NotificationSnapshot
}.
Arguments mkTransfer {T} _ _ _ _ _ _ _ _ _ _ _ _ _ _.
Arguments bx_key {T} _.
Arguments bx_role {T} _.
Arguments bx_num {T} _.
Arguments bx_szx {T} _.
Arguments bx_more {T} _.
Arguments bx_next_num {T} _.
Arguments bx_filled {T} _.
Arguments bx_complete {T} _.
Arguments bx_expected_len {T} _.
Arguments bx_q {T} _.
Arguments bx_q_receive {T} _.
Arguments bx_request_binding {T} _.
Arguments bx_oscore_request {T} _.
Arguments bx_notification {T} _.

Record IssueCheckpoint : Type := mkIssue {
  ic_num : Z; ic_next_num : Z; ic_more : bool; ic_complete : bool; ic_q_mask : option Z
}.

Section transfer.
Context `{Target} {T : Type}.
Implicit Types (t : BlockTransfer T) (block : BlockValue).

(** A value of a method that takes [&mut self]. *)
Definition bx_st (A : Type) : Type := st (BlockTransfer T) BlockTransferError A.

(** Assignments to groups of fields. *)
Definition set_pos t (num : Z) (more : bool) (next_num : Z) (filled : nat) (complete : bool) : BlockTransfer T :=
  mkTransfer (bx_key t) (bx_role t) num (bx_szx t) more next_num filled complete (bx_expected_len t) (bx_q t)
    (bx_q_receive t) (bx_request_binding t) (bx_oscore_request t) (bx_notification t).
Definition set_szx t (szx next_num : Z) : BlockTransfer T :=
  mkTransfer (bx_key t) (bx_role t) (bx_num t) szx (bx_more t) next_num (bx_filled t) (bx_complete t)
    (bx_expected_len t) (bx_q t) (bx_q_receive t) (bx_request_binding t) (bx_oscore_request t) (bx_notification t).
Definition set_q t (q : option QWindow) : BlockTransfer T :=
  mkTransfer (bx_key t) (bx_role t) (bx_num t) (bx_szx t) (bx_more t) (bx_next_num t) (bx_filled t) (bx_complete t)
    (bx_expected_len t) q (bx_q_receive t) (bx_request_binding t) (bx_oscore_request t) (bx_notification t).
Definition set_retention t (r : BodyRetention) : BlockTransfer T :=
  mkTransfer (bx_key t) (bx_role t) (bx_num t) (bx_szx t) (bx_more t) (bx_next_num t) (bx_filled t) (bx_complete t)
    (bx_expected_len t) (bx_q t) r (bx_request_binding t) (bx_oscore_request t) (bx_notification t).
Definition set_binding t (b : option RequestBinding) : BlockTransfer T :=
  mkTransfer (bx_key t) (bx_role t) (bx_num t) (bx_szx t) (bx_more t) (bx_next_num t) (bx_filled t) (bx_complete t)
    (bx_expected_len t) (bx_q t) (bx_q_receive t) b (bx_oscore_request t) (bx_notification t).
Definition set_oscore_request t (o : option (T * RequestRef)) : BlockTransfer T :=
  mkTransfer (bx_key t) (bx_role t) (bx_num t) (bx_szx t) (bx_more t) (bx_next_num t) (bx_filled t) (bx_complete t)
    (bx_expected_len t) (bx_q t) (bx_q_receive t) (bx_request_binding t) o (bx_notification t).
Definition set_notification t (n : option NotificationSnapshot) : BlockTransfer T :=
  mkTransfer (bx_key t) (bx_role t) (bx_num t) (bx_szx t) (bx_more t) (bx_next_num t) (bx_filled t) (bx_complete t)
    (bx_expected_len t) (bx_q t) (bx_q_receive t) (bx_request_binding t) (bx_oscore_request t) n.

Definition bx_is_bert t : bool := bx_szx t =? SZX_BERT.
Definition window_base t : Z := match bx_q t with Some q => qx_base q | None => 0 end.
Definition window_mask t : Z := match bx_q t with Some q => qx_mask q | None => 0 end.

(** *** Static backing *)
Definition retain_static_body t (body : list Z) : BlockTransfer T := set_retention t (RStatic body).
Definition static_body t : option (list Z) := match bx_q_receive t with RStatic body => Some body | _ => None end.
Definition clear_static_body t : BlockTransfer T :=
  match bx_q_receive t with RStatic _ => set_retention t RNone | _ => t end.
Definition without_static_body t : BlockTransfer T := clear_static_body t.

(** *** Retained request options *)
Definition is_upload_control (o : Opt) : bool :=
  let n := opt_number o in (n =? ON_OBSERVE) || (n =? ON_BLOCK2) || (n =? ON_Q_BLOCK2).
Definition UPLOAD_SLOTS : nat := (Z.to_nat MAX_PAYLOADS + 2)%nat.

Definition is_upload_role (r : BlockRole) : bool :=
  match r with OutgoingBlock1 | OutgoingQBlock1 => true | _ => false end.

(** The loop over the selected options. *)
Fixpoint select_controls (b : OptionsBuilder) (options : list Opt) : res BlockTransferError OptionsBuilder :=
  match options with
  | [] => Ok b
  | option :: options =>
      if is_upload_control option
      then b ← map_err (fun _ => Overflow) (OptionsBuilder_push UPLOAD_SLOTS b option); select_controls b options
      else select_controls b options
  end.

Definition retain_upload_controls (options : list Opt) : bx_st unit :=
  t ← st_get;
  if negb (is_upload_role (bx_role t)) then st_fail IdentityMismatch
  else
    selected ← st_lift (select_controls (OptionsBuilder_new UPLOAD_SLOTS) options);
    slice ← st_lift (OptionsBuilder_as_slice selected);
    if is_nil slice then mret tt
    else
      let message := Message_with_options (Message_new Confirmable Code_FETCH 0) slice in
      let '(bytes, r) := encode message (replicate REQUEST_IDENTITY_BYTES 0) in
      n ← st_lift (map_err BEncode r);
      st_put (set_binding t (Some (mkBinding bytes (wrap 16 (Z.of_nat n)) None false))).

Definition upload_controls {E} t : res E (option (ParsedMessage Token)) :=
  if negb (is_upload_role (bx_role t)) then Ok None
  else
    match bx_request_binding t with
    | None => Ok None
    | Some b =>
        bytes ← slice_idx (rb_bytes b) 0 (Z.to_nat (rb_len b));
        match decode bytes with
        | Ok m => Ok (Some m)
        | Err _ => Ok None
        | Panic => Panic
        | Diverge => Diverge
        end
    end.

Definition bx_if_none_match t : bool :=
  match bx_role t with
  | IncomingBlock1 | IncomingQBlock1 =>
      match bx_request_binding t with Some b => binding_if_none_match b | None => false end
  | _ => false
  end.

(** *** Issue checkpoints *)
Definition issue_checkpoint t : IssueCheckpoint :=
  mkIssue (bx_num t) (bx_next_num t) (bx_more t) (bx_complete t)
    (match bx_q t with Some q => Some (qx_mask q) | None => None end).
Definition restore_issue t (c : IssueCheckpoint) : BlockTransfer T :=
  let t := set_pos t (ic_num c) (ic_more c) (ic_next_num c) (bx_filled t) (ic_complete c) in
  match bx_q t, ic_q_mask c with
  | Some q, Some mask => set_q t (Some (q_with_mask q mask))
  | _, _ => t
  end.

(** *** Constructors and incoming classic blocks *)
Definition fresh_transfer (key : BlockKey T) (role : BlockRole) (szx : Z) (more : bool) (filled : nat)
    (expected_len : option Z) (q : option QWindow) : BlockTransfer T :=
  mkTransfer key role 0 szx more 0 filled false expected_len q RNone None None None.

(** [self.next_num = num.checked_add(n)?; self.complete = !more]. *)
Definition finish_position (num n : Z) (more : bool) : bx_st unit :=
  next ← st_lift (ok_or (checked_add 32 num n) Overflow);
  t ← st_get;
  st_put (set_pos t (bx_num t) (bx_more t) next (bx_filled t) (negb more)).

Definition accept_bert_incoming block (payload_len capacity : nat) : bx_st nat :=
  if negb (BlockValue_is_bert block) then st_fail SzxMismatch
  else
    let size := Z.to_nat SIZE_MAX in
    if bv_more block && ((payload_len =? 0)%nat || negb (payload_len mod size =? 0)%nat) then st_fail PayloadLength
    else
      offset ← st_lift (block_offset (bv_num block) size);
      stop ← st_lift (ok_or (usize_checked_add offset payload_len) Overflow);
      if (capacity <? stop)%nat then st_fail Overflow
      else
        nblocks ← st_lift (ok_or (u_try_from_usize 32 (payload_len / size)%nat) Overflow);
        t ← st_get;
        st_put (set_pos t (bv_num block) (bv_more block) (bx_next_num t) stop (bx_complete t));;
        finish_position (bv_num block) nblocks (bv_more block);;
        mret offset.

(** The size change of RFC 7959 Figure 9. *)
Definition adopt_incoming_szx block : bx_st unit :=
  t ← st_get;
  if bv_szx block =? bx_szx t then mret tt
  else if bx_is_bert t || BlockValue_is_bert block || (bx_szx t <? bv_szx block) then st_fail SzxMismatch
  else
    offset ← st_lift (block_offset (bv_num block) (block_size block));
    if negb (offset =? bx_filled t)%nat then st_fail Gap
    else st_put (set_szx t (bv_szx block) (bv_num block)).

Definition accept_incoming block (payload_len capacity : nat) : bx_st nat :=
  t ← st_get;
  if negb (is_incoming (bx_role t)) || is_q_block (bx_role t) then st_fail IdentityMismatch
  else if bx_complete t then st_fail AlreadyComplete
  else
    adopt_incoming_szx block;;
    t ← st_get;
    if bv_num block <? bx_next_num t then st_fail Overlap
    else if bx_next_num t <? bv_num block then st_fail Gap
    else if BlockValue_is_bert block then accept_bert_incoming block payload_len capacity
    else
      let size := block_size block in
      if (if bv_more block then negb (payload_len =? size)%nat else (size <? payload_len)%nat)
      then st_fail PayloadLength
      else
        offset ← st_lift (block_offset (bv_num block) size);
        stop ← st_lift (ok_or (usize_checked_add offset payload_len) Overflow);
        if (capacity <? stop)%nat then st_fail Overflow
        else
          st_put (set_pos t (bv_num block) (bv_more block) (bx_next_num t) stop (bx_complete t));;
          finish_position (bv_num block) 1 (bv_more block);;
          mret offset.

(** The sidecar a constructor returns after its first block. *)
Definition started (t : BlockTransfer T) (m : bx_st nat) : res BlockTransferError (BlockTransfer T) :=
  match m t with
  | (t, Ok _) => Ok t
  | (_, Err e) => Err e
  | (_, Panic) => Panic
  | (_, Diverge) => Diverge
  end.

Definition incoming (key : BlockKey T) (role : BlockRole) block (payload_len capacity : nat)
    (expected_len : option Z) : res BlockTransferError (BlockTransfer T) :=
  if negb (is_incoming role) || is_q_block role then Err IdentityMismatch
  else if negb (bv_num block =? 0) then Err Gap
  else started (fresh_transfer key role (bv_szx block) (bv_more block) 0 expected_len None)
         (accept_incoming block payload_len capacity).

(** *** Incoming Q-Block *)

(** [while q.mask == window_full && q.final_num.is_none()]: one unit of fuel
    per round, and a round clears the mask. *)
Fixpoint q_advance (fuel : nat) (num : Z) : st QWindow BlockTransferError unit :=
  q ← st_get;
  if (qx_mask q =? window_full) && match qx_final_num q with None => true | Some _ => false end then
    match fuel with
    | O => st_lift Diverge
    | S fuel =>
        ack ← st_lift (ok_or (checked_add 32 (qx_base q) (MAX_PAYLOADS - 1)) Overflow);
        let q := q_with_continue q (Some num) (Some ack) in
        st_put q;;
        base ← st_lift (ok_or (checked_add 32 (qx_base q) MAX_PAYLOADS) Overflow);
        st_put (q_with_base q base 0);;
        q_advance fuel num
    end
  else mret tt.

(** Run a step on the window inside the sidecar. *)
Definition on_q {A} (q : QWindow) (m : st QWindow BlockTransferError A) : bx_st A :=
  let '(q, r) := m q in
  t ← st_get;
  st_put (set_q t (Some q));;
  st_lift r.

(** [filled], [complete] and [next_num] from the contiguous prefix. *)
Definition q_position (q : QWindow) (size : nat) : bx_st unit :=
  contig ← st_lift (ok_or (checked_add 32 (qx_base q) (trailing_ones 16 (qx_mask q))) Overflow);
  let unfinished :=
    filled ← st_lift (block_offset contig size);
    t ← st_get;
    st_put (set_pos t (bx_num t) (bx_more t) contig filled false) in
  match qx_final_num q with
  | Some final_num =>
      if final_num <? contig then
        offset ← st_lift (block_offset final_num size);
        filled ← st_lift (ok_or (usize_checked_add offset (Z.to_nat (qx_final_payload_len q))) Overflow);
        t ← st_get;
        st_put (set_pos t (bx_num t) (bx_more t) (bx_next_num t) filled true);;
        finish_position final_num 1 false
      else unfinished
  | None => unfinished
  end.

Definition accept_q_incoming block (payload_len capacity : nat) : bx_st nat :=
  t ← st_get;
  if negb (is_q_block (bx_role t)) then st_fail IdentityMismatch
  else if BlockValue_is_bert block then st_fail (BValue IllegalSzx)
  else if bx_complete t then st_fail AlreadyComplete
  else if negb (bv_szx block =? bx_szx t) then st_fail SzxMismatch
  else
    q ← st_lift (ok_or (bx_q t) IdentityMismatch);
    if bv_num block <? qx_base q then st_fail Duplicate
    else
      let idx := bv_num block - qx_base q in
      if MAX_PAYLOADS <=? idx then st_fail OutsideWindow
      else
        let bit := shl 16 1 idx in
        if negb (Z.land (qx_mask q) bit =? 0) then st_fail Duplicate
        else if match qx_final_num q with Some f => f <? bv_num block | None => false end
        then st_fail LengthInconsistent
        else if negb (bv_more block)
                && (let after := saturating_add 32 idx 1 in
                    (after <? MAX_PAYLOADS) && negb (Z.shiftr (qx_mask q) after =? 0))
        then st_fail LengthInconsistent
        else
          let size := block_size block in
          '(offset, final_payload_len) ← st_lift (q_incoming_range block payload_len capacity (bx_expected_len t));
          let q := q_with_mask q (Z.lor (qx_mask q) bit) in
          let q := if bv_more block then q else q_with_final q (bv_num block) final_payload_len in
          on_q q (q_advance 1 (bv_num block));;
          t ← st_get;
          q ← st_lift (ok_or (bx_q t) IdentityMismatch);
          q_position q size;;
          t ← st_get;
          st_put (set_pos t (bv_num block) (bv_more block) (bx_next_num t) (bx_filled t) (bx_complete t));;
          mret offset.

Definition incoming_q (key : BlockKey T) (role : BlockRole) block (payload_len capacity : nat)
    (expected_len : option Z) : res BlockTransferError (BlockTransfer T) :=
  if negb (is_incoming role) || negb (is_q_block role) then Err IdentityMismatch
  else if BlockValue_is_bert block then Err (BValue IllegalSzx)
  else started (fresh_transfer key role (bv_szx block) (bv_more block) 0 expected_len (Some QWindow_empty))
         (accept_q_incoming block payload_len capacity).

Definition validate_q1_future t block (payload_len capacity : nat) : res BlockTransferError unit :=
  if negb (eqb (bx_role t) IncomingQBlock1) || bx_complete t
     || negb match bx_request_binding t with Some b => rb_non_confirmable b | None => false end
  then Err IdentityMismatch
  else if BlockValue_is_bert block || negb (bv_szx block =? bx_szx t) then Err SzxMismatch
  else
    q ← ok_or (bx_q t) IdentityMismatch;
    if (saturating_sub (bv_num block) (qx_base q) <? MAX_PAYLOADS)
       || match qx_final_num q with Some _ => true | None => false end
    then Err IdentityMismatch
    else
      '(offset, _) ← q_incoming_range block payload_len capacity (bx_expected_len t);
      expected ← ok_or (bx_expected_len t) MissingSize;
      if (expected <=? Z.of_nat offset) || (bv_more block && (expected <=? Z.of_nat (offset + payload_len)))
      then Err LengthInconsistent
      else Ok tt.

(** *** Holes and the receive timer *)

(** Bits [i, i + n) that the mask does not have. *)
Fixpoint holes_loop (n : nat) (i mask holes : Z) : Z :=
  match n with
  | O => holes
  | S n =>
      let bit := shl 16 1 i in
      holes_loop n (i + 1) mask (if Z.land mask bit =? 0 then Z.lor holes bit else holes)
  end.

(** How many blocks from the window base on are known to exist. *)
Definition q_known_end t (q : QWindow) : option Z :=
  match bx_role t, bx_request_binding t, bx_expected_len t with
  | IncomingQBlock1, Some binding, Some length =>
      if rb_non_confirmable binding then
        let size := shl 32 1 (bx_szx t + 4) in
        Some (saturating_sub (length / size + Z.b2z (negb (length mod size =? 0))) (qx_base q))
      else None
  | _, _, _ => None
  end.

(** The first window position beyond those, if any are known. *)
Definition q_hole_end {E} t (q : QWindow) : res E (option Z) :=
  match q_known_end t q with
  | Some e => Ok (Some (if e <? MAX_PAYLOADS then e else MAX_PAYLOADS))
  | None =>
      match qx_final_num q with
      | Some final_num =>
          idx ← sub_panics final_num (qx_base q);
          Ok (Some (if MAX_PAYLOADS <=? idx then MAX_PAYLOADS else idx + 1))
      | None => if negb (qx_mask q =? 0) then Ok (Some (15 - leading_zeros16 (qx_mask q))) else Ok None
      end
  end.

Definition q_holes {E} t : res E (option (Z * Z)) :=
  if negb (is_incoming (bx_role t)) || negb (is_q_block (bx_role t)) || bx_complete t then Ok None
  else
    match bx_q t with
    | None => Ok None
    | Some q =>
        stop ← q_hole_end t q;
        match stop with
        | None => Ok None
        | Some stop =>
            let holes := holes_loop (Z.to_nat stop) 0 (qx_mask q) 0 in
            if holes =? 0 then Ok None
            else first ← add_panics 32 (qx_base q) (trailing_zeros 16 holes); Ok (Some (first, holes))
        end
    end.

Definition bx_receive t : option QBlockReceiveWait :=
  match bx_role t with OutgoingBlock2 => None | _ => retention_wait (bx_q_receive t) end.

Definition note_q_receive {E} t (now_ms : Z) : res E (BlockTransfer T) :=
  if negb (is_incoming (bx_role t)) || negb (is_q_block (bx_role t)) then Ok t
  else
    holes ← q_holes t;
    Ok (match holes with
        | Some _ => set_retention t (RWait (QBlockReceiveWait_new now_ms))
        | None => set_retention t RNone
        end).

Definition note_q_recover t (now_ms : Z) : BlockTransfer T * option QBlockReceiveWait :=
  match (w ← retention_wait (bx_q_receive t); wait_next_attempt w now_ms) with
  | None => (t, None)
  | Some next => (set_retention t (RWait next), Some next)
  end.

Definition q_continue_for t (num : Z) : option Z :=
  match bx_q t with
  | Some q => if eqb (qx_continue_trigger q) (Some num) then qx_continue_ack q else None
  | None => None
  end.

(** *** Outgoing transfers *)
Definition outgoing_common (key : BlockKey T) (role : BlockRole) (body_len : nat) (szx : Z) (capacity : nat)
    (q : option QWindow) : res BlockTransferError (BlockTransfer T) :=
  _ ← map_err BValue (size_from_szx szx);
  if (capacity <? body_len)%nat then Err Overflow
  else
    match u_try_from_usize 32 body_len with
    | Some len => Ok (fresh_transfer key role szx false body_len (Some len) q)
    | None => Err Overflow
    end.

Definition outgoing (key : BlockKey T) (role : BlockRole) (body_len : nat) (szx : Z) (capacity : nat)
    : res BlockTransferError (BlockTransfer T) :=
  if negb (is_outgoing role) || is_q_block role then Err IdentityMismatch
  else outgoing_common key role body_len szx capacity None.

Definition outgoing_q (key : BlockKey T) (role : BlockRole) (body_len : nat) (szx : Z) (capacity : nat)
    : res BlockTransferError (BlockTransfer T) :=
  if negb (is_outgoing role) || negb (is_q_block role) then Err IdentityMismatch
  else if szx =? SZX_BERT then Err (BValue IllegalSzx)
  else outgoing_common key role body_len szx capacity (Some QWindow_empty).

(** Constructors with the role in their name. *)
Definition incoming_block1 (key : BlockKey T) block (payload_len capacity : nat) (expected_len : option Z) :=
  incoming key IncomingBlock1 block payload_len capacity expected_len.
Definition incoming_block2 (key : BlockKey T) block (payload_len capacity : nat) (expected_len : option Z) :=
  incoming key IncomingBlock2 block payload_len capacity expected_len.
Definition incoming_q_block1 (key : BlockKey T) block (payload_len capacity : nat) (expected_len : option Z) :=
  incoming_q key IncomingQBlock1 block payload_len capacity expected_len.
Definition incoming_q_block2 (key : BlockKey T) block (payload_len capacity : nat) (expected_len : option Z) :=
  incoming_q key IncomingQBlock2 block payload_len capacity expected_len.
Definition outgoing_block1 (key : BlockKey T) (body_len : nat) (szx : Z) (capacity : nat) :=
  outgoing key OutgoingBlock1 body_len szx capacity.
Definition outgoing_block2 (key : BlockKey T) (body_len : nat) (szx : Z) (capacity : nat) :=
  outgoing key OutgoingBlock2 body_len szx capacity.
Definition outgoing_q_block1 (key : BlockKey T) (body_len : nat) (szx : Z) (capacity : nat) :=
  outgoing_q key OutgoingQBlock1 body_len szx capacity.
Definition outgoing_q_block2 (key : BlockKey T) (body_len : nat) (szx : Z) (capacity : nat) :=
  outgoing_q key OutgoingQBlock2 body_len szx capacity.

Definition outgoing_range t (num : Z) : res BlockTransferError (BlockValue * nat * nat) :=
  size ← map_err BValue (size_from_szx (bx_szx t));
  let size := Z.to_nat size in
  offset ← block_offset num size;
  if (bx_filled t <? offset)%nat || ((offset =? bx_filled t)%nat && (0 <? bx_filled t)%nat) then Err Gap
  else
    let remaining := (bx_filled t - offset)%nat in
    let len := Nat.min remaining size in
    let more := (size <? remaining)%nat in
    block ← map_err BValue (BlockValue_new num more (bx_szx t));
    mret (block, offset, len).

Definition q_observe_sequence t : option Z :=
  match bx_role t with
  | OutgoingQBlock2 => match retention_wait (bx_q_receive t) with Some w => Some (qw_timeout_ms w) | None => None end
  | _ => None
  end.
Definition attempts_bit t (bit : Z) : bool :=
  match retention_wait (bx_q_receive t) with Some w => negb (Z.land (qw_attempts w) bit =? 0) | None => false end.
Definition q_observe_confirmable t : bool := is_some (q_observe_sequence t) && attempts_bit t 1.
Definition q_observe_recovery t : bool := q_observe_confirmable t && attempts_bit t 2.

Definition issue_range (num : Z) : bx_st (BlockValue * nat * nat) :=
  t ← st_get;
  st_lift (match bx_q t with
    | None => Ok tt
    | Some q =>
        if num <? qx_base q then Err Duplicate
        else if MAX_PAYLOADS <=? num - qx_base q then Err OutsideWindow
        else if negb (Z.land (qx_mask q) (shl 16 1 (num - qx_base q)) =? 0) then Err Duplicate
        else Ok tt
    end);;
  '(block, offset, len) ← st_lift (outgoing_range t num);
  let t := match bx_q t with
    | None => t
    | Some q => set_q t (Some (q_with_mask q (Z.lor (qx_mask q) (shl 16 1 (num - qx_base q)))))
    end in
  st_put (set_pos t num (bv_more block) (bx_next_num t) (bx_filled t) (bx_complete t));;
  next ← st_lift (ok_or (checked_add 32 num 1) Overflow);
  t ← st_get;
  let complete := negb (bv_more block)
    || (q_observe_recovery t && match bx_q t with Some q => qx_mask q =? window_full | None => false end) in
  st_put (set_pos t (bx_num t) (bx_more t) next (bx_filled t) complete);;
  mret (block, offset, len).

Definition issue_bert_outgoing (max_payload : nat) : bx_st (BlockValue * nat * nat) :=
  t ← st_get;
  if negb (is_outgoing (bx_role t)) || is_q_block (bx_role t) then st_fail IdentityMismatch
  else if negb (bx_is_bert t) then st_fail SzxMismatch
  else if bx_complete t then st_fail AlreadyComplete
  else
    let size := Z.to_nat SIZE_MAX in
    offset ← st_lift (block_offset (bx_next_num t) size);
    if (bx_filled t <? offset)%nat || ((offset =? bx_filled t)%nat && (0 <? bx_filled t)%nat) then st_fail Gap
    else
      let remaining := (bx_filled t - offset)%nat in
      let len := if (remaining <=? max_payload)%nat then remaining else (max_payload / size * size)%nat in
      if (0 <? remaining)%nat && (len =? 0)%nat then st_fail PayloadLength
      else if (len <? remaining)%nat && ((len =? 0)%nat || negb (len mod size =? 0)%nat) then st_fail PayloadLength
      else
        let more := (len <? remaining)%nat in
        block ← st_lift (map_err BValue (BlockValue_bert (bx_next_num t) more));
        nblocks ← st_lift (ok_or (u_try_from_usize 32 (len / size)%nat) Overflow);
        st_put (set_pos t (bx_next_num t) more (bx_next_num t) (bx_filled t) (bx_complete t));;
        finish_position (bx_next_num t) nblocks more;;
        mret (block, offset, len).

Definition issue_outgoing : bx_st (BlockValue * nat * nat) :=
  t ← st_get;
  if negb (is_outgoing (bx_role t)) || is_q_block (bx_role t) then st_fail IdentityMismatch
  else if bx_complete t then st_fail AlreadyComplete
  else if bx_is_bert t then issue_bert_outgoing (bx_filled t)
  else issue_range (bx_next_num t).

Definition adopt_smaller_szx (szx : Z) : bx_st unit :=
  t ← st_get;
  if negb (is_outgoing (bx_role t)) || is_q_block (bx_role t) || bx_is_bert t then st_fail IdentityMismatch
  else if bx_complete t then st_fail AlreadyComplete
  else if bx_szx t <=? szx then st_fail SzxMismatch
  else
    old ← st_lift (map_err (fun _ => SzxMismatch) (size_from_szx (bx_szx t)));
    new ← st_lift (map_err (fun _ => SzxMismatch) (size_from_szx szx));
    issued ← st_lift (block_offset (bx_next_num t) (Z.to_nat old));
    if negb (issued mod Z.to_nat new =? 0)%nat then st_fail Gap
    else
      st_put (set_szx t szx (bx_next_num t));;
      next ← st_lift (ok_or (u_try_from_usize 32 (issued / Z.to_nat new)%nat) Overflow);
      st_put (set_szx t szx next).

Definition issue_q_outgoing : bx_st (BlockValue * nat * nat) :=
  t ← st_get;
  if negb (is_outgoing (bx_role t)) || negb (is_q_block (bx_role t)) then st_fail IdentityMismatch
  else if bx_complete t then st_fail AlreadyComplete
  else
    q ← st_lift (ok_or (bx_q t) IdentityMismatch);
    let idx := trailing_ones 16 (qx_mask q) in
    if MAX_PAYLOADS <=? idx then st_fail OutsideWindow
    else
      num ← st_lift (ok_or (checked_add 32 (qx_base q) idx) Overflow);
      issue_range num.

Definition reissue_q_outgoing t (num : Z) : res BlockTransferError (BlockValue * nat * nat) :=
  if negb (is_outgoing (bx_role t)) || negb (is_q_block (bx_role t)) then Err IdentityMismatch
  else outgoing_range t num.

Definition bx_pace_q_block1 : bx_st unit :=
  t ← st_get;
  if negb (eqb (bx_role t) OutgoingQBlock1) then st_fail IdentityMismatch
  else if bx_complete t then st_fail AlreadyComplete
  else
    q ← st_lift (ok_or (bx_q t) IdentityMismatch);
    if negb (qx_mask q =? window_full) then st_fail Gap
    else
      base ← st_lift (ok_or (checked_add 32 (qx_base q) MAX_PAYLOADS) Overflow);
      st_put (set_q t (Some (q_with_base q base 0))).

Definition ack_q_window (num : Z) : bx_st (nat * bool) :=
  t ← st_get;
  if negb (is_outgoing (bx_role t)) || negb (is_q_block (bx_role t)) then st_fail IdentityMismatch
  else if bx_complete t then st_fail AlreadyComplete
  else
    (match bx_role t with
     | OutgoingQBlock1 =>
         q ← st_lift (ok_or (bx_q t) IdentityMismatch);
         if num <? qx_base q then st_fail Duplicate
         else
           let idx := num - qx_base q in
           if MAX_PAYLOADS <=? idx then st_fail OutsideWindow
           else if negb (idx =? MAX_PAYLOADS - 1) then st_fail Gap
           else
             let needed := shl 16 1 (idx + 1) - 1 in
             if negb (Z.land (qx_mask q) needed =? needed) then st_fail Gap
             else
               base ← st_lift (ok_or (checked_add 32 num 1) Overflow);
               st_put (set_q t (Some (q_with_base q base 0)))
     | OutgoingQBlock2 =>
         if (num =? 0) || negb (num mod MAX_PAYLOADS =? 0) then st_fail Gap
         else
           q ← st_lift (ok_or (bx_q t) IdentityMismatch);
           next ← st_lift (ok_or (checked_add 32 (qx_base q) MAX_PAYLOADS) Overflow);
           if num <? next then st_fail Duplicate
           else if next <? num then st_fail OutsideWindow
           else if negb (qx_mask q =? window_full) then st_fail Gap
           else st_put (set_q t (Some (q_with_base q num 0)))
     | _ => st_fail IdentityMismatch
     end);;
    t ← st_get;
    mret (bx_filled t, bx_complete t).

(** *** Notifications and their retention *)
Definition remember_notification t (code : Code) (format max_age : option Z) : BlockTransfer T :=
  set_notification t (Some (mkSnapshot code format max_age)).
Definition notification_metadata t : option (Code * option Z * option Z) :=
  match bx_notification t with Some s => Some (ns_code s, ns_format s, ns_max_age s) | None => None end.

Definition expire_terminal_at t (deadline : Z) : BlockTransfer T :=
  if eqb (bx_role t) OutgoingBlock2
     && match bx_notification t with Some n => negb (Code_is_success (ns_code n)) | None => false end
  then set_retention t (RWait (mkWait 0 deadline 0))
  else t.
Definition terminal_deadline t : option Z :=
  match bx_role t with
  | OutgoingBlock2 | OutgoingQBlock2 =>
      match retention_wait (bx_q_receive t) with Some w => Some (qw_next_timeout_ms w) | None => None end
  | _ => None
  end.
Definition remember_q_observe t (sequence deadline : Z) : BlockTransfer T :=
  set_retention t (RWait (mkWait 0 deadline sequence)).

Definition negotiate_q_observe_szx (szx : Z) : bx_st unit :=
  t ← st_get;
  if negb (is_some (q_observe_sequence t)) || (bx_szx t <? szx) || negb (bx_next_num t =? 0)
     || match bx_q t with None => true | Some w => negb (qx_mask w =? 0) end
  then st_fail SzxMismatch
  else st_put (set_szx t szx (bx_next_num t)).

(** [state.attempts |= bit] when there is a wait. *)
Definition or_attempts t (bit : Z) : BlockTransfer T :=
  match bx_q_receive t with
  | RWait w => set_retention t (RWait (mkWait (Z.lor (qw_attempts w) bit) (qw_next_timeout_ms w) (qw_timeout_ms w)))
  | _ => t
  end.
Definition set_q_observe_confirmable t : BlockTransfer T := or_attempts t 1.

Definition q_observe_last_mid t : option MessageId :=
  match q_observe_sequence t, bx_q t with
  | Some _, Some q => match qx_continue_ack q with Some mid => Some (wrap 16 mid) | None => None end
  | _, _ => None
  end.
Definition q_observe_pending_mid t : option MessageId :=
  if q_observe_confirmable t then q_observe_last_mid t else None.
Definition set_q_observe_last_mid t (mid : option MessageId) : BlockTransfer T :=
  match bx_q t with
  | Some q => set_q t (Some (q_with_continue q (qx_continue_trigger q) mid))
  | None => t
  end.
Definition set_q_observe_pending_mid t (mid : option MessageId) : BlockTransfer T := set_q_observe_last_mid t mid.

(** The inner loop of [select_q_observe_recovery]: clear the bits of the
    blocks [num, num + count) that the body has. *)
Fixpoint select_blocks t (base : Z) (count : nat) (num mask : Z) : res BlockTransferError Z :=
  match count with
  | O => Ok mask
  | S count =>
      '(block, _, _) ← outgoing_range t num;
      let mask := Z.land mask (65535 - shl 16 1 (num - base)) in
      if bv_more block then select_blocks t base count (num + 1) mask else Ok mask
  end.

(** The outer loop over the requested blocks. *)
Fixpoint select_values t (base : Z) (selected : list BlockValue) (mask : Z) : res BlockTransferError Z :=
  match selected with
  | [] => Ok mask
  | value :: selected =>
      if (bv_num value <? base) || (base + MAX_PAYLOADS <=? bv_num value) then Err OutsideWindow
      else
        let count := if bv_more value then MAX_PAYLOADS - bv_num value mod MAX_PAYLOADS else 1 in
        mask ← select_blocks t base (Z.to_nat count) (bv_num value) mask;
        select_values t base selected mask
  end.

Definition select_q_observe_recovery (selected : list BlockValue) : bx_st unit :=
  t ← st_get;
  if negb (q_observe_confirmable t) || negb (bx_complete t) || is_some (q_observe_pending_mid t)
  then st_fail OutsideWindow
  else
    match selected with
    | [] => st_fail Gap
    | first :: rest =>
        let base := bv_num first / MAX_PAYLOADS * MAX_PAYLOADS in
        mask ← st_lift (select_values t base (first :: rest) window_full);
        q ← st_lift (ok_or (bx_q t) IdentityMismatch);
        let t := set_q t (Some (q_with_base q base mask)) in
        let t := set_pos t (bx_num t) (bx_more t) (bx_next_num t) (bx_filled t) false in
        st_put t;;
        match retention_wait (bx_q_receive t) with
        | Some _ => st_put (or_attempts t 2)
        | None => st_lift Panic
        end
    end.

Definition retain_observe_selection t (selection : option ObserveSelection) : BlockTransfer T :=
  set_binding t (match selection with
                 | Some s => Some (mkBinding (sel_bytes s) (sel_len s) None false)
                 | None => None
                 end).
Definition bx_observe_selection t : option ObserveSelection :=
  match bx_notification t, bx_role t with
  | Some _, (OutgoingBlock2 | OutgoingQBlock2) =>
      match bx_request_binding t with Some b => Some (mkSelection (rb_bytes b) (rb_len b)) | None => None end
  | _, _ => None
  end.

(** *** Functions on roles and bodies *)
Definition same_body_identity t (key : BlockKey T) (role : BlockRole) : bool :=
  negb (BodyTag_is_absent (bk_identity key)) && eqb (bx_role t) role
  && eqb (bk_endpoint (bx_key t)) (bk_endpoint key) && eqb (bk_identity (bx_key t)) (bk_identity key).

Definition start_incoming (key : BlockKey T) (role : BlockRole) block (payload_len capacity : nat)
    (expected_len : option Z) : res BlockTransferError (BlockTransfer T) :=
  if is_q_block role then incoming_q key role block payload_len capacity expected_len
  else incoming key role block payload_len capacity expected_len.

Definition accept_incoming_role block (payload_len capacity : nat) : bx_st nat :=
  t ← st_get;
  if is_q_block (bx_role t) then accept_q_incoming block payload_len capacity
  else accept_incoming block payload_len capacity.
End transfer.

(** [store_incoming] and [write_range] on a buffer and its filled length. *)
Definition store_incoming `{Target} (offset : nat) (payload : list Z) (contiguous : option nat)
    : st (list Z * nat) BlockTransferError unit :=
  '(buf, filled) ← st_get;
  stop ← st_lift (ok_or (usize_checked_add offset (length payload)) Overflow);
  if (length buf <? stop)%nat then st_fail Overflow
  else
    buf ← st_lift (copy_into offset stop payload buf);
    st_put (buf, match contiguous with Some n => n | None => stop end).

Definition write_range `{Target} (offset : nat) (payload : list Z) : st (list Z * nat) BlockTransferError unit :=
  '(buf, filled) ← st_get;
  stop ← st_lift (ok_or (usize_checked_add offset (length payload)) Overflow);
  if (length buf <? stop)%nat then st_fail Overflow
  else
    buf ← st_lift (copy_into offset stop payload buf);
    st_put (buf, stop).

(** ** Recovery requests *)
Record QBlockRecover (T : Type) : Type := mkRecover {
  qr_id : SlotId;
  qr_key : BlockKey T;
  qr_role : BlockRole;
  qr_missing_num : Z;
  qr_hole_mask : Z;
  qr_window_base : Z;
  qr_szx : Z
}.
Arguments mkRecover {T} _ _ _ _ _ _ _.
Arguments qr_id {T} _.
Arguments qr_key {T} _.
Arguments qr_role {T} _.
Arguments qr_missing_num {T} _.
Arguments qr_hole_mask {T} _.
Arguments qr_window_base {T} _.
Arguments qr_szx {T} _.

Definition missing_count {T} (r : QBlockRecover T) : Z := count_ones 16 (qr_hole_mask r).
Definition recover_contains {T} (r : QBlockRecover T) (num : Z) : bool :=
  if num <? qr_window_base r then false
  else
    let idx := num - qr_window_base r in
    if MAX_PAYLOADS <=? idx then false else negb (Z.land (qr_hole_mask r) (shl 16 1 idx) =? 0).

(** The [while] loop of [copy_missing_nums], one round per window position. *)
Fixpoint copy_missing_loop {T E} (r : QBlockRecover T) (rounds : nat) (i : Z) (n : nat) : st (list Z) E nat :=
  match rounds with
  | O => mret n
  | S rounds =>
      out ← st_get;
      if negb (n <? length out)%nat then mret n
      else if negb (Z.land (qr_hole_mask r) (shl 16 1 i) =? 0) then
        v ← st_lift (add_panics 32 (qr_window_base r) i);
        st_upd (set_idx n v);;
        copy_missing_loop r rounds (i + 1) (n + 1)
      else copy_missing_loop r rounds (i + 1) n
  end.
Definition copy_missing_nums {T E} (r : QBlockRecover T) : st (list Z) E nat :=
  copy_missing_loop r (Z.to_nat MAX_PAYLOADS) 0 0.
