(* ===== verification/BlockFrame.v ===== *)
(** * Frame lemmas of the block transfers

    What no operation on the position of a transfer ([src/storage/block.rs])
    changes, by a small logic of kept fields over the state monad. *)
From S2P Require Import Prelude Errors MsgTypes Options Encode OptionValues Pending Occupancy Block.

(** ** What the operations keep

    No operation on the position changes who a transfer belongs to, its role,
    its announced length or its retention. *)
Section kept.
Context `{Target} {T : Type}.
Implicit Types t : BlockTransfer T.

Definition ident t :=
  (bx_key t, bx_role t, bx_expected_len t, bx_q_receive t, (bx_request_binding t, bx_oscore_request t, bx_notification t)).

Definition keeps {A} (i : _) (m : bx_st (T:=T) A) : Prop := ∀ t, ident t = i → ident (m t).1 = i.

Lemma keeps_ret {A} i (a : A) : keeps i (mret a).
Proof. by intros t Ht. Qed.
Lemma keeps_fail {A} i e : keeps i (st_fail (A:=A) e).
Proof. by intros t Ht. Qed.
Lemma keeps_lift {A} i (r : res BlockTransferError A) : keeps i (st_lift r).
Proof. by intros t Ht. Qed.
Lemma keeps_put i t' : ident t' = i → keeps i (st_put t').
Proof. by intros Ht' t Ht. Qed.
Lemma keeps_get {A} i (f : BlockTransfer T → bx_st A) : (∀ t, ident t = i → keeps i (f t)) → keeps i (st_get ≫= f).
Proof. intros Hf t Ht. unbind. by apply Hf. Qed.
Lemma keeps_bind {A B} i (m : bx_st A) (f : A → bx_st B) : keeps i m → (∀ a, keeps i (f a)) → keeps i (m ≫= f).
Proof.
  intros Hm Hf t Ht. specialize (Hm t Ht). unbind. destruct (m t) as [t' [a| | |]]; [|done..]. by apply Hf.
Qed.
End kept.

Create HintDb kept.
#[export] Hint Resolve keeps_ret keeps_fail keeps_lift keeps_put : kept.

(** One step through an operation: a bind, a test, or a leaf. *)
Ltac keeps_step :=
  match goal with
  | |- keeps _ (st_get ≫= _) => apply keeps_get; intros ? ?
  | |- keeps _ (_ ≫= _) => apply keeps_bind; [|intros ?]
  | |- keeps _ (if ?b then _ else _) => destruct b
  | |- keeps _ (match ?x with _ => _ end) => destruct x eqn:?
  | |- keeps _ (st_put _) => apply keeps_put; first [done | by simplify_eq/= | by repeat case_match]
  | |- _ => progress (cbv zeta beta)
  end.
Ltac keeps_all := repeat first [by eauto with kept | keeps_step].

Section operations_keep.
Context `{Target} {T : Type}.
Implicit Types t : BlockTransfer T.

Lemma keeps_finish i num n more : keeps (T:=T) i (finish_position num n more).
Proof. unfold finish_position. keeps_all. Qed.
#[local] Hint Resolve keeps_finish : kept.
Lemma keeps_bert i block n c : keeps (T:=T) i (accept_bert_incoming block n c).
Proof. unfold accept_bert_incoming. keeps_all. Qed.
Lemma keeps_adopt i block : keeps (T:=T) i (adopt_incoming_szx block).
Proof. unfold adopt_incoming_szx. keeps_all. Qed.
#[local] Hint Resolve keeps_bert keeps_adopt : kept.
Lemma keeps_accept i block n c : keeps (T:=T) i (accept_incoming block n c).
Proof. unfold accept_incoming. keeps_all. Qed.
Lemma keeps_position i q size : keeps (T:=T) i (q_position q size).
Proof. unfold q_position. keeps_all. Qed.
Lemma keeps_on_q {A} i q (m : st QWindow BlockTransferError A) : keeps (T:=T) i (on_q q m).
Proof. unfold on_q. destruct (m q). keeps_all. Qed.
#[local] Hint Resolve keeps_accept keeps_position keeps_on_q : kept.
Lemma keeps_accept_q i block n c : keeps (T:=T) i (accept_q_incoming block n c).
Proof. unfold accept_q_incoming. keeps_all. Qed.
#[local] Hint Resolve keeps_accept_q : kept.
Lemma keeps_accept_role i block n c : keeps (T:=T) i (accept_incoming_role block n c).
Proof. unfold accept_incoming_role. keeps_all. Qed.
Lemma keeps_issue_range i num : keeps (T:=T) i (issue_range num).
Proof. unfold issue_range. keeps_all. Qed.
#[local] Hint Resolve keeps_issue_range : kept.
Lemma keeps_issue_bert i n : keeps (T:=T) i (issue_bert_outgoing n).
Proof. unfold issue_bert_outgoing. keeps_all. Qed.
#[local] Hint Resolve keeps_issue_bert : kept.
Lemma keeps_issue i : keeps (T:=T) i issue_outgoing.
Proof. unfold issue_outgoing. keeps_all. Qed.
Lemma keeps_issue_q i : keeps (T:=T) i issue_q_outgoing.
Proof. unfold issue_q_outgoing. keeps_all. Qed.
Lemma keeps_smaller i szx : keeps (T:=T) i (adopt_smaller_szx szx).
Proof. unfold adopt_smaller_szx. keeps_all. Qed.
Lemma keeps_pace i : keeps (T:=T) i bx_pace_q_block1.
Proof. unfold bx_pace_q_block1. keeps_all. Qed.
Lemma keeps_ack i num : keeps (T:=T) i (ack_q_window num).
Proof. unfold ack_q_window. keeps_all. Qed.
End operations_keep.
#[export] Hint Resolve keeps_accept keeps_accept_q keeps_accept_role keeps_issue keeps_issue_q keeps_smaller
  keeps_issue_bert keeps_pace keeps_ack : kept.

Lemma keeps_ident `{Target} {T A} (m : bx_st (T:=T) A) t t' r :
  keeps (ident t) m → m t = (t', r) → ident t' = ident t.
Proof. intros Hk Hm. specialize (Hk t eq_refl). by rewrite Hm in Hk. Qed.
