(* ===== verification/BodyPool.v ===== *)
(** * Body pools

    [src/storage/pool.rs], [BodyPool] (parallel arrays) and
    [src/storage/alloc_memory.rs], [AllocBodyPool] (a vector of slots).  The
    two sources contain the same methods over different field accesses: the
    class [BodyCells] is that access, the methods are written once over it, and
    both pools are instances. *)
From S2P Require Import Prelude Errors MsgTypes OptionValues Occupancy Pending DatagramPool Block.

(** One slot: buffer, filled length, sidecar. *)
Record BodySlot (T : Type) : Type := mkBody {
  bs_buf : list Z;
  bs_len : nat;
  bs_transfer : option (BlockTransfer T)
}.
Arguments mkBody {T} _ _ _.
Arguments bs_buf {T} _.
Arguments bs_len {T} _.
Arguments bs_transfer {T} _.

(** Field access of a pool: [bc_index] and [bc_store] are [self.slots[i]] and an
    assignment to it; [bc_view] is the access of [payload] and [set_transfer],
    which one of the pools guards. *)
Class BodyCells (T P : Type) : Type := {
  bc_occ : P → Occupancy;
  bc_with_occ : P → Occupancy → P;
  bc_slots : P → nat;
  bc_bytes : P → nat;
  bc_get : P → SlotId → option (BodySlot T);
  bc_index : ∀ {E}, P → SlotId → res E (BodySlot T);
  bc_view : ∀ {E}, P → SlotId → res E (option (BodySlot T));
  bc_store : ∀ {E}, P → SlotId → BodySlot T → res E P;
  bc_reset : ∀ {E}, P → SlotId → res E P
}.

(** ** The two pools *)
Record BodyPool (SLOTS BYTES : nat) (T : Type) : Type := mkBodyPool {
  by_bytes : list (list Z);
  by_lens : list nat;
  by_transfers : list (option (BlockTransfer T));
  by_occ : Occupancy
}.
Arguments mkBodyPool {SLOTS BYTES T} _ _ _ _.
Arguments by_bytes {SLOTS BYTES T} _.
Arguments by_lens {SLOTS BYTES T} _.
Arguments by_transfers {SLOTS BYTES T} _.
Arguments by_occ {SLOTS BYTES T} _.

Definition BodyPool_new (SLOTS BYTES : nat) (T : Type) : BodyPool SLOTS BYTES T :=
  mkBodyPool (replicate SLOTS (replicate BYTES 0)) (replicate SLOTS 0%nat) (replicate SLOTS None)
    (Occupancy_new SLOTS SLOTS).

Definition by_index {SLOTS BYTES T E} (p : BodyPool SLOTS BYTES T) (id : SlotId) : res E (BodySlot T) :=
  transfer ← idx (by_transfers p) id;
  buf ← idx (by_bytes p) id;
  len ← idx (by_lens p) id;
  mret (mkBody buf len transfer).

Definition by_store {SLOTS BYTES T E} (p : BodyPool SLOTS BYTES T) (id : SlotId) (s : BodySlot T)
    : res E (BodyPool SLOTS BYTES T) :=
  bytes ← set_idx id (bs_buf s) (by_bytes p);
  lens ← set_idx id (bs_len s) (by_lens p);
  transfers ← set_idx id (bs_transfer s) (by_transfers p);
  mret (mkBodyPool bytes lens transfers (by_occ p)).

Definition by_reset {SLOTS BYTES T E} (p : BodyPool SLOTS BYTES T) (id : SlotId) : res E (BodyPool SLOTS BYTES T) :=
  lens ← set_idx id 0%nat (by_lens p);
  transfers ← set_idx id None (by_transfers p);
  mret (mkBodyPool (by_bytes p) lens transfers (by_occ p)).

#[export] Instance BodyPool_cells {SLOTS BYTES T} : BodyCells T (BodyPool SLOTS BYTES T) := {|
  bc_occ := by_occ;
  bc_with_occ p occ := mkBodyPool (by_bytes p) (by_lens p) (by_transfers p) occ;
  bc_slots _ := SLOTS;
  bc_bytes _ := BYTES;
  bc_get p id := match by_index (E:=unit) p id with Ok s => Some s | _ => None end;
  bc_index E := by_index;
  bc_view E p id := s ← by_index p id; mret (Some s);
  bc_store E := by_store;
  bc_reset E := by_reset
|}.

Record AllocBodyPool (T : Type) : Type := mkAllocBody {
  ab_slots : list (BodySlot T);
  ab_slot_bytes : nat;
  ab_occ : Occupancy
}.
Arguments mkAllocBody {T} _ _ _.
Arguments ab_slots {T} _.
Arguments ab_slot_bytes {T} _.
Arguments ab_occ {T} _.

(** The value [AllocBodyPool::new] returns when every allocation succeeds. *)
Definition AllocBodyPool_new (slots bytes : nat) (T : Type) : AllocBodyPool T :=
  mkAllocBody (replicate slots (mkBody (replicate bytes 0) 0 None)) bytes (Occupancy_new slots slots).

Definition ab_reset {T} (p : AllocBodyPool T) (id : SlotId) : AllocBodyPool T :=
  match ab_slots p !! id with
  | Some s => mkAllocBody (<[id := mkBody (bs_buf s) 0 None]> (ab_slots p)) (ab_slot_bytes p) (ab_occ p)
  | None => p
  end.

#[export] Instance AllocBodyPool_cells {T} : BodyCells T (AllocBodyPool T) := {|
  bc_occ := ab_occ;
  bc_with_occ p occ := mkAllocBody (ab_slots p) (ab_slot_bytes p) occ;
  bc_slots p := length (oc_occupied (ab_occ p));
  bc_bytes := ab_slot_bytes;
  bc_get p id := ab_slots p !! id;
  bc_index E p id := idx (ab_slots p) id;
  bc_view E p id := Ok (ab_slots p !! id);
  bc_store E p id s := slots ← set_idx id s (ab_slots p); mret (mkAllocBody slots (ab_slot_bytes p) (ab_occ p));
  bc_reset E p id := Ok (ab_reset p id)
|}.

(** ** The methods *)
Section body_pool.
Context `{Target} {T P : Type} `{EqDecision T} `{BodyCells T P}.
Implicit Types (p : P) (id : SlotId).

(** A value of a method that takes [&mut self]. *)
Definition body_st (A : Type) : Type := st P BlockTransferError A.

Definition body_refusal p id : SlotError := slot_refusal (bc_slots p) id.
Definition body_occupied p id : bool := Occupancy_is_occupied (bc_occ p) id.

(** [materialize] of one slot. *)
Definition slot_materialize {E} (s : BodySlot T) : res E (BodySlot T) :=
  match (t ← bs_transfer s; body ← static_body t; mret (t, body)) with
  | Some (t, body) =>
      buf ← copy_into 0 (length body) body (bs_buf s);
      mret (mkBody buf (bs_len s) (Some (clear_static_body t)))
  | None => Ok s
  end.

(** [&bytes[..len]] of the static body or the buffer. *)
Definition slot_payload {E} (s : BodySlot T) : res E (list Z) :=
  slice_idx (match (t ← bs_transfer s; static_body t) with Some body => body | None => bs_buf s end) 0 (bs_len s).

Definition body_payload {E} p id : res E (option (list Z)) :=
  if negb (body_occupied p id) then Ok None
  else
    s ← bc_view p id;
    match s with
    | None => Ok None
    | Some s => b ← slot_payload s; mret (Some b)
    end.

Definition body_transfer p id : option (BlockTransfer T) :=
  if negb (body_occupied p id) then None
  else s ← bc_get p id; t ← bs_transfer s; mret (without_static_body t).

Definition body_set_transfer p id (transfer : BlockTransfer T) : res SlotError P :=
  if negb (body_occupied p id) then Err (body_refusal p id)
  else
    s ← bc_view p id;
    s ← ok_or s InvalidSlot;
    s ← slot_materialize s;
    bc_store p id (mkBody (bs_buf s) (bs_len s) (Some (without_static_body transfer))).

(** [payload_mut]: the whole buffer with the function that stores it back. *)
Definition body_payload_mut {E} p id : res E (option (list Z * (list Z → res E P))) :=
  if negb (body_occupied p id) then Ok None
  else
    s ← bc_index p id;
    s ← slot_materialize s;
    mret (Some (bs_buf s, fun buf => bc_store p id (mkBody buf (bs_len s) (bs_transfer s)))).

Definition body_set_len p id (len : nat) : res SlotError P :=
  if negb (body_occupied p id) then Err (body_refusal p id)
  else if (bc_bytes p <? len)%nat then Err LengthExceedsSlot
  else
    s ← bc_index p id;
    s ← slot_materialize s;
    bc_store p id (mkBody (bs_buf s) len (bs_transfer s)).

(** [access] pins the slot and reads its payload. *)
Definition body_access p id : res SlotError (P * list Z) :=
  occ ← Occupancy_try_pin (bc_occ p) id;
  s ← bc_view p id;
  s ← ok_or s InvalidSlot;
  bytes ← slot_payload s;
  mret (bc_with_occ p occ, bytes).

(** [access_mut] pins the slot, materialises it and lends its whole buffer. *)
Definition body_access_mut p id : res SlotError (P * list Z) :=
  occ ← Occupancy_try_pin (bc_occ p) id;
  let p := bc_with_occ p occ in
  s ← bc_view p id;
  s ← ok_or s InvalidSlot;
  s ← slot_materialize s;
  p ← bc_store p id s;
  mret (p, bs_buf s).

Definition body_advance p (steps : nat) : P := bc_with_occ p (Occupancy_advance (bc_occ p) steps).

Definition body_lookup_by p (test : BlockTransfer T → bool) : option SlotId :=
  find_map (fun id => match body_transfer p id with Some t => if test t then Some id else None | None => None end)
    (seq 0 (bc_slots p)).
Definition body_lookup p (key : BlockKey T) : option SlotId := body_lookup_by p (fun t => eqb (bx_key t) key).
Definition body_lookup_role p (key : BlockKey T) (role : BlockRole) : option SlotId :=
  body_lookup_by p (fun t => eqb (bx_key t) key && eqb (bx_role t) role).
Definition body_lookup_identity p (key : BlockKey T) (role : BlockRole) : option SlotId :=
  if BodyTag_is_absent (bk_identity key) then None
  else body_lookup_by p (fun t => same_body_identity t key role).

Definition body_acquire {E} : st P E (option SlotId) := fun p =>
  match Occupancy_acquire (bc_occ p) with
  | Ok (occ, None) => (bc_with_occ p occ, Ok None)
  | Ok (occ, Some id) =>
      match bc_reset (bc_with_occ p occ) id with
      | Ok p => (p, Ok (Some id))
      | Err e => (p, Err e)
      | Panic => (p, Panic)
      | Diverge => (p, Diverge)
      end
  | Err e => (p, Err e)
  | Panic => (p, Panic)
  | Diverge => (p, Diverge)
  end.

Definition body_release p id : res SlotError P :=
  occ ← Occupancy_release (bc_occ p) id;
  bc_reset (bc_with_occ p occ) id.

(** [let _ = self.release(id)]. *)
Definition body_release_ignored id : body_st unit := fun p =>
  match body_release p id with
  | Ok p => (p, Ok tt)
  | Err _ => (p, Ok tt)
  | Panic => (p, Panic)
  | Diverge => (p, Diverge)
  end.

(** Run code on the buffer and length, or on the sidecar, of a slot in place. *)
Definition on_buffer {A} id (m : st (list Z * nat) BlockTransferError A) : body_st A :=
  p ← st_get;
  s ← st_lift (bc_index p id);
  let '((buf, len), r) := m (bs_buf s, bs_len s) in
  p ← st_lift (bc_store p id (mkBody buf len (bs_transfer s)));
  st_put p;;
  st_lift r.

Definition on_transfer {A} id (role : BlockRole) (m : st (BlockTransfer T) BlockTransferError A) : body_st A :=
  p ← st_get;
  s ← st_lift (bc_index p id);
  t ← st_lift (ok_or (bs_transfer s) NoTransfer);
  if negb (eqb (bx_role t) role) then st_fail IdentityMismatch
  else
    let '(t, r) := m t in
    p ← st_lift (bc_store p id (mkBody (bs_buf s) (bs_len s) (Some t)));
    st_put p;;
    st_lift r.

Definition put_transfer id (t : BlockTransfer T) : body_st unit :=
  p ← st_get;
  s ← st_lift (bc_index p id);
  p ← st_lift (bc_store p id (mkBody (bs_buf s) (bs_len s) (Some t)));
  st_put p.

(** [if let Err(e) = m { let _ = self.release(id); return Err(e); }]. *)
Definition or_release {A} id (m : body_st A) : body_st A := fun p =>
  match m p with
  | (p, Err e) => (body_release_ignored id;; st_fail e) p
  | r => r
  end.

(** Bytes [self.transfers[idx].ok_or(NoTransfer)]. *)
Definition get_transfer id : body_st (BlockTransfer T) :=
  p ← st_get;
  s ← st_lift (bc_index p id);
  st_lift (ok_or (bs_transfer s) NoTransfer).

Definition admit_incoming (key : BlockKey T) (role : BlockRole) (block : BlockValue) (payload : list Z)
    (expected_len : option Z) : body_st SlotId :=
  p ← st_get;
  transfer ← st_lift (start_incoming key role block (length payload) (bc_bytes p) expected_len);
  id ← body_acquire;
  id ← st_lift (ok_or id Saturated);
  offset ← st_lift (if is_q_block role then block_offset (bv_num block) (block_size block) else Ok 0%nat);
  let contiguous := if is_q_block role then Some (bx_filled transfer) else None in
  or_release id (on_buffer id (store_incoming offset payload contiguous));;
  put_transfer id transfer;;
  mret id.

Definition write_incoming id (role : BlockRole) (block : BlockValue) (payload : list Z) : body_st BlockProgress :=
  p ← st_get;
  if negb (body_occupied p id) then st_fail (BSlot (body_refusal p id))
  else
    offset ← on_transfer id role (accept_incoming_role block (length payload) (bc_bytes p));
    t ← get_transfer id;
    let contiguous := if is_q_block role then Some (bx_filled t) else None in
    on_buffer id (store_incoming offset payload contiguous);;
    t ← get_transfer id;
    mret (mkProgress id (bx_filled t) (bx_complete t)).

Definition apply_incoming (key : BlockKey T) (role : BlockRole) (block : BlockValue) (payload : list Z)
    (expected_len : option Z) : body_st BlockProgress :=
  p ← st_get;
  match (match body_lookup_role p key role with Some id => Some id | None => body_lookup_identity p key role end) with
  | Some id =>
      transfer ← st_lift (ok_or (body_transfer p id) NoTransfer);
      if is_q_block role && negb (eqb (bx_expected_len transfer) expected_len) then st_fail LengthInconsistent
      else write_incoming id role block payload
  | None =>
      id ← admit_incoming key role block payload expected_len;
      p ← st_get;
      transfer ← st_lift (ok_or (body_transfer p id) NoTransfer);
      mret (mkProgress id (bx_filled transfer) (bx_complete transfer))
  end.

Definition new_outgoing (key : BlockKey T) (role : BlockRole) (len : nat) (szx : Z) (capacity : nat)
    : res BlockTransferError (BlockTransfer T) :=
  if is_q_block role then outgoing_q key role len szx capacity else outgoing key role len szx capacity.

Definition start_outgoing (key : BlockKey T) (role : BlockRole) (body : list Z) (szx : Z) : body_st SlotId :=
  p ← st_get;
  transfer ← st_lift (new_outgoing key role (length body) szx (bc_bytes p));
  id ← body_acquire;
  id ← st_lift (ok_or id Saturated);
  or_release id (on_buffer id (write_range 0 body));;
  put_transfer id transfer;;
  mret id.

Definition start_outgoing_static (key : BlockKey T) (role : BlockRole) (body : list Z) (szx : Z) : body_st SlotId :=
  match role with
  | OutgoingBlock2 | OutgoingQBlock2 =>
      p ← st_get;
      transfer ← st_lift (new_outgoing key role (length body) szx (bc_bytes p));
      id ← body_acquire;
      id ← st_lift (ok_or id Saturated);
      p ← st_get;
      s ← st_lift (bc_index p id);
      p ← st_lift (bc_store p id (mkBody (bs_buf s) (length body) (Some (retain_static_body transfer body))));
      st_put p;;
      mret id
  | _ => st_fail IdentityMismatch
  end.

(** The occupancy check of the outgoing methods. *)
Definition on_occupied {A} id (m : body_st A) : body_st A :=
  p ← st_get;
  if negb (body_occupied p id) then st_fail (BSlot (body_refusal p id)) else m.

Definition issued id (role : BlockRole) (m : st (BlockTransfer T) BlockTransferError (BlockValue * nat * nat))
    : body_st OutgoingBlock :=
  '(block, offset, len) ← on_transfer id role m;
  t ← get_transfer id;
  mret (mkOutgoing id block offset len (bx_complete t)).

Definition next_outgoing id (role : BlockRole) : body_st OutgoingBlock :=
  on_occupied id (issued id role (if is_q_block role then issue_q_outgoing else issue_outgoing)).
Definition next_bert_outgoing id (role : BlockRole) (max_payload : nat) : body_st OutgoingBlock :=
  on_occupied id (issued id role (issue_bert_outgoing max_payload)).
Definition adopt_smaller_outgoing_szx id (role : BlockRole) (szx : Z) : body_st unit :=
  on_occupied id (on_transfer id role (adopt_smaller_szx szx)).
Definition ack_outgoing id (role : BlockRole) (num : Z) : body_st BlockProgress :=
  on_occupied id ('(filled, complete) ← on_transfer id role (ack_q_window num); mret (mkProgress id filled complete)).

(** [BodyOps::pace_q_block1], through a copy of the sidecar. *)
Definition body_pace_q_block1 id : body_st unit :=
  p ← st_get;
  transfer ← st_lift (ok_or (body_transfer p id) NoTransfer);
  let '(transfer, r) := bx_pace_q_block1 transfer in
  st_lift r;;
  p ← st_lift (map_err BSlot (body_set_transfer p id transfer));
  st_put p.
End body_pool.

(** ** The methods of the heap pool *)
Section heap_methods.
Context `{Target} {T : Type} `{EqDecision T}.
Implicit Types (p : AllocBodyPool T) (id : SlotId) (key : BlockKey T).

Definition AllocBodyPool_payload {E} p id : res E (option (list Z)) := body_payload p id.
Definition AllocBodyPool_access p id : res SlotError (AllocBodyPool T * list Z) := body_access p id.
Definition AllocBodyPool_access_mut p id : res SlotError (AllocBodyPool T * list Z) := body_access_mut p id.
Definition AllocBodyPool_transfer p id : option (BlockTransfer T) := body_transfer p id.
Definition AllocBodyPool_set_transfer p id (t : BlockTransfer T) : res SlotError (AllocBodyPool T) := body_set_transfer p id t.
Definition AllocBodyPool_lookup p key : option SlotId := body_lookup p key.
Definition AllocBodyPool_lookup_role p key role : option SlotId := body_lookup_role p key role.
Definition AllocBodyPool_lookup_identity p key role : option SlotId := body_lookup_identity p key role.
Definition AllocBodyPool_admit_incoming key role block payload expected_len : body_st (P:=AllocBodyPool T) SlotId :=
  admit_incoming key role block payload expected_len.
Definition AllocBodyPool_write_incoming id role block payload : body_st (P:=AllocBodyPool T) BlockProgress :=
  write_incoming id role block payload.
Definition AllocBodyPool_apply_incoming key role block payload expected_len : body_st (P:=AllocBodyPool T) BlockProgress :=
  apply_incoming key role block payload expected_len.
Definition AllocBodyPool_start_outgoing key role body szx : body_st (P:=AllocBodyPool T) SlotId :=
  start_outgoing key role body szx.
Definition AllocBodyPool_start_outgoing_static key role body szx : body_st (P:=AllocBodyPool T) SlotId :=
  start_outgoing_static key role body szx.
Definition AllocBodyPool_next_outgoing id role : body_st (P:=AllocBodyPool T) OutgoingBlock := next_outgoing id role.
Definition AllocBodyPool_adopt_smaller_outgoing_szx id role szx : body_st (P:=AllocBodyPool T) unit :=
  adopt_smaller_outgoing_szx id role szx.
Definition AllocBodyPool_next_bert_outgoing id role max_payload : body_st (P:=AllocBodyPool T) OutgoingBlock :=
  next_bert_outgoing id role max_payload.
Definition AllocBodyPool_ack_outgoing id role num : body_st (P:=AllocBodyPool T) BlockProgress := ack_outgoing id role num.
Definition AllocBodyPool_acquire {E} : st (AllocBodyPool T) E (option SlotId) := body_acquire.
Definition AllocBodyPool_release p id : res SlotError (AllocBodyPool T) := body_release p id.
Definition AllocBodyPool_advance p steps : AllocBodyPool T := body_advance p steps.
End heap_methods.
