(* ===== verification/BodyLaws.v ===== *)
(** * The contract of the body pools

    [BodyLaws] states what [BodyCells] access does to the list of slots; both
    pools satisfy it.  From it follow, once for both, what the pool methods do
    to a slot and that no method panics or breaks the pool. *)
From S2P Require Import Prelude Errors MsgTypes Options Encode OptionValues Occupancy Pending DatagramPool Block BlockFrame BodyPool.

(** ** The contract *)
Section shape.
Context {T P : Type} `{BodyCells T P}.

(** [q] is [p] with the slots [cells], the same allocator and the same sizes. *)
Definition same_shape (p q : P) : Prop := bc_occ q = bc_occ p ∧ bc_slots q = bc_slots p ∧ bc_bytes q = bc_bytes p.
End shape.

Class BodyLaws (T P : Type) `{BodyCells T P} : Type := {
  bl_inv : P → Prop;
  bl_cells : P → list (BodySlot T);
  bl_occ p : bl_inv p → occ_inv (bc_occ p) ∧ length (oc_occupied (bc_occ p)) = bc_slots p;
  bl_length p : bl_inv p → length (bl_cells p) = bc_slots p;
  bl_bytes p id s : bl_inv p → bl_cells p !! id = Some s → length (bs_buf s) = bc_bytes p;
  bl_get p id : bl_inv p → bc_get p id = bl_cells p !! id;
  bl_index {E} p id s : bl_inv p → bl_cells p !! id = Some s → bc_index (E:=E) p id = Ok s;
  bl_view {E} p id s : bl_inv p → bl_cells p !! id = Some s → bc_view (E:=E) p id = Ok (Some s);
  bl_store {E} p id s :
    bl_inv p → (id < bc_slots p)%nat → length (bs_buf s) = bc_bytes p →
    ∃ q, bc_store (E:=E) p id s = Ok q ∧ bl_inv q ∧ same_shape p q ∧ bl_cells q = <[id := s]> (bl_cells p);
  bl_reset {E} p id s :
    bl_inv p → bl_cells p !! id = Some s →
    ∃ q, bc_reset (E:=E) p id = Ok q ∧ bl_inv q ∧ same_shape p q ∧
      bl_cells q = <[id := mkBody (bs_buf s) 0 None]> (bl_cells p);
  bl_with_occ p occ :
    bl_inv p → occ_inv occ → length (oc_occupied occ) = bc_slots p →
    bl_inv (bc_with_occ p occ) ∧ bc_occ (bc_with_occ p occ) = occ ∧ bl_cells (bc_with_occ p occ) = bl_cells p ∧
    bc_slots (bc_with_occ p occ) = bc_slots p ∧ bc_bytes (bc_with_occ p occ) = bc_bytes p
}.

(** ** The pool of parallel arrays *)
Section arrays.
Context {SLOTS BYTES : nat} {T : Type}.
Implicit Types p : BodyPool SLOTS BYTES T.

Fixpoint zip_slots (bytes : list (list Z)) (lens : list nat) (ts : list (option (BlockTransfer T))) : list (BodySlot T) :=
  match bytes, lens, ts with
  | b :: bytes, l :: lens, t :: ts => mkBody b l t :: zip_slots bytes lens ts
  | _, _, _ => []
  end.

Lemma zip_slots_lookup bytes lens ts id :
  zip_slots bytes lens ts !! id =
    match bytes !! id, lens !! id, ts !! id with Some b, Some l, Some t => Some (mkBody b l t) | _, _, _ => None end.
Proof.
  revert lens ts id. induction bytes as [|b bytes IH]; intros lens ts id; [done|].
  destruct lens as [|l lens]; [by repeat case_match|]. destruct ts as [|t ts]; [by repeat case_match|].
  destruct id as [|id]; [done|]. apply (IH lens ts id).
Qed.

Lemma zip_slots_length bytes lens ts n :
  length bytes = n → length lens = n → length ts = n → length (zip_slots bytes lens ts) = n.
Proof. revert lens ts n. induction bytes; intros [|] [|] [|]; simpl; intros; simplify_eq; auto. Qed.

Lemma zip_slots_insert bytes lens ts id s :
  <[id := s]> (zip_slots bytes lens ts) =
  zip_slots (<[id := bs_buf s]> bytes) (<[id := bs_len s]> lens) (<[id := bs_transfer s]> ts).
Proof.
  revert lens ts id. induction bytes as [|b bytes IH]; intros lens ts id; [by destruct id|].
  destruct lens as [|l lens]; [by destruct id|]. destruct ts as [|t ts]; [by destruct id|].
  destruct id; simpl; [by destruct s|]. by rewrite IH.
Qed.

Definition by_inv p : Prop :=
  occ_inv (by_occ p) ∧ length (oc_occupied (by_occ p)) = SLOTS ∧ length (by_bytes p) = SLOTS ∧
  length (by_lens p) = SLOTS ∧ length (by_transfers p) = SLOTS ∧ Forall (fun b => length b = BYTES) (by_bytes p).
Definition by_cells p : list (BodySlot T) := zip_slots (by_bytes p) (by_lens p) (by_transfers p).

Lemma by_lookup p id s :
  by_cells p !! id = Some s →
  by_bytes p !! id = Some (bs_buf s) ∧ by_lens p !! id = Some (bs_len s) ∧ by_transfers p !! id = Some (bs_transfer s).
Proof. unfold by_cells. rewrite zip_slots_lookup. intros. by repeat case_match; simplify_eq. Qed.

Lemma by_index_ok {E} p id s : by_cells p !! id = Some s → by_index (E:=E) p id = Ok s.
Proof.
  intros (Hb & Hl & Ht)%by_lookup. unfold by_index, idx. rewrite Hb, Hl, Ht. by destruct s.
Qed.

#[export, program] Instance BodyPool_laws : BodyLaws T (BodyPool SLOTS BYTES T) := {|
  bl_inv := by_inv;
  bl_cells := by_cells
|}.
Next Obligation. by intros p (? & ? & _). Qed.
Next Obligation. intros p (_ & _ & Hb & Hl & Ht & _). by apply zip_slots_length. Qed.
Next Obligation.
  intros p id s (_ & _ & _ & _ & _ & Hf) (Hb & _)%by_lookup. by eapply Forall_lookup_1 in Hf.
Qed.
Next Obligation.
  intros p id Hp. simpl. destruct (by_cells p !! id) as [s|] eqn:Hs; [by rewrite by_index_ok with (s:=s)|].
  unfold by_index, idx. destruct (by_transfers p !! id) eqn:Ht; [|done]. unbind.
  assert (length (by_cells p) = SLOTS) as Hl by (destruct Hp as (_ & _ & ? & ? & ? & _); by apply zip_slots_length).
  apply lookup_ge_None in Hs. apply lookup_lt_Some in Ht. destruct Hp as (_ & _ & _ & _ & Hp & _). lia.
Qed.
Next Obligation. intros E p id s _ Hs. by apply by_index_ok. Qed.
Next Obligation. intros E p id s _ Hs. simpl. by rewrite (by_index_ok _ _ _ Hs). Qed.
Next Obligation.
  intros E p id s (Ho & Hlo & Hb & Hl & Ht & Hf) Hid Hs. simpl in *. unfold by_store, set_idx.
  rewrite Hb, Hl, Ht, (proj2 (Nat.ltb_lt _ _)) by done. unbind. eexists. split_and!; [done| |done..|].
  - unfold by_inv. cbn. rewrite !length_insert. split_and!; try done. by apply Forall_insert.
  - symmetry. apply zip_slots_insert.
Qed.
Next Obligation.
  intros E p id s (Ho & Hlo & Hb & Hl & Ht & Hf) Hs. simpl. unfold by_reset, set_idx.
  pose proof (by_lookup _ _ _ Hs) as (Hsb & Hsl & _). apply lookup_lt_Some in Hsl as Hid.
  rewrite Hl in Hid |- *. rewrite Ht, (proj2 (Nat.ltb_lt _ _)) by done. unbind. eexists. split_and!; [done| |done..|].
  - unfold by_inv. cbn. rewrite !length_insert. by split_and!.
  - unfold by_cells. cbn. rewrite zip_slots_insert. cbn. by rewrite (list_insert_id (by_bytes p)).
Qed.
Next Obligation.
  intros p occ (_ & _ & Hr) Ho Hl. simpl in *. split_and!; try done; by destruct Hr as (? & ? & ? & ?).
Qed.

Lemma BodyPool_new_inv : bl_inv (BodyPool_new SLOTS BYTES T) ∧
  bl_cells (BodyPool_new SLOTS BYTES T) = replicate SLOTS (mkBody (replicate BYTES 0) 0 None).
Proof.
  split.
  - simpl. unfold by_inv. cbn. rewrite !length_replicate. split_and!; try done; [by apply Occupancy_new_inv|].
    apply Forall_replicate. apply length_replicate.
  - simpl. unfold by_cells. cbn. induction SLOTS as [|n IH]; [done|]. cbn. by rewrite IH.
Qed.
End arrays.

(** ** The pool on the heap *)
Section heap.
Context {T : Type}.
Implicit Types p : AllocBodyPool T.

Definition ab_inv p : Prop :=
  occ_inv (ab_occ p) ∧ length (oc_occupied (ab_occ p)) = length (ab_slots p) ∧
  Forall (fun s => length (bs_buf s) = ab_slot_bytes p) (ab_slots p).

#[export, program] Instance AllocBodyPool_laws : BodyLaws T (AllocBodyPool T) := {|
  bl_inv := ab_inv;
  bl_cells := ab_slots
|}.
Next Obligation. by intros p (? & ? & _). Qed.
Next Obligation. by intros p (_ & ? & _). Qed.
Next Obligation. intros p id s (_ & _ & Hf) Hs. by eapply Forall_lookup_1 in Hf. Qed.
Next Obligation. done. Qed.
Next Obligation. intros E p id s _ Hs. simpl. unfold idx. by rewrite Hs. Qed.
Next Obligation. intros E p id s _ Hs. simpl. by rewrite Hs. Qed.
Next Obligation.
  intros E p id s (Ho & Hl & Hf) Hid Hs. simpl in *. unfold set_idx. rewrite <- Hl, (proj2 (Nat.ltb_lt _ _)) by done.
  unbind. eexists. split_and!; [done| |done..]. unfold ab_inv. cbn. rewrite length_insert. split_and!; try done.
  by apply Forall_insert.
Qed.
Next Obligation.
  intros E p id s (Ho & Hl & Hf) Hs. simpl. unfold ab_reset. rewrite Hs. eexists. split_and!; [done| |done..].
  unfold ab_inv. cbn. rewrite length_insert. split_and!; try done. apply Forall_insert; [done|]. cbn.
  by eapply Forall_lookup_1 in Hf.
Qed.
Next Obligation.
  intros p occ (_ & Hl' & Hf) Ho Hl. simpl in *. split_and!; try done. unfold ab_inv. cbn. split_and!; try done. lia.
Qed.

Lemma AllocBodyPool_new_inv (slots bytes : nat) : bl_inv (AllocBodyPool_new slots bytes T) ∧
  bl_cells (AllocBodyPool_new slots bytes T) = replicate slots (mkBody (replicate bytes 0) 0 None).
Proof.
  split; [|done]. simpl. unfold ab_inv. cbn. rewrite !length_replicate. split_and!; try done.
  - by apply Occupancy_new_inv.
  - apply Forall_replicate. apply length_replicate.
Qed.
End heap.

(** ** What the methods do to a slot *)
Section methods.
Context `{Target} {T P : Type} `{EqDecision T} `{BodyLaws T P}.
Implicit Types (p q : P) (id : SlotId).

(** [q] is [p] with slot [id] replaced. *)
Definition slot_upd p q id (s : BodySlot T) : Prop :=
  bl_inv q ∧ same_shape p q ∧ bl_cells q = <[id := s]> (bl_cells p).

(** An occupied slot and its content. *)
Definition holds p id (s : BodySlot T) : Prop :=
  bl_inv p ∧ body_occupied p id = true ∧ bl_cells p !! id = Some s.

Lemma holds_lt p id s : holds p id s → (id < length (bl_cells p))%nat.
Proof. intros (_ & _ & Hs). by eapply lookup_lt_Some. Qed.

Lemma holds_upd p q id s s' : holds p id s → slot_upd p q id s' → holds q id s'.
Proof.
  intros Hp (Hq & (Ho & _) & Hc). pose proof (holds_lt _ _ _ Hp). split_and!; [done| |].
  - destruct Hp as (_ & Hocc & _). unfold body_occupied in *. by rewrite Ho.
  - rewrite Hc. by apply list_lookup_insert_eq.
Qed.

Lemma upd_trans p q r id s s' : slot_upd p q id s → slot_upd q r id s' → slot_upd p r id s'.
Proof.
  intros (Hq & (Ho & Hn & Hb) & Hc) (Hr & (Ho' & Hn' & Hb') & Hc'). split_and!; [done| |].
  - unfold same_shape. by rewrite Ho', Hn', Hb'.
  - rewrite Hc', Hc. apply list_insert_insert_eq.
Qed.


Lemma store_holds {E} p id s s' :
  holds p id s → length (bs_buf s') = length (bs_buf s) →
  ∃ q, bc_store (E:=E) p id s' = Ok q ∧ slot_upd p q id s'.
Proof.
  intros Hh Hl. pose proof (holds_lt _ _ _ Hh). destruct Hh as (Hp & _ & Hs).
  destruct (bl_store (E:=E) p id s' Hp) as (q & -> & Hq); [by rewrite <- bl_length| |by exists q].
  rewrite Hl. by eapply bl_bytes.
Qed.

Lemma on_transfer_ok {A} p id s t t' role (m : st (BlockTransfer T) BlockTransferError A) r :
  holds p id s → bs_transfer s = Some t → bx_role t = role → m t = (t', r) →
  ∃ q, on_transfer id role m p = (q, r) ∧ slot_upd p q id (mkBody (bs_buf s) (bs_len s) (Some t')).
Proof.
  intros Hh Ht Hr Hm. unfold on_transfer. unbind. pose proof Hh as (Hp & _ & Hs).
  rewrite (bl_index _ _ _ Hp Hs). cbn beta iota. rewrite Ht. cbn [ok_or]. unfold eqb.
  rewrite bool_decide_true by done. cbn [negb]. rewrite Hm.
  destruct (store_holds (E:=BlockTransferError) p id s (mkBody (bs_buf s) (bs_len s) (Some t')) Hh eq_refl)
    as (q & -> & Hq). by exists q.
Qed.

Lemma on_buffer_ok {A} p id s buf len (m : st (list Z * nat) BlockTransferError A) r :
  holds p id s → m (bs_buf s, bs_len s) = ((buf, len), r) → length buf = length (bs_buf s) →
  ∃ q, on_buffer id m p = (q, r) ∧ slot_upd p q id (mkBody buf len (bs_transfer s)).
Proof.
  intros Hh Hm Hl. unfold on_buffer. unbind. pose proof Hh as (Hp & _ & Hs).
  rewrite (bl_index _ _ _ Hp Hs). cbn beta iota. rewrite Hm.
  destruct (store_holds (E:=BlockTransferError) p id s (mkBody buf len (bs_transfer s)) Hh Hl) as (q & -> & Hq).
  by exists q.
Qed.

Lemma put_transfer_ok p id s t :
  holds p id s → ∃ q, put_transfer id t p = (q, Ok tt) ∧ slot_upd p q id (mkBody (bs_buf s) (bs_len s) (Some t)).
Proof.
  intros Hh. unfold put_transfer. unbind. pose proof Hh as (Hp & _ & Hs).
  rewrite (bl_index _ _ _ Hp Hs). cbn beta iota.
  destruct (store_holds (E:=BlockTransferError) p id s (mkBody (bs_buf s) (bs_len s) (Some t)) Hh eq_refl)
    as (q & -> & Hq). by exists q.
Qed.

Lemma get_transfer_ok p id s t : holds p id s → bs_transfer s = Some t → get_transfer id p = (p, Ok t).
Proof.
  intros (Hp & _ & Hs) Ht. unfold get_transfer. unbind. rewrite (bl_index _ _ _ Hp Hs). cbn beta iota. by rewrite Ht.
Qed.

(** [acquire] takes a free slot and clears it, or finds none. *)
Lemma body_acquire_ok {E} p :
  bl_inv p →
  (∃ q id buf, body_acquire (E:=E) p = (q, Ok (Some id)) ∧ body_occupied p id = false ∧
     holds q id (mkBody buf 0 None) ∧ length buf = bc_bytes p ∧ bc_slots q = bc_slots p ∧ bc_bytes q = bc_bytes p ∧
     (∀ j, j ≠ id → bl_cells q !! j = bl_cells p !! j ∧ body_occupied q j = body_occupied p j)) ∨
  (∃ q, body_acquire (E:=E) p = (q, Ok None) ∧ bl_inv q ∧ same_shape p q ∧ bl_cells q = bl_cells p ∧
     ∀ j, (j < bc_slots p)%nat → body_occupied p j = true).
Proof.
  intros Hp. destruct (bl_occ p Hp) as [Ho Hol]. unfold body_acquire.
  pose proof (acquire_outcome (E:=E) _ Ho) as Ha. destruct (Occupancy_acquire _) as [[occ [id|]]| | |]; [| |done..].
  - destruct Ha as ([Hf _] & Hoi & Hocc & _). left. apply lookup_lt_Some in Hf as Hid.
    destruct (bl_with_occ p occ Hp Hoi) as (Hwi & Hwo & Hwc & Hws & Hwb); [by rewrite Hocc, length_insert|].
    destruct (lookup_lt_is_Some_2 (bl_cells p) id) as [s Hs]; [rewrite bl_length by done; lia|].
    destruct (bl_reset (E:=E) (bc_with_occ p occ) id s Hwi) as (q & -> & Hq & (Hqo & Hqs & Hqb) & Hqc); [by rewrite Hwc|].
    assert (∀ j, body_occupied q j = default false (<[id:=true]> (oc_occupied (bc_occ p)) !! j)) as Hbo.
    { intros j. unfold body_occupied, Occupancy_is_occupied. by rewrite Hqo, Hwo, Hocc. }
    exists q, id, (bs_buf s). split_and!; [done|unfold body_occupied, Occupancy_is_occupied; by rewrite Hf| |by eapply bl_bytes| | |].
    + split_and!; [done|rewrite Hbo; by rewrite list_lookup_insert_eq|]. rewrite Hqc, Hwc. apply list_lookup_insert_eq.
      rewrite bl_length by done. lia.
    + by rewrite Hqs.
    + by rewrite Hqb.
    + intros j Hj. rewrite Hbo, Hqc, Hwc, !list_lookup_insert_ne by done. done.
  - destruct Ha as [-> Hall]. right. exists (bc_with_occ p (bc_occ p)).
    destruct (bl_with_occ p (bc_occ p) Hp Ho Hol) as (Hwi & Hwo & Hwc & Hws & Hwb).
    split_and!; try done. intros j Hj. unfold body_occupied. rewrite Hall. apply Nat.ltb_lt. lia.
Qed.

(** Reading a slot. *)
Lemma body_transfer_at p id s t :
  holds p id s → bs_transfer s = Some t → body_transfer p id = Some (without_static_body t).
Proof.
  intros (Hp & Ho & Hs) Ht. unfold body_transfer. rewrite Ho. cbn [negb]. rewrite bl_get, Hs by done. cbn. by rewrite Ht.
Qed.

Lemma body_payload_at {E} p id s :
  holds p id s → (t ← bs_transfer s; static_body t) = None → (bs_len s ≤ length (bs_buf s))%nat →
  body_payload (E:=E) p id = Ok (Some (take (bs_len s) (bs_buf s))).
Proof.
  intros (Hp & Ho & Hs) Ht Hl. unfold body_payload. rewrite Ho. cbn [negb]. rewrite (bl_view _ _ _ Hp Hs). unbind.
  unfold slot_payload. unbind. rewrite Ht. by rewrite slice_prefix.
Qed.
End methods.

(** ** Searches *)
Section searches.
Context `{Target} {T P : Type} `{EqDecision T} `{BodyLaws T P}.
Implicit Types (p q : P) (id : SlotId) (test : BlockTransfer T → bool).

(** Whether the search stops at slot [j]. *)
Definition hit p test (j : SlotId) : bool := match body_transfer p j with Some t => test t | None => false end.

Lemma body_lookup_ext p q test test' :
  bc_slots q = bc_slots p → (∀ j, hit q test' j = hit p test j) → body_lookup_by q test' = body_lookup_by p test.
Proof.
  intros Hs Hh. unfold body_lookup_by. rewrite Hs. induction (seq 0 (bc_slots p)) as [|j l IH]; [done|]. cbn.
  specialize (Hh j). unfold hit in Hh. rewrite IH.
  destruct (body_transfer q j) as [t|], (body_transfer p j) as [t'|]; [| | |done]; repeat case_match; congruence.
Qed.

Lemma body_lookup_none p test : body_lookup_by p test = None ↔ ∀ j, (j < bc_slots p)%nat → hit p test j = false.
Proof.
  unfold body_lookup_by. rewrite find_map_None, Forall_forall. unfold hit. split.
  - intros Hl j Hj. specialize (Hl j). rewrite elem_of_seq in Hl. specialize (Hl ltac:(lia)). by repeat case_match.
  - intros Hl j Hj%elem_of_seq. specialize (Hl j ltac:(lia)). by repeat case_match.
Qed.

Lemma body_lookup_only p test id :
  (id < bc_slots p)%nat → hit p test id = true → (∀ j, j ≠ id → (j < bc_slots p)%nat → hit p test j = false) →
  body_lookup_by p test = Some id.
Proof.
  intros Hid Ht Ho. unfold body_lookup_by. apply find_map_Some. exists (seq 0 id), id, (seq (S id) (bc_slots p - S id)).
  split_and!.
  - replace (bc_slots p) with (id + S (bc_slots p - S id))%nat at 1 by lia. by rewrite seq_app.
  - unfold hit in Ht. destruct (body_transfer p id); [by rewrite Ht|done].
  - apply Forall_forall. intros j Hj%elem_of_seq. specialize (Ho j ltac:(lia) ltac:(lia)). unfold hit in Ho.
    by repeat case_match.
Qed.

Lemma body_transfer_other p q j :
  bl_inv p → bl_inv q → bl_cells q !! j = bl_cells p !! j → body_occupied q j = body_occupied p j →
  body_transfer q j = body_transfer p j.
Proof. intros Hp Hq Hc Ho. unfold body_transfer. by rewrite Ho, !bl_get, Hc. Qed.

Lemma upd_other p q id s j :
  bl_inv p → slot_upd p q id s → j ≠ id → bl_cells q !! j = bl_cells p !! j ∧ body_occupied q j = body_occupied p j.
Proof.
  intros Hp (Hq & (Ho & _) & Hc) Hj. split; [by rewrite Hc, list_lookup_insert_ne by done|].
  unfold body_occupied. by rewrite Ho.
Qed.

(** A search is not disturbed by a change of the position of a transfer. *)
Lemma body_lookup_upd p q id s t t' buf len test :
  holds p id s → bs_transfer s = Some t → slot_upd p q id (mkBody buf len (Some t')) →
  test (without_static_body t') = test (without_static_body t) → body_lookup_by q test = body_lookup_by p test.
Proof.
  intros Hh Ht Hu He. apply body_lookup_ext; [by destruct Hu as (_ & (_ & ? & _) & _)|]. intros j. unfold hit.
  destruct (decide (j = id)) as [->|Hj].
  - rewrite (body_transfer_at p id s t Hh Ht).
    rewrite (body_transfer_at q id _ t' (holds_upd _ _ _ _ _ Hh Hu) eq_refl). done.
  - pose proof Hh as (Hp & _). pose proof Hu as (Hq & _).
    destruct (upd_other p q id _ j Hp Hu Hj) as [Hc Ho]. by rewrite (body_transfer_other p q j).
Qed.
End searches.

(** ** Incoming blocks *)
Section incoming.
Context `{Target} {T P : Type} `{EqDecision T} `{BodyLaws T P}.
Implicit Types (p q : P) (id : SlotId) (t : BlockTransfer T) (key : BlockKey T).

Definition role_test key role t : bool := eqb (bx_key t) key && eqb (bx_role t) role.

Lemma static_ident t t' : ident t' = ident t →
  bx_key (without_static_body t') = bx_key (without_static_body t) ∧
  bx_role (without_static_body t') = bx_role (without_static_body t) ∧
  bx_expected_len (without_static_body t') = bx_expected_len (without_static_body t) ∧ static_body t' = static_body t.
Proof.
  intros Hi. destruct t, t'. unfold without_static_body, clear_static_body, static_body. simplify_eq/=.
  by destruct bx_q_receive.
Qed.

Lemma without_static_key t :
  bx_key (without_static_body t) = bx_key t ∧ bx_role (without_static_body t) = bx_role t ∧
  bx_expected_len (without_static_body t) = bx_expected_len t ∧ bx_filled (without_static_body t) = bx_filled t ∧
  bx_complete (without_static_body t) = bx_complete t.
Proof. unfold without_static_body, clear_static_body. by destruct (bx_q_receive t). Qed.

Lemma store_incoming_ok buf filled offset payload contiguous :
  (offset + length payload ≤ length buf)%nat → Z.of_nat (offset + length payload) ≤ usize_max →
  store_incoming offset payload contiguous (buf, filled) =
    ((splice buf offset payload, match contiguous with Some n => n | None => (offset + length payload)%nat end), Ok tt).
Proof.
  intros Hb Hu. unfold store_incoming. unbind. unfold usize_checked_add. rewrite (proj2 (Z.leb_le _ _)) by done.
  cbn [ok_or]. rewrite (proj2 (Nat.ltb_ge _ _)) by done. by rewrite copy_into_ok by done.
Qed.

(** The length a store leaves. *)
Definition stored_len (role : BlockRole) (t : BlockTransfer T) (offset : nat) (payload : list Z) : nat :=
  if is_q_block role then bx_filled t else (offset + length payload)%nat.

Lemma stored_len_match role t offset payload :
  match (if is_q_block role then Some (bx_filled t) else None) with Some n => n | None => (offset + length payload)%nat end =
  stored_len role t offset payload.
Proof. unfold stored_len. by destruct (is_q_block role). Qed.

(** An accepted block is stored at its offset; a refused one stores nothing. *)
Lemma write_incoming_ok p id s t t' role block payload offset :
  holds p id s → bs_transfer s = Some t → bx_role t = role →
  accept_incoming_role block (length payload) (bc_bytes p) t = (t', Ok offset) →
  (offset + length payload ≤ bc_bytes p)%nat → Z.of_nat (offset + length payload) ≤ usize_max →
  ∃ q, write_incoming id role block payload p = (q, Ok (mkProgress id (bx_filled t') (bx_complete t'))) ∧
    slot_upd p q id (mkBody (splice (bs_buf s) offset payload) (stored_len role t' offset payload) (Some t')).
Proof.
  intros Hh Ht Hr Ha Hb Hu. unfold write_incoming. unbind. pose proof Hh as (Hp & Ho & Hs). rewrite Ho. cbn [negb].
  destruct (on_transfer_ok p id s t t' role _ _ Hh Ht Hr Ha) as (q1 & -> & Hq1). cbn beta iota.
  pose proof (holds_upd _ _ _ _ _ Hh Hq1) as Hh1. rewrite (get_transfer_ok q1 id _ t' Hh1 eq_refl). cbn beta iota.
  pose proof (bl_bytes _ _ _ Hp Hs) as Hlen.
  destruct (on_buffer_ok q1 id _ (splice (bs_buf s) offset payload) (stored_len role t' offset payload)
    (store_incoming offset payload (if is_q_block role then Some (bx_filled t') else None)) (Ok tt) Hh1) as (q2 & -> & Hq2).
  - cbn [bs_buf bs_len]. rewrite store_incoming_ok by lia. by rewrite stored_len_match.
  - cbn [bs_buf]. apply length_splice. lia.
  - cbn beta iota. rewrite (get_transfer_ok q2 id _ t' (holds_upd _ _ _ _ _ Hh1 Hq2) eq_refl). cbn beta iota.
    exists q2. split; [done|]. by apply (upd_trans p q1 q2 id _ _ Hq1).
Qed.

Lemma write_incoming_refused p id s t t' role block payload e :
  holds p id s → bs_transfer s = Some t → bx_role t = role →
  accept_incoming_role block (length payload) (bc_bytes p) t = (t', Err e) →
  ∃ q, write_incoming id role block payload p = (q, Err e) ∧ slot_upd p q id (mkBody (bs_buf s) (bs_len s) (Some t')).
Proof.
  intros Hh Ht Hr Ha. unfold write_incoming. unbind. pose proof Hh as (Hp & Ho & Hs). rewrite Ho. cbn [negb].
  destruct (on_transfer_ok p id s t t' role _ _ Hh Ht Hr Ha) as (q1 & -> & Hq1). by exists q1.
Qed.

(** The slot [apply_incoming] uses for a known key. *)
Lemma lookup_role_upd p q id s t t' buf len key role :
  holds p id s → bs_transfer s = Some t → slot_upd p q id (mkBody buf len (Some t')) → ident t' = ident t →
  body_lookup_role q key role = body_lookup_role p key role.
Proof.
  intros Hh Ht Hu Hi. destruct (static_ident _ _ Hi) as (Hk & Hr & _). unfold body_lookup_role.
  eapply body_lookup_upd; [done..|]. cbn. by rewrite Hk, Hr.
Qed.

Lemma apply_incoming_known p id s t key role block payload expected :
  holds p id s → bs_transfer s = Some t → body_lookup_role p key role = Some id →
  (is_q_block role = true → bx_expected_len t = expected) →
  apply_incoming key role block payload expected p = write_incoming id role block payload p.
Proof.
  intros Hh Ht Hl He. unfold apply_incoming. unbind. rewrite Hl, (body_transfer_at _ _ _ _ Hh Ht). cbn [ok_or]. cbn beta iota.
  destruct (without_static_key t) as (_ & _ & -> & _). destruct (is_q_block role); [|done]. cbn [andb].
  rewrite He by done. unfold eqb. by rewrite bool_decide_true.
Qed.

(** A block of an unknown key that starts a transfer takes a free slot. *)
Lemma apply_incoming_first p key role block payload expected t offset :
  bl_inv p → body_lookup_role p key role = None → body_lookup_identity p key role = None →
  (∃ j, (j < bc_slots p)%nat ∧ body_occupied p j = false) →
  start_incoming key role block (length payload) (bc_bytes p) expected = Ok t →
  bx_key t = key → bx_role t = role → static_body t = None →
  (if is_q_block role then block_offset (bv_num block) (block_size block) else Ok 0%nat) = Ok offset →
  (offset + length payload ≤ bc_bytes p)%nat → Z.of_nat (offset + length payload) ≤ usize_max →
  ∃ q id buf, apply_incoming key role block payload expected p = (q, Ok (mkProgress id (bx_filled t) (bx_complete t))) ∧
    holds q id (mkBody (splice buf offset payload) (stored_len role t offset payload) (Some t)) ∧
    length buf = bc_bytes p ∧ bc_bytes q = bc_bytes p ∧ body_lookup_role q key role = Some id ∧
    body_occupied p id = false ∧
    (∀ j, j ≠ id → bl_cells q !! j = bl_cells p !! j ∧ body_occupied q j = body_occupied p j).
Proof.
  intros Hp Hl1 Hl2 (j0 & Hj0 & Hf) Hs Hk Hr Hst Hoff Hb Hu. unfold apply_incoming, admit_incoming. unbind.
  rewrite Hl1, Hl2. cbn beta iota. rewrite Hs. cbn beta iota.
  destruct (body_acquire_ok (E:=BlockTransferError) p Hp) as [(q & id & buf & -> & Hfree & Hh & Hbl & Hsl & Hby & Hoth)|(q & -> & _ & _ & _ & Hall)].
  2: { by rewrite Hall in Hf. }
  cbn beta iota. cbn [ok_or]. cbn beta iota. rewrite Hoff. cbn beta iota. unfold or_release.
  destruct (on_buffer_ok q id _ (splice buf offset payload) (stored_len role t offset payload)
    (store_incoming offset payload (if is_q_block role then Some (bx_filled t) else None)) (Ok tt) Hh) as (q1 & -> & Hq1).
  { cbn [bs_buf bs_len]. rewrite store_incoming_ok by lia. by rewrite stored_len_match. }
  { cbn [bs_buf]. apply length_splice. lia. }
  pose proof (holds_upd _ _ _ _ _ Hh Hq1) as Hh1. cbn beta iota.
  destruct (put_transfer_ok q1 id _ t Hh1) as (q2 & -> & Hq2). cbn [bs_buf bs_len] in Hq2. cbn beta iota.
  pose proof (holds_upd _ _ _ _ _ Hh1 Hq2) as Hh2. pose proof (upd_trans _ _ _ _ _ _ Hq1 Hq2) as Hu2.
  rewrite (body_transfer_at _ _ _ t Hh2 eq_refl). cbn [ok_or]. cbn beta iota.
  destruct (without_static_key t) as (Hwk & Hwr & _ & -> & ->). exists q2, id, buf.
  pose proof Hh as (Hq & _). pose proof Hu2 as (Hq2i & (_ & Hs2 & Hb2) & _).
  assert (∀ j, j ≠ id → bl_cells q2 !! j = bl_cells p !! j ∧ body_occupied q2 j = body_occupied p j) as Hother.
  { intros j Hj. destruct (upd_other q q2 id _ j Hq Hu2 Hj) as [-> ->]. by apply Hoth. }
  split_and!; try done; [by rewrite Hb2| ].
  pose proof (holds_lt _ _ _ Hh2) as Hid. rewrite bl_length in Hid by done.
  apply body_lookup_only; [done| |].
  - unfold hit. rewrite (body_transfer_at _ _ _ t Hh2 eq_refl). rewrite Hwk, Hwr, Hk, Hr. unfold eqb. by rewrite !bool_decide_true.
  - intros j Hj Hjs. destruct (Hother j Hj) as [Hc Ho]. unfold hit. rewrite (body_transfer_other p q2 j) by done.
    apply (proj1 (body_lookup_none p (role_test key role)) Hl1). lia.
Qed.
End incoming.

(** ** Outgoing bodies *)
Section outgoing.
Context `{Target} {T P : Type} `{EqDecision T} `{BodyLaws T P}.
Implicit Types (p q : P) (id : SlotId) (t : BlockTransfer T) (key : BlockKey T).

Lemma write_range_ok buf filled payload :
  (length payload ≤ length buf)%nat → Z.of_nat (length payload) ≤ usize_max →
  write_range 0 payload (buf, filled) = ((splice buf 0 payload, length payload), Ok tt).
Proof.
  intros Hb Hu. unfold write_range. unbind. unfold usize_checked_add. cbn [Nat.add].
  rewrite (proj2 (Z.leb_le _ _)) by done. cbn [ok_or]. rewrite (proj2 (Nat.ltb_ge _ _)) by done. by rewrite copy_into_ok by done.
Qed.

Lemma start_outgoing_ok p key role body szx t :
  bl_inv p → (∃ j, (j < bc_slots p)%nat ∧ body_occupied p j = false) →
  new_outgoing key role (length body) szx (bc_bytes p) = Ok t →
  (length body ≤ bc_bytes p)%nat → Z.of_nat (length body) ≤ usize_max →
  ∃ q id buf, start_outgoing key role body szx p = (q, Ok id) ∧
    holds q id (mkBody (splice buf 0 body) (length body) (Some t)) ∧
    length buf = bc_bytes p ∧ bc_bytes q = bc_bytes p ∧ body_occupied p id = false ∧
    (∀ j, j ≠ id → bl_cells q !! j = bl_cells p !! j ∧ body_occupied q j = body_occupied p j).
Proof.
  intros Hp (j0 & Hj0 & Hf) Hs Hb Hu. unfold start_outgoing. unbind. rewrite Hs. cbn beta iota.
  destruct (body_acquire_ok (E:=BlockTransferError) p Hp) as [(q & id & buf & -> & Hfree & Hh & Hbl & Hsl & Hby & Hoth)|(q & -> & _ & _ & _ & Hall)].
  2: { by rewrite Hall in Hf. }
  cbn beta iota. cbn [ok_or]. cbn beta iota. unfold or_release.
  destruct (on_buffer_ok q id _ (splice buf 0 body) (length body) (write_range 0 body) (Ok tt) Hh) as (q1 & -> & Hq1).
  { cbn [bs_buf bs_len]. by rewrite write_range_ok by lia. }
  { cbn [bs_buf]. apply length_splice. lia. }
  pose proof (holds_upd _ _ _ _ _ Hh Hq1) as Hh1. cbn beta iota.
  destruct (put_transfer_ok q1 id _ t Hh1) as (q2 & -> & Hq2). cbn [bs_buf bs_len] in Hq2. cbn beta iota.
  pose proof (holds_upd _ _ _ _ _ Hh1 Hq2) as Hh2. pose proof (upd_trans _ _ _ _ _ _ Hq1 Hq2) as Hu2.
  pose proof Hh as (Hq & _). pose proof Hu2 as (_ & (_ & _ & Hb2) & _). exists q2, id, buf.
  split_and!; try done; [by rewrite Hb2|]. intros j Hj.
  destruct (upd_other q q2 id _ j Hq Hu2 Hj) as [-> ->]. by apply Hoth.
Qed.

Lemma issued_ok p id s t t' role m block offset len :
  holds p id s → bs_transfer s = Some t → bx_role t = role → m t = (t', Ok (block, offset, len)) →
  ∃ q, on_occupied id (issued id role m) p = (q, Ok (mkOutgoing id block offset len (bx_complete t'))) ∧
    slot_upd p q id (mkBody (bs_buf s) (bs_len s) (Some t')).
Proof.
  intros Hh Ht Hr Hm. unfold on_occupied, issued. unbind. pose proof Hh as (_ & -> & _). cbn [negb].
  destruct (on_transfer_ok p id s t t' role m _ Hh Ht Hr Hm) as (q & -> & Hq). cbn beta iota.
  rewrite (get_transfer_ok q id _ t' (holds_upd _ _ _ _ _ Hh Hq) eq_refl). by exists q.
Qed.

Lemma occupied_transfer_ok {A} p id s t t' role (m : st (BlockTransfer T) BlockTransferError A) r :
  holds p id s → bs_transfer s = Some t → bx_role t = role → m t = (t', r) →
  ∃ q, on_occupied id (on_transfer id role m) p = (q, r) ∧ slot_upd p q id (mkBody (bs_buf s) (bs_len s) (Some t')).
Proof.
  intros Hh Ht Hr Hm. unfold on_occupied. unbind. pose proof Hh as (_ & -> & _). cbn [negb].
  by apply on_transfer_ok with (t:=t).
Qed.
End outgoing.
