(* ===== verification/BlockClassic.v ===== *)
(** * Classic block-wise transfer

    Theorems about [BlockTransfer] ([src/storage/block.rs]) in its classic
    roles: what each accepted or issued block does to the position in the body,
    what a refused block leaves behind, and random access to a response. *)
From S2P Require Import Prelude Errors MsgTypes Options Encode OptionValues Pending Occupancy DatagramPool Block.
From S2P Require Import BlockFrame BodyPool BodyLaws.

(** ** Block sizes and offsets *)
Definition sz (szx : Z) : nat := Z.to_nat (2 ^ (4 + szx)).

Lemma sz_Z (szx : Z) : 0 ≤ szx ≤ 6 → Z.of_nat (sz szx) = 2 ^ (4 + szx) ∧ 16 ≤ Z.of_nat (sz szx) ≤ 1024.
Proof.
  intros Hs. unfold sz. rewrite Z2Nat.id by lia. split; [done|].
  change 16 with (2 ^ (4 + 0)). change 1024 with (2 ^ (4 + 6)). split; apply Z.pow_le_mono_r; lia.
Qed.

Lemma sz_pos (szx : Z) : 0 ≤ szx ≤ 6 → (0 < sz szx)%nat.
Proof. intros Hs. pose proof (sz_Z szx Hs). lia. Qed.

(** A smaller size divides a larger one. *)
Lemma sz_divide (a b : Z) : 0 ≤ a ≤ b → ∃ k, sz b = (k * sz a)%nat.
Proof.
  intros Hab. exists (Z.to_nat (2 ^ (b - a))). unfold sz.
  rewrite <- Z2Nat.inj_mul by (apply Z.pow_nonneg; lia). f_equal.
  rewrite <- Z.pow_add_r by lia. f_equal. lia.
Qed.

Lemma size_from_szx_ok (szx : Z) : 0 ≤ szx ≤ 6 → size_from_szx szx = Ok (Z.of_nat (sz szx)).
Proof.
  intros Hs. destruct (block_size_spec (mkBlock 0 false szx)) as (Hb & _ & Hf & _).
  { unfold block_wf, NUM_MAX, SZX_BERT. simpl. lia. }
  simpl bv_szx in *. rewrite Hf, Hb, Z.min_l by lia. f_equal. symmetry. by apply sz_Z.
Qed.

Lemma block_size_ok (b : BlockValue) : 0 ≤ bv_szx b ≤ 6 → block_size b = sz (bv_szx b).
Proof.
  intros Hs. unfold block_size. destruct (block_size_spec (mkBlock 0 false (bv_szx b))) as (Hb & _).
  { unfold block_wf, NUM_MAX, SZX_BERT. simpl. lia. }
  replace (BlockValue_size b) with (BlockValue_size (mkBlock 0 false (bv_szx b))) by (by destruct b).
  rewrite Hb. simpl bv_szx. by rewrite Z.min_l by lia.
Qed.

Lemma not_bert (b : BlockValue) : 0 ≤ bv_szx b ≤ 6 → BlockValue_is_bert b = false.
Proof. intros Hs. unfold BlockValue_is_bert, SZX_BERT. destruct (Z.eqb_spec (bv_szx b) 7); [lia|done]. Qed.

Section offsets.
Context `{Target}.

Lemma block_offset_ok (num : Z) (size : nat) :
  0 ≤ num ≤ NUM_MAX → Z.of_nat size ≤ 1024 → block_offset num size = Ok (Z.to_nat num * size)%nat.
Proof.
  intros Hn Hs. unfold NUM_MAX in Hn. pose proof usize_max_ge as Hu. unfold block_offset, usize_try_from, usize_checked_mul.
  rewrite (proj2 (Z.leb_le _ _)) by lia. simpl. rewrite Z2Nat.id by lia.
  rewrite (proj2 (Z.leb_le _ _)) by nia. done.
Qed.

Lemma usize_add_le (a b : nat) : Z.of_nat (a + b) ≤ 2 ^ 31 → usize_checked_add a b = Some (a + b)%nat.
Proof. intros Hl. pose proof usize_max_ge. unfold usize_checked_add. by rewrite (proj2 (Z.leb_le _ _)) by lia. Qed.
End offsets.

(** ** The blocks of a body

    Block [num] of a body of [L] bytes: its option value, its first byte and
    how many bytes it has. *)
Definition piece (L : nat) (szx num : Z) : BlockValue * nat * nat :=
  let offset := (Z.to_nat num * sz szx)%nat in
  (mkBlock num (sz szx <? L - offset)%nat szx, offset, Nat.min (L - offset) (sz szx)).

(** Whether there is one; the empty body has block 0. *)
Definition has_piece (L : nat) (szx num : Z) : bool :=
  (Z.to_nat num * sz szx <? L)%nat || ((num =? 0) && (L =? 0)%nat).

Section blocks.
Context `{Target} {T : Type}.
Implicit Types t : BlockTransfer T.

Lemma outgoing_range_piece t (num : Z) :
  0 ≤ bx_szx t ≤ 6 → 0 ≤ num ≤ NUM_MAX →
  outgoing_range t num =
    if has_piece (bx_filled t) (bx_szx t) num then Ok (piece (bx_filled t) (bx_szx t) num) else Err Gap.
Proof.
  intros Hs Hn. unfold outgoing_range. rewrite size_from_szx_ok by done. unbind. cbn [map_err].
  rewrite Nat2Z.id, block_offset_ok by (try done; apply sz_Z; done). cbn iota.
  set (L := bx_filled t). set (o := (Z.to_nat num * sz (bx_szx t))%nat).
  pose proof (sz_pos _ Hs). unfold has_piece. fold o.
  assert ((L <? o)%nat || ((o =? L)%nat && (0 <? L)%nat) =
    negb ((o <? L)%nat || ((num =? 0) && (L =? 0)%nat))) as ->.
  { assert (o = 0%nat ↔ num = 0) by (unfold o; nia). destruct (Z.eqb_spec num 0); destruct (Nat.eqb_spec L 0);
      destruct (Nat.ltb_spec L o), (Nat.eqb_spec o L), (Nat.ltb_spec 0 L), (Nat.ltb_spec o L); simpl; try done; lia. }
  destruct ((o <? L)%nat || _); [|done]. cbn [negb].
  unfold BlockValue_new, SZX_BERT. rewrite (proj2 (Z.ltb_ge _ _)) by lia. by rewrite (proj2 (Z.ltb_ge _ _)) by lia.
Qed.

(** Random access to a response.  A Block2 request for any block of a body
    gets exactly that block: its bytes, and the more flag set when bytes remain;
    beyond the body there is a gap.  It is the block that an outgoing transfer
    of the same body and size issues. *)
Theorem block2_random_access (total : nat) (num szx : Z) (more : bool) t :
  0 ≤ szx ≤ 6 → 0 ≤ num ≤ NUM_MAX → bx_filled t = total → bx_szx t = szx →
  classic_block2_range total (mkBlock num more szx) =
    (if has_piece total szx num then
       let '(block, offset, len) := piece total szx num in Ok (block, (offset, (offset + len)%nat))
     else Err Gap) ∧
  outgoing_range t num = (if has_piece total szx num then Ok (piece total szx num) else Err Gap) ∧
  ∀ body : list Z, length body = total → has_piece total szx num = true →
    take (piece total szx num).1.2 body ++ take (piece total szx num).2 (drop (piece total szx num).1.2 body) =
      take ((Z.to_nat num + 1) * sz szx) body ∧
    (bv_more (piece total szx num).1.1 = false ↔ (total ≤ (Z.to_nat num + 1) * sz szx)%nat).
Proof.
  intros Hs Hn <- <-. split; [|split; [by apply outgoing_range_piece|]].
  - unfold classic_block2_range. rewrite not_bert by done. rewrite block_size_ok by done. simpl bv_szx. simpl bv_num.
    pose proof (block_offset_ok num (sz (bx_szx t)) Hn ltac:(apply sz_Z; done)) as Ho. unfold block_offset in Ho.
    rewrite Ho. unbind. pose proof (outgoing_range_piece t num Hs Hn) as Hr. unfold outgoing_range in Hr.
    rewrite size_from_szx_ok in Hr by done. unbind. cbn [map_err] in Hr. rewrite Nat2Z.id in Hr.
    rewrite block_offset_ok in Hr by (try done; apply sz_Z; done). cbn iota in Hr.
    set (L := bx_filled t) in *. set (o := (Z.to_nat num * sz (bx_szx t))%nat) in *.
    destruct ((L <? o)%nat || _) eqn:Eg; [by destruct (has_piece _ _ _)|].
    destruct (has_piece _ _ _); [|by destruct (BlockValue_new _ _ _)]. unfold piece. fold o.
    assert ((o + Nat.min (L - o) (sz (bx_szx t)) <? L)%nat = (sz (bx_szx t) <? L - o)%nat) as ->.
    { apply orb_false_iff in Eg as [Eg _]. bools. apply eq_true_iff_eq. rewrite !Nat.ltb_lt. lia. }
    unfold BlockValue_new, SZX_BERT. rewrite (proj2 (Z.ltb_ge _ _)) by lia. by rewrite (proj2 (Z.ltb_ge _ _)) by lia.
  - intros body Hb Hp. unfold piece. cbn [fst snd bv_more]. set (s := sz (bx_szx t)). rewrite Nat.mul_add_distr_r, Nat.mul_1_l.
    set (o := (Z.to_nat num * s)%nat). split.
    + rewrite take_take_drop. destruct (Nat.min_spec (bx_filled t - o) s) as [[? ->]|[? ->]]; [|done].
      rewrite !take_ge by lia. done.
    + rewrite Nat.ltb_ge. lia.
Qed.
End blocks.

(** ** One block of a classic transfer *)
Definition is_classic_out (r : BlockRole) : bool := is_outgoing r && negb (is_q_block r).
Definition is_classic_in (r : BlockRole) : bool := is_incoming r && negb (is_q_block r).

Section classic.
Context `{Target} {T : Type}.
Implicit Types t : BlockTransfer T.

(** A transfer that has sent, or received, the first [n] bytes. *)
Definition at_byte t (n : nat) : Prop :=
  bx_complete t = false ∧ bx_q t = None ∧ 0 ≤ bx_szx t ≤ 6 ∧ 0 ≤ bx_next_num t ∧
  (Z.to_nat (bx_next_num t) * sz (bx_szx t))%nat = n.

(** The largest body whose every block has a number at every size. *)
Definition BODY_MAX : Z := 2 ^ 24.

Lemma at_byte_num t n : at_byte t n → Z.of_nat n < BODY_MAX → 0 ≤ bx_next_num t ≤ NUM_MAX.
Proof.
  intros (_ & _ & Hs & Hn & He) Hl. pose proof (sz_Z _ Hs). unfold NUM_MAX, BODY_MAX in *. nia.
Qed.

Lemma issue_classic t n :
  at_byte t n → is_classic_out (bx_role t) = true → (n < bx_filled t ∨ n = 0)%nat → Z.of_nat (bx_filled t) ≤ BODY_MAX →
  ∃ t', issue_outgoing t = (t', Ok (piece (bx_filled t) (bx_szx t) (bx_next_num t))) ∧
    bx_filled t' = bx_filled t ∧ bx_szx t' = bx_szx t ∧
    (if (sz (bx_szx t) <? bx_filled t - n)%nat then at_byte t' (n + sz (bx_szx t)) else bx_complete t' = true).
Proof.
  intros Ha Hr Hn HL. pose proof Ha as (Hc & Hq & Hs & Hn0 & He). apply andb_true_iff in Hr as [Hr1 Hr2].
  apply negb_true_iff in Hr2.
  assert (0 ≤ bx_next_num t ≤ NUM_MAX) as Hnum.
  { apply (at_byte_num t n Ha). unfold BODY_MAX in *. lia. }
  unfold issue_outgoing. unbind. rewrite Hr1, Hr2, Hc. cbn [negb orb].
  unfold bx_is_bert, SZX_BERT. destruct (Z.eqb_spec (bx_szx t) 7); [lia|].
  unfold issue_range. unbind. rewrite Hq. cbn beta iota. rewrite outgoing_range_piece by done.
  assert (has_piece (bx_filled t) (bx_szx t) (bx_next_num t) = true) as ->.
  { unfold has_piece. rewrite He. destruct (Nat.ltb_spec n (bx_filled t)); [done|].
    pose proof (sz_pos _ Hs). assert (bx_next_num t = 0) as -> by nia. simpl. apply Nat.eqb_eq. lia. }
  unfold piece. rewrite He. cbn beta iota zeta. cbn [set_pos bx_next_num bv_more]. unfold checked_add, max_u.
  unfold NUM_MAX in Hnum. rewrite (proj2 (Z.leb_le _ _)) by lia. cbn [ok_or]. cbn beta iota.
  eexists. split; [done|]. cbn [set_pos bx_filled bx_szx bx_complete bx_q]. rewrite Hq, andb_false_r, orb_false_r.
  split_and!; [done..|]. destruct (sz (bx_szx t) <? bx_filled t - n)%nat; [|done].
  split_and!; cbn [set_pos bx_q bx_szx bx_next_num]; try done; lia.
Qed.

Lemma adopt_classic t n szx :
  at_byte t n → is_classic_out (bx_role t) = true → Z.of_nat n < BODY_MAX → 0 ≤ szx →
  ∃ t' r, adopt_smaller_szx szx t = (t', r) ∧ at_byte t' n ∧ bx_filled t' = bx_filled t ∧ ident t' = ident t ∧
    bx_szx t' = Z.min szx (bx_szx t).
Proof.
  intros Ha Hr Hn Hszx. pose proof Ha as (Hc & Hq & Hs & Hn0 & He). apply andb_true_iff in Hr as [Hr1 Hr2].
  apply negb_true_iff in Hr2. unfold adopt_smaller_szx. unbind. rewrite Hr1, Hr2, Hc. cbn [negb orb].
  unfold bx_is_bert, SZX_BERT. destruct (Z.eqb_spec (bx_szx t) 7); [lia|].
  destruct (Z.leb_spec (bx_szx t) szx); [exists t, (Err SzxMismatch); split_and!; try done; lia|].
  rewrite !size_from_szx_ok by lia. cbn [map_err]. cbn beta iota. rewrite !Nat2Z.id.
  rewrite block_offset_ok by (try apply sz_Z; try done; by apply (at_byte_num t n)). cbn beta iota. rewrite He.
  destruct (sz_divide szx (bx_szx t)) as [k Hk]; [lia|]. pose proof (sz_pos szx ltac:(lia)).
  assert (n = (Z.to_nat (bx_next_num t) * k) * sz szx)%nat as Hn'. { rewrite <- He, Hk. lia. }
  assert (n mod sz szx = 0 ∧ n / sz szx = Z.to_nat (bx_next_num t) * k)%nat as [-> Hdiv].
  { rewrite Hn'. by rewrite Nat.Div0.mod_mul, Nat.div_mul by lia. }
  rewrite Hdiv. cbn [negb Nat.eqb]. unfold u_try_from_usize, max_u.
  rewrite (proj2 (Z.leb_le _ _)); [cbn [ok_or]; cbn beta iota|].
  2: { unfold BODY_MAX in Hn. nia. }
  eexists _, _. split; [done|]. cbn. split_and!; try done; [|lia].
  split_and!; cbn; try done; [lia|lia|]. by rewrite Nat2Z.id.
Qed.

(** The receiver takes the block at its position, at its size or a smaller one. *)
Lemma accept_classic t n b len cap :
  at_byte t n → is_classic_in (bx_role t) = true → (bx_filled t = n) →
  0 ≤ bv_szx b ≤ bx_szx t → 0 ≤ bv_num b → (Z.to_nat (bv_num b) * sz (bv_szx b))%nat = n → Z.of_nat n < BODY_MAX →
  (if bv_more b then len = sz (bv_szx b) else (len ≤ sz (bv_szx b))%nat) → (n + len ≤ cap)%nat →
  ∃ t', accept_incoming b len cap t = (t', Ok n) ∧ bx_filled t' = (n + len)%nat ∧ ident t' = ident t ∧
    (if bv_more b then at_byte t' (n + len) ∧ bx_szx t' = bv_szx b else bx_complete t' = true).
Proof.
  intros Ha Hr Hf Hbs Hb0 Hbn Hn Hlen Hcap. pose proof Ha as (Hc & Hq & Hs & Hn0 & He).
  apply andb_true_iff in Hr as [Hr1 Hr2]. apply negb_true_iff in Hr2.
  pose proof (sz_Z (bv_szx b) ltac:(lia)) as Hz.
  assert (0 ≤ bv_num b ≤ NUM_MAX) as Hnum. { unfold NUM_MAX, BODY_MAX in *. nia. }
  assert (bv_szx b = bx_szx t → bv_num b = bx_next_num t) as Heq.
  { intros E. rewrite E in *. pose proof (sz_pos _ Hs). nia. }
  assert (∃ t1, adopt_incoming_szx b t = (t1, Ok tt) ∧ bx_next_num t1 = bv_num b ∧ bx_szx t1 = bv_szx b ∧
    bx_q t1 = None ∧ ident t1 = ident t) as (t1 & Hadopt & Hnn & Hszx & Hq1 & Hi1).
  { unfold adopt_incoming_szx. unbind. destruct (Z.eqb_spec (bv_szx b) (bx_szx t)); [exists t; by rewrite <- Heq by done|].
    unfold bx_is_bert, SZX_BERT. destruct (Z.eqb_spec (bx_szx t) 7); [lia|]. rewrite not_bert by lia. cbn [orb].
    rewrite (proj2 (Z.ltb_ge _ _)) by lia. rewrite block_size_ok by lia. rewrite block_offset_ok by (try done; lia).
    cbn beta iota. rewrite Hbn, Hf, Nat.eqb_refl. cbn [negb]. by eexists. }
  unfold accept_incoming. unbind. rewrite Hr1, Hr2, Hc. cbn [negb orb]. rewrite Hadopt. cbn beta iota.
  rewrite Hnn, Z.ltb_irrefl. rewrite not_bert by lia. rewrite block_size_ok by lia.
  assert ((if bv_more b then negb (len =? sz (bv_szx b))%nat else (sz (bv_szx b) <? len)%nat) = false) as ->.
  { destruct (bv_more b); [by rewrite (proj2 (Nat.eqb_eq _ _))|by apply Nat.ltb_ge]. }
  rewrite block_offset_ok by (try done; lia). cbn beta iota. rewrite Hbn.
  rewrite usize_add_le.
  2: { assert (len ≤ sz (bv_szx b))%nat by (destruct (bv_more b); lia). unfold BODY_MAX in Hn. lia. }
  cbn [ok_or]. cbn beta iota. rewrite (proj2 (Nat.ltb_ge _ _)) by done. unfold finish_position. unbind.
  unfold checked_add, max_u. unfold NUM_MAX in Hnum. rewrite (proj2 (Z.leb_le _ _)) by lia. cbn [ok_or]. cbn beta iota.
  eexists. split; [done|]. cbn. split; [done|]. split; [exact Hi1|]. destruct (bv_more b); [|done].
  split; [|done]. subst len. split_and!; cbn; try done; rewrite ?Hszx; lia.
Qed.
End classic.

(** ** A body from one pool to the other

    One turn of a classic transfer: the sender may first adopt a size its peer
    asked for, then issues the next block from its slot [i], and the receiver
    applies it. *)
Section end_to_end.
Context `{Target} {T P Q : Type} `{EqDecision T} `{BodyLaws T P} `{BodyLaws T Q}.
Implicit Types (p : P) (q : Q) (key : BlockKey T).

Definition turn (i : SlotId) key (rout rin : BlockRole) (want : option Z) : st (P * Q) BlockTransferError BlockProgress :=
  fun '(p, q) =>
    let p := match want with Some szx => (adopt_smaller_outgoing_szx i rout szx p).1 | None => p end in
    match next_outgoing i rout p with
    | (p, Ok out) =>
        match body_payload p i with
        | Ok (Some bytes) =>
            let '(q, r) := apply_incoming key rin (ob_block out)
                             (take (ob_out_len out) (drop (ob_offset out) bytes)) None q in
            ((p, q), r)
        | Ok None => ((p, q), Err NoTransfer)
        | Err e => ((p, q), Err e)
        | Panic => ((p, q), Panic)
        | Diverge => ((p, q), Diverge)
        end
    | (p, Err e) => ((p, q), Err e)
    | (p, Panic) => ((p, q), Panic)
    | (p, Diverge) => ((p, q), Diverge)
    end.

(** Turns until the receiver has the whole body; [Ok None] when it does not. *)
Fixpoint turns (i : SlotId) key rout rin (wants : list (option Z)) : st (P * Q) BlockTransferError (option BlockProgress) :=
  match wants with
  | [] => mret None
  | want :: wants =>
      progress ← turn i key rout rin want;
      if bp_complete progress then mret (Some progress) else turns i key rout rin wants
  end.

(** The sender after [n] bytes, with a size of at most [szx]. *)
Definition sending p i (body : list Z) (rout : BlockRole) (szx : Z) (n : nat) : Prop :=
  ∃ s t, holds p i s ∧ bs_transfer s = Some t ∧ static_body t = None ∧ bx_role t = rout ∧ at_byte t n ∧
    bx_filled t = length body ∧ bs_len s = length body ∧ take (length body) (bs_buf s) = body ∧
    bx_szx t ≤ szx.

(** The receiver after [n] bytes, in slot [j], with a size of at least [szx]. *)
Definition receiving q j (body : list Z) key (rin : BlockRole) (szx : Z) (n : nat) : Prop :=
  ∃ s t, holds q j s ∧ bs_transfer s = Some t ∧ static_body t = None ∧ bx_role t = rin ∧ at_byte t n ∧
    bx_filled t = n ∧ bs_len s = n ∧ take n (bs_buf s) = take n body ∧ body_lookup_role q key rin = Some j ∧
    szx ≤ bx_szx t ∧ (length body ≤ bc_bytes q)%nat.

Lemma sending_turn p i body rout z n want :
  sending p i body rout z n → is_classic_out rout = true → (n < length body ∨ n = 0)%nat →
  Z.of_nat (length body) ≤ BODY_MAX → (∀ w, want = Some w → 0 ≤ w) →
  let p1 := match want with Some szx => (adopt_smaller_outgoing_szx i rout szx p).1 | None => p end in
  ∃ p2 szx num, 0 ≤ szx ≤ 6 ∧ szx ≤ z ∧ 0 ≤ num ∧ (Z.to_nat num * sz szx)%nat = n ∧
    let more := (sz szx <? length body - n)%nat in
    next_outgoing i rout p1 =
      (p2, Ok (mkOutgoing i (mkBlock num more szx) n (Nat.min (length body - n) (sz szx)) (negb more))) ∧
    body_payload (E:=BlockTransferError) p2 i = Ok (Some body) ∧
    (if more then sending p2 i body rout szx (n + sz szx)
     else ∃ t, body_transfer p2 i = Some t ∧ bx_complete t = true).
Proof.
  intros (s & t & Hh & Ht & Hst & Hr & Ha & Hf & Hl & Hb & Hz) Hc Hn HL Hw p1.
  assert (Z.of_nat n < BODY_MAX) as HnB. { unfold BODY_MAX in *. lia. }
  (* after the size change *)
  assert (∃ t1, holds p1 i (mkBody (bs_buf s) (bs_len s) (Some t1)) ∧ static_body t1 = None ∧ bx_role t1 = rout ∧
    at_byte t1 n ∧ bx_filled t1 = length body ∧ bx_szx t1 ≤ bx_szx t) as (t1 & Hh1 & Hst1 & Hr1 & Ha1 & Hf1 & Hsz1).
  { destruct want as [w|]; [|exists t; split_and!; try done; by destruct s; simplify_eq/=].
    destruct (adopt_classic t n w Ha) as (t1 & r & Had & Ha1 & Hf1 & Hi & Hmin); [by rewrite Hr|done|by apply Hw|].
    destruct (occupied_transfer_ok p i s t t1 rout _ r Hh Ht Hr Had) as (q & Hq & Hu).
    unfold p1, adopt_smaller_outgoing_szx. rewrite Hq. exists t1. destruct (static_ident _ _ Hi) as (_ & _ & _ & ->).
    split_and!; try done; [by apply (holds_upd p q i s)|unfold ident in Hi; congruence|congruence|lia]. }
  pose proof Ha1 as (_ & _ & Hs6 & Hn0 & He).
  destruct (issue_classic t1 n Ha1) as (t2 & His & Hf2 & Hz2 & Hend); [by rewrite Hr1|lia..|].
  unfold piece in His. rewrite He, Hf1 in His.
  destruct (issued_ok p1 i _ t1 t2 rout issue_outgoing _ _ _ Hh1 eq_refl Hr1 His) as (p2 & Hp2 & Hu2).
  pose proof (holds_upd _ _ _ _ _ Hh1 Hu2) as Hh2. cbn [bs_buf bs_len] in Hh2.
  pose proof (keeps_ident issue_outgoing t1 t2 _ ltac:(auto with kept) His) as Hi2.
  destruct (static_ident _ _ Hi2) as (_ & _ & _ & Hst2). rewrite Hst1 in Hst2. rewrite Hf1 in Hend.
  exists p2, (bx_szx t1), (bx_next_num t1). cbn zeta.
  assert (bx_complete t2 = negb (sz (bx_szx t1) <? length body - n)%nat) as Hco.
  { destruct (_ <? _)%nat; [by destruct Hend as (? & _)|done]. }
  assert (is_q_block rout = false) as Hnq.
  { apply andb_true_iff in Hc as [_ Hc]. by apply negb_true_iff in Hc. }
  split_and!; try done; try lia.
  - unfold next_outgoing. rewrite Hnq, Hp2, Hco. done.
  - rewrite (body_payload_at p2 i _ Hh2); cbn [bs_transfer bs_len bs_buf]; [by rewrite Hl, Hb|done|].
    rewrite Hl, <- Hb at 1. rewrite length_take. lia.
  - destruct (_ <? _)%nat.
    + exists (mkBody (bs_buf s) (bs_len s) (Some t2)), t2. unfold ident in Hi2.
      split_and!; try done; [congruence..|]. by rewrite Hz2.
    + exists (without_static_body t2). rewrite (body_transfer_at p2 i _ t2 Hh2 eq_refl).
      by destruct (without_static_key t2) as (_ & _ & _ & _ & ->).
Qed.

(** The receiver's next block. *)
Lemma receiving_turn q j body key rin z n szx num :
  receiving q j body key rin z n → is_classic_in rin = true → (n < length body)%nat →
  Z.of_nat (length body) ≤ BODY_MAX → 0 ≤ szx ≤ z → 0 ≤ num → (Z.to_nat num * sz szx)%nat = n →
  let more := (sz szx <? length body - n)%nat in
  let len := Nat.min (length body - n) (sz szx) in
  ∃ q2, apply_incoming key rin (mkBlock num more szx) (take len (drop n body)) None q =
      (q2, Ok (mkProgress j (n + len) (negb more))) ∧
    (if more then receiving q2 j body key rin szx (n + sz szx)
     else body_payload (E:=BlockTransferError) q2 j = Ok (Some body)).
Proof.
  intros (s & t & Hh & Ht & Hst & Hr & Ha & Hf & Hl & Hb & Hlk & Hz & Hcap) Hc Hn HL Hszx Hnum He more len.
  pose proof Ha as (_ & _ & Hs6 & _). assert (length (take len (drop n body)) = len) as Hlen.
  { rewrite length_take, length_drop. lia. }
  assert (is_q_block rin = false) as Hnq.
  { apply andb_true_iff in Hc as [_ Hc']. by apply negb_true_iff in Hc'. }
  assert (n + len = if more then n + sz szx else length body)%nat as Hend.
  { unfold more, len. destruct (Nat.ltb_spec (sz szx) (length body - n)); lia. }
  destruct (accept_classic t n (mkBlock num more szx) len (bc_bytes q) Ha) as (t2 & Hacc & Hf2 & Hi2 & Hpos);
    cbn [bv_szx bv_num bv_more]; [by rewrite Hr|done|lia|done|done|unfold BODY_MAX in *; lia| |lia|].
  { unfold more, len. destruct (Nat.ltb_spec (sz szx) (length body - n)); lia. }
  rewrite (apply_incoming_known q j s t) by (try done; by rewrite Hnq).
  assert (accept_incoming_role (mkBlock num more szx) (length (take len (drop n body))) (bc_bytes q) t = (t2, Ok n)) as Hrole.
  { unfold accept_incoming_role. unbind. by rewrite Hr, Hnq, Hlen. }
  destruct (write_incoming_ok q j s t t2 rin _ _ n Hh Ht Hr Hrole) as (q2 & -> & Hu); [lia| |].
  { pose proof usize_max_ge. unfold BODY_MAX in HL. lia. }
  pose proof (holds_upd _ _ _ _ _ Hh Hu) as Hh2. unfold stored_len in Hh2. rewrite Hnq, Hlen in Hh2.
  pose proof Hh as (Hq & _ & Hs). pose proof (bl_bytes _ _ _ Hq Hs) as Hbuf.
  assert (take (n + len) (splice (bs_buf s) n (take len (drop n body))) = take (n + len) body) as Htake.
  { rewrite <- Hlen at 1. rewrite take_splice by lia. by rewrite Hb, take_take_drop. }
  destruct (static_ident _ _ Hi2) as (_ & _ & _ & Hst2). rewrite Hst in Hst2.
  assert (bx_complete t2 = negb more) as Hco by (cbn [bv_more] in Hpos; destruct more; [by destruct Hpos as ((? & _) & _)|done]).
  exists q2. split; [by rewrite Hf2, Hco|]. destruct more; cbn [bv_more bv_szx] in Hpos.
  - destruct Hpos as [Ha2 Hz2]. rewrite <- Hend. eexists _, t2. split_and!; try done.
    + unfold ident in Hi2. congruence.
    + rewrite <- Hlk. by apply (lookup_role_upd q q2 j s t t2 _ _ _ _ Hh Ht Hu).
    + lia.
    + destruct Hu as (_ & (_ & _ & ->) & _). done.
  - rewrite (body_payload_at q2 j _ Hh2); cbn [bs_transfer bs_len bs_buf].
    + rewrite Htake, Hend. by rewrite take_ge by lia.
    + done.
    + rewrite length_splice; lia.
Qed.

(** The receiver's first block. *)
Lemma receiving_first q body key rin szx :
  bl_inv q → body_lookup_role q key rin = None → body_lookup_identity q key rin = None →
  (∃ j, (j < bc_slots q)%nat ∧ body_occupied q j = false) → is_classic_in rin = true →
  (length body ≤ bc_bytes q)%nat → Z.of_nat (length body) ≤ BODY_MAX → 0 ≤ szx ≤ 6 →
  let more := (sz szx <? length body)%nat in
  let len := Nat.min (length body) (sz szx) in
  ∃ q2 j, apply_incoming key rin (mkBlock 0 more szx) (take len body) None q =
      (q2, Ok (mkProgress j len (negb more))) ∧
    (if more then receiving q2 j body key rin szx (sz szx)
     else body_payload (E:=BlockTransferError) q2 j = Ok (Some body)).
Proof.
  intros Hq Hl1 Hl2 Hfree Hc Hcap HL Hszx more len.
  assert (length (take len body) = len) as Hlen by (rewrite length_take; lia).
  pose proof Hc as Hc'. apply andb_true_iff in Hc' as [Hin Hnq]. apply negb_true_iff in Hnq.
  set (t0 := fresh_transfer key rin szx more 0 None None).
  destruct (accept_classic t0 0 (mkBlock 0 more szx) len (bc_bytes q)) as (t & Hacc & Hf & Hi & Hpos);
    cbn [bv_szx bv_num bv_more]; [split_and!; cbn; try done; lia|done|done|cbn; lia|done|done|done| |lia|].
  { unfold more, len. destruct (Nat.ltb_spec (sz szx) (length body)); lia. }
  assert (start_incoming key rin (mkBlock 0 more szx) (length (take len body)) (bc_bytes q) None = Ok t) as Hst.
  { unfold start_incoming, incoming. rewrite Hnq, Hin, Hlen. cbn [negb orb bv_num bv_szx bv_more Z.eqb].
    unfold started. fold t0. by rewrite Hacc. }
  destruct (static_ident _ _ Hi) as (_ & _ & _ & Hs0).
  destruct (apply_incoming_first q key rin _ _ _ t 0 Hq Hl1 Hl2 Hfree Hst) as
    (q2 & j & buf & Hap & Hh & Hbuf & Hbytes & Hlk & _); try done.
  { unfold ident in Hi. simplify_eq/=. congruence. }
  { unfold ident in Hi. simplify_eq/=. congruence. }
  { by rewrite Hnq. }
  { lia. }
  { pose proof usize_max_ge. unfold BODY_MAX in HL. lia. }
  unfold stored_len in Hh. rewrite Hnq, Hlen in Hh. cbn [Nat.add] in *.
  assert (take len (splice buf 0 (take len body)) = take len body) as Htake.
  { rewrite <- Hlen at 1. change (length (take len body)) with (0 + length (take len body))%nat. rewrite take_splice by lia. done. }
  assert (bx_complete t = negb more) as Hco by (cbn [bv_more] in Hpos; destruct more; [by destruct Hpos as ((? & _) & _)|done]).
  exists q2, j. rewrite Hap, Hf, Hco. split; [done|]. destruct more eqn:Em; cbn [bv_more bv_szx] in Hpos; unfold more in Em; bools.
  - destruct Hpos as [Ha2 Hz2]. assert (sz szx = len) as -> by lia. eexists _, t. split_and!; try done.
    + unfold ident in Hi. simplify_eq/=. congruence.
    + lia.
    + lia.
  - rewrite (body_payload_at q2 j _ Hh); cbn [bs_transfer bs_len bs_buf]; [|done|rewrite length_splice; lia].
    rewrite Htake. by rewrite take_ge by lia.
Qed.

(** The turns after the first. *)
Lemma turns_rest p q i j body key rout rin z n wants :
  sending p i body rout z n → receiving q j body key rin z n → is_classic_out rout = true → is_classic_in rin = true →
  (n < length body)%nat → Z.of_nat (length body) ≤ BODY_MAX → Forall (fun w => ∀ szx, w = Some szx → 0 ≤ szx) wants →
  (length body - n ≤ 16 * length wants)%nat →
  ∃ p' q' t, turns i key rout rin wants (p, q) = ((p', q'), Ok (Some (mkProgress j (length body) true))) ∧
    body_payload (E:=BlockTransferError) q' j = Ok (Some body) ∧ body_transfer p' i = Some t ∧ bx_complete t = true.
Proof.
  intros Hp Hq Hro Hri Hn HL Hw. revert p q z n Hp Hq Hn. induction Hw as [|w wants Hw Hws IH]; intros p q z n Hp Hq Hn Hlen.
  { simpl in Hlen. lia. }
  destruct (sending_turn p i body rout z n w Hp Hro) as (p2 & szx & num & Hs & Hz & Hnum & He & Hnext & Hpay & Hpost);
    [lia|done|done|]. cbn zeta in Hnext, Hpost.
  destruct (receiving_turn q j body key rin z n szx num Hq Hri Hn HL) as (q2 & Hap & Hrpost); [lia|done|done|].
  cbn [turns]. unfold turn at 1. unbind. rewrite Hnext, Hpay. cbn [ob_block ob_out_len ob_offset]. rewrite Hap.
  cbn [bp_complete]. destruct (sz szx <? length body - n)%nat eqn:Em; cbn [negb]; cbn iota; bools.
  - apply (IH p2 q2 szx (n + sz szx)%nat Hpost Hrpost); [lia|]. pose proof (sz_Z szx Hs). simpl in Hlen. lia.
  - destruct Hpost as (t & Ht & Hco). exists p2, q2, t. split_and!; try done.
    replace (n + Nat.min (length body - n) (sz szx))%nat with (length body) by lia. done.
Qed.

Lemma turns_all p q i body key rout rin z wants :
  sending p i body rout z 0 → bl_inv q → body_lookup_role q key rin = None → body_lookup_identity q key rin = None →
  (∃ j, (j < bc_slots q)%nat ∧ body_occupied q j = false) → (length body ≤ bc_bytes q)%nat →
  is_classic_out rout = true → is_classic_in rin = true → Z.of_nat (length body) ≤ BODY_MAX →
  Forall (fun w => ∀ szx, w = Some szx → 0 ≤ szx) wants → (length body < 16 * length wants)%nat →
  ∃ p' q' j t, turns i key rout rin wants (p, q) = ((p', q'), Ok (Some (mkProgress j (length body) true))) ∧
    body_payload (E:=BlockTransferError) q' j = Ok (Some body) ∧ body_transfer p' i = Some t ∧ bx_complete t = true.
Proof.
  intros Hp Hq Hl1 Hl2 Hfree Hcap Hro Hri HL Hw Hlen. destruct Hw as [|w wants Hw Hws]; [simpl in Hlen; lia|].
  destruct (sending_turn p i body rout z 0 w Hp Hro) as (p2 & szx & num & Hs & Hz & Hnum & He & Hnext & Hpay & Hpost);
    [lia|done|done|]. cbn zeta in Hnext, Hpost. rewrite Nat.sub_0_r in *.
  assert (num = 0) as -> by (pose proof (sz_pos szx Hs); nia).
  destruct (receiving_first q body key rin szx Hq Hl1 Hl2 Hfree Hri Hcap HL Hs) as (q2 & j & Hap & Hrpost).
  cbn [turns]. unfold turn at 1. unbind. rewrite Hnext, Hpay. cbn [ob_block ob_out_len ob_offset]. rewrite drop_0, Hap.
  cbn [bp_complete]. destruct (sz szx <? length body)%nat eqn:Em; cbn [negb]; cbn iota; bools.
  - destruct (turns_rest p2 q2 i j body key rout rin szx (sz szx) wants Hpost Hrpost Hro Hri) as (p' & q' & t & Ht);
      [lia|done|done| |by exists p', q', j, t]. pose proof (sz_Z szx Hs). simpl in Hlen. lia.
  - destruct Hpost as (t & Ht & Hco). exists p2, q2, j, t. split_and!; try done.
    by rewrite Nat.min_l by lia.
Qed.

(** C3: a classic transfer delivers.  A body of up to 2^24 bytes placed in one
    pool arrives whole in the other, whatever mix of the compile-time and heap
    pools is used and whichever smaller block sizes the peer asks for on the
    way, within one turn per 16 bytes and one more; both sides then know that
    it is complete. *)
Theorem block_transfer_delivers p q body key peer rout rin szx wants :
  bl_inv p → (∃ j, (j < bc_slots p)%nat ∧ body_occupied p j = false) → (length body ≤ bc_bytes p)%nat →
  bl_inv q → (∃ j, (j < bc_slots q)%nat ∧ body_occupied q j = false) → (length body ≤ bc_bytes q)%nat →
  body_lookup_role q peer rin = None → body_lookup_identity q peer rin = None →
  is_classic_out rout = true → is_classic_in rin = true → 0 ≤ szx ≤ 6 → Z.of_nat (length body) ≤ BODY_MAX →
  Forall (fun w => ∀ s, w = Some s → 0 ≤ s) wants → (length body < 16 * length wants)%nat →
  ∃ p1 i, start_outgoing key rout body szx p = (p1, Ok i) ∧
  ∃ p2 q2 j t, turns i peer rout rin wants (p1, q) = ((p2, q2), Ok (Some (mkProgress j (length body) true))) ∧
    body_payload (E:=BlockTransferError) q2 j = Ok (Some body) ∧ body_transfer p2 i = Some t ∧ bx_complete t = true.
Proof.
  intros Hp Hpf Hpc Hq Hqf Hqc Hl1 Hl2 Hro Hri Hs HL Hw Hlen. pose proof usize_max_ge as Hu.
  assert (Z.of_nat (length body) ≤ 2 ^ 24) as HL' by exact HL.
  pose proof Hro as Hro'. apply andb_true_iff in Hro' as [Ho Hnq]. apply negb_true_iff in Hnq.
  destruct (start_outgoing_ok p key rout body szx
    (fresh_transfer key rout szx false (length body) (Some (Z.of_nat (length body))) None) Hp Hpf) as
    (p1 & i & buf & Hst & Hh & Hbuf & _); [|done|lia|].
  { unfold new_outgoing, outgoing, outgoing_common. rewrite Hnq, Ho. cbn [negb orb]. rewrite size_from_szx_ok by done. unbind.
    cbn [map_err]. rewrite (proj2 (Nat.ltb_ge _ _)) by done. unfold u_try_from_usize, max_u.
    by rewrite (proj2 (Z.leb_le _ _)) by lia. }
  exists p1, i. split; [done|]. apply (turns_all p1 q i body peer rout rin szx wants); try done.
  eexists _, _. split_and!; [exact Hh|done..| |]; cbn [bs_buf bx_szx fresh_transfer]; [|done].
  change (length body) with (0 + length body)%nat at 1. by rewrite take_splice by lia.
Qed.
End end_to_end.

(** ** A refused block is not always without effect *)
Section refused.
Context `{Target} {T : Type}.
Implicit Types t : BlockTransfer T.

(** C38: a refused block can end a transfer.  A block of a smaller size at the
    right offset but with a payload of the wrong length is refused, yet the
    smaller size stays adopted; every later block of the size in use is then
    refused as well. *)
Theorem refused_shrink_sticks t n b len cap b' len' :
  at_byte t n → is_classic_in (bx_role t) = true → bx_filled t = n → Z.of_nat n < BODY_MAX →
  0 ≤ bv_szx b < bx_szx t → 0 ≤ bv_num b → (Z.to_nat (bv_num b) * sz (bv_szx b))%nat = n →
  (if bv_more b then len ≠ sz (bv_szx b) else (sz (bv_szx b) < len)%nat) →
  bv_szx b' = bx_szx t →
  ∃ t', accept_incoming b len cap t = (t', Err PayloadLength) ∧ t' ≠ t ∧
    accept_incoming b' len' cap t' = (t', Err SzxMismatch).
Proof.
  intros (Hc & Hq & Hs & Hn0 & He) Hr Hf Hn Hbs Hb0 Hbn Hlen Hb'. apply andb_true_iff in Hr as [Hr1 Hr2].
  apply negb_true_iff in Hr2. pose proof (sz_Z (bv_szx b) ltac:(lia)) as Hz.
  assert (0 ≤ bv_num b ≤ NUM_MAX) as Hnum. { unfold NUM_MAX, BODY_MAX in *. nia. }
  exists (set_szx t (bv_szx b) (bv_num b)). split_and!.
  - unfold accept_incoming, adopt_incoming_szx. unbind. rewrite Hr1, Hr2, Hc. cbn [negb orb].
    destruct (Z.eqb_spec (bv_szx b) (bx_szx t)); [lia|]. unfold bx_is_bert, SZX_BERT.
    destruct (Z.eqb_spec (bx_szx t) 7); [lia|]. rewrite not_bert by lia. cbn [orb]. rewrite (proj2 (Z.ltb_ge _ _)) by lia.
    rewrite block_size_ok, block_offset_ok by (try done; lia). cbn beta iota. rewrite Hbn, Hf, Nat.eqb_refl. cbn [negb].
    cbn [set_szx bx_next_num]. rewrite Z.ltb_irrefl.
    assert ((if bv_more b then negb (len =? sz (bv_szx b))%nat else (sz (bv_szx b) <? len)%nat) = true) as ->; [|done].
    destruct (bv_more b); [by rewrite (proj2 (Nat.eqb_neq _ _))|by apply Nat.ltb_lt].
  - intros Ht. apply (f_equal bx_szx) in Ht. cbn in Ht. lia.
  - unfold accept_incoming, adopt_incoming_szx. unbind. cbn [set_szx bx_role bx_complete bx_szx].
    rewrite Hr1, Hr2, Hc, Hb'. cbn [negb orb]. change (bx_szx (set_szx _ _ _)) with (bv_szx b).
    destruct (Z.eqb_spec (bx_szx t) (bv_szx b)); [lia|].
    rewrite (proj2 (Z.ltb_lt (bv_szx b) (bx_szx t))) by lia. by rewrite orb_true_r.
Qed.
End refused.

(** ** Witnesses *)
Definition ex_block_peer : Endpoint := mkEndpoint (replicate 16 1) 0 0 5683 true.
Definition ex_block_key : BlockKey nat := BlockKey_new 7%nat ex_block_peer.
Definition ex_block_body : list Z := Z.of_nat <$> seq 0 200.

Lemma block2_random_access_witness :
  classic_block2_range (H:=target64) 100 (mkBlock 1 false 2) = Ok (mkBlock 1 false 2, (64%nat, 100%nat)).
Proof.
  destruct (block2_random_access (H:=target64) (T:=nat) 100 1 2 false
    (fresh_transfer ex_block_key OutgoingBlock2 2 false 100 None None)) as [Hr _].
  - lia.
  - unfold NUM_MAX. lia.
  - reflexivity.
  - reflexivity.
  - exact Hr.
Defined.

(** A body in a compile-time pool sent to a heap pool. *)
Lemma block_transfer_delivers_witness :
  ∃ p1 i, start_outgoing (H:=target64) ex_block_key OutgoingBlock1 ex_block_body 2 (BodyPool_new 2 256 nat) = (p1, Ok i) ∧
  ∃ p2 q2 j t,
    turns (H:=target64) i ex_block_key OutgoingBlock1 IncomingBlock1 (replicate 13 (Some 0)) (p1, AllocBodyPool_new 3 300 nat) =
      ((p2, q2), Ok (Some (mkProgress j 200 true))) ∧
    body_payload (E:=BlockTransferError) q2 j = Ok (Some ex_block_body) ∧ body_transfer p2 i = Some t ∧ bx_complete t = true.
Proof.
  apply (block_transfer_delivers (H:=target64) (BodyPool_new 2 256 nat) (AllocBodyPool_new 3 300 nat) ex_block_body).
  - apply BodyPool_new_inv.
  - exists 0%nat. split; [simpl; lia|reflexivity].
  - simpl. lia.
  - apply AllocBodyPool_new_inv.
  - exists 0%nat. split; [simpl; lia|reflexivity].
  - simpl. lia.
  - reflexivity.
  - reflexivity.
  - reflexivity.
  - reflexivity.
  - lia.
  - unfold BODY_MAX. simpl. lia.
  - apply Forall_replicate. intros s [= <-]. lia.
  - simpl. lia.
Defined.

(** Block 0 of 64 bytes is in; a 3-byte block of size 16 follows. *)
Definition ex_in : BlockTransfer nat :=
  mkTransfer ex_block_key IncomingBlock1 0 2 true 1 64 false None None RNone None None None.

Lemma refused_shrink_sticks_witness :
  ∃ t', accept_incoming (H:=target64) (mkBlock 4 true 0) 3 256 ex_in = (t', Err PayloadLength) ∧ t' ≠ ex_in ∧
    accept_incoming (H:=target64) (mkBlock 1 true 2) 64 256 t' = (t', Err SzxMismatch).
Proof.
  apply (refused_shrink_sticks (H:=target64) ex_in 64 (mkBlock 4 true 0) 3 256 (mkBlock 1 true 2) 64).
  - unfold at_byte. simpl. split_and!; try reflexivity; lia.
  - reflexivity.
  - reflexivity.
  - unfold BODY_MAX. lia.
  - simpl. lia.
  - simpl. lia.
  - reflexivity.
  - cbn. intros [=].
  - reflexivity.
Defined.
