(* ===== verification/QBlock.v ===== *)
(** * Q-Block reception

    Theorems about [BlockTransfer::accept_q_incoming] and its window
    ([src/storage/block.rs]): blocks that arrive in any order, the reference
    receiver that only keeps the set of received numbers, and the holes
    reported for recovery. *)
From S2P Require Import Prelude Errors MsgTypes Options Encode OptionValues Pending Occupancy DatagramPool Block.
From S2P Require Import BlockFrame BodyPool BodyLaws BlockClassic.

(** ** Masks *)
Lemma trailing_ones_spec (w : nat) (m : Z) :
  0 ≤ m →
  0 ≤ trailing_ones w m ≤ Z.of_nat w ∧ (∀ i, 0 ≤ i < trailing_ones w m → Z.testbit m i = true) ∧
  (trailing_ones w m < Z.of_nat w → Z.testbit m (trailing_ones w m) = false).
Proof.
  revert m. induction w as [|w IH]; intros m Hm; cbn [trailing_ones]; [split_and!; lia|].
  destruct (Z.odd m) eqn:Eo.
  - destruct (IH (m / 2)) as (Hb & Hi & Hn); [apply Z.div_pos; lia|]. split_and!; [lia|lia| |].
    + intros i Hlt. destruct (Z.eq_dec i 0) as [->|]; [by rewrite Z.bit0_odd|].
      replace i with (Z.succ (i - 1)) by lia. rewrite <- Z.div2_bits by lia. apply Hi. lia.
    + intros Hlt. replace (1 + trailing_ones w (m / 2)) with (Z.succ (trailing_ones w (m / 2))) by lia.
      rewrite <- Z.div2_bits by lia. apply Hn. lia.
  - split_and!; [lia|lia|lia|]. intros _. by rewrite Z.bit0_odd.
Qed.

Lemma shl_bit (i : Z) : 0 ≤ i < 16 → shl 16 1 i = 2 ^ i.
Proof.
  intros Hi. unfold shl. rewrite Z.shiftl_1_l. apply wrap_small. split; [lia|]. apply Z.pow_lt_mono_r; lia.
Qed.

Lemma mask_test (m i : Z) : 0 ≤ i < 16 → (Z.land m (shl 16 1 i) =? 0) = negb (Z.testbit m i).
Proof.
  intros Hi. rewrite shl_bit by done. destruct (Z.testbit m i) eqn:Eb; cbn.
  - apply Z.eqb_neq. intros He. apply (f_equal (fun x => Z.testbit x i)) in He.
    by rewrite Z.land_spec, Eb, Z.pow2_bits_true, Z.bits_0 in He by lia.
  - apply Z.eqb_eq, Z.bits_inj'. intros n Hn. rewrite Z.land_spec, Z.bits_0, Z.pow2_bits_eqb by lia.
    destruct (Z.eqb_spec i n) as [->|]; [by rewrite Eb|apply andb_false_r].
Qed.

Lemma mask_set (m i j : Z) : 0 ≤ i < 16 → 0 ≤ j → Z.testbit (Z.lor m (shl 16 1 i)) j = Z.testbit m j || (i =? j).
Proof. intros Hi Hj. by rewrite shl_bit, Z.lor_spec, Z.pow2_bits_eqb by lia. Qed.

(** A value below a power of two, by its bits. *)
Lemma below_pow2 (m k : Z) : 0 ≤ k → 0 ≤ m → (∀ i, k ≤ i → Z.testbit m i = false) → m < 2 ^ k.
Proof.
  intros Hk Hm Hb. assert (m = m mod 2 ^ k) as ->; [|apply Z.mod_pos_bound; lia].
  apply Z.bits_inj'. intros i Hi. destruct (Z.ltb_spec i k); [by rewrite Z.mod_pow2_bits_low|].
  by rewrite Z.mod_pow2_bits_high, Hb by lia.
Qed.

Lemma bits_above (m k i : Z) : 0 ≤ m < 2 ^ k → k ≤ i → Z.testbit m i = false.
Proof. intros Hm Hi. destruct (Z.eq_dec m 0) as [->|]; [apply Z.bits_0|]. apply Z.bits_above_log2; [lia|].
  apply Z.log2_lt_pow2; [lia|]. eapply Z.lt_le_trans; [apply Hm|]. apply Z.pow_le_mono_r; [lia|done].
Qed.

Lemma window_full_eq : window_full = 1023.
Proof. reflexivity. Qed.

Lemma mask_full (m : Z) : 0 ≤ m < 1024 → m = window_full ↔ ∀ i, 0 ≤ i < 10 → Z.testbit m i = true.
Proof.
  intros Hm. rewrite window_full_eq. change 1023 with (Z.ones 10). split.
  - intros -> i Hi. by apply Z.ones_spec_low.
  - intros Hb. apply Z.bits_inj'. intros i Hi. destruct (Z.ltb_spec i 10).
    + by rewrite Hb, Z.ones_spec_low by lia.
    + rewrite Z.ones_spec_high by lia. apply (bits_above m 10); [done|lia].
Qed.

(** ** The numbers of a body *)

(** The number of the last block. *)
Definition last_num (L : nat) (szx : Z) : Z := Z.of_nat ((L - 1) / sz szx).

Lemma last_num_bounds (L : nat) (szx : Z) :
  0 ≤ szx ≤ 6 → (Z.to_nat (last_num L szx) * sz szx ≤ L - 1 < (Z.to_nat (last_num L szx) + 1) * sz szx)%nat.
Proof.
  intros Hs. pose proof (sz_pos _ Hs). unfold last_num. rewrite Nat2Z.id.
  pose proof (Nat.div_mod (L - 1) (sz szx) ltac:(lia)). pose proof (Nat.mod_upper_bound (L - 1) (sz szx) ltac:(lia)). nia.
Qed.

Lemma has_piece_last (L : nat) (szx num : Z) : 0 ≤ szx ≤ 6 → 0 ≤ num → has_piece L szx num = (num <=? last_num L szx).
Proof.
  intros Hs Hn. pose proof (last_num_bounds L szx Hs) as [H1 H2]. pose proof (sz_pos _ Hs). unfold has_piece.
  assert (0 ≤ last_num L szx) by (unfold last_num; lia).
  destruct (Z.leb_spec num (last_num L szx)); destruct (Nat.ltb_spec (Z.to_nat num * sz szx) L); cbn [orb]; try done.
  - assert (L = 0)%nat as -> by nia. unfold last_num in *. rewrite Nat.Div0.div_0_l in *. by assert (num = 0) as -> by lia.
  - nia.
  - destruct (Z.eqb_spec num 0); [lia|done].
Qed.

Lemma piece_more_last (L : nat) (szx num : Z) :
  0 ≤ szx ≤ 6 → 0 ≤ num ≤ last_num L szx → (sz szx <? L - Z.to_nat num * sz szx)%nat = (num <? last_num L szx).
Proof.
  intros Hs Hn. pose proof (last_num_bounds L szx Hs) as [H1 H2]. pose proof (sz_pos _ Hs).
  destruct (Z.ltb_spec num (last_num L szx)); [apply Nat.ltb_lt|apply Nat.ltb_ge]; nia.
Qed.

Lemma last_num_max (L : nat) (szx : Z) : 0 ≤ szx ≤ 6 → Z.of_nat L ≤ BODY_MAX → last_num L szx ≤ NUM_MAX.
Proof.
  intros Hs HL. pose proof (last_num_bounds L szx Hs) as [H1 _]. pose proof (sz_Z _ Hs). unfold BODY_MAX, NUM_MAX in *. nia.
Qed.

(** ** The reference receiver

    It keeps the received numbers; its window is the aligned group of ten that
    holds the first missing number. *)
Definition q_received (R : list Z) (num : Z) : bool := bool_decide (num ∈ R).
Definition first_missing (R : list Z) (last : Z) : option Z :=
  find_map (fun num => if q_received R num then None else Some num) (seqZ 0 (last + 1)).

Definition q_accept (last : Z) (R : list Z) (num : Z) : res BlockTransferError (list Z) :=
  match first_missing R last with
  | None => Err AlreadyComplete
  | Some m =>
      if q_received R num then Err Duplicate
      else if m / MAX_PAYLOADS * MAX_PAYLOADS + MAX_PAYLOADS <=? num then Err OutsideWindow
      else Ok (num :: R)
  end.

Lemma first_missing_Some R last m :
  first_missing R last = Some m ↔ 0 ≤ m ≤ last ∧ (m ∉ R) ∧ ∀ i, 0 ≤ i < m → i ∈ R.
Proof.
  unfold first_missing, q_received. rewrite find_map_Some. split.
  - intros (l1 & x & l2 & Hl & Hx & Hf). case_bool_decide; [done|]. simplify_eq.
    assert (m = Z.of_nat (length l1) ∧ Z.of_nat (length l1) < last + 1) as [Hm Hlt].
    { assert (seqZ 0 (last + 1) !! length l1 = Some m) as Hk by (rewrite Hl; by apply lookup_app_mid).
      apply lookup_seqZ in Hk. lia. }
    split_and!; [lia..|done|]. intros i Hi. rewrite Forall_forall in Hf. specialize (Hf i). case_bool_decide; [done|].
    assert (i ∈ l1) as Hin; [|by specialize (Hf Hin)].
    assert (seqZ 0 (last + 1) !! Z.to_nat i = Some i) as Hk by (apply lookup_seqZ; lia).
    rewrite Hl, lookup_app_l in Hk by lia. by eapply list_elem_of_lookup_2.
  - intros (Hm & Hn & Hall). exists (seqZ 0 m), m, (seqZ (m + 1) (last - m)). split_and!.
    + replace (last + 1) with (m + (1 + (last - m))) by lia. rewrite seqZ_app by lia. f_equal.
      rewrite seqZ_app by lia. done.
    + by rewrite bool_decide_false.
    + apply Forall_forall. intros i Hi%elem_of_seqZ. rewrite bool_decide_true; [done|]. apply Hall. lia.
Qed.

Lemma first_missing_None R last : first_missing R last = None ↔ ∀ i, 0 ≤ i ≤ last → i ∈ R.
Proof.
  unfold first_missing, q_received. rewrite find_map_None, Forall_forall. split.
  - intros Hf i Hi. specialize (Hf i). rewrite elem_of_seqZ in Hf. specialize (Hf ltac:(lia)). by case_bool_decide.
  - intros Hf i Hi%elem_of_seqZ. rewrite bool_decide_true; [done|]. apply Hf. lia.
Qed.

Lemma q_accept_Ok last R num R' : q_accept last R num = Ok R' → R' = num :: R ∧ (num ∉ R).
Proof.
  unfold q_accept. destruct (first_missing R last) as [m|]; [|done]. destruct (q_received R num) eqn:Er; [done|].
  destruct (_ <=? num); [done|]. intros [= <-]. split; [done|]. by apply bool_decide_eq_false in Er.
Qed.

(** ** The window represents the set *)
Definition q_rep (q : QWindow) (last last_len : Z) (R : list Z) : Prop :=
  0 ≤ qx_base q ≤ last ∧ qx_base q mod MAX_PAYLOADS = 0 ∧ 0 ≤ qx_mask q < 1024 ∧
  (∀ num, num ∈ R ↔ 0 ≤ num < qx_base q ∨
     (qx_base q ≤ num < qx_base q + MAX_PAYLOADS ∧ Z.testbit (qx_mask q) (num - qx_base q) = true)) ∧
  (∀ num, num ∈ R → num ≤ last) ∧
  qx_final_num q = (if q_received R last then Some last else None) ∧
  (q_received R last = true → qx_final_payload_len q = last_len) ∧
  (qx_mask q = window_full → q_received R last = true).

Lemma q_received_spec R num : q_received R num = true ↔ num ∈ R.
Proof. apply bool_decide_eq_true. Qed.

Lemma q_rep_missing q last last_len R :
  q_rep q last last_len R →
  let contig := qx_base q + trailing_ones 16 (qx_mask q) in
  0 ≤ trailing_ones 16 (qx_mask q) ≤ MAX_PAYLOADS ∧
  first_missing R last = (if last <? contig then None else Some contig).
Proof.
  intros (Hb & Hal & Hm & HR & Hle & _ & _ & Hfull). unfold MAX_PAYLOADS in *.
  destruct (trailing_ones_spec 16 (qx_mask q) ltac:(lia)) as (Hk & Hones & Hzero).
  set (k := trailing_ones 16 (qx_mask q)) in *.
  assert (k ≤ 10) as Hk10.
  { destruct (Z.le_gt_cases k 10); [done|]. assert (Z.testbit (qx_mask q) 10 = true) as Ht by (apply Hones; lia).
    by rewrite (bits_above _ 10) in Ht by (try done; lia). }
  assert (∀ i, 0 ≤ i < qx_base q + k → i ∈ R) as Hall.
  { intros i Hi. apply HR. destruct (Z.lt_ge_cases i (qx_base q)); [lia|]. right. split; [lia|]. apply Hones. lia. }
  split; [lia|]. destruct (Z.ltb_spec last (qx_base q + k)).
  - apply first_missing_None. intros i Hi. apply Hall. lia.
  - apply first_missing_Some. split_and!; [lia..| |done]. intros Hin. apply HR in Hin as [?|[Hw Ht]]; [lia|].
    assert (k < 16) by lia. replace (qx_base q + k - qx_base q) with k in Ht by lia. by rewrite Hzero in Ht.
Qed.

(** The window starts at the group of the first missing number. *)
Lemma q_rep_base q last last_len R m :
  q_rep q last last_len R → first_missing R last = Some m → m / MAX_PAYLOADS * MAX_PAYLOADS = qx_base q.
Proof.
  intros Hq Hm. destruct (q_rep_missing _ _ _ _ Hq) as [Hk Hf]. rewrite Hm in Hf.
  destruct (Z.ltb_spec last (qx_base q + trailing_ones 16 (qx_mask q))); [done|]. simplify_eq.
  destruct Hq as (Hb & Hal & Hmask & HR & Hle & _ & _ & Hfull). unfold MAX_PAYLOADS in *.
  assert (trailing_ones 16 (qx_mask q) ≠ 10) as Hne.
  { intros He. destruct (trailing_ones_spec 16 (qx_mask q) ltac:(lia)) as (_ & Hones & _). rewrite He in *.
    assert (qx_mask q = window_full) as Hw by (apply mask_full; done).
    apply Hfull, q_received_spec, HR in Hw as [?|[? _]]; lia. }
  div_lia.
Qed.

Lemma q_rep_in q last last_len R num :
  q_rep q last last_len R → qx_base q ≤ num < qx_base q + MAX_PAYLOADS →
  q_received R num = Z.testbit (qx_mask q) (num - qx_base q).
Proof.
  intros (Hb & _ & _ & HR & _) Hn. apply eq_true_iff_eq. rewrite q_received_spec, HR. split; [intros [?|[_ ?]]; [lia|done]|]. auto.
Qed.

(** One more number, and the window moves on when it is full. *)
Lemma q_rep_insert q last last_len R num :
  q_rep q last last_len R → (num ∉ R) → qx_base q ≤ num < qx_base q + MAX_PAYLOADS → num ≤ last → last ≤ NUM_MAX →
  let q1 := q_with_mask q (Z.lor (qx_mask q) (shl 16 1 (num - qx_base q))) in
  let q1 := if num <? last then q1 else q_with_final q1 num last_len in
  ∃ q2, q_advance 1 num q1 = (q2, Ok tt) ∧ q_rep q2 last last_len (num :: R).
Proof.
  intros Hq Hn Hw Hl HN q0 q1. pose proof Hq as (Hb & Hal & Hm & HR & Hle & Hfin & Hlen & Hfull).
  set (mask := Z.lor (qx_mask q) (shl 16 1 (num - qx_base q))) in *. unfold MAX_PAYLOADS, NUM_MAX in *.
  assert (∀ i, 0 ≤ i → Z.testbit mask i = Z.testbit (qx_mask q) i || (num - qx_base q =? i)) as Hbits
    by (intros i Hi; apply mask_set; lia).
  assert (0 ≤ mask < 1024) as Hmask.
  { assert (0 ≤ mask) as H0 by (apply Z.lor_nonneg; split; [lia|]; rewrite shl_bit by lia; lia). split; [done|].
    apply (below_pow2 mask 10); [done|done|]. intros i Hi. rewrite Hbits by lia.
    rewrite (bits_above (qx_mask q) 10) by done. apply Z.eqb_neq. lia. }
  assert (∀ n, n ∈ num :: R ↔ 0 ≤ n < qx_base q ∨ (qx_base q ≤ n < qx_base q + 10 ∧ Z.testbit mask (n - qx_base q) = true)) as HR'.
  { intros n. rewrite elem_of_cons, HR. destruct (Z.lt_ge_cases n (qx_base q)); [split; intros; destruct_or?; lia|].
    rewrite Hbits, orb_true_iff, Z.eqb_eq by lia. split; intros ?; destruct_or?; destruct_and?; destruct_or?; auto; lia. }
  assert (q_received (num :: R) last = q_received R last || (num =? last)) as Hrec.
  { apply eq_true_iff_eq. rewrite orb_true_iff, !q_received_spec, elem_of_cons, Z.eqb_eq. intuition. }
  assert (num < last ∨ num = last) as Hcase by lia.
  assert (qx_base q1 = qx_base q ∧ qx_mask q1 = mask ∧
    qx_final_num q1 = (if q_received (num :: R) last then Some last else None) ∧
    (q_received (num :: R) last = true → qx_final_payload_len q1 = last_len)) as (Hb1 & Hm1 & Hf1 & Hl1).
  { unfold q1. rewrite Hrec. destruct Hcase as [Hc| ->].
    - rewrite (proj2 (Z.ltb_lt _ _)), (proj2 (Z.eqb_neq _ _)), orb_false_r by lia. done.
    - rewrite Z.ltb_irrefl, Z.eqb_refl, orb_true_r. done. }
  assert (∀ n, n ∈ num :: R → n ≤ last) as Hle'.
  { intros n [->|Hin]%elem_of_cons; auto. }
  cbn [q_advance]. unbind. rewrite Hf1, Hm1. destruct (Z.eqb_spec mask window_full) as [Ef|Ef]; cbn [andb].
  2: { exists q1. split; [done|]. unfold q_rep, MAX_PAYLOADS. rewrite Hb1, Hm1. split_and!; try done; lia. }
  destruct (q_received (num :: R) last) eqn:Er.
  { exists q1. split; [done|]. unfold q_rep, MAX_PAYLOADS. rewrite Hb1, Hm1, Er. split_and!; try done; lia. }
  assert (qx_base q + 10 ≤ last) as Hnext.
  { destruct (Z.le_gt_cases (qx_base q + 10) last); [done|]. exfalso. assert (last ∈ num :: R) as Hin.
    { apply HR'. right. split; [lia|]. apply (proj1 (mask_full mask Hmask) Ef). lia. }
    apply q_received_spec in Hin. congruence. }
  rewrite Hb1. unfold checked_add, max_u, MAX_PAYLOADS. rewrite (proj2 (Z.leb_le _ _)) by lia. cbn [ok_or]. cbn beta iota.
  cbn [q_with_continue qx_base]. rewrite Hb1. rewrite (proj2 (Z.leb_le _ _)) by lia. cbn [ok_or]. cbn beta iota.
  change (qx_mask (q_with_base _ _ 0) =? window_full) with false. cbn [andb]. eexists. split; [done|].
  unfold q_rep, MAX_PAYLOADS. cbn [q_with_base q_with_continue qx_base qx_mask qx_final_num qx_final_payload_len].
  rewrite Hf1, Er. split_and!; try done; [lia..|div_lia|]. intros n. rewrite Z.bits_0, HR'. split.
  - intros [?|[? _]]; lia.
  - intros [?|[_ ?]]; [|done]. destruct (Z.lt_ge_cases n (qx_base q)); [lia|]. right. split; [lia|].
    apply (proj1 (mask_full mask Hmask) Ef). lia.
Qed.

(** ** One block *)
Definition is_q_in (r : BlockRole) : bool := is_incoming r && is_q_block r.

Section q_accept.
Context `{Target} {T : Type}.
Implicit Types t : BlockTransfer T.

Definition piece_len (L : nat) (szx num : Z) : nat := (piece L szx num).2.
Definition piece_block (L : nat) (szx num : Z) : BlockValue := (piece L szx num).1.1.
Definition piece_offset (L : nat) (szx num : Z) : nat := (piece L szx num).1.2.

(** The transfer of a body of [L] bytes that has received [R]. *)
Definition q_state t (L : nat) (szx : Z) (R : list Z) : Prop :=
  is_q_in (bx_role t) = true ∧ bx_szx t = szx ∧ (bx_expected_len t = None ∨ bx_expected_len t = Some (Z.of_nat L)) ∧
  (∃ q, bx_q t = Some q ∧ q_rep q (last_num L szx) (Z.of_nat (piece_len L szx (last_num L szx))) R) ∧
  match first_missing R (last_num L szx) with
  | None => bx_complete t = true ∧ bx_filled t = L
  | Some m => bx_complete t = false ∧ bx_filled t = piece_offset L szx m
  end.

Lemma piece_end (L : nat) (szx num : Z) :
  0 ≤ szx ≤ 6 → 0 ≤ num ≤ last_num L szx →
  (piece_offset L szx num + piece_len L szx num = if (num <? last_num L szx)%Z then piece_offset L szx num + sz szx else L)%nat ∧
  (piece_offset L szx num + piece_len L szx num ≤ L)%nat ∧ (piece_len L szx num ≤ sz szx)%nat.
Proof.
  intros Hs Hn. pose proof (last_num_bounds L szx Hs). pose proof (sz_pos _ Hs).
  unfold piece_offset, piece_len, piece. cbn [fst snd]. destruct (Z.ltb_spec num (last_num L szx)); split_and!; nia.
Qed.

Lemma piece_fields (L : nat) (szx num : Z) :
  0 ≤ szx ≤ 6 → 0 ≤ num ≤ last_num L szx →
  bv_szx (piece_block L szx num) = szx ∧ bv_num (piece_block L szx num) = num ∧
  bv_more (piece_block L szx num) = (num <? last_num L szx) ∧ block_size (piece_block L szx num) = sz szx.
Proof.
  intros Hs Hn. rewrite block_size_ok by done. split_and!; [done..| |done]. by apply piece_more_last.
Qed.

Lemma q_incoming_range_piece (L : nat) (szx num : Z) cap expected :
  0 ≤ szx ≤ 6 → 0 ≤ num ≤ last_num L szx → Z.of_nat L ≤ BODY_MAX → (L ≤ cap)%nat →
  expected = None ∨ expected = Some (Z.of_nat L) →
  q_incoming_range (piece_block L szx num) (piece_len L szx num) cap expected =
    Ok (piece_offset L szx num, Z.of_nat (piece_len L szx num)).
Proof.
  intros Hs Hn HL Hcap He. pose proof (last_num_max L szx Hs HL) as HN. pose proof (sz_Z _ Hs) as Hz.
  destruct (piece_end L szx num Hs Hn) as (Hend & Hle & Hlen). pose proof usize_max_ge as Hu. unfold BODY_MAX in HL.
  unfold q_incoming_range. destruct (piece_fields L szx num Hs Hn) as (_ & -> & -> & ->).
  assert ((if num <? last_num L szx then negb (piece_len L szx num =? sz szx)%nat else (sz szx <? piece_len L szx num)%nat) = false) as ->.
  { destruct (num <? last_num L szx); [rewrite (proj2 (Nat.eqb_eq _ _)); [done|lia]|by apply Nat.ltb_ge]. }
  unfold u_try_from_usize, max_u. rewrite (proj2 (Z.leb_le _ _)) by lia. cbn [ok_or]. unbind.
  rewrite block_offset_ok by lia. cbn beta iota. change (Z.to_nat num * sz szx)%nat with (piece_offset L szx num).
  rewrite usize_add_le by lia. cbn [ok_or]. cbn beta iota. rewrite (proj2 (Nat.ltb_ge _ _)) by lia.
  destruct He as [->| ->]; [done|]. unfold usize_try_from. rewrite (proj2 (Z.leb_le _ _)) by lia. cbn [ok_or]. cbn beta iota.
  rewrite Nat2Z.id, (proj2 (Nat.ltb_ge _ _)) by lia. rewrite Hend.
  destruct (num <? last_num L szx); cbn [negb andb orb]; [done|]. by rewrite Nat.eqb_refl.
Qed.

Lemma q_position_ok t q L szx R :
  q_rep q (last_num L szx) (Z.of_nat (piece_len L szx (last_num L szx))) R → 0 ≤ szx ≤ 6 → Z.of_nat L ≤ BODY_MAX →
  ∃ next,
    q_position q (sz szx) t =
      (set_pos t (bx_num t) (bx_more t) next
         (match first_missing R (last_num L szx) with None => L | Some m => piece_offset L szx m end)
         (match first_missing R (last_num L szx) with None => true | Some _ => false end), Ok tt).
Proof.
  intros Hq Hs HL. destruct (q_rep_missing _ _ _ _ Hq) as [Hk Hf]. pose proof (last_num_max L szx Hs HL) as HN.
  pose proof (sz_Z _ Hs) as Hz. pose proof Hq as (Hb & Hal & Hm & HR & Hle & Hfin & Hlen & Hfull). unfold q_position. unbind.
  unfold checked_add, max_u. unfold MAX_PAYLOADS, NUM_MAX in *. rewrite (proj2 (Z.leb_le _ _)) by lia. cbn [ok_or]. cbn beta iota.
  set (contig := qx_base q + trailing_ones 16 (qx_mask q)) in *. rewrite Hf, Hfin.
  destruct (Z.ltb_spec (last_num L szx) contig) as [Hc|Hc].
  - assert (q_received R (last_num L szx) = true) as Hr.
    { apply q_received_spec. apply (proj1 (first_missing_None R (last_num L szx)) Hf). unfold last_num. lia. }
    rewrite Hr, (proj2 (Z.ltb_lt _ _)) by done. rewrite block_offset_ok by (unfold NUM_MAX, last_num in *; lia). cbn beta iota.
    rewrite Hlen by done. rewrite Nat2Z.id. destruct (piece_end L szx (last_num L szx) Hs) as (Hend & _ & _); [unfold last_num; lia|].
    rewrite Z.ltb_irrefl in Hend. unfold piece_offset, piece in Hend. cbn [fst snd] in Hend. fold (piece_len L szx (last_num L szx)) in Hend.
    rewrite usize_add_le by (unfold BODY_MAX in HL; lia). cbn [ok_or]. cbn beta iota. unfold finish_position. unbind.
    unfold checked_add, max_u. rewrite (proj2 (Z.leb_le _ _)) by lia. cbn [ok_or]. cbn beta iota. rewrite Hend. by eexists.
  - assert (match (if q_received R (last_num L szx) then Some (last_num L szx) else None) with
            | Some final_num => final_num <? contig | None => false end = false) as Hlt.
    { destruct (q_received R (last_num L szx)); [by apply Z.ltb_ge|done]. }
    rewrite block_offset_ok by (unfold NUM_MAX; lia). cbn beta iota. exists contig.
    destruct (q_received R (last_num L szx)); [rewrite Hlt|]; done.
Qed.

(** A block of the body is accepted, or refused with nothing changed, exactly
    as by the reference receiver. *)
Lemma accept_q_step t L szx R num cap :
  q_state t L szx R → 0 ≤ szx ≤ 6 → 0 ≤ num ≤ last_num L szx → Z.of_nat L ≤ BODY_MAX → (L ≤ cap)%nat →
  match q_accept (last_num L szx) R num with
  | Ok R' => ∃ t', accept_q_incoming (piece_block L szx num) (piece_len L szx num) cap t = (t', Ok (piece_offset L szx num)) ∧
               q_state t' L szx R' ∧ ident t' = ident t
  | Err e => accept_q_incoming (piece_block L szx num) (piece_len L szx num) cap t = (t, Err e)
  | _ => False
  end.
Proof.
  intros (Hr & Hszx & Hexp & (q & Hbq & Hq) & Hpos) Hs Hn HL Hcap.
  pose proof (last_num_max L szx Hs HL) as HN. apply andb_true_iff in Hr as [Hri Hrq].
  destruct (piece_fields L szx num Hs Hn) as (Hps & Hpn & Hpm & Hsize).
  unfold q_accept, accept_q_incoming. unbind. rewrite Hrq. cbn [negb]. rewrite not_bert by lia.
  destruct (first_missing R (last_num L szx)) as [m|] eqn:Em; [|by destruct Hpos as [-> _]].
  destruct Hpos as [-> _]. rewrite Hps, Hszx, Z.eqb_refl, Hbq, Hpn. cbn [negb ok_or]. cbn beta iota.
  rewrite (q_rep_base _ _ _ _ _ Hq Em). pose proof Hq as (Hb & Hal & Hm & HR & Hle & Hfin & Hlen & Hfull).
  destruct (Z.ltb_spec num (qx_base q)) as [Hlt|Hge].
  { assert (num ∈ R) as Hin by (apply HR; lia). apply q_received_spec in Hin. by rewrite Hin. }
  destruct (Z.leb_spec MAX_PAYLOADS (num - qx_base q)) as [Hout|Hwin].
  { assert (q_received R num = false) as ->.
    { apply not_true_iff_false. rewrite q_received_spec, HR. lia. }
    by rewrite (proj2 (Z.leb_le _ _)) by lia. }
  rewrite (q_rep_in _ _ _ _ num Hq) by lia. unfold MAX_PAYLOADS in Hwin. rewrite mask_test, negb_involutive by lia.
  destruct (Z.testbit (qx_mask q) (num - qx_base q)) eqn:Eb; [done|].
  rewrite (proj2 (Z.leb_gt (qx_base q + MAX_PAYLOADS) num)) by (unfold MAX_PAYLOADS; lia).
  assert (num ∉ R) as Hnot.
  { rewrite <- q_received_spec. rewrite (q_rep_in _ _ _ _ num Hq) by (unfold MAX_PAYLOADS; lia). congruence. }
  assert (match qx_final_num q with Some f => f <? num | None => false end = false) as ->.
  { rewrite Hfin. destruct (q_received R (last_num L szx)); [apply Z.ltb_ge; lia|done]. }
  assert (negb (bv_more (piece_block L szx num)) && ((saturating_add 32 (num - qx_base q) 1 <? MAX_PAYLOADS) &&
    negb (Z.shiftr (qx_mask q) (saturating_add 32 (num - qx_base q) 1) =? 0)) = false) as ->.
  { rewrite Hpm. destruct (Z.ltb_spec num (last_num L szx)); [done|]. cbn [negb andb]. apply andb_false_iff. right.
    apply negb_false_iff, Z.eqb_eq. unfold saturating_add, max_u. rewrite Z.min_l by lia. apply Z.bits_inj'. intros i Hi.
    rewrite Z.shiftr_spec, Z.bits_0 by lia. destruct (Z.lt_ge_cases (i + (num - qx_base q + 1)) 10).
    - apply not_true_iff_false. intros Ht. assert (i + num + 1 ∈ R) as Hin; [|apply Hle in Hin; lia].
      apply HR. right. unfold MAX_PAYLOADS. split; [lia|]. rewrite <- Ht. f_equal. lia.
    - apply (bits_above _ 10); [done|lia]. }
  rewrite q_incoming_range_piece by done. cbn beta iota.
  rewrite Hpm. destruct (q_rep_insert q _ _ R num Hq Hnot) as (q2 & Hadv & Hq2); [unfold MAX_PAYLOADS; lia|lia|done|].
  assert ((if num <? last_num L szx then q_with_mask q (Z.lor (qx_mask q) (shl 16 1 (num - qx_base q)))
           else q_with_final (q_with_mask q (Z.lor (qx_mask q) (shl 16 1 (num - qx_base q)))) num
             (Z.of_nat (piece_len L szx num))) =
          (if num <? last_num L szx then q_with_mask q (Z.lor (qx_mask q) (shl 16 1 (num - qx_base q)))
           else q_with_final (q_with_mask q (Z.lor (qx_mask q) (shl 16 1 (num - qx_base q)))) num
             (Z.of_nat (piece_len L szx (last_num L szx))))) as ->.
  { destruct (Z.ltb_spec num (last_num L szx)); [done|]. by assert (num = last_num L szx) as -> by lia. }
  unfold on_q. rewrite Hadv. unbind. cbn [set_q bx_q ok_or]. cbn beta iota. rewrite Hsize.
  destruct (q_position_ok (set_q t (Some q2)) q2 L szx (num :: R) Hq2 Hs HL) as (next & ->). cbn beta iota.
  eexists. split; [done|]. split; [|done]. unfold q_state.
  cbn [set_pos set_q bx_role bx_szx bx_expected_len bx_q bx_complete bx_filled].
  split_and!; try done; [by apply andb_true_iff|by exists q2|]. by destruct (first_missing (num :: R) (last_num L szx)).
Qed.

(** A body of which nothing has arrived. *)
Lemma q_state_fresh key role szx more L expected :
  is_q_in role = true → 0 ≤ szx ≤ 6 → (expected = None ∨ expected = Some (Z.of_nat L)) →
  q_state (fresh_transfer key role szx more 0 expected (Some QWindow_empty)) L szx [].
Proof.
  intros Hr Hs He. unfold q_state. cbn. split_and!; try done.
  - eexists. split; [done|]. unfold q_rep. cbn. split_and!; try done; [unfold last_num; lia| |].
    + intros num. unfold MAX_PAYLOADS. rewrite Z.bits_0, elem_of_nil. lia.
    + by intros num ?%elem_of_nil.
  - assert (first_missing [] (last_num L szx) = Some 0) as ->; [|done]. apply first_missing_Some.
    split_and!; [lia|unfold last_num; lia|by intros ?%elem_of_nil|lia].
Qed.
End q_accept.

(** ** Blocks in any order into a pool *)
Lemma splice_lookup {A} (buf src : list A) off i :
  (off + length src ≤ length buf)%nat →
  splice buf off src !! i =
    if ((off <=? i) && (i <? off + length src))%nat then src !! (i - off)%nat else buf !! i.
Proof.
  intros Hl. unfold splice. destruct (Nat.leb_spec off i) as [Hi|Hi]; cbn [andb].
  - rewrite lookup_app_r by (rewrite length_take; lia). rewrite length_take, Nat.min_l by lia.
    destruct (Nat.ltb_spec i (off + length src)); [by rewrite lookup_app_l by lia|].
    rewrite lookup_app_r by lia. rewrite lookup_drop. f_equal. lia.
  - rewrite lookup_app_l by (rewrite length_take; lia). by rewrite lookup_take_lt by lia.
Qed.

Section q_pool.
Context `{Target} {T P : Type} `{EqDecision T} `{BodyLaws T P}.
Implicit Types (p : P) (key : BlockKey T) (body : list Z).

Definition piece_bytes body (szx num : Z) : list Z :=
  take (piece_len (length body) szx num) (drop (piece_offset (length body) szx num) body).

(** The blocks [nums] of a body, applied one after the other. *)
Fixpoint q_run key (role : BlockRole) body (szx : Z) (expected : option Z) (nums : list Z) p
    : P * list (res BlockTransferError (nat * bool)) :=
  match nums with
  | [] => (p, [])
  | num :: nums =>
      let '(p, r) := apply_incoming key role (piece_block (length body) szx num) (piece_bytes body szx num) expected p in
      let '(p, rs) := q_run key role body szx expected nums p in
      (p, (progress ← r; mret (bp_filled progress, bp_complete progress)) :: rs)
  end.

(** What the reference receiver answers. *)
Definition q_progress (L : nat) (szx : Z) (R : list Z) : nat * bool :=
  match first_missing R (last_num L szx) with None => (L, true) | Some m => (piece_offset L szx m, false) end.
Fixpoint q_ref (L : nat) (szx : Z) (nums R : list Z) : list Z * list (res BlockTransferError (nat * bool)) :=
  match nums with
  | [] => (R, [])
  | num :: nums =>
      let r := q_accept (last_num L szx) R num in
      let '(R', rs) := q_ref L szx nums (match r with Ok R' => R' | _ => R end) in
      (R', (R ← r; mret (q_progress L szx R)) :: rs)
  end.

(** The bytes of the received blocks are in the buffer. *)
Definition agrees (buf body : list Z) (szx : Z) (R : list Z) : Prop :=
  ∀ num i, num ∈ R →
    (piece_offset (length body) szx num ≤ i < piece_offset (length body) szx num + piece_len (length body) szx num)%nat →
    buf !! i = body !! i.

Definition q_slot p j key role body szx expected (R : list Z) : Prop :=
  ∃ s t, holds p j s ∧ bs_transfer s = Some t ∧ static_body t = None ∧ bx_role t = role ∧ bx_expected_len t = expected ∧
    q_state t (length body) szx R ∧ bs_len s = bx_filled t ∧ agrees (bs_buf s) body szx R ∧
    body_lookup_role p key role = Some j ∧ (length body ≤ bc_bytes p)%nat.

Lemma piece_bytes_length body szx num :
  0 ≤ szx ≤ 6 → 0 ≤ num ≤ last_num (length body) szx → length (piece_bytes body szx num) = piece_len (length body) szx num.
Proof.
  intros Hs Hn. destruct (piece_end (length body) szx num Hs Hn) as (_ & Hle & _). unfold piece_bytes.
  rewrite length_take, length_drop. lia.
Qed.

(** Writing a block keeps the others and adds its own bytes. *)
Lemma agrees_insert buf body szx R num :
  0 ≤ szx ≤ 6 → 0 ≤ num ≤ last_num (length body) szx → (length body ≤ length buf)%nat → agrees buf body szx R →
  agrees (splice buf (piece_offset (length body) szx num) (piece_bytes body szx num)) body szx (num :: R).
Proof.
  intros Hs Hn Hl Ha n i Hin Hi. destruct (piece_end (length body) szx num Hs Hn) as (_ & Hle & _).
  pose proof (piece_bytes_length body szx num Hs Hn) as Hpl. rewrite splice_lookup by lia. rewrite Hpl.
  destruct ((_ <=? i)%nat && _) eqn:Ei; bools.
  - unfold piece_bytes. rewrite lookup_take_lt by lia. rewrite lookup_drop. f_equal. lia.
  - apply elem_of_cons in Hin as [->|Hin]; [|by apply (Ha n)]. exfalso. destruct Ei; bools; lia.
Qed.

Lemma agrees_complete buf body szx R :
  0 ≤ szx ≤ 6 → (length body ≤ length buf)%nat → agrees buf body szx R →
  first_missing R (last_num (length body) szx) = None → take (length body) buf = body.
Proof.
  intros Hs Hl Ha Hf. apply list_eq. intros i. destruct (decide (i < length body)%nat) as [Hi|Hi].
  2: { rewrite (lookup_ge_None_2 body) by lia. apply lookup_take_ge. lia. }
  rewrite lookup_take_lt by done. pose proof (sz_pos _ Hs). set (num := Z.of_nat (i / sz szx)).
  assert ((i / sz szx) * sz szx ≤ i < (i / sz szx + 1) * sz szx)%nat as Hdiv.
  { pose proof (Nat.div_mod i (sz szx) ltac:(lia)). pose proof (Nat.mod_upper_bound i (sz szx) ltac:(lia)). nia. }
  assert (0 ≤ num ≤ last_num (length body) szx) as Hn.
  { unfold num, last_num. split; [lia|]. apply inj_le, Nat.Div0.div_le_mono. lia. }
  apply (Ha num).
  - by apply (proj1 (first_missing_None R _) Hf).
  - destruct (piece_end (length body) szx num Hs Hn) as (-> & _). unfold piece_offset, piece, num. cbn [fst snd]. rewrite Nat2Z.id.
    destruct (_ <? _); lia.
Qed.

Lemma q_state_progress {A : Type} (t : BlockTransfer A) L szx R :
  q_state t L szx R → (bx_filled t, bx_complete t) = q_progress L szx R.
Proof. intros (_ & _ & _ & _ & Hp). unfold q_progress. destruct (first_missing _ _); destruct Hp; congruence. Qed.

Lemma q_slot_step p j key role body szx expected R num :
  q_slot p j key role body szx expected R → 0 ≤ szx ≤ 6 → 0 ≤ num ≤ last_num (length body) szx →
  Z.of_nat (length body) ≤ BODY_MAX → is_q_in role = true →
  ∃ p' r, apply_incoming key role (piece_block (length body) szx num) (piece_bytes body szx num) expected p = (p', r) ∧
    (progress ← r; mret (bp_filled progress, bp_complete progress)) =
      (R ← q_accept (last_num (length body) szx) R num; mret (q_progress (length body) szx R)) ∧
    q_slot p' j key role body szx expected
      (match q_accept (last_num (length body) szx) R num with Ok R' => R' | _ => R end).
Proof.
  intros (s & t & Hh & Ht & Hst & Hr & He & Hq & Hl & Ha & Hlk & Hcap) Hs Hn HL Hrole.
  pose proof Hrole as Hrole'. apply andb_true_iff in Hrole' as [_ Hrq].
  pose proof (piece_bytes_length body szx num Hs Hn) as Hpl.
  destruct (piece_end (length body) szx num Hs Hn) as (_ & Hle & _).
  pose proof (accept_q_step t (length body) szx R num (bc_bytes p) Hq Hs Hn HL Hcap) as Hstep.
  rewrite (apply_incoming_known p j s t) by (try done; intros _; exact He).
  pose proof Hh as (Hp & _ & Hc). pose proof (bl_bytes _ _ _ Hp Hc) as Hbuf.
  destruct (q_accept _ R num) as [R'|e| |] eqn:Eacc; [| |done..].
  - destruct Hstep as (t' & Hacc & Hq' & Hi). destruct (static_ident _ _ Hi) as (_ & _ & _ & Hst').
    destruct (write_incoming_ok p j s t t' role (piece_block (length body) szx num) (piece_bytes body szx num)
      (piece_offset (length body) szx num) Hh Ht Hr) as (p' & Hw & Hu).
    { unfold accept_incoming_role. unbind. by rewrite Hr, Hrq, Hpl. }
    { lia. }
    { pose proof usize_max_ge. unfold BODY_MAX in HL. lia. }
    exists p', (Ok (mkProgress j (bx_filled t') (bx_complete t'))). split_and!; [done| |].
    + unbind. cbn [bp_filled bp_complete]. by rewrite (q_state_progress t' (length body) szx R').
    + unfold stored_len in Hu. rewrite Hrq in Hu. eexists _, t'.
      split_and!; [by apply (holds_upd _ _ _ _ _ Hh Hu)|done|congruence|unfold ident in Hi; congruence..|done|done| | |].
      * cbn [bs_buf]. apply q_accept_Ok in Eacc as [-> _]. apply agrees_insert; [done..|lia|done].
      * rewrite <- Hlk. by apply (lookup_role_upd p p' j s t t' _ _ _ _ Hh Ht Hu).
      * destruct Hu as (_ & (_ & _ & ->) & _). done.
  - destruct (write_incoming_refused p j s t t role (piece_block (length body) szx num) (piece_bytes body szx num) e Hh Ht Hr)
      as (p' & Hw & Hu).
    { unfold accept_incoming_role. unbind. by rewrite Hr, Hrq, Hpl. }
    exists p', (Err e). split_and!; [done..|]. eexists _, t.
    split_and!; [by apply (holds_upd _ _ _ _ _ Hh Hu)|done..| |].
    + rewrite <- Hlk. by apply (lookup_role_upd p p' j s t t _ _ _ _ Hh Ht Hu).
    + destruct Hu as (_ & (_ & _ & ->) & _). done.
Qed.

(** The first accepted block takes a slot; one beyond the window does not. *)
Lemma q_first_step p key role body szx expected num :
  bl_inv p → body_lookup_role p key role = None → body_lookup_identity p key role = None →
  (∃ j, (j < bc_slots p)%nat ∧ body_occupied p j = false) → (length body ≤ bc_bytes p)%nat →
  0 ≤ szx ≤ 6 → 0 ≤ num ≤ last_num (length body) szx → Z.of_nat (length body) ≤ BODY_MAX → is_q_in role = true →
  (expected = None ∨ expected = Some (Z.of_nat (length body))) →
  ∃ p' r, apply_incoming key role (piece_block (length body) szx num) (piece_bytes body szx num) expected p = (p', r) ∧
    (progress ← r; mret (bp_filled progress, bp_complete progress)) =
      (R ← q_accept (last_num (length body) szx) [] num; mret (q_progress (length body) szx R)) ∧
    match q_accept (last_num (length body) szx) [] num with
    | Ok R' => ∃ j, q_slot p' j key role body szx expected R'
    | _ => p' = p
    end.
Proof.
  intros Hp Hl1 Hl2 Hfree Hcap Hs Hn HL Hrole He. pose proof Hrole as Hrole'. apply andb_true_iff in Hrole' as [Hri Hrq].
  pose proof (piece_bytes_length body szx num Hs Hn) as Hpl. destruct (piece_end (length body) szx num Hs Hn) as (_ & Hle & _).
  destruct (piece_fields (length body) szx num Hs Hn) as (Hps & Hpn & _ & Hsize).
  set (t0 := fresh_transfer key role szx (bv_more (piece_block (length body) szx num)) 0 expected (Some QWindow_empty)).
  pose proof (accept_q_step t0 (length body) szx [] num (bc_bytes p)
    (q_state_fresh key role szx _ (length body) expected Hrole Hs He) Hs Hn HL Hcap) as Hstep.
  assert (start_incoming key role (piece_block (length body) szx num) (length (piece_bytes body szx num)) (bc_bytes p) expected =
    started t0 (accept_q_incoming (piece_block (length body) szx num) (piece_len (length body) szx num) (bc_bytes p))) as Hstart.
  { unfold start_incoming, incoming_q. rewrite Hrq, Hri, Hpl. cbn [negb orb]. rewrite not_bert by lia. by rewrite Hps. }
  destruct (q_accept _ [] num) as [R'|e| |] eqn:Eacc; [| |done..].
  - destruct Hstep as (t & Hacc & Hq & Hi). unfold started in Hstart. rewrite Hacc in Hstart.
    destruct (static_ident _ _ Hi) as (_ & _ & _ & Hst).
    assert (bx_key t = key ∧ bx_role t = role ∧ bx_expected_len t = expected) as (Hk & Hr & Hx).
    { unfold ident in Hi. simplify_eq/=. by split_and!. }
    destruct (apply_incoming_first p key role (piece_block (length body) szx num) (piece_bytes body szx num) expected t
      (piece_offset (length body) szx num) Hp Hl1 Hl2 Hfree Hstart Hk Hr Hst) as (p' & j & buf & Hap & Hh & Hbuf & Hby & Hlk & _).
    { rewrite Hrq, Hpn, Hsize. pose proof (last_num_max (length body) szx Hs HL). pose proof (sz_Z _ Hs).
      by rewrite block_offset_ok by lia. }
    { lia. }
    { pose proof usize_max_ge. unfold BODY_MAX in HL. lia. }
    eexists p', _. split_and!; [done| |].
    + unbind. cbn [bp_filled bp_complete]. by rewrite (q_state_progress t (length body) szx R').
    + unfold stored_len in Hh. rewrite Hrq in Hh. exists j. eexists _, t. split_and!; try done; [|by rewrite Hby].
      cbn [bs_buf]. apply q_accept_Ok in Eacc as [-> _]. apply agrees_insert; [done..|lia|]. by intros n i ?%elem_of_nil.
  - exists p, (Err e). split_and!; [|done..]. unfold apply_incoming, admit_incoming. unbind. rewrite Hl1, Hl2. cbn beta iota.
    rewrite Hstart. unfold started. by rewrite Hstep.
Qed.

Lemma q_run_slot p j key role body szx expected nums R :
  q_slot p j key role body szx expected R → 0 ≤ szx ≤ 6 → Forall (fun num => 0 ≤ num ≤ last_num (length body) szx) nums →
  Z.of_nat (length body) ≤ BODY_MAX → is_q_in role = true →
  ∃ p', q_run key role body szx expected nums p = (p', (q_ref (length body) szx nums R).2) ∧
    q_slot p' j key role body szx expected (q_ref (length body) szx nums R).1.
Proof.
  intros Hq Hs Hn HL Hr. revert p R Hq. induction Hn as [|num nums Hnum Hnums IH]; intros p R Hq; [by exists p|].
  destruct (q_slot_step p j key role body szx expected R num Hq Hs Hnum HL Hr) as (p1 & r & Hap & Hout & Hq1).
  destruct (IH p1 _ Hq1) as (p' & Hrun & Hq'). exists p'. cbn [q_run q_ref]. rewrite Hap, Hrun, Hout.
  destruct (q_ref _ _ nums _). done.
Qed.

(** The reference receiver has nothing until a block is accepted. *)
Lemma q_run_all p key role body szx expected nums :
  bl_inv p → body_lookup_role p key role = None → body_lookup_identity p key role = None →
  (∃ j, (j < bc_slots p)%nat ∧ body_occupied p j = false) → (length body ≤ bc_bytes p)%nat →
  0 ≤ szx ≤ 6 → Forall (fun num => 0 ≤ num ≤ last_num (length body) szx) nums →
  Z.of_nat (length body) ≤ BODY_MAX → is_q_in role = true → (expected = None ∨ expected = Some (Z.of_nat (length body))) →
  ∃ p', q_run key role body szx expected nums p = (p', (q_ref (length body) szx nums []).2) ∧
    (((q_ref (length body) szx nums []).1 = [] ∧ p' = p) ∨
     ∃ j, q_slot p' j key role body szx expected (q_ref (length body) szx nums []).1).
Proof.
  intros Hp Hl1 Hl2 Hfree Hcap Hs Hn HL Hr He. induction Hn as [|num nums Hnum Hnums IH]; [exists p; auto|].
  destruct (q_first_step p key role body szx expected num Hp Hl1 Hl2 Hfree Hcap Hs Hnum HL Hr He) as (p1 & r & Hap & Hout & Hq1).
  cbn [q_run q_ref]. rewrite Hap, Hout. destruct (q_accept _ [] num) as [R'|e| |]; cbn iota in *.
  - destruct Hq1 as [j Hq1]. destruct (q_run_slot p1 j key role body szx expected nums R' Hq1 Hs Hnums HL Hr) as (p' & Hrun & Hq').
    exists p'. rewrite Hrun. destruct (q_ref _ _ nums R'). split; [done|]. right. by exists j.
  - subst p1. destruct IH as (p' & Hrun & Hpost). exists p'. rewrite Hrun. by destruct (q_ref _ _ nums []).
  - subst p1. destruct IH as (p' & Hrun & Hpost). exists p'. rewrite Hrun. by destruct (q_ref _ _ nums []).
  - subst p1. destruct IH as (p' & Hrun & Hpost). exists p'. rewrite Hrun. by destruct (q_ref _ _ nums []).
Qed.

(** C4: Q-Block reception implements the reference receiver.  Whatever blocks of
    a body arrive, in whatever order and however often, each is accepted or
    refused, with the progress reported, as by a receiver that only remembers
    the set of numbers and looks at the group of ten around the first missing
    one; once every number has been accepted the slot holds the body. *)
Theorem qblock_refines_set p key role body szx expected nums :
  bl_inv p → body_lookup_role p key role = None → body_lookup_identity p key role = None →
  (∃ j, (j < bc_slots p)%nat ∧ body_occupied p j = false) → (length body ≤ bc_bytes p)%nat →
  0 ≤ szx ≤ 6 → Forall (fun num => 0 ≤ num ≤ last_num (length body) szx) nums →
  Z.of_nat (length body) ≤ BODY_MAX → is_q_in role = true → (expected = None ∨ expected = Some (Z.of_nat (length body))) →
  let '(R, outs) := q_ref (length body) szx nums [] in
  ∃ p', q_run key role body szx expected nums p = (p', outs) ∧
    (first_missing R (last_num (length body) szx) = None →
     ∃ j t, body_lookup_role p' key role = Some j ∧ body_transfer p' j = Some t ∧ bx_complete t = true ∧
       body_payload (E:=BlockTransferError) p' j = Ok (Some body)).
Proof.
  intros Hp Hl1 Hl2 Hfree Hcap Hs Hn HL Hr He.
  destruct (q_run_all p key role body szx expected nums Hp Hl1 Hl2 Hfree Hcap Hs Hn HL Hr He) as (p' & Hrun & Hpost).
  destruct (q_ref (length body) szx nums []) as [R outs]. cbn [fst snd] in *. exists p'. split; [done|]. intros Hf.
  destruct Hpost as [[-> _]|(j & s & t & Hh & Ht & Hst & _ & _ & Hq & Hlen & Ha & Hlk & Hcap')].
  { assert (0 ∈ []) as []%elem_of_nil. apply (proj1 (first_missing_None [] _) Hf). unfold last_num. lia. }
  destruct Hq as (_ & _ & _ & _ & Hpos). rewrite Hf in Hpos. destruct Hpos as [Hc Hfill].
  pose proof Hh as (Hp' & _ & Hs'). pose proof (bl_bytes _ _ _ Hp' Hs') as Hbuf.
  exists j, (without_static_body t). split_and!; [done|by apply (body_transfer_at _ _ s)| |].
  - by destruct (without_static_key t) as (_ & _ & _ & _ & ->).
  - rewrite (body_payload_at p' j s Hh), Hlen, Hfill; [|by rewrite Ht|lia].
    by rewrite (agrees_complete (bs_buf s) body szx R) by (try done; lia).
Qed.
End q_pool.

(** ** Witnesses *)
Lemma qblock_refines_set_witness :
  ∃ p', q_run (H:=target32) ex_block_key IncomingQBlock1 ex_block_body 0 (Some 200) [12; 1; 0; 1; 3; 2; 9; 8; 7; 6; 5; 4; 12; 10; 11]
      (AllocBodyPool_new 1 256 nat) =
      (p', [Err OutsideWindow; Ok (0, false); Ok (32, false); Err Duplicate; Ok (32, false); Ok (64, false); Ok (64, false);
            Ok (64, false); Ok (64, false); Ok (64, false); Ok (64, false); Ok (160, false); Ok (160, false); Ok (176, false);
            Ok (200, true)]%nat) ∧
    ∃ j t, body_lookup_role p' ex_block_key IncomingQBlock1 = Some j ∧ body_transfer p' j = Some t ∧ bx_complete t = true ∧
       body_payload (E:=BlockTransferError) p' j = Ok (Some ex_block_body).
Proof.
  pose proof (qblock_refines_set (H:=target32) (AllocBodyPool_new 1 256 nat) ex_block_key IncomingQBlock1 ex_block_body 0 (Some 200)
    [12; 1; 0; 1; 3; 2; 9; 8; 7; 6; 5; 4; 12; 10; 11]) as Hrun.
  vm_compute q_ref in Hrun. destruct Hrun as (p' & Hr & Hd).
  - apply AllocBodyPool_new_inv.
  - reflexivity.
  - reflexivity.
  - exists 0%nat. split; [simpl; lia|reflexivity].
  - simpl. lia.
  - lia.
  - assert (last_num (length ex_block_body) 0 = 12) as -> by reflexivity. repeat (constructor; [lia|]). constructor.
  - unfold BODY_MAX. simpl. lia.
  - reflexivity.
  - by right.
  - exists p'. split; [exact Hr|]. apply Hd. reflexivity.
Defined.

