(* ===== verification/QBlockSend.v ===== *)
(** * Q-Block recovery and sending

    Theorems about [BlockTransfer] ([src/storage/block.rs]): which holes a
    receiver reports, how long it waits for them, and in which order a sender
    issues its blocks. *)
From S2P Require Import Prelude Errors MsgTypes Options Encode OptionValues Pending Occupancy DatagramPool Block.
From S2P Require Import BlockFrame BodyPool BodyLaws BlockClassic QBlock.

(** ** Holes *)
Lemma holes_loop_spec (n : nat) (i mask holes j : Z) :
  0 ≤ i → i + Z.of_nat n ≤ 16 → 0 ≤ j →
  Z.testbit (holes_loop n i mask holes) j =
    Z.testbit holes j || ((i <=? j) && (j <? i + Z.of_nat n) && negb (Z.testbit mask j)).
Proof.
  revert i holes. induction n as [|n IH]; intros i holes Hi Hn Hj.
  { cbn [holes_loop]. destruct (Z.leb_spec i j), (Z.ltb_spec j (i + Z.of_nat 0)); try lia; by rewrite orb_false_r. }
  cbn [holes_loop]. cbv zeta. rewrite IH by lia. rewrite mask_test by lia.
  assert (Z.testbit (if negb (Z.testbit mask i) then Z.lor holes (shl 16 1 i) else holes) j =
    Z.testbit holes j || ((i =? j) && negb (Z.testbit mask j))) as ->.
  { destruct (Z.eqb_spec i j) as [->|Hne].
    - destruct (Z.testbit mask j); cbn [negb andb]; [by rewrite orb_false_r|]. by rewrite mask_set, Z.eqb_refl by lia.
    - destruct (Z.testbit mask i); cbn [negb andb]; rewrite orb_false_r; [done|].
      by rewrite mask_set, (proj2 (Z.eqb_neq _ _)), orb_false_r by lia. }
  destruct (Z.eqb_spec i j), (Z.leb_spec (i + 1) j), (Z.leb_spec i j), (Z.ltb_spec j (i + 1 + Z.of_nat n)),
    (Z.ltb_spec j (i + Z.of_nat (S n))); try lia; cbn [andb]; rewrite ?orb_false_r; done.
Qed.

Lemma trailing_zeros_spec (w : nat) (m : Z) :
  0 < m < 2 ^ Z.of_nat w →
  0 ≤ trailing_zeros w m < Z.of_nat w ∧ Z.testbit m (trailing_zeros w m) = true ∧
  ∀ i, 0 ≤ i < trailing_zeros w m → Z.testbit m i = false.
Proof.
  revert m. induction w as [|w IH]; intros m Hm; [lia|]. cbn [trailing_zeros]. destruct (Z.odd m) eqn:Eo.
  - split_and!; [lia..| |lia]. by rewrite Z.bit0_odd.
  - assert (m = 2 * (m / 2)) as Heven.
    { pose proof (Z.div_mod m 2 ltac:(lia)) as Hd. rewrite Zmod_odd, Eo in Hd. lia. }
    destruct (IH (m / 2)) as (Hb & Ht & Hz).
    { replace (Z.of_nat (S w)) with (Z.succ (Z.of_nat w)) in Hm by lia. rewrite Z.pow_succ_r in Hm by lia. lia. }
    split_and!; [lia..| |].
    + replace (1 + trailing_zeros w (m / 2)) with (Z.succ (trailing_zeros w (m / 2))) by lia. by rewrite <- Z.div2_bits by lia.
    + intros i Hi. destruct (Z.eq_dec i 0) as [->|]; [by rewrite Z.bit0_odd|].
      replace i with (Z.succ (i - 1)) by lia. rewrite <- Z.div2_bits by lia. apply Hz. lia.
Qed.

Section holes.
Context {T : Type}.
Implicit Types t : BlockTransfer T.

(** Whether the receiver knows where the body ends. *)
Definition announced t : bool :=
  match bx_role t, bx_request_binding t, bx_expected_len t with
  | IncomingQBlock1, Some binding, Some _ => rb_non_confirmable binding
  | _, _, _ => false
  end.

(** Numbers to ask for again: missing, in the window, and known to exist. *)
Definition recoverable t (last : Z) (R : list Z) (base num : Z) : Prop :=
  base ≤ num < base + MAX_PAYLOADS ∧ (num ∉ R) ∧
  (if announced t || q_received R last then num ≤ last else ∃ later, later ∈ R ∧ num < later).

Lemma log2_later q last last_len R num :
  q_rep q last last_len R → qx_base q ≤ num →
  (num - qx_base q < Z.log2 (qx_mask q)) ↔ ∃ later, later ∈ R ∧ num < later.
Proof.
  intros (Hb & _ & Hm & HR & _) Hn. unfold MAX_PAYLOADS in *. split.
  - intros Hlt. exists (qx_base q + Z.log2 (qx_mask q)). split; [|lia]. apply HR. right.
    assert (qx_mask q ≠ 0) by (intros E; rewrite E in Hlt; cbn in Hlt; lia).
    assert (Z.log2 (qx_mask q) < 10) by (apply Z.log2_lt_pow2; [lia|]; by destruct Hm).
    split; [lia|]. replace (_ - _) with (Z.log2 (qx_mask q)) by lia. apply Z.bit_log2. lia.
  - intros (later & Hin & Hlt). apply HR in Hin as [?|[Hw Ht]]; [lia|].
    destruct (Z.le_gt_cases (later - qx_base q) (Z.log2 (qx_mask q))); [lia|].
    by rewrite Z.bits_above_log2 in Ht by lia.
Qed.

Lemma known_end_ceil (L : nat) (szx : Z) :
  0 ≤ szx ≤ 6 → (0 < L)%nat →
  Z.of_nat L / 2 ^ (4 + szx) + Z.b2z (negb (Z.of_nat L mod 2 ^ (4 + szx) =? 0)) = last_num L szx + 1.
Proof.
  intros Hs HL. pose proof (sz_Z _ Hs) as [Hz _]. pose proof (last_num_bounds L szx Hs) as [H1 H2].
  assert (0 ≤ last_num L szx) by (unfold last_num; lia). rewrite <- Hz. pose proof (sz_pos _ Hs).
  set (s := Z.of_nat (sz szx)) in *. set (l := last_num L szx) in *.
  assert (l * s ≤ Z.of_nat L - 1 < (l + 1) * s) as Hl.
  { assert (Z.of_nat (Z.to_nat l) = l) by lia. unfold s. nia. }
  pose proof (Z.div_mod (Z.of_nat L) s ltac:(lia)) as Hd. pose proof (Z.mod_pos_bound (Z.of_nat L) s ltac:(lia)).
  destruct (Z.eqb_spec (Z.of_nat L mod s) 0); cbn [negb Z.b2z]; nia.
Qed.

Lemma known_end_None t q : announced t = false → q_known_end t q = None.
Proof. unfold announced, q_known_end. by destruct (bx_role t), (bx_request_binding t) as [[]|], (bx_expected_len t); cbn; intros; subst. Qed.

Lemma known_end_Some t q L :
  announced t = true → bx_expected_len t = None ∨ bx_expected_len t = Some (Z.of_nat L) → 0 ≤ bx_szx t ≤ 6 → (0 < L)%nat →
  qx_base q ≤ last_num L (bx_szx t) → q_known_end t q = Some (last_num L (bx_szx t) + 1 - qx_base q).
Proof.
  unfold announced, q_known_end. intros Ha He Hs HL Hb. destruct (bx_role t); try done.
  destruct (bx_request_binding t) as [b|]; [|done]. destruct He as [He|He]; rewrite He in *; [done|]. rewrite Ha.
  assert (shl 32 1 (bx_szx t + 4) = 2 ^ (4 + bx_szx t)) as ->.
  { unfold shl. rewrite Z.shiftl_1_l, Z.add_comm. apply wrap_small. split; [lia|]. apply Z.pow_lt_mono_r; lia. }
  rewrite known_end_ceil by done. unfold saturating_sub. by rewrite Z.max_l by lia.
Qed.

(** The window positions that the code looks at. *)
Lemma q_hole_end_spec {E} t q L szx R :
  q_state t L szx R → bx_q t = Some q → 0 ≤ szx ≤ 6 → (0 < L)%nat →
  ∃ stop, 0 ≤ stop ≤ MAX_PAYLOADS ∧
    q_hole_end (E:=E) t q =
      (if (qx_mask q =? 0) && negb (announced t || q_received R (last_num L szx)) then Ok None else Ok (Some stop)) ∧
    ∀ num, qx_base q ≤ num < qx_base q + MAX_PAYLOADS →
      (num - qx_base q < stop ↔
       if announced t || q_received R (last_num L szx) then num ≤ last_num L szx else ∃ later, later ∈ R ∧ num < later).
Proof.
  intros (_ & Hszx & Hexp & (q' & Hq' & Hq) & _) Hbq Hs HL. rewrite Hbq in Hq'. injection Hq' as <-. subst szx.
  pose proof Hq as (Hb & _ & Hm & _ & _ & Hfin & _). unfold q_hole_end, MAX_PAYLOADS in *.
  destruct (announced t) eqn:Ea; cbn [orb negb]; rewrite ?andb_false_r.
  - rewrite (known_end_Some t q L) by (try done; lia). eexists. split; [|split; [done|]].
    + destruct (Z.ltb_spec (last_num L (bx_szx t) + 1 - qx_base q) 10); lia.
    + intros num Hn. destruct (Z.ltb_spec (last_num L (bx_szx t) + 1 - qx_base q) 10); lia.
  - rewrite (known_end_None _ _ Ea), Hfin. destruct (q_received R (last_num L (bx_szx t))); cbn [negb]; rewrite ?andb_false_r, ?andb_true_r.
    + unfold sub_panics. rewrite (proj2 (Z.leb_le _ _)) by lia. unbind. eexists. split; [|split; [done|]].
      * destruct (Z.leb_spec 10 (last_num L (bx_szx t) - qx_base q)); lia.
      * intros num Hn. destruct (Z.leb_spec 10 (last_num L (bx_szx t) - qx_base q)); lia.
    + exists (Z.log2 (qx_mask q)). assert (Z.log2 (qx_mask q) < 10 ∧ 0 ≤ Z.log2 (qx_mask q)) as [Hlog Hlog0].
      { destruct (Z.eq_dec (qx_mask q) 0) as [->|]; [done|]. split; [|apply Z.log2_nonneg]. apply Z.log2_lt_pow2; [lia|]. by destruct Hm. }
      split_and!; [lia..| |intros num Hn; apply (log2_later _ _ _ _ _ Hq); lia]. unfold leading_zeros16.
      destruct (Z.eqb_spec (qx_mask q) 0); cbn [negb]; [done|]. do 2 f_equal. lia.
Qed.
End holes.

Section holes_exact.
Context `{Target} {T : Type}.
Implicit Types t : BlockTransfer T.

(** The holes a receiver reports are exactly the numbers worth asking for:
    missing, within the window, and known to exist because the end of the body
    is known or a later block has arrived.  The first one is the lowest.  The
    search never panics, and each reported number is a block that the sender of
    the body reissues. *)
Theorem q_holes_exact t (sender : BlockTransfer T) L szx R :
  q_state t L szx R → bx_complete t = false → 0 ≤ szx ≤ 6 → (0 < L)%nat → Z.of_nat L ≤ BODY_MAX →
  is_outgoing (bx_role sender) = true → is_q_block (bx_role sender) = true → bx_szx sender = szx → bx_filled sender = L →
  match q_holes (E:=unit) t with
  | Ok None => ∀ num, ¬ recoverable t (last_num L szx) R (window_base t) num
  | Ok (Some (first, holes)) =>
      (∀ num, recoverable t (last_num L szx) R (window_base t) num ↔
         window_base t ≤ num < window_base t + MAX_PAYLOADS ∧ Z.testbit holes (num - window_base t) = true) ∧
      recoverable t (last_num L szx) R (window_base t) first ∧
      (∀ num, recoverable t (last_num L szx) R (window_base t) num →
         first ≤ num ∧ reissue_q_outgoing sender num = Ok (piece L szx num))
  | _ => False
  end.
Proof.
  intros Hst Hc Hs HL HB Hso Hsq Hss Hsf. pose proof Hst as (Hr & Hszx & Hexp & (q & Hbq & Hq) & _).
  destruct (q_hole_end_spec (E:=unit) t q L szx R Hst Hbq Hs HL) as (stop & Hstop & Hend & Hin).
  apply andb_true_iff in Hr as [Hr1 Hr2]. unfold q_holes. rewrite Hr1, Hr2, Hc, Hbq, Hend. cbn [negb orb]. unbind.
  assert (window_base t = qx_base q) as -> by (unfold window_base; by rewrite Hbq).
  pose proof Hq as (Hb & _ & Hm & HR & Hle & _). unfold MAX_PAYLOADS in *.
  assert (∀ num, recoverable t (last_num L szx) R (qx_base q) num ↔
    qx_base q ≤ num < qx_base q + 10 ∧ Z.testbit (holes_loop (Z.to_nat stop) 0 (qx_mask q) 0) (num - qx_base q) = true) as Hrec.
  { intros num. unfold recoverable, MAX_PAYLOADS. destruct (decide (qx_base q ≤ num < qx_base q + 10)) as [Hw|Hw]; [|tauto].
    rewrite <- Hin, holes_loop_spec, Z.bits_0 by lia. rewrite <- (q_rep_in _ _ _ _ num Hq) by (unfold MAX_PAYLOADS; lia).
    cbn [orb]. rewrite !andb_true_iff, Z.leb_le, Z.ltb_lt, negb_true_iff, <- not_true_iff_false, q_received_spec, Z2Nat.id by lia.
    split; intros Hx; destruct_and? Hx; split_and!; try done; lia. }
  destruct ((qx_mask q =? 0) && _) eqn:Enone.
  { apply andb_true_iff in Enone as [Em En]. apply Z.eqb_eq in Em. intros num (Hw & _ & Hk). apply negb_true_iff in En.
    rewrite En in Hk. destruct Hk as (later & Hl & Hlt). apply HR in Hl as [?|[_ Hbit]]; [unfold MAX_PAYLOADS in *; lia|].
    by rewrite Em, Z.bits_0 in Hbit. }
  set (holes := holes_loop (Z.to_nat stop) 0 (qx_mask q) 0) in *.
  assert (∀ j, 10 ≤ j → Z.testbit holes j = false) as Hhigh.
  { intros j Hj. unfold holes. rewrite holes_loop_spec, Z.bits_0 by lia. cbn [orb]. rewrite (proj2 (Z.ltb_ge _ _)) by lia.
    by rewrite andb_false_r. }
  assert (0 ≤ holes) as H0.
  { destruct (Z.le_gt_cases 0 holes) as [?|Hneg]; [done|]. exfalso.
    assert (Z.testbit holes (10 + Z.log2 (Z.pred (- holes)) + 1) = true) as Ht; [|].
    - apply Z.bits_above_log2_neg; [done|]. pose proof (Z.log2_nonneg (Z.pred (- holes))). lia.
    - rewrite Hhigh in Ht; [done|]. pose proof (Z.log2_nonneg (Z.pred (- holes))). lia. }
  pose proof (below_pow2 holes 10 ltac:(lia) H0 Hhigh) as Hlt.
  destruct (Z.eqb_spec holes 0) as [E0|E0].
  { intros num Hn. apply Hrec in Hn as [_ Hn]. by rewrite E0, Z.bits_0 in Hn. }
  destruct (trailing_zeros_spec 16 holes) as (Htz & Hbit & Hlow); [change (2 ^ 10) with 1024 in Hlt; cbn; lia|].
  assert (trailing_zeros 16 holes < 10) as H10.
  { destruct (Z.lt_ge_cases (trailing_zeros 16 holes) 10); [done|]. by rewrite Hhigh in Hbit by lia. }
  pose proof (last_num_max L szx Hs HB) as HN. unfold add_panics, max_u. unfold NUM_MAX in HN. rewrite (proj2 (Z.leb_le _ _)) by lia.
  unbind. split_and!; [done| |].
  - apply Hrec. split; [lia|]. by replace (_ - _) with (trailing_zeros 16 holes) by lia.
  - intros num Hn. assert (0 ≤ num ≤ last_num L szx) as Hnum.
    { destruct Hn as (Hw & _ & Hk). split; [lia|]. destruct (announced t || _); [done|].
      destruct Hk as (later & Hl & Hlt'). apply Hle in Hl. lia. }
    apply Hrec in Hn as [Hw Hn]. split.
    + destruct (Z.le_gt_cases (qx_base q + trailing_zeros 16 holes) num); [done|]. by rewrite Hlow in Hn by lia.
    + unfold reissue_q_outgoing. rewrite Hso, Hsq. cbn [negb orb].
      rewrite outgoing_range_piece by (rewrite ?Hss; unfold NUM_MAX; lia). rewrite Hss, Hsf.
      by rewrite has_piece_last, (proj2 (Z.leb_le _ _)) by lia.
Qed.
End holes_exact.

(** ** The order of sending *)
Lemma ones_bits (k i : Z) : 0 ≤ k → 0 ≤ i → Z.testbit (Z.ones k) i = (i <? k).
Proof.
  intros Hk Hi. destruct (Z.ltb_spec i k); [by apply Z.ones_spec_low|apply Z.ones_spec_high; lia].
Qed.

Lemma trailing_ones_ones (k : Z) : 0 ≤ k < 16 → trailing_ones 16 (Z.ones k) = k.
Proof.
  intros Hk. assert (0 ≤ Z.ones k) as H0 by (rewrite Z.ones_equiv; lia).
  destruct (trailing_ones_spec 16 (Z.ones k) H0) as (Hb & Hones & Hzero).
  destruct (Z.lt_trichotomy (trailing_ones 16 (Z.ones k)) k) as [Hlt|[?|Hgt]]; [|done|].
  - specialize (Hzero ltac:(lia)). by rewrite ones_bits, (proj2 (Z.ltb_lt _ _)) in Hzero by lia.
  - specialize (Hones k ltac:(lia)). by rewrite ones_bits, Z.ltb_irrefl in Hones by lia.
Qed.

Lemma ones_next (k : Z) : 0 ≤ k < 16 → Z.lor (Z.ones k) (shl 16 1 k) = Z.ones (k + 1).
Proof.
  intros Hk. apply Z.bits_inj'. intros i Hi. rewrite mask_set, !ones_bits by lia.
  destruct (Z.ltb_spec i k), (Z.eqb_spec k i), (Z.ltb_spec i (k + 1)); try lia; done.
Qed.

Lemma ones_full (k : Z) : 0 ≤ k ≤ 10 → (Z.ones k =? window_full) = (k =? 10).
Proof.
  intros Hk. rewrite window_full_eq. destruct (Z.eqb_spec k 10) as [->|]; [done|]. apply Z.eqb_neq.
  rewrite Z.ones_equiv. intros He. assert (2 ^ k < 2 ^ 10) by (apply Z.pow_lt_mono_r; lia). change (2 ^ 10) with 1024 in *. lia.
Qed.

(** What a sender is asked to do. *)
Inductive q_op : Type := QIssue | QAck (num : Z) | QPace.

Section sender.
Context `{Target} {T : Type}.
Implicit Types t : BlockTransfer T.

Definition q_do (op : q_op) : bx_st (T:=T) (list (BlockValue * nat * nat)) :=
  match op with
  | QIssue => b ← issue_q_outgoing; mret [b]
  | QAck num => ack_q_window num;; mret []
  | QPace => bx_pace_q_block1;; mret []
  end.

(** The blocks issued by a sequence of requests, refused ones skipped. *)
Fixpoint q_sends (ops : list q_op) t : BlockTransfer T * list (BlockValue * nat * nat) :=
  match ops with
  | [] => (t, [])
  | op :: ops =>
      let '(t, r) := q_do op t in
      let '(t', issued) := q_sends ops t in
      (t', (match r with Ok bs => bs | _ => [] end) ++ issued)
  end.

(** A sender whose next block is [n]. *)
Definition q_sending t (L : nat) (szx n : Z) : Prop :=
  is_outgoing (bx_role t) = true ∧ is_q_block (bx_role t) = true ∧ bx_szx t = szx ∧ bx_filled t = L ∧
  q_observe_recovery t = false ∧ bx_complete t = (n =? last_num L szx + 1) ∧ n ≤ last_num L szx + 1 ∧
  ∃ q, bx_q t = Some q ∧ 0 ≤ qx_base q ≤ n ∧ n ≤ qx_base q + MAX_PAYLOADS ∧ qx_base q mod MAX_PAYLOADS = 0 ∧
    qx_mask q = Z.ones (n - qx_base q).

Lemma recovery_ident t t' : ident t' = ident t → q_observe_recovery t' = q_observe_recovery t.
Proof.
  destruct t, t'. intros Hi. unfold ident in Hi. simplify_eq/=. done.
Qed.

Lemma q_issue_step t L szx n :
  q_sending t L szx n → 0 ≤ szx ≤ 6 → Z.of_nat L ≤ BODY_MAX →
  (∃ e, issue_q_outgoing t = (t, Err e) ∧
     (n = last_num L szx + 1 ∧ e = AlreadyComplete ∨ n = window_base t + MAX_PAYLOADS ∧ e = OutsideWindow)) ∨
  (∃ t', issue_q_outgoing t = (t', Ok (piece L szx n)) ∧ q_sending t' L szx (n + 1)).
Proof.
  intros (Ho & Hqb & Hszx & Hf & Hrec & Hc & Hn & q & Hq & Hb & Hw & Hal & Hm) Hs HL.
  pose proof (last_num_max L szx Hs HL) as HN. unfold MAX_PAYLOADS, NUM_MAX in *.
  unfold issue_q_outgoing. unbind. rewrite Ho, Hqb. cbn [negb orb].
  destruct (bx_complete t) eqn:Ec.
  { left. exists AlreadyComplete. split; [done|]. left. symmetry in Hc. apply Z.eqb_eq in Hc. done. }
  symmetry in Hc. apply Z.eqb_neq in Hc. rewrite Hq. cbn [ok_or]. cbn beta iota. rewrite Hm, trailing_ones_ones by lia.
  destruct (Z.leb_spec MAX_PAYLOADS (n - qx_base q)) as [Hfull|Hroom]; unfold MAX_PAYLOADS in *.
  { left. exists OutsideWindow. split; [done|]. right. unfold window_base. rewrite Hq. split; [lia|done]. }
  right. unfold checked_add, max_u. rewrite (proj2 (Z.leb_le _ _)) by lia. cbn [ok_or]. cbn beta iota.
  replace (qx_base q + (n - qx_base q)) with n by lia. unfold issue_range. unbind. rewrite Hq. cbn beta iota.
  rewrite (proj2 (Z.ltb_ge _ _)) by lia. unfold MAX_PAYLOADS at 1. rewrite (proj2 (Z.leb_gt 10 (n - qx_base q))) by lia. rewrite Hm, mask_test, ones_bits, Z.ltb_irrefl by lia.
  cbn [negb]. rewrite outgoing_range_piece by (rewrite ?Hszx; unfold NUM_MAX; lia). rewrite Hf, Hszx, has_piece_last by lia.
  rewrite (proj2 (Z.leb_le n _)) by lia. cbn beta iota. unfold piece. cbn beta iota zeta. unfold checked_add, max_u.
  rewrite (proj2 (Z.leb_le _ _)) by lia. cbn [ok_or]. cbn beta iota. rewrite ones_next by lia.
  eexists. split; [done|]. unfold q_sending. cbn [set_pos set_q bx_role bx_szx bx_filled bx_complete bx_q bv_more].
  assert (∀ t', ident t' = ident t → q_observe_recovery t' = false) as Hrec'.
  { intros t' Hi. by rewrite (recovery_ident _ _ Hi). }
  split_and!; try done; [|lia|].
  - rewrite piece_more_last, Hrec' by (done || lia). cbn [andb]. rewrite orb_false_r. destruct (Z.ltb_spec n (last_num L szx)), (Z.eqb_spec (n + 1) (last_num L szx + 1)); lia || done.
  - eexists. split; [done|]. cbn. unfold MAX_PAYLOADS. split_and!; try done; try lia. f_equal. lia.
Qed.

(** The window moves when it is used up, by acknowledgement or pacing. *)
Definition window_moves t (m : bx_st (T:=T) unit) (q : QWindow) : Prop :=
  (∃ e, m t = (t, Err e)) ∨
  (m t = (set_q t (Some (q_with_base q (qx_base q + MAX_PAYLOADS) 0)), Ok tt) ∧ qx_mask q = window_full ∧ bx_complete t = false).

Lemma pace_moves t q : bx_q t = Some q → window_moves t bx_pace_q_block1 q.
Proof.
  intros Hq. unfold window_moves, bx_pace_q_block1. unbind. destruct (negb (eqb (bx_role t) OutgoingQBlock1)); [eauto|].
  destruct (bx_complete t) eqn:Ec; [eauto|]. rewrite Hq. cbn [ok_or]. cbn beta iota.
  destruct (Z.eqb_spec (qx_mask q) window_full) as [Ef|Ef]; cbn [negb]; [|eauto]. unfold checked_add.
  destruct (_ <=? _); cbn [ok_or]; cbn beta iota; [|eauto]. by right.
Qed.

Lemma ack_moves t q num L szx n :
  q_sending t L szx n → bx_q t = Some q → window_moves t (ack_q_window num;; mret tt) q.
Proof.
  intros (Ho & Hqb & _ & _ & _ & _ & _ & q' & Hq' & Hb & Hw & _ & Hm) Hq. rewrite Hq in Hq'. injection Hq' as <-.
  unfold window_moves, ack_q_window. unbind. rewrite Ho, Hqb. cbn [negb orb].
  destruct (bx_complete t) eqn:Ec; [eauto|]. rewrite Hq. cbn [ok_or]. cbn beta iota. unfold MAX_PAYLOADS in *.
  destruct (bx_role t) eqn:Er; try done.
  - destruct (Z.ltb_spec num (qx_base q)); [eauto|]. destruct (Z.leb_spec 10 (num - qx_base q)); [eauto|].
    destruct (Z.eqb_spec (num - qx_base q) (10 - 1)) as [E9|]; cbn [negb]; [|eauto]. rewrite E9.
    change (shl 16 1 (10 - 1 + 1) - 1) with window_full.
    destruct (Z.eqb_spec (Z.land (qx_mask q) window_full) window_full) as [Ef|]; cbn [negb]; [|eauto].
    unfold checked_add. destruct (_ <=? _); cbn [ok_or]; cbn beta iota; [|eauto]. right.
    replace (num + 1) with (qx_base q + 10) by lia. split_and!; try done.
    rewrite window_full_eq in *. rewrite (land_mask _ 10 1023) in Ef by done. rewrite Hm in *.
    rewrite Z.ones_equiv in *. rewrite Z.mod_small in Ef; [done|]. pose proof (Z.pow_pos_nonneg 2 (n - qx_base q)).
    assert (2 ^ (n - qx_base q) ≤ 2 ^ 10) by (apply Z.pow_le_mono_r; lia). lia.
  - destruct ((num =? 0) || _); [eauto|]. unfold checked_add. destruct (_ <=? _); cbn [ok_or]; cbn beta iota; [|eauto].
    destruct (Z.ltb_spec num (qx_base q + 10)); [eauto|]. destruct (Z.ltb_spec (qx_base q + 10) num); [eauto|].
    destruct (Z.eqb_spec (qx_mask q) window_full) as [Ef|]; cbn [negb]; [|eauto]. right.
    by replace num with (qx_base q + 10) by lia.
Qed.

Lemma moved_sending t q L szx n :
  q_sending t L szx n → bx_q t = Some q → qx_mask q = window_full →
  q_sending (set_q t (Some (q_with_base q (qx_base q + MAX_PAYLOADS) 0))) L szx n.
Proof.
  intros (Ho & Hqb & Hszx & Hf & Hrec & Hc & Hn & q' & Hq' & Hb & Hw & Hal & Hm) Hq Hfull. rewrite Hq in Hq'. injection Hq' as <-.
  unfold MAX_PAYLOADS in *. assert (n = qx_base q + 10) as Hn10.
  { rewrite Hm in Hfull. apply Z.eqb_eq in Hfull. rewrite ones_full in Hfull by lia. apply Z.eqb_eq in Hfull. lia. }
  unfold q_sending. cbn [set_q bx_role bx_szx bx_filled bx_complete bx_q]. split_and!; try done.
  eexists. split; [done|]. cbn. unfold MAX_PAYLOADS. rewrite Hn10, Z.sub_diag. split_and!; try done; [lia..|div_lia].
Qed.

Lemma q_do_step t L szx n op :
  q_sending t L szx n → 0 ≤ szx ≤ 6 → Z.of_nat L ≤ BODY_MAX →
  ∃ t' r, q_do op t = (t', r) ∧ returns r ∧
    (q_sending t' L szx n ∧ match r with Ok bs => bs = [] | _ => True end ∨ q_sending t' L szx (n + 1) ∧ r = Ok [piece L szx n]).
Proof.
  intros Hs Hz HL. pose proof Hs as (_ & _ & _ & _ & _ & _ & _ & q & Hq & _).
  assert (∀ m : bx_st unit, window_moves t m q →
    ∃ t' r, (m;; mret (A:=list (BlockValue * nat * nat)) []) t = (t', r) ∧ returns r ∧
      (q_sending t' L szx n ∧ match r with Ok bs => bs = [] | _ => True end ∨ q_sending t' L szx (n + 1) ∧ r = Ok [piece L szx n])) as Hmove.
  { intros m [[e He]|(He & Hf & _)]; unbind; rewrite He; eexists _, _; (split; [done|]); (split; [done|]); left; [done|].
    split; [|done]. by apply moved_sending. }
  destruct op as [|num|]; cbn [q_do].
  - unbind. destruct (q_issue_step t L szx n Hs Hz HL) as [(e & -> & _)|(t' & -> & Ht')]; eexists _, _; (split; [done|]); (split; [done|]); auto.
  - destruct (Hmove (ack_q_window num;; mret tt)) as (t' & r & Hr & Hpost); [by apply (ack_moves t q num L szx n)|].
    exists t', r. split; [|done]. rewrite <- Hr. unbind. by destruct (ack_q_window num t) as [? [| | |]].
  - apply Hmove. by apply pace_moves.
Qed.

Lemma q_sends_from t L szx n ops :
  q_sending t L szx n → 0 ≤ n → 0 ≤ szx ≤ 6 → Z.of_nat L ≤ BODY_MAX →
  ∃ k, 0 ≤ k ∧ q_sending (q_sends ops t).1 L szx (n + k) ∧ (q_sends ops t).2 = piece L szx <$> seqZ n k.
Proof.
  intros Hs Hn Hz HL. revert t n Hs Hn. induction ops as [|op ops IH]; intros t n Hs Hn.
  { exists 0. cbn. rewrite Z.add_0_r. split_and!; [lia|done|]. by rewrite seqZ_nil by lia. }
  destruct (q_do_step t L szx n op Hs Hz HL) as (t1 & r & Hdo & _ & [[Hs1 Hr]|[Hs1 Hr]]); cbn [q_sends]; rewrite Hdo.
  - destruct (IH t1 n Hs1 Hn) as (k & Hk & Hs2 & Hi). exists k. destruct (q_sends ops t1). cbn [fst snd] in *. split_and!; try done.
    by destruct r; subst.
  - destruct (IH t1 (n + 1) Hs1 ltac:(lia)) as (k & Hk & Hs2 & Hi). exists (1 + k). destruct (q_sends ops t1). cbn [fst snd] in *.
    subst r. split_and!; [lia|by rewrite Z.add_assoc|]. rewrite Hi, seqZ_app by lia. done.
Qed.

(** A Q-Block sender issues each block of its body once and in order.  Under
    any sequence of issue, acknowledgement and pacing requests, refused ones
    included, the blocks issued so far are blocks 0 to n - 1 of the body; at
    most ten follow the start of the window, which moves only when all ten of it
    have been issued; the transfer is complete when the last block is out, and
    no request panics. *)
Theorem q_sender_order key role L szx cap ops t :
  outgoing_q (T:=T) key role L szx cap = Ok t → 0 ≤ szx ≤ 6 → Z.of_nat L ≤ BODY_MAX →
  let '(t', issued) := q_sends ops t in
  ∃ n, 0 ≤ n ≤ last_num L szx + 1 ∧ issued = piece L szx <$> seqZ 0 n ∧
    window_base t' ≤ n ≤ window_base t' + MAX_PAYLOADS ∧ window_base t' mod MAX_PAYLOADS = 0 ∧
    window_mask t' = Z.ones (n - window_base t') ∧ bx_complete t' = (n =? last_num L szx + 1) ∧
    ∀ op, returns (q_do op t').2.
Proof.
  intros Ho Hs HL. assert (q_sending t L szx 0) as Hst.
  { unfold outgoing_q, outgoing_common in Ho. destruct (is_outgoing role) eqn:E1, (is_q_block role) eqn:E2; cbn [negb orb] in Ho; try done.
    destruct (szx =? SZX_BERT); [done|]. rewrite size_from_szx_ok in Ho by done. unbind. cbn [map_err] in Ho.
    destruct (cap <? L)%nat; [done|]. destruct (u_try_from_usize 32 L); [|done]. injection Ho as <-.
    assert (0 ≤ last_num L szx) by (unfold last_num; lia). unfold q_sending. cbn [fresh_transfer bx_role bx_szx bx_filled bx_complete bx_q].
    split_and!; try done; [|symmetry; apply Z.eqb_neq; lia|lia|].
    - unfold q_observe_recovery, q_observe_confirmable, q_observe_sequence. cbn. by destruct role.
    - eexists. split; [done|]. cbn. unfold MAX_PAYLOADS. split_and!; done || lia. }
  destruct (q_sends_from t L szx 0 ops Hst ltac:(lia) Hs HL) as (n & Hn & Hst' & Hi).
  destruct (q_sends ops t) as [t' issued]. cbn [fst snd] in *. exists n. rewrite Z.add_0_l in Hst'.
  pose proof Hst' as (_ & _ & _ & _ & _ & Hc & Hle & q & Hq & Hb & Hw & Hal & Hm).
  unfold window_base, window_mask. rewrite Hq. split_and!; try done; try lia. intros op.
  destruct (q_do_step t' L szx n op Hst' Hs HL) as (t1 & r & -> & Hr & _). done.
Qed.
End sender.

(** ** The end of recovery *)
Section recovery.
Context {T : Type}.
Implicit Types t : BlockTransfer T.

(** Recovery rounds at the given times, until one is refused. *)
Fixpoint recover_at (nows : list Z) t : BlockTransfer T * list (option QBlockReceiveWait) :=
  match nows with
  | [] => (t, [])
  | now :: nows =>
      let '(t, w) := note_q_recover t now in
      let '(t', ws) := recover_at nows t in
      (t', w :: ws)
  end.

(** The wait after [k] rounds, the last at [now]. *)
Definition wait_after (k now : Z) : QBlockReceiveWait :=
  mkWait k (saturating_add 64 now (NON_RECEIVE_TIMEOUT_MS * 2 ^ k)) (NON_RECEIVE_TIMEOUT_MS * 2 ^ k).

(** Rounds [k + 1], [k + 2], ...; nothing after the fourth. *)
Fixpoint rounds (k : Z) (nows : list Z) : list (option QBlockReceiveWait) :=
  match nows with
  | [] => []
  | now :: nows =>
      if k <? NON_MAX_RETRANSMIT then Some (wait_after (k + 1) now) :: rounds (k + 1) nows else None :: rounds k nows
  end.

Lemma wait_next k now0 now :
  0 ≤ k < NON_MAX_RETRANSMIT → wait_next_attempt (wait_after k now0) now = Some (wait_after (k + 1) now).
Proof.
  change NON_MAX_RETRANSMIT with 4. intros Hk. unfold wait_next_attempt, wait_after. cbn [qw_attempts qw_timeout_ms].
  change NON_MAX_RETRANSMIT with 4. rewrite (proj2 (Z.leb_gt _ _)) by lia. change NON_RECEIVE_TIMEOUT_MS with 4000.
  assert (saturating_mul 32 (4000 * 2 ^ k) 2 = 4000 * 2 ^ (k + 1)) as ->.
  { unfold saturating_mul, max_u. rewrite Z.pow_add_r by lia. assert (2 ^ k ≤ 2 ^ 4) by (apply Z.pow_le_mono_r; lia).
    rewrite Z.min_l; [lia|]. change (2 ^ 4) with 16 in *. lia. }
  unfold saturating_add at 1, max_u. by rewrite Z.min_l by lia.
Qed.

Lemma recover_rounds t k now0 nows :
  0 ≤ k ≤ NON_MAX_RETRANSMIT → bx_q_receive t = RWait (wait_after k now0) → (recover_at nows t).2 = rounds k nows.
Proof.
  change NON_MAX_RETRANSMIT with 4. revert t k now0. induction nows as [|now nows IH]; intros t k now0 Hk Ht; [done|].
  cbn [recover_at rounds]. unfold note_q_recover. rewrite Ht. cbn [retention_wait mbind option_bind].
  change NON_MAX_RETRANSMIT with 4. destruct (Z.ltb_spec k 4) as [Hlt|Hge].
  - rewrite wait_next by (change NON_MAX_RETRANSMIT with 4; lia).
    specialize (IH (set_retention t (RWait (wait_after (k + 1) now))) (k + 1) now ltac:(lia) eq_refl).
    destruct (recover_at nows _). cbn [snd] in *. by rewrite IH.
  - assert (k = 4) as -> by lia. change (wait_next_attempt (wait_after 4 now0) now) with (@None QBlockReceiveWait).
    cbn beta iota. specialize (IH t 4 now0 ltac:(lia) Ht). destruct (recover_at nows t). cbn [snd] in *. by rewrite IH.
Qed.

(** C37: recovery ends.  A receiver with holes waits 4 s and then twice as long
    after each request for the missing blocks; the waits double exactly, and
    whenever it is polled, it asks four times and never again. *)
Theorem q_recovery_ends t t' now holes nows :
  is_incoming (bx_role t) = true → is_q_block (bx_role t) = true →
  q_holes (E:=unit) t = Ok (Some holes) → note_q_receive (E:=unit) t now = Ok t' →
  bx_receive t' = Some (wait_after 0 now) ∧ (recover_at nows t').2 = rounds 0 nows ∧
  (length (omap id (recover_at nows t').2) ≤ 4)%nat.
Proof.
  intros Hi Hq Hh Hn. unfold note_q_receive in Hn. rewrite Hi, Hq, Hh in Hn. cbn [negb orb] in Hn. unbind. injection Hn as <-.
  rewrite (recover_rounds _ 0 now nows) by (change NON_MAX_RETRANSMIT with 4; lia || done). split_and!; [|done|].
  - unfold bx_receive. cbn [set_retention bx_role bx_q_receive retention_wait]. by destruct (bx_role t).
  - assert (∀ k, 0 ≤ k ≤ 4 → Z.of_nat (length (omap id (rounds k nows))) ≤ 4 - k) as Hk; [|specialize (Hk 0); lia].
    clear. induction nows as [|now nows IH]; intros k Hk; [cbn; lia|]. cbn [rounds]. change NON_MAX_RETRANSMIT with 4.
    destruct (Z.ltb_spec k 4); cbn [omap list_omap id length].
    + specialize (IH (k + 1) ltac:(lia)). lia.
    + by apply IH.
Qed.
End recovery.

(** ** Witnesses *)

(** A receiver of 13 blocks that has blocks 0, 1 and 4. *)
Definition ex_q_in : BlockTransfer nat :=
  mkTransfer ex_block_key IncomingQBlock2 4 0 true 2 32 false None (Some (mkQ 0 19 None 0 None None)) RNone None None None.
Definition ex_q_out : BlockTransfer nat :=
  fresh_transfer ex_block_key OutgoingQBlock2 0 false 200 (Some 200) (Some QWindow_empty).

Lemma ex_q_in_state : q_state ex_q_in 200 0 [4; 1; 0].
Proof.
  unfold q_state. cbn [ex_q_in bx_role bx_szx bx_expected_len bx_q bx_complete bx_filled].
  assert (last_num 200 0 = 12) as -> by reflexivity. split_and!; try done; [by left|].
  eexists. split; [done|]. unfold q_rep, MAX_PAYLOADS. cbn [qx_base qx_mask qx_final_num qx_final_payload_len].
  split_and!; try done.
  - intros num. rewrite !elem_of_cons, elem_of_nil. split.
    + intros [->|[->|[->|[]]]]; right; (split; [lia|reflexivity]).
    + intros [?|[Hn Ht]]; [lia|]. rewrite Z.sub_0_r in Ht.
      assert (num = 0 ∨ num = 1 ∨ num = 2 ∨ num = 3 ∨ num = 4 ∨ num = 5 ∨ num = 6 ∨ num = 7 ∨ num = 8 ∨ num = 9) as Hc by lia.
      by destruct Hc as [->|[->|[->|[->|[->|[->|[->|[->|[->| ->]]]]]]]]]; auto.
  - intros num. rewrite !elem_of_cons, elem_of_nil. intros [->|[->|[->|[]]]]; lia.
Qed.

Lemma q_holes_exact_witness :
  q_holes (E:=unit) ex_q_in = Ok (Some (2, 12)) ∧ reissue_q_outgoing (H:=target64) ex_q_out 3 = Ok (piece 200 0 3).
Proof.
  pose proof (q_holes_exact (H:=target64) ex_q_in ex_q_out 200 0 [4; 1; 0]) as Hx.
  assert (q_holes (E:=unit) ex_q_in = Ok (Some (2, 12))) as Hh by reflexivity. split; [exact Hh|].
  rewrite Hh in Hx. destruct Hx as (_ & _ & Hx).
  - apply ex_q_in_state.
  - reflexivity.
  - lia.
  - lia.
  - unfold BODY_MAX. lia.
  - reflexivity.
  - reflexivity.
  - reflexivity.
  - reflexivity.
  - apply Hx. split; [change (0 ≤ 3 < 10); lia|]. split.
    + intros Hin. rewrite !elem_of_cons, elem_of_nil in Hin. lia.
    + change (∃ later, later ∈ [4; 1; 0] ∧ 3 < later). exists 4. rewrite elem_of_cons. split; [by left|lia].
Defined.

Lemma q_sender_order_witness :
  (q_sends (H:=target64) [QIssue; QIssue; QAck 9; QIssue] ex_q_out).2 = [piece 200 0 0; piece 200 0 1; piece 200 0 2].
Proof.
  pose proof (q_sender_order (H:=target64) ex_block_key OutgoingQBlock2 200 0 256 [QIssue; QIssue; QAck 9; QIssue] ex_q_out) as Hx.
  destruct (q_sends (H:=target64) [QIssue; QIssue; QAck 9; QIssue] ex_q_out) as [t issued] eqn:Er.
  destruct Hx as (n & Hn & Hi & _).
  - reflexivity.
  - lia.
  - unfold BODY_MAX. lia.
  - cbn [snd]. apply (f_equal snd) in Er. cbn [snd] in Er. rewrite <- Er. reflexivity.
Defined.

Lemma q_recovery_ends_witness :
  ∃ t', note_q_receive (E:=unit) ex_q_in 1000 = Ok t' ∧ bx_receive t' = Some (mkWait 0 5000 4000) ∧
    (recover_at [5000; 13000; 29000; 61000; 125000] t').2 =
      [Some (mkWait 1 13000 8000); Some (mkWait 2 29000 16000); Some (mkWait 3 61000 32000); Some (mkWait 4 125000 64000); None].
Proof.
  destruct (note_q_receive (E:=unit) ex_q_in 1000) as [t'| | |] eqn:Hn; [|by vm_compute in Hn..].
  destruct (q_recovery_ends ex_q_in t' 1000 (2, 12) [5000; 13000; 29000; 61000; 125000]) as (Hw & Hr & _).
  - reflexivity.
  - reflexivity.
  - reflexivity.
  - exact Hn.
  - exists t'. split; [reflexivity|]. split; [exact Hw|exact Hr].
Defined.
