(* ===== verification/BlockBinding.v ===== *)
(** * Request bindings

    [RequestBinding::from_message] ([src/storage/block.rs]) flattens the options
    of a request that take part in its identity into a fixed array.  Two
    requests have the same array exactly when they are the same request. *)
From S2P Require Import Prelude Errors MsgTypes Options Encode Decode OptionsBuilder OptionValues MessageOptions.
From S2P Require Import Pending Occupancy Block.

(** ** What a binding is made of *)

(** The options that count, with integers in their shortest form. *)
Definition bound_option (o : Opt) : option (OptionNumber * list Z) :=
  let number := opt_number o in
  if (number =? ON_IF_NONE_MATCH) || OptionNumber_is_no_cache_key number || is_block_number number then None
  else Some (number, match option_value_format number with Some FUint => strip_zeros (opt_value o) | _ => opt_value o end).
Definition bound_options (os : list Opt) : list (OptionNumber * list Z) := omap bound_option os.

Lemma bound_options_cons o os :
  bound_options (o :: os) = match bound_option o with Some x => x :: bound_options os | None => bound_options os end.
Proof. done. Qed.

(** The number and the length of a value, then the value. *)
Definition frame (o : OptionNumber * list Z) : list Z :=
  be_bytes 2 o.1 ++ be_bytes 2 (wrap 16 (Z.of_nat (length o.2))) ++ o.2.
Definition frames (os : list (OptionNumber * list Z)) : list Z := concat (frame <$> os).

Lemma frames_cons o os : frames (o :: os) = frame o ++ frames os.
Proof. done. Qed.

Lemma frame_inj a b x y :
  in_u 16 a.1 → in_u 16 b.1 → Z.of_nat (length a.2) < 65536 → Z.of_nat (length b.2) < 65536 →
  frame a ++ x = frame b ++ y → a = b ∧ x = y.
Proof.
  intros Ha Hb Hla Hlb He. destruct a as [n1 v1], b as [n2 v2]. unfold frame in He. cbn [fst snd] in *.
  rewrite <- !app_assoc in He. apply app_inj_1 in He as [Hn He]; [|by rewrite !length_be_bytes].
  apply app_inj_1 in He as [Hl He]; [|by rewrite !length_be_bytes].
  apply (f_equal from_be) in Hn, Hl. rewrite !from_be_bytes in Hn, Hl. change (8 * Z.of_nat 2) with 16 in *.
  rewrite !Z.mod_small in Hn by done. unfold wrap in Hl. rewrite !Z.mod_mod, !Z.mod_small in Hl by lia.
  apply app_inj_1 in He as [-> ->]; [by subst|lia].
Qed.

Lemma frames_inj os1 os2 :
  Forall (fun o => in_u 16 o.1 ∧ Z.of_nat (length o.2) < 65536) os1 → Forall (fun o => in_u 16 o.1 ∧ Z.of_nat (length o.2) < 65536) os2 →
  frames os1 = frames os2 → os1 = os2.
Proof.
  intros H1. revert os2. induction H1 as [|a os1 [Ha Hla] H1 IH]; intros os2 H2 He.
  - destruct H2 as [|b os2 [_ _] _]; [done|]. apply (f_equal length) in He. unfold frames, frame in He.
    cbn [fmap list_fmap concat length] in He. rewrite !length_app, !length_be_bytes in He. lia.
  - destruct H2 as [|b os2 [Hb Hlb] H2].
    + apply (f_equal length) in He. unfold frames, frame in He. cbn [fmap list_fmap concat length] in He.
      rewrite !length_app, !length_be_bytes in He. lia.
    + unfold frames in He. cbn [fmap list_fmap concat] in He. apply frame_inj in He as [-> He]; [|done..].
      f_equal. by apply IH.
Qed.

(** ** The loop *)
Section loop.
Context `{Target}.

Lemma binding_append_ok b number value b' :
  binding_append b number value = Ok b' → 0 ≤ rb_len b → length (rb_bytes b) = REQUEST_IDENTITY_BYTES →
  (Z.to_nat (rb_len b) + length (frame (number, value)) ≤ REQUEST_IDENTITY_BYTES)%nat ∧
  rb_bytes b' = splice (rb_bytes b) (Z.to_nat (rb_len b)) (frame (number, value)) ∧
  rb_len b' = rb_len b + Z.of_nat (length (frame (number, value))).
Proof.
  unfold binding_append. intros Ha Hl Hb. unfold usize_checked_add in Ha.
  destruct (Z.of_nat (Z.to_nat (rb_len b) + 4) <=? usize_max); [|done]. cbn [mbind option_bind] in Ha.
  destruct (Z.of_nat _ <=? usize_max); [|done]. cbn [ok_or] in Ha. unbind.
  set (start := Z.to_nat (rb_len b)) in *. unfold REQUEST_IDENTITY_BYTES in *.
  destruct (length (rb_bytes b) <? _)%nat eqn:El; [done|]. apply Nat.ltb_ge in El.
  rewrite copy_into_ok in Ha by (rewrite ?length_be_bytes; lia). cbn beta iota in Ha.
  set (s1 := splice (rb_bytes b) start (be_bytes 2 number)) in *.
  assert (length s1 = 512)%nat as Hs1 by (unfold s1; rewrite length_splice; rewrite ?length_be_bytes; lia).
  rewrite copy_into_ok in Ha by (rewrite ?length_be_bytes; lia). cbn beta iota in Ha.
  set (s2 := splice s1 (start + 2) (be_bytes 2 (wrap 16 (Z.of_nat (length value))))) in *.
  assert (length s2 = 512)%nat as Hs2 by (unfold s2; rewrite length_splice; rewrite ?length_be_bytes; lia).
  rewrite copy_into_ok in Ha by lia.
  cbn beta iota in Ha. injection Ha as <-. unfold frame. cbn [fst snd]. rewrite !length_app, !length_be_bytes.
  split; [lia|]. split.
  - cbn [rb_bytes]. unfold s2. rewrite splice_splice; rewrite ?length_be_bytes; [|lia..].
    unfold s1. rewrite splice_splice; rewrite ?length_app, ?length_be_bytes; [done|lia..].
  - cbn [rb_len]. rewrite wrap_small; unfold in_u; lia.
Qed.

Lemma binding_loop_ok os saw b b' :
  binding_loop os saw b = Ok b' → 0 ≤ rb_len b ≤ 512 → length (rb_bytes b) = REQUEST_IDENTITY_BYTES →
  (Z.to_nat (rb_len b) + length (frames (bound_options os)) ≤ REQUEST_IDENTITY_BYTES)%nat ∧
  rb_bytes b' = splice (rb_bytes b) (Z.to_nat (rb_len b)) (frames (bound_options os)) ∧
  rb_len b' = rb_len b + Z.of_nat (length (frames (bound_options os))).
Proof.
  revert saw b. induction os as [|o os IH]; intros saw b Hb Hl Hlen; cbn [binding_loop] in Hb.
  { injection Hb as <-. unfold REQUEST_IDENTITY_BYTES. cbn. rewrite splice_nil. split_and!; try done; lia. }
  rewrite bound_options_cons. unfold bound_option.
  destruct (opt_number o =? ON_IF_NONE_MATCH) eqn:Ei; cbn [orb].
  { destruct (saw || _); [done|]. by apply (IH _ _ Hb). }
  destruct (OptionNumber_is_no_cache_key (opt_number o) || is_block_number (opt_number o)) eqn:En.
  { by apply (IH _ _ Hb). }
  set (value := match option_value_format (opt_number o) with Some FUint => _ | _ => _ end) in *.
  unbind. destruct (binding_append b (opt_number o) value) as [b1| | |] eqn:Ea; [|done..].
  destruct (binding_append_ok _ _ _ _ Ea ltac:(lia) Hlen) as (Hfit & Hbytes & Hlen1).
  rewrite frames_cons.
  unfold REQUEST_IDENTITY_BYTES in *. set (f := frame (opt_number o, value)) in *.
  destruct (IH _ _ Hb) as (Hfit' & Hbytes' & Hlen'); [lia| |].
  { rewrite Hbytes, length_splice; lia. }
  rewrite length_app. replace (Z.to_nat (rb_len b1)) with (Z.to_nat (rb_len b) + length f)%nat in * by lia.
  split_and!; [lia| |lia]. rewrite Hbytes', Hbytes. by rewrite splice_splice by lia.
Qed.

(** Whole bindings. *)
Lemma binding_ok {T} (m : ParsedMessage T) num b os :
  RequestBinding_from_message m num = Ok b → pm_opts (E:=BlockTransferError) m = Ok os →
  (1 + length (frames (bound_options os)) ≤ REQUEST_IDENTITY_BYTES)%nat ∧
  rb_bytes b = splice (replicate REQUEST_IDENTITY_BYTES 0) 0 (pm_code m :: frames (bound_options os)) ∧
  rb_len b = 1 + Z.of_nat (length (frames (bound_options os))).
Proof.
  unfold RequestBinding_from_message. intros Hb Hos. unbind.
  destruct (if num =? 0 then _ else _) as [condition| | |]; [|done..]. cbn [rb_bytes rb_if_none_match rb_non_confirmable] in Hb.
  rewrite set_idx_ok in Hb by (rewrite length_replicate; unfold REQUEST_IDENTITY_BYTES; lia). rewrite Hos in Hb. cbn beta iota in Hb.
  apply binding_loop_ok in Hb as (Hfit & Hbytes & Hlen); cbn [rb_len rb_bytes] in *.
  - change (Z.to_nat 1) with 1%nat in *. split_and!; [done| |done]. rewrite Hbytes.
    change 1%nat with (0 + length [Code_as_raw (pm_code m)])%nat. rewrite splice_splice; [done..|].
    rewrite length_replicate. cbn [length]. lia.
  - lia.
  - rewrite length_splice; rewrite length_replicate; [done|]. cbn. unfold REQUEST_IDENTITY_BYTES. lia.
Qed.

Lemma st_bind_Ok {S E A B} (m : st S E A) (f : A → st S E B) s s' b :
  (m ≫= f) s = (s', Ok b) → ∃ a s1, m s = (s1, Ok a) ∧ f a s1 = (s', Ok b).
Proof. unbind. destruct (m s) as [s1 [a| | |]]; [|done..]. eauto. Qed.

Lemma read_option_number bytes s s' o : read_option bytes s = (s', Ok o) → in_u 16 (opt_number o).
Proof.
  unfold read_option. intros Hr.
  repeat first
    [ apply st_bind_Ok in Hr as (? & ? & _ & Hr)
    | match type of Hr with (if ?b then _ else _) _ = _ => destruct b; [done|] end
    | match type of Hr with (let '(_, _) := ?x in _) _ = _ => destruct x end ].
  injection Hr as _ <-. by apply wrap_in_u.
Qed.

(** Numbers of parsed options are 16 bits wide. *)
Lemma Options_collect_numbers {E} fuel o os :
  Options_collect (E:=E) fuel o = Ok os → Forall (fun x => in_u 16 (opt_number x)) os.
Proof.
  revert o os. induction fuel as [|fuel IH]; intros o os Hc; [done|]. cbn [Options_collect] in Hc.
  unfold Options_next in Hc. destruct (_ <=? _)%nat; [by injection Hc as <-|].
  destruct (read_option (os_bytes o) (os_i o, os_prev o)) as [[i prev] [opt| | |]] eqn:Er; unbind; [|by injection Hc as <-|done..].
  destruct (Options_collect fuel _) as [rest| | |] eqn:Ec; [|done..]. injection Hc as <-. constructor; [|by eapply IH].
  by eapply read_option_number.
Qed.

Lemma bound_wf os :
  Forall (fun x => in_u 16 (opt_number x)) os → (length (frames (bound_options os)) < 512)%nat →
  Forall (fun o => in_u 16 o.1 ∧ Z.of_nat (length o.2) < 65536) (bound_options os).
Proof.
  unfold frames, bound_options. induction 1 as [|o os Ho _ IH]; [constructor|]. cbn [omap list_omap].
  assert (∀ n v, bound_option o = Some (n, v) → n = opt_number o) as Hb.
  { intros n v. unfold bound_option. case_match; [done|]. by intros [= <- _]. }
  destruct (bound_option o) as [[n v]|]; [|done]. cbn [fmap list_fmap concat]. intros Hl. rewrite length_app in Hl.
  constructor; [|apply IH; lia]. cbn [fst snd]. split; [by rewrite (Hb n v)|].
  unfold frame in Hl. cbn [fst snd] in Hl. rewrite !length_app in Hl. lia.
Qed.

Lemma splice_inj (buf a b : list Z) : splice buf 0 a = splice buf 0 b → length a = length b → a = b.
Proof.
  intros He Hl. apply (f_equal (take (0 + length a))) in He. rewrite take_splice in He by lia.
  rewrite Hl, take_splice in He by lia. done.
Qed.

(** The binding identifies a request.  Whenever two requests can be bound,
    their bindings match exactly when the method and all options agree that
    take part in the cache key, whatever their Block options, their
    If-None-Match, and the leading zeros of integer values. *)
Theorem binding_identifies {T} (m1 m2 : ParsedMessage T) num1 num2 b1 b2 os1 os2 :
  RequestBinding_from_message m1 num1 = Ok b1 → RequestBinding_from_message m2 num2 = Ok b2 →
  pm_opts (E:=BlockTransferError) m1 = Ok os1 → pm_opts (E:=BlockTransferError) m2 = Ok os2 →
  same_options b1 b2 = true ↔ pm_code m1 = pm_code m2 ∧ bound_options os1 = bound_options os2.
Proof.
  intros H1 H2 Ho1 Ho2. destruct (binding_ok _ _ _ _ H1 Ho1) as (Hf1 & Hb1 & Hl1).
  destruct (binding_ok _ _ _ _ H2 Ho2) as (Hf2 & Hb2 & Hl2). unfold same_options, eqb.
  rewrite andb_true_iff, Z.eqb_eq, bool_decide_eq_true, Hb1, Hb2, Hl1, Hl2. unfold REQUEST_IDENTITY_BYTES in *. split.
  - intros [Hl He]. assert (length (frames (bound_options os1)) = length (frames (bound_options os2))) as Hlen by lia.
    apply splice_inj in He; [|cbn [length]; lia]. injection He as Hc He. split; [done|]. apply frames_inj; [| |done].
    + apply bound_wf; [by eapply Options_collect_numbers|lia].
    + apply bound_wf; [by eapply Options_collect_numbers|lia].
  - intros [-> ->]. done.
Qed.
End loop.

(** ** Witness *)

(** Two GETs for the same path; one carries a Block2 option and a padded
    Accept. *)
Definition ex_get1 : ParsedMessage Token :=
  mkParsed _ (mkHeader 1 Confirmable 0 Code_GET 1) Token_EMPTY (options_wire 0 [mkOpt ON_URI_PATH [97]; mkOpt ON_ACCEPT [50]]) [].
Definition ex_get2 : ParsedMessage Token :=
  mkParsed _ (mkHeader 1 Confirmable 0 Code_GET 2) Token_EMPTY
    (options_wire 0 [mkOpt ON_URI_PATH [97]; mkOpt ON_ACCEPT [0; 50]; mkOpt ON_BLOCK2 [22]]) [].

Lemma binding_identifies_witness :
  ∃ b1 b2, RequestBinding_from_message (H:=target64) ex_get1 0 = Ok b1 ∧ RequestBinding_from_message (H:=target64) ex_get2 1 = Ok b2 ∧
    same_options b1 b2 = true.
Proof.
  destruct (RequestBinding_from_message (H:=target64) ex_get1 0) as [b1| | |] eqn:H1; [|by vm_compute in H1..].
  destruct (RequestBinding_from_message (H:=target64) ex_get2 1) as [b2| | |] eqn:H2; [|by vm_compute in H2..].
  exists b1, b2. split; [reflexivity|]. split; [reflexivity|].
  apply (binding_identifies (H:=target64) ex_get1 ex_get2 0 1 b1 b2 [mkOpt ON_URI_PATH [97]; mkOpt ON_ACCEPT [50]]
    [mkOpt ON_URI_PATH [97]; mkOpt ON_ACCEPT [0; 50]; mkOpt ON_BLOCK2 [22]] H1 H2).
  - vm_compute. reflexivity.
  - vm_compute. reflexivity.
  - split; reflexivity.
Defined.
