(* ===== verification/AllocDedup.v ===== *)
(** * The duplicate history on the heap

    [src/storage/alloc_memory.rs], [AllocDedupTable]: the table of [Dedup] with
    a lower bound on the stored deadlines, which lets a poll skip the walk over
    the rows, and walks that release slots directly instead of by key.  The
    direct walks are proved equal to the keyed ones. *)
From S2P Require Import Prelude Errors MsgTypes Occupancy Pending SlotTable Dedup.

(** [AllocDedupTable]: the rows, and [DedupExpiry::next_due_ms]. *)
Record AllocDedupTable : Type := mkAllocDedup { adt_table : DedupTable; adt_next_due : Z }.

Definition AllocDedupTable_new (entries : nat) : AllocDedupTable := mkAllocDedup (SlotTable_new entries) 0.

(** [DedupExpiry::note] and [may_expire]. *)
Definition expiry_note (next_due : Z) (entry : DedupEntry) : Z :=
  let due := de_due_ms entry in
  if negb (due =? 0) && ((next_due =? 0) || (due <? next_due)) then due else next_due.
Definition may_expire (next_due now_ms : Z) : bool := negb (next_due =? 0) && (next_due <=? now_ms).

Definition adt_insert {E} (d : AllocDedupTable) (entry : DedupEntry) : res E (AllocDedupTable * option SlotId) :=
  match tb_lookup (adt_table d) (de_key entry) with
  | Some id => mret (d, Some id)
  | None =>
      '(occ, r) ← Occupancy_acquire (tb_occ (adt_table d));
      match r with
      | None => mret (mkAllocDedup (tb_with_occ (adt_table d) occ) (adt_next_due d), None)
      | Some id =>
          t ← tb_put (tb_with_occ (adt_table d) occ) id entry;
          mret (mkAllocDedup t (expiry_note (adt_next_due d) entry), Some id)
      end
  end.

Definition adt_remove {E} (d : AllocDedupTable) (key : DedupKey) : res E (AllocDedupTable * bool) :=
  '(t, b) ← tb_remove (adt_table d) key;
  mret (mkAllocDedup t (adt_next_due d), b).

Definition entry_pins (t : DedupTable) (id : SlotId) : list SlotId :=
  match tb_entry t id with Some row => pins_of row | None => [] end.

(** The slot for a new row: a free one, or that of the oldest timed row. *)
Definition adt_slot {E} (t : DedupTable) (oldest : option (SlotId * Z)) : res E (DedupTable * list SlotId * option SlotId) :=
  '(occ, r) ← Occupancy_acquire (tb_occ t);
  let t := tb_with_occ t occ in
  match r with
  | Some id => mret (t, [], Some id)
  | None =>
      match oldest with
      | None => mret (t, [], None)
      | Some (victim, _) =>
          let pins := entry_pins t victim in
          '(t, _) ← tb_release_ok t victim;
          '(occ, r) ← Occupancy_acquire (tb_occ t);
          mret (tb_with_occ t occ, pins, r)
      end
  end.

(** [try_store_app_dedup]; as in [try_store_app], the TX slots handed to
    [release] are listed in order. *)
Definition try_store_app_dedup {E} (d : AllocDedupTable) (entry : DedupEntry)
    : res E (AllocDedupTable * list SlotId * bool) :=
  let t := adt_table d in
  let '(existing, oldest) := store_scan t (de_key entry) (seq 0 (length (tb_entries t))) None in
  '(t, pins, survives) ←
    (match existing with
     | None => mret (t, [], false)
     | Some id => '(t', released) ← tb_release_ok t id; mret (t', entry_pins t id, negb released)
     end);
  if survives : bool then mret (mkAllocDedup t (adt_next_due d), pins, true)
  else
    '(t, pins', r) ← adt_slot t oldest;
    match r with
    | None => mret (mkAllocDedup t (adt_next_due d), pins ++ pins', false)
    | Some id =>
        t ← tb_put t id entry;
        mret (mkAllocDedup t (expiry_note (adt_next_due d) entry), pins ++ pins', true)
    end.

(** The loop of [try_expire_dedup]; [remaining] is the number of used slots not
    yet seen. *)
Fixpoint expire_loop {E} (now_ms : Z) (ids : list SlotId) (remaining : nat) (t : DedupTable) (pins : list SlotId)
    (next_due : Z) : res E (DedupTable * list SlotId * Z) :=
  match ids with
  | [] => mret (t, pins, next_due)
  | id :: ids =>
      if (remaining =? 0)%nat then mret (t, pins, next_due)
      else if negb (Occupancy_is_occupied (tb_occ t) id) then expire_loop now_ms ids remaining t pins next_due
      else
        let remaining := (remaining - 1)%nat in
        match mjoin (tb_entries t !! id) with
        | None => expire_loop now_ms ids remaining t pins next_due
        | Some row =>
            let due := de_due_ms row in
            let kept := if negb (due =? 0) && ((next_due =? 0) || (due <? next_due)) then due else next_due in
            if negb (due =? 0) && (due <=? now_ms) then
              let pins := pins ++ pins_of row in
              '(t, released) ← tb_release_ok t id;
              expire_loop now_ms ids remaining t pins (if released : bool then next_due else kept)
            else expire_loop now_ms ids remaining t pins kept
        end
  end.

Definition try_expire_dedup {E} (d : AllocDedupTable) (now_ms : Z) : res E (AllocDedupTable * list SlotId) :=
  if negb (may_expire (adt_next_due d) now_ms) then mret (d, [])
  else
    let t := adt_table d in
    '(t, pins, next_due) ← expire_loop now_ms (seq 0 (length (tb_entries t))) (oc_count (tb_occ t)) t [] 0;
    mret (mkAllocDedup t next_due, pins).

Inductive DedupExpiryCheck : Type := DScan | DSkip | DRefresh.
Definition dedup_expiry_check (d : AllocDedupTable) (now_ms : Z) : DedupExpiryCheck :=
  if may_expire (adt_next_due d) now_ms then DRefresh else DSkip.
Definition finish_dedup_expiry (d : AllocDedupTable) (lower_bound_ms : Z) : AllocDedupTable :=
  mkAllocDedup (adt_table d) lower_bound_ms.

(** ** Reference: the walk that removes expired rows by key

    [expire_request_dedup] with [release_dedup_row] of [src/app/mod.rs]. *)
Definition is_expired (now_ms : Z) (row : DedupEntry) : bool := negb (de_due_ms row =? 0) && (de_due_ms row <=? now_ms).

Fixpoint expire_by_key {E} (now_ms : Z) (ids : list SlotId) (t : DedupTable) (pins : list SlotId)
    : res E (DedupTable * list SlotId) :=
  match ids with
  | [] => mret (t, pins)
  | id :: ids =>
      match tb_entry t id with
      | Some row =>
          if is_expired now_ms row
          then '(t, _) ← tb_remove t (de_key row); expire_by_key now_ms ids t (pins ++ pins_of row)
          else expire_by_key now_ms ids t pins
      | None => expire_by_key now_ms ids t pins
      end
  end.

(** ** Invariant: the bound is below every stored deadline *)
Definition due_bound (bound : Z) (t : DedupTable) : Prop :=
  ∀ id row, tb_entry t id = Some row → de_due_ms row ≠ 0 → bound ≠ 0 ∧ bound ≤ de_due_ms row.
Definition adt_inv (d : AllocDedupTable) : Prop := tb_inv (adt_table d) ∧ due_bound (adt_next_due d) (adt_table d).

Lemma expiry_note_bound bound row :
  (de_due_ms row ≠ 0 → expiry_note bound row ≠ 0 ∧ expiry_note bound row ≤ de_due_ms row) ∧
  (bound ≠ 0 → expiry_note bound row ≠ 0 ∧ expiry_note bound row ≤ bound).
Proof.
  unfold expiry_note. destruct (Z.eqb_spec (de_due_ms row) 0), (Z.eqb_spec bound 0), (Z.ltb_spec (de_due_ms row) bound);
    cbn [negb andb orb]; lia.
Qed.

(** The occupied slots from [i] on. *)
Definition used_from (t : DedupTable) (i : nat) : nat := occupied_flags (drop i (oc_occupied (tb_occ t))).

Lemma used_from_step (t : DedupTable) i :
  (i < length (oc_occupied (tb_occ t)))%nat →
  used_from t i = ((if Occupancy_is_occupied (tb_occ t) i then 1 else 0) + used_from t (S i))%nat.
Proof.
  intros Hi. destruct (lookup_lt_is_Some_2 _ _ Hi) as [b Hb]. unfold used_from.
  rewrite (drop_S _ b) by done. rewrite occupied_flags_cons. unfold Occupancy_is_occupied. rewrite Hb. by destruct b.
Qed.

Lemma used_from_zero (t : DedupTable) i : used_from t i = 0%nat → ∀ j, (i ≤ j)%nat → Occupancy_is_occupied (tb_occ t) j = false.
Proof.
  unfold used_from, Occupancy_is_occupied. intros Hz j Hj. destruct (oc_occupied (tb_occ t) !! j) as [[]|] eqn:Ej; [exfalso|done..].
  assert (drop i (oc_occupied (tb_occ t)) !! (j - i)%nat = Some true) as Hd.
  { rewrite lookup_drop. by replace (i + (j - i))%nat with j by lia. }
  pose proof (occupied_flags_insert _ _ false _ Hd) as Hf. cbv iota in Hf. lia.
Qed.

Lemma tb_release_occupied (t t' : DedupTable) id :
  tb_inv t → tb_release t id = Ok t' → oc_occupied (tb_occ t') = <[id := false]> (oc_occupied (tb_occ t)).
Proof.
  intros (Ho & _) Hr. unfold tb_release in Hr. destruct (Occupancy_release (tb_occ t) id) as [occ| | |] eqn:Er; try done.
  unbind. injection Hr as <-. destruct (release_inv _ _ _ Ho Er) as (_ & _ & _ & <-). unfold tb_reset. by case_match.
Qed.

Lemma expire_by_key_none {E} now (ids : list SlotId) t pins :
  (∀ id, id ∈ ids → tb_entry t id = None) → expire_by_key (E:=E) now ids t pins = Ok (t, pins).
Proof.
  intros Hn. induction ids as [|id ids IH]; [done|]. cbn [expire_by_key]. rewrite Hn by (apply elem_of_cons; by left).
  apply IH. intros j Hj. apply Hn. apply elem_of_cons. by right.
Qed.

(** The rows a walk from slot [i] on leaves. *)
Definition survivors (now : Z) (i : nat) (t t' : DedupTable) : Prop :=
  ∀ id, tb_entry t' id =
    match tb_entry t id with
    | Some row => if (i <=? id)%nat && is_expired now row then None else Some row
    | None => None
    end.

Lemma expire_loop_ok {E} now n : ∀ (t : DedupTable) i pins next_due,
  tb_inv t → (i + n)%nat = length (tb_entries t) →
  (∀ id row, (id < i)%nat → tb_entry t id = Some row → de_due_ms row ≠ 0 → next_due ≠ 0 ∧ next_due ≤ de_due_ms row) →
  ∃ t' pins' bound, expire_loop (E:=E) now (seq i n) (used_from t i) t pins next_due = Ok (t', pins', bound) ∧
    expire_by_key (E:=E) now (seq i n) t pins = Ok (t', pins') ∧ tb_inv t' ∧ survivors now i t t' ∧ due_bound bound t'.
Proof.
  induction n as [|n IH]; intros t i pins next_due Hi Hlen Hb.
  { exists t, pins, next_due. split_and!; try done.
    - intros id. destruct (tb_entry t id) as [row|] eqn:Er; [|done]. apply tb_entry_lt in Er. by rewrite (proj2 (Nat.leb_gt _ _)) by lia.
    - intros id row Hr. apply (Hb id); [|done]. apply tb_entry_lt in Hr. lia. }
  pose proof Hi as (_ & _ & Hl & _). cbn [seq expire_loop expire_by_key].
  destruct (used_from t i =? 0)%nat eqn:Ez; [apply Nat.eqb_eq in Ez|apply Nat.eqb_neq in Ez].
  { pose proof (used_from_zero t i Ez) as Hz.
    assert (∀ id, (i ≤ id)%nat → tb_entry t id = None) as Hnone by (intros id Hid; unfold tb_entry; by rewrite Hz).
    exists t, pins, next_due. split_and!; try done.
    - rewrite (Hnone i) by lia. apply expire_by_key_none. intros id Hid%elem_of_seq. apply Hnone. lia.
    - intros id. destruct (tb_entry t id) as [row|] eqn:Er; [|done]. destruct (Nat.leb_spec i id); [|done].
      by rewrite Hnone in Er.
    - intros id row Hr. apply (Hb id); [|done]. destruct (Nat.lt_ge_cases id i); [done|]. by rewrite Hnone in Hr. }
  rewrite (used_from_step t i) by lia.
  destruct (Occupancy_is_occupied (tb_occ t) i) eqn:Eo; cbn [negb].
  2: { assert (tb_entry t i = None) as Hn by (by apply tb_free_entry). rewrite Hn. cbn [Nat.add].
    destruct (IH t (S i) pins next_due Hi ltac:(lia)) as (t' & pins' & bound & H1 & H2 & H3 & H4 & H5).
    - intros id row Hid. destruct (decide (id = i)) as [->|]; [by rewrite Hn|]. apply Hb. lia.
    - exists t', pins', bound. split_and!; try done. intros id. rewrite H4. destruct (tb_entry t id) as [row|] eqn:Er; [|done].
      destruct (decide (id = i)) as [->|]; [congruence|]. by destruct (Nat.leb_spec (S i) id), (Nat.leb_spec i id); try lia. }
  replace (1 + used_from t (S i) - 1)%nat with (used_from t (S i)) by lia.
  assert (mjoin (tb_entries t !! i) = tb_entry t i) as -> by (unfold tb_entry; by rewrite Eo).
  destruct (tb_entry t i) as [row|] eqn:Er.
  2: { destruct (IH t (S i) pins next_due Hi ltac:(lia)) as (t' & pins' & bound & H1 & H2 & H3 & H4 & H5).
    - intros id r Hid. destruct (decide (id = i)) as [->|]; [by rewrite Er|]. apply Hb. lia.
    - exists t', pins', bound. split_and!; try done. intros id. rewrite H4. destruct (tb_entry t id) as [r|] eqn:Er'; [|done].
      destruct (decide (id = i)) as [->|]; [congruence|]. by destruct (Nat.leb_spec (S i) id), (Nat.leb_spec i id); try lia. }
  unfold is_expired at 1. fold (is_expired now row). destruct (is_expired now row) eqn:Ex.
  - destruct (tb_release_spec t i Hi Eo) as (t1 & Hr & Hi1 & Hlen1 & _ & He1). unfold tb_release_ok. rewrite Hr. unbind.
    pose proof (tb_release_occupied t t1 i Hi Hr) as Hocc.
    assert (used_from t (S i) = used_from t1 (S i)) as -> by (unfold used_from; by rewrite Hocc, drop_insert_lt by lia).
    assert (tb_remove (E:=E) t (de_key row) = Ok (t1, true)) as ->.
    { unfold tb_remove. assert (tb_lookup t (de_key row) = Some i) as -> by (apply tb_lookup_Some; [done|by exists row]).
      unfold tb_release_ok. by rewrite Hr. }
    destruct (IH t1 (S i) (pins ++ pins_of row) next_due Hi1 ltac:(lia)) as (t' & pins' & bound & H1 & H2 & H3 & H4 & H5).
    + intros id r Hid. rewrite He1. destruct (decide (id = i)) as [->|]; [done|]. apply Hb. lia.
    + exists t', pins', bound. split_and!; try done. intros id. rewrite H4, He1. destruct (decide (id = i)) as [->|].
      * rewrite Er, Nat.leb_refl, Ex. done.
      * destruct (tb_entry t id); [|done]. by destruct (Nat.leb_spec (S i) id), (Nat.leb_spec i id); try lia.
  - destruct (IH t (S i) pins (expiry_note next_due row) Hi ltac:(lia)) as (t' & pins' & bound & H1 & H2 & H3 & H4 & H5).
    + intros id r Hid Hrow Hd. destruct (expiry_note_bound next_due row) as [Hn1 Hn2]. destruct (decide (id = i)) as [->|].
      * rewrite Er in Hrow. injection Hrow as <-. by apply Hn1.
      * destruct (Hb id r ltac:(lia) Hrow Hd) as [Hn0 Hle]. destruct (Hn2 Hn0). lia.
    + exists t', pins', bound. split_and!; try done. intros id. rewrite H4. destruct (tb_entry t id) as [r|] eqn:Er'; [|done].
      destruct (decide (id = i)) as [->|].
      * rewrite Er in Er'. injection Er' as <-. rewrite Nat.leb_refl, Ex. by rewrite (proj2 (Nat.leb_gt _ _)) by lia.
      * by destruct (Nat.leb_spec (S i) id), (Nat.leb_spec i id); try lia.
Qed.

(** Skipping and expiring.  The heap table's walk, which releases slots
    directly and keeps a deadline bound, gives the same table and hands back the
    same TX slots as the walk that looks every expired row up by its key; it is
    skipped only when no row has expired; afterwards exactly the expired rows
    are gone and the bound is valid again. *)
Theorem heap_expiry_exact (d : AllocDedupTable) (now : Z) :
  adt_inv d →
  ∃ d' pins, try_expire_dedup (E:=SlotError) d now = Ok (d', pins) ∧ adt_inv d' ∧
    expire_by_key (E:=SlotError) now (seq 0 (length (tb_entries (adt_table d)))) (adt_table d) [] = Ok (adt_table d', pins) ∧
    (∀ key, tb_get (adt_table d') key =
       match tb_get (adt_table d) key with
       | Some row => if is_expired now row then None else Some row
       | None => None
       end) ∧
    (dedup_expiry_check d now = DSkip → ∀ id row, tb_entry (adt_table d) id = Some row → is_expired now row = false).
Proof.
  intros [Hi Hb]. destruct d as [t bound]. cbn [adt_table adt_next_due] in *.
  destruct (expire_loop_ok (E:=SlotError) now (length (tb_entries t)) t 0 [] 0 Hi eq_refl) as
    (t' & pins & bound' & H1 & H2 & H3 & H4 & H5); [intros; lia|].
  assert (∀ key, tb_get t' key = match tb_get t key with
    | Some row => if is_expired now row then None else Some row | None => None end) as Hget.
  { intros key. destruct (tb_get t' key) as [r|] eqn:Eg.
    - apply tb_get_Some in Eg as (id & He & Hk); [|done]. rewrite H4 in He. destruct (tb_entry t id) as [row|] eqn:Er; [|done].
      cbn [Nat.leb andb] in He. destruct (is_expired now row) eqn:Ex; [done|]. injection He as ->.
      assert (tb_get t key = Some r) as -> by (apply tb_get_Some; [done|by exists id]). by rewrite Ex.
    - destruct (tb_get t key) as [row|] eqn:Eg'; [|done]. apply tb_get_Some in Eg' as (id & He & Hk); [|done].
      destruct (is_expired now row) eqn:Ex; [done|]. exfalso.
      assert (tb_get t' key = Some row) as Hs; [|congruence]. apply tb_get_Some; [done|]. exists id. split; [|done].
      by rewrite H4, He, Ex, andb_false_r. }
  assert (may_expire bound now = false → ∀ id row, tb_entry t id = Some row → is_expired now row = false) as Hskip.
  { unfold may_expire, is_expired. intros Hm id row Hr. destruct (Z.eqb_spec (de_due_ms row) 0); [done|]. cbn [negb andb].
    destruct (Hb id row Hr) as [Hn Hle]; [done|]. apply Z.leb_gt. destruct (Z.eqb_spec bound 0); [done|]. cbn [negb andb] in Hm.
    apply Z.leb_gt in Hm. lia. }
  unfold try_expire_dedup, dedup_expiry_check. cbn [adt_table adt_next_due].
  destruct (may_expire bound now) eqn:Em; cbn [negb].
  - assert (oc_count (tb_occ t) = used_from t 0) as -> by (destruct Hi as ((Hc & _) & _); unfold used_from; by rewrite drop_0).
    unbind. rewrite H1. exists (mkAllocDedup t' bound'), pins. by split_and!.
  - specialize (Hskip eq_refl).
    assert (expire_by_key (E:=SlotError) now (seq 0 (length (tb_entries t))) t [] = Ok (t, [])) as Href.
    { clear - Hskip. generalize (@nil SlotId) as pins. induction (seq 0 _) as [|id ids IH]; intros pins; [done|]. cbn [expire_by_key].
      destruct (tb_entry t id) as [row|] eqn:Er; [|done]. by rewrite (Hskip _ _ Er). }
    exists (mkAllocDedup t bound), []. cbn [adt_table]. split_and!; try done. intros key. destruct (tb_get t key) as [row|] eqn:Eg; [|done].
    apply tb_get_Some in Eg as (id & He & _); [|done]. by rewrite (Hskip _ _ He).
Qed.

(** ** Storing *)
Lemma due_bound_put (bound : Z) (t t' : DedupTable) id entry :
  due_bound bound t → (∀ j, tb_entry t' j = if decide (j = id) then Some entry else tb_entry t j) →
  due_bound (expiry_note bound entry) t'.
Proof.
  intros Hb He j row Hr Hd. destruct (expiry_note_bound bound entry) as [H1 H2]. rewrite He in Hr.
  destruct (decide (j = id)); [simplify_eq; by apply H1|]. destruct (Hb j row Hr Hd) as [Hn Hle]. destruct (H2 Hn). lia.
Qed.

Lemma due_bound_sub (bound : Z) (t t' : DedupTable) :
  due_bound bound t → (∀ j row, tb_entry t' j = Some row → tb_entry t j = Some row) → due_bound bound t'.
Proof. intros Hb He j row Hr. eapply Hb. by apply He. Qed.

(** The slot found for a new row, when a slot is free. *)
Lemma adt_slot_free {E} (t : DedupTable) oldest id :
  tb_inv t → (id < length (tb_entries t))%nat → Occupancy_is_occupied (tb_occ t) id = false →
  ∃ occ i, Occupancy_acquire (E:=E) (tb_occ t) = Ok (occ, Some i) ∧
    adt_slot (E:=E) t oldest = Ok (tb_with_occ t occ, [], Some i).
Proof.
  intros Hi Hid Hf. destruct (tb_acquire_occ (E:=E) t Hi) as (occ & r & Ha & Hr). unfold adt_slot. rewrite Ha. unbind.
  destruct r as [i|]; [by exists occ, i|]. destruct Hr as [_ Hfull]. by rewrite Hfull in Hf.
Qed.

(** Filling a slot that is free: the same table as [tb_insert], and the bound
    of the new row holds. *)
Lemma adt_fill (t : DedupTable) (e : DedupEntry) bound oldest id :
  tb_inv t → due_bound bound t → (id < length (tb_entries t))%nat → Occupancy_is_occupied (tb_occ t) id = false →
  tb_lookup t (de_key e) = None →
  ∃ t1 t2 i, adt_slot (E:=SlotError) t oldest = Ok (t1, [], Some i) ∧ tb_put (E:=SlotError) t1 i e = Ok t2 ∧
    tb_insert (E:=SlotError) t e = Ok (t2, Some i) ∧ tb_inv t2 ∧ due_bound (expiry_note bound e) t2.
Proof.
  intros Hi Hb Hid Hf Hl. destruct (adt_slot_free (E:=SlotError) t oldest id Hi Hid Hf) as (occ & i & Ha & Hs).
  destruct (tb_insert_ok (E:=SlotError) t e Hi) as (t2 & r & Hins & Hi2 & _ & Hr).
  change (row_key e) with (de_key e) in Hr. rewrite Hl in Hr.
  pose proof Hins as Hput. rewrite <- put_acquired in Hput by done. rewrite Ha in Hput. unbind.
  destruct (tb_put (tb_with_occ t occ) i e) as [t2'| | |] eqn:Ep; try done. injection Hput as <- <-.
  destruct Hr as (_ & _ & He). exists (tb_with_occ t occ), t2', i. split_and!; try done. by eapply due_bound_put.
Qed.

(** The row at a slot is the one its key finds. *)
Lemma release_by_key (t : DedupTable) old id :
  tb_inv t → tb_entry t id = Some old →
  ∃ t', tb_release_ok (E:=SlotError) t id = Ok (t', true) ∧ tb_remove (E:=SlotError) t (de_key old) = Ok (t', true) ∧
    tb_inv t' ∧ length (tb_entries t') = length (tb_entries t) ∧ Occupancy_is_occupied (tb_occ t') id = false ∧
    ∀ j, tb_entry t' j = if decide (j = id) then None else tb_entry t j.
Proof.
  intros Hi He. destruct (tb_release_spec t id Hi (tb_entry_occupied _ _ _ He)) as (t' & Hr & Hi' & Hl & Hf & Hj).
  assert (tb_lookup t (de_key old) = Some id) as Hk by (apply tb_lookup_Some; [done|by exists old]).
  exists t'. unfold tb_remove. rewrite Hk. unfold tb_release_ok. by rewrite Hr.
Qed.

Lemma due_bound_released (bound : Z) (t t' : DedupTable) id :
  due_bound bound t → (∀ j, tb_entry t' j = if decide (j = id) then None else tb_entry t j) → due_bound bound t'.
Proof. intros Hb He. eapply due_bound_sub; [done|]. intros j row. rewrite He. by destruct (decide (j = id)). Qed.

(** Storing.  The heap table's one-walk store gives the same table, hands
    back the same TX slots and reports the same outcome as the keyed store of
    the fixed table, and keeps the deadline bound below every stored row. *)
Theorem heap_store_matches (d : AllocDedupTable) (e : DedupEntry) :
  adt_inv d →
  ∃ d' pins b, try_store_app_dedup (E:=SlotError) d e = Ok (d', pins, b) ∧ adt_inv d' ∧
    try_store_app (E:=SlotError) (adt_table d) e = Ok (adt_table d', pins, b).
Proof.
  intros [Hi Hb]. destruct d as [t bound]. cbn [adt_table adt_next_due] in *.
  unfold try_store_app_dedup, try_store_app, DedupTable_remove, DedupTable_insert, DedupTable_entry_ref.
  cbn [adt_table adt_next_due]. pose proof (store_scan_spec t (de_key e) (length (tb_entries t)) 0 None) as Hs.
  destruct (store_scan _ _ _ _) as [[id|] o]; (specialize (Hs ltac:(intros j Hj; lia))).
  - destruct Hs as (old & He & Hk). destruct (release_by_key t old id Hi He) as (t1 & Hr & Hrm & Hi1 & Hl1 & Hf1 & He1).
    destruct (remove_then_insert (E:=SlotError) t old e id Hi He ltac:(by left)) as (t1' & _ & _ & Hrm' & _ & Hnone & _).
    rewrite Hrm in Hrm'. injection Hrm' as <-. pose proof (tb_entry_lt _ _ _ He).
    destruct (adt_fill t1 e bound o id Hi1 (due_bound_released _ _ _ _ Hb He1) ltac:(lia) Hf1 Hnone)
      as (ts & t2 & i & Hslot & Hput & Hins & Hi2 & Hb2).
    rewrite He, Hr, Hrm. unbind. unfold entry_pins. rewrite He. cbn [negb]. rewrite Hslot, Hins. unbind. rewrite Hput.
    exists (mkAllocDedup t2 (expiry_note bound e)), (pins_of old), true. by rewrite app_nil_r.
  - destruct Hs as [Ho Hno]. rewrite Nat.add_0_l in *.
    assert (tb_lookup t (de_key e) = None) as Hl.
    { apply tb_lookup_None; [done|]. intros i row Hr. eapply Hno; [|done]. pose proof (tb_entry_lt _ _ _ Hr). lia. }
    unbind. destruct (tb_acquire_occ (E:=SlotError) t Hi) as (occ & ra & Ha & Hra). rewrite Ha. cbn beta iota.
    destruct ra as [id|].
    + destruct Hra as (_ & _ & Hf & Hid & _).
      destruct (adt_fill t e bound o id Hi Hb Hid Hf Hl) as (ts & t2 & i & Hslot & Hput & _ & Hi2 & Hb2).
      rewrite Hslot. unfold adt_slot in Hslot. rewrite Ha in Hslot. unbind. injection Hslot as <- <-. rewrite Hput.
      by exists (mkAllocDedup t2 (expiry_note bound e)), [], true.
    + destruct Hra as [-> Hfull]. assert (tb_with_occ t (tb_occ t) = t) as Ht by (by destruct t).
      unfold adt_slot. rewrite Ha. unbind. rewrite Ht. destruct o as [[v due]|].
      * destruct (oldest_evictable t v due Ho) as (old & He & _). rewrite He. unfold entry_pins. rewrite He.
        destruct (release_by_key t old v Hi He) as (t1 & -> & -> & Hi1 & Hl1 & Hf1 & He1).
        pose proof (tb_entry_lt _ _ _ He).
        assert (tb_lookup t1 (de_key e) = None) as Hl'.
        { apply tb_lookup_None; [done|]. intros i row. rewrite He1. destruct (decide (i = v)); [done|].
          by apply tb_lookup_None. }
        destruct (adt_fill t1 e bound None v Hi1 (due_bound_released _ _ _ _ Hb He1) ltac:(lia) Hf1 Hl')
          as (ts & t2 & i & Hslot & Hput & _ & Hi2 & Hb2).
        destruct (adt_slot_free (E:=SlotError) t1 None v Hi1 ltac:(lia) Hf1) as (occ1 & i1 & Ha1 & Hslot1).
        rewrite Hslot in Hslot1. injection Hslot1 as -> ->. rewrite Ha1. cbn beta iota. rewrite Hput.
        by exists (mkAllocDedup t2 (expiry_note bound e)), (pins_of old), true.
      * by exists (mkAllocDedup t bound), [], false.
Qed.

(** ** Witnesses: a table of two rows *)
Definition ex_heap_table : AllocDedupTable :=
  match adt_insert (E:=SlotError) (AllocDedupTable_new 2) (ex_entry 1 10 0) with
  | Ok (d, _) => match adt_insert (E:=SlotError) d (ex_entry 2 20 1) with Ok (d, _) => d | _ => d end
  | _ => AllocDedupTable_new 2
  end.

Lemma adt_new_inv n : adt_inv (AllocDedupTable_new n).
Proof.
  destruct (SlotTable_new_inv (R:=DedupEntry) n) as [Hi Hg]. split; [done|]. intros id row Hr.
  assert (tb_get (SlotTable_new n) (de_key row) = Some row) as Hs by (apply tb_get_Some; [done|by exists id]).
  by rewrite Hg in Hs.
Qed.

Lemma adt_insert_inv {E} (d : AllocDedupTable) e :
  adt_inv d → ∃ d' r, adt_insert (E:=E) d e = Ok (d', r) ∧ adt_inv d'.
Proof.
  intros [Hi Hb]. destruct (tb_insert_ok (E:=E) (adt_table d) e Hi) as (t' & r & Hins & Hi' & _ & Hr).
  unfold adt_insert. unfold tb_insert in Hins. change (row_key e) with (de_key e) in *.
  destruct (tb_lookup (adt_table d) (de_key e)) as [id|]; [by exists d, (Some id)|]. unbind.
  destruct (Occupancy_acquire _) as [[occ [id|]]| | |]; try done.
  - destruct (tb_put _ id e) as [t2| | |]; try done. injection Hins as <- <-. eexists _, _. split; [done|].
    split; [done|]. destruct Hr as (_ & _ & He). by eapply due_bound_put.
  - injection Hins as <- <-. eexists _, _. split; [done|]. destruct Hr as [Heq _]. split; [done|].
    cbn [adt_table adt_next_due]. by rewrite Heq.
Qed.

Lemma ex_heap_table_inv : adt_inv ex_heap_table.
Proof.
  unfold ex_heap_table. destruct (adt_insert_inv (E:=SlotError) (AllocDedupTable_new 2) (ex_entry 1 10 0) (adt_new_inv 2)) as (d & r & -> & Hd).
  by destruct (adt_insert_inv (E:=SlotError) d (ex_entry 2 20 1) Hd) as (d' & r' & -> & Hd').
Qed.

Lemma heap_expiry_exact_witness :
  ∃ d' pins, try_expire_dedup (E:=SlotError) ex_heap_table 15 = Ok (d', pins) ∧ pins = [0%nat] ∧
    tb_get (adt_table d') (de_key (ex_entry 1 10 0)) = None ∧ adt_next_due d' = 20.
Proof.
  destruct (heap_expiry_exact ex_heap_table 15 ex_heap_table_inv) as (d' & pins & Hx & _ & _ & Hg & _).
  exists d', pins. split; [exact Hx|]. vm_compute in Hx. split; [congruence|].
  split; [rewrite Hg; vm_compute; reflexivity|]. injection Hx as <- _. reflexivity.
Defined.

Lemma heap_store_matches_witness :
  ∃ d', try_store_app_dedup (E:=SlotError) ex_heap_table (ex_entry 3 30 2) = Ok (d', [0%nat], true) ∧
    try_store_app (E:=SlotError) (adt_table ex_heap_table) (ex_entry 3 30 2) = Ok (adt_table d', [0%nat], true).
Proof.
  destruct (heap_store_matches ex_heap_table (ex_entry 3 30 2) ex_heap_table_inv) as (d' & pins & b & Hs & _ & Hm).
  exists d'. assert (pins = [0%nat] ∧ b = true) as [-> ->] by (vm_compute in Hs; split; congruence). by split.
Defined.
