(* ===== verification/Exchange.v ===== *)
(** * Outstanding requests

    [src/storage/exchange.rs]: the rows of the exchange table, keyed by Token
    and remote endpoint, the tests that decide which messages are requests and
    responses, and the table itself ([ExchangeTable] and the heap table of
    [src/storage/alloc_memory.rs], the same code), an instance of
    [SlotTable]. *)
From S2P Require Import Prelude Errors MsgTypes Options Decode OptionValues Occupancy Pending SlotTable.

#[export] Instance Echo_eq_dec : EqDecision Echo.
Proof. solve_decision. Defined.

Record ExchangeKey (T : Type) : Type := mkExchangeKey { ek_token : T; ek_endpoint : Endpoint }.
Arguments mkExchangeKey {T} _ _.
Arguments ek_token {T} _.
Arguments ek_endpoint {T} _.
#[export] Instance ExchangeKey_eq_dec {T} `{EqDecision T} : EqDecision (ExchangeKey T).
Proof. solve_decision. Defined.

Record ExchangeEntry (T : Type) : Type := mkExchange {
  ee_key : ExchangeKey T;
  ee_message_id : MessageId;
  ee_tx_slot : SlotId;
  ee_echo : option Echo;
  ee_challenge : option Echo
}.
Arguments mkExchange {T} _ _ _ _ _.
Arguments ee_key {T} _.
Arguments ee_message_id {T} _.
Arguments ee_tx_slot {T} _.
Arguments ee_echo {T} _.
Arguments ee_challenge {T} _.

Section entry.
Context {T : Type} `{EqDecision T}.
Implicit Types e : ExchangeEntry T.

Definition ExchangeEntry_new (token : T) (endpoint : Endpoint) (message_id : MessageId) (tx_slot : SlotId)
    : ExchangeEntry T := mkExchange (mkExchangeKey token endpoint) message_id tx_slot None None.
Definition with_echo e (echo : Echo) : ExchangeEntry T :=
  mkExchange (ee_key e) (ee_message_id e) (ee_tx_slot e) (Some echo) (ee_challenge e).
Definition with_challenge e (challenge : Echo) : ExchangeEntry T :=
  mkExchange (ee_key e) (ee_message_id e) (ee_tx_slot e) (ee_echo e) (Some challenge).
Definition challenge_for e (endpoint : Endpoint) : option Echo :=
  if eqb (ek_endpoint (ee_key e)) endpoint then ee_challenge e else None.
End entry.

(** [matches!(ty, Confirmable | NonConfirmable)], and with Acknowledgement. *)
Definition is_con_or_non (ty : MType) : bool := match ty with Confirmable | NonConfirmable => true | _ => false end.
Definition carries_response (ty : MType) : bool := match ty with Reset => false | _ => true end.

Definition is_con_or_non_request {T} (m : ParsedMessage T) : bool :=
  Code_is_request (pm_code m) && is_con_or_non (pm_ty m).
Definition is_token_response {T} (m : ParsedMessage T) : bool :=
  Code_is_response (pm_code m) && carries_response (pm_ty m).

(** The Message ID rule of RFC 7252 section 5.3.2. *)
Definition mid_ok (ty : MType) (message_id request_mid : MessageId) : bool :=
  match ty with
  | Acknowledgement => eqb message_id request_mid
  | Confirmable | NonConfirmable => true
  | Reset => false
  end.
Definition matches_response {T} (m : ParsedMessage T) (request_mid : MessageId) : bool :=
  if negb (is_token_response m) then false else mid_ok (pm_ty m) (pm_message_id m) request_mid.

(** ** The table *)
#[export] Instance ExchangeEntry_keyed {T} : Keyed (ExchangeEntry T) (ExchangeKey T) := ee_key.
Definition ExchangeTable (T : Type) : Type := SlotTable (ExchangeEntry T).
Definition ExchangeTable_new {T} (entries : nat) : ExchangeTable T := SlotTable_new entries.

Section exchange_table.
Context {T : Type} `{EqDecision T}.
Implicit Types t : ExchangeTable T.
Definition ExchangeTable_insert {E} t (e : ExchangeEntry T) : res E (ExchangeTable T * option SlotId) := tb_insert t e.
Definition ExchangeTable_lookup t (k : ExchangeKey T) : option SlotId := tb_lookup t k.
Definition ExchangeTable_take {E} t (k : ExchangeKey T) : res E (ExchangeTable T * option (ExchangeEntry T)) := tb_take t k.
Definition ExchangeTable_entry t (id : SlotId) : option (ExchangeEntry T) := tb_entry t id.
Definition ExchangeTable_release t (id : SlotId) : res SlotError (ExchangeTable T) := tb_release t id.
Definition ExchangeTable_acquire {E} t : res E (ExchangeTable T * option SlotId) := tb_acquire t.
Definition ExchangeTable_advance t (steps : nat) : ExchangeTable T := tb_advance t steps.
End exchange_table.
