(* ===== verification/Engine.v ===== *)
(** * The engine: storage, counters and request/response matching

    [src/storage/memory.rs], [Memory] (the six memory areas and the exchange
    table), [src/storage/metrics.rs] and the first half of
    [src/storage/engine.rs]: slots, messages in slots, pending confirmables and
    exchanges.  Code that holds [&mut Engine] is in the state monad [st]; the
    areas are reached through [zoom]. *)
From S2P Require Import Prelude Errors MsgTypes Options Encode Decode OptionValues MessageOptions Occupancy Pending.
From S2P Require Import DatagramPool PendingCons SlotTable Dedup Observe Block BodyPool Exchange.

(** ** Code on a part of the state *)
Definition zoom {S S' E A} (get : S → S') (set : S → S' → S) (m : st S' E A) : st S E A := fun s =>
  let '(x, r) := m (get s) in (set s x, r).

(** [f(&mut x)] where an error leaves [x] as it was. *)
Definition st_run {S E A} (f : S → res E (S * A)) : st S E A := fun s =>
  match f s with
  | Ok (s, a) => (s, Ok a)
  | Err e => (s, Err e)
  | Panic => (s, Panic)
  | Diverge => (s, Diverge)
  end.

(** [m.ok()] in the monad. *)
Definition st_ok {S E F A} (m : st S F A) : st S E (option A) := fun s => let '(s, r) := m s in (s, ok_of r).
(** The outcome as a value, so that the code after it can still run. *)
Definition st_result {S E F A} (m : st S F A) : st S E (F + A) := fun s =>
  let '(s, r) := m s in
  (s, match r with Ok a => Ok (inr a) | Err e => Ok (inl e) | Panic => Panic | Diverge => Diverge end).
Definition st_gets {S E A} (f : S → A) : st S E A := fun s => (s, Ok (f s)).

(** ** [Metrics]: one [u32] per name *)
Inductive Counter : Type :=
  | token_capacity_refused | admission_rx_refused | admission_tx_refused | admission_refusal_sent
  | admission_refusal_unsent | hard_rx_exhausted | hard_tx_exhausted | rx_accepted | rx_error | tx_ok | tx_fail
  | con_retransmit | m_give_up | m_observe_notify | observe_register | observe_cancel | block1_assemble
  | block2_assemble | m_progress | saturated | nstart_reject | empty_ack | empty_rst.
#[export] Instance Counter_eq_dec : EqDecision Counter.
Proof. solve_decision. Defined.

Definition Metrics : Type := Counter → Z.
Definition Metrics_ZERO : Metrics := fun _ => 0.
Definition Metrics_inc (m : Metrics) (c : Counter) : Metrics :=
  fun c' => if decide (c' = c) then wrapping_add 32 (m c) 1 else m c'.
Definition tally_block {A} (m : Metrics) (result : BlockTransferError + A) (block1 : bool) : Metrics :=
  match result with
  | inr _ => Metrics_inc m (if block1 then block1_assemble else block2_assemble)
  | inl Saturated => Metrics_inc m saturated
  | inl _ => m
  end.

(** ** [Memory] and [Engine] *)
Record Memory (RX TX RB TB T Q : Type) : Type := mkMemory {
  me_rx : RX;
  me_tx : TxMemory TX;
  me_dedup : DedupTable;
  me_observe : ObserveTable T Q;
  me_exchange : ExchangeTable T;
  me_bodies : option (RB * TB)
}.
Arguments mkMemory {RX TX RB TB T Q} _ _ _ _ _ _.
Arguments me_rx {RX TX RB TB T Q} _.
Arguments me_tx {RX TX RB TB T Q} _.
Arguments me_dedup {RX TX RB TB T Q} _.
Arguments me_observe {RX TX RB TB T Q} _.
Arguments me_exchange {RX TX RB TB T Q} _.
Arguments me_bodies {RX TX RB TB T Q} _.

Record Engine (RX TX RB TB T Q : Type) : Type := mkEngine { en_storage : Memory RX TX RB TB T Q; en_metrics : Metrics }.
Arguments mkEngine {RX TX RB TB T Q} _ _.
Arguments en_storage {RX TX RB TB T Q} _.
Arguments en_metrics {RX TX RB TB T Q} _.

Section engine.
Context {RX TX RB TB T Q : Type} `{Target} `{OwnedToken T} `{EqDecision T}.
Context `{!SlotPool RX} `{!DatagramBytes RX} `{!SlotPool TX} `{!DatagramBytes TX} `{!BodyCells T RB} `{!BodyCells T TB}.
Abbreviation Mem := (Memory RX TX RB TB T Q).
Abbreviation Eng := (Engine RX TX RB TB T Q).
Implicit Types (en : Eng) (id : SlotId).

Definition from_storage (m : Mem) : Eng := mkEngine m Metrics_ZERO.
Definition reset_metrics : st Eng ValueError unit := fun en => (mkEngine (en_storage en) Metrics_ZERO, Ok tt).

(** The areas. *)
Definition with_storage en (m : Mem) : Eng := mkEngine m (en_metrics en).
Definition with_rx en (p : RX) : Eng :=
  let m := en_storage en in
  with_storage en (mkMemory p (me_tx m) (me_dedup m) (me_observe m) (me_exchange m) (me_bodies m)).
Definition with_tx_memory en (p : TxMemory TX) : Eng :=
  let m := en_storage en in
  with_storage en (mkMemory (me_rx m) p (me_dedup m) (me_observe m) (me_exchange m) (me_bodies m)).
Definition with_tx en (p : TX) : Eng := with_tx_memory en (tx_with_pool (me_tx (en_storage en)) p).
Definition with_dedup en (t : DedupTable) : Eng :=
  let m := en_storage en in
  with_storage en (mkMemory (me_rx m) (me_tx m) t (me_observe m) (me_exchange m) (me_bodies m)).
Definition with_observe en (t : ObserveTable T Q) : Eng :=
  let m := en_storage en in
  with_storage en (mkMemory (me_rx m) (me_tx m) (me_dedup m) t (me_exchange m) (me_bodies m)).
Definition with_exchange en (t : ExchangeTable T) : Eng :=
  let m := en_storage en in
  with_storage en (mkMemory (me_rx m) (me_tx m) (me_dedup m) (me_observe m) t (me_bodies m)).
Definition with_bodies en (b : option (RB * TB)) : Eng :=
  let m := en_storage en in
  with_storage en (mkMemory (me_rx m) (me_tx m) (me_dedup m) (me_observe m) (me_exchange m) b).

Definition rx_of en : RX := me_rx (en_storage en).
Definition tx_of en : TX := tx_pool (me_tx (en_storage en)).
Definition observe_of en : ObserveTable T Q := me_observe (en_storage en).
Definition exchange_of en : ExchangeTable T := me_exchange (en_storage en).

Definition on_rx {E A} : st RX E A → st Eng E A := zoom rx_of with_rx.
Definition on_tx {E A} : st TX E A → st Eng E A := zoom tx_of with_tx.
Definition on_tx_memory {E A} : st (TxMemory TX) E A → st Eng E A := zoom (fun en => me_tx (en_storage en)) with_tx_memory.
Definition on_dedup {E A} : st DedupTable E A → st Eng E A := zoom (fun en => me_dedup (en_storage en)) with_dedup.
Definition on_observe {E A} : st (ObserveTable T Q) E A → st Eng E A := zoom observe_of with_observe.
Definition on_exchange {E A} : st (ExchangeTable T) E A → st Eng E A := zoom exchange_of with_exchange.

(** The body pools, when they exist; [none] is the outcome without them. *)
Definition on_rx_body {E A} (none : st Eng E A) (m : st RB E A) : st Eng E A := fun en =>
  match me_bodies (en_storage en) with
  | None => none en
  | Some (rb, tb) => let '(rb, r) := m rb in (with_bodies en (Some (rb, tb)), r)
  end.
Definition on_tx_body {E A} (none : st Eng E A) (m : st TB E A) : st Eng E A := fun en =>
  match me_bodies (en_storage en) with
  | None => none en
  | Some (rb, tb) => let '(tb, r) := m tb in (with_bodies en (Some (rb, tb)), r)
  end.

Definition inc {E} (c : Counter) : st Eng E unit :=
  fun en => (mkEngine (en_storage en) (Metrics_inc (en_metrics en) c), Ok tt).
Definition inc_if {E} (b : bool) (c : Counter) : st Eng E unit := if b then inc c else mret tt.

(** ** Slots *)
Definition acquire_rx {E} : st Eng E (option SlotId) :=
  r ← on_rx (st_run sp_acquire);
  match r with
  | Some id => mret (Some id)
  | None => inc hard_rx_exhausted;; inc saturated;; mret None
  end.
Definition acquire_tx {E} : st Eng E (option SlotId) :=
  r ← on_tx (st_run sp_acquire);
  match r with
  | Some id => mret (Some id)
  | None => inc hard_tx_exhausted;; inc saturated;; mret None
  end.
Definition release_rx id : st Eng SlotError unit := on_rx (st_upd (fun p => sp_release p id)).
Definition release_tx id : st Eng SlotError unit := on_tx (st_upd (fun p => sp_release p id)).
Definition advance_rx {E} (steps : nat) : st Eng E unit := on_rx (st_upd (fun p => Ok (sp_advance p steps))).
Definition rotate_rx {E} : st Eng E unit := advance_rx 1.
Definition rotate_tx {E} : st Eng E unit := on_tx (st_upd (fun p => Ok (sp_advance p 1))).
Definition advance_observe {E} (steps : nat) : st Eng E unit := on_observe (st_upd (fun t => Ok (tb_advance t steps))).

Definition acquire_rx_body {E} : st Eng E (option SlotId) :=
  en ← st_get;
  match me_bodies (en_storage en) with
  | None => mret None
  | Some _ =>
      id ← on_rx_body (mret None) body_acquire;
      inc_if (negb (is_some id)) saturated;;
      mret id
  end.
Definition acquire_tx_body {E} : st Eng E (option SlotId) :=
  en ← st_get;
  match me_bodies (en_storage en) with
  | None => mret None
  | Some _ =>
      id ← on_tx_body (mret None) body_acquire;
      inc_if (negb (is_some id)) saturated;;
      mret id
  end.
Definition release_rx_body id : st Eng SlotError unit :=
  on_rx_body (st_fail InvalidSlot) (st_upd (fun p => body_release p id)).
Definition release_tx_body id : st Eng SlotError unit :=
  on_tx_body (st_fail InvalidSlot) (st_upd (fun p => body_release p id)).
Definition advance_rx_body {E} (steps : nat) : st Eng E unit :=
  on_rx_body (mret tt) (st_upd (fun p => Ok (body_advance p steps))).
Definition rotate_rx_body {E} : st Eng E unit := advance_rx_body 1.
Definition rotate_tx_body {E} : st Eng E unit := on_tx_body (mret tt) (st_upd (fun p => Ok (body_advance p 1))).

(** ** Messages in slots *)
Definition decode_occupied (bytes : option (list Z)) : res SlotMessageError (ParsedMessage T) :=
  b ← ok_or bytes (SMSlot NotOccupied);
  map_err SlotMessageError_from_token (decode_with_token b).

(** [encode_occupied] and [copy_into_slot] write through the [&mut [u8]] of a
    slot; [S] is the pool that holds it. *)
Definition in_slot {P E A} `{DatagramBytes P} (vacant : E) id (m : st (list Z) E A) : st P E A := fun p =>
  match db_payload_mut (E:=E) p id with
  | Ok (Some (buf, store)) => let '(buf, r) := m buf in (store buf, r)
  | Ok None => (p, Err vacant)
  | Err e => (p, Err e)
  | Panic => (p, Panic)
  | Diverge => (p, Diverge)
  end.
Definition encode_occupied {P U} `{DatagramBytes P} `{OwnedToken U} id (msg : Message U) : st P SlotMessageError nat :=
  in_slot (SMSlot NotOccupied) id (st_map_err SMEncode (encode msg)).
Definition copy_into_slot {P} `{DatagramBytes P} id (bytes : list Z) : st P SlotError unit :=
  in_slot NotOccupied id (fun buf =>
    if (length buf <? length bytes)%nat then (buf, Err LengthExceedsSlot)
    else st_upd (copy_into 0 (length bytes) bytes) buf).

Definition set_len {P} `{DatagramBytes P} id (n : nat) : st P SlotError unit := st_upd (fun p => db_set_len p id n).
Definition set_endpoint {P} `{DatagramBytes P} id (e : Endpoint) : st P SlotError unit :=
  st_upd (fun p => db_set_endpoint p id e).

Definition decode_rx id : st Eng SlotMessageError (ParsedMessage T) :=
  en ← st_get;
  payload ← st_lift (db_payload (rx_of en) id);
  st_lift (decode_occupied payload).
Definition decode_tx id : st Eng SlotMessageError (ParsedMessage T) :=
  en ← st_get;
  payload ← st_lift (db_payload (tx_of en) id);
  st_lift (decode_occupied payload).

Definition encode_rx {U} `{OwnedToken U} id (msg : Message U) : st Eng SlotMessageError nat :=
  n ← on_rx (encode_occupied id msg);
  on_rx (st_map_err SMSlot (set_len id n));;
  mret n.
Definition encode_tx {U} `{OwnedToken U} id (msg : Message U) : st Eng SlotMessageError nat :=
  n ← on_tx (encode_occupied id msg);
  on_tx (st_map_err SMSlot (set_len id n));;
  mret n.

Definition write_rx id (bytes : list Z) (endpoint : Endpoint) : st Eng SlotError nat :=
  on_rx (copy_into_slot id bytes);;
  on_rx (set_len id (length bytes));;
  on_rx (set_endpoint id endpoint);;
  mret (length bytes).
Definition write_tx id (bytes : list Z) (endpoint : Endpoint) : st Eng SlotError nat :=
  on_tx (copy_into_slot id bytes);;
  on_tx (set_len id (length bytes));;
  on_tx (set_endpoint id endpoint);;
  mret (length bytes).

Definition rx_endpoint {E} id : st Eng E (option Endpoint) := en ← st_get; st_lift (db_endpoint (rx_of en) id).
Definition set_rx_endpoint id (e : Endpoint) : st Eng SlotError unit := on_rx (set_endpoint id e).
Definition set_tx_endpoint id (e : Endpoint) : st Eng SlotError unit := on_tx (set_endpoint id e).

(** ** The duplicate history *)
Definition insert_dedup {E} (entry : DedupEntry) : st Eng E (option SlotId) :=
  on_dedup (st_run (fun t => DedupTable_insert t entry)).
Definition remove_dedup {E} (key : DedupKey) : st Eng E bool := on_dedup (st_run (fun t => DedupTable_remove t key)).
Definition lookup_dedup {E} (key : DedupKey) : st Eng E (option SlotId) :=
  st_gets (fun en => DedupTable_lookup (me_dedup (en_storage en)) key).

(** ** Pending confirmables *)
Definition engine_pending {E} en id : res E (option PendingCon) := pending_con (me_tx (en_storage en)) id.

(** The counter of a refusal that NSTART explains. *)
Definition count_nstart {E} (endpoint : Endpoint) : st Eng E unit :=
  en ← st_get;
  n ← st_lift (outstanding_pending (sp_slot_count (tx_of en)) endpoint (engine_pending en));
  inc_if (NSTART <=? Z.of_nat n) nstart_reject.

Definition engine_reserve_pending {E} id (endpoint : Endpoint) (message_id : MessageId) : st Eng E (option PendingCon) :=
  r ← on_tx_memory (st_run (fun m => reserve_pending_con m id endpoint message_id));
  match r with Some p => mret (Some p) | None => count_nstart endpoint;; mret None end.
Definition engine_commit_pending {E} (expected : PendingCon) (now_ms jitter_ms : Z) : st Eng E (option PendingCon) :=
  on_tx_memory (st_run (fun m => commit_pending_con m expected now_ms jitter_ms)).
Definition engine_cancel_pending {E} (expected : PendingCon) : st Eng E bool :=
  on_tx_memory (st_run (fun m => cancel_pending_con m expected)).
Definition engine_replace_pending (expected : PendingCon) (bytes : list Z) : st Eng PendingReplaceError PendingCon :=
  on_tx_memory (st_run (fun m => replace_pending_con m expected bytes)).
Definition engine_record_pending {E} id (endpoint : Endpoint) (message_id : MessageId) (now_ms jitter_ms : Z)
    : st Eng E (option SlotId) :=
  r ← on_tx_memory (st_run (fun m => record_pending_con m id endpoint message_id now_ms jitter_ms));
  match r with Some i => mret (Some i) | None => count_nstart endpoint;; mret None end.
Definition engine_lookup_pending {E} (message_id : MessageId) (endpoint : Endpoint) : st Eng E (option SlotId) :=
  en ← st_get; st_lift (lookup_pending_con (me_tx (en_storage en)) message_id endpoint).
Definition lookup_owned_con {E} (message_id : MessageId) (endpoint : Endpoint) : st Eng E (option SlotId) :=
  en ← st_get;
  st_lift (find_slot (seq 0 (sp_slot_count (tx_of en))) (fun id =>
    row ← engine_pending en id;
    mret match row with
         | Some row => eqb (pc_message_id row) message_id && eqb (pc_endpoint row) endpoint
         | None => false
         end)).
Definition engine_take_pending {E} (message_id : MessageId) (endpoint : Endpoint) : st Eng E (option SlotId) :=
  on_tx_memory (st_run (fun m => take_pending_con m message_id endpoint)).

Definition match_empty_ack_rst {E} (parsed : ParsedMessage T) (endpoint : Endpoint) : st Eng E (option SlotId) :=
  if negb (pm_is_empty_ack_or_rst parsed) then mret None
  else
    inc (if pm_is_empty_ack parsed then empty_ack else empty_rst);;
    engine_take_pending (pm_message_id parsed) endpoint.

(** The sidecar endpoint and the message of an occupied RX slot. *)
Definition rx_message id : st Eng SlotMessageError (Endpoint * ParsedMessage T) :=
  endpoint ← rx_endpoint id;
  endpoint ← st_lift (ok_or endpoint (SMSlot NotOccupied));
  parsed ← decode_rx id;
  mret (endpoint, parsed).

Definition match_empty_ack_rst_rx id : st Eng SlotMessageError (option SlotId) :=
  '(endpoint, parsed) ← rx_message id;
  if negb (pm_is_empty_ack_or_rst parsed) then mret None
  else
    inc (if pm_is_empty_ack parsed then empty_ack else empty_rst);;
    engine_take_pending (pm_message_id parsed) endpoint.

Definition engine_peek_retransmit {E} (now_ms : Z) : st Eng E (option PendingCon) :=
  en ← st_get; st_lift (peek_retransmit (me_tx (en_storage en)) now_ms).

Definition count_event {E} (event : option Retransmit) : st Eng E unit :=
  match event with
  | Some (Due _) => inc con_retransmit
  | Some (GiveUp _) => inc m_give_up
  | None => mret tt
  end.
Definition engine_commit_retransmit {E} (expected : PendingCon) (now_ms : Z) : st Eng E (option Retransmit) :=
  event ← on_tx_memory (st_run (fun m => commit_retransmit m expected now_ms));
  count_event event;;
  mret event.
Definition engine_poll_retransmit {E} (now_ms : Z) : st Eng E (option Retransmit) :=
  en ← st_get;
  if (sp_occupied_count (tx_of en) =? 0)%nat then mret None
  else
    event ← on_tx_memory (st_run (fun m => poll_retransmit m now_ms));
    count_event event;;
    mret event.

(** ** Exchanges *)
Definition insert_exchange {E} (entry : ExchangeEntry T) : st Eng E (option SlotId) :=
  on_exchange (st_run (fun t => ExchangeTable_insert t entry)).
Definition lookup_exchange {E} (key : ExchangeKey T) : st Eng E (option SlotId) :=
  st_gets (fun en => ExchangeTable_lookup (exchange_of en) key).
Definition take_exchange {E} (key : ExchangeKey T) : st Eng E (option (ExchangeEntry T)) :=
  on_exchange (st_run (fun t => ExchangeTable_take t key)).
Definition exchange_entry {E} id : st Eng E (option (ExchangeEntry T)) :=
  st_gets (fun en => ExchangeTable_entry (exchange_of en) id).

Definition record_request id (endpoint : Endpoint) : st Eng SlotMessageError (option (ExchangeEntry T)) :=
  parsed ← decode_tx id;
  echo ← st_lift (pm_echo parsed);
  if negb (is_con_or_non_request parsed) then mret None
  else
    st_map_err SMSlot (set_tx_endpoint id endpoint);;
    let entry := ExchangeEntry_new (pm_token _ parsed) endpoint (pm_message_id parsed) id in
    let entry := match Echo_from_option echo with Some echo => with_echo entry echo | None => entry end in
    table_id ← insert_exchange entry;
    match table_id with
    | None => mret None
    | Some tid => exchange_entry tid
    end.

Definition take_matching_response {E} (token : T) (ty : MType) (code : Code) (message_id : MessageId) (endpoint : Endpoint)
    (challenge : option Echo) : st Eng E (option (ExchangeEntry T)) :=
  if negb (Code_is_response code) || negb (carries_response ty) then mret None
  else
    let key := mkExchangeKey token endpoint in
    id ← lookup_exchange key;
    match id with
    | None => mret None
    | Some id =>
        entry ← exchange_entry id;
        match entry with
        | None => mret None
        | Some entry =>
            if negb (mid_ok ty message_id (ee_message_id entry)) then mret None
            else
              taken ← take_exchange key;
              match taken with
              | None => mret None
              | Some entry => mret (Some match challenge with Some echo => with_challenge entry echo | None => entry end)
              end
        end
    end.

Definition match_response {E} (parsed : ParsedMessage T) (endpoint : Endpoint) : st Eng E (option (ExchangeEntry T)) :=
  echo ← st_lift (pm_echo parsed);
  take_matching_response (pm_token _ parsed) (pm_ty parsed) (pm_code parsed) (pm_message_id parsed) endpoint
    (Echo_from_option echo).
Definition match_response_rx id : st Eng SlotMessageError (option (ExchangeEntry T)) :=
  '(endpoint, parsed) ← rx_message id;
  match_response parsed endpoint.
End engine.
