(* ===== verification/EngineExchange.v ===== *)
(** * Requests and responses through the engine

    What [record_request] and [match_response_rx] of [src/storage/engine.rs]
    promise, on every branch, and the histories of all the calls that reach the
    exchanges: a response completes an exchange only if it is outstanding. *)
From S2P Require Import Prelude Errors MsgTypes Options Encode Decode OptionValues MessageOptions Occupancy Pending.
From S2P Require Import DatagramPool PendingCons SlotTable Dedup Observe Block BodyPool Exchange Engine.

Section laws.
Context {RX TX RB TB T Q : Type} `{Target} `{OwnedToken T} `{EqDecision T}.
Context `{!SlotPool RX} `{!DatagramBytes RX} `{!SlotPool TX} `{!DatagramBytes TX} `{!BodyCells T RB} `{!BodyCells T TB}.
Context `{!DatagramLaws RX} `{!DatagramLaws TX}.
Abbreviation Eng := (Engine RX TX RB TB T Q).
Implicit Types (en : Eng) (id : SlotId).

(** The areas are well formed. *)
Definition engine_inv en : Prop :=
  pool_inv (rx_of en) ∧ pool_inv (tx_of en) ∧ tb_inv (me_dedup (en_storage en)) ∧ tb_inv (observe_of en) ∧
  tb_inv (exchange_of en).

(** An occupied slot of a pool shows these bytes from this endpoint. *)
Definition shows {P} `{DatagramLaws P} (p : P) id (w : list Z) (e : option Endpoint) : Prop :=
  ∃ s, slot_at (pool_view p) id = Some s ∧ sv_payload s = w ∧ sv_endpoint s = e.

Lemma pm_echo_total {E} (w : list Z) (m : ParsedMessage T) :
  bytes_ok w → decode_with_token w = Ok m → ∃ o, pm_echo (E:=E) m = Ok o.
Proof.
  intros Hok Hd. unfold decode_with_token in Hd. unbind.
  destruct (decode_parts w true) as [p| | |] eqn:Ep; try done. cbn [map_err] in Hd.
  apply decode_parts_inv in Ep as (ty & code & mid & token & os & payload & -> & -> & _); [|done].
  destruct (ot_try_from_bytes _) as [t| | |]; try done. cbn [map_err wire_parts pt_options pt_header pt_payload] in Hd.
  injection Hd as <-. unfold pm_echo.
  match goal with |- context [get_option ?m _] => set (pm := m) end.
  destruct (Options_iter_total (E:=E) (options_wire 0 os)) as [os' Hos].
  assert (bytes_ok (pm_options _ pm)) as Hb by (unfold msg_wire in Hok; apply bytes_ok_app in Hok as [_ Hok];
    by apply bytes_ok_app in Hok as [Hok _]).
  rewrite (get_option_spec pm os' ON_ECHO Hb Hos). unbind. by eexists.
Qed.

(** ** One response *)
Lemma take_matching_spec {E} token ty code mid e challenge en :
  tb_inv (exchange_of en) →
  let key := mkExchangeKey token e in
  match tb_get (exchange_of en) key with
  | Some entry =>
      if Code_is_response code && carries_response ty && mid_ok ty mid (ee_message_id entry)
      then ∃ t', take_matching_response (E:=E) token ty code mid e challenge en =
             (with_exchange en t', Ok (Some match challenge with Some c => with_challenge entry c | None => entry end)) ∧
           tb_inv t' ∧ ∀ k, tb_get t' k = if decide (k = key) then None else tb_get (exchange_of en) k
      else take_matching_response (E:=E) token ty code mid e challenge en = (en, Ok None)
  | None => take_matching_response (E:=E) token ty code mid e challenge en = (en, Ok None)
  end.
Proof.
  intros Hi key. unfold take_matching_response. fold key.
  destruct (Code_is_response code), (carries_response ty); cbn [negb orb andb];
    try (by destruct (tb_get (exchange_of en) key)).
  unfold lookup_exchange, exchange_entry, take_exchange, ExchangeTable_lookup, ExchangeTable_entry, ExchangeTable_take.
  unfold tb_get at 1. unbind. unfold st_gets.
  destruct (tb_lookup (exchange_of en) key) as [id|] eqn:El; [|done].
  destruct (tb_entry (exchange_of en) id) as [entry|] eqn:Ee; [|done].
  destruct (mid_ok ty mid (ee_message_id entry)); cbn [negb]; [|done].
  destruct (tb_take_map (E:=E) (exchange_of en) key Hi) as (t' & Ht & Hi' & Hm).
  unfold on_exchange, zoom, st_run. rewrite Ht. unfold tb_get. rewrite El, Ee. by exists t'.
Qed.

(** A response received in an RX slot, on every branch: it completes
    exactly the exchange with its Token and its source endpoint (a piggybacked
    one also needs the Message ID of the request), hands back that exchange
    with the response's Echo, removes it and nothing else, and arriving a
    second time completes nothing; any other message changes nothing. *)
Theorem response_matching en id w e m :
  engine_inv en → shows (rx_of en) id w (Some e) → bytes_ok w → decode_with_token w = Ok m →
  let key := mkExchangeKey (pm_token _ m) e in
  ∃ echo, pm_echo (E:=SlotMessageError) m = Ok echo ∧
  match tb_get (exchange_of en) key with
  | Some entry =>
      if matches_response m (ee_message_id entry)
      then ∃ t', match_response_rx id en =
             (with_exchange en t',
              Ok (Some match Echo_from_option echo with Some c => with_challenge entry c | None => entry end)) ∧
           tb_inv t' ∧ (∀ k, tb_get t' k = if decide (k = key) then None else tb_get (exchange_of en) k) ∧
           match_response_rx id (with_exchange en t') = (with_exchange en t', Ok None)
      else match_response_rx id en = (en, Ok None)
  | None => match_response_rx id en = (en, Ok None)
  end.
Proof.
  intros (Hrx & _ & _ & _ & Hx) (s & Hs & Hw & He) Hok Hd key.
  destruct (pm_echo_total (E:=SlotMessageError) w m Hok Hd) as [echo Hecho]. exists echo. split; [done|].
  assert (∀ en', rx_of en' = rx_of en → match_response_rx id en' =
    take_matching_response (pm_token _ m) (pm_ty m) (pm_code m) (pm_message_id m) e (Echo_from_option echo) en') as Hrun.
  { intros en' Heq. unfold match_response_rx, rx_message, rx_endpoint, decode_rx, decode_occupied, match_response. unbind.
    rewrite Heq, law_endpoint, law_payload, Hs by done. cbn [option_map mjoin option_join]. rewrite Hw, He. cbn [ok_or].
    rewrite Hd. cbn [map_err]. by rewrite Hecho. }
  pose proof (take_matching_spec (E:=SlotMessageError) (pm_token _ m) (pm_ty m) (pm_code m) (pm_message_id m) e
    (Echo_from_option echo) en Hx) as Hspec. cbv zeta in Hspec. fold key in Hspec.
  unfold matches_response, is_token_response. rewrite (Hrun en eq_refl).
  destruct (tb_get (exchange_of en) key) as [entry|] eqn:Eg; [|done].
  destruct (Code_is_response (pm_code m) && carries_response (pm_ty m)) eqn:Er; cbn [negb andb] in *; [|done].
  destruct (mid_ok _ _ _); [|done]. destruct Hspec as (t' & -> & Hi' & Hm). exists t'. split_and!; try done.
  rewrite Hrun by done.
  pose proof (take_matching_spec (E:=SlotMessageError) (pm_token _ m) (pm_ty m) (pm_code m) (pm_message_id m) e
    (Echo_from_option echo) (with_exchange en t') Hi') as Hagain. cbv zeta in Hagain. fold key in Hagain.
  change (exchange_of (with_exchange en t')) with t' in Hagain. by rewrite Hm, decide_True in Hagain.
Qed.

(** ** One request *)
Definition request_entry (m : ParsedMessage T) (echo : option (list Z)) (e : Endpoint) id : ExchangeEntry T :=
  let entry := ExchangeEntry_new (pm_token _ m) e (pm_message_id m) id in
  match Echo_from_option echo with Some c => with_echo entry c | None => entry end.

Lemma request_entry_key m echo e id : ee_key (request_entry m echo e id) = mkExchangeKey (pm_token _ m) e.
Proof. unfold request_entry. by destruct (Echo_from_option echo). Qed.

(** The engine after the endpoint of a TX slot is set. *)
Lemma set_tx_endpoint_ok en id e w old :
  pool_inv (tx_of en) → shows (tx_of en) id w old →
  ∃ p, set_tx_endpoint id e en = (with_tx en p, Ok tt) ∧ pool_inv p ∧ shows p id w (Some e).
Proof.
  intros Hp (s & Hs & Hw & _). pose proof (law_set_endpoint (tx_of en) id e Hp) as Hu. unfold updates in Hu.
  pose proof (slot_at_lt _ _ _ Hs) as Hlt.
  unfold slot_at in Hs. destruct (pool_view (tx_of en) !! id) as [[s'|]|] eqn:Ev; try done. injection Hs as ->.
  destruct Hu as (p & Hr & Hi & _ & Hv). exists p. unfold set_tx_endpoint, on_tx, zoom, set_endpoint, st_upd. rewrite Hr.
  split_and!; try done. exists (set_view_endpoint e s). split_and!; try done. unfold slot_at. rewrite Hv.
  by rewrite list_lookup_insert_eq.
Qed.

(** Recording a request sent from a TX slot, on every branch: a CON or NON
    request is entered under its Token and destination with its Message ID, TX
    slot and Echo, or the entry already there is returned; a full table
    refuses; any other message changes nothing. *)
Theorem request_recorded en id w old m e :
  engine_inv en → shows (tx_of en) id w old → bytes_ok w → decode_with_token w = Ok m →
  let key := mkExchangeKey (pm_token _ m) e in
  ∃ echo en' r, pm_echo (E:=SlotMessageError) m = Ok echo ∧ record_request id e en = (en', Ok r) ∧
  if is_con_or_non_request m then
    engine_inv en' ∧ shows (tx_of en') id w (Some e) ∧ rx_of en' = rx_of en ∧
    match tb_get (exchange_of en) key with
    | Some entry => r = Some entry ∧ exchange_of en' = exchange_of en
    | None =>
        (tb_full (exchange_of en) ∧ r = None ∧ exchange_of en' = exchange_of en) ∨
        (r = Some (request_entry m echo e id) ∧
         ∀ k, tb_get (exchange_of en') k = if decide (k = key) then r else tb_get (exchange_of en) k)
    end
  else en' = en ∧ r = None.
Proof.
  intros (Hrx & Htx & Hdd & Hob & Hx) Hsh Hok Hd key.
  destruct (pm_echo_total (E:=SlotMessageError) w m Hok Hd) as [echo Hecho]. exists echo.
  pose proof Hsh as (s & Hs & Hw & _). unfold record_request, decode_tx, decode_occupied. unbind.
  rewrite law_payload, Hs by done. cbn [option_map ok_or]. rewrite Hw, Hd. cbn [map_err]. rewrite Hecho.
  destruct (is_con_or_non_request m); cbn [negb]; [|by exists en, None].
  destruct (set_tx_endpoint_ok en id e w old Htx Hsh) as (p & Hset & Hip & Hshow).
  unfold st_map_err. rewrite Hset. cbn [map_err]. fold (request_entry m echo e id).
  unfold insert_exchange, on_exchange, zoom, st_run, ExchangeTable_insert.
  change (exchange_of (with_tx en p)) with (exchange_of en).
  destruct (tb_insert_map (E:=SlotMessageError) (exchange_of en) (request_entry m echo e id) Hx) as (t' & r & Hins & Hi' & Hm).
  rewrite Hins. change (row_key (request_entry m echo e id)) with (ee_key (request_entry m echo e id)) in Hm.
  rewrite request_entry_key in Hm. fold key in Hm. unfold exchange_entry, st_gets, ExchangeTable_entry.
  destruct r as [tid|].
  - eexists _, _. split_and!; [done|done|done..|]. change (exchange_of (with_exchange (with_tx en p) t')) with t'.
    destruct (tb_get (exchange_of en) key) as [entry|] eqn:Eg.
    + destruct Hm as [-> Hl]. split; [|done]. unfold tb_get in Eg. by rewrite Hl in Eg.
    + right. destruct Hm as [He Hk]. rewrite He. by split.
  - eexists _, _. split_and!; [done|done|done..|]. change (exchange_of (with_exchange (with_tx en p) t')) with t'.
    destruct (tb_get (exchange_of en) key); [done|]. left. destruct Hm as [-> Hf]. by split_and!.
Qed.

(** ** Histories *)

(** What the table operations do to the exchanges, whatever they return. *)
Lemma insert_exchange_step {E} en x :
  engine_inv en →
  ∃ t' r, insert_exchange (E:=E) x en = (with_exchange en t', Ok r) ∧ tb_inv t' ∧
    match r with
    | None => t' = exchange_of en
    | Some tid => ∃ y, tb_entry t' tid = Some y ∧ ee_key y = ee_key x ∧
        (tb_get (exchange_of en) (ee_key y) = Some y ∧ t' = exchange_of en ∨
         tb_get (exchange_of en) (ee_key y) = None ∧ y = x ∧
         ∀ k, tb_get t' k = if decide (k = ee_key y) then Some y else tb_get (exchange_of en) k)
    end.
Proof.
  intros (Hrx & Htx & Hdd & Hob & Hx). unfold insert_exchange, on_exchange, zoom, st_run, ExchangeTable_insert.
  destruct (tb_insert_map (E:=E) (exchange_of en) x Hx) as (t' & r & Hins & Hi' & Hm). rewrite Hins.
  exists t', r. split_and!; [done|done|]. change (row_key x) with (ee_key x) in Hm.
  destruct r as [tid|], (tb_get (exchange_of en) (ee_key x)) as [old|] eqn:Eg; try done; try (by destruct Hm).
  - destruct Hm as [-> Hl]. pose proof Hl as Hl'. apply tb_lookup_Some in Hl' as (row & Hrow & Hk); [|done].
    change (row_key row) with (ee_key row) in Hk. exists row. split_and!; [done|done|left]. split; [|done]. rewrite Hk.
    apply tb_get_Some; [done|]. by exists tid.
  - destruct Hm as [He Hk]. exists x. split_and!; [done|done|right]. by split_and!.
Qed.

Lemma take_exchange_step {E} en k :
  engine_inv en →
  ∃ t', take_exchange (E:=E) k en = (with_exchange en t', Ok (tb_get (exchange_of en) k)) ∧ tb_inv t' ∧
    ∀ k', tb_get t' k' = if decide (k' = k) then None else tb_get (exchange_of en) k'.
Proof.
  intros (_ & _ & _ & _ & Hx). unfold take_exchange, on_exchange, zoom, st_run, ExchangeTable_take.
  destruct (tb_take_map (E:=E) (exchange_of en) k Hx) as (t' & -> & Hi' & Hk). by exists t'.
Qed.

(** Setting the endpoint of a TX slot: done, or refused with nothing changed. *)
Lemma set_tx_endpoint_step en id e :
  engine_inv en →
  ∃ en' r, set_tx_endpoint id e en = (en', r) ∧ engine_inv en' ∧ exchange_of en' = exchange_of en.
Proof.
  intros (Hrx & Htx & Hdd & Hob & Hx). unfold set_tx_endpoint, on_tx, zoom, set_endpoint, st_upd.
  pose proof (law_set_endpoint (tx_of en) id e Htx) as Hu. unfold updates in Hu.
  destruct (pool_view (tx_of en) !! id) as [[s|]|].
  1: destruct Hu as (p & -> & Hip & _); by eexists _, _.
  all: rewrite Hu; by eexists _, _.
Qed.

(** An entry without the challenge of its response. *)
Definition base (x : ExchangeEntry T) : ExchangeEntry T :=
  mkExchange (ee_key x) (ee_message_id x) (ee_tx_slot x) (ee_echo x) None.

(** The calls that reach the exchanges, and what is logged of each: the row a
    recording or an insertion stands for (the one already there when the key
    is present), the message, its source and the exchange it completed, the
    exchange taken by key.  A call that hands back no row logs nothing. *)
Inductive ExchangeCall : Type :=
  | CallRecord (id : SlotId) (e : Endpoint)
  | CallInsert (x : ExchangeEntry T)
  | CallMatch (m : ParsedMessage T) (e : Endpoint)
  | CallMatchRx (id : SlotId)
  | CallTake (k : ExchangeKey T).
Inductive Event : Type :=
  | Sent (x : ExchangeEntry T)
  | Done (m : ParsedMessage T) (e : Endpoint) (d : ExchangeEntry T)
  | Taken (d : ExchangeEntry T).

Definition run_exchange_call (c : ExchangeCall) en : Eng * list Event :=
  match c with
  | CallRecord id e =>
      let '(en', r) := record_request id e en in
      (en', match r with Ok (Some x) => [Sent x] | _ => [] end)
  | CallInsert x =>
      let '(en', r) := insert_exchange (E:=SlotMessageError) x en in
      (en', match r with Ok (Some tid) => match tb_entry (exchange_of en') tid with Some y => [Sent y] | None => [] end
                       | _ => [] end)
  | CallMatch m e =>
      let '(en', r) := match_response (E:=SlotMessageError) m e en in
      (en', match r with Ok (Some d) => [Done m e d] | _ => [] end)
  | CallMatchRx id =>
      let '(en', r) := match_response_rx id en in
      (en', match (rx_message id en).2, r with Ok (e, m), Ok (Some d) => [Done m e d] | _, _ => [] end)
  | CallTake k =>
      let '(en', r) := take_exchange (E:=SlotMessageError) k en in
      (en', match r with Ok (Some d) => [Taken d] | _ => [] end)
  end.

(** What the log says of the exchanges before and after. *)
Definition explains (v : list Event) (f g : ExchangeKey T → option (ExchangeEntry T)) : Prop :=
  match v with
  | [] => ∀ k, g k = f k
  | [Sent x] => ∀ k, g k = if decide (k = ee_key x) then Some x else f k
  | [Done m e d] =>
      ee_key d = mkExchangeKey (pm_token _ m) e ∧ matches_response m (ee_message_id d) = true ∧
      (∃ x, f (ee_key d) = Some x ∧ base x = base d) ∧ ∀ k, g k = if decide (k = ee_key d) then None else f k
  | [Taken d] => f (ee_key d) = Some d ∧ ∀ k, g k = if decide (k = ee_key d) then None else f k
  | _ => False
  end.

Lemma record_request_step en id e en' v :
  engine_inv en → run_exchange_call (CallRecord id e) en = (en', v) →
  engine_inv en' ∧ explains v (tb_get (exchange_of en)) (tb_get (exchange_of en')).
Proof.
  intros Hi Hr. cbn [run_exchange_call] in Hr. unfold record_request, decode_tx in Hr. unbind.
  destruct (db_payload (tx_of en) id) as [w| | |]; try (by injection Hr as <- <-).
  destruct (decode_occupied w) as [m| | |]; try (by injection Hr as <- <-).
  destruct (pm_echo m) as [echo| | |]; try (by injection Hr as <- <-).
  destruct (is_con_or_non_request m); cbn [negb] in Hr; [|by injection Hr as <- <-].
  fold (request_entry m echo e id) in Hr. unfold st_map_err in Hr.
  destruct (set_tx_endpoint_step en id e Hi) as (en1 & r1 & Hset & Hi1 & Hx1). rewrite Hset in Hr.
  destruct r1 as [[]| | |]; cbn [map_err] in Hr; try (injection Hr as <- <-; split; [done|]; intros k; by rewrite Hx1).
  destruct (insert_exchange_step (E:=SlotMessageError) en1 (request_entry m echo e id) Hi1) as (t' & r & Hins & Hi' & Hm).
  rewrite Hins in Hr. rewrite Hx1 in Hm. destruct Hi1 as (? & ? & ? & ? & _).
  destruct r as [tid|]; [|injection Hr as <- <-; subst t'; split; [done|by intros k]].
  destruct Hm as (y & Hy & _ & Hm). unfold exchange_entry, ExchangeTable_entry, st_gets in Hr.
  change (exchange_of (with_exchange en1 t')) with t' in Hr. rewrite Hy in Hr. injection Hr as <- <-.
  split; [done|]. change (exchange_of (with_exchange en1 t')) with t'. intros k.
  destruct Hm as [[Hg ->]|(_ & _ & Hg)]; [|by rewrite Hg]. case_decide; [by subst|done].
Qed.

Lemma match_response_step en m e en' v :
  engine_inv en → run_exchange_call (CallMatch m e) en = (en', v) →
  engine_inv en' ∧ explains v (tb_get (exchange_of en)) (tb_get (exchange_of en')).
Proof.
  intros (Hrx & Htx & Hdd & Hob & Hx) Hr. cbn [run_exchange_call] in Hr. unfold match_response in Hr. unbind.
  destruct (pm_echo m) as [echo| | |]; try (by injection Hr as <- <-).
  pose proof (take_matching_spec (E:=SlotMessageError) (pm_token _ m) (pm_ty m) (pm_code m) (pm_message_id m) e
    (Echo_from_option echo) en Hx) as Hspec. cbv zeta in Hspec.
  destruct (tb_get (exchange_of en) _) as [x|] eqn:Eg; [|rewrite Hspec in Hr; by injection Hr as <- <-].
  destruct (Code_is_response _ && _ && _) eqn:Eok; [|rewrite Hspec in Hr; by injection Hr as <- <-].
  destruct Hspec as (t' & Ht & Hi' & Hk). rewrite Ht in Hr. injection Hr as <- <-. split; [done|].
  assert (ee_key x = mkExchangeKey (pm_token _ m) e) as Hkey by (by apply tb_get_Some in Eg as (? & ? & ?)).
  set (d := match Echo_from_option echo with Some c => with_challenge x c | None => x end).
  assert (ee_key d = ee_key x ∧ ee_message_id d = ee_message_id x ∧ base x = base d) as (Hd1 & Hd2 & Hd3)
    by (unfold d; by destruct (Echo_from_option echo)).
  unfold explains. rewrite Hd1, Hd2, Hkey. split_and!; [done| |by exists x|done].
  unfold matches_response, is_token_response. apply andb_true_iff in Eok as [-> ->]. done.
Qed.

(** Every call: the areas stay well formed and the log explains the change. *)
Lemma run_call_explained c en en' v :
  engine_inv en → run_exchange_call c en = (en', v) →
  engine_inv en' ∧ explains v (tb_get (exchange_of en)) (tb_get (exchange_of en')).
Proof.
  intros Hi Hr. destruct c as [id e|x|m e|id|k]; [by eapply record_request_step| |by eapply match_response_step| |].
  - destruct (insert_exchange_step (E:=SlotMessageError) en x Hi) as (t' & r & Hins & Hi' & Hm). cbn [run_exchange_call] in Hr.
    rewrite Hins in Hr. destruct Hi as (? & ? & ? & ? & _). change (exchange_of (with_exchange en t')) with t' in Hr.
    destruct r as [tid|]; [|injection Hr as <- <-; subst t'; split; [done|by intros k]].
    destruct Hm as (y & Hy & _ & Hm). rewrite Hy in Hr. injection Hr as <- <-. split; [done|].
    change (exchange_of (with_exchange en t')) with t'. intros k.
    destruct Hm as [[Hg ->]|(_ & _ & Hg)]; [|by rewrite Hg]. case_decide; [by subst|done].
  - assert (en' = en ∧ v = [] ∨ ∃ m e, run_exchange_call (CallMatch m e) en = (en', v)) as [[-> ->]|(m & e & Hm)].
    { cbn [run_exchange_call] in *. unfold match_response_rx in Hr. unbind.
      assert ((rx_message id en).1 = en) as Hst.
      { unfold rx_message, rx_endpoint, decode_rx. unbind. destruct (db_endpoint _ _) as [[?|]| | |]; try done.
        cbn [ok_or]. destruct (db_payload _ _); try done. by destruct (decode_occupied _). }
      destruct (rx_message id en) as [en1 [[e m]| | |]]; cbn [fst snd] in *; subst en1;
        [right; exists m, e; exact Hr|injection Hr as <- <-; by left..]. }
    + by split.
    + by eapply match_response_step.
  - destruct (take_exchange_step (E:=SlotMessageError) en k Hi) as (t' & Ht & Hi' & Hk). cbn [run_exchange_call] in Hr.
    rewrite Ht in Hr. injection Hr as <- <-. destruct Hi as (? & ? & ? & ? & ?). split; [done|].
    change (exchange_of (with_exchange en t')) with t'.
    destruct (tb_get (exchange_of en) k) as [d|] eqn:Eg.
    + assert (ee_key d = k) as <- by (by apply tb_get_Some in Eg as (? & ? & ?)). by split.
    + intros k'. rewrite Hk. case_decide; [by subst|done].
Qed.

(** Any calls in any order, and between them anything that leaves the
    exchanges as they are (every other operation of the engine; a caller that
    edits the table itself through [Engine::storage_mut] is outside). *)
Inductive history en0 : list Event → Eng → Prop :=
  | h_start : history en0 [] en0
  | h_call l en c en' v : history en0 l en → run_exchange_call c en = (en', v) → history en0 (l ++ v) en'
  | h_other l en en' : history en0 l en → exchange_of en' = exchange_of en → engine_inv en' → history en0 l en'.

(** The exchange under this key is not completed or taken in these events. *)
Definition leaves_open (k : ExchangeKey T) (l : list Event) : Prop :=
  Forall (fun v => match v with Sent _ => True | Done _ _ d | Taken d => ee_key d ≠ k end) l.
(** The last closing of the key, if any, is before a recording of [x]. *)
Definition open_since (x : ExchangeEntry T) (l : list Event) : Prop :=
  ∃ l1 l2, l = l1 ++ Sent x :: l2 ∧ leaves_open (ee_key x) l2.

Lemma open_since_app x l v : open_since x l → leaves_open (ee_key x) v → open_since x (l ++ v).
Proof.
  intros (l1 & l2 & -> & Ho) Hv. exists l1, (l2 ++ v). split; [by rewrite <- app_assoc|by apply Forall_app].
Qed.

Lemma history_keeps en0 l en :
  engine_inv en0 → (∀ k, tb_get (exchange_of en0) k = None) → history en0 l en →
  engine_inv en ∧ ∀ k x, tb_get (exchange_of en) k = Some x → ee_key x = k ∧ open_since x l.
Proof.
  intros Hi0 Hempty Hh. induction Hh as [|l en c en' v Hh [Hi Hk] Hr|l en en' Hh [Hi Hk] Hx Hi'].
  - split; [done|]. intros k x. by rewrite Hempty.
  - destruct (run_call_explained c en en' v Hi Hr) as [Hi' He]. split; [done|]. intros k y Hy.
    assert (∀ d, (if decide (k = ee_key d) then None else tb_get (exchange_of en) k) = Some y →
      k ≠ ee_key d ∧ ee_key y = k ∧ open_since y l) as Hclose.
    { intros d Hd. case_decide; [done|]. destruct (Hk k y Hd). by split_and!. }
    destruct v as [|[x|m e d|d] [|]]; cbn [explains] in He; try done.
    + rewrite He in Hy. rewrite app_nil_r. by apply Hk.
    + rewrite He in Hy. case_decide as Hd; [injection Hy as <-; split; [done|]; exists l, []; split; [done|constructor]|].
      destruct (Hk k y Hy) as [Hyk Ho]. split; [done|]. apply open_since_app; [done|]. by repeat constructor.
    + destruct He as (_ & _ & _ & Hg). rewrite Hg in Hy. destruct (Hclose d Hy) as (Hne & Hyk & Ho). split; [done|].
      apply open_since_app; [done|]. repeat constructor. congruence.
    + destruct He as [_ Hg]. rewrite Hg in Hy. destruct (Hclose d Hy) as (Hne & Hyk & Ho). split; [done|].
      apply open_since_app; [done|]. repeat constructor. congruence.
  - split; [done|]. intros k x. rewrite Hx. apply Hk.
Qed.

(** C5: responses are never invented and never counted twice.  Whatever
    sequence of [record_request], [insert_exchange], [match_response],
    [match_response_rx] and [take_exchange] is called on an engine whose table
    starts empty, with anything between them that leaves the table alone, each
    completed exchange was recorded or inserted before (same Token, endpoint,
    Message ID, TX slot and Echo), it was not completed or taken since, and
    the message that completes it is a response with its Token from its
    endpoint, with its Message ID where it is piggybacked. *)
Theorem exchange_at_most_once en0 l en l1 m e d l2 :
  engine_inv en0 → (∀ k, tb_get (exchange_of en0) k = None) → history en0 l en → l = l1 ++ Done m e d :: l2 →
  ee_key d = mkExchangeKey (pm_token _ m) e ∧ matches_response m (ee_message_id d) = true ∧
  ∃ x, base x = base d ∧ open_since x l1.
Proof.
  intros Hi0 Hempty Hh. revert l1 m e d l2.
  induction Hh as [|l en c en' v Hh IH Hr|l en en' Hh IH Hx Hi']; intros l1 m e d l2 Hl; [by destruct l1| |by apply (IH l1 m e d l2)].
  destruct (history_keeps en0 l en Hi0 Hempty Hh) as [Hi Hk].
  destruct (run_call_explained c en en' v Hi Hr) as [_ He].
  destruct v as [|w [|]]; [rewrite app_nil_r in Hl; by apply (IH l1 m e d l2)| |by destruct w].
  destruct l2 as [|u l2 _] using rev_ind.
  - apply app_inj_tail in Hl as [-> ->]. cbn [explains] in He. destruct He as (Hd & Hm & (x & Hx & Hb) & _).
    split_and!; [done|done|]. exists x. split; [done|]. by apply (Hk _ x Hx).
  - rewrite app_comm_cons, app_assoc in Hl. apply app_inj_tail in Hl as [-> _]. by apply (IH l1 m e d l2).
Qed.
End laws.

(** ** Witnesses: one request and its piggybacked response *)
Section witnesses.
#[local] Existing Instance target64.

Definition ex_peer_ep : Endpoint := mkEndpoint (replicate 16 9) 0 0 5683 true.

(** A pool of one slot, in use, holding [w] with endpoint [e]. *)
Definition ex_slot_pool (w : list Z) (e : option Endpoint) : AllocDatagramPool :=
  mkAlloc [mkAllocSlot (w ++ replicate 8 0) (length w) e None] (length w + 8) (mkOcc [true] [false] 0 1).

Lemma ex_slot_pool_ok w e : pool_inv (ex_slot_pool w e) ∧ shows (ex_slot_pool w e) 0 w e.
Proof.
  assert (ad_inv (ex_slot_pool w e)) as Hi.
  { unfold ad_inv, ex_slot_pool. cbn [ad_occ ad_slots ad_slot_bytes]. split_and!; [|done|done|].
    - split_and!; [done|left; simpl; lia|simpl; lia|]. intros i Hi. by destruct i as [|[|i]].
    - repeat constructor; cbn [as_buf as_len]; rewrite ?length_app, ?length_replicate; lia. }
  split; [exact Hi|]. exists (mkView w e None false). split_and!; [|done|done].
  transitivity (Some (mkView (take (length w) (w ++ replicate 8 0)) e None false)); [reflexivity|by rewrite take_app_length].
Qed.

(** CON GET with token 0x05 and Message ID 7; its ACK 2.05; an empty engine. *)
Definition ex_request : list Z := [65; 1; 0; 7; 5].
Definition ex_response : list Z := [97; 69; 0; 7; 5].
Definition ex_engine : Engine AllocDatagramPool AllocDatagramPool (AllocBodyPool Token) (AllocBodyPool Token) Token unit :=
  from_storage (mkMemory (ex_slot_pool ex_response (Some ex_peer_ep)) (mkTx (ex_slot_pool ex_request None) 0)
    (DedupTable_new 1) (SlotTable_new 1) (ExchangeTable_new 1) None).

Lemma ex_engine_inv : engine_inv ex_engine.
Proof.
  unfold engine_inv. split; [apply ex_slot_pool_ok|]. split; [apply ex_slot_pool_ok|].
  split; [apply (SlotTable_new_inv (R:=DedupEntry) 1)|]. split; [apply (proj1 (SlotTable_new_inv (R:=ObserveInterest Token unit) (K:=ObserveKey Token) 1))|].
  apply (proj1 (SlotTable_new_inv (R:=ExchangeEntry Token) (K:=ExchangeKey Token) 1)).
Qed.

Definition ex_request_msg : ParsedMessage Token := mkParsed _ (mkHeader 1 Confirmable 1 1 7) (mkToken [5; 0; 0; 0; 0; 0; 0; 0] 1) [] [].
Definition ex_response_msg : ParsedMessage Token :=
  mkParsed _ (mkHeader 1 Acknowledgement 1 69 7) (mkToken [5; 0; 0; 0; 0; 0; 0; 0] 1) [] [].

Lemma request_recorded_witness :
  ∃ en' x, record_request 0 ex_peer_ep ex_engine = (en', Ok (Some x)) ∧ ee_message_id x = 7 ∧ ee_tx_slot x = 0%nat ∧
    tb_get (exchange_of en') (ee_key x) = Some x.
Proof.
  destruct (request_recorded ex_engine 0 ex_request None ex_request_msg ex_peer_ep ex_engine_inv
    (proj2 (ex_slot_pool_ok _ _)) ltac:(repeat constructor; lia) ltac:(vm_compute; reflexivity))
    as (echo & en' & r & He & Hr & (_ & _ & _ & Hm)).
  assert (echo = None) as -> by (vm_compute in He; congruence).
  destruct Hm as [(Hf & _)|[-> Hk]]; [specialize (Hf 0%nat ltac:(simpl; lia)); discriminate Hf|].
  eexists _, _. split; [exact Hr|]. split; [reflexivity|]. split; [reflexivity|]. rewrite Hk. reflexivity.
Defined.

(** The engine with the request recorded. *)
Definition ex_waiting := (record_request 0 ex_peer_ep ex_engine).1.
Definition ex_exchange : ExchangeEntry Token :=
  ExchangeEntry_new (mkToken [5; 0; 0; 0; 0; 0; 0; 0] 1) ex_peer_ep 7 0%nat.

Lemma ex_waiting_step : record_request 0 ex_peer_ep ex_engine = (ex_waiting, Ok (Some ex_exchange)).
Proof. vm_compute. reflexivity. Qed.
Lemma ex_waiting_call : run_exchange_call (CallRecord 0 ex_peer_ep) ex_engine = (ex_waiting, [Sent ex_exchange]).
Proof. cbn [run_exchange_call]. rewrite ex_waiting_step. reflexivity. Qed.
Lemma ex_waiting_inv : engine_inv ex_waiting.
Proof. apply (record_request_step ex_engine 0 ex_peer_ep _ _ ex_engine_inv ex_waiting_call). Qed.

Lemma response_matching_witness :
  ∃ en', match_response_rx 0 ex_waiting = (en', Ok (Some ex_exchange)) ∧ match_response_rx 0 en' = (en', Ok None).
Proof.
  destruct (response_matching ex_waiting 0 ex_response ex_peer_ep ex_response_msg ex_waiting_inv
    (proj2 (ex_slot_pool_ok _ _)) ltac:(repeat constructor; lia) ltac:(vm_compute; reflexivity)) as (echo & He & Hm).
  assert (echo = None) as -> by (vm_compute in He; congruence).
  assert (tb_get (exchange_of ex_waiting) (mkExchangeKey (pm_token Token ex_response_msg) ex_peer_ep) = Some ex_exchange)
    as Hg by (vm_compute; reflexivity).
  rewrite Hg in Hm. destruct Hm as (t' & Hr & _ & _ & Hagain). eexists. split; [exact Hr|exact Hagain].
Defined.

Lemma exchange_at_most_once_witness :
  matches_response ex_response_msg 7 = true ∧ ∃ x, base x = base ex_exchange ∧ open_since x [Sent ex_exchange].
Proof.
  destruct (run_exchange_call (CallMatchRx 0) ex_waiting) as [en' v] eqn:Hr.
  assert (v = [Done ex_response_msg ex_peer_ep ex_exchange]) as ->.
  { transitivity (run_exchange_call (CallMatchRx 0) ex_waiting).2; [by rewrite Hr|vm_compute; reflexivity]. }
  apply (exchange_at_most_once ex_engine _ en' [Sent ex_exchange] ex_response_msg ex_peer_ep ex_exchange [] ex_engine_inv
    (proj2 (SlotTable_new_inv 1))
    (h_call ex_engine _ _ _ _ _ (h_call ex_engine _ _ _ _ _ (h_start ex_engine) ex_waiting_call) Hr) eq_refl).
Defined.
End witnesses.
