(* ===== verification/EngineObserve.v ===== *)
(** * Observe interests through the engine

    [src/storage/engine.rs], [impl<S: Storage + ObserveSlots> Engine<S>], and
    [endpoint_notify_held], [lookup_observe_unacked], [poll_observe_lifetime]:
    registering, signalling, sending and rejecting notifications, and their
    lifetimes. *)
From S2P Require Import Prelude Errors MsgTypes Options Encode Decode OptionValues MessageOptions Occupancy Pending.
From S2P Require Import DatagramPool PendingCons SlotTable Dedup Observe Block BodyPool Exchange Engine.

Inductive ObserveExpiry : Type := ExpiredMaxAge (id : SlotId) | ExpiredClientOff (id : SlotId).

(** The path segments kept by [observe_resource_from_message]. *)
Fixpoint resource_segments (items : list (res ValueError (list Z))) (room : nat) : option (list (list Z)) :=
  match items with
  | [] => Some []
  | Ok seg :: items =>
      match room with
      | O => Some []
      | S room => option_map (cons seg) (resource_segments items room)
      end
  | _ :: _ => None
  end.

#[export] Instance ObserveSelection_eq_dec : EqDecision ObserveSelection.
Proof. solve_decision. Defined.
#[export] Instance ObserveLifetime_eq_dec : EqDecision ObserveLifetime.
Proof. solve_decision. Defined.
#[export] Instance ObserveNotifyHold_eq_dec : EqDecision ObserveNotifyHold.
Proof. solve_decision. Defined.

Section observe.
Context {RX TX RB TB T Q : Type} `{Target} `{OwnedToken T} `{EqDecision T}.
Context `{!SlotPool RX} `{!DatagramBytes RX} `{!SlotPool TX} `{!DatagramBytes TX} `{!BodyCells T RB} `{!BodyCells T TB}.
Abbreviation Eng := (Engine RX TX RB TB T Q).
Abbreviation Row := (ObserveInterest T Q).
Implicit Types (en : Eng) (id : SlotId) (key : ObserveKey T).

Definition observe_interest en id : option Row := ObserveTable_entry (observe_of en) id.
Definition observe_entries en : nat := length (tb_entries (observe_of en)).
Definition set_observe_interest id (row : Row) : st Eng SlotError unit :=
  on_observe (st_upd (fun t => ObserveTable_set_entry t id row)).
(** [self.set_observe_interest(id, row).ok()?; Some(a)]. *)
Definition store_row {E A} id (row : Row) (a : A) : st Eng E (option A) :=
  r ← st_ok (set_observe_interest id row);
  mret (match r with Some _ => Some a | None => None end).
(** [let id = lookup(key)?; let row = interest(id)?; f(id, row)]. *)
Definition with_row {E A} (find : Eng → option SlotId) (f : SlotId → Row → st Eng E (option A)) : st Eng E (option A) :=
  en ← st_get;
  match find en with
  | None => mret None
  | Some id => match observe_interest en id with Some row => f id row | None => mret None end
  end.
Definition lookup_observe key en : option SlotId := ObserveTable_lookup (observe_of en) key.

Definition insert_observe {E} (row : Row) : st Eng E (option SlotId) :=
  r ← on_observe (st_run (fun t => ObserveTable_insert t row));
  match r with
  | Some id => inc observe_register;; mret (Some id)
  | None => inc saturated;; mret None
  end.
Definition remove_observe {E} key : st Eng E bool :=
  removed ← on_observe (st_run (fun t => ObserveTable_remove t key));
  inc_if removed observe_cancel;;
  mret removed.
Definition take_observe {E} key : st Eng E (option Row) :=
  taken ← on_observe (st_run (fun t => ObserveTable_take t key));
  inc_if (is_some taken) observe_cancel;;
  mret taken.

Definition signal_observe {E} key : st Eng E (option SlotId) :=
  if ok_client key then mret None
  else with_row (lookup_observe key) (fun id row => store_row id (mark_due row) id).

Definition refresh_observe_max_age {E} key (now_ms max_age_secs : Z) (con_mid : option MessageId) : st Eng E (option SlotId) :=
  with_row (lookup_observe key) (fun id row =>
    let lifetime :=
      match con_mid with
      | Some mid => ObserveLifetime_unacked now_ms max_age_secs mid
      | None => ObserveLifetime_max_age now_ms max_age_secs
      end in
    store_row id (with_lifetime row (Some lifetime)) id).

(** [endpoint_notify_held]: the rows of the peer's address that hold. *)
Definition holds_at en (endpoint : Endpoint) (now_ms : Z) id : bool :=
  match observe_interest en id with
  | Some row =>
      negb (ok_client (oi_key row))
      && eqb (Endpoint_physical (ok_endpoint (oi_key row))) (Endpoint_physical endpoint)
      && is_notify_held row now_ms
  | None => false
  end.
Definition endpoint_notify_held en (endpoint : Endpoint) (now_ms : Z) : nat :=
  length (filter (fun id => holds_at en endpoint now_ms id = true) (seq 0 (observe_entries en))).

Definition unacked_match en (message_id : MessageId) (endpoint : Endpoint) id : option SlotId :=
  match observe_interest en id with
  | None => None
  | Some row =>
      if ok_client (oi_key row) || negb (eqb (ok_endpoint (oi_key row)) endpoint) then None
      else if eqb (oi_lifetime row ≫= ObserveLifetime_con_mid) (Some message_id)
              || match oi_notify_hold row with Some h => eqb (hold_message_id h) message_id | None => false end
      then Some id else None
  end.
Definition lookup_observe_unacked (message_id : MessageId) (endpoint : Endpoint) en : option SlotId :=
  find_map (unacked_match en message_id endpoint) (seq 0 (observe_entries en)).

Definition ack_observe_con {E} (message_id : MessageId) (endpoint : Endpoint) : st Eng E (option SlotId) :=
  with_row (lookup_observe_unacked message_id endpoint) (fun id row =>
    store_row id (clear_notify_hold (with_lifetime row None)) id).

Definition record_observe_notify {E} key (now_ms : Z) (message_id : MessageId) (confirmable : bool) : st Eng E (option SlotId) :=
  with_row (lookup_observe key) (fun id row =>
    if ok_client (oi_key row) then mret None
    else
      let held := match oi_notify_hold row with Some h => hold_is_held h now_ms | None => false end in
      if held then
        mret (if confirmable && eqb (oi_notify_hold row ≫= hold_con_mid) (Some message_id) then Some id else None)
      else
        en ← st_get;
        if (NSTART <=? Z.of_nat (endpoint_notify_held en (ok_endpoint key) now_ms)) && negb (is_notify_held row now_ms)
        then inc nstart_reject;; mret None
        else
          r ← store_row id (record_notify row now_ms message_id confirmable) id;
          match r with
          | Some id => inc m_observe_notify;; mret (Some id)
          | None => mret None
          end).

(** The closure of [superseded_observe_notify]. *)
Fixpoint superseded_loop {E} en (message_id : MessageId) (endpoint : Endpoint) (ids : list SlotId) : res E (option Row) :=
  match ids with
  | [] => mret None
  | id :: ids =>
      match observe_interest en id with
      | None => superseded_loop en message_id endpoint ids
      | Some row =>
          if negb (ok_client (oi_key row)) && eqb (ok_endpoint (oi_key row)) endpoint then
            mids ← superseded_con_mids row;
            if existsb (eqb message_id) mids then mret (Some row) else superseded_loop en message_id endpoint ids
          else superseded_loop en message_id endpoint ids
      end
  end.
Definition superseded_observe_notify {E} (message_id : MessageId) (endpoint : Endpoint) : st Eng E (option Row) :=
  en ← st_get; st_lift (superseded_loop en message_id endpoint (seq 0 (observe_entries en))).

Definition reject_observe_notify {E} (message_id : MessageId) (endpoint : Endpoint) : st Eng E (option Row) :=
  en ← st_get;
  id ← (match lookup_observe_unacked message_id endpoint en with
        | Some id => mret (Some id)
        | None =>
            row ← superseded_observe_notify message_id endpoint;
            mret (match row with Some row => lookup_observe (oi_key row) en | None => None end)
        end);
  match id with
  | None => mret None
  | Some id =>
      match observe_interest en id with
      | None => mret None
      | Some row => take_observe (oi_key row)
      end
  end.

(** ** Registration *)
Definition observe_resource_from_message {E} (parsed : ParsedMessage T) : res E ObserveResource :=
  items ← pm_uri_path parsed;
  mret (match resource_segments items 8 with Some segs => from_path segs | None => RESOURCE_NONE end).

Definition register_observe {E} (parsed : ParsedMessage T) (endpoint : Endpoint) : st Eng E (option SlotId) :=
  register ← st_lift (is_observe_register parsed);
  if negb register then mret None
  else
    resource ← st_lift (observe_resource_from_message parsed);
    insert_observe (with_resource (ObserveInterest_new (pm_token _ parsed) endpoint) resource).
Definition deregister_observe {E} (parsed : ParsedMessage T) (endpoint : Endpoint) : st Eng E (option Row) :=
  deregister ← st_lift (is_observe_deregister parsed);
  if negb deregister then mret None else take_observe (ObserveKey_new (pm_token _ parsed) endpoint).

Definition register_observe_rx id : st Eng SlotMessageError (option SlotId) :=
  '(endpoint, parsed) ← rx_message id;
  register ← st_lift (is_observe_register parsed);
  resource ← st_lift (observe_resource_from_message parsed);
  if negb register then mret None
  else insert_observe (with_resource (ObserveInterest_new (pm_token _ parsed) endpoint) resource).
Definition deregister_observe_rx id : st Eng SlotMessageError (option Row) :=
  '(endpoint, parsed) ← rx_message id;
  deregister_observe parsed endpoint.

(** ** Sequence numbers and bulk operations *)
Definition next_observe_seq_with_confirmation {E} id (confirmable : bool) : st Eng E (option Z) :=
  with_row (fun _ => Some id) (fun id row =>
    let row := if confirmable && negb (ok_client (oi_key row)) then require_confirmation row else row in
    match take_due (mark_due row) with
    | (_, None) => mret None
    | (row, Some seq) => store_row id row seq
    end).
Definition next_observe_seq {E} id : st Eng E (option Z) := next_observe_seq_with_confirmation id false.

Definition restore_observe_due {E} id (assigned_seq : Z) : st Eng E bool :=
  r ← with_row (fun _ => Some id) (fun id row => store_row id (restore_due row assigned_seq) tt);
  mret (is_some r).

(** The loop of [signal_observe_resource] and [mark_observe_resource_deleted]. *)
Fixpoint mark_loop {E} (f : Row → Row) (resource : ObserveResource) (ids : list SlotId) (marked : nat) : st Eng E nat :=
  match ids with
  | [] => mret marked
  | id :: ids =>
      en ← st_get;
      match observe_interest en id with
      | None => mark_loop f resource ids marked
      | Some row =>
          if ok_client (oi_key row) || negb (oi_resource row =? resource) then mark_loop f resource ids marked
          else
            r ← st_ok (set_observe_interest id (f row));
            mark_loop f resource ids (if is_some r then S marked else marked)
      end
  end.
Definition mark_resource {E} (f : Row → Row) (resource : ObserveResource) : st Eng E nat :=
  if resource =? RESOURCE_NONE then mret 0%nat
  else en ← st_get; mark_loop f resource (seq 0 (observe_entries en)) 0.
Definition signal_observe_resource {E} (resource : ObserveResource) : st Eng E nat := mark_resource mark_due resource.
Definition mark_observe_resource_deleted {E} (resource : ObserveResource) : st Eng E nat := mark_resource mark_deleted resource.

Fixpoint take_loop {E} (resource : ObserveResource) (ids : list SlotId) (dropped : nat) : st Eng E nat :=
  match ids with
  | [] => mret dropped
  | id :: ids =>
      en ← st_get;
      match observe_interest en id with
      | None => take_loop resource ids dropped
      | Some row =>
          if ok_client (oi_key row) || negb (oi_resource row =? resource) then take_loop resource ids dropped
          else
            r ← take_observe (oi_key row);
            take_loop resource ids (if is_some r then S dropped else dropped)
      end
  end.
Definition take_observe_resource {E} (resource : ObserveResource) : st Eng E nat :=
  if resource =? RESOURCE_NONE then mret 0%nat
  else en ← st_get; take_loop resource (seq 0 (observe_entries en)) 0.

Definition mark_observe_unacked_due {E} (message_id : MessageId) (endpoint : Endpoint) (now_ms : Z) : st Eng E (option SlotId) :=
  with_row (lookup_observe_unacked message_id endpoint) (fun id row =>
    store_row id (with_lifetime row (Some (ObserveLifetime_unacked now_ms 0 message_id))) id).

(** ** Lifetimes *)

(** The loop of [poll_observe_lifetime]: the first due row in cursor order. *)
Fixpoint expired_loop en (now_ms : Z) (start n : nat) (offsets : list nat) : option (SlotId * nat * Row * ObserveLifetime) :=
  match offsets with
  | [] => None
  | offset :: offsets =>
      let id := ((start + offset) mod n)%nat in
      match observe_interest en id with
      | None => expired_loop en now_ms start n offsets
      | Some row =>
          match take_expired row now_ms with
          | (_, None) => expired_loop en now_ms start n offsets
          | (row, Some life) => Some (id, offset, row, life)
          end
      end
  end.
Definition poll_observe_lifetime {E} (now_ms : Z) : st Eng E (option ObserveExpiry) :=
  en ← st_get;
  let n := observe_entries en in
  if (oc_count (tb_occ (observe_of en)) =? 0)%nat then mret None
  else if (n =? 0)%nat then mret None
  else
    match expired_loop en now_ms (oc_cursor (tb_occ (observe_of en))) n (seq 0 n) with
    | None => mret None
    | Some (id, offset, row, life) =>
        stored ← store_row id row id;
        match stored with
        | None => mret None
        | Some id =>
            advance_observe (offset + 1);;
            mret (Some match life with MaxAge _ => ExpiredMaxAge id | Unacked _ _ => ExpiredClientOff id end)
        end
    end.
(** ** Superseding a confirmable notification *)
Section supersede.
Context `{EqDecision Q}.

#[export] Instance ObserveInterest_eq_dec : EqDecision Row.
Proof. solve_decision. Defined.

(** [validate_observe_replacement] of [src/storage/table.rs]. *)
Definition validate_observe_replacement en (pending : PendingCon) (original replacement : Row) (bytes : list Z)
    : res PendingReplaceError SlotId :=
  id ← ok_or (lookup_observe (oi_key original) en) Stale;
  if negb (eqb (observe_interest en id) (Some original))
     || negb (eqb (ok_endpoint (oi_key original)) (pc_endpoint pending))
     || negb (eqb (oi_notify_hold original ≫= hold_con_mid) (Some (pc_message_id pending)))
     || negb (eqb (oi_key replacement) (oi_key original))
  then Err Stale
  else
    parsed ← map_err (fun _ => InvalidMessage) (decode_with_token (T:=T) bytes);
    if negb (eqb (oi_notify_hold replacement ≫= hold_con_mid) (Some (pm_message_id parsed)))
       || negb (eqb (pm_token _ parsed) (ok_token (oi_key original)))
    then Err InvalidMessage
    else mret id.

(** [replace_observe_con] of the memory; [set_entry(..).expect(..)]. *)
Definition replace_observe_con (pending : PendingCon) (original replacement : Row) (bytes : list Z)
    : st Eng PendingReplaceError unit :=
  en ← st_get;
  id ← st_lift (validate_observe_replacement en pending original replacement bytes);
  engine_replace_pending pending bytes;;
  r ← st_ok (set_observe_interest id replacement);
  match r with Some _ => mret tt | None => st_lift Panic end.

Definition supersede_observe_con (pending : PendingCon) (original replacement : Row) (bytes : list Z)
    : st Eng PendingReplaceError unit :=
  replace_observe_con pending original replacement bytes.
End supersede.
End observe.
