(* ===== verification/Progress.v ===== *)
(** * One bounded pass of the engine

    [src/storage/progress.rs]: [progress] and its variants for the synchronous
    and the awaitable driver.  A pass selects at most one retransmission, one
    received datagram, one expired observer, one notification and one Q-Block
    recovery, each by a search that starts at a rotating cursor. *)
From S2P Require Import Prelude Errors MsgTypes Options Encode Decode OptionValues MessageOptions Occupancy Pending.
From S2P Require Import DatagramPool PendingCons SlotTable Dedup Observe Block BodyPool Exchange Engine EngineObserve.
From S2P Require Import EngineExchange.

Record Progress (T : Type) : Type := mkProgressReport {
  pr_retransmit : option Retransmit;
  pr_rx_ready : option SlotId;
  pr_observe_notify : option SlotId;
  pr_observe_expired : option ObserveExpiry;
  pr_qblock_recover : option (QBlockRecover T)
}.
Arguments mkProgressReport {T} _ _ _ _ _.
Arguments pr_retransmit {T} _.
Arguments pr_rx_ready {T} _.
Arguments pr_observe_notify {T} _.
Arguments pr_observe_expired {T} _.
Arguments pr_qblock_recover {T} _.

Definition Progress_idle {T} : Progress T := mkProgressReport None None None None None.
Definition Progress_is_idle {T} (p : Progress T) : bool :=
  negb (is_some (pr_retransmit p)) && negb (is_some (pr_rx_ready p)) && negb (is_some (pr_observe_notify p))
  && negb (is_some (pr_observe_expired p)) && negb (is_some (pr_qblock_recover p)).

(** [for offset in 0..n { let id = (start + offset) % n; ... }]: the first slot
    that [f] accepts, with its distance from the cursor. *)
Fixpoint scan {A} (n start : nat) (f : SlotId → option A) (offsets : list nat) : option (SlotId * nat * A) :=
  match offsets with
  | [] => None
  | offset :: offsets =>
      let id := ((start + offset) mod n)%nat in
      match f id with
      | Some a => Some (id, offset, a)
      | None => scan n start f offsets
      end
  end.

(** The outcome of the search of [progress_qblock]. *)
Inductive QScan (T : Type) : Type :=
  | QNothing
  | QRecover (offset : nat) (recover : QBlockRecover T)
  | QGiveUp (id : SlotId) (offset : nat) (client : option (ExchangeKey T)).
Arguments QNothing {T}.
Arguments QRecover {T} _ _.
Arguments QGiveUp {T} _ _ _.

Section progress.
Context {RX TX RB TB T Q : Type} `{Target} `{OwnedToken T} `{EqDecision T}.
Context `{!SlotPool RX} `{!DatagramBytes RX} `{!SlotPool TX} `{!DatagramBytes TX} `{!BodyCells T RB} `{!BodyCells T TB}.
Abbreviation Eng := (Engine RX TX RB TB T Q).
Implicit Types (en : Eng) (id : SlotId).

(** ** Received datagrams *)
Definition rx_candidate (p : RX) (eligible : SlotId → bool) id : option unit :=
  if sp_is_occupied p id && negb (sp_is_pinned p id) && eligible id then Some tt else None.

Definition next_unpinned_rx {E} (eligible : SlotId → bool) : st Eng E (option SlotId) :=
  en ← st_get;
  let p := rx_of en in
  let n := sp_slot_count p in
  if (sp_occupied_count p =? 0)%nat then mret None
  else if (n =? 0)%nat then mret None
  else
    match scan n (sp_cursor p) (rx_candidate p eligible) (seq 0 n) with
    | Some (id, offset, _) => advance_rx (offset + 1);; mret (Some id)
    | None => (if (0 <? sp_occupied_count p)%nat then rotate_rx else mret tt);; mret None
    end.

(** ** Notifications *)

(** A pending row whose client is below NSTART, as the pass leaves it. *)
Definition notify_candidate en (now_ms : Z) (select_notification : bool) id : option (ObserveInterest T Q) :=
  match observe_interest en id with
  | None => None
  | Some row =>
      if ok_client (oi_key row) || negb (oi_pending row) then None
      else if NSTART <=? Z.of_nat (endpoint_notify_held en (ok_endpoint (oi_key row)) now_ms) then None
      else if negb select_notification then Some row
      else match take_due row with (row, Some _) => Some row | (_, None) => None end
  end.

Definition progress_observe {E} (now_ms : Z) (select_notification : bool) : st Eng E (option SlotId) :=
  en ← st_get;
  let n := observe_entries en in
  if (oc_count (tb_occ (observe_of en)) =? 0)%nat then mret None
  else if (n =? 0)%nat then mret None
  else
    match scan n (oc_cursor (tb_occ (observe_of en))) (notify_candidate en now_ms select_notification) (seq 0 n) with
    | None => mret None
    | Some (id, offset, row) =>
        if negb select_notification then advance_observe (offset + 1);; mret (Some id)
        else
          stored ← store_row id row id;
          match stored with
          | None => mret None
          | Some id => advance_observe (offset + 1);; mret (Some id)
          end
    end.

Definition claim_observe_notification {E} id (now_ms : Z) : st Eng E (option SlotId) :=
  with_row (fun _ => Some id) (fun id row =>
    en ← st_get;
    if ok_client (oi_key row) || negb (oi_pending row)
       || (NSTART <=? Z.of_nat (endpoint_notify_held en (ok_endpoint (oi_key row)) now_ms))
    then mret None
    else match take_due row with (_, None) => mret None | (row, Some _) => store_row id row id end).

(** ** Q-Block recovery *)
Definition rx_body_transfer en id : option (BlockTransfer T) :=
  match me_bodies (en_storage en) with Some (rb, _) => body_transfer rb id | None => None end.
Definition set_rx_body_transfer id (t : BlockTransfer T) : st Eng SlotError unit :=
  on_rx_body (st_fail InvalidSlot) (st_upd (fun p => body_set_transfer p id t)).

Fixpoint qblock_loop {E} (now_ms : Z) (consume : bool) (start n : nat) (offsets : list nat) : st Eng E (QScan T) :=
  match offsets with
  | [] => mret QNothing
  | offset :: offsets =>
      let id := ((start + offset) mod n)%nat in
      let continue := qblock_loop now_ms consume start n offsets in
      en ← st_get;
      match rx_body_transfer en id with
      | None => continue
      | Some transfer =>
          holes ← st_lift (q_holes transfer);
          match holes with
          | None => continue
          | Some (missing_num, hole_mask) =>
              match bx_receive transfer with
              | None =>
                  transfer ← st_lift (note_q_receive transfer now_ms);
                  st_ok (set_rx_body_transfer id transfer);;
                  continue
              | Some wait =>
                  if negb (wait_is_due wait now_ms) then continue
                  else
                    match note_q_recover transfer now_ms with
                    | (transfer, None) =>
                        mret (QGiveUp id offset
                          (match bx_role transfer with
                           | IncomingQBlock2 =>
                               Some (mkExchangeKey (bk_token (bx_key transfer)) (bk_endpoint (bx_key transfer)))
                           | _ => None
                           end))
                    | (transfer, Some _) =>
                        stored ← (if consume then st_ok (set_rx_body_transfer id transfer) else mret (Some tt));
                        match stored with
                        | None => continue
                        | Some _ =>
                            mret (QRecover offset
                              (mkRecover id (bx_key transfer) (bx_role transfer) missing_num hole_mask
                                 (window_base transfer) (bx_szx transfer)))
                        end
                    end
              end
          end
      end
  end.

(** [progress_qblock]: the recovery, and the exchange of a client body given
    up. *)
Definition progress_qblock {E} (now_ms : Z) (consume : bool)
    : st Eng E (option (QBlockRecover T) * option (ExchangeKey T)) :=
  en ← st_get;
  match me_bodies (en_storage en) with
  | None => mret (None, None)
  | Some (rb, _) =>
      let n := length (oc_occupied (bc_occ rb)) in
      if (oc_count (bc_occ rb) =? 0)%nat then mret (None, None)
      else if (n =? 0)%nat then mret (None, None)
      else
        found ← qblock_loop now_ms consume (oc_cursor (bc_occ rb)) n (seq 0 n);
        match found with
        | QGiveUp id offset client =>
            st_ok (release_rx_body id);;
            advance_rx_body (offset + 1);;
            mret (None, client)
        | QRecover offset recover =>
            (if consume then advance_rx_body (offset + 1) else mret tt);;
            mret (Some recover, None)
        | QNothing => mret (None, None)
        end
  end.
Definition next_qblock_recovery {E} (now_ms : Z) := progress_qblock (E:=E) now_ms true.
Definition next_qblock_recovery_async {E} (now_ms : Z) := progress_qblock (E:=E) now_ms false.

Definition commit_qblock_recovery {E} (recover : QBlockRecover T) (expected : QBlockReceiveWait) (now_ms : Z) : st Eng E bool :=
  en ← st_get;
  match rx_body_transfer en (qr_id recover) with
  | None => mret false
  | Some transfer =>
      if negb (eqb (bx_receive transfer) (Some expected))
         || negb (wait_is_due expected now_ms)
         || negb (eqb (bx_key transfer) (qr_key recover))
         || negb (eqb (bx_role transfer) (qr_role recover))
         || negb (window_base transfer =? qr_window_base recover)
         || negb (bx_szx transfer =? qr_szx recover)
      then mret false
      else
        holes ← st_lift (q_holes transfer);
        if negb (eqb holes (Some (qr_missing_num recover, qr_hole_mask recover))) then mret false
        else
        match note_q_recover transfer now_ms with
        | (_, None) => mret false
        | (transfer, Some _) =>
            stored ← st_ok (set_rx_body_transfer (qr_id recover) transfer);
            match stored with
            | None => mret false
            | Some _ =>
                en ← st_get;
                match me_bodies (en_storage en) with
                | None => mret true
                | Some (rb, _) =>
                    let n := length (oc_occupied (bc_occ rb)) in
                    x ← st_lift (sub_panics (Z.of_nat (qr_id recover + n)) (Z.of_nat (oc_cursor (bc_occ rb))));
                    if (n =? 0)%nat then st_lift Panic
                    else advance_rx_body (Z.to_nat x mod n + 1);; mret true
                end
            end
        end
  end.

(** ** The pass *)
Definition select_retransmit {E} (now_ms : Z) (consume_retransmit : bool) : st Eng E (option Retransmit) :=
  if consume_retransmit then engine_poll_retransmit now_ms
  else
    pending ← engine_peek_retransmit now_ms;
    match pending with
    | None => mret None
    | Some pending =>
        match PendingRto_next_attempt (pc_rto pending) now_ms with
        | Some _ => mret (Some (Due pending))
        | None => engine_commit_retransmit pending now_ms
        end
    end.

Definition progress_inner {E} (now_ms : Z) (immediate_later_work consume_retransmit : bool) (eligible_rx : SlotId → bool)
    : st Eng E (Progress T) :=
  inc m_progress;;
  en ← st_get;
  let rx_busy := negb (sp_occupied_count (rx_of en) =? 0)%nat in
  let tx_busy := negb (sp_occupied_count (tx_of en) =? 0)%nat in
  let observe_busy := negb (oc_count (tb_occ (observe_of en)) =? 0)%nat in
  let qblock_busy :=
    match me_bodies (en_storage en) with Some (rb, _) => negb (oc_count (bc_occ rb) =? 0)%nat | None => false end in
  if negb rx_busy && negb tx_busy && negb observe_busy && negb qblock_busy then mret Progress_idle
  else
    retransmit ← (if tx_busy then select_retransmit now_ms consume_retransmit else mret None);
    (match retransmit with
     | Some (GiveUp pending) => mark_observe_unacked_due (pc_message_id pending) (pc_endpoint pending) now_ms;; mret tt
     | _ => mret tt
     end);;
    rx_ready ← (if rx_busy then next_unpinned_rx eligible_rx else mret None);
    observe_expired ← (if observe_busy then poll_observe_lifetime now_ms else mret None);
    observe_notify ← (if observe_busy then progress_observe now_ms immediate_later_work else mret None);
    qblock ← (if qblock_busy && immediate_later_work then progress_qblock now_ms true else mret (None, None));
    mret (mkProgressReport retransmit rx_ready observe_notify observe_expired qblock.1).

Definition progress {E} (now_ms : Z) : st Eng E (Progress T) := progress_inner now_ms true true (fun _ => true).
Definition progress_before_dispatch {E} (now_ms : Z) (eligible_rx : SlotId → bool) : st Eng E (Progress T) :=
  progress_inner now_ms false true eligible_rx.
Definition progress_before_dispatch_async {E} (now_ms : Z) (eligible_rx : SlotId → bool) : st Eng E (Progress T) :=
  progress_inner now_ms false false eligible_rx.
End progress.

(** * Fairness of the receive scan

    The search of [next_unpinned_rx] ([src/storage/progress.rs]) starts at the
    pool's cursor and moves it past the slot it returns.  Repeated passes are
    proved to return every ready slot once per round. *)
(** ** The cursor of a pool *)
Class RingLaws (P : Type) `{Target} `{SlotPool P} `{DatagramBytes P} `{!DatagramLaws P} : Type := {
  ring_cursor (p : P) : pool_inv p → (0 < sp_slot_count p)%nat → (sp_cursor p < sp_slot_count p)%nat;
  ring_advance (p : P) k :
    pool_inv p → (0 < sp_slot_count p)%nat → sp_cursor (sp_advance p k) = ((sp_cursor p + k) mod sp_slot_count p)%nat;
  ring_flags (p : P) k :
    sp_slot_count (sp_advance p k) = sp_slot_count p ∧ sp_occupied_count (sp_advance p k) = sp_occupied_count p ∧
    ∀ id, sp_is_occupied (sp_advance p k) id = sp_is_occupied p id ∧ sp_is_pinned (sp_advance p k) id = sp_is_pinned p id;
  ring_count (p : P) : pool_inv p → sp_occupied_count p = 0%nat → ∀ id, sp_is_occupied p id = false;
  ring_range (p : P) id : pool_inv p → sp_is_occupied p id = true → (id < sp_slot_count p)%nat
}.

Lemma occ_cursor (o : Occupancy) : occ_inv o → (0 < length (oc_occupied o))%nat → (oc_cursor o < length (oc_occupied o))%nat.
Proof. intros (_ & Hc & _) Hl. lia. Qed.

Lemma occ_advance_cursor (o : Occupancy) k :
  (0 < length (oc_occupied o))%nat → oc_cursor (Occupancy_advance o k) = ((oc_cursor o + k) mod length (oc_occupied o))%nat.
Proof.
  intros Hl. unfold Occupancy_advance, Occupancy_set_cursor. rewrite !(proj2 (Nat.eqb_neq _ _)) by lia. cbn [oc_cursor].
  by rewrite Nat.Div0.add_mod_idemp_r.
Qed.

Lemma occ_advance_flags (o : Occupancy) k :
  oc_occupied (Occupancy_advance o k) = oc_occupied o ∧ oc_pinned (Occupancy_advance o k) = oc_pinned o ∧
  oc_count (Occupancy_advance o k) = oc_count o.
Proof. unfold Occupancy_advance, Occupancy_set_cursor. by destruct (length (oc_occupied o) =? 0)%nat. Qed.

Lemma occ_empty (o : Occupancy) id : occ_inv o → oc_count o = 0%nat → Occupancy_is_occupied o id = false.
Proof.
  intros (Hc & _) Hz. unfold Occupancy_is_occupied. destruct (oc_occupied o !! id) as [[]|] eqn:E; [exfalso|done..].
  pose proof (occupied_flags_insert _ _ false _ E) as Hf. cbv iota in Hf. lia.
Qed.

#[export] Instance DatagramPool_RingLaws `{Target} SLOTS BYTES : RingLaws (DatagramPool SLOTS BYTES).
Proof.
  constructor; cbn [sp_cursor sp_slot_count sp_advance sp_occupied_count sp_is_occupied sp_is_pinned DatagramPool_SlotPool].
  - intros p (Ho & _). by apply occ_cursor.
  - intros p k _. apply occ_advance_cursor.
  - intros p k. destruct (occ_advance_flags (dp_occ p) k) as (H1 & H2 & H3). cbn [dp_with_occ dp_occ].
    unfold Occupancy_is_occupied, Occupancy_is_pinned. by rewrite H1, H2, H3.
  - intros p (Ho & _) Hz id. by apply occ_empty.
  - intros p id _ Hocc. by apply occupied_lt.
Qed.

#[export] Instance AllocDatagramPool_RingLaws `{Target} : RingLaws AllocDatagramPool.
Proof.
  constructor; cbn [sp_cursor sp_slot_count sp_advance sp_occupied_count sp_is_occupied sp_is_pinned AllocDatagramPool_SlotPool].
  - intros p (Ho & _). by apply occ_cursor.
  - intros p k _. apply occ_advance_cursor.
  - intros p k. destruct (occ_advance_flags (ad_occ p) k) as (H1 & H2 & H3). cbn [ad_with_occ ad_occ].
    unfold Occupancy_is_occupied, Occupancy_is_pinned. by rewrite H1, H2, H3.
  - intros p (Ho & _) Hz id. by apply occ_empty.
  - intros p id _ Hocc. by apply occupied_lt.
Qed.

(** ** Searching a ring *)
Definition ring (n c : nat) : list SlotId := (fun i => ((c + i) mod n)%nat) <$> seq 0 n.

Lemma ring_lookup n c i : (i < n)%nat → ring n c !! i = Some ((c + i) mod n)%nat.
Proof. intros Hi. unfold ring. by rewrite list_lookup_fmap, lookup_seq_lt. Qed.
Lemma ring_length n c : length (ring n c) = n.
Proof. unfold ring. by rewrite length_fmap, length_seq. Qed.

Lemma ring_rotate n c k : (k ≤ n)%nat → ring n ((c + k) mod n) = drop k (ring n c) ++ take k (ring n c).
Proof.
  intros Hk. apply list_eq. intros i. destruct (decide (i < n)%nat) as [Hi|Hi].
  - rewrite ring_lookup by done. rewrite Nat.Div0.add_mod_idemp_l. destruct (decide (i < n - k)%nat).
    + rewrite lookup_app_l by (rewrite length_drop, ring_length; lia). rewrite lookup_drop, ring_lookup by lia.
      by rewrite Nat.add_assoc.
    + rewrite lookup_app_r by (rewrite length_drop, ring_length; lia). rewrite length_drop, ring_length.
      rewrite lookup_take_lt, ring_lookup by lia. f_equal.
      replace (c + k + i)%nat with (c + (i - (n - k)) + 1 * n)%nat by lia. apply Nat.Div0.mod_add.
  - rewrite !lookup_ge_None_2; [done|rewrite length_app, length_drop, length_take, ring_length; lia|rewrite ring_length; lia].
Qed.

Lemma ring_perm n c : (c < n)%nat → ring n c ≡ₚ seq 0 n.
Proof.
  intros Hc. assert (ring n 0 = seq 0 n) as H0.
  { apply list_eq. intros i. destruct (decide (i < n)%nat).
    - rewrite ring_lookup, lookup_seq_lt by done. f_equal. simpl. by apply Nat.mod_small.
    - rewrite !lookup_ge_None_2; [done|rewrite length_seq; lia|rewrite ring_length; lia]. }
  pose proof (ring_rotate n 0 c ltac:(lia)) as Hr. rewrite Nat.add_0_l, Nat.mod_small in Hr by done. rewrite Hr, H0.
  by rewrite Permutation_app_comm, take_drop.
Qed.

Section scans.
Context {A : Type} (f : SlotId → option A).
Definition accepted (ids : list SlotId) : list SlotId := filter (fun id => is_some (f id) = true) ids.

Lemma scan_spec n c offsets :
  match scan n c f offsets with
  | Some (id, k, a) => ∃ l1 l2, offsets = l1 ++ k :: l2 ∧ id = ((c + k) mod n)%nat ∧ f id = Some a ∧
      Forall (fun o => f ((c + o) mod n)%nat = None) l1
  | None => Forall (fun o => f ((c + o) mod n)%nat = None) offsets
  end.
Proof.
  induction offsets as [|o os IH]; cbn [scan]; [done|]. destruct (f ((c + o) mod n)%nat) as [a|] eqn:Ef.
  - exists [], os. by split_and!.
  - destruct (scan n c f os) as [[[id k] a]|].
    + destruct IH as (l1 & l2 & -> & Hid & Ha & Hl). exists (o :: l1), l2. split_and!; try done. by constructor.
    + by constructor.
Qed.

Lemma accepted_none ids : Forall (fun id => f id = None) ids → accepted ids = [].
Proof.
  intros Hf. unfold accepted. induction Hf as [|id ids Hid _ IH]; [done|]. rewrite filter_cons, Hid. cbn. by rewrite decide_False.
Qed.

Lemma seq_split_at n l1 k l2 : seq 0 n = l1 ++ k :: l2 → l1 = seq 0 k ∧ l2 = seq (S k) (n - S k) ∧ (k < n)%nat.
Proof.
  intros Hs. assert (length l1 = k) as Hk.
  { assert (seq 0 n !! length l1 = Some k) as Hl by (rewrite Hs; by apply list_lookup_middle).
    by apply lookup_seq in Hl as [-> _]. }
  assert (k < n)%nat as Hlt by (pose proof (f_equal length Hs) as Hl; rewrite length_seq, length_app in Hl; simpl in Hl; lia).
  replace n with (k + S (n - S k))%nat in Hs by lia. rewrite seq_app in Hs. cbn [seq Nat.add] in Hs.
  apply app_inj_1 in Hs as [H1 H2]; [|by rewrite length_seq, Hk]. injection H2 as H2. by split_and!.
Qed.

(** A search returns the first accepted slot of the ring, and from the next
    cursor that slot is the last. *)
Lemma scan_ring n c :
  match scan n c f (seq 0 n) with
  | Some (id, k, a) =>
      f id = Some a ∧ (k < n)%nat ∧ ∃ l, accepted (ring n c) = id :: l ∧ accepted (ring n ((c + (k + 1)) mod n)) = l ++ [id]
  | None => accepted (ring n c) = []
  end.
Proof.
  pose proof (scan_spec n c (seq 0 n)) as Hs. destruct (scan n c f (seq 0 n)) as [[[id k] a]|].
  - destruct Hs as (l1 & l2 & Hseq & Hid & Ha & Hl). pose proof Hseq as Hs0.
    apply seq_split_at in Hseq as (-> & -> & Hk). split; [done|]. split; [done|].
    assert (ring n c = ((fun i => ((c + i) mod n)%nat) <$> seq 0 k) ++ id :: ((fun i => ((c + i) mod n)%nat) <$> seq (S k) (n - S k))) as Hr.
    { unfold ring. by rewrite Hs0, fmap_app, fmap_cons, Hid. }
    rewrite ring_rotate by lia. set (pre := _ <$> seq 0 k) in Hr. set (post := _ <$> seq (S k) _) in Hr.
    assert (length pre = k) as Hpl by (unfold pre; by rewrite length_fmap, length_seq).
    assert (accepted pre = []) as Hpre by (apply accepted_none, Forall_fmap, Hl).
    exists (accepted post). rewrite Hr. replace (k + 1)%nat with (length (pre ++ [id])) by (rewrite length_app; simpl; lia).
    replace (pre ++ id :: post) with ((pre ++ [id]) ++ post) by (by rewrite <- app_assoc).
    rewrite drop_app_length, take_app_length. unfold accepted in *. rewrite !filter_app, Hpre, !filter_cons, filter_nil, Ha. cbn.
    by rewrite decide_True.
  - apply accepted_none. unfold ring. by apply Forall_fmap.
Qed.
End scans.

(** ** Passes over the received datagrams *)
Section rx.
Context {RX TX RB TB T Q : Type} `{Target} `{OwnedToken T} `{EqDecision T}.
Context `{!SlotPool RX} `{!DatagramBytes RX} `{!SlotPool TX} `{!DatagramBytes TX} `{!BodyCells T RB} `{!BodyCells T TB}.
Context `{!DatagramLaws RX} `{!RingLaws RX}.
Abbreviation Eng := (Engine RX TX RB TB T Q).
Implicit Types (en : Eng) (id : SlotId).

Fixpoint rx_passes {E} (eligible : SlotId → bool) (k : nat) : st Eng E (list (option SlotId)) :=
  match k with
  | O => mret []
  | S k => r ← next_unpinned_rx eligible; rs ← rx_passes eligible k; mret (r :: rs)
  end.

(** The slots a pass may return. *)
Definition rx_ready_slots (p : RX) (eligible : SlotId → bool) : list SlotId :=
  filter (fun id => sp_is_occupied p id && negb (sp_is_pinned p id) && eligible id = true) (seq 0 (sp_slot_count p)).

Definition ready_from (p : RX) eligible (c : nat) : list SlotId :=
  accepted (rx_candidate p eligible) (ring (sp_slot_count p) c).

Lemma rx_candidate_some (p : RX) eligible id :
  is_some (rx_candidate p eligible id) = sp_is_occupied p id && negb (sp_is_pinned p id) && eligible id.
Proof. unfold rx_candidate. by destruct (_ && _). Qed.

Lemma ready_from_perm (p : RX) eligible :
  pool_inv p → (0 < sp_slot_count p)%nat → ready_from p eligible (sp_cursor p) ≡ₚ rx_ready_slots p eligible.
Proof.
  intros Hi Hn. unfold ready_from, accepted, rx_ready_slots. rewrite (ring_perm _ _ (ring_cursor p Hi Hn)).
  assert (∀ ids, filter (fun id => is_some (rx_candidate p eligible id) = true) ids =
    filter (fun id => sp_is_occupied p id && negb (sp_is_pinned p id) && eligible id = true) ids) as ->; [|done].
  intros ids. apply list_filter_iff. intros id. cbv beta. by rewrite rx_candidate_some.
Qed.

(** One pass takes the head of the ring and puts it at its end. *)
Lemma next_rx_step {E} eligible en id l :
  pool_inv (rx_of en) → ready_from (rx_of en) eligible (sp_cursor (rx_of en)) = id :: l →
  ∃ k, next_unpinned_rx (E:=E) eligible en = (with_rx en (sp_advance (rx_of en) k), Ok (Some id)) ∧
    ready_from (sp_advance (rx_of en) k) eligible (sp_cursor (sp_advance (rx_of en) k)) = l ++ [id].
Proof.
  intros Hi Hr. set (p := rx_of en) in *.
  assert (0 < sp_slot_count p)%nat as Hn by (destruct (sp_slot_count p) eqn:En; [|lia]; unfold ready_from in Hr; by rewrite En in Hr).
  assert (sp_occupied_count p ≠ 0%nat) as Hocc.
  { intros Hz. assert (id ∈ ready_from p eligible (sp_cursor p)) as Hin by (rewrite Hr; set_solver).
    apply list_elem_of_filter in Hin as [Hin _]. rewrite rx_candidate_some, (ring_count p Hi Hz) in Hin. done. }
  unfold next_unpinned_rx. unbind. fold p. rewrite !(proj2 (Nat.eqb_neq _ _)) by lia. cbv zeta.
  pose proof (scan_ring (rx_candidate p eligible) (sp_slot_count p) (sp_cursor p)) as Hs.
  destruct (scan _ _ _ _) as [[[i k] a]|]; [|unfold ready_from in Hr; congruence].
  destruct Hs as (_ & Hk & l' & Hl & Hl'). unfold ready_from in Hr. rewrite Hr in Hl. injection Hl as <- <-.
  exists (k + 1)%nat. split; [done|]. unfold ready_from. rewrite ring_advance by done.
  destruct (ring_flags p (k + 1)) as (-> & _ & Hflags). rewrite <- Hl'. apply list_filter_iff. intros j. cbv beta.
  rewrite !rx_candidate_some. destruct (Hflags j) as [-> ->]. done.
Qed.

Lemma rx_passes_from {E} eligible ids : ∀ en l,
  pool_inv (rx_of en) → ready_from (rx_of en) eligible (sp_cursor (rx_of en)) = ids ++ l →
  ∃ en', rx_passes (E:=E) eligible (length ids) en = (en', Ok (Some <$> ids)) ∧ pool_inv (rx_of en') ∧
    ready_from (rx_of en') eligible (sp_cursor (rx_of en')) = l ++ ids.
Proof.
  induction ids as [|id ids IH]; intros en l Hi Hr.
  { exists en. by rewrite app_nil_r. }
  cbn [length rx_passes fmap list_fmap]. destruct (next_rx_step (E:=E) eligible en id (ids ++ l) Hi Hr) as (k & Hstep & Hnext).
  set (en1 := with_rx en (sp_advance (rx_of en) k)) in *. change (sp_advance (rx_of en) k) with (rx_of en1) in Hnext.
  destruct (law_advance (rx_of en) k Hi) as (Hi1 & _). rewrite <- app_assoc in Hnext.
  destruct (IH en1 (l ++ [id]) Hi1 Hnext) as (en' & Hrun & Hi' & Hr').
  exists en'. unbind. rewrite Hstep. cbn beta iota. rewrite Hrun. split_and!; [done..|]. by rewrite Hr', <- app_assoc.
Qed.

(** Fairness of receiving.  While the pool's contents stay the same, as many
    passes as there are ready slots (occupied, not pinned, eligible) return
    each of them exactly once, and after them the scan is where it started: no
    queued datagram waits behind another for more than one round. *)
Theorem rx_round_robin eligible en :
  pool_inv (rx_of en) →
  ∃ en' ids, rx_passes (E:=SlotError) eligible (length (rx_ready_slots (rx_of en) eligible)) en = (en', Ok (Some <$> ids)) ∧
    ids ≡ₚ rx_ready_slots (rx_of en) eligible ∧
    ready_from (rx_of en') eligible (sp_cursor (rx_of en')) = ready_from (rx_of en) eligible (sp_cursor (rx_of en)).
Proof.
  intros Hi. destruct (decide (sp_slot_count (rx_of en) = 0%nat)) as [Hz|Hn].
  - exists en, []. unfold rx_ready_slots. rewrite Hz. by split_and!.
  - pose proof (ready_from_perm (rx_of en) eligible Hi ltac:(lia)) as Hp.
    destruct (rx_passes_from (E:=SlotError) eligible (ready_from (rx_of en) eligible (sp_cursor (rx_of en))) en [] Hi
      (eq_sym (app_nil_r _))) as (en' & Hrun & _ & Hr).
    exists en', (ready_from (rx_of en) eligible (sp_cursor (rx_of en))). rewrite <- Hp at 1. by split_and!.
Qed.
End rx.

Lemma rx_round_robin_witness :
  ∃ en', rx_passes (E:=SlotError) (fun _ => true) 1 ex_engine = (en', Ok [Some 0%nat]).
Proof.
  destruct (rx_round_robin (H:=target64) (fun _ => true) ex_engine (proj1 (ex_slot_pool_ok _ _))) as (en' & ids & Hr & Hp & _).
  assert (rx_ready_slots (rx_of ex_engine) (fun _ => true) = [0%nat]) as Hl by (vm_compute; reflexivity).
  rewrite Hl in Hp, Hr. symmetry in Hp. apply Permutation_singleton_l in Hp. subst ids. exists en'. exact Hr.
Defined.
