(* ===== verification/ObserveNstart.v ===== *)
(** * Congestion control of notifications

    RFC 7641 section 4.5.1: a server has at most NSTART outstanding
    notifications to a client.  The rows of the Observe table carry the hold;
    the invariant is proved for the operations of [EngineObserve] and the
    notification passes of [Progress], with the admission test as a condition
    on those that let a row hold without making it. *)
From S2P Require Import Prelude Errors MsgTypes Options Encode Decode OptionValues MessageOptions Occupancy Pending.
From S2P Require Import DatagramPool PendingCons SlotTable Dedup Observe Block BodyPool Exchange Engine.
From S2P Require Import EngineExchange EngineObserve Progress.

(** ** Writing a row *)
Lemma tb_set_entry_ok {R K} `{Keyed R K} (t : SlotTable R) id (row row' : R) :
  tb_inv t → tb_entry t id = Some row → row_key row' = row_key row →
  ∃ t', tb_set_entry t id row' = Ok t' ∧ tb_inv t' ∧ tb_occ t' = tb_occ t ∧ length (tb_entries t') = length (tb_entries t) ∧
    ∀ j, tb_entry t' j = if decide (j = id) then Some row' else tb_entry t j.
Proof.
  intros Hi He Hk. pose proof (tb_entry_occupied _ _ _ He) as Ho. pose proof (tb_entry_lt _ _ _ He) as Hlt.
  pose proof Hi as (Hoi & Hp & Hl & Hu). unfold tb_set_entry. rewrite Ho. cbn [negb]. unfold tb_put, set_idx.
  rewrite (proj2 (Nat.ltb_lt _ _)) by done. unbind. eexists. split; [done|].
  set (t' := mkTable (<[id := Some row']> (tb_entries t)) (tb_occ t)).
  assert (∀ j, tb_entry t' j = if decide (j = id) then Some row' else tb_entry t j) as Hj.
  { intros j. apply (tb_entry_update t t' id true (Some row')); [|done..]. change (tb_occ t') with (tb_occ t).
    unfold Occupancy_is_occupied in Ho. destruct (oc_occupied (tb_occ t) !! id) as [[]|] eqn:Eo; try done.
    by rewrite list_insert_id. }
  split_and!; try done; [|by simpl; rewrite length_insert].
  unfold tb_inv. split_and!; [done|done|simpl; by rewrite length_insert|].
  eapply unique_update; [done..|]. intros r [= <-] j rj Hne Hrj Hkk. apply Hne. eapply Hu; [done..|]. congruence.
Qed.

Section nstart.
Context {RX TX RB TB T Q : Type} `{Target} `{OwnedToken T} `{EqDecision T}.
Context `{!SlotPool RX} `{!DatagramBytes RX} `{!SlotPool TX} `{!DatagramBytes TX} `{!BodyCells T RB} `{!BodyCells T TB}.
Abbreviation Eng := (Engine RX TX RB TB T Q).
Abbreviation Row := (ObserveInterest T Q).
Implicit Types (en : Eng) (t : ObserveTable T Q) (id : SlotId) (key : ObserveKey T) (row : Row).

(** No row starts to hold: each row of [t'] is a row of [t] that held whenever
    it holds, or does not hold. *)
Definition quiet (now : Z) t t' : Prop :=
  tb_inv t' ∧ length (tb_entries t') = length (tb_entries t) ∧
  ∀ id row', tb_entry t' id = Some row' →
    is_notify_held row' now = true → ∃ row, tb_entry t id = Some row ∧ oi_key row = oi_key row' ∧ is_notify_held row now = true.

Lemma quiet_refl now t : tb_inv t → quiet now t t.
Proof. intros Hi. split_and!; [done..|]. intros id row Hr Hh. by exists row. Qed.
Lemma quiet_trans now t1 t2 t3 : quiet now t1 t2 → quiet now t2 t3 → quiet now t1 t3.
Proof.
  intros (_ & Hl & H1) (Hi & Hl' & H2). split_and!; [done|congruence|]. intros id row Hr Hh.
  destruct (H2 id row Hr Hh) as (r2 & Hr2 & Hk2 & Hh2). destruct (H1 id r2 Hr2 Hh2) as (r1 & Hr1 & Hk1 & Hh1).
  exists r1. split_and!; congruence.
Qed.

Lemma quiet_row now t t' id row row' :
  tb_inv t' → length (tb_entries t') = length (tb_entries t) → tb_entry t id = Some row → oi_key row' = oi_key row →
  (is_notify_held row' now = true → is_notify_held row now = true) →
  (∀ j, tb_entry t' j = if decide (j = id) then Some row' else tb_entry t j) → quiet now t t'.
Proof.
  intros Hi Hl He Hk Hh Hj. split_and!; [done..|]. intros j r Hr Hheld. rewrite Hj in Hr.
  destruct (decide (j = id)) as [->|]; [|by exists r]. injection Hr as <-. exists row. split_and!; [done..|by apply Hh].
Qed.

(** A table whose rows all come from another one. *)
Lemma quiet_subset now t t' :
  tb_inv t' → length (tb_entries t') = length (tb_entries t) →
  (∀ id row, tb_entry t' id = Some row → tb_entry t id = Some row) → quiet now t t'.
Proof. intros Hi Hl Hs. split_and!; [done..|]. intros id row Hr Hh. exists row. by split_and!; [apply Hs|..]. Qed.

(** ** The operations *)
Definition quiet_op {E A} (now : Z) (m : st Eng E A) : Prop :=
  ∀ en, tb_inv (observe_of en) →
    match m en with
    | (en', Ok _) => quiet now (observe_of en) (observe_of en')
    | (_, Err _) => True
    | (en', _) => True
    end.

Lemma quiet_ret {E A} now (a : A) : quiet_op (E:=E) now (mret a).
Proof. intros en Hi. by apply quiet_refl. Qed.

Lemma quiet_bind {E A B} now (m : st Eng E A) (f : A → st Eng E B) :
  quiet_op now m → (∀ a, quiet_op now (f a)) → quiet_op now (m ≫= f).
Proof.
  intros Hm Hf en Hi. specialize (Hm en Hi). unfold mbind, st_mbind, st_bind.
  destruct (m en) as [en1 [a| | |]]; try done. pose proof (Hf a en1) as Hfa.
  specialize (Hfa (proj1 Hm)). destruct (f a en1) as [en2 [b| | |]]; try done.
  by eapply quiet_trans.
Qed.

Lemma quiet_inc {E} now c : quiet_op (E:=E) now (inc c).
Proof. intros en Hi. by apply quiet_refl. Qed.
Lemma quiet_inc_if {E} now b c : quiet_op (E:=E) now (inc_if b c).
Proof. destruct b; [apply quiet_inc|apply quiet_ret]. Qed.
Lemma quiet_lift {E A} now (r : res E A) : quiet_op now (st_lift r).
Proof. intros en Hi. unfold st_lift. destruct r; [by apply quiet_refl|done..]. Qed.
Lemma quiet_get {E A} now (f : Eng → st Eng E A) :
  (∀ en, tb_inv (observe_of en) → match f en en with (en', Ok _) => quiet now (observe_of en) (observe_of en') | _ => True end) →
  quiet_op now (en ← st_get; f en).
Proof. intros Hf en Hi. unfold mbind, st_mbind, st_bind, st_get. pose proof (Hf en Hi). by destruct (f en en) as [? [| | |]]. Qed.

(** Writing a row that exists. *)
Lemma store_row_ok {E A} en id row row' (a : A) :
  tb_inv (observe_of en) → observe_interest en id = Some row → oi_key row' = oi_key row →
  ∃ t', store_row (E:=E) id row' a en = (with_observe en t', Ok (Some a)) ∧ tb_inv t' ∧
    length (tb_entries t') = length (tb_entries (observe_of en)) ∧
    ∀ j, tb_entry t' j = if decide (j = id) then Some row' else tb_entry (observe_of en) j.
Proof.
  intros Hi He Hk. destruct (tb_set_entry_ok (observe_of en) id row row' Hi He Hk) as (t' & Hs & Hi' & _ & Hl & Hj).
  exists t'. split_and!; try done. unfold store_row, set_observe_interest, on_observe, zoom, st_ok, st_upd, ObserveTable_set_entry.
  unbind. rewrite Hs. done.
Qed.

Lemma quiet_store {E A} now en id row row' (a : A) :
  tb_inv (observe_of en) → observe_interest en id = Some row → oi_key row' = oi_key row →
  (is_notify_held row' now = true → is_notify_held row now = true) →
  match store_row (E:=E) id row' a en with (en', Ok _) => quiet now (observe_of en) (observe_of en') | _ => True end.
Proof.
  intros Hi He Hk Hh. destruct (store_row_ok (E:=E) en id row row' a Hi He Hk) as (t' & -> & Hi' & Hl & Hj).
  by eapply quiet_row.
Qed.

(** A row found by any search and rewritten by [g]. *)
Lemma quiet_with_row {E A} now find (g : Row → Row) (a : SlotId → A) :
  (∀ en id row, find en = Some id → observe_interest en id = Some row →
     oi_key (g row) = oi_key row ∧ (is_notify_held (g row) now = true → is_notify_held row now = true)) →
  quiet_op (E:=E) now (with_row find (fun id row => store_row id (g row) (a id))).
Proof.
  intros Hg. unfold with_row. apply quiet_get. intros en Hi.
  destruct (find en) as [id|] eqn:Ef; [|by apply quiet_refl].
  destruct (observe_interest en id) as [row|] eqn:Er; [|by apply quiet_refl].
  destruct (Hg en id row Ef Er). by eapply quiet_store.
Qed.

Lemma take_due_held row now : is_notify_held (take_due row).1 now = is_notify_held row now ∧ oi_key (take_due row).1 = oi_key row.
Proof. unfold take_due. by destruct (oi_pending row). Qed.
Lemma mark_due_held row now : is_notify_held (mark_due row) now = is_notify_held row now ∧ oi_key (mark_due row) = oi_key row.
Proof. unfold mark_due. by destruct (ok_client (oi_key row)). Qed.
Lemma mark_deleted_held row now : is_notify_held (mark_deleted row) now = is_notify_held row now ∧ oi_key (mark_deleted row) = oi_key row.
Proof. unfold mark_deleted. by destruct (ok_client (oi_key row)). Qed.
Lemma restore_due_held row s now : is_notify_held (restore_due row s) now = is_notify_held row now ∧ oi_key (restore_due row s) = oi_key row.
Proof. unfold restore_due. by destruct (_ || _). Qed.

Lemma take_expired_held row now :
  oi_key (take_expired row now).1 = oi_key row ∧ (is_notify_held (take_expired row now).1 now = true → is_notify_held row now = true).
Proof.
  unfold take_expired, is_notify_held. destruct (oi_lifetime row) as [[due|due mid]|] eqn:El;
    [destruct (ObserveLifetime_is_due _ _)..|]; cbn [negb fst]; (split; [done|]); cbn; rewrite ?El; done.
Qed.

Lemma quiet_insert {E} now (row : Row) :
  is_notify_held row now = false → quiet_op (E:=E) now (insert_observe row).
Proof.
  intros Hn. unfold insert_observe. apply quiet_bind.
  - intros en Hi. unfold on_observe, zoom, st_run, ObserveTable_insert.
    destruct (tb_insert_ok (E:=E) (observe_of en) row Hi) as (t' & r & Hins & Hi' & Hl & Hr). rewrite Hins.
    change (observe_of (with_observe en t')) with t'. change (row_key row) with (oi_key row) in Hr.
    destruct (tb_lookup (observe_of en) (oi_key row)); [destruct Hr as [-> _]; by apply quiet_refl|].
    destruct r as [id|]; [|destruct Hr as [-> _]; by apply quiet_refl]. destruct Hr as (_ & _ & Hj). split_and!; [done..|].
    intros j r Hr Hh. rewrite Hj in Hr. destruct (decide (j = id)); [congruence|]. by exists r.
  - intros [id|]; (apply quiet_bind; [apply quiet_inc|intros _; apply quiet_ret]).
Qed.

Lemma quiet_take {E} now key : quiet_op (E:=E) now (take_observe key).
Proof.
  unfold take_observe. apply quiet_bind; [|intros r; apply quiet_bind; [apply quiet_inc_if|intros _; apply quiet_ret]].
  intros en Hi. unfold on_observe, zoom, st_run, ObserveTable_take, tb_take.
  destruct (tb_lookup (observe_of en) key) as [id|] eqn:El; [|by apply quiet_refl].
  destruct (tb_entry (observe_of en) id) as [row|] eqn:Er; [|by apply quiet_refl].
  destruct (tb_release_spec (observe_of en) id Hi (tb_entry_occupied _ _ _ Er)) as (t' & Hr & Hi' & Hl & _ & Hj).
  unfold tb_release_ok. rewrite Hr. unbind. apply quiet_subset; [done..|]. intros j r. rewrite Hj. by destruct (decide _).
Qed.

Lemma quiet_remove {E} now key : quiet_op (E:=E) now (remove_observe key).
Proof.
  unfold remove_observe. apply quiet_bind; [|intros r; apply quiet_bind; [apply quiet_inc_if|intros _; apply quiet_ret]].
  intros en Hi. unfold on_observe, zoom, st_run, ObserveTable_remove.
  destruct (tb_remove_ok (E:=E) (observe_of en) key Hi) as (t' & b & -> & Hi' & Hl & Hr).
  change (observe_of (with_observe en t')) with t'.
  destruct (tb_lookup (observe_of en) key); [|destruct Hr as [_ ->]; by apply quiet_refl].
  destruct Hr as (_ & _ & Hj). apply quiet_subset; [done..|]. intros j r. rewrite Hj. by destruct (decide _).
Qed.

Lemma quiet_mark {E} now (f : Row → Row) resource :
  (∀ row, is_notify_held (f row) now = is_notify_held row now ∧ oi_key (f row) = oi_key row) →
  quiet_op (E:=E) now (mark_resource f resource).
Proof.
  intros Hf. unfold mark_resource. destruct (resource =? RESOURCE_NONE); [apply quiet_ret|].
  apply quiet_get. intros en0 Hi0. revert en0 Hi0. cut (∀ ids n, quiet_op (E:=E) now (mark_loop f resource ids n)).
  { intros Hc en Hi. specialize (Hc (seq 0 (observe_entries en)) 0%nat en Hi). by destruct (mark_loop _ _ _ _ en) as [? [| | |]]. }
  induction ids as [|id ids IH]; intros n; cbn [mark_loop]; [apply quiet_ret|]. apply quiet_get. intros en Hi.
  assert (∀ n en', quiet now (observe_of en) (observe_of en') →
    match mark_loop (E:=E) f resource ids n en' with (en'', Ok _) => quiet now (observe_of en) (observe_of en'') | _ => True end) as Hnext.
  { intros k en' Hq. pose proof (IH k en' (proj1 Hq)) as Hk. destruct (mark_loop f resource ids k en') as [en'' [| | |]]; try done.
    by eapply quiet_trans. }
  destruct (observe_interest en id) as [row|] eqn:Er; [|by apply Hnext, quiet_refl].
  destruct (_ || _); [by apply Hnext, quiet_refl|]. destruct (Hf row) as [Hh Hk].
  destruct (tb_set_entry_ok (observe_of en) id row (f row) Hi Er Hk) as (t' & Hs & Hi' & _ & Hl & Hj).
  unfold set_observe_interest, on_observe, zoom, st_ok, st_upd, ObserveTable_set_entry.
  unfold mbind, st_mbind, st_bind. rewrite Hs. cbn [ok_of]. apply Hnext. eapply quiet_row; [done..| |done]. by rewrite Hh.
Qed.

Lemma quiet_take_resource {E} now resource : quiet_op (E:=E) now (take_observe_resource resource).
Proof.
  unfold take_observe_resource. destruct (resource =? RESOURCE_NONE); [apply quiet_ret|]. apply quiet_get. intros en0 Hi0.
  cut (∀ ids n, quiet_op (E:=E) now (take_loop resource ids n)).
  { intros Hc. specialize (Hc (seq 0 (observe_entries en0)) 0%nat en0 Hi0). by destruct (take_loop _ _ _ en0) as [? [| | |]]. }
  induction ids as [|id ids IH]; intros n; cbn [take_loop]; [apply quiet_ret|]. apply quiet_get. intros en Hi.
  pose proof (IH n en Hi) as Hskip.
  destruct (observe_interest en id) as [row|] eqn:Er; [|by destruct (take_loop resource ids n en) as [? [| | |]]].
  destruct (_ || _); [by destruct (take_loop resource ids n en) as [? [| | |]]|].
  pose proof (quiet_bind now (take_observe (E:=E) (oi_key row))
    (fun r => take_loop resource ids (if is_some r then S n else n)) (quiet_take now _) (fun r => IH _) en Hi) as Hb.
  unfold mbind, st_mbind, st_bind in *. destruct (take_observe (oi_key row) en) as [en1 [r| | |]]; done.
Qed.

Lemma quiet_signal {E} now key : quiet_op (E:=E) now (signal_observe key).
Proof.
  unfold signal_observe. destruct (ok_client key); [apply quiet_ret|]. apply quiet_with_row. intros en id row _ _.
  destruct (mark_due_held row now) as [-> ->]. done.
Qed.

Lemma quiet_ack {E} now mid e : quiet_op (E:=E) now (ack_observe_con mid e).
Proof. unfold ack_observe_con. apply quiet_with_row. intros en id row _ _. split; done. Qed.

Lemma quiet_refresh {E} now key secs : quiet_op (E:=E) now (refresh_observe_max_age key now secs None).
Proof.
  unfold refresh_observe_max_age. apply quiet_with_row. intros en id row _ _. split; [done|].
  unfold is_notify_held. cbn. by destruct (oi_lifetime row) as [[]|].
Qed.

Lemma quiet_restore {E} now id seq : quiet_op (E:=E) now (restore_observe_due id seq).
Proof.
  unfold restore_observe_due. apply quiet_bind; [|intros r; apply quiet_ret]. apply quiet_with_row. intros en i row _ _.
  destruct (restore_due_held row seq now) as [-> ->]. done.
Qed.

Lemma quiet_next_seq {E} now id confirmable : quiet_op (E:=E) now (next_observe_seq_with_confirmation id confirmable).
Proof.
  unfold next_observe_seq_with_confirmation, with_row. apply quiet_get. intros en Hi.
  destruct (observe_interest en id) as [row|] eqn:Er; [|by apply quiet_refl].
  set (row1 := if _ && _ then _ else _).
  assert (is_notify_held row1 now = is_notify_held row now ∧ oi_key row1 = oi_key row) as [Hh1 Hk1] by (subst row1; by destruct (_ && _)).
  destruct (mark_due_held row1 now) as [Hh2 Hk2]. destruct (take_due_held (mark_due row1) now) as [Hh3 Hk3].
  destruct (take_due (mark_due row1)) as [row2 [seq|]]; [|by apply quiet_refl]. cbn [fst] in *.
  eapply quiet_store; [done|done|congruence|]. rewrite Hh3, Hh2, Hh1. done.
Qed.

Lemma quiet_advance {E} now n : quiet_op (E:=E) now (advance_observe n).
Proof.
  intros en (Ho & Hp & Hl & Hu). unfold advance_observe, on_observe, zoom, st_upd.
  change (observe_of (with_observe en ?t)) with t. destruct (advance_flags (tb_occ (observe_of en)) n Ho) as (Ho' & Hocc & Hpin).
  assert (∀ j, tb_entry (tb_advance (observe_of en) n) j = tb_entry (observe_of en) j) as Hj.
  { intros j. unfold tb_entry, tb_advance, tb_with_occ, Occupancy_is_occupied. cbn [tb_occ tb_entries]. by rewrite Hocc. }
  apply quiet_subset; [|done|]; [|intros j r; by rewrite Hj]. unfold tb_inv. cbn [tb_occ tb_entries tb_advance tb_with_occ].
  rewrite Hocc, Hpin. split_and!; [done..|]. intros i j ri rj. rewrite !Hj. apply Hu.
Qed.

Lemma expired_loop_row en now start n offsets id offset row' life :
  expired_loop en now start n offsets = Some (id, offset, row', life) →
  ∃ row, observe_interest en id = Some row ∧ take_expired row now = (row', Some life).
Proof.
  induction offsets as [|o os IH]; [done|]. cbn [expired_loop].
  destruct (observe_interest en ((start + o) mod n)%nat) as [row|] eqn:Er; [|by apply IH].
  destruct (take_expired row now) as [r [l|]] eqn:Et; [|by apply IH]. intros [= <- <- <- <-]. by exists row.
Qed.

Lemma quiet_poll_lifetime {E} now : quiet_op (E:=E) now (poll_observe_lifetime now).
Proof.
  unfold poll_observe_lifetime. apply quiet_get. intros en Hi. cbv zeta.
  destruct (_ =? 0)%nat; [by apply quiet_refl|]. destruct (_ =? 0)%nat; [by apply quiet_refl|].
  destruct (expired_loop _ _ _ _ _) as [[[[id offset] row'] life]|] eqn:Ex; [|by apply quiet_refl].
  apply expired_loop_row in Ex as (row & Hr & Ht). destruct (take_expired_held row now) as [Hk Hh]. rewrite Ht in Hk, Hh.
  cbn [fst] in *. destruct (store_row_ok (E:=E) en id row row' id Hi Hr Hk) as (t' & Hs & Hi' & Hl & Hj).
  unfold mbind, st_mbind, st_bind at 1. rewrite Hs. cbn beta iota.
  assert (quiet now (observe_of en) (observe_of (with_observe en t'))) as Hq by (by eapply quiet_row).
  pose proof (quiet_advance (E:=E) now (offset + 1) (with_observe en t') Hi') as Ha. unfold st_bind.
  destruct (advance_observe (offset + 1) (with_observe en t')) as [en2 [[]| | |]]; try done. cbn. by eapply quiet_trans.
Qed.

Lemma quiet_reject {E} now mid e : quiet_op (E:=E) now (reject_observe_notify mid e).
Proof.
  unfold reject_observe_notify. apply quiet_get. intros en Hi.
  match goal with |- match (?m ≫= ?f) en with _ => _ end => pose proof (quiet_bind now m f) as Hb end.
  refine (_ (Hb _ _ en Hi)).
  - intros Hx. by destruct ((_ : st Eng E _) en) as [? [| | |]].
  - destruct (lookup_observe_unacked mid e en); [apply quiet_ret|]. apply quiet_bind; [|intros r; apply quiet_ret].
    unfold superseded_observe_notify. apply quiet_get. intros en1 Hi1. pose proof (quiet_lift now
      (superseded_loop (E:=E) en1 mid e (seq 0 (observe_entries en1))) en1 Hi1) as Hl. unfold st_lift in *. by destruct (superseded_loop _ _ _ _).
  - intros [id|]; [|apply quiet_ret]. destruct (observe_interest en id); [apply quiet_take|apply quiet_ret].
Qed.

Lemma quiet_register {E} now m e : quiet_op (E:=E) now (register_observe m e).
Proof.
  unfold register_observe. apply quiet_bind; [apply quiet_lift|]. intros b. destruct b; cbn [negb]; [|apply quiet_ret].
  apply quiet_bind; [apply quiet_lift|]. intros resource. by apply quiet_insert.
Qed.

Lemma quiet_deregister {E} now m e : quiet_op (E:=E) now (deregister_observe m e).
Proof.
  unfold deregister_observe. apply quiet_bind; [apply quiet_lift|]. intros b. destruct b; cbn [negb]; [|apply quiet_ret].
  apply quiet_take.
Qed.

(** ** At most one row per address holds *)
Definition one_held (now : Z) t : Prop :=
  ∀ i j ri rj, tb_entry t i = Some ri → tb_entry t j = Some rj →
    ok_client (oi_key ri) = false → ok_client (oi_key rj) = false →
    Endpoint_physical (ok_endpoint (oi_key ri)) = Endpoint_physical (ok_endpoint (oi_key rj)) →
    is_notify_held ri now = true → is_notify_held rj now = true → i = j.

Lemma one_held_quiet now t t' : one_held now t → quiet now t t' → one_held now t'.
Proof.
  intros Ho (_ & _ & Hq) i j ri rj Hi Hj Hci Hcj He Hhi Hhj.
  destruct (Hq i ri Hi Hhi) as (si & Hsi & Hki & Hhi'). destruct (Hq j rj Hj Hhj) as (sj & Hsj & Hkj & Hhj').
  apply (Ho i j si sj); rewrite ?Hki, ?Hkj; done.
Qed.

Lemma held_earlier row now now' : now ≤ now' → is_notify_held row now' = true → is_notify_held row now = true.
Proof.
  intros Hle. unfold is_notify_held, hold_is_held. destruct (oi_lifetime row) as [[|]|]; [|done|];
    (destruct (oi_notify_hold row) as [[|]|]; [|done..]); intros Hh; bools; apply Z.ltb_lt; lia.
Qed.

Lemma one_held_later now now' t : now ≤ now' → one_held now t → one_held now' t.
Proof. intros Hle Ho i j ri rj Hi Hj Hci Hcj He Hhi Hhj. apply (Ho i j ri rj); eauto using held_earlier. Qed.

Lemma length_filter_unique {A} (P : A → Prop) `{∀ x, Decision (P x)} (l : list A) :
  NoDup l → (∀ x y, x ∈ l → y ∈ l → P x → P y → x = y) → (length (filter P l) ≤ 1)%nat.
Proof.
  intros Hn Hu. destruct (filter P l) as [|x [|y r]] eqn:Ef; simpl; [lia..|]. exfalso.
  assert (NoDup (filter P l)) as Hnf by (by apply NoDup_filter). rewrite Ef in Hnf.
  assert (x ∈ filter P l ∧ y ∈ filter P l) as [Hx Hy] by (rewrite Ef; set_solver).
  apply list_elem_of_filter in Hx as [Px Hx]. apply list_elem_of_filter in Hy as [Py Hy].
  rewrite (Hu x y Hx Hy Px Py) in Hnf. apply NoDup_cons in Hnf as [Hnf _]. set_solver.
Qed.

Lemma holds_at_Some en e now id :
  holds_at en e now id = true ↔ ∃ row, tb_entry (observe_of en) id = Some row ∧ ok_client (oi_key row) = false ∧
    Endpoint_physical (ok_endpoint (oi_key row)) = Endpoint_physical e ∧ is_notify_held row now = true.
Proof.
  unfold holds_at, observe_interest, ObserveTable_entry. destruct (tb_entry (observe_of en) id) as [row|];
    [|split; [done|by intros (? & ? & _)]]. split.
  - intros Hh. bools. exists row. by split_and!.
  - intros (r & [= <-] & -> & He & ->). unfold eqb. by rewrite bool_decide_eq_true_2.
Qed.

Lemma one_held_count now en e : one_held now (observe_of en) → (endpoint_notify_held en e now ≤ 1)%nat.
Proof.
  intros Ho. apply length_filter_unique; [apply NoDup_seq|]. intros i j _ _ Hi Hj.
  apply holds_at_Some in Hi as (ri & Hri & Hci & Hei & Hhi). apply holds_at_Some in Hj as (rj & Hrj & Hcj & Hej & Hhj).
  eapply Ho; [exact Hri|exact Hrj|done..|congruence|done|done].
Qed.

Lemma none_held en e now id :
  endpoint_notify_held en e now = 0%nat → holds_at en e now id = false.
Proof.
  unfold endpoint_notify_held. intros Hz. apply nil_length_inv in Hz. apply not_true_is_false. intros Hh.
  assert (id ∈ filter (fun id => holds_at en e now id = true) (seq 0 (observe_entries en))) as Hin.
  { apply list_elem_of_filter. split; [done|]. apply elem_of_seq. apply holds_at_Some in Hh as (row & Hr & _).
    apply tb_entry_lt in Hr. unfold observe_entries. lia. }
  rewrite Hz in Hin. by apply elem_of_nil in Hin.
Qed.

(** The row holds already, or no row of its address does. *)
Definition may_hold (now : Z) en row : Prop :=
  is_notify_held row now = true ∨ endpoint_notify_held en (ok_endpoint (oi_key row)) now = 0%nat.

(** Writing one row, new or not, that may hold. *)
Lemma one_held_row now en t' id (row' : Row) :
  one_held now (observe_of en) → tb_inv t' →
  (∀ j, tb_entry t' j = if decide (j = id) then Some row' else tb_entry (observe_of en) j) →
  (is_notify_held row' now = true →
     (∃ row, tb_entry (observe_of en) id = Some row ∧ oi_key row = oi_key row' ∧ is_notify_held row now = true) ∨
     endpoint_notify_held en (ok_endpoint (oi_key row')) now = 0%nat) →
  one_held now t'.
Proof.
  intros Ho Hi' Hj Hnew.
  assert (tb_entry t' id = Some row') as Hid by (by rewrite Hj, decide_True).
  assert (∀ j rj, j ≠ id → tb_entry t' j = Some rj → ok_client (oi_key rj) = false → ok_client (oi_key row') = false →
    Endpoint_physical (ok_endpoint (oi_key rj)) = Endpoint_physical (ok_endpoint (oi_key row')) → is_notify_held rj now = true →
    is_notify_held row' now = true → False) as Hother.
  { intros j rj Hne Hrj Hcj Hc Hej Hhj Hh. rewrite Hj, decide_False in Hrj by done. destruct (Hnew Hh) as [(row & Hrow & Hk & Hr)|Hz].
    - apply Hne. apply (Ho j id rj row Hrj Hrow); rewrite ?Hk; done.
    - pose proof (none_held en (ok_endpoint (oi_key row')) now j Hz) as Hno.
      assert (holds_at en (ok_endpoint (oi_key row')) now j = true) as Hyes by (apply holds_at_Some; by exists rj). congruence. }
  intros i j ri rj Hri Hrj Hci Hcj Hee Hhi Hhj. destruct (decide (i = id)) as [->|Hni], (decide (j = id)) as [->|Hnj]; [done|..].
  - rewrite Hid in Hri. injection Hri as <-. exfalso. by eapply (Hother j rj).
  - rewrite Hid in Hrj. injection Hrj as <-. exfalso. by eapply (Hother i ri).
  - rewrite Hj, decide_False in Hri by done. rewrite Hj, decide_False in Hrj by done. eapply Ho; [exact Hri|exact Hrj|done..].
Qed.

(** An operation that keeps both. *)
Definition keeps_nstart {E A} (now : Z) (m : st Eng E A) en : Prop :=
  tb_inv (observe_of en) → one_held now (observe_of en) →
  match m en with
  | (en', Ok _) => tb_inv (observe_of en') ∧ one_held now (observe_of en')
  | _ => True
  end.

Lemma store_keeps {E A} now en id row row' (a : A) :
  observe_interest en id = Some row → oi_key row' = oi_key row →
  (is_notify_held row' now = true → may_hold now en row) →
  keeps_nstart (E:=E) now (store_row id row' a) en.
Proof.
  intros Hr Hk Hm Hi Ho. destruct (store_row_ok (E:=E) en id row row' a Hi Hr Hk) as (t' & -> & Hi' & _ & Hj).
  split; [done|]. eapply (one_held_row now en t' id row'); [done..|]. intros Hh. destruct (Hm Hh) as [Hh'|Hz].
  - left. by exists row.
  - right. by rewrite Hk.
Qed.

(** A row found by its key, and rewritten where it may hold. *)
Lemma with_row_keeps {E} now en find (g : Row → Row) :
  (∀ row, oi_key (g row) = oi_key row) →
  (∀ id row, find en = Some id → observe_interest en id = Some row → may_hold now en row) →
  keeps_nstart (E:=E) now (with_row find (fun id row => store_row id (g row) id)) en.
Proof.
  intros Hk Hg Hi Ho. unfold with_row. unfold mbind, st_mbind, st_bind, st_get.
  destruct (find en) as [id|] eqn:Ef; [|done]. destruct (observe_interest en id) as [row|] eqn:Er; [|done].
  apply (store_keeps now en id row (g row) id); try done. intros _. by eapply Hg.
Qed.

Lemma insert_keeps {E} now (row : Row) en :
  (is_notify_held row now = true → endpoint_notify_held en (ok_endpoint (oi_key row)) now = 0%nat) →
  keeps_nstart (E:=E) now (insert_observe row) en.
Proof.
  intros Hm Hi Ho. unfold insert_observe, on_observe, zoom, st_run, ObserveTable_insert. unfold mbind, st_mbind, st_bind.
  destruct (tb_insert_ok (E:=E) (observe_of en) row Hi) as (t' & r & Hins & Hi' & Hl & Hr). rewrite Hins.
  change (row_key row) with (oi_key row) in Hr.
  assert (tb_inv t' ∧ one_held now t') as Hk; [|destruct r; exact Hk]. split; [done|].
  destruct (tb_lookup (observe_of en) (oi_key row)); [by destruct Hr as [-> _]|].
  destruct r as [id|]; [|by destruct Hr as [-> _]]. destruct Hr as (_ & _ & Hj).
  eapply (one_held_row now en t' id row); [done..|]. intros Hh. right. by apply Hm.
Qed.

Lemma record_keeps_nstart {E} now key mid confirmable en :
  keeps_nstart (E:=E) now (record_observe_notify key now mid confirmable) en.
Proof.
  intros Hi Ho. unfold record_observe_notify, with_row. unfold mbind, st_mbind, st_bind, st_get.
  destruct (lookup_observe key en) as [id|] eqn:El; [|done].
  destruct (observe_interest en id) as [row|] eqn:Er; [|done].
  assert (oi_key row = key) as Hkey.
  { unfold lookup_observe, ObserveTable_lookup in El. apply tb_lookup_Some in El as (r & Hr & Hk); [|done].
    unfold observe_interest, ObserveTable_entry in Er. rewrite Hr in Er. by injection Er as <-. }
  destruct (ok_client (oi_key row)) eqn:Ec; [done|].
  destruct (match oi_notify_hold row with Some h => _ | None => false end); [by destruct (_ && _)|].
  destruct (_ && negb _) eqn:Eadm; [done|].
  set (row' := record_notify row now mid confirmable).
  assert (oi_key row' = oi_key row) as Hk' by (unfold row', record_notify; rewrite Ec; by destruct confirmable).
  pose proof (store_keeps (E:=E) now en id row row' id Er Hk') as Hs. unfold keeps_nstart in Hs.
  assert (may_hold now en row) as Hm.
  { unfold may_hold. destruct (is_notify_held row now) eqn:Eh; [by left|right]. rewrite andb_true_r in Eadm.
    apply Z.leb_gt in Eadm. unfold NSTART in Eadm. rewrite Hkey. lia. }
  specialize (Hs (fun _ => Hm) Hi Ho). destruct (store_row id row' id en) as [en' [[i|]| | |]]; done.
Qed.

(** Superseding: the row replaced is the current one and waits for its ACK. *)
Lemma supersede_keeps `{EqDecision Q} now pending original replacement bytes en :
  keeps_nstart now (supersede_observe_con pending original replacement bytes) en.
Proof.
  intros Hi Ho. unfold supersede_observe_con, replace_observe_con, validate_observe_replacement.
  unfold mbind, st_mbind, st_bind, st_get, st_lift.
  destruct (lookup_observe (oi_key original) en) as [id|]; [|done]. cbn [ok_or]. unbind.
  destruct (negb _ || _ || _ || _) eqn:E1; [done|]. bools.
  destruct (decode_with_token bytes) as [parsed| | |]; try done. cbn [map_err]. destruct (_ || _); [done|].
  unfold engine_replace_pending, on_tx_memory, zoom, st_run.
  destruct (replace_pending_con _ pending bytes) as [[m q]| | |]; try done. cbn beta iota.
  set (en1 := with_tx_memory en m). assert (observe_of en1 = observe_of en) as Heq by done.
  assert (observe_interest en1 id = Some original) as Hr by (unfold observe_interest; rewrite Heq; done).
  destruct (tb_set_entry_ok (observe_of en1) id original replacement) as (t' & Hs & Hi' & _ & _ & Hj); [done..|].
  unfold set_observe_interest, on_observe, zoom, st_ok, st_upd, ObserveTable_set_entry. rewrite Hs. cbn [ok_of]. cbn beta iota.
  split; [done|]. eapply (one_held_row now en t' id replacement); [done..|]. intros _. left. exists original.
  split_and!; [done|done|]. unfold is_notify_held.
  destruct (oi_lifetime original) as [[|]|]; [|done|]; (destruct (oi_notify_hold original) as [[|]|]; done).
Qed.

Lemma notify_candidate_row en now pick id row' :
  notify_candidate en now pick id = Some row' →
  ∃ row, observe_interest en id = Some row ∧ (row' = row ∨ row' = (take_due row).1).
Proof.
  unfold notify_candidate. destruct (observe_interest en id) as [row|]; [|done]. intros Hc. exists row. split; [done|].
  destruct (_ || _); [done|]. destruct (_ <=? _); [done|]. destruct pick; simpl in Hc; [|injection Hc as <-; by left].
  destruct (take_due row) as [r [s|]]; [|done]. injection Hc as <-. by right.
Qed.

Lemma quiet_progress {E} now pick : quiet_op (E:=E) now (progress_observe now pick).
Proof.
  unfold progress_observe. apply quiet_get. intros en Hi. cbv zeta.
  destruct (_ =? 0)%nat; [by apply quiet_refl|]. destruct (_ =? 0)%nat; [by apply quiet_refl|].
  destruct (scan _ _ _ _) as [[[id offset] row']|] eqn:Ex; [|by apply quiet_refl].
  destruct (negb pick).
  { pose proof (quiet_advance (E:=E) now (offset + 1) en Hi) as Ha. unfold mbind, st_mbind, st_bind.
    by destruct (advance_observe (offset + 1) en) as [en2 [[]| | |]]. }
  pose proof (scan_spec (notify_candidate en now pick) (observe_entries en) (oc_cursor (tb_occ (observe_of en))) (seq 0 (observe_entries en))) as Hsp.
  rewrite Ex in Hsp. destruct Hsp as (? & ? & _ & _ & Hc & _). apply notify_candidate_row in Hc as (row & Hr & Hrow).
  assert (oi_key row' = oi_key row ∧ is_notify_held row' now = is_notify_held row now) as [Hk Hh].
  { destruct Hrow as [->| ->]; [done|]. destruct (take_due_held row now) as [? ?]. done. }
  destruct (store_row_ok (E:=E) en id row row' id Hi Hr Hk) as (t' & Hs & Hi' & Hl & Hj).
  unfold mbind, st_mbind, st_bind at 1. rewrite Hs. cbn beta iota.
  assert (quiet now (observe_of en) (observe_of (with_observe en t'))) as Hq by (eapply quiet_row; [done..| |done]; by rewrite Hh).
  pose proof (quiet_advance (E:=E) now (offset + 1) (with_observe en t') Hi') as Ha. unfold st_bind.
  destruct (advance_observe (offset + 1) (with_observe en t')) as [en2 [[]| | |]]; try done. cbn. by eapply quiet_trans.
Qed.

Lemma quiet_claim {E} now id : quiet_op (E:=E) now (claim_observe_notification id now).
Proof.
  unfold claim_observe_notification, with_row. apply quiet_get. intros en Hi.
  destruct (observe_interest en id) as [row|] eqn:Er; [|by apply quiet_refl]. unfold mbind, st_mbind, st_bind, st_get.
  destruct (_ || _); [by apply quiet_refl|]. destruct (take_due_held row now) as [Hh Hk].
  destruct (take_due row) as [row2 [s|]]; [|by apply quiet_refl]. cbn [fst] in *.
  eapply quiet_store; [done|done|done|]. by rewrite Hh.
Qed.

(** ** Runs *)
Abbreviation does m en en' := (∃ r, m en = (en', Ok (E:=SlotMessageError) r)).

(** One operation at time [now].  Four let a row hold and make no admission test
    of their own: [insert_observe] of a row that holds, [refresh_observe_max_age]
    and [mark_observe_unacked_due], which make a row wait for an ACK, and the
    storage's [set_observe_interest]; they are steps where the row held before
    or nothing else at its address does.  [ns_supersede] replaces a confirmable
    notification by a newer one. *)
Inductive notify_step `{EqDecision Q} (now : Z) : Eng → Eng → Prop :=
  | ns_insert row en en' :
      (is_notify_held row now = true → endpoint_notify_held en (ok_endpoint (oi_key row)) now = 0%nat) →
      does (insert_observe row) en en' → notify_step now en en'
  | ns_register m e en en' : does (register_observe m e) en en' → notify_step now en en'
  | ns_deregister m e en en' : does (deregister_observe m e) en en' → notify_step now en en'
  | ns_take key en en' : does (take_observe key) en en' → notify_step now en en'
  | ns_remove key en en' : does (remove_observe key) en en' → notify_step now en en'
  | ns_take_resource res en en' : does (take_observe_resource res) en en' → notify_step now en en'
  | ns_signal key en en' : does (signal_observe key) en en' → notify_step now en en'
  | ns_signal_resource res en en' : does (signal_observe_resource res) en en' → notify_step now en en'
  | ns_delete_resource res en en' : does (mark_observe_resource_deleted res) en en' → notify_step now en en'
  | ns_next_seq id b en en' : does (next_observe_seq_with_confirmation id b) en en' → notify_step now en en'
  | ns_restore id seq en en' : does (restore_observe_due id seq) en en' → notify_step now en en'
  | ns_refresh key secs en en' : does (refresh_observe_max_age key now secs None) en en' → notify_step now en en'
  | ns_refresh_con key secs mid en en' :
      (∀ id row, lookup_observe key en = Some id → observe_interest en id = Some row → may_hold now en row) →
      does (refresh_observe_max_age key now secs (Some mid)) en en' → notify_step now en en'
  | ns_unacked_due mid e en en' :
      (∀ id row, lookup_observe_unacked mid e en = Some id → observe_interest en id = Some row → may_hold now en row) →
      does (mark_observe_unacked_due mid e now) en en' → notify_step now en en'
  | ns_write id row row' en en' :
      observe_interest en id = Some row → oi_key row' = oi_key row →
      (is_notify_held row' now = true → may_hold now en row) →
      does (store_row id row' id) en en' → notify_step now en en'
  | ns_record key mid b en en' : does (record_observe_notify key now mid b) en en' → notify_step now en en'
  | ns_supersede pending original replacement bytes en en' r :
      supersede_observe_con pending original replacement bytes en = (en', Ok r) → notify_step now en en'
  | ns_ack mid e en en' : does (ack_observe_con mid e) en en' → notify_step now en en'
  | ns_reject mid e en en' : does (reject_observe_notify mid e) en en' → notify_step now en en'
  | ns_lifetime en en' : does (poll_observe_lifetime now) en en' → notify_step now en en'
  | ns_progress pick en en' : does (progress_observe now pick) en en' → notify_step now en en'
  | ns_claim id en en' : does (claim_observe_notification id now) en en' → notify_step now en en'
  | ns_other en en' : observe_of en' = observe_of en → notify_step now en en'.

Inductive notify_trace `{EqDecision Q} : Z → Eng → Z → Eng → Prop :=
  | nt_start now en : notify_trace now en now en
  | nt_step now0 en0 now en now' en' :
      notify_trace now0 en0 now en → now ≤ now' → notify_step now' en en' → notify_trace now0 en0 now' en'.

Lemma quiet_does {A} now (m : st Eng SlotMessageError A) en en' :
  quiet_op now m → tb_inv (observe_of en) → one_held now (observe_of en) → does m en en' →
  tb_inv (observe_of en') ∧ one_held now (observe_of en').
Proof.
  intros Hq Hi Ho [r Hr]. specialize (Hq en Hi). rewrite Hr in Hq. split; [apply Hq|by eapply one_held_quiet].
Qed.

Lemma keeps_does {A} now (m : st Eng SlotMessageError A) en en' :
  keeps_nstart now m en → tb_inv (observe_of en) → one_held now (observe_of en) → does m en en' →
  tb_inv (observe_of en') ∧ one_held now (observe_of en').
Proof. intros Hk Hi Ho [r Hr]. specialize (Hk Hi Ho). by rewrite Hr in Hk. Qed.

Lemma notify_step_inv `{EqDecision Q} now en en' :
  notify_step now en en' → tb_inv (observe_of en) → one_held now (observe_of en) →
  tb_inv (observe_of en') ∧ one_held now (observe_of en').
Proof.
  destruct 1 as [row en en' Hg Hd| | | | | | |res en en' Hd|res en en' Hd| | | |key secs mid en en' Hg Hd|mid e en en' Hg Hd|
    id row row' en en' Hr Hk Hg Hd|key mid b en en' Hd|pending original replacement bytes en en' r Hr| | | | | |en en' Heq]; intros Hi Ho;
    try (eapply quiet_does; [|done|done|done]; auto using quiet_register, quiet_deregister, quiet_take, quiet_remove,
      quiet_take_resource, quiet_signal, quiet_next_seq, quiet_restore, quiet_refresh, quiet_ack, quiet_reject, quiet_poll_lifetime,
      quiet_progress, quiet_claim; fail).
  - eapply keeps_does; [by apply insert_keeps|done..].
  - eapply quiet_does; [|done|done|exact Hd]. apply quiet_mark. intros row. apply mark_due_held.
  - eapply quiet_does; [|done|done|exact Hd]. apply quiet_mark. intros row. apply mark_deleted_held.
  - eapply keeps_does; [|done|done|exact Hd].
    by apply (with_row_keeps now en (lookup_observe key) (fun row => with_lifetime row (Some (ObserveLifetime_unacked now secs mid)))).
  - eapply keeps_does; [|done|done|exact Hd].
    by apply (with_row_keeps now en (lookup_observe_unacked mid e) (fun row => with_lifetime row (Some (ObserveLifetime_unacked now 0 mid)))).
  - eapply keeps_does; [by eapply store_keeps|done|done|exact Hd].
  - eapply keeps_does; [by apply record_keeps_nstart|done|done|exact Hd].
  - pose proof (supersede_keeps now pending original replacement bytes en Hi Ho) as Hq. by rewrite Hr in Hq.
  - by rewrite Heq.
Qed.

(** C20: congestion control of notifications.  Whatever sequence of the Observe
    operations the engine runs as time passes, from a table in which nothing is
    outstanding, no client address ever has more than NSTART = 1 notifications
    outstanding.  Registering, signalling, recording, superseding,
    acknowledging, rejecting, expiring and selecting notifications are taken
    without conditions; the operations that make a row wait for an ACK without
    an admission test ([insert_observe] of a waiting row,
    [refresh_observe_max_age] with a Message ID, [mark_observe_unacked_due], a
    direct [set_observe_interest]) where the row was outstanding before or its
    address has nothing outstanding. *)
Theorem observe_nstart `{EqDecision Q} now0 en0 now en :
  notify_trace now0 en0 now en → tb_inv (observe_of en0) →
  (∀ id row, observe_interest en0 id = Some row → is_notify_held row now0 = false) →
  ∀ e, Z.of_nat (endpoint_notify_held en e now) ≤ NSTART.
Proof.
  intros Ht Hi0 Hf e. unfold NSTART.
  assert (tb_inv (observe_of en) ∧ one_held now (observe_of en)) as [_ Ho].
  { induction Ht as [now en|now0 en0 now en now' en' Ht IH Hle Hs].
    - split; [done|]. intros i j ri rj Hri _ _ _ _ Hhi _. by rewrite (Hf i ri Hri) in Hhi.
    - destruct (IH Hi0 Hf) as [Hi Ho]. eapply notify_step_inv; [done..|by eapply one_held_later]. }
  pose proof (one_held_count now en e Ho). lia.
Qed.
End nstart.

(** ** Witness: a client with two registrations *)
Section witness.
#[local] Existing Instance target64.

Definition ex_token (b : Z) : Token := mkToken [b; 0; 0; 0; 0; 0; 0; 0] 1.
Definition ex_register (b : Z) : ParsedMessage Token := mkParsed _ (mkHeader 1 Confirmable 1 1 7) (ex_token b) [96] [].
Definition ex_obs0 := with_observe ex_engine (SlotTable_new 2).
Definition ex_obs1 := (register_observe (E:=SlotMessageError) (ex_register 1) ex_peer_ep ex_obs0).1.
Definition ex_obs2 := (register_observe (E:=SlotMessageError) (ex_register 2) ex_peer_ep ex_obs1).1.
Definition ex_key (b : Z) : ObserveKey Token := ObserveKey_new (ex_token b) ex_peer_ep.
Definition ex_obs3 := (record_observe_notify (E:=SlotMessageError) (ex_key 1) 1000 21 true ex_obs2).1.

Lemma observe_nstart_witness :
  Z.of_nat (endpoint_notify_held ex_obs3 ex_peer_ep 1000) ≤ NSTART ∧
  (record_observe_notify (E:=SlotMessageError) (ex_key 2) 1000 22 true ex_obs3).2 = Ok None.
Proof.
  split; [|vm_compute; reflexivity].
  assert (notify_trace 0 ex_obs0 1000 ex_obs3) as Ht.
  { apply (nt_step 0 ex_obs0 0 ex_obs2); [|lia|].
    - apply (nt_step 0 ex_obs0 0 ex_obs1); [|lia|].
      + apply (nt_step 0 ex_obs0 0 ex_obs0); [constructor|lia|]. apply (ns_register _ (ex_register 1) ex_peer_ep).
        exists (Some 0%nat). vm_compute. reflexivity.
      + apply (ns_register _ (ex_register 2) ex_peer_ep). exists (Some 1%nat). vm_compute. reflexivity.
    - apply (ns_record _ (ex_key 1) 21 true). exists (Some 0%nat). vm_compute. reflexivity. }
  apply (observe_nstart 0 ex_obs0 1000 ex_obs3 Ht (proj1 (SlotTable_new_inv 2))).
  intros [|[|id]] row Hr; vm_compute in Hr; discriminate Hr.
Defined.
End witness.
