(* ===== verification/EngineBlock.v ===== *)
(** * Block-wise transfers through the engine

    [src/storage/engine.rs], [impl<S: Storage + BodySlots> Engine<S>], with the
    [BodySlots] methods of [src/storage/memory.rs] it calls: applying a received
    block to a body, issuing and encoding the next block of one, acknowledging
    Q-Block windows and asking for missing blocks. *)
From S2P Require Import Prelude Errors MsgTypes Options Encode Decode OptionsBuilder OptionValues MessageOptions.
From S2P Require Import Occupancy Pending DatagramPool PendingCons SlotTable Dedup Observe OscoreHeader OscoreContext.
From S2P Require Import Block BodyPool Exchange Engine EngineObserve Progress.

Inductive RxBlockOpt : Type := RxBlock1 | RxBlock2 | RxQBlock1 | RxQBlock2.
Definition uses_size1 (w : RxBlockOpt) : bool := match w with RxBlock1 | RxQBlock1 => true | _ => false end.
Definition is_rx_q (w : RxBlockOpt) : bool := match w with RxQBlock1 | RxQBlock2 => true | _ => false end.
Definition incoming_role (w : RxBlockOpt) : BlockRole :=
  match w with
  | RxBlock1 => IncomingBlock1 | RxBlock2 => IncomingBlock2
  | RxQBlock1 => IncomingQBlock1 | RxQBlock2 => IncomingQBlock2
  end.
Inductive OutgoingBlockOpt : Type := TxBlock1 | TxBlock2 | TxQBlock1 | TxQBlock2.

(** [Option<Result<V, ValueError>>] with [?] on the error. *)
Definition value_opt {A} (o : option (res ValueError A)) : res BlockTransferError (option A) :=
  match o with
  | None => Ok None
  | Some r => v ← map_err BValue r; mret (Some v)
  end.

Section read.
Context `{Target} {T : Type}.
Implicit Types m : ParsedMessage T.
Definition read_block {E} (w : RxBlockOpt) m : res E (option (res ValueError BlockValue)) :=
  match w with
  | RxBlock1 => pm_block1 m
  | RxBlock2 => pm_block2 m
  | RxQBlock1 => pm_q_block1 m
  | RxQBlock2 => vs ← pm_q_block2 m; mret (head vs)
  end.
Definition read_identity (w : RxBlockOpt) m : res BlockTransferError BodyTag :=
  vs ← (if uses_size1 w then pm_request_tag m else pm_etag m);
  map_err BValue (BodyTag_from_first (head vs)).
(** The block option, required. *)
Definition required_block (w : RxBlockOpt) m : res BlockTransferError BlockValue :=
  r ← read_block w m;
  b ← value_opt r;
  ok_or b MissingBlock.
Definition read_size (w : RxBlockOpt) m : res BlockTransferError (option Z) :=
  r ← (if uses_size1 w then pm_size1 m else pm_size2 m);
  value_opt r.
End read.

Section engine_block.
Context {RX TX RB TB T Q : Type} `{Target} `{OwnedToken T} `{EqDecision T}.
Context `{!SlotPool RX} `{!DatagramBytes RX} `{!SlotPool TX} `{!DatagramBytes TX} `{!BodyCells T RB} `{!BodyCells T TB}.
(** The lengths of [S::RxScratch] and [S::TxScratch]. *)
Context (rx_scratch tx_scratch : nat).
Abbreviation Eng := (Engine RX TX RB TB T Q).
Abbreviation est := (st Eng BlockTransferError).
Implicit Types (en : Eng) (id : SlotId) (key : BlockKey T) (block : BlockValue) (payload : list Z).

(** ** The storage methods *)
Definition rx_body_do {A} (m : st RB BlockTransferError A) : est A := on_rx_body (st_fail NoBodyPools) m.
Definition tx_body_do {A} (m : st TB BlockTransferError A) : est A := on_tx_body (st_fail NoBodyPools) m.
Definition admit_body (role : BlockRole) key block payload (size : option Z) : est SlotId :=
  rx_body_do (admit_incoming key role block payload size).
Definition write_block (role : BlockRole) id block payload : est BlockProgress := rx_body_do (write_incoming id role block payload).
Definition apply_storage (role : BlockRole) key block payload (size : option Z) : est BlockProgress :=
  rx_body_do (apply_incoming key role block payload size).
Definition admit_block1 := admit_body IncomingBlock1.
Definition admit_block2 := admit_body IncomingBlock2.
Definition admit_q_block1 := admit_body IncomingQBlock1.
Definition admit_q_block2 := admit_body IncomingQBlock2.
Definition write_block1 := write_block IncomingBlock1.
Definition write_block2 := write_block IncomingBlock2.
Definition write_q_block1 := write_block IncomingQBlock1.
Definition write_q_block2 := write_block IncomingQBlock2.

Definition start (role : BlockRole) key (body : list Z) (szx : Z) : est SlotId := tx_body_do (start_outgoing key role body szx).
Definition start_static (role : BlockRole) key (body : list Z) (szx : Z) : est SlotId :=
  tx_body_do (start_outgoing_static key role body szx).
Definition start_block1 := start OutgoingBlock1.
Definition start_block2 := start OutgoingBlock2.
Definition start_q_block1 := start OutgoingQBlock1.
Definition start_q_block2 := start OutgoingQBlock2.
Definition start_static_block2 := start_static OutgoingBlock2.
Definition start_static_q_block2 := start_static OutgoingQBlock2.

Definition next (role : BlockRole) id : est OutgoingBlock := tx_body_do (next_outgoing id role).
Definition next_block1 := next OutgoingBlock1.
Definition next_block2 := next OutgoingBlock2.
Definition next_q_block1 := next OutgoingQBlock1.
Definition next_q_block2 := next OutgoingQBlock2.
Definition next_bert1 id (max_payload : nat) : est OutgoingBlock := tx_body_do (next_bert_outgoing id OutgoingBlock1 max_payload).
Definition next_bert2 id (max_payload : nat) : est OutgoingBlock := tx_body_do (next_bert_outgoing id OutgoingBlock2 max_payload).
Definition adopt_smaller_block1 id (szx : Z) : est unit := tx_body_do (adopt_smaller_outgoing_szx id OutgoingBlock1 szx).
Definition pace_q_block1 id : est unit := tx_body_do (body_pace_q_block1 id).
Definition ack_q_block1 id (num : Z) : est BlockProgress := tx_body_do (ack_outgoing id OutgoingQBlock1 num).
Definition ack_q_block2 id (num : Z) : est BlockProgress := tx_body_do (ack_outgoing id OutgoingQBlock2 num).

Definition tx_body_transfer en id : option (BlockTransfer T) :=
  match me_bodies (en_storage en) with Some (_, tb) => body_transfer tb id | None => None end.
Definition set_tx_body_transfer id (t : BlockTransfer T) : st Eng SlotError unit :=
  on_tx_body (st_fail InvalidSlot) (st_upd (fun p => body_set_transfer p id t)).
Definition tx_body_payload {E} en id : res E (option (list Z)) :=
  match me_bodies (en_storage en) with Some (_, tb) => body_payload tb id | None => Ok None end.
Definition rx_body_payload {E} en id : res E (option (list Z)) :=
  match me_bodies (en_storage en) with Some (rb, _) => body_payload rb id | None => Ok None end.

(** The [find_map] over the incoming bodies. *)
Definition find_rx_body en (test : BlockTransfer T → bool) : option SlotId :=
  match me_bodies (en_storage en) with Some (rb, _) => body_lookup_by rb test | None => None end.
Definition lookup_rx_body_role en key (role : BlockRole) : option SlotId :=
  find_rx_body en (fun t => eqb (bx_key t) key && eqb (bx_role t) role).
Definition lookup_tx_body_role en key (role : BlockRole) : option SlotId :=
  match me_bodies (en_storage en) with Some (_, tb) => body_lookup_role tb key role | None => None end.
Definition rx_body_bytes en : nat := match me_bodies (en_storage en) with Some (rb, _) => bc_bytes rb | None => 0 end.

(** [tally_block] on the outcome of [m]. *)
Definition tallied {A} (block1 : bool) (m : est A) : est A := fun en =>
  let '(en, r) := m en in
  let count o := mkEngine (en_storage en) (tally_block (en_metrics en) o block1) in
  match r with
  | Ok a => (count (inr a), Ok a)
  | Err e => (count (@inl _ A e), Err e)
  | r => (en, r)
  end.
Definition apply_block (w : RxBlockOpt) key block payload (size : option Z) : est BlockProgress :=
  tallied (uses_size1 w) (apply_storage (incoming_role w) key block payload size).
Definition apply_block1 := apply_block RxBlock1.
Definition apply_block2 := apply_block RxBlock2.
Definition apply_q_block1 := apply_block RxQBlock1.
Definition apply_q_block2 := apply_block RxQBlock2.

(** [Err(e)? ] from another error type. *)
Definition slot_err {A} (m : st Eng SlotError A) : est A := st_map_err BSlot m.

(** ** Receiving a block *)
Definition note_receive id (now_ms : Z) : est (option (BlockTransfer T)) :=
  en ← st_get;
  match rx_body_transfer en id with
  | None => mret None
  | Some transfer =>
      transfer ← st_lift (note_q_receive transfer now_ms);
      r ← st_ok (set_rx_body_transfer id transfer);
      mret (match r with Some _ => Some transfer | None => None end)
  end.

Definition remember_qblock1_request id (token : T) (request : RequestRef) : est unit :=
  en ← st_get;
  match rx_body_transfer en id with
  | None => mret tt
  | Some transfer =>
      if negb (eqb (bx_role transfer) IncomingQBlock1) then mret tt
      else
        newer ← (match bx_oscore_request transfer with
                 | None => mret true
                 | Some (_, old) => st_lift (a ← PartialIv_seq (rr_piv request); b ← PartialIv_seq (rr_piv old); mret (b <? a))
                 end);
        if newer : bool
        then st_ok (set_rx_body_transfer id (set_oscore_request transfer (Some (token, request))));; mret tt
        else mret tt
  end.

(** The message of an RX slot with its sidecar endpoint. *)
Definition rx_block_message id : est (Endpoint * ParsedMessage T) :=
  en ← st_get;
  endpoint ← st_lift (db_endpoint (rx_of en) id);
  endpoint ← st_lift (ok_or endpoint (BSlot NotOccupied));
  bytes ← st_lift (db_payload (rx_of en) id);
  bytes ← st_lift (ok_or bytes (BSlot NotOccupied));
  parsed ← st_lift (map_err BlockTransferError_from_token (decode_with_token bytes));
  mret (endpoint, parsed).

Definition validated_q1_future_rx id : est SlotId :=
  '(endpoint, parsed) ← rx_block_message id;
  if negb (eqb (pm_ty parsed) NonConfirmable) then st_fail IdentityMismatch
  else
    block ← st_lift (required_block RxQBlock1 parsed);
    size ← st_lift (read_size RxQBlock1 parsed);
    expected ← st_lift (ok_or size MissingSize);
    tag ← st_lift (read_identity RxQBlock1 parsed);
    inm ← st_lift (pm_if_none_match parsed);
    if BodyTag_is_absent tag || (negb (bv_num block =? 0) && inm) then st_fail IdentityMismatch
    else
      let key := BlockKey_with_identity (BlockKey_new (pm_token _ parsed) endpoint) tag in
      en ← st_get;
      body ← st_lift (ok_or (find_rx_body en (fun t => same_body_identity t key IncomingQBlock1)) NoTransfer);
      transfer ← st_lift (ok_or (rx_body_transfer en body) NoTransfer);
      if negb (eqb (bx_expected_len transfer) (Some expected)) then st_fail LengthInconsistent
      else
        stored ← st_lift (ok_or (bx_request_binding transfer) IdentityMismatch);
        candidate ← st_lift (RequestBinding_from_message parsed (bv_num block));
        st_lift (retain_condition stored candidate);;
        st_lift (validate_q1_future transfer block (length (pm_payload _ parsed)) (rx_body_bytes en));;
        mret body.

(** What [apply_incoming_rx] reads from the message before touching a body. *)
Record RxBlock : Type := mkRxBlock {
  rx_token : T; rx_block : BlockValue; rx_expected : option Z; rx_identity : BodyTag;
  rx_binding : option RequestBinding; rx_bytes : list Z
}.
Definition read_rx_block (w : RxBlockOpt) (parsed : ParsedMessage T) : res BlockTransferError RxBlock :=
  block ← required_block w parsed;
  expected ← read_size w parsed;
  if is_rx_q w && negb (is_some expected) then Err MissingSize
  else
    identity ← read_identity w parsed;
    tag ← BodyTag_as_slice identity;
    if match w with
       | RxQBlock1 => BodyTag_is_absent identity
       | RxQBlock2 => match tag with None => true | Some t => is_nil t end
       | _ => false
       end
    then Err MissingIdentity
    else
      binding ←
        (if uses_size1 w then
           inm ← pm_if_none_match parsed;
           if negb (bv_num block =? 0) && inm then Err IdentityMismatch
           else b ← RequestBinding_from_message parsed (bv_num block); mret (Some b)
         else mret None);
      let payload := pm_payload _ parsed in
      if (rx_scratch <? length payload)%nat then Err PayloadLength
      else
        tmp ← copy_into 0 (length payload) payload (replicate rx_scratch 0);
        bytes ← slice_idx tmp 0 (length payload);
        mret (mkRxBlock (pm_token _ parsed) block expected identity binding bytes).

(** The body of an upload that is already being assembled. *)
Definition existing_upload en (untagged : bool) (role : BlockRole) (endpoint : Endpoint) key (candidate : RequestBinding)
    : option SlotId :=
  if untagged then
    find_rx_body en (fun t =>
      eqb (bx_role t) role && eqb (bk_endpoint (bx_key t)) endpoint && BodyTag_is_absent (bk_identity (bx_key t))
      && match bx_request_binding t with Some stored => same_options stored candidate | None => false end)
  else
    match lookup_rx_body_role en key role with
    | Some id => Some id
    | None => find_rx_body en (fun t => same_body_identity t key role)
    end.

(** The checks against it: the binding to keep, and the body an untagged
    classic block continues.  A first block under a new key restarts it. *)
Definition join_upload (w : RxBlockOpt) (endpoint : Endpoint) key (b : RxBlock) (candidate : RequestBinding)
    : est (option RequestBinding * option SlotId) :=
  let untagged := match w with RxBlock1 => BodyTag_is_absent (rx_identity b) | _ => false end in
  let role := match w with RxBlock1 => IncomingBlock1 | _ => IncomingQBlock1 end in
  en ← st_get;
  match existing_upload en untagged role endpoint key candidate with
  | None => mret (Some candidate, None)
  | Some id =>
      transfer ← st_lift (ok_or (rx_body_transfer en id) NoTransfer);
      stored ← st_lift (ok_or (bx_request_binding transfer) IdentityMismatch);
      let restart := untagged && (bv_num (rx_block b) =? 0) && negb (eqb key (bx_key transfer)) in
      binding ←
        (if restart then if negb (same_options stored candidate) then st_fail IdentityMismatch else mret (Some candidate)
         else r ← st_lift (retain_condition stored candidate); mret (Some r));
      if untagged then
        if (bv_num (rx_block b) =? 0) && negb (eqb key (bx_key transfer)) then
          st_lift (incoming_block1 key (rx_block b) (length (rx_bytes b)) (rx_body_bytes en) (rx_expected b));;
          slot_err (release_rx_body id);;
          mret (binding, None)
        else mret (binding, Some id)
      else mret (binding, None)
  end.

Definition apply_call_block2 key block payload (expected : option Z) (q_block : bool) : est BlockProgress :=
  let role := if q_block then IncomingQBlock2 else IncomingBlock2 in
  tallied false (
    en ← st_get;
    match lookup_rx_body_role en key role with
    | Some id =>
        if q_block && match rx_body_transfer en id with Some t => negb (eqb (bx_expected_len t) expected) | None => false end
        then st_fail LengthInconsistent
        else write_block role id block payload
    | None =>
        id ← admit_body role key block payload expected;
        en ← st_get;
        transfer ← st_lift (ok_or (rx_body_transfer en id) NoTransfer);
        mret (mkProgress id (bx_filled transfer) (bx_complete transfer))
    end).

(** An untagged classic block: the next one of a body, or the first. *)
Definition apply_untagged (classic_body : option SlotId) key (b : RxBlock) : est BlockProgress :=
  tallied true (
    match classic_body with
    | Some id => write_block1 id (rx_block b) (rx_bytes b)
    | None =>
        id ← admit_block1 key (rx_block b) (rx_bytes b) (rx_expected b);
        en ← st_get;
        transfer ← st_lift (ok_or (rx_body_transfer en id) NoTransfer);
        mret (mkProgress id (bx_filled transfer) (bx_complete transfer))
    end).

(** The binding is kept on the body once its bytes are accepted. *)
Definition keep_binding (binding : option RequestBinding) id : est unit :=
  match binding with
  | None => mret tt
  | Some binding =>
      en ← st_get;
      transfer ← st_lift (ok_or (rx_body_transfer en id) NoTransfer);
      r ← st_result (set_rx_body_transfer id (set_binding transfer (Some binding)));
      match r with
      | inr _ => mret tt
      | inl e => st_ok (release_rx_body id);; st_fail (BSlot e)
      end
  end.

Definition apply_incoming_rx id (w : RxBlockOpt) (call_scoped : bool) : est BlockProgress :=
  '(endpoint, parsed) ← rx_block_message id;
  b ← st_lift (read_rx_block w parsed);
  let key := BlockKey_with_identity (BlockKey_new (rx_token b) endpoint) (rx_identity b) in
  let untagged := match w with RxBlock1 => BodyTag_is_absent (rx_identity b) | _ => false end in
  '(binding, classic_body) ←
    (match rx_binding b with
     | None => mret (None, None)
     | Some candidate => join_upload w endpoint key b candidate
     end);
  progress ←
    (if call_scoped then
       apply_call_block2 key (rx_block b) (rx_bytes b) (rx_expected b) (match w with RxQBlock2 => true | _ => false end)
     else if untagged then apply_untagged classic_body key b
     else apply_block w key (rx_block b) (rx_bytes b) (rx_expected b));
  keep_binding binding (bp_id progress);;
  mret progress.

Definition apply_block1_rx id := apply_incoming_rx id RxBlock1 false.
Definition apply_block2_rx id := apply_incoming_rx id RxBlock2 false.
Definition apply_q_block1_rx id := apply_incoming_rx id RxQBlock1 false.
Definition apply_q_block2_rx id := apply_incoming_rx id RxQBlock2 false.
Definition apply_call_block2_rx id (q_block : bool) := apply_incoming_rx id (if q_block then RxQBlock2 else RxBlock2) true.
End engine_block.
