(* ===== verification/EngineBlockTx.v ===== *)
(** * Sending blocks through the engine

    [src/storage/engine.rs]: [issue_and_encode_tx], [finish_outgoing_tx_observe]
    and the public operations built on them, Q-Block re-issue and recovery
    requests, acknowledgements of windows, and [admitted_upload]. *)
From S2P Require Import Prelude Errors MsgTypes Options Encode Decode OptionsBuilder OptionValues MessageOptions.
From S2P Require Import Occupancy Pending DatagramPool PendingCons SlotTable Dedup Observe OscoreHeader OscoreContext.
From S2P Require Import Block BodyPool Exchange Engine EngineObserve Progress EngineBlock.

#[export] Instance BlockValue_eq_dec : EqDecision BlockValue.
Proof. solve_decision. Defined.
#[export] Instance OutgoingBlock_eq_dec : EqDecision OutgoingBlock.
Proof. solve_decision. Defined.

(** [opts.push(opt).map_err(|_| Overflow)?] for the options in order. *)
Fixpoint push_opts (n : nat) (b : OptionsBuilder) (opts : list (res BlockTransferError Opt)) : res BlockTransferError OptionsBuilder :=
  match opts with
  | [] => mret b
  | o :: opts => o ← o; b ← map_err (fun _ => Overflow) (OptionsBuilder_push n b o); push_opts n b opts
  end.

(** The error conversion written out at both encodings. *)
Definition block_error_of_slot_message (e : SlotMessageError) : BlockTransferError :=
  match e with
  | SMSlot s => BSlot s
  | SMParse p => BParse p
  | SMTokenCapacity c => BTokenCapacity c
  | SMEncode e => BEncode e
  end.

(** The options of an outgoing block, in the order they are pushed. *)
Definition outgoing_options (w : OutgoingBlockOpt) (tag : option (list Z)) (observe : option EncodedUint)
    (encoded size : EncodedUint) : list (res BlockTransferError Opt) :=
  match tag with
  | None => []
  | Some tag => [Ok (match w with TxBlock1 | TxQBlock1 => Opt_request_tag tag | TxBlock2 | TxQBlock2 => Opt_etag tag end)]
  end ++
  match observe with None => [] | Some obs => [Opt_observe obs] end ++
  match w with
  | TxBlock1 => [Opt_block1 encoded]
  | TxBlock2 => [Opt_block2 encoded]
  | TxQBlock1 => [Opt_q_block1 encoded; Opt_size1 size]
  | TxQBlock2 => [Opt_size2 size; Opt_q_block2 encoded]
  end.

Section engine_block_tx.
Context {RX TX RB TB T Q : Type} `{Target} `{OwnedToken T} `{EqDecision T}.
Context `{!SlotPool RX} `{!DatagramBytes RX} `{!SlotPool TX} `{!DatagramBytes TX} `{!BodyCells T RB} `{!BodyCells T TB}.
Context (rx_scratch tx_scratch : nat).
Abbreviation Eng := (Engine RX TX RB TB T Q).
Abbreviation est := (st Eng BlockTransferError).
Abbreviation header := (MType * Code * MessageId)%type.
Implicit Types (en : Eng) (id body_id tx_id : SlotId).

(** [encode_occupied] into a TX slot, then its length and endpoint. *)
Definition encode_block_message tx_id (msg : Message T) (endpoint : Endpoint) : est nat :=
  n ← st_map_err block_error_of_slot_message (on_tx (encode_occupied tx_id msg));
  st_map_err BSlot (on_tx (set_len tx_id n));;
  st_map_err BSlot (set_tx_endpoint tx_id endpoint);;
  mret n.

Definition finish_outgoing_tx_observe (issued : OutgoingBlock) body_id tx_id (h : header) (w : OutgoingBlockOpt)
    (observe_seq : option Z) : est OutgoingBlock :=
  let '(ty, code, message_id) := h in
  en ← st_get;
  transfer ← st_lift (ok_or (tx_body_transfer en body_id) NoTransfer);
  payload ← st_lift (tx_body_payload en body_id);
  payload ← st_lift (ok_or payload (BSlot NotOccupied));
  stop ← st_lift (ok_or (usize_checked_add (ob_offset issued) (ob_out_len issued)) Overflow);
  if (length payload <? stop)%nat || (tx_scratch <? ob_out_len issued)%nat then st_fail Overflow
  else
    part ← st_lift (slice_idx payload (ob_offset issued) stop);
    tmp ← st_lift (copy_into 0 (ob_out_len issued) part (replicate tx_scratch 0));
    bytes ← st_lift (slice_idx tmp 0 (ob_out_len issued));
    encoded ← st_lift (EncodedUint_new (BlockValue_as_uint (ob_block issued)));
    if (2 ^ 32 <=? Z.of_nat (bx_filled transfer)) then st_fail Overflow
    else
      size ← st_lift (EncodedUint_new (Z.of_nat (bx_filled transfer)));
      tag ← st_lift (BodyTag_as_slice (bk_identity (bx_key transfer)));
      observe ← (match observe_seq with
                 | None => mret None
                 | Some seq => e ← st_lift (EncodedUint_new (Z.land seq OBSERVE_SEQUENCE_MASK)); mret (Some e)
                 end);
      opts ← st_lift (push_opts 5 (OptionsBuilder_new 5) (outgoing_options w tag observe encoded size));
      opts ← st_lift (OptionsBuilder_as_slice opts);
      encode_block_message tx_id (mkMessage _ ty code message_id (bk_token (bx_key transfer)) opts bytes)
        (bk_endpoint (bx_key transfer));;
      mret issued.
Definition finish_outgoing_tx (issued : OutgoingBlock) body_id tx_id (h : header) (w : OutgoingBlockOpt) : est OutgoingBlock :=
  finish_outgoing_tx_observe issued body_id tx_id h w None.

(** A failed encoding puts the issue state of the body back. *)
Definition issue_and_encode_tx body_id tx_id (h : header) (w : OutgoingBlockOpt) (observe_seq : option Z)
    (issue : est OutgoingBlock) : est OutgoingBlock :=
  en ← st_get;
  let checkpoint := option_map issue_checkpoint (tx_body_transfer en body_id) in
  result ← st_result (issued ← issue; finish_outgoing_tx_observe issued body_id tx_id h w observe_seq);
  match result with
  | inr issued => mret issued
  | inl e =>
      match checkpoint with
      | None => st_fail e
      | Some c =>
          en ← st_get;
          transfer ← st_lift (ok_or (tx_body_transfer en body_id) NoTransfer);
          st_map_err BSlot (set_tx_body_transfer body_id (restore_issue transfer c));;
          st_fail e
      end
  end.

Definition require_q_identity id (role : BlockRole) : est unit :=
  en ← st_get;
  transfer ← st_lift (ok_or (tx_body_transfer en id) NoTransfer);
  if negb (eqb (bx_role transfer) role) then st_fail IdentityMismatch
  else
    let identity := bk_identity (bx_key transfer) in
    tag ← st_lift (BodyTag_as_slice identity);
    if BodyTag_is_absent identity
       || (match role with OutgoingQBlock2 => true | _ => false end
           && match tag with Some t => is_nil t | None => false end)
    then st_fail MissingIdentity else mret tt.

Definition encode_block1_tx body_id tx_id (h : header) : est OutgoingBlock :=
  issue_and_encode_tx body_id tx_id h TxBlock1 None (next_block1 body_id).
Definition encode_bert1_tx body_id tx_id (h : header) (max_payload : nat) : est OutgoingBlock :=
  issue_and_encode_tx body_id tx_id h TxBlock1 None (next_bert1 body_id max_payload).
Definition encode_block2_tx body_id tx_id (h : header) : est OutgoingBlock :=
  issue_and_encode_tx body_id tx_id h TxBlock2 None (next_block2 body_id).
Definition encode_block2_observe_tx body_id tx_id (h : header) (observe_seq : Z) : est OutgoingBlock :=
  issue_and_encode_tx body_id tx_id h TxBlock2 (Some observe_seq) (next_block2 body_id).
Definition encode_bert2_tx body_id tx_id (h : header) (max_payload : nat) : est OutgoingBlock :=
  issue_and_encode_tx body_id tx_id h TxBlock2 None (next_bert2 body_id max_payload).
Definition encode_q_block1_tx body_id tx_id (h : header) : est OutgoingBlock :=
  require_q_identity body_id OutgoingQBlock1;;
  issue_and_encode_tx body_id tx_id h TxQBlock1 None (next_q_block1 body_id).
Definition encode_q_block2_tx body_id tx_id (h : header) : est OutgoingBlock :=
  require_q_identity body_id OutgoingQBlock2;;
  issue_and_encode_tx body_id tx_id h TxQBlock2 None (next_q_block2 body_id).

(** ** Blocks of a body already sent *)
Definition requested_block2 id (requested : BlockValue) : est OutgoingBlock :=
  en ← st_get;
  transfer ← st_lift (ok_or (tx_body_transfer en id) NoTransfer);
  if negb (eqb (bx_role transfer) OutgoingBlock2) || BlockValue_is_bert requested then st_fail IdentityMismatch
  else
    '(block, (offset, stop)) ← st_lift (classic_block2_range (bx_filled transfer) requested);
    mret (mkOutgoing id block offset (stop - offset) (negb (bv_more block))).

Definition reissue id (role : BlockRole) (num : Z) : est OutgoingBlock :=
  en ← st_get;
  transfer ← st_lift (ok_or (tx_body_transfer en id) NoTransfer);
  if negb (eqb (bx_role transfer) role) then st_fail IdentityMismatch
  else
    '(block, offset, len) ← st_lift (reissue_q_outgoing transfer num);
    mret (mkOutgoing id block offset len (bx_complete transfer)).
Definition reissue_q_block1 id := reissue id OutgoingQBlock1.
Definition reissue_q_block2 id := reissue id OutgoingQBlock2.
Definition encode_q_block1_reissue_tx body_id tx_id (h : header) (num : Z) : est OutgoingBlock :=
  require_q_identity body_id OutgoingQBlock1;;
  issued ← reissue_q_block1 body_id num;
  finish_outgoing_tx issued body_id tx_id h TxQBlock1.
Definition encode_q_block2_reissue_tx body_id tx_id (h : header) (num : Z) : est OutgoingBlock :=
  require_q_identity body_id OutgoingQBlock2;;
  issued ← reissue_q_block2 body_id num;
  finish_outgoing_tx issued body_id tx_id h TxQBlock2.

Definition peek_q_block2 id : est OutgoingBlock :=
  en ← st_get;
  transfer ← st_lift (ok_or (tx_body_transfer en id) NoTransfer);
  if negb (eqb (bx_role transfer) OutgoingQBlock2) then st_fail IdentityMismatch
  else
    let '(transfer, r) := issue_q_outgoing transfer in
    '(block, offset, len) ← st_lift r;
    mret (mkOutgoing id block offset len (bx_complete transfer)).
Definition commit_q_block2 (expected : OutgoingBlock) : est unit :=
  peeked ← peek_q_block2 (ob_id expected);
  if negb (eqb peeked expected) then st_fail IdentityMismatch
  else next_q_block2 (ob_id expected);; mret tt.

(** ** Asking for missing blocks *)
Fixpoint recover_values (rounds : nat) (i : Z) (recover : QBlockRecover T) : res BlockTransferError (list EncodedUint) :=
  match rounds with
  | O => mret []
  | S rounds =>
      if negb (Z.land (qr_hole_mask recover) (shl 16 1 i) =? 0) then
        num ← add_panics 32 (qr_window_base recover) i;
        b ← map_err BValue (BlockValue_new num false (qr_szx recover));
        e ← EncodedUint_new (BlockValue_as_uint b);
        es ← recover_values rounds (i + 1) recover;
        mret (e :: es)
      else recover_values rounds (i + 1) recover
  end.

Definition encode_q_block2_recover_tx (recover : QBlockRecover T) tx_id (h : header) : est nat :=
  let '(ty, code, message_id) := h in
  if negb (eqb (qr_role recover) IncomingQBlock2) then st_fail IdentityMismatch
  else
    en ← st_get;
    transfer ← st_lift (ok_or (rx_body_transfer en (qr_id recover)) NoTransfer);
    if negb (eqb (bx_key transfer) (qr_key recover)) then st_fail IdentityMismatch
    else
      encoded ← st_lift (recover_values (Z.to_nat MAX_PAYLOADS) 0 recover);
      if is_nil encoded then st_fail Gap
      else
        opts ← st_lift (push_opts (Z.to_nat MAX_PAYLOADS) (OptionsBuilder_new (Z.to_nat MAX_PAYLOADS)) (map Opt_q_block2 encoded));
        opts ← st_lift (OptionsBuilder_as_slice opts);
        encode_block_message tx_id (mkMessage _ ty code message_id (bk_token (bx_key transfer)) opts [])
          (bk_endpoint (bx_key transfer)).

(** ** Acknowledging a window *)
Definition ack_outgoing_rx body_id rx_id (w : RxBlockOpt) : est BlockProgress :=
  '(endpoint, parsed) ← rx_block_message rx_id;
  if pm_is_empty parsed then st_fail MissingBlock
  else
    block ← st_lift (required_block w parsed);
    if match w with RxQBlock2 => negb (bv_more block) | _ => false end then st_fail Gap
    else
      en ← st_get;
      transfer ← st_lift (ok_or (tx_body_transfer en body_id) NoTransfer);
      if negb (eqb (bk_endpoint (bx_key transfer)) endpoint) then st_fail IdentityMismatch
      else
        match w with
        | RxQBlock1 => ack_q_block1 body_id (bv_num block)
        | RxQBlock2 => ack_q_block2 body_id (bv_num block)
        | RxBlock1 | RxBlock2 => st_fail IdentityMismatch
        end.
Definition ack_q_block1_rx body_id rx_id := ack_outgoing_rx body_id rx_id RxQBlock1.
Definition ack_q_block2_rx body_id rx_id := ack_outgoing_rx body_id rx_id RxQBlock2.

(** ** Which uploads are already admitted *)
Definition admitted_upload {E} en (parsed : ParsedMessage T) (peer : Endpoint) : res E bool :=
  q1 ← pm_q_block1 parsed;
  b1 ← pm_block1 parsed;
  match (if is_some q1 then Some (RxQBlock1, IncomingQBlock1) else if is_some b1 then Some (RxBlock1, IncomingBlock1) else None) with
  | None => mret false
  | Some (w, role) =>
      block ← ok_of (required_block w parsed);
      tag ← ok_of (read_identity w parsed);
      match block, tag with
      | Some block, Some tag =>
          candidate ← ok_of (RequestBinding_from_message parsed (bv_num block));
          match candidate with
          | None => mret false
          | Some candidate =>
              let key := BlockKey_with_identity (BlockKey_new (pm_token _ parsed) peer) tag in
              let untagged := match w with RxBlock1 => BodyTag_is_absent tag | _ => false end in
              mret (is_some (find_rx_body en (fun t =>
                match bx_request_binding t with
                | None => false
                | Some stored =>
                    (if untagged then
                       eqb (bx_role t) role && eqb (bk_endpoint (bx_key t)) peer && BodyTag_is_absent (bk_identity (bx_key t))
                       && same_options stored candidate && negb ((bv_num block =? 0) && negb (eqb key (bx_key t)))
                     else same_body_identity t key role)
                    && match retain_condition stored candidate with Ok _ => true | _ => false end
                end)))
          end
      | _, _ => mret false
      end
  end.
End engine_block_tx.
