(* ===== verification/BlockIssue.v ===== *)
(** * A failed encoding gives the block back

    [issue_and_encode_tx] of [src/storage/engine.rs] issues the next block of a
    body, encodes it into a TX slot and, when anything fails, restores the
    checkpoint it took.  Proved for every way of issuing a block. *)
From S2P Require Import Prelude Errors MsgTypes Options Encode Decode OptionsBuilder OptionValues MessageOptions.
From S2P Require Import Occupancy Pending DatagramPool PendingCons SlotTable Dedup Observe OscoreHeader OscoreContext.
From S2P Require Import Block BlockFrame BodyPool BodyLaws Exchange Engine EngineExchange EngineObserve Progress.
From S2P Require Import EngineBlock EngineBlockTx.

(** ** What issuing does not change *)
Section frame.
Context `{Target} {T : Type}.
Implicit Types t : BlockTransfer T.

(** A transfer without the fields a checkpoint holds. *)
Definition issue_frame t : BlockTransfer T := restore_issue t (mkIssue 0 0 false false (Some 0)).
Definition framed {A} (m : bx_st (T:=T) A) : Prop := ∀ t, issue_frame (m t).1 = issue_frame t.

Lemma restore_framed t t' : issue_frame t' = issue_frame t → restore_issue t' (issue_checkpoint t) = t.
Proof.
  destruct t, t'. unfold issue_frame, restore_issue, issue_checkpoint, set_pos, set_q, q_with_mask. cbn.
  intros Hf. destruct bx_q as [[]|], bx_q0 as [[]|]; cbn in *; injection Hf as; subst; done.
Qed.

Lemma set_pos_frame t num more next complete : issue_frame (set_pos t num more next (bx_filled t) complete) = issue_frame t.
Proof. unfold issue_frame, restore_issue. cbn. by destruct (bx_q t). Qed.
Lemma set_mask_frame t q mask : bx_q t = Some q → issue_frame (set_q t (Some (q_with_mask q mask))) = issue_frame t.
Proof. intros Hq. unfold issue_frame, restore_issue. cbn. rewrite Hq. by destruct t. Qed.

Lemma framed_issue_range num : framed (issue_range num).
Proof.
  intros t. unfold issue_range. unbind.
  set (t1 := match bx_q t with None => t | Some q => set_q t (Some (q_with_mask q (Z.lor (qx_mask q) (shl 16 1 (num - qx_base q))))) end).
  assert (issue_frame t1 = issue_frame t) as Hf.
  { subst t1. destruct (bx_q t) as [q|] eqn:Eq; [|done]. by apply set_mask_frame. }
  destruct (match bx_q t with None => Ok tt | Some q => _ end) as [[]| | |]; [|done..]. cbn beta iota.
  destruct (outgoing_range t num) as [[[block offset] len]| | |]; [|done..]. cbn beta iota zeta. fold t1.
  set (t2 := set_pos t1 num (bv_more block) (bx_next_num t1) (bx_filled t1) (bx_complete t1)).
  assert (issue_frame t2 = issue_frame t) as Hf2 by (by rewrite <- Hf; apply set_pos_frame).
  destruct (checked_add 32 num 1); cbn [ok_or]; cbn beta iota; [|done]. rewrite <- Hf2. apply set_pos_frame.
Qed.

Lemma framed_finish num n more : framed (finish_position num n more).
Proof. intros t. unfold finish_position. unbind. destruct (checked_add 32 num n); cbn [ok_or fst]; [|done]. apply set_pos_frame. Qed.

Lemma framed_issue_bert n : framed (issue_bert_outgoing n).
Proof.
  intros t. unfold issue_bert_outgoing. unbind.
  destruct (_ || _); [done|]. destruct (negb _); [done|]. destruct (bx_complete t); [done|].
  destruct (block_offset _ _) as [offset| | |]; [|done..]. cbn beta iota zeta. destruct (_ || _); [done|].
  destruct (_ && _); [done|]. destruct (_ && _); [done|].
  destruct (map_err BValue _) as [block| | |]; [|done..]. cbn beta iota. destruct (ok_or _ _) as [nblocks| | |]; [|done..].
  cbn beta iota. set (t1 := set_pos t _ _ _ _ _).
  assert (issue_frame t1 = issue_frame t) as <- by apply set_pos_frame.
  match goal with |- context [finish_position ?a ?b ?c t1] => pose proof (framed_finish a b c t1) as Hf;
    destruct (finish_position a b c t1) as [t2 [[]| | |]] end; exact Hf.
Qed.

Lemma framed_issue : framed issue_outgoing.
Proof.
  intros t. unfold issue_outgoing. unbind. destruct (_ || _); [done|]. destruct (bx_complete t); [done|].
  destruct (bx_is_bert t); [apply framed_issue_bert|apply framed_issue_range].
Qed.

Lemma framed_issue_q : framed issue_q_outgoing.
Proof.
  intros t. unfold issue_q_outgoing. unbind. destruct (_ || _); [done|]. destruct (bx_complete t); [done|].
  destruct (ok_or _ _) as [q| | |]; [|done..]. cbn beta iota zeta. destruct (_ <=? _); [done|].
  destruct (ok_or _ _) as [num| | |]; [|done..]. apply framed_issue_range.
Qed.

(** The checkpoint and the frame do not depend on how the bytes are kept. *)
Lemma restore_unshared t t' :
  issue_frame t' = issue_frame t →
  without_static_body (restore_issue (without_static_body t') (issue_checkpoint (without_static_body t))) = without_static_body t.
Proof.
  intros Hf. rewrite restore_framed.
  - unfold without_static_body, clear_static_body. destruct t; cbn. by destruct bx_q_receive.
  - revert Hf. destruct t, t'. unfold without_static_body, clear_static_body, issue_frame, restore_issue. cbn.
    intros Hf. destruct bx_q as [[]|], bx_q0 as [[]|]; cbn in *; injection Hf as; subst; cbn; by destruct bx_q_receive.
Qed.
End frame.

(** ** Code that leaves a part of the state alone *)
Section keeps_part.
Context {S E X : Type} (f : S → X).
Definition leaves {A} (m : st S E A) : Prop := ∀ s, f (m s).1 = f s.
Lemma leaves_ret {A} (a : A) : leaves (mret a).
Proof. by intros s. Qed.
Lemma leaves_lift {A} (r : res E A) : leaves (st_lift r).
Proof. by intros s. Qed.
Lemma leaves_fail {A} (e : E) : leaves (st_fail (A:=A) e).
Proof. by intros s. Qed.
Lemma leaves_bind {A B} (m : st S E A) (k : A → st S E B) : leaves m → (∀ a, leaves (k a)) → leaves (m ≫= k).
Proof.
  intros Hm Hk s. specialize (Hm s). unbind. destruct (m s) as [s' [a| | |]]; [|done..]. cbn [fst] in Hm. rewrite <- Hm. apply Hk.
Qed.
Lemma leaves_get : leaves st_get.
Proof. by intros s. Qed.
End keeps_part.
Lemma leaves_map_err {S E F X A} (f : S → X) (g : E → F) (m : st S E A) : leaves f m → leaves f (st_map_err g m).
Proof. intros Hm s. specialize (Hm s). unfold st_map_err. by destruct (m s). Qed.

Section atomic.
Context {RX TX RB TB T Q : Type} `{Target} `{OwnedToken T} `{EqDecision T}.
Context `{!SlotPool RX} `{!DatagramBytes RX} `{!SlotPool TX} `{!DatagramBytes TX} `{!BodyCells T RB} `{!BodyCells T TB}.
Context `{!BodyLaws T TB}.
Context (tx_scratch : nat).
Abbreviation Eng := (Engine RX TX RB TB T Q).
Implicit Types (en : Eng) (id : SlotId) (t : BlockTransfer T).

(** The whole engine, metrics included, but for the pool of TX datagrams. *)
Definition besides_tx (x : TX) en : Eng := with_tx en x.

Lemma leaves_on_tx {E A} x (m : st TX E A) : leaves (besides_tx x) (on_tx (RX:=RX) (RB:=RB) (TB:=TB) (T:=T) (Q:=Q) m).
Proof. intros en. unfold on_tx, zoom. by destruct (m (tx_of en)). Qed.

Lemma finish_leaves x issued body tx h w seq :
  leaves (besides_tx x) (finish_outgoing_tx_observe (RX:=RX) (RB:=RB) (Q:=Q) tx_scratch issued body tx h w seq).
Proof.
  unfold finish_outgoing_tx_observe. destruct h as [[ty code] mid].
  repeat first [apply leaves_ret | apply leaves_lift | apply leaves_fail | apply leaves_get | apply leaves_on_tx
    | apply leaves_map_err | apply leaves_bind; [|intros ?] | progress unfold encode_block_message, set_tx_endpoint
    | match goal with |- leaves _ (if ?b then _ else _) => destruct b | |- leaves _ (match ?x with _ => _ end) => destruct x end].
Qed.

(** The ways to issue a block of the body [id]. *)
Inductive issues id : st Eng BlockTransferError OutgoingBlock → Prop :=
  | issues_next role : issues id (next role id)
  | issues_bert1 n : issues id (next_bert1 id n)
  | issues_bert2 n : issues id (next_bert2 id n).

(** An outgoing body, its buffer or its static bytes long enough. *)
Definition sound_body (p : TB) id (s : BodySlot T) t : Prop :=
  holds p id s ∧ bs_transfer s = Some t ∧ (bs_len s ≤ length (bs_buf s))%nat ∧
  match static_body t with Some body => length body = bs_len s | None => True end.

Lemma issued_slot p id s t role (m : bx_st (T:=T) _) :
  framed m → holds p id s → bs_transfer s = Some t →
  ∃ q t' r, on_occupied id (issued id role m) p = (q, r) ∧
    slot_upd p q id (mkBody (bs_buf s) (bs_len s) (Some t')) ∧ issue_frame t' = issue_frame t.
Proof.
  intros Hf Hh Ht. unfold on_occupied, issued. unbind. pose proof Hh as (Hp & Ho & Hs). rewrite Ho. cbn [negb].
  destruct (decide (bx_role t = role)) as [Hr|Hr].
  - specialize (Hf t). destruct (m t) as [t' r] eqn:Em. cbn [fst] in Hf.
    destruct (on_transfer_ok p id s t t' role m r Hh Ht Hr Em) as (q & -> & Hq).
    destruct r as [[[block offset] len]| | |]; cbn beta iota; [|by exists q, t', (Err e)|by exists q, t', Panic|by exists q, t', Diverge].
    rewrite (get_transfer_ok q id _ t' (holds_upd _ _ _ _ _ Hh Hq) eq_refl). by eexists q, t', _.
  - exists p, t, (Err IdentityMismatch). unfold on_transfer. unbind. rewrite (bl_index _ _ _ Hp Hs). cbn beta iota. rewrite Ht.
    cbn [ok_or]. cbn beta iota. unfold eqb. rewrite bool_decide_false by done. cbn [negb]. split_and!; try done.
    split_and!; [done|done|]. rewrite list_insert_id; [done|]. rewrite Hs. f_equal. destruct s. cbn in *. by subst.
Qed.

Lemma issues_slot id issue en rb tb s t :
  issues id issue → me_bodies (en_storage en) = Some (rb, tb) → holds tb id s → bs_transfer s = Some t →
  ∃ q t' r, issue en = (with_bodies en (Some (rb, q)), r) ∧
    slot_upd tb q id (mkBody (bs_buf s) (bs_len s) (Some t')) ∧ issue_frame t' = issue_frame t.
Proof.
  intros Hi Hb Hh Ht.
  assert (∀ m role, framed m → ∃ q t' r,
    tx_body_do (on_occupied id (issued id role m)) en = (with_bodies en (Some (rb, q)), r) ∧
    slot_upd tb q id (mkBody (bs_buf s) (bs_len s) (Some t')) ∧ issue_frame t' = issue_frame t) as Hgo.
  { intros m role Hf. destruct (issued_slot tb id s t role m Hf Hh Ht) as (q & t' & r & Hr & Hq & Hft).
    exists q, t', r. unfold tx_body_do, on_tx_body. by rewrite Hb, Hr. }
  destruct Hi as [role|n|n]; [|apply Hgo, framed_issue_bert..].
  apply Hgo. destruct (is_q_block role); [apply framed_issue_q|apply framed_issue].
Qed.

(** The buffer of a body once a borrowed static body is copied into it. *)
Definition own_buf (buf : list Z) t : list Z := match static_body t with Some body => splice buf 0 body | None => buf end.
(** The slot of a body with its transfer state [t] and the bytes in its buffer. *)
Definition own_slot (s : BodySlot T) t : BodySlot T := mkBody (own_buf (bs_buf s) t) (bs_len s) (Some (without_static_body t)).

(** Writing a sidecar keeps the payload of the body. *)
Lemma set_transfer_payload p id s t t2 :
  sound_body p id s t →
  ∃ q, body_set_transfer p id t2 = Ok q ∧ slot_upd p q id (mkBody (own_buf (bs_buf s) t) (bs_len s) (Some (without_static_body t2))) ∧
    body_transfer q id = Some (without_static_body t2) ∧ body_payload (E:=BlockTransferError) q id = body_payload p id.
Proof.
  intros (Hh & Ht & Hl & Hst). pose proof Hh as (Hp & Ho & Hs). unfold body_set_transfer. rewrite Ho. cbn [negb].
  rewrite (bl_view _ _ _ Hp Hs). unbind. cbn [ok_or]. unfold slot_materialize. rewrite Ht. unbind.
  set (t3 := without_static_body t2).
  assert (static_body t3 = None) as Hn by (subst t3; unfold without_static_body, clear_static_body, static_body; destruct t2; cbn; by destruct bx_q_receive).
  assert (without_static_body t3 = t3) as Hw by (subst t3; unfold without_static_body, clear_static_body; destruct t2; cbn; by destruct bx_q_receive).
  assert (∀ buf, length buf = length (bs_buf s) → take (bs_len s) buf = (match static_body t with Some body => body | None => take (bs_len s) (bs_buf s) end) →
    ∃ q, bc_store (E:=SlotError) p id (mkBody buf (bs_len s) (Some t3)) = Ok q ∧ slot_upd p q id (mkBody buf (bs_len s) (Some t3)) ∧
      body_transfer q id = Some t3 ∧ body_payload (E:=BlockTransferError) q id = body_payload p id) as Hgo.
  { intros buf Hbl Htake. destruct (store_holds (E:=SlotError) p id s (mkBody buf (bs_len s) (Some t3)) Hh Hbl) as (q & -> & Hq).
    exists q. pose proof (holds_upd _ _ _ _ _ Hh Hq) as Hhq. split; [done|]. split; [exact Hq|]. split.
    { rewrite (body_transfer_at q id _ t3 Hhq eq_refl). by rewrite Hw. }
    rewrite (body_payload_at q id _ Hhq); cbn [bs_transfer bs_len bs_buf]; [|done|lia]. rewrite Htake.
    unfold body_payload. rewrite Ho. cbn [negb]. rewrite (bl_view _ _ _ Hp Hs). unbind. unfold slot_payload. rewrite Ht. unbind.
    cbn [option_bind]. destruct (static_body t) as [body|]; rewrite slice_prefix by lia; [by rewrite take_ge by lia|done]. }
  unfold own_buf. cbn [option_bind]. destruct (static_body t) as [body|] eqn:Eb; cbn [option_ret option_bind]; cbn beta iota.
  - rewrite copy_into_ok by lia. cbn beta iota. apply Hgo; [apply length_splice; lia|].
    rewrite <- Hst. unfold splice. cbn [bs_buf bs_len]. rewrite take_0. cbn [app]. apply take_app_length.
  - by apply Hgo.
Qed.

Lemma besides_bodies x en1 en : besides_tx x en1 = besides_tx x en → me_bodies (en_storage en1) = me_bodies (en_storage en).
Proof. intros He. exact (f_equal (fun en => me_bodies (en_storage en)) He). Qed.
Lemma besides_back x en1 en : besides_tx x en1 = besides_tx x en → en1 = with_tx en (tx_of en1).
Proof.
  intros He. apply (f_equal (fun en => with_tx en (tx_of en1))) in He. destruct en1 as [[rx tx d o ex b] me], en as [[rx2 tx2 d2 o2 ex2 b2] me2].
  by destruct tx, tx2.
Qed.

Lemma frame_static t t' : issue_frame t' = issue_frame t → static_body t' = static_body t.
Proof.
  destruct t, t'. unfold issue_frame, restore_issue, static_body. cbn.
  intros Hf. destruct bx_q as [[]|], bx_q0 as [[]|]; cbn in *; injection Hf as; by subst.
Qed.

(** What a failed attempt at [id] leaves: the engine as it was, but for the TX
    datagrams and the slot of this body, which owns its bytes. *)
Definition given_back en en' rb tb id s t : Prop :=
  ∃ q, slot_upd tb q id (own_slot s t) ∧ en' = with_tx (with_bodies en (Some (rb, q))) (tx_of en') ∧
    (∀ j, tx_body_transfer en' j = tx_body_transfer en j) ∧ (∀ j, tx_body_payload (E:=BlockTransferError) en' j = tx_body_payload en j).

Lemma body_payload_other p q j :
  bl_inv p → bl_inv q → bl_cells q !! j = bl_cells p !! j → body_occupied q j = body_occupied p j →
  body_payload (E:=BlockTransferError) q j = body_payload p j.
Proof.
  intros Hp Hq Hc Ho. unfold body_payload. rewrite Ho. destruct (body_occupied p j) eqn:E; [|done]. cbn [negb].
  assert (j < length (bl_cells p))%nat as Hj.
  { rewrite bl_length by done. destruct (bl_occ p Hp) as [_ <-]. unfold body_occupied, Occupancy_is_occupied in E.
    destruct (oc_occupied (bc_occ p) !! j) eqn:El; [by eapply lookup_lt_Some|done]. }
  apply lookup_lt_is_Some_2 in Hj as [s Hs]. rewrite Hs in Hc. by rewrite (bl_view _ _ _ Hq Hc), (bl_view _ _ _ Hp Hs).
Qed.

(** The issue state of [body_id] put back, the rest of the pool left alone. *)
Lemma restore_back en en2 rb tb q id s t t' e :
  me_bodies (en_storage en) = Some (rb, tb) → sound_body tb id s t →
  slot_upd tb q id (mkBody (bs_buf s) (bs_len s) (Some t')) → issue_frame t' = issue_frame t →
  (∀ x, besides_tx x en2 = besides_tx x (with_bodies en (Some (rb, q)))) →
  ∃ en3, (transfer ← st_lift (ok_or (tx_body_transfer en2 id) NoTransfer);
       st_map_err BSlot (set_tx_body_transfer id (restore_issue transfer (issue_checkpoint (without_static_body t))));;
       st_fail (A:=OutgoingBlock) e) en2 = (en3, Err e) ∧ given_back en en3 rb tb id s t.
Proof.
  intros Hb Hs Hq Hf H2. pose proof Hs as (Hh & Ht & Hl & Hst). pose proof (holds_upd _ _ _ _ _ Hh Hq) as Hhq.
  assert (sound_body q id (mkBody (bs_buf s) (bs_len s) (Some t')) t') as Hsq.
  { split_and!; [done|done|done|]. by rewrite (frame_static t t'). }
  destruct (set_transfer_payload q id _ t' (restore_issue (without_static_body t') (issue_checkpoint (without_static_body t))) Hsq)
    as (q2 & Hset & Hq2 & Htr & Hpay).
  rewrite restore_unshared in Hq2, Htr by done. cbn [bs_buf bs_len] in Hq2. unfold own_buf in Hq2. rewrite (frame_static t t') in Hq2 by done.
  specialize (H2 (tx_of en2)). pose proof (besides_bodies _ _ _ H2) as Hb2. cbn [me_bodies en_storage with_bodies with_storage] in Hb2.
  unbind. unfold tx_body_transfer at 1. rewrite Hb2. cbn beta iota.
  rewrite (body_transfer_at q id _ t' Hhq eq_refl). cbn [ok_or]. cbn beta iota.
  unfold set_tx_body_transfer, on_tx_body, st_map_err, st_upd. rewrite Hb2, Hset. cbn beta iota. eexists. split; [done|].
  pose proof (upd_trans _ _ _ _ _ _ Hq Hq2) as Hu. exists q2. split; [exact Hu|]. split; [|split; intros j].
  - apply besides_back in H2. rewrite H2. by destruct en as [[? [] ? ? ? ?] ?].
  - unfold tx_body_transfer. rewrite Hb. cbn [me_bodies en_storage with_bodies with_storage].
    destruct (decide (j = id)) as [->|Hj]; [rewrite Htr; symmetry; by apply (body_transfer_at tb id s)|].
    destruct Hh as (Hp & _). destruct (upd_other tb q2 id _ j Hp Hu Hj) as [Hc Ho]. apply body_transfer_other; try done. by destruct Hu.
  - unfold tx_body_payload. rewrite Hb. cbn [me_bodies en_storage with_bodies with_storage]. destruct (decide (j = id)) as [->|Hj].
    + rewrite Hpay. destruct Hh as (Hp & Ho & Hc). destruct Hhq as (Hpq & Hoq & Hcq). unfold body_payload. rewrite Ho, Hoq. cbn [negb].
      rewrite (bl_view _ _ _ Hp Hc), (bl_view _ _ _ Hpq Hcq). unbind. unfold slot_payload. rewrite Ht.
      unbind. cbn [bs_transfer option_bind bs_buf bs_len]. by rewrite (frame_static t t').
    + destruct Hh as (Hp & _). destruct (upd_other tb q2 id _ j Hp Hu Hj) as [Hc Ho]. destruct Hu as (Hi & _). by apply body_payload_other.
Qed.

(** C35: an outgoing block is issued and encoded as a whole.  When any step of
    it fails (the next block is refused, the slice does not fit the scratch
    buffer, an option or the message does not fit the TX slot), every outgoing
    body reads with the transfer state and the payload it had before, so the same
    block is issued again by the next attempt.  Outside the pool of TX datagrams
    the whole engine is as it was, tables, metrics, incoming bodies and the slots
    and occupancy of the other outgoing bodies included; the slot of the body at
    hand is as it was too, save that a borrowed static body has been copied into
    its own buffer. *)
Theorem issue_encode_atomic issue en en' rb tb body_id tx_id h w seq s t e :
  me_bodies (en_storage en) = Some (rb, tb) → sound_body tb body_id s t → issues body_id issue →
  issue_and_encode_tx (RX:=RX) (RB:=RB) (Q:=Q) tx_scratch body_id tx_id h w seq issue en = (en', Err e) →
  ∃ q, slot_upd tb q body_id (own_slot s t) ∧ en' = with_tx (with_bodies en (Some (rb, q))) (tx_of en') ∧
    (∀ j, tx_body_transfer en' j = tx_body_transfer en j) ∧ (∀ j, tx_body_payload (E:=BlockTransferError) en' j = tx_body_payload en j).
Proof.
  intros Hb Hs Hi. pose proof Hs as (Hh & Ht & _).
  destruct (issues_slot body_id issue en rb tb s t Hi Hb Hh Ht) as (q & t' & r & Hrun & Hq & Hf).
  assert (tx_body_transfer en body_id = Some (without_static_body t)) as Hen.
  { unfold tx_body_transfer. rewrite Hb. by apply (body_transfer_at tb body_id s). }
  unfold issue_and_encode_tx, st_result. unbind. rewrite Hen, Hrun. cbn [option_map]. cbn beta iota.
  set (en1 := with_bodies en (Some (rb, q))) in *.
  pose proof (fun en2 e2 => restore_back en en2 rb tb q body_id s t t' e2 Hb Hs Hq Hf) as Hgo. fold en1 in Hgo.
  destruct r as [issued|e1| |]; [|edestruct (Hgo en1 e1) as (en3 & Hr & Hx); [done|]; unbind; rewrite Hr; by intros [= <- _]|done..].
  pose proof (fun x => finish_leaves x issued body_id tx_id h w seq en1) as Hfin.
  destruct (finish_outgoing_tx_observe _ _ _ _ _ _ _ en1) as [en2 [o|e1| |]]; try done.
  edestruct (Hgo en2 e1 Hfin) as (en3 & Hr & Hx). unbind. rewrite Hr. by intros [= <- _].
Qed.
End atomic.

(** ** Witness: a 200-byte body whose blocks do not fit a scratch buffer of 32 bytes *)
Section witness.
#[local] Existing Instance target64.
Definition ex_out_transfer : BlockTransfer Token :=
  mkTransfer (BlockKey_new (mkToken [5; 0; 0; 0; 0; 0; 0; 0] 1) ex_peer_ep) OutgoingBlock1 0 2 true 0 200 false (Some 200) None RNone None None None.
Definition ex_out_body : BodySlot Token := mkBody (replicate 200 7) 200 (Some ex_out_transfer).
Definition ex_out_pool : AllocBodyPool Token := mkAllocBody [ex_out_body] 200 (mkOcc [true] [false] 0 1).
Definition ex_block_engine := with_bodies ex_engine (Some (AllocBodyPool_new 1 64 Token, ex_out_pool)).

Lemma ex_out_sound : sound_body ex_out_pool 0 ex_out_body ex_out_transfer.
Proof.
  split_and!; [|done|simpl; lia|done]. split_and!; [|done|done]. split_and!; [|done|by repeat constructor].
  split_and!; [done|left; simpl; lia|simpl; lia|]. intros i Hi. by destruct i as [|[|i]].
Qed.

Lemma issue_encode_atomic_witness :
  ∃ en', issue_and_encode_tx 32 0 0 (Confirmable, 2, 7) TxBlock1 None (next OutgoingBlock1 0) ex_block_engine = (en', Err Overflow) ∧
    tx_body_transfer en' 0 = tx_body_transfer ex_block_engine 0.
Proof.
  destruct (issue_and_encode_tx 32 0 0 (Confirmable, 2, 7) TxBlock1 None (next OutgoingBlock1 0) ex_block_engine) as [en' r] eqn:Er.
  assert (r = Err Overflow) as -> by (apply (f_equal snd) in Er; cbn [snd] in Er; rewrite <- Er; reflexivity).
  exists en'. split; [reflexivity|].
  destruct (issue_encode_atomic 32 (next OutgoingBlock1 0) ex_block_engine en' (AllocBodyPool_new 1 64 Token) ex_out_pool 0 0
    (Confirmable, 2, 7) TxBlock1 None ex_out_body ex_out_transfer Overflow) as (q & _ & _ & Ht & _).
  - reflexivity.
  - exact ex_out_sound.
  - constructor.
  - exact Er.
  - apply Ht.
Defined.
End witness.
