(* ===== verification/AsciiText.v ===== *)
(** * Text as bytes

    A [&str] is the list of its UTF-8 bytes.  The text formats of the library
    only look for ASCII characters, which no byte of a multi-byte character can
    be mistaken for, so that scanning bytes and scanning characters agree.
    Here are the string operations of the standard library that [src/uri.rs] and
    [src/link_format.rs] use, and decimal numbers. *)
From Stdlib Require Import String Ascii.
From S2P Require Import Prelude Errors.

(** A literal of the source. *)
Definition lit (s : string) : list Z := map (fun c => Z.of_N (N_of_ascii c)) (list_ascii_of_string s).
Arguments lit s%_string.

(** ** Character classes of [u8] *)
Definition between (lo hi b : Z) : bool := (lo <=? b) && (b <=? hi).
Definition is_ascii (b : Z) : bool := b <=? 127.
Definition is_ascii_digit (b : Z) : bool := between 48 57 b.
Definition is_ascii_lowercase (b : Z) : bool := between 97 122 b.
Definition is_ascii_uppercase (b : Z) : bool := between 65 90 b.
Definition is_ascii_alphabetic (b : Z) : bool := is_ascii_lowercase b || is_ascii_uppercase b.
Definition is_ascii_alphanumeric (b : Z) : bool := is_ascii_alphabetic b || is_ascii_digit b.
Definition is_ascii_hexdigit (b : Z) : bool := is_ascii_digit b || between 97 102 b || between 65 70 b.
Definition is_ascii_control (b : Z) : bool := between 0 31 b || (b =? 127).
Definition to_ascii_lowercase (b : Z) : Z := if is_ascii_uppercase b then b + 32 else b.
Definition one_of (set : list Z) (b : Z) : bool := existsb (Z.eqb b) set.

(** ** Slices of text *)
Definition eq_ignore_ascii_case (a b : list Z) : bool := eqb (map to_ascii_lowercase a) (map to_ascii_lowercase b).

Fixpoint strip_prefix (p s : list Z) : option (list Z) :=
  match p, s with
  | [], _ => Some s
  | c :: p, b :: s => if b =? c then strip_prefix p s else None
  | _ :: _, [] => None
  end.

(** [split_once] at a character and at a string. *)
Fixpoint split_once (c : Z) (s : list Z) : option (list Z * list Z) :=
  match s with
  | [] => None
  | b :: s => if b =? c then Some ([], s) else '(a, r) ← split_once c s; mret (b :: a, r)
  end.
Fixpoint split_once_str (p s : list Z) : option (list Z * list Z) :=
  match strip_prefix p s with
  | Some r => Some ([], r)
  | None => match s with [] => None | b :: s => '(a, r) ← split_once_str p s; mret (b :: a, r) end
  end.

(** [split(c)]: one piece more than there are separators. *)
Fixpoint split (c : Z) (s : list Z) : list (list Z) :=
  match s with
  | [] => [[]]
  | b :: s =>
      if b =? c then [] :: split c s
      else match split c s with w :: ws => (b :: w) :: ws | [] => [[b]] end
  end.

(** [bytes().take_while(p).count()]. *)
Fixpoint count_while (p : Z → bool) (s : list Z) : nat :=
  match s with b :: s => if p b then S (count_while p s) else O | [] => O end.

(** ** Decimal numbers *)
Fixpoint digits_value (w acc : Z) (s : list Z) : option Z :=
  match s with
  | [] => Some acc
  | b :: s =>
      if is_ascii_digit b then acc ← checked_mul w acc 10; acc ← checked_add w acc (b - 48); digits_value w acc s
      else None
  end.
(** [str::parse] to a [w]-bit unsigned integer: one leading plus is allowed. *)
Definition parse_uint (w : Z) (s : list Z) : option Z :=
  match s with
  | [] => None
  | b :: r => if b =? 43 then match r with [] => None | _ => digits_value w 0 r end else digits_value w 0 s
  end.

(** [{}] of an unsigned integer; [n] digits are enough for those below [10^n]. *)
Fixpoint dec_digits (n : nat) (x : Z) : list Z :=
  match n with
  | O => []
  | S n => (if x <? 10 then [] else dec_digits n (x / 10)) ++ [48 + x mod 10]
  end.
Definition print_dec (x : Z) : list Z := dec_digits 20 x.

(** ** Lemmas *)
Lemma strip_prefix_Some p s r : strip_prefix p s = Some r ↔ s = p ++ r.
Proof.
  revert s. induction p as [|c p IH]; intros s; simpl; [naive_solver|]. destruct s as [|b s]; [naive_solver|].
  destruct (Z.eqb_spec b c); [rewrite IH|]; naive_solver.
Qed.

Lemma split_once_Some c s a r : split_once c s = Some (a, r) ↔ s = a ++ c :: r ∧ c ∉ a.
Proof.
  revert a. induction s as [|b s IH]; intros a; simpl; [split; [done|by destruct a; intros [? ?]]|].
  destruct (Z.eqb_spec b c) as [->|Hb].
  - split; [intros [= <- <-]; split; [done|apply not_elem_of_nil]|].
    intros [Hs Hn]. destruct a as [|x a]; [by simplify_eq/=|]. simplify_eq/=. by destruct Hn; left.
  - split.
    + destruct (split_once c s) as [[a' r']|]; [|done]. intros [= <- <-]. destruct (proj1 (IH a') eq_refl) as [-> Hn].
      split; [done|]. rewrite elem_of_cons. naive_solver.
    + intros [Hs Hn]. destruct a as [|x a]; simplify_eq/=. rewrite elem_of_cons in Hn.
      by rewrite (proj2 (IH a)) by naive_solver.
Qed.
Lemma split_once_None c s : split_once c s = None ↔ c ∉ s.
Proof.
  induction s as [|b s IH]; simpl; [split; [intros _; apply not_elem_of_nil|done]|]. rewrite elem_of_cons.
  destruct (Z.eqb_spec b c); [naive_solver|]. destruct (split_once c s) as [[]|]; naive_solver.
Qed.

Lemma count_while_le p s : (count_while p s ≤ List.length s)%nat.
Proof. induction s as [|b s IH]; simpl; [done|]. destruct (p b); lia. Qed.
Lemma count_while_app p a s : forallb p a = true → count_while p (a ++ s) = (List.length a + count_while p s)%nat.
Proof. induction a as [|b a IH]; simpl; [done|]. intros [-> Ha]%andb_true_iff. by rewrite IH. Qed.
Lemma count_while_take p s : forallb p (take (count_while p s) s) = true.
Proof. induction s as [|b s IH]; simpl; [done|]. destruct (p b) eqn:Eb; simpl; [by rewrite Eb|done]. Qed.

(** Joining with a separator undoes [split]. *)
Fixpoint join (c : Z) (ws : list (list Z)) : list Z :=
  match ws with
  | [] => []
  | [w] => w
  | w :: ws => w ++ c :: join c ws
  end.
Lemma join_cons c w ws : ws ≠ [] → join c (w :: ws) = w ++ c :: join c ws.
Proof. by destruct ws. Qed.
Lemma split_nonempty c s : split c s ≠ [].
Proof. destruct s as [|b s]; [done|]. simpl. destruct (b =? c); [done|]. by destruct (split c s). Qed.
Lemma join_split c s : join c (split c s) = s.
Proof.
  induction s as [|b s IH]; [done|]. simpl. destruct (Z.eqb_spec b c) as [->|Hb].
  - rewrite join_cons by apply split_nonempty. by rewrite IH.
  - destruct (split c s) as [|w ws] eqn:Es; [by destruct (split_nonempty c s)|]. rewrite <- IH. by destruct ws.
Qed.
Lemma split_app c w s : c ∉ w → split c (w ++ c :: s) = w :: split c s.
Proof.
  intros Hw. induction w as [|b w IH]; simpl; [by rewrite Z.eqb_refl|]. rewrite elem_of_cons in Hw.
  destruct (Z.eqb_spec b c); [naive_solver|]. by rewrite IH by naive_solver.
Qed.
Lemma split_word c w : c ∉ w → split c w = [w].
Proof.
  intros Hw. induction w as [|b w IH]; simpl; [done|]. rewrite elem_of_cons in Hw.
  destruct (Z.eqb_spec b c); [naive_solver|]. by rewrite IH by naive_solver.
Qed.
Lemma split_join c ws : ws ≠ [] → Forall (fun w => c ∉ w) ws → split c (join c ws) = ws.
Proof.
  intros Hne Hf. induction Hf as [|w ws Hw Hf IH]; [done|]. destruct ws as [|w' ws]; [by apply split_word|].
  rewrite join_cons by done. rewrite split_app by done. by rewrite IH.
Qed.
Lemma split_pieces c s : Forall (fun w => c ∉ w) (split c s).
Proof.
  induction s as [|b s IH]; simpl; [constructor; [apply not_elem_of_nil|constructor]|].
  destruct (Z.eqb_spec b c); [constructor; [apply not_elem_of_nil|done]|].
  destruct (split c s) as [|w ws]; [repeat constructor; rewrite elem_of_cons, elem_of_nil; naive_solver|].
  apply Forall_cons in IH as [Hw Hws]. constructor; [rewrite elem_of_cons; naive_solver|done].
Qed.

Lemma forallb_elem {A} (p : A → bool) l x : forallb p l = true → x ∈ l → p x = true.
Proof. intros Hf Hx. rewrite forallb_forall in Hf. by apply Hf, list_elem_of_In. Qed.

(** *** Decimal *)
Lemma dec_digits_ok n x : 0 ≤ x < 10 ^ Z.of_nat n → forallb is_ascii_digit (dec_digits n x) = true.
Proof.
  revert x. induction n as [|n IH]; intros x Hx; simpl; [done|]. rewrite forallb_app. simpl.
  pose proof (Z.mod_pos_bound x 10 ltac:(lia)). apply andb_true_iff. split.
  - destruct (Z.ltb_spec x 10); [done|]. apply IH. rewrite Nat2Z.inj_succ, Z.pow_succ_r in Hx by lia. div_lia.
  - unfold is_ascii_digit, between. rewrite andb_true_r. apply andb_true_iff. rewrite !Z.leb_le. lia.
Qed.
Lemma digits_value_app w a s r : digits_value w a (s ++ r) = (b ← digits_value w a s; digits_value w b r).
Proof.
  revert a. induction s as [|b s IH]; intros a; simpl; [done|]. destruct (is_ascii_digit b); [|done].
  destruct (checked_mul w a 10) as [a1|]; [|done]. simpl. destruct (checked_add w a1 (b - 48)) as [a2|]; [|done]. simpl. apply IH.
Qed.
Lemma digits_value_dec w n x : 0 ≤ x < 10 ^ Z.of_nat n → x ≤ max_u w → digits_value w 0 (dec_digits n x) = Some x.
Proof.
  revert x. induction n as [|n IH]; intros x Hx Hw; simpl; [f_equal; simpl in Hx; lia|].
  rewrite digits_value_app. pose proof (Z.mod_pos_bound x 10 ltac:(lia)) as Hm.
  assert (∀ q, q * 10 + x mod 10 = x → 0 ≤ q → digits_value w q [48 + x mod 10] = Some x) as Hlast.
  { intros q Hq Hq0. simpl. unfold is_ascii_digit, between. rewrite (proj2 (Z.leb_le _ _)), (proj2 (Z.leb_le _ _)) by lia. cbn [andb].
    unfold checked_mul. rewrite (proj2 (Z.leb_le _ _)) by lia. simpl. unfold checked_add. rewrite (proj2 (Z.leb_le _ _)) by lia.
    simpl. f_equal. lia. }
  destruct (Z.ltb_spec x 10).
  - change (digits_value w 0 [48 + x mod 10] = Some x). apply Hlast; [div_lia|lia].
  - rewrite Nat2Z.inj_succ, Z.pow_succ_r in Hx by lia. rewrite IH by div_lia. cbn [mbind option_bind]. apply Hlast; div_lia.
Qed.
Lemma dec_digits_head n x : 0 ≤ x < 10 ^ Z.of_nat (S n) →
  ∃ b r, dec_digits (S n) x = b :: r ∧ is_ascii_digit b = true ∧ (x ≠ 0 → b ≠ 48) ∧ (x < 10 → r = []).
Proof.
  revert x. induction n as [|n IH]; intros x Hx.
  - change (10 ^ Z.of_nat 1) with 10 in Hx. simpl. rewrite (proj2 (Z.ltb_lt _ _)) by lia.
    eexists _, _. split; [done|]. unfold is_ascii_digit, between. split; [apply andb_true_iff; rewrite !Z.leb_le; div_lia|]. split; [div_lia|done].
  - remember (S n) as m eqn:Em. simpl. destruct (Z.ltb_spec x 10) as [Hs|Hs].
    + eexists _, _. split; [done|]. unfold is_ascii_digit, between. split; [apply andb_true_iff; rewrite !Z.leb_le; div_lia|]. split; [div_lia|done].
    + rewrite Nat2Z.inj_succ, Z.pow_succ_r in Hx by lia.
      destruct (IH (x / 10) ltac:(div_lia)) as (b & r & -> & Hb & H0 & _). eexists b, _. split; [done|].
      split_and!; [done| |lia]. intros _. apply H0. div_lia.
Qed.
Lemma parse_print_dec w x : 0 ≤ x < 2 ^ 64 → x ≤ max_u w → parse_uint w (print_dec x) = Some x.
Proof.
  intros Hx Hw. assert (10 ^ Z.of_nat 20 = 10 ^ 20) as H20 by done. assert (2 ^ 64 < 10 ^ 20) as Hp by done.
  destruct (dec_digits_head 19 x ltac:(lia)) as (b & r & Hb & Hd & _).
  assert (b ≠ 43) by (intros ->; done).
  unfold print_dec, parse_uint. rewrite Hb. rewrite (proj2 (Z.eqb_neq b 43)) by done. rewrite <- Hb.
  apply digits_value_dec; [lia|done].
Qed.
Lemma digits_value_bound w acc s x : 0 ≤ acc ≤ max_u w → digits_value w acc s = Some x → 0 ≤ x ≤ max_u w.
Proof.
  revert acc. induction s as [|b s IH]; intros acc Ha; simpl; [intros [= <-]; done|]. destruct (is_ascii_digit b) eqn:Ed; [|done].
  unfold is_ascii_digit, between in Ed. bools. unfold checked_mul. destruct (Z.leb_spec (acc * 10) (max_u w)); [|done]. simpl.
  unfold checked_add. destruct (Z.leb_spec (acc * 10 + (b - 48)) (max_u w)); [|done]. simpl. apply IH. lia.
Qed.
Lemma parse_uint_bound w s x : 0 ≤ max_u w → parse_uint w s = Some x → 0 ≤ x ≤ max_u w.
Proof.
  intros Hw. unfold parse_uint. destruct s as [|b r]; [done|]. destruct (b =? 43); [destruct r; [done|]|]; apply digits_value_bound; lia.
Qed.
