(* ===== verification/LinkFormat.v ===== *)
(** * CoRE link format

    [src/link_format.rs]: the streaming parser of RFC 6690 documents, the readers
    of one link, and the bounded writer.  Text is the list of its bytes
    ([AsciiText]).  The parser's loops run on one unit of fuel per byte of
    their input. *)
From Stdlib Require Import String.
From S2P Require Import Prelude Errors MsgTypes Options Encode Decode OptionValues MessageOptions AsciiText.

Inductive LinkError : Type := LSyntax | LDuplicateAttribute | LReservedAttribute | LOutputTooSmall.

Record Text : Type := mkText { te_raw : list Z; te_escaped : bool }.

(** [Text::chars], as bytes: a backslash of a quoted value takes the next
    character as it is. *)
Fixpoint unescape (s : list Z) : list Z :=
  match s with
  | [] => []
  | b :: s => if b =? 92 then match s with c :: s => c :: unescape s | [] => [] end else b :: unescape s
  end.
Definition Text_chars (t : Text) : list Z := if te_escaped t then unescape (te_raw t) else te_raw t.

Definition Text_copy_into (t : Text) : st (list Z) LinkError nat :=
  let len := length (Text_chars t) in
  output ← st_get;
  if (length output <? len)%nat then st_fail LOutputTooSmall
  else st_upd (copy_into 0 len (Text_chars t));; mret len.

Record Attribute : Type := mkAttr { at_name : list Z; at_value : option Text }.
Inductive SizeEstimate : Type := Bytes (n : Z) | Larger.
Record Link : Type := mkLink { li_target : list Z; li_attributes : list Z }.

(** ** Characters *)
Definition name_char (b : Z) : bool := is_ascii_alphanumeric b || one_of (lit "!#$&+-.^_`|~") b.
Definition token_char (b : Z) : bool := is_ascii_alphanumeric b || one_of (lit "!#$%&'()*+-./:<=>?@[]^_`{|}~") b.
Definition uri_char (b : Z) : bool := is_ascii_alphanumeric b || one_of (lit "-._~:/?#[]@!$&'()*+,;=") b.

Fixpoint uri_chars (s : list Z) : bool :=
  match s with
  | [] => true
  | b :: s =>
      if b =? 37 then
        match s with
        | h :: l :: s => is_ascii_hexdigit h && is_ascii_hexdigit l && uri_chars s
        | _ => false
        end
      else uri_char b && uri_chars s
  end.

(** ** Values *)
Definition words (s : list Z) : list (list Z) := List.filter (fun w => negb (is_nil w)) (split 32 s).
Definition starts_with (c : Z) (s : list Z) : bool := match s with b :: _ => b =? c | [] => false end.
Definition ends_with (c : Z) (s : list Z) : bool := match last s with Some b => b =? c | None => false end.
Definition list_value (s : list Z) : bool := negb (is_nil s) && negb (starts_with 32 s) && negb (ends_with 32 s).
Definition cardinal (s : list Z) : bool :=
  negb (is_nil s) && (eqb s (lit "0") || negb (starts_with 48 s)) && forallb is_ascii_digit s.

(** One relation type: a registered name or an absolute URI.  [words] only
    gives words that are not empty, so that indexing the first byte succeeds. *)
Definition registered {E} (word : list Z) : res E bool :=
  b ← idx word 0;
  mret (is_ascii_lowercase b
        && forallb (fun b => is_ascii_lowercase b || is_ascii_digit b || (b =? 46) || (b =? 45)) word).
Definition absolute {E} (word : list Z) : res E bool :=
  match split_once 58 word with
  | None => mret false
  | Some (scheme, _) =>
      if is_nil scheme then mret false
      else
        b ← idx scheme 0;
        mret (is_ascii_alphabetic b
              && forallb (fun b => is_ascii_alphanumeric b || (b =? 43) || (b =? 45) || (b =? 46)) scheme
              && uri_chars word)
  end.
Fixpoint all_relations {E} (ws : list (list Z)) : res E bool :=
  match ws with
  | [] => mret true
  | w :: ws => r ← registered w; a ← absolute w; if (r || a : bool) then all_relations ws else mret false
  end.
Definition relation_types {E} (s : list Z) : res E bool :=
  if list_value s then all_relations (words s) else mret false.

Definition core_names : list (list Z) := [lit "rt"; lit "if"; lit "ct"; lit "sz"; lit "obs"; lit "href"].
Definition core_name (name : list Z) : option (list Z) := List.find (eq_ignore_ascii_case name) core_names.

(** ** Parsing *)
(** The index of the closing quote. *)
Fixpoint quoted_end (s : list Z) : res LinkError nat :=
  match s with
  | [] => Err LSyntax
  | b :: s =>
      if b =? 34 then Ok 0%nat
      else if b =? 92 then
        match s with
        | [] => Err LSyntax
        | c :: s => if negb (is_ascii c) || (c =? 13) || (c =? 10) then Err LSyntax else n ← quoted_end s; mret (2 + n)%nat
        end
      else if is_ascii_control b && negb (b =? 9) then Err LSyntax
      else n ← quoted_end s; mret (1 + n)%nat
  end.

Definition strip_suffix_star (name : list Z) : list Z := if ends_with 42 name then take (length name - 1) name else name.

Definition attribute (input : list Z) : res LinkError (Attribute * list Z) :=
  let stop := count_while (fun b => name_char b || (b =? 42)) input in
  if (stop =? 0)%nat then Err LSyntax
  else
    let name := take stop input in
    let extended := ends_with 42 name in
    let base := strip_suffix_star name in
    if is_nil base || negb (forallb name_char base) then Err LSyntax
    else
      match strip_prefix (lit "=") (drop stop input) with
      | None => if extended then Err LSyntax else mret (mkAttr name None, drop stop input)
      | Some rest =>
          match strip_prefix [34] rest with
          | Some body =>
              if extended then Err LSyntax
              else
                stop ← quoted_end body;
                mret (mkAttr name (Some (mkText (take stop body) true)), drop (stop + 1) body)
          | None =>
              let stop := count_while token_char rest in
              if (stop =? 0)%nat then Err LSyntax
              else mret (mkAttr name (Some (mkText (take stop rest) false)), drop stop rest)
          end
      end.

Definition name_bit (name : list Z) : Z :=
  if eqb name (lit "rt") then 1 else if eqb name (lit "if") then 2 else if eqb name (lit "sz") then 4 else 0.

(** [attr.value.is_some_and(f)]. *)
Definition value_and {E} (attr : Attribute) (f : Text → res E bool) : res E bool :=
  match at_value attr with None => mret false | Some v => f v end.

Definition validate_attribute (attr : Attribute) (seen : Z) : res LinkError Z :=
  let name := match core_name (at_name attr) with Some n => n | None => at_name attr end in
  if eqb name (lit "href") then Err LReservedAttribute
  else
    let bit := name_bit name in
    if negb (Z.land seen bit =? 0) then Err LDuplicateAttribute
    else
      valid ←
        (if eqb name (lit "rt") || eqb name (lit "if") then value_and attr (fun v => relation_types (te_raw v))
         else if eqb name (lit "sz") then value_and attr (fun v => mret (negb (te_escaped v) && cardinal (te_raw v)))
         else if eqb name (lit "ct") then
           value_and attr (fun v =>
             mret (list_value (te_raw v)
                   && forallb (fun w => cardinal w && is_some (parse_uint 16 w)) (words (te_raw v))))
         else mret true);
      if (valid : bool) then mret (Z.lor seen bit) else Err LSyntax.

Fixpoint attrs_loop (fuel : nat) (seen : Z) (rest : list Z) : res LinkError (list Z) :=
  match strip_prefix (lit ";") rest with
  | None => mret rest
  | Some next =>
      match fuel with
      | O => Diverge
      | S fuel =>
          '(attr, next) ← attribute next;
          seen ← validate_attribute attr seen;
          attrs_loop fuel seen next
      end
  end.

Definition parse_link (input : list Z) : res LinkError (Link * list Z) :=
  input ← ok_or (strip_prefix (lit "<") input) LSyntax;
  '(target, attrs) ← ok_or (split_once 62 input) LSyntax;
  if negb (uri_chars target) then Err LSyntax
  else
    rest ← attrs_loop (length attrs) 0 attrs;
    let attributes := take (length attrs - length rest) attrs in
    if is_nil rest then mret (mkLink target attributes, rest)
    else
      rest ← ok_or (strip_prefix (lit ",") rest) LSyntax;
      if is_nil rest then Err LSyntax else mret (mkLink target attributes, rest).

(** The [Links] iterator: the state is the rest of the input, empty after an error. *)
Definition Links_next (rest : list Z) : list Z * option (res LinkError Link) :=
  if is_nil rest then (rest, None)
  else
    match parse_link rest with
    | Ok (link, rest) => (rest, Some (Ok link))
    | Err e => ([], Some (Err e))
    | Panic => ([], Some Panic)
    | Diverge => ([], Some Diverge)
    end.
Fixpoint Links_collect (fuel : nat) (rest : list Z) : list (res LinkError Link) :=
  match Links_next rest with
  | (_, None) => []
  | (rest, Some r) => match fuel with O => [Diverge] | S fuel => r :: Links_collect fuel rest end
  end.
Definition parse (input : list Z) : list (res LinkError Link) := Links_collect (length input) input.

(** ** Reading one link *)
Fixpoint attributes_loop {E} (fuel : nat) (rest : list Z) : res E (list Attribute) :=
  if is_nil rest then mret []
  else
    match fuel with
    | O => Diverge
    | S fuel =>
        rest ← slice_idx rest 1 (length rest);
        match attribute rest with
        | Ok (a, next) => l ← attributes_loop fuel next; mret (a :: l)
        | Err _ => mret []
        | Panic => Panic
        | Diverge => Diverge
        end
    end.
Definition attributes {E} (l : Link) : res E (list Attribute) := attributes_loop (length (li_attributes l)) (li_attributes l).

Definition value {E} (l : Link) (name : list Z) : res E (option Text) :=
  attrs ← attributes l;
  mret (a ← List.find (fun a => eq_ignore_ascii_case (at_name a) name) attrs; at_value a).
Definition value_words {E} (l : Link) (name : list Z) : res E (list (list Z)) :=
  v ← value l name; mret (match v with Some v => words (te_raw v) | None => [] end).
Definition resource_types {E} (l : Link) : res E (list (list Z)) := value_words l (lit "rt").
Definition interfaces {E} (l : Link) : res E (list (list Z)) := value_words l (lit "if").
Definition content_formats {E} (l : Link) : res E (list Z) :=
  attrs ← attributes l;
  mret (omap (parse_uint 16) (concat (map (fun v => words (te_raw v))
    (omap at_value (List.filter (fun a => eq_ignore_ascii_case (at_name a) (lit "ct")) attrs))))).
Definition size_estimate {E} (l : Link) : res E (option SizeEstimate) :=
  v ← value l (lit "sz");
  mret (option_map (fun v => match parse_uint 64 (te_raw v) with Some n => Bytes n | None => Larger end) v).
Definition observable {E} (l : Link) : res E bool :=
  attrs ← attributes l; mret (existsb (fun a => eq_ignore_ascii_case (at_name a) (lit "obs")) attrs).

(** ** Writing *)
Record Extension : Type := mkExt { ex_name : list Z; ex_value : option (list Z) }.
Record Metadata : Type := mkMeta {
  md_resource_types : option (list Z);
  md_interfaces : option (list Z);
  md_content_formats : list Z;
  md_size_estimate : option Z;
  md_observable : bool;
  md_extensions : list Extension
}.

(** [Output]: the bytes, if any, and how many were written. *)
Record Output : Type := mkOutput { ou_bytes : option (list Z); ou_len : nat }.

Section write.
Context `{Target}.

(** [fmt::Error] carries nothing. *)
Definition fmt (A : Type) : Type := st Output unit A.
Definition write_str (s : list Z) : fmt unit :=
  o ← st_get;
  stop ← st_lift (ok_or (usize_checked_add (ou_len o) (length s)) tt);
  match ou_bytes o with
  | None => st_put (mkOutput None stop)
  | Some bytes =>
      if (stop <=? length bytes)%nat
      then bytes ← st_lift (copy_into (ou_len o) stop s bytes); st_put (mkOutput (Some bytes) stop)
      else st_fail tt
  end.
Definition write_char (c : Z) : fmt unit := write_str [c].

Fixpoint write_escaped (s : list Z) : fmt unit :=
  match s with
  | [] => mret tt
  | c :: s =>
      (if (c =? 34) || (c =? 92) then write_char 92 else mret tt);;
      write_char c;;
      write_escaped s
  end.
Definition quoted (s : list Z) : fmt unit := write_char 34;; write_escaped s;; write_char 34.

Definition write_named (name : list Z) (v : option (list Z)) : fmt unit :=
  match v with
  | None => mret tt
  | Some v => write_str (lit ";");; write_str name;; write_str (lit "=");; quoted v
  end.
Fixpoint write_formats (first : bool) (l : list Z) : fmt unit :=
  match l with
  | [] => mret tt
  | v :: l => (if first then mret tt else write_char 32);; write_str (print_dec v);; write_formats false l
  end.
Fixpoint write_extensions (l : list Extension) : fmt unit :=
  match l with
  | [] => mret tt
  | e :: l =>
      write_str (lit ";");; write_str (ex_name e);;
      (match ex_value e with None => mret tt | Some v => write_char 61;; quoted v end);;
      write_extensions l
  end.
Definition Metadata_write (m : Metadata) : fmt unit :=
  write_named (lit "rt") (md_resource_types m);;
  write_named (lit "if") (md_interfaces m);;
  (if is_nil (md_content_formats m) then mret tt
   else write_str (lit ";ct=" ++ [34]);; write_formats true (md_content_formats m);; write_char 34);;
  (match md_size_estimate m with None => mret tt | Some v => write_str (lit ";sz=");; write_str (print_dec v) end);;
  (if md_observable m then write_str (lit ";obs") else mret tt);;
  write_extensions (md_extensions m).

Fixpoint validate_extensions (l : list Extension) : res LinkError unit :=
  match l with
  | [] => mret tt
  | e :: l =>
      if is_some (core_name (ex_name e)) then Err LReservedAttribute
      else if is_nil (ex_name e) || negb (forallb name_char (ex_name e)) || existsb (Z.eqb 42) (ex_name e)
              || match ex_value e with
                 | Some s => existsb (fun c => is_ascii_control c && negb (c =? 9)) s
                 | None => false
                 end
      then Err LSyntax
      else validate_extensions l
  end.
Definition valid_relation (v : option (list Z)) : res LinkError unit :=
  match v with None => mret tt | Some v => b ← relation_types v; if (b : bool) then mret tt else Err LSyntax end.
Definition Metadata_validate (m : Metadata) : res LinkError unit :=
  valid_relation (md_resource_types m);;
  valid_relation (md_interfaces m);;
  validate_extensions (md_extensions m).

Definition Metadata_encoded_len (m : Metadata) : res LinkError nat :=
  Metadata_validate m;;
  let '(w, r) := Metadata_write m (mkOutput None 0) in
  map_err (fun _ => LOutputTooSmall) r;;
  mret (ou_len w).

(** Run a writer over the caller's buffer. *)
Definition write_over (w : fmt unit) : st (list Z) LinkError unit := fun output =>
  let '(o, r) := w (mkOutput (Some output) 0) in
  (match ou_bytes o with Some bytes => bytes | None => output end, map_err (fun _ => LOutputTooSmall) r).

Definition Metadata_write_into (m : Metadata) : st (list Z) LinkError nat :=
  len ← st_lift (Metadata_encoded_len m);
  output ← st_get;
  if (length output <? len)%nat then st_fail LOutputTooSmall
  else write_over (Metadata_write m);; mret len.

Definition write_link (target : list Z) (m : Metadata) : st (list Z) LinkError nat :=
  if negb (uri_chars target) then st_fail LSyntax
  else
    len ← st_lift (Metadata_encoded_len m);
    len ← st_lift (ok_or (n ← usize_checked_add len (length target); usize_checked_add n 2) LOutputTooSmall);
    output ← st_get;
    if (length output <? len)%nat then st_fail LOutputTooSmall
    else
      write_over (write_str (lit "<");; write_str target;; write_str (lit ">");; Metadata_write m);;
      mret len.
End write.

(** * Laws of the link format

    The grammar of [LinkFormat]'s parser ([attr_wire], [link_wire]), that the
    parser accepts exactly the documents of the grammar and reads back all of
    their attributes, that the writer writes a fixed rendering or nothing, and
    that what is written is read back. *)
(** ** Spelling *)
Definition value_wire (t : Text) : list Z := if te_escaped t then 34 :: te_raw t ++ [34] else te_raw t.
Definition attr_body (a : Attribute) : list Z :=
  at_name a ++ match at_value a with None => [] | Some t => 61 :: value_wire t end.
Definition attr_wire (a : Attribute) : list Z := 59 :: attr_body a.

(** A name, with at most one star, at its end. *)
Definition name_ok (name : list Z) : Prop :=
  ∃ base star, name = base ++ star ∧ base ≠ [] ∧ forallb name_char base = true ∧ (star = [] ∨ star = [42]).
(** A quoted text has one way to end; a token is not empty. *)
Definition text_ok (t : Text) : Prop :=
  if te_escaped t then quoted_end (te_raw t ++ [34]) = Ok (length (te_raw t))
  else te_raw t ≠ [] ∧ forallb token_char (te_raw t) = true.
Definition attr_ok (a : Attribute) : Prop :=
  name_ok (at_name a) ∧
  match at_value a with
  | None => ends_with 42 (at_name a) = false
  | Some t => text_ok t ∧ (te_escaped t = true → ends_with 42 (at_name a) = false)
  end.

(** What may follow an attribute. *)
Definition boundary (rest : list Z) : Prop :=
  match rest with [] => True | b :: _ => b = 59 ∨ b = 44 end.

Lemma ends_with_snoc c s b : ends_with c (s ++ [b]) = (b =? c).
Proof. unfold ends_with. by rewrite last_snoc. Qed.
Lemma name_char_star b : name_char b = true → (b =? 42) = false.
Proof. intros Hb. apply Z.eqb_neq. intros ->. by vm_compute in Hb. Qed.
Lemma base_no_star base : forallb name_char base = true → ends_with 42 base = false.
Proof.
  intros Hb. destruct base as [|b base _] using rev_ind; [done|]. rewrite ends_with_snoc.
  rewrite forallb_app in Hb. apply andb_true_iff in Hb as [_ Hb]. simpl in Hb. rewrite andb_true_r in Hb. by apply name_char_star.
Qed.

Lemma strip_star base star :
  forallb name_char base = true → (star = [] ∨ star = [42]) →
  strip_suffix_star (base ++ star) = base ∧ ends_with 42 (base ++ star) = negb (is_nil star).
Proof.
  intros Hb [-> | ->]; unfold strip_suffix_star.
  - by rewrite app_nil_r, base_no_star.
  - rewrite ends_with_snoc. simpl. rewrite length_app. simpl. split; [|done].
    replace (length base + 1 - 1)%nat with (length base) by lia. apply take_app_length.
Qed.

Lemma star_last name base : name_ok name → strip_suffix_star name = base → ∃ star, name = base ++ star ∧ base ≠ [] ∧ forallb name_char base = true ∧ (star = [] ∨ star = [42]).
Proof. intros (base' & star & -> & Hne & Hb & Hs) Hst. rewrite (proj1 (strip_star base' star Hb Hs)) in Hst. subst. eauto. Qed.

(** Reading the closing quote does not depend on what follows it. *)
Lemma quoted_end_app s rest n : quoted_end s = Ok n → quoted_end (s ++ rest) = Ok n.
Proof.
  revert n. induction s as [s IH] using (induction_ltof1 _ length). unfold ltof in IH. intros n.
  destruct s as [|b s]; [done|]. simpl. destruct (b =? 34); [done|]. destruct (b =? 92).
  - destruct s as [|c s]; [done|]. simpl. destruct (negb (is_ascii c) || (c =? 13) || (c =? 10)); [done|].
    destruct (quoted_end s) as [m| | |] eqn:Es; unbind; try done. by rewrite (IH s) with (n:=m) by (simpl; lia || done).
  - destruct (is_ascii_control b && negb (b =? 9)); [done|].
    destruct (quoted_end s) as [m| | |] eqn:Es; unbind; try done. by rewrite (IH s) with (n:=m) by (simpl; lia || done).
Qed.
Lemma quoted_end_inv s n : quoted_end s = Ok n → ∃ r, s = take n s ++ 34 :: r ∧ (n < length s)%nat ∧ quoted_end (take n s ++ [34]) = Ok n.
Proof.
  revert n. induction s as [s IH] using (induction_ltof1 _ length). unfold ltof in IH. intros n.
  destruct s as [|b s]; [done|]. simpl. destruct (Z.eqb_spec b 34) as [->|Hq].
  { intros [= <-]. exists s. simpl. split_and!; [done|lia|done]. }
  destruct (b =? 92) eqn:Ebs.
  - destruct s as [|c s]; [done|]. destruct (negb (is_ascii c) || (c =? 13) || (c =? 10)) eqn:Ec; [done|].
    destruct (quoted_end s) as [m| | |] eqn:Es; unbind; try done. intros [= <-].
    destruct (IH s ltac:(simpl; lia) m Es) as (r & Hr & Hl & Hm). exists r. simpl. rewrite (proj2 (Z.eqb_neq _ _)), Ebs, Ec by done.
    rewrite Hm. unbind. split_and!; [by rewrite <- Hr|lia|done].
  - destruct (is_ascii_control b && negb (b =? 9)) eqn:Ec; [done|].
    destruct (quoted_end s) as [m| | |] eqn:Es; unbind; try done. intros [= <-].
    destruct (IH s ltac:(simpl; lia) m Es) as (r & Hr & Hl & Hm). exists r. simpl. rewrite (proj2 (Z.eqb_neq _ _)), Ebs, Ec by done.
    rewrite Hm. unbind. split_and!; [by rewrite <- Hr|lia|done].
Qed.
Lemma quoted_end_returns s : returns (quoted_end s).
Proof.
  induction s as [s IH] using (induction_ltof1 _ length). unfold ltof in IH. destruct s as [|b s]; [done|]. simpl.
  destruct (b =? 34); [done|]. destruct (b =? 92).
  - destruct s as [|c s]; [done|]. destruct (negb _ || _ || _); [done|]. specialize (IH s ltac:(simpl; lia)). unbind. by destruct (quoted_end s).
  - destruct (_ && _); [done|]. specialize (IH s ltac:(simpl; lia)). unbind. by destruct (quoted_end s).
Qed.

(** ** One attribute *)
Definition name_byte (b : Z) : bool := name_char b || (b =? 42).
Lemma name_bytes base star :
  forallb name_char base = true → (star = [] ∨ star = [42]) → forallb name_byte (base ++ star) = true.
Proof.
  intros Hb Hs. rewrite forallb_app. apply andb_true_iff. split; [|by destruct Hs as [-> | ->]].
  rewrite forallb_forall in *. intros x Hx. unfold name_byte. by rewrite Hb.
Qed.
Lemma boundary_stops rest : boundary rest → count_while name_byte rest = 0%nat ∧ count_while token_char rest = 0%nat ∧ strip_prefix (lit "=") rest = None.
Proof. destruct rest as [|b rest]; [done|]. by intros [-> | ->]. Qed.

Lemma attribute_wire a rest : attr_ok a → boundary rest → attribute (attr_body a ++ rest) = Ok (a, rest).
Proof.
  intros [(base & star & Hn & Hne & Hb & Hs) Hv] Hr. destruct (boundary_stops rest Hr) as (Hc & Ht & He).
  destruct a as [name v]. cbn [at_name at_value] in *. unfold attr_body. cbn [at_name at_value].
  rewrite <- app_assoc. set (tail := (match v with None => [] | Some t => 61 :: value_wire t end) ++ rest).
  assert (count_while name_byte tail = 0%nat) as Htail by (subst tail; by destruct v).
  destruct (strip_star base star Hb Hs) as [Hbase Hstar].
  unfold attribute. change (λ b : Z, name_char b || (b =? 42)) with name_byte.
  rewrite count_while_app by (subst name; by apply name_bytes). rewrite Htail, Nat.add_0_r.
  rewrite (proj2 (Nat.eqb_neq _ _)) by (subst name; rewrite length_app; destruct base; [done|simpl; lia]).
  rewrite take_app_length, drop_app_length.
  assert (strip_suffix_star name = base) as -> by (by subst). rewrite (proj2 (is_nil_false base) Hne), Hb. cbn [negb orb].
  subst tail. destruct v as [t|].
  - destruct Hv as [Htext Hnostar]. cbn [app]. change (strip_prefix (lit "=") (61 :: value_wire t ++ rest)) with (Some (value_wire t ++ rest)).
    cbn beta iota. destruct t as [raw esc]. unfold text_ok, value_wire in *. cbn [te_raw te_escaped] in *. destruct esc.
    + cbn [app]. change (strip_prefix [34] (34 :: (raw ++ [34]) ++ rest)) with (Some ((raw ++ [34]) ++ rest)). cbn beta iota.
      rewrite (Hnostar eq_refl). rewrite (quoted_end_app _ rest _ Htext). unbind. rewrite <- !app_assoc, take_app_length. cbn [app].
      by rewrite <- drop_drop, drop_app_length.
    + destruct Htext as [Hraw Htok]. destruct raw as [|b raw]; [done|].
      assert ((b =? 34) = false) as Hb34.
      { apply Z.eqb_neq. intros ->. simpl in Htok. by vm_compute in Htok. }
      assert (strip_prefix [34] ((b :: raw) ++ rest) = None) as -> by (cbn [app strip_prefix]; by rewrite Hb34). cbv zeta.
      rewrite (count_while_app token_char (b :: raw) rest Htok), Ht, Nat.add_0_r. by rewrite take_app_length, drop_app_length.
  - cbn [app]. rewrite He, Hv. done.
Qed.

Lemma base_star name :
  forallb name_byte name = true → is_nil (strip_suffix_star name) = false → forallb name_char (strip_suffix_star name) = true → name_ok name.
Proof.
  intros Hb Hn Hc. unfold strip_suffix_star in *. destruct (ends_with 42 name) eqn:Es.
  - destruct name as [|b name _] using rev_ind; [done|]. rewrite ends_with_snoc in Es. apply Z.eqb_eq in Es as ->.
    rewrite length_app in *. cbn [length] in *. replace (length name + 1 - 1)%nat with (length name) in * by lia.
    rewrite take_app_length in *. exists name, [42]. split_and!; [done|by apply is_nil_false|done|by right].
  - exists name, []. rewrite app_nil_r. split_and!; [done|by apply is_nil_false|done|by left].
Qed.

Lemma attribute_inv input a rest : attribute input = Ok (a, rest) → input = attr_body a ++ rest ∧ attr_ok a.
Proof.
  unfold attribute. change (λ b : Z, name_char b || (b =? 42)) with name_byte.
  pose proof (count_while_take name_byte input) as Hname. pose proof (take_drop (count_while name_byte input) input) as Hsplit.
  set (name := take (count_while name_byte input) input) in *. set (tail := drop (count_while name_byte input) input) in *.
  destruct (_ =? 0)%nat; [done|]. destruct (is_nil (strip_suffix_star name)) eqn:En; [done|].
  destruct (forallb name_char (strip_suffix_star name)) eqn:Ec; [|done]. cbn [negb orb].
  pose proof (base_star name Hname En Ec) as Hok.
  destruct (strip_prefix (lit "=") tail) as [r|] eqn:Ep.
  - apply strip_prefix_Some in Ep. destruct (strip_prefix [34] r) as [body|] eqn:Eq.
    + apply strip_prefix_Some in Eq. destruct (ends_with 42 name) eqn:Es; [done|].
      destruct (quoted_end body) as [n| | |] eqn:Ee; unbind; try done. intros [= <- <-].
      destruct (quoted_end_inv body n Ee) as (r' & Hbody & Hlt & Hraw).
      unfold attr_body, attr_ok, text_ok, value_wire. cbn [at_name at_value te_raw te_escaped].
      assert (drop (n + 1) body = r') as ->.
      { rewrite Hbody at 1. rewrite <- drop_drop. rewrite drop_app_length' by (rewrite length_take; lia). done. }
      rewrite length_take, Nat.min_l by lia. split_and!; [|done|done|done].
      rewrite <- Hsplit, Ep, Eq. rewrite Hbody at 1. rewrite <- !app_assoc. cbn [app]. rewrite <- !app_assoc. done.
    + destruct (Nat.eqb_spec (count_while token_char r) 0) as [|Hn0]; [done|]. intros [= <- <-].
      unfold attr_body, attr_ok, text_ok, value_wire. cbn [at_name at_value te_raw te_escaped]. split_and!; try done.
      * rewrite <- app_assoc. cbn [app]. rewrite take_drop. by rewrite <- Hsplit, Ep.
      * intros Ht. apply (f_equal length) in Ht. rewrite length_take in Ht. pose proof (count_while_le token_char r). simpl in Ht. lia.
      * apply count_while_take.
  - destruct (ends_with 42 name) eqn:Es; [done|]. intros [= <- <-]. unfold attr_body, attr_ok. cbn [at_name at_value].
    by rewrite app_nil_r.
Qed.

Lemma attribute_returns input : returns (attribute input).
Proof.
  unfold attribute. destruct (_ =? 0)%nat; [done|]. destruct (_ || _); [done|].
  destruct (strip_prefix (lit "=") _) as [r|]; [|by destruct (ends_with _ _)].
  destruct (strip_prefix [34] r) as [body|].
  - destruct (ends_with _ _); [done|]. pose proof (quoted_end_returns body). unbind. by destruct (quoted_end body).
  - by destruct (_ =? 0)%nat.
Qed.

(** ** All attributes of a link *)
Definition attrs_wire (l : list Attribute) : list Z := concat (map attr_wire l).
Fixpoint validate_all (l : list Attribute) (seen : Z) : res LinkError Z :=
  match l with [] => mret seen | a :: l => seen ← validate_attribute a seen; validate_all l seen end.

Lemma attrs_wire_cons a l : attrs_wire (a :: l) = 59 :: attr_body a ++ attrs_wire l.
Proof. done. Qed.
Lemma attrs_boundary l rest : boundary rest → boundary (attrs_wire l ++ rest).
Proof. by destruct l; [|left]. Qed.
Lemma attrs_wire_length l : (length l ≤ length (attrs_wire l))%nat.
Proof. induction l as [|a l IH]; [done|]. rewrite attrs_wire_cons. simpl. rewrite length_app. lia. Qed.

Lemma attrs_loop_wire l : ∀ fuel seen seen' rest,
  Forall attr_ok l → validate_all l seen = Ok seen' → boundary rest → strip_prefix (lit ";") rest = None → (length l ≤ fuel)%nat →
  attrs_loop fuel seen (attrs_wire l ++ rest) = Ok rest.
Proof.
  induction l as [|a l IH]; intros fuel seen seen' rest Hf Hv Hr Hs Hl.
  - cbn [attrs_wire map concat app]. destruct fuel; cbn [attrs_loop]; by rewrite Hs.
  - apply Forall_cons in Hf as [Ha Hf]. cbn [validate_all] in Hv. unbind. destruct (validate_attribute a seen) as [seen1| | |] eqn:Ev; try done.
    destruct fuel as [|fuel]; [simpl in Hl; lia|]. rewrite attrs_wire_cons. cbn [app].
    cbn [attrs_loop]. change (strip_prefix (lit ";") (59 :: (attr_body a ++ attrs_wire l) ++ rest)) with (Some ((attr_body a ++ attrs_wire l) ++ rest)).
    cbn beta iota. rewrite <- app_assoc. unbind. rewrite attribute_wire by (try done; by apply attrs_boundary). rewrite Ev.
    apply (IH fuel seen1 seen'); try done. simpl in Hl. lia.
Qed.

Lemma attrs_loop_inv fuel : ∀ seen input rest,
  attrs_loop fuel seen input = Ok rest →
  ∃ l seen', input = attrs_wire l ++ rest ∧ Forall attr_ok l ∧ validate_all l seen = Ok seen' ∧ strip_prefix (lit ";") rest = None.
Proof.
  induction fuel as [|fuel IH]; intros seen input rest; cbn [attrs_loop];
    destruct (strip_prefix (lit ";") input) as [next|] eqn:Es; try done; try (intros [= <-]; by exists [], seen).
  apply strip_prefix_Some in Es. unbind. destruct (attribute next) as [[a next']| | |] eqn:Ea; try done.
  destruct (validate_attribute a seen) as [seen1| | |] eqn:Ev; try done. intros Hl.
  destruct (attribute_inv _ _ _ Ea) as [-> Ha]. destruct (IH _ _ _ Hl) as (l & seen' & -> & Hf & Hva & Hst).
  exists (a :: l), seen'. split_and!; [|by constructor| |done].
  - rewrite Es, attrs_wire_cons. cbn [app]. by rewrite <- app_assoc.
  - cbn [validate_all]. unbind. by rewrite Ev.
Qed.

(** Reading the attributes again gives all of them. *)
Lemma attributes_wire {E} l : ∀ fuel, Forall attr_ok l → (length l ≤ fuel)%nat → attributes_loop (E:=E) fuel (attrs_wire l) = Ok l.
Proof.
  induction l as [|a l IH]; intros fuel Hf Hl.
  - by destruct fuel.
  - apply Forall_cons in Hf as [Ha Hf]. destruct fuel as [|fuel]; [simpl in Hl; lia|]. rewrite attrs_wire_cons. cbn [attributes_loop is_nil].
    unfold slice_idx, slice_get. cbn [length]. rewrite (proj2 (Nat.leb_le _ _)) by lia. rewrite Nat.leb_refl. cbn [andb].
    unbind. rewrite skipn_cons, skipn_O, take_ge by lia. rewrite attribute_wire; [|done|].
    + rewrite IH by (try done; simpl in Hl; lia). done.
    + rewrite <- (app_nil_r (attrs_wire l)). by apply attrs_boundary.
Qed.

(** ** Totality *)
Lemma words_nonempty s w : w ∈ words s → w ≠ [].
Proof. unfold words. rewrite list_elem_of_In, filter_In. intros [_ Hw] ->. done. Qed.
Lemma all_relations_total {E} ws : (∀ w, w ∈ ws → w ≠ []) → ∃ b, all_relations (E:=E) ws = Ok b.
Proof.
  induction ws as [|w ws IH]; intros Hw; [by exists true|]. cbn [all_relations].
  destruct w as [|c w]; [by destruct (Hw [] ltac:(left))|]. destruct IH as [b Hb]; [intros w' Hw'; apply Hw; by right|].
  unfold registered, absolute, idx. unbind. cbn [lookup list_lookup]. cbn beta iota.
  destruct (split_once 58 (c :: w)) as [[[|b1 scheme] r]|]; cbn [is_nil lookup list_lookup]; cbn beta iota;
    destruct (_ || _); eauto.
Qed.
Lemma relation_types_total {E} s : ∃ b, relation_types (E:=E) s = Ok b.
Proof. unfold relation_types. destruct (list_value s); [|by exists false]. apply all_relations_total. apply words_nonempty. Qed.
Lemma validate_attribute_returns a seen : returns (validate_attribute a seen).
Proof.
  unfold validate_attribute. destruct (eqb _ (lit "href")); [done|]. destruct (negb _); [done|]. unbind.
  set (name := match core_name (at_name a) with Some n => n | None => at_name a end).
  assert (∃ b, (if eqb name (lit "rt") || eqb name (lit "if") then value_and (E:=LinkError) a (fun v => relation_types (te_raw v))
         else if eqb name (lit "sz") then value_and a (fun v => Ok (negb (te_escaped v) && cardinal (te_raw v)))
         else if eqb name (lit "ct") then
           value_and a (fun v =>
             Ok (list_value (te_raw v)
                   && forallb (fun w => cardinal w && is_some (parse_uint 16 w)) (words (te_raw v))))
         else Ok true) = Ok b) as [b ->]; [|by destruct b].
  unfold value_and. destruct (_ || _); [destruct (at_value a); [apply relation_types_total|by eexists]|].
  destruct (eqb name (lit "sz")); [destruct (at_value a); by eexists|]. destruct (eqb name (lit "ct")); [destruct (at_value a); by eexists|by eexists].
Qed.
Lemma attrs_loop_returns fuel : ∀ seen rest, (length rest ≤ fuel)%nat → returns (attrs_loop fuel seen rest).
Proof.
  induction fuel as [|fuel IH]; intros seen rest Hl; cbn [attrs_loop];
    destruct (strip_prefix (lit ";") rest) as [next|] eqn:Es; try done;
    apply strip_prefix_Some in Es; subst rest; [simpl in Hl; lia|].
  unbind. pose proof (attribute_returns next) as Hr. destruct (attribute next) as [[a next']| | |] eqn:Ea; try done.
  pose proof (validate_attribute_returns a seen) as Hv. destruct (validate_attribute a seen) as [seen1| | |]; try done.
  destruct (attribute_inv _ _ _ Ea) as [-> Ha]. apply IH. rewrite !length_app in Hl. simpl in Hl. lia.
Qed.
Lemma parse_link_returns input : returns (parse_link input).
Proof.
  unfold parse_link. unbind. destruct (strip_prefix (lit "<") input) as [i|]; [|done]. cbn [ok_or]. cbn beta iota.
  destruct (split_once 62 i) as [[target attrs]|]; [|done]. cbn [ok_or]. cbn beta iota. destruct (negb _); [done|].
  pose proof (attrs_loop_returns (length attrs) 0 attrs ltac:(lia)) as Hr. destruct (attrs_loop _ _ _) as [rest| | |]; try done.
  destruct (is_nil rest); [done|]. destruct (strip_prefix (lit ",") rest) as [r|]; [|done]. cbn [ok_or]. cbn beta iota. by destruct (is_nil r).
Qed.

(** ** Links and documents *)
Definition entry : Type := list Z * list Attribute.
Definition entry_ok (c : entry) : Prop :=
  uri_chars c.1 = true ∧ Forall attr_ok c.2 ∧ ∃ seen, validate_all c.2 0 = Ok seen.
Definition entry_wire (c : entry) : list Z := 60 :: c.1 ++ 62 :: attrs_wire c.2.
Definition entry_link (c : entry) : Link := mkLink c.1 (attrs_wire c.2).

Lemma uri_chars_elem s b : uri_chars s = true → b ∈ s → b = 37 ∨ is_ascii_hexdigit b = true ∨ uri_char b = true.
Proof.
  induction s as [s IH] using (induction_ltof1 _ length). unfold ltof in IH. destruct s as [|c s]; [by rewrite elem_of_nil|].
  cbn [uri_chars]. destruct (Z.eqb_spec c 37) as [->|].
  - destruct s as [|h [|l s]]; [done..|]. intros [[Hh Hl]%andb_true_iff Hs]%andb_true_iff. rewrite !elem_of_cons.
    intros [->|[->|[->|Hin]]]; [by left|by right; left..|]. apply (IH s); [simpl; lia|done|done].
  - intros [Hc Hs]%andb_true_iff. rewrite elem_of_cons. intros [->|Hin]; [by right; right|]. apply (IH s); [simpl; lia|done|done].
Qed.
Lemma uri_chars_not s b : uri_chars s = true → b ≠ 37 → is_ascii_hexdigit b = false → uri_char b = false → b ∉ s.
Proof. intros Hs Hp Hh Hu Hin. destruct (uri_chars_elem s b Hs Hin) as [|[|]]; congruence. Qed.

Lemma parse_link_wire c rest next :
  entry_ok c → (rest = [] ∧ next = [] ∨ rest = 44 :: next ∧ next ≠ []) →
  parse_link (entry_wire c ++ rest) = Ok (entry_link c, next).
Proof.
  intros (Hu & Hf & seen & Hv) Hr. unfold parse_link, entry_wire. cbn [app].
  change (strip_prefix (lit "<") (60 :: ?s)) with (Some s). unbind. cbn [ok_or]. cbn beta iota.
  rewrite <- app_assoc. cbn [app].
  rewrite (proj2 (split_once_Some 62 _ c.1 (attrs_wire c.2 ++ rest))) by (split; [done|by apply uri_chars_not]).
  cbn [ok_or]. cbn beta iota. rewrite Hu. cbn [negb].
  assert (boundary rest ∧ strip_prefix (lit ";") rest = None) as [Hb Hs] by (destruct Hr as [[-> _]|[-> _]]; [done|by split; [right|]]).
  rewrite (attrs_loop_wire c.2 _ 0 seen rest) by (try done; rewrite length_app; pose proof (attrs_wire_length c.2); lia).
  rewrite length_app. replace (length (attrs_wire c.2) + length rest - length rest)%nat with (length (attrs_wire c.2)) by lia.
  rewrite take_app_length. destruct Hr as [[-> ->]|[-> Hn]]; [done|]. cbn [is_nil].
  assert (strip_prefix (lit ",") (44 :: next) = Some next) as -> by done. cbn [ok_or]. cbn beta iota. by destruct next.
Qed.

Lemma parse_link_inv input link next :
  parse_link input = Ok (link, next) →
  ∃ c, entry_ok c ∧ link = entry_link c ∧ (input = entry_wire c ∧ next = [] ∨ input = entry_wire c ++ 44 :: next ∧ next ≠ []).
Proof.
  unfold parse_link. unbind. destruct (strip_prefix (lit "<") input) as [i|] eqn:Ei; [|done]. cbn [ok_or]. cbn beta iota.
  apply strip_prefix_Some in Ei. destruct (split_once 62 i) as [[target attrs]|] eqn:Et; [|done]. cbn [ok_or]. cbn beta iota.
  apply split_once_Some in Et as [-> Hn]. destruct (uri_chars target) eqn:Eu; [|done]. cbn [negb].
  destruct (attrs_loop _ _ _) as [rest| | |] eqn:El; try done.
  destruct (attrs_loop_inv _ _ _ _ El) as (l & seen & -> & Hf & Hv & Hs).
  rewrite length_app. replace (length (attrs_wire l) + length rest - length rest)%nat with (length (attrs_wire l)) by lia.
  rewrite take_app_length. destruct (is_nil rest) eqn:En.
  - apply is_nil_true in En as ->. intros [= <- <-]. exists (target, l). split; [split_and!; eauto|]. split; [done|]. left.
    by rewrite Ei, app_nil_r.
  - destruct (strip_prefix (lit ",") rest) as [r|] eqn:Er; [|done]. apply strip_prefix_Some in Er. cbn [ok_or]. cbn beta iota.
    destruct (is_nil r) eqn:Enr; [done|]. intros [= <- <-]. exists (target, l). split; [split_and!; eauto|]. split; [done|]. right.
    split; [|by apply is_nil_false]. rewrite Ei, Er. unfold entry_wire. cbn [fst snd app]. by rewrite <- !app_assoc.
Qed.

Lemma entry_wire_length c : (2 ≤ length (entry_wire c))%nat.
Proof. unfold entry_wire. simpl. rewrite length_app. simpl. lia. Qed.

Lemma collect_wires cat : ∀ fuel, Forall entry_ok cat → (length cat ≤ fuel)%nat →
  Links_collect fuel (join 44 (entry_wire <$> cat)) = Ok ∘ entry_link <$> cat.
Proof.
  induction cat as [|c cat IH]; intros fuel Hf Hl; [by destruct fuel|]. apply Forall_cons in Hf as [Hc Hf].
  destruct fuel as [|fuel]; [simpl in Hl; lia|].
  assert (∃ rest next, join 44 (entry_wire <$> c :: cat) = entry_wire c ++ rest ∧ next = join 44 (entry_wire <$> cat) ∧
    (rest = [] ∧ next = [] ∨ rest = 44 :: next ∧ next ≠ [])) as (rest & next & Hj & Hn & Hr).
  { destruct cat as [|c' cat]; [exists [], []; rewrite app_nil_r; auto|]. eexists (44 :: _), _. split; [done|]. split; [done|].
    right. split; [done|]. intros Hz. apply (f_equal length) in Hz. pose proof (entry_wire_length c').
    destruct cat; simpl in *; rewrite ?length_app in Hz; simpl in *; lia. }
  cbn [Links_collect]. unfold Links_next. rewrite Hj.
  assert (is_nil (entry_wire c ++ rest) = false) as -> by done. rewrite (parse_link_wire c rest next Hc Hr).
  cbn [fmap list_fmap]. f_equal. rewrite Hn. apply IH; [done|]. simpl in Hl. lia.
Qed.

Lemma wires_length cat : (length cat ≤ length (join 44 (entry_wire <$> cat)))%nat.
Proof.
  induction cat as [|c cat IH]; [done|]. pose proof (entry_wire_length c). destruct cat as [|c' cat]; [simpl; lia|].
  rewrite fmap_cons, join_cons, length_app by done. cbn [length] in *. lia.
Qed.
Lemma links_collect_inv fuel : ∀ input links, Links_collect fuel input = Ok <$> links →
  ∃ cat, Forall entry_ok cat ∧ input = join 44 (entry_wire <$> cat) ∧ links = entry_link <$> cat.
Proof.
  induction fuel as [|fuel IH]; intros input links; cbn [Links_collect]; unfold Links_next;
    destruct (is_nil input) eqn:En; try (apply is_nil_true in En as ->; intros Hl; symmetry in Hl; apply fmap_nil_inv in Hl as ->; by exists []).
  - by destruct (parse_link input) as [[]| | |], links.
  - destruct (parse_link input) as [[link next]| | |] eqn:Ep; destruct links as [|l links]; try done; cbn [fmap list_fmap]; try (by intros [=]).
    intros Hx. injection Hx as -> Hx. destruct (parse_link_inv _ _ _ Ep) as (c & Hc & -> & Hi).
    destruct (IH next links Hx) as (cat & Hf & Hn & ->). exists (c :: cat). split_and!; [by constructor| |done].
    destruct Hi as [[-> ->]|[-> Hne]].
    + destruct cat as [|c' cat]; [done|]. apply (f_equal length) in Hn. pose proof (entry_wire_length c').
      destruct cat; simpl in *; rewrite ?length_app in Hn; simpl in *; lia.
    + destruct cat as [|c' cat]; [done|]. rewrite Hn. done.
Qed.

Lemma collect_shape fuel : ∀ input, (length input ≤ fuel)%nat →
  ∃ links tail, Links_collect fuel input = (Ok <$> links) ++ tail ∧ (tail = [] ∨ ∃ e, tail = [Err e]).
Proof.
  induction fuel as [|fuel IH]; intros input Hl; cbn [Links_collect]; unfold Links_next.
  - destruct input; [|simpl in Hl; lia]. exists [], []. auto.
  - destruct (is_nil input) eqn:En; [exists [], []; auto|]. pose proof (parse_link_returns input) as Hr.
    destruct (parse_link input) as [[link next]|e| |] eqn:Ep; try done.
    + destruct (parse_link_inv _ _ _ Ep) as (c & Hc & -> & Hi).
      destruct (IH next) as (links & tail & -> & Ht).
      { pose proof (entry_wire_length c). destruct Hi as [[-> ->]|[-> Hne]]; [simpl; lia|]. rewrite length_app in Hl. simpl in Hl. lia. }
      by exists (entry_link c :: links), tail.
    + exists [], [Err e]. split; [by destruct fuel|eauto].
Qed.

(** The parser accepts exactly the documents of the grammar.  Parsing gives
    only links exactly when the document is a comma-separated sequence of
    legal entries, and then these entries are the links; every attribute of a link
    is read back.  On any other document the links before the first mistake are
    followed by one error and nothing else: the iterator ends, without a panic. *)
Theorem links_parse_iff input :
  (∀ links, parse input = Ok <$> links ↔
     ∃ cat, Forall entry_ok cat ∧ input = join 44 (entry_wire <$> cat) ∧ links = entry_link <$> cat) ∧
  (∀ c, entry_ok c → attributes (E:=LinkError) (entry_link c) = Ok c.2) ∧
  ∃ links tail, parse input = (Ok <$> links) ++ tail ∧ (tail = [] ∨ ∃ e, tail = [Err e]).
Proof.
  split_and!.
  - intros links. split; [apply links_collect_inv|]. intros (cat & Hf & -> & ->). unfold parse.
    rewrite collect_wires; [by rewrite <- list_fmap_compose|done|apply wires_length].
  - intros c (_ & Hf & _). unfold attributes. apply attributes_wire; [done|]. apply attrs_wire_length.
  - by apply collect_shape.
Qed.

(** ** What is written *)
Fixpoint escape (s : list Z) : list Z :=
  match s with [] => [] | c :: s => (if (c =? 34) || (c =? 92) then [92; c] else [c]) ++ escape s end.
Definition quote (s : list Z) : list Z := 34 :: escape s ++ [34].
Definition formats_text (l : list Z) : list Z := join 32 (map print_dec l).

Definition named_attr (name : list Z) (v : option (list Z)) : list Attribute :=
  match v with None => [] | Some v => [mkAttr name (Some (mkText (escape v) true))] end.
Definition ext_attr (e : Extension) : Attribute :=
  mkAttr (ex_name e) (option_map (fun v => mkText (escape v) true) (ex_value e)).
(** The attributes of a [Metadata], in the order they are written. *)
Definition md_attrs (m : Metadata) : list Attribute :=
  named_attr (lit "rt") (md_resource_types m) ++ named_attr (lit "if") (md_interfaces m)
  ++ (if is_nil (md_content_formats m) then []
      else [mkAttr (lit "ct") (Some (mkText (formats_text (md_content_formats m)) true))])
  ++ (match md_size_estimate m with None => [] | Some v => [mkAttr (lit "sz") (Some (mkText (print_dec v) false))] end)
  ++ (if md_observable m then [mkAttr (lit "obs") None] else [])
  ++ map ext_attr (md_extensions m).

Section writer.
Context `{Target}.

Definition writes (w : fmt unit) (s : list Z) : Prop :=
  (∀ n b, (n + length s ≤ length b)%nat → usize_ok (length b) →
     w (mkOutput (Some b) n) = (mkOutput (Some (splice b n s)) (n + length s), Ok tt)) ∧
  (∀ n, usize_ok n →
     if Z.of_nat (n + length s) <=? usize_max then w (mkOutput None n) = (mkOutput None (n + length s), Ok tt)
     else ∃ o, w (mkOutput None n) = (o, Err tt)).

Lemma writes_nil : writes (mret tt) [].
Proof.
  split.
  - intros n b Hn Hb. rewrite splice_nil by (simpl in Hn; lia). by rewrite Nat.add_0_r.
  - intros n Hn. rewrite Nat.add_0_r. by rewrite (proj2 (Z.leb_le _ _)) by done.
Qed.
Lemma writes_str s : writes (write_str s) s.
Proof.
  split.
  - intros n b Hn Hb. unfold write_str. unbind. unfold usize_checked_add. cbn [ou_len ou_bytes].
    unfold usize_ok in Hb. rewrite (proj2 (Z.leb_le _ _)) by lia. cbn [ok_or]. cbn beta iota.
    rewrite (proj2 (Nat.leb_le _ _)) by done. by rewrite copy_into_ok.
  - intros n Hn. unfold write_str. unbind. unfold usize_checked_add. cbn [ou_len ou_bytes].
    destruct (_ <=? usize_max); [done|]. cbn [ok_or]. cbn beta iota. by eexists.
Qed.
Lemma writes_bind w1 w2 s1 s2 : writes w1 s1 → writes w2 s2 → writes (w1;; w2) (s1 ++ s2).
Proof.
  intros [H1 C1] [H2 C2]. split.
  - intros n b Hn Hb. rewrite length_app in *. unbind. rewrite H1 by (lia || done).
    rewrite H2; [|rewrite length_splice; lia|rewrite length_splice; [done|lia]].
    rewrite splice_splice by lia. by rewrite Nat.add_assoc.
  - intros n Hn. rewrite length_app. specialize (C1 n Hn). unbind.
    destruct (Z.leb_spec (Z.of_nat (n + length s1)) usize_max).
    + rewrite C1. specialize (C2 (n + length s1)%nat ltac:(done)). by rewrite Nat.add_assoc.
    + destruct C1 as [o ->]. rewrite (proj2 (Z.leb_gt _ _)) by lia. by eexists.
Qed.
Lemma writes_eq w s s' : s = s' → writes w s → writes w s'.
Proof. by intros ->. Qed.

Lemma writes_escaped s : writes (write_escaped s) (escape s).
Proof.
  induction s as [|c s IH]; [apply writes_nil|]. cbn [write_escaped escape].
  destruct (_ || _).
  - change ([92; c] ++ escape s) with ([92] ++ [c] ++ escape s). apply writes_bind; [apply writes_str|]. apply writes_bind; [apply writes_str|done].
  - change ([c] ++ escape s) with ([] ++ [c] ++ escape s). apply writes_bind; [apply writes_nil|]. apply writes_bind; [apply writes_str|done].
Qed.
Lemma writes_quoted s : writes (quoted s) (quote s).
Proof.
  change (quote s) with ([34] ++ escape s ++ [34]). apply writes_bind; [apply writes_str|].
  apply writes_bind; [apply writes_escaped|apply writes_str].
Qed.
Lemma writes_named name v : writes (write_named name v) (attrs_wire (named_attr name v)).
Proof.
  destruct v as [v|]; [|apply writes_nil]. eapply writes_eq; [|apply writes_bind; [apply writes_str|apply writes_bind; [apply writes_str|
    apply writes_bind; [apply writes_str|apply writes_quoted]]]].
  unfold attrs_wire, attr_wire, attr_body. cbn. by rewrite app_nil_r.
Qed.
Lemma writes_formats first l : writes (write_formats first l) ((if first || is_nil l then [] else [32]) ++ formats_text l).
Proof.
  revert first. induction l as [|v l IH]; intros first; [rewrite orb_true_r; apply writes_nil|]. cbn [write_formats is_nil]. rewrite orb_false_r.
  apply writes_bind; [destruct first; [apply writes_nil|apply writes_str]|].
  eapply writes_eq; [|apply writes_bind; [apply writes_str|apply IH]]. unfold formats_text.
  destruct l as [|v' l]; [cbn; by rewrite app_nil_r|]. cbn [orb is_nil map]. by rewrite (join_cons 32 (print_dec v)) by done.
Qed.
Lemma writes_extensions l : writes (write_extensions l) (attrs_wire (map ext_attr l)).
Proof.
  induction l as [|e l IH]; [apply writes_nil|]. cbn [write_extensions map].
  eapply writes_eq; [|apply writes_bind; [apply writes_str|apply writes_bind; [apply writes_str|
    apply (writes_bind _ _ (match ex_value e with None => [] | Some v => [61] ++ quote v end)); [|apply IH]]]].
  - rewrite attrs_wire_cons. unfold attr_body, ext_attr. cbn [at_name at_value]. change (lit ";") with [59]. cbn [app]. f_equal.
    rewrite <- app_assoc. by destruct (ex_value e).
  - destruct (ex_value e); [apply writes_bind; [apply writes_str|apply writes_quoted]|apply writes_nil].
Qed.
Lemma attrs_wire_app l l' : attrs_wire (l ++ l') = attrs_wire l ++ attrs_wire l'.
Proof. unfold attrs_wire. by rewrite map_app, concat_app. Qed.
Lemma writes_metadata m : writes (Metadata_write m) (attrs_wire (md_attrs m)).
Proof.
  unfold Metadata_write, md_attrs. rewrite !attrs_wire_app.
  apply writes_bind; [apply writes_named|]. apply writes_bind; [apply writes_named|]. apply writes_bind.
  { destruct (is_nil (md_content_formats m)) eqn:En; [apply writes_nil|].
    eapply writes_eq; [|apply writes_bind; [apply writes_str|apply writes_bind; [apply writes_formats|apply writes_str]]].
    unfold attrs_wire, attr_wire, attr_body, value_wire. cbn. by rewrite app_nil_r. }
  apply writes_bind.
  { destruct (md_size_estimate m); [|apply writes_nil]. eapply writes_eq; [|apply writes_bind; [apply writes_str|apply writes_str]].
    unfold attrs_wire, attr_wire, attr_body, value_wire. cbn. by rewrite app_nil_r. }
  apply writes_bind; [destruct (md_observable m); [apply writes_str|apply writes_nil]|]. apply writes_extensions.
Qed.

Lemma validate_extensions_returns l : returns (validate_extensions l).
Proof. induction l as [|e l IH]; [done|]. cbn [validate_extensions]. destruct (is_some _); [done|]. by destruct (_ || _). Qed.
Lemma metadata_validate_returns m : returns (Metadata_validate m).
Proof.
  unfold Metadata_validate, valid_relation. unbind.
  destruct (md_resource_types m) as [v|]; [destruct (relation_types_total (E:=LinkError) v) as [[] ->]; try done|];
    (destruct (md_interfaces m) as [v'|]; [destruct (relation_types_total (E:=LinkError) v') as [[] ->]; try done|]);
    apply validate_extensions_returns.
Qed.

(** What a writer of [s] does in a buffer. *)
Lemma write_over_ok w s output :
  writes w s → (length s ≤ length output)%nat → usize_ok (length output) →
  write_over w output = (splice output 0 s, Ok tt).
Proof. intros [Hw _] Hl Ho. unfold write_over. by rewrite (Hw 0%nat output) by done. Qed.

Lemma encoded_len_spec m :
  Metadata_encoded_len m =
    (Metadata_validate m;;
     if Z.of_nat (length (attrs_wire (md_attrs m))) <=? usize_max then Ok (length (attrs_wire (md_attrs m))) else Err LOutputTooSmall).
Proof.
  pose proof (proj2 (writes_metadata m) 0%nat ltac:(pose proof usize_max_ge; unfold usize_ok; lia)) as Hc. rewrite Nat.add_0_l in Hc.
  unfold Metadata_encoded_len. unbind. destruct (Metadata_validate m) as [[]| | |]; try done.
  destruct (_ <=? usize_max); [by rewrite Hc|]. by destruct Hc as [o ->].
Qed.

Lemma write_link_spec target m output :
  usize_ok (length output) →
  let wire := entry_wire (target, md_attrs m) in
  write_link target m output =
    (if negb (uri_chars target) then (output, Err LSyntax)
     else match Metadata_validate m with
          | Ok _ => if (length wire <=? length output)%nat then (splice output 0 wire, Ok (length wire)) else (output, Err LOutputTooSmall)
          | Err e => (output, Err e)
          | Panic => (output, Panic)
          | Diverge => (output, Diverge)
          end).
Proof.
  intros Ho wire. set (attrs := attrs_wire (md_attrs m)).
  assert (length wire = length attrs + length target + 2)%nat as Hlen.
  { subst wire attrs. unfold entry_wire. cbn [fst snd length]. rewrite length_app. simpl. lia. }
  unfold usize_ok in Ho. unfold write_link. destruct (uri_chars target); [|done]. cbn [negb]. rewrite encoded_len_spec. fold attrs. unbind.
  destruct (Metadata_validate m) as [[]| | |]; try done.
  destruct (Nat.leb_spec (length wire) (length output)) as [Hfit|Hshort].
  - rewrite (proj2 (Z.leb_le _ _)) by lia. unfold usize_checked_add. rewrite (proj2 (Z.leb_le _ _)) by lia. cbn [option_bind ok_or].
    rewrite (proj2 (Z.leb_le _ _)) by lia. cbn [ok_or]. cbn beta iota. rewrite <- Hlen, (proj2 (Nat.ltb_ge _ _)) by done.
    pose proof (write_over_ok (write_str (lit "<");; write_str target;; write_str (lit ">");; Metadata_write m) wire output) as Hov.
    unbind. rewrite Hov; [done| |done|done]. change wire with ([60] ++ target ++ [62] ++ attrs).
    repeat (apply writes_bind; [apply writes_str|]). apply writes_metadata.
  - destruct (_ <=? usize_max); [|done]. unfold usize_checked_add. destruct (_ <=? usize_max); cbn [option_bind ok_or]; [|done].
    destruct (_ <=? usize_max); cbn [ok_or]; cbn beta iota; [|done]. by rewrite <- Hlen, (proj2 (Nat.ltb_lt _ _)).
Qed.

Lemma write_into_spec m output :
  usize_ok (length output) →
  let attrs := attrs_wire (md_attrs m) in
  Metadata_write_into m output =
    match Metadata_validate m with
    | Ok _ => if (length attrs <=? length output)%nat then (splice output 0 attrs, Ok (length attrs)) else (output, Err LOutputTooSmall)
    | Err e => (output, Err e)
    | Panic => (output, Panic)
    | Diverge => (output, Diverge)
    end.
Proof.
  intros Ho attrs. unfold usize_ok in Ho. unfold Metadata_write_into. rewrite encoded_len_spec. fold attrs. unbind.
  destruct (Metadata_validate m) as [[]| | |]; try done.
  destruct (Nat.leb_spec (length attrs) (length output)).
  - rewrite (proj2 (Z.leb_le _ _)), (proj2 (Nat.ltb_ge _ _)) by lia. by rewrite (write_over_ok _ attrs) by (try done; apply writes_metadata).
  - destruct (_ <=? usize_max); [|done]. by rewrite (proj2 (Nat.ltb_lt _ _)).
Qed.

Lemma write_link_ok target m output output' n :
  usize_ok (length output) → write_link target m output = (output', Ok n) →
  ∃ u, uri_chars target = true ∧ Metadata_validate m = Ok u ∧ output' = splice output 0 (entry_wire (target, md_attrs m)) ∧
    n = length (entry_wire (target, md_attrs m)) ∧ (n ≤ length output)%nat.
Proof.
  intros Ho. rewrite write_link_spec by done. cbv zeta. destruct (uri_chars target); [|done]. cbn [negb].
  destruct (Metadata_validate m) as [u| | |]; try done. destruct (Nat.leb_spec (length (entry_wire (target, md_attrs m))) (length output)); [|done].
  intros [= <- <-]. by exists u.
Qed.

(** Writing a link or its metadata, on every branch: invalid input or a
    buffer that is too short is refused with its own error and leaves the whole
    buffer as it was; otherwise exactly the rendering is written at the front
    and its length returned, and the bytes behind it stay. *)
Theorem link_write_outcome target m output :
  usize_ok (length output) →
  let wire := entry_wire (target, md_attrs m) in
  let attrs := attrs_wire (md_attrs m) in
  write_link target m output =
    (if negb (uri_chars target) then (output, Err LSyntax)
     else match Metadata_validate m with
          | Ok _ => if (length wire <=? length output)%nat then (splice output 0 wire, Ok (length wire)) else (output, Err LOutputTooSmall)
          | Err e => (output, Err e)
          | Panic => (output, Panic)
          | Diverge => (output, Diverge)
          end) ∧
  Metadata_write_into m output =
    (match Metadata_validate m with
     | Ok _ => if (length attrs <=? length output)%nat then (splice output 0 attrs, Ok (length attrs)) else (output, Err LOutputTooSmall)
     | Err e => (output, Err e)
     | Panic => (output, Panic)
     | Diverge => (output, Diverge)
     end) ∧
  returns (Metadata_validate m).
Proof.
  intros Ho wire attrs. split; [by apply write_link_spec|]. split; [by apply write_into_spec|apply metadata_validate_returns].
Qed.
End writer.

(** ** Reading back what was written *)
Definition plain_char (c : Z) : bool := negb (c =? 34) && negb (c =? 92) && negb (is_ascii_control c).
Definition legal_text (s : list Z) : bool := negb (existsb (fun c => is_ascii_control c && negb (c =? 9)) s).

Lemma unescape_escape s : unescape (escape s) = s.
Proof.
  induction s as [|c s IH]; [done|]. cbn [escape]. destruct (Z.eqb_spec c 34) as [->|H34]; cbn [orb app unescape]; [cbn; by rewrite IH|].
  destruct (Z.eqb_spec c 92) as [->|H92]; cbn [app unescape]; [cbn; by rewrite IH|]. rewrite (proj2 (Z.eqb_neq c 92)) by done. by rewrite IH.
Qed.
Lemma quoted_end_escape s : legal_text s = true → quoted_end (escape s ++ [34]) = Ok (length (escape s)).
Proof.
  unfold legal_text. rewrite negb_true_iff. induction s as [|c s IH]; [done|]. cbn [existsb escape]. intros [Hc Hs]%orb_false_iff. specialize (IH Hs).
  destruct (Z.eqb_spec c 34) as [->|H34]; cbn [orb app quoted_end length]; [cbn; unbind; by rewrite IH|].
  destruct (Z.eqb_spec c 92) as [->|H92]; cbn [app quoted_end length]; [cbn; unbind; by rewrite IH|].
  rewrite (proj2 (Z.eqb_neq c 34)), (proj2 (Z.eqb_neq c 92)), Hc by done. unbind. by rewrite IH.
Qed.
Lemma plain_escape s : forallb plain_char s = true → escape s = s ∧ legal_text s = true.
Proof.
  unfold legal_text. induction s as [|c s IH]; [done|]. cbn [forallb escape existsb]. intros [Hc Hs]%andb_true_iff. destruct (IH Hs) as [-> Hl].
  unfold plain_char in Hc. apply andb_true_iff in Hc as [Hc Hctl]. apply andb_true_iff in Hc as [H34 H92].
  apply negb_true_iff in H34, H92, Hctl, Hl. by rewrite H34, H92, Hctl, Hl.
Qed.

(** Relation types are plain. *)
Ltac char_props H :=
  unfold is_ascii_alphanumeric, is_ascii_alphabetic, is_ascii_lowercase, is_ascii_uppercase, is_ascii_hexdigit, is_ascii_digit,
    is_ascii_control, between in H;
  repeat setoid_rewrite orb_true_iff in H; repeat setoid_rewrite andb_true_iff in H;
  repeat setoid_rewrite Z.leb_le in H; repeat setoid_rewrite Z.eqb_eq in H.
Lemma plain_of b : b ≠ 34 → b ≠ 92 → 31 < b → b ≠ 127 → plain_char b = true.
Proof.
  intros. unfold plain_char, is_ascii_control, between. rewrite !(proj2 (Z.eqb_neq _ _)) by done. cbn [negb andb orb].
  by rewrite (proj2 (Z.leb_gt b 31)), andb_false_r by lia.
Qed.
Lemma plain_alnum b : is_ascii_alphanumeric b = true → plain_char b = true.
Proof. intros Hb. char_props Hb. apply plain_of; lia. Qed.
Lemma one_of_In set b : one_of set b = true → b ∈ set.
Proof. unfold one_of. rewrite existsb_exists. intros (x & Hx & ->%Z.eqb_eq). by apply list_elem_of_In. Qed.
Lemma plain_uri b : b = 37 ∨ is_ascii_hexdigit b = true ∨ uri_char b = true → plain_char b = true.
Proof.
  intros [->|[Hb|Hb]]; [done| |].
  - char_props Hb. apply plain_of; lia.
  - unfold uri_char in Hb. apply orb_true_iff in Hb as [Hb|Hb]; [by apply plain_alnum|]. apply one_of_In in Hb.
    assert (forallb plain_char (lit "-._~:/?#[]@!$&'()*+,;=") = true) as Hs by reflexivity. by eapply forallb_elem.
Qed.
Lemma registered_plain {E} w : registered (E:=E) w = Ok true → forallb plain_char w = true.
Proof.
  unfold registered, idx. unbind. destruct (w !! 0%nat); [|done]. intros [= [_ Hw]%andb_true_iff]. rewrite forallb_forall in *.
  intros b Hb. specialize (Hw b Hb). char_props Hw. apply plain_of; lia.
Qed.
Lemma absolute_plain {E} w : absolute (E:=E) w = Ok true → forallb plain_char w = true.
Proof.
  unfold absolute, idx. destruct (split_once 58 w) as [[scheme r]|]; [|done]. destruct (is_nil scheme); [done|]. unbind.
  destruct (scheme !! 0%nat); [|done]. intros [= [_ Hw]%andb_true_iff]. rewrite forallb_forall. intros b Hb.
  apply plain_uri, (uri_chars_elem w); [done|by apply list_elem_of_In].
Qed.
Lemma words_elem s b : b ∈ s → b = 32 ∨ ∃ w, w ∈ words s ∧ b ∈ w.
Proof.
  intros Hb. rewrite <- (join_split 32 s) in Hb. unfold words. induction (split 32 s) as [|w ws IH]; [by rewrite elem_of_nil in Hb|].
  assert (b ∈ w ∨ b = 32 ∨ b ∈ join 32 ws) as [Hw|[->|Hr]].
  { destruct ws as [|w' ws]; [by left|]. rewrite join_cons, elem_of_app, elem_of_cons in Hb by done. tauto. }
  - right. exists w. split; [|done]. rewrite list_elem_of_In, filter_In, <- list_elem_of_In. split; [by left|]. by destruct w; [rewrite elem_of_nil in Hw|].
  - by left.
  - destruct (IH Hr) as [->|(w' & Hw' & Hbw)]; [by left|]. right. exists w'. split; [|done].
    rewrite list_elem_of_In, filter_In, <- list_elem_of_In in *. destruct Hw'. split; [by right|done].
Qed.
Lemma relation_plain {E} s : relation_types (E:=E) s = Ok true → forallb plain_char s = true.
Proof.
  unfold relation_types. destruct (list_value s); [|done]. intros Hall. apply forallb_forall. intros b Hb%list_elem_of_In.
  destruct (words_elem s b Hb) as [->|(w & Hw & Hbw)]; [done|]. revert Hw Hall. generalize (words s). intros ws Hw Hall.
  induction ws as [|w' ws IH]; [by rewrite elem_of_nil in Hw|]. cbn [all_relations] in Hall. unbind.
  destruct (registered (E:=E) w') as [r| | |] eqn:Er; try done. destruct (absolute (E:=E) w') as [a| | |] eqn:Ea; try done.
  destruct (r || a) eqn:Era; [|done]. rewrite elem_of_cons in Hw. destruct Hw as [->|Hw]; [|by apply IH].
  apply (forallb_elem plain_char w'); [|done]. apply orb_true_iff in Era as [-> | ->]; [by eapply registered_plain|by eapply absolute_plain].
Qed.

(** Decimal texts. *)
Lemma print_dec_facts x : 0 ≤ x < 2 ^ 64 →
  print_dec x ≠ [] ∧ forallb is_ascii_digit (print_dec x) = true ∧ cardinal (print_dec x) = true ∧ 32 ∉ print_dec x.
Proof.
  intros Hx. assert (10 ^ Z.of_nat 20 = 10 ^ 20) as H20 by done. assert (2 ^ 64 < 10 ^ 20) as Hp by done.
  pose proof (dec_digits_ok 20 x ltac:(lia)) as Hd. destruct (dec_digits_head 19 x ltac:(lia)) as (b & r & Hb & Hdb & Hz & Hs).
  change (dec_digits 20 x) with (print_dec x) in *. split_and!; [by rewrite Hb|done| |].
  - unfold cardinal. rewrite Hd, Hb. cbn [is_nil negb andb starts_with]. rewrite andb_true_r. apply orb_true_iff.
    destruct (decide (x = 0)) as [->|Hne]; [left; rewrite <- Hb; reflexivity|right]. by rewrite (proj2 (Z.eqb_neq _ _)) by auto.
  - intros Hin. pose proof (forallb_elem _ _ _ Hd Hin). done.
Qed.
Lemma digit_plain b : is_ascii_digit b = true → plain_char b = true ∧ token_char b = true.
Proof. intros Hb. split; [apply plain_alnum|unfold token_char]; unfold is_ascii_alphanumeric; by rewrite Hb, orb_true_r. Qed.
Lemma forallb_mono {A} (p q : A → bool) l : (∀ x, p x = true → q x = true) → forallb p l = true → forallb q l = true.
Proof. intros Hpq. rewrite !forallb_forall. auto. Qed.
Lemma formats_facts l : l ≠ [] → Forall (in_u 16) l →
  forallb plain_char (formats_text l) = true ∧ words (formats_text l) = map print_dec l ∧ list_value (formats_text l) = true.
Proof.
  intros Hne Hl. assert (∀ x, in_u 16 x → 0 ≤ x < 2 ^ 64) as Hw by (unfold in_u; lia).
  assert (split 32 (formats_text l) = map print_dec l) as Hs.
  { apply split_join; [by destruct l|]. rewrite Forall_map. eapply Forall_impl; [done|]. intros x Hx. apply print_dec_facts. auto. }
  split_and!.
  - clear Hs Hne. unfold formats_text. induction Hl as [|x l Hx Hl IH]; [done|].
    pose proof (proj1 (proj2 (print_dec_facts x (Hw x Hx)))) as Hd.
    assert (forallb plain_char (print_dec x) = true) as Hp by (eapply forallb_mono; [|exact Hd]; intros b Hb; by apply digit_plain).
    destruct l as [|x' l]; [done|]. cbn [map] in *. rewrite join_cons by done. rewrite forallb_app, Hp. cbn [forallb]. by rewrite IH.
  - unfold words. rewrite Hs. clear Hs Hne. induction Hl as [|x l Hx Hl IH]; [done|]. cbn [map List.filter].
    destruct (print_dec_facts x (Hw x Hx)) as [Hn _]. rewrite (proj2 (is_nil_false _) Hn). cbn [negb]. by rewrite IH.
  - unfold list_value.
    destruct l as [|x l]; [done|]. apply Forall_cons in Hl as [Hx Hl]. destruct (print_dec_facts x (Hw x Hx)) as (Hn & Hd & _).
    destruct (print_dec x) as [|b r] eqn:Eb; [done|].
    assert (is_nil (formats_text (x :: l)) = false ∧ starts_with 32 (formats_text (x :: l)) = false) as [-> ->].
    { unfold formats_text. cbn [map]. rewrite Eb. assert ((b =? 32) = false) as Hb32.
      { apply Z.eqb_neq. intros ->. by simpl in Hd. } destruct l; cbn [map join app is_nil starts_with]; by rewrite Hb32. }
    cbn [negb andb]. apply negb_true_iff. clear Eb Hd Hn b r.
    assert (∀ l x, in_u 16 x → Forall (in_u 16) l → ends_with 32 (formats_text (x :: l)) = false) as Hends; [|by apply Hends].
    clear -Hw. induction l as [|x' l IH]; intros x Hx Hl; unfold formats_text in *; cbn [map].
    + destruct (print_dec_facts x (Hw x Hx)) as (Hn & Hd & _). destruct (print_dec x) as [|b r _] using rev_ind; [done|].
      cbn [join]. rewrite ends_with_snoc. rewrite forallb_app in Hd. apply andb_true_iff in Hd as [_ Hd]. apply Z.eqb_neq. intros ->. done.
    + apply Forall_cons in Hl as [Hx' Hl]. rewrite join_cons by done. specialize (IH x' Hx' Hl). unfold ends_with in *.
      assert (∀ (c : Z) s, s ≠ [] → last (c :: s) = last s) as Hlast by (by intros c []).
      rewrite last_app. destruct (print_dec_facts x' (Hw x' Hx')) as (Hn & _).
      assert (join 32 (map print_dec (x' :: l)) ≠ []) as Hj.
      { cbn [map]. destruct (map print_dec l); cbn [join]; [done|]. by intros [? _]%app_eq_nil. }
      rewrite Hlast by done. cbn [map] in *. destruct (last (join 32 (print_dec x' :: map print_dec l))) eqn:El; [done|]. by apply last_None in El.
Qed.

(** A [Metadata] of the right machine types. *)
Definition md_typed (m : Metadata) : Prop :=
  Forall (in_u 16) (md_content_formats m) ∧ match md_size_estimate m with Some v => in_u 64 v | None => True end.
Definition valid_ext (e : Extension) : Prop :=
  core_name (ex_name e) = None ∧ ex_name e ≠ [] ∧ forallb name_char (ex_name e) = true ∧
  match ex_value e with Some v => legal_text v = true | None => True end.
Definition valid_rel (v : option (list Z)) : Prop :=
  match v with Some v => relation_types (E:=LinkError) v = Ok true | None => True end.

Lemma valid_metadata m u :
  Metadata_validate m = Ok u → valid_rel (md_resource_types m) ∧ valid_rel (md_interfaces m) ∧ Forall valid_ext (md_extensions m).
Proof.
  unfold Metadata_validate. unbind.
  assert (∀ v, valid_relation v = Ok tt → valid_rel v) as Hrel.
  { intros [v|]; [|done]. unfold valid_relation, valid_rel. unbind. destruct (relation_types_total (E:=LinkError) v) as [[] ->]; done. }
  destruct (valid_relation (md_resource_types m)) as [[]| | |] eqn:E1; try done.
  destruct (valid_relation (md_interfaces m)) as [[]| | |] eqn:E2; try done. intros He. split_and!; [by apply Hrel..|].
  induction (md_extensions m) as [|e l IH]; [constructor|]. cbn [validate_extensions] in He.
  destruct (core_name (ex_name e)) eqn:Ec; cbn [is_some] in He; [done|]. destruct (is_nil (ex_name e)) eqn:En; [done|].
  destruct (forallb name_char (ex_name e)) eqn:Ef; [|done]. cbn [negb orb] in He.
  destruct (existsb (Z.eqb 42) (ex_name e)); [done|]. cbn [orb] in He. constructor; [|apply IH; by destruct (ex_value e) as [v|]; [destruct (existsb _ v)|]].
  split_and!; [done|by apply is_nil_false|done|]. destruct (ex_value e) as [v|]; [|done]. unfold legal_text. by destruct (existsb _ v).
Qed.

Lemma named_ok name v : name_ok name → ends_with 42 name = false → valid_rel v → Forall attr_ok (named_attr name v).
Proof.
  intros Hn Hs Hv. destruct v as [v|]; [|constructor]. constructor; [|constructor]. split; [done|]. split; [|done].
  unfold text_ok. cbn [te_escaped te_raw]. apply quoted_end_escape. apply plain_escape. by eapply relation_plain.
Qed.
Lemma simple_name name : name ≠ [] → forallb name_char name = true → name_ok name ∧ ends_with 42 name = false.
Proof. intros Hn Hc. split; [exists name, []; rewrite app_nil_r; auto|by apply base_no_star]. Qed.
Lemma ext_ok l : Forall valid_ext l → Forall attr_ok (map ext_attr l).
Proof.
  intros Hl. rewrite Forall_map. eapply Forall_impl; [done|]. intros e (_ & Hn & Hc & Hv). destruct (simple_name _ Hn Hc) as [Hname Hstar].
  split; [done|]. unfold ext_attr. cbn [at_value at_name]. destruct (ex_value e) as [v|]; [|done]. split; [|done].
  unfold text_ok. cbn [te_escaped te_raw]. by apply quoted_end_escape.
Qed.
Lemma md_attrs_ok m u : Metadata_validate m = Ok u → md_typed m → Forall attr_ok (md_attrs m).
Proof.
  intros Hv [Hf Hsz]. destruct (valid_metadata m u Hv) as (Hrt & Hif & He). unfold md_attrs.
  repeat apply Forall_app_2; try (apply named_ok; [apply simple_name; done|done|done]); [| | |by apply ext_ok].
  - destruct (is_nil (md_content_formats m)) eqn:En; [constructor|]. apply is_nil_false in En. constructor; [|constructor].
    split; [apply simple_name; done|]. split; [|done]. unfold text_ok. cbn [te_escaped te_raw].
    destruct (formats_facts _ En Hf) as (Hp & _). destruct (plain_escape _ Hp) as [He' Hl]. rewrite <- He'. by apply quoted_end_escape.
  - destruct (md_size_estimate m) as [v|]; [|constructor]. constructor; [|constructor]. split; [apply simple_name; done|].
    destruct (print_dec_facts v Hsz) as (Hn & Hd & _). split; [|done]. split; [done|]. eapply forallb_mono; [|exact Hd]. intros b Hb. by apply digit_plain.
  - destruct (md_observable m); [|constructor]. constructor; [|constructor]. split; [apply simple_name; done|done].
Qed.

(** *** The checks on the written attributes *)
Lemma validate_app l l' seen seen' : validate_all l seen = Ok seen' → validate_all (l ++ l') seen = validate_all l' seen'.
Proof.
  revert seen. induction l as [|a l IH]; intros seen; [by intros [= ->]|]. cbn [validate_all app]. unbind.
  destruct (validate_attribute a seen); try done. apply IH.
Qed.
Definition rel_bit (v : option (list Z)) (bit : Z) : Z := match v with Some _ => bit | None => 0 end.
Lemma validate_named name bit v seen :
  (name = lit "rt" ∧ bit = 1 ∨ name = lit "if" ∧ bit = 2) → valid_rel v → Z.land seen bit = 0 →
  validate_all (named_attr name v) seen = Ok (Z.lor seen (rel_bit v bit)).
Proof.
  intros Hn Hv Hs. destruct v as [v|]; cbn [named_attr validate_all rel_bit]; [|by rewrite Z.lor_0_r]. unbind.
  destruct (plain_escape v (relation_plain v Hv)) as [-> _].
  destruct Hn as [[-> ->]|[-> ->]]; unfold validate_attribute; cbn [at_name];
    (match goal with |- context [core_name (lit ?n)] => change (core_name (lit n)) with (Some (lit n)) end); cbn beta iota;
    unfold value_and; cbn [at_value te_raw]; cbv zeta;
    (match goal with |- context [name_bit (lit ?n)] => let b := eval vm_compute in (name_bit (lit n)) in change (name_bit (lit n)) with b end);
    rewrite Hs; unbind; cbn [valid_rel] in Hv; cbn; rewrite Hv; done.
Qed.
Lemma validate_ext l seen : Forall valid_ext l → validate_all (map ext_attr l) seen = Ok seen.
Proof.
  induction 1 as [|e l (Hc & _) Hl IH]; [done|]. cbn [map validate_all]. unbind.
  assert (validate_attribute (ext_attr e) seen = Ok seen) as ->; [|done].
  unfold validate_attribute, name_bit. cbn [ext_attr at_name]. rewrite Hc.
  assert (∀ k, is_some (core_name k) = true → eqb (ex_name e) k = false) as Hk.
  { intros k Hk. apply bool_decide_eq_false. intros <-. by rewrite Hc in Hk. }
  rewrite !Hk by reflexivity. cbn [orb]. rewrite Z.land_0_r. unbind. cbn. by rewrite Z.lor_0_r.
Qed.
Lemma md_attrs_valid m u : Metadata_validate m = Ok u → md_typed m → ∃ seen, validate_all (md_attrs m) 0 = Ok seen.
Proof.
  intros Hv [Hf Hsz]. destruct (valid_metadata m u Hv) as (Hrt & Hif & He). unfold md_attrs.
  set (s1 := Z.lor 0 (rel_bit (md_resource_types m) 1)). set (s2 := Z.lor s1 (rel_bit (md_interfaces m) 2)).
  assert (Z.land s1 2 = 0 ∧ Z.land s2 4 = 0) as [H1 H2] by (subst s1 s2; by destruct (md_resource_types m), (md_interfaces m)).
  rewrite (validate_app _ _ 0 s1) by (apply validate_named; auto). rewrite (validate_app _ _ s1 s2) by (apply validate_named; auto).
  rewrite (validate_app _ _ s2 s2).
  2:{ destruct (is_nil (md_content_formats m)) eqn:En; [done|]. apply is_nil_false in En.
      destruct (formats_facts _ En Hf) as (_ & Hw & Hl). cbn [validate_all]. unbind. unfold validate_attribute, value_and. cbn [at_name at_value te_raw].
      change (core_name (lit "ct")) with (Some (lit "ct")). cbn beta iota. change (name_bit (lit "ct")) with 0. rewrite Z.land_0_r, Z.lor_0_r.
      rewrite Hl, Hw. assert (forallb (fun w => cardinal w && is_some (parse_uint 16 w)) (map print_dec (md_content_formats m)) = true) as ->; [|done].
      apply forallb_forall. intros w (x & <- & Hx)%in_map_iff. apply list_elem_of_In in Hx. rewrite Forall_forall in Hf. specialize (Hf x Hx).
      destruct (print_dec_facts x) as (_ & _ & -> & _); [unfold in_u in Hf; lia|]. by rewrite parse_print_dec by (unfold in_u, max_u in *; lia). }
  set (s3 := match md_size_estimate m with Some _ => Z.lor s2 4 | None => s2 end). rewrite (validate_app _ _ s2 s3).
  2:{ subst s3. destruct (md_size_estimate m) as [v|]; [|done]. cbn [validate_all]. unbind. unfold validate_attribute, value_and. cbn [at_name at_value te_raw].
      change (core_name (lit "sz")) with (Some (lit "sz")). cbn beta iota. cbn [te_escaped]. change (name_bit (lit "sz")) with 4. rewrite H2.
      destruct (print_dec_facts v Hsz) as (_ & _ & Hc & _). by rewrite Hc. }
  rewrite (validate_app _ _ s3 s3).
  2:{ destruct (md_observable m); [|done]. cbn [validate_all]. unbind. unfold validate_attribute. cbn [at_name].
      change (core_name (lit "obs")) with (Some (lit "obs")). cbn beta iota. change (name_bit (lit "obs")) with 0. by rewrite Z.land_0_r, Z.lor_0_r. }
  exists s3. by apply validate_ext.
Qed.

(** *** The readers *)
Definition logical (a : Attribute) : list Z * option (list Z) := (at_name a, option_map Text_chars (at_value a)).
(** What a [Metadata] says, by name. *)
Definition md_logical (m : Metadata) : list (list Z * option (list Z)) :=
  let named name v := match v with Some v => [(name, Some v)] | None => [] end in
  named (lit "rt") (md_resource_types m) ++ named (lit "if") (md_interfaces m)
  ++ (if is_nil (md_content_formats m) then [] else [(lit "ct", Some (formats_text (md_content_formats m)))])
  ++ named (lit "sz") (option_map print_dec (md_size_estimate m))
  ++ (if md_observable m then [(lit "obs", None)] else [])
  ++ map (fun e => (ex_name e, ex_value e)) (md_extensions m).

Lemma md_attrs_logical m : md_typed m → map logical (md_attrs m) = md_logical m.
Proof.
  intros [Hf _]. unfold md_attrs, md_logical. rewrite !map_app. repeat f_equal.
  - destruct (md_resource_types m) as [v|]; [|done]. cbn. unfold logical. cbn. unfold Text_chars. cbn. by rewrite unescape_escape.
  - destruct (md_interfaces m) as [v|]; [|done]. cbn. unfold logical. cbn. unfold Text_chars. cbn. by rewrite unescape_escape.
  - destruct (is_nil (md_content_formats m)) eqn:En; [done|]. apply is_nil_false in En. destruct (formats_facts _ En Hf) as (Hp & _).
    unfold logical, Text_chars. cbn [map at_name at_value option_map te_escaped te_raw]. destruct (plain_escape _ Hp) as [He _].
    rewrite <- He at 1. by rewrite unescape_escape.
  - by destruct (md_size_estimate m).
  - by destruct (md_observable m).
  - rewrite map_map. apply map_ext. intros [n [v|]]; unfold logical, ext_attr; cbn; [|done]. unfold Text_chars. cbn. by rewrite unescape_escape.
Qed.

(** Attributes of another name are skipped. *)
Lemma not_core_eq name k : core_name name = None → k ∈ core_names → eq_ignore_ascii_case name k = false.
Proof. intros Hc Hk. apply (List.find_none _ _ Hc k). by apply list_elem_of_In. Qed.
Lemma find_ext {A} (p : A → bool) l : (∀ x, x ∈ l → p x = false) → List.find p l = None ∧ List.filter p l = [] ∧ existsb p l = false.
Proof.
  induction l as [|x l IH]; intros Hp; [done|]. destruct IH as (? & ? & ?); [intros y Hy; apply Hp; by right|].
  cbn. rewrite (Hp x) by left. auto.
Qed.
Lemma ext_not_core l k : Forall valid_ext l → k ∈ core_names →
  let p a := eq_ignore_ascii_case (at_name a) k in
  List.find p (map ext_attr l) = None ∧ List.filter p (map ext_attr l) = [] ∧ existsb p (map ext_attr l) = false.
Proof.
  intros Hl Hk p. apply find_ext. intros a Ha. apply list_elem_of_In, in_map_iff in Ha as (e & <- & He).
  rewrite Forall_forall in Hl. destruct (Hl e) as [Hc _]; [by apply list_elem_of_In|]. by apply not_core_eq.
Qed.

Lemma read_metadata m u link :
  Metadata_validate m = Ok u → md_typed m → attributes (E:=LinkError) link = Ok (md_attrs m) →
  content_formats (E:=LinkError) link = Ok (md_content_formats m) ∧
  size_estimate (E:=LinkError) link = Ok (option_map Bytes (md_size_estimate m)) ∧
  observable (E:=LinkError) link = Ok (md_observable m).
Proof.
  intros Hv [Hf Hsz] Ha. destruct (valid_metadata m u Hv) as (_ & _ & He).
  unfold content_formats, size_estimate, observable, value. unbind. rewrite Ha. unfold md_attrs.
  destruct (ext_not_core _ (lit "ct") He ltac:(vm_compute; set_solver)) as (_ & Hct & _).
  destruct (ext_not_core _ (lit "sz") He ltac:(vm_compute; set_solver)) as (Hfsz & _ & _).
  destruct (ext_not_core _ (lit "obs") He ltac:(vm_compute; set_solver)) as (_ & _ & Hobs).
  split_and!; f_equal.
  - rewrite !List.filter_app, Hct, app_nil_r.
    destruct (is_nil (md_content_formats m)) eqn:En.
    + apply is_nil_true in En as ->. by destruct (md_resource_types m), (md_interfaces m), (md_size_estimate m), (md_observable m).
    + apply is_nil_false in En. destruct (formats_facts _ En Hf) as (_ & Hw & _).
      transitivity (omap (parse_uint 16) (words (formats_text (md_content_formats m)) ++ [])).
      { destruct (md_resource_types m), (md_interfaces m), (md_size_estimate m), (md_observable m); reflexivity. }
      rewrite app_nil_r, Hw. clear -Hf. induction Hf as [|x l Hx Hl IH]; [done|]. cbn [map omap list_omap].
      rewrite parse_print_dec by (unfold in_u, max_u in *; lia). by rewrite IH.
  - destruct (md_size_estimate m) as [v|].
    + transitivity (option_map (fun t => match parse_uint 64 (te_raw t) with Some n => Bytes n | None => Larger end) (Some (mkText (print_dec v) false))).
      { by destruct (md_resource_types m), (md_interfaces m), (is_nil (md_content_formats m)). }
      cbn [option_map te_raw]. by rewrite parse_print_dec by (unfold in_u, max_u in *; lia).
    + transitivity (option_map (fun t => match parse_uint 64 (te_raw t) with Some n => Bytes n | None => Larger end)
        (a ← List.find (fun a => eq_ignore_ascii_case (at_name a) (lit "sz")) (map ext_attr (md_extensions m)); at_value a)); [|by rewrite Hfsz].
      by destruct (md_resource_types m), (md_interfaces m), (is_nil (md_content_formats m)), (md_observable m).
  - rewrite !existsb_app, Hobs.
    destruct (md_resource_types m), (md_interfaces m), (is_nil (md_content_formats m)), (md_size_estimate m), (md_observable m); reflexivity.
Qed.

Section roundtrip.
Context `{Target}.

(** What is written is read back.  A written link parses to itself and
    nothing else, with its target and all its attributes in order, their texts
    those of the metadata whatever quotes and backslashes they contain, and the
    readers return the content formats, the size estimate and the observation
    hint that were written. *)
Theorem link_roundtrip target m output output' n :
  usize_ok (length output) → md_typed m → write_link target m output = (output', Ok n) →
  ∃ link attrs,
    parse (take n output') = [Ok link] ∧ li_target link = target ∧
    attributes (E:=LinkError) link = Ok attrs ∧ map logical attrs = md_logical m ∧
    content_formats (E:=LinkError) link = Ok (md_content_formats m) ∧
    size_estimate (E:=LinkError) link = Ok (option_map Bytes (md_size_estimate m)) ∧
    observable (E:=LinkError) link = Ok (md_observable m) ∧
    drop n output' = drop n output.
Proof.
  intros Ho Ht Hw. destruct (write_link_ok target m output output' n Ho Hw) as (u & Hu & Hv & -> & -> & Hl).
  set (c := (target, md_attrs m)).
  assert (entry_ok c) as Hc.
  { split_and!; [done|by eapply md_attrs_ok|by eapply md_attrs_valid]. }
  assert (attributes (E:=LinkError) (entry_link c) = Ok (md_attrs m)) as Ha.
  { destruct Hc as (_ & Hf & _). unfold attributes. apply attributes_wire; [done|]. apply attrs_wire_length. }
  destruct (read_metadata m u (entry_link c) Hv Ht Ha) as (H1 & H2 & H3).
  exists (entry_link c), (md_attrs m). split_and!; try done.
  - unfold splice. rewrite take_0. cbn [app]. rewrite take_app_length. unfold parse.
    rewrite (collect_wires [c]); [done|by constructor|]. pose proof (entry_wire_length c). simpl. lia.
  - by apply md_attrs_logical.
  - unfold splice. rewrite take_0. cbn [app]. by rewrite drop_app_length.
Qed.
End roundtrip.

(** ** Witnesses *)
Definition ex_meta : Metadata :=
  mkMeta (Some (lit "temperature-c")) (Some (lit "sensor coap://x/y")) [0; 41; 65535] (Some 1024) true
    [mkExt (lit "title") (Some [65; 34; 92; 206; 177]); mkExt (lit "flag") None].

Lemma links_parse_iff_witness :
  parse (lit "</a>;rt=x;ct=40,</b%20>") = Ok <$> [mkLink (lit "/a") (lit ";rt=x;ct=40"); mkLink (lit "/b%20") []].
Proof.
  apply (proj1 (links_parse_iff (lit "</a>;rt=x;ct=40,</b%20>"))).
  exists [(lit "/a", [mkAttr (lit "rt") (Some (mkText (lit "x") false)); mkAttr (lit "ct") (Some (mkText (lit "40") false))]); (lit "/b%20", [])].
  split; [|split; reflexivity]. constructor; [|constructor; [|constructor]].
  - split; [reflexivity|]. split; [|by eexists]. constructor; [|constructor; [|constructor]]; (split; [by apply simple_name|done]).
  - split; [reflexivity|]. split; [constructor|by eexists].
Defined.
Lemma link_write_outcome_witness :
  write_link (H:=target64) (lit "/s") ex_meta (replicate 8 0) = (replicate 8 0, Err LOutputTooSmall).
Proof.
  destruct (link_write_outcome (H:=target64) (lit "/s") ex_meta (replicate 8 0)) as [Hw _]; [unfold usize_ok; simpl; lia|].
  rewrite Hw. reflexivity.
Defined.
Lemma link_roundtrip_witness :
  ∃ output n link, write_link (H:=target64) (lit "/s") ex_meta (replicate 200 0) = (output, Ok n) ∧
    parse (take n output) = [Ok link] ∧ content_formats (E:=LinkError) link = Ok [0; 41; 65535].
Proof.
  destruct (write_link (H:=target64) (lit "/s") ex_meta (replicate 200 0)) as [output r] eqn:Ew.
  assert (r = Ok 95%nat) as -> by (apply (f_equal snd) in Ew; cbn [snd] in Ew; rewrite <- Ew; reflexivity).
  destruct (link_roundtrip (H:=target64) (lit "/s") ex_meta (replicate 200 0) output 95) as (link & attrs & Hp & _ & _ & _ & Hc & _).
  - unfold usize_ok. simpl. lia.
  - split; [repeat constructor; unfold in_u; simpl; lia|unfold in_u; simpl; lia].
  - exact Ew.
  - exists output, 95%nat, link. split; [reflexivity|]. split; [exact Hp|exact Hc].
Defined.
