(* ===== verification/Uri.v ===== *)
(** * Absolute CoAP URIs

    [src/uri.rs]: the parser of absolute, resolved [coap] and [coaps] URIs and the
    percent decoding of their components.  Text is the list of its bytes
    ([AsciiText]).  The parser of IPv6 literals is the one of the standard
    library. *)
From Stdlib Require Import String.
From S2P Require Import Prelude Errors MsgTypes Options Encode Decode OptionValues MessageOptions AsciiText.

Inductive Transport : Type := Udp | Dtls.
Inductive UriError : Type := UScheme | UAuthority | UPort | UEncoding | UFragment | UDotSegment | UCapacity.

(** Encoded text; only [parse_uri] makes one. *)
Definition Component : Type := list Z.

(** ** [core::net], IPv6 literals *)
Definition to_digit (radix b : Z) : option Z :=
  let d := if is_ascii_digit b then b - 48
           else if between 97 122 b then b - 87 else if between 65 90 b then b - 55 else radix in
  if d <? radix then Some d else None.

Fixpoint read_digits (radix : Z) (max_digits count : nat) (result : Z) (s : list Z) : option (Z * nat * list Z) :=
  match s with
  | [] => Some (result, count, s)
  | b :: r =>
      match to_digit radix b with
      | None => Some (result, count, s)
      | Some d => if (max_digits <? S count)%nat then None else read_digits radix max_digits (S count) (result * radix + d) r
      end
  end.
Definition read_number (radix : Z) (max_digits : nat) (allow_zero_prefix : bool) (limit : Z) (s : list Z) : option (Z * list Z) :=
  '(result, count, rest) ← read_digits radix max_digits 0 0 s;
  let leading_zero := match s with b :: _ => b =? 48 | [] => false end in
  if (count =? 0)%nat then None
  else if negb allow_zero_prefix && leading_zero && (1 <? count)%nat then None
  else if limit <? result then None
  else Some (result, rest).
Definition read_separator {A} (sep : Z) (index : nat) (inner : list Z → option (A * list Z)) (s : list Z) : option (A * list Z) :=
  if (0 <? index)%nat then match s with b :: s => if b =? sep then inner s else None | [] => None end else inner s.
Fixpoint read_octets (n i : nat) (s : list Z) : option (list Z * list Z) :=
  match n with
  | O => Some ([], s)
  | S n =>
      '(b, s) ← read_separator 46 i (read_number 10 3 false 255) s;
      '(l, s) ← read_octets n (S i) s;
      Some (b :: l, s)
  end.
Definition read_ipv4_addr (s : list Z) : option (list Z * list Z) := read_octets 4 0 s.
(** The groups read, whether they end in an IPv4 address, and what is left. *)
Fixpoint read_groups (n i : nat) (s : list Z) : list Z * bool * list Z :=
  match n with
  | O => ([], false, s)
  | S n =>
      match (if (0 <? n)%nat then read_separator 58 i read_ipv4_addr s else None) with
      | Some ([a; b; c; d], s) => ([a * 256 + b; c * 256 + d], true, s)
      | _ =>
          match read_separator 58 i (read_number 16 4 true 65535) s with
          | None => ([], false, s)
          | Some (g, s) => let '(l, v4, s) := read_groups n (S i) s in (g :: l, v4, s)
          end
      end
  end.
Definition read_ipv6_addr (s : list Z) : option (list Z * list Z) :=
  let '(head, v4, s) := read_groups 8 0 s in
  if (length head =? 8)%nat then Some (head, s)
  else if v4 then None
  else
    s ← strip_prefix (lit "::") s;
    let '(tail, _, s) := read_groups (8 - (length head + 1)) 0 s in
    Some (head ++ replicate (8 - length head - length tail) 0 ++ tail, s).
(** [str::parse::<Ipv6Addr>], as eight groups. *)
Definition parse_ipv6 (s : list Z) : option (list Z) :=
  '(address, rest) ← read_ipv6_addr s; if is_nil rest then Some address else None.

(** ** Percent encoding *)
Definition unreserved (b : Z) : bool := is_ascii_alphanumeric b || one_of (lit "-._~") b.
Definition subdelim (b : Z) : bool := one_of (lit "!$&'()*+,;=") b.
Definition pchar (b : Z) : bool := unreserved b || subdelim b || (b =? 58) || (b =? 64).
Definition hex (b : Z) : option Z :=
  if between 48 57 b then Some (b - 48)
  else if between 97 102 b then Some (b - 97 + 10)
  else if between 65 70 b then Some (b - 65 + 10)
  else None.

(** The bytes the iterator yields up to its first [None]. *)
Fixpoint decoded (s : list Z) : list Z :=
  match s with
  | [] => []
  | b :: s =>
      if b =? 37 then
        match s with
        | h :: l :: s => match hex h, hex l with Some h, Some l => Z.lor (shl 8 h 4) l :: decoded s | _, _ => [] end
        | _ => []
        end
      else b :: decoded s
  end.

(** The first loop of [validate]. *)
Fixpoint chars_allowed (allowed : Z → bool) (s : list Z) : res UriError unit :=
  match s with
  | [] => mret tt
  | b :: s =>
      if b =? 37 then
        match s with
        | h :: l :: s => match hex h, hex l with Some _, Some _ => chars_allowed allowed s | _, _ => Err UEncoding end
        | _ => Err UEncoding
        end
      else if negb (allowed b) then Err UEncoding else chars_allowed allowed s
  end.
(** The second: one decoded scalar at a time. *)
Definition scalar_ok (scalar : list Z) : bool := utf8_valid scalar.
Fixpoint scalars_valid (bs : list Z) : res UriError unit :=
  match bs with
  | [] => mret tt
  | first :: r0 =>
      if between 0 127 first then if scalar_ok [first] then scalars_valid r0 else Err UEncoding
      else if between 194 223 first then
        match r0 with b1 :: r1 => if scalar_ok [first; b1] then scalars_valid r1 else Err UEncoding | _ => Err UEncoding end
      else if between 224 239 first then
        match r0 with
        | b1 :: b2 :: r2 => if scalar_ok [first; b1; b2] then scalars_valid r2 else Err UEncoding
        | _ => Err UEncoding
        end
      else if between 240 244 first then
        match r0 with
        | b1 :: b2 :: b3 :: r3 => if scalar_ok [first; b1; b2; b3] then scalars_valid r3 else Err UEncoding
        | _ => Err UEncoding
        end
      else Err UEncoding
  end.
Definition validate (allowed : Z → bool) (input : list Z) : res UriError unit :=
  chars_allowed allowed input;; scalars_valid (decoded input).

(** [Component::decode] into the caller's buffer. *)
Definition decoded_len (c : Component) : nat := length (decoded c).
Definition Component_decode (c : Component) : st (list Z) UriError (list Z) :=
  let n := decoded_len c in
  output ← st_get;
  if (length output <? n)%nat then st_fail UCapacity
  else
    st_upd (copy_into 0 n (decoded c));;
    output ← st_get;
    out ← st_lift (slice_idx output 0 n);
    if utf8_valid out then mret out else st_fail UEncoding.

(** ** URIs *)
Inductive Host : Type :=
  | HName (name : Component)
  | HIpv6 (address : list Z) (zone : option Component).

Record Uri : Type := mkUri {
  ur_transport : Transport;
  ur_authority : list Z;
  ur_host : Host;
  ur_port : Z;
  ur_path : list Z;
  ur_query : option (list Z)
}.

Definition path_segments (u : Uri) : list Component :=
  if is_nil (ur_path u) || eqb (ur_path u) (lit "/") then []
  else match strip_prefix (lit "/") (ur_path u) with Some p => split 47 p | None => [] end.
Definition query_arguments (u : Uri) : list Component :=
  match ur_query u with Some q => split 38 q | None => [] end.

(** [.] and [..], in whatever spelling. *)
Definition is_dot_segment (c : Component) : bool :=
  match decoded c with
  | [b] => b =? 46
  | [b; b'] => (b =? 46) && (b' =? 46)
  | _ => false
  end.

Definition parse_literal (literal : list Z) : res UriError (Host * option (list Z)) :=
  '(host, suffix) ← ok_or (split_once 93 literal) UAuthority;
  port ← (if is_nil suffix then mret None
          else p ← ok_or (strip_prefix (lit ":") suffix) UAuthority; mret (Some p));
  '(address, zone) ←
    (match split_once_str (lit "%25") host with
     | Some (address, zone) =>
         if negb (is_nil zone) then validate unreserved zone;; mret (address, Some zone) else Err UAuthority
     | None => mret (host, None)
     end);
  address ← ok_or (parse_ipv6 address) UAuthority;
  mret (HIpv6 address zone, port).
Definition parse_name (authority : list Z) : res UriError (Host * option (list Z)) :=
  let '(name, port) := match split_once 58 authority with Some (n, p) => (n, Some p) | None => (authority, None) end in
  if is_nil name then Err UAuthority
  else
    validate (fun b => unreserved b || subdelim b) name;;
    mret (HName name, port).
Definition parse_port (t : Transport) (port : option (list Z)) : res UriError Z :=
  match port with
  | None => mret (match t with Udp => 5683 | Dtls => 5684 end)
  | Some value =>
      if is_nil value then mret (match t with Udp => 5683 | Dtls => 5684 end)
      else if negb (forallb is_ascii_digit value) then Err UPort
      else ok_or (parse_uint 16 value) UPort
  end.

Definition parse_uri (input : list Z) : res UriError Uri :=
  if existsb (Z.eqb 35) input then Err UFragment
  else
    '(scheme, rest) ← ok_or (split_once_str (lit "://") input) UScheme;
    transport ← (if eq_ignore_ascii_case scheme (lit "coap") then mret Udp
                 else if eq_ignore_ascii_case scheme (lit "coaps") then mret Dtls else Err UScheme);
    let stop := match position (fun b => (b =? 47) || (b =? 63)) rest with Some i => i | None => length rest end in
    let authority := take stop rest in
    if is_nil authority || existsb (Z.eqb 64) authority then Err UAuthority
    else
      '(host, port) ← (match strip_prefix (lit "[") authority with
                       | Some literal => parse_literal literal
                       | None => parse_name authority
                       end);
      port ← parse_port transport port;
      let tail := drop stop rest in
      let '(path, query) := match split_once 63 tail with Some (p, q) => (p, Some q) | None => (tail, None) end in
      validate (fun b => pchar b || (b =? 47)) path;;
      (match query with Some q => validate (fun b => pchar b || (b =? 47) || (b =? 63)) q | None => mret tt end);;
      let uri := mkUri transport authority host port path query in
      if existsb is_dot_segment (path_segments uri) then Err UDotSegment else mret uri.

(** * Laws of URIs

    Percent decoding against UTF-8 ([Uri.validate] checks one scalar at a time,
    pieces are cut out afterwards), what an accepted URI guarantees to the code
    that turns its components into options, and the round trip with the
    composition of a URI from options. *)
(** ** UTF-8 *)
Lemma scalars_utf8 bs : scalars_valid bs = Ok tt → utf8_valid bs = true.
Proof.
  induction bs as [bs IH] using (induction_ltof1 _ length). unfold ltof in IH. destruct bs as [|b r0]; [done|]. cbn [scalars_valid].
  unfold scalar_ok. destruct (between 0 127 b) eqn:E0.
  { unfold between in E0. bools. destruct (utf8_valid [b]); [|done]. intros Hr. cbn [utf8_valid]. rewrite (proj2 (Z.leb_le _ _)) by done.
    apply IH; [simpl; lia|done]. }
  destruct (between 194 223 b) eqn:E1.
  { destruct r0 as [|b1 r1]; [done|]. destruct (utf8_valid [b; b1]) eqn:Ev; [|done]. intros Hr. specialize (IH r1 ltac:(simpl; lia) Hr).
    cbn [utf8_valid] in *. change (in_range 194 223 b) with (between 194 223 b) in *. rewrite E1 in *.
    assert ((b <=? 127) = false) as Hb by (unfold between in E1; bools; apply Z.leb_gt; lia). rewrite Hb in *.
    apply andb_true_iff in Ev as [-> _]. done. }
  destruct (between 224 239 b) eqn:E2.
  { destruct r0 as [|b1 [|b2 r2]]; [done..|]. destruct (utf8_valid [b; b1; b2]) eqn:Ev; [|done]. intros Hr. specialize (IH r2 ltac:(simpl; lia) Hr).
    cbn [utf8_valid] in *. change (in_range 194 223 b) with (between 194 223 b) in *. change (in_range 224 239 b) with (between 224 239 b) in *. rewrite E1, E2 in *.
    assert ((b <=? 127) = false) as Hb by (unfold between in E2; bools; apply Z.leb_gt; lia). rewrite Hb in *.
    apply andb_true_iff in Ev as [-> _]. done. }
  destruct (between 240 244 b) eqn:E3; [|done].
  destruct r0 as [|b1 [|b2 [|b3 r3]]]; [done..|]. destruct (utf8_valid [b; b1; b2; b3]) eqn:Ev; [|done]. intros Hr. specialize (IH r3 ltac:(simpl; lia) Hr).
  cbn [utf8_valid] in *. change (in_range 194 223 b) with (between 194 223 b) in *. change (in_range 224 239 b) with (between 224 239 b) in *. rewrite E1, E2 in *.
  assert ((b <=? 127) = false) as Hb by (unfold between in E3; bools; apply Z.leb_gt; lia). rewrite Hb in *.
  apply andb_true_iff in Ev as [-> _]. done.
Qed.

Lemma utf8_scalars bs : bytes_ok bs → utf8_valid bs = true → scalars_valid bs = Ok tt.
Proof.
  induction bs as [bs IH] using (induction_ltof1 _ length). unfold ltof in IH. intros Hok. destruct bs as [|b r0]; [done|].
  pose proof (Forall_inv Hok) as Hb. cbn [utf8_valid scalars_valid]. unfold scalar_ok.
  destruct (Z.leb_spec b 127) as [Hlo|Hhi].
  { intros Hv. assert (between 0 127 b = true) as -> by (unfold between, in_u in *; apply andb_true_iff; rewrite !Z.leb_le; lia).
    cbn [utf8_valid]. rewrite (proj2 (Z.leb_le _ _)) by done. apply IH; [simpl; lia|by eapply Forall_inv_tail|done]. }
  assert (between 0 127 b = false) as -> by (unfold between; rewrite (proj2 (Z.leb_gt b 127)) by done; apply andb_false_r).
  apply Forall_inv_tail in Hok. destruct r0 as [|b1 r1]; [done|]. apply Forall_inv_tail in Hok.
  change (in_range 194 223 b) with (between 194 223 b). destruct (between 194 223 b) eqn:E1.
  { intros [Hc Hv]%andb_true_iff. cbn [utf8_valid]. rewrite (proj2 (Z.leb_gt _ _)) by done.
    change (in_range 194 223 b) with (between 194 223 b). rewrite E1, Hc. cbn [andb]. apply IH; [simpl; lia|done|done]. }
  destruct r1 as [|b2 r2]; [done|]. apply Forall_inv_tail in Hok. change (in_range 224 239 b) with (between 224 239 b). destruct (between 224 239 b) eqn:E2.
  { intros [Hc Hv]%andb_true_iff. cbn [utf8_valid]. rewrite (proj2 (Z.leb_gt _ _)) by done.
    change (in_range 194 223 b) with (between 194 223 b). change (in_range 224 239 b) with (between 224 239 b). rewrite E1, E2, Hc. cbn [andb].
    apply IH; [simpl; lia|done|done]. }
  destruct r2 as [|b3 r3]; [done|]. apply Forall_inv_tail in Hok. change (in_range 240 244 b) with (between 240 244 b). destruct (between 240 244 b) eqn:E3; [|done].
  intros [Hc Hv]%andb_true_iff. cbn [utf8_valid]. rewrite (proj2 (Z.leb_gt _ _)) by done.
  change (in_range 194 223 b) with (between 194 223 b). change (in_range 224 239 b) with (between 224 239 b). change (in_range 240 244 b) with (between 240 244 b).
  rewrite E1, E2, E3, Hc. cbn [andb]. apply IH; [simpl; lia|done|done].
Qed.

(** An ASCII character separates characters. *)
Lemma utf8_split a c r : (c <=? 127) = true → utf8_valid (a ++ c :: r) = true → utf8_valid a = true ∧ utf8_valid r = true.
Proof.
  intros Hc. assert (∀ lo hi, 128 ≤ lo → in_range lo hi c = false) as Hno.
  { intros lo hi Hlo. unfold in_range. apply Z.leb_le in Hc. by rewrite (proj2 (Z.leb_gt lo c)) by lia. }
  assert (utf8_cont c = false) as Hcont by (unfold utf8_cont; apply Hno; lia).
  induction a as [a IH] using (induction_ltof1 _ length). unfold ltof in IH. destruct a as [|b a]; cbn [app utf8_valid].
  { by rewrite Hc. }
  destruct (b <=? 127); [apply IH; simpl; lia|]. destruct a as [|b1 a]; cbn [app].
  { rewrite Hcont. destruct (in_range 194 223 b); [done|]. destruct r as [|x r]; [done|].
    rewrite (Hno (if b =? 224 then 160 else 128)), (Hno (if b =? 240 then 144 else 128)) by (destruct (_ =? _); lia).
    destruct (in_range 224 239 b); [done|]. destruct r; [done|]. by destruct (in_range 240 244 b). }
  destruct (in_range 194 223 b). { intros [-> Hv]%andb_true_iff. cbn [andb]. apply IH; [simpl; lia|done]. }
  destruct a as [|b2 a]; cbn [app].
  { rewrite Hcont, !andb_false_r. destruct (in_range 224 239 b); [done|]. by destruct r. }
  destruct (in_range 224 239 b). { intros [-> Hv]%andb_true_iff. cbn [andb]. apply IH; [simpl; lia|done]. }
  destruct a as [|b3 a]; cbn [app]. { by rewrite Hcont, !andb_false_r. }
  intros [-> Hv]%andb_true_iff. cbn [andb]. apply IH; [simpl; lia|done].
Qed.

(** ** Percent decoding *)
(** Every escape is complete. *)
Definition well_escaped (s : list Z) : Prop := chars_allowed (fun _ => true) s = Ok tt.

Lemma chars_weaken (p q : Z → bool) s : (∀ b, p b = true → q b = true) → chars_allowed p s = Ok tt → chars_allowed q s = Ok tt.
Proof.
  intros Hpq. induction s as [s IH] using (induction_ltof1 _ length). unfold ltof in IH. destruct s as [|b s]; [done|]. cbn [chars_allowed].
  destruct (b =? 37).
  - destruct s as [|h [|l s]]; [done..|]. destruct (hex h), (hex l); try done. apply IH. simpl. lia.
  - destruct (p b) eqn:Ep; [|done]. rewrite (Hpq b Ep). cbn [negb]. apply IH. simpl. lia.
Qed.
Lemma chars_split p a c r :
  hex c = None → c ≠ 37 → chars_allowed p (a ++ c :: r) = Ok tt → chars_allowed p a = Ok tt ∧ chars_allowed p r = Ok tt.
Proof.
  intros Hh Hc. induction a as [a IH] using (induction_ltof1 _ length). unfold ltof in IH. destruct a as [|b a]; cbn [app chars_allowed].
  { rewrite (proj2 (Z.eqb_neq _ _)) by done. by destruct (p c). }
  destruct (b =? 37).
  - destruct a as [|h [|l a]]; cbn [app].
    + rewrite Hh. by destruct r.
    + rewrite Hh. by destruct (hex h).
    + destruct (hex h), (hex l); try done. apply IH. simpl. lia.
  - destruct (p b); [|done]. cbn [negb]. apply IH. simpl. lia.
Qed.
Lemma decoded_app a r : well_escaped a → decoded (a ++ r) = decoded a ++ decoded r.
Proof.
  unfold well_escaped. induction a as [a IH] using (induction_ltof1 _ length). unfold ltof in IH. destruct a as [|b a]; [done|].
  cbn [app chars_allowed decoded]. destruct (b =? 37).
  - destruct a as [|h [|l a]]; cbn [app]; [done..|]. destruct (hex h), (hex l); try done. intros Ha. cbn [app]. f_equal. apply IH; [simpl; lia|done].
  - cbn [negb]. intros Ha. cbn [app]. f_equal. apply IH; [simpl; lia|done].
Qed.

(** What a validated text offers: complete escapes and UTF-8 behind them. *)
Definition decodes (c : Component) : Prop := well_escaped c ∧ utf8_valid (decoded c) = true.
Lemma validate_decodes p s : validate p s = Ok tt → decodes s.
Proof.
  unfold validate. unbind. destruct (chars_allowed p s) as [[]| | |] eqn:Ec; try done. intros Hs. split; [|by apply scalars_utf8].
  by eapply chars_weaken; [|exact Ec].
Qed.
Lemma decodes_split c s : hex c = None → c ≠ 37 → (c <=? 127) = true → decodes s → Forall decodes (split c s).
Proof.
  intros Hh Hc Ha. rewrite <- (join_split c s) at 1. induction (split c s) as [|w ws IH]; intros Hd; [constructor|].
  destruct ws as [|w' ws]; [by constructor|]. rewrite join_cons in Hd by done. destruct Hd as [Hw Hu].
  destruct (chars_split _ w c _ Hh Hc Hw) as [Hw1 Hw2]. rewrite decoded_app in Hu by done. cbn [decoded] in Hu.
  rewrite (proj2 (Z.eqb_neq _ _)) in Hu by done. destruct (utf8_split _ _ _ Ha Hu) as [Hu1 Hu2]. constructor; [by split|]. apply IH. by split.
Qed.

(** [decode] never finds a bad character and reports a short buffer only. *)
Lemma component_decode_ok c output : decodes c →
  Component_decode c output =
    if (length output <? length (decoded c))%nat then (output, Err UCapacity) else (splice output 0 (decoded c), Ok (decoded c)).
Proof.
  intros [_ Hu]. unfold Component_decode, decoded_len. unbind. destruct (Nat.ltb_spec (length output) (length (decoded c))); [done|].
  rewrite copy_into_ok by done. rewrite slice_prefix by (rewrite length_splice; lia). cbn beta iota.
  assert (take (length (decoded c)) (splice output 0 (decoded c)) = decoded c) as ->; [|by rewrite Hu].
  unfold splice. rewrite take_0. cbn [app]. apply take_app_length.
Qed.

(** Where the pieces of a URI come from. *)
Definition host_components (h : Host) : list Component :=
  match h with HName n => [n] | HIpv6 _ (Some z) => [z] | HIpv6 _ None => [] end.
Definition components (u : Uri) : list Component := host_components (ur_host u) ++ path_segments u ++ query_arguments u.

Lemma split_once_str_Some p s a r : split_once_str p s = Some (a, r) → s = a ++ p ++ r.
Proof.
  revert a. induction s as [|b s IH]; intros a; simpl.
  - destruct (strip_prefix p []) as [r'|] eqn:Es; [|done]. intros [= <- <-]. by apply strip_prefix_Some in Es.
  - destruct (strip_prefix p (b :: s)) as [r'|] eqn:Es; [intros [= <- <-]; by apply strip_prefix_Some in Es|].
    destruct (split_once_str p s) as [[a' r']|]; [|done]. intros [= <- <-]. cbn [app]. f_equal. by apply IH.
Qed.
Lemma parse_literal_ok l h port : parse_literal l = Ok (h, port) → Forall decodes (host_components h).
Proof.
  unfold parse_literal. unbind. destruct (split_once 93 l) as [[host suffix]|]; [|done]. cbn [ok_or]. cbn beta iota.
  destruct (if is_nil suffix then _ else _) as [p| | |]; try done. destruct (split_once_str (lit "%25") host) as [[address zone]|].
  - destruct (is_nil zone); [done|]. cbn [negb]. destruct (validate unreserved zone) as [[]| | |] eqn:Ev; try done.
    destruct (parse_ipv6 address); [|done]. cbn [ok_or]. cbn beta iota. intros [= <- _]. constructor; [by eapply validate_decodes|constructor].
  - destruct (parse_ipv6 host); [|done]. cbn [ok_or]. cbn beta iota. intros [= <- _]. constructor.
Qed.
Lemma parse_name_ok a h port : parse_name a = Ok (h, port) → Forall decodes (host_components h).
Proof.
  unfold parse_name. destruct (match split_once 58 a with Some (n, p) => _ | None => _ end) as [name q]. destruct (is_nil name); [done|]. unbind.
  destruct (validate _ name) as [[]| | |] eqn:Ev; try done. intros [= <- _]. constructor; [by eapply validate_decodes|constructor].
Qed.
Lemma path_segments_decode u : decodes (ur_path u) → Forall decodes (path_segments u).
Proof.
  intros Hd. unfold path_segments. destruct (_ || _); [constructor|]. destruct (strip_prefix (lit "/") (ur_path u)) as [p|] eqn:Es; [|constructor].
  apply strip_prefix_Some in Es. apply decodes_split; [done|done|done|]. rewrite Es in Hd. by apply Hd.
Qed.

Lemma parse_port_bound t port p : parse_port t port = Ok p → in_u 16 p.
Proof.
  unfold parse_port. assert (in_u 16 (match t with Udp => 5683 | Dtls => 5684 end)) as Hd by (destruct t; unfold in_u; lia).
  destruct port as [v|]; [|by intros [= <-]]. destruct (is_nil v); [by intros [= <-]|]. destruct (negb _); [done|].
  destruct (parse_uint 16 v) as [x|] eqn:Ex; [|done]. intros [= <-]. apply parse_uint_bound in Ex; unfold in_u, max_u in *; lia.
Qed.

(** An accepted URI is taken apart without loss, and its parts are safe to
    use.  The parts put together are the input; every component decodes into
    any buffer that is long enough, to well-formed UTF-8 and exactly its
    decoded length, and leaves a shorter buffer alone; the port is a 16-bit
    number; and no path segment is [.] or [..], however it is spelled. *)
Theorem uri_parse_sound input u :
  parse_uri input = Ok u →
  (∃ scheme, input = scheme ++ lit "://" ++ ur_authority u ++ ur_path u ++ (match ur_query u with Some q => 63 :: q | None => [] end) ∧
     eq_ignore_ascii_case scheme (match ur_transport u with Udp => lit "coap" | Dtls => lit "coaps" end) = true) ∧
  (∀ c output, c ∈ components u →
     Component_decode c output =
       (if (length output <? length (decoded c))%nat then (output, Err UCapacity) else (splice output 0 (decoded c), Ok (decoded c))) ∧
     utf8_valid (decoded c) = true) ∧
  (∀ c, c ∈ path_segments u → decoded c ≠ lit "." ∧ decoded c ≠ lit "..") ∧ in_u 16 (ur_port u).
Proof.
  unfold parse_uri. destruct (existsb _ input); [done|]. unbind.
  destruct (split_once_str (lit "://") input) as [[scheme rest]|] eqn:Es; [|done]. cbn [ok_or]. cbn beta iota. apply split_once_str_Some in Es as ->.
  destruct (if eq_ignore_ascii_case scheme (lit "coap") then _ else _) as [t| | |] eqn:Et; try done.
  set (stop := match position _ rest with Some i => i | None => length rest end). destruct (_ || _); [done|].
  destruct (match strip_prefix (lit "[") (take stop rest) with Some _ => _ | None => _ end) as [[host port]| | |] eqn:Eh; try done.
  destruct (parse_port t port) as [p| | |] eqn:Ep; try done.
  destruct (match split_once 63 (drop stop rest) with Some (_, _) => _ | None => _ end) as [path query] eqn:Eq.
  destruct (validate _ path) as [[]| | |] eqn:Evp; try done.
  destruct (match query with Some q => _ | None => _ end) as [[]| | |] eqn:Evq; try done.
  destruct (existsb is_dot_segment _) eqn:Ed; [done|]. intros [= <-]. cbn [ur_authority ur_path ur_query ur_transport].
  assert (Forall decodes (components (mkUri t (take stop rest) host p path query))) as Hall.
  { unfold components. cbn [ur_host]. apply Forall_app_2; [|apply Forall_app_2].
    - destruct (strip_prefix _ _); [by eapply parse_literal_ok|by eapply parse_name_ok].
    - apply path_segments_decode. by eapply validate_decodes.
    - unfold query_arguments. cbn [ur_query]. destruct query as [q|]; [|constructor]. apply decodes_split; [done..|]. by eapply validate_decodes. }
  split_and!.
  - exists scheme. split.
    + f_equal. f_equal. rewrite <- (take_drop stop rest) at 1. f_equal.
      destruct (split_once 63 (drop stop rest)) as [[p' q']|] eqn:Eo; injection Eq as <- <-; [by apply split_once_Some in Eo as [-> _]|by rewrite app_nil_r].
    + destruct (eq_ignore_ascii_case scheme (lit "coap")) eqn:E1; [by injection Et as <-|]. destruct (eq_ignore_ascii_case scheme (lit "coaps")) eqn:E2; [by injection Et as <-|done].
  - intros c output Hc. rewrite Forall_forall in Hall. specialize (Hall c Hc). split; [by apply component_decode_ok|apply Hall].
  - intros c Hc. assert (is_dot_segment c = false) as Hn.
    { destruct (is_dot_segment c) eqn:Edc; [|done]. rewrite <- Ed. symmetry. apply existsb_exists. exists c. split; [by apply list_elem_of_In|done]. }
    unfold is_dot_segment in Hn. split; intros He; rewrite He in Hn; done.
  - by eapply parse_port_bound.
Qed.

(** ** Composing a URI from options (RFC 7252 section 6.5) *)
Definition hex_digit (d : Z) : Z := if d <? 10 then 48 + d else 55 + d.
Definition pct_byte (b : Z) : list Z := if unreserved b then [b] else [37; hex_digit (b / 16); hex_digit (b mod 16)].
Definition pct (s : list Z) : list Z := concat (map pct_byte s).
Definition uri_text (t : Transport) (host : list Z) (port : option Z) (segs args : list (list Z)) : list Z :=
  (match t with Udp => lit "coap" | Dtls => lit "coaps" end) ++ lit "://"
  ++ (pct host ++ match port with Some p => 58 :: print_dec p | None => [] end)
  ++ concat (map (fun s => 47 :: pct s) segs)
  ++ (match args with [] => [] | _ => 63 :: join 38 (map pct args) end).

(** A character of the encoding. *)
Definition pct_char (b : Z) : bool := unreserved b || (b =? 37).

Lemma pct_cons b s : pct (b :: s) = pct_byte b ++ pct s.
Proof. done. Qed.
Lemma hex_digit_facts d : 0 ≤ d < 16 → hex (hex_digit d) = Some d ∧ unreserved (hex_digit d) = true.
Proof.
  intros Hd. assert (d = 0 ∨ d = 1 ∨ d = 2 ∨ d = 3 ∨ d = 4 ∨ d = 5 ∨ d = 6 ∨ d = 7 ∨ d = 8 ∨ d = 9 ∨ d = 10 ∨ d = 11 ∨ d = 12 ∨ d = 13 ∨ d = 14 ∨ d = 15) as Hc by lia.
  repeat (destruct Hc as [->|Hc]; [done|]). by subst.
Qed.
Lemma pct_byte_facts b : in_u 8 b → forallb pct_char (pct_byte b) = true ∧ well_escaped (pct_byte b) ∧ decoded (pct_byte b) = [b].
Proof.
  intros Hb. unfold in_u in Hb. unfold pct_byte. destruct (unreserved b) eqn:Eu.
  - assert (b ≠ 37) by (intros ->; by vm_compute in Eu). unfold pct_char, well_escaped. cbn [forallb decoded chars_allowed].
    rewrite Eu, (proj2 (Z.eqb_neq _ _)) by done. done.
  - destruct (hex_digit_facts (b / 16)) as [H1 U1]; [div_lia|]. destruct (hex_digit_facts (b mod 16)) as [H2 U2]; [div_lia|].
    unfold pct_char, well_escaped. cbn [forallb decoded chars_allowed]. change (37 =? 37) with true. cbn beta iota. rewrite H1, H2, U1, U2. cbn [orb andb].
    split_and!; [by rewrite orb_true_r|done|]. f_equal. unfold shl, wrap. rewrite Z.mod_small.
    + rewrite lor_shiftl_add by div_lia. div_lia.
    + rewrite Z.shiftl_mul_pow2 by lia. div_lia.
Qed.
Lemma pct_facts s : bytes_ok s → forallb pct_char (pct s) = true ∧ well_escaped (pct s) ∧ decoded (pct s) = s.
Proof.
  induction 1 as [|b s Hb Hs (IH1 & IH2 & IH3)]; [done|]. rewrite pct_cons. destruct (pct_byte_facts b Hb) as (H1 & H2 & H3).
  rewrite forallb_app, H1, IH1. split_and!; [done| |rewrite decoded_app by done; by rewrite H3, IH3].
  clear -H2 IH2. unfold well_escaped in *. revert H2 IH2. unfold pct_byte. destruct (unreserved b).
  - cbn [app chars_allowed]. destruct (b =? 37); [done|]. done.
  - cbn [app chars_allowed]. change (37 =? 37) with true. cbn beta iota. by destruct (hex (hex_digit (b / 16))), (hex (hex_digit (b mod 16))).
Qed.
Lemma pct_allowed p s : bytes_ok s → (∀ b, unreserved b = true → p b = true) → chars_allowed p (pct s) = Ok tt.
Proof.
  intros Hs Hp. induction Hs as [|b s Hb Hs IH]; [done|]. rewrite pct_cons. unfold in_u in Hb. unfold pct_byte. destruct (unreserved b) eqn:Eu.
  - assert (b ≠ 37) by (intros ->; by vm_compute in Eu). cbn [app chars_allowed]. rewrite (proj2 (Z.eqb_neq _ _)) by done. by rewrite Hp.
  - destruct (hex_digit_facts (b / 16)) as [H1 _]; [div_lia|]. destruct (hex_digit_facts (b mod 16)) as [H2 _]; [div_lia|].
    cbn [app chars_allowed]. change (37 =? 37) with true. cbn beta iota. by rewrite H1, H2.
Qed.
Lemma pct_not s c : bytes_ok s → pct_char c = false → c ∉ pct s.
Proof. intros Hs Hc Hin. pose proof (forallb_elem _ _ _ (proj1 (pct_facts s Hs)) Hin). congruence. Qed.

Lemma existsb_not c s : c ∉ s → existsb (Z.eqb c) s = false.
Proof. intros Hn. apply not_true_iff_false. rewrite existsb_exists. intros (x & Hx & ->%Z.eqb_eq). by apply Hn, list_elem_of_In. Qed.
Lemma chars_app p a r : chars_allowed p a = Ok tt → chars_allowed p (a ++ r) = chars_allowed p r.
Proof.
  induction a as [a IH] using (induction_ltof1 _ length). unfold ltof in IH. destruct a as [|b a]; [done|]. cbn [app chars_allowed].
  destruct (b =? 37).
  - destruct a as [|h [|l a]]; cbn [app]; [done..|]. destruct (hex h), (hex l); try done. apply IH. simpl. lia.
  - destruct (p b); [|done]. cbn [negb]. apply IH. simpl. lia.
Qed.
Lemma utf8_app a r : utf8_valid a = true → utf8_valid r = true → utf8_valid (a ++ r) = true.
Proof.
  intros Ha Hr. revert Ha. induction a as [a IH] using (induction_ltof1 _ length). unfold ltof in IH. destruct a as [|b a]; [done|]. cbn [app utf8_valid].
  destruct (b <=? 127); [apply IH; simpl; lia|]. destruct a as [|b1 a]; [done|]. cbn [app].
  destruct (in_range 194 223 b). { intros [-> Hv]%andb_true_iff. apply IH; [simpl; lia|done]. }
  destruct a as [|b2 a]; [done|]. cbn [app]. destruct (in_range 224 239 b). { intros [-> Hv]%andb_true_iff. apply IH; [simpl; lia|done]. }
  destruct a as [|b3 a]; [done|]. cbn [app]. intros [-> Hv]%andb_true_iff. apply IH; [simpl; lia|done].
Qed.
Lemma stop_at (p : Z → bool) a r : (∀ b, b ∈ a → p b = false) → match r with [] => True | b :: _ => p b = true end →
  match position p (a ++ r) with Some i => i | None => length (a ++ r) end = length a.
Proof.
  intros Ha Hr. induction a as [|b a IH]; cbn [app].
  - destruct r as [|b r]; [done|]. simpl. by rewrite Hr.
  - simpl. rewrite Ha by left. specialize (IH ltac:(intros x Hx; apply Ha; by right)). destruct (position p (a ++ r)) as [i|]; simpl in *; congruence.
Qed.

(** A list of texts, each encoded, around a separator. *)
Section joined.
Context (c : Z).
Definition text_list (ss : list (list Z)) : Prop := Forall (fun s => bytes_ok s ∧ utf8_valid s = true) ss.

Lemma joined_not ss x : text_list ss → pct_char x = false → x ≠ c → x ∉ join c (map pct ss).
Proof.
  intros Hs Hx Hxc. induction Hs as [|s ss [Hs _] Hss IH]; [apply not_elem_of_nil|]. destruct ss as [|s' ss]; [by apply pct_not|].
  cbn [map] in *. rewrite join_cons by done. rewrite elem_of_app, elem_of_cons. pose proof (pct_not s x Hs Hx). tauto.
Qed.
Lemma joined_split ss : text_list ss → pct_char c = false → ss ≠ [] → split c (join c (map pct ss)) = map pct ss.
Proof.
  intros Hs Hx Hne. apply split_join; [by destruct ss|]. rewrite Forall_map. eapply Forall_impl; [exact Hs|]. intros s [Hok _]. by apply pct_not.
Qed.
Lemma joined_valid p ss : c ≠ 37 ∧ 0 ≤ c ≤ 127 → text_list ss → (∀ b, unreserved b = true → p b = true) → p c = true → validate p (join c (map pct ss)) = Ok tt.
Proof.
  intros Hc Hs Hp Hpc. assert (chars_allowed p (join c (map pct ss)) = Ok tt ∧ decoded (join c (map pct ss)) = join c ss) as [H1 H2].
  { induction Hs as [|s ss [Hs _] Hss [IH1 IH2]]; [done|]. destruct (pct_facts s Hs) as (_ & Hw & Hd). pose proof (pct_allowed p s Hs Hp) as Ha.
    destruct ss as [|s' ss]; [done|]. cbn [map] in *. rewrite !join_cons by done. rewrite chars_app, decoded_app by done. cbn [chars_allowed decoded].
    rewrite (proj2 (Z.eqb_neq c 37)) by lia. rewrite Hpc. cbn [negb]. rewrite IH1, IH2, Hd. done. }
  unfold validate. unbind. rewrite H1, H2. apply utf8_scalars.
  - clear H1 H2. induction Hs as [|s ss [Hs _] Hss IH]; [constructor|]. destruct ss as [|s' ss]; [done|]. rewrite join_cons by done.
    apply Forall_app_2; [done|]. constructor; [unfold in_u; lia|]. apply IH.
  - clear H1 H2. induction Hs as [|s ss [_ Hs] Hss IH]; [done|]. destruct ss as [|s' ss]; [done|]. rewrite join_cons by done.
    apply utf8_app; [done|]. cbn [utf8_valid]. rewrite (proj2 (Z.leb_le c 127)) by lia. done.
Qed.
Lemma joined_decoded ss : text_list ss → map decoded (map pct ss) = ss.
Proof. induction 1 as [|s ss [Hs _] Hss IH]; [done|]. cbn [map]. destruct (pct_facts s Hs) as (_ & _ & ->). by rewrite IH. Qed.
End joined.

Lemma path_text segs : segs ≠ [] → concat (map (fun s => 47 :: pct s) segs) = 47 :: join 47 (map pct segs).
Proof.
  induction segs as [|s segs IH]; [done|]. intros _. destruct segs as [|s' segs]; [simpl; by rewrite app_nil_r|].
  cbn [map concat] in *. rewrite IH by done. rewrite (join_cons 47 (pct s)) by done. done.
Qed.
Lemma unreserved_pchar b : unreserved b = true → pchar b = true.
Proof. unfold pchar. by intros ->. Qed.
Lemma pct_nonempty s : s ≠ [] → ∃ b r, pct s = b :: r.
Proof. destruct s as [|b s]; [done|]. intros _. rewrite pct_cons. unfold pct_byte. destruct (unreserved b); by eexists _, _. Qed.

(** The path of [segs], accepted and taken apart again. *)
Lemma path_ok segs : text_list segs → segs ≠ [[]] →
  validate (fun b => pchar b || (b =? 47)) (concat (map (fun s => 47 :: pct s) segs)) = Ok tt ∧
  (∀ t a h p q, path_segments (mkUri t a h p (concat (map (fun s => 47 :: pct s) segs)) q) = map pct segs).
Proof.
  intros Hs Hne. destruct segs as [|s segs]; [by split|]. rewrite path_text by done. split.
  - pose proof (joined_valid 47 (fun b => pchar b || (b =? 47)) (s :: segs) ltac:(lia) Hs
      ltac:(intros b Hb; cbn beta; by rewrite unreserved_pchar) eq_refl) as Hv.
    unfold validate in *. unbind. cbn [chars_allowed decoded]. change (47 =? 37) with false. cbn beta iota. change (pchar 47 || (47 =? 47)) with true. cbn [negb].
    destruct (chars_allowed _ _) as [[]| | |]; try done.
  - intros t a h p q. unfold path_segments. cbn [ur_path is_nil orb].
    assert (eqb (47 :: join 47 (map pct (s :: segs))) (lit "/") = false) as ->.
    { apply bool_decide_eq_false. intros Heq. injection Heq as Heq. apply Hne. cbn [map] in Heq. destruct segs as [|s' segs].
      - destruct s as [|b s]; [done|]. destruct (pct_nonempty (b :: s) ltac:(done)) as (b' & r & Hr). cbn [map join] in Heq. by rewrite Hr in Heq.
      - cbn [map] in Heq. by destruct (pct s). }
    cbn [orb]. change (strip_prefix (lit "/") (47 :: join 47 (map pct (s :: segs)))) with (Some (join 47 (map pct (s :: segs)))). cbn beta iota.
    by apply joined_split.
Qed.
Lemma query_ok args : text_list args →
  match args with [] => True | _ => validate (fun b => pchar b || (b =? 47) || (b =? 63)) (join 38 (map pct args)) = Ok tt ∧ split 38 (join 38 (map pct args)) = map pct args end.
Proof.
  intros Ha. destruct args as [|a args]; [done|]. split; [|by apply joined_split].
  apply joined_valid; [lia|done|intros b Hb; cbn beta; by rewrite unreserved_pchar|done].
Qed.
Lemma name_ok_text host port : bytes_ok host → utf8_valid host = true → host ≠ [] → (∀ p, port = Some p → in_u 16 p) →
  parse_name (pct host ++ match port with Some p => 58 :: print_dec p | None => [] end) = Ok (HName (pct host), print_dec <$> port).
Proof.
  intros Hb Hu Hne Hp. destruct (pct_nonempty host Hne) as (b & r & Hr). unfold parse_name.
  assert (match split_once 58 (pct host ++ match port with Some p => 58 :: print_dec p | None => [] end) with
    | Some (n, p) => (n, Some p) | None => (pct host ++ match port with Some p => 58 :: print_dec p | None => [] end, None) end = (pct host, print_dec <$> port)) as ->.
  { assert (58 ∉ pct host) as H58 by (by apply pct_not). destruct port as [p|].
    - by rewrite (proj2 (split_once_Some 58 _ (pct host) (print_dec p))).
    - rewrite app_nil_r. by rewrite (proj2 (split_once_None _ _)). }
  rewrite Hr at 1. cbn [is_nil]. unbind.
  assert (validate (fun b => unreserved b || subdelim b) (pct host) = Ok tt) as ->; [|done].
  unfold validate. unbind. rewrite pct_allowed by (try done; intros x ->; done). destruct (pct_facts host Hb) as (_ & _ & ->). by apply utf8_scalars.
Qed.

(** *** The parts of a composed URI *)
Section composed.
Context (t : Transport) (host : list Z) (port : option Z) (segs args : list (list Z)).
Context (Hb : bytes_ok host) (Hne : host ≠ []) (Hp : ∀ p, port = Some p → in_u 16 p).
Context (Hs : text_list segs) (Ha : text_list args).

Definition scheme_text : list Z := match t with Udp => lit "coap" | Dtls => lit "coaps" end.
Definition authority_text : list Z := pct host ++ match port with Some p => 58 :: print_dec p | None => [] end.
Definition path_of : list Z := concat (map (fun s => 47 :: pct s) segs).
Definition query_of : list Z := match args with [] => [] | _ => 63 :: join 38 (map pct args) end.

Lemma port_digits p : port = Some p → 0 ≤ p < 10 ^ Z.of_nat 20.
Proof using Hp. intros He. specialize (Hp p He). unfold in_u in Hp. simpl. lia. Qed.
Lemma authority_not x : pct_char x = false → x ≠ 58 → is_ascii_digit x = false → x ∉ authority_text.
Proof using Hb Hp.
  intros Hx H58 Hd. pose proof port_digits as Hpd. unfold authority_text. rewrite elem_of_app. intros [Hin|Hin]; [by apply (pct_not host x Hb Hx)|].
  destruct port as [p|]; [|by rewrite elem_of_nil in Hin]. rewrite elem_of_cons in Hin. destruct Hin as [->|Hin]; [done|].
  pose proof (forallb_elem _ _ _ (dec_digits_ok 20 p (Hpd p eq_refl)) Hin). congruence.
Qed.
Lemma path_not x : pct_char x = false → x ≠ 47 → x ∉ path_of.
Proof using Hs.
  intros Hx H47. unfold path_of. destruct segs as [|s l]; [apply not_elem_of_nil|]. rewrite path_text by done. rewrite elem_of_cons.
  pose proof (joined_not 47 (s :: l) x Hs Hx H47). tauto.
Qed.
Lemma query_not x : pct_char x = false → x ≠ 63 → x ≠ 38 → x ∉ query_of.
Proof using Ha.
  intros Hx H63 H38. unfold query_of. destruct args as [|a l]; [apply not_elem_of_nil|]. rewrite elem_of_cons.
  pose proof (joined_not 38 (a :: l) x Ha Hx H38). tauto.
Qed.
Lemma no_fragment : existsb (Z.eqb 35) (scheme_text ++ lit "://" ++ authority_text ++ path_of ++ query_of) = false.
Proof using Hb Hp Hs Ha.
  rewrite !existsb_app. rewrite (existsb_not 35 authority_text), (existsb_not 35 path_of), (existsb_not 35 query_of);
    [by unfold scheme_text; destruct t|by apply query_not|by apply path_not|by apply authority_not].
Qed.
Lemma authority_end :
  match position (fun b => (b =? 47) || (b =? 63)) (authority_text ++ path_of ++ query_of) with
  | Some i => i | None => length (authority_text ++ path_of ++ query_of) end = length authority_text.
Proof using Hb Hp Hs Ha.
  apply stop_at.
  - intros b Hin. apply orb_false_iff. split; apply Z.eqb_neq; intros ->; by apply authority_not in Hin.
  - unfold path_of, query_of. destruct segs; [|done]. by destruct args.
Qed.
Lemma authority_name : is_nil authority_text || existsb (Z.eqb 64) authority_text = false ∧ strip_prefix (lit "[") authority_text = None.
Proof using Hb Hne Hp.
  destruct (pct_nonempty host Hne) as (hb & hr & Hhr). split.
  - rewrite existsb_not by (by apply authority_not). unfold authority_text. by rewrite Hhr.
  - destruct (strip_prefix (lit "[") authority_text) as [r|] eqn:Er; [|done]. apply strip_prefix_Some in Er.
    destruct (authority_not 91); try done. rewrite Er. by left.
Qed.
Lemma port_text :
  parse_port t (print_dec <$> port) = Ok (match port with Some p => p | None => match t with Udp => 5683 | Dtls => 5684 end end).
Proof using Hp.
  pose proof port_digits as Hpd. destruct port as [p|]; [|done]. cbn [fmap option_fmap option_map parse_port]. pose proof (Hpd p eq_refl) as Hpb.
  specialize (Hp p eq_refl). unfold in_u in Hp. destruct (dec_digits_head 19 p Hpb) as (b & r & Hbr & _).
  pose proof (dec_digits_ok 20 p Hpb) as Hd. change (dec_digits 20 p) with (print_dec p) in *. rewrite Hd. cbn [negb].
  rewrite parse_print_dec by (unfold max_u; lia). by rewrite Hbr.
Qed.
Lemma tail_split :
  match split_once 63 (path_of ++ query_of) with Some (p, q) => (p, Some q) | None => (path_of ++ query_of, None) end
  = (path_of, match args with [] => None | _ => Some (join 38 (map pct args)) end).
Proof using Hs Ha.
  unfold query_of. destruct args as [|a l].
  - rewrite app_nil_r. by rewrite (proj2 (split_once_None _ _)) by (by apply path_not).
  - by rewrite (proj2 (split_once_Some 63 _ path_of (join 38 (map pct (a :: l))))) by (split; [done|by apply path_not]).
Qed.
Lemma no_dots : Forall (fun s => s ≠ lit "." ∧ s ≠ lit "..") segs → existsb is_dot_segment (map pct segs) = false.
Proof using Hs.
  intros Hdot. apply not_true_iff_false. rewrite existsb_exists. intros (c & Hc & Hd). apply in_map_iff in Hc as (s & <- & Hin%list_elem_of_In).
  unfold text_list in Hs. rewrite Forall_forall in Hdot, Hs. destruct (Hs s Hin) as [Hsb _]. destruct (Hdot s Hin) as [H1 H2]. unfold is_dot_segment in Hd.
  destruct (pct_facts s Hsb) as (_ & _ & Hds). rewrite Hds in Hd. destruct s as [|b [|b' [|]]]; try done; bools; subst; done.
Qed.
End composed.

(** Every request has a URI that means it.  Composed from a host name, a
    port and any sequences of UTF-8 path segments (none of them [.] or [..],
    and not a single empty one) and query arguments, with every byte that is not
    unreserved escaped, a URI is accepted, and its components decode to
    exactly these values, in order. *)
Theorem uri_roundtrip t host port segs args :
  bytes_ok host → utf8_valid host = true → host ≠ [] → (∀ p, port = Some p → in_u 16 p) →
  text_list segs → segs ≠ [[]] → Forall (fun s => s ≠ lit "." ∧ s ≠ lit "..") segs → text_list args →
  ∃ u, parse_uri (uri_text t host port segs args) = Ok u ∧ ur_transport u = t ∧
    ur_port u = (match port with Some p => p | None => match t with Udp => 5683 | Dtls => 5684 end end) ∧
    (∃ c, ur_host u = HName c ∧ decoded c = host) ∧
    map decoded (path_segments u) = segs ∧ map decoded (query_arguments u) = args.
Proof.
  intros Hb Hu Hne Hp Hs Hs1 Hdot Ha. destruct (path_ok segs Hs Hs1) as [Hpv Hps]. pose proof (query_ok args Ha) as Hq.
  destruct (authority_name host port Hb Hne Hp) as [Hauth Hlit].
  change (uri_text t host port segs args) with (scheme_text t ++ lit "://" ++ authority_text host port ++ path_of segs ++ query_of args).
  unfold parse_uri. rewrite no_fragment by done.
  assert (∀ rest, split_once_str (lit "://") (scheme_text t ++ lit "://" ++ rest) = Some (scheme_text t, rest)) as -> by (by destruct t).
  unbind. cbn [ok_or]. cbn beta iota.
  assert ((if eq_ignore_ascii_case (scheme_text t) (lit "coap") then Ok Udp
    else if eq_ignore_ascii_case (scheme_text t) (lit "coaps") then Ok Dtls else Err UScheme) = Ok (E:=UriError) t) as -> by (by destruct t).
  rewrite authority_end by done. rewrite take_app_length, drop_app_length, Hauth, Hlit.
  unfold authority_text at 1. rewrite name_ok_text by done. rewrite port_text, tail_split by done. fold (path_of segs) in Hpv, Hps. rewrite Hpv.
  set (uri := mkUri t _ _ _ (path_of segs) _).
  assert (path_segments uri = map pct segs) as Hseg by apply Hps. destruct (pct_facts host Hb) as (_ & _ & Hdh).
  destruct args as [|a l]; [|destruct Hq as [Hqv Hqs]; rewrite Hqv]; rewrite Hseg, no_dots by done; exists uri; rewrite Hseg, joined_decoded by done;
    subst uri; (split_and!; [done..|by eexists|done|]); unfold query_arguments; cbn [ur_query]; [done|]. rewrite Hqs. by apply joined_decoded.
Qed.

(** ** Witnesses *)
Lemma uri_parse_sound_witness :
  ∃ u, parse_uri (lit "CoAP://[2001:db8::1%25eth0]:61616/a%2Fb//?x=%C3%A9&") = Ok u ∧
    ur_host u = HIpv6 [8193; 3512; 0; 0; 0; 0; 0; 1] (Some (lit "eth0")) ∧ ur_port u = 61616 ∧
    path_segments u = [lit "a%2Fb"; []; []] ∧ utf8_valid (decoded (lit "x=%C3%A9")) = true.
Proof.
  destruct (parse_uri (lit "CoAP://[2001:db8::1%25eth0]:61616/a%2Fb//?x=%C3%A9&")) as [u| | |] eqn:Eu; [|by vm_compute in Eu..].
  destruct (uri_parse_sound _ u Eu) as (_ & Hc & _).
  assert (u = mkUri Udp (lit "[2001:db8::1%25eth0]:61616") (HIpv6 [8193; 3512; 0; 0; 0; 0; 0; 1] (Some (lit "eth0"))) 61616
    (lit "/a%2Fb//") (Some (lit "x=%C3%A9&"))) as -> by (vm_compute in Eu; by injection Eu as <-).
  eexists. split; [reflexivity|]. split; [reflexivity|]. split; [reflexivity|]. split; [reflexivity|].
  apply (Hc (lit "x=%C3%A9") []). vm_compute. set_solver.
Defined.
Lemma uri_roundtrip_witness :
  ∃ u, parse_uri (uri_text Dtls (lit "h.example") (Some 9) [[195; 169; 47]; []] [lit "a&b"]) = Ok u ∧
    map decoded (path_segments u) = [[195; 169; 47]; []] ∧ map decoded (query_arguments u) = [lit "a&b"].
Proof.
  destruct (uri_roundtrip Dtls (lit "h.example") (Some 9) [[195; 169; 47]; []] [lit "a&b"]) as (u & Hu & _ & _ & _ & Hs & Ha).
  - repeat constructor; unfold in_u; simpl; lia.
  - reflexivity.
  - discriminate.
  - intros p [= <-]. unfold in_u. lia.
  - repeat constructor; unfold in_u; simpl; lia.
  - discriminate.
  - repeat constructor; discriminate.
  - repeat constructor; unfold in_u; simpl; lia.
  - exists u. split; [exact Hu|]. split; [exact Hs|exact Ha].
Defined.
