(* ===== verification/Problem.v ===== *)
(** * Concise problem details

    [src/message/problem.rs]: the CBOR map of RFC 9290.  A reader's cursor [at]
    into its input is the rest of the input, [&bytes[at..]]; a writer's state is
    the buffer with the cursor.  The loops run on fuel bounded by the input:
    every map entry and every skipped item takes at least one byte. *)
From Stdlib Require Import String.
From S2P Require Import Prelude Errors MsgTypes Options Encode Decode OptionValues MessageOptions AsciiText.

Inductive ProblemError : Type := BufferTooSmall | PInvalid.
Inductive WritingDirection : Type := LeftToRight | RightToLeft | Auto.

Definition MAJOR_UINT : Z := 0.
Definition MAJOR_NINT : Z := 1.
Definition MAJOR_BYTES : Z := 2.
Definition MAJOR_TEXT : Z := 3.
Definition MAJOR_ARRAY : Z := 4.
Definition MAJOR_MAP : Z := 5.
Definition MAJOR_TAG : Z := 6.
Definition MAJOR_SIMPLE : Z := 7.

Definition subtag_ok (char : Z → bool) (part : list Z) : bool :=
  negb (is_nil part || (8 <? length part)%nat || negb (forallb char part)).
Definition validate_language (language : list Z) : res ProblemError unit :=
  match split 45 language with
  | [] => Err PInvalid
  | first :: rest =>
      if negb (subtag_ok is_ascii_alphabetic first) then Err PInvalid
      else if existsb (fun part => negb (subtag_ok is_ascii_alphanumeric part)) rest then Err PInvalid
      else mret tt
  end.

Record ProblemText : Type := mkPText {
  pt_text : list Z;
  pt_language : option (list Z);
  pt_direction : option WritingDirection
}.
Definition ProblemText_plain (text : list Z) : ProblemText := mkPText text None None.
Definition ProblemText_tagged (language text : list Z) (direction : option WritingDirection) : res ProblemError ProblemText :=
  validate_language language;; mret (mkPText text (Some language) direction).

(** ** Reading *)
Section read.
Context `{Target}.

(** A value of a reader that moves the cursor. *)
Definition reader (A : Type) : Type := st (list Z) ProblemError A.

Definition need (n : nat) : reader unit := rest ← st_get; if (length rest <? n)%nat then st_fail PInvalid else mret tt.
(** [need], then the next [n] bytes. *)
Definition take_bytes (n : nat) : reader (list Z) :=
  need n;; rest ← st_get; bytes ← st_lift (slice_idx rest 0 n); st_put (drop n rest);; mret bytes.
Definition take_be (n : nat) : reader Z := bytes ← take_bytes n; mret (from_be bytes).

Definition read_head : reader (Z * Z) :=
  b ← take_be 1;
  let major := Z.shiftr b 5 in
  let ai := Z.land b 31 in
  n ← (if ai <=? 23 then mret ai
       else if ai =? 24 then take_be 1
       else if ai =? 25 then take_be 2
       else if ai =? 26 then take_be 4
       else if ai =? 27 then take_be 8
       else st_fail PInvalid);
  mret (major, n).

Definition read_uint : reader Z := '(major, n) ← read_head; if major =? MAJOR_UINT then mret n else st_fail PInvalid.
Definition read_text : reader (list Z) :=
  '(major, n) ← read_head;
  if negb (major =? MAJOR_TEXT) then st_fail PInvalid
  else
    len ← st_lift (ok_or (usize_try_from n) PInvalid);
    bytes ← take_bytes len;
    if utf8_valid bytes then mret bytes else st_fail PInvalid.
(** [*at = start] followed by a reader. *)
Definition back_to {A} (start : list Z) (m : reader A) : reader A := st_put start;; m.

Definition read_key : reader (option Z) :=
  start ← st_get;
  '(major, n) ← read_head;
  if major =? MAJOR_NINT then mret (Some n)
  else if major =? MAJOR_UINT then mret None
  else if major =? MAJOR_TEXT then back_to start read_text;; mret None
  else st_fail PInvalid.

Definition read_direction : reader WritingDirection :=
  b ← take_be 1;
  if b =? 244 then mret LeftToRight else if b =? 245 then mret RightToLeft
  else if b =? 246 then mret Auto else st_fail PInvalid.
Fixpoint annotated_loop (fuel : nat) : reader (list Z) :=
  start ← st_get;
  '(major, _) ← read_head;
  if negb (major =? MAJOR_TAG) then back_to start read_text
  else match fuel with O => st_lift Diverge | S fuel => annotated_loop fuel end.
Definition read_annotated_text : reader (list Z) := rest ← st_get; annotated_loop (length rest).
Definition read_problem_text : reader ProblemText :=
  start ← st_get;
  '(major, tag) ← read_head;
  if major =? MAJOR_TEXT then text ← back_to start read_text; mret (ProblemText_plain text)
  else if negb (major =? MAJOR_TAG) || negb (tag =? 38) then st_fail PInvalid
  else
    '(major, count) ← read_head;
    if negb (major =? MAJOR_ARRAY) || negb (between 2 3 count) then st_fail PInvalid
    else
      language ← read_annotated_text;
      text ← read_annotated_text;
      direction ← (if count =? 3 then d ← read_direction; mret (Some d) else mret None);
      st_lift (ProblemText_tagged language text direction).

(** The children of an item whose head has been read, its content consumed. *)
Definition item_children (first major n : Z) : reader Z :=
  if (major =? MAJOR_UINT) || (major =? MAJOR_NINT) then mret 0
  else if major =? MAJOR_SIMPLE then if (first =? 248) && (n <? 32) then st_fail PInvalid else mret 0
  else if (major =? MAJOR_BYTES) || (major =? MAJOR_TEXT) then
    len ← st_lift (ok_or (usize_try_from n) PInvalid);
    bytes ← take_bytes len;
    if (major =? MAJOR_TEXT) && negb (utf8_valid bytes) then st_fail PInvalid else mret 0
  else if major =? MAJOR_ARRAY then mret n
  else if major =? MAJOR_MAP then st_lift (ok_or (checked_mul 64 n 2) PInvalid)
  else if major =? MAJOR_TAG then mret 1
  else st_fail PInvalid.
Fixpoint skip_loop (fuel : nat) (pending : Z) : reader unit :=
  if pending =? 0 then mret tt
  else
    match fuel with
    | O => st_lift Diverge
    | S fuel =>
        let pending := pending - 1 in
        start ← st_get;
        '(major, n) ← read_head;
        first ← st_lift (idx start 0);
        children ← item_children first major n;
        pending ← st_lift (ok_or (checked_add 64 pending children) PInvalid);
        rest ← st_get;
        if Z.of_nat (length rest) <? pending then st_fail PInvalid else skip_loop fuel pending
    end.
Definition skip_item : reader unit := rest ← st_get; skip_loop (S (length rest)) 1.

(** ** Unprocessed options *)
Inductive OptionNumbers : Type := OValues (values : list Z) | OEncoded (bytes : list Z).
Record ProblemOptions : Type := mkPOptions { po_source : OptionNumbers; po_at : nat; po_remaining : nat }.

Definition ProblemOptions_next (o : ProblemOptions) : ProblemOptions * option Z :=
  if (po_remaining o =? 0)%nat then (o, None)
  else
    match po_source o with
    | OValues values =>
        match values !! po_at o with
        | None => (o, None)
        | Some v => (mkPOptions (po_source o) (po_at o + 1) (po_remaining o - 1), Some v)
        end
    | OEncoded bytes =>
        match read_uint (drop (po_at o) bytes) with
        | (rest, Ok v) => (mkPOptions (po_source o) (length bytes - length rest) (po_remaining o - 1), Some v)
        | (rest, _) => (mkPOptions (po_source o) (length bytes - length rest) (po_remaining o), None)
        end
    end.
Fixpoint po_collect (fuel : nat) (o : ProblemOptions) : list Z :=
  match ProblemOptions_next o with
  | (_, None) => []
  | (o, Some v) => match fuel with O => [] | S fuel => v :: po_collect fuel o end
  end.
(** [for number in options]: at most [remaining] numbers. *)
Definition po_list (o : ProblemOptions) : list Z := po_collect (po_remaining o) o.

Fixpoint read_uints (n : nat) : reader unit := match n with O => mret tt | S n => read_uint;; read_uints n end.
Definition read_option_numbers : reader ProblemOptions :=
  start ← st_get;
  '(major, count) ← read_head;
  '(start, remaining) ←
    (if major =? MAJOR_UINT then mret (start, 1%nat)
     else if (major =? MAJOR_ARRAY) && (2 <=? count) then
       start ← st_get;
       remaining ← st_lift (ok_or (usize_try_from count) PInvalid);
       if (length start <? remaining)%nat then st_fail PInvalid
       else read_uints remaining;; mret (start, remaining)
     else st_fail PInvalid);
  rest ← st_get;
  bytes ← st_lift (slice_idx start 0 (length start - length rest));
  mret (mkPOptions (OEncoded bytes) 0 remaining).

(** ** The details *)
Record ProblemDetails : Type := mkDetails {
  pd_code : option Code;
  pd_title : option ProblemText;
  pd_detail : option ProblemText;
  pd_instance : option (list Z);
  pd_base_uri : option (list Z);
  pd_base_language : option (list Z);
  pd_base_direction : option WritingDirection;
  pd_unprocessed : option ProblemOptions;
  pd_original : option (list Z);
  pd_edited : Z
}.
Definition no_details : ProblemDetails := mkDetails None None None None None None None None None 0.
Definition ProblemDetails_new (code : Code) : ProblemDetails := mkDetails (Some code) None None None None None None None None 0.
Definition with_title (d : ProblemDetails) (t : ProblemText) : ProblemDetails :=
  mkDetails (pd_code d) (Some t) (pd_detail d) (pd_instance d) (pd_base_uri d) (pd_base_language d) (pd_base_direction d)
    (pd_unprocessed d) (pd_original d) (Z.lor (pd_edited d) 1).
Definition with_detail (d : ProblemDetails) (t : ProblemText) : ProblemDetails :=
  mkDetails (pd_code d) (pd_title d) (Some t) (pd_instance d) (pd_base_uri d) (pd_base_language d) (pd_base_direction d)
    (pd_unprocessed d) (pd_original d) (Z.lor (pd_edited d) 2).
Definition problem_title (d : ProblemDetails) (title : list Z) : ProblemDetails := with_title d (ProblemText_plain title).
Definition problem_detail (d : ProblemDetails) (detail : list Z) : ProblemDetails := with_detail d (ProblemText_plain detail).
Definition with_unprocessed_options (d : ProblemDetails) (numbers : list Z) : res ProblemError ProblemDetails :=
  if is_nil numbers then Err PInvalid
  else mret (mkDetails (pd_code d) (pd_title d) (pd_detail d) (pd_instance d) (pd_base_uri d) (pd_base_language d)
    (pd_base_direction d) (Some (mkPOptions (OValues numbers) 0 (length numbers))) (pd_original d) (Z.lor (pd_edited d) 4)).
Definition unprocessed_options (d : ProblemDetails) : ProblemOptions :=
  match pd_unprocessed d with Some o => o | None => mkPOptions (OValues []) 0 0 end.

(** [if field.is_some() { return Err } field = Some(read?)]. *)
Definition once {A} (field : option A) (m : reader A) : reader A := if is_some field then st_fail PInvalid else m.

Definition decode_field (out : ProblemDetails) (key : option Z) : reader ProblemDetails :=
  let 'mkDetails code title detail instance base_uri base_language base_direction unprocessed original edited := out in
  match key with
  | None =>
      at_value ← st_get;
      '(major, entries) ← read_head;
      if negb (major =? MAJOR_MAP) || (entries =? 0) then st_fail PInvalid
      else back_to at_value skip_item;; mret out
  | Some k =>
      if k =? 0 then t ← once title read_problem_text;
        mret (mkDetails code (Some t) detail instance base_uri base_language base_direction unprocessed original edited)
      else if k =? 1 then t ← once detail read_problem_text;
        mret (mkDetails code title (Some t) instance base_uri base_language base_direction unprocessed original edited)
      else if k =? 3 then raw ← once code read_uint;
        if 255 <? raw then st_fail PInvalid
        else mret (mkDetails (Some (Code_from_raw raw)) title detail instance base_uri base_language base_direction unprocessed original edited)
      else if k =? 2 then t ← once instance read_text;
        mret (mkDetails code title detail (Some t) base_uri base_language base_direction unprocessed original edited)
      else if k =? 4 then t ← once base_uri read_text;
        mret (mkDetails code title detail instance (Some t) base_language base_direction unprocessed original edited)
      else if k =? 5 then t ← once base_language read_text;
        st_lift (validate_language t);;
        mret (mkDetails code title detail instance base_uri (Some t) base_direction unprocessed original edited)
      else if k =? 6 then d ← once base_direction read_direction;
        mret (mkDetails code title detail instance base_uri base_language (Some d) unprocessed original edited)
      else if k =? 7 then o ← once unprocessed read_option_numbers;
        mret (mkDetails code title detail instance base_uri base_language base_direction (Some o) original edited)
      else skip_item;; mret out
  end.
Fixpoint decode_loop (fuel : nat) (n : Z) (out : ProblemDetails) : reader ProblemDetails :=
  if n =? 0 then mret out
  else
    match fuel with
    | O => st_lift Diverge
    | S fuel => key ← read_key; out ← decode_field out key; decode_loop fuel (n - 1) out
    end.
Definition with_original (d : ProblemDetails) (bytes : list Z) : ProblemDetails :=
  mkDetails (pd_code d) (pd_title d) (pd_detail d) (pd_instance d) (pd_base_uri d) (pd_base_language d) (pd_base_direction d)
    (pd_unprocessed d) (Some bytes) (pd_edited d).
Definition problem_decode (bytes : list Z) : res ProblemError ProblemDetails :=
  let run : reader ProblemDetails :=
    '(major, n) ← read_head;
    if negb (major =? MAJOR_MAP) || (n =? 0) then st_fail PInvalid
    else
      out ← decode_loop (length bytes) n no_details;
      rest ← st_get;
      if negb (is_nil rest) then st_fail PInvalid else mret (with_original out bytes)
  in (run bytes).2.

(** ** Writing *)
Definition writer (A : Type) : Type := st (list Z * nat) ProblemError A.

Definition pd_put (byte : Z) : writer unit :=
  '(buf, i) ← st_get;
  if (length buf <=? i)%nat then st_fail BufferTooSmall
  else buf ← st_lift (set_idx i byte buf); st_put (buf, (i + 1)%nat).
Definition pd_put_slice (bytes : list Z) : writer unit :=
  '(buf, i) ← st_get;
  if (length buf - i <? length bytes)%nat then st_fail BufferTooSmall
  else buf ← st_lift (copy_into i (i + length bytes) bytes buf); st_put (buf, (i + length bytes)%nat).
Fixpoint pd_put_shifts (n : Z) (shifts : list Z) : writer unit :=
  match shifts with [] => mret tt | s :: shifts => pd_put (wrap 8 (Z.shiftr n s));; pd_put_shifts n shifts end.
Definition pd_put_head (major n : Z) : writer unit :=
  let first ai := Z.lor (shl 8 major 5) ai in
  if n <=? 23 then pd_put (first (wrap 8 n))
  else if n <=? 255 then pd_put (first 24);; pd_put (wrap 8 n)
  else if n <=? 65535 then pd_put (first 25);; pd_put_shifts n [8; 0]
  else if n <=? 2 ^ 32 - 1 then pd_put (first 26);; pd_put_shifts n [24; 16; 8; 0]
  else pd_put (first 27);; pd_put_shifts n [56; 48; 40; 32; 24; 16; 8; 0].
Definition pd_put_uint (n : Z) : writer unit := pd_put_head MAJOR_UINT n.
(** The key [n] below zero; its argument is [-1 - n]. *)
Definition pd_put_nint (n : Z) : writer unit := pd_put_head MAJOR_NINT (wrap 8 (-1 - n)).
Definition pd_put_text (text : list Z) : writer unit := pd_put_head MAJOR_TEXT (Z.of_nat (length text));; pd_put_slice text.
Definition direction_byte (d : WritingDirection) : Z := match d with LeftToRight => 244 | RightToLeft => 245 | Auto => 246 end.
Definition put_problem_text (v : ProblemText) : writer unit :=
  (match pt_language v with
   | None => mret tt
   | Some language =>
       pd_put_head MAJOR_TAG 38;;
       pd_put_head MAJOR_ARRAY (if is_some (pt_direction v) then 3 else 2);;
       pd_put_text language
   end);;
  pd_put_text (pt_text v);;
  (match pt_direction v with None => mret tt | Some d => pd_put (direction_byte d) end).
Fixpoint put_numbers (l : list Z) : writer unit := match l with [] => mret tt | n :: l => pd_put_uint n;; put_numbers l end.
Definition put_option_numbers (o : ProblemOptions) : writer unit :=
  (if (1 <? po_remaining o)%nat then pd_put_head MAJOR_ARRAY (Z.of_nat (po_remaining o)) else mret tt);;
  put_numbers (po_list o).

(** [if let Some(v) = field { put_nint(key)?; put(v)? }]. *)
Definition pd_put_field {A} (key : Z) (put : A → writer unit) (field : option A) : writer unit :=
  match field with None => mret tt | Some v => pd_put_nint key;; put v end.
Definition encode_new (d : ProblemDetails) : writer unit :=
  let pairs := (if is_some (pd_title d) then 1 else 0) + (if is_some (pd_detail d) then 1 else 0)
               + (if is_some (pd_code d) then 1 else 0) + (if is_some (pd_unprocessed d) then 1 else 0) in
  if pairs =? 0 then st_fail PInvalid
  else
    pd_put_head MAJOR_MAP pairs;;
    pd_put_field (-1) put_problem_text (pd_title d);;
    pd_put_field (-2) put_problem_text (pd_detail d);;
    pd_put_field (-4) (fun code => pd_put_uint code) (pd_code d);;
    pd_put_field (-8) put_option_numbers (pd_unprocessed d).

(** *** Re-encoding a decoded map *)
Definition found_bit (key : option Z) : Z :=
  match key with Some k => if k =? 0 then 1 else if k =? 1 then 2 else if k =? 7 then 4 else 0 | None => 0 end.
Fixpoint found_loop (fuel : nat) (n found : Z) : reader Z :=
  if n =? 0 then mret found
  else
    match fuel with
    | O => st_lift Diverge
    | S fuel => key ← read_key; skip_item;; found_loop fuel (n - 1) (Z.lor found (found_bit key))
    end.
Definition count_ones3 (x : Z) : Z :=
  (if Z.testbit x 0 then 1 else 0) + (if Z.testbit x 1 then 1 else 0) + (if Z.testbit x 2 then 1 else 0).
(** [bit] of the edit mask. *)
Definition edits (d : ProblemDetails) (bit : Z) : bool := negb (Z.land (pd_edited d) bit =? 0).

(** One retained entry: its key and value as they were, or a new value. *)
Definition put_entry (d : ProblemDetails) (start value rest : list Z) (key : option Z) : writer unit :=
  let replacement :=
    match key with
    | Some k => if (k =? 0) && edits d 1 then pd_title d else if (k =? 1) && edits d 2 then pd_detail d else None
    | None => None
    end in
  if match key with Some k => (k =? 7) && edits d 4 | None => false end then
    raw ← st_lift (slice_idx start 0 (length start - length value));
    pd_put_slice raw;;
    o ← st_lift (ok_or (pd_unprocessed d) PInvalid);
    put_option_numbers o
  else
    match replacement with
    | Some text =>
        raw ← st_lift (slice_idx start 0 (length start - length value));
        pd_put_slice raw;;
        put_problem_text text
    | None => raw ← st_lift (slice_idx start 0 (length start - length rest)); pd_put_slice raw
    end.
Fixpoint retained_loop (fuel : nat) (d : ProblemDetails) (n : Z) (start : list Z) : writer unit :=
  if n =? 0 then mret tt
  else
    match fuel with
    | O => st_lift Diverge
    | S fuel =>
        match read_key start with
        | (value, Ok key) =>
            match skip_item value with
            | (rest, Ok _) => put_entry d start value rest key;; retained_loop fuel d (n - 1) rest
            | (_, Err e) => st_fail e
            | (_, Panic) => st_lift Panic
            | (_, Diverge) => st_lift Diverge
            end
        | (_, Err e) => st_fail e
        | (_, Panic) => st_lift Panic
        | (_, Diverge) => st_lift Diverge
        end
    end.
Definition missing_bit (d : ProblemDetails) (found bit : Z) : bool := negb (Z.land (Z.ldiff (pd_edited d) found) bit =? 0).
Definition encode_retained (d : ProblemDetails) (original : list Z) : writer unit :=
  if pd_edited d =? 0 then pd_put_slice original
  else
    let scan : reader (Z * Z) := '(_, pairs) ← read_head; found ← found_loop (length original) pairs 0; mret (pairs, found) in
    '(pairs, found) ← st_lift (scan original).2;
    let added := count_ones3 (Z.ldiff (pd_edited d) found) in
    pd_put_head MAJOR_MAP (pairs + added);;
    retained_loop (length original) d pairs (read_head original).1;;
    (if missing_bit d found 1 then pd_put_nint (-1);; t ← st_lift (ok_or (pd_title d) PInvalid); put_problem_text t else mret tt);;
    (if missing_bit d found 2 then pd_put_nint (-2);; t ← st_lift (ok_or (pd_detail d) PInvalid); put_problem_text t else mret tt);;
    (if missing_bit d found 4 then pd_put_nint (-8);; o ← st_lift (ok_or (pd_unprocessed d) PInvalid); put_option_numbers o else mret tt).

Definition problem_encode (d : ProblemDetails) : st (list Z) ProblemError nat := fun buf =>
  let '((buf, i), r) := (match pd_original d with Some original => encode_retained d original | None => encode_new d end) (buf, 0%nat) in
  (buf, map_err (fun e => e) (r ≫= fun _ => Ok i)).
End read.
