(* ===== verification/ProblemLaws.v ===== *)
(** * Laws of problem details

    Readers of [Problem] are local: what they consume decides the result, not
    what follows.  Skipping recognises the items of CBOR's definite encoding,
    and every typed value is one.  From this: a map that is built, or decoded
    and edited, encodes to bytes that decode to the same details. *)
From Stdlib Require Import String.
From S2P Require Import Prelude Errors MsgTypes Options Encode Decode OptionValues MessageOptions AsciiText Problem.

(** ** Local readers *)
Definition local {A} (m : reader A) : Prop :=
  ∀ s s' a, m s = (s', Ok a) → ∃ v, s = v ++ s' ∧ ∀ rest, m (v ++ rest) = (rest, Ok a).

Lemma take_bytes_eq n s : take_bytes n s = if (length s <? n)%nat then (s, Err PInvalid) else (drop n s, Ok (take n s)).
Proof.
  unfold take_bytes, need. unbind. destruct (Nat.ltb_spec (length s) n); [done|]. by rewrite slice_prefix.
Qed.
Lemma local_ret {A} (a : A) : local (mret a).
Proof. intros s s' x [= <- <-]. by exists []. Qed.
Lemma local_lift {A} (r : res ProblemError A) : local (st_lift r).
Proof. intros s s' x [= <- Hr]. exists []. split; [done|]. intros rest. unfold st_lift. by rewrite Hr. Qed.
Lemma local_fail {A} e : local (A:=A) (st_fail e).
Proof. by intros s s' x [=]. Qed.
Lemma local_take n : local (take_bytes n).
Proof.
  intros s s' a. rewrite take_bytes_eq. destruct (Nat.ltb_spec (length s) n); [done|]. intros [= <- <-]. exists (take n s). rewrite take_drop. split; [done|].
  intros rest. rewrite take_bytes_eq. rewrite (proj2 (Nat.ltb_ge _ _)) by (rewrite length_app, length_take; lia).
  by rewrite drop_app_length', take_app_length' by (rewrite length_take; lia).
Qed.
Lemma local_bind {A B} (m : reader A) (k : A → reader B) : local m → (∀ a, local (k a)) → local (m ≫= k).
Proof.
  intros Hm Hk s s' b. unbind. destruct (m s) as [s1 [a| | |]] eqn:Em; try done. intros Hkb.
  destruct (Hm _ _ _ Em) as (v1 & -> & H1). destruct (Hk _ _ _ _ Hkb) as (v2 & -> & H2). exists (v1 ++ v2).
  split; [by rewrite app_assoc|]. intros rest. rewrite <- app_assoc, H1. apply H2.
Qed.
Lemma local_if {A} (b : bool) (m m' : reader A) : local m → local m' → local (if b then m else m').
Proof. by destruct b. Qed.
Create HintDb local.
#[export] Hint Resolve local_ret local_lift local_fail local_take local_bind local_if : local.

Lemma local_be n : local (take_be n).
Proof. unfold take_be. auto with local. Qed.
#[export] Hint Resolve local_be : local.
Lemma local_head : local read_head.
Proof. unfold read_head. apply local_bind; [auto with local|]. intros b. cbv zeta. apply local_bind; [auto 10 with local|auto with local]. Qed.
#[export] Hint Resolve local_head : local.

(** The head of an item. *)
Definition head_ok (h : list Z) (major n : Z) : Prop := h ≠ [] ∧ ∀ rest, read_head (h ++ rest) = (rest, Ok (major, n)).
Lemma read_head_inv s s' major n : read_head s = (s', Ok (major, n)) → ∃ h, s = h ++ s' ∧ head_ok h major n.
Proof.
  intros Hr. destruct (local_head _ _ _ Hr) as (h & -> & Hh). exists h. split; [done|]. split; [|done]. intros ->.
  specialize (Hh []). by vm_compute in Hh.
Qed.
Lemma read_head_bound s s' major n : bytes_ok s → read_head s = (s', Ok (major, n)) → 0 ≤ n < 2 ^ 64 ∧ 0 ≤ major < 8.
Proof.
  intros Hs. unfold read_head, take_be. unbind. rewrite take_bytes_eq. destruct s as [|b s]; [done|]. cbn [length Nat.ltb Nat.leb].
  change (take 1 (b :: s)) with [b]. change (drop 1 (b :: s)) with s.
  apply bytes_ok_cons in Hs as [Hb Hs]. unfold in_u in Hb.
  assert (from_be [b] = b) as -> by (unfold from_be; simpl; lia).
  assert (0 ≤ Z.shiftr b 5 < 8) as Hm by (rewrite Z.shiftr_div_pow2 by lia; div_lia).
  assert (0 ≤ Z.land b 31 < 32) as Hai by (rewrite (land_mask b 5) by done; apply Z.mod_pos_bound; lia).
  assert (∀ k (x : Z) s1, (k ≤ 8)%nat → match take_bytes k s with (s2, Ok a) => (s2, Ok (from_be a)) | (s2, Err e) => (s2, Err e) | (s2, Panic) => (s2, Panic) | (s2, Diverge) => (s2, Diverge) end = (s1, Ok (E:=ProblemError) x) → 0 ≤ x < 2 ^ 64) as Hbe.
  { intros k x s1 Hk. rewrite take_bytes_eq. destruct (length s <? k)%nat; [done|]. intros [= _ <-].
    pose proof (from_be_bound (take k s) (bytes_ok_take _ _ Hs)) as Hbd. split; [lia|]. eapply Z.lt_le_trans; [apply Hbd|].
    apply Z.pow_le_mono_r; [lia|]. rewrite length_take. lia. }
  destruct (Z.leb_spec (Z.land b 31) 23); [intros [= _ <- <-]; lia|].
  repeat (match goal with |- context [if ?c then _ else _] => destruct c end);
    try (match goal with |- context [take_bytes ?k s] => specialize (Hbe k); destruct (take_bytes k s) as [s2 [a| | |]]; try done end;
         intros [= _ <- <-]; split; [eapply Hbe; [lia|done]|done]); done.
Qed.

(** ** Items *)
(** The content of an item after its head, and how many items are inside. *)
Inductive content (first : Z) : Z → Z → list Z → Z → Prop :=
  | content_uint n : content first MAJOR_UINT n [] 0
  | content_nint n : content first MAJOR_NINT n [] 0
  | content_simple n : (first =? 248) && (n <? 32) = false → content first MAJOR_SIMPLE n [] 0
  | content_bytes payload : content first MAJOR_BYTES (Z.of_nat (length payload)) payload 0
  | content_text payload : utf8_valid payload = true → content first MAJOR_TEXT (Z.of_nat (length payload)) payload 0
  | content_array n : content first MAJOR_ARRAY n [] n
  | content_map n : content first MAJOR_MAP n [] (2 * n)
  | content_tag n : content first MAJOR_TAG n [] 1.
#[local] Hint Constructors content : core.
(** [items k v]: [v] is [k] items one after the other. *)
Inductive items : Z → list Z → Prop :=
  | items_none : items 0 []
  | items_more k first h major n payload children v :
      0 ≤ k → 0 ≤ children → head_ok (first :: h) major n → content first major n payload children → items (k + children) v →
      items (k + 1) ((first :: h) ++ payload ++ v).

Lemma items_length k v : items k v → 0 ≤ k ≤ Z.of_nat (length v).
Proof. induction 1 as [|k first h major n payload children v Hk Hc Hh Hco Hi IH]; [simpl; lia|]. rewrite !length_app. cbn [length]. lia. Qed.
Lemma items_app k v k' v' : items k v → items k' v' → items (k + k') (v ++ v').
Proof.
  intros Hv Hv'. pose proof (items_length _ _ Hv') as Hl. induction Hv as [|k first h major n payload children v Hk Hc Hh Hco Hi IH]; [done|].
  rewrite <- !app_assoc. replace (k + 1 + k') with ((k + k') + 1) by lia. eapply items_more; [lia|done|done|done|].
  by replace (k + k' + children) with (k + children + k') by lia.
Qed.
Lemma items_one first h major n payload children v :
  0 ≤ children → head_ok (first :: h) major n → content first major n payload children → items children v → items 1 ((first :: h) ++ payload ++ v).
Proof. intros. by eapply (items_more 0). Qed.
Lemma items_single v : items 1 v → ∃ h w major n, v = h ++ w ∧ head_ok h major n.
Proof. inversion 1. subst. by eexists _, _, _, _. Qed.

Section target.
Context `{Target}.

Lemma local_children first major n : local (item_children first major n).
Proof. unfold item_children. auto 15 with local. Qed.

(** [item_children] reads the content. *)
Lemma children_content first major n s s' c :
  0 ≤ n → item_children first major n s = (s', Ok c) → ∃ payload, s = payload ++ s' ∧ content first major n payload c ∧ 0 ≤ c.
Proof.
  intros Hn. unfold item_children. unbind.
  destruct (Z.eqb_spec major MAJOR_UINT) as [->|]; [intros [= <- <-]; exists []; auto with lia|].
  destruct (Z.eqb_spec major MAJOR_NINT) as [->|]; [intros [= <- <-]; exists []; auto with lia|]. cbn [orb].
  destruct (Z.eqb_spec major MAJOR_SIMPLE) as [->|]; [destruct (_ && _) eqn:Es; [done|]; intros [= <- <-]; exists []; auto with lia|].
  assert (∀ len, usize_try_from n = Some len → n = Z.of_nat len) as Hlen.
  { intros len. unfold usize_try_from. destruct (_ <=? _); [|done]. intros [= <-]. lia. }
  assert (∀ len, (len ≤ length s)%nat → s = take len s ++ drop len s ∧ length (take len s) = len) as Htk.
  { intros len Hl. rewrite take_drop, length_take. split; [done|lia]. }
  destruct (Z.eqb_spec major MAJOR_BYTES) as [->|].
  { cbn [orb]. destruct (usize_try_from n) as [len|] eqn:El; [|done]. cbn [ok_or]. cbn beta iota. rewrite take_bytes_eq.
    destruct (Nat.ltb_spec (length s) len) as [|Hl]; [done|]. change (MAJOR_BYTES =? MAJOR_TEXT) with false. cbn [andb].
    intros [= <- <-]. destruct (Htk len Hl) as [Hs Hlt]. exists (take len s). split; [done|]. split; [|lia].
    rewrite (Hlen len eq_refl). rewrite <- Hlt at 1. constructor. }
  destruct (Z.eqb_spec major MAJOR_TEXT) as [->|].
  { cbn [orb]. destruct (usize_try_from n) as [len|] eqn:El; [|done]. cbn [ok_or]. cbn beta iota. rewrite take_bytes_eq.
    destruct (Nat.ltb_spec (length s) len) as [|Hl]; [done|]. cbn [andb]. destruct (utf8_valid (take len s)) eqn:Eu; [|done]. cbn [negb].
    intros [= <- <-]. destruct (Htk len Hl) as [Hs Hlt]. exists (take len s). split; [done|]. split; [|lia].
    rewrite (Hlen len eq_refl). rewrite <- Hlt at 1. by constructor. }
  cbn [orb]. destruct (Z.eqb_spec major MAJOR_ARRAY) as [->|]; [intros [= <- <-]; exists []; auto with lia|].
  destruct (Z.eqb_spec major MAJOR_MAP) as [->|].
  { unfold checked_mul. destruct (_ <=? _); [|done]. cbn [ok_or]. intros [= <- <-]. exists []. split; [done|]. rewrite Z.mul_comm. auto with lia. }
  destruct (Z.eqb_spec major MAJOR_TAG) as [->|]; [intros [= <- <-]; exists []; auto with lia|done].
Qed.
Lemma take_payload p rest : take_bytes (length p) (p ++ rest) = (rest, Ok p).
Proof. rewrite take_bytes_eq, (proj2 (Nat.ltb_ge _ _)) by (rewrite length_app; lia). by rewrite drop_app_length, take_app_length. Qed.
Lemma usize_try_from_nat n : usize_ok n → usize_try_from (Z.of_nat n) = Some n.
Proof. intros Hn. unfold usize_try_from. rewrite (proj2 (Z.leb_le _ _)) by done. by rewrite Nat2Z.id. Qed.
Lemma content_children first major n payload c rest :
  content first major n payload c → 0 ≤ c < 2 ^ 64 → usize_ok (length payload) → item_children first major n (payload ++ rest) = (rest, Ok c).
Proof.
  intros Hc Hn Hp. destruct Hc; try done; cbn -[take_bytes usize_try_from utf8_valid checked_mul Z.mul].
  - by rewrite H0.
  - unbind. rewrite usize_try_from_nat by done. cbn [ok_or]. unbind. by rewrite take_payload.
  - unbind. rewrite usize_try_from_nat by done. cbn [ok_or]. unbind. rewrite take_payload. by rewrite H0.
  - unfold checked_mul, max_u. rewrite (proj2 (Z.leb_le _ _)) by lia. cbn [ok_or]. by rewrite Z.mul_comm.
Qed.

(** ** Skipping recognises items *)
Lemma idx_first {E} (first : Z) h s : idx (E:=E) ((first :: h) ++ s) 0 = Ok first.
Proof. done. Qed.
Lemma skip_loop_sound fuel k s s' : 0 ≤ k → bytes_ok s → skip_loop fuel k s = (s', Ok tt) → ∃ v, s = v ++ s' ∧ items k v.
Proof.
  revert k s. induction fuel as [|fuel IH]; intros k s Hk Hs; cbn [skip_loop]; destruct (Z.eqb_spec k 0) as [->|Hk0];
    try (intros [= <-]; exists []; split; [done|constructor]); try done.
  unbind. destruct (read_head s) as [s1 [[major n]| | |]] eqn:Eh; try done.
  destruct (read_head_bound _ _ _ _ Hs Eh) as [Hn _]. destruct (read_head_inv _ _ _ _ Eh) as (h & -> & Hh).
  destruct h as [|first h]; [by destruct Hh|]. rewrite idx_first.
  destruct (item_children first major n s1) as [s2 [c| | |]] eqn:Ec; try done.
  destruct (children_content _ _ _ _ _ _ (proj1 Hn) Ec) as (payload & -> & Hco & Hc).
  unfold checked_add. destruct (Z.leb_spec (k - 1 + c) (max_u 64)); [|done]. cbn [ok_or].
  destruct (Z.ltb_spec (Z.of_nat (length s2)) (k - 1 + c)); [done|]. intros Hl.
  apply bytes_ok_app in Hs as [_ Hs]. apply bytes_ok_app in Hs as [_ Hs].
  destruct (IH (k - 1 + c) s2 ltac:(lia) Hs Hl) as (v & -> & Hv). exists ((first :: h) ++ payload ++ v).
  split; [by rewrite <- !app_assoc|]. replace k with (k - 1 + 1) at 1 by lia. eapply items_more; try done. lia.
Qed.
Lemma skip_loop_complete k v fuel rest :
  items k v → (length v ≤ fuel)%nat → usize_ok (length (v ++ rest)) → skip_loop fuel k (v ++ rest) = (rest, Ok tt).
Proof.
  intros Hi. revert fuel. induction Hi as [|k first h major n payload children v Hk Hc Hh Hco Hi IH]; intros fuel Hf Hu; [by destruct fuel|].
  rewrite !length_app in *. cbn [length] in *. destruct fuel as [|fuel]; [lia|]. cbn [skip_loop].
  rewrite (proj2 (Z.eqb_neq _ _)) by lia. unbind. rewrite <- !app_assoc, (proj2 Hh). rewrite idx_first.
  pose proof (items_length _ _ Hi) as Hl. pose proof usize_max_le as Hmax. unfold usize_ok in *.
  rewrite (content_children _ _ _ _ _ _ Hco) by (unfold usize_ok; lia).
  unfold checked_add, max_u. replace (k + 1 - 1 + children) with (k + children) by lia. rewrite (proj2 (Z.leb_le _ _)) by lia. cbn [ok_or].
  rewrite (proj2 (Z.ltb_ge _ _)) by (rewrite length_app; lia). apply IH; rewrite ?length_app; lia.
Qed.

(** A reader of a grammar: it reads exactly the words of [P]. *)
Definition reads {A} (m : reader A) (P : list Z → A → Prop) : Prop :=
  (∀ s s' a, bytes_ok s → m s = (s', Ok a) → ∃ v, s = v ++ s' ∧ P v a) ∧
  (∀ v a rest, P v a → usize_ok (length (v ++ rest)) → m (v ++ rest) = (rest, Ok a)).
Lemma reads_skip : reads skip_item (fun v _ => items 1 v).
Proof.
  split; unfold skip_item; unbind.
  - intros s s' [] Hs Hl. by eapply skip_loop_sound.
  - intros v [] rest Hv Hu. apply skip_loop_complete; [done| |done]. rewrite length_app. lia.
Qed.

(** ** The grammar of typed values *)
Lemma reads_iff {A} (m : reader A) (P Q : list Z → A → Prop) : reads m P → (∀ v a, P v a ↔ Q v a) → reads m Q.
Proof.
  intros [H1 H2] HPQ. split; [|intros v a rest Hv; apply H2; by apply HPQ].
  intros s s' a Hs Hm. destruct (H1 _ _ _ Hs Hm) as (v & -> & Hv). exists v. split; [done|]. by apply HPQ.
Qed.
Lemma reads_bind {A B} (m : reader A) (k : A → reader B) P Q :
  reads m P → (∀ a, reads (k a) (Q a)) → reads (m ≫= k) (fun v b => ∃ v1 v2 a, v = v1 ++ v2 ∧ P v1 a ∧ Q a v2 b).
Proof.
  intros Hm Hk. split; unbind.
  - intros s s' b Hs. destruct (m s) as [s1 [a| | |]] eqn:Em; try done. intros Hb.
    destruct (proj1 Hm _ _ _ Hs Em) as (v1 & -> & H1). apply bytes_ok_app in Hs as [_ Hs].
    destruct (proj1 (Hk a) _ _ _ Hs Hb) as (v2 & -> & H2). exists (v1 ++ v2). rewrite app_assoc. split; [done|]. by exists v1, v2, a.
  - intros v b rest (v1 & v2 & a & -> & H1 & H2) Hu. rewrite <- app_assoc in *. rewrite (proj2 Hm _ _ _ H1 Hu).
    apply (proj2 (Hk a)); [done|]. rewrite length_app in Hu. unfold usize_ok in *. lia.
Qed.
Lemma reads_ret {A} (x : A) : reads (mret x) (fun v a => v = [] ∧ a = x).
Proof. split; [intros s s' a _ [= <- <-]; by exists []|]. by intros v a rest [-> ->] _. Qed.
Lemma reads_lift {A} (r : res ProblemError A) : reads (st_lift r) (fun v a => v = [] ∧ r = Ok a).
Proof. split; [intros s s' a _ [= <- Hr]; by exists []|]. intros v a rest [-> ->] _. done. Qed.
Lemma reads_fail {A} e : reads (A:=A) (st_fail e) (fun _ _ => False).
Proof. split; [by intros s s' a _ [=]|]. by intros v a rest []. Qed.
Lemma reads_if {A} (b : bool) (m m' : reader A) P P' : reads m P → reads m' P' → reads (if b then m else m') (if b then P else P').
Proof. by destruct b. Qed.
Lemma reads_head : reads read_head (fun v '(major, n) => head_ok v major n).
Proof.
  split; [|intros v [major n] rest Hv _; apply Hv]. intros s s' [major n] Hs Hr. by apply read_head_inv.
Qed.

Definition text_item (v t : list Z) : Prop := ∃ h, v = h ++ t ∧ head_ok h MAJOR_TEXT (Z.of_nat (length t)) ∧ utf8_valid t = true.
Lemma reads_text : reads read_text text_item.
Proof.
  split; unfold read_text; unbind.
  - intros s s' t Hs. destruct (read_head s) as [s1 [[major n]| | |]] eqn:Eh; try done.
    destruct (read_head_bound _ _ _ _ Hs Eh) as [Hn _]. destruct (read_head_inv _ _ _ _ Eh) as (h & -> & Hh).
    destruct (Z.eqb_spec major MAJOR_TEXT) as [->|]; [|done]. cbn [negb]. unfold usize_try_from.
    destruct (Z.leb_spec n usize_max); [|done]. cbn [ok_or]. rewrite take_bytes_eq. destruct (Nat.ltb_spec (length s1) (Z.to_nat n)); [done|].
    destruct (utf8_valid _) eqn:Eu; [|done]. intros [= <- <-]. exists (h ++ take (Z.to_nat n) s1).
    split; [by rewrite <- app_assoc, take_drop|]. exists h. split; [done|]. rewrite length_take, Nat.min_l by done. rewrite Z2Nat.id by lia. done.
  - intros v t rest (h & -> & Hh & Hu) Hl. rewrite <- app_assoc in *. rewrite (proj2 Hh). change (negb (MAJOR_TEXT =? MAJOR_TEXT)) with false.
    cbn iota. rewrite !length_app in Hl. unfold usize_ok in *.
    rewrite usize_try_from_nat by (unfold usize_ok; lia). cbn [ok_or]. by rewrite take_payload, Hu.
Qed.
Lemma reads_uint : reads read_uint (fun v n => head_ok v MAJOR_UINT n).
Proof.
  split; unfold read_uint; unbind.
  - intros s s' n Hs. destruct (read_head s) as [s1 [[major m]| | |]] eqn:Eh; try done.
    destruct (read_head_inv _ _ _ _ Eh) as (h & -> & Hh). destruct (Z.eqb_spec major MAJOR_UINT) as [->|]; [|done]. intros [= <- <-]. by exists h.
  - intros v n rest Hv _. by rewrite (proj2 Hv).
Qed.
Lemma text_head v t rest : text_item v t → ∃ s, read_head (v ++ rest) = (s, Ok (MAJOR_TEXT, Z.of_nat (length t))).
Proof. intros (h & -> & Hh & _). rewrite <- app_assoc, (proj2 Hh). by eexists. Qed.

Definition key_item (v : list Z) (key : option Z) : Prop :=
  match key with Some n => head_ok v MAJOR_NINT n | None => (∃ n, head_ok v MAJOR_UINT n) ∨ (∃ t, text_item v t) end.
Lemma reads_key : reads read_key key_item.
Proof.
  split; unfold read_key, back_to; unbind.
  - intros s s' key Hs. destruct (read_head s) as [s1 [[major n]| | |]] eqn:Eh; try done.
    destruct (read_head_inv _ _ _ _ Eh) as (h & E & Hh).
    destruct (Z.eqb_spec major MAJOR_NINT) as [->|]; [intros [= <- <-]; by exists h|].
    destruct (Z.eqb_spec major MAJOR_UINT) as [->|]; [intros [= <- <-]; exists h; split; [done|]; left; by exists n|].
    destruct (Z.eqb_spec major MAJOR_TEXT) as [->|]; [|done]. destruct (read_text s) as [s2 [t| | |]] eqn:Et; try done. intros [= <- <-].
    destruct (proj1 reads_text _ _ _ Hs Et) as (v & -> & Hv). exists v. split; [done|]. right. by exists t.
  - intros v [n|] rest Hv Hu; [by rewrite (proj2 Hv)|]. destruct Hv as [[n Hv]|[t Ht]]; [by rewrite (proj2 Hv)|].
    destruct (text_head v t rest Ht) as [s1 ->]. change (MAJOR_TEXT =? MAJOR_NINT) with false. change (MAJOR_TEXT =? MAJOR_UINT) with false.
    change (MAJOR_TEXT =? MAJOR_TEXT) with true. cbn iota. by rewrite (proj2 reads_text _ _ _ Ht Hu).
Qed.

Lemma reads_direction : reads read_direction (fun v d => v = [direction_byte d]).
Proof.
  split; unfold read_direction, take_be; unbind.
  - intros s s' d Hs. rewrite take_bytes_eq. destruct s as [|b s]; [done|]. cbn [length Nat.ltb Nat.leb].
    change (take 1 (b :: s)) with [b]. change (drop 1 (b :: s)) with s. assert (from_be [b] = b) as -> by (unfold from_be; simpl; lia).
    destruct (Z.eqb_spec b 244) as [->|]; [intros [= <- <-]; by exists [244]|].
    destruct (Z.eqb_spec b 245) as [->|]; [intros [= <- <-]; by exists [245]|].
    destruct (Z.eqb_spec b 246) as [->|]; [intros [= <- <-]; by exists [246]|done].
  - by intros v [] rest -> _.
Qed.

Inductive annotated : list Z → list Z → Prop :=
  | annotated_text v t : text_item v t → annotated v t
  | annotated_tag h n v t : head_ok h MAJOR_TAG n → annotated v t → annotated (h ++ v) t.
Lemma annotated_sound fuel s s' t : bytes_ok s → annotated_loop fuel s = (s', Ok t) → ∃ v, s = v ++ s' ∧ annotated v t.
Proof.
  revert s. induction fuel as [|fuel IH]; intros s Hs; cbn [annotated_loop]; unfold back_to; unbind;
    destruct (read_head s) as [s1 [[major n]| | |]] eqn:Eh; try done; destruct (read_head_inv _ _ _ _ Eh) as (h & E & Hh);
    (destruct (Z.eqb_spec major MAJOR_TAG) as [->|]; cbn [negb];
     [|intros Ht; destruct (proj1 reads_text _ _ _ Hs Ht) as (v & -> & Hv); exists v; split; [done|by constructor]]); [done|].
  intros Hl. subst s. apply bytes_ok_app in Hs as [_ Hs]. destruct (IH s1 Hs Hl) as (v & -> & Hv). exists (h ++ v).
  split; [by rewrite app_assoc|]. by eapply annotated_tag.
Qed.
Lemma annotated_complete v t fuel rest :
  annotated v t → (length v ≤ fuel)%nat → usize_ok (length (v ++ rest)) → annotated_loop fuel (v ++ rest) = (rest, Ok t).
Proof.
  intros Hv. revert fuel. induction Hv as [v t Ht|h n v t Hh Hv IH]; intros fuel Hf Hu.
  - destruct (text_head v t rest Ht) as [s1 Hr]. pose proof (proj2 reads_text _ _ _ Ht Hu) as Hx.
    destruct fuel as [|fuel]; cbn [annotated_loop]; unfold back_to; unbind; rewrite Hr; apply Hx.
  - destruct Hh as [Hne Hh]. destruct h as [|b h]; [done|]. rewrite <- app_assoc, !length_app in *. cbn [length] in *. destruct fuel as [|fuel]; [lia|].
    cbn [annotated_loop]. unbind. rewrite Hh. change (negb (MAJOR_TAG =? MAJOR_TAG)) with false. cbn iota.
    apply IH; [lia|]. rewrite ?length_app. unfold usize_ok in *. lia.
Qed.
Lemma reads_annotated : reads read_annotated_text annotated.
Proof.
  split; unfold read_annotated_text; unbind.
  - intros s s' t. apply annotated_sound.
  - intros v t rest Hv Hu. apply annotated_complete; [done| |done]. rewrite length_app. lia.
Qed.

Definition direction_item (v : list Z) (d : option WritingDirection) : Prop := v = match d with Some d => [direction_byte d] | None => [] end.
Inductive ptext_item : list Z → ProblemText → Prop :=
  | ptext_plain v t : text_item v t → ptext_item v (ProblemText_plain t)
  | ptext_tagged h1 h2 vl language vt t vd d :
      head_ok h1 MAJOR_TAG 38 → head_ok h2 MAJOR_ARRAY (if is_some d then 3 else 2) →
      annotated vl language → annotated vt t → direction_item vd d → validate_language language = Ok tt →
      ptext_item (h1 ++ h2 ++ vl ++ vt ++ vd) (mkPText t (Some language) d).
Lemma reads_opt_direction count :
  between 2 3 count = true →
  reads (if count =? 3 then d ← read_direction; mret (Some d) else mret None)
    (fun v d => direction_item v d ∧ count = if is_some d then 3 else 2).
Proof.
  unfold between. intros [H1 H2]%andb_true_iff. apply Z.leb_le in H1, H2. destruct (Z.eqb_spec count 3) as [->|].
  - eapply reads_iff; [apply reads_bind; [apply reads_direction|intros d; apply reads_ret]|]. intros v d; cbn beta. split.
    + by intros (v1 & v2 & d0 & -> & -> & -> & ->).
    + intros [-> Hc]. destruct d as [d|]; [|done]. by exists [direction_byte d], [], d.
  - assert (count = 2) as -> by lia. eapply reads_iff; [apply reads_ret|]. intros v d. split; [by intros [-> ->]|].
    intros [-> Hc]. by destruct d.
Qed.
Lemma reads_tagged count :
  between 2 3 count = true →
  reads (language ← read_annotated_text; text ← read_annotated_text;
         direction ← (if count =? 3 then d ← read_direction; mret (Some d) else mret None);
         st_lift (ProblemText_tagged language text direction))
    (fun v pt => ∃ vl language vt t vd d, v = vl ++ vt ++ vd ∧ annotated vl language ∧ annotated vt t ∧ direction_item vd d ∧
       count = (if is_some d then 3 else 2) ∧ validate_language language = Ok tt ∧ pt = mkPText t (Some language) d).
Proof.
  intros Hc. eapply reads_iff.
  { apply reads_bind; [apply reads_annotated|intros language]. apply reads_bind; [apply reads_annotated|intros text].
    apply reads_bind; [by apply reads_opt_direction|intros d]. apply reads_lift. }
  intros v pt. cbn beta. split.
  - intros (vl & v2 & language & -> & Hl & vt & v3 & t & -> & Ht & vd & v4 & d & -> & [Hd Hcd] & -> & Hp). rewrite app_nil_r.
    revert Hp. unfold ProblemText_tagged. destruct (validate_language language) as [[]| | |] eqn:Ev; try done. intros [= <-].
    by exists vl, language, vt, t, vd, d.
  - intros (vl & language & vt & t & vd & d & -> & Hl & Ht & Hd & Hcd & Hv & ->). exists vl, (vt ++ vd), language. split; [done|]. split; [done|].
    exists vt, vd, t. split; [done|]. split; [done|]. exists vd, [], d. rewrite app_nil_r. split; [done|]. split; [done|]. split; [done|].
    unfold ProblemText_tagged. by rewrite Hv.
Qed.
Lemma reads_ptext : reads read_problem_text ptext_item.
Proof.
  split; unfold read_problem_text, back_to.
  - unbind. intros s s' pt Hs. destruct (read_head s) as [s1 [[major tag]| | |]] eqn:Eh; try done.
    destruct (Z.eqb_spec major MAJOR_TEXT) as [->|].
    { destruct (read_text s) as [s2 [t| | |]] eqn:Et; try done. intros [= <- <-]. destruct (proj1 reads_text _ _ _ Hs Et) as (v & -> & Hv).
      exists v. split; [done|]. by constructor. }
    destruct (read_head_inv _ _ _ _ Eh) as (h1 & -> & Hh1). apply bytes_ok_app in Hs as [_ Hs].
    destruct (Z.eqb_spec major MAJOR_TAG) as [->|]; [|done]. destruct (Z.eqb_spec tag 38) as [->|]; [|done]. cbn [negb orb].
    destruct (read_head s1) as [s2 [[major count]| | |]] eqn:Eh2; try done.
    destruct (read_head_inv _ _ _ _ Eh2) as (h2 & -> & Hh2). apply bytes_ok_app in Hs as [_ Hs].
    destruct (Z.eqb_spec major MAJOR_ARRAY) as [->|]; [|done]. destruct (between 2 3 count) eqn:Ec; [|done]. cbn [negb orb]. intros Ht.
    destruct (proj1 (reads_tagged count Ec) s2 s' pt Hs Ht) as (v & -> & vl & language & vt & t & vd & d & -> & Hl & Hx & Hd & -> & Hv & ->).
    exists (h1 ++ h2 ++ vl ++ vt ++ vd). split; [by rewrite <- !app_assoc|]. by apply ptext_tagged.
  - intros v pt rest Hp Hu. destruct Hp as [v t Ht|h1 h2 vl language vt t vd d Hh1 Hh2 Hl Ht Hd Hv].
    + unbind. destruct (text_head v t rest Ht) as [s1 ->]. cbn [Z.eqb Pos.eqb MAJOR_TEXT]. by rewrite (proj2 reads_text _ _ _ Ht Hu).
    + assert (between 2 3 (if is_some d then 3 else 2) = true) as Hb by by destruct d.
      pose proof (proj2 (reads_tagged _ Hb) (vl ++ vt ++ vd) (mkPText t (Some language) d) rest) as Hr. unbind.
      rewrite <- !app_assoc in *. rewrite (proj2 Hh1). change (MAJOR_TAG =? MAJOR_TEXT) with false. change (MAJOR_TAG =? MAJOR_TAG) with true.
      cbn [negb orb Z.eqb Pos.eqb]. rewrite (proj2 Hh2). change (MAJOR_ARRAY =? MAJOR_ARRAY) with true. rewrite Hb. cbn [negb orb].
      apply Hr; [by exists vl, language, vt, t, vd, d|]. rewrite !length_app in *. unfold usize_ok in *. lia.
Qed.

(** A run of unsigned integers. *)
Inductive uints : list Z → list Z → Prop :=
  | uints_nil : uints [] []
  | uints_cons h n ns v : head_ok h MAJOR_UINT n → uints ns v → uints (n :: ns) (h ++ v).
Lemma reads_uints k : reads (read_uints k) (fun v _ => ∃ ns, uints ns v ∧ length ns = k).
Proof.
  induction k as [|k IH]; cbn [read_uints]; (eapply reads_iff; [first [apply reads_ret|apply reads_bind; [apply reads_uint|intros n; apply IH]]|]); intros v [].
  - split; [intros [-> _]; exists []; by split; [constructor|]|]. intros (ns & Hn & Hl). destruct Hn; by try split.
  - split.
    + intros (v1 & v2 & n & -> & H1 & ns & Hn & <-). exists (n :: ns). split; [by constructor|done].
    + intros (ns & Hn & Hl). destruct Hn as [|h n ns v Hh Hn]; [done|]. exists h, v, n. split; [done|]. split; [done|]. exists ns. by injection Hl.
Qed.
Lemma uints_length ns v : uints ns v → (length ns ≤ length v)%nat.
Proof. induction 1 as [|h n ns v [Hne _] _ IH]; [done|]. rewrite length_app. destruct h; [done|]. simpl. lia. Qed.
Lemma po_collect_uints p ns v fuel :
  uints ns v → (length ns ≤ fuel)%nat → po_collect fuel (mkPOptions (OEncoded (p ++ v)) (length p) (length ns)) = ns.
Proof.
  intros Hv. revert p fuel. induction Hv as [|h n ns v Hh Hv IH]; intros p fuel Hf; [by destruct fuel|].
  destruct fuel as [|fuel]; cbn [length] in *; [lia|]. cbn [po_collect]. unfold ProblemOptions_next. cbn [po_remaining po_source po_at Nat.eqb].
  rewrite drop_app_length. unfold read_uint. unbind. rewrite (proj2 Hh). cbn [Z.eqb MAJOR_UINT]. cbn iota.
  replace (length (p ++ h ++ v) - length v)%nat with (length (p ++ h)) by (rewrite !length_app; lia). rewrite app_assoc.
  f_equal. replace (S (length ns) - 1)%nat with (length ns) by lia. apply IH. lia.
Qed.
Lemma po_list_uints ns v : uints ns v → po_list (mkPOptions (OEncoded v) 0 (length ns)) = ns.
Proof. intros Hv. by apply (po_collect_uints [] ns v). Qed.

Inductive options_item : list Z → ProblemOptions → Prop :=
  | options_single v n : head_ok v MAJOR_UINT n → options_item v (mkPOptions (OEncoded v) 0 1)
  | options_array h ns body :
      head_ok h MAJOR_ARRAY (Z.of_nat (length ns)) → (2 ≤ length ns)%nat → uints ns body →
      options_item (h ++ body) (mkPOptions (OEncoded body) 0 (length ns)).
Lemma slice_consumed {E} (v s : list Z) : slice_idx (E:=E) (v ++ s) 0 (length (v ++ s) - length s) = Ok v.
Proof.
  rewrite length_app. replace (length v + length s - length s)%nat with (length v) by lia.
  rewrite slice_prefix by (rewrite length_app; lia). by rewrite take_app_length.
Qed.
Lemma reads_options : reads read_option_numbers options_item.
Proof.
  split; unfold read_option_numbers; unbind.
  - intros s s' o Hs. destruct (read_head s) as [s1 [[major count]| | |]] eqn:Eh; try done.
    destruct (read_head_bound _ _ _ _ Hs Eh) as [Hn _]. destruct (read_head_inv _ _ _ _ Eh) as (h & -> & Hh).
    destruct (Z.eqb_spec major MAJOR_UINT) as [->|].
    { rewrite slice_consumed. intros [= <- <-]. exists h. split; [done|]. by econstructor. }
    destruct (Z.eqb_spec major MAJOR_ARRAY) as [->|]; [|done]. destruct (Z.leb_spec 2 count); [|done]. cbn [andb]. unfold usize_try_from.
    destruct (Z.leb_spec count usize_max); [|done]. cbn [ok_or]. destruct (Nat.ltb_spec (length s1) (Z.to_nat count)); [done|].
    destruct (read_uints (Z.to_nat count) s1) as [s2 [[]| | |]] eqn:Er; try done. apply bytes_ok_app in Hs as [_ Hs].
    destruct (proj1 (reads_uints _) _ _ _ Hs Er) as (body & -> & ns & Hu & Hl). rewrite slice_consumed. intros [= <- <-].
    exists (h ++ body). split; [by rewrite app_assoc|]. rewrite <- Hl. apply options_array; [|lia|done]. by replace (Z.of_nat (length ns)) with count by lia.
  - intros v o rest Ho Hu. destruct Ho as [v n Hv|h ns body Hh Hl Hb].
    + rewrite (proj2 Hv). change (MAJOR_UINT =? MAJOR_UINT) with true. unbind. by rewrite slice_consumed.
    + rewrite <- app_assoc in *. rewrite (proj2 Hh). change (MAJOR_ARRAY =? MAJOR_UINT) with false. change (MAJOR_ARRAY =? MAJOR_ARRAY) with true.
      pose proof (uints_length _ _ Hb) as Hlb. rewrite length_app in Hu. rewrite (proj2 (Z.leb_le _ _)) by lia. cbn [andb].
      assert (usize_ok (length (body ++ rest))) as Hub by (unfold usize_ok in *; lia). rewrite length_app in Hub.
      rewrite usize_try_from_nat by (unfold usize_ok in *; lia). cbn [ok_or].
      rewrite (proj2 (Nat.ltb_ge _ _)) by (rewrite length_app; lia).
      rewrite (proj2 (reads_uints _) body tt rest) by (first [by exists ns|by rewrite length_app]). by rewrite slice_consumed.
Qed.

(** ** Entries *)
Inductive fieldval : Type :=
  | FTitle (t : ProblemText) | FDetail (t : ProblemText) | FCode (c : Code) | FInstance (t : list Z) | FBaseUri (t : list Z)
  | FBaseLanguage (t : list Z) | FBaseDirection (d : WritingDirection) | FOptions (o : ProblemOptions) | FOther.
Inductive value_item : option Z → list Z → fieldval → Prop :=
  | value_title v t : ptext_item v t → value_item (Some 0) v (FTitle t)
  | value_detail v t : ptext_item v t → value_item (Some 1) v (FDetail t)
  | value_instance v t : text_item v t → value_item (Some 2) v (FInstance t)
  | value_code v n : head_ok v MAJOR_UINT n → n ≤ 255 → value_item (Some 3) v (FCode n)
  | value_base_uri v t : text_item v t → value_item (Some 4) v (FBaseUri t)
  | value_base_language v t : text_item v t → validate_language t = Ok tt → value_item (Some 5) v (FBaseLanguage t)
  | value_base_direction v d : v = [direction_byte d] → value_item (Some 6) v (FBaseDirection d)
  | value_options v o : options_item v o → value_item (Some 7) v (FOptions o)
  | value_unknown k v : between 0 7 k = false → items 1 v → value_item (Some k) v FOther
  | value_custom h n w : head_ok h MAJOR_MAP n → n ≠ 0 → items 1 (h ++ w) → value_item None (h ++ w) FOther.
(** A field of the details takes one value. *)
Definition set_field (x : ProblemDetails) (f : fieldval) : option ProblemDetails :=
  let 'mkDetails code title detail instance base_uri base_language base_direction unprocessed original edited := x in
  let new {A} (field : option A) (y : ProblemDetails) := if is_some field then None else Some y in
  match f with
  | FTitle t => new title (mkDetails code (Some t) detail instance base_uri base_language base_direction unprocessed original edited)
  | FDetail t => new detail (mkDetails code title (Some t) instance base_uri base_language base_direction unprocessed original edited)
  | FCode c => new code (mkDetails (Some c) title detail instance base_uri base_language base_direction unprocessed original edited)
  | FInstance t => new instance (mkDetails code title detail (Some t) base_uri base_language base_direction unprocessed original edited)
  | FBaseUri t => new base_uri (mkDetails code title detail instance (Some t) base_language base_direction unprocessed original edited)
  | FBaseLanguage t => new base_language (mkDetails code title detail instance base_uri (Some t) base_direction unprocessed original edited)
  | FBaseDirection d => new base_direction (mkDetails code title detail instance base_uri base_language (Some d) unprocessed original edited)
  | FOptions o => new unprocessed (mkDetails code title detail instance base_uri base_language base_direction (Some o) original edited)
  | FOther => Some x
  end.

Lemma reads_once {A} (field : option A) (m : reader A) P : reads m P → reads (once field m) (fun v a => P v a ∧ is_some field = false).
Proof.
  intros Hm. unfold once. destruct (is_some field); [eapply reads_iff; [apply reads_fail|]|eapply reads_iff; [apply Hm|]]; intros v a.
  - split; [done|by intros []].
  - split; [done|by intros []].
Qed.
(** The value of a single-valued field. *)
Lemma reads_value {A} (field : option A) (m : reader A) P (f : A → ProblemDetails) :
  reads m P → reads (a ← once field m; mret (f a)) (fun v x => ∃ a, P v a ∧ is_some field = false ∧ x = f a).
Proof.
  intros Hm. eapply reads_iff; [apply reads_bind; [by apply reads_once|intros a; apply reads_ret]|]. intros v x. split.
  - intros (v1 & v2 & a & -> & [Hp Hf] & -> & ->). rewrite app_nil_r. eauto.
  - intros (a & Hp & Hf & ->). exists v, [], a. by rewrite app_nil_r.
Qed.

(** The values of a known key, as [set_field] takes them. *)
Ltac field_cases Hreads :=
  eapply reads_iff; [apply reads_value, Hreads|]; intros v y; split;
  [intros (a & Ha & Hn & ->); eexists; split; [by constructor|]; cbn [set_field]; by rewrite Hn
  |intros (f & Hv & Hs); inversion Hv; subst; try done; cbn [set_field] in Hs; destruct (is_some _) eqn:En in Hs; try done;
   injection Hs as <-; by eexists].
Lemma reads_field x key :
  reads (decode_field x key) (fun v y => ∃ f, value_item key v f ∧ set_field x f = Some y).
Proof.
  destruct x as [code title detail instance base_uri base_language base_direction unprocessed original edited]. cbn [decode_field].
  destruct key as [k|].
  - destruct (Z.eqb_spec k 0) as [->|]; [field_cases reads_ptext|].
    destruct (Z.eqb_spec k 1) as [->|]; [field_cases reads_ptext|].
    destruct (Z.eqb_spec k 3) as [->|].
    { eapply reads_iff; [apply reads_bind; [apply reads_once, reads_uint|]; intros raw;
        apply (reads_if _ _ _ (fun _ _ => False) _ (reads_fail _) (reads_ret _))|]. intros v y; cbn beta. split.
      - intros (v1 & v2 & m & -> & [Hh Hn] & Hr). destruct (Z.ltb_spec 255 m); [done|]. destruct Hr as [-> ->]. rewrite app_nil_r.
        exists (FCode m). split; [by constructor|]. cbn [set_field]. by destruct code.
      - intros (f & Hv & Hs). inversion Hv as [| | |v0 m Hh Hm Hk| | | | | |]; subst; try done. cbn [set_field] in Hs. destruct code; [done|]. injection Hs as <-.
        exists v, [], m. rewrite app_nil_r, (proj2 (Z.ltb_ge _ _)) by done. done. }
    destruct (Z.eqb_spec k 2) as [->|]; [field_cases reads_text|].
    destruct (Z.eqb_spec k 4) as [->|]; [field_cases reads_text|].
    destruct (Z.eqb_spec k 5) as [->|].
    { eapply reads_iff; [apply reads_bind; [apply reads_once, reads_text|]; intros t; apply reads_bind; [apply reads_lift|]; intros u; apply reads_ret|].
      intros v y; cbn beta. split.
      - intros (v1 & v2 & t & -> & [Ht Hn] & v3 & v4 & [] & -> & [-> Hl] & -> & ->). rewrite !app_nil_r.
        exists (FBaseLanguage t). split; [by constructor|]. cbn [set_field]. by rewrite Hn.
      - intros (f & Hv & Hs). inversion Hv; subst; try done. cbn [set_field] in Hs. destruct (is_some base_language) eqn:En; [done|]. injection Hs as <-.
        exists v, [], t. rewrite app_nil_r. split; [done|]. split; [done|]. by exists [], [], tt. }
    destruct (Z.eqb_spec k 6) as [->|]; [field_cases reads_direction|].
    destruct (Z.eqb_spec k 7) as [->|]; [field_cases reads_options|].
    eapply reads_iff; [apply reads_bind; [apply reads_skip|intros u; apply reads_ret]|]. intros v y; cbn beta. split.
    + intros (v1 & v2 & [] & -> & Hi & -> & ->). rewrite app_nil_r. exists FOther. split; [|done]. constructor; [|done].
      unfold between. apply andb_false_iff. rewrite !Z.leb_gt. lia.
    + intros (f & Hv & Hs). inversion Hv; subst; try done. injection Hs as <-. exists v, [], tt. by rewrite app_nil_r.
  - split; unfold back_to; unbind.
    + intros s s' y Hs. destruct (read_head s) as [s1 [[major n]| | |]] eqn:Eh; try done. destruct (Z.eqb_spec major MAJOR_MAP) as [->|]; [|done].
      destruct (Z.eqb_spec n 0); [done|]. cbn [negb orb]. destruct (skip_item s) as [s2 [[]| | |]] eqn:Ek; try done. intros [= <- <-].
      destruct (proj1 reads_skip _ _ _ Hs Ek) as (v & -> & Hi). exists v. split; [done|]. exists FOther. split; [|done].
      destruct (items_single _ Hi) as (h & w & major & n' & -> & Hh). assert (Hr := proj2 Hh (w ++ s2)). rewrite <- app_assoc in Eh. rewrite Hr in Eh.
      injection Eh as <- -> ->. by econstructor.
    + intros v y rest (f & Hv & Hs) Hu. inversion Hv as [| | | | | | | | |h n w Hh Hn Hi]; subst. injection Hs as <-. rewrite <- app_assoc at 1. rewrite (proj2 Hh).
      change (MAJOR_MAP =? MAJOR_MAP) with true. rewrite (proj2 (Z.eqb_neq _ _)) by done. cbn [negb orb].
      by rewrite (proj2 reads_skip _ tt _ Hi Hu).
Qed.

(** An entry of the map: the bytes of its key and of its value. *)
Record entry : Type := mkEntry { en_key : option Z; en_kb : list Z; en_vb : list Z; en_val : fieldval }.
Definition entry_ok (e : entry) : Prop := key_item (en_kb e) (en_key e) ∧ value_item (en_key e) (en_vb e) (en_val e).
Definition entry_wire (e : entry) : list Z := en_kb e ++ en_vb e.
Definition wire (es : list entry) : list Z := concat (map entry_wire es).
Fixpoint set_all (x : ProblemDetails) (es : list entry) : option ProblemDetails :=
  match es with [] => Some x | e :: es => match set_field x (en_val e) with Some y => set_all y es | None => None end end.

Lemma head_ok_pos h major n : head_ok h major n → (0 < length h)%nat.
Proof. intros [Hne _]. destruct h; [done|]. simpl. lia. Qed.
Lemma text_item_pos v t : text_item v t → (0 < length v)%nat.
Proof. intros (h & -> & Hh & _). pose proof (head_ok_pos _ _ _ Hh). rewrite length_app. lia. Qed.
Lemma key_item_pos v key : key_item v key → (0 < length v)%nat.
Proof. destruct key as [n|]; [apply head_ok_pos|]. intros [[n Hn]|[t Ht]]; [by eapply head_ok_pos|by eapply text_item_pos]. Qed.
Lemma wire_length es : Forall entry_ok es → (length es ≤ length (wire es))%nat.
Proof.
  induction 1 as [|e es [Hk _] _ IH]; [done|]. unfold wire, entry_wire in *. cbn [map concat length]. rewrite !length_app.
  pose proof (key_item_pos _ _ Hk). lia.
Qed.

Lemma decode_loop_sound fuel n x s s' y :
  0 ≤ n → bytes_ok s → decode_loop fuel n x s = (s', Ok y) →
  ∃ es, s = wire es ++ s' ∧ Forall entry_ok es ∧ Z.of_nat (length es) = n ∧ set_all x es = Some y.
Proof.
  revert n x s. induction fuel as [|fuel IH]; intros n x s Hn Hs; cbn [decode_loop]; destruct (Z.eqb_spec n 0) as [->|Hn0];
    try (intros [= <- <-]; exists []; by split_and!); try done.
  unbind. destruct (read_key s) as [s1 [key| | |]] eqn:Ek; try done. destruct (proj1 reads_key _ _ _ Hs Ek) as (kb & -> & Hk).
  apply bytes_ok_app in Hs as [_ Hs]. destruct (decode_field x key s1) as [s2 [x'| | |]] eqn:Ef; try done.
  destruct (proj1 (reads_field x key) _ _ _ Hs Ef) as (vb & -> & f & Hv & Hset). apply bytes_ok_app in Hs as [_ Hs]. intros Hl.
  destruct (IH (n - 1) x' s2 ltac:(lia) Hs Hl) as (es & -> & Hes & Hle & Hall). exists (mkEntry key kb vb f :: es).
  unfold wire, entry_wire. cbn [map concat en_kb en_vb length set_all en_val]. rewrite Hset, <- !app_assoc. split_and!; try done; [|lia]. by constructor.
Qed.
Lemma decode_loop_complete fuel es x y rest :
  Forall entry_ok es → set_all x es = Some y → (length es ≤ fuel)%nat → usize_ok (length (wire es ++ rest)) →
  decode_loop fuel (Z.of_nat (length es)) x (wire es ++ rest) = (rest, Ok y).
Proof.
  intros Hes. revert fuel x. induction Hes as [|e es [Hk Hv] Hes IH]; intros fuel x Hset Hf Hu; [injection Hset as ->; by destruct fuel|].
  cbn [length] in *. destruct fuel as [|fuel]; [lia|]. cbn [decode_loop]. rewrite (proj2 (Z.eqb_neq _ _)) by lia. unbind.
  unfold wire, entry_wire in *. cbn [map concat set_all] in *. destruct (set_field x (en_val e)) as [x'|] eqn:Es; [|done].
  rewrite <- !app_assoc in *. rewrite (proj2 reads_key _ _ _ Hk Hu). rewrite length_app in Hu.
  assert (usize_ok (length (en_vb e ++ concat (map (fun e => en_kb e ++ en_vb e) es) ++ rest))) as Hu' by (unfold usize_ok in *; lia).
  rewrite (proj2 (reads_field x _) _ x' _) by (first [by exists (en_val e)|done]).
  replace (Z.of_nat (S (length es)) - 1) with (Z.of_nat (length es)) by lia. apply IH; [done|lia|]. rewrite length_app in Hu'. unfold usize_ok in *. lia.
Qed.
Lemma problem_decode_sound bytes d :
  bytes_ok bytes → problem_decode bytes = Ok d →
  ∃ h es x, bytes = h ++ wire es ∧ head_ok h MAJOR_MAP (Z.of_nat (length es)) ∧ es ≠ [] ∧ Forall entry_ok es ∧
    set_all no_details es = Some x ∧ d = with_original x bytes.
Proof.
  intros Hs. unfold problem_decode. unbind. destruct (read_head bytes) as [s1 [[major n]| | |]] eqn:Eh; try done.
  destruct (read_head_bound _ _ _ _ Hs Eh) as [Hn _]. destruct (read_head_inv _ _ _ _ Eh) as (h & E & Hh).
  destruct (Z.eqb_spec major MAJOR_MAP) as [->|]; [|done]. destruct (Z.eqb_spec n 0); [done|]. cbn [negb orb].
  destruct (decode_loop (length bytes) n no_details s1) as [s2 [x| | |]] eqn:El; try done.
  destruct s2 as [|b s2]; [|done]. cbn [is_nil negb]. intros [= <-]. assert (bytes_ok s1) as Hs1 by (rewrite E in Hs; by apply bytes_ok_app in Hs as [_ ?]).
  destruct (decode_loop_sound _ _ _ _ _ _ (proj1 Hn) Hs1 El) as (es & E1 & Hes & Hl & Hall). exists h, es, x. rewrite Hl.
  split_and!; try done; [by rewrite E, E1, app_nil_r|]. intros ->. by cbn in Hl.
Qed.
Lemma problem_decode_complete h es x :
  head_ok h MAJOR_MAP (Z.of_nat (length es)) → es ≠ [] → Forall entry_ok es → set_all no_details es = Some x → usize_ok (length (h ++ wire es)) →
  problem_decode (h ++ wire es) = Ok (with_original x (h ++ wire es)).
Proof.
  intros Hh Hne Hes Hall Hu. unfold problem_decode. unbind. rewrite (proj2 Hh). change (MAJOR_MAP =? MAJOR_MAP) with true.
  rewrite (proj2 (Z.eqb_neq _ _)) by (destruct es; [done|simpl; lia]). cbn [negb orb]. pose proof (wire_length _ Hes). rewrite length_app in *.
  rewrite <- (app_nil_r (wire es)) at 2.
  assert (usize_ok (length (wire es ++ []))) as Hw by (rewrite app_nil_r; unfold usize_ok in *; lia).
  rewrite (decode_loop_complete _ _ _ x) by (first [done|lia]). done.
Qed.
End target.

(** * Reading problem details always ends

    Every reader of [src/message/problem.rs] returns, with a value or an error,
    and never moves its cursor back: the loops spend their fuel slower than the
    input. *)
(** [m] returns on [s], having read at least [k] bytes when it succeeds. *)
Definition ends {A} (k : nat) (m : reader A) (s : list Z) : Prop :=
  match m s with (s', Ok _) => (length s' + k ≤ length s)%nat | (_, Err _) => True | _ => False end.

Lemma ends_ret {A} (a : A) s : ends 0 (mret a) s.
Proof. unfold ends. unbind. lia. Qed.
Lemma ends_fail {A} k e s : ends (A:=A) k (st_fail e) s.
Proof. done. Qed.
Lemma ends_ok_or {A} (o : option A) e s : ends 0 (st_lift (ok_or o e)) s.
Proof. destruct o; unfold ends, st_lift; cbn; [lia|done]. Qed.
Lemma ends_weaken {A} j k (m : reader A) s : ends k m s → (j ≤ k)%nat → ends j m s.
Proof. unfold ends. destruct (m s) as [s' [a| | |]]; [lia|done..]. Qed.
Lemma ends_bind {A B} j k (m : reader A) (f : A → reader B) s :
  ends j m s → (∀ a s', m s = (s', Ok a) → (length s' + j ≤ length s)%nat → ends k (f a) s') → ends (j + k) (m ≫= f) s.
Proof.
  unfold ends. unbind. destruct (m s) as [s' [a| | |]]; try done. intros Hm Hf. specialize (Hf a s' eq_refl Hm).
  destruct (f a s') as [s2 [b| | |]]; [lia|done..].
Qed.
(** A first reader that is done before the cursor goes back to the start. *)
Lemma ends_then {A B} k (m : reader A) (f : A → reader B) s :
  ends 0 m s → (∀ a s', m s = (s', Ok a) → (length s' ≤ length s)%nat → ends k (f a) s') → ends k (m ≫= f) s.
Proof. intros Hm Hf. apply (ends_bind 0 k); [done|]. intros a s' E Hl. apply (Hf a s' E). lia. Qed.
Lemma ends_if {A} k (b : bool) (m m' : reader A) s : ends k m s → ends k m' s → ends k (if b then m else m') s.
Proof. by destruct b. Qed.
Lemma ends_take n s : ends n (take_bytes n) s.
Proof.
  unfold ends. rewrite take_bytes_eq. destruct (Nat.ltb_spec (length s) n); [done|]. rewrite length_drop. lia.
Qed.
Lemma ends_be n s : ends n (take_be n) s.
Proof. unfold take_be. rewrite <- (Nat.add_0_r n) at 1. eapply ends_bind; [apply ends_take|]. intros. apply ends_ret. Qed.
Lemma ends_head s : ends 1 read_head s.
Proof.
  unfold read_head. apply (ends_bind 1 0); [apply ends_be|]. intros b s1 _ _. cbv zeta. apply ends_then.
  - repeat apply ends_if; try apply ends_ret; try apply ends_fail; (eapply ends_weaken; [apply ends_be|lia]).
  - intros n s2 _ _. apply ends_ret.
Qed.
Create HintDb ends.
#[export] Hint Resolve ends_ret ends_fail ends_ok_or ends_if ends_take ends_be ends_head : ends.

(** [let start = *at; let head = read_head(..)?; *at = start; m]. *)
Lemma ends_back {A} k (m : reader A) start s : ends k m start → (length start ≤ length s)%nat → ends k (back_to start m) s.
Proof. unfold ends, back_to. unbind. destruct (m start) as [s' [a| | |]]; [lia|done..]. Qed.
(** A reader that peeks at the head first. *)
Lemma ends_peek {A} k (f : list Z → Z * Z → reader A) s :
  (∀ h s', read_head s = (s', Ok h) → (length s' < length s)%nat → match f s h s' with (s2, Ok _) => (length s2 + k ≤ length s)%nat | (_, Err _) => True | _ => False end) →
  ends k (start ← st_get; h ← read_head; f start h) s.
Proof.
  intros Hf. pose proof (ends_head s) as Hh. unfold ends in *. unbind. destruct (read_head s) as [s1 [h| | |]]; try done. apply (Hf h s1); [done|lia].
Qed.

Section target.
Context `{Target}.

Lemma ends_uint s : ends 1 read_uint s.
Proof. unfold read_uint. apply (ends_bind 1 0); [apply ends_head|]. intros [major n] s1 _ _. auto with ends. Qed.
Lemma ends_text s : ends 1 read_text s.
Proof.
  unfold read_text. apply (ends_bind 1 0); [apply ends_head|]. intros [major n] s1 _ _. apply ends_if; [auto with ends|].
  apply ends_then; [auto with ends|]. intros len s2 _ _. apply ends_then; [eapply ends_weaken; [apply ends_take|lia]|]. intros. auto with ends.
Qed.
Lemma ends_key s : ends 1 read_key s.
Proof.
  unfold read_key. apply (ends_peek 1). intros [major n] s1 _ Hl.
  destruct (major =? MAJOR_NINT); [unbind; lia|]. destruct (major =? MAJOR_UINT); [unbind; lia|]. destruct (major =? MAJOR_TEXT); [|done].
  unfold back_to. pose proof (ends_text s) as Ht. unfold ends in Ht. unbind. by destruct (read_text s) as [s2 [t| | |]].
Qed.
Lemma ends_direction s : ends 1 read_direction s.
Proof. unfold read_direction. apply (ends_bind 1 0); [apply ends_be|]. intros b s1 _ _. auto with ends. Qed.
Lemma ends_annotated_loop fuel s : (length s ≤ fuel)%nat → ends 1 (annotated_loop fuel) s.
Proof.
  revert s. induction fuel as [|fuel IH]; intros s Hf; cbn [annotated_loop]; apply (ends_peek 1); intros [major n] s1 _ Hl; [lia|].
  destruct (negb _).
  - unfold back_to. pose proof (ends_text s) as Ht. unfold ends in Ht. unbind. by destruct (read_text s) as [s2 [t| | |]].
  - specialize (IH s1 ltac:(lia)). unfold ends in IH. destruct (annotated_loop fuel s1) as [s2 [t| | |]]; [lia|done..].
Qed.
Lemma ends_annotated s : ends 1 read_annotated_text s.
Proof. unfold read_annotated_text, ends. unbind. by apply ends_annotated_loop. Qed.
Lemma ends_validate language s : ends 0 (st_lift (validate_language language)) s.
Proof.
  unfold ends, st_lift, validate_language. destruct (split 45 language) as [|first rest]; [done|].
  destruct (negb _); [done|]. destruct (existsb _ rest); [done|]. cbn. lia.
Qed.
Lemma ends_tagged language text direction s : ends 0 (st_lift (ProblemText_tagged language text direction)) s.
Proof.
  pose proof (ends_validate language s) as Hv. unfold ends, st_lift, ProblemText_tagged in *. unbind.
  by destruct (validate_language language) as [[]| | |].
Qed.
Lemma ends_ptext s : ends 1 read_problem_text s.
Proof.
  unfold read_problem_text. apply (ends_peek 1). intros [major tag] s1 _ Hl. destruct (major =? MAJOR_TEXT).
  { unfold back_to. pose proof (ends_text s) as Ht. unfold ends in Ht. unbind. by destruct (read_text s) as [s2 [t| | |]]. }
  destruct (negb _ || negb _); [done|]. assert (∀ m : reader ProblemText, ends 0 m s1 →
    match m s1 with (s2, Ok _) => (length s2 + 1 ≤ length s)%nat | (_, Err _) => True | _ => False end) as Hm.
  { intros m. unfold ends. destruct (m s1) as [s2 [t| | |]]; [lia|done..]. }
  apply Hm. apply ends_then; [eapply ends_weaken; [apply ends_head|lia]|]. intros [maj count] s2 _ _. apply ends_if; [apply ends_fail|].
  apply ends_then; [eapply ends_weaken; [apply ends_annotated|lia]|]. intros language s3 _ _.
  apply ends_then; [eapply ends_weaken; [apply ends_annotated|lia]|]. intros text s4 _ _.
  apply ends_then; [|intros; apply ends_tagged]. apply ends_if; [|apply ends_ret].
  apply ends_then; [eapply ends_weaken; [apply ends_direction|lia]|]. intros; apply ends_ret.
Qed.

Lemma ends_children first major n s : ends 0 (item_children first major n) s.
Proof.
  unfold item_children. repeat (apply ends_if || apply ends_ret || apply ends_fail || apply ends_ok_or).
  apply ends_then; [auto with ends|]. intros len s2 _ _. apply ends_then; [eapply ends_weaken; [apply ends_take|lia]|]. intros. auto with ends.
Qed.
Lemma ends_skip_loop fuel pending s : (length s < fuel)%nat → ends 0 (skip_loop fuel pending) s.
Proof.
  revert pending s. induction fuel as [|fuel IH]; intros pending s Hf; [lia|]. cbn [skip_loop]. destruct (pending =? 0); [apply ends_ret|].
  pose proof (ends_head s) as Hh. unfold ends in *. unbind. destruct (read_head s) as [s1 [[major n]| | |]]; try done.
  destruct s as [|first s]; [cbn [length] in Hh; lia|]. rewrite (idx_first first [] s : idx (first :: s) 0 = Ok first).
  pose proof (ends_children first major n s1) as Hc. unfold ends in Hc. destruct (item_children first major n s1) as [s2 [c| | |]]; try done.
  destruct (checked_add 64 (pending - 1) c) as [p|]; cbn; [|done]. destruct (_ <? p); [done|].
  cbn [length] in *. specialize (IH p s2 ltac:(lia)). destruct (skip_loop fuel p s2) as [s3 [[]| | |]]; [lia|done..].
Qed.
Lemma ends_skip s : ends 0 skip_item s.
Proof. unfold skip_item, ends. unbind. apply ends_skip_loop. lia. Qed.
Lemma ends_uints n s : ends 0 (read_uints n) s.
Proof.
  revert s. induction n as [|n IH]; intros s; cbn [read_uints]; [apply ends_ret|].
  apply ends_then; [eapply ends_weaken; [apply ends_uint|lia]|]. intros; apply IH.
Qed.
Lemma ends_numbers s : ends 0 read_option_numbers s.
Proof.
  unfold read_option_numbers, ends. pose proof (ends_head s) as Hh. unfold ends in Hh. unbind.
  destruct (read_head s) as [s1 [[major count]| | |]]; try done. destruct (major =? MAJOR_UINT).
  { rewrite slice_prefix by lia. lia. }
  destruct (_ && _); [|done]. destruct (usize_try_from count) as [k|]; [|done]. cbn [ok_or]. destruct (_ <? k)%nat; [done|].
  pose proof (ends_uints k s1) as Hu. unfold ends in Hu. destruct (read_uints k s1) as [s2 [[]| | |]]; try done. rewrite slice_prefix by lia. lia.
Qed.
Lemma ends_once {A B} (field : option A) (m : reader A) (f : A → B) s : ends 0 m s → ends 0 (a ← once field m; mret (f a)) s.
Proof. intros Hm. apply ends_then; [|intros; apply ends_ret]. unfold once. apply ends_if; [apply ends_fail|done]. Qed.
Lemma ends_field x key s : ends 0 (decode_field x key) s.
Proof.
  destruct x. unfold decode_field. destruct key as [k|].
  - repeat (apply ends_if || apply ends_once).
    all: try (eapply ends_weaken; [first [apply ends_ptext|apply ends_text|apply ends_direction|apply ends_numbers]|lia]).
    + apply ends_then; [unfold once; apply ends_if; [apply ends_fail|eapply ends_weaken; [apply ends_uint|lia]]|]. intros. auto with ends.
    + apply ends_then; [unfold once; apply ends_if; [apply ends_fail|eapply ends_weaken; [apply ends_text|lia]]|]. intros t s1 _ _.
      apply ends_then; [apply ends_validate|]. intros; apply ends_ret.
    + apply ends_then; [apply ends_skip|]. intros; apply ends_ret.
  - apply (ends_peek 0). intros [major n] s1 _ Hl. destruct (_ || _); [done|].
    unfold back_to. pose proof (ends_skip s) as Hk. unfold ends in Hk. unbind. destruct (skip_item s) as [s2 [[]| | |]]; [lia|done..].
Qed.
Lemma ends_decode_loop fuel n x s : (length s < fuel)%nat → ends 0 (decode_loop fuel n x) s.
Proof.
  revert n x s. induction fuel as [|fuel IH]; intros n x s Hf; [lia|]. cbn [decode_loop]. destruct (n =? 0); [apply ends_ret|].
  apply (ends_weaken 0 (1 + 0)); [|lia]. apply ends_bind; [apply ends_key|]. intros key s1 _ H1. apply ends_then; [apply ends_field|]. intros y s2 _ H2.
  apply IH. lia.
Qed.
(** Decoding any bytes returns a value or an error. *)
Lemma problem_decode_ends bytes : (∃ d, problem_decode bytes = Ok d) ∨ ∃ e, problem_decode bytes = Err e.
Proof.
  unfold problem_decode. match goal with |- context [(?m bytes).2] => assert (ends 0 m bytes) as Hm end.
  { apply (ends_weaken 0 (1 + 0)); [|lia]. apply ends_bind; [apply ends_head|]. intros [major n] s1 _ H1. apply ends_if; [apply ends_fail|].
    apply ends_then; [apply ends_decode_loop; lia|]. intros y s2 _ _. unfold ends. unbind. destruct (negb _); cbn; [done|lia]. }
  unfold ends in Hm. match goal with |- context [(?m bytes).2] => destruct (m bytes) as [s' [d| | |]] end; cbn [snd] in *; try done; eauto.
Qed.
End target.
