(* ===== verification/ProblemRound.v ===== *)
(** * Problem details: what is written is read back

    Every writer of [Problem] writes a fixed sequence of bytes or reports that
    the buffer is too small.  The sequence of a details value, built anew or
    decoded and edited, is a map in the grammar of [ProblemLaws]: decoding gives
    the details back. *)
From Stdlib Require Import String.
From S2P Require Import Prelude Errors MsgTypes Options Encode Decode OptionValues MessageOptions AsciiText Problem ProblemLaws.

(** ** Writers *)
Section writers.
Context `{Target}.

Definition emits (w : writer unit) (bs : list Z) : Prop :=
  ∀ buf i, (i ≤ length buf)%nat →
    if (i + length bs <=? length buf)%nat then w (buf, i) = ((splice buf i bs, (i + length bs)%nat), Ok tt)
    else ∃ s, w (buf, i) = (s, Err BufferTooSmall) ∧ length s.1 = length buf.

Lemma emits_nil : emits (mret tt) [].
Proof. intros buf i Hi. rewrite Nat.add_0_r, (proj2 (Nat.leb_le _ _)) by done. by rewrite splice_nil. Qed.
Lemma emits_put b : emits (pd_put b) [b].
Proof.
  intros buf i Hi. unfold pd_put. unbind. cbn [length]. destruct (Nat.leb_spec (i + 1) (length buf)).
  - rewrite (proj2 (Nat.leb_gt _ _)) by lia. by rewrite set_idx_ok by lia.
  - rewrite (proj2 (Nat.leb_le _ _)) by lia. by eexists.
Qed.
Lemma emits_slice bs : emits (pd_put_slice bs) bs.
Proof.
  intros buf i Hi. unfold pd_put_slice. unbind. destruct (Nat.leb_spec (i + length bs) (length buf)).
  - rewrite (proj2 (Nat.ltb_ge _ _)) by lia. by rewrite copy_into_ok by lia.
  - rewrite (proj2 (Nat.ltb_lt _ _)) by lia. by eexists.
Qed.
Lemma emits_bind w1 w2 s1 s2 : emits w1 s1 → emits w2 s2 → emits (w1;; w2) (s1 ++ s2).
Proof.
  intros H1 H2 buf i Hi. specialize (H1 buf i Hi). rewrite length_app. unbind.
  destruct (Nat.leb_spec (i + length s1) (length buf)) as [Hl|Hl].
  - rewrite H1. assert (length (splice buf i s1) = length buf) as Hb by (by apply length_splice).
    specialize (H2 (splice buf i s1) (i + length s1)%nat ltac:(lia)). rewrite Hb, <- Nat.add_assoc in H2. revert H2.
    destruct (Nat.leb_spec (i + (length s1 + length s2)) (length buf)); [intros ->; by rewrite splice_splice by lia|done].
  - destruct H1 as (s & -> & Hs). rewrite (proj2 (Nat.leb_gt _ _)) by lia. by eexists.
Qed.
Lemma emits_eq w s s' : s = s' → emits w s → emits w s'.
Proof. by intros ->. Qed.
Lemma emits_lift {A} (a : A) k s : emits (k a) s → emits (st_lift (Ok a) ≫= k) s.
Proof. done. Qed.

(** *** Heads *)
Definition enc_head (major n : Z) : list Z :=
  if n <=? 23 then [32 * major + n]
  else if n <=? 255 then (32 * major + 24) :: be_bytes 1 n
  else if n <=? 65535 then (32 * major + 25) :: be_bytes 2 n
  else if n <=? 2 ^ 32 - 1 then (32 * major + 26) :: be_bytes 4 n
  else (32 * major + 27) :: be_bytes 8 n.

Lemma emits_shifts n l : emits (pd_put_shifts n l) (map (fun s => wrap 8 (Z.shiftr n s)) l).
Proof. induction l as [|s l IH]; [apply emits_nil|]. cbn [pd_put_shifts map]. apply (emits_bind _ _ [_] _); [apply emits_put|apply IH]. Qed.
Lemma be_bytes_shifts k n : be_bytes k n = map (fun i => wrap 8 (Z.shiftr n (8 * Z.of_nat (k - 1 - i)))) (seq 0 k).
Proof.
  revert n. induction k as [|k IH]; intros n; [done|]. rewrite seq_S, map_app. cbn [be_bytes map]. rewrite IH. f_equal.
  - apply map_ext_in. intros i Hi. apply in_seq in Hi. f_equal. rewrite !Z.shiftr_div_pow2 by lia. change 256 with (2 ^ 8).
    rewrite Z.div_div, <- Z.pow_add_r by lia. do 2 f_equal. lia.
  - f_equal. replace (S k - 1 - (0 + k))%nat with 0%nat by lia. cbn [Z.of_nat Z.mul]. by rewrite Z.shiftr_0_r.
Qed.
Lemma first_byte_sum major ai : 0 ≤ major < 8 → 0 ≤ ai < 32 → Z.lor (shl 8 major 5) ai = 32 * major + ai.
Proof.
  intros Hm Ha. unfold shl. rewrite wrap_small by (unfold in_u; rewrite Z.shiftl_mul_pow2 by lia; lia).
  rewrite lor_shiftl_add by lia. lia.
Qed.
Lemma emits_head major n : 0 ≤ major < 8 → 0 ≤ n → emits (pd_put_head major n) (enc_head major n).
Proof.
  intros Hm Hn. unfold pd_put_head, enc_head. cbv zeta. destruct (Z.leb_spec n 23).
  { rewrite wrap_small by (unfold in_u; lia). rewrite first_byte_sum by lia. apply emits_put. }
  assert (∀ k ai l, 0 ≤ ai < 32 → be_bytes k n = map (fun s => wrap 8 (Z.shiftr n s)) l →
    emits (pd_put (Z.lor (shl 8 major 5) ai);; pd_put_shifts n l) ((32 * major + ai) :: be_bytes k n)) as Hmany.
  { intros k ai l Ha ->. rewrite first_byte_sum by done. apply (emits_bind _ _ [_] _); [apply emits_put|apply emits_shifts]. }
  repeat (match goal with |- context [n <=? ?m] => destruct (Z.leb_spec n m) end).
  { rewrite first_byte_sum by lia. apply (emits_bind _ _ [_] _); [apply emits_put|]. unfold wrap. cbn [be_bytes app]. apply emits_put. }
  all: apply Hmany; [lia|]; rewrite be_bytes_shifts; done.
Qed.
Lemma head_byte_parts major ai : 0 ≤ major < 8 → 0 ≤ ai < 32 → Z.shiftr (32 * major + ai) 5 = major ∧ Z.land (32 * major + ai) 31 = ai.
Proof. intros Hm Ha. rewrite Z.shiftr_div_pow2, (land_mask _ 5) by done. split; div_lia. Qed.
Lemma take_be_bytes k n rest : 0 ≤ n < 2 ^ (8 * Z.of_nat k) → take_be k (be_bytes k n ++ rest) = (rest, Ok n).
Proof.
  intros Hn. unfold take_be. unbind. pose proof (take_payload (be_bytes k n) rest) as Ht. rewrite length_be_bytes in Ht. rewrite Ht.
  by rewrite from_be_bytes, Z.mod_small.
Qed.
Lemma enc_head_ok major n : 0 ≤ major < 8 → 0 ≤ n < 2 ^ 64 → head_ok (enc_head major n) major n.
Proof.
  intros Hm Hn. assert (∀ b rest, take_be 1 (b :: rest) = (rest, Ok b)) as Hb by (intros b rest; unfold take_be; unbind; rewrite take_bytes_eq; cbn; by destruct b).
  split; unfold enc_head.
  { repeat (match goal with |- context [n <=? ?m] => destruct (Z.leb_spec n m) end); done. }
  intros rest. unfold read_head. unbind.
  repeat (match goal with |- context [n <=? ?m] => destruct (Z.leb_spec n m) end); cbn [app]; rewrite Hb.
  - destruct (head_byte_parts major n Hm ltac:(lia)) as [-> ->]. by rewrite (proj2 (Z.leb_le _ _)).
  - destruct (head_byte_parts major 24 Hm ltac:(lia)) as [-> ->]. cbn [Z.leb Z.compare Z.eqb Pos.compare Pos.compare_cont Pos.eqb]. by rewrite (take_be_bytes 1) by lia.
  - destruct (head_byte_parts major 25 Hm ltac:(lia)) as [-> ->]. cbn [Z.leb Z.compare Z.eqb Pos.compare Pos.compare_cont Pos.eqb]. by rewrite (take_be_bytes 2) by lia.
  - destruct (head_byte_parts major 26 Hm ltac:(lia)) as [-> ->]. cbn [Z.leb Z.compare Z.eqb Pos.compare Pos.compare_cont Pos.eqb]. by rewrite (take_be_bytes 4) by lia.
  - destruct (head_byte_parts major 27 Hm ltac:(lia)) as [-> ->]. cbn [Z.leb Z.compare Z.eqb Pos.compare Pos.compare_cont Pos.eqb]. by rewrite (take_be_bytes 8) by lia.
Qed.

(** *** Values *)
Definition enc_text (t : list Z) : list Z := enc_head MAJOR_TEXT (Z.of_nat (length t)) ++ t.
Definition enc_ptext (v : ProblemText) : list Z :=
  (match pt_language v with
   | None => []
   | Some language => enc_head MAJOR_TAG 38 ++ enc_head MAJOR_ARRAY (if is_some (pt_direction v) then 3 else 2) ++ enc_text language
   end)
  ++ enc_text (pt_text v) ++ (match pt_direction v with None => [] | Some d => [direction_byte d] end).
Definition enc_uints (l : list Z) : list Z := concat (map (enc_head MAJOR_UINT) l).
Definition enc_options (o : ProblemOptions) : list Z :=
  (if (1 <? po_remaining o)%nat then enc_head MAJOR_ARRAY (Z.of_nat (po_remaining o)) else []) ++ enc_uints (po_list o).

Lemma emits_text t : emits (pd_put_text t) (enc_text t).
Proof. apply emits_bind; [apply emits_head; [done|lia]|apply emits_slice]. Qed.
Lemma emits_ptext v : emits (put_problem_text v) (enc_ptext v).
Proof.
  apply emits_bind; [|apply emits_bind; [apply emits_text|]].
  - destruct (pt_language v); [|apply emits_nil]. apply emits_bind; [by apply emits_head|]. apply emits_bind; [|apply emits_text].
    apply emits_head; [done|]. by destruct (is_some _).
  - destruct (pt_direction v); [apply emits_put|apply emits_nil].
Qed.
Lemma emits_uints l : Forall (in_u 64) l → emits (put_numbers l) (enc_uints l).
Proof.
  induction 1 as [|n l [Hn _] _ IH]; [apply emits_nil|]. cbn [put_numbers]. unfold enc_uints. cbn [map concat].
  apply emits_bind; [|apply IH]. by apply emits_head.
Qed.
Lemma emits_options o : Forall (in_u 64) (po_list o) → emits (put_option_numbers o) (enc_options o).
Proof.
  intros Ho. apply emits_bind; [|by apply emits_uints]. destruct (1 <? po_remaining o)%nat; [|apply emits_nil]. apply emits_head; [done|lia].
Qed.

(** What a program may give: strings are UTF-8 bytes and lengths fit a [usize]. *)
Definition str_ok (t : list Z) : Prop := utf8_valid t = true ∧ usize_ok (length t) ∧ bytes_ok t.
Definition ptext_ok (v : ProblemText) : Prop :=
  str_ok (pt_text v) ∧
  match pt_language v with None => pt_direction v = None | Some l => str_ok l ∧ validate_language l = Ok tt end.
Definition values (ns : list Z) : ProblemOptions := mkPOptions (OValues ns) 0 (length ns).
Definition encoded (ns : list Z) : ProblemOptions := mkPOptions (OEncoded (enc_uints ns)) 0 (length ns).
Definition numbers_ok (ns : list Z) : Prop := ns ≠ [] ∧ Forall (in_u 64) ns ∧ usize_ok (length ns).

Lemma usize_u64 n : usize_ok n → 0 ≤ Z.of_nat n < 2 ^ 64.
Proof. unfold usize_ok. pose proof usize_max_le. lia. Qed.
Lemma enc_text_ok t : str_ok t → text_item (enc_text t) t.
Proof. intros (Hu & Hl & _). eexists. split; [done|]. split; [|done]. apply enc_head_ok; [done|by apply usize_u64]. Qed.
Lemma enc_ptext_ok v : ptext_ok v → ptext_item (enc_ptext v) v.
Proof.
  destruct v as [t [l|] d]; unfold ptext_ok, enc_ptext; cbn [pt_text pt_language pt_direction]; intros [Ht Hl].
  - destruct Hl as [Hl Hv]. rewrite <- !app_assoc.
    apply ptext_tagged; try done; try (constructor; by apply enc_text_ok); apply enc_head_ok; try done; by destruct (is_some d).
  - subst d. rewrite app_nil_r. cbn [app]. constructor. by apply enc_text_ok.
Qed.
Lemma enc_uints_ok ns : Forall (in_u 64) ns → uints ns (enc_uints ns).
Proof.
  induction 1 as [|n l Hn _ IH]; [constructor|]. unfold enc_uints. cbn [map concat]. constructor; [|done]. apply enc_head_ok; [done|apply Hn].
Qed.
Lemma po_collect_values p ns fuel :
  (length ns ≤ fuel)%nat → po_collect fuel (mkPOptions (OValues (p ++ ns)) (length p) (length ns)) = ns.
Proof.
  revert p fuel. induction ns as [|n ns IH]; intros p fuel Hf; [by destruct fuel|]. destruct fuel as [|fuel]; cbn [length] in *; [lia|].
  cbn [po_collect]. unfold ProblemOptions_next. cbn [po_remaining po_source po_at Nat.eqb]. rewrite list_lookup_middle by done.
  f_equal. specialize (IH (p ++ [n]) fuel ltac:(lia)). rewrite <- app_assoc, length_app in IH. cbn [length app] in IH.
  replace (S (length ns) - 1)%nat with (length ns) by lia. apply IH.
Qed.
Lemma po_list_values ns : po_list (values ns) = ns.
Proof. by apply (po_collect_values []). Qed.
Lemma po_list_encoded ns : Forall (in_u 64) ns → po_list (encoded ns) = ns.
Proof. intros Hn. by apply po_list_uints, enc_uints_ok. Qed.
Lemma enc_options_ok ns : numbers_ok ns → options_item (enc_options (values ns)) (encoded ns).
Proof.
  intros (Hne & Hn & Hl). unfold enc_options. rewrite po_list_values. unfold values. cbn [po_remaining].
  destruct ns as [|n [|m ns]]; [done| |].
  - cbn [length Nat.ltb Nat.leb app]. unfold encoded. econstructor. unfold enc_uints. cbn [map concat]. rewrite app_nil_r.
    apply enc_head_ok; [done|]. by apply Forall_cons in Hn as [? _].
  - rewrite (proj2 (Nat.ltb_lt _ _)) by (cbn [length]; lia). apply options_array; [|cbn [length]; lia|by apply enc_uints_ok].
    apply enc_head_ok; [done|by apply usize_u64].
Qed.

(** *** Every value is one item *)
Lemma items_leaf h major n : head_ok h major n → major = MAJOR_UINT ∨ major = MAJOR_NINT → items 1 h.
Proof.
  intros Hh Hm. destruct h as [|b h]; [by destruct Hh|]. rewrite <- (app_nil_r (b :: h)). apply (items_one b h major n [] 0 []); try done; [|constructor].
  destruct Hm as [->| ->]; constructor.
Qed.
Lemma items_text v t : text_item v t → items 1 v.
Proof.
  intros (h & -> & Hh & Hu). destruct h as [|b h]; [by destruct Hh|]. rewrite <- (app_nil_r t).
  apply (items_one b h MAJOR_TEXT (Z.of_nat (length t)) t 0 []); try done; [by constructor|constructor].
Qed.
Lemma items_tag h n v : head_ok h MAJOR_TAG n → items 1 v → items 1 (h ++ v).
Proof. intros Hh Hv. destruct h as [|b h]; [by destruct Hh|]. apply (items_one b h MAJOR_TAG n [] 1 v); try done. constructor. Qed.
Lemma items_array h n v : head_ok h MAJOR_ARRAY n → items n v → items 1 (h ++ v).
Proof.
  intros Hh Hv. destruct h as [|b h]; [by destruct Hh|]. pose proof (items_length _ _ Hv).
  apply (items_one b h MAJOR_ARRAY n [] n v); try done; [lia|]. constructor.
Qed.
Lemma items_annotated v t : annotated v t → items 1 v.
Proof. induction 1; [by eapply items_text|by eapply items_tag]. Qed.
Lemma items_direction d : items 1 [direction_byte d].
Proof.
  change [direction_byte d] with ((direction_byte d :: []) ++ [] ++ []).
  apply (items_one _ _ MAJOR_SIMPLE (Z.land (direction_byte d) 31) [] 0 []); [done| | |constructor]; [split; [done|]|]; destruct d; try done; by constructor.
Qed.
Lemma items_ptext v t : ptext_item v t → items 1 v.
Proof.
  destruct 1 as [v t Ht|h1 h2 vl l vt t vd d Hh1 Hh2 Hl Ht Hd Hv]; [by eapply items_text|]. eapply items_tag; [done|]. eapply items_array; [done|].
  unfold direction_item in Hd. subst vd.
  destruct d as [d|]; cbn [is_some].
  - apply (items_app 1 vl 2); [by eapply items_annotated|]. apply (items_app 1 vt 1); [by eapply items_annotated|apply items_direction].
  - rewrite app_nil_r. apply (items_app 1 vl 1); by eapply items_annotated.
Qed.
Lemma items_uints ns v : uints ns v → items (Z.of_nat (length ns)) v.
Proof.
  induction 1 as [|h n ns v Hh _ IH]; [constructor|]. cbn [length]. replace (Z.of_nat (S (length ns))) with (1 + Z.of_nat (length ns)) by lia.
  apply items_app; [|done]. eapply items_leaf; [done|by left].
Qed.
Lemma items_options v o : options_item v o → items 1 v.
Proof.
  destruct 1 as [v n Hv|h ns body Hh Hl Hb]; [eapply items_leaf; [done|by left]|]. eapply items_array; [done|by apply items_uints].
Qed.
Lemma items_value key v f : value_item key v f → items 1 v.
Proof.
  destruct 1; eauto using items_ptext, items_text, items_options. - eapply items_leaf; [done|by left]. - subst v. apply items_direction.
Qed.

(** ** Entries of a new value *)
Definition title_entry (t : ProblemText) : entry := mkEntry (Some 0) [32] (enc_ptext t) (FTitle t).
Definition detail_entry (t : ProblemText) : entry := mkEntry (Some 1) [33] (enc_ptext t) (FDetail t).
Definition code_entry (c : Code) : entry := mkEntry (Some 3) [35] (enc_head MAJOR_UINT c) (FCode c).
Definition options_entry (ns : list Z) : entry := mkEntry (Some 7) [39] (enc_options (values ns)) (FOptions (encoded ns)).

Lemma key_bytes k b : 0 ≤ k < 24 → b = 32 + k → key_item [b] (Some k).
Proof. intros Hk ->. pose proof (enc_head_ok MAJOR_NINT k ltac:(done) ltac:(lia)) as Hh. unfold enc_head in Hh. by rewrite (proj2 (Z.leb_le _ _)) in Hh by lia. Qed.
Lemma title_entry_ok t : ptext_ok t → entry_ok (title_entry t).
Proof. intros Ht. split; [by apply key_bytes|]. constructor. by apply enc_ptext_ok. Qed.
Lemma detail_entry_ok t : ptext_ok t → entry_ok (detail_entry t).
Proof. intros Ht. split; [by apply key_bytes|]. constructor. by apply enc_ptext_ok. Qed.
Lemma code_entry_ok c : in_u 8 c → entry_ok (code_entry c).
Proof. unfold in_u. intros Hc. split; [by apply key_bytes|]. constructor; [|lia]. apply enc_head_ok; [done|lia]. Qed.
Lemma options_entry_ok ns : numbers_ok ns → entry_ok (options_entry ns).
Proof. intros Hn. split; [by apply key_bytes|]. constructor. by apply enc_options_ok. Qed.

Lemma emits_key k n b : k = -1 - n → 0 ≤ n < 24 → b = 32 + n → emits (pd_put_nint k) [b].
Proof.
  intros -> Hn ->. unfold pd_put_nint. replace (-1 - (-1 - n)) with n by lia. rewrite wrap_small by (unfold in_u; lia).
  eapply emits_eq; [|apply emits_head; [done|lia]]. unfold enc_head. by rewrite (proj2 (Z.leb_le _ _)) by lia.
Qed.
Lemma emits_title t : emits (pd_put_nint (-1);; put_problem_text t) (entry_wire (title_entry t)).
Proof. apply emits_bind; [by apply (emits_key _ 0)|apply emits_ptext]. Qed.
Lemma emits_detail t : emits (pd_put_nint (-2);; put_problem_text t) (entry_wire (detail_entry t)).
Proof. apply emits_bind; [by apply (emits_key _ 1)|apply emits_ptext]. Qed.
Lemma emits_code c : in_u 8 c → emits (pd_put_nint (-4);; pd_put_uint c) (entry_wire (code_entry c)).
Proof. intros [Hc _]. apply emits_bind; [by apply (emits_key _ 3)|by apply emits_head]. Qed.
Lemma emits_values ns : numbers_ok ns → emits (put_option_numbers (values ns)) (enc_options (values ns)).
Proof. intros (_ & Hn & _). apply emits_options. by rewrite po_list_values. Qed.
Lemma emits_unprocessed ns : numbers_ok ns → emits (pd_put_nint (-8);; put_option_numbers (values ns)) (entry_wire (options_entry ns)).
Proof. intros Hn. apply emits_bind; [by apply (emits_key _ 7)|by apply emits_values]. Qed.

(** *** What is written are bytes *)
Lemma enc_head_bytes major n : 0 ≤ major < 8 → 0 ≤ n → bytes_ok (enc_head major n).
Proof.
  intros Hm Hn. unfold enc_head. repeat (match goal with |- context [n <=? ?m] => destruct (Z.leb_spec n m) end); constructor;
    try apply be_bytes_ok; try constructor; unfold in_u; lia.
Qed.
Lemma enc_text_bytes t : bytes_ok t → bytes_ok (enc_text t).
Proof. intros Ht. apply bytes_ok_app. split; [|done]. apply enc_head_bytes; [done|lia]. Qed.
Lemma enc_ptext_bytes v : ptext_ok v → bytes_ok (enc_ptext v).
Proof.
  intros [(_ & _ & Ht) Hl]. unfold enc_ptext. rewrite !bytes_ok_app. split_and!; [|by apply enc_text_bytes|].
  - destruct (pt_language v) as [l|]; [|constructor]. destruct Hl as [(_ & _ & Hl) _]. rewrite !bytes_ok_app.
    split_and!; [by apply enc_head_bytes|apply enc_head_bytes; [done|by destruct (is_some _)]|by apply enc_text_bytes].
  - destruct (pt_direction v) as [[]|]; [apply Forall_singleton; by vm_compute..|constructor].
Qed.
Lemma enc_options_bytes ns : numbers_ok ns → bytes_ok (enc_options (values ns)).
Proof.
  intros (_ & Hn & _). unfold enc_options. rewrite po_list_values. apply bytes_ok_app. split.
  - destruct (_ <? _)%nat; [|constructor]. apply enc_head_bytes; [done|lia].
  - unfold enc_uints. induction Hn as [|n ns [Hn _] _ IH]; [constructor|]. cbn [map concat]. apply bytes_ok_app. split; [by apply enc_head_bytes|done].
Qed.
Definition entry_bytes (e : entry) : Prop := bytes_ok (entry_wire e).
Lemma entry_bytes_key e vb f : entry_bytes e → bytes_ok vb → entry_bytes (mkEntry (en_key e) (en_kb e) vb f).
Proof. intros [Hk _]%bytes_ok_app Hv. by apply bytes_ok_app. Qed.
Lemma new_entry_bytes key k vb f : 0 ≤ k < 256 → bytes_ok vb → entry_bytes (mkEntry key [k] vb f).
Proof. intros Hk Hv. apply bytes_ok_cons. done. Qed.
Lemma wire_bytes es : bytes_ok (wire es) ↔ Forall entry_bytes es.
Proof.
  induction es as [|e es IH]; [split; constructor|]. change (wire (e :: es)) with (entry_wire e ++ wire es). rewrite bytes_ok_app, Forall_cons, IH. done.
Qed.

(** ** Edited details *)
Definition mask (a b c : bool) : Z := (if a then 1 else 0) + (if b then 2 else 0) + (if c then 4 else 0).
(** [d] is [x] with the title, the detail and the options edited as the bits say. *)
Record edited (x d : ProblemDetails) (a b c : bool) : Prop := {
  ed_mask : pd_edited d = mask a b c;
  ed_title : if a then ∃ t, pd_title d = Some t ∧ ptext_ok t else pd_title d = pd_title x;
  ed_detail : if b then ∃ t, pd_detail d = Some t ∧ ptext_ok t else pd_detail d = pd_detail x;
  ed_options : if c then ∃ ns, pd_unprocessed d = Some (values ns) ∧ numbers_ok ns else pd_unprocessed d = pd_unprocessed x;
  ed_code : pd_code d = pd_code x;
  ed_instance : pd_instance d = pd_instance x;
  ed_base_uri : pd_base_uri d = pd_base_uri x;
  ed_base_language : pd_base_language d = pd_base_language x;
  ed_base_direction : pd_base_direction d = pd_base_direction x;
  ed_original : pd_original d = pd_original x
}.
Lemma edits_mask d a b c : pd_edited d = mask a b c → edits d 1 = a ∧ edits d 2 = b ∧ edits d 4 = c.
Proof. unfold edits. intros ->. by destruct a, b, c. Qed.
Lemma missing_mask d a b c a' b' c' :
  pd_edited d = mask a b c →
  missing_bit d (mask a' b' c') 1 = a && negb a' ∧ missing_bit d (mask a' b' c') 2 = b && negb b' ∧ missing_bit d (mask a' b' c') 4 = c && negb c'.
Proof. unfold missing_bit. intros ->. by destruct a, b, c, a', b', c'. Qed.

(** The details compared: the option numbers as they are listed. *)
Definition same_details (d y : ProblemDetails) : Prop :=
  pd_code y = pd_code d ∧ pd_title y = pd_title d ∧ pd_detail y = pd_detail d ∧ pd_instance y = pd_instance d ∧
  pd_base_uri y = pd_base_uri d ∧ pd_base_language y = pd_base_language d ∧ pd_base_direction y = pd_base_direction d ∧
  is_some (pd_unprocessed y) = is_some (pd_unprocessed d) ∧ po_list (unprocessed_options y) = po_list (unprocessed_options d).

(** The entries a new map gets. *)
Definition opt_entry {A} (f : A → entry) (o : option A) : list entry := match o with Some a => [f a] | None => [] end.
Definition new_numbers (d : ProblemDetails) : option (list Z) :=
  match pd_unprocessed d with Some o => Some (po_list o) | None => None end.
Definition new_entries (d : ProblemDetails) : list entry :=
  opt_entry title_entry (pd_title d) ++ opt_entry detail_entry (pd_detail d) ++ opt_entry code_entry (pd_code d)
  ++ opt_entry options_entry (new_numbers d).
Lemma wire_app es es' : wire (es ++ es') = wire es ++ wire es'.
Proof. unfold wire. by rewrite map_app, concat_app. Qed.
Lemma wire_one e : wire [e] = entry_wire e.
Proof. unfold wire. cbn [map concat]. by rewrite app_nil_r. Qed.
Lemma emits_opt {A} key put (f : A → entry) o :
  (∀ a, o = Some a → emits (pd_put_nint key;; put a) (entry_wire (f a))) → emits (pd_put_field key put o) (wire (opt_entry f o)).
Proof. intros Hf. destruct o as [a|]; [|apply emits_nil]. cbn [opt_entry pd_put_field]. rewrite wire_one. by apply Hf. Qed.

Lemma new_emits code d a b c :
  in_u 8 code → edited (ProblemDetails_new code) d a b c →
  emits (encode_new d) (enc_head MAJOR_MAP (Z.of_nat (length (new_entries d))) ++ wire (new_entries d)).
Proof.
  intros Hcode He. unfold encode_new. cbv zeta. pose proof (ed_code _ _ _ _ _ He) as Hc. cbn [ProblemDetails_new pd_code] in Hc.
  pose proof (ed_options _ _ _ _ _ He) as Ho. cbn [ProblemDetails_new pd_unprocessed] in Ho.
  match goal with |- emits (if ?p =? 0 then _ else _) _ => assert (p = Z.of_nat (length (new_entries d)) ∧ p ≠ 0) as [Hp Hp0] end.
  { unfold new_entries, new_numbers. rewrite Hc. destruct (pd_title d), (pd_detail d), (pd_unprocessed d); done. }
  rewrite (proj2 (Z.eqb_neq _ _)), Hp by done. apply emits_bind; [apply emits_head; [done|lia]|].
  unfold new_entries. rewrite !wire_app. apply emits_bind; [apply emits_opt; intros t _; apply emits_title|].
  apply emits_bind; [apply emits_opt; intros t _; apply emits_detail|].
  apply emits_bind; [apply emits_opt; intros c' E; rewrite E in Hc; injection Hc as ->; by apply emits_code|].
  destruct c; [|by unfold new_numbers; rewrite Ho; apply emits_nil]. destruct Ho as (ns & Ho & Hn). unfold new_numbers. rewrite Ho, po_list_values.
  cbn [pd_put_field opt_entry]. rewrite wire_one. by apply emits_unprocessed.
Qed.
Lemma opt_entries_ok {A} (f : A → entry) o : (∀ a, o = Some a → entry_ok (f a)) → Forall entry_ok (opt_entry f o).
Proof. intros Hf. destruct o; [|done]. constructor; [by apply Hf|done]. Qed.
Lemma opt_entries_bytes {A} (f : A → entry) o : (∀ a, o = Some a → entry_bytes (f a)) → Forall entry_bytes (opt_entry f o).
Proof. intros Hf. destruct o; [|done]. constructor; [by apply Hf|done]. Qed.
Lemma new_entries_ok code d a b c :
  in_u 8 code → edited (ProblemDetails_new code) d a b c →
  (Forall entry_ok (new_entries d) ∧ Forall entry_bytes (new_entries d)) ∧ ∃ y, set_all no_details (new_entries d) = Some y ∧ same_details d y.
Proof.
  intros Hcode [Hm Ht Hd Ho Hc Hi Hb Hl Hw _]. cbn [ProblemDetails_new pd_code pd_title pd_detail pd_unprocessed pd_instance pd_base_uri pd_base_language pd_base_direction] in *.
  assert (∀ t, pd_title d = Some t → ptext_ok t) as Ht'.
  { intros t E. destruct a; [destruct Ht as (t' & E' & Ht)|]; rewrite E in *; [by injection E' as <-|done]. }
  assert (∀ t, pd_detail d = Some t → ptext_ok t) as Hd'.
  { intros t E. destruct b; [destruct Hd as (t' & E' & Hd)|]; rewrite E in *; [by injection E' as <-|done]. }
  assert (∀ ns, new_numbers d = Some ns → numbers_ok ns ∧ pd_unprocessed d = Some (values ns)) as Ho'.
  { intros ns. unfold new_numbers. destruct c; [destruct Ho as (ns' & E & Hn)|rewrite Ho; done]. rewrite E, po_list_values. by intros [= <-]. }
  split; [split|].
  - unfold new_entries. rewrite !Forall_app. split_and!; apply opt_entries_ok; intros v E.
    + by apply title_entry_ok, Ht'. + by apply detail_entry_ok, Hd'.
    + rewrite E in Hc. injection Hc as ->. by apply code_entry_ok. + by apply options_entry_ok, Ho'.
  - unfold new_entries. rewrite !Forall_app. split_and!; apply opt_entries_bytes; intros v E; apply new_entry_bytes; try done.
    + by apply enc_ptext_bytes, Ht'. + by apply enc_ptext_bytes, Hd'.
    + rewrite E in Hc. injection Hc as ->. apply enc_head_bytes; [done|apply Hcode]. + by apply enc_options_bytes, Ho'.
  - unfold new_entries, same_details, unprocessed_options. rewrite Hc, Hi, Hb, Hl, Hw. unfold new_numbers in *.
    destruct (pd_unprocessed d) as [o|]; [destruct (Ho' _ eq_refl) as [(? & Hn & ?) [= Eo]]|]; destruct (pd_title d), (pd_detail d);
      (eexists; split; [reflexivity|]); split_and!; try done; by apply po_list_encoded.
Qed.

(** ** A decoded map with edits *)
(** An entry with the edits of [d]. *)
Definition overlay (d : ProblemDetails) (e : entry) : entry :=
  match en_val e with
  | FTitle _ => match (if edits d 1 then pd_title d else None) with Some t => mkEntry (en_key e) (en_kb e) (enc_ptext t) (FTitle t) | None => e end
  | FDetail _ => match (if edits d 2 then pd_detail d else None) with Some t => mkEntry (en_key e) (en_kb e) (enc_ptext t) (FDetail t) | None => e end
  | FOptions _ => match (if edits d 4 then new_numbers d else None) with
                  | Some ns => mkEntry (en_key e) (en_kb e) (enc_options (values ns)) (FOptions (encoded ns)) | None => e end
  | _ => e
  end.
Definition over {A} (bit : bool) (new old : option A) : option A := if bit && is_some old then new else old.
(** The details of the overlaid entries. *)
Definition overlaid (d x : ProblemDetails) : ProblemDetails :=
  mkDetails (pd_code x) (over (edits d 1) (pd_title d) (pd_title x)) (over (edits d 2) (pd_detail d) (pd_detail x))
    (pd_instance x) (pd_base_uri x) (pd_base_language x) (pd_base_direction x)
    (over (edits d 4) (encoded <$> new_numbers d) (pd_unprocessed x)) (pd_original x) (pd_edited x).
(** The entries of edits the map had no entry for. *)
Definition extra {A} (bit : bool) (old : bool) (new : option A) : option A := if bit && negb old then new else None.
Definition extras (d x : ProblemDetails) : list entry :=
  opt_entry title_entry (extra (edits d 1) (is_some (pd_title x)) (pd_title d))
  ++ opt_entry detail_entry (extra (edits d 2) (is_some (pd_detail x)) (pd_detail d))
  ++ opt_entry options_entry (extra (edits d 4) (is_some (pd_unprocessed x)) (new_numbers d)).

Section decoded.
Context (x0 d : ProblemDetails) (a b c : bool).
Hypothesis He : edited x0 d a b c.

Lemma ed_bits : edits d 1 = a ∧ edits d 2 = b ∧ edits d 4 = c.
Proof using He. apply edits_mask, He. Qed.
Lemma ed_mask_bits : pd_edited d = mask (edits d 1) (edits d 2) (edits d 4).
Proof using He. destruct ed_bits as (-> & -> & ->). apply (ed_mask _ _ _ _ _ He). Qed.
Lemma ed_title_some : edits d 1 = true → ∃ t, pd_title d = Some t ∧ ptext_ok t.
Proof using He. destruct ed_bits as (-> & _ & _). intros ->. apply (ed_title _ _ _ _ _ He). Qed.
Lemma ed_detail_some : edits d 2 = true → ∃ t, pd_detail d = Some t ∧ ptext_ok t.
Proof using He. destruct ed_bits as (_ & -> & _). intros ->. apply (ed_detail _ _ _ _ _ He). Qed.
Lemma ed_options_some : edits d 4 = true → ∃ ns, pd_unprocessed d = Some (values ns) ∧ new_numbers d = Some ns ∧ numbers_ok ns.
Proof using He.
  destruct ed_bits as (_ & _ & ->). intros ->. destruct (ed_options _ _ _ _ _ He) as (ns & E & Hn). exists ns. unfold new_numbers.
  rewrite E, po_list_values. done.
Qed.

Lemma overlay_ok e : entry_ok e → entry_ok (overlay d e).
Proof using He.
  intros [Hk Hv]. destruct e as [key kb vb f]. unfold overlay. cbn [en_key en_kb en_vb en_val] in *.
  destruct f; try done.
  - destruct (edits d 1) eqn:E1; [|done]. destruct (ed_title_some E1) as (t' & -> & Ht). split; [done|]. inversion Hv; subst.
    constructor. by apply enc_ptext_ok.
  - destruct (edits d 2) eqn:E1; [|done]. destruct (ed_detail_some E1) as (t' & -> & Ht). split; [done|]. inversion Hv; subst.
    constructor. by apply enc_ptext_ok.
  - destruct (edits d 4) eqn:E1; [|done]. destruct (ed_options_some E1) as (ns & _ & -> & Ht). split; [done|]. inversion Hv; subst.
    constructor. by apply enc_options_ok.
Qed.
Lemma overlay_bytes e : entry_bytes e → entry_bytes (overlay d e).
Proof using He.
  intros Hb. unfold overlay. destruct (en_val e); try done.
  - destruct (edits d 1) eqn:E1; [|done]. destruct (ed_title_some E1) as (t' & -> & Ht). by apply entry_bytes_key, enc_ptext_bytes.
  - destruct (edits d 2) eqn:E1; [|done]. destruct (ed_detail_some E1) as (t' & -> & Ht). by apply entry_bytes_key, enc_ptext_bytes.
  - destruct (edits d 4) eqn:E1; [|done]. destruct (ed_options_some E1) as (ns & _ & -> & Ht). by apply entry_bytes_key, enc_options_bytes.
Qed.
Lemma overlay_set x e y : set_field x (en_val e) = Some y → set_field (overlaid d x) (en_val (overlay d e)) = Some (overlaid d y).
Proof using He.
  destruct x as [code title detail instance base_uri base_language base_direction unprocessed original ed], e as [key kb vb f].
  unfold overlay, overlaid, over. cbn [en_val pd_code pd_title pd_detail pd_instance pd_base_uri pd_base_language pd_base_direction pd_unprocessed pd_original pd_edited].
  destruct f; cbn [set_field].
  - destruct title; [done|]. intros [= <-]. cbn [is_some]. rewrite andb_true_r, andb_false_r.
    destruct (edits d 1) eqn:E1; [|done]. by destruct (ed_title_some E1) as (t' & -> & Ht).
  - destruct detail; [done|]. intros [= <-]. cbn [is_some]. rewrite andb_true_r, andb_false_r.
    destruct (edits d 2) eqn:E1; [|done]. by destruct (ed_detail_some E1) as (t' & -> & Ht).
  - destruct code; [done|]. by intros [= <-].
  - destruct instance; [done|]. by intros [= <-].
  - destruct base_uri; [done|]. by intros [= <-].
  - destruct base_language; [done|]. by intros [= <-].
  - destruct base_direction; [done|]. by intros [= <-].
  - destruct unprocessed; [done|]. intros [= <-]. cbn [is_some]. rewrite andb_true_r, andb_false_r.
    destruct (edits d 4) eqn:E1; [|done]. by destruct (ed_options_some E1) as (ns & _ & -> & Ht).
  - by intros [= <-].
Qed.
Lemma overlay_set_all x es y : set_all x es = Some y → set_all (overlaid d x) (map (overlay d) es) = Some (overlaid d y).
Proof using He.
  revert x. induction es as [|e es IH]; intros x; cbn [set_all map]; [by intros [= ->]|].
  destruct (set_field x (en_val e)) as [x'|] eqn:Es; [|done]. rewrite (overlay_set _ _ _ Es). apply IH.
Qed.

Lemma extras_ok x : Forall entry_ok (extras d x).
Proof using He.
  unfold extras, extra. rewrite !Forall_app. split_and!; apply opt_entries_ok; intros v.
  - destruct (edits d 1) eqn:E1; [|done]. destruct (ed_title_some E1) as (t & -> & Ht). destruct (is_some _); [done|]. intros [= <-]. by apply title_entry_ok.
  - destruct (edits d 2) eqn:E1; [|done]. destruct (ed_detail_some E1) as (t & -> & Ht). destruct (is_some _); [done|]. intros [= <-]. by apply detail_entry_ok.
  - destruct (edits d 4) eqn:E1; [|done]. destruct (ed_options_some E1) as (ns & _ & -> & Ht). destruct (is_some _); [done|]. intros [= <-]. by apply options_entry_ok.
Qed.
Lemma extras_bytes x : Forall entry_bytes (extras d x).
Proof using He.
  unfold extras, extra. rewrite !Forall_app. split_and!; apply opt_entries_bytes; intros v.
  - destruct (edits d 1) eqn:E1; [|done]. destruct (ed_title_some E1) as (t & -> & Ht). destruct (is_some _); [done|]. intros [= <-]. by apply new_entry_bytes, enc_ptext_bytes.
  - destruct (edits d 2) eqn:E1; [|done]. destruct (ed_detail_some E1) as (t & -> & Ht). destruct (is_some _); [done|]. intros [= <-]. by apply new_entry_bytes, enc_ptext_bytes.
  - destruct (edits d 4) eqn:E1; [|done]. destruct (ed_options_some E1) as (ns & _ & -> & Ht). destruct (is_some _); [done|]. intros [= <-]. by apply new_entry_bytes, enc_options_bytes.
Qed.
(** Every edit is in the map: it replaced an entry or was appended. *)
Lemma extras_set x :
  set_all (overlaid d x) (extras d x) =
  Some (mkDetails (pd_code x) (if edits d 1 then pd_title d else pd_title x) (if edits d 2 then pd_detail d else pd_detail x)
    (pd_instance x) (pd_base_uri x) (pd_base_language x) (pd_base_direction x)
    (if edits d 4 then encoded <$> new_numbers d else pd_unprocessed x) (pd_original x) (pd_edited x)).
Proof using He.
  destruct x as [code title detail instance base_uri base_language base_direction unprocessed original ed]. unfold extras, extra, overlaid, over.
  cbn [pd_code pd_title pd_detail pd_instance pd_base_uri pd_base_language pd_base_direction pd_unprocessed pd_original pd_edited].
  destruct (edits d 1) eqn:E1; [destruct (ed_title_some E1) as (t & -> & _)|]; (destruct (edits d 2) eqn:E2; [destruct (ed_detail_some E2) as (t2 & -> & _)|]);
    (destruct (edits d 4) eqn:E4; [destruct (ed_options_some E4) as (ns & _ & -> & _)|]); destruct title, detail, unprocessed; reflexivity.
Qed.

(** *** Scanning the map *)
Definition has (x : ProblemDetails) : Z := mask (is_some (pd_title x)) (is_some (pd_detail x)) (is_some (pd_unprocessed x)).
Lemma has_set key v f x y : value_item key v f → set_field x f = Some y → Z.lor (has x) (found_bit key) = has y.
Proof.
  intros Hv. destruct x as [code title detail instance base_uri base_language base_direction unprocessed original ed].
  unfold has. destruct Hv as [| | | | | | | |k v Hk Hi|]; cbn [set_field];
    try (match goal with |- (if is_some ?o then _ else _) = _ → _ => destruct o; [done|]; cbn [is_some] end); intros [= <-];
    cbn [pd_title pd_detail pd_unprocessed is_some found_bit].
  9: { unfold between in Hk. apply andb_false_iff in Hk. rewrite !Z.leb_gt in Hk. rewrite !(proj2 (Z.eqb_neq _ _)) by lia. by destruct title, detail, unprocessed. }
  all: repeat (match goal with |- context [is_some ?o] => is_var o; destruct o end); reflexivity.
Qed.
Lemma found_loop_ok fuel es x y rest :
  Forall entry_ok es → set_all x es = Some y → (length es ≤ fuel)%nat → usize_ok (length (wire es ++ rest)) →
  found_loop fuel (Z.of_nat (length es)) (has x) (wire es ++ rest) = (rest, Ok (has y)).
Proof.
  intros Hes. revert fuel x. induction Hes as [|e es [Hk Hv] Hes IH]; intros fuel x Hset Hf Hu; [injection Hset as ->; by destruct fuel|].
  cbn [length] in *. destruct fuel as [|fuel]; [lia|]. cbn [found_loop]. rewrite (proj2 (Z.eqb_neq _ _)) by lia. unbind.
  unfold wire, entry_wire in *. cbn [map concat set_all] in *. destruct (set_field x (en_val e)) as [x'|] eqn:Es; [|done].
  rewrite <- !app_assoc in *. rewrite (proj2 reads_key _ _ _ Hk Hu). rewrite length_app in Hu.
  assert (usize_ok (length (en_vb e ++ concat (map (fun e => en_kb e ++ en_vb e) es) ++ rest))) as Hu' by (unfold usize_ok in *; lia).
  rewrite (proj2 reads_skip _ tt _ (items_value _ _ _ Hv)) by done. rewrite (has_set _ _ _ _ _ Hv Es).
  replace (Z.of_nat (S (length es)) - 1) with (Z.of_nat (length es)) by lia. apply IH; [done|lia|]. rewrite length_app in Hu'. unfold usize_ok in *. lia.
Qed.

(** *** Writing the entries again *)
Lemma emits_entry e tail :
  entry_ok e → emits (put_entry d (entry_wire e ++ tail) (en_vb e ++ tail) tail (en_key e)) (entry_wire (overlay d e)).
Proof using He.
  intros [Hk Hv]. destruct e as [key kb vb f]. unfold put_entry, entry_wire, overlay. cbn [en_key en_kb en_vb en_val] in *. cbv zeta.
  pose proof (slice_consumed (E:=ProblemError) (kb ++ vb) tail) as Hraw.
  assert (slice_idx (E:=ProblemError) ((kb ++ vb) ++ tail) 0 (length ((kb ++ vb) ++ tail) - length (vb ++ tail)) = Ok kb) as Hkey.
  { rewrite <- app_assoc. apply slice_consumed. }
  destruct Hv as [v t Ht|v t Ht|v t Ht|v n Hn Hn'|v t Ht|v t Ht|v dir Hd|v o Ho|k v Hu Hi|h n w Hh Hn Hi]; cbn [Z.eqb Pos.eqb andb];
    try (rewrite Hraw; apply emits_lift, emits_slice).
  - destruct (edits d 1) eqn:E1; [|rewrite Hraw; apply emits_lift, emits_slice]. destruct (ed_title_some E1) as (t' & -> & _).
    rewrite Hkey. apply emits_lift, emits_bind; [apply emits_slice|apply emits_ptext].
  - destruct (edits d 2) eqn:E1; [|rewrite Hraw; apply emits_lift, emits_slice]. destruct (ed_detail_some E1) as (t' & -> & _).
    rewrite Hkey. apply emits_lift, emits_bind; [apply emits_slice|apply emits_ptext].
  - destruct (edits d 4) eqn:E1; [|rewrite Hraw; apply emits_lift, emits_slice]. destruct (ed_options_some E1) as (ns & -> & -> & Hns).
    rewrite Hkey. apply emits_lift, emits_bind; [apply emits_slice|]. cbn [ok_or]. apply emits_lift. by apply emits_values.
  - unfold between in Hu. apply andb_false_iff in Hu. rewrite !Z.leb_gt in Hu. rewrite !(proj2 (Z.eqb_neq k _)) by lia. cbn [andb].
    rewrite Hraw. apply emits_lift, emits_slice.
Qed.
Lemma retained_loop_emits fuel es rest :
  Forall entry_ok es → (length es ≤ fuel)%nat → usize_ok (length (wire es ++ rest)) →
  emits (retained_loop fuel d (Z.of_nat (length es)) (wire es ++ rest)) (wire (map (overlay d) es)).
Proof using He.
  intros Hes. revert fuel. induction Hes as [|e es Hee Hes IH]; intros fuel Hf Hu; [destruct fuel; apply emits_nil|].
  cbn [length] in *. destruct fuel as [|fuel]; [lia|]. cbn [retained_loop]. rewrite (proj2 (Z.eqb_neq _ _)) by lia.
  pose proof Hee as [Hk Hv]. unfold wire in *. cbn [map concat] in *. rewrite <- !app_assoc in *. set (tail := concat (map entry_wire es) ++ rest) in *.
  assert (read_key (entry_wire e ++ tail) = (en_vb e ++ tail, Ok (en_key e))) as ->.
  { unfold entry_wire in *. rewrite <- app_assoc in *. by apply (proj2 reads_key). }
  assert (usize_ok (length (en_vb e ++ tail))) as Hu'. { unfold entry_wire in Hu. rewrite <- app_assoc, length_app in Hu. unfold usize_ok in *. lia. }
  rewrite (proj2 reads_skip _ tt _ (items_value _ _ _ Hv)) by done. apply emits_bind; [by apply emits_entry|].
  replace (Z.of_nat (S (length es)) - 1) with (Z.of_nat (length es)) by lia. apply IH; [lia|]. rewrite length_app in Hu'. unfold usize_ok in *. lia.
Qed.

(** *** The edited map *)
Context (h : list Z) (es : list entry) (x : ProblemDetails).
Hypotheses (Hh : head_ok h MAJOR_MAP (Z.of_nat (length es))) (Hes : Forall entry_ok es) (Hset : set_all no_details es = Some x).
Hypotheses (Hu : usize_ok (length (h ++ wire es))).

Definition edited_entries : list entry := map (overlay d) es ++ extras d x.
Lemma extras_count : count_ones3 (Z.ldiff (pd_edited d) (has x)) = Z.of_nat (length (extras d x)).
Proof using He.
  rewrite ed_mask_bits. unfold extras, extra, has. rewrite !length_app.
  destruct (edits d 1) eqn:Ea; [destruct (ed_title_some Ea) as (t & -> & _)|]; (destruct (edits d 2) eqn:Eb; [destruct (ed_detail_some Eb) as (t2 & -> & _)|]);
    (destruct (edits d 4) eqn:Ec; [destruct (ed_options_some Ec) as (ns & _ & -> & _)|]);
    destruct (is_some (pd_title x)), (is_some (pd_detail x)), (is_some (pd_unprocessed x)); reflexivity.
Qed.
Lemma emits_extras :
  emits ((if missing_bit d (has x) 1 then pd_put_nint (-1);; t ← st_lift (ok_or (pd_title d) PInvalid); put_problem_text t else mret tt);;
    (if missing_bit d (has x) 2 then pd_put_nint (-2);; t ← st_lift (ok_or (pd_detail d) PInvalid); put_problem_text t else mret tt);;
    (if missing_bit d (has x) 4 then pd_put_nint (-8);; o ← st_lift (ok_or (pd_unprocessed d) PInvalid); put_option_numbers o else mret tt))
    (wire (extras d x)).
Proof using He.
  destruct (missing_mask d _ _ _ (is_some (pd_title x)) (is_some (pd_detail x)) (is_some (pd_unprocessed x)) ed_mask_bits) as (E1 & E2 & E3).
  unfold has. rewrite E1, E2, E3. clear E1 E2 E3. unfold extras, extra. rewrite !wire_app.
  apply emits_bind; [|apply emits_bind].
  - destruct (edits d 1) eqn:Ea; [|apply emits_nil]. destruct (ed_title_some Ea) as (t & -> & _). destruct (is_some _); [apply emits_nil|]. cbn [andb negb opt_entry ok_or].
    rewrite wire_one. apply emits_title.
  - destruct (edits d 2) eqn:Eb; [|apply emits_nil]. destruct (ed_detail_some Eb) as (t & -> & _). destruct (is_some _); [apply emits_nil|]. cbn [andb negb opt_entry ok_or].
    rewrite wire_one. apply emits_detail.
  - destruct (edits d 4) eqn:Ec; [|apply emits_nil]. destruct (ed_options_some Ec) as (ns & -> & -> & Hn). destruct (is_some _); [apply emits_nil|]. cbn [andb negb opt_entry ok_or].
    rewrite wire_one. by apply emits_unprocessed.
Qed.
Lemma retained_emits :
  pd_edited d ≠ 0 →
  emits (encode_retained d (h ++ wire es)) (enc_head MAJOR_MAP (Z.of_nat (length edited_entries)) ++ wire edited_entries).
Proof using He Hh Hes Hset Hu.
  intros Hne. unfold encode_retained. rewrite (proj2 (Z.eqb_neq _ _)) by done. cbv zeta. pose proof (wire_length _ Hes) as Hl. rewrite length_app in Hu.
  assert (usize_ok (length (wire es ++ []))) as Hw by (rewrite app_nil_r; unfold usize_ok in *; lia).
  assert ((('(_, pairs) ← read_head; found ← found_loop (length (h ++ wire es)) pairs 0; mret (pairs, found)) : reader (Z * Z)) (h ++ wire es)
    = ([], Ok (Z.of_nat (length es), has x))) as ->.
  { unbind. rewrite (proj2 Hh). rewrite <- (app_nil_r (wire es)) at 2. change 0 with (has no_details).
    rewrite (found_loop_ok _ es no_details x) by (first [done|rewrite length_app; lia]). done. }
  cbn [snd]. apply emits_lift. rewrite (proj2 Hh). cbn [fst]. unfold edited_entries. rewrite wire_app, (length_app (map (overlay d) es)), length_map.
  rewrite extras_count, <- Nat2Z.inj_add. apply emits_bind; [apply emits_head; [done|lia]|]. apply emits_bind; [|apply emits_extras].
  rewrite <- (app_nil_r (wire es)). apply retained_loop_emits; [done| |done]. rewrite length_app, app_nil_r. lia.
Qed.
Lemma edited_entries_ok : Forall entry_ok edited_entries.
Proof using He Hes. apply Forall_app. split; [|apply extras_ok]. apply Forall_map. eapply Forall_impl; [done|]. apply overlay_ok. Qed.
Lemma edited_entries_bytes : bytes_ok (wire es) → bytes_ok (wire edited_entries).
Proof using He.
  rewrite !wire_bytes. intros Hb. apply Forall_app. split; [|apply extras_bytes]. apply Forall_map. eapply Forall_impl; [done|]. apply overlay_bytes.
Qed.
Lemma set_all_app y es1 es2 z : set_all y es1 = Some z → set_all y (es1 ++ es2) = set_all z es2.
Proof. revert y. induction es1 as [|e es1 IH]; intros y; cbn [set_all app]; [by intros [= ->]|]. destruct (set_field y (en_val e)); [apply IH|done]. Qed.
Lemma edited_entries_set bytes : x0 = with_original x bytes → ∃ y, set_all no_details edited_entries = Some y ∧ same_details d y.
Proof using He Hset.
  intros E. assert (overlaid d no_details = no_details) as Hno by (unfold overlaid, over; cbn; by rewrite !andb_false_r).
  pose proof (overlay_set_all _ _ _ Hset) as Ho. rewrite Hno in Ho. eexists. split.
  - unfold edited_entries. rewrite (set_all_app _ _ _ _ Ho). apply extras_set.
  - clear Ho. pose proof He as [_ Ht Hd Ho Hc Hi Hb Hl Hw _]. rewrite E in Ht, Hd, Ho, Hc, Hi, Hb, Hl, Hw.
    cbn [with_original pd_code pd_title pd_detail pd_unprocessed pd_instance pd_base_uri pd_base_language pd_base_direction] in *.
    unfold same_details, unprocessed_options. cbn [pd_code pd_title pd_detail pd_unprocessed pd_instance pd_base_uri pd_base_language pd_base_direction].
    destruct ed_bits as (Ea & Eb & Ec). rewrite <- Ea in Ht. rewrite <- Eb in Hd. rewrite <- Ec in Ho. clear Ea Eb Ec.
    split_and!; try done; [by destruct (edits d 1)|by destruct (edits d 2)| |].
    + destruct (edits d 4) eqn:Ec; [|by rewrite Ho]. destruct (ed_options_some Ec) as (ns & -> & -> & _). done.
    + destruct (edits d 4) eqn:Ec; [|by rewrite Ho]. destruct (ed_options_some Ec) as (ns & -> & -> & Hn & Hf & _). cbn [fmap option_fmap option_map].
      rewrite po_list_values. by apply po_list_encoded.
Qed.
End decoded.
End writers.

(** ** Details a program can hold *)
Section built.
Context `{Target}.

Inductive given_text : ProblemText → Prop :=
  | given_plain text : str_ok text → given_text (ProblemText_plain text)
  | given_tagged language text direction t :
      str_ok language → str_ok text → ProblemText_tagged language text direction = Ok t → given_text t.
Inductive built : ProblemDetails → Prop :=
  | built_new code : in_u 8 code → built (ProblemDetails_new code)
  | built_decoded bytes d : bytes_ok bytes → usize_ok (length bytes) → problem_decode bytes = Ok d → built d
  | built_title d t : built d → given_text t → built (with_title d t)
  | built_detail d t : built d → given_text t → built (with_detail d t)
  | built_options d numbers d' :
      built d → Forall (in_u 64) numbers → usize_ok (length numbers) → with_unprocessed_options d numbers = Ok d' → built d'.

Lemma given_text_ok t : given_text t → ptext_ok t.
Proof.
  destruct 1 as [text Ht|language text direction t Hl Ht]; [done|]. revert H0. unfold ProblemText_tagged.
  destruct (validate_language language) as [[]| | |] eqn:Ev; try done. by intros [= <-].
Qed.
Lemma set_all_edited x es y : set_all x es = Some y → pd_edited y = pd_edited x.
Proof.
  revert x. induction es as [|e es IH]; intros x; cbn [set_all]; [by intros [= ->]|].
  destruct (set_field x (en_val e)) as [x'|] eqn:Es; [|done]. intros Hy. rewrite (IH _ Hy). clear -Es. destruct x. destruct (en_val e); cbn in Es;
    repeat (match type of Es with context [is_some ?o] => is_var o; destruct o end); cbn in Es; try done; by injection Es as <-.
Qed.
(** The value a details value was edited from. *)
Definition base (x : ProblemDetails) : Prop :=
  (∃ code, in_u 8 code ∧ x = ProblemDetails_new code) ∨
  (∃ bytes, bytes_ok bytes ∧ usize_ok (length bytes) ∧ problem_decode bytes = Ok x).
Lemma base_refl x : base x → edited x x false false false.
Proof.
  intros Hx. constructor; try done. destruct Hx as [(code & _ & ->)|(bytes & Hb & _ & Hd)]; [done|].
  destruct (problem_decode_sound _ _ Hb Hd) as (h & es & y & _ & _ & _ & _ & Hs & ->). apply (set_all_edited _ _ _ Hs).
Qed.
Lemma built_edited d : built d → ∃ x a b c, base x ∧ edited x d a b c.
Proof.
  induction 1 as [code Hc|bytes d Hb Hl Hd|d t _ (x & a & b & c & Hx & [Hm Ht Hd Ho]) Hg|d t _ (x & a & b & c & Hx & [Hm Ht Hd Ho]) Hg|
    d ns d' _ (x & a & b & c & Hx & [Hm Ht Hd Ho]) Hn Hl Hw].
  - eexists _, _, _, _. assert (base (ProblemDetails_new code)) as Hx by (left; eauto). split; [done|]. by apply base_refl.
  - eexists _, _, _, _. assert (base d) as Hx by (right; eauto). split; [done|]. by apply base_refl.
  - exists x, true, b, c. split; [done|]. apply given_text_ok in Hg. constructor; try done; cbn; [rewrite Hm; by destruct a, b, c|by eexists].
  - exists x, a, true, c. split; [done|]. apply given_text_ok in Hg. constructor; try done; cbn; [rewrite Hm; by destruct a, b, c|by eexists].
  - exists x, a, b, true. split; [done|]. revert Hw. unfold with_unprocessed_options. destruct ns as [|n ns]; [done|]. intros [= <-].
    constructor; try done; cbn; [rewrite Hm; by destruct a, b, c|]. exists (n :: ns). split; [done|]. by split.
Qed.

Lemma encode_emits w out d buf :
  problem_encode d buf = (let '((buf, i), r) := w (buf, 0%nat) in (buf, map_err (fun e => e) (r ≫= fun _ => Ok i))) → emits w out →
  if (length out <=? length buf)%nat then problem_encode d buf = (splice buf 0 out, Ok (length out))
  else ∃ buf', problem_encode d buf = (buf', Err BufferTooSmall) ∧ length buf' = length buf.
Proof.
  intros -> Hw. specialize (Hw buf 0%nat ltac:(lia)). cbn [Nat.add] in Hw. destruct (_ <=? _)%nat; [by rewrite Hw|].
  destruct Hw as ([buf' i] & -> & Hl). by eexists.
Qed.
(** The encoding of a value that can be held. *)
Lemma problem_encoding d :
  built d →
  ∃ out, (∀ buf, if (length out <=? length buf)%nat then problem_encode d buf = (splice buf 0 out, Ok (length out))
                 else ∃ buf', problem_encode d buf = (buf', Err BufferTooSmall) ∧ length buf' = length buf) ∧
    bytes_ok out ∧
    (usize_ok (length out) → ∃ y, problem_decode out = Ok y ∧ same_details d y) ∧
    (∀ original, pd_original d = Some original → pd_edited d = 0 → out = original).
Proof.
  intros (x & a & b & c & [(code & Hcode & ->)|(bytes & Hb & Hl & Hd)] & He)%built_edited.
  - destruct (new_entries_ok _ _ _ _ _ Hcode He) as ([Hes Hbytes] & y & Hset & Hsame). pose proof (ed_original _ _ _ _ _ He) as Ho. cbn in Ho.
    eexists. split; [|split; [|split]].
    + intros buf. eapply encode_emits; [|eapply new_emits; done]. unfold problem_encode. by rewrite Ho.
    + apply bytes_ok_app. split; [apply enc_head_bytes; [done|lia]|by apply wire_bytes].
    + intros Hu. exists (with_original y (enc_head MAJOR_MAP (Z.of_nat (length (new_entries d))) ++ wire (new_entries d))). split; [|done].
      apply problem_decode_complete; try done; [|by unfold new_entries; rewrite (ed_code _ _ _ _ _ He); destruct (pd_title d), (pd_detail d)].
      apply enc_head_ok; [done|]. apply usize_u64. pose proof (wire_length _ Hes). rewrite length_app in Hu. unfold usize_ok in *. lia.
    + by rewrite Ho.
  - destruct (problem_decode_sound _ _ Hb Hd) as (h & es & x' & -> & Hh & Hne & Hes & Hset & ->). pose proof (ed_original _ _ _ _ _ He) as Ho. cbn in Ho.
    destruct (Z.eq_dec (pd_edited d) 0) as [E0|E0].
    + exists (h ++ wire es). split; [|split; [|split]].
      * intros buf. eapply encode_emits; [|apply emits_slice]. unfold problem_encode, encode_retained. by rewrite Ho, E0.
      * done.
      * intros _. exists (with_original x' (h ++ wire es)). split; [done|]. pose proof (ed_mask _ _ _ _ _ He) as Hm. rewrite E0 in Hm.
        assert (a = false ∧ b = false ∧ c = false) as (-> & -> & ->) by by destruct a, b, c.
        destruct He as [_ Ht Hdt Hop Hc Hi Hbu Hbl Hbd _]. unfold same_details, unprocessed_options. rewrite Ht, Hdt, Hop, Hc, Hi, Hbu, Hbl, Hbd. done.
      * intros o. rewrite Ho. by intros [= <-].
    + destruct (edited_entries_set _ _ _ _ _ He es x' Hset _ eq_refl) as (y & Hy & Hsame). pose proof (edited_entries_ok _ _ _ _ _ He es x' Hes) as Hok.
      exists (enc_head MAJOR_MAP (Z.of_nat (length (edited_entries d es x'))) ++ wire (edited_entries d es x')). split; [|split; [|split]].
      * intros buf. eapply encode_emits; [|eapply retained_emits; done]. unfold problem_encode. by rewrite Ho.
      * apply bytes_ok_app in Hb as [_ Hb]. apply bytes_ok_app. split; [apply enc_head_bytes; [done|lia]|by eapply edited_entries_bytes].
      * intros Hu. eexists. split; [apply problem_decode_complete; try done|done].
        -- apply enc_head_ok; [done|]. apply usize_u64. pose proof (wire_length _ Hok). rewrite length_app in Hu. unfold usize_ok in *. lia.
        -- unfold edited_entries. by destruct es.
      * intros o _ E. done.
Qed.
(** A details value a program can hold (new, or decoded, with any edits of
    its title, its detail and its unprocessed options) has one encoding: every
    buffer that holds it receives exactly these bytes, a smaller one is
    refused as too small, and decoding the bytes gives back every field, the
    option numbers in their order.  A decoded value without edits encodes to the
    bytes it was decoded from. *)
Theorem problem_roundtrip d :
  built d →
  ∃ out, (∀ buf, if (length out <=? length buf)%nat then problem_encode d buf = (splice buf 0 out, Ok (length out))
                 else ∃ buf', problem_encode d buf = (buf', Err BufferTooSmall) ∧ length buf' = length buf) ∧
    bytes_ok out ∧
    (usize_ok (length out) → ∃ y, problem_decode out = Ok y ∧ same_details d y) ∧
    (∀ original, pd_original d = Some original → pd_edited d = 0 → out = original).
Proof. apply problem_encoding. Qed.
End built.

(** A received map [{-4: 132, 5: {1: 2}}], given a tagged title and two option numbers. *)
Definition sample_bytes : list Z := [162; 35; 24; 132; 5; 161; 1; 2].
Definition sample_details : ProblemDetails :=
  mkDetails (Some 132) (Some (mkPText [104; 105] (Some [101; 110]) (Some Auto))) None None None None None
    (Some (values [9; 300])) (Some sample_bytes) 5.
Lemma problem_roundtrip_witness :
  built (H:=target64) sample_details ∧
  ∃ out, (∀ buf, if (length out <=? length buf)%nat then problem_encode (H:=target64) sample_details buf = (splice buf 0 out, Ok (length out))
                 else ∃ buf', problem_encode (H:=target64) sample_details buf = (buf', Err BufferTooSmall) ∧ length buf' = length buf) ∧
    bytes_ok out ∧
    (usize_ok (H:=target64) (length out) → ∃ y, problem_decode (H:=target64) out = Ok y ∧ same_details sample_details y) ∧
    (∀ original, pd_original sample_details = Some original → pd_edited sample_details = 0 → out = original).
Proof.
  assert (built (H:=target64) sample_details) as Hb.
  { eapply (built_options (H:=target64) (with_title (mkDetails (Some 132) None None None None None None None (Some sample_bytes) 0)
        (mkPText [104; 105] (Some [101; 110]) (Some Auto))) [9; 300]); [|by repeat constructor|by vm_compute|reflexivity].
    apply built_title.
    - eapply (built_decoded (H:=target64) sample_bytes); [by repeat constructor|by vm_compute|vm_compute; reflexivity].
    - eapply (given_tagged (H:=target64) [101; 110] [104; 105]); [by repeat constructor|by repeat constructor|reflexivity]. }
  split; [exact Hb|]. apply (problem_roundtrip (H:=target64) sample_details Hb).
Defined.
(** What is written for it. *)
Example sample_wire :
  problem_encode (H:=target64) sample_details (repeat 0 24) =
  ([164; 35; 24; 132; 5; 161; 1; 2; 32; 216; 38; 131; 98; 101; 110; 98; 104; 105; 246; 39; 130; 9; 25; 1], Err BufferTooSmall) ∧
  (problem_encode (H:=target64) sample_details (repeat 0 25)).2 = Ok 25%nat.
Proof. by vm_compute. Qed.
