(* ===== verification/AppIdentity.v ===== *)
(** * Identities of an application: Message IDs, tokens and jitter

    [src/app/identity.rs].  Randomness comes from a function of the program or
    from the transport; both are the caller's.  Their state is [W], and a call
    returns the bytes that fill a buffer or reports failure. *)
From S2P Require Import Prelude Errors MsgTypes.

Inductive IdentityError : Type := RandomnessUnavailable | TokenExhausted | MessageIdExhausted.
Inductive BuildError : Type :=
  | TokenLength | PacketHeadroom | CapacityOverflow | HeapBudgetExceeded (required limit : nat) | AllocationFailed
  | SecurityRequired | RandomnessRequired | RandomnessAlreadyConfigured | BuildRandomnessUnavailable | SizeMismatch
  | BodyBytesNotMultipleOf1024 | UnexpectedBodyPools | MissingBodyPools | ZeroBodyCapacity | IncompleteBodyCapacities.

(** [RandomSource] and [DatagramTransport::fill_random]. *)
Class Entropy (W : Type) : Type := {
  random_fill : W → nat → W * option (list Z);
  io_fill : W → nat → W * option (list Z)
}.
(** A filled buffer keeps its length. *)
Class EntropyLaws (W : Type) `{Entropy W} : Prop := {
  random_fill_bytes w n w' bs : random_fill w n = (w', Some bs) → length bs = n ∧ bytes_ok bs;
  io_fill_bytes w n w' bs : io_fill w n = (w', Some bs) → length bs = n ∧ bytes_ok bs
}.

Inductive Source : Type := SRandom | SIo (initial_mid : Z) | STest.
Record AppIds : Type := mkAppIds {
  ai_source : Source;
  ai_next_mid : Z;
  ai_issued : Z;
  ai_last_mid_ms : Z;
  ai_jitter : Z;
  ai_test_token : Z;
  ai_token_length : Z
}.

Section identity.
Context {W : Type} `{Entropy W}.

Definition first_mid (source : Source) : st W BuildError Z :=
  match source with
  | STest => mret 1
  | SIo initial_mid => mret initial_mid
  | SRandom => fun w =>
      match random_fill w 2 with
      | (w, Some bytes) => (w, Ok (from_be bytes))
      | (w, None) => (w, Err BuildRandomnessUnavailable)
      end
  end.
Definition AppIds_new (source : option Source) (token_length : option nat) : st W BuildError AppIds :=
  source ← st_lift (ok_or source RandomnessRequired);
  next_mid ← first_mid source;
  token_length ← st_lift (ok_or (u_try_from_usize 32 match token_length with
    | Some n => n | None => match source with STest => 4 | _ => 8 end end%nat) TokenLength);
  mret (mkAppIds source next_mid 0 0 0 0 token_length).

(** Operations on the identities and the entropy beside them. *)
Definition fill (n : nat) : st (AppIds * W) IdentityError (option (list Z)) := fun '(ids, w) =>
  match ai_source ids with
  | SRandom => let '(w, r) := random_fill w n in ((ids, w), Ok r)
  | SIo _ => let '(w, r) := io_fill w n in ((ids, w), Ok r)
  | STest => ((ids, w), Ok None)
  end.

Fixpoint jitter_loop (n : nat) (width limit : Z) : st (AppIds * W) IdentityError Z :=
  match n with
  | O => st_fail RandomnessUnavailable
  | S n =>
      r ← fill 4;
      match r with
      | None => st_fail RandomnessUnavailable
      | Some bytes => let value := from_be bytes in if value <? limit then mret (value mod width) else jitter_loop n width limit
      end
  end.
Definition jitter_width : Z := ACK_RANDOM_SPAN_MS + 1.
Definition jitter_limit : Z := max_u 32 - max_u 32 mod jitter_width.
Definition sample_jitter : st (AppIds * W) IdentityError Z :=
  '(ids, _) ← st_get;
  match ai_source ids with STest => mret 0 | _ => jitter_loop 8 jitter_width jitter_limit end.

Definition id_space : Z := 65536.
(** The counters after a Message ID has been issued. *)
Definition mid_issued (ids : AppIds) (now_ms jitter : Z) : AppIds :=
  let issued := if ai_issued ids =? id_space then 0 else ai_issued ids in
  mkAppIds (ai_source ids) (wrapping_add 16 (ai_next_mid ids) 1) (issued + 1) (Z.max (ai_last_mid_ms ids) now_ms) (wrap 16 jitter)
    (ai_test_token ids) (ai_token_length ids).
Definition mid_exhausted (ids : AppIds) (now_ms : Z) : bool :=
  (ai_issued ids =? id_space) && (saturating_sub now_ms (ai_last_mid_ms ids) <? EXCHANGE_LIFETIME_MS).
Definition AppIds_next (now_ms : Z) : st (AppIds * W) IdentityError MessageId :=
  '(ids, _) ← st_get;
  if mid_exhausted ids now_ms then st_fail MessageIdExhausted
  else
    jitter ← sample_jitter;
    '(ids, w) ← st_get;
    st_put (mid_issued ids now_ms jitter, w);;
    mret (ai_next_mid ids).

(** ** Tokens *)
Section token.
Context {K : Type} `{OwnedToken K}.

Definition set_test_token (ids : AppIds) (n : Z) : AppIds :=
  mkAppIds (ai_source ids) (ai_next_mid ids) (ai_issued ids) (ai_last_mid_ms ids) (ai_jitter ids) n (ai_token_length ids).
Definition token_bytes (t : K) : st (AppIds * W) IdentityError (list Z) := st_lift (ot_as_bytes t).
Definition token_with_length (len : nat) : st (AppIds * W) IdentityError K :=
  token ← st_lift (map_err (fun _ => TokenExhausted) (ot_try_zeroed len));
  '(ids, _) ← st_get;
  match ai_source ids with
  | STest =>
      if (len <? 4)%nat then st_fail TokenExhausted
      else
        n ← st_lift (ok_or (checked_add 32 (ai_test_token ids) 1) TokenExhausted);
        '(ids, w) ← st_get;
        st_put (set_test_token ids n, w);;
        old ← token_bytes token;
        bytes ← st_lift (copy_into (len - 4) len (be_bytes 4 n) old);
        st_lift (ot_write token bytes)
  | _ =>
      old ← token_bytes token;
      r ← fill (length old);
      match r with None => st_fail RandomnessUnavailable | Some bytes => st_lift (ot_write token bytes) end
  end.
Definition AppIds_token : st (AppIds * W) IdentityError K :=
  '(ids, _) ← st_get; token_with_length (Z.to_nat (ai_token_length ids)).
End token.
Definition AppIds_nonce : st (AppIds * W) IdentityError Token :=
  '(ids, _) ← st_get; token_with_length match ai_source ids with STest => 4 | _ => 8 end.
End identity.

(** ** Laws *)
Section laws.
Context {W : Type} `{HW : EntropyLaws W} {K : Type} `{HK : OwnedToken K}.
Abbreviation ids_st := (AppIds * W)%type.
Implicit Types (s : ids_st).

(** Sampling changes nothing but the entropy. *)
Lemma fill_ids n s s' r : fill n s = (s', r) → s'.1 = s.1.
Proof.
  destruct s as [ids w]. unfold fill. destruct (ai_source ids); [destruct (random_fill w n)|destruct (io_fill w n)|]; by intros [= <- _].
Qed.
Lemma jitter_loop_ids n width limit s s' r : jitter_loop n width limit s = (s', r) → s'.1 = s.1.
Proof.
  revert s. induction n as [|n IH]; intros s; cbn [jitter_loop]; [by intros [= <- _]|]. unbind. destruct (fill 4 s) as [s1 r1] eqn:Ef.
  apply fill_ids in Ef. rewrite <- Ef. destruct r1 as [[bytes|]| | |]; try (by intros [= <- _]).
  destruct (_ <? _); [by intros [= <- _]|]. apply IH.
Qed.
Lemma sample_ids s s' r : sample_jitter s = (s', r) → s'.1 = s.1.
Proof.
  unfold sample_jitter. unbind. destruct s as [ids w]. destruct (ai_source ids); try apply (jitter_loop_ids 8); by intros [= <- _].
Qed.
Lemma next_outcome now_ms s s' r :
  AppIds_next now_ms s = (s', r) →
  match r with
  | Ok mid => mid_exhausted s.1 now_ms = false ∧ mid = ai_next_mid s.1 ∧ ∃ jitter, s'.1 = mid_issued s.1 now_ms jitter
  | Err MessageIdExhausted => mid_exhausted s.1 now_ms = true ∧ s' = s
  | Err _ | Panic | Diverge => s'.1 = s.1
  end.
Proof.
  unfold AppIds_next. unbind. destruct s as [ids w]. cbn [fst]. destruct (mid_exhausted ids now_ms); [by intros [= <- <-]|].
  destruct (sample_jitter (ids, w)) as [[ids' w'] r1] eqn:Es. pose proof (sample_ids _ _ _ Es) as Hi. cbn [fst] in Hi. subst ids'.
  destruct r1 as [j|e| |]; try (by intros [= <- <-]); [intros [= <- <-]; split; [done|]; split; [done|]; by eexists|].
  intros [= <- <-]. destruct e; try done. exfalso. revert Es. unfold sample_jitter. unbind.
  assert (∀ n width limit s s', jitter_loop (W:=W) n width limit s ≠ (s', Err MessageIdExhausted)) as Hj.
  { intros n. induction n as [|n IH]; intros width limit s s'; cbn [jitter_loop]; [done|]. unbind. destruct s as [ids0 w0]. unfold fill.
    destruct (ai_source ids0); [destruct (random_fill w0 4) as [w1 [bs|]]|destruct (io_fill w0 4) as [w1 [bs|]]|]; try done;
      (destruct (_ <? _); [done|apply IH]). }
  destruct (ai_source ids); try done; apply Hj.
Qed.
Lemma token_keeps len s s' r : token_with_length (K:=K) len s = (s', r) → s'.1 = set_test_token s.1 (ai_test_token s'.1).
Proof.
  assert (∀ ids, ids = set_test_token ids (ai_test_token ids)) as Hid by by intros [].
  destruct s as [ids w]. unfold token_with_length. unbind. destruct (ot_try_zeroed len) as [t| | |]; cbn [map_err]; try (intros [= <- _]; apply Hid).
  cbn [fst].
  destruct (ai_source ids) eqn:Esrc.
  1, 2: destruct (token_bytes t (ids, w)) as [s1 [old| | |]] eqn:Eo; revert Eo; unfold token_bytes, st_lift; intros [= <- Eo]; try (intros [= <- _]; apply Hid);
    destruct (fill (length old) (ids, w)) as [s2 r2] eqn:Ef; apply fill_ids in Ef; cbn [fst] in Ef;
    destruct r2 as [[bytes|]| | |]; intros [= <- _]; rewrite Ef; apply Hid.
  destruct (len <? 4)%nat; [intros [= <- _]; apply Hid|]. destruct (checked_add 32 (ai_test_token ids) 1) as [n|]; cbn [ok_or]; [|intros [= <- _]; apply Hid].
  unfold token_bytes, st_lift. destruct (ot_as_bytes t) as [old| | |]; try (by intros [= <- _]).
  destruct (copy_into (len - 4) len (be_bytes 4 n) old) as [bs| | |]; by intros [= <- _].
Qed.

(** *** Histories *)
(** The Message IDs issued so far with the times of their calls, in order. *)
Inductive issues : ids_st → list (Z * Z) → ids_st → Prop :=
  | issues_none s : issues s [] s
  | issues_next s h s1 now_ms s2 mid : issues s h s1 → AppIds_next now_ms s1 = (s2, Ok mid) → issues s (h ++ [(now_ms, mid)]) s2
  | issues_refused s h s1 now_ms s2 e : issues s h s1 → AppIds_next now_ms s1 = (s2, Err e) → issues s h s2
  | issues_token s h s1 len s2 r : issues s h s1 → token_with_length (K:=K) len s1 = (s2, r) → issues s h s2.

(** What the counters say about the history. *)
Record tracks (start : Z) (h : list (Z * Z)) (ids : AppIds) : Prop := {
  tr_next : ai_next_mid ids = (start + Z.of_nat (length h)) mod 2 ^ 16;
  tr_mid i t m : h !! i = Some (t, m) → m = (start + Z.of_nat i) mod 2 ^ 16 ∧ t ≤ ai_last_mid_ms ids;
  tr_issued : 0 ≤ ai_issued ids ≤ id_space ∧ ∃ g, Z.of_nat (length h) = id_space * g + ai_issued ids ∧ (ai_issued ids = 0 → h = []);
  tr_gap g i t t' m m' : h !! i = Some (t, m) → h !! g = Some (t', m') → (i < g)%nat → Z.of_nat g mod id_space = 0 →
    t + EXCHANGE_LIFETIME_MS ≤ t'
}.
Lemma tracks_ext start h ids ids' :
  ai_next_mid ids' = ai_next_mid ids → ai_issued ids' = ai_issued ids → ai_last_mid_ms ids' = ai_last_mid_ms ids → tracks start h ids → tracks start h ids'.
Proof. intros E1 E2 E3 [Ha Hb Hc Hd]. constructor; rewrite ?E1, ?E2, ?E3; done. Qed.
Lemma tracks_next start h ids now_ms jitter :
  tracks start h ids → mid_exhausted ids now_ms = false → tracks start (h ++ [(now_ms, ai_next_mid ids)]) (mid_issued ids now_ms jitter).
Proof.
  intros [Hn Hm (Hi & g & Hg & H0) Hgap] Hex. unfold mid_exhausted in Hex.
  assert (Z.of_nat (length h) mod id_space = 0 → h = [] ∨ ai_last_mid_ms ids + EXCHANGE_LIFETIME_MS ≤ now_ms) as Hturn.
  { intros Hz. destruct (Z.eq_dec (ai_issued ids) 0) as [E0|E0]; [left; auto|right].
    assert (ai_issued ids = id_space) as E.
    { rewrite Hg, Z.add_comm, Z.mul_comm, Z.mod_add in Hz by done. apply Z.mod_divide in Hz as [q Hq]; [|done]. unfold id_space in *. nia. }
    rewrite E, Z.eqb_refl in Hex. cbn [andb] in Hex. apply Z.ltb_ge in Hex. unfold saturating_sub, EXCHANGE_LIFETIME_MS in *. lia. }
  unfold mid_issued. constructor; cbn [ai_next_mid ai_issued ai_last_mid_ms].
  - rewrite Hn, length_app. cbn [length]. unfold wrapping_add, wrap. rewrite Z.add_mod_idemp_l by done. f_equal. lia.
  - intros i t m Hl. apply lookup_app_Some in Hl as [Hl|[Hge Hl]]; [destruct (Hm _ _ _ Hl); split; [done|lia]|].
    apply list_lookup_singleton_Some in Hl as [Hz [= <- <-]]. split; [|lia]. replace i with (length h) by lia. done.
  - rewrite length_app. cbn [length]. destruct (Z.eqb_spec (ai_issued ids) id_space) as [E|E].
    + split; [unfold id_space; lia|]. exists (g + 1). split; [lia|lia].
    + split; [lia|]. exists g. split; [lia|lia].
  - intros k i t t' m m' Hi' Hk Hik Hz. apply lookup_app_Some in Hk as [Hk|[Hge Hk]].
    + assert (h !! i = Some (t, m)) as Hi2. { rewrite lookup_app_l in Hi'; [done|]. apply lookup_lt_Some in Hk. lia. }
      by eapply Hgap.
    + apply list_lookup_singleton_Some in Hk as [Hk0 [= <- <-]]. assert (k = length h) as -> by lia.
      rewrite lookup_app_l in Hi' by lia. destruct (Hm _ _ _ Hi') as [_ Ht]. destruct (Hturn Hz) as [->|Ht2]; [done|]. lia.
Qed.
Lemma issues_track s h s' : issues s h s' → tracks (ai_next_mid s.1) [] s.1 → tracks (ai_next_mid s.1) h s'.1.
Proof.
  induction 1 as [s|s h s1 now_ms s2 mid _ IH Hn|s h s1 now_ms s2 e _ IH Hn|s h s1 len s2 r _ IH Ht]; intros H0; [done| | |].
  - apply next_outcome in Hn as (Hex & -> & j & ->). by apply tracks_next; auto.
  - apply next_outcome in Hn. specialize (IH H0). destruct e; [by rewrite Hn| |by destruct Hn as [_ ->]]. by rewrite Hn.
  - apply token_keeps in Ht. rewrite Ht. eapply tracks_ext; [..|by apply IH]; done.
Qed.

Lemma first_mid_u16 source w w' mid :
  match source with SIo m => in_u 16 m | _ => True end → first_mid source w = (w', Ok mid) → in_u 16 mid.
Proof.
  destruct source as [|m|]; cbn [first_mid]; [|by intros Hm [= _ <-]|by intros _ [= _ <-]].
  intros _. destruct (random_fill w 2) as [w1 [bs|]] eqn:Ef; [|done]. intros [= _ <-].
  destruct (random_fill_bytes _ _ _ _ Ef) as [Hl Hb]. pose proof (from_be_bound bs Hb) as Hbd. rewrite Hl in Hbd. exact Hbd.
Qed.
Lemma new_tracks source token_length w w0 ids :
  match source with Some (SIo m) => in_u 16 m | _ => True end →
  AppIds_new source token_length w = (w0, Ok ids) → tracks (ai_next_mid ids) [] ids.
Proof.
  unfold AppIds_new. unbind. destruct source as [src|]; [|done]. cbn [ok_or]. intros Hs. destruct (first_mid src w) as [w1 [mid| | |]] eqn:Ef; try done.
  apply first_mid_u16 in Ef; [|by destruct src]. unfold in_u in Ef. destruct (u_try_from_usize _ _) as [len|]; [|done]. cbn [ok_or]. intros [= _ <-].
  constructor; cbn [ai_next_mid ai_issued ai_last_mid_ms length]; [rewrite Z.add_0_r, Z.mod_small; done|done| |done].
  split; [done|]. by exists 0.
Qed.

(** In every history of Message IDs and tokens taken from new identities,
    with a clock that never goes back, a Message ID that is issued again is
    issued at least EXCHANGE_LIFETIME after its last use. *)
Theorem message_ids_fresh source token_length w w0 ids h s' i j ti tj mid :
  match source with Some (SIo m) => in_u 16 m | _ => True end →
  AppIds_new source token_length w = (w0, Ok ids) →
  issues (ids, w0) h s' →
  (∀ k l x y, h !! k = Some x → h !! l = Some y → (k < l)%nat → x.1 ≤ y.1) →
  (i < j)%nat → h !! i = Some (ti, mid) → h !! j = Some (tj, mid) →
  ti + EXCHANGE_LIFETIME_MS ≤ tj.
Proof.
  intros Hsrc Hnew Hh Hs Hij Hi Hj. pose proof (issues_track _ _ _ Hh (new_tracks _ _ _ _ _ Hsrc Hnew)) as [_ Hm _ Hgap]. cbn [fst] in *.
  destruct (Hm _ _ _ Hi) as [Ei _]. destruct (Hm _ _ _ Hj) as [Ej _]. rewrite Ei in Ej.
  assert (∃ k, Z.of_nat j = Z.of_nat i + k * id_space ∧ 0 < k) as (k & Hk & Hk0).
  { assert ((Z.of_nat j - Z.of_nat i) mod id_space = 0) as Hd.
    { replace (Z.of_nat j - Z.of_nat i) with ((ai_next_mid ids + Z.of_nat j) - (ai_next_mid ids + Z.of_nat i)) by lia.
      rewrite Zminus_mod. change id_space with (2 ^ 16). by rewrite Ej, Z.sub_diag. }
    apply Z.mod_divide in Hd as [k Hd]; [|done]. exists k. unfold id_space in *. split; lia. }
  set (g := Z.to_nat (id_space * (Z.of_nat i / id_space + 1))).
  assert ((i < g ≤ j)%nat ∧ Z.of_nat g mod id_space = 0) as [Hg Hz].
  { unfold g. pose proof (Z.div_mod (Z.of_nat i) id_space ltac:(done)). pose proof (Z.mod_pos_bound (Z.of_nat i) id_space ltac:(done)).
    rewrite Z2Nat.id by (unfold id_space in *; lia). split; [unfold id_space in *; nia|]. rewrite Z.mul_comm. by apply Z.mod_mul. }
  assert (is_Some (h !! g)) as [[tg mg] Hlg]. { apply lookup_lt_is_Some. apply lookup_lt_Some in Hj. lia. }
  pose proof (Hgap _ _ _ _ _ _ Hi Hlg (proj1 Hg) Hz). destruct (decide (g = j)) as [->|Hne]; [rewrite Hj in Hlg; by injection Hlg as -> _|].
  pose proof (Hs g j _ _ Hlg Hj ltac:(lia)). cbn [fst] in *. lia.
Qed.

(** ** Jitter *)
(** Every accepted sample is as likely as any other: the accepted values are a
    whole number of rounds of the jitter range. *)
Lemma jitter_limit_rounds : jitter_limit = jitter_width * (jitter_limit / jitter_width) ∧ jitter_limit / jitter_width = 4290676.
Proof. by vm_compute. Qed.
Lemma jitter_loop_bound n s s' j : jitter_loop n jitter_width jitter_limit s = (s', Ok j) → 0 ≤ j ≤ ACK_RANDOM_SPAN_MS.
Proof.
  revert s. induction n as [|n IH]; intros s; cbn [jitter_loop]; [done|]. unbind. destruct (fill 4 s) as [s1 [[bs|]| | |]]; try done.
  destruct (_ <? _); [|apply IH]. intros [= _ <-]. pose proof (Z.mod_pos_bound (from_be bs) jitter_width ltac:(done)). unfold jitter_width in *. lia.
Qed.
Lemma sample_jitter_bound s s' j : sample_jitter s = (s', Ok j) → 0 ≤ j ≤ ACK_RANDOM_SPAN_MS.
Proof. unfold sample_jitter. unbind. destruct s as [ids w]. destruct (ai_source ids); try apply (jitter_loop_bound 8); by intros [= _ <-]. Qed.
End laws.

(** ** A full round of Message IDs *)
(** No entropy: test identities need none. *)
#[export] Instance no_entropy : Entropy unit := { random_fill w n := (w, None); io_fill w n := (w, None) }.
#[export] Instance no_entropy_laws : EntropyLaws unit.
Proof. by split. Qed.
Lemma test_next now_ms ids : ai_source ids = STest → mid_exhausted ids now_ms = false →
  AppIds_next now_ms (ids, tt) = ((mid_issued ids now_ms 0, tt), Ok (ai_next_mid ids)).
Proof. intros Hs Hx. unfold AppIds_next, sample_jitter. unbind. by rewrite Hx, Hs. Qed.
Lemma test_round now_ms n s ids h :
  issues (K:=Token) s h (ids, tt) → ai_source ids = STest → 0 ≤ ai_issued ids → ai_issued ids + Z.of_nat n ≤ id_space →
  (∀ k x, h !! k = Some x → x.1 = now_ms) →
  ∃ h' ids', issues (K:=Token) s h' (ids', tt) ∧ ai_source ids' = STest ∧ ai_issued ids' = ai_issued ids + Z.of_nat n ∧
    length h' = (length h + n)%nat ∧ ∀ k x, h' !! k = Some x → x.1 = now_ms.
Proof.
  revert ids h. induction n as [|n IH]; intros ids h Hh Hs H0 Hn Ht.
  { exists h, ids. split_and!; try done; lia. }
  assert (mid_exhausted ids now_ms = false) as Hx. { unfold mid_exhausted. rewrite (proj2 (Z.eqb_neq _ _)) by lia. done. }
  destruct (IH (mid_issued ids now_ms 0) (h ++ [(now_ms, ai_next_mid ids)])) as (h' & ids' & Hh' & Hs' & Hi' & Hl' & Ht').
  - eapply issues_next; [done|by apply test_next].
  - done.
  - cbn [mid_issued ai_issued]. destruct (_ =? _); lia.
  - unfold mid_issued. cbn [ai_issued]. rewrite (proj2 (Z.eqb_neq _ _)) by lia. lia.
  - intros k x Hk. apply lookup_app_Some in Hk as [Hk|[_ Hk]]; [by eapply Ht|]. by apply list_lookup_singleton_Some in Hk as [_ <-].
  - exists h', ids'. split_and!; try done.
    + rewrite Hi'. unfold mid_issued. cbn [ai_issued]. rewrite (proj2 (Z.eqb_neq _ _)) by lia. lia.
    + rewrite Hl', length_app. cbn [length]. lia.
Qed.

Definition test_ids : AppIds := mkAppIds STest 1 0 0 0 0 4.
Lemma message_ids_fresh_witness :
  ∃ h s', issues (K:=Token) (test_ids, tt) h s' ∧ h !! 0%nat = Some (0, 1) ∧ h !! Z.to_nat 65536 = Some (247000, 1) ∧ 0 + EXCHANGE_LIFETIME_MS ≤ 247000.
Proof.
  assert (AppIds_new (W:=unit) (Some STest) None tt = (tt, Ok test_ids)) as Hnew by reflexivity.
  destruct (test_round 0 (Z.to_nat 65536) (test_ids, tt) test_ids [] (issues_none _) eq_refl) as (h & ids & Hh & Hs & Hi & Hl & Ht).
  { done. }
  { rewrite Z2Nat.id by done. done. }
  { done. }
  rewrite Z2Nat.id in Hi by done. cbn [ai_issued test_ids Z.add] in Hi.
  pose proof (issues_track _ _ _ Hh (new_tracks (Some STest) None tt tt test_ids I Hnew)) as Htr. cbn [fst] in Htr.
  assert (ai_last_mid_ms ids = 0) as Hlast.
  { clear -Hh Ht. assert (∀ s h s', issues (K:=Token) (W:=unit) s h s' → ai_last_mid_ms s.1 = 0 → (∀ k x, h !! k = Some x → x.1 = 0) → ai_last_mid_ms s'.1 = 0) as Hg.
    { clear. induction 1 as [s|s h s1 now_ms s2 mid _ IH Hn|s h s1 now_ms s2 e _ IH Hn|s h s1 len s2 r _ IH Htk]; intros H0 Hz; [done| | |].
      - apply next_outcome in Hn as (_ & _ & j & ->). cbn [mid_issued ai_last_mid_ms]. rewrite IH; [|done|intros k x Hk; apply (Hz k x); by apply lookup_app_l_Some].
        specialize (Hz (length h) (now_ms, mid)). rewrite list_lookup_middle in Hz by done. cbn [fst] in Hz. rewrite Hz; done.
      - apply next_outcome in Hn. destruct e; [rewrite Hn|rewrite Hn|destruct Hn as [_ ->]]; by apply IH.
      - apply token_keeps in Htk. rewrite Htk. by apply IH. }
    by apply (Hg _ _ _ Hh). }
  assert (mid_exhausted ids 247000 = false) as Hx by (unfold mid_exhausted; by rewrite Hi, Hlast).
  pose proof (issues_next _ _ _ _ _ _ Hh (test_next 247000 ids Hs Hx)) as Hh'.
  assert (h !! 0%nat = Some (0, 1)) as H0.
  { destruct (lookup_lt_is_Some_2 h 0) as [[t m] E]; [rewrite Hl; cbn [length]; lia|]. rewrite E. destruct (tr_mid _ _ _ Htr _ _ _ E) as [-> _].
    by rewrite <- (Ht _ _ E). }
  assert ((h ++ [(247000, ai_next_mid ids)]) !! 0%nat = Some (0, 1)) as H1 by (by apply lookup_app_l_Some).
  assert ((h ++ [(247000, ai_next_mid ids)]) !! Z.to_nat 65536 = Some (247000, 1)) as H2.
  { cbn [length] in Hl. replace (Z.to_nat 65536) with (length h) by (rewrite Hl; lia). rewrite list_lookup_middle by done. rewrite (tr_next _ _ _ Htr), Hl.
    cbn [length Nat.add]. rewrite Z2Nat.id by done. done. }
  exists (h ++ [(247000, ai_next_mid ids)]), (mid_issued ids 247000 0, tt). split; [done|]. split; [done|]. split; [done|].
  refine (message_ids_fresh (W:=unit) (K:=Token) (Some STest) None tt tt test_ids _ _ 0 (Z.to_nat 65536) 0 247000 1 I Hnew Hh' _ _ H1 H2); [|lia].
  intros k l x y Hk Hly Hkl. apply lookup_app_Some in Hk as [Hk|[Hge Hk]].
  - rewrite (Ht _ _ Hk). apply lookup_app_Some in Hly as [Hly|[_ Hly]]; [by rewrite (Ht _ _ Hly)|]. by apply list_lookup_singleton_Some in Hly as [_ <-].
  - apply lookup_lt_Some in Hly. rewrite length_app in Hly. cbn [length] in Hly. lia.
Defined.
