(* ===== verification/DatagramBuffer.v ===== *)
(** * Writing into a slot

    What [payload_mut] followed by [set_len] of both datagram pools
    ([src/storage/pool.rs], [src/storage/alloc_memory.rs]) promise: the slot
    shows the written prefix and no other slot changes.  [write_tx] and
    [encode_tx] of the engine follow from it. *)
From S2P Require Import Prelude Errors MsgTypes Options Encode Decode OptionValues MessageOptions Occupancy Pending.
From S2P Require Import DatagramPool PendingCons SlotTable Dedup Observe Block BodyPool Exchange Engine EngineExchange.

(** [p'] is [p] with the contents of one slot replaced. *)
Definition rewrites {P} `{DatagramLaws P} (p : P) (id : SlotId) (s : SlotView) (p' : P) : Prop :=
  pool_inv p' ∧ pool_cap p' = pool_cap p ∧ pool_view p' = <[id := Some s]> (pool_view p).

Class BufferLaws (P : Type) `{DatagramLaws P} : Prop := {
  law_buffer (p : P) id {E} :
    pool_inv p →
    match slot_at (pool_view p) id with
    | None => db_payload_mut (E:=E) p id = Ok None
    | Some s =>
        ∃ buf store, db_payload_mut (E:=E) p id = Ok (Some (buf, store)) ∧ length buf = pool_cap p ∧
          ∀ buf', length buf' = pool_cap p →
            rewrites p id (set_view_payload (take (length (sv_payload s)) buf') s) (store buf') ∧
            ∀ n, if (n <=? pool_cap p)%nat
                 then ∃ p', db_set_len (store buf') id n = Ok p' ∧ rewrites p id (set_view_payload (take n buf') s) p'
                 else db_set_len (store buf') id n = Err LengthExceedsSlot
    end
}.

(** ** The fixed pool *)
Section fixed.
Context {SLOTS BYTES : nat} `{Target}.
Implicit Types (p : DatagramPool SLOTS BYTES) (id : SlotId).

(** Replacing the buffer and the length of an occupied slot. *)
Lemma dp_refill p id buf len :
  dp_inv p → Occupancy_is_occupied (dp_occ p) id = true → length buf = BYTES → (len ≤ BYTES)%nat →
  rewrites p id (set_view_payload (take len buf) (dp_slot p id))
    (mkPool (<[id := buf]> (dp_bytes p)) (<[id := len]> (dp_lens p)) (dp_endpoints p) (dp_pending p) (dp_occ p)).
Proof.
  intros Hi Ho Hb Hn. destruct (dp_slot_range p id Hi Ho) as (old & l0 & e & m & Eb & El & Ee & Em & _ & _ & Hid & _).
  destruct Hi as (? & ? & ? & ? & ? & ? & ? & ? & ?). split_and!; [|done|].
  - unfold pool_inv, DatagramPool_laws, dp_inv. cbn [dp_occ dp_bytes dp_lens dp_endpoints dp_pending].
    rewrite !length_insert. split_and!; try done; by apply Forall_insert.
  - match goal with |- pool_view ?p' = _ => change (pool_view p') with (table (dp_occ p) (dp_slot p')) end.
    rewrite (table_update (dp_occ p) (dp_slot p) _ id Ho).
    + unfold dp_slot at 1. cbn [dp_occ dp_bytes dp_lens dp_endpoints dp_pending].
      by rewrite !list_lookup_insert_eq by lia.
    + intros j Hj. unfold dp_slot. cbn [dp_occ dp_bytes dp_lens dp_endpoints dp_pending].
      by rewrite !list_lookup_insert_ne.
Qed.

#[export] Instance DatagramPool_buffer : BufferLaws (DatagramPool SLOTS BYTES).
Proof.
  split. intros p id E Hi. change (dp_inv p) in Hi. change (pool_view p) with (table (dp_occ p) (dp_slot p)).
  rewrite table_slot_at. unfold db_payload_mut, DatagramPool_DatagramBytes, dp_payload_mut.
  destruct (Occupancy_is_occupied (dp_occ p) id) eqn:Ho; cbn [negb]; [|done].
  destruct (dp_slot_range p id Hi Ho) as (buf & len & e & m & Eb & El & Ee & Em & Hb & Hl & Hid & Hs).
  unfold idx. rewrite Eb. unbind. eexists _, _. split; [done|]. split; [done|]. intros buf' Hb'. change (pool_cap p) with BYTES in *.
  assert (<[id := len]> (dp_lens p) = dp_lens p) as Hlen by (by apply list_insert_id). split.
  - replace (take (length _) buf') with (take len buf'); [|rewrite Hs; cbn [sv_payload]; rewrite length_take; f_equal; lia].
    pose proof (dp_refill p id buf' len Hi Ho Hb' Hl) as Hr. by rewrite Hlen in Hr.
  - intros n. unfold db_set_len, dp_set_len. cbn [dp_with_bytes dp_occ dp_lens dp_bytes]. rewrite Ho. cbn [negb].
    destruct (BYTES <? n)%nat eqn:En; bools.
    + by rewrite (proj2 (Nat.leb_gt _ _)).
    + rewrite (proj2 (Nat.leb_le _ _)) by done. pose proof Hi as (_ & _ & _ & _ & Hll & _). unfold set_idx.
      rewrite (proj2 (Nat.ltb_lt _ _)) by lia. unbind. eexists. split; [done|]. exact (dp_refill p id buf' n Hi Ho Hb' En).
Qed.
End fixed.

(** ** The pool on the heap *)
Section heap.
Context `{Target}.
Implicit Types (p : AllocDatagramPool) (id : SlotId).

Lemma ad_refill p id s buf len :
  ad_inv p → Occupancy_is_occupied (ad_occ p) id = true → ad_slots p !! id = Some s →
  length buf = ad_slot_bytes p → (len ≤ ad_slot_bytes p)%nat →
  rewrites p id (set_view_payload (take len buf) (ad_slot p id))
    (ad_with_slots p (<[id := mkAllocSlot buf len (as_endpoint s) (as_pending s)]> (ad_slots p))).
Proof.
  intros Hi Ho Es Hb Hn.
  destruct (ad_put_slot p id s (mkAllocSlot buf len (as_endpoint s) (as_pending s)) Hi Es Hb Hn) as (Hi' & Hs & Hj).
  split_and!; [done|done|].
  match goal with |- pool_view ?p' = _ => change (pool_view p') with (table (ad_occ p) (ad_slot p')) end.
  rewrite (table_update (ad_occ p) (ad_slot p) _ id Ho Hj), Hs. unfold ad_slot. by rewrite Es.
Qed.

#[export] Instance AllocDatagramPool_buffer : BufferLaws AllocDatagramPool.
Proof.
  split. intros p id E Hi. change (ad_inv p) in Hi. change (pool_view p) with (table (ad_occ p) (ad_slot p)).
  rewrite table_slot_at. unfold db_payload_mut, AllocDatagramPool_DatagramBytes, ad_payload_mut.
  destruct (Occupancy_is_occupied (ad_occ p) id) eqn:Ho; cbn [negb]; [|done].
  destruct (ad_slot_range p id Hi Ho) as (s & Es & Hb & Hl & Hid & Hs). rewrite Es. eexists _, _. split; [done|].
  split; [done|]. intros buf' Hb'. change (pool_cap p) with (ad_slot_bytes p) in *. split.
  - replace (take (length _) buf') with (take (as_len s) buf'); [by apply ad_refill|].
    rewrite Hs. cbn [as_view sv_payload]. rewrite length_take. f_equal. lia.
  - intros n. unfold db_set_len, ad_set_len. cbn [ad_with_slots ad_occ ad_slots ad_slot_bytes]. rewrite Ho. cbn [negb].
    destruct (ad_slot_bytes p <? n)%nat eqn:En; bools.
    + by rewrite (proj2 (Nat.leb_gt _ _)).
    + rewrite (proj2 (Nat.leb_le _ _)) by done. unfold ad_modify, idx, set_idx. cbn [ad_with_slots ad_slots].
      rewrite list_lookup_insert_eq by done. unbind. rewrite length_insert, (proj2 (Nat.ltb_lt _ _)) by done.
      eexists. split; [done|]. cbn [ad_with_slots ad_slot_bytes ad_occ as_buf as_endpoint as_pending].
      rewrite list_insert_insert_eq. exact (ad_refill p id s buf' n Hi Ho Es Hb' En).
Qed.
End heap.

(** ** Writing through the engine *)
Section writes.
Context {P : Type} `{BufferLaws P}.
Implicit Types (p : P) (id : SlotId).

Lemma rewrites_slot p id s s' p' : slot_at (pool_view p) id = Some s' → rewrites p id s p' → slot_at (pool_view p') id = Some s.
Proof. intros Hs (_ & _ & ->). rewrite slot_at_insert by (by eapply slot_at_lt). by rewrite decide_True. Qed.
Lemma rewrites_trans p id s s' p1 p2 : rewrites p id s p1 → rewrites p1 id s' p2 → rewrites p id s' p2.
Proof. intros (_ & Hc & Hv) (? & Hc' & Hv'). split_and!; [done|congruence|]. by rewrite Hv', Hv, list_insert_insert_eq. Qed.

Lemma set_endpoint_rewrites p id s e :
  pool_inv p → slot_at (pool_view p) id = Some s →
  ∃ p', set_endpoint id e p = (p', Ok tt) ∧ rewrites p id (set_view_endpoint e s) p'.
Proof.
  intros Hp Hs. pose proof (law_set_endpoint p id e Hp) as Hu. unfold updates, slot_at in *.
  destruct (pool_view p !! id) as [[s0|]|] eqn:Ev; try done. injection Hs as ->. destruct Hu as (p' & Hr & ? & ? & ?).
  exists p'. unfold set_endpoint, st_upd. rewrite Hr. done.
Qed.

(** Copying bytes that fit and recording their length. *)
Lemma copy_rewrites p id s (bytes : list Z) :
  pool_inv p → slot_at (pool_view p) id = Some s → (length bytes ≤ pool_cap p)%nat →
  ∃ p1 p2, copy_into_slot id bytes p = (p1, Ok tt) ∧ set_len id (length bytes) p1 = (p2, Ok tt) ∧
    rewrites p id (set_view_payload bytes s) p2.
Proof.
  intros Hp Hs Hle. pose proof (law_buffer p id (E:=SlotError) Hp) as Hb. rewrite Hs in Hb.
  destruct Hb as (buf & store & Hm & Hlen & Hw). unfold copy_into_slot, in_slot. rewrite Hm.
  rewrite (proj2 (Nat.ltb_ge _ _)) by lia. unfold st_upd. rewrite copy_into_ok by lia.
  assert (length (splice buf 0 bytes) = pool_cap p) as Hl by (rewrite length_splice; lia).
  destruct (Hw _ Hl) as [_ Hn]. specialize (Hn (length bytes)). rewrite (proj2 (Nat.leb_le _ _)) in Hn by done.
  destruct Hn as (p' & Hset & Hr). eexists _, p'. split; [done|]. unfold set_len, st_upd. rewrite Hset. split; [done|].
  pose proof (take_splice buf bytes 0 ltac:(lia)) as Ht. rewrite Nat.add_0_l in Ht. rewrite Ht in Hr. exact Hr.
Qed.

End writes.
