(* ===== verification/Transport.v ===== *)
(** * Datagrams between the transport and the engine

    [src/storage/io.rs] and [src/storage/async_io.rs].  The transport is the
    caller's: its state is [W], and receiving and sending are operations of
    the classes [DatagramIo] and [AsyncDatagramIo].  Code that borrows the
    engine and the transport is in [st (Eng * W)].

    An awaited operation either completes or its future is dropped while it is
    pending; [Dropped] is the second case, after which only the destructors of
    the values the future owns have run. *)
From S2P Require Import Prelude Errors MsgTypes Options Encode Decode OptionValues MessageOptions Occupancy Pending.
From S2P Require Import DatagramPool PendingCons SlotTable Dedup Observe Block BodyPool Exchange Engine EngineExchange.
From S2P Require Import DatagramBuffer.

(** ** The traits *)
Class DatagramIo (W ER : Type) : Type := {
  io_recv : W → list Z → W * (list Z * (ER + option (nat * Endpoint)));
  io_send : W → Endpoint → list Z → W * (ER + nat)
}.
(** A [&mut [u8]] keeps its length. *)
Class DatagramIoLaws (W ER : Type) `{DatagramIo W ER} : Prop := {
  io_recv_buf w buf w' buf' r : io_recv w buf = (w', (buf', r)) → length buf' = length buf
}.

Inductive Async (A : Type) : Type := Dropped | Ready (a : A).
Arguments Dropped {A}.
Arguments Ready {A} _.

Class AsyncDatagramIo (W ER : Type) : Type := {
  aio_recv : W → list Z → W * (list Z * Async (ER + (nat * Endpoint)));
  aio_send : W → Endpoint → list Z → W * Async (ER + nat)
}.
Class AsyncDatagramIoLaws (W ER : Type) `{AsyncDatagramIo W ER} : Prop := {
  aio_recv_buf w buf w' buf' r : aio_recv w buf = (w', (buf', r)) → length buf' = length buf
}.

Inductive DatagramIoError (ER : Type) : Type :=
  | IoSaturated
  | IoSlot (e : SlotError)
  | SendLength (expected actual : nat)
  | Io (e : ER).
Arguments IoSaturated {ER}.
Arguments IoSlot {ER} _.
Arguments SendLength {ER} _ _.
Arguments Io {ER} _.

Inductive InitialConSendError (ER C : Type) : Type :=
  | InvalidPacket
  | AdmissionRefused
  | ICTransport (e : DatagramIoError ER)
  | ICClockAfterSend (c : C)
  | ICCommitAfterSend.
Arguments InvalidPacket {ER C}.
Arguments AdmissionRefused {ER C}.
Arguments ICTransport {ER C} _.
Arguments ICClockAfterSend {ER C} _.
Arguments ICCommitAfterSend {ER C}.

(** The result of a call that has returned. *)
Definition returned {E A} (r : E + A) : res E A := match r with inl e => Err e | inr a => Ok a end.

Section transport.
Context {RX TX RB TB T Q W ER : Type} `{Target} `{OwnedToken T} `{EqDecision T}.
Context `{!SlotPool RX} `{!DatagramBytes RX} `{!SlotPool TX} `{!DatagramBytes TX} `{!BodyCells T RB} `{!BodyCells T TB}.
Abbreviation Eng := (Engine RX TX RB TB T Q).
Abbreviation sys := (Eng * W)%type.
Implicit Types (en : Eng) (id : SlotId) (s : sys).

Definition on_engine {E A} : st Eng E A → st sys E A := zoom fst (fun s en => (en, s.2)).

(** [let _ = engine.release_rx(id);] and [rx_error += 1]. *)
Definition quiet {S E A} (m : st S SlotError A) : st S E unit := st_ok m;; mret tt.
Definition rx_failed {A} id (e : DatagramIoError ER) : st sys (DatagramIoError ER) A :=
  on_engine (quiet (release_rx id));;
  on_engine (inc rx_error);;
  st_fail e.

(** The buffer of an RX slot lent to the transport. *)
Definition lend_rx {E A} id (call : W → list Z → W * (list Z * A)) : st sys E (option A) := fun '(en, w) =>
  match db_payload_mut (rx_of en) id with
  | Ok (Some (buf, store)) => let '(w, (buf, r)) := call w buf in ((with_rx en (store buf), w), Ok (Some r))
  | Ok None => ((en, w), Ok None)
  | Err e => ((en, w), Err e)
  | Panic => ((en, w), Panic)
  | Diverge => ((en, w), Diverge)
  end.

(** The length and the source of a received datagram. *)
Definition fill_rx id (n : nat) (endpoint : Endpoint) : st Eng SlotError unit :=
  on_rx (set_len id n);; on_rx (set_endpoint id (Endpoint_physical endpoint)).

Definition recv_from `{DatagramIo W ER} : st sys (DatagramIoError ER) (option SlotId) :=
  id ← on_engine acquire_rx;
  id ← st_lift (ok_or id IoSaturated);
  outcome ← lend_rx id io_recv;
  match outcome with
  | None => rx_failed id (IoSlot NotOccupied)
  | Some (inr (Some (n, endpoint))) =>
      r ← on_engine (st_result (fill_rx id n endpoint));
      match r with
      | inl e => rx_failed id (IoSlot e)
      | inr _ => on_engine (inc rx_accepted);; mret (Some id)
      end
  | Some (inr None) => on_engine (quiet (release_rx id));; mret None
  | Some (inl e) => rx_failed id (Io e)
  end.

Definition tx_endpoint {E} id : st Eng E (option Endpoint) := en ← st_get; st_lift (db_endpoint (tx_of en) id).

(** [Access] pins the slot while it lives, and its destructor clears the pin,
    which [access] found clear: the pool is the one before. *)
Definition access_tx id : st Eng SlotError (list Z) := fun en =>
  (en, match db_access (tx_of en) id with
       | Ok (_, bytes) => Ok bytes
       | Err e => Err e
       | Panic => Panic
       | Diverge => Diverge
       end).

Definition complete_send (bytes : list Z) (r : ER + nat) : DatagramIoError ER + nat :=
  match r with
  | inl e => inl (Io e)
  | inr actual => if (actual =? length bytes)%nat then inr actual else inl (SendLength (length bytes) actual)
  end.
(** The counter of a finished send. *)
Definition count_send (outcome : DatagramIoError ER + nat) : st sys (DatagramIoError ER) nat :=
  on_engine (inc match outcome with inr _ => tx_ok | inl _ => tx_fail end);;
  st_lift (returned outcome).

Definition send_tx `{DatagramIo W ER} id : st sys (DatagramIoError ER) nat :=
  dest ← on_engine (tx_endpoint id);
  match dest with
  | None => on_engine (inc tx_fail);; st_fail (IoSlot NotOccupied)
  | Some dest =>
      access ← on_engine (st_result (access_tx id));
      match access with
      | inl e => count_send (inl (IoSlot e))
      | inr bytes =>
          '(en, w) ← st_get;
          let '(w, r) := io_send w (Endpoint_physical dest) bytes in
          st_put (en, w);;
          count_send (complete_send bytes r)
      end
  end.

(** ** Awaitable operations *)
Section awaitable.
Context `{AsyncDatagramIo W ER}.

(** [ReceiveReservation] releases the slot in its destructor unless [id] was
    taken from it. *)
Definition recv_from_async : st sys (DatagramIoError ER) (Async SlotId) :=
  id ← on_engine acquire_rx;
  id ← st_lift (ok_or id IoSaturated);
  outcome ← lend_rx id aio_recv;
  let fails e := on_engine (inc rx_error);; on_engine (quiet (release_rx id));; st_fail e in
  match outcome with
  | None => fails (IoSlot NotOccupied)
  | Some Dropped => on_engine (quiet (release_rx id));; mret Dropped
  | Some (Ready (inl e)) => fails (Io e)
  | Some (Ready (inr (len, endpoint))) =>
      r ← on_engine (st_result (fill_rx id len endpoint));
      match r with
      | inl e => fails (IoSlot e)
      | inr _ => on_engine (inc rx_accepted);; mret (Ready id)
      end
  end.

Definition send_tx_async id : st sys (DatagramIoError ER) (Async nat) :=
  dest ← on_engine (tx_endpoint id);
  match dest with
  | None => n ← count_send (inl (IoSlot NotOccupied)); mret (Ready n)
  | Some dest =>
      access ← on_engine (st_result (access_tx id));
      match access with
      | inl e => n ← count_send (inl (IoSlot e)); mret (Ready n)
      | inr bytes =>
          '(en, w) ← st_get;
          let '(w, r) := aio_send w (Endpoint_physical dest) bytes in
          st_put (en, w);;
          match r with
          | Dropped => mret Dropped
          | Ready r => n ← count_send (complete_send bytes r); mret (Ready n)
          end
      end
  end.

(** [InitialReservation] cancels what it still holds in its destructor. *)
Definition send_con_async {C} id (jitter_ms : Z) (completed_at : C + Z)
    : st sys (InitialConSendError ER C) (Async PendingCon) :=
  endpoint ← on_engine (tx_endpoint id);
  endpoint ← st_lift (ok_or endpoint InvalidPacket);
  packet ← on_engine (st_map_err (fun _ => InvalidPacket) (decode_tx id));
  if negb (eqb (pm_ty packet) Confirmable) || pm_is_empty packet then st_fail InvalidPacket
  else
    '(en, _) ← st_get;
    pending ← st_lift (engine_pending en id);
    if is_some pending then st_fail AdmissionRefused
    else
      expected ← on_engine (engine_reserve_pending id endpoint (pm_message_id packet));
      expected ← st_lift (ok_or expected AdmissionRefused);
      let cancel := on_engine (engine_cancel_pending expected) in
      sent ← st_result (send_tx_async id);
      match sent with
      | inl e => cancel;; st_fail (ICTransport e)
      | inr Dropped => cancel;; mret Dropped
      | inr (Ready _) =>
          match completed_at with
          | inl c => cancel;; st_fail (ICClockAfterSend c)
          | inr now_ms =>
              started ← on_engine (engine_commit_pending expected now_ms jitter_ms);
              match started with
              | None => cancel;; st_fail ICCommitAfterSend
              | Some started => mret (Ready started)
              end
          end
      end.
End awaitable.
End transport.

(** * What the transport calls promise

    A received datagram is stored whole in a slot that was free, and every
    other outcome, a dropped future included, leaves the incoming slots as they
    were.  A send hands the transport exactly the bytes and the address of its
    slot and keeps every slot. *)
Section laws.
Context {RX TX RB TB T Q W ER : Type} `{Target} `{OwnedToken T} `{EqDecision T}.
Context `{!SlotPool RX} `{!DatagramBytes RX} `{!SlotPool TX} `{!DatagramBytes TX} `{!BodyCells T RB} `{!BodyCells T TB}.
Context `{!DatagramLaws RX} `{!DatagramLaws TX} `{!BufferLaws RX}.
Abbreviation Eng := (Engine RX TX RB TB T Q).
Abbreviation sys := (Eng * W)%type.
Implicit Types (en : Eng) (id : SlotId) (w : W) (p : RX).

(** Everything but the incoming slots and the counters. *)
Definition same_rest en en' : Prop :=
  me_tx (en_storage en') = me_tx (en_storage en) ∧ me_dedup (en_storage en') = me_dedup (en_storage en) ∧
  observe_of en' = observe_of en ∧ exchange_of en' = exchange_of en ∧ me_bodies (en_storage en') = me_bodies (en_storage en).
(** The incoming slots are the ones before. *)
Definition rx_kept en en' : Prop :=
  pool_inv (rx_of en') ∧ pool_cap (rx_of en') = pool_cap (rx_of en) ∧ pool_view (rx_of en') = pool_view (rx_of en) ∧ same_rest en en'.

(** Releasing the slot that was acquired. *)
Lemma release_acquired en p id s :
  pool_view (rx_of en) !! id = Some None → pool_inv p → pool_cap p = pool_cap (rx_of en) →
  pool_view p = <[id := Some s]> (pool_view (rx_of en)) → sv_pinned s = false →
  ∃ p', sp_release p id = Ok p' ∧ pool_inv p' ∧ pool_cap p' = pool_cap (rx_of en) ∧ pool_view p' = pool_view (rx_of en).
Proof.
  intros Hf Hi Hc Hv Hpin. pose proof (lookup_lt_Some _ _ _ Hf) as Hlt. pose proof (law_release p id Hi) as Hr.
  rewrite Hv, list_lookup_insert_eq, Hpin in Hr by done. destruct Hr as (p' & Hr & Hi' & Hc' & Hv'). exists p'.
  split_and!; [done..|congruence|]. by rewrite Hv', list_insert_insert_eq, list_insert_id.
Qed.

(** The slot after [acquire_rx] and the transport's write into it. *)
Lemma lend_acquired {A} en w (call : W → list Z → W * (list Z * A)) :
  (∀ w buf w' buf' r, call w buf = (w', (buf', r)) → length buf' = length buf) →
  pool_inv (rx_of en) →
  match sp_acquire (E:=DatagramIoError ER) (rx_of en) with
  | Ok (p, Some id) =>
      pool_view (rx_of en) !! id = Some None ∧
      ∃ buf w' buf' r p', length buf = pool_cap (rx_of en) ∧ call w buf = (w', (buf', r)) ∧
        lend_rx (E:=DatagramIoError ER) id call (with_rx en p, w) = ((with_rx en p', w'), Ok (Some r)) ∧
        (pool_inv p' ∧ pool_cap p' = pool_cap (rx_of en) ∧ pool_view p' = <[id := Some (set_view_payload [] fresh_view)]> (pool_view (rx_of en))) ∧
        ∀ n, if (n <=? pool_cap (rx_of en))%nat
             then ∃ p2, db_set_len p' id n = Ok p2 ∧ pool_inv p2 ∧ pool_cap p2 = pool_cap (rx_of en) ∧
                    pool_view p2 = <[id := Some (set_view_payload (take n buf') fresh_view)]> (pool_view (rx_of en))
             else db_set_len p' id n = Err LengthExceedsSlot
  | Ok (p, None) => p = rx_of en ∧ ∀ id, pool_view (rx_of en) !! id ≠ Some None
  | _ => False
  end.
Proof.
  intros Hcall Hi. pose proof (law_acquire (rx_of en) (E:=DatagramIoError ER) Hi) as Ha.
  destruct (sp_acquire (rx_of en)) as [[p [id|]]| | |]; try done.
  destruct Ha as (Hp & Hc & Hf & Hv). split; [done|]. pose proof (lookup_lt_Some _ _ _ Hf) as Hlt.
  pose proof (law_buffer p id (E:=DatagramIoError ER) Hp) as Hb.
  rewrite Hv, slot_at_insert, decide_True in Hb by done. destruct Hb as (buf & store & Hm & Hl & Hw).
  destruct (call w buf) as [w' [buf' r]] eqn:Ec. pose proof (Hcall _ _ _ _ _ Ec) as Hlen.
  exists buf, w', buf', r, (store buf'). unfold lend_rx. change (rx_of (with_rx en p)) with p. rewrite Hm, Ec.
  destruct (Hw buf' ltac:(congruence)) as [(Hi' & Hc' & Hv') Hn]. unfold rewrites in Hn. rewrite Hv, list_insert_insert_eq in Hv'.
  rewrite Hc in *. split_and!; try done. intros n. specialize (Hn n). destruct (n <=? _)%nat; [|done].
  destruct Hn as (p2 & Hset & Hi2 & Hc2 & Hv2). exists p2. rewrite Hv, list_insert_insert_eq in Hv2.
  split_and!; [done|done|congruence|done].
Qed.

(** A release after a failure, and the end of a successful receive. *)
Lemma quiet_release {E} en w p id s :
  pool_view (rx_of en) !! id = Some None → pool_inv p → pool_cap p = pool_cap (rx_of en) →
  pool_view p = <[id := Some s]> (pool_view (rx_of en)) → sv_pinned s = false →
  ∃ p', on_engine (quiet (release_rx id)) (with_rx en p, w) = ((with_rx en p', w), Ok (E:=E) tt) ∧ rx_kept en (with_rx en p').
Proof.
  intros Hf Hi Hc Hv Hpin. destruct (release_acquired en p id s Hf Hi Hc Hv Hpin) as (p' & Hr & Hi' & Hc' & Hv'). exists p'.
  split; [|by split_and!]. unfold on_engine, zoom, quiet, st_ok, release_rx, on_rx, zoom, st_upd. unbind.
  cbn [fst snd]. change (rx_of (with_rx en p)) with p. by rewrite Hr.
Qed.

Lemma fill_rx_ok {E} en w p id n e bs :
  pool_view (rx_of en) !! id = Some None → pool_inv p → pool_cap p = pool_cap (rx_of en) →
  pool_view p = <[id := Some (set_view_payload [] fresh_view)]> (pool_view (rx_of en)) →
  (∃ p2, db_set_len p id n = Ok p2 ∧ pool_inv p2 ∧ pool_cap p2 = pool_cap (rx_of en) ∧
     pool_view p2 = <[id := Some (set_view_payload bs fresh_view)]> (pool_view (rx_of en))) →
  ∃ p', on_engine (st_result (fill_rx id n e)) (with_rx en p, w) = ((with_rx en p', w), Ok (E:=E) (inr tt)) ∧
    pool_inv p' ∧ pool_cap p' = pool_cap (rx_of en) ∧
    pool_view p' = <[id := Some (mkView bs (Some (Endpoint_physical e)) None false)]> (pool_view (rx_of en)).
Proof.
  intros Hf Hi Hc Hv (p2 & Hset & Hi2 & Hc2 & Hv2). pose proof (lookup_lt_Some _ _ _ Hf) as Hlt.
  destruct (set_endpoint_rewrites p2 id (set_view_payload bs fresh_view) (Endpoint_physical e) Hi2) as (p' & Hep & Hi' & Hc' & Hv').
  { by rewrite Hv2, slot_at_insert, decide_True. }
  exists p'. split_and!; [|done|congruence|by rewrite Hv', Hv2, list_insert_insert_eq].
  unfold on_engine, zoom, st_result, fill_rx, on_rx, zoom, set_len, st_upd. unbind. cbn [fst snd].
  change (rx_of (with_rx en p)) with p. rewrite Hset. change (rx_of (with_rx (with_rx en p) p2)) with p2. by rewrite Hep.
Qed.

Lemma fill_rx_refused {E} en w p id n e x :
  db_set_len p id n = Err x →
  on_engine (st_result (fill_rx id n e)) (with_rx en p, w) = ((with_rx en p, w), Ok (E:=E) (inl x)).
Proof.
  intros Hset. unfold on_engine, zoom, st_result, fill_rx, on_rx, zoom, set_len, st_upd. unbind. cbn [fst snd].
  change (rx_of (with_rx en p)) with p. by rewrite Hset.
Qed.

(** The engine with the counters [cs] raised. *)
Definition counted en (cs : list Counter) : Eng := mkEngine (en_storage en) (foldl Metrics_inc (en_metrics en) cs).

Lemma counted_rx en cs p : counted (with_rx en p) cs = with_rx (counted en cs) p.
Proof. done. Qed.

(** One slot of the incoming pool was free and holds a datagram now. *)
Definition rx_stored en en' id (bs : list Z) (e : Endpoint) : Prop :=
  pool_view (rx_of en) !! id = Some None ∧ pool_inv (rx_of en') ∧ same_rest en en' ∧
  pool_view (rx_of en') = <[id := Some (mkView bs (Some (Endpoint_physical e)) None false)]> (pool_view (rx_of en)).

Definition rx_full en : Prop := ∀ id, pool_view (rx_of en) !! id ≠ Some None.

(** Receiving, on every outcome.  A full pool is refused before the
    transport is read.  Otherwise the transport is given the whole buffer of a
    free slot: a datagram that fits is stored in that slot with its physical
    source and nothing else changes; an idle transport, a transport error and
    a reported length beyond the buffer leave every incoming slot as it was.
    Each outcome raises exactly its counters. *)
Theorem recv_from_outcomes `{!DatagramIo W ER} `{!DatagramIoLaws W ER} en w :
  pool_inv (rx_of en) →
  ∃ en' w' r, recv_from (ER:=ER) (en, w) = ((en', w'), r) ∧
  match r with
  | Err IoSaturated => rx_full en ∧ w' = w ∧ en' = counted en [hard_rx_exhausted; saturated]
  | _ =>
      ¬ rx_full en ∧
      ∃ buf buf' o, length buf = pool_cap (rx_of en) ∧ io_recv w buf = (w', (buf', o)) ∧
        en_metrics en' = en_metrics (counted en match r with Ok (Some _) => [rx_accepted] | Ok None => [] | _ => [rx_error] end) ∧
        match o with
        | inr (Some (n, e)) =>
            if (n <=? pool_cap (rx_of en))%nat then ∃ id, r = Ok (Some id) ∧ rx_stored en en' id (take n buf') e
            else r = Err (IoSlot LengthExceedsSlot) ∧ rx_kept en en'
        | inr None => r = Ok None ∧ rx_kept en en'
        | inl x => r = Err (Io x) ∧ rx_kept en en'
        end
  end.
Proof.
  intros Hi. unfold recv_from. unbind. unfold on_engine at 1, zoom at 1, acquire_rx. unbind. cbn [fst snd].
  unfold on_rx at 1, zoom at 1, st_run at 1.
  pose proof (lend_acquired en w (io_recv (ER:=ER)) io_recv_buf Hi) as Hl.
  destruct (sp_acquire (rx_of en)) as [[p [id|]]| | |]; try done; last first.
  { destruct Hl as [-> Hfull]. unfold inc. cbn [ok_or]. eexists _, _, _. split; [reflexivity|].
    split_and!; [done|done|]. by destruct en as [[] ?]. }
  destruct Hl as (Hf & buf & w' & buf' & o & p' & Hlen & Hcall & Hlend & (Hi' & Hc' & Hv') & Hn). cbn [ok_or]. unbind. rewrite Hlend.
  assert (¬ rx_full en) as Hfree by (intros Hfull; by apply (Hfull id)).
  destruct (quiet_release (E:=DatagramIoError ER) en w' p' id _ Hf Hi' Hc' Hv' eq_refl) as (p3 & Hrel & Hkept).
  assert (∀ x : DatagramIoError ER, ∃ en', rx_failed (A:=option SlotId) id x (with_rx en p', w') = ((en', w'), Err x) ∧
    en_metrics en' = en_metrics (counted en [rx_error]) ∧ rx_kept en en') as Hfail.
  { intros x. unfold rx_failed. unbind. rewrite Hrel. unfold on_engine, zoom, inc. eexists. by split. }
  destruct o as [x|[[n e]|]].
  - destruct (Hfail (Io x)) as (en' & Hx & Hmet & Hk). rewrite Hx. eexists _, _, _. split; [reflexivity|].
    split; [done|]. by exists buf, buf', (inl x).
  - specialize (Hn n). destruct (n <=? _)%nat eqn:En.
    + destruct (fill_rx_ok (E:=DatagramIoError ER) en w' p' id n e _ Hf Hi' Hc' Hv' Hn) as (p4 & Hfill & Hi4 & Hc4 & Hv4).
      rewrite Hfill. unfold on_engine, zoom, inc. eexists _, _, _. split; [reflexivity|]. split; [done|].
      exists buf, buf', (inr (Some (n, e))). split_and!; [done..|]. rewrite En. exists id. by split_and!.
    + rewrite (fill_rx_refused (E:=DatagramIoError ER) en w' p' id n e _ Hn).
      destruct (Hfail (IoSlot LengthExceedsSlot)) as (en' & Hx & Hmet & Hk). rewrite Hx. eexists _, _, _. split; [reflexivity|].
      split; [done|]. exists buf, buf', (inr (Some (n, e))). rewrite En. by split_and!.
  - rewrite Hrel. eexists _, _, _. split; [reflexivity|]. split; [done|]. by exists buf, buf', (inr None).
Qed.

(** The same for the awaitable receive; a future dropped while it waits gives
    its slot back. *)
Theorem recv_from_async_outcomes `{!AsyncDatagramIo W ER} `{!AsyncDatagramIoLaws W ER} en w :
  pool_inv (rx_of en) →
  ∃ en' w' r, recv_from_async (ER:=ER) (en, w) = ((en', w'), r) ∧
  match r with
  | Err IoSaturated => rx_full en ∧ w' = w ∧ en' = counted en [hard_rx_exhausted; saturated]
  | _ =>
      ¬ rx_full en ∧
      ∃ buf buf' o, length buf = pool_cap (rx_of en) ∧ aio_recv w buf = (w', (buf', o)) ∧
        en_metrics en' = en_metrics (counted en match r with Ok (Ready _) => [rx_accepted] | Ok Dropped => [] | _ => [rx_error] end) ∧
        match o with
        | Ready (inr (n, e)) =>
            if (n <=? pool_cap (rx_of en))%nat then ∃ id, r = Ok (Ready id) ∧ rx_stored en en' id (take n buf') e
            else r = Err (IoSlot LengthExceedsSlot) ∧ rx_kept en en'
        | Dropped => r = Ok Dropped ∧ rx_kept en en'
        | Ready (inl x) => r = Err (Io x) ∧ rx_kept en en'
        end
  end.
Proof.
  intros Hi. unfold recv_from_async. unbind. unfold on_engine at 1, zoom at 1, acquire_rx. unbind. cbn [fst snd].
  unfold on_rx at 1, zoom at 1, st_run at 1.
  pose proof (lend_acquired en w (aio_recv (ER:=ER)) aio_recv_buf Hi) as Hl.
  destruct (sp_acquire (rx_of en)) as [[p [id|]]| | |]; try done; last first.
  { destruct Hl as [-> Hfull]. unfold inc. cbn [ok_or]. eexists _, _, _. split; [reflexivity|].
    split_and!; [done|done|]. by destruct en as [[] ?]. }
  destruct Hl as (Hf & buf & w' & buf' & o & p' & Hlen & Hcall & Hlend & (Hi' & Hc' & Hv') & Hn). cbn [ok_or]. unbind. rewrite Hlend.
  assert (¬ rx_full en) as Hfree by (intros Hfull; by apply (Hfull id)).
  assert (∀ cs, ∃ p3, on_engine (quiet (release_rx id)) (counted (with_rx en p') cs, w') =
    ((with_rx (counted en cs) p3, w'), Ok (E:=DatagramIoError ER) tt) ∧ rx_kept (counted en cs) (with_rx (counted en cs) p3)) as Hrel.
  { intros cs. exact (quiet_release (counted en cs) w' p' id _ Hf Hi' Hc' Hv' eq_refl). }
  assert (∀ q : Eng, on_engine (inc (E:=DatagramIoError ER) rx_error) (q, w') = ((counted q [rx_error], w'), Ok tt)) as Hinc by done.
  destruct (Hrel [rx_error]) as (pe & Hrele & Hke). destruct (Hrel []) as (pq & Hrelq & Hkq).
  change (counted (with_rx en p') []) with (mkEngine (en_storage (with_rx en p')) (en_metrics (with_rx en p'))) in Hrelq.
  destruct o as [|[x|[n e]]].
  - assert (mkEngine (en_storage (with_rx en p')) (en_metrics (with_rx en p')) = with_rx en p') as Heta by done.
    rewrite Heta in Hrelq. rewrite Hrelq. eexists _, _, _. split; [reflexivity|]. split; [done|]. by exists buf, buf', Dropped.
  - rewrite Hinc, Hrele. eexists _, _, _. split; [reflexivity|]. split; [done|]. by exists buf, buf', (Ready (inl x)).
  - specialize (Hn n). destruct (n <=? _)%nat eqn:En.
    + destruct (fill_rx_ok (E:=DatagramIoError ER) en w' p' id n e _ Hf Hi' Hc' Hv' Hn) as (p4 & Hfill & Hi4 & Hc4 & Hv4).
      rewrite Hfill. unfold on_engine at 1, zoom at 1, inc at 1. eexists _, _, _. split; [reflexivity|]. split; [done|].
      exists buf, buf', (Ready (inr (n, e))). split_and!; [done..|]. rewrite En. exists id. by split_and!.
    + rewrite (fill_rx_refused (E:=DatagramIoError ER) en w' p' id n e _ Hn), Hinc, Hrele.
      eexists _, _, _. split; [reflexivity|].
      split; [done|]. exists buf, buf', (Ready (inr (n, e))). rewrite En. by split_and!.
Qed.

(** ** Sending *)
Definition send_counter (o : DatagramIoError ER + nat) : Counter := match o with inr _ => tx_ok | inl _ => tx_fail end.

(** What the send of a slot does, read off the outgoing pool. *)
Definition send_outcome {A} (view : option SlotView) (call : Endpoint → list Z → A) (fails : DatagramIoError ER → A) : A :=
  match view with
  | Some (mkView bytes (Some e) _ pinned) =>
      if pinned then fails (IoSlot Pinned) else call (Endpoint_physical e) bytes
  | _ => fails (IoSlot NotOccupied)
  end.

Lemma send_tx_spec `{!DatagramIo W ER} en w id :
  pool_inv (tx_of en) →
  send_tx (ER:=ER) id (en, w) =
    send_outcome (slot_at (pool_view (tx_of en)) id)
      (fun e bytes => let '(w', o) := io_send w e bytes in
         let o := complete_send bytes o in ((counted en [send_counter o], w'), returned o))
      (fun x => ((counted en [tx_fail], w), Err x)).
Proof.
  intros Hi. unfold send_tx, tx_endpoint, send_outcome. unbind. unfold on_engine at 1, zoom at 1. cbn [fst snd].
  rewrite law_endpoint by done. pose proof (law_access (tx_of en) id Hi) as Ha.
  destruct (slot_at (pool_view (tx_of en)) id) as [[bs [e|] m pin]|] eqn:Es; cbn [option_map mjoin option_join sv_endpoint]; try done.
  unfold on_engine at 1, zoom at 1, st_result, access_tx. cbn [fst snd sv_pinned] in *. destruct pin.
  - by rewrite Ha.
  - destruct Ha as (p & Ha & _). rewrite Ha. cbn [sv_payload]. destruct (io_send w (Endpoint_physical e) bs) as [w' o].
    unfold count_send, send_counter. unbind. by destruct (complete_send bs o).
Qed.

Lemma send_tx_async_spec `{!AsyncDatagramIo W ER} en w id :
  pool_inv (tx_of en) →
  send_tx_async (ER:=ER) id (en, w) =
    send_outcome (slot_at (pool_view (tx_of en)) id)
      (fun e bytes => match aio_send w e bytes with
         | (w', Dropped) => ((en, w'), Ok Dropped)
         | (w', Ready o) => let o := complete_send bytes o in
             ((counted en [send_counter o], w'), match returned o with Ok n => Ok (Ready n) | Err x => Err x | Panic => Panic | Diverge => Diverge end)
         end)
      (fun x => ((counted en [tx_fail], w), Err x)).
Proof.
  intros Hi. unfold send_tx_async, tx_endpoint, send_outcome. unbind. unfold on_engine at 1, zoom at 1. cbn [fst snd].
  rewrite law_endpoint by done. pose proof (law_access (tx_of en) id Hi) as Ha.
  destruct (slot_at (pool_view (tx_of en)) id) as [[bs [e|] m pin]|] eqn:Es; cbn [option_map mjoin option_join sv_endpoint]; try done.
  unfold on_engine at 1, zoom at 1, st_result, access_tx. cbn [fst snd sv_pinned] in *. destruct pin.
  - by rewrite Ha.
  - destruct Ha as (p & Ha & _). rewrite Ha. cbn [sv_payload]. destruct (aio_send w (Endpoint_physical e) bs) as [w' [|o]]; [done|].
    unfold count_send, send_counter. unbind. by destruct (complete_send bs o).
Qed.
End laws.

(** ** Witness: a loopback transport *)
Section witness.
#[local] Existing Instance target64.

(** Datagrams sent are received again. *)
Definition loopback : DatagramIo (list (Endpoint * list Z)) unit := {|
  io_recv w buf :=
    match w with
    | [] => (w, (buf, inr None))
    | (e, d) :: w' => if (length d <=? length buf)%nat then (w', (splice buf 0 d, inr (Some (length d, e)))) else (w, (buf, inl tt))
    end;
  io_send w e d := (w ++ [(e, d)], inr (length d))
|}.
#[local] Existing Instance loopback.

Definition ex_loop_engine : Engine (DatagramPool 2 8) AllocDatagramPool (AllocBodyPool Token) (AllocBodyPool Token) Token unit :=
  from_storage (mkMemory (DatagramPool_new 2 8) (mkTx (ex_slot_pool ex_request None) 0)
    (DedupTable_new 1) (SlotTable_new 1) (ExchangeTable_new 1) None).

Definition ex_inbox : list (Endpoint * list Z) := [(ex_peer_ep, [65; 1; 0; 7; 5])].

Lemma recv_from_outcomes_witness :
  ∃ en', recv_from (ER:=unit) (ex_loop_engine, ex_inbox) = ((en', []), Ok (Some 0%nat)) ∧
    rx_stored ex_loop_engine en' 0 [65; 1; 0; 7; 5] ex_peer_ep.
Proof.
  assert (pool_inv (rx_of ex_loop_engine)) as Hi by apply DatagramPool_new_inv.
  assert (DatagramIoLaws (list (Endpoint * list Z)) unit) as Hlaws.
  { split. intros w buf w' buf' r Hr. unfold io_recv, loopback in Hr. destruct w as [|[e d] w]; [by injection Hr as <- <- <-|].
    destruct (length d <=? length buf)%nat eqn:El; [|by injection Hr as <- <- <-]. injection Hr as <- <- <-.
    apply Nat.leb_le in El. by rewrite length_splice by lia. }
  destruct (recv_from_outcomes (ER:=unit) ex_loop_engine ex_inbox Hi) as (en' & w' & r & Hr & Hm).
  assert (r = Ok (Some 0%nat)) as -> by (transitivity (recv_from (ER:=unit) (ex_loop_engine, ex_inbox)).2; [by rewrite Hr|vm_compute; reflexivity]).
  destruct Hm as (_ & buf & buf' & o & Hlen & Hcall & _ & Hm). cbn in Hlen.
  do 8 (destruct buf as [|? buf]; [done|]). destruct buf; [|done]. cbn in Hcall. injection Hcall as <- <- <-.
  destruct Hm as (id & [= <-] & Hs). exists en'. split; [exact Hr|exact Hs].
Defined.
End witness.
