(* ===== verification/AppSend.v ===== *)
(** * Slot ownership across an initial send

    [src/app/send.rs]: [SendOwner] holds a TX slot, and the reservation of a
    confirmable message, from before the transport call until the outcome is
    known; its destructor gives back what it still holds.  The errors of the
    application layer are those of [src/app/mod.rs]. *)
From S2P Require Import Prelude Errors MsgTypes Options Encode Decode OptionValues MessageOptions Occupancy Pending.
From S2P Require Import DatagramPool PendingCons SlotTable Dedup Observe Block BodyPool Exchange Engine EngineExchange OscoreHeader.
From S2P Require Import AppIdentity DatagramBuffer Transport.

(** ** Errors *)
Inductive ResponseError : Type :=
  | PayloadTruncated | DeferredMetadataBounds | DeferredObserveFormat | EtagLength | LocationPathBounds
  | LocationQueryBounds | LocationDotSegment.

Inductive AppError (ER : Type) : Type :=
  | AeCommitAfterSend
  | AeIdentity (e : IdentityError)
  | AeDeferredUnknown
  | AeResponse (e : ResponseError)
  | AeDeadlineElapsed
  | AeBackoff (until_ms : Z)
  | AeIo (e : DatagramIoError ER)
  | AeSlot (e : SlotError)
  | AeMessage (e : SlotMessageError)
  | AeSaturated
  | AeBlock (e : BlockTransferError)
  | AePath
  | AeConditionalUploadUnsupported
  | AeNoResponseUploadUnsupported
  | AeNoResponseObserveUnsupported
  | AeObserveCancellationMismatch
  | AeObserveRefreshMismatch
  | AeObserveMethodUnsupported
  | AeObserveSupersessionUnsupported
  | AeObserveCancellationAmbiguous
  | AeObserveRequestTooLarge
  | AeFetchRequestTooLarge
  | AeFetchContentFormatRequired
  | AeRequestTagRequired
  | AeRequestTagInUse
  | AeOscore (e : OscoreError)
  | AeOscoreCheckpointRequired
  | AeOscoreCheckpointFailed.
Arguments AeCommitAfterSend {ER}.
Arguments AeIdentity {ER} _.
Arguments AeDeferredUnknown {ER}.
Arguments AeResponse {ER} _.
Arguments AeDeadlineElapsed {ER}.
Arguments AeBackoff {ER} _.
Arguments AeIo {ER} _.
Arguments AeSlot {ER} _.
Arguments AeMessage {ER} _.
Arguments AeSaturated {ER}.
Arguments AeBlock {ER} _.
Arguments AePath {ER}.

Definition AppError_from_io {ER} (e : DatagramIoError ER) : AppError ER :=
  match e with IoSaturated => AeSaturated | other => AeIo other end.
Definition AppError_from_slot {ER} (e : SlotError) : AppError ER := AeSlot e.
Definition AppError_from_message {ER} (e : SlotMessageError) : AppError ER :=
  match e with SMSlot slot => AeSlot slot | other => AeMessage other end.

Inductive AsyncSendError (ER C : Type) : Type :=
  | SendPrepare (e : AppError ER)
  | SendTransport (e : DatagramIoError ER)
  | SendClockAfterSend (c : C)
  | SendCommitAfterSend.
Arguments SendPrepare {ER C} _.
Arguments SendTransport {ER C} _.
Arguments SendClockAfterSend {ER C} _.
Arguments SendCommitAfterSend {ER C}.

(** ** The owner *)
Record SendOwner : Type := mkOwner { so_tx : SlotId; so_reserved : option PendingCon; so_release : bool }.

Section send.
Context {RX TX RB TB T Q W ER : Type} `{Target} `{OwnedToken T} `{EqDecision T}.
Context `{!SlotPool RX} `{!DatagramBytes RX} `{!SlotPool TX} `{!DatagramBytes TX} `{!BodyCells T RB} `{!BodyCells T TB}.
Abbreviation Eng := (Engine RX TX RB TB T Q).
Abbreviation sys := (Eng * W)%type.
Implicit Types (tx : SlotId) (dest : Endpoint).

(** [Drop for SendOwner]. *)
Definition drop_owner {E} (owner : SendOwner) : st sys E unit :=
  match so_reserved owner with
  | Some reserved => on_engine (engine_cancel_pending reserved);; mret tt
  | None => mret tt
  end;;
  if so_release owner then on_engine (quiet (release_tx (so_tx owner))) else mret tt.

Definition owner_prepare tx dest (mid : option MessageId) (expected : option PendingCon) : st sys (AppError ER) SendOwner :=
  '(en, _) ← st_get;
  current ← st_lift (engine_pending en tx);
  if match expected with
     | Some x => negb (eqb current (Some x)) || rto_started (pc_rto x) || negb (eqb (pc_endpoint x) dest)
                 || negb (eqb (Some (pc_message_id x)) mid)
     | None => is_some current
     end
  then st_fail AeSaturated
  else
    let owner := mkOwner tx expected true in
    set ← on_engine (st_result (set_tx_endpoint tx dest));
    match set with
    | inl e => drop_owner owner;; st_fail (AppError_from_slot e)
    | inr _ =>
        match mid, expected with
        | Some mid, None =>
            reserved ← on_engine (engine_reserve_pending tx dest mid);
            match reserved with
            | None => drop_owner owner;; st_fail AeSaturated
            | Some p => mret (mkOwner tx (Some p) true)
            end
        | _, _ => mret owner
        end
    end.

Definition owner_commit {E} (owner : SendOwner) (now_ms jitter_ms : Z) : st sys E (SendOwner * bool) :=
  match so_reserved owner with
  | None => mret (owner, true)
  | Some reserved =>
      started ← on_engine (engine_commit_pending reserved now_ms jitter_ms);
      match started with
      | None => mret (owner, false)
      | Some _ => mret (mkOwner (so_tx owner) None false, true)
      end
  end.

(** [send_tx(..)?; if !owner.commit(..) { return Err(Saturated) } Ok(())]. *)
Definition owner_send `{DatagramIo W ER} (owner : SendOwner) tx (now_ms jitter_ms : Z) : st sys (AppError ER) unit :=
  sent ← st_result (send_tx tx);
  match sent with
  | inl e => drop_owner owner;; st_fail (AppError_from_io e)
  | inr _ =>
      '(owner, committed) ← owner_commit owner now_ms jitter_ms;
      drop_owner owner;;
      if committed : bool then mret tt else st_fail AeSaturated
  end.

Definition finish `{DatagramIo W ER} tx dest (pending : option (Z * MessageId * Z)) : st sys (AppError ER) unit :=
  owner ← owner_prepare tx dest (option_map (fun '(_, mid, _) => mid) pending) None;
  let '(now_ms, jitter_ms) := match pending with Some (now, _, jitter) => (now, jitter) | None => (0, 0) end in
  owner_send owner tx now_ms jitter_ms.
Definition finish_send `{DatagramIo W ER} := finish.

Definition finish_prepared `{DatagramIo W ER} tx dest (pending : option (PendingCon * Z)) (now_ms : Z) : st sys (AppError ER) unit :=
  owner ← owner_prepare tx dest (option_map (fun '(p, _) => pc_message_id p) pending) (option_map fst pending);
  owner_send owner tx now_ms (match pending with Some (_, jitter) => jitter | None => 0 end).

(** The future owns the slot from its construction; [polled] is false when it
    is dropped before its first poll.  The clock is read after the transport
    has accepted the packet, for a confirmable message only. *)
Definition finish_async `{AsyncDatagramIo W ER} {C} (polled : bool) tx dest (pending : option (MessageId * Z))
    (expected : option PendingCon) (completed_at : C + Z) : st sys (AsyncSendError ER C) (Async unit) :=
  owner ← st_result (owner_prepare tx dest (option_map fst pending) expected);
  if negb polled then match owner with inr owner => drop_owner owner | inl _ => mret tt end;; mret Dropped
  else
    match owner with
    | inl e => st_fail (SendPrepare e)
    | inr owner =>
        sent ← st_result (send_tx_async tx);
        match sent with
        | inl e => drop_owner owner;; st_fail (SendTransport e)
        | inr Dropped => drop_owner owner;; mret Dropped
        | inr (Ready _) =>
            match pending with
            | None => drop_owner owner;; mret (Ready tt)
            | Some (_, jitter) =>
                match completed_at with
                | inl c => drop_owner owner;; st_fail (SendClockAfterSend c)
                | inr now_ms =>
                    '(owner, committed) ← owner_commit owner now_ms jitter;
                    drop_owner owner;;
                    if committed : bool then mret (Ready tt) else st_fail SendCommitAfterSend
                end
            end
        end
    end.
End send.

(** * No TX slot leaks

    Every outcome of an initial send: the slot is free again, or it keeps the
    exact bytes of a confirmable message under a running timer. *)
Section laws.
Context {RX TX RB TB T Q W ER : Type} `{Target} `{OwnedToken T} `{EqDecision T}.
Context `{!SlotPool RX} `{!DatagramBytes RX} `{!SlotPool TX} `{!DatagramBytes TX} `{!BodyCells T RB} `{!BodyCells T TB}.
Context `{!DatagramLaws RX} `{!DatagramLaws TX}.
Abbreviation Eng := (Engine RX TX RB TB T Q).
Abbreviation sys := (Eng * W)%type.
Implicit Types (en : Eng) (tx : SlotId) (dest : Endpoint) (w : W).

Definition txm en : TxMemory TX := me_tx (en_storage en).
Definition same_but_tx en en' : Prop :=
  rx_of en' = rx_of en ∧ me_dedup (en_storage en') = me_dedup (en_storage en) ∧ observe_of en' = observe_of en ∧
  exchange_of en' = exchange_of en ∧ me_bodies (en_storage en') = me_bodies (en_storage en).

(** [en'] is [en] with the contents of one TX slot replaced. *)
Definition tx_becomes en en' tx (s : option SlotView) : Prop :=
  changed (txm en) (txm en') tx s ∧ same_but_tx en en' ∧ (tx < length (mview (txm en)))%nat.

Lemma tx_becomes_trans en en1 en2 tx s1 s2 : tx_becomes en en1 tx s1 → tx_becomes en1 en2 tx s2 → tx_becomes en en2 tx s2.
Proof.
  intros ((Hi1 & Hc1 & Hv1) & (? & ? & ? & ? & ?) & Hl) ((Hi2 & Hc2 & Hv2) & (? & ? & ? & ? & ?) & _).
  unfold tx_becomes, changed, same_but_tx. split_and!; try congruence; try done. by rewrite Hv2, Hv1, list_insert_insert_eq.
Qed.
Lemma tx_becomes_slot en en' tx s : tx_becomes en en' tx s → slot_at (mview (txm en')) tx = s.
Proof. intros ((_ & _ & ->) & _ & Hl). by rewrite slot_at_insert, decide_True. Qed.
Lemma tx_becomes_counted en en' tx s cs : tx_becomes en en' tx s → tx_becomes en (counted en' cs) tx s.
Proof. done. Qed.
Lemma tx_becomes_id en tx s : pool_inv (tx_of en) → slot_at (mview (txm en)) tx = Some s → tx_becomes en en tx (Some s).
Proof.
  intros Hi Hs. split_and!; try done; [|by eapply slot_at_lt]. split_and!; [done|done|]. symmetry. apply list_insert_id.
  unfold slot_at in Hs. destruct (mview (txm en) !! tx) as [[]|]; by simplify_eq/=.
Qed.

(** ** The steps *)
Lemma endpoint_becomes {E} en w tx s dest :
  pool_inv (tx_of en) → slot_at (mview (txm en)) tx = Some s →
  ∃ en', on_engine (st_result (set_tx_endpoint tx dest)) (en, w) = ((en', w), Ok (E:=E) (inr tt)) ∧
    tx_becomes en en' tx (Some (set_view_endpoint dest s)).
Proof.
  intros Hi Hs. destruct (set_endpoint_rewrites (tx_of en) tx s dest Hi Hs) as (p & Hset & Hi' & Hc & Hv).
  exists (with_tx en p). unfold on_engine, zoom, st_result, set_tx_endpoint, on_tx, zoom. cbn [fst snd]. rewrite Hset.
  split; [done|]. split_and!; try done. by eapply slot_at_lt.
Qed.

Lemma release_becomes {E} en w tx s :
  pool_inv (tx_of en) → slot_at (mview (txm en)) tx = Some s → sv_pinned s = false →
  ∃ en', on_engine (quiet (release_tx tx)) (en, w) = ((en', w), Ok (E:=E) tt) ∧ tx_becomes en en' tx None.
Proof.
  intros Hi Hs Hpin. pose proof (law_release (tx_of en) tx Hi) as Hr. pose proof Hs as Hs'. unfold slot_at in Hs'.
  change (pool_view (tx_of en)) with (mview (txm en)) in Hr.
  destruct (mview (txm en) !! tx) as [[s0|]|]; simplify_eq/=. rewrite Hpin in Hr. destruct Hr as (p & Hr & Hi' & Hc & Hv).
  exists (with_tx en p). unfold on_engine, zoom, quiet, st_ok, release_tx, on_tx, zoom, st_upd. unbind. cbn [fst snd].
  rewrite Hr. split; [done|]. split_and!; try done. by eapply slot_at_lt.
Qed.

Lemma cancel_becomes {E} en w tx s dest mid :
  pool_inv (tx_of en) → slot_at (mview (txm en)) tx = Some s → sv_endpoint s = Some dest →
  sv_pending s = Some (mkMark mid PendingRto_reserved) →
  ∃ en', on_engine (engine_cancel_pending (mkPendingCon mid dest tx PendingRto_reserved)) (en, w) = ((en', w), Ok (E:=E) true) ∧
    tx_becomes en en' tx (Some (set_view_pending None s)).
Proof.
  intros Hi Hs He Hp. pose proof (cancel_case (E:=E) (txm en) (mkPendingCon mid dest tx PendingRto_reserved) Hi) as Hc.
  rewrite decide_True in Hc by (split; [done|]; unfold view_pending; cbn [pc_tx_slot]; by rewrite Hs, He, Hp).
  destruct Hc as (m' & s' & Hc & Hs' & Hch). cbn [pc_tx_slot] in *. simplify_eq. exists (with_tx_memory en m').
  unfold on_engine, zoom, engine_cancel_pending, on_tx_memory, zoom, st_run. cbn [fst snd]. change (me_tx (en_storage en)) with (txm en).
  rewrite Hc. split; [done|]. split_and!; try done. by eapply slot_at_lt.
Qed.

Lemma commit_becomes {E} en w tx s dest mid now j :
  pool_inv (tx_of en) → slot_at (mview (txm en)) tx = Some s → sv_endpoint s = Some dest →
  sv_pending s = Some (mkMark mid PendingRto_reserved) →
  ∃ en' q, on_engine (engine_commit_pending (mkPendingCon mid dest tx PendingRto_reserved) now j) (en, w) = ((en', w), Ok (E:=E) (Some q)) ∧
    tx_becomes en en' tx (Some (set_view_pending (Some (mkMark mid (PendingRto_new now j))) s)).
Proof.
  intros Hi Hs He Hp. pose proof (commit_case (E:=E) (txm en) (mkPendingCon mid dest tx PendingRto_reserved) now j Hi) as Hc.
  rewrite decide_True in Hc by (split; [done|]; unfold view_pending; cbn [pc_tx_slot]; by rewrite Hs, He, Hp).
  destruct Hc as (m' & s' & Hc & Hs' & Hch). cbn [pc_tx_slot pc_message_id] in *. simplify_eq. eexists (with_tx_memory en m'), _.
  unfold on_engine, zoom, engine_commit_pending, on_tx_memory, zoom, st_run. cbn [fst snd]. change (me_tx (en_storage en)) with (txm en).
  rewrite Hc. split; [done|]. split_and!; try done. by eapply slot_at_lt.
Qed.

(** A refused reservation changes counters only. *)
Lemma reserve_becomes {E} en w tx s dest mid :
  pool_inv (tx_of en) → nstart (mview (txm en)) → slot_at (mview (txm en)) tx = Some s → view_pending (mview (txm en)) tx = None →
  (∃ cs, on_engine (engine_reserve_pending tx dest mid) (en, w) = ((counted en cs, w), Ok (E:=E) None)) ∨
  ∃ en', on_engine (engine_reserve_pending tx dest mid) (en, w) =
      ((en', w), Ok (E:=E) (Some (mkPendingCon mid dest tx PendingRto_reserved))) ∧
    tx_becomes en en' tx (Some (with_pending s dest mid PendingRto_reserved)).
Proof.
  intros Hi Hn Hs Hnone. destruct (reserve_ok (E:=E) (txm en) tx dest mid Hi Hn) as (m' & r & Hr & _ & Hspec).
  unfold on_engine, zoom, engine_reserve_pending, on_tx_memory, zoom, st_run. unbind. cbn [fst snd]. change (me_tx (en_storage en)) with (txm en).
  rewrite Hr. destruct r as [q|].
  - right. destruct Hspec as (_ & _ & Hq & [->|(s' & Hs' & _ & -> & Hch & _)]); [congruence|]. simplify_eq.
    exists (with_tx_memory en m'). split; [done|]. split_and!; try done. by eapply slot_at_lt.
  - left. subst m'. unfold count_nstart. unbind.
    assert (with_tx_memory en (txm en) = en) as -> by (by destruct en as [[] ?]).
    pose proof (outstanding_ok (E:=E) (txm en) dest Hi) as Ho.
    change (outstanding_pending (sp_slot_count (tx_of en)) dest (engine_pending en)) with
      (outstanding_pending (E:=E) (sp_slot_count (tx_pool (txm en))) dest (pending_con (txm en))). rewrite Ho. unfold inc_if, inc.
    destruct (_ <=? _); [by exists [nstart_reject]|]. exists []. by destruct en as [[] ?].
Qed.

(** The destructor frees the slot. *)
Lemma drop_frees {E} en w tx s dest mid :
  pool_inv (tx_of en) → slot_at (mview (txm en)) tx = Some s → sv_pinned s = false →
  match mid with
  | None => True
  | Some mid => sv_endpoint s = Some dest ∧ sv_pending s = Some (mkMark mid PendingRto_reserved)
  end →
  ∃ en', drop_owner (mkOwner tx (option_map (fun mid => mkPendingCon mid dest tx PendingRto_reserved) mid) true) (en, w) =
      ((en', w), Ok (E:=E) tt) ∧ tx_becomes en en' tx None.
Proof.
  intros Hi Hs Hpin Hm. unfold drop_owner. cbn [so_reserved so_release so_tx]. destruct mid as [mid|]; cbn [option_map]; unbind.
  - destruct Hm as [He Hp]. destruct (cancel_becomes (E:=E) en w tx s dest mid Hi Hs He Hp) as (en1 & -> & H1).
    pose proof (tx_becomes_slot _ _ _ _ H1) as Hs1. pose proof H1 as ((Hi1 & _) & _).
    destruct (release_becomes (E:=E) en1 w tx _ Hi1 Hs1 Hpin) as (en2 & -> & H2). exists en2. split; [done|].
    by eapply tx_becomes_trans.
  - destruct (release_becomes (E:=E) en w tx s Hi Hs Hpin) as (en2 & -> & H2). by exists en2.
Qed.

(** ** The whole send *)

(** The slot between the preparation and the outcome. *)
Definition held_view (s : SlotView) dest (mid : option MessageId) : SlotView :=
  match mid with None => set_view_endpoint dest s | Some mid => with_pending s dest mid PendingRto_reserved end.
Definition held_owner tx dest (mid : option MessageId) : SendOwner :=
  mkOwner tx (option_map (fun mid => mkPendingCon mid dest tx PendingRto_reserved) mid) true.
(** The slot of a confirmable message that was sent. *)
Definition sent_view (s : SlotView) dest (pending : option (Z * MessageId * Z)) : option SlotView :=
  match pending with None => None | Some (now, mid, j) => Some (with_pending s dest mid (PendingRto_new now j)) end.

Lemma held_dropped {E} en0 en w tx s dest mid :
  sv_pinned s = false → sv_pending s = None → tx_becomes en0 en tx (Some (held_view s dest mid)) →
  ∃ en', drop_owner (held_owner tx dest mid) (en, w) = ((en', w), Ok (E:=E) tt) ∧ tx_becomes en0 en' tx None.
Proof.
  intros Hpin Hnone Hb. pose proof (tx_becomes_slot _ _ _ _ Hb) as Hs. pose proof Hb as ((Hi & _) & _).
  destruct (drop_frees (E:=E) en w tx (held_view s dest mid) dest mid Hi Hs) as (en' & Hd & Hb').
  - by destruct mid.
  - by destruct mid.
  - exists en'. split; [done|]. by eapply tx_becomes_trans.
Qed.

Lemma prepare_outcome en w tx s dest mid :
  pool_inv (tx_of en) → nstart (mview (txm en)) → slot_at (mview (txm en)) tx = Some s → sv_pinned s = false →
  sv_pending s = None →
  (∃ en', owner_prepare (ER:=ER) tx dest mid None (en, w) = ((en', w), Err AeSaturated) ∧ mid ≠ None ∧ tx_becomes en en' tx None) ∨
  ∃ en', owner_prepare (ER:=ER) tx dest mid None (en, w) = ((en', w), Ok (held_owner tx dest mid)) ∧
    tx_becomes en en' tx (Some (held_view s dest mid)).
Proof.
  intros Hi Hn Hs Hpin Hnone. unfold owner_prepare. unbind. unfold engine_pending. change (me_tx (en_storage en)) with (txm en).
  rewrite pending_con_ok by done.
  assert (view_pending (mview (txm en)) tx = None) as -> by (unfold view_pending; by rewrite Hs, Hnone). cbn [is_some].
  destruct (endpoint_becomes (E:=AppError ER) en w tx s dest Hi Hs) as (en1 & -> & H1).
  destruct mid as [mid|]; [|right; by exists en1].
  pose proof (tx_becomes_slot _ _ _ _ H1) as Hs1. pose proof H1 as ((Hi1 & _ & Hv1) & _ & Hlt).
  assert (view_pending (mview (txm en1)) tx = None) as Hnone1 by (unfold view_pending; rewrite Hs1; cbn; by rewrite Hnone).
  assert (nstart (mview (txm en1))) as Hn1.
  { rewrite Hv1. apply nstart_insert; [done..|]. intros q. cbn. by rewrite Hnone. }
  destruct (reserve_becomes (E:=AppError ER) en1 w tx _ dest mid Hi1 Hn1 Hs1 Hnone1) as [[cs ->]|(en2 & -> & H2)].
  - destruct (held_dropped (E:=AppError ER) en (counted en1 cs) w tx s dest None Hpin Hnone H1) as (en' & Hd & Hb).
    change (held_owner tx dest None) with (mkOwner tx None true) in Hd. rewrite Hd. left. by exists en'.
  - right. exists en2. split; [done|]. by eapply tx_becomes_trans.
Qed.

Lemma send_held `{!DatagramIo W ER} en0 en w tx s dest (pending : option (Z * MessageId * Z)) now j :
  sv_pinned s = false → sv_pending s = None → match pending with Some (now', _, j') => now' = now ∧ j' = j | None => True end →
  let mid := option_map (fun '(_, mid, _) => mid) pending in
  tx_becomes en0 en tx (Some (held_view s dest mid)) →
  ∃ en' w' o, io_send w (Endpoint_physical dest) (sv_payload s) = (w', o) ∧
    match complete_send (sv_payload s) o with
    | inl e => owner_send (ER:=ER) (held_owner tx dest mid) tx now j (en, w) = ((en', w'), Err (AppError_from_io e)) ∧
               tx_becomes en0 en' tx None
    | inr _ => owner_send (ER:=ER) (held_owner tx dest mid) tx now j (en, w) = ((en', w'), Ok tt) ∧
               tx_becomes en0 en' tx (sent_view s dest pending)
    end.
Proof.
  intros Hpin Hnone Hpend mid Hb. pose proof (tx_becomes_slot _ _ _ _ Hb) as Hs. pose proof Hb as ((Hi & _) & _).
  pose proof (send_tx_spec (ER:=ER) en w tx Hi) as Hsend. change (pool_view (tx_of en)) with (mview (txm en)) in Hsend.
  rewrite Hs in Hsend. assert (held_view s dest mid = mkView (sv_payload s) (Some dest) (sv_pending (held_view s dest mid)) false) as Heta
    by (by destruct s, mid; cbn in *; subst).
  rewrite Heta in Hsend. cbn [send_outcome] in Hsend. destruct (io_send w (Endpoint_physical dest) (sv_payload s)) as [w' o].
  unfold owner_send, st_result. unbind. rewrite Hsend. destruct (complete_send (sv_payload s) o) as [e|n] eqn:Ec; cbn [returned send_counter].
  - destruct (held_dropped (E:=AppError ER) en0 (counted en [tx_fail]) w' tx s dest mid Hpin Hnone Hb) as (en' & -> & Hb').
    exists en', w', o. by rewrite Ec.
  - destruct pending as [[[now' mid'] j']|]; unfold owner_commit; cbn [held_owner option_map so_reserved mid so_tx]; unbind.
    + destruct Hpend as [-> ->].
      destruct (commit_becomes (E:=AppError ER) (counted en [tx_ok]) w' tx _ dest mid' now j Hi Hs eq_refl eq_refl) as (en2 & q & -> & H2).
      unfold drop_owner. cbn [so_reserved so_release]. unbind. exists en2, w', o. rewrite Ec. split_and!; [done..|].
      by eapply (tx_becomes_trans _ (counted en [tx_ok])).
    + destruct (held_dropped (E:=AppError ER) en0 (counted en [tx_ok]) w' tx s dest None Hpin Hnone Hb) as (en' & Hd & Hb').
      change (mkOwner tx None true) with (held_owner tx dest None). rewrite Hd. exists en', w', o. by rewrite Ec.
Qed.

(** C24: a TX slot is never leaked by an initial send.  A slot that already
    carries a pending message is refused untouched.  Otherwise, if NSTART
    refuses the confirmable message the transport is not called and the slot
    is free again; if not, the transport is given exactly the bytes of the slot
    and its destination, once: on acceptance a confirmable message keeps the
    slot, with the same bytes and a timer started from the given clock, and a
    non-confirmable one frees it; on any failure it is free.  No other slot,
    table or body changes. *)
Theorem send_slot_fate `{!DatagramIo W ER} en w tx s dest pending :
  pool_inv (tx_of en) → nstart (mview (txm en)) → slot_at (mview (txm en)) tx = Some s → sv_pinned s = false →
  (sv_pending s ≠ None → sv_endpoint s ≠ None) →
  ∃ en' w' r, finish (ER:=ER) tx dest pending (en, w) = ((en', w'), r) ∧
  match sv_pending s with
  | Some _ => r = Err AeSaturated ∧ en' = en ∧ w' = w
  | None =>
      (r = Err AeSaturated ∧ w' = w ∧ pending ≠ None ∧ tx_becomes en en' tx None) ∨
      ∃ o, io_send w (Endpoint_physical dest) (sv_payload s) = (w', o) ∧
        match complete_send (sv_payload s) o with
        | inl e => r = Err (AppError_from_io e) ∧ tx_becomes en en' tx None
        | inr _ => r = Ok tt ∧ tx_becomes en en' tx (sent_view s dest pending)
        end
  end.
Proof.
  intros Hi Hn Hs Hpin Hmark. unfold finish. set (mid := option_map (fun '(_, mid, _) => mid) pending).
  destruct (sv_pending s) as [m|] eqn:Hp.
  - unfold owner_prepare, engine_pending. unbind. change (me_tx (en_storage en)) with (txm en). rewrite pending_con_ok by done.
    destruct (sv_endpoint s) as [e|] eqn:He; [|by destruct (Hmark ltac:(done))].
    assert (is_some (view_pending (mview (txm en)) tx) = true) as -> by (unfold view_pending; by rewrite Hs, Hp, He).
    by exists en, w, (Err AeSaturated).
  - destruct (prepare_outcome en w tx s dest mid Hi Hn Hs Hpin Hp) as [(en1 & Hr & Hmid & Hb)|(en1 & Hr & Hb)]; unbind; rewrite Hr.
    + exists en1, w, (Err AeSaturated). split; [done|]. left. split_and!; try done. by destruct pending.
    + destruct (match pending with Some (now, _, jitter) => (now, jitter) | None => (0, 0) end) as [now j] eqn:Ep.
      destruct (send_held en en1 w tx s dest pending now j Hpin Hp) as (en' & w' & o & Hio & Ho); [|done|].
      { destruct pending as [[[? ?] ?]|]; [|done]. by injection Ep as -> ->. }
      destruct (complete_send (sv_payload s) o) as [e|n] eqn:Ec; destruct Ho as [Hfin Hfate]; eexists en', w', _;
        (split; [exact Hfin|]); right; exists o; rewrite Ec; done.
Qed.

(** The awaitable send: dropping the future, before its first poll or while it
    waits, frees the slot, as does every failure, those after the packet was
    accepted included. *)
Theorem async_send_slot_fate `{!AsyncDatagramIo W ER} {C} polled en w tx s dest pending (completed_at : C + Z) :
  pool_inv (tx_of en) → nstart (mview (txm en)) → slot_at (mview (txm en)) tx = Some s → sv_pinned s = false →
  sv_pending s = None →
  ∃ en' w' r, finish_async (ER:=ER) polled tx dest pending None completed_at (en, w) = ((en', w'), r) ∧
  match r with
  | Ok (Ready _) =>
      polled = true ∧ aio_send w (Endpoint_physical dest) (sv_payload s) = (w', Ready (inr (length (sv_payload s)))) ∧
      match pending with
      | None => tx_becomes en en' tx None
      | Some (mid, j) => ∃ now, completed_at = inr now ∧ tx_becomes en en' tx (sent_view s dest (Some (now, mid, j)))
      end
  | Ok Dropped | Err _ => tx_becomes en en' tx None
  | _ => False
  end.
Proof.
  intros Hi Hn Hs Hpin Hnone. unfold finish_async, st_result. set (mid := option_map fst pending). unbind.
  destruct (prepare_outcome en w tx s dest mid Hi Hn Hs Hpin Hnone) as [(en1 & Hr & Hmid & Hb)|(en1 & Hr & Hb)]; rewrite Hr.
  { destruct polled; cbn [negb]; eexists _, _, _; (split; [reflexivity|done]). }
  assert (∀ E cs w, ∃ en', drop_owner (held_owner tx dest mid) (counted en1 cs, w) = ((en', w), Ok (E:=E) tt) ∧ tx_becomes en en' tx None) as Hdrop
    by (intros E cs w0; by apply (held_dropped (E:=E) en (counted en1 cs) w0 tx s dest mid)).
  assert (counted en1 [] = en1) as Hnil by (by destruct en1 as [[] ?]).
  destruct polled; cbn [negb]; last first.
  { destruct (Hdrop (AsyncSendError ER C) [] w) as (en' & Hd & Hb'). rewrite Hnil in Hd. rewrite Hd. eexists _, _, _. by split. }
  pose proof (tx_becomes_slot _ _ _ _ Hb) as Hs1. pose proof Hb as ((Hi1 & _) & _).
  pose proof (send_tx_async_spec (ER:=ER) en1 w tx Hi1) as Hsend. change (pool_view (tx_of en1)) with (mview (txm en1)) in Hsend.
  rewrite Hs1 in Hsend. assert (held_view s dest mid = mkView (sv_payload s) (Some dest) (sv_pending (held_view s dest mid)) false) as Heta
    by (by destruct s, mid; cbn in *; subst).
  rewrite Heta in Hsend. cbn [send_outcome] in Hsend. destruct (aio_send w (Endpoint_physical dest) (sv_payload s)) as [w' [|o]];
    rewrite Hsend.
  { destruct (Hdrop (AsyncSendError ER C) [] w') as (en' & Hd & Hb'). rewrite Hnil in Hd. rewrite Hd. eexists _, _, _. by split. }
  destruct (complete_send (sv_payload s) o) as [e|n] eqn:Ec; cbn [returned send_counter].
  { destruct (Hdrop (AsyncSendError ER C) [tx_fail] w') as (en' & Hd & Hb'). rewrite Hd. eexists _, _, _. by split. }
  assert (o = inr (length (sv_payload s))) as ->.
  { unfold complete_send in Ec. destruct o as [|k]; [done|]. destruct (k =? _)%nat eqn:Ek; [|done]. by apply Nat.eqb_eq in Ek as ->. }
  destruct (Hdrop (AsyncSendError ER C) [tx_ok] w') as (en' & Hd & Hb').
  destruct pending as [[mid' j]|]; [|rewrite Hd; eexists _, _, _; by split].
  destruct completed_at as [c|now]; [rewrite Hd; eexists _, _, _; by split|].
  unfold owner_commit. cbn [held_owner option_map so_reserved mid so_tx fst]. unbind.
  destruct (commit_becomes (E:=AsyncSendError ER C) (counted en1 [tx_ok]) w' tx _ dest mid' now j Hi1 Hs1 eq_refl eq_refl) as (en2 & q & Hcom & H2).
  rewrite Hcom. unfold drop_owner. cbn [so_reserved so_release]. unbind. eexists _, _, _. split; [reflexivity|]. split_and!; [done..|].
  exists now. split; [done|]. by eapply (tx_becomes_trans _ (counted en1 [tx_ok])).
Qed.
End laws.

(** ** Witness: a confirmable message over a loopback transport *)
Section witness.
#[local] Existing Instance target64.
#[local] Existing Instance loopback.

Definition ex_send_slot : SlotView := mkView ex_request None None false.

Lemma send_slot_fate_witness :
  ∃ en', finish 0 ex_peer_ep (Some (1000, 7, 5)) (ex_engine, []) = ((en', [(ex_peer_ep, ex_request)]), Ok tt) ∧
    tx_becomes ex_engine en' 0 (Some (mkView ex_request (Some ex_peer_ep) (Some (mkMark 7 (PendingRto_new 1000 5))) false)).
Proof.
  destruct (send_slot_fate (ER:=unit) ex_engine [] 0 ex_send_slot ex_peer_ep (Some (1000, 7, 5))) as (en' & w' & r & Hf & Hm).
  - apply ex_engine_inv.
  - intros i j qi qj Hi Hj _. destruct i as [|i]; [|by destruct i]. destruct j as [|j]; [done|by destruct j].
  - reflexivity.
  - reflexivity.
  - done.
  - cbn [ex_send_slot sv_pending] in Hm. destruct Hm as [(-> & _)|(o & Hio & Hm)].
    + assert ((finish (ER:=unit) 0 ex_peer_ep (Some (1000, 7, 5)) (ex_engine, [])).2 = Ok tt) as Hok by (vm_compute; reflexivity).
      rewrite Hf in Hok. discriminate Hok.
    + cbn in Hio. injection Hio as <- <-. destruct Hm as [-> Hb]. exists en'. split; [exact Hf|exact Hb].
Defined.
End witness.
