(* ===== verification/AppReplay.v ===== *)
(** * Answering a duplicate request

    [src/app/mod.rs], from [Replay] to [evict_oldest_app_dedup], with the empty
    messages, and the packet headroom of [src/app/admission.rs].  A confirmable
    request is looked up in the duplicate history before it is dispatched; its
    answer is recorded there.  [dedup_closed] remembers the one request whose
    answer could not be recorded. *)
From S2P Require Import Prelude Errors MsgTypes Options Encode Decode OptionValues MessageOptions Occupancy Pending.
From S2P Require Import DatagramPool PendingCons SlotTable Dedup Observe Block BodyPool Exchange Engine EngineExchange OscoreHeader.
From S2P Require Import AppIdentity DatagramBuffer Transport AppSend.

Inductive Replay (ER : Type) : Type := Hit (r : AppError ER + unit) | Miss.
Arguments Hit {ER} _.
Arguments Miss {ER}.
Inductive KeepTx : Type := KeepYes | KeepNo.
Record DedupClosed : Type := mkClosed { dc_key : DedupKey; dc_due_ms : Z }.

Definition request_may_rerun_on_duplicate (code : Code) : bool :=
  (code =? Code_GET) || (code =? Code_PUT) || (code =? Code_DELETE) || (code =? Code_IPATCH).
Definition dedup_due_ms (now_ms : Z) : Z := saturating_add 64 now_ms EXCHANGE_LIFETIME_MS.
Definition RX_HEADROOM : nat := 1.
Definition TX_HEADROOM : nat := 1.

Section replay.
Context {RX TX RB TB T Q W ER : Type} `{Target} `{OwnedToken T} `{EqDecision T}.
Context `{!SlotPool RX} `{!DatagramBytes RX} `{!SlotPool TX} `{!DatagramBytes TX} `{!BodyCells T RB} `{!BodyCells T TB}.
(** Whether the storage implements [try_store_app_dedup]; the built-in ones do. *)
Context (combined : bool).
Abbreviation Eng := (Engine RX TX RB TB T Q).
Abbreviation sys := (Eng * W)%type.
Abbreviation full := (sys * option DedupClosed)%type.
Implicit Types (tx : SlotId) (dest peer : Endpoint).

Definition on_sys {E A} : st sys E A → st full E A := zoom fst (fun s x => (x, s.2)).
Definition on_en {E A} (m : st Eng E A) : st full E A := on_sys (on_engine m).
Definition get_closed {E} : st full E (option DedupClosed) := fun s => (s, Ok s.2).
Definition set_closed {E} (c : option DedupClosed) : st full E unit := fun s => ((s.1, c), Ok tt).
Definition dedup_of (en : Eng) : DedupTable := me_dedup (en_storage en).

(** ** Rows *)
Definition dedup_entry {E} (id : SlotId) : st Eng E (option DedupEntry) :=
  st_gets (fun en => DedupTable_entry_ref (dedup_of en) id).
Definition release_pin {E} (entry : DedupEntry) : st Eng E unit :=
  match de_tx_pin entry with Some pin => quiet (release_tx pin) | None => mret tt end.
Definition release_dedup_row {E} (entry : DedupEntry) : st Eng E unit :=
  release_pin entry;;
  remove_dedup (de_key entry);;
  mret tt.
Definition release_existing_dedup {E} (key : DedupKey) : st Eng E unit :=
  id ← lookup_dedup key;
  match id with
  | None => mret tt
  | Some id =>
      old ← dedup_entry id;
      match old with
      | Some old => release_dedup_row old
      | None => remove_dedup key;; mret tt
      end
  end.

(** [best] over the rows that [keep] admits: the first with the earliest
    deadline. *)
Fixpoint best_row (t : DedupTable) (keep : DedupEntry → bool) (ids : list SlotId) (best : option DedupEntry) : option DedupEntry :=
  match ids with
  | [] => best
  | id :: ids =>
      best_row t keep ids
        match DedupTable_entry_ref t id with
        | None => best
        | Some entry =>
            if negb (keep entry) then best
            else
              match best with
              | Some cur => if de_due_ms cur <=? de_due_ms entry then best else Some entry
              | None => Some entry
              end
        end
  end.
Definition all_rows (t : DedupTable) : list SlotId := seq 0 (length (tb_entries t)).

Definition evict_oldest_app_dedup {E} : st Eng E bool :=
  en ← st_get;
  match best_row (dedup_of en) (fun e => negb (de_due_ms e =? 0)) (all_rows (dedup_of en)) None with
  | None => mret false
  | Some entry => release_dedup_row entry;; mret true
  end.

(** [encode(&Message::empty_ack(mid), &mut [0; 16])]; the encoded bytes. *)
Definition encode_empty_ack {E} (mid : MessageId) : res E (option (list Z)) :=
  match encode (Message_empty_ack mid) (replicate 16 0) with
  | (buf, Ok n) => bytes ← slice_idx buf 0 n; mret (Some bytes)
  | (_, Err _) => mret None
  | (_, Panic) => Panic
  | (_, Diverge) => Diverge
  end.

Definition evict_one_dedup_pin {E} : st Eng E bool :=
  en ← st_get;
  match best_row (dedup_of en) (fun e => is_some (de_tx_pin e) && negb (de_due_ms e =? 0)) (all_rows (dedup_of en)) None with
  | None => mret false
  | Some entry =>
      release_pin entry;;
      remove_dedup (de_key entry);;
      ack ← st_lift (encode_empty_ack (dk_message_id (de_key entry)));
      match ack with
      | Some bytes =>
          row ← st_lift (with_replay (with_due_ms (DedupEntry_new (dk_message_id (de_key entry)) (dk_endpoint (de_key entry)))
                  (de_due_ms entry)) bytes);
          insert_dedup row;;
          mret tt
      | None => mret tt
      end;;
      mret true
  end.

(** The loop of [expire_request_dedup].  The fixed storage keeps the default
    hooks: [try_expire_dedup] is false and [dedup_expiry_check] is [Scan], so
    [refresh] is false. *)
Fixpoint expire_rows {E} (now_ms : Z) (ids : list SlotId) : st Eng E unit :=
  match ids with
  | [] => mret tt
  | id :: ids =>
      entry ← dedup_entry id;
      match entry with
      | Some entry => if negb (de_due_ms entry =? 0) && (de_due_ms entry <=? now_ms) then release_dedup_row entry else mret tt
      | None => mret tt
      end;;
      expire_rows now_ms ids
  end.
Definition expire_request_dedup {E} (now_ms : Z) : st full E unit :=
  closed ← get_closed;
  match closed with
  | Some c => if negb (dc_due_ms c =? 0) && (dc_due_ms c <=? now_ms) then set_closed None else mret tt
  | None => mret tt
  end;;
  on_en (
    en ← st_get;
    if (oc_count (tb_occ (dedup_of en)) =? 0)%nat then mret tt else expire_rows now_ms (all_rows (dedup_of en))).

(** ** Recording an answer *)

Fixpoint release_pins {E} (pins : list SlotId) : st Eng E unit :=
  match pins with [] => mret tt | pin :: pins => quiet (release_tx pin);; release_pins pins end.
(** [try_store_app_dedup] of [Memory]: the rows it drops give back their pins. *)
Definition storage_store {E} (entry : DedupEntry) : st Eng E bool :=
  '(pins, stored) ← on_dedup (st_run (fun t => '(t, pins, b) ← try_store_app t entry; mret (t, (pins, b))));
  release_pins pins;;
  mret stored.
Definition store_request_dedup {E} (entry : DedupEntry) : st Eng E bool :=
  usable ← st_lift (has_usable_replay entry);
  if negb usable then mret false
  else if combined then storage_store entry
  else
    release_existing_dedup (de_key entry);;
    id ← insert_dedup entry;
    if is_some id then mret true
    else
      evicted ← evict_oldest_app_dedup;
      if negb evicted then mret false else id ← insert_dedup entry; mret (is_some id).

Definition closes (c : option DedupClosed) (key : DedupKey) : bool :=
  match c with Some c => eqb (dc_key c) key | None => false end.
Definition note_dedup_store {E} (entry : DedupEntry) (request : Code) : st full E bool :=
  stored ← on_en (store_request_dedup entry);
  closed ← get_closed;
  if stored : bool then
    (if closes closed (de_key entry) then set_closed None else mret tt);;
    mret true
  else
    (if negb (request_may_rerun_on_duplicate request) && negb (closes closed (de_key entry))
     then set_closed (Some (mkClosed (de_key entry) (de_due_ms entry))) else mret tt);;
    mret false.

Definition remember_empty_ack {E} dest (mid : MessageId) (now_ms : Z) (request : Code) : st full E unit :=
  ack ← st_lift (encode_empty_ack mid);
  match ack with
  | None =>
      closed ← get_closed;
      if negb (request_may_rerun_on_duplicate request) && negb (closes closed (mkDedupKey mid dest))
      then set_closed (Some (mkClosed (mkDedupKey mid dest) (dedup_due_ms now_ms))) else mret tt
  | Some bytes =>
      entry ← st_lift (with_replay (with_due_ms (DedupEntry_new mid dest) (dedup_due_ms now_ms)) bytes);
      note_dedup_store entry request;;
      mret tt
  end.

Definition remember_tx_reply {E} tx dest (mid : MessageId) (request_ty : MType) (now_ms : Z) (request : Code) : st full E KeepTx :=
  if negb (eqb request_ty Confirmable) then mret KeepNo
  else
    let entry := with_due_ms (DedupEntry_new mid dest) (dedup_due_ms now_ms) in
    access ← on_en (st_result (access_tx tx));
    match access with
    | inl _ => remember_empty_ack dest mid now_ms request;; mret KeepNo
    | inr slice =>
        let inline := (length slice <=? REPLAY_MAX)%nat in
        entry ← if inline then st_lift (with_replay entry slice) else mret (with_tx_pin entry tx);
        stored ← note_dedup_store entry request;
        mret (if stored && negb inline then KeepYes else KeepNo)
    end.

(** ** Packets that are sent and released *)
Definition free_tx {E} : st Eng E nat := st_gets (fun en => (sp_slot_count (tx_of en) - sp_occupied_count (tx_of en))%nat).
Definition free_rx {E} : st Eng E nat := st_gets (fun en => (sp_slot_count (rx_of en) - sp_occupied_count (rx_of en))%nat).
Definition ordinary_tx {E} : st Eng E (option SlotId) :=
  free ← free_tx;
  if (free <=? TX_HEADROOM)%nat then inc admission_tx_refused;; mret None else acquire_tx.
Definition control_tx {E} : st Eng E (option SlotId) := acquire_tx.
(** [for _ in 0..=TX_HEADROOM], leaving when there is room or nothing to evict. *)
Fixpoint reclaim_tx {E} (rounds : nat) : st Eng E unit :=
  match rounds with
  | O => mret tt
  | S rounds =>
      free ← free_tx;
      if (TX_HEADROOM <? free)%nat then mret tt
      else evicted ← evict_one_dedup_pin; if negb evicted then mret tt else reclaim_tx rounds
  end.
Definition acquire_tx_or_evict {E} : st Eng E (option SlotId) := reclaim_tx (S TX_HEADROOM);; ordinary_tx.
Definition refuse_dispatch {E} : st Eng E bool :=
  rx ← free_rx;
  if (rx <? RX_HEADROOM)%nat then inc admission_rx_refused;; mret true
  else
    tx ← free_tx;
    if (TX_HEADROOM <? tx)%nat then mret false
    else
      reclaim_tx (S TX_HEADROOM);;
      tx ← free_tx;
      if (tx <=? TX_HEADROOM)%nat then inc admission_tx_refused;; mret true else mret false.

(** [let _ = release_tx(tx); return Err(e)]. *)
Definition tx_failed {A} tx (e : AppError ER) : st sys (AppError ER) A := on_engine (quiet (release_tx tx));; st_fail e.

Section io.
Context `{!DatagramIo W ER}.

(** [let send = send_tx(io, tx); let _ = release_tx(tx); send?]. *)
Definition send_and_release tx : st sys (AppError ER) unit :=
  send ← st_result (send_tx tx);
  on_engine (quiet (release_tx tx));;
  match send with inl e => st_fail (AppError_from_io e) | inr _ => mret tt end.

Definition send_replay_bytes dest (bytes : list Z) : st sys (AppError ER) unit :=
  tx ← on_engine control_tx;
  match tx with
  | None => st_fail AeSaturated
  | Some tx =>
      r ← on_engine (st_result (write_tx tx bytes dest));
      match r with
      | inl e => tx_failed tx (AeSlot e)
      | inr _ => send_and_release tx
      end
  end.

Definition send_empty {U} `{OwnedToken U} dest (msg : Message U) : st sys (AppError ER) unit :=
  tx ← on_engine control_tx;
  match tx with
  | None => st_fail AeSaturated
  | Some tx =>
      r ← on_engine (st_result (encode_tx tx msg));
      match r with
      | inl e => tx_failed tx (AeMessage e)
      | inr _ =>
          r ← on_engine (st_result (set_tx_endpoint tx dest));
          match r with
          | inl e => tx_failed tx (AeSlot e)
          | inr _ => send_and_release tx
          end
      end
  end.
Definition send_empty_ack dest (mid : MessageId) : st sys (AppError ER) unit := send_empty dest (Message_empty_ack mid).
Definition send_empty_rst dest (mid : MessageId) : st sys (AppError ER) unit := send_empty dest (Message_empty_rst mid).

Definition send_pinned_tx tx dest : st sys (AppError ER) unit :=
  r ← on_engine (st_result (set_tx_endpoint tx dest));
  match r with
  | inl e => tx_failed tx (AeSlot e)
  | inr _ => st_map_err AppError_from_io (send_tx tx);; mret tt
  end.

(** ** The lookup before dispatch *)
Definition hit {E} (m : st sys (AppError ER) unit) : st full E (Replay ER) := r ← on_sys (st_result m); mret (Hit r).

Definition replay_closed {E} peer (parsed : ParsedMessage T) (now_ms : Z) : st full E (Replay ER) :=
  let key := mkDedupKey (pm_message_id parsed) peer in
  closed ← get_closed;
  if request_may_rerun_on_duplicate (pm_code parsed) then mret Miss
  else
    match closed with
    | None => mret Miss
    | Some c =>
        if negb (eqb (dc_key c) key) then mret Miss
        else if negb (dc_due_ms c =? 0) && (dc_due_ms c <=? now_ms) then set_closed None;; mret Miss
        else
          remember_empty_ack peer (pm_message_id parsed) now_ms (pm_code parsed);;
          hit (send_empty_ack peer (pm_message_id parsed))
    end.

Definition replay_con_request {E} peer (parsed : ParsedMessage T) (now_ms : Z) : st full E (Replay ER) :=
  let key := mkDedupKey (pm_message_id parsed) peer in
  id ← on_en (lookup_dedup key);
  match id with
  | None => replay_closed peer parsed now_ms
  | Some id =>
      entry ← on_en (dedup_entry id);
      match entry with
      | None => replay_closed peer parsed now_ms
      | Some entry =>
          if negb (de_due_ms entry =? 0) && (de_due_ms entry <=? now_ms)
          then on_en (release_dedup_row entry);; replay_closed peer parsed now_ms
          else
            replay ← st_lift (DedupEntry_replay entry);
            match replay with
            | Some bytes => hit (send_replay_bytes peer bytes)
            | None =>
                match de_tx_pin entry with
                | Some tx => hit (st_map_err AppError_from_io (send_tx tx);; mret tt)
                | None =>
                    if request_may_rerun_on_duplicate (pm_code parsed) then mret Miss
                    else
                      remember_empty_ack peer (pm_message_id parsed) now_ms (pm_code parsed);;
                      hit (send_empty_ack peer (pm_message_id parsed))
                end
            end
      end
  end.
End io.
End replay.
