(* ===== verification/AppReplayLaws.v ===== *)
(** * A request that must not run twice does not

    POST, PATCH and FETCH requests are never handed to the application a second
    time while their answer is remembered; storing other answers, evicting
    pinned ones and expiring old ones keep it remembered. *)
From S2P Require Import Prelude Errors MsgTypes Options Encode Decode OptionValues MessageOptions Occupancy Pending.
From S2P Require Import DatagramPool PendingCons SlotTable Dedup Observe Block BodyPool Exchange Engine EngineExchange OscoreHeader.
From S2P Require Import Codec AppIdentity DatagramBuffer Transport AppSend AppReplay.

Section laws.
Context {RX TX RB TB T Q W ER : Type} `{Target} `{OwnedToken T} `{EqDecision T}.
Context `{!SlotPool RX} `{!DatagramBytes RX} `{!SlotPool TX} `{!DatagramBytes TX} `{!BodyCells T RB} `{!BodyCells T TB}.
Context `{!DatagramLaws RX} `{!DatagramLaws TX} `{!BufferLaws TX}.
Abbreviation Eng := (Engine RX TX RB TB T Q).
Abbreviation sys := (Eng * W)%type.
Abbreviation full := (sys * option DedupClosed)%type.
Implicit Types (en : Eng) (tx : SlotId) (dest : Endpoint) (w : W) (k : DedupKey).

(** ** TX slots come and go without touching the history *)
Definition tx_touch en en' : Prop :=
  pool_inv (tx_of en') ∧ pool_cap (tx_of en') = pool_cap (tx_of en) ∧ dedup_of en' = dedup_of en.

Lemma tx_touch_trans en en1 en2 : tx_touch en en1 → tx_touch en1 en2 → tx_touch en en2.
Proof. intros (? & ? & ?) (? & ? & ?). split_and!; congruence. Qed.

Lemma quiet_release_tx {E} en pin :
  pool_inv (tx_of en) → ∃ en', quiet (release_tx pin) en = (en', Ok (E:=E) tt) ∧ tx_touch en en'.
Proof.
  intros Hi. unfold quiet, st_ok, release_tx, on_tx, zoom, st_upd. unbind. pose proof (law_release (tx_of en) pin Hi) as Hr.
  assert (with_tx en (tx_of en) = en) as Hid by (by destruct en as [[? [] ? ? ? ?] ?]).
  destruct (pool_view (tx_of en) !! pin) as [[s|]|]; [destruct (sv_pinned s)|..].
  - rewrite Hr, Hid. by exists en.
  - destruct Hr as (p & -> & Hp & Hc & _). by exists (with_tx en p).
  - rewrite Hr, Hid. by exists en.
  - rewrite Hr, Hid. by exists en.
Qed.
Lemma on_release {E} en w pin :
  pool_inv (tx_of en) → ∃ en', on_engine (quiet (release_tx pin)) (en, w) = ((en', w), Ok (E:=E) tt) ∧ tx_touch en en'.
Proof. intros Hi. destruct (quiet_release_tx (E:=E) en pin Hi) as (en' & Hr & Ht). exists en'. unfold on_engine, zoom. cbn [fst snd]. by rewrite Hr. Qed.

Lemma acquire_touch {E} en :
  pool_inv (tx_of en) → ∃ en' r, acquire_tx en = (en', Ok (E:=E) r) ∧ tx_touch en en' ∧
    match r with Some id => slot_at (pool_view (tx_of en')) id = Some fresh_view | None => True end.
Proof.
  intros Hi. unfold acquire_tx, on_tx, zoom, st_run. unbind. pose proof (law_acquire (tx_of en) (E:=E) Hi) as Ha.
  destruct (sp_acquire (tx_of en)) as [[p [id|]]| | |]; try done.
  - destruct Ha as (Hp & Hc & Hf & Hv). exists (with_tx en p), (Some id). split; [done|]. split; [done|].
    change (pool_view (tx_of (with_tx en p))) with (pool_view p). rewrite Hv, slot_at_insert by (by eapply lookup_lt_Some).
    by rewrite decide_True.
  - destruct Ha as [-> _]. eexists _, None. split; [done|]. by split_and!.
Qed.

(** Writing and encoding into an acquired slot end, and leave it occupied. *)
Lemma write_touch {E} en w tx s bytes dest :
  pool_inv (tx_of en) → slot_at (pool_view (tx_of en)) tx = Some s →
  ∃ en' r, on_engine (st_result (write_tx tx bytes dest)) (en, w) = ((en', w), Ok (E:=E) r) ∧ tx_touch en en'.
Proof.
  intros Hi Hs. unfold on_engine, zoom, st_result, write_tx, on_tx, zoom. unbind. cbn [fst snd].
  destruct (decide (length bytes ≤ pool_cap (tx_of en))%nat) as [Hle|Hgt].
  - destruct (copy_rewrites (tx_of en) tx s bytes Hi Hs Hle) as (p1 & p2 & Hc & Hl & Hr2). rewrite Hc.
    change (tx_of (with_tx en p1)) with p1. rewrite Hl. pose proof (rewrites_slot _ _ _ _ _ Hs Hr2) as Hs2.
    destruct Hr2 as (Hi2 & Hc2 & _). destruct (set_endpoint_rewrites p2 tx _ dest Hi2 Hs2) as (p3 & He & Hi3 & Hc3 & _).
    change (tx_of (with_tx (with_tx en p1) p2)) with p2. rewrite He. eexists _, _. split; [done|].
    split_and!; [done| |done]. change (pool_cap p3 = pool_cap (tx_of en)). congruence.
  - pose proof (law_buffer (tx_of en) tx (E:=SlotError) Hi) as Hb. rewrite Hs in Hb. destruct Hb as (buf & store & Hm & Hl & Hw).
    unfold copy_into_slot, in_slot. rewrite Hm, (proj2 (Nat.ltb_lt _ _)) by lia. eexists _, _. split; [done|].
    destruct (Hw buf Hl) as [(? & ? & _) _]. by split_and!.
Qed.

Lemma encode_empty_wire (ty : MType) mid (buf : list Z) :
  in_u 16 mid → slice_fits buf →
  let '(buf', r) := encode (Message_new ty Code_EMPTY mid) buf in
  length buf' = length buf ∧
  match r with
  | Ok n => n = 4%nat ∧ (4 ≤ length buf)%nat ∧ buf' = splice buf 0 [64 + 16 * Type_to_bits ty; 0; mid / 256; mid mod 256]
  | Err _ => (length buf < 4)%nat
  | _ => False
  end.
Proof.
  intros Hmid Hfit. pose proof (encode_token_iter_outcome ty Code_EMPTY mid [] [] [] buf Hmid (Forall_nil_2 _) ltac:(unfold slice_fits; simpl; pose proof usize_max_ge; lia) Hfit) as Ho.
  assert (encode (Message_new ty Code_EMPTY mid) buf = encode_token_iter ty Code_EMPTY mid [] [] [] buf) as -> by reflexivity.
  destruct (encode_token_iter _ _ _ _ _ _ _) as [buf' [n|e| |]]; destruct Ho as [Hl Ho]; (split; [done|]); try done.
  - destruct Ho as (_ & -> & Hn & ->). assert (msg_wire ty Code_EMPTY mid [] [] [] = [64 + 16 * Type_to_bits ty; 0; mid / 256; mid mod 256]) as Hw.
    { by destruct ty. }
    rewrite Hw in *. by split_and!.
  - assert (length (msg_wire ty Code_EMPTY mid [] [] []) = 4%nat) as Hlen by reflexivity.
    destruct e; first [done|lia|by inversion Ho|by destruct Ho as [? _]|by destruct (Ho I)|destruct Ho as (_ & Hx & _); by destruct Hx].
Qed.

(** A slot buffer is a slice in memory. *)
Definition cap_fits en : Prop := 2 * Z.of_nat (pool_cap (tx_of en)) ≤ usize_max.

Lemma encode_empty_touch {E} en w tx s ty mid :
  pool_inv (tx_of en) → cap_fits en → in_u 16 mid → slot_at (pool_view (tx_of en)) tx = Some s →
  ∃ en' r s', on_engine (st_result (encode_tx tx (Message_new ty Code_EMPTY mid))) (en, w) = ((en', w), Ok (E:=E) r) ∧
    tx_touch en en' ∧ slot_at (pool_view (tx_of en')) tx = Some s'.
Proof.
  intros Hi Hfit Hmid Hs. unfold on_engine, zoom, st_result, encode_tx, on_tx, zoom, encode_occupied, in_slot, st_map_err. unbind. cbn [fst snd].
  pose proof (law_buffer (tx_of en) tx (E:=SlotMessageError) Hi) as Hb. rewrite Hs in Hb. destruct Hb as (buf & store & Hm & Hl & Hw).
  rewrite Hm. pose proof (encode_empty_wire ty mid buf Hmid ltac:(unfold slice_fits; rewrite Hl; exact Hfit)) as Henc.
  destruct (encode (Message_new ty Code_EMPTY mid) buf) as [buf' r]. destruct Henc as [Hl' Henc].
  destruct (Hw buf' ltac:(congruence)) as [Hrw Hn]. destruct r as [n|e| |]; try done; cbn [map_err].
  - destruct Henc as (-> & H4 & ->). specialize (Hn 4%nat). rewrite (proj2 (Nat.leb_le _ _)) in Hn by lia.
    destruct Hn as (p2 & Hset & Hr2). unfold set_len, st_upd.
    match goal with |- context [db_set_len (tx_of ?x) tx 4] => change (tx_of x) with (store (splice buf 0 [64 + 16 * Type_to_bits ty; 0; mid / 256; mid mod 256])) end.
    rewrite Hset. eexists _, _, _. split; [done|]. pose proof (rewrites_slot _ _ _ _ _ Hs Hr2) as Hs2. destruct Hr2 as (? & ? & _).
    split; [by split_and!|exact Hs2].
  - eexists _, _, _. split; [done|]. pose proof (rewrites_slot _ _ _ _ _ Hs Hrw) as Hs2. destruct Hrw as (? & ? & _).
    split; [by split_and!|exact Hs2].
Qed.

(** ** Sending always returns *)
Section io.
Context `{!DatagramIo W ER}.

Definition returns_touch (m : st sys (AppError ER) unit) en w : Prop :=
  ∃ en' w' r, m (en, w) = ((en', w'), returned r) ∧ tx_touch en en'.

Lemma send_touch en w tx :
  pool_inv (tx_of en) → ∃ en' w' r, send_tx (ER:=ER) tx (en, w) = ((en', w'), returned r) ∧ tx_touch en en'.
Proof.
  intros Hi. rewrite send_tx_spec by done. unfold send_outcome.
  destruct (slot_at (pool_view (tx_of en)) tx) as [[bs [e|] m []]|]; try (eexists _, _, (inl _); by split).
  destruct (io_send w _ bs) as [w' o]. eexists _, _, (complete_send bs o). by split.
Qed.
Lemma send_release_touch en w tx : pool_inv (tx_of en) → returns_touch (send_and_release tx) en w.
Proof.
  intros Hi. unfold returns_touch, send_and_release, st_result. unbind.
  destruct (send_touch en w tx Hi) as (en1 & w1 & r & -> & H1). pose proof H1 as (Hi1 & _).
  destruct (on_release (E:=AppError ER) en1 w1 tx Hi1) as (en2 & Hr & H2).
  destruct r as [e|n]; cbn [returned]; rewrite Hr; [eexists _, _, (inl _)|eexists _, _, (inr tt)]; (split; [done|]);
    by eapply tx_touch_trans.
Qed.
Lemma tx_failed_touch en w tx e : pool_inv (tx_of en) → returns_touch (tx_failed tx e) en w.
Proof.
  intros Hi. unfold returns_touch, tx_failed. unbind. destruct (on_release (E:=AppError ER) en w tx Hi) as (en2 & -> & H2).
  by eexists _, _, (inl e).
Qed.
Lemma returns_touch_after (m : st sys (AppError ER) unit) en en1 w1 :
  tx_touch en en1 → returns_touch m en1 w1 → ∃ en' w' r, m (en1, w1) = ((en', w'), returned r) ∧ tx_touch en en'.
Proof. intros Ht (en' & w' & r & Hm & Ht'). exists en', w', r. split; [done|]. by eapply tx_touch_trans. Qed.

Lemma replay_bytes_touch en w dest bytes : pool_inv (tx_of en) → returns_touch (send_replay_bytes dest bytes) en w.
Proof.
  intros Hi. unfold returns_touch, send_replay_bytes, control_tx. unbind. unfold on_engine at 1, zoom at 1. cbn [fst snd].
  destruct (acquire_touch (E:=AppError ER) en Hi) as (en1 & [tx|] & -> & H1 & Hs); [|by eexists _, _, (inl AeSaturated)].
  pose proof H1 as (Hi1 & _). destruct (write_touch (E:=AppError ER) en1 w tx _ bytes dest Hi1 Hs) as (en2 & r & -> & H2).
  pose proof H2 as (Hi2 & _). apply (returns_touch_after (match r with inl e => tx_failed tx (AeSlot e) | inr _ => send_and_release tx end));
    [by eapply tx_touch_trans|]. destruct r; [by apply tx_failed_touch|by apply send_release_touch].
Qed.
Lemma send_empty_touch en w dest ty mid :
  pool_inv (tx_of en) → cap_fits en → in_u 16 mid → returns_touch (send_empty dest (Message_new ty Code_EMPTY mid)) en w.
Proof.
  intros Hi Hfit Hmid. unfold returns_touch, send_empty, control_tx. unbind. unfold on_engine at 1, zoom at 1. cbn [fst snd].
  destruct (acquire_touch (E:=AppError ER) en Hi) as (en1 & [tx|] & -> & H1 & Hs); [|by eexists _, _, (inl AeSaturated)].
  pose proof H1 as (Hi1 & Hc1 & _). assert (cap_fits en1) as Hfit1 by (unfold cap_fits; by rewrite Hc1).
  destruct (encode_empty_touch (E:=AppError ER) en1 w tx _ ty mid Hi1 Hfit1 Hmid Hs) as (en2 & r & s' & -> & H2 & Hs2).
  pose proof H2 as (Hi2 & _). assert (tx_touch en en2) as H02 by (by eapply tx_touch_trans).
  destruct r as [e|n]; [by apply (returns_touch_after _ en en2 w H02), tx_failed_touch|].
  unfold on_engine at 1, zoom at 1, st_result at 1, set_tx_endpoint, on_tx, zoom. cbn [fst snd].
  destruct (set_endpoint_rewrites (tx_of en2) tx s' dest Hi2 Hs2) as (p3 & -> & Hi3 & Hc3 & _).
  apply (returns_touch_after _ en (with_tx en2 p3) w); [|by apply send_release_touch].
  eapply tx_touch_trans; [exact H02|]. by split_and!.
Qed.
End io.

(** ** The rows *)
Definition row_ok (e : DedupEntry) : Prop :=
  in_u 16 (dk_message_id (de_key e)) ∧ length (de_replay e) = REPLAY_MAX ∧ 0 ≤ de_replay_len e ≤ Z.of_nat REPLAY_MAX.
Definition rows_ok (t : DedupTable) : Prop := ∀ k row, tb_get t k = Some row → row_ok row.

(** [en'] has the history [g]. *)
Definition dd en en' (g : DedupKey → option DedupEntry) : Prop :=
  pool_inv (tx_of en') ∧ pool_cap (tx_of en') = pool_cap (tx_of en) ∧ tb_inv (dedup_of en') ∧ ∀ k, tb_get (dedup_of en') k = g k.
Definition drop_key (g : DedupKey → option DedupEntry) k' : DedupKey → option DedupEntry :=
  fun k => if decide (k = k') then None else g k.
Definition put_key (g : DedupKey → option DedupEntry) (e : DedupEntry) : DedupKey → option DedupEntry :=
  fun k => if decide (k = de_key e) then Some e else g k.
(** A new row for the key displaces no other. *)
Definition room (t : DedupTable) k : Prop := is_Some (tb_get t k) ∨ ¬ tb_full t.

Lemma touch_dd en en' : tb_inv (dedup_of en) → tx_touch en en' → dd en en' (tb_get (dedup_of en)).
Proof. intros Hi (? & ? & Hd). split_and!; try done; by rewrite Hd. Qed.

Lemma release_pin_touch {E} en e : pool_inv (tx_of en) → ∃ en', release_pin e en = (en', Ok (E:=E) tt) ∧ tx_touch en en'.
Proof. intros Hi. unfold release_pin. destruct (de_tx_pin e); [by apply quiet_release_tx|by exists en]. Qed.

Lemma remove_row {E} en k :
  pool_inv (tx_of en) → tb_inv (dedup_of en) →
  ∃ en' b, remove_dedup k en = (en', Ok (E:=E) b) ∧ dd en en' (drop_key (tb_get (dedup_of en)) k) ∧
    (is_Some (tb_get (dedup_of en) k) → ¬ tb_full (dedup_of en')).
Proof.
  intros Hi Hd. unfold remove_dedup, on_dedup, zoom, st_run, DedupTable_remove. fold (dedup_of en).
  destruct (tb_remove_map (E:=E) (dedup_of en) k Hd) as (t' & b & Hr & Hi' & _ & Hg).
  destruct (tb_remove_ok (E:=E) (dedup_of en) k Hd) as (t2 & b2 & Hr2 & _ & Hlen & Hspec). rewrite Hr in Hr2. injection Hr2 as <- <-.
  rewrite Hr. eexists _, _. split; [done|]. split; [by split_and!|]. intros [row Hrow] Hfull.
  unfold tb_get in Hrow. destruct (tb_lookup (dedup_of en) k) as [id|]; [|done]. destruct Hspec as (_ & Hfree & _).
  change (dedup_of (with_dedup en t')) with t' in Hfull. pose proof (tb_entry_lt _ _ _ Hrow). rewrite Hfull in Hfree; [done|lia].
Qed.

Lemma release_row {E} en e :
  pool_inv (tx_of en) → tb_inv (dedup_of en) →
  ∃ en', release_dedup_row e en = (en', Ok (E:=E) tt) ∧ dd en en' (drop_key (tb_get (dedup_of en)) (de_key e)) ∧
    (is_Some (tb_get (dedup_of en) (de_key e)) → ¬ tb_full (dedup_of en')).
Proof.
  intros Hi Hd. unfold release_dedup_row. unbind. destruct (release_pin_touch (E:=E) en e Hi) as (en1 & -> & Hi1 & Hc1 & Hd1).
  destruct (remove_row (E:=E) en1 (de_key e) Hi1 ltac:(by rewrite Hd1)) as (en2 & b & -> & (Hi2 & Hc2 & Hd2 & Hg2) & Hf).
  rewrite Hd1 in *. exists en2. split; [done|]. split; [|done]. split_and!; try done. congruence.
Qed.

Lemma insert_row {E} en e :
  pool_inv (tx_of en) → tb_inv (dedup_of en) → tb_get (dedup_of en) (de_key e) = None →
  ∃ en' r, insert_dedup e en = (en', Ok (E:=E) r) ∧
    match r with
    | Some _ => dd en en' (put_key (tb_get (dedup_of en)) e)
    | None => dd en en' (tb_get (dedup_of en)) ∧ tb_full (dedup_of en)
    end.
Proof.
  intros Hi Hd Hn. unfold insert_dedup, on_dedup, zoom, st_run, DedupTable_insert. fold (dedup_of en).
  destruct (tb_insert_map (E:=E) (dedup_of en) e Hd) as (t' & r & -> & Hi' & Hm). change (row_key e) with (de_key e) in Hm.
  rewrite Hn in Hm. eexists _, r. split; [done|]. destruct r as [id|].
  - destruct Hm as [_ Hm]. by split_and!.
  - destruct Hm as [-> Hf]. by split_and!.
Qed.

(** The row [best_row] picks is a row it may pick. *)
Lemma best_row_in t keep ids best e :
  best_row t keep ids best = Some e → best = Some e ∨ (∃ id, tb_entry t id = Some e ∧ keep e = true).
Proof.
  revert best. induction ids as [|id ids IH]; intros best; cbn [best_row]; [by left|]. intros Hb. destruct (IH _ Hb) as [Hx|]; [|by right].
  unfold DedupTable_entry_ref in Hx. destruct (tb_entry t id) as [row|] eqn:Ee; [|by left].
  destruct (keep row) eqn:Ek; cbn [negb] in Hx; [|by left].
  destruct best as [cur|]; [destruct (_ <=? _); [by left|]|]; injection Hx as <-; right; by exists id.
Qed.

Lemma release_existing {E} en k :
  pool_inv (tx_of en) → tb_inv (dedup_of en) →
  ∃ en', release_existing_dedup k en = (en', Ok (E:=E) tt) ∧ dd en en' (drop_key (tb_get (dedup_of en)) k) ∧
    (room (dedup_of en) k → ¬ tb_full (dedup_of en')).
Proof.
  intros Hi Hd. unfold release_existing_dedup, lookup_dedup, dedup_entry, st_gets, DedupTable_lookup. unbind. fold (dedup_of en).
  destruct (tb_lookup (dedup_of en) k) as [id|] eqn:El.
  - apply tb_lookup_Some in El as (row & Hrow & Hk); [|done]. unfold DedupTable_entry_ref. rewrite Hrow.
    change (row_key row) with (de_key row) in Hk. subst k. destruct (release_row (E:=E) en row Hi Hd) as (en' & Hr & Hdd & Hf).
    exists en'. split; [done|]. split; [done|]. intros _. apply Hf. exists row. apply tb_get_Some; [done|]. by exists id.
  - exists en. split; [done|]. apply tb_lookup_get in El; [|done]. split.
    + split_and!; try done. intros k'. unfold drop_key. case_decide; [by subst|done].
    + intros [[? ?]|]; [congruence|done].
Qed.

(** ** Storing an answer *)
Definition usable (e : DedupEntry) : bool := negb (de_replay_len e =? 0) || is_some (de_tx_pin e).

Lemma replay_total {E} e : row_ok e → ∃ r, DedupEntry_replay (E:=E) e = Ok r ∧ is_some r = negb (de_replay_len e =? 0).
Proof.
  intros (_ & Hl & Hn). unfold DedupEntry_replay. destruct (de_replay_len e =? 0) eqn:E0; [by exists None|]. unbind.
  rewrite slice_prefix by lia. by eexists.
Qed.
Lemma usable_total {E} e : row_ok e → has_usable_replay (E:=E) e = Ok (usable e).
Proof.
  intros He. unfold has_usable_replay, usable. unbind. destruct (replay_total (E:=E) e He) as (r & -> & <-). by destruct r, (de_tx_pin e).
Qed.

Lemma release_pins_touch {E} pins en :
  pool_inv (tx_of en) → ∃ en', release_pins pins en = (en', Ok (E:=E) tt) ∧ tx_touch en en'.
Proof.
  revert en. induction pins as [|pin pins IH]; intros en Hi; cbn [release_pins]; [by exists en|]. unbind.
  destruct (quiet_release_tx (E:=E) en pin Hi) as (en1 & -> & H1). pose proof H1 as (Hi1 & _). destruct (IH en1 Hi1) as (en2 & Hr & H2).
  exists en2. split; [exact Hr|]. by eapply tx_touch_trans.
Qed.

(** What a store does to the history [g0]; with room it only adds its row. *)
Definition stores (t : DedupTable) (e : DedupEntry) (b : bool) (g : DedupKey → option DedupEntry) : Prop :=
  (∀ k, k ≠ de_key e → g k = tb_get t k ∨ g k = None) ∧
  g (de_key e) = (if b then Some e else g (de_key e)) ∧ (b = false → g (de_key e) = tb_get t (de_key e) ∨ g (de_key e) = None) ∧
  (usable e = true → room t (de_key e) → b = true ∧ ∀ k, k ≠ de_key e → g k = tb_get t k).

Lemma stores_put t e g : (∀ k, g k = put_key (tb_get t) e k) → stores t e true g.
Proof.
  intros Hg. assert (∀ k, k ≠ de_key e → g k = tb_get t k) as Hk by (intros k Hne; rewrite Hg; unfold put_key; by rewrite decide_False).
  split_and!; try done; [intros k Hne; left; by apply Hk|]. rewrite Hg. unfold put_key. by rewrite decide_True.
Qed.

Lemma storage_store_ok {E} en e :
  pool_inv (tx_of en) → tb_inv (dedup_of en) →
  ∃ en' b g, storage_store e en = (en', Ok (E:=E) b) ∧ dd en en' g ∧ stores (dedup_of en) e b g.
Proof.
  intros Hi Hd. unfold storage_store, on_dedup, zoom, st_run. unbind. fold (dedup_of en).
  destruct (try_store_cases (E:=E) (dedup_of en) e Hd) as (t' & rel & b & -> & Hi' & Hm).
  destruct (release_pins_touch (E:=E) rel (with_dedup en t') Hi) as (en' & -> & (Hi2 & Hc2 & Hd2)).
  exists en', b, (tb_get t'). change (dedup_of (with_dedup en t')) with t' in Hd2. split; [done|]. split; [split_and!; rewrite ?Hd2; done|].
  destruct (tb_get (dedup_of en) (de_key e)) as [old|] eqn:Eg; [destruct Hm as (-> & _ & Hm); by apply stores_put|].
  destruct Hm as [(_ & -> & _ & Hm)|[(Hf & -> & _ & -> & _)|(Hf & -> & old & _ & _ & Hm)]]; [by apply stores_put|..].
  - split_and!; try done; [intros k _; by left|by left|]. intros _ [[? ?]|?]; [congruence|done].
  - split_and!; try done.
    + intros k Hne. rewrite Hm, decide_False by done. case_decide; [by right|by left].
    + rewrite Hm. by rewrite decide_True.
    + intros _ [[? ?]|?]; [congruence|done].
Qed.

Lemma store_ok {E} combined en e :
  pool_inv (tx_of en) → tb_inv (dedup_of en) → row_ok e →
  ∃ en' b g, store_request_dedup combined e en = (en', Ok (E:=E) b) ∧ dd en en' g ∧ stores (dedup_of en) e b g.
Proof.
  intros Hi Hd He. unfold store_request_dedup. unbind. rewrite usable_total by done. destruct (usable e) eqn:Eu; cbn [negb]; last first.
  { exists en, false, (tb_get (dedup_of en)). split; [done|]. split; [done|]. split_and!; try done; [intros k _; by left|by left|congruence]. }
  destruct combined; [by apply storage_store_ok|].
  destruct (release_existing (E:=E) en (de_key e) Hi Hd) as (en1 & -> & (Hi1 & Hc1 & Hd1 & Hg1) & Hroom).
  assert (tb_get (dedup_of en1) (de_key e) = None) as Hn1 by (rewrite Hg1; unfold drop_key; by rewrite decide_True).
  assert (∀ k, k ≠ de_key e → tb_get (dedup_of en1) k = tb_get (dedup_of en) k) as Hk1 by (intros k Hne; rewrite Hg1; unfold drop_key; by rewrite decide_False).
  destruct (insert_row (E:=E) en1 e Hi1 Hd1 Hn1) as (en2 & [id|] & -> & Hins); cbn [is_some].
  - exists en2, true, (put_key (tb_get (dedup_of en)) e). split; [done|]. split; [|by apply stores_put].
    destruct Hins as (Hi2 & Hc2 & Hd2 & Hg2). split_and!; [done|congruence|done|]. intros k. rewrite Hg2. unfold put_key.
    case_decide; [done|by apply Hk1].
  - destruct Hins as [(Hi2 & Hc2 & Hd2 & Hg2) Hfull]. unfold evict_oldest_app_dedup. unbind.
    assert (¬ room (dedup_of en) (de_key e)) as Hnr by (intros Hr; by apply (Hroom Hr)).
    destruct (best_row _ _ _ _) as [old|]; cbn [negb]; last first.
    { exists en2, false, (tb_get (dedup_of en1)). split; [done|]. split; [split_and!; try done; congruence|].
      split_and!; try done; [intros k Hne; left; by apply Hk1|by right]. }
    destruct (release_row (E:=E) en2 old Hi2 Hd2) as (en3 & -> & (Hi3 & Hc3 & Hd3 & Hg3) & _). cbn [negb].
    assert (tb_get (dedup_of en3) (de_key e) = None) as Hn3 by (rewrite Hg3; unfold drop_key; rewrite Hg2; by case_decide).
    assert (∀ k, k ≠ de_key e → tb_get (dedup_of en3) k = tb_get (dedup_of en) k ∨ tb_get (dedup_of en3) k = None) as Hk3.
    { intros k Hne. rewrite Hg3. unfold drop_key. rewrite Hg2. case_decide; [by right|left; by apply Hk1]. }
    destruct (insert_row (E:=E) en3 e Hi3 Hd3 Hn3) as (en4 & [id|] & -> & Hins); cbn [is_some].
    + destruct Hins as (Hi4 & Hc4 & Hd4 & Hg4). exists en4, true, (put_key (tb_get (dedup_of en3)) e). split; [done|].
      split; [split_and!; try done; congruence|]. split_and!; try done.
      * intros k Hne. unfold put_key. rewrite decide_False by done. by apply Hk3.
      * unfold put_key. by rewrite decide_True.
    + destruct Hins as [(Hi4 & Hc4 & Hd4 & Hg4) _]. exists en4, false, (tb_get (dedup_of en3)). split; [done|].
      split; [split_and!; try done; congruence|]. split_and!; try done. by right.
Qed.

(** ** Being remembered *)
Definition eng (f : full) : Eng := f.1.1.
Definition app_inv (f : full) : Prop :=
  pool_inv (tx_of (eng f)) ∧ cap_fits (eng f) ∧ tb_inv (dedup_of (eng f)) ∧ rows_ok (dedup_of (eng f)).

(** The answer to [k] is known until [d]: a row that does not expire before, or
    the note that its row could not be stored. *)
Definition remembered (f : full) k (d : Z) : Prop :=
  match tb_get (dedup_of (eng f)) k with
  | Some row => de_due_ms row = 0 ∨ d ≤ de_due_ms row
  | None => ∃ c, f.2 = Some c ∧ dc_key c = k ∧ (dc_due_ms c = 0 ∨ d ≤ dc_due_ms c)
  end.

Lemma stores_rows t e b g k row : stores t e b g → rows_ok t → row_ok e → g k = Some row → row_ok row.
Proof.
  intros (Hk & Hb & Hf & _) Ht He Hg. destruct (decide (k = de_key e)) as [->|Hne].
  - destruct b; [rewrite Hb in Hg; by injection Hg as <-|]. destruct (Hf eq_refl); [apply (Ht (de_key e)); congruence|congruence].
  - destruct (Hk k Hne); [apply (Ht k); congruence|congruence].
Qed.

Definition closed_after (c : option DedupClosed) (b : bool) (e : DedupEntry) (code : Code) : option DedupClosed :=
  if b then (if closes c (de_key e) then None else c)
  else if negb (request_may_rerun_on_duplicate code) && negb (closes c (de_key e)) then Some (mkClosed (de_key e) (de_due_ms e)) else c.

Lemma note_ok {E} combined (f : full) e code :
  app_inv f → row_ok e →
  ∃ f' b g, note_dedup_store combined e code f = (f', Ok (E:=E) b) ∧ app_inv f' ∧ dd (eng f) (eng f') g ∧
    stores (dedup_of (eng f)) e b g ∧ f'.2 = closed_after f.2 b e code.
Proof.
  intros (Hi & Hfit & Hd & Hrows) He. destruct f as [[en w] c]. unfold eng in *. cbn [fst snd] in *.
  destruct (store_ok (E:=E) combined en e Hi Hd He) as (en' & b & g & Hst & Hdd & Hs).
  unfold note_dedup_store, on_en, on_sys, on_engine, zoom, get_closed, set_closed, closed_after. unbind. cbn [fst snd]. rewrite Hst. cbn [fst snd].
  assert (∀ c', app_inv (en', w, c')) as Hinv.
  { intros c'. pose proof Hdd as (? & Hc & ? & Hg). unfold app_inv, cap_fits, eng. cbn [fst]. rewrite Hc. split_and!; try done.
    intros k row. rewrite Hg. by apply (stores_rows (dedup_of en) e b). }
  destruct b; [destruct (closes c (de_key e))|destruct (negb _ && negb _)]; eexists _, _, g; (split; [done|]); split_and!; try apply Hinv; done.
Qed.

Lemma closes_true c k : closes c k = true ↔ ∃ x, c = Some x ∧ dc_key x = k.
Proof.
  unfold closes. destruct c as [x|]; [|split; [done|by intros (? & ? & _)]]. unfold eqb. rewrite bool_decide_eq_true.
  split; [intros; by exists x|by intros (? & [= <-] & ?)].
Qed.

(** A store keeps what was remembered. *)
Lemma note_keeps (f f' : full) b g e code k d :
  dd (eng f) (eng f') g → stores (dedup_of (eng f)) e b g → f'.2 = closed_after f.2 b e code → usable e = true →
  de_due_ms e = 0 ∨ d ≤ de_due_ms e → de_key e = k ∨ room (dedup_of (eng f)) (de_key e) → remembered f k d → remembered f' k d.
Proof.
  intros (_ & _ & _ & Hg) (_ & Hb & Hf & Hroom) Hc Hu Hdue Hk Hrem. unfold remembered in *. rewrite Hg, Hc. specialize (Hroom Hu).
  destruct (decide (de_key e = k)) as [<-|Hne].
  - destruct b; [by rewrite Hb|]. destruct (tb_get (dedup_of (eng f)) (de_key e)) as [row|] eqn:Eg.
    { destruct Hroom as [? _]; [by left|done]. }
    assert (g (de_key e) = None) as -> by (destruct (Hf eq_refl); congruence). destruct Hrem as (x & Hx & Hkey & Hdx).
    unfold closed_after. rewrite (proj2 (closes_true _ _)) by (by exists x). rewrite andb_false_r. by exists x.
  - destruct Hk as [?|Hk]; [done|]. destruct (Hroom Hk) as [-> Hg']. rewrite Hg' by done.
    destruct (tb_get (dedup_of (eng f)) k); [done|]. destruct Hrem as (x & Hx & Hkey & Hdx). unfold closed_after.
    destruct (closes f.2 (de_key e)) eqn:Ec; [|by exists x]. apply closes_true in Ec as (y & Hy & Hyk). congruence.
Qed.
(** The first answer to a request that may not run twice is remembered. *)
Lemma note_first (f f' : full) b g e code :
  dd (eng f) (eng f') g → stores (dedup_of (eng f)) e b g → f'.2 = closed_after f.2 b e code →
  request_may_rerun_on_duplicate code = false → tb_get (dedup_of (eng f)) (de_key e) = None → closes f.2 (de_key e) = false →
  remembered f' (de_key e) (de_due_ms e).
Proof.
  intros (_ & _ & _ & Hg) (_ & Hb & Hf & _) Hc Hcode Hn Hcl. unfold remembered. rewrite Hg, Hc. destruct b; [rewrite Hb; by right|].
  assert (g (de_key e) = None) as -> by (destruct (Hf eq_refl); congruence). unfold closed_after. rewrite Hcode, Hcl.
  eexists. split; [done|]. split; [done|]. by right.
Qed.

(** ** The rows of answers *)
Lemma replay_row {E} mid dest due (bytes : list Z) :
  in_u 16 mid → (length bytes ≤ REPLAY_MAX)%nat →
  ∃ e, with_replay (E:=E) (with_due_ms (DedupEntry_new mid dest) due) bytes = Ok e ∧ row_ok e ∧ de_key e = mkDedupKey mid dest ∧
    de_due_ms e = due ∧ usable e = negb (is_nil bytes).
Proof.
  intros Hmid Hl. unfold with_replay. rewrite (proj2 (Nat.ltb_ge _ _)) by done. unbind. rewrite copy_into_ok by (done || (cbn; lia)).
  eexists. split; [done|]. assert (wrap 16 (Z.of_nat (length bytes)) = Z.of_nat (length bytes)) as Hw
    by (apply wrap_small; unfold in_u, REPLAY_MAX in *; lia).
  split_and!; try done.
  - split; [done|]. split; cbn [de_replay de_replay_len]; [by rewrite length_splice|]. rewrite Hw. lia.
  - unfold usable. cbn [de_replay_len de_tx_pin is_some]. rewrite Hw, orb_false_r. by destruct bytes.
Qed.

Lemma ack_row {E} mid dest due :
  in_u 16 mid →
  ∃ bytes e, encode_empty_ack (E:=E) mid = Ok (Some bytes) ∧ with_replay (E:=E) (with_due_ms (DedupEntry_new mid dest) due) bytes = Ok e ∧
    row_ok e ∧ de_key e = mkDedupKey mid dest ∧ de_due_ms e = due ∧ usable e = true.
Proof.
  intros Hmid. pose proof (encode_empty_wire Acknowledgement mid (replicate 16 0) Hmid) as Henc.
  unfold encode_empty_ack, Message_empty_ack. pose proof usize_max_ge.
  specialize (Henc ltac:(unfold slice_fits; rewrite length_replicate; lia)).
  destruct (encode (Message_new Acknowledgement Code_EMPTY mid) (replicate 16 0)) as [buf' [n|e| |]]; destruct Henc as [Hl Henc];
    try done; [|cbn in Henc; lia]. destruct Henc as (-> & _ & Hb). unbind. rewrite slice_prefix by (rewrite Hl; cbn; lia).
  assert (take 4 buf' = [96; 0; mid / 256; mid mod 256]) as -> by (rewrite Hb; done).
  destruct (replay_row (E:=E) mid dest due [96; 0; mid / 256; mid mod 256] Hmid ltac:(cbn; unfold REPLAY_MAX; lia)) as (e & He & ? & ? & ? & ?).
  by exists [96; 0; mid / 256; mid mod 256], e.
Qed.

(** ** Each operation ends and keeps what is remembered *)
Lemma empty_ack_ok {E} combined (f : full) dest mid now code :
  app_inv f → in_u 16 mid →
  let key := mkDedupKey mid dest in
  ∃ f', remember_empty_ack combined dest mid now code f = (f', Ok (E:=E) tt) ∧ app_inv f' ∧
    (∀ k d, d ≤ dedup_due_ms now → key = k ∨ room (dedup_of (eng f)) key → remembered f k d → remembered f' k d) ∧
    (request_may_rerun_on_duplicate code = false → tb_get (dedup_of (eng f)) key = None → closes f.2 key = false →
     remembered f' key (dedup_due_ms now)).
Proof.
  intros Hf Hmid key. destruct (ack_row (E:=E) mid dest (dedup_due_ms now) Hmid) as (bytes & e & He & Hrow & Hok & Hkey & Hdue & Hu).
  unfold remember_empty_ack. unbind. rewrite He, Hrow. fold key in Hkey. clearbody key. subst key.
  destruct (note_ok (E:=E) combined f e code Hf Hok) as (f' & b & g & -> & Hf' & Hdd & Hst & Hc). exists f'. split; [done|]. split; [done|]. split.
  - intros k d Hd Hk. apply (note_keeps f f' b g e code); try done. right. lia.
  - intros Hcode Hn Hcl. rewrite <- Hdue. by apply (note_first f f' b g e code).
Qed.

Lemma tx_reply_ok {E} combined (f : full) tx dest mid ty now code :
  app_inv f → in_u 16 mid →
  let key := mkDedupKey mid dest in
  ∃ f' keep, remember_tx_reply combined tx dest mid ty now code f = (f', Ok (E:=E) keep) ∧ app_inv f' ∧
    (∀ k d, d ≤ dedup_due_ms now → key = k ∨ room (dedup_of (eng f)) key →
       (∀ s, slot_at (pool_view (tx_of (eng f))) tx = Some s → sv_payload s ≠ []) → remembered f k d → remembered f' k d) ∧
    (ty = Confirmable → request_may_rerun_on_duplicate code = false → tb_get (dedup_of (eng f)) key = None → closes f.2 key = false →
     remembered f' key (dedup_due_ms now)).
Proof.
  intros Hf Hmid key. unfold remember_tx_reply. destruct (eqb ty Confirmable) eqn:Ety; bools; cbn [negb]; [|by exists f, KeepNo].
  pose proof Hf as (Hi & _). unfold on_en, on_sys, on_engine, zoom, st_result, access_tx. unbind. destruct f as [[en w] c].
  unfold eng in *. cbn [fst snd] in *. pose proof (law_access (tx_of en) tx Hi) as Ha.
  assert ((∃ x, db_access (tx_of en) tx = Err x) ∨
    ∃ p s, slot_at (pool_view (tx_of en)) tx = Some s ∧ db_access (tx_of en) tx = Ok (p, sv_payload s)) as [[x ->]|(p & s & Hs & ->)].
  { destruct (slot_at (pool_view (tx_of en)) tx) as [s|]; [|left; by eexists]. destruct (sv_pinned s); [left; by eexists|].
    destruct Ha as (p & Ha & _). right. by exists p, s. }
  { cbn [fst snd]. destruct (empty_ack_ok (E:=E) combined (en, w, c) dest mid now code Hf Hmid) as (f' & -> & Hf' & H1 & H2).
    exists f', KeepNo. split; [done|]. split; [done|]. split; [intros k d Hd Hk _; by apply H1|intros _; exact H2]. }
  cbn [fst snd].
  assert (∃ e, (if (length (sv_payload s) <=? REPLAY_MAX)%nat
      then st_lift (with_replay (with_due_ms (DedupEntry_new mid dest) (dedup_due_ms now)) (sv_payload s))
      else mret (with_tx_pin (with_due_ms (DedupEntry_new mid dest) (dedup_due_ms now)) tx)) (en, w, c) = ((en, w, c), Ok (E:=E) e) ∧
    row_ok e ∧ de_key e = key ∧ de_due_ms e = dedup_due_ms now ∧ (sv_payload s ≠ [] → usable e = true)) as (e & He & Hok & Hkey & Hdue & Hu).
  { destruct (length (sv_payload s) <=? REPLAY_MAX)%nat eqn:El; bools.
    - destruct (replay_row (E:=E) mid dest (dedup_due_ms now) (sv_payload s) Hmid El) as (e & He & ? & ? & ? & Hu). exists e.
      unfold st_lift. rewrite He. split_and!; try done. intros Hne. rewrite Hu. by destruct (sv_payload s).
    - exists (with_tx_pin (with_due_ms (DedupEntry_new mid dest) (dedup_due_ms now)) tx). split_and!; try done. }
  unfold st_lift, mret, st_mret in He. rewrite He. clearbody key. subst key.
  destruct (note_ok (E:=E) combined (en, w, c) e code Hf Hok) as (f' & b & g & -> & Hf' & Hdd & Hst & Hc). eexists f', _.
  split; [done|]. split; [done|]. split.
  - intros k d Hd Hk Hne Hrem. apply (note_keeps (en, w, c) f' b g e code); try done; [by apply Hu, Hne|right; lia].
  - intros _ Hcode Hn Hcl. rewrite <- Hdue. by apply (note_first (en, w, c) f' b g e code).
Qed.

(** A message sent in answer leaves the history alone. *)
Definition same_history (f f' : full) : Prop := dedup_of (eng f') = dedup_of (eng f) ∧ f'.2 = f.2.
Lemma same_remembered (f f' : full) k d : same_history f f' → remembered f k d → remembered f' k d.
Proof. intros [Hd Hc]. unfold remembered. by rewrite Hd, Hc. Qed.

Lemma hit_ok {E} (m : st sys (AppError ER) unit) (f : full) :
  app_inv f → returns_touch m (eng f) f.1.2 → ∃ f' x, hit m f = (f', Ok (E:=E) (Hit x)) ∧ app_inv f' ∧ same_history f f'.
Proof.
  intros (Hi & Hfit & Hd & Hrows) (en' & w' & r & Hm & (Hi' & Hc' & Hd')). destruct f as [[en w] c]. unfold eng in *. cbn [fst snd] in *.
  unfold hit, on_sys, zoom, st_result. unbind. cbn [fst snd]. rewrite Hm.
  assert (app_inv (en', w', c)) as Hinv by (unfold app_inv, cap_fits, eng; cbn [fst]; rewrite Hc', Hd'; done).
  destruct r as [x|[]]; cbn [returned]; eexists _, _; (split; [done|]); by split_and!.
Qed.

Section arrivals.
Context `{!DatagramIo W ER}.
Implicit Types (f : full) (parsed : ParsedMessage T).

Definition key_of (peer : Endpoint) parsed : DedupKey := mkDedupKey (pm_message_id parsed) peer.
Definition runs_once parsed : Prop := request_may_rerun_on_duplicate (pm_code parsed) = false.

(** What looking up a duplicate promises. *)
Definition answers f (key : DedupKey) parsed (now : Z) f' (r : Replay ER) : Prop :=
  app_inv f' ∧
  (∀ k d, now < d → d ≤ dedup_due_ms now → key = k ∨ room (dedup_of (eng f)) key ∨ ¬ runs_once parsed → remembered f k d →
     remembered f' k d ∧ (key = k → runs_once parsed → r ≠ Miss)) ∧
  (runs_once parsed → r = Miss → tb_get (dedup_of (eng f')) key = None ∧ closes f'.2 key = false).

Lemma ack_and_hit {E} combined f peer parsed now :
  app_inv f → in_u 16 (pm_message_id parsed) →
  ∃ f' r, (remember_empty_ack combined peer (pm_message_id parsed) now (pm_code parsed);; hit (send_empty_ack peer (pm_message_id parsed))) f =
      (f', Ok (E:=E) r) ∧ r ≠ Miss ∧ app_inv f' ∧
    ∀ k d, d ≤ dedup_due_ms now → key_of peer parsed = k ∨ room (dedup_of (eng f)) (key_of peer parsed) → remembered f k d → remembered f' k d.
Proof.
  intros Hf Hmid. destruct (empty_ack_ok (E:=E) combined f peer (pm_message_id parsed) now (pm_code parsed) Hf Hmid) as (f1 & Hr & Hf1 & H1 & _).
  unbind. rewrite Hr. pose proof Hf1 as (Hi1 & Hfit1 & _).
  destruct (hit_ok (E:=E) (send_empty_ack peer (pm_message_id parsed)) f1 Hf1) as (f2 & x & -> & Hf2 & Hsame); [by apply send_empty_touch|].
  eexists f2, _. split; [done|]. split; [done|]. split; [done|]. intros k d Hd Hk Hrem. apply (same_remembered f1 f2); [done|]. by apply H1.
Qed.

Lemma replay_closed_ok {E} combined f peer parsed now :
  app_inv f → in_u 16 (pm_message_id parsed) → tb_get (dedup_of (eng f)) (key_of peer parsed) = None →
  ∃ f' r, replay_closed combined peer parsed now f = (f', Ok (E:=E) r) ∧ answers f (key_of peer parsed) parsed now f' r.
Proof.
  intros Hf Hmid Hn. unfold replay_closed. fold (key_of peer parsed). set (key := key_of peer parsed) in *. unfold get_closed, set_closed. unbind.
  destruct (request_may_rerun_on_duplicate (pm_code parsed)) eqn:Ec.
  { exists f, Miss. split; [done|]. split; [done|]. split; [|intros Ho; unfold runs_once in Ho; congruence].
    intros k d _ _ _ Hrem. split; [done|]. intros _ Ho. unfold runs_once in Ho. congruence. }
  destruct f as [s c]. cbn [fst snd] in *. destruct c as [c|]; last first.
  { exists (s, None), Miss. split; [done|]. split; [done|]. split; [|by split]. intros k d _ _ _ Hrem. split; [done|]. intros <- _ _.
    unfold remembered in Hrem. rewrite Hn in Hrem. by destruct Hrem as (? & ? & _). }
  destruct (eqb (dc_key c) key) eqn:Ek; bools; cbn [negb]; last first.
  { exists (s, Some c), Miss. split; [done|]. split; [done|]. split.
    - intros k d _ _ _ Hrem. split; [done|]. intros <- _ _. unfold remembered in Hrem. rewrite Hn in Hrem. destruct Hrem as (x & [= <-] & ? & _). done.
    - intros _ _. split; [done|]. apply not_true_is_false. rewrite closes_true. intros (x & [= <-] & ?). done. }
  destruct (negb (dc_due_ms c =? 0) && (dc_due_ms c <=? now)) eqn:Ex.
  - exists (s, None), Miss. split; [done|]. split; [done|]. split; [|by split].
    intros k d Hnow _ _ Hrem. apply andb_true_iff in Ex as [E1%negb_true_iff%Z.eqb_neq E2%Z.leb_le].
    assert (tb_get (dedup_of (eng (s, Some c))) k = None → False) as Hsome.
    { intros Hk. unfold remembered in Hrem. rewrite Hk in Hrem. destruct Hrem as (x & [= <-] & _ & [?|?]); lia. }
    split; [|intros <- _ _; by apply Hsome]. unfold remembered in *. change (eng (s, None)) with (eng (s, Some c)).
    destruct (tb_get (dedup_of (eng (s, Some c))) k); [done|by destruct Hsome].
  - destruct (ack_and_hit (E:=E) combined (s, Some c) peer parsed now Hf Hmid) as (f' & r & Hr & Hne & Hf' & Hk). unbind. rewrite Hr.
    exists f', r. split; [done|]. split; [done|]. split; [|by intros _ ?].
    intros k d _ Hd Hroom Hrem. split; [|done]. apply Hk; [done| |done]. destruct Hroom as [?|[?|Hno]]; [by left|by right|].
    exfalso. apply Hno. exact Ec.
Qed.

Lemma replay_ok {E} combined f peer parsed now :
  app_inv f → in_u 16 (pm_message_id parsed) →
  ∃ f' r, replay_con_request combined peer parsed now f = (f', Ok (E:=E) r) ∧ answers f (key_of peer parsed) parsed now f' r.
Proof.
  intros Hf Hmid. pose proof Hf as (Hi & Hfit & Hd & Hrows). unfold replay_con_request. fold (key_of peer parsed).
  set (key := key_of peer parsed). unfold on_en, on_sys, on_engine, zoom, lookup_dedup, dedup_entry, st_gets. unbind.
  destruct f as [[en w] c]. unfold eng in *. cbn [fst snd] in *. fold (dedup_of en).
  destruct (DedupTable_lookup (dedup_of en) key) as [id|] eqn:El; unfold DedupTable_lookup in El; last first.
  { apply replay_closed_ok; [done..|]. by apply tb_lookup_get. }
  pose proof El as El'. apply tb_lookup_Some in El' as (row & Hrow & Hkey); [|done]. change (row_key row) with (de_key row) in Hkey.
  unfold DedupTable_entry_ref. cbn [fst snd]. rewrite Hrow. assert (tb_get (dedup_of en) key = Some row) as Hget by (unfold tb_get; by rewrite El).
  destruct (negb (de_due_ms row =? 0) && (de_due_ms row <=? now)) eqn:Ex.
  - apply andb_true_iff in Ex as [E1%negb_true_iff%Z.eqb_neq E2%Z.leb_le].
    destruct (release_row (E:=E) en row Hi Hd) as (en1 & Hrel & (Hi1 & Hc1 & Hd1 & Hg1) & Hfull). cbn [fst snd]. rewrite Hrel. cbn [fst snd].
    rewrite Hkey in *.
    assert (tb_get (dedup_of en1) key = None) as Hn1 by (rewrite Hg1; unfold drop_key; by rewrite decide_True).
    assert (app_inv (en1, w, c)) as Hf1.
    { unfold app_inv, cap_fits, eng. cbn [fst]. rewrite Hc1. split_and!; try done. intros k r. rewrite Hg1. unfold drop_key. case_decide; [done|apply Hrows]. }
    destruct (replay_closed_ok (E:=E) combined (en1, w, c) peer parsed now Hf1 Hmid Hn1) as (f' & r & -> & Hinv & Hkeep & Hmiss).
    exists f', r. split; [done|]. split; [done|]. split; [|done]. intros k d Hnow Hdue _ Hrem.
    assert (k ≠ key) as Hne by (intros ->; unfold remembered, eng in Hrem; cbn [fst] in Hrem; rewrite Hget in Hrem; lia).
    apply (Hkeep k d); [done|done|right; left; right; by apply Hfull|]. unfold remembered, eng in *. cbn [fst snd] in *. rewrite Hg1. unfold drop_key.
    by rewrite decide_False.
  - destruct (replay_total (E:=E) row (Hrows _ _ Hget)) as (rp & -> & _).
    assert (∀ f' x, app_inv f' → same_history (en, w, c) f' → answers (en, w, c) key parsed now f' (Hit x)) as Hhit.
    { intros f' x Hf' Hsame. split; [done|]. split; [|done]. intros k d _ _ _ Hrem. split; [by apply (same_remembered (en, w, c))|done]. }
    destruct rp as [bytes|].
    { destruct (hit_ok (E:=E) (send_replay_bytes peer bytes) (en, w, c) Hf) as (f' & x & -> & Hf' & Hsame); [by apply replay_bytes_touch|].
      exists f', (Hit x). split; [done|]. by apply Hhit. }
    destruct (de_tx_pin row) as [tx|].
    { destruct (hit_ok (E:=E) (st_map_err AppError_from_io (send_tx tx);; mret tt) (en, w, c) Hf) as (f' & x & Hr & Hf' & Hsame).
      { unfold returns_touch, st_map_err. unbind. destruct (send_touch en w tx Hi) as (en' & w' & r & Hs & Ht).
        unfold eng. cbn [fst snd]. rewrite Hs. destruct r as [y|n]; cbn [returned map_err]; [eexists _, _, (inl _)|eexists _, _, (inr tt)]; by split. }
      exists f', (Hit x). split; [exact Hr|]. by apply Hhit. }
    destruct (request_may_rerun_on_duplicate (pm_code parsed)) eqn:Ec.
    { exists (en, w, c), Miss. split; [done|]. split; [done|]. split; [|intros Ho; unfold runs_once in Ho; congruence].
      intros k d _ _ _ Hrem. split; [done|]. intros _ Ho. unfold runs_once in Ho. congruence. }
    destruct (ack_and_hit (E:=E) combined (en, w, c) peer parsed now Hf Hmid) as (f' & r & Hr & Hne & Hf' & Hk). unbind. rewrite Hr.
    exists f', r. split; [done|]. split; [done|]. split; [|by intros _ ?].
    intros k d _ Hdue _ Hrem. split; [|done]. apply Hk; [done| |done]. right. left. unfold eng. cbn [fst]. fold key. rewrite Hget. by eexists.
Qed.

(** ** Eviction and expiry *)
Lemma evict_pin_ok {E} f :
  app_inv f → ∃ f' b, on_en evict_one_dedup_pin f = (f', Ok (E:=E) b) ∧ app_inv f' ∧ ∀ k d, remembered f k d → remembered f' k d.
Proof.
  intros Hf. pose proof Hf as (Hi & Hfit & Hd & Hrows). destruct f as [[en w] c]. unfold eng in *. cbn [fst snd] in *.
  unfold on_en, on_sys, on_engine, zoom, evict_one_dedup_pin. unbind. cbn [fst snd].
  destruct (best_row _ _ _ _) as [row|] eqn:Eb; [|by exists (en, w, c), false].
  apply best_row_in in Eb as [?|(id & Hrow & _)]; [done|].
  assert (tb_get (dedup_of en) (de_key row) = Some row) as Hget by (apply tb_get_Some; [done|by exists id]).
  destruct (release_pin_touch (E:=E) en row Hi) as (en1 & -> & (Hi1 & Hc1 & Hd1)).
  destruct (remove_row (E:=E) en1 (de_key row) Hi1 ltac:(by rewrite Hd1)) as (en2 & b & -> & (Hi2 & Hc2 & Hd2 & Hg2) & Hfull).
  rewrite Hd1 in *. destruct (Hrows _ _ Hget) as (Hmid & _).
  destruct (ack_row (E:=E) (dk_message_id (de_key row)) (dk_endpoint (de_key row)) (de_due_ms row) Hmid) as (bytes & e & -> & -> & Hok & Hkey & Hdue & _).
  assert (mkDedupKey (dk_message_id (de_key row)) (dk_endpoint (de_key row)) = de_key row) as Heta by (by destruct (de_key row)). rewrite Heta in Hkey.
  destruct (insert_row (E:=E) en2 e Hi2 Hd2) as (en3 & r & -> & Hins); [rewrite Hg2, Hkey; unfold drop_key; by rewrite decide_True|].
  destruct r as [id'|]; [|destruct Hins as [_ Hf2]; exfalso; apply Hfull; [by eexists|done]].
  destruct Hins as (Hi3 & Hc3 & Hd3 & Hg3).
  assert (∀ k, tb_get (dedup_of en3) k = if decide (k = de_key row) then Some e else tb_get (dedup_of en) k) as Hg.
  { intros k. rewrite Hg3. unfold put_key. rewrite Hkey. case_decide; [done|]. rewrite Hg2. unfold drop_key. by rewrite decide_False. }
  exists (en3, w, c), true. split; [done|]. split.
  - unfold app_inv, cap_fits, eng. cbn [fst]. rewrite Hc3, Hc2, Hc1. split_and!; try done. intros k r. rewrite Hg.
    case_decide; [by intros [= <-]|apply Hrows].
  - intros k d. unfold remembered, eng. cbn [fst snd]. rewrite Hg. case_decide; [|done]. subst k. rewrite Hget, Hdue. done.
Qed.

Lemma expire_rows_ok {E} now ids en w c :
  app_inv (en, w, c) →
  ∃ en', expire_rows now ids en = (en', Ok (E:=E) tt) ∧ app_inv (en', w, c) ∧
    ∀ k d, now < d → remembered (en, w, c) k d → remembered (en', w, c) k d.
Proof.
  revert en. induction ids as [|id ids IH]; intros en Hf; cbn [expire_rows]; [by exists en|]. unfold dedup_entry, st_gets, DedupTable_entry_ref. unbind.
  pose proof Hf as (Hi & Hfit & Hd & Hrows). unfold eng in *. cbn [fst] in *.
  destruct (tb_entry (dedup_of en) id) as [row|] eqn:Ee; [|by apply IH].
  destruct (negb (de_due_ms row =? 0) && (de_due_ms row <=? now)) eqn:Ex; [|by apply IH].
  apply andb_true_iff in Ex as [E1%negb_true_iff%Z.eqb_neq E2%Z.leb_le].
  destruct (release_row (E:=E) en row Hi Hd) as (en1 & -> & (Hi1 & Hc1 & Hd1 & Hg1) & _).
  destruct (IH en1) as (en' & -> & Hf' & Hk).
  { unfold app_inv, cap_fits, eng. cbn [fst]. rewrite Hc1. split_and!; try done. intros k r. rewrite Hg1. unfold drop_key. case_decide; [done|apply Hrows]. }
  exists en'. split; [done|]. split; [done|]. intros k d Hnow Hrem. apply Hk; [done|]. unfold remembered, eng in *. cbn [fst snd] in *.
  rewrite Hg1. unfold drop_key. case_decide as Hkey; [|done]. subst k.
  assert (tb_get (dedup_of en) (de_key row) = Some row) as Hget by (apply tb_get_Some; [done|by exists id]). rewrite Hget in Hrem. lia.
Qed.
Lemma expire_ok {E} now f :
  app_inv f → ∃ f', expire_request_dedup now f = (f', Ok (E:=E) tt) ∧ app_inv f' ∧ ∀ k d, now < d → remembered f k d → remembered f' k d.
Proof.
  intros Hf. destruct f as [[en w] c]. unfold expire_request_dedup, get_closed, set_closed, on_en, on_sys, on_engine, zoom. unbind. cbn [fst snd].
  set (c' := match c with Some x => if negb (dc_due_ms x =? 0) && (dc_due_ms x <=? now) then None else c | None => None end).
  assert (app_inv (en, w, c')) as Hf1 by done.
  assert (∀ k d, now < d → remembered (en, w, c) k d → remembered (en, w, c') k d) as Hc.
  { intros k d Hnow. unfold remembered, eng. cbn [fst snd]. destruct (tb_get (dedup_of en) k); [done|]. intros (x & -> & Hk & Hd). exists x.
    split; [|done]. unfold c'. destruct (negb _ && _) eqn:Ex; [|done].
    apply andb_true_iff in Ex as [E1%negb_true_iff%Z.eqb_neq E2%Z.leb_le]. lia. }
  assert (∃ f', (en' ← on_en st_get; if (oc_count (tb_occ (dedup_of en')) =? 0)%nat then mret tt else on_en (expire_rows now (all_rows (dedup_of en'))))
    (en, w, c') = (f', Ok (E:=E) tt) ∧ app_inv f' ∧ ∀ k d, now < d → remembered (en, w, c) k d → remembered f' k d) as (f' & Hr & Hf' & Hk).
  { unfold on_en, on_sys, on_engine, zoom. unbind. cbn [fst snd]. destruct (_ =? 0)%nat; [exists (en, w, c'); by split_and!|]. cbn [fst snd].
    destruct (expire_rows_ok (E:=E) now (all_rows (dedup_of en)) en w c' Hf1) as (en' & -> & Hf' & Hk). exists (en', w, c').
    split; [done|]. split; [done|]. intros k d Hnow Hrem. apply Hk; [done|]. by apply Hc. }
  exists f'. split; [|by split]. rewrite <- Hr. unfold on_en, on_sys, on_engine, zoom. unbind. cbn [fst snd]. unfold c'.
  destruct c as [x|]; [destruct (negb _ && _)|]; cbn [fst snd]; by destruct (_ =? 0)%nat.
Qed.

(** ** Histories *)

(** One step of a server between [t0] and [d]: a request arrives, an answer is
    recorded, a pinned answer is evicted, old rows expire, or anything happens
    that leaves the history alone.  An arrival or an answer under another key
    finds room in the table. *)
Inductive served (combined : bool) (t0 : Z) k (d : Z) : full → full → Prop :=
  | sv_arrives f f' peer parsed now r :
      t0 ≤ now < d → in_u 16 (pm_message_id parsed) →
      key_of peer parsed = k ∨ room (dedup_of (eng f)) (key_of peer parsed) ∨ ¬ runs_once parsed →
      replay_con_request combined peer parsed now f = (f', Ok (E:=AppError ER) r) → served combined t0 k d f f'
  | sv_answered f f' tx dest mid ty now code keep :
      t0 ≤ now < d → in_u 16 mid → mkDedupKey mid dest = k ∨ room (dedup_of (eng f)) (mkDedupKey mid dest) →
      (∀ s, slot_at (pool_view (tx_of (eng f))) tx = Some s → sv_payload s ≠ []) →
      remember_tx_reply combined tx dest mid ty now code f = (f', Ok (E:=AppError ER) keep) → served combined t0 k d f f'
  | sv_evicts f f' b : on_en evict_one_dedup_pin f = (f', Ok (E:=AppError ER) b) → served combined t0 k d f f'
  | sv_expires f f' now : now < d → expire_request_dedup now f = (f', Ok (E:=AppError ER) tt) → served combined t0 k d f f'
  | sv_other f f' : same_history f f' → app_inv f' → served combined t0 k d f f'.

Lemma due_later t0 now : t0 ≤ now → dedup_due_ms t0 ≤ dedup_due_ms now.
Proof. unfold dedup_due_ms, saturating_add. lia. Qed.

Lemma served_keeps combined t0 k f f' :
  served combined t0 k (dedup_due_ms t0) f f' → app_inv f ∧ remembered f k (dedup_due_ms t0) → app_inv f' ∧ remembered f' k (dedup_due_ms t0).
Proof.
  intros Hs [Hf Hrem]. destruct Hs as [f f' peer parsed now r [Ht Hnow] Hmid Hroom Hr|f f' tx dest mid ty now code keep [Ht Hnow] Hmid Hroom Hne Hr
    |f f' b Hr|f f' now Hnow Hr|f f' Hsame Hf'].
  - destruct (replay_ok (E:=AppError ER) combined f peer parsed now Hf Hmid) as (f2 & r2 & Hr2 & Hf2 & Hk & _). rewrite Hr in Hr2.
    injection Hr2 as <- <-. split; [done|]. by apply Hk; [|apply due_later|..].
  - destruct (tx_reply_ok (E:=AppError ER) combined f tx dest mid ty now code Hf Hmid) as (f2 & r2 & Hr2 & Hf2 & Hk & _). rewrite Hr in Hr2.
    injection Hr2 as <- <-. split; [done|]. by apply Hk; [apply due_later|..].
  - destruct (evict_pin_ok (E:=AppError ER) f Hf) as (f2 & b2 & Hr2 & Hf2 & Hk). rewrite Hr in Hr2. injection Hr2 as <- <-. split; [done|by apply Hk].
  - destruct (expire_ok (E:=AppError ER) now f Hf) as (f2 & Hr2 & Hf2 & Hk). rewrite Hr in Hr2. injection Hr2 as <-. split; [done|by apply Hk].
  - split; [done|]. by apply (same_remembered f f').
Qed.

Lemma served_all combined t0 k f f' :
  rtc (served combined t0 k (dedup_due_ms t0)) f f' → app_inv f ∧ remembered f k (dedup_due_ms t0) → app_inv f' ∧ remembered f' k (dedup_due_ms t0).
Proof. induction 1 as [|x y z Hxy Hyz IH]; [done|]. intros Hx. apply IH. by apply (served_keeps combined t0 k x y). Qed.

(** C23: a request that may not run twice does not.  A POST, PATCH or FETCH
    arrives at [t0], is handed to the application, and its answer is recorded,
    in whatever state the history is.  Then, through every sequence of other
    arrivals, answers, evictions of pinned answers and expiries for which the
    history has room, each duplicate that arrives before the exchange lifetime
    has passed is answered from memory and not handed to the application. *)
Theorem duplicate_not_rerun combined f0 f1 f2 f3 f peer parsed tx t0 keep now :
  app_inv f0 → in_u 16 (pm_message_id parsed) → runs_once parsed →
  replay_con_request combined peer parsed t0 f0 = (f1, Ok (E:=AppError ER) Miss) →
  same_history f1 f2 → app_inv f2 →
  remember_tx_reply combined tx peer (pm_message_id parsed) Confirmable t0 (pm_code parsed) f2 = (f3, Ok (E:=AppError ER) keep) →
  rtc (served combined t0 (key_of peer parsed) (dedup_due_ms t0)) f3 f →
  t0 ≤ now < dedup_due_ms t0 →
  ∃ f' answer, replay_con_request combined peer parsed now f = (f', Ok (E:=AppError ER) (Hit answer)).
Proof.
  intros Hf0 Hmid Honce Hmiss [Hd Hc] Hf2 Hrec Hrun [Ht Hnow]. set (k := key_of peer parsed) in *.
  destruct (replay_ok (E:=AppError ER) combined f0 peer parsed t0 Hf0 Hmid) as (f1' & r & Hr & _ & _ & Hm). rewrite Hmiss in Hr.
  injection Hr as <- <-. destruct (Hm Honce eq_refl) as [Hn Hcl]. rewrite <- Hd in Hn. rewrite <- Hc in Hcl.
  destruct (tx_reply_ok (E:=AppError ER) combined f2 tx peer (pm_message_id parsed) Confirmable t0 (pm_code parsed) Hf2 Hmid) as (f3' & kp & Hr & Hf3 & _ & Hfirst).
  rewrite Hrec in Hr. injection Hr as <- <-. specialize (Hfirst eq_refl Honce Hn Hcl). change (mkDedupKey (pm_message_id parsed) peer) with k in Hfirst.
  destruct (served_all combined t0 k f3 f Hrun (conj Hf3 Hfirst)) as [Hf Hrem].
  destruct (replay_ok (E:=AppError ER) combined f peer parsed now Hf Hmid) as (f' & r & Hr & _ & Hk & _).
  destruct (Hk k (dedup_due_ms t0) Hnow (due_later t0 now Ht) ltac:(by left) Hrem) as [_ Hhit].
  destruct r as [answer|]; [by exists f', answer|]. by destruct (Hhit eq_refl Honce).
Qed.
End arrivals.
End laws.

(** ** Witness: a POST answered with 2.04, then repeated *)
Section witness.
#[local] Existing Instance target64.
#[local] Existing Instance loopback.

(** CON POST with token 5 and Message ID 7, and its ACK 2.04 in the TX slot. *)
Definition ex_post : ParsedMessage Token := mkParsed _ (mkHeader 1 Confirmable 1 2 7) (mkToken [5; 0; 0; 0; 0; 0; 0; 0] 1) [] [].
Definition ex_server : Engine AllocDatagramPool AllocDatagramPool (AllocBodyPool Token) (AllocBodyPool Token) Token unit :=
  from_storage (mkMemory (ex_slot_pool [] None) (mkTx (ex_slot_pool [97; 68; 0; 7; 5] (Some ex_peer_ep)) 0)
    (DedupTable_new 2) (SlotTable_new 1) (ExchangeTable_new 1) None).
Definition ex_start : (Engine AllocDatagramPool AllocDatagramPool (AllocBodyPool Token) (AllocBodyPool Token) Token unit * list (Endpoint * list Z)) * option DedupClosed :=
  ((ex_server, []), None).
Definition ex_answered := (remember_tx_reply (E:=AppError unit) true 0 ex_peer_ep 7 Confirmable 100 2 ex_start).1.

Lemma ex_start_inv : app_inv ex_start.
Proof.
  unfold app_inv. split_and!.
  - apply ex_slot_pool_ok.
  - unfold cap_fits. vm_compute. discriminate.
  - apply (SlotTable_new_inv (R:=DedupEntry) 2).
  - intros k row Hk. rewrite (proj2 (SlotTable_new_inv (R:=DedupEntry) 2)) in Hk. discriminate Hk.
Qed.

Lemma duplicate_not_rerun_witness :
  ∃ f' answer, replay_con_request true ex_peer_ep ex_post 5000 ex_answered = (f', Ok (E:=AppError unit) (Hit answer)).
Proof.
  apply (duplicate_not_rerun (ER:=unit) true ex_start ex_start ex_start ex_answered ex_answered ex_peer_ep ex_post 0 100 KeepNo 5000).
  - exact ex_start_inv.
  - split; vm_compute; [discriminate|reflexivity].
  - reflexivity.
  - vm_compute. reflexivity.
  - split; reflexivity.
  - exact ex_start_inv.
  - vm_compute. reflexivity.
  - apply rtc_refl.
  - vm_compute. split; [discriminate|reflexivity].
Defined.
End witness.
