(* ===== verification/AppResponse.v ===== *)
(** * Responses of handlers

    [src/app/response.rs], [Response]: a bounded intent a handler builds with
    chained setters, and [encode_response] of [src/app/mod.rs] (the build
    without the [oscore] feature), which turns it into a datagram.  Text is its
    UTF-8 bytes.  A setter that copies into a fixed array returns [res], since a
    copy could panic. *)
From S2P Require Import Prelude Errors MsgTypes Options Encode Decode OptionsBuilder OptionValues MessageOptions MissingBlocks.
From S2P Require Import Occupancy Pending DatagramPool PendingCons SlotTable Dedup Observe Block BodyPool Exchange Engine.
From S2P Require Import Problem AppIdentity Transport AppSend.

Definition INLINE_PAYLOAD : nat := 128.
Definition RESPONSE_BODY : nat := 4096.
Definition LOCATION_MAX : nat := 8.
Definition CF_TEXT_PLAIN : Z := 0.
Definition CF_PROBLEM_DETAILS : Z := 257.
Definition CF_MISSING_BLOCKS : Z := 272.

Definition Code_UNAUTHORIZED : Code := pack_code 4 1.
Definition Code_FORBIDDEN : Code := pack_code 4 3.
Definition Code_NOT_FOUND : Code := pack_code 4 4.
Definition Code_METHOD_NOT_ALLOWED : Code := pack_code 4 5.
Definition Code_UNSUPPORTED_CONTENT_FORMAT : Code := pack_code 4 15.
Definition Code_TOO_MANY_REQUESTS : Code := pack_code 4 29.
Definition Code_INTERNAL_SERVER_ERROR : Code := pack_code 5 0.
Definition Code_NOT_IMPLEMENTED : Code := pack_code 5 1.
Definition Code_SERVICE_UNAVAILABLE : Code := pack_code 5 3.

Inductive Payload : Type := PEmpty | PStatic (bytes : list Z) | PInline (bytes : list Z) (len : Z) | PBorrowed (bytes : list Z).
(** The snapshot of a received reply: its encoded header, Token and options and
    the front of its payload. *)
Record ReplyMeta : Type := mkReplyMeta {
  rm_received_at_ms : Z;
  rm_header : list Z;
  rm_header_len : Z;
  rm_peer : Endpoint;
  rm_payload : list Z;
  rm_payload_len : Z;
  rm_payload_src_len : Z
}.
Record Received (T : Type) : Type := mkReceived { rv_header : Header; rv_token : T; rv_options : list Z; rv_origin : ReplyMeta }.
Arguments mkReceived {T} _ _ _ _.
Arguments rv_header {T} _.
Arguments rv_token {T} _.
Arguments rv_options {T} _.
Arguments rv_origin {T} _.

Record Response (T : Type) : Type := mkResponse {
  rs_invalid : option ResponseError;
  rs_received : option (Received T);
  rs_code : Code;
  rs_payload : Payload;
  rs_content_format : option Z;
  rs_etag : list Z;
  rs_etag_len : Z;
  rs_max_age : option Z;
  rs_observe : option Z;
  rs_assembled : option (list Z);
  rs_echo : option Echo;
  rs_location_path : option (list (list Z));
  rs_location_path_len : Z;
  rs_location_query : option (list (list Z));
  rs_location_query_len : Z;
  rs_separate : bool;
  rs_deferred : bool;
  rs_fresh_piv : bool;
  rs_payload_src_len : nat
}.
Arguments mkResponse {T} _ _ _ _ _ _ _ _ _ _ _ _ _ _ _ _ _ _ _.
Arguments rs_invalid {T} _.
Arguments rs_received {T} _.
Arguments rs_code {T} _.
Arguments rs_payload {T} _.
Arguments rs_content_format {T} _.
Arguments rs_etag {T} _.
Arguments rs_etag_len {T} _.
Arguments rs_max_age {T} _.
Arguments rs_observe {T} _.
Arguments rs_assembled {T} _.
Arguments rs_echo {T} _.
Arguments rs_location_path {T} _.
Arguments rs_location_path_len {T} _.
Arguments rs_location_query {T} _.
Arguments rs_location_query_len {T} _.
Arguments rs_separate {T} _.
Arguments rs_deferred {T} _.
Arguments rs_fresh_piv {T} _.
Arguments rs_payload_src_len {T} _.

(** [&values[..n]]. *)
Definition prefix_of {E A} (values : list A) (n : nat) : res E (list A) := if (n <=? length values)%nat then Ok (take n values) else Panic.

Section response.
Context {T : Type} `{Target}.
Abbreviation R := (Response T).
Implicit Types (r : R).

Definition Response_new (code : Code) : R :=
  mkResponse None None code PEmpty None (replicate 8 0) 0 None None None None None 0 None 0 false false false 0.

(** The setters of the fields. *)
Definition put_invalid r x : R :=
  mkResponse x (rs_received r) (rs_code r) (rs_payload r) (rs_content_format r) (rs_etag r) (rs_etag_len r) (rs_max_age r) (rs_observe r)
    (rs_assembled r) (rs_echo r) (rs_location_path r) (rs_location_path_len r) (rs_location_query r) (rs_location_query_len r)
    (rs_separate r) (rs_deferred r) (rs_fresh_piv r) (rs_payload_src_len r).
Definition put_received r x : R :=
  mkResponse (rs_invalid r) x (rs_code r) (rs_payload r) (rs_content_format r) (rs_etag r) (rs_etag_len r) (rs_max_age r) (rs_observe r)
    (rs_assembled r) (rs_echo r) (rs_location_path r) (rs_location_path_len r) (rs_location_query r) (rs_location_query_len r)
    (rs_separate r) (rs_deferred r) (rs_fresh_piv r) (rs_payload_src_len r).
Definition put_payload r x (src_len : nat) : R :=
  mkResponse (rs_invalid r) (rs_received r) (rs_code r) x (rs_content_format r) (rs_etag r) (rs_etag_len r) (rs_max_age r) (rs_observe r)
    (rs_assembled r) (rs_echo r) (rs_location_path r) (rs_location_path_len r) (rs_location_query r) (rs_location_query_len r)
    (rs_separate r) (rs_deferred r) (rs_fresh_piv r) src_len.
Definition put_content_format r x : R :=
  mkResponse (rs_invalid r) (rs_received r) (rs_code r) (rs_payload r) x (rs_etag r) (rs_etag_len r) (rs_max_age r) (rs_observe r)
    (rs_assembled r) (rs_echo r) (rs_location_path r) (rs_location_path_len r) (rs_location_query r) (rs_location_query_len r)
    (rs_separate r) (rs_deferred r) (rs_fresh_piv r) (rs_payload_src_len r).
Definition put_etag r x n : R :=
  mkResponse (rs_invalid r) (rs_received r) (rs_code r) (rs_payload r) (rs_content_format r) x n (rs_max_age r) (rs_observe r)
    (rs_assembled r) (rs_echo r) (rs_location_path r) (rs_location_path_len r) (rs_location_query r) (rs_location_query_len r)
    (rs_separate r) (rs_deferred r) (rs_fresh_piv r) (rs_payload_src_len r).
Definition put_max_age r x : R :=
  mkResponse (rs_invalid r) (rs_received r) (rs_code r) (rs_payload r) (rs_content_format r) (rs_etag r) (rs_etag_len r) x (rs_observe r)
    (rs_assembled r) (rs_echo r) (rs_location_path r) (rs_location_path_len r) (rs_location_query r) (rs_location_query_len r)
    (rs_separate r) (rs_deferred r) (rs_fresh_piv r) (rs_payload_src_len r).
Definition put_observe r x : R :=
  mkResponse (rs_invalid r) (rs_received r) (rs_code r) (rs_payload r) (rs_content_format r) (rs_etag r) (rs_etag_len r) (rs_max_age r) x
    (rs_assembled r) (rs_echo r) (rs_location_path r) (rs_location_path_len r) (rs_location_query r) (rs_location_query_len r)
    (rs_separate r) (rs_deferred r) (rs_fresh_piv r) (rs_payload_src_len r).
Definition put_assembled r x : R :=
  mkResponse (rs_invalid r) (rs_received r) (rs_code r) (rs_payload r) (rs_content_format r) (rs_etag r) (rs_etag_len r) (rs_max_age r) (rs_observe r)
    x (rs_echo r) (rs_location_path r) (rs_location_path_len r) (rs_location_query r) (rs_location_query_len r)
    (rs_separate r) (rs_deferred r) (rs_fresh_piv r) (rs_payload_src_len r).
Definition put_echo r x : R :=
  mkResponse (rs_invalid r) (rs_received r) (rs_code r) (rs_payload r) (rs_content_format r) (rs_etag r) (rs_etag_len r) (rs_max_age r) (rs_observe r)
    (rs_assembled r) x (rs_location_path r) (rs_location_path_len r) (rs_location_query r) (rs_location_query_len r)
    (rs_separate r) (rs_deferred r) (rs_fresh_piv r) (rs_payload_src_len r).
Definition put_paths r x n : R :=
  mkResponse (rs_invalid r) (rs_received r) (rs_code r) (rs_payload r) (rs_content_format r) (rs_etag r) (rs_etag_len r) (rs_max_age r) (rs_observe r)
    (rs_assembled r) (rs_echo r) x n (rs_location_query r) (rs_location_query_len r)
    (rs_separate r) (rs_deferred r) (rs_fresh_piv r) (rs_payload_src_len r).
Definition put_queries r x n : R :=
  mkResponse (rs_invalid r) (rs_received r) (rs_code r) (rs_payload r) (rs_content_format r) (rs_etag r) (rs_etag_len r) (rs_max_age r) (rs_observe r)
    (rs_assembled r) (rs_echo r) (rs_location_path r) (rs_location_path_len r) x n
    (rs_separate r) (rs_deferred r) (rs_fresh_piv r) (rs_payload_src_len r).
Definition put_flags r separate deferred fresh_piv : R :=
  mkResponse (rs_invalid r) (rs_received r) (rs_code r) (rs_payload r) (rs_content_format r) (rs_etag r) (rs_etag_len r) (rs_max_age r) (rs_observe r)
    (rs_assembled r) (rs_echo r) (rs_location_path r) (rs_location_path_len r) (rs_location_query r) (rs_location_query_len r)
    separate deferred fresh_piv (rs_payload_src_len r).

(** ** Reading *)
Definition payload_stored_len (p : Payload) : nat :=
  match p with PEmpty => 0 | PStatic bytes | PBorrowed bytes => length bytes | PInline _ len => Z.to_nat len end.
Definition Response_payload {E} r : res E (list Z) :=
  match rs_payload r with
  | PEmpty => mret []
  | PStatic bytes | PBorrowed bytes => mret bytes
  | PInline bytes len => slice_idx bytes 0 (Z.to_nat len)
  end.
Definition payload_truncated {E} r : res E bool := p ← Response_payload r; mret (length p <? rs_payload_src_len r)%nat.
Definition Response_validate r : res ResponseError unit :=
  match rs_invalid r with
  | Some error => Err error
  | None => if (payload_stored_len (rs_payload r) <? rs_payload_src_len r)%nat then Err PayloadTruncated else Ok tt
  end.
Definition etag_bytes {E} r : res E (option (list Z)) :=
  if rs_etag_len r =? 0 then mret None else b ← slice_idx (rs_etag r) 0 (Z.to_nat (rs_etag_len r)); mret (Some b).
Definition location_paths {E} r : res E (list (list Z)) :=
  match rs_location_path r with Some values => prefix_of values (Z.to_nat (rs_location_path_len r)) | None => mret [] end.
Definition location_queries {E} r : res E (list (list Z)) :=
  match rs_location_query r with Some values => prefix_of values (Z.to_nat (rs_location_query_len r)) | None => mret [] end.
Definition has_locations r : bool := negb (rs_location_path_len r =? 0) || negb (rs_location_query_len r =? 0).
Definition has_only_etag_and_format r : bool :=
  negb (has_locations r) && negb (is_some (rs_observe r)) && negb (is_some (rs_max_age r)) && negb (is_some (rs_echo r)).

(** ** Setting *)
Definition Response_invalid r (error : ResponseError) : R := if is_some (rs_invalid r) then r else put_invalid r (Some error).
Definition with_static r (payload : list Z) : R :=
  put_payload r (if is_nil payload then PEmpty else PStatic payload) (length payload).
Definition payload_copy {E} r (payload : list Z) : res E R :=
  let n := Nat.min (length payload) INLINE_PAYLOAD in
  part ← slice_idx payload 0 n;
  bytes ← copy_into 0 n part (replicate INLINE_PAYLOAD 0);
  mret (put_payload r (if (n =? 0)%nat then PEmpty else PInline bytes (wrap 16 (Z.of_nat n))) (length payload)).
Definition try_payload_copy r (payload : list Z) : res ResponseError R :=
  if (INLINE_PAYLOAD <? length payload)%nat then Err PayloadTruncated else payload_copy r payload.
Definition payload_copy_full {E} r (payload : list Z) : res E R :=
  if (length payload <=? INLINE_PAYLOAD)%nat then payload_copy r payload
  else
    part ← slice_idx payload 0 (Nat.min (length payload) RESPONSE_BODY);
    mret (put_payload r (PBorrowed part) (length payload)).
Definition payload_borrowed r (payload : list Z) : R := put_payload r (PBorrowed payload) (length payload).
Definition with_complete_payload r (src : list Z) (assembled : bool) : R :=
  put_assembled (put_payload r (PBorrowed src) (length src)) (if assembled then Some src else None).
Definition with_assembled r (src : list Z) : R := put_assembled r (Some src).
Definition with_payload_src_len r (n : Z) : R := put_payload r (rs_payload r) (Z.to_nat n).

Definition content_format r (format : Z) : R := put_content_format r (Some format).
Definition retain_format r (format : option Z) : R := put_content_format r format.
Definition max_age r (seconds : Z) : R := put_max_age r (Some seconds).
Definition retain_max_age r (seconds : option Z) : R := put_max_age r seconds.
Definition set_observe r (sequence : Z) : R := put_observe r (Some sequence).
Definition clear_observe r : R := put_observe r None.
Definition set_echo r (echo : Echo) : R := put_echo r (Some echo).
Definition separate r : R := put_flags r true (rs_deferred r) (rs_fresh_piv r).
Definition deferred : R := put_flags (Response_new Code_EMPTY) false true false.
Definition with_fresh_piv r : R := put_flags r (rs_separate r) (rs_deferred r) true.

Definition etag {E} r (tag : list Z) : res E R :=
  let n := length tag in
  if negb ((1 <=? n)%nat && (n <=? 8)%nat) then mret (Response_invalid r EtagLength)
  else buf ← copy_into 0 n tag (rs_etag r); mret (put_etag r buf (wrap 8 (Z.of_nat n))).

(** The append common to both kinds of location. *)
Definition location_append {E} (values : option (list (list Z))) (n : nat) (value : list Z) : res E (list (list Z)) :=
  set_idx n value match values with Some values => values | None => replicate LOCATION_MAX [] end.
Definition is_dots (segment : list Z) : bool := eqb segment [46] || eqb segment [46; 46].
Definition location_path {E} r (segment : list Z) : res E R :=
  let n := Z.to_nat (rs_location_path_len r) in
  if (LOCATION_MAX <=? n)%nat || (255 <? length segment)%nat then mret (Response_invalid r LocationPathBounds)
  else if is_dots segment then mret (Response_invalid r LocationDotSegment)
  else
    values ← location_append (rs_location_path r) n segment;
    len ← from_option Ok Panic (checked_add 8 (rs_location_path_len r) 1);
    mret (put_paths r (Some values) len).
Definition location_query {E} r (query : list Z) : res E R :=
  let n := Z.to_nat (rs_location_query_len r) in
  if (LOCATION_MAX <=? n)%nat || (255 <? length query)%nat then mret (Response_invalid r LocationQueryBounds)
  else
    values ← location_append (rs_location_query r) n query;
    len ← from_option Ok Panic (checked_add 8 (rs_location_query_len r) 1);
    mret (put_queries r (Some values) len).

(** ** Payloads with a format of their own *)

(** [attempts] of [encode_problem_payload]. *)
Definition problem_of (code : Code) (title detail : option (list Z)) : ProblemDetails :=
  let d := ProblemDetails_new code in
  let d := match title with Some t => problem_title d t | None => d end in
  match detail with Some t => problem_detail d t | None => d end.
Fixpoint try_problems {E} (code : Code) (attempts : list (option (list Z) * option (list Z))) (buf : list Z) : res E Payload :=
  match attempts with
  | [] => mret PEmpty
  | (title, detail) :: attempts =>
      match problem_encode (problem_of code title detail) buf with
      | (buf, Ok n) =>
          part ← slice_idx buf 0 n;
          bytes ← copy_into 0 n part (replicate INLINE_PAYLOAD 0);
          mret (PInline bytes (wrap 16 (Z.of_nat n)))
      | (buf, Err _) => try_problems code attempts buf
      | (_, Panic) => Panic
      | (_, Diverge) => Diverge
      end
  end.
Definition encode_problem_payload {E} (code : Code) (title detail : option (list Z)) : res E Payload :=
  try_problems code [(title, detail); (title, None); (None, None)] (replicate INLINE_PAYLOAD 0).
Definition with_problem {E} r (title detail : option (list Z)) : res E R :=
  let r := put_content_format r (Some (match rs_content_format r with Some f => f | None => CF_PROBLEM_DETAILS end)) in
  payload ← encode_problem_payload (rs_code r) title detail;
  mret (put_payload r payload (payload_stored_len payload)).
Definition Response_problem {E} (code : Code) : res E R := with_problem (Response_new code) None None.

Inductive Field : Type := FieldTitle | FieldDetail.
Definition problem_field {E} r (field : Field) : res E (option (list Z)) :=
  p ← Response_payload r;
  match problem_decode p with
  | Ok d => mret (option_map pt_text match field with FieldTitle => pd_title d | FieldDetail => pd_detail d end)
  | Err _ => mret None
  | Panic => Panic
  | Diverge => Diverge
  end.
(** The copy is UTF-8 because its source is. *)
Definition copy_problem_field (src : option (list Z)) (capacity : nat) : option (list Z) :=
  match src with Some text => if (capacity <? length text)%nat then None else Some text | None => None end.
Definition title {E} r (text : list Z) : res E R :=
  detail ← problem_field r FieldDetail;
  with_problem r (Some text) (copy_problem_field detail INLINE_PAYLOAD).
Definition detail {E} r (text : list Z) : res E R :=
  title ← problem_field r FieldTitle;
  with_problem r (copy_problem_field title INLINE_PAYLOAD) (Some text).
Definition problem_details {E} r : res E (option ProblemDetails) :=
  if negb (eqb (rs_content_format r) (Some CF_PROBLEM_DETAILS)) then mret None
  else
    p ← Response_payload r;
    match problem_decode p with Ok d => mret (Some d) | Err _ => mret None | Panic => Panic | Diverge => Diverge end.
Definition response_unprocessed_options r (numbers : list Z) : res ProblemError R :=
  details ← (if eqb (rs_content_format r) (Some CF_PROBLEM_DETAILS) then p ← Response_payload r; problem_decode p
             else Ok (ProblemDetails_new (rs_code r)));
  details ← with_unprocessed_options details numbers;
  match problem_encode details (replicate INLINE_PAYLOAD 0) with
  | (buf, Ok n) => part ← slice_idx buf 0 n; payload_copy (content_format r CF_PROBLEM_DETAILS) part
  | (_, Err e) => Err e
  | (_, Panic) => Panic
  | (_, Diverge) => Diverge
  end.
Definition missing_blocks {E} (nums : list Z) : res E R :=
  let r := content_format (Response_new Code_REQUEST_ENTITY_INCOMPLETE) CF_MISSING_BLOCKS in
  match MissingBlocks_encode nums (replicate INLINE_PAYLOAD 0) with
  | (buf, Ok n) => part ← slice_idx buf 0 n; payload_copy r part
  | (_, Err _) => mret r
  | (_, Panic) => Panic
  | (_, Diverge) => Diverge
  end.

(** The numbers are written into [out]; what is left of it is returned too. *)
Definition missing_block_nums {E} r (out : list Z) : res E (option (list Z)) :=
  if negb (eqb (rs_content_format r) (Some CF_MISSING_BLOCKS)) then mret None
  else
    p ← Response_payload r;
    match MissingBlocks_decode p out with
    | (out, Ok n) => nums ← slice_idx out 0 n; mret (Some nums)
    | (_, Err _) => mret None
    | (_, Panic) => Panic
    | (_, Diverge) => Diverge
    end.

(** The shorthands. *)
Definition content (payload : list Z) : R := with_static (Response_new Code_CONTENT) payload.
Definition content_copy {E} (payload : list Z) : res E R := payload_copy (Response_new Code_CONTENT) payload.
Definition try_content_copy (payload : list Z) : res ResponseError R := try_payload_copy (Response_new Code_CONTENT) payload.
Definition created : R := Response_new Code_CREATED.
Definition deleted : R := Response_new Code_DELETED.
Definition valid : R := Response_new Code_VALID.
Definition changed : R := Response_new Code_CHANGED.
Definition bad_request : R := Response_new Code_BAD_REQUEST.
Definition unauthorized : R := Response_new Code_UNAUTHORIZED.
Definition forbidden : R := Response_new Code_FORBIDDEN.
Definition not_found : R := Response_new Code_NOT_FOUND.
Definition method_not_allowed : R := Response_new Code_METHOD_NOT_ALLOWED.
Definition precondition_failed : R := Response_new Code_PRECONDITION_FAILED.
Definition unsupported_content_format : R := Response_new Code_UNSUPPORTED_CONTENT_FORMAT.
Definition internal_error : R := Response_new Code_INTERNAL_SERVER_ERROR.
Definition not_implemented : R := Response_new Code_NOT_IMPLEMENTED.
Definition too_many_requests (retry_after_secs : Z) : R := max_age (Response_new Code_TOO_MANY_REQUESTS) retry_after_secs.
Definition service_unavailable : R := Response_new Code_SERVICE_UNAVAILABLE.

(** A reply as the client sees it. *)
Definition from_client {E} (header : ParsedMessage T) (origin : ReplyMeta) (payload : list Z) (format : option Z) : res E R :=
  r ← payload_copy (Response_new (pm_code header)) payload;
  mret (put_received (put_content_format r format)
    (Some (mkReceived (pm_header _ header) (pm_token _ header) (pm_options _ header) origin))).
End response.

(** ** The held body of a collected reply *)
(** [len] is the length plus one. *)
Record AssembledBuf : Type := mkAssembled { ab_bytes : list Z; ab_len : Z }.
Definition AssembledBuf_default : AssembledBuf := mkAssembled (replicate RESPONSE_BODY 0) 1.
Definition assembled_store {E} (b : AssembledBuf) (src : list Z) : res E AssembledBuf :=
  let n := Nat.min (length src) RESPONSE_BODY in
  part ← slice_idx src 0 n;
  bytes ← copy_into 0 n part (ab_bytes b);
  len ← from_option Ok Panic (checked_add 16 (wrap 16 (Z.of_nat n)) 1);
  mret (mkAssembled bytes len).
Definition assembled_view {E} (b : AssembledBuf) : res E (option (list Z)) :=
  bytes ← slice_idx (ab_bytes b) 0 (Z.to_nat (ab_len b - 1)); mret (Some bytes).

(** A packet scratch of [CAPACITY] bytes shares the storage of the body where it fits. *)
Inductive ScratchStorage : Type := ScratchPacket (packet : list Z) | ScratchBody (body : AssembledBuf).
Section scratch.
Context (CAPACITY : nat).
Definition SharedScratch_default : ScratchStorage :=
  if (CAPACITY <=? RESPONSE_BODY)%nat then ScratchBody AssembledBuf_default else ScratchPacket (replicate CAPACITY 0).
(** The storage and the bytes lent, with the way to store them back. *)
Definition shared_scratch {E} (s : ScratchStorage) : res E (list Z * (list Z → ScratchStorage)) :=
  let s := if (RESPONSE_BODY <? CAPACITY)%nat && match s with ScratchBody _ => true | _ => false end then ScratchPacket (replicate CAPACITY 0) else s in
  match s with
  | ScratchPacket packet => mret (packet, ScratchPacket)
  | ScratchBody body =>
      lent ← slice_idx (ab_bytes body) 0 CAPACITY;
      mret (lent, fun bytes => ScratchBody (mkAssembled (splice (ab_bytes body) 0 bytes) 1))
  end.
Definition shared_store {E} (s : ScratchStorage) (src : list Z) : res E ScratchStorage :=
  let s := match s with ScratchPacket _ => ScratchBody AssembledBuf_default | _ => s end in
  match s with
  | ScratchPacket _ => mret s
  | ScratchBody body => body ← assembled_store body src; mret (ScratchBody body)
  end.
Definition shared_view {E} (s : ScratchStorage) : res E (option (list Z)) :=
  match s with ScratchPacket _ => mret (Some []) | ScratchBody body => assembled_view body end.
End scratch.
