(* ===== verification/AppResponseLaws.v ===== *)
(** * Responses are well formed

    [src/app/response.rs].  Whatever a handler asks of a response, in whatever
    order, its fixed arrays keep their lengths and its length fields stay inside
    them, so that reading it never panics; a refused setter is remembered until
    the response is sent. *)
From S2P Require Import Prelude Errors MsgTypes Options Encode Decode OptionsBuilder OptionValues MessageOptions MissingBlocks AsciiText.
From S2P Require Import Occupancy Pending DatagramPool PendingCons SlotTable Dedup Observe Block BodyPool Exchange Engine.
From S2P Require Import Problem ProblemLaws ProblemRound AppIdentity Transport AppSend AppResponse.

(** ** Texts of decoded details *)
Definition text_ok (t : ProblemText) : Prop := utf8_valid (pt_text t) = true ∧ bytes_ok (pt_text t).
Lemma annotated_valid v t : annotated v t → bytes_ok v → utf8_valid t = true ∧ bytes_ok t.
Proof.
  induction 1 as [v t (h & -> & _ & Hu)|h n v t _ _ IH]; intros [_ Hb]%bytes_ok_app; [done|by apply IH].
Qed.
Lemma ptext_valid v t : ptext_item v t → bytes_ok v → text_ok t.
Proof.
  destruct 1 as [v t (h & -> & _ & Hu)|h1 h2 vl l vt t vd d _ _ _ Ht _ _]; intros Hb; rewrite !bytes_ok_app in Hb.
  - split; [done|]. apply Hb.
  - apply (annotated_valid vt); [done|apply Hb].
Qed.
Definition texts_ok (d : ProblemDetails) : Prop := (∀ t, pd_title d = Some t → text_ok t) ∧ (∀ t, pd_detail d = Some t → text_ok t).
Lemma set_all_texts x es y : set_all x es = Some y → Forall entry_ok es → Forall entry_bytes es → texts_ok x → texts_ok y.
Proof.
  revert x. induction es as [|e es IH]; intros x; cbn [set_all]; [by intros [= ->]|].
  destruct (set_field x (en_val e)) as [x'|] eqn:Es; [|done]. intros Hs [[_ Hv] Hes]%Forall_cons [Hb Hbs]%Forall_cons Hx. apply (IH x' Hs Hes Hbs).
  apply bytes_ok_app in Hb as [_ Hb]. destruct x as [code title detail instance uri lang dir unp orig ed]. destruct Hx as [H1 H2]. cbn in H1, H2.
  destruct Hv as [v t Ht|v t Ht| | | | | | | |]; cbn in Es;
    repeat (match type of Es with context [is_some ?o] => destruct o; cbn in Es; [done|] end); injection Es as <-; split; cbn; try done;
    intros t' [= <-]; by eapply ptext_valid.
Qed.
Lemma decoded_texts `{Target} bytes d : bytes_ok bytes → problem_decode bytes = Ok d → texts_ok d.
Proof.
  intros Hb Hd. destruct (problem_decode_sound _ _ Hb Hd) as (h & es & x & -> & _ & _ & Hes & Hs & ->).
  apply bytes_ok_app in Hb as [_ Hb%wire_bytes]. by apply (set_all_texts _ _ _ Hs).
Qed.

(** ** The Missing-Blocks writer stays inside its buffer *)
Definition inside {A} (n : nat) (w : st (list Z * nat) MissingBlocksError A) : Prop :=
  ∀ buf i, bytes_ok buf → length buf = n → (i ≤ n)%nat →
    match w (buf, i) with ((buf', j), (Ok _ | Err _)) => bytes_ok buf' ∧ length buf' = n ∧ (j ≤ n)%nat | _ => False end.
Lemma bytes_ok_insert i x bs : in_u 8 x → bytes_ok bs → bytes_ok (<[i:=x]> bs).
Proof. intros Hx Hb. by apply Forall_insert. Qed.
Lemma inside_put n x : in_u 8 x → inside n (mb_put x).
Proof.
  intros Hx buf i Hb Hl Hi. unfold mb_put. unbind. destruct (Nat.leb_spec (length buf) i); [done|].
  unfold set_idx. rewrite (proj2 (Nat.ltb_lt _ _)) by lia. split_and!; [by apply bytes_ok_insert|by rewrite length_insert|lia].
Qed.
Lemma inside_bind {A B} n (w : st _ _ A) (k : A → st _ _ B) : inside n w → (∀ a, inside n (k a)) → inside n (w ≫= k).
Proof.
  intros Hw Hk buf i Hb Hl Hi. specialize (Hw buf i Hb Hl Hi). unbind. destruct (w (buf, i)) as [[buf' j] [a|e| |]]; try done.
  destruct Hw as (H1 & H2 & H3). by apply Hk.
Qed.
Lemma inside_shifts n x l : inside n (mb_put_shifts x l).
Proof. induction l as [|s l IH]; cbn [mb_put_shifts]; [by intros buf i|]. apply inside_bind; [apply inside_put, wrap_in_u; lia|done]. Qed.
Lemma inside_uint n x : inside n (mb_put_uint x).
Proof.
  unfold mb_put_uint. repeat (match goal with |- context [x <=? ?m] => destruct (x <=? m) end);
    repeat (match goal with |- inside _ (_ ≫= _) => apply inside_bind; [|intros _] end);
    first [apply inside_shifts|apply inside_put; first [apply wrap_in_u; lia|done]].
Qed.
Lemma inside_loop n nums prev wrote : inside n (mb_encode_loop nums prev wrote).
Proof.
  revert prev wrote. induction nums as [|x nums IH]; intros prev wrote; cbn [mb_encode_loop]; [by intros buf i|].
  destruct (match prev with Some p => _ | None => _ end); [apply IH|]. intros buf i Hb Hl Hi. pose proof (inside_uint n x buf i Hb Hl Hi) as Hu.
  destruct (mb_put_uint x (buf, i)) as [[buf' j] [a|[]| |]]; try done; [destruct Hu as (H1 & H2 & H3); by apply IH|by destruct wrote].
Qed.
Lemma missing_blocks_inside nums buf :
  bytes_ok buf →
  match MissingBlocks_encode nums buf with
  | (buf', Ok n) => bytes_ok buf' ∧ length buf' = length buf ∧ (n ≤ length buf)%nat
  | (_, Err _) => True
  | _ => False
  end.
Proof.
  intros Hb. unfold MissingBlocks_encode. pose proof (inside_loop (length buf) nums None false buf 0%nat Hb eq_refl ltac:(lia)) as Hi.
  destruct (mb_encode_loop _ _ _ _) as [[buf' j] [[]|e| |]]; done.
Qed.

Section laws.
Context {T : Type} `{Target}.
Abbreviation R := (Response T).
Implicit Types (r : R).

(** ** The invariant *)
Definition data_ok (b : list Z) : Prop := bytes_ok b ∧ usize_ok (length b).
Definition payload_ok (p : Payload) : Prop :=
  match p with
  | PEmpty => True
  | PStatic b | PBorrowed b => data_ok b
  | PInline b n => length b = INLINE_PAYLOAD ∧ bytes_ok b ∧ 0 ≤ n ≤ Z.of_nat INLINE_PAYLOAD
  end.
Definition location_ok (s : list Z) : Prop := (length s ≤ 255)%nat ∧ bytes_ok s.
Definition locations_ok (P : list Z → Prop) (values : option (list (list Z))) (n : Z) : Prop :=
  match values with
  | None => n = 0
  | Some l => length l = LOCATION_MAX ∧ 0 ≤ n ≤ Z.of_nat LOCATION_MAX ∧ Forall P (take (Z.to_nat n) l)
  end.
Definition echo_ok (e : Echo) : Prop := length (echo_bytes e) = Echo_MAX_LEN ∧ bytes_ok (echo_bytes e) ∧ 0 ≤ echo_len e ≤ Z.of_nat Echo_MAX_LEN.
Definition within (w : Z) (o : option Z) : Prop := ∀ x, o = Some x → in_u w x.

Record response_ok r : Prop := {
  ok_code : in_u 8 (rs_code r);
  ok_payload : payload_ok (rs_payload r);
  ok_format : within 16 (rs_content_format r);
  ok_etag : length (rs_etag r) = 8%nat ∧ bytes_ok (rs_etag r) ∧ 0 ≤ rs_etag_len r ≤ 8;
  ok_max_age : within 32 (rs_max_age r);
  ok_observe : within 32 (rs_observe r);
  ok_echo : ∀ e, rs_echo r = Some e → echo_ok e;
  ok_paths : locations_ok (fun s => location_ok s ∧ is_dots s = false) (rs_location_path r) (rs_location_path_len r);
  ok_queries : locations_ok location_ok (rs_location_query r) (rs_location_query_len r)
}.

(** What a handler may ask of a response. *)
Inductive Build : Type :=
  | BStatic (payload : list Z) | BCopy (payload : list Z) | BTryCopy (payload : list Z) | BCopyFull (payload : list Z)
  | BBorrowed (payload : list Z) | BComplete (src : list Z) (assembled : bool) | BAssembled (src : list Z) | BSrcLen (n : Z)
  | BFormat (format : Z) | BRetainFormat (format : option Z) | BMaxAge (seconds : Z) | BRetainMaxAge (seconds : option Z)
  | BObserve (sequence : Z) | BClearObserve | BEcho (echo : Echo) | BSeparate | BFreshPiv
  | BEtag (tag : list Z) | BPath (segment : list Z) | BQuery (query : list Z)
  | BProblem (title detail : option (list Z)) | BTitle (text : list Z) | BDetail (text : list Z) | BUnprocessed (numbers : list Z).
Definition run_build (b : Build) r : res (ResponseError + ProblemError) R :=
  match b with
  | BStatic p => Ok (with_static r p) | BCopy p => payload_copy r p | BTryCopy p => map_err inl (try_payload_copy r p)
  | BCopyFull p => payload_copy_full r p | BBorrowed p => Ok (payload_borrowed r p)
  | BComplete src assembled => Ok (with_complete_payload r src assembled) | BAssembled src => Ok (with_assembled r src)
  | BSrcLen n => Ok (with_payload_src_len r n) | BFormat f => Ok (content_format r f) | BRetainFormat f => Ok (retain_format r f)
  | BMaxAge s => Ok (max_age r s) | BRetainMaxAge s => Ok (retain_max_age r s) | BObserve s => Ok (set_observe r s)
  | BClearObserve => Ok (clear_observe r) | BEcho e => Ok (set_echo r e) | BSeparate => Ok (separate r) | BFreshPiv => Ok (with_fresh_piv r)
  | BEtag t => etag r t | BPath s => location_path r s | BQuery q => location_query r q
  | BProblem t d => with_problem r t d | BTitle t => title r t | BDetail t => detail r t
  | BUnprocessed ns => map_err inr (response_unprocessed_options r ns)
  end.
Fixpoint chain (bs : list Build) r : res (ResponseError + ProblemError) R :=
  match bs with [] => Ok r | b :: bs => r ← run_build b r; chain bs r end.
(** The types of what the handler passes. *)
Definition build_ok (b : Build) : Prop :=
  match b with
  | BStatic p | BCopy p | BTryCopy p | BCopyFull p | BBorrowed p | BComplete p _ | BEtag p => data_ok p
  | BPath s | BQuery s => bytes_ok s
  | BAssembled _ | BClearObserve | BSeparate | BFreshPiv | BSrcLen _ => True
  | BFormat f => in_u 16 f | BRetainFormat f => within 16 f | BMaxAge s | BObserve s => in_u 32 s | BRetainMaxAge s => within 32 s
  | BEcho e => echo_ok e
  | BProblem t d => (∀ x, t = Some x → str_ok x) ∧ (∀ x, d = Some x → str_ok x)
  | BTitle t | BDetail t => str_ok t
  | BUnprocessed ns => Forall (in_u 64) ns ∧ usize_ok (length ns)
  end.

(** The calls that hand an error back instead of a response. *)
Definition can_fail (b : Build) : bool :=
  match b with BTryCopy p => (INLINE_PAYLOAD <? length p)%nat | BUnprocessed _ => true | _ => false end.

(** What the calls amount to: the last lawful ETag, the lawful location parts in
    their order, and the first call that was refused. *)
Record Fields : Type := { f_etag : option (list Z); f_paths : list (list Z); f_queries : list (list Z); f_refused : option ResponseError }.
Definition no_fields : Fields := {| f_etag := None; f_paths := []; f_queries := []; f_refused := None |}.
Definition refuse (e : ResponseError) (f : Fields) : Fields :=
  {| f_etag := f_etag f; f_paths := f_paths f; f_queries := f_queries f; f_refused := Some (default e (f_refused f)) |}.
Definition build_fields (f : Fields) (b : Build) : Fields :=
  match b with
  | BEtag tag =>
      if decide (1 ≤ length tag ≤ 8)%nat
      then {| f_etag := Some tag; f_paths := f_paths f; f_queries := f_queries f; f_refused := f_refused f |} else refuse EtagLength f
  | BPath s =>
      if decide (8 ≤ length (f_paths f) ∨ 255 < length s)%nat then refuse LocationPathBounds f
      else if decide (s = [46] ∨ s = [46; 46]) then refuse LocationDotSegment f
      else {| f_etag := f_etag f; f_paths := f_paths f ++ [s]; f_queries := f_queries f; f_refused := f_refused f |}
  | BQuery q =>
      if decide (8 ≤ length (f_queries f) ∨ 255 < length q)%nat then refuse LocationQueryBounds f
      else {| f_etag := f_etag f; f_paths := f_paths f; f_queries := f_queries f ++ [q]; f_refused := f_refused f |}
  | _ => f
  end.
Definition asked_fields (bs : list Build) : Fields := foldl build_fields no_fields bs.
(** The response has these fields. *)
Definition shows r (f : Fields) : Prop :=
  etag_bytes (E:=ResponseError) r = Ok (f_etag f) ∧ location_paths (E:=ResponseError) r = Ok (f_paths f) ∧
  location_queries (E:=ResponseError) r = Ok (f_queries f) ∧ rs_invalid r = f_refused f.

(** How a response is made. *)
Inductive Start : Type :=
  | SNew (code : Code) | SDeferred | SProblem (code : Code) | SMissing (nums : list Z)
  | SClient (header : ParsedMessage T) (origin : ReplyMeta) (payload : list Z) (format : option Z).
Definition run_start {E} (s : Start) : res E R :=
  match s with
  | SNew code => Ok (Response_new code) | SDeferred => Ok deferred | SProblem code => Response_problem code
  | SMissing nums => missing_blocks nums | SClient h o p f => from_client h o p f
  end.
Definition start_ok (s : Start) : Prop :=
  match s with
  | SNew code | SProblem code => in_u 8 code | SDeferred | SMissing _ => True
  | SClient h _ p f => in_u 8 (pm_code h) ∧ data_ok p ∧ within 16 f
  end.

(** ** Payloads *)
(** [n] bytes of [src] at the front of an inline array. *)
Lemma inline_ok n src :
  (n ≤ length src)%nat → (n ≤ INLINE_PAYLOAD)%nat →
  ∃ b, (∀ E, slice_idx (E:=E) src 0 n = Ok (take n src)) ∧
    (∀ E, copy_into (E:=E) 0 n (take n src) (replicate INLINE_PAYLOAD 0) = Ok b) ∧
    length b = INLINE_PAYLOAD ∧ take n b = take n src ∧ (bytes_ok (take n src) → payload_ok (PInline b (wrap 16 (Z.of_nat n)))) ∧
    Z.to_nat (wrap 16 (Z.of_nat n)) = n.
Proof.
  intros Hn Hm. unfold INLINE_PAYLOAD in *. assert (length (take n src) = n) as Hl by (rewrite length_take; lia).
  assert (wrap 16 (Z.of_nat n) = Z.of_nat n) as Hw by (apply wrap_small; unfold in_u; lia).
  exists (splice (replicate 128 0) 0 (take n src)).
  assert (length (splice (replicate 128 0) 0 (take n src)) = 128%nat) as Hs by (rewrite length_splice; rewrite length_replicate, ?Hl; lia).
  split_and!; [|intros E; apply copy_into_ok; rewrite ?length_replicate; lia|done| | |by rewrite Hw, Nat2Z.id].
  - intros E. by apply slice_prefix.
  - unfold splice. rewrite take_0. cbn [app]. by apply take_app_length'.
  - intros Hb. rewrite Hw. split_and!; [done| |unfold INLINE_PAYLOAD; lia..]. apply bytes_ok_app. split; [rewrite take_0; constructor|]. apply bytes_ok_app.
    split; [done|]. apply bytes_ok_drop, Forall_replicate. by vm_compute.
Qed.
Lemma response_payload_ok {E} r : payload_ok (rs_payload r) → ∃ p, Response_payload (E:=E) r = Ok p ∧ data_ok p ∧ length p = payload_stored_len (rs_payload r).
Proof.
  unfold Response_payload. destruct (rs_payload r) as [|b|b n|b]; cbn [payload_ok payload_stored_len].
  - intros _. exists []. split; [done|]. split; [|done]. split; [constructor|]. unfold usize_ok. pose proof usize_max_ge. cbn [length]. lia.
  - intros Hb. by exists b.
  - intros (Hl & Hb & Hn). unfold INLINE_PAYLOAD in *. rewrite slice_prefix by lia. eexists. split; [done|]. rewrite length_take.
    split; [|lia]. split; [by apply bytes_ok_take|]. unfold usize_ok. rewrite length_take. pose proof usize_max_ge. lia.
  - intros Hb. by exists b.
Qed.
Lemma payload_copy_spec r p :
  ∃ pl, (∀ E, payload_copy (E:=E) r p = Ok (put_payload r pl (length p))) ∧ (bytes_ok p → payload_ok pl) ∧
    ∀ r' E, rs_payload r' = pl → Response_payload (E:=E) r' = Ok (take INLINE_PAYLOAD p).
Proof.
  set (n := Nat.min (length p) INLINE_PAYLOAD). destruct (inline_ok n p ltac:(lia) ltac:(lia)) as (b & Hs & Hc & Hl & Ht & Hok & Hn).
  exists (if (n =? 0)%nat then PEmpty else PInline b (wrap 16 (Z.of_nat n))). split_and!.
  - intros E. unfold payload_copy. fold n. unbind. by rewrite Hs, Hc.
  - intros Hb. destruct (n =? 0)%nat; [done|]. by apply Hok, bytes_ok_take.
  - intros r' E Hr. assert (take INLINE_PAYLOAD p = take n p) as ->.
    { unfold n. destruct (Nat.le_ge_cases (length p) INLINE_PAYLOAD); [rewrite Nat.min_l by done; by rewrite !take_ge by lia|by rewrite Nat.min_r by done]. }
    unfold Response_payload. rewrite Hr. destruct (Nat.eqb_spec n 0) as [->|]; [by rewrite take_0|]. rewrite Hn, slice_prefix by lia. by rewrite Ht.
Qed.

(** ** Problem payloads *)
Definition opt_str (o : option (list Z)) : Prop := ∀ t, o = Some t → str_ok t.
Lemma problem_of_built code t d : in_u 8 code → opt_str t → opt_str d → built (problem_of code t d).
Proof.
  intros Hc Ht Hd. unfold problem_of. cbv zeta. assert (built (match t with Some t => problem_title (ProblemDetails_new code) t | None => ProblemDetails_new code end)) as Hb.
  { destruct t as [t|]; [|by constructor]. apply built_title; [by constructor|]. apply given_plain. by apply Ht. }
  destruct d as [d|]; [|done]. apply built_detail; [done|]. apply given_plain. by apply Hd.
Qed.
(** Too large for the inline payload. *)
Definition too_large code t d : Prop := (problem_encode (problem_of code t d) (replicate INLINE_PAYLOAD 0)).2 = Err BufferTooSmall.
(** [p] is an inline payload with these details. *)
Definition carries (p : Payload) code t d : Prop :=
  payload_ok p ∧ (∀ r E, rs_payload r = p → ∃ bytes y, Response_payload (E:=E) r = Ok bytes ∧ problem_decode bytes = Ok y ∧ same_details (problem_of code t d) y).
(** One attempt at an encoding. *)
Lemma attempt_spec code t d rest buf :
  in_u 8 code → opt_str t → opt_str d → length buf = INLINE_PAYLOAD →
  (∃ p, (∀ E, try_problems (E:=E) code ((t, d) :: rest) buf = Ok p) ∧ carries p code t d) ∨
  (∃ buf', (∀ E, try_problems (E:=E) code ((t, d) :: rest) buf = try_problems code rest buf') ∧ length buf' = INLINE_PAYLOAD ∧ too_large code t d).
Proof.
  intros Hc Ht Hd Hl. destruct (problem_encoding _ (problem_of_built code t d Hc Ht Hd)) as (out & He & Hb & Hdec & _).
  cbn [try_problems]. pose proof (He buf) as Hbuf. specialize (He (replicate INLINE_PAYLOAD 0)). rewrite length_replicate in He. rewrite Hl in Hbuf.
  destruct (Nat.leb_spec (length out) INLINE_PAYLOAD) as [Hle|Hgt].
  - left. assert (take (length out) (splice buf 0 out) = out) as Ho by (unfold splice; rewrite take_0; cbn [app]; apply take_app_length).
    destruct (inline_ok (length out) (splice buf 0 out)) as (b & Hs & Hcp & Hlb & Htb & Hok & Hn); [rewrite length_splice; lia|done|].
    rewrite Ho in *. exists (PInline b (wrap 16 (Z.of_nat (length out)))). split; [intros E; rewrite Hbuf; unbind; by rewrite Hs, Hcp|].
    split; [by apply Hok|]. intros r E Hr. unfold Response_payload. rewrite Hr, Hn, slice_prefix by lia. rewrite Htb. exists out.
    destruct Hdec as (y & Hy & Hsame); [unfold usize_ok; pose proof usize_max_ge; unfold INLINE_PAYLOAD in *; lia|]. by exists y.
  - right. destruct Hbuf as (buf' & E1 & Hl'). destruct He as (buf2 & E2 & _). exists buf'. split; [intros E; by rewrite E1|]. split; [done|].
    unfold too_large. by rewrite E2.
Qed.
Lemma code_fits code : in_u 8 code → ¬ too_large code None None.
Proof.
  intros [H0 H1] Hl. unfold too_large in Hl. rewrite <- (Z2Nat.id code) in Hl by done.
  assert (∀ n, (n < 256)%nat → is_some (res_ok (problem_encode (problem_of (Z.of_nat n) None None) (replicate INLINE_PAYLOAD 0)).2) = true) as Hall.
  { assert (forallb (fun n => is_some (res_ok (problem_encode (problem_of (Z.of_nat n) None None) (replicate INLINE_PAYLOAD 0)).2)) (seq 0 256) = true) as Hf
      by by vm_compute.
    intros n Hn. rewrite forallb_forall in Hf. apply Hf, in_seq. lia. }
  specialize (Hall (Z.to_nat code) ltac:(lia)). by rewrite Hl in Hall.
Qed.
(** The payload carries all of the texts, the title, or the code alone. *)
Lemma problem_payload_spec code t d :
  in_u 8 code → opt_str t → opt_str d →
  ∃ p, (∀ E, encode_problem_payload (E:=E) code t d = Ok p) ∧
    (carries p code t d ∨ (too_large code t d ∧ carries p code t None) ∨ (too_large code t d ∧ too_large code t None ∧ carries p code None None)).
Proof.
  intros Hc Ht Hd. assert (opt_str None) as Hno by done.
  destruct (attempt_spec code t d [(t, None); (None, None)] (replicate INLINE_PAYLOAD 0) Hc Ht Hd) as [(p & Hp & Hk)|(b1 & E1 & Hl1 & Hx1)];
    [apply length_replicate|exists p; split; [exact Hp|by left]|].
  destruct (attempt_spec code t None [(None, None)] b1 Hc Ht Hno Hl1) as [(p & Hp & Hk)|(b2 & E2 & Hl2 & Hx2)].
  { exists p. split; [intros E; unfold encode_problem_payload; by rewrite E1|]. right. by left. }
  destruct (attempt_spec code None None [] b2 Hc Hno Hno Hl2) as [(p & Hp & Hk)|(b3 & E3 & Hl3 & Hx3)]; [|by destruct (code_fits code)].
  exists p. split; [intros E; unfold encode_problem_payload; by rewrite E1, E2|]. right. by right.
Qed.

(** ** Every setter keeps the invariant *)
(** A response comes back, and its fields are those of [r] changed by [g]. *)
Definition goes_on (g : Fields → Fields) r (x : res (ResponseError + ProblemError) R) : Prop :=
  match x with
  | Ok r' => response_ok r' ∧ ∀ f, shows r f → shows r' (g f)
  | _ => False
  end.
(** The same, or the call handed back an error under the condition [P]. *)
Definition goes_on_or (P : Prop) (g : Fields → Fields) r (x : res (ResponseError + ProblemError) R) : Prop :=
  match x with Err _ => P | _ => goes_on g r x end.
Ltac put_fields Hr := split; [destruct Hr; constructor; cbn; try done|intros ? Hshows; exact Hshows].

Lemma payload_goes_on r p n : response_ok r → payload_ok p → goes_on id r (Ok (put_payload r p n)).
Proof. intros Hr Hp. put_fields Hr. Qed.
Lemma copy_goes_on r p : response_ok r → bytes_ok p → goes_on id r (payload_copy r p).
Proof. intros Hr Hp. destruct (payload_copy_spec r p) as (pl & -> & Hpl & _). apply payload_goes_on; [done|by apply Hpl]. Qed.
Lemma invalid_goes_on r e : response_ok r → goes_on (refuse e) r (Ok (Response_invalid r e)).
Proof.
  intros Hr. unfold Response_invalid. destruct (rs_invalid r) as [e'|] eqn:Ei; cbn [is_some]; (split; [destruct Hr; by constructor|]);
    intros f (H1 & H2 & H3 & H4); rewrite H4 in Ei; (split_and!; [done..|]); cbn [refuse f_refused]; rewrite Ei; [by rewrite H4|done].
Qed.
Lemma etag_goes_on r tag : response_ok r → data_ok tag → goes_on (fun f => build_fields f (BEtag tag)) r (etag r tag).
Proof.
  intros Hr [Hb _]. unfold etag. cbn [build_fields]. destruct (negb _) eqn:En.
  { apply negb_true_iff, andb_false_iff in En as [En%Nat.leb_gt|En%Nat.leb_gt]; destruct (decide _); try lia; by apply invalid_goes_on. }
  apply negb_false_iff, andb_true_iff in En as [E1%Nat.leb_le E2%Nat.leb_le]. destruct (decide (1 ≤ length tag ≤ 8)%nat) as [_|Hd]; [|lia].
  destruct (ok_etag _ Hr) as (Hl & He & _). rewrite copy_into_ok by (rewrite ?Hl; lia). unbind.
  assert (wrap 8 (Z.of_nat (length tag)) = Z.of_nat (length tag)) as Hw by (apply wrap_small; unfold in_u; lia).
  assert (length (splice (rs_etag r) 0 tag) = 8%nat) as Hs by (rewrite length_splice; lia). split.
  - destruct Hr. constructor; cbn; try done. rewrite Hw. split_and!; [done| |lia..].
    apply bytes_ok_app. split; [by apply bytes_ok_take|]. apply bytes_ok_app. split; [done|by apply bytes_ok_drop].
  - intros f (H1 & H2 & H3 & H4). split_and!; [|done..]. unfold etag_bytes. cbn [rs_etag rs_etag_len put_etag f_etag].
    rewrite Hw, (proj2 (Z.eqb_neq _ _)), Nat2Z.id, slice_prefix by lia. unfold splice. rewrite take_0. cbn [app]. by rewrite take_app_length.
Qed.
(** Appending to either kind of location. *)
Lemma append_ok (P : list Z → Prop) values n value :
  locations_ok P values n → (Z.to_nat n < LOCATION_MAX)%nat → P value →
  ∃ l, (∀ E, location_append (E:=E) values (Z.to_nat n) value = Ok l) ∧ checked_add 8 n 1 = Some (n + 1) ∧ locations_ok P (Some l) (n + 1) ∧
    take (Z.to_nat (n + 1)) l = take (Z.to_nat n) (default [] values) ++ [value].
Proof.
  intros Hv Hn Hp. set (l := match values with Some v => v | None => replicate LOCATION_MAX [] end).
  assert (length l = LOCATION_MAX ∧ 0 ≤ n ∧ Forall P (take (Z.to_nat n) l) ∧ take (Z.to_nat n) l = take (Z.to_nat n) (default [] values)) as (Hl & H0 & Hf & Hd).
  { unfold l. destruct values as [v|]; [destruct Hv as (? & [? ?] & ?); by split_and!|]. cbn in Hv. subst n. split_and!; done. }
  assert (take (Z.to_nat (n + 1)) (<[Z.to_nat n:=value]> l) = take (Z.to_nat n) l ++ [value]) as Ht.
  { replace (Z.to_nat (n + 1)) with (S (Z.to_nat n)) by lia. rewrite (take_S_r _ _ value) by (apply list_lookup_insert_eq; lia).
    by rewrite take_insert_ge by lia. }
  exists (<[Z.to_nat n:=value]> l). unfold location_append, set_idx. fold l. rewrite (proj2 (Nat.ltb_lt _ _)) by lia. split; [done|].
  unfold LOCATION_MAX in *. split; [unfold checked_add, max_u; by rewrite (proj2 (Z.leb_le _ _)) by lia|]. rewrite Ht, <- Hd. split; [|done].
  split; [by rewrite length_insert|]. split; [unfold LOCATION_MAX; lia|]. rewrite Ht. apply Forall_app. split; [done|by constructor].
Qed.
Lemma locations_read (P : list Z → Prop) values n :
  locations_ok P values n →
  ∃ l, (∀ E, match values with Some v => prefix_of (E:=E) v (Z.to_nat n) | None => mret [] end = Ok l) ∧ length l = Z.to_nat n ∧ (length l ≤ LOCATION_MAX)%nat ∧
    Forall P l ∧ l = take (Z.to_nat n) (default [] values).
Proof.
  destruct values as [v|]; cbn [locations_ok default].
  - intros (Hl & Hn & Hf). unfold prefix_of, LOCATION_MAX in *. exists (take (Z.to_nat n) v). split; [intros E; by rewrite (proj2 (Nat.leb_le _ _)) by lia|]. rewrite length_take. auto with lia.
  - intros ->. exists []. split; [done|]. cbn. split_and!; [done|lia|constructor|done].
Qed.
(** What is read after an append. *)
Lemma append_reads (P : list Z → Prop) values n l value old :
  locations_ok P values n → locations_ok P (Some l) (n + 1) → take (Z.to_nat (n + 1)) l = take (Z.to_nat n) (default [] values) ++ [value] →
  match values with Some v => prefix_of (E:=ResponseError) v (Z.to_nat n) | None => mret [] end = Ok old →
  prefix_of (E:=ResponseError) l (Z.to_nat (n + 1)) = Ok (old ++ [value]).
Proof.
  intros Hv Hl Ht Hold. destruct (locations_read _ _ _ Hv) as (l0 & H0 & _ & _ & _ & El0). rewrite H0 in Hold. injection Hold as <-.
  destruct (locations_read _ _ _ Hl) as (l1 & H1 & _ & _ & _ & El1). rewrite H1. cbn [default from_option id] in El1. by rewrite El1, Ht, El0.
Qed.
Lemma shown_len (P : list Z → Prop) values n old :
  locations_ok P values n → match values with Some v => prefix_of (E:=ResponseError) v (Z.to_nat n) | None => mret [] end = Ok old → length old = Z.to_nat n.
Proof. intros Hv Hold. destruct (locations_read _ _ _ Hv) as (l0 & H0 & Hn & _). rewrite H0 in Hold. by injection Hold as <-. Qed.
Lemma path_goes_on r s : response_ok r → bytes_ok s → goes_on (fun f => build_fields f (BPath s)) r (location_path r s).
Proof.
  intros Hr Hs. pose proof (ok_paths _ Hr) as Hp. unfold location_path. cbn [build_fields]. destruct (_ || _) eqn:Eb.
  { destruct (invalid_goes_on r LocationPathBounds Hr) as [Hok Hf]. split; [done|]. intros f Hfs. destruct (Hfs) as (_ & H2 & _).
    rewrite decide_True; [by apply Hf|]. rewrite (shown_len _ _ _ _ Hp H2). apply orb_true_iff in Eb as [E%Nat.leb_le|E%Nat.ltb_lt]; [by left|by right]. }
  apply orb_false_iff in Eb as [E1%Nat.leb_gt E2%Nat.ltb_ge].
  assert (∀ f, shows r f → ¬ (8 ≤ length (f_paths f) ∨ 255 < length s)%nat) as Hno.
  { intros f (_ & H2 & _). rewrite (shown_len _ _ _ _ Hp H2). unfold LOCATION_MAX in *. lia. }
  destruct (is_dots s) eqn:Ed.
  { destruct (invalid_goes_on r LocationDotSegment Hr) as [Hok Hf]. split; [done|]. intros f Hfs. rewrite decide_False by by apply Hno.
    rewrite decide_True; [by apply Hf|]. apply orb_true_iff in Ed as [E|E]; apply bool_decide_eq_true in E; auto. }
  destruct (append_ok _ _ _ s Hp E1) as (l & -> & Hc & Hl & Ht); [by split|]. unbind. rewrite Hc. cbn [from_option].
  split; [destruct Hr; constructor; cbn; done|]. intros f Hfs. rewrite decide_False by by apply Hno. rewrite decide_False.
  - destruct Hfs as (H1 & H2 & H3 & H4). split_and!; [done| |done..]. by apply (append_reads _ _ _ _ _ _ Hp Hl Ht).
  - by intros [-> | ->].
Qed.
Lemma query_goes_on r q : response_ok r → bytes_ok q → goes_on (fun f => build_fields f (BQuery q)) r (location_query r q).
Proof.
  intros Hr Hs. pose proof (ok_queries _ Hr) as Hp. unfold location_query. cbn [build_fields]. destruct (_ || _) eqn:Eb.
  { destruct (invalid_goes_on r LocationQueryBounds Hr) as [Hok Hf]. split; [done|]. intros f Hfs. destruct (Hfs) as (_ & _ & H3 & _).
    rewrite decide_True; [by apply Hf|]. rewrite (shown_len _ _ _ _ Hp H3). apply orb_true_iff in Eb as [E%Nat.leb_le|E%Nat.ltb_lt]; [by left|by right]. }
  apply orb_false_iff in Eb as [E1%Nat.leb_gt E2%Nat.ltb_ge].
  destruct (append_ok _ _ _ q Hp E1) as (l & -> & Hc & Hl & Ht); [by split|]. unbind. rewrite Hc. cbn [from_option].
  split; [destruct Hr; constructor; cbn; done|]. intros f (H1 & H2 & H3 & H4). rewrite decide_False.
  - split_and!; [done..| |done]. by apply (append_reads _ _ _ _ _ _ Hp Hl Ht).
  - rewrite (shown_len _ _ _ _ Hp H3). unfold LOCATION_MAX in *. lia.
Qed.
Lemma problem_goes_on r t d : response_ok r → opt_str t → opt_str d → goes_on id r (with_problem r t d).
Proof.
  intros Hr Ht Hd. unfold with_problem. cbn [rs_code put_content_format]. destruct (problem_payload_spec (rs_code r) t d (ok_code _ Hr) Ht Hd) as (p & Hp & Hc).
  rewrite Hp. unbind. assert (payload_ok p) as Hok by (by destruct Hc as [[]|[[? []]|(? & ? & [])]]). put_fields Hr.
  intros x. destruct (rs_content_format r); [by apply ok_format0|]. by intros [= <-].
Qed.
(** The other text of a problem, when the payload has it and it is short enough. *)
Lemma kept_field {E} r field :
  response_ok r → ∃ o, problem_field (E:=E) r field = Ok o ∧ opt_str (copy_problem_field o INLINE_PAYLOAD).
Proof.
  intros Hr. unfold problem_field. destruct (response_payload_ok (E:=E) r (ok_payload _ Hr)) as (p & -> & [Hb Hu] & _). unbind.
  destruct (problem_decode_ends p) as [[d Hd]|[e He]]; [rewrite Hd|rewrite He; by exists None].
  destruct (decoded_texts _ _ Hb Hd) as [H1 H2]. eexists. split; [done|]. intros t.
  assert (∀ o : option ProblemText, (∀ x, o = Some x → text_ok x) → copy_problem_field (option_map pt_text o) INLINE_PAYLOAD = Some t → str_ok t) as Ho.
  { intros [x|] Hx; [|done]. cbn [option_map copy_problem_field]. destruct (Nat.ltb_spec INLINE_PAYLOAD (length (pt_text x))); [done|]. intros [= <-].
    destruct (Hx x eq_refl) as [Hv Hxb]. split_and!; [done| |done]. unfold usize_ok, INLINE_PAYLOAD in *. pose proof usize_max_ge. lia. }
  destruct field; by apply Ho.
Qed.
Lemma unprocessed_goes_on r ns :
  response_ok r → Forall (in_u 64) ns → usize_ok (length ns) → 
  goes_on_or True id r (map_err inr (response_unprocessed_options r ns)).
Proof.
  intros Hr Hn Hu. unfold response_unprocessed_options. destruct (response_payload_ok (E:=ProblemError) r (ok_payload _ Hr)) as (p & Hp & [Hb Hl] & _).
  match goal with |- context [mbind _ ?m] => match m with (if _ then _ else _) => assert ((∃ d, m = Ok d ∧ built d) ∨ ∃ e, m = Err e) as [(d & -> & Hd)|[e ->]] end end.
  { destruct (eqb _ _); [|left; eexists; split; [done|]; constructor; apply (ok_code _ Hr)]. rewrite Hp. unbind.
    destruct (problem_decode_ends p) as [[d Hd]|[e He]]; [left; exists d; split; [done|by eapply built_decoded]|right; eauto]. }
  2: { done. }
  unbind. destruct (with_unprocessed_options d ns) as [d'|e| |] eqn:Ew; try done.
  2,3: unfold with_unprocessed_options in Ew; by destruct (is_nil ns).
  destruct (problem_encoding d') as (out & He & Hob & _ & _); [by eapply built_options|]. specialize (He (replicate INLINE_PAYLOAD 0)). rewrite length_replicate in He.
  destruct (Nat.leb_spec (length out) INLINE_PAYLOAD) as [Hle|Hgt]; [|by destruct He as (buf' & -> & _)]. rewrite He.
  rewrite slice_prefix by (rewrite length_splice; rewrite ?length_replicate; lia).
  assert (take (length out) (splice (replicate INLINE_PAYLOAD 0) 0 out) = out) as -> by (unfold splice; rewrite take_0; cbn [app]; apply take_app_length).
  destruct (payload_copy_spec (content_format r CF_PROBLEM_DETAILS) out) as (pl & -> & Hpl & _). cbn [map_err]. specialize (Hpl Hob). put_fields Hr.
  by intros x [= <-].
Qed.

Lemma or_fails g r x (P : Prop) : goes_on g r x → goes_on_or P g r x.
Proof. by destruct x. Qed.
Lemma run_build_ok b r :
  response_ok r → build_ok b → goes_on_or (can_fail b = true) (fun f => build_fields f b) r (run_build b r).
Proof.
  intros Hr Hb. destruct b; cbn [run_build build_ok] in *; try (by put_fields Hr; intros x [= <-]).
  - unfold with_static. apply payload_goes_on; [done|]. by destruct (is_nil payload).
  - apply or_fails, copy_goes_on; [done|apply Hb].
  - unfold try_payload_copy. cbn [can_fail]. destruct (Nat.ltb_spec INLINE_PAYLOAD (length payload)); [done|].
    destruct (payload_copy_spec r payload) as (pl & -> & Hpl & _). apply payload_goes_on; [done|apply Hpl, Hb].
  - apply or_fails. unfold payload_copy_full. destruct (_ <=? _)%nat; [apply copy_goes_on; [done|apply Hb]|]. rewrite slice_prefix by lia. unbind.
    apply payload_goes_on; [done|]. destruct Hb as [Hb Hl]. split; [by apply bytes_ok_take|]. rewrite length_take. unfold usize_ok in *. lia.
  - by apply or_fails, etag_goes_on.
  - by apply or_fails, path_goes_on.
  - by apply or_fails, query_goes_on.
  - destruct Hb. by apply or_fails, problem_goes_on.
  - apply or_fails. unfold title. destruct (kept_field (E:=ResponseError + ProblemError) r FieldDetail Hr) as (o & -> & Ho). unbind.
    apply problem_goes_on; try done. by intros t [= <-].
  - apply or_fails. unfold detail. destruct (kept_field (E:=ResponseError + ProblemError) r FieldTitle Hr) as (o & -> & Ho). unbind.
    apply problem_goes_on; try done. by intros t [= <-].
  - destruct Hb as [Hn Hu]. pose proof (unprocessed_goes_on r numbers Hr Hn Hu) as Hg. by destruct (map_err _ _).
Qed.
Lemma chain_ok bs r :
  response_ok r → Forall build_ok bs →
  goes_on_or (Exists can_fail bs) (fun f => foldl build_fields f bs) r (chain bs r).
Proof.
  intros Hr Hbs. revert r Hr. induction Hbs as [|b bs Hb _ IH]; intros r Hr; cbn [chain]; [by split|]. unbind.
  pose proof (run_build_ok b r Hr Hb) as Hg. destruct (run_build b r) as [r1|e1| |]; try done; [|left; by rewrite Hg]. destruct Hg as [H1 Hs].
  specialize (IH r1 H1). destruct (chain bs r1) as [r2|e2| |]; try done; [|by right]. destruct IH as [H2 Hs2]. split; [done|].
  intros f Hf. by apply Hs2, Hs.
Qed.

Lemma new_ok code : in_u 8 code → response_ok (Response_new code).
Proof. intros Hc. constructor; try done. cbn. split_and!; try done. by repeat constructor. Qed.
Lemma start_response_ok s : start_ok s → ∃ r, (∀ E, run_start (E:=E) s = Ok r) ∧ response_ok r ∧ shows r no_fields.
Proof.
  destruct s as [code| |code|nums|h o p f]; cbn [start_ok run_start].
  - intros Hc. eexists. split; [done|]. split; [by apply new_ok|done].
  - intros _. eexists. split; [done|]. split; [|done]. destruct (new_ok Code_EMPTY); [done|]. constructor; cbn; try done.
  - intros Hc. pose proof (new_ok _ Hc) as Hr. destruct (problem_payload_spec code None None Hc) as (p & Hp & Hk); [done..|].
    pose proof (problem_goes_on _ None None Hr ltac:(done) ltac:(done)) as Hg. unfold Response_problem, with_problem in *. cbn [rs_code put_content_format Response_new] in *.
    rewrite Hp in Hg. eexists. split; [intros E; by rewrite Hp|]. split; [apply Hg|done].
  - intros _. assert (bytes_ok (replicate INLINE_PAYLOAD 0)) as Hz by (apply Forall_replicate; by vm_compute).
    assert (response_ok (content_format (Response_new Code_REQUEST_ENTITY_INCOMPLETE) CF_MISSING_BLOCKS)) as Hr.
    { destruct (new_ok Code_REQUEST_ENTITY_INCOMPLETE); [by vm_compute|]. constructor; cbn; try done. by intros x [= <-]. }
    unfold missing_blocks. pose proof (missing_blocks_inside nums _ Hz) as Hm. destruct (MissingBlocks_encode nums _) as [buf [n|e| |]]; try done.
    2: { eexists. split; [done|]. split; [exact Hr|done]. }
    destruct Hm as (Hb & Hl & Hn). destruct (payload_copy_spec (content_format (Response_new Code_REQUEST_ENTITY_INCOMPLETE) CF_MISSING_BLOCKS) (take n buf)) as (pl & Hp & Hpl & _).
    eexists. split; [intros E; rewrite slice_prefix by lia; apply Hp|]. split; [|done].
    apply (payload_goes_on _ pl (length (take n buf)) Hr), Hpl. by apply bytes_ok_take.
  - intros (Hc & [Hb _] & Hf). destruct (payload_copy_spec (Response_new (pm_code h)) p) as (pl & Hp & Hpl & _).
    eexists. split; [intros E; unfold from_client; by rewrite Hp|]. split; [|done]. destruct (new_ok _ Hc). constructor; cbn; try done. by apply Hpl.
Qed.

(** ** Reading back *)
Lemma etag_reads r : response_ok r → ∃ o, (∀ E, etag_bytes (E:=E) r = Ok o) ∧ ∀ t, o = Some t → (1 ≤ length t ≤ 8)%nat ∧ bytes_ok t.
Proof.
  intros Hr. destruct (ok_etag _ Hr) as (Hl & Hb & Hn). unfold etag_bytes. destruct (Z.eqb_spec (rs_etag_len r) 0); [by exists None|].
  exists (Some (take (Z.to_nat (rs_etag_len r)) (rs_etag r))). split; [intros E; by rewrite slice_prefix by lia|]. intros t [= <-]. split; [rewrite length_take; lia|by apply bytes_ok_take].
Qed.
(** What the encoder reads of a response, without a panic. *)
Definition readable r : Prop :=
  (∃ p, Response_payload (E:=ResponseError) r = Ok p ∧ bytes_ok p ∧ length p = payload_stored_len (rs_payload r)) ∧
  (∃ o, etag_bytes (E:=ResponseError) r = Ok o ∧ ∀ t, o = Some t → (1 ≤ length t ≤ 8)%nat ∧ bytes_ok t) ∧
  (∃ l, location_paths (E:=ResponseError) r = Ok l ∧ (length l ≤ LOCATION_MAX)%nat ∧ Forall (fun s => location_ok s ∧ is_dots s = false) l) ∧
  (∃ l, location_queries (E:=ResponseError) r = Ok l ∧ (length l ≤ LOCATION_MAX)%nat ∧ Forall location_ok l).
Lemma response_readable r : response_ok r → readable r.
Proof.
  intros Hr. split_and!.
  - destruct (response_payload_ok (E:=ResponseError) r (ok_payload _ Hr)) as (p & -> & [Hb _] & Hl). eauto.
  - destruct (etag_reads r Hr) as (o & Ho & Ht). by exists o.
  - destruct (locations_read _ _ _ (ok_paths _ Hr)) as (l & Hl & _ & Hm & Hf & _). by exists l.
  - destruct (locations_read _ _ _ (ok_queries _ Hr)) as (l & Hl & _ & Hm & Hf & _). by exists l.
Qed.


(** ** What a setter sets *)
Definition refused r (r' : R) (e : ResponseError) : Prop :=
  Response_validate r' = Err match rs_invalid r with Some e0 => e0 | None => e end ∧ rs_etag r' = rs_etag r ∧ rs_etag_len r' = rs_etag_len r ∧
  rs_location_path r' = rs_location_path r ∧ rs_location_path_len r' = rs_location_path_len r ∧
  rs_location_query r' = rs_location_query r ∧ rs_location_query_len r' = rs_location_query_len r ∧ rs_payload r' = rs_payload r.
Lemma invalid_refused r e : refused r (Response_invalid r e) e.
Proof. unfold Response_invalid, refused, Response_validate. by destruct (rs_invalid r) eqn:E; cbn; rewrite ?E. Qed.
Lemma etag_set r tag :
  response_ok r →
  ∃ r', etag (E:=ResponseError) r tag = Ok r' ∧
    if (1 <=? length tag)%nat && (length tag <=? 8)%nat then etag_bytes (E:=ResponseError) r' = Ok (Some tag) else refused r r' EtagLength.
Proof.
  intros Hr. unfold etag. destruct (_ && _) eqn:E; cbn [negb]; [|eexists; split; [done|apply invalid_refused]].
  apply andb_true_iff in E as [E1%Nat.leb_le E2%Nat.leb_le]. destruct (ok_etag _ Hr) as (Hl & _ & _). rewrite copy_into_ok by (rewrite ?Hl; lia). unbind.
  eexists. split; [done|]. unfold etag_bytes. cbn [rs_etag rs_etag_len put_etag]. rewrite wrap_small by (unfold in_u; lia).
  rewrite (proj2 (Z.eqb_neq _ _)), Nat2Z.id, slice_prefix by (rewrite ?length_splice; lia). unfold splice. rewrite take_0. cbn [app]. by rewrite take_app_length.
Qed.
Definition appends (get : R → res ResponseError (list (list Z))) r r' (s : list Z) : Prop :=
  ∃ l, get r = Ok l ∧ get r' = Ok (l ++ [s]).
Lemma path_set r s :
  response_ok r → bytes_ok s →
  ∃ r', location_path (E:=ResponseError) r s = Ok r' ∧
    if (LOCATION_MAX <=? Z.to_nat (rs_location_path_len r))%nat || (255 <? length s)%nat then refused r r' LocationPathBounds
    else if is_dots s then refused r r' LocationDotSegment else appends location_paths r r' s.
Proof.
  intros Hr Hb. unfold location_path. destruct (_ || _) eqn:Eb; [eexists; split; [done|apply invalid_refused]|].
  apply orb_false_iff in Eb as [E1%Nat.leb_gt E2%Nat.ltb_ge]. destruct (is_dots s) eqn:Ed; [eexists; split; [done|apply invalid_refused]|].
  destruct (append_ok _ _ _ s (ok_paths _ Hr) E1) as (l & -> & Hc & Hl & Ht); [by split|]. unbind. rewrite Hc. cbn [from_option].
  eexists. split; [done|]. destruct (locations_read _ _ _ (ok_paths _ Hr)) as (l0 & H0 & _ & _ & _ & El0).
  exists l0. split; [apply H0|]. destruct (locations_read _ _ _ Hl) as (l1 & H1 & _ & _ & _ & El1). cbn [default] in *.
  unfold location_paths. cbn [rs_location_path rs_location_path_len put_paths]. rewrite H1, El1, El0. cbn [from_option id] in *. by rewrite Ht.
Qed.
Lemma query_set r s :
  response_ok r → bytes_ok s →
  ∃ r', location_query (E:=ResponseError) r s = Ok r' ∧
    if (LOCATION_MAX <=? Z.to_nat (rs_location_query_len r))%nat || (255 <? length s)%nat then refused r r' LocationQueryBounds
    else appends location_queries r r' s.
Proof.
  intros Hr Hb. unfold location_query. destruct (_ || _) eqn:Eb; [eexists; split; [done|apply invalid_refused]|].
  apply orb_false_iff in Eb as [E1%Nat.leb_gt E2%Nat.ltb_ge].
  destruct (append_ok _ _ _ s (ok_queries _ Hr) E1) as (l & -> & Hc & Hl & Ht); [by split|]. unbind. rewrite Hc. cbn [from_option].
  eexists. split; [done|]. destruct (locations_read _ _ _ (ok_queries _ Hr)) as (l0 & H0 & _ & _ & _ & El0).
  exists l0. split; [apply H0|]. destruct (locations_read _ _ _ Hl) as (l1 & H1 & _ & _ & _ & El1). cbn [default] in *.
  unfold location_queries. cbn [rs_location_query rs_location_query_len put_queries]. rewrite H1, El1, El0. cbn [from_option id] in *. by rewrite Ht.
Qed.
Lemma body_set r p :
  ∃ r', payload_copy_full (E:=ResponseError) r p = Ok r' ∧ Response_payload (E:=ResponseError) r' = Ok (take RESPONSE_BODY p) ∧
    Response_validate r' = match rs_invalid r with
                           | Some e => Err e
                           | None => if (RESPONSE_BODY <? length p)%nat then Err PayloadTruncated else Ok tt
                           end.
Proof.
  unfold payload_copy_full. destruct (Nat.leb_spec (length p) INLINE_PAYLOAD) as [Hs|Hs].
  - destruct (payload_copy_spec r p) as (pl & Hp & _ & Hread). rewrite Hp. eexists. split; [done|]. rewrite Hread by done.
    pose proof (Hread (put_payload r pl (length p)) ResponseError eq_refl) as Hr. unfold INLINE_PAYLOAD, RESPONSE_BODY in *. rewrite (take_ge p 128) in * by lia.
    rewrite (take_ge p 4096) by lia. split; [done|]. unfold Response_validate. cbn [rs_invalid put_payload rs_payload rs_payload_src_len].
    destruct (rs_invalid r); [done|]. rewrite (proj2 (Nat.ltb_ge 4096 _)) by lia.
    unfold Response_payload in Hr. cbn [rs_payload put_payload] in Hr. rewrite (proj2 (Nat.ltb_ge _ _)); [done|].
    destruct pl as [|b|b n|b]; cbn [payload_stored_len]; try (injection Hr as <-; done).
    unfold slice_idx in Hr. destruct (slice_get b 0 (Z.to_nat n)) as [x|] eqn:Eg; [|done]. apply slice_get_Some in Eg as [Hn ->]. injection Hr as <-.
    rewrite length_take, length_drop. lia.
  - rewrite slice_prefix by lia. unbind. eexists. split; [done|]. split.
    + unfold Response_payload. cbn [rs_payload put_payload].
      destruct (Nat.le_ge_cases (length p) RESPONSE_BODY); [rewrite Nat.min_l by done; by rewrite !take_ge by lia|by rewrite Nat.min_r by done].
    + unfold Response_validate. cbn [rs_invalid put_payload rs_payload rs_payload_src_len payload_stored_len]. destruct (rs_invalid r); [done|]. rewrite length_take.
      destruct (Nat.ltb_spec RESPONSE_BODY (length p)); [rewrite (proj2 (Nat.ltb_lt _ _)) by lia|rewrite (proj2 (Nat.ltb_ge _ _)) by lia]; done.
Qed.

(** What a setter sets is what is read.  An ETag of one to eight bytes
    replaces the last one, any other is refused; a path segment and a query
    argument are appended unless there are eight already, it is longer than 255
    bytes or it is a dot segment; a body of up to 4096 bytes is kept whole, a
    longer one is cut and refused at validation.  A refused setter changes no
    field, and the response reports the first refusal. *)
Theorem response_setters r (tag s p : list Z) :
  response_ok r → bytes_ok s →
  (∃ r', etag (E:=ResponseError) r tag = Ok r' ∧
    if (1 <=? length tag)%nat && (length tag <=? 8)%nat then etag_bytes (E:=ResponseError) r' = Ok (Some tag) else refused r r' EtagLength) ∧
  (∃ r', location_path (E:=ResponseError) r s = Ok r' ∧
    if (LOCATION_MAX <=? Z.to_nat (rs_location_path_len r))%nat || (255 <? length s)%nat then refused r r' LocationPathBounds
    else if is_dots s then refused r r' LocationDotSegment else appends location_paths r r' s) ∧
  (∃ r', location_query (E:=ResponseError) r s = Ok r' ∧
    if (LOCATION_MAX <=? Z.to_nat (rs_location_query_len r))%nat || (255 <? length s)%nat then refused r r' LocationQueryBounds
    else appends location_queries r r' s) ∧
  (∃ r', payload_copy_full (E:=ResponseError) r p = Ok r' ∧ Response_payload (E:=ResponseError) r' = Ok (take RESPONSE_BODY p) ∧
    Response_validate r' = match rs_invalid r with
                           | Some e => Err e
                           | None => if (RESPONSE_BODY <? length p)%nat then Err PayloadTruncated else Ok tt
                           end).
Proof. intros Hr Hs. split_and!; [by apply etag_set|by apply path_set|by apply query_set|apply body_set]. Qed.

(** A problem response always carries readable problem details with its own
    code, and never a cut text: both texts when they fit in the 128 bytes, else
    the title alone, else neither; a payload of details is never reported as
    truncated. *)
Theorem problem_response r (t d : option (list Z)) :
  response_ok r → opt_str t → opt_str d → rs_content_format r = None ∨ rs_content_format r = Some CF_PROBLEM_DETAILS →
  ∃ r' y, with_problem (E:=ResponseError) r t d = Ok r' ∧ problem_details (E:=ResponseError) r' = Ok (Some y) ∧
    pd_code y = Some (rs_code r) ∧ (rs_invalid r = None → Response_validate r' = Ok tt) ∧
    ((pd_title y = option_map ProblemText_plain t ∧ pd_detail y = option_map ProblemText_plain d) ∨
     (too_large (rs_code r) t d ∧ pd_title y = option_map ProblemText_plain t ∧ pd_detail y = None) ∨
     (too_large (rs_code r) t d ∧ too_large (rs_code r) t None ∧ pd_title y = None ∧ pd_detail y = None)).
Proof.
  intros Hr Ht Hd Hf. destruct (problem_payload_spec (rs_code r) t d (ok_code _ Hr) Ht Hd) as (p & Hp & Hc).
  set (r' := put_payload (put_content_format r (Some (match rs_content_format r with Some f => f | None => CF_PROBLEM_DETAILS end))) p (payload_stored_len p)).
  assert (with_problem (E:=ResponseError) r t d = Ok r') as Hw by (unfold with_problem; cbn [rs_code put_content_format]; by rewrite Hp).
  assert (rs_invalid r = None → Response_validate r' = Ok tt) as Hv.
  { intros Hi. unfold Response_validate, r'. cbn [rs_invalid put_payload put_content_format rs_payload rs_payload_src_len]. by rewrite Hi, Nat.ltb_irrefl. }
  assert (∀ t' d', carries p (rs_code r) t' d' → ∃ y, problem_details (E:=ResponseError) r' = Ok (Some y) ∧ pd_code y = Some (rs_code r) ∧
    pd_title y = option_map ProblemText_plain t' ∧ pd_detail y = option_map ProblemText_plain d') as Hk.
  { intros t' d' [_ Hread]. destruct (Hread r' ResponseError eq_refl) as (bytes & y & Hb & Hy & (E1 & E2 & E3 & _)). exists y.
    unfold problem_details. assert (rs_content_format r' = Some CF_PROBLEM_DETAILS) as -> by (unfold r'; cbn; by destruct Hf as [->| ->]).
    unfold eqb. rewrite bool_decide_eq_true_2 by done. cbn [negb]. rewrite Hb. unbind. rewrite Hy. split; [done|]. rewrite E1, E2, E3. by destruct t', d'. }
  destruct Hc as [Hc|[[Hl Hc]|(Hl1 & Hl2 & Hc)]]; destruct (Hk _ _ Hc) as (y & Hy & Hcode & E1 & E2); exists r', y; (split_and!; try done).
  - by left.
  - right. by left.
  - right. by right.
Qed.
End laws.

(** ** The held body *)
(** Uses of the shared storage: a body is stored, or packet bytes are lent and
    written. *)
Inductive HoldOp : Type := HoldStore (src : list Z) | HoldPacket (bytes : list Z).
Definition run_hold {E} (CAPACITY : nat) (op : HoldOp) (s : ScratchStorage) : res E ScratchStorage :=
  match op with
  | HoldStore src => shared_store s src
  | HoldPacket bytes => '(lent, put) ← shared_scratch CAPACITY s; mret (put (splice lent 0 (take (length lent) bytes)))
  end.
Definition hold_ok (CAPACITY : nat) (s : ScratchStorage) : Prop :=
  match s with
  | ScratchPacket packet => (RESPONSE_BODY < CAPACITY)%nat ∧ length packet = CAPACITY
  | ScratchBody b => length (ab_bytes b) = RESPONSE_BODY ∧ 1 ≤ ab_len b ≤ Z.of_nat RESPONSE_BODY + 1
  end.
Lemma store_views {E} body src :
  length (ab_bytes body) = RESPONSE_BODY →
  ∃ b, assembled_store (E:=E) body src = Ok b ∧ hold_ok 0 (ScratchBody b) ∧ assembled_view (E:=E) b = Ok (Some (take RESPONSE_BODY src)).
Proof.
  intros Hl. unfold assembled_store. set (n := Nat.min (length src) RESPONSE_BODY). rewrite slice_prefix by lia. unbind.
  assert (length (take n src) = n) as Hn by (rewrite length_take; lia). assert (n ≤ RESPONSE_BODY)%nat as Hm by lia. unfold RESPONSE_BODY in *.
  rewrite copy_into_ok by lia. rewrite wrap_small by (unfold in_u; lia). unfold checked_add, max_u. rewrite (proj2 (Z.leb_le _ _)) by lia. cbn [from_option].
  eexists. split; [done|]. assert (length (splice (ab_bytes body) 0 (take n src)) = 4096%nat) as Hs by (rewrite length_splice; lia).
  split; [split; cbn [ab_bytes ab_len]; [done|unfold RESPONSE_BODY; lia]|]. unfold assembled_view. cbn [ab_bytes ab_len].
  replace (Z.to_nat (Z.of_nat n + 1 - 1)) with n by lia. rewrite slice_prefix by lia. unbind. unfold splice. rewrite take_0. cbn [app].
  rewrite take_app_length' by lia. unfold n. destruct (Nat.le_ge_cases (length src) 4096); [rewrite Nat.min_l by done; by rewrite !take_ge by lia|]. rewrite Nat.min_r by done. done.
Qed.
(** Through every use of the shared storage a body just stored is viewed, cut at
    4096 bytes, and packet bytes never show up as a body. *)
Theorem held_body_not_stale {E} (CAPACITY : nat) (op : HoldOp) (s : ScratchStorage) :
  hold_ok CAPACITY s →
  ∃ s', run_hold (E:=E) CAPACITY op s = Ok s' ∧ hold_ok CAPACITY s' ∧
    shared_view (E:=E) s' = Ok (Some match op with HoldStore src => take RESPONSE_BODY src | HoldPacket _ => [] end).
Proof.
  intros Hs. destruct op as [src|bytes]; cbn [run_hold].
  - unfold shared_store. destruct s as [packet|body].
    + destruct (store_views (E:=E) AssembledBuf_default src) as (b & -> & Hb & Hv); [apply length_replicate|]. by exists (ScratchBody b).
    + destruct Hs as [Hl _]. destruct (store_views (E:=E) body src Hl) as (b & -> & Hb & Hv). by exists (ScratchBody b).
  - assert (∀ lent, length (splice lent 0 (take (length lent) bytes)) = length lent) as Hlen.
    { intros lent. apply length_splice. rewrite length_take. lia. }
    unfold shared_scratch. destruct s as [packet|body]; cbn [hold_ok] in Hs.
    + rewrite andb_false_r. unbind. eexists. split; [done|]. split; [|done]. split; [apply Hs|rewrite Hlen; apply Hs].
    + destruct Hs as [Hl Hn]. destruct (Nat.ltb_spec RESPONSE_BODY CAPACITY) as [Hc|Hc]; cbn [andb].
      * unbind. eexists. split; [done|]. split; [|done]. split; [done|]. by rewrite Hlen, length_replicate.
      * rewrite slice_prefix by lia. unbind. eexists. split; [done|]. split; [|].
        -- cbn [hold_ok ab_bytes ab_len]. split; [|lia]. rewrite length_splice; [done|]. rewrite Hlen, length_take. lia.
        -- cbn [shared_view]. unfold assembled_view. cbn [ab_bytes ab_len]. rewrite slice_prefix by (simpl; lia). done.
Qed.

#[local] Existing Instance target64.
(** The response of that chain: the empty ETag was refused, the rest is set. *)
Example response_chain_runs :
  match chain (T:=list Z) [BEtag []; BPath [97]; BTitle [104; 105]] (Response_new Code_CONTENT) with
  | Ok r => Response_validate r = Err EtagLength ∧ location_paths (E:=ResponseError) r = Ok [[97]] ∧
      Response_payload (E:=ResponseError) r = Ok [162; 32; 98; 104; 105; 35; 24; 69]
  | _ => False
  end.
Proof. by vm_compute. Qed.

Example response_setters_witness :
  let r := Response_new (T:=list Z) Code_CONTENT in
  response_ok r ∧
  (∃ r', etag (E:=ResponseError) r [1; 2] = Ok r' ∧
    if (1 <=? 2)%nat && (2 <=? 8)%nat then etag_bytes (E:=ResponseError) r' = Ok (Some [1; 2]) else refused r r' EtagLength).
Proof.
  assert (response_ok (Response_new (T:=list Z) Code_CONTENT)) as Hr by (apply new_ok; by vm_compute).
  split; [exact Hr|]. apply (response_setters _ [1; 2] [97] []); [exact Hr|by repeat constructor].
Defined.

Example problem_response_witness :
  let r := Response_new (T:=list Z) Code_BAD_REQUEST in
  ∃ r' y, with_problem (E:=ResponseError) r (Some [104; 105]) None = Ok r' ∧ problem_details (E:=ResponseError) r' = Ok (Some y) ∧
    pd_code y = Some (rs_code r) ∧ (rs_invalid r = None → Response_validate r' = Ok tt) ∧
    ((pd_title y = Some (ProblemText_plain [104; 105]) ∧ pd_detail y = None) ∨
     (too_large (rs_code r) (Some [104; 105]) None ∧ pd_title y = Some (ProblemText_plain [104; 105]) ∧ pd_detail y = None) ∨
     (too_large (rs_code r) (Some [104; 105]) None ∧ too_large (rs_code r) (Some [104; 105]) None ∧ pd_title y = None ∧ pd_detail y = None)).
Proof.
  apply (problem_response (Response_new (T:=list Z) Code_BAD_REQUEST) (Some [104; 105]) None).
  - apply new_ok. by vm_compute.
  - intros t [= <-]. repeat constructor; by vm_compute.
  - by intros t.
  - by left.
Defined.
