(* ===== verification/AppEncode.v ===== *)
(** * Encoding a response into a TX slot

    [src/app/mod.rs]: [encode_response] and what it calls, in the build without
    the [oscore] feature, where [oscore::encode_message] and
    [oscore::encode_notification] are [encode_tx]. *)
From S2P Require Import Prelude Errors MsgTypes Options Encode Decode OptionsBuilder OptionValues MessageOptions MissingBlocks.
From S2P Require Import Occupancy Pending DatagramPool PendingCons SlotTable Dedup Observe Block BodyPool Exchange Engine.
From S2P Require Import Problem AppIdentity Transport AppSend AppResponse.

Record BlockOpt : Type := mkBlockOpt { bo_value : BlockValue; bo_q_block : bool; bo_size2 : option nat }.

(** [x.map(f)] with a checked [f]. *)
Definition opt_mapM {E A B} (f : A → res E B) (o : option A) : res E (list B) :=
  match o with Some a => b ← f a; mret [b] | None => mret [] end.

Section options.
Context {T : Type} `{Target}.

Definition size2_value (n : nat) : Z := if Z.of_nat n <=? max_u 32 then Z.of_nat n else max_u 32.

(** The options in the order they are pushed. *)
Definition response_opts {E} (r : Response T) (block block1 : option BlockOpt) : res E (list Opt) :=
  tag ← etag_bytes r;
  observe ← opt_mapM (fun seq => e ← EncodedUint_new (Z.land seq OBSERVE_SEQUENCE_MASK); Opt_observe e) (rs_observe r);
  paths ← location_paths r;
  format ← opt_mapM (fun f => e ← EncodedUint_new f; Opt_content_format e) (rs_content_format r);
  age ← opt_mapM (fun secs => e ← EncodedUint_new secs; Opt_max_age e) (rs_max_age r);
  queries ← location_queries r;
  size2 ← match block with
          | Some b => if bo_q_block b then opt_mapM (fun n => e ← EncodedUint_new (size2_value n); Opt_size2 e) (bo_size2 b) else mret []
          | None => mret []
          end;
  blk ← opt_mapM (fun b => e ← EncodedUint_new (BlockValue_as_uint (bo_value b)); if bo_q_block b then Opt_q_block2 e else Opt_block2 e) block;
  blk1 ← opt_mapM (fun b => e ← EncodedUint_new (BlockValue_as_uint (bo_value b)); if bo_q_block b then Opt_q_block1 e else Opt_block1 e) block1;
  echo ← opt_mapM (fun x => b ← Echo_as_slice x; mret (Opt_echo b)) (rs_echo r);
  mret (match tag with Some t => [Opt_etag t] | None => [] end ++ observe ++ map Opt_location_path paths ++ format ++ age ++
        map Opt_location_query queries ++ size2 ++ blk ++ blk1 ++ echo).
End options.

Section encode.
Context {RX TX RB TB T Q ER : Type} `{Target} `{OwnedToken T} `{EqDecision T}.
Context `{!SlotPool RX} `{!DatagramBytes RX} `{!SlotPool TX} `{!DatagramBytes TX} `{!BodyCells T RB} `{!BodyCells T TB}.
Abbreviation Eng := (Engine RX TX RB TB T Q).
Implicit Types (tx : SlotId) (ty : MType) (mid : MessageId) (token : T) (r : Response T).

Definition oscore_encode_message tx (msg : Message T) : st Eng (AppError ER) unit := st_map_err AppError_from_message (encode_tx tx msg);; mret tt.
Definition oscore_encode_notification tx (msg : Message T) : st Eng (AppError ER) unit := st_map_err AppError_from_message (encode_tx tx msg);; mret tt.

(** [Message::new(ty, code, mid).with_token(..).with_options(..).with_payload(..)]. *)
Definition response_message ty mid token (code : Code) (options : list Opt) (payload : list Z) : Message T :=
  Message_with_payload (Message_with_options (Message_with_token (Message_new ty code mid) token) options) payload.

Definition encode_options_full_500 tx ty mid token : st Eng (AppError ER) unit :=
  r ← st_lift (r ← Response_problem (T:=T) Code_INTERNAL_SERVER_ERROR; title r [79; 112; 116; 105; 111; 110; 115; 32; 102; 117; 108; 108]);
  st_lift (map_err AeResponse (Response_validate r));;
  format ← st_lift (opt_mapM (fun f => e ← EncodedUint_new f; Opt_content_format e) (rs_content_format r));
  opts ← st_lift (map_err (fun _ => AeMessage (SMEncode EncodeOptionsFull)) (push_all 4 (OptionsBuilder_new 4) format));
  options ← st_lift (OptionsBuilder_as_slice opts);
  payload ← st_lift (Response_payload r);
  oscore_encode_message tx (response_message ty mid token (rs_code r) options payload).

Definition encode_response_options (OPTIONS : nat) tx ty mid token r (payload : list Z) (block block1 : option BlockOpt)
    : st Eng (AppError ER) unit :=
  st_lift (map_err AeResponse (Response_validate r));;
  pushed ← st_lift (response_opts r block block1);
  match push_all OPTIONS (OptionsBuilder_new OPTIONS) pushed with
  | Ok opts =>
      options ← st_lift (OptionsBuilder_as_slice opts);
      let msg := response_message ty mid token (rs_code r) options payload in
      if rs_fresh_piv r || match block with Some b => bo_q_block b | None => false end
         || (is_some (rs_observe r) && negb (eqb ty Acknowledgement))
      then oscore_encode_notification tx msg else oscore_encode_message tx msg
  | Err _ => encode_options_full_500 tx ty mid token
  | Panic => st_lift Panic
  | Diverge => st_lift Diverge
  end.
(** The options of a notification, in the order they are pushed. *)
Definition encode_notification tx ty mid token r (payload : list Z) : st Eng (AppError ER) unit :=
  st_lift (map_err AeResponse (Response_validate r));;
  tag ← st_lift (etag_bytes r);
  observe ← st_lift (opt_mapM (fun seq => e ← EncodedUint_new (Z.land seq OBSERVE_SEQUENCE_MASK); Opt_observe e) (rs_observe r));
  format ← st_lift (opt_mapM (fun f => e ← EncodedUint_new f; Opt_content_format e) (rs_content_format r));
  age ← st_lift (opt_mapM (fun secs => e ← EncodedUint_new secs; Opt_max_age e) (rs_max_age r));
  match push_all 4 (OptionsBuilder_new 4) (match tag with Some t => [Opt_etag t] | None => [] end ++ observe ++ format ++ age) with
  | Ok opts =>
      options ← st_lift (OptionsBuilder_as_slice opts);
      oscore_encode_notification tx (response_message ty mid token (rs_code r) options payload)
  | Err _ => encode_options_full_500 tx ty mid token
  | Panic => st_lift Panic
  | Diverge => st_lift Diverge
  end.
Definition encode_response_locations := encode_response_options (8 + 2 * LOCATION_MAX).

Definition encode_response_basic tx ty mid token r (payload : list Z) : st Eng (AppError ER) unit :=
  st_lift (map_err AeResponse (Response_validate r));;
  tag ← st_lift (etag_bytes r);
  encoded ← st_lift (EncodedUint_new (match rs_content_format r with Some f => f | None => CF_TEXT_PLAIN end));
  format ← st_lift (Opt_content_format encoded);
  let options := [Opt_etag (match tag with Some t => t | None => [] end); format] in
  let start := if is_some tag then 0%nat else 1%nat in
  let end_ := if is_some (rs_content_format r) then 2%nat else 1%nat in
  oscore_encode_message tx (response_message ty mid token (rs_code r) (take (end_ - start) (drop start options)) payload).

Definition encode_response tx ty mid token r (payload : list Z) (block block1 : option BlockOpt) : st Eng (AppError ER) unit :=
  if negb (is_some block) && negb (is_some block1) && has_only_etag_and_format r && negb (rs_fresh_piv r)
  then encode_response_basic tx ty mid token r payload
  else if negb (has_locations r) then encode_response_options 8 tx ty mid token r payload block block1
  else encode_response_locations tx ty mid token r payload block block1.
End encode.
