(* ===== verification/AppEncodeLaws.v ===== *)
(** * What a response becomes on the wire

    [encode_response] of [src/app/mod.rs] has a path without a builder, one with
    room for eight options and one with room for twenty-four: all write the same
    message, with every option of the response in ascending order, and the
    fallback for a full builder is never taken. *)
From S2P Require Import Prelude Errors MsgTypes Options Encode Decode Codec OptionsBuilder OptionValues MessageOptions MissingBlocks.
From S2P Require Import Occupancy Pending DatagramPool PendingCons SlotTable Dedup Observe Block BodyPool Exchange Engine EngineExchange DatagramBuffer.
From S2P Require Import Problem ProblemRound AppIdentity Transport AppSend AppResponse AppResponseLaws AppEncode.

(** The options with one number. *)
Definition numbered (n : OptionNumber) (l : list Opt) : list Opt := filter (fun o => opt_number o = n) l.
Definition all_numbered (n : OptionNumber) (l : list Opt) : Prop := Forall (fun o => opt_number o = n) l.
Lemma numbered_part n m l : all_numbered m l → numbered n l = if m =? n then l else [].
Proof.
  intros Hl. unfold numbered. destruct (Z.eqb_spec m n) as [->|Hne]; [by apply filter_all|]. apply filter_none. eapply Forall_impl; [done|]. simpl. congruence.
Qed.
Lemma numbered_app n l l' : numbered n (l ++ l') = numbered n l ++ numbered n l'.
Proof. apply filter_app. Qed.

(** An integer option that is absent or reads as [n]. *)
Definition uint_opts (on : OptionNumber) (o : option Z) (l : list Opt) : Prop :=
  match o with None => l = [] | Some n => ∃ bs, l = [mkOpt on bs] ∧ uint_bytes n bs end.
Lemma uint_opts_part on o l : uint_opts on o l → all_numbered on l ∧ (length l ≤ 1)%nat ∧ Forall (fun o => bytes_ok (opt_value o) ∧ (length (opt_value o) ≤ 4)%nat) l.
Proof.
  destruct o as [n|]; cbn [uint_opts]; [|intros ->; split_and!; [constructor|cbn; lia|constructor]]. intros (bs & -> & _ & Hb & Hl & _).
  split_and!; [by apply Forall_singleton|done|]. by apply Forall_singleton.
Qed.
Lemma uint_opt_ok on n : in_u 32 n → ∃ bs, (∀ E, (e ← EncodedUint_new (E:=E) n; Opt_uint on e) = Ok (mkOpt on bs)) ∧ uint_bytes n bs.
Proof.
  intros Hn. destruct (encode_uint_spec n Hn) as (bs & He & Hb). exists bs. split; [|done]. intros E. specialize (He E). unfold encode_uint in He. revert He. unbind.
  destruct (EncodedUint_new n) as [e| | |]; try done. unfold Opt_uint. unbind. by intros ->.
Qed.
Lemma uint_mapM on o (f : Z → Z) :
  (∀ n, o = Some n → in_u 32 (f n)) →
  ∃ l, (∀ E, opt_mapM (E:=E) (fun n => e ← EncodedUint_new (f n); Opt_uint on e) o = Ok l) ∧ uint_opts on (option_map f o) l.
Proof.
  intros Hf. destruct o as [n|]; [|by exists []]. destruct (uint_opt_ok on (f n) (Hf n eq_refl)) as (bs & Hb & Hu). exists [mkOpt on bs].
  split; [intros E; cbn [opt_mapM]; specialize (Hb E); unbind; by rewrite Hb|]. by exists bs.
Qed.

Section options.
Context {T : Type} `{Target}.
Implicit Types (r : Response T).

Definition block_ok (b : option BlockOpt) : Prop := ∀ x, b = Some x → block_wf (bo_value x).
(** The value of a block option, where it is a Q-Block one or where it is not. *)
Definition block_uint (q : bool) (b : option BlockOpt) : option Z :=
  b ← b; if Bool.eqb (bo_q_block b) q then Some (BlockValue_as_uint (bo_value b)) else None.
(** Size2 goes with Q-Block2 only. *)
Definition block_size2 (b : option BlockOpt) : option Z :=
  b ← b; if bo_q_block b then option_map size2_value (bo_size2 b) else None.
Definition echo_part r : list Opt := match rs_echo r with Some e => [Opt_echo (take (Z.to_nat (echo_len e)) (echo_bytes e))] | None => [] end.
Definition response_numbers : list OptionNumber :=
  [ON_ETAG; ON_OBSERVE; ON_LOCATION_PATH; ON_CONTENT_FORMAT; ON_MAX_AGE; ON_Q_BLOCK1; ON_LOCATION_QUERY; ON_BLOCK2; ON_BLOCK1; ON_SIZE2; ON_Q_BLOCK2; ON_ECHO].

(** The options of a response, whatever their order: what a receiver reads.
    Each number carries what was set, nothing where nothing was set, and no
    other number appears. *)
Record carried r (tag : option (list Z)) (paths queries : list (list Z)) (block block1 : option BlockOpt) (l : list Opt) : Prop := {
  cr_etag : numbered ON_ETAG l = match tag with Some t => [Opt_etag t] | None => [] end;
  cr_observe : uint_opts ON_OBSERVE (option_map (fun n => n mod 2 ^ 24) (rs_observe r)) (numbered ON_OBSERVE l);
  cr_paths : numbered ON_LOCATION_PATH l = map Opt_location_path paths;
  cr_format : uint_opts ON_CONTENT_FORMAT (rs_content_format r) (numbered ON_CONTENT_FORMAT l);
  cr_max_age : uint_opts ON_MAX_AGE (rs_max_age r) (numbered ON_MAX_AGE l);
  cr_queries : numbered ON_LOCATION_QUERY l = map Opt_location_query queries;
  cr_block2 : uint_opts ON_BLOCK2 (block_uint false block) (numbered ON_BLOCK2 l);
  cr_q_block2 : uint_opts ON_Q_BLOCK2 (block_uint true block) (numbered ON_Q_BLOCK2 l);
  cr_size2 : uint_opts ON_SIZE2 (block_size2 block) (numbered ON_SIZE2 l);
  cr_block1 : uint_opts ON_BLOCK1 (block_uint false block1) (numbered ON_BLOCK1 l);
  cr_q_block1 : uint_opts ON_Q_BLOCK1 (block_uint true block1) (numbered ON_Q_BLOCK1 l);
  cr_echo : numbered ON_ECHO l = echo_part r;
  cr_others : ∀ n, n ∉ response_numbers → numbered n l = []
}.

(** The parts of [response_opts]. *)
Definition opt_ok (o : Opt) : Prop := in_u 16 (opt_number o) ∧ bytes_ok (opt_value o) ∧ (length (opt_value o) ≤ 255)%nat.
Lemma uint_opts_ok on o l : in_u 16 on → uint_opts on o l → Forall opt_ok l.
Proof.
  intros Hon Hu. destruct (uint_opts_part _ _ _ Hu) as (Hn & _ & Hv). unfold all_numbered in Hn. rewrite Forall_forall in *. intros x Hx. destruct (Hv x Hx). unfold opt_ok.
  rewrite (Hn x Hx). split_and!; [done..|lia].
Qed.
Lemma size2_in n : in_u 32 (size2_value n).
Proof. unfold size2_value, in_u, max_u. destruct (Z.leb_spec (Z.of_nat n) (2 ^ 32 - 1)); lia. Qed.
Lemma block_uint_in b : block_wf b → in_u 32 (BlockValue_as_uint b).
Proof.
  intros Hb. rewrite as_uint_sum by done. destruct Hb as [Hn Hs]. unfold NUM_MAX, SZX_BERT in *. assert (0 ≤ Z.b2z (bv_more b) ≤ 1) by (destruct (bv_more b); simpl; lia).
  unfold in_u. lia.
Qed.

(** A part of the options: one number, not too many, well typed. *)
Definition part (on : OptionNumber) (k : nat) (l : list Opt) : Prop := all_numbered on l ∧ (length l ≤ k)%nat ∧ Forall opt_ok l.
Lemma uint_part on o l : in_u 16 on → uint_opts on o l → part on 1 l.
Proof. intros Hon Hu. destruct (uint_opts_part _ _ _ Hu) as (Hn & Hl & _). split_and!; [done..|]. by eapply uint_opts_ok. Qed.
Lemma single_part o : opt_ok o → part (opt_number o) 1 [o].
Proof. intros Ho. split_and!; [by apply Forall_singleton|done|by apply Forall_singleton]. Qed.
Lemma map_part on (f : list Z → Opt) l :
  (∀ v, opt_number (f v) = on ∧ opt_value (f v) = v) → in_u 16 on → Forall location_ok l → part on (length l) (map f l).
Proof.
  intros Hf Hon Hl. split_and!; [|by rewrite length_map|]; apply Forall_map; (eapply Forall_impl; [exact Hl|]); intros v [Hv Hb]; destruct (Hf v) as [E1 E2]; cbn; [done|].
  unfold opt_ok. by rewrite E1, E2.
Qed.
Lemma block_part (b : option BlockOpt) on off :
  block_ok b → in_u 16 on → in_u 16 off →
  ∃ l, (∀ E, opt_mapM (E:=E) (fun b => e ← EncodedUint_new (BlockValue_as_uint (bo_value b)); if bo_q_block b then Opt_uint on e else Opt_uint off e) b = Ok l) ∧
    match b with None => l = [] | Some b => uint_opts (if bo_q_block b then on else off) (Some (BlockValue_as_uint (bo_value b))) l end.
Proof.
  intros Hb Hon Hoff. destruct b as [b|]; [|by exists []]. pose proof (block_uint_in _ (Hb b eq_refl)) as Hi.
  destruct (uint_opt_ok (if bo_q_block b then on else off) _ Hi) as (bs & He & Hu). exists [mkOpt (if bo_q_block b then on else off) bs].
  split; [|by exists bs]. intros E. cbn [opt_mapM]. specialize (He E). unbind. destruct (bo_q_block b); by rewrite He.
Qed.

(** The options with one number in a sequence of parts. *)
Lemma numbered_parts n (ps : list (OptionNumber * list Opt)) :
  Forall (fun p => all_numbered p.1 p.2) ps → numbered n (concat (map snd ps)) = concat (map (fun p => if p.1 =? n then p.2 else []) ps).
Proof.
  induction 1 as [|[k l] ps Hl _ IH]; [done|]. cbn [map concat fst snd]. rewrite numbered_app, IH. f_equal. by apply numbered_part.
Qed.
Definition q_number (b : option BlockOpt) (on off : OptionNumber) : OptionNumber := match b with Some b => if bo_q_block b then on else off | None => off end.
Lemma q_part b on off l :
  in_u 16 on → in_u 16 off → match b with None => l = [] | Some b => uint_opts (if bo_q_block b then on else off) (Some (BlockValue_as_uint (bo_value b))) l end →
  part (q_number b on off) 1 l.
Proof.
  intros H1 H2. destruct b as [b|]; cbn [q_number]; [|intros ->; split_and!; [constructor|cbn; lia|constructor]]. apply uint_part. by destruct (bo_q_block b).
Qed.
Lemma size2_part (b : option BlockOpt) :
  ∃ l, (∀ E, match b with
             | Some b => if bo_q_block b then opt_mapM (E:=E) (fun n => e ← EncodedUint_new (size2_value n); Opt_size2 e) (bo_size2 b) else mret []
             | None => mret []
             end = Ok l) ∧ uint_opts ON_SIZE2 (block_size2 b) l.
Proof.
  destruct b as [b|]; [|by exists []]. unfold block_size2. cbn [mbind option_bind]. destruct (bo_q_block b); [|by exists []].
  destruct (bo_size2 b) as [n|]; [|by exists []].
  destruct (uint_opt_ok ON_SIZE2 (size2_value n) (size2_in n)) as (bs & Hb & Hu). exists [mkOpt ON_SIZE2 bs].
  split; [intros E; cbn [opt_mapM]; specialize (Hb E); unfold Opt_size2; unbind; by rewrite Hb|by exists bs].
Qed.

(** The parts of the options of a response. *)
Record OptParts : Type := mkOptParts {
  px_tag : option (list Z); px_paths : list (list Z); px_queries : list (list Z);
  px_obs : list Opt; px_fmt : list Opt; px_age : list Opt; px_size2 : list Opt; px_blk : list Opt; px_blk1 : list Opt
}.
Definition part_list r block block1 (x : OptParts) : list (OptionNumber * list Opt) :=
  [(ON_ETAG, match px_tag x with Some t => [Opt_etag t] | None => [] end); (ON_OBSERVE, px_obs x); (ON_LOCATION_PATH, map Opt_location_path (px_paths x));
   (ON_CONTENT_FORMAT, px_fmt x); (ON_MAX_AGE, px_age x); (ON_LOCATION_QUERY, map Opt_location_query (px_queries x)); (ON_SIZE2, px_size2 x);
   (q_number block ON_Q_BLOCK2 ON_BLOCK2, px_blk x); (q_number block1 ON_Q_BLOCK1 ON_BLOCK1, px_blk1 x); (ON_ECHO, echo_part r)].
Definition all_opts r block block1 (x : OptParts) : list Opt := concat (map snd (part_list r block block1 x)).
Record parts_ok r block block1 (x : OptParts) : Prop := {
  pk_tag : ∀ t, px_tag x = Some t → (1 ≤ length t ≤ 8)%nat ∧ bytes_ok t;
  pk_paths : Forall location_ok (px_paths x); pk_queries : Forall location_ok (px_queries x);
  pk_obs : uint_opts ON_OBSERVE (option_map (fun n => n mod 2 ^ 24) (rs_observe r)) (px_obs x);
  pk_fmt : uint_opts ON_CONTENT_FORMAT (rs_content_format r) (px_fmt x);
  pk_fmt_run : ∀ E, opt_mapM (E:=E) (fun f => e ← EncodedUint_new f; Opt_content_format e) (rs_content_format r) = Ok (px_fmt x);
  pk_age : uint_opts ON_MAX_AGE (rs_max_age r) (px_age x);
  pk_size2 : uint_opts ON_SIZE2 (block_size2 block) (px_size2 x);
  pk_blk : match block with None => px_blk x = [] | Some b => uint_opts (if bo_q_block b then ON_Q_BLOCK2 else ON_BLOCK2) (Some (BlockValue_as_uint (bo_value b))) (px_blk x) end;
  pk_blk1 : match block1 with None => px_blk1 x = [] | Some b => uint_opts (if bo_q_block b then ON_Q_BLOCK1 else ON_BLOCK1) (Some (BlockValue_as_uint (bo_value b))) (px_blk1 x) end;
  pk_echo : ∀ e, rs_echo r = Some e → echo_ok e
}.

Lemma option_map_id {A} (o : option A) : option_map (fun x => x) o = o.
Proof. by destruct o. Qed.
Lemma response_parts r block block1 :
  response_ok r → block_ok block → block_ok block1 →
  ∃ x, parts_ok r block block1 x ∧ (∀ E, etag_bytes (E:=E) r = Ok (px_tag x)) ∧ (∀ E, location_paths (E:=E) r = Ok (px_paths x)) ∧
    (∀ E, location_queries (E:=E) r = Ok (px_queries x)) ∧ (∀ E, response_opts (E:=E) r block block1 = Ok (all_opts r block block1 x)) ∧
    length (px_paths x) = Z.to_nat (rs_location_path_len r) ∧ length (px_queries x) = Z.to_nat (rs_location_query_len r) ∧
    (length (px_paths x) ≤ LOCATION_MAX)%nat ∧ (length (px_queries x) ≤ LOCATION_MAX)%nat.
Proof.
  intros Hr Hb Hb1. destruct (etag_reads r Hr) as (tag & Htag & Htok).
  destruct (locations_read _ _ _ (ok_paths _ Hr)) as (paths & Hpaths & Hpl & Hpm & Hpok & _).
  destruct (locations_read _ _ _ (ok_queries _ Hr)) as (queries & Hqueries & Hql & Hqm & Hqok & _).
  destruct (uint_mapM ON_OBSERVE (rs_observe r) (fun seq => Z.land seq OBSERVE_SEQUENCE_MASK)) as (obs & Hobs & Uobs).
  { intros n Hn. destruct (ok_observe _ Hr n Hn) as [H0 _]. rewrite observe_mask by done. pose proof (Z.mod_pos_bound n (2 ^ 24)). unfold in_u. lia. }
  destruct (uint_mapM ON_CONTENT_FORMAT (rs_content_format r) (fun f => f)) as (fmt & Hfmt & Ufmt).
  { intros n Hn. destruct (ok_format _ Hr n Hn). unfold in_u in *. lia. }
  destruct (uint_mapM ON_MAX_AGE (rs_max_age r) (fun f => f)) as (age & Hage & Uage); [intros n; apply (ok_max_age _ Hr)|].
  destruct (size2_part block) as (s2 & Hs2 & Us2).
  destruct (block_part block ON_Q_BLOCK2 ON_BLOCK2 Hb) as (blk & Hblk & Ublk); [done..|].
  destruct (block_part block1 ON_Q_BLOCK1 ON_BLOCK1 Hb1) as (blk1 & Hblk1 & Ublk1); [done..|].
  assert (∀ E, opt_mapM (E:=E) (fun x => b ← Echo_as_slice x; mret (Opt_echo b)) (rs_echo r) = Ok (echo_part r)) as Hecho.
  { intros E. unfold echo_part. destruct (rs_echo r) as [e|] eqn:Ee; [|done]. destruct (ok_echo _ Hr e Ee) as (Hl & _ & Hn). unfold Echo_MAX_LEN in *.
    cbn [opt_mapM]. unfold Echo_as_slice. unbind. by rewrite slice_prefix by lia. }
  rewrite option_map_id in Ufmt, Uage. exists (mkOptParts tag paths queries obs fmt age s2 blk blk1). split.
  { constructor; cbn; try done; [eapply Forall_impl; [exact Hpok|]; by intros v []| |apply (ok_echo _ Hr)].
    destruct (rs_observe r) as [n|] eqn:En; [|done]. cbn [option_map] in *. destruct (ok_observe _ Hr n En) as [H0 _]. by rewrite observe_mask in Uobs. }
  split; [exact Htag|]. split; [exact Hpaths|]. split; [exact Hqueries|]. split; [|done].
  intros E. unfold response_opts. unfold Opt_observe, Opt_content_format, Opt_max_age, Opt_q_block2, Opt_block2, Opt_q_block1, Opt_block1 in *.
  unfold location_paths, location_queries. rewrite Htag, Hobs, Hpaths, Hfmt, Hage, Hqueries, Hs2, Hblk, Hblk1, Hecho. unbind.
  unfold all_opts, part_list. cbn [map concat snd px_tag px_paths px_queries px_obs px_fmt px_age px_size2 px_blk px_blk1]. by rewrite app_nil_r.
Qed.

Section parts.
Context (r : Response T) (block block1 : option BlockOpt) (x : OptParts).
Hypothesis Hx : parts_ok r block block1 x.

Lemma parts_bounds :
  Forall2 (fun p k => part p.1 k p.2) (part_list r block block1 x) [1; 1; length (px_paths x); 1; 1; length (px_queries x); 1; 1; 1; 1]%nat.
Proof using Hx.
  destruct Hx as [Ht Hp Hq Ho Hf _ Ha Hs Hb Hb1 He]. assert (∀ on, part on 1 []) as Hnil by (intros on; split_and!; [constructor|cbn; lia|constructor]).
  unfold part_list. repeat (apply Forall2_cons_2; [cbn [fst snd]|]); [..|apply Forall2_nil_2].
  - destruct (px_tag x) as [t|]; [|done]. destruct (Ht t eq_refl) as [Hl Hbt]. apply (single_part (Opt_etag t)). split_and!; [done..|cbn; lia].
  - by eapply uint_part.
  - by apply map_part.
  - by eapply uint_part.
  - by eapply uint_part.
  - by apply map_part.
  - by eapply uint_part.
  - by apply q_part.
  - by apply q_part.
  - unfold echo_part. destruct (rs_echo r) as [e|]; [|done]. destruct (He e eq_refl) as (Hl & Hbe & Hn). unfold Echo_MAX_LEN in *.
    apply (single_part (Opt_echo _)). split_and!; [done|by apply bytes_ok_take|cbn; rewrite length_take; lia].
Qed.
Lemma parts_numbered n : numbered n (all_opts r block block1 x) = concat (map (fun p => if p.1 =? n then p.2 else []) (part_list r block block1 x)).
Proof using Hx.
  apply numbered_parts. apply Forall_forall. intros p [i Hi]%list_elem_of_lookup_1.
  destruct (Forall2_lookup_l _ _ _ _ _ parts_bounds Hi) as (k & _ & Hk & _). exact Hk.
Qed.
Lemma parts_ok_opts : Forall opt_ok (all_opts r block block1 x) ∧ (length (all_opts r block block1 x) ≤ 8 + length (px_paths x) + length (px_queries x))%nat.
Proof using Hx.
  pose proof parts_bounds as Hp. unfold all_opts. remember (part_list r block block1 x) as ps eqn:Eps. clear Eps.
  repeat (match goal with H : Forall2 _ _ (_ :: _) |- _ => apply Forall2_cons_inv_r in H as (? & ? & [_ [? ?]] & H & ->) end).
  apply Forall2_nil_inv_r in Hp as ->. cbn [map concat]. rewrite !Forall_app, !length_app. split; [by split_and!|]. cbn [length]. lia.
Qed.
End parts.

(** The parts left when the numbers are compared. *)
Ltac pick := cbn [ON_ETAG ON_OBSERVE ON_LOCATION_PATH ON_CONTENT_FORMAT ON_MAX_AGE ON_LOCATION_QUERY ON_SIZE2 ON_ECHO ON_BLOCK1 ON_BLOCK2 ON_Q_BLOCK1 ON_Q_BLOCK2
  Z.eqb Pos.eqb app]; rewrite ?app_nil_r.
Ltac pick_all Hq1 Hq2 := destruct Hq2 as [-> | ->], Hq1 as [-> | ->]; by pick.
Lemma parts_carried r block block1 x : parts_ok r block block1 x → carried r (px_tag x) (px_paths x) (px_queries x) block block1 (all_opts r block block1 x).
Proof.
  intros Hx. pose proof Hx as [Ht Hp Hq Ho Hf _ Ha Hs Hb Hb1 He].
  assert (q_number block ON_Q_BLOCK2 ON_BLOCK2 = 31 ∨ q_number block ON_Q_BLOCK2 ON_BLOCK2 = 23) as Hq2
    by (destruct block as [b|]; cbn; [destruct (bo_q_block b)|]; auto).
  assert (q_number block1 ON_Q_BLOCK1 ON_BLOCK1 = 19 ∨ q_number block1 ON_Q_BLOCK1 ON_BLOCK1 = 27) as Hq1
    by (destruct block1 as [b|]; cbn; [destruct (bo_q_block b)|]; auto).
  constructor; intros; rewrite ?(parts_numbered r block block1 x Hx); unfold part_list; cbn [map concat fst snd].
  1-6: pick_all Hq1 Hq2.
  - destruct block as [b|]; cbn [q_number block_uint mbind option_bind] in *; [destruct (bo_q_block b)|]; destruct Hq1 as [-> | ->]; by pick.
  - destruct block as [b|]; cbn [q_number block_uint mbind option_bind] in *; [destruct (bo_q_block b)|]; destruct Hq1 as [-> | ->]; by pick.
  - pick_all Hq1 Hq2.
  - destruct block1 as [b|]; cbn [q_number block_uint mbind option_bind] in *; [destruct (bo_q_block b)|]; destruct Hq2 as [-> | ->]; by pick.
  - destruct block1 as [b|]; cbn [q_number block_uint mbind option_bind] in *; [destruct (bo_q_block b)|]; destruct Hq2 as [-> | ->]; by pick.
  - pick_all Hq1 Hq2.
  - rename select (_ ∉ _) into Hn. unfold response_numbers in Hn. rewrite !not_elem_of_cons in Hn.
    destruct Hn as (? & ? & ? & ? & ? & ? & ? & ? & ? & ? & ? & ? & _).
    assert (∀ k, n ≠ k → (k =? n) = false) as Hk by (intros k ?; apply Z.eqb_neq; congruence).
    rewrite (Hk ON_ETAG), (Hk ON_OBSERVE), (Hk ON_LOCATION_PATH), (Hk ON_CONTENT_FORMAT), (Hk ON_MAX_AGE), (Hk ON_LOCATION_QUERY),
      (Hk ON_SIZE2), (Hk ON_ECHO) by done.
    rewrite (Hk (q_number block _ _)) by (destruct Hq2 as [-> | ->]; done).
    rewrite (Hk (q_number block1 _ _)) by (destruct Hq1 as [-> | ->]; done). done.
Qed.

(** The options sorted: the same to a receiver. *)
Lemma carried_same r tag paths queries block block1 l l' :
  (∀ n, numbered n l' = numbered n l) → carried r tag paths queries block block1 l → carried r tag paths queries block block1 l'.
Proof. intros Hn []. constructor; intros; rewrite ?Hn; auto. Qed.
Lemma push_all_kept N os :
  (length os ≤ N)%nat → Forall opt_ok os →
  ∃ b l, push_all N (OptionsBuilder_new N) os = Ok b ∧ (∀ E, OptionsBuilder_as_slice (E:=E) b = Ok l) ∧ opts_ascending 0 l ∧ Forall opt_ok l ∧
    ∀ n, numbered n l = numbered n os.
Proof.
  intros Hl Hos. destruct (push_all_stable_sort N os Hl) as (b & l & Hp & Hs & Hperm & Ha & Hst); [eapply Forall_impl; [exact Hos|]; by intros o []|].
  exists b, l. split; [done|]. split; [|split_and!; [done|by rewrite Hperm|done]]. intros E. revert Hs. unfold OptionsBuilder_as_slice. destruct (_ <=? _)%nat; [|done]. by intros [= ->].
Qed.
End options.

Section encode.
Context {RX TX RB TB T Q ER : Type} `{Target} `{OwnedToken T} `{EqDecision T}.
Context `{!SlotPool RX} `{!DatagramBytes RX} `{!SlotPool TX} `{!DatagramBytes TX} `{!BodyCells T RB} `{!BodyCells T TB}.
Abbreviation Eng := (Engine RX TX RB TB T Q).
Implicit Types (tx : SlotId) (ty : MType) (mid : MessageId) (token : T) (r : Response T) (en : Eng).

(** What every path of the encoder does. *)
Definition encodes_as tx ty mid token r (payload : list Z) (l : list Opt) (m : st Eng (AppError ER) unit) : Prop :=
  ∀ en, m en = match Response_validate r with
               | Err e => (en, Err (AeResponse e))
               | _ => oscore_encode_message tx (response_message ty mid token (rs_code r) l payload) en
               end.
Lemma validate_cases r : Response_validate r = Ok tt ∨ ∃ e, Response_validate r = Err e.
Proof. unfold Response_validate. destruct (rs_invalid r); [eauto|]. destruct (_ <? _)%nat; eauto. Qed.

Lemma options_encode N tx ty mid token r payload block block1 :
  response_ok r → block_ok block → block_ok block1 →
  (8 + Z.to_nat (rs_location_path_len r) + Z.to_nat (rs_location_query_len r) ≤ N)%nat →
  ∃ x l, parts_ok r block block1 x ∧ (∀ E, etag_bytes (E:=E) r = Ok (px_tag x)) ∧ (∀ E, location_paths (E:=E) r = Ok (px_paths x)) ∧
    (∀ E, location_queries (E:=E) r = Ok (px_queries x)) ∧
    carried r (px_tag x) (px_paths x) (px_queries x) block block1 l ∧ opts_ascending 0 l ∧ Forall opt_ok l ∧
    encodes_as tx ty mid token r payload l (encode_response_options N tx ty mid token r payload block block1).
Proof.
  intros Hr Hb Hb1 HN. destruct (response_parts r block block1 Hr Hb Hb1) as (x & Hx & Ht & Hp & Hq & Ho & Hpl & Hql & _ & _).
  destruct (parts_ok_opts _ _ _ _ Hx) as [Hok Hlen].
  destruct (push_all_kept N (all_opts r block block1 x)) as (b & l & Hpush & Hsl & Ha & Hl & Hn); [lia|done|].
  exists x, l. split_and!; try done; [by eapply carried_same, parts_carried|]. intros en. unfold encode_response_options. unbind.
  destruct (validate_cases r) as [Hv|[e Hv]]; rewrite Hv; [|done]. cbn [map_err]. rewrite Ho, Hpush, Hsl. by destruct (_ || _).
Qed.

(** The path without a builder. *)
Lemma basic_opts r x :
  parts_ok r None None x → has_only_etag_and_format r = true → response_ok r →
  length (px_paths x) = Z.to_nat (rs_location_path_len r) → length (px_queries x) = Z.to_nat (rs_location_query_len r) →
  all_opts r None None x = match px_tag x with Some t => [Opt_etag t] | None => [] end ++ px_fmt x.
Proof.
  intros [Ht Hp Hq Ho Hf _ Ha Hs Hb Hb1 He] Hh Hr Hpl Hql. unfold has_only_etag_and_format, has_locations in Hh.
  apply andb_true_iff in Hh as [[[[El Eq]%negb_true_iff%orb_false_iff Eo]%andb_true_iff Em]%andb_true_iff Ee].
  apply negb_false_iff, Z.eqb_eq in El, Eq. rewrite El in Hpl. rewrite Eq in Hql. apply nil_length_inv in Hpl, Hql.
  unfold all_opts, part_list, echo_part. cbn [block_size2 mbind option_bind uint_opts] in Hs. rewrite Hs, Hb, Hb1, Hpl, Hql. destruct (rs_observe r); [done|]. destruct (rs_max_age r); [done|].
  destruct (rs_echo r); [done|]. cbn in Ho, Ha. rewrite Ho, Ha. cbn [map concat snd app]. by rewrite app_nil_r.
Qed.
Lemma basic_encode tx ty mid token r payload :
  response_ok r → has_only_etag_and_format r = true →
  ∃ x l, parts_ok r None None x ∧ (∀ E, etag_bytes (E:=E) r = Ok (px_tag x)) ∧ (∀ E, location_paths (E:=E) r = Ok (px_paths x)) ∧
    (∀ E, location_queries (E:=E) r = Ok (px_queries x)) ∧
    carried r (px_tag x) (px_paths x) (px_queries x) None None l ∧ opts_ascending 0 l ∧ Forall opt_ok l ∧
    encodes_as tx ty mid token r payload l (encode_response_basic tx ty mid token r payload).
Proof.
  intros Hr Hh. destruct (response_parts r None None Hr) as (x & Hx & Ht & Hp & Hq & Ho & Hpl & Hql & _ & _); [done..|].
  destruct (parts_ok_opts _ _ _ _ Hx) as [Hok _]. pose proof (basic_opts r x Hx Hh Hr Hpl Hql) as Hall. pose proof (pk_fmt _ _ _ _ Hx) as Hf.
  exists x, (all_opts r None None x). split_and!; try done; [by apply parts_carried| |].
  - rewrite Hall. destruct (px_tag x), (rs_content_format r); cbn in Hf; [destruct Hf as (bs & -> & _)|subst|destruct Hf as (bs & -> & _)|subst]; try rewrite Hf; by cbn.
  - intros en. unfold encode_response_basic. unbind. destruct (validate_cases r) as [Hv|[e Hv]]; rewrite Hv; [|done]. cbn [map_err]. rewrite Ht, Hall.
    destruct (rs_content_format r) as [f|] eqn:Ef.
    + pose proof (pk_fmt_run _ _ _ _ Hx (AppError ER)) as Hrun. rewrite Ef in Hrun. cbn [opt_mapM] in Hrun. revert Hrun. unbind.
      destruct (EncodedUint_new f) as [e| | |]; try done. destruct (Opt_content_format e) as [o| | |]; try done. intros [= <-]. by destruct (px_tag x).
    + destruct (uint_opt_ok ON_CONTENT_FORMAT CF_TEXT_PLAIN) as (bs & Hbs & _); [done|]. specialize (Hbs (AppError ER)). revert Hbs. unbind.
      destruct (EncodedUint_new CF_TEXT_PLAIN) as [e| | |]; try done. unfold Opt_content_format. intros ->. cbn in Hf. rewrite Hf. by destruct (px_tag x).
Qed.

(** Every path. *)
Lemma encode_response_spec tx ty mid token r payload block block1 :
  response_ok r → block_ok block → block_ok block1 →
  ∃ x l, parts_ok r block block1 x ∧ (∀ E, etag_bytes (E:=E) r = Ok (px_tag x)) ∧ (∀ E, location_paths (E:=E) r = Ok (px_paths x)) ∧
    (∀ E, location_queries (E:=E) r = Ok (px_queries x)) ∧
    carried r (px_tag x) (px_paths x) (px_queries x) block block1 l ∧ opts_ascending 0 l ∧ Forall opt_ok l ∧
    encodes_as tx ty mid token r payload l (encode_response tx ty mid token r payload block block1).
Proof.
  intros Hr Hb Hb1. unfold encode_response. destruct (_ && _) eqn:Eb.
  { apply andb_true_iff in Eb as [[[E1 E2]%andb_true_iff E3]%andb_true_iff _]. destruct block; [done|]. destruct block1; [done|]. by apply basic_encode. }
  destruct (negb (has_locations r)) eqn:El.
  - apply options_encode; try done. unfold has_locations in El. apply negb_true_iff, orb_false_iff in El as [E1%negb_false_iff%Z.eqb_eq E2%negb_false_iff%Z.eqb_eq].
    rewrite E1, E2. lia.
  - unfold encode_response_locations. apply options_encode; try done. pose proof (ok_paths _ Hr) as Hp. pose proof (ok_queries _ Hr) as Hq.
    assert (∀ P v n, locations_ok P v n → (Z.to_nat n ≤ LOCATION_MAX)%nat) as Hle.
    { intros P v n. destruct v; cbn [locations_ok]; unfold LOCATION_MAX; [intros (_ & ? & _)|intros ->]; lia. }
    apply Hle in Hp, Hq. lia.
Qed.
End encode.

(** ** The datagram in the slot *)
Section slot.
Context {RX TX RB TB T Q ER : Type} `{Target} `{OwnedTokenLaws T} `{EqDecision T}.
Context `{!SlotPool RX} `{!DatagramBytes RX} `{!SlotPool TX} `{!DatagramBytes TX} `{!DatagramLaws TX} `{!BufferLaws TX} `{!BodyCells T RB} `{!BodyCells T TB}.
Abbreviation Eng := (Engine RX TX RB TB T Q).
Implicit Types (tx : SlotId) (ty : MType) (mid : MessageId) (token : T) (r : Response T) (en : Eng).

(** [bytes] decode to the message [m]. *)
Definition decodes_to (bytes : list Z) (m : Message T) : Prop :=
  ∃ pm, decode_with_token bytes = Ok pm ∧ pm_ty pm = msg_ty _ m ∧ pm_code pm = msg_code _ m ∧ pm_message_id pm = msg_id _ m ∧
    pm_token _ pm = msg_token _ m ∧ pm_opts (E:=ParseError) pm = Ok (msg_options _ m) ∧ pm_payload _ pm = msg_payload _ m.

Lemma encode_tx_slot en tx s (m : Message T) :
  pool_inv (tx_of en) → 2 * Z.of_nat (pool_cap (tx_of en)) ≤ usize_max → slot_at (pool_view (tx_of en)) tx = Some s → message_typed m →
  match encode_tx (RX:=RX) (TX:=TX) (RB:=RB) (TB:=TB) (Q:=Q) tx m en with
  | (en', Ok n) => ∃ bytes, rewrites (tx_of en) tx (set_view_payload bytes s) (tx_of en') ∧ n = length bytes ∧ decodes_to bytes m
  | (_, Err e) => ∃ x, e = SMEncode x
  | _ => False
  end.
Proof.
  intros Hi Hfit Hs Hm. unfold encode_tx, on_tx, zoom, encode_occupied, in_slot, st_map_err. unbind. cbn [fst snd].
  pose proof (law_buffer (tx_of en) tx (E:=SlotMessageError) Hi) as Hb. rewrite Hs in Hb. destruct Hb as (buf & store & Hbuf & Hl & Hw). rewrite Hbuf.
  pose proof Hm as (Hc & Hid & Ht & Hos & Hp). destruct (ot_wf_bytes _ Ht) as (bs & Hbs & _).
  assert (slice_fits buf) as Hfb by (unfold slice_fits; rewrite Hl; lia).
  pose proof (encode_bytes m bs Hbs buf) as He.
  pose proof (encode_token_iter_outcome (msg_ty _ m) (msg_code _ m) (msg_id _ m) bs (msg_options _ m) (msg_payload _ m) buf Hid Hos Hp Hfb) as Ho.
  destruct (encode m buf) as [buf' [n|e| |]] eqn:Em; cbn [map_err].
  - destruct (encode_decodes m buf buf' n Hm Hfb Em) as (pm & Hpm). destruct (encode_ok_inv m bs buf buf' n Hm Hfb Hbs Em) as (_ & -> & Hn & ->).
    set (wire := msg_wire _ _ _ _ _ _) in *. assert (length (splice buf 0 wire) = pool_cap (tx_of en)) as Hls by (rewrite length_splice; lia).
    destruct (Hw _ Hls) as [_ Hset]. specialize (Hset (length wire)). rewrite (proj2 (Nat.leb_le _ _)) in Hset by lia. destruct Hset as (p' & Hset & Hr).
    unfold set_len, st_upd. match goal with |- context [db_set_len (tx_of ?z) tx _] => change (tx_of z) with (store (splice buf 0 wire)) end. rewrite Hset.
    exists (take (length wire) (splice buf 0 wire)). split; [exact Hr|]. split; [|by exists pm]. rewrite length_take. lia.
  - by eexists.
  - destruct (_ && _) in He; [done|]. rewrite <- He in Ho. by destruct Ho.
  - destruct (_ && _) in He; [done|]. rewrite <- He in Ho. by destruct Ho.
Qed.

Lemma opts_typed l : Forall opt_ok l → Forall opt_typed l.
Proof.
  intros Hl. eapply Forall_impl; [exact Hl|]. intros o (Hn & Hb & Hlen). split_and!; [done..|]. unfold slice_fits. pose proof usize_max_ge. lia.
Qed.

(** C25: A response that is accepted is on the wire as it was built.  Whichever
    path encodes it (no builder, eight options, twenty-four options) the TX slot
    holds a datagram that decodes to the response: its type, code, Message ID,
    Token and payload, and exactly the options that were set, the locations in
    their order, the integers with their values, in ascending option order, no
    block, Size2 or Echo option that was not asked for, and no other option.  A
    response with a refused setter is reported and nothing is written; any other
    error is the encoder's, for a slot that is too small. *)
Theorem response_on_wire en tx s ty mid token r (payload : list Z) (block block1 : option BlockOpt) :
  response_ok r → block_ok block → block_ok block1 → in_u 16 mid → ot_wf token → slice_fits payload →
  pool_inv (tx_of en) → 2 * Z.of_nat (pool_cap (tx_of en)) ≤ usize_max → slot_at (pool_view (tx_of en)) tx = Some s →
  match encode_response (RX:=RX) (TX:=TX) (RB:=RB) (TB:=TB) (Q:=Q) (ER:=ER) tx ty mid token r payload block block1 en with
  | (en', Ok _) =>
      Response_validate r = Ok tt ∧
      ∃ bytes l tag paths queries,
        rewrites (tx_of en) tx (set_view_payload bytes s) (tx_of en') ∧
        decodes_to bytes (response_message ty mid token (rs_code r) l payload) ∧ opts_ascending 0 l ∧
        etag_bytes (E:=ResponseError) r = Ok tag ∧ location_paths (E:=ResponseError) r = Ok paths ∧
        location_queries (E:=ResponseError) r = Ok queries ∧ carried r tag paths queries block block1 l
  | (en', Err e) => (∃ x, Response_validate r = Err x ∧ e = AeResponse x ∧ en' = en) ∨ (∃ x, e = AeMessage (SMEncode x))
  | _ => False
  end.
Proof.
  intros Hr Hb Hb1 Hmid Htok Hpay Hi Hfit Hs.
  destruct (encode_response_spec (RX:=RX) (TX:=TX) (RB:=RB) (TB:=TB) (Q:=Q) (ER:=ER) tx ty mid token r payload block block1 Hr Hb Hb1)
    as (x & l & _ & Htag & Hpaths & Hqueries & Hcar & Hasc & Hok & Henc).
  rewrite (Henc en). destruct (validate_cases r) as [Hv|[e Hv]]; rewrite Hv; [|left; eauto].
  set (m := response_message ty mid token (rs_code r) l payload). assert (message_typed m) as Hm.
  { split_and!; [apply (ok_code _ Hr)|done|done|by apply opts_typed|done]. }
  pose proof (encode_tx_slot en tx s m Hi Hfit Hs Hm) as Hslot. unfold oscore_encode_message, st_map_err. unbind.
  destruct (encode_tx tx m en) as [en' [n|e| |]]; try done; cbn [map_err].
  - destruct Hslot as (bytes & Hrw & _ & Hdec). split; [done|]. exists bytes, l, (px_tag x), (px_paths x), (px_queries x). by split_and!.
  - destruct Hslot as [y ->]. right. by exists y.
Qed.
End slot.

Section witness.
#[local] Existing Instance target64.

(** A 2.01 with an ETag and a location, encoded over the request in slot 0. *)
Definition ex_created : Response Token :=
  match (r ← etag (E:=ResponseError) (Response_new Code_CREATED) [7]; location_path r [97]) with Ok r => r | _ => Response_new Code_EMPTY end.
Lemma ex_created_ok : response_ok ex_created.
Proof.
  assert (response_ok (Response_new (T:=Token) Code_CREATED)) as Hr by (apply new_ok; by vm_compute).
  destruct (chain_ok [BEtag [7]; BPath [97]] _ Hr) as [Hg _]; [repeat constructor; by vm_compute|]. exact Hg.
Qed.
Definition ex_reply_token : Token := mkToken [5; 0; 0; 0; 0; 0; 0; 0] 1.

Lemma response_on_wire_witness :
  ∃ en' bytes l tag paths queries,
    encode_response (ER:=unit) 0 Acknowledgement 7 ex_reply_token ex_created [] None None ex_engine = (en', Ok tt) ∧
    rewrites (tx_of ex_engine) 0 (set_view_payload bytes (mkView ex_request None None false)) (tx_of en') ∧
    decodes_to bytes (response_message Acknowledgement 7 ex_reply_token Code_CREATED l []) ∧ opts_ascending 0 l ∧
    etag_bytes (E:=ResponseError) ex_created = Ok tag ∧ location_paths (E:=ResponseError) ex_created = Ok paths ∧
    location_queries (E:=ResponseError) ex_created = Ok queries ∧ carried ex_created tag paths queries None None l.
Proof.
  pose proof (response_on_wire (ER:=unit) ex_engine 0 (mkView ex_request None None false) Acknowledgement 7 ex_reply_token ex_created [] None None) as Hw.
  assert ((encode_response (ER:=unit) 0 Acknowledgement 7 ex_reply_token ex_created [] None None ex_engine).2 = Ok tt) as Hok by (vm_compute; reflexivity).
  destruct (encode_response (ER:=unit) 0 Acknowledgement 7 ex_reply_token ex_created [] None None ex_engine) as [en' res]. cbn [snd] in Hok. subst res.
  destruct Hw as (_ & bytes & l & tag & paths & queries & Hw).
  - exact ex_created_ok.
  - by intros x.
  - by intros x.
  - by vm_compute.
  - split_and!; try done. by repeat constructor.
  - by vm_compute.
  - apply ex_slot_pool_ok.
  - by vm_compute.
  - reflexivity.
  - by exists en', bytes, l, tag, paths, queries.
Defined.
(** The bytes written there. *)
Example ex_created_wire :
  slot_at (pool_view (tx_of (encode_response (ER:=unit) 0 Acknowledgement 7 ex_reply_token ex_created [] None None ex_engine).1)) 0 =
  Some (mkView [97; 65; 0; 7; 5; 65; 7; 65; 97] None None false).
Proof. by vm_compute. Qed.
End witness.
