(* ===== verification/AppReply.v ===== *)
(** * Replies a client collects

    [src/app/client.rs]: the snapshot of a matched reply ([ReplyMeta]), the
    response a caller gets from it, and the bounded table of completed replies
    ([ClientInbox]). *)
From S2P Require Import Prelude Errors MsgTypes Options Encode Decode OptionsBuilder OptionValues MessageOptions MissingBlocks.
From S2P Require Import Occupancy Pending DatagramPool PendingCons SlotTable Dedup Observe Block BodyPool Exchange Engine.
From S2P Require Import Problem AppIdentity Transport AppSend AppResponse.

Definition RESPONSE_OPTION_COUNT : nat := 24.
Definition RESPONSE_OPTION_BYTES : nat := 512.

Inductive CallFailure : Type :=
  | CfPacketHeadroom | CfCancelled | CfAssociationRevoked | CfCancellationFailed | CfReregistrationFailed | CfObserveFormatMismatch
  | CfContinuationFailed | CfDeadlineExceeded | CfTimedOut | CfReset | CfBlockTransfer (e : BlockTransferError)
  | CfResponseMetadataBounds | CfResponseBodyBounds.

Record Call (T : Type) : Type := mkCall { call_token : T; call_peer : Endpoint }.
Arguments mkCall {T} _ _.
Arguments call_token {T} _.
Arguments call_peer {T} _.
#[export] Instance Call_eq_dec {T} `{EqDecision T} : EqDecision (Call T).
Proof. solve_decision. Defined.

Section reply.
Context {T : Type} `{Target} `{OwnedToken T}.

(** The [for option in parsed.options()] loop of [from_parsed]. *)
Fixpoint collect_options (os : list Opt) (paths queries : nat) (b : OptionsBuilder) : res CallFailure OptionsBuilder :=
  match os with
  | [] => Ok b
  | o :: os =>
      let paths := if opt_number o =? ON_LOCATION_PATH then S paths else paths in
      let queries := if opt_number o =? ON_LOCATION_QUERY then S queries else queries in
      if ((opt_number o =? ON_LOCATION_PATH) && (LOCATION_MAX <? paths)%nat)
         || ((opt_number o =? ON_LOCATION_QUERY) && (LOCATION_MAX <? queries)%nat)
      then Err CfResponseMetadataBounds
      else
        b ← map_err (fun _ => CfResponseMetadataBounds) (OptionsBuilder_push RESPONSE_OPTION_COUNT b o);
        collect_options os paths queries b
  end.

(** [u16::try_from(n).unwrap_or(u16::MAX)]. *)
Definition saturate16 (n : nat) : Z := if Z.of_nat n <=? max_u 16 then Z.of_nat n else max_u 16.

Definition ReplyMeta_from_parsed (parsed : ParsedMessage T) (peer : Endpoint) (received_at_ms : Z) : res CallFailure ReplyMeta :=
  os ← pm_opts parsed;
  options ← collect_options os 0 0 (OptionsBuilder_new RESPONSE_OPTION_COUNT);
  slice ← OptionsBuilder_as_slice options;
  let message := Message_with_options (Message_with_token (Message_new (pm_ty parsed) (pm_code parsed) (pm_message_id parsed)) (pm_token _ parsed)) slice in
  match encode message (replicate RESPONSE_OPTION_BYTES 0) with
  | (header, Ok header_len) =>
      let n := Nat.min (length (pm_payload _ parsed)) INLINE_PAYLOAD in
      part ← slice_idx (pm_payload _ parsed) 0 n;
      payload ← copy_into 0 n part (replicate INLINE_PAYLOAD 0);
      mret (mkReplyMeta received_at_ms header (wrap 16 (Z.of_nat header_len)) peer payload (wrap 16 (Z.of_nat n))
              (saturate16 (length (pm_payload _ parsed))))
  | (_, Err _) => Err CfResponseMetadataBounds
  | (_, Panic) => Panic
  | (_, Diverge) => Diverge
  end.

Definition ReplyMeta_same_header {E} (m other : ReplyMeta) : res E bool :=
  if negb (eqb (rm_peer m) (rm_peer other)) then mret false
  else
    a ← slice_idx (rm_header m) 0 (Z.to_nat (rm_header_len m));
    b ← slice_idx (rm_header other) 0 (Z.to_nat (rm_header_len other));
    mret (eqb a b).

(** [and_then(Result::ok)], [.flatten()] over parsed options. *)
Definition ok_value {A} (o : option (res ValueError A)) : option A := match o with Some (Ok a) => Some a | _ => None end.
Definition ok_values {A} (l : list (res ValueError A)) : list A := omap (fun x => match x with Ok a => Some a | _ => None end) l.
Fixpoint set_paths {E} (r : Response T) (paths : list (list Z)) : res E (Response T) :=
  match paths with
  | [] => Ok r
  | p :: paths =>
      r ← (if (length p <=? 255)%nat && negb (is_dots p) then location_path r p else mret r);
      set_paths r paths
  end.
Fixpoint set_queries {E} (r : Response T) (queries : list (list Z)) : res E (Response T) :=
  match queries with
  | [] => Ok r
  | q :: queries => r ← (if (length q <=? 255)%nat then location_query r q else mret r); set_queries r queries
  end.

(** The [expect] is a panic. *)
Definition ReplyMeta_response {E} (m : ReplyMeta) : res E (Response T) :=
  header ← slice_idx (rm_header m) 0 (Z.to_nat (rm_header_len m));
  match decode_with_token header with
  | Ok parsed =>
      payload ← slice_idx (rm_payload m) 0 (Z.to_nat (rm_payload_len m));
      format ← pm_content_format parsed;
      r ← from_client parsed m payload (ok_value format);
      let r := with_payload_src_len r (rm_payload_src_len m) in
      tags ← pm_etag parsed;
      r ← match tags with t :: _ => if (1 <=? length t)%nat && (length t <=? 8)%nat then etag r t else mret r | [] => mret r end;
      observe ← pm_observe parsed;
      let r := match ok_value observe with Some seq => set_observe r seq | None => r end in
      age ← pm_max_age parsed;
      let r := match ok_value age with Some age => max_age r age | None => r end in
      r ← match Echo_from_message parsed with
          | Ok (Some echo) => mret (set_echo r echo)
          | Ok None | Err _ => mret r
          | Panic => Panic
          | Diverge => Diverge
          end;
      paths ← pm_location_path parsed;
      r ← set_paths r (ok_values paths);
      queries ← pm_location_query parsed;
      set_queries r (ok_values queries)
  | Diverge => Diverge
  | _ => Panic
  end.
End reply.

(** ** The inbox *)
Record InboxRow (T : Type) : Type := mkInboxRow {
  ir_complete : bool;
  ir_call : Call T;
  ir_meta : CallFailure + ReplyMeta;
  ir_body : option SlotId;
  ir_datagram : option SlotId
}.
Arguments mkInboxRow {T} _ _ _ _ _.
Arguments ir_complete {T} _.
Arguments ir_call {T} _.
Arguments ir_meta {T} _.
Arguments ir_body {T} _.
Arguments ir_datagram {T} _.
Record ClientInbox (T : Type) : Type := mkInbox { ib_rows : list (option (InboxRow T)); ib_held : option ReplyMeta }.
Arguments mkInbox {T} _ _.
Arguments ib_rows {T} _.
Arguments ib_held {T} _.

Section inbox.
Context {T : Type} `{Target} `{OwnedToken T} `{EqDecision T}.
Abbreviation Inbox := (ClientInbox T).
Implicit Types (i : Inbox) (call : Call T).

Definition ClientInbox_new (CALLS : nat) : Inbox := mkInbox (replicate CALLS None) None.
(** [rows.iter().flatten()]. *)
Definition rows_of i : list (InboxRow T) := omap (fun row => row) (ib_rows i).
Definition inbox_usage i : nat * nat := (length (rows_of i), length (List.filter ir_complete (rows_of i))).
Definition inbox_has_protocol_state i : bool := existsb is_some (ib_rows i).

Definition row_is (f : InboxRow T → bool) (row : option (InboxRow T)) : bool := match row with Some row => f row | None => false end.
Definition same_call call (row : InboxRow T) : bool := eqb (call_token (ir_call row)) (call_token call) && eqb (call_peer (ir_call row)) (call_peer call).
Definition with_rows i rows : Inbox := mkInbox rows (ib_held i).

Definition inbox_insert i call (meta : CallFailure + ReplyMeta) (body : option SlotId) : Inbox * res unit (option SlotId) :=
  match position (row_is (same_call call)) (ib_rows i) with
  | Some k =>
      let prev := match ib_rows i !! k with Some (Some row) => ir_body row | _ => None end in
      (with_rows i (<[k := Some (mkInboxRow true call meta body None)]> (ib_rows i)), Ok prev)
  | None =>
      match position (fun row => negb (is_some row)) (ib_rows i) with
      | Some k => (with_rows i (<[k := Some (mkInboxRow true call meta body None)]> (ib_rows i)), Ok None)
      | None => (i, Err tt)
      end
  end.

Definition inbox_holds_datagram i (rx : SlotId) : bool := existsb (fun row => eqb (ir_datagram row) (Some rx)) (rows_of i).
Definition inbox_take_datagram i call : Inbox * option SlotId :=
  match position (row_is (fun row => eqb (ir_call row) call)) (ib_rows i) with
  | Some k =>
      match ib_rows i !! k with
      | Some (Some row) =>
          (with_rows i (<[k := Some (mkInboxRow (ir_complete row) (ir_call row) (ir_meta row) (ir_body row) None)]> (ib_rows i)), ir_datagram row)
      | _ => (i, None)
      end
  | None => (i, None)
  end.
Definition inbox_completed i call : option (InboxRow T) := List.find (fun row => ir_complete row && eqb (ir_call row) call) (rows_of i).
Definition inbox_discard i call : Inbox :=
  with_rows i (map (fun row => if row_is (fun row => eqb (ir_call row) call) row then None else row) (ib_rows i)).
Definition inbox_contains i call : bool := existsb (fun row => eqb (ir_call row) call && ir_complete row) (rows_of i).
Definition inbox_partial_meta i call (body : SlotId) : option ReplyMeta :=
  match List.find (fun row => eqb (ir_call row) call && negb (ir_complete row) && eqb (ir_body row) (Some body)) (rows_of i) with
  | Some row => match ir_meta row with inr meta => Some meta | inl _ => None end
  | None => None
  end.
Definition inbox_retain_partial i call (meta : ReplyMeta) (body : SlotId) : Inbox * res unit (option SlotId) :=
  if is_some (inbox_partial_meta i call body) then (i, Ok None)
  else
    match inbox_insert i call (inr meta) (Some body) with
    | (i, Ok previous) =>
        (match position (row_is (fun row => eqb (ir_call row) call)) (ib_rows i) with
         | Some k =>
             match ib_rows i !! k with
             | Some (Some row) => with_rows i (<[k := Some (mkInboxRow false (ir_call row) (ir_meta row) (ir_body row) (ir_datagram row))]> (ib_rows i))
             | _ => i
             end
         | None => i
         end, Ok previous)
    | other => other
    end.
Definition inbox_take {E} i call : res E (Inbox * option ((CallFailure + Response T) * option SlotId)) :=
  match position (row_is (fun row => ir_complete row && same_call call row)) (ib_rows i) with
  | None => mret (i, None)
  | Some k =>
      match ib_rows i !! k with
      | Some (Some row) =>
          let rows := <[k := None]> (ib_rows i) in
          match ir_meta row with
          | inr meta => r ← ReplyMeta_response meta; mret (mkInbox rows (Some meta), Some (inr r, ir_body row))
          | inl error => mret (mkInbox rows None, Some (inl error, ir_body row))
          end
      | _ => mret (i, None)
      end
  end.
End inbox.
