(* ===== verification/AppReplyLaws.v ===== *)
(** * Collected replies

    A reply that is stored comes back as it was received, and the inbox is a
    bounded map from calls to replies that never drops one to make room. *)
From S2P Require Import Prelude Errors MsgTypes Options Encode Decode Codec OptionsBuilder OptionValues MessageOptions MissingBlocks.
From S2P Require Import Occupancy Pending DatagramPool PendingCons SlotTable Dedup Observe Block BodyPool Exchange Engine EngineExchange DatagramBuffer.
From S2P Require Import Problem ProblemRound AppIdentity Transport AppSend AppResponse AppResponseLaws AppEncode AppEncodeLaws AppReply.

(** ** Storing the options again *)
Lemma push_append N b o :
  builder_inv N b → (ob_len b < N)%nat → Forall (fun p => opt_number p ≤ opt_number o) (used b) →
  ∃ b', OptionsBuilder_push N b o = Ok b' ∧ builder_inv N b' ∧ ob_len b' = S (ob_len b) ∧ used b' = used b ++ [o].
Proof.
  intros Hi Hl Hf. destruct (OptionsBuilder_push_ok N b o Hi Hl) as (b' & Hp & Hi' & Hl' & Hu). exists b'. split_and!; try done.
  rewrite Hu, <- (app_nil_r (used b)) at 1. by rewrite insert_stable_split by first [done|constructor].
Qed.
(** The bounds of a snapshot. *)
Definition kept_bounds (os : list Opt) : Prop :=
  (length os ≤ RESPONSE_OPTION_COUNT)%nat ∧ (length (numbered ON_LOCATION_PATH os) ≤ LOCATION_MAX)%nat ∧ (length (numbered ON_LOCATION_QUERY os) ≤ LOCATION_MAX)%nat.
Lemma numbered_cons n o l : numbered n (o :: l) = if opt_number o =? n then o :: numbered n l else numbered n l.
Proof. unfold numbered. rewrite filter_cons. destruct (Z.eqb_spec (opt_number o) n); [by rewrite decide_True|by rewrite decide_False]. Qed.
Lemma ascending_before prev l o r : opts_ascending prev (l ++ o :: r) → prev ≤ opt_number o ∧ Forall (fun p => opt_number p ≤ opt_number o) l.
Proof.
  revert prev. induction l as [|x l IH]; intros prev; cbn [app opts_ascending]; [intros [? _]; by split|]. intros [Hx Hl]. destruct (IH _ Hl) as [Hle Hf].
  split; [lia|by constructor].
Qed.
Lemma numbered_snoc n l o : length (numbered n (l ++ [o])) = (if (opt_number o =? n)%Z then S (length (numbered n l)) else length (numbered n l))%nat.
Proof. rewrite numbered_app, length_app, numbered_cons. destruct (_ =? n); cbn; lia. Qed.
Lemma kept_bounds_app l r : kept_bounds (l ++ r) → kept_bounds l.
Proof. unfold kept_bounds. rewrite !numbered_app, !length_app. lia. Qed.
Lemma collect_spec os done b :
  builder_inv RESPONSE_OPTION_COUNT b → used b = done → opts_ascending 0 (done ++ os) →
  (length (numbered ON_LOCATION_PATH done) ≤ LOCATION_MAX)%nat → (length (numbered ON_LOCATION_QUERY done) ≤ LOCATION_MAX)%nat →
  match collect_options os (length (numbered ON_LOCATION_PATH done)) (length (numbered ON_LOCATION_QUERY done)) b with
  | Ok b' => builder_inv RESPONSE_OPTION_COUNT b' ∧ used b' = done ++ os ∧ kept_bounds (done ++ os)
  | Err e => e = CfResponseMetadataBounds ∧ ¬ kept_bounds (done ++ os)
  | _ => False
  end.
Proof.
  revert done b. induction os as [|o os IH]; intros dn b Hi Hu Ha Hp Hq; cbn [collect_options].
  { rewrite app_nil_r. split; [done|]. split; [done|]. split; [|done]. rewrite <- Hu. destruct Hi as (Hl & Hn & _). unfold used. rewrite length_take. lia. }
  pose proof (numbered_snoc ON_LOCATION_PATH dn o) as Ep. pose proof (numbered_snoc ON_LOCATION_QUERY dn o) as Eq. rewrite <- Ep, <- Eq.
  rewrite (cons_middle o dn os), app_assoc in *. pose proof (fun H => kept_bounds_app (dn ++ [o]) os H) as Hsub.
  destruct (_ || _) eqn:Eb.
  { split; [done|]. intros Hk. destruct (Hsub Hk) as (_ & H1 & H2). apply orb_true_iff in Eb as [[_ E%Nat.ltb_lt]%andb_true_iff|[_ E%Nat.ltb_lt]%andb_true_iff]; lia. }
  assert (length dn = ob_len b) as Hlen by (rewrite <- Hu; unfold used; rewrite length_take; destruct Hi as (? & ? & _); lia).
  rewrite <- app_assoc in Ha. destruct (ascending_before _ _ _ _ Ha) as [_ Hle]. rewrite app_assoc in Ha.
  assert (∀ n k, (opt_number o =? n) && (LOCATION_MAX <? k)%nat = false → k = length (numbered n (dn ++ [o])) → (length (numbered n dn) ≤ LOCATION_MAX)%nat →
    (length (numbered n (dn ++ [o])) ≤ LOCATION_MAX)%nat) as Hkeep.
  { intros n k E -> Hl. rewrite numbered_snoc in *. destruct (opt_number o =? n); [|done]. apply andb_false_iff in E as [E|E%Nat.ltb_ge]; done. }
  apply orb_false_iff in Eb as [E1 E2].
  destruct (Nat.lt_ge_cases (ob_len b) RESPONSE_OPTION_COUNT) as [Hlt|Hge].
  - destruct (push_append _ b o Hi Hlt) as (b' & -> & Hi' & _ & Hu'); [by rewrite Hu|]. cbn [map_err]. unbind.
    apply (IH (dn ++ [o]) b' Hi'); [by rewrite Hu', Hu|done|by eapply Hkeep|by eapply Hkeep].
  - unfold OptionsBuilder_push. rewrite (proj2 (Nat.leb_le _ _)) by done. cbn [map_err]. unbind. split; [done|]. intros Hk. destruct (Hsub Hk) as [Hb _].
    rewrite length_app in Hb. cbn [length] in Hb. lia.
Qed.

Section reply.
Context {T : Type} `{Target} `{OwnedTokenLaws T}.
Implicit Types (parsed : ParsedMessage T) (r : Response T).

(** ** A received message *)
Record wire_form parsed (token : list Z) (os : list Opt) : Prop := {
  wf_header : pm_header _ parsed = mkHeader 1 (pm_ty parsed) (ext_field (Z.of_nat (length token))).1 (pm_code parsed) (pm_message_id parsed);
  wf_code : in_u 8 (pm_code parsed);
  wf_id : in_u 16 (pm_message_id parsed);
  wf_msg : msg_wf (pm_code parsed) token os (pm_payload _ parsed);
  wf_token : ot_wf (pm_token _ parsed);
  wf_token_from : ot_try_from_bytes token = Ok (pm_token _ parsed);
  wf_token_bytes : ∀ E, ot_as_bytes (E:=E) (pm_token _ parsed) = Ok token;
  wf_options : pm_options _ parsed = options_wire 0 os;
  wf_opts : ∀ E, pm_opts (E:=E) parsed = Ok os;
  wf_options_fit : slice_fits (options_wire 0 os);
  wf_options_bytes : bytes_ok (options_wire 0 os);
  wf_payload : bytes_ok (pm_payload _ parsed);
  wf_payload_fits : slice_fits (pm_payload _ parsed)
}.
Lemma received_form buf parsed : bytes_ok buf → slice_fits buf → decode_with_token buf = Ok parsed → ∃ token os, wire_form parsed token os.
Proof.
  intros Hb Hfit Hd. unfold decode_with_token in Hd. unbind. destruct (decode_parts buf true) as [p| | |] eqn:Ep; try done. cbn [map_err] in Hd.
  destruct (decode_parts_inv _ _ _ Hb Ep) as (ty & code & id & token & os & payload & -> & -> & Hwf & Hc & Hid & _). cbn [wire_parts pt_token pt_header pt_options pt_payload] in Hd.
  destruct (ot_try_from_bytes token) as [t| | |] eqn:Et; try done. cbn [map_err] in Hd. injection Hd as <-.
  destruct (decide (length token ≤ ot_MAX_LEN)%nat) as [Hlt|Hlt]; [|by rewrite ot_from_bytes_err in Et by lia].
  destruct (ot_from_bytes_ok token Hlt) as (t' & Ht' & Hw & Htb). rewrite Et in Ht'. injection Ht' as <-.
  assert (slice_fits (options_wire 0 os) ∧ slice_fits payload) as [Hfo Hfp].
  { unfold slice_fits, msg_wire, payload_wire in *. rewrite !length_app in Hfit. split; [lia|]. destruct payload; simpl in *; lia. }
  exists token, os. constructor; cbn; try done.
  - intros E. apply Options_iter_wire; [done|apply Hwf].
  - apply options_wire_bytes; [lia|apply Hwf].
  - unfold msg_wire, payload_wire in Hb. rewrite !bytes_ok_app in Hb. destruct Hb as (_ & _ & Hb). destruct payload; [constructor|]. by apply bytes_ok_cons in Hb as [_ Hb].
Qed.

Section form.
Context (parsed : ParsedMessage T) (token : list Z) (os : list Opt).
Hypothesis Hw : wire_form parsed token os.

(** The bytes of the snapshot. *)
Definition snapshot : list Z := msg_wire (pm_ty parsed) (pm_code parsed) (pm_message_id parsed) token os [].
Lemma form_ascending : opts_ascending 0 os ∧ Forall opt_typed os.
Proof using Hw. destruct (wf_msg _ _ _ Hw) as (_ & Ho & _). destruct (opts_wf_typed 0 os) as (? & ? & _); [lia|done|]. done. Qed.
Lemma form_wf : msg_wf (pm_code parsed) token os [].
Proof using Hw. destruct (wf_msg _ _ _ Hw) as (Ht & Ho & He). split_and!; [done..|]. intros Hc. destruct (He Hc) as (? & ? & _). done. Qed.
Lemma snapshot_decodes :
  (length snapshot ≤ RESPONSE_OPTION_BYTES)%nat → decode_with_token snapshot = Ok (mkParsed _ (pm_header _ parsed) (pm_token _ parsed) (pm_options _ parsed) []).
Proof using Hw.
  intros Hl. unfold decode_with_token, snapshot in *. rewrite decode_parts_wire; [|unfold slice_fits, RESPONSE_OPTION_BYTES in *; pose proof usize_max_ge; lia|apply (wf_id _ _ _ Hw)|apply form_wf|done].
  cbn [map_err]. unbind. cbn [wire_parts pt_token pt_header pt_options pt_payload]. rewrite (wf_token_from _ _ _ Hw). cbn [map_err].
  by rewrite (wf_header _ _ _ Hw), (wf_options _ _ _ Hw).
Qed.
Lemma snapshot_encodes :
  let m := Message_with_options (Message_with_token (Message_new (pm_ty parsed) (pm_code parsed) (pm_message_id parsed)) (pm_token _ parsed)) os in
  match encode m (replicate RESPONSE_OPTION_BYTES 0) with
  | (header, Ok n) => header = splice (replicate RESPONSE_OPTION_BYTES 0) 0 snapshot ∧ n = length snapshot ∧ (length snapshot ≤ RESPONSE_OPTION_BYTES)%nat
  | (_, Err _) => (RESPONSE_OPTION_BYTES < length snapshot)%nat
  | _ => False
  end.
Proof using Hw.
  intros m. pose proof (encode_bytes m token (wf_token_bytes _ _ _ Hw)) as He.
  assert (slice_fits (replicate RESPONSE_OPTION_BYTES 0)) as Hfb by (unfold slice_fits, RESPONSE_OPTION_BYTES; rewrite length_replicate; pose proof usize_max_ge; lia).
  assert (slice_fits []) as Hnil by (unfold slice_fits; pose proof usize_max_ge; simpl; lia).
  rewrite He. cbn [m Message_with_options Message_with_token Message_new msg_code msg_options msg_payload msg_ty msg_id is_nil negb].
  destruct form_wf as (Ht & Ho & Hemp). destruct (opts_wf_typed 0 os) as (Hty & Ha & Hx); [lia|done|].
  assert (Code_is_empty (pm_code parsed) && (negb (is_nil token) || negb (is_nil os) || false) = false) as ->.
  { destruct (Code_is_empty (pm_code parsed)) eqn:Ec; [|done]. unfold Code_is_empty in Ec. apply Z.eqb_eq in Ec. by destruct (Hemp Ec) as (-> & -> & _). }
  pose proof (encode_token_iter_outcome (pm_ty parsed) (pm_code parsed) (pm_message_id parsed) token os [] _ (wf_id _ _ _ Hw) Hty Hnil Hfb) as Hout.
  destruct (encode_token_iter _ _ _ _ _ _ _) as [header [n|e| |]]; destruct Hout as [_ Hout]; try done; rewrite ?length_replicate in Hout.
  - destruct Hout as (_ & -> & Hn & ->). done.
  - destruct e; try done; [lia|]. destruct Hout as (Hc & Hne & _). by destruct Hne; apply Hemp.
Qed.

(** What the snapshot keeps of the message. *)
Record keeps (peer : Endpoint) (now : Z) (m : ReplyMeta) : Prop := {
  ks_time : rm_received_at_ms m = now;
  ks_peer : rm_peer m = peer;
  ks_header : ∀ E, slice_idx (E:=E) (rm_header m) 0 (Z.to_nat (rm_header_len m)) = Ok snapshot;
  ks_payload : ∀ E, slice_idx (E:=E) (rm_payload m) 0 (Z.to_nat (rm_payload_len m)) = Ok (take INLINE_PAYLOAD (pm_payload _ parsed));
  ks_src_len : rm_payload_src_len m = saturate16 (length (pm_payload _ parsed))
}.
Lemma from_parsed_spec peer now :
  match ReplyMeta_from_parsed parsed peer now with
  | Ok m => kept_bounds os ∧ (length snapshot ≤ RESPONSE_OPTION_BYTES)%nat ∧ keeps peer now m
  | Err e => e = CfResponseMetadataBounds ∧ ¬ (kept_bounds os ∧ (length snapshot ≤ RESPONSE_OPTION_BYTES)%nat)
  | _ => False
  end.
Proof using Hw.
  unfold ReplyMeta_from_parsed. rewrite (wf_opts _ _ _ Hw). unbind. destruct form_ascending as [Ha _].
  pose proof (collect_spec os [] (OptionsBuilder_new RESPONSE_OPTION_COUNT) (OptionsBuilder_new_inv _)) as Hc. cbn [app] in Hc.
  specialize (Hc ltac:(done) Ha ltac:(cbn; lia) ltac:(cbn; lia)). change (length (numbered ON_LOCATION_PATH [])) with 0%nat in Hc.
  change (length (numbered ON_LOCATION_QUERY [])) with 0%nat in Hc. destruct (collect_options os 0 0 _) as [b|e| |]; try done; [|destruct Hc as [-> Hn]; split; [done|by intros [? _]]].
  destruct Hc as ((Hbl & Hbn & _) & Hu & Hk). unfold OptionsBuilder_as_slice. rewrite (proj2 (Nat.leb_le _ _)) by lia. fold (used b). rewrite Hu.
  pose proof snapshot_encodes as He. cbv zeta in He. destruct (encode _ _) as [header [n|e| |]]; try done; [|split; [done|]; intros [_ ?]; lia].
  destruct He as (-> & -> & Hl). set (n := Nat.min (length (pm_payload _ parsed)) INLINE_PAYLOAD).
  destruct (inline_ok n (pm_payload _ parsed) ltac:(lia) ltac:(lia)) as (pl & Hs & Hcp & Hpl & Htk & _ & Hwn). rewrite Hs, Hcp.
  split_and!; try done. constructor; cbn [rm_received_at_ms rm_peer rm_header rm_header_len rm_payload rm_payload_len rm_payload_src_len]; try done; intros E.
  - unfold RESPONSE_OPTION_BYTES in *. rewrite wrap_small, Nat2Z.id by (unfold in_u; lia). rewrite slice_prefix by (rewrite length_splice; rewrite length_replicate; lia).
    unfold splice. rewrite take_0. cbn [app]. by rewrite take_app_length.
  - rewrite Hwn, slice_prefix by lia. rewrite Htk. unfold n.
    destruct (Nat.le_ge_cases (length (pm_payload _ parsed)) INLINE_PAYLOAD); [rewrite Nat.min_l by done; by rewrite !take_ge by lia|by rewrite Nat.min_r by done].
Qed.
End form.

(** ** Values of options *)
Lemma decode_uint_range bytes v : bytes_ok bytes → decode_uint bytes = Ok v → in_u 32 v.
Proof.
  intros Hb. rewrite decode_uint_spec by done. pose proof (from_be_bound bytes Hb). unfold in_u, max_u. destruct (Z.leb_spec (from_be bytes) (2 ^ 32 - 1)); [|done].
  intros [= <-]. lia.
Qed.
Lemma decode_uint16_range bytes v : bytes_ok bytes → decode_uint16 bytes = Ok v → in_u 16 v.
Proof.
  intros Hb. unfold decode_uint16. destruct (decode_uint bytes) as [n| | |] eqn:En; try done. unbind. unfold max_u. destruct (Z.leb_spec n (2 ^ 16 - 1)); [|done]. intros [= <-].
  destruct (decode_uint_range _ _ Hb En). unfold in_u. lia.
Qed.
Lemma decode_observe_range bytes v : bytes_ok bytes → decode_observe bytes = Ok v → in_u 32 v.
Proof. intros Hb. unfold decode_observe. destruct (_ <? _)%nat; [done|]. by apply decode_uint_range. Qed.
Lemma echo_new_cases bytes : bytes_ok bytes → (∃ e, Echo_new bytes = Ok e ∧ echo_ok e) ∨ ∃ e, Echo_new bytes = Err e.
Proof.
  intros Hb. destruct (decide (1 ≤ length bytes ≤ 40)%nat) as [Hl|Hl].
  - left. destruct (Echo_new_ok bytes Hl) as (e & He & _ & Hlen & Heb). exists e. split; [done|]. unfold echo_ok, Echo_MAX_LEN. rewrite Hlen, Heb.
    split_and!; [rewrite length_splice; rewrite length_replicate; lia| |lia..]. unfold splice. rewrite take_0. cbn [app]. apply bytes_ok_app. split; [done|].
    apply bytes_ok_drop, Forall_replicate. by vm_compute.
  - right. exists EchoLength. unfold Echo_new, Echo_MAX_LEN. destruct (Nat.eqb_spec (length bytes) 0); [done|]. by rewrite (proj2 (Nat.ltb_lt _ _)) by lia.
Qed.
Lemma ok_value_within (o : option Opt) (f : list Z → res ValueError Z) w :
  (∀ b v, bytes_ok b → f b = Ok v → in_u w v) → (∀ x, o = Some x → bytes_ok (opt_value x)) → within w (ok_value (option_map (fun x => f (opt_value x)) o)).
Proof.
  intros Hf Ho v. destruct o as [x|]; [|done]. cbn [option_map ok_value]. destruct (f (opt_value x)) as [y| | |] eqn:Ef; try done. intros [= <-].
  by apply (Hf (opt_value x)); [apply Ho|].
Qed.

(** ** Setting the locations *)
Definition path_kept (p : list Z) : bool := (length p <=? 255)%nat && negb (is_dots p).
Definition query_kept (q : list Z) : bool := (length q <=? 255)%nat.
Lemma path_put p r l0 :
  response_ok r → bytes_ok p → path_kept p = true → (∀ E, location_paths (E:=E) r = Ok l0) → (length l0 < LOCATION_MAX)%nat →
  ∃ x n, (∀ E, location_path (E:=E) r p = Ok (put_paths r x n)) ∧ response_ok (put_paths r x n) ∧ ∀ E, location_paths (E:=E) (put_paths r x n) = Ok (l0 ++ [p]).
Proof.
  intros Hr Hb Hk Hl Hlen. apply andb_true_iff in Hk as [Hk Hd%negb_true_iff]. apply Nat.leb_le in Hk.
  destruct (locations_read _ _ _ (ok_paths _ Hr)) as (l & Hread & Hll & _ & _ & El). assert (l = l0) as -> by (specialize (Hl unit); rewrite (Hread unit : location_paths r = Ok l) in Hl; by injection Hl).
  destruct (append_ok _ _ _ p (ok_paths _ Hr)) as (x & Ha & Hc & Hx & Ht); [lia|by split|].
  exists (Some x), (rs_location_path_len r + 1). split; [|split].
  - intros E. unfold location_path. rewrite (proj2 (Nat.leb_gt _ _)), (proj2 (Nat.ltb_ge _ _)) by lia. cbn [orb]. rewrite Hd, Ha. unbind. by rewrite Hc.
  - destruct Hr. constructor; cbn; done.
  - intros E. destruct (locations_read _ _ _ Hx) as (l1 & Hr1 & _ & _ & _ & El1). unfold location_paths. cbn [rs_location_path rs_location_path_len put_paths].
    rewrite Hr1, El1, El. cbn [from_option id default] in *. by rewrite Ht.
Qed.
Lemma query_put p r l0 :
  response_ok r → bytes_ok p → query_kept p = true → (∀ E, location_queries (E:=E) r = Ok l0) → (length l0 < LOCATION_MAX)%nat →
  ∃ x n, (∀ E, location_query (E:=E) r p = Ok (put_queries r x n)) ∧ response_ok (put_queries r x n) ∧ ∀ E, location_queries (E:=E) (put_queries r x n) = Ok (l0 ++ [p]).
Proof.
  intros Hr Hb Hk%Nat.leb_le Hl Hlen.
  destruct (locations_read _ _ _ (ok_queries _ Hr)) as (l & Hread & Hll & _ & _ & El). assert (l = l0) as -> by (specialize (Hl unit); rewrite (Hread unit : location_queries r = Ok l) in Hl; by injection Hl).
  destruct (append_ok _ _ _ p (ok_queries _ Hr)) as (x & Ha & Hc & Hx & Ht); [lia|by split|].
  exists (Some x), (rs_location_query_len r + 1). split; [|split].
  - intros E. unfold location_query. rewrite (proj2 (Nat.leb_gt _ _)), (proj2 (Nat.ltb_ge _ _)) by lia. cbn [orb]. rewrite Ha. unbind. by rewrite Hc.
  - destruct Hr. constructor; cbn; done.
  - intros E. destruct (locations_read _ _ _ Hx) as (l1 & Hr1 & _ & _ & _ & El1). unfold location_queries. cbn [rs_location_query rs_location_query_len put_queries].
    rewrite Hr1, El1, El. cbn [from_option id default] in *. by rewrite Ht.
Qed.
Lemma set_paths_spec paths r l0 :
  response_ok r → Forall bytes_ok paths → (∀ E, location_paths (E:=E) r = Ok l0) → (length l0 + length paths ≤ LOCATION_MAX)%nat →
  ∃ x n, (∀ E, set_paths (E:=E) r paths = Ok (put_paths r x n)) ∧ response_ok (put_paths r x n) ∧
    ∀ E, location_paths (E:=E) (put_paths r x n) = Ok (l0 ++ List.filter path_kept paths).
Proof.
  intros Hr Hp. revert r l0 Hr. induction Hp as [|p paths Hb Hp IH]; intros r l0 Hr Hl Hlen; cbn [set_paths List.filter].
  { exists (rs_location_path r), (rs_location_path_len r). rewrite app_nil_r. by destruct r. }
  fold (path_kept p). cbn [length] in Hlen. destruct (path_kept p) eqn:Ek.
  - destruct (path_put p r l0 Hr Hb Ek Hl ltac:(lia)) as (x & n & Hx & Hr' & Hl'). destruct (IH _ (l0 ++ [p]) Hr' Hl') as (x' & n' & Hs1 & Hs2 & Hs3); [rewrite length_app; cbn; lia|].
    exists x', n'. split_and!; [intros E; unbind; by rewrite Hx, Hs1|done|]. intros E. rewrite <- app_assoc in Hs3. apply Hs3.
  - destruct (IH r l0 Hr Hl ltac:(lia)) as (x' & n' & Hs1 & Hs2 & Hs3). exists x', n'. by split_and!.
Qed.
Lemma set_queries_spec queries r l0 :
  response_ok r → Forall bytes_ok queries → (∀ E, location_queries (E:=E) r = Ok l0) → (length l0 + length queries ≤ LOCATION_MAX)%nat →
  ∃ x n, (∀ E, set_queries (E:=E) r queries = Ok (put_queries r x n)) ∧ response_ok (put_queries r x n) ∧
    ∀ E, location_queries (E:=E) (put_queries r x n) = Ok (l0 ++ List.filter query_kept queries).
Proof.
  intros Hr Hp. revert r l0 Hr. induction Hp as [|p queries Hb Hp IH]; intros r l0 Hr Hl Hlen; cbn [set_queries List.filter].
  { exists (rs_location_query r), (rs_location_query_len r). rewrite app_nil_r. by destruct r. }
  fold (query_kept p). cbn [length] in Hlen. destruct (query_kept p) eqn:Ek.
  - destruct (query_put p r l0 Hr Hb Ek Hl ltac:(lia)) as (x & n & Hx & Hr' & Hl'). destruct (IH _ (l0 ++ [p]) Hr' Hl') as (x' & n' & Hs1 & Hs2 & Hs3); [rewrite length_app; cbn; lia|].
    exists x', n'. split_and!; [intros E; unbind; by rewrite Hx, Hs1|done|]. intros E. rewrite <- app_assoc in Hs3. apply Hs3.
  - destruct (IH r l0 Hr Hl ltac:(lia)) as (x' & n' & Hs1 & Hs2 & Hs3). exists x', n'. by split_and!.
Qed.

(** ** The other fields *)
Definition first_tag (tags : list (list Z)) : option (list Z) :=
  match tags with t :: _ => if (1 <=? length t)%nat && (length t <=? 8)%nat then Some t else None | [] => None end.
Lemma etag_step tags r :
  response_ok r → rs_etag_len r = 0 → Forall bytes_ok tags →
  ∃ x n, (∀ E, match tags with t :: _ => if (1 <=? length t)%nat && (length t <=? 8)%nat then etag (E:=E) r t else mret r | [] => mret r end = Ok (put_etag r x n)) ∧
    response_ok (put_etag r x n) ∧ ∀ E, etag_bytes (E:=E) (put_etag r x n) = Ok (first_tag tags).
Proof.
  intros Hr H0' Ht. assert (put_etag r (rs_etag r) (rs_etag_len r) = r) as Hself by by destruct r.
  assert (∀ E, etag_bytes (E:=E) r = Ok None) as Hnone by (intros E; unfold etag_bytes; by rewrite H0').
  destruct Ht as [|t tags Hb _]; cbn [first_tag]; [exists (rs_etag r), (rs_etag_len r); rewrite Hself; by split_and!|].
  destruct (_ && _) eqn:El; [|exists (rs_etag r), (rs_etag_len r); rewrite Hself; by split_and!].
  pose proof El as [E1%Nat.leb_le E2%Nat.leb_le]%andb_true_iff. destruct (ok_etag _ Hr) as (Hl & _ & _).
  exists (splice (rs_etag r) 0 t), (wrap 8 (Z.of_nat (length t))).
  assert (∀ E, etag (E:=E) r t = Ok (put_etag r (splice (rs_etag r) 0 t) (wrap 8 (Z.of_nat (length t))))) as He.
  { intros E. unfold etag. rewrite El. cbn [negb]. by rewrite copy_into_ok by lia. }
  split; [exact He|]. split.
  - pose proof (etag_goes_on r t Hr) as Hg. rewrite He in Hg. apply Hg. split; [done|]. unfold usize_ok. pose proof usize_max_ge. lia.
  - intros E. unfold etag_bytes. cbn [rs_etag rs_etag_len put_etag]. rewrite wrap_small by (unfold in_u; lia).
    rewrite (proj2 (Z.eqb_neq _ _)), Nat2Z.id, slice_prefix by (rewrite ?length_splice; lia). unfold splice. rewrite take_0. cbn [app]. by rewrite take_app_length.
Qed.
Lemma observe_step r o : response_ok r → rs_observe r = None → within 32 o →
  match o with Some seq => set_observe r seq | None => r end = put_observe r o ∧ response_ok (put_observe r o).
Proof. intros Hr Hn Ho. split; [|destruct Hr; by constructor]. destruct o; [done|]. destruct r. cbn in *. by subst. Qed.
Lemma age_step r o : response_ok r → rs_max_age r = None → within 32 o →
  match o with Some age => max_age r age | None => r end = put_max_age r o ∧ response_ok (put_max_age r o).
Proof. intros Hr Hn Ho. split; [|destruct Hr; by constructor]. destruct o; [done|]. destruct r. cbn in *. by subst. Qed.
Lemma echo_step r o :
  response_ok r → rs_echo r = None → (∀ e, o = Some e → echo_ok e) → put_echo r o = match o with Some e => set_echo r e | None => r end ∧ response_ok (put_echo r o).
Proof. intros Hr Hn Ho. split; [|destruct Hr; by constructor]. destruct o; [done|]. destruct r. cbn in *. by subst. Qed.

(** What the caller gets. *)
Definition first_opt (n : OptionNumber) (os : list Opt) : option (list Z) := option_map opt_value (head (numbered n os)).
Record reply_of parsed (os : list Opt) (m : ReplyMeta) r : Prop := {
  rp_ok : response_ok r;
  rp_invalid : rs_invalid r = None;
  rp_code : rs_code r = pm_code parsed;
  rp_received : rs_received r = Some (mkReceived (pm_header _ parsed) (pm_token _ parsed) (pm_options _ parsed) m);
  rp_payload : ∀ E, Response_payload (E:=E) r = Ok (take INLINE_PAYLOAD (pm_payload _ parsed));
  rp_src_len : rs_payload_src_len r = Z.to_nat (saturate16 (length (pm_payload _ parsed)));
  rp_format : rs_content_format r = ok_value (option_map decode_uint16 (first_opt ON_CONTENT_FORMAT os));
  rp_etag : ∀ E, etag_bytes (E:=E) r = Ok (first_tag (map opt_value (numbered ON_ETAG os)));
  rp_observe : rs_observe r = ok_value (option_map decode_observe (first_opt ON_OBSERVE os));
  rp_max_age : rs_max_age r = ok_value (option_map decode_uint (first_opt ON_MAX_AGE os));
  rp_echo : rs_echo r = ok_value (option_map Echo_new (first_opt ON_ECHO os));
  rp_paths : ∀ E, location_paths (E:=E) r = Ok (List.filter path_kept (ok_values (map Opt_as_str (numbered ON_LOCATION_PATH os))));
  rp_queries : ∀ E, location_queries (E:=E) r = Ok (List.filter query_kept (ok_values (map Opt_as_str (numbered ON_LOCATION_QUERY os))))
}.

Section stored.
Context (parsed : ParsedMessage T) (token : list Z) (os : list Opt) (peer : Endpoint) (now : Z) (m : ReplyMeta).
Hypotheses (Hw : wire_form parsed token os) (Hk : keeps parsed token os peer now m) (Hb : kept_bounds os).

(** The stored header, decoded. *)
Definition stored : ParsedMessage T := mkParsed _ (pm_header _ parsed) (pm_token _ parsed) (pm_options _ parsed) [].
Lemma stored_list E n : get_options_list (E:=E) stored n = Ok (numbered n os).
Proof using Hw.
  apply get_options_list_spec; cbn [stored pm_options]; [rewrite (wf_options _ _ _ Hw); apply (wf_options_bytes _ _ _ Hw)|apply (wf_opts _ _ _ Hw)].
Qed.
Lemma stored_first E n : get_option (E:=E) stored n = Ok (head (numbered n os)).
Proof using Hw.
  apply get_option_spec; cbn [stored pm_options]; [rewrite (wf_options _ _ _ Hw); apply (wf_options_bytes _ _ _ Hw)|apply (wf_opts _ _ _ Hw)].
Qed.
Lemma numbered_bytes n : Forall (fun o => bytes_ok (opt_value o)) (numbered n os).
Proof using Hw.
  destruct (form_ascending _ _ _ Hw) as [_ Ht]. apply Forall_forall. intros x [_ Hx]%list_elem_of_filter. rewrite Forall_forall in Ht. by destruct (Ht x Hx) as (_ & ? & _).
Qed.
Lemma first_bytes n x : head (numbered n os) = Some x → bytes_ok (opt_value x).
Proof using Hw. pose proof (numbered_bytes n) as Hf. destruct (numbered n os); [done|]. intros [= ->]. by apply Forall_cons in Hf as [? _]. Qed.
Lemma first_map {A} (f : list Z → A) n : option_map (fun x => f (opt_value x)) (head (numbered n os)) = option_map f (first_opt n os).
Proof. unfold first_opt. by destruct (head (numbered n os)). Qed.
Lemma stored_value E {A} (f : list Z → A) n : (o ← get_option (E:=E) stored n; mret (option_map (fun x => f (opt_value x)) o)) = Ok (option_map f (first_opt n os)).
Proof using Hw. rewrite stored_first. unbind. by rewrite first_map. Qed.
Lemma stored_echo : Echo_from_message stored = match first_opt ON_ECHO os with None => Ok None | Some b => e ← Echo_new b; mret (Some e) end.
Proof using Hw. unfold Echo_from_message, pm_echo. rewrite stored_first. unbind. unfold first_opt. by destruct (head (numbered ON_ECHO os)). Qed.
Lemma first_echo_ok e : ok_value (option_map Echo_new (first_opt ON_ECHO os)) = Some e → echo_ok e.
Proof using Hw.
  unfold first_opt. pose proof (first_bytes ON_ECHO) as Hx. destruct (head (numbered ON_ECHO os)) as [x|]; [|done]. cbn [option_map ok_value].
  destruct (echo_new_cases (opt_value x) (Hx x eq_refl)) as [(y & -> & Hy)|[y ->]]; [|done]. by intros [= <-].
Qed.
Lemma echo_run E r :
  response_ok r → rs_echo r = None →
  match Echo_from_message stored with
  | Ok (Some echo) => mret (set_echo r echo)
  | Ok None | Err _ => mret r
  | Panic => Panic
  | Diverge => Diverge
  end = Ok (E:=E) (put_echo r (ok_value (option_map Echo_new (first_opt ON_ECHO os)))).
Proof using Hw.
  intros Hr Hn. destruct (echo_step r _ Hr Hn first_echo_ok) as [-> _]. rewrite stored_echo. unfold first_opt. pose proof (first_bytes ON_ECHO) as Hx.
  destruct (head (numbered ON_ECHO os)) as [x|]; [|done]. cbn [option_map ok_value]. by destruct (echo_new_cases (opt_value x) (Hx x eq_refl)) as [(y & -> & _)|[y ->]].
Qed.
Lemma strings_ok n : Forall bytes_ok (ok_values (map Opt_as_str (numbered n os))) ∧ (length (ok_values (map Opt_as_str (numbered n os))) ≤ length (numbered n os))%nat.
Proof using Hw.
  pose proof (numbered_bytes n) as Hf. unfold ok_values, Opt_as_str, as_str. induction Hf as [|x l Hx _ [IH1 IH2]]; [done|]. cbn [map omap list_omap].
  destruct (utf8_valid (opt_value x)); cbn [length]; (split; [by try constructor|lia]).
Qed.

(** The response before its options are set. *)
Lemma client_start (fmt : option Z) :
  within 16 fmt →
  ∃ r1 r, (∀ E, from_client (E:=E) stored m (take INLINE_PAYLOAD (pm_payload _ parsed)) fmt = Ok r1) ∧ with_payload_src_len r1 (rm_payload_src_len m) = r ∧
    response_ok r ∧ rs_content_format r = fmt ∧ rs_code r = pm_code parsed ∧ rs_invalid r = None ∧
    rs_received r = Some (mkReceived (pm_header _ parsed) (pm_token _ parsed) (pm_options _ parsed) m) ∧
    (∀ E, Response_payload (E:=E) r = Ok (take INLINE_PAYLOAD (pm_payload _ parsed))) ∧ rs_payload_src_len r = Z.to_nat (rm_payload_src_len m) ∧
    rs_etag_len r = 0 ∧ rs_observe r = None ∧ rs_max_age r = None ∧ rs_echo r = None ∧
    rs_location_path r = None ∧ rs_location_path_len r = 0 ∧ rs_location_query r = None ∧ rs_location_query_len r = 0.
Proof using Hw.
  intros Hf. destruct (payload_copy_spec (Response_new (T:=T) (pm_code parsed)) (take INLINE_PAYLOAD (pm_payload _ parsed))) as (pl & Hp & Hpl & Hread).
  eexists _, _. split; [intros E; unfold from_client; change (pm_code stored) with (pm_code parsed); rewrite Hp; unbind; reflexivity|].
  split; [reflexivity|]. split; [|split_and!; try done].
  - destruct (new_ok (T:=T) (pm_code parsed) (wf_code _ _ _ Hw)). constructor; cbn; try done. apply Hpl, bytes_ok_take, (wf_payload _ _ _ Hw).
  - intros E. rewrite Hread by done. by rewrite take_take, Nat.min_id.
Qed.

Hypothesis Hl : (length (snapshot parsed token os) ≤ RESPONSE_OPTION_BYTES)%nat.
Lemma stored_response : ∃ r, (∀ E, ReplyMeta_response (E:=E) m = Ok r) ∧ reply_of parsed os m r.
Proof using Hw Hk Hb Hl.
  destruct Hk as [_ _ Hheader Hpay Hsrc]. destruct Hb as (_ & Hbp & Hbq).
  set (fmt := ok_value (option_map decode_uint16 (first_opt ON_CONTENT_FORMAT os))).
  set (obs := ok_value (option_map decode_observe (first_opt ON_OBSERVE os))).
  set (age := ok_value (option_map decode_uint (first_opt ON_MAX_AGE os))).
  set (echo := ok_value (option_map Echo_new (first_opt ON_ECHO os))).
  assert (∀ n f w, (∀ b v, bytes_ok b → f b = Ok v → in_u w v) → within w (ok_value (option_map f (first_opt n os)))) as Hwithin.
  { intros n f w Hf v. unfold first_opt. pose proof (first_bytes n) as Hx. destruct (head (numbered n os)) as [x|]; [|done]. cbn [option_map ok_value].
    destruct (f (opt_value x)) as [y| | |] eqn:Ef; try done. intros [= <-]. by apply (Hf (opt_value x)); [apply Hx|]. }
  destruct (client_start fmt) as (r1 & r0 & Hr1 & Hr0 & Hok0 & F0 & C0 & I0 & V0 & P0 & S0 & T0 & O0 & A0 & E0 & L0 & N0 & Q0 & M0); [apply Hwithin, decode_uint16_range|].
  destruct (etag_step (map opt_value (numbered ON_ETAG os)) r0 Hok0 T0) as (xt & nt & Ht & Hok1 & Htag); [apply Forall_map, numbered_bytes|].
  destruct (observe_step _ obs Hok1 O0 (Hwithin _ _ _ decode_observe_range)) as [Ho Hok2].
  destruct (age_step _ age Hok2 A0 (Hwithin _ _ _ decode_uint_range)) as [Ha Hok3].
  destruct (echo_step _ echo Hok3 E0 first_echo_ok) as [_ Hok4].
  destruct (strings_ok ON_LOCATION_PATH) as [Bp Lp]. destruct (strings_ok ON_LOCATION_QUERY) as [Bq Lq].
  destruct (set_paths_spec _ _ [] Hok4 Bp) as (xp & np & Hp & Hok5 & Hpaths); [intros E; unfold location_paths; cbn; by rewrite L0|cbn [length]; lia|].
  destruct (set_queries_spec _ _ [] Hok5 Bq) as (xq & nq & Hq & Hok6 & Hqueries); [intros E; unfold location_queries; cbn; by rewrite Q0|cbn [length]; lia|].
  eexists. split.
  - intros E. unfold ReplyMeta_response. rewrite Hheader. unbind. rewrite (snapshot_decodes _ _ _ Hw Hl). fold stored. rewrite Hpay.
    rewrite (stored_value E decode_uint16 ON_CONTENT_FORMAT : pm_content_format stored = _). fold fmt. rewrite Hr1, Hr0.
    unfold pm_etag, pm_location_path, pm_location_query. rewrite !stored_list. unbind. rewrite Ht.
    rewrite (stored_value E decode_observe ON_OBSERVE : pm_observe stored = _). fold obs. rewrite Ho.
    rewrite (stored_value E decode_uint ON_MAX_AGE : pm_max_age stored = _). fold age. rewrite Ha.
    pose proof (echo_run E _ Hok3 E0) as Hestep. fold echo in Hestep.
    revert Hestep. unbind. intros ->. by rewrite Hp, Hq.
  - constructor; try done. by rewrite <- Hsrc; exact S0.
Qed.
End stored.

Lemma reply_validates parsed os m r :
  reply_of parsed os m r → Response_validate r = if (INLINE_PAYLOAD <? length (pm_payload _ parsed))%nat then Err PayloadTruncated else Ok tt.
Proof.
  intros [Hr Hi _ _ Hp Hs]. unfold Response_validate. rewrite Hi, Hs. destruct (response_payload_ok (E:=unit) r (ok_payload _ Hr)) as (p & Hp' & _ & <-).
  rewrite Hp in Hp'. injection Hp' as <-. rewrite length_take. unfold saturate16, max_u, INLINE_PAYLOAD.
  destruct (Z.leb_spec (Z.of_nat (length (pm_payload _ parsed))) (2 ^ 16 - 1)); repeat (match goal with |- context [(?a <? ?b)%nat] => destruct (Nat.ltb_spec a b) end);
    try done; lia.
Qed.

(** A reply that is stored is collected as it was received.  From every
    received message the snapshot either keeps the arrival time, the sender and
    the whole header, and then the collected response has the same code, type,
    Message ID, Token and option bytes, the typed options those bytes decode to,
    the first 128 payload bytes and an error at validation exactly when the
    payload was longer; or it is refused, exactly when the message has more
    than 24 options, more than eight of a location option, or more than 512
    bytes of header, Token and options.  The stored header always decodes. *)
Theorem reply_snapshot (buf : list Z) parsed (peer : Endpoint) (now : Z) :
  bytes_ok buf → slice_fits buf → decode_with_token buf = Ok parsed →
  ∃ token os, ot_as_bytes (E:=ParseError) (pm_token _ parsed) = Ok token ∧ pm_opts (E:=ParseError) parsed = Ok os ∧
    match ReplyMeta_from_parsed parsed peer now with
    | Ok m => rm_received_at_ms m = now ∧ rm_peer m = peer ∧
        ∃ r, ReplyMeta_response (E:=CallFailure) m = Ok r ∧ reply_of parsed os m r ∧
          Response_validate r = if (INLINE_PAYLOAD <? length (pm_payload _ parsed))%nat then Err PayloadTruncated else Ok tt
    | Err e => e = CfResponseMetadataBounds ∧ ¬ (kept_bounds os ∧ (length (snapshot parsed token os) ≤ RESPONSE_OPTION_BYTES)%nat)
    | _ => False
    end.
Proof.
  intros Hb Hfit Hd. destruct (received_form buf parsed Hb Hfit Hd) as (token & os & Hw). exists token, os.
  split; [apply (wf_token_bytes _ _ _ Hw)|]. split; [apply (wf_opts _ _ _ Hw)|]. pose proof (from_parsed_spec _ _ _ Hw peer now) as Hf.
  destruct (ReplyMeta_from_parsed parsed peer now) as [m|e| |]; try done. destruct Hf as (Hk & Hl & Hm). split; [apply Hm|]. split; [apply Hm|].
  destruct (stored_response _ _ _ _ _ _ Hw Hm Hk Hl) as (r & Hr & Hof). exists r. split; [apply Hr|]. split; [done|]. by eapply reply_validates.
Qed.
End reply.

(** ** The inbox is a bounded map *)
Section inbox.
Context {T : Type} `{Target} `{OwnedToken T} `{EqDecision T}.
Implicit Types (i : ClientInbox T) (call : Call T) (row : InboxRow T).

Lemma position_some {A} (f : A → bool) l k : position f l = Some k → ∃ x, l !! k = Some x ∧ f x = true.
Proof. intros Hp%position_Some. by destruct Hp. Qed.
Lemma position_none {A} (f : A → bool) l : position f l = None → ∀ k x, l !! k = Some x → f x = false.
Proof. intros Hp%position_None k x Hx. by apply (Forall_lookup_1 _ _ _ _ Hp Hx). Qed.

(** The row of a call. *)
Definition has_row (rows : list (option (InboxRow T))) (k : nat) row : Prop := rows !! k = Some (Some row).
Definition distinct (rows : list (option (InboxRow T))) : Prop := ∀ j k a b, has_row rows j a → has_row rows k b → ir_call a = ir_call b → j = k.
(** The abstract state: at most one row per call. *)
Definition holds i call row : Prop := ir_call row = call ∧ ∃ k, has_row (ib_rows i) k row.
Definition absent i call : Prop := ∀ row, ¬ holds i call row.
Definition room i : Prop := ∃ k, ib_rows i !! k = Some None.

Lemma holds_unique i call a b : distinct (ib_rows i) → holds i call a → holds i call b → a = b.
Proof. intros Hd (<- & k & Hk) (Hb & j & Hj). assert (k = j) as -> by by eapply Hd. unfold has_row in *. congruence. Qed.
Lemma has_row_put rows k x j row : has_row (<[k:=x]> rows) j row ↔ (j = k ∧ x = Some row ∧ (k < length rows)%nat) ∨ (j ≠ k ∧ has_row rows j row).
Proof.
  unfold has_row. destruct (decide (j = k)) as [->|Hne].
  - split; [intros Hl|intros [(_ & -> & Hl)|[Hx _]]; [by apply list_lookup_insert_eq|done]]. left. split; [done|].
    destruct (Nat.lt_ge_cases k (length rows)) as [Hk|Hk]; [rewrite list_lookup_insert_eq in Hl by done; by injection Hl as ->|].
    rewrite list_insert_ge in Hl by done. apply lookup_lt_Some in Hl. lia.
  - rewrite list_lookup_insert_ne by done. split; [by right|intros [(? & _)|[_ ?]]; done].
Qed.

(** [i'] is [i] with the row of one call replaced or removed. *)
Definition updates_row i call (x : option (InboxRow T)) i' : Prop :=
  distinct (ib_rows i') ∧ length (ib_rows i') = length (ib_rows i) ∧
  (∀ row, holds i' call row ↔ x = Some row) ∧ (∀ c row, c ≠ call → holds i' c row ↔ holds i c row).
(** Writing the place of the call's row, or a free place. *)
Lemma write_row i k call (x : option (InboxRow T)) :
  distinct (ib_rows i) → (k < length (ib_rows i))%nat → (∀ row, x = Some row → ir_call row = call) →
  (ib_rows i !! k = Some None ∧ absent i call) ∨ (∃ row, has_row (ib_rows i) k row ∧ ir_call row = call) →
  updates_row i call x (with_rows i (<[k:=x]> (ib_rows i))).
Proof.
  intros Hd Hk Hx Hat. unfold updates_row, holds. cbn [with_rows ib_rows].
  assert (∀ j row, j ≠ k → has_row (ib_rows i) j row → ir_call row ≠ call) as Hother.
  { intros j row Hj Hr Hc. destruct Hat as [[_ Ha]|(row' & Hr' & Hc')]; [apply (Ha row); by split; [|exists j]|]. apply Hj. eapply Hd; [done..|congruence]. }
  assert (∀ row, has_row (ib_rows i) k row → ir_call row = call) as Hhere.
  { intros row Hr. destruct Hat as [[He _]|(row' & Hr' & Hc')]; unfold has_row in *; [congruence|]. assert (row = row') as -> by congruence. done. }
  split_and!.
  - intros j j' a b Ha%has_row_put Hb%has_row_put Hab. destruct Ha as [(-> & Ea & _)|[Hj Ha]], Hb as [(-> & Eb & _)|[Hj' Hb]]; [done| | |by eapply Hd].
    + destruct (Hother _ _ Hj' Hb). rewrite <- Hab. by apply Hx.
    + destruct (Hother _ _ Hj Ha). rewrite Hab. by apply Hx.
  - apply length_insert.
  - intros row. split.
    + intros (Hc & j & [(-> & -> & _)|[Hj Hr]]%has_row_put); [done|]. by destruct (Hother _ _ Hj Hr).
    + intros ->. split; [by apply Hx|]. exists k. apply has_row_put. by left.
  - intros c row Hc. split; intros (Ec & j & Hj).
    + split; [done|]. apply has_row_put in Hj as [(-> & -> & _)|[_ Hj]]; [|by exists j]. destruct Hc. rewrite <- Ec. by apply Hx.
    + split; [done|]. exists j. apply has_row_put. right. split; [|done]. intros ->. apply Hc. rewrite <- Ec. by apply Hhere.
Qed.

Lemma eqb_true {A} `{EqDecision A} (x y : A) : eqb x y = true ↔ x = y.
Proof. unfold eqb. apply bool_decide_eq_true. Qed.
Lemma same_call_true call row : same_call call row = true ↔ ir_call row = call.
Proof.
  unfold same_call. rewrite andb_true_iff, !eqb_true. destruct (ir_call row), call. cbn. split; [by intros [-> ->]|by intros [= -> ->]].
Qed.
(** Looking for the row of a call, whatever else is asked of it. *)
Lemma position_where i call (f g : InboxRow T → bool) :
  (∀ row, f row = true ↔ ir_call row = call ∧ g row = true) →
  match position (row_is f) (ib_rows i) with
  | Some k => ∃ row, has_row (ib_rows i) k row ∧ ir_call row = call ∧ g row = true
  | None => ∀ row, holds i call row → g row = false
  end.
Proof.
  intros Hf. destruct (position (row_is f) (ib_rows i)) as [k|] eqn:Ep.
  - destruct (position_some _ _ _ Ep) as ([row|] & Hk & Hr); [|done]. apply Hf in Hr. by exists row.
  - intros row (Hc & k & Hk). pose proof (position_none _ _ Ep k _ Hk) as Hn. cbn [row_is] in Hn. destruct (g row) eqn:Eg; [|done].
    rewrite (proj2 (Hf row)) in Hn by done. done.
Qed.
Lemma position_call i call (f : InboxRow T → bool) :
  (∀ row, f row = true ↔ ir_call row = call) →
  match position (row_is f) (ib_rows i) with
  | Some k => ∃ row, has_row (ib_rows i) k row ∧ ir_call row = call
  | None => absent i call
  end.
Proof.
  intros Hf. pose proof (position_where i call f (fun _ => true)) as Hp. destruct (position (row_is f) (ib_rows i)) as [k|].
  - destruct Hp as (row & Hr & Hc & _); [intros row; rewrite Hf; tauto|]. by exists row.
  - intros row Hr. cbv beta in Hp. discriminate (Hp ltac:(intros r; rewrite Hf; tauto) row Hr).
Qed.

Lemma insert_spec i call meta body :
  distinct (ib_rows i) →
  match inbox_insert i call meta body with
  | (i', Ok prev) =>
      updates_row i call (Some (mkInboxRow true call meta body None)) i' ∧
      ((∃ row, holds i call row ∧ prev = ir_body row) ∨ (absent i call ∧ room i ∧ prev = None))
  | (i', Err _) => i' = i ∧ absent i call ∧ ¬ room i
  | _ => False
  end.
Proof.
  intros Hd. unfold inbox_insert. pose proof (position_call i call _ (same_call_true call)) as Hp.
  destruct (position (row_is (same_call call)) (ib_rows i)) as [k|].
  - destruct Hp as (row & Hr & Hc). split; [|left; exists row; rewrite Hr; by split; [split; [|exists k]|]].
    apply write_row; [done|by eapply lookup_lt_Some|by intros r [= <-]|]. right. by exists row.
  - destruct (position _ (ib_rows i)) as [k|] eqn:Ep.
    + destruct (position_some _ _ _ Ep) as ([row|] & Hk & Hn); [done|]. split; [|right; split_and!; [done|by exists k|done]].
      apply write_row; [done|by eapply lookup_lt_Some|by intros r [= <-]|by left].
    + split_and!; [done..|]. intros [k Hk]. by pose proof (position_none _ _ Ep k _ Hk).
Qed.
(** The snapshots that [from_parsed] stores can be read. *)
Definition meta_ok (meta : CallFailure + ReplyMeta) : Prop := ∀ m, meta = inr m → ∃ r : Response T, ∀ E, ReplyMeta_response (E:=E) m = Ok r.
Definition metas_ok i : Prop := ∀ call row, holds i call row → meta_ok (ir_meta row).
(** What collecting a row gives. *)
Definition collected row (x : (CallFailure + Response T) * option SlotId) : Prop :=
  x.2 = ir_body row ∧ match ir_meta row with inl e => x.1 = inl e | inr m => ∃ r, x.1 = inr r ∧ ∀ E, ReplyMeta_response (E:=E) m = Ok r end.
Lemma take_spec {E} i call :
  distinct (ib_rows i) → metas_ok i →
  ∃ i' x, inbox_take (E:=E) i call = Ok (i', x) ∧
    match x with
    | Some x => ∃ row, holds i call row ∧ ir_complete row = true ∧ collected row x ∧ updates_row i call None i'
    | None => i' = i ∧ ∀ row, holds i call row → ir_complete row = false
    end.
Proof.
  intros Hd Hm. unfold inbox_take.
  pose proof (position_where i call (fun row => ir_complete row && same_call call row) ir_complete) as Hp.
  specialize (Hp ltac:(intros row; rewrite andb_true_iff, same_call_true; tauto)).
  destruct (position _ (ib_rows i)) as [k|]; [|by eexists _, None].
  destruct Hp as (row & Hr & Hc & Hcomp). pose proof Hr as Hr'. unfold has_row in Hr'. rewrite Hr'.
  assert (holds i call row) as Hh by (split; [done|by exists k]).
  pose proof (write_row i k call None Hd (lookup_lt_Some _ _ _ Hr') ltac:(done) ltac:(right; by exists row)) as (Hu & Hul & Hu1 & Hu2).
  assert (∀ held, updates_row i call None (mkInbox (<[k:=None]> (ib_rows i)) held)) as Hupd by (intros held; by split_and!).
  pose proof (Hm _ _ Hh) as Hmeta. unfold meta_ok in Hmeta. destruct (ir_meta row) as [e|meta] eqn:Em.
  - eexists _, (Some _). split; [done|]. exists row. split_and!; try done. unfold collected. by rewrite Em.
  - destruct (Hmeta meta eq_refl) as [r Hresp]. rewrite Hresp. unbind. eexists _, (Some _). split; [done|]. exists row. split_and!; try done. unfold collected. rewrite Em.
    split; [done|]. by exists r.
Qed.
Lemma discard_spec i call : distinct (ib_rows i) → updates_row i call None (inbox_discard i call).
Proof.
  intros Hd. assert (∀ k row, has_row (ib_rows (inbox_discard i call)) k row ↔ has_row (ib_rows i) k row ∧ ir_call row ≠ call) as Hh.
  { intros k row. unfold has_row, inbox_discard. cbn [with_rows ib_rows]. rewrite list_lookup_fmap. destruct (ib_rows i !! k) as [[x|]|]; cbn; [|split; [done|by intros []]..].
    destruct (eqb (ir_call x) call) eqn:E.
    - apply (proj1 (eqb_true _ _)) in E. split; [done|]. intros [[= ->] Hn]. by destruct Hn.
    - split; [intros [= <-]; split; [done|]; intros Hc; apply (proj2 (eqb_true _ _)) in Hc; congruence|by intros [[= ->] _]]. }
  unfold updates_row, holds. split_and!.
  - intros j k a b [Ha _]%Hh [Hb _]%Hh. by eapply Hd.
  - apply length_map.
  - intros row. split; [|done]. intros (Hc & k & [_ Hk]%Hh). done.
  - intros c row Hc. split; intros (Hr & k & Hk); (split; [done|]); exists k; [by apply Hh in Hk as [Hk _]|]. apply Hh. split; [done|]. congruence.
Qed.
Lemma updates_trans i i1 i2 call x y : updates_row i call x i1 → updates_row i1 call y i2 → updates_row i call y i2.
Proof.
  intros (_ & Hl1 & _ & Ho1) (Hd2 & Hl2 & Hc2 & Ho2). split_and!; [done|congruence|done|]. intros c row Hc. by rewrite Ho2, Ho1.
Qed.
Lemma take_datagram_spec i call :
  distinct (ib_rows i) →
  match inbox_take_datagram i call with
  | (i', d) => (i' = i ∧ absent i call ∧ d = None) ∨
      ∃ row, holds i call row ∧ d = ir_datagram row ∧ updates_row i call (Some (mkInboxRow (ir_complete row) call (ir_meta row) (ir_body row) None)) i'
  end.
Proof.
  intros Hd. unfold inbox_take_datagram. pose proof (position_call i call _ (fun row => eqb_true (ir_call row) call)) as Hp.
  destruct (position _ (ib_rows i)) as [k|]; [|by left]. destruct Hp as (row & Hr & Hc). pose proof Hr as Hr'. unfold has_row in Hr'. rewrite Hr'. right. exists row.
  split; [split; [done|by exists k]|]. split; [done|]. rewrite Hc. apply write_row; [done|by eapply lookup_lt_Some|by intros x [= <-]|]. right. by exists row.
Qed.
Lemma retain_spec i call m body :
  distinct (ib_rows i) →
  match inbox_retain_partial i call m body with
  | (i', Ok _) => i' = i ∨ updates_row i call (Some (mkInboxRow false call (inr m) (Some body) None)) i'
  | (i', Err _) => i' = i
  | _ => False
  end.
Proof.
  intros Hd. unfold inbox_retain_partial. destruct (is_some _); [by left|]. pose proof (insert_spec i call (inr m) (Some body) Hd) as Hi.
  destruct (inbox_insert i call (inr m) (Some body)) as [i1 [prev|e| |]]; try done; [|by destruct Hi]. destruct Hi as [Hu _]. right.
  pose proof Hu as (Hd1 & _ & Hc1 & _). pose proof (position_call i1 call _ (fun row => eqb_true (ir_call row) call)) as Hp.
  destruct (position _ (ib_rows i1)) as [k|]; [|by destruct (Hp _ (proj2 (Hc1 _) eq_refl))]. destruct Hp as (row & Hr & Hc).
  assert (Some (mkInboxRow true call (inr m) (Some body) None) = Some row) as [= <-] by (apply Hc1; split; [done|by exists k]).
  pose proof Hr as Hr'. unfold has_row in Hr'. rewrite Hr'. eapply updates_trans; [exact Hu|].
  apply write_row; [done|by eapply lookup_lt_Some|by intros x [= <-]|]. right. by eexists.
Qed.

(** ** Histories *)
Inductive InboxOp : Type :=
  | IoInsert (call : Call T) (meta : CallFailure + ReplyMeta) (body : option SlotId) | IoPartial (call : Call T) (m : ReplyMeta) (body : SlotId)
  | IoTake (call : Call T) | IoTakeDatagram (call : Call T) | IoDiscard (call : Call T).
Definition op_call (op : InboxOp) : Call T :=
  match op with IoInsert c _ _ | IoPartial c _ _ | IoTake c | IoTakeDatagram c | IoDiscard c => c end.
Definition op_ok (op : InboxOp) : Prop := match op with IoInsert _ meta _ => meta_ok meta | IoPartial _ m _ => meta_ok (inr m) | _ => True end.
Definition run_inbox {E} (op : InboxOp) i : res E (ClientInbox T) :=
  match op with
  | IoInsert c meta body => Ok (inbox_insert i c meta body).1
  | IoPartial c m body => Ok (inbox_retain_partial i c m body).1
  | IoTake c => '(i, _) ← inbox_take i c; mret i
  | IoTakeDatagram c => Ok (inbox_take_datagram i c).1
  | IoDiscard c => Ok (inbox_discard i c)
  end.
Fixpoint run_inboxes {E} (ops : list InboxOp) i : res E (ClientInbox T) :=
  match ops with [] => Ok i | op :: ops => i ← run_inbox op i; run_inboxes ops i end.

Definition inbox_inv i : Prop := distinct (ib_rows i) ∧ metas_ok i.
Lemma updates_inv i call x i' : inbox_inv i → (∀ row, x = Some row → meta_ok (ir_meta row)) → updates_row i call x i' → inbox_inv i'.
Proof.
  intros [_ Hm] Hx (Hd & _ & Hc & Ho). split; [done|]. intros c row Hr. destruct (decide (c = call)) as [->|Hne]; [by apply Hx, Hc|]. apply (Hm c row). by apply Ho.
Qed.
(** [i'] keeps the replies of the other calls. *)
Definition keeps_others i call i' : Prop := inbox_inv i' ∧ ∀ c row, c ≠ call → holds i' c row ↔ holds i c row.
Lemma updates_keeps i call x i' : inbox_inv i → (∀ row, x = Some row → meta_ok (ir_meta row)) → updates_row i call x i' → keeps_others i call i'.
Proof. intros Hi Hx Hu. split; [by eapply updates_inv|]. apply Hu. Qed.
Lemma run_inbox_keeps {E} op i : inbox_inv i → op_ok op → ∃ i', run_inbox (E:=E) op i = Ok i' ∧ keeps_others i (op_call op) i'.
Proof.
  intros Hi Ho. pose proof Hi as [Hd Hm]. assert (∀ c, keeps_others i c i) as Hself by (intros c; by split).
  destruct op as [c meta body|c m body|c|c|c]; cbn [run_inbox op_call op_ok] in *.
  - eexists. split; [done|]. pose proof (insert_spec i c meta body Hd) as Hs. destruct (inbox_insert i c meta body) as [i1 [prev|e| |]]; try done; cbn [fst].
    + destruct Hs as [Hu _]. eapply updates_keeps; [exact Hi| |exact Hu]. by intros row [= <-].
    + destruct Hs as [-> _]. apply Hself.
  - eexists. split; [done|]. pose proof (retain_spec i c m body Hd) as Hs. destruct (inbox_retain_partial i c m body) as [i1 [prev|e| |]]; try done; cbn [fst]; [|subst; apply Hself].
    destruct Hs as [->|Hu]; [apply Hself|]. eapply updates_keeps; [exact Hi| |exact Hu]. by intros row [= <-].
  - destruct (take_spec (E:=E) i c Hd Hm) as (i' & x & -> & Hx). exists i'. split; [done|]. destruct x as [x|]; [|destruct Hx as [-> _]; apply Hself].
    destruct Hx as (row & _ & _ & _ & Hu). eapply updates_keeps; [exact Hi| |exact Hu]. done.
  - eexists. split; [done|]. pose proof (take_datagram_spec i c Hd) as Hs. destruct (inbox_take_datagram i c) as [i1 d]. cbn [fst].
    destruct Hs as [(-> & _)|(row & Hr & _ & Hu)]; [apply Hself|]. eapply updates_keeps; [exact Hi| |exact Hu]. intros r [= <-]. cbn. by apply (Hm c).
  - eexists. split; [done|]. eapply updates_keeps; [done| |by apply discard_spec]. done.
Qed.
Lemma run_inboxes_keep {E} ops i call :
  inbox_inv i → Forall op_ok ops → Forall (fun op => op_call op ≠ call) ops →
  ∃ i', run_inboxes (E:=E) ops i = Ok i' ∧ inbox_inv i' ∧ ∀ row, holds i' call row ↔ holds i call row.
Proof.
  intros Hi Hok Hne. revert i Hi. induction Hok as [|op ops Ho Hok IH]; intros i Hi; cbn [run_inboxes]; [by exists i|].
  apply Forall_cons in Hne as [Hc Hne]. destruct (run_inbox_keeps (E:=E) op i Hi Ho) as (i1 & -> & Hi1 & Hk). unbind.
  destruct (IH Hne i1 Hi1) as (i2 & -> & Hi2 & Hk2). exists i2. split; [done|]. split; [done|]. intros row. rewrite Hk2. by apply Hk.
Qed.

(** C33: The inbox never drops an untaken reply.  Storing a reply fails only when
    the call has no row and every row is another call's; and a stored reply is
    returned when its call is collected, with its body slot, after any sequence
    of operations for other calls, and exactly once. *)
Theorem inbox_keeps_replies i call (meta : CallFailure + ReplyMeta) (body : option SlotId) (ops : list InboxOp) :
  inbox_inv i → meta_ok meta → Forall op_ok ops → Forall (fun op => op_call op ≠ call) ops →
  match inbox_insert i call meta body with
  | (i1, Ok _) =>
      ∃ i2 i3 x, run_inboxes (E:=unit) ops i1 = Ok i2 ∧ inbox_take (E:=unit) i2 call = Ok (i3, Some x) ∧
        collected (mkInboxRow true call meta body None) x ∧ absent i3 call
  | (i1, Err _) => i1 = i ∧ absent i call ∧ ¬ room i
  | _ => False
  end.
Proof.
  intros Hi Hm Hok Hne. pose proof (insert_spec i call meta body (proj1 Hi)) as Hs. destruct (inbox_insert i call meta body) as [i1 [prev|e| |]]; try done.
  destruct Hs as [Hu _]. assert (inbox_inv i1) as Hi1 by (eapply updates_inv; [done| |exact Hu]; by intros row [= <-]).
  destruct (run_inboxes_keep (E:=unit) ops i1 call Hi1 Hok Hne) as (i2 & Hr & Hi2 & Hk). destruct Hu as (_ & _ & Hc & _).
  destruct (take_spec (E:=unit) i2 call (proj1 Hi2) (proj2 Hi2)) as (i3 & x & Ht & Hx).
  assert (holds i2 call (mkInboxRow true call meta body None)) as Hh by (by apply Hk, Hc).
  destruct x as [x|]; [|by destruct Hx as [_ Hx]; specialize (Hx _ Hh)]. destruct Hx as (row & Hrow & _ & Hcol & Hu3).
  rewrite (holds_unique _ _ _ _ (proj1 Hi2) Hrow Hh) in Hcol. exists i2, i3, x. split_and!; try done. intros r Hr3. destruct Hu3 as (_ & _ & Hn & _). by apply Hn in Hr3.
Qed.
End inbox.

Section witness.
#[local] Existing Instance target64.

(** ACK 2.05 with token 0x05, an ETag and one payload byte. *)
Definition ex_reply_wire : list Z := [97; 69; 0; 7; 5; 65; 7; 255; 1].
Definition ex_reply : ParsedMessage Token := mkParsed _ (mkHeader 1 Acknowledgement 1 69 7) (mkToken [5; 0; 0; 0; 0; 0; 0; 0] 1) [65; 7] [1].
Lemma reply_snapshot_witness :
  decode_with_token ex_reply_wire = Ok ex_reply ∧
  ∃ token os, ot_as_bytes (E:=ParseError) (pm_token _ ex_reply) = Ok token ∧ pm_opts (E:=ParseError) ex_reply = Ok os ∧
    match ReplyMeta_from_parsed ex_reply ex_peer_ep 100 with
    | Ok m => rm_received_at_ms m = 100 ∧ rm_peer m = ex_peer_ep ∧
        ∃ r, ReplyMeta_response (E:=CallFailure) m = Ok r ∧ reply_of ex_reply os m r ∧
          Response_validate r = if (INLINE_PAYLOAD <? length (pm_payload _ ex_reply))%nat then Err PayloadTruncated else Ok tt
    | Err e => e = CfResponseMetadataBounds ∧ ¬ (kept_bounds os ∧ (length (snapshot ex_reply token os) ≤ RESPONSE_OPTION_BYTES)%nat)
    | _ => False
    end.
Proof.
  assert (decode_with_token ex_reply_wire = Ok ex_reply) as Hd by (vm_compute; reflexivity). split; [exact Hd|].
  apply (reply_snapshot ex_reply_wire ex_reply ex_peer_ep 100); [by repeat constructor|by vm_compute|exact Hd].
Defined.
(** The response collected from it. *)
Example ex_reply_response :
  match (m ← ReplyMeta_from_parsed ex_reply ex_peer_ep 100; ReplyMeta_response (T:=Token) m) with
  | Ok r => rs_code r = 69 ∧ etag_bytes (E:=unit) r = Ok (Some [7]) ∧ Response_payload (E:=unit) r = Ok [1] ∧ Response_validate r = Ok tt
  | _ => False
  end.
Proof. by vm_compute. Qed.

Definition ex_call (b : Z) : Call Token := mkCall (mkToken [b; 0; 0; 0; 0; 0; 0; 0] 1) ex_peer_ep.
Lemma inbox_keeps_replies_witness :
  ∃ i2 i3 x, run_inboxes (E:=unit) [IoInsert (ex_call 6) (inl CfReset) None; IoDiscard (ex_call 6); IoInsert (ex_call 7) (inl CfReset) None]
      (inbox_insert (ClientInbox_new 2) (ex_call 5) (inl CfTimedOut) (Some 3%nat)).1 = Ok i2 ∧
    inbox_take (E:=unit) i2 (ex_call 5) = Ok (i3, Some x) ∧ collected (mkInboxRow true (ex_call 5) (inl CfTimedOut) (Some 3%nat) None) x ∧ absent i3 (ex_call 5).
Proof.
  apply (inbox_keeps_replies (ClientInbox_new 2) (ex_call 5) (inl CfTimedOut) (Some 3%nat)
    [IoInsert (ex_call 6) (inl CfReset) None; IoDiscard (ex_call 6); IoInsert (ex_call 7) (inl CfReset) None]).
  - split; [intros j k a b Hj; by destruct j as [|[|[]]]|]. intros c row (_ & k & Hk). by destruct k as [|[|[]]].
  - by intros m.
  - repeat constructor; by intros m.
  - repeat constructor; discriminate.
Defined.
End witness.
