(* ===== verification/AppAssociations.v ===== *)
(** * Security associations of an application

    [src/app/associations.rs] and the operations of [src/app/mod.rs] on its
    rows, in the build with the [oscore] feature: the bounded table of security
    contexts, the route each owns, and the selection of a context for a peer.
    The class [ContextStorage] is the trait the rest of the application is
    written against. *)
From S2P Require Import Prelude Errors MsgTypes Options Encode Decode OptionsBuilder OptionValues MessageOptions MissingBlocks.
From S2P Require Import OscoreHeader OscoreCbor OscoreContext OscoreProtect Occupancy Pending.

(** [Association]: [asn_route] is the peer with its namespace. *)
Record Association : Type := mkAssociation { asn_route : Endpoint; asn_owner : list Z; asn_epoch : Z }.
#[export] Instance Association_eq_dec : EqDecision Association.
Proof. solve_decision. Defined.
Definition Association_endpoint (a : Association) : Endpoint := Endpoint_physical (asn_route a).

Inductive OscoreInstallError : Type :=
  | OiMissingCandidate | OiCapacity | OiAmbiguous | OiGenerationExhausted | OiUnknownAssociation | OiBusy.

Record AssocEntry (T : Type) : Type := mkEntry {
  ent_context : SecurityContext T;
  ent_association : option Association;
  ent_revoked : bool
}.
Arguments mkEntry {T} _ _ _.
Arguments ent_context {T} _.
Arguments ent_association {T} _.
Arguments ent_revoked {T} _.
Record AssocStore (T : Type) : Type := mkStore { sto_rows : list (option (AssocEntry T)); sto_generation : Z }.
Arguments mkStore {T} _ _.
Arguments sto_rows {T} _.
Arguments sto_generation {T} _.

(** What the application asks of its contexts.  [cs_context_mut] is the
    borrowed context with the function that stores it back; [cs_checkpoints]
    calls the caller's [commit], which acts on a world [W], until it refuses. *)
Class ContextStorage (F T : Type) : Type := {
  cs_context : F → Z → option (SecurityContext T);
  cs_context_mut : F → Z → option (SecurityContext T * (SecurityContext T → F));
  cs_resolve : F → Endpoint → res OscoreError Endpoint;
  cs_inbound_route : F → Endpoint → ParsedMessage T → res OscoreError Endpoint;
  cs_has_live_requests : F → bool;
  cs_checkpoints : ∀ {W}, (option Association → ReplayCheckpoint → W → W * bool) → F → W → W * bool;
  cs_association : F → Endpoint → option Association;
  cs_is_some : F → bool
}.

Section store.
Context {T : Type} `{Target} `{OwnedToken T, !EqDecision T}.
Implicit Types (s : AssocStore T) (row : AssocEntry T) (peer : Endpoint) (parsed : ParsedMessage T).

(** [rows.iter().flatten()], and its rows that are not revoked. *)
Definition entries s : list (AssocEntry T) := omap (fun r => r) (sto_rows s).
Definition active s : list (AssocEntry T) := List.filter (fun row => negb (ent_revoked row)) (entries s).
Definition Store_is_some s : bool := negb (sto_generation s =? 0) || existsb is_some (sto_rows s).
Definition Store_new (A : nat) : AssocStore T := mkStore (replicate A None) 0.

(** [row.association.map_or(0, |a| a.route.association())]. *)
Definition namespace row : Z := match ent_association row with Some a => ep_association (asn_route a) | None => 0 end.
(** [row.association.map_or(peer.physical(), |a| a.route)]. *)
Definition route_of row peer : Endpoint := match ent_association row with Some a => asn_route a | None => Endpoint_physical peer end.

(** The identity test of [check_install] at one row. *)
Definition same_identity {E} (endpoint : Endpoint) (owner : list Z) (epoch : Z) (context : SecurityContext T) row : res E bool :=
  match ent_association row with
  | None => mret false
  | Some a =>
      if eqb (asn_owner a) owner && (asn_epoch a =? epoch) then mret true
      else if negb (eqb (Association_endpoint a) (Endpoint_physical endpoint)) then mret false
      else
        own ← Id_as_bytes (sc_recipient_id (ent_context row));
        other ← Id_as_bytes (sc_recipient_id context);
        if negb (eqb own other) then mret false
        else
          own ← id_context (ent_context row);
          other ← id_context context;
          mret (eqb own other)
  end.
Fixpoint any {E A} (f : A → res E bool) (l : list A) : res E bool :=
  match l with [] => mret false | x :: l => b ← f x; if b : bool then mret true else any f l end.

Definition check_install s (endpoint : Endpoint) (owner : list Z) (epoch : Z) (context : SecurityContext T)
    : res OscoreInstallError (nat * Z) :=
  if existsb (fun row => negb (is_some (ent_association row))) (entries s) then Err OiBusy
  else
    ambiguous ← any (same_identity endpoint owner epoch context) (entries s);
    if ambiguous : bool then Err OiAmbiguous
    else
      slot ← ok_or (position (fun r => negb (is_some r)) (sto_rows s)) OiCapacity;
      generation ← ok_or (checked_add 32 (sto_generation s) 1) OiGenerationExhausted;
      mret (slot, generation).

(** The store and the caller's candidate, which is taken on success. *)
Definition install (endpoint : Endpoint) (owner : list Z) (epoch : Z)
    : st (AssocStore T * option (SecurityContext T)) OscoreInstallError Association :=
  '(s, candidate) ← st_get;
  context ← st_lift (ok_or candidate OiMissingCandidate);
  '(slot, generation) ← st_lift (check_install s endpoint owner epoch context);
  let association := mkAssociation (Endpoint_with_association (Endpoint_physical endpoint) generation) owner epoch in
  rows ← st_lift (set_idx slot (Some (mkEntry context (Some association) false)) (sto_rows s));
  st_put (mkStore rows generation, None);;
  mret association.

(** The assertion and the indexing fail on a store without rows. *)
Definition set_primary {E} (context : SecurityContext T) s : res E (AssocStore T) :=
  rows ← set_idx 0 (Some (mkEntry context None false)) (sto_rows s);
  mret (mkStore rows (sto_generation s)).
Definition as_ref s : option (SecurityContext T) :=
  match head (sto_rows s) with
  | Some (Some row) => if negb (is_some (ent_association row)) && negb (ent_revoked row) then Some (ent_context row) else None
  | _ => None
  end.

(** ** The trait *)
Definition with_context s (k : nat) row (c : SecurityContext T) : AssocStore T :=
  mkStore (<[k := Some (mkEntry c (ent_association row) (ent_revoked row))]> (sto_rows s)) (sto_generation s).
Definition selects (ns : Z) (r : option (AssocEntry T)) : bool :=
  match r with Some row => negb (ent_revoked row) && (namespace row =? ns) | None => false end.
Definition Store_context_mut s (ns : Z) : option (SecurityContext T * (SecurityContext T → AssocStore T)) :=
  match position (selects ns) (sto_rows s) with
  | Some k => match sto_rows s !! k with Some (Some row) => Some (ent_context row, with_context s k row) | _ => None end
  | None => None
  end.
Definition Store_context s (ns : Z) : option (SecurityContext T) :=
  option_map ent_context (List.find (fun row => negb (ent_revoked row) && (namespace row =? ns)) (entries s)).

(** [found.replace(route).is_some()] over the matching rows: the only one. *)
Fixpoint only_route (found : option Endpoint) (rows : list (AssocEntry T)) (matches : AssocEntry T → res OscoreError bool) peer
    : res OscoreError Endpoint :=
  match rows with
  | [] => ok_or found OContext
  | row :: rows =>
      hit ← matches row;
      if hit : bool then
        if is_some found then Err OContext else only_route (Some (route_of row peer)) rows matches peer
      else only_route found rows matches peer
  end.

Definition Store_resolve s peer : res OscoreError Endpoint :=
  if negb (Store_is_some s) && (sto_generation s =? 0) then mret (Endpoint_physical peer)
  else
    only_route None (active s) (fun row =>
      let route := route_of row peer in
      mret (eqb (Endpoint_physical route) (Endpoint_physical peer)
            && ((ep_association peer =? 0) || (ep_association peer =? ep_association route)))) peer.

(** The test of [inbound_route] at one row. *)
Definition routes parsed (header : option OscoreHeader) peer row : res OscoreError bool :=
  if negb (eqb (Endpoint_physical (route_of row peer)) (Endpoint_physical peer)) then mret false
  else if Code_is_request (pm_code parsed) then
    match header with
    | Some h => matches_recipient (ent_context row) (oh_kid h) (oh_kid_context h)
    | None => mret (negb (is_some (ent_association row)))
    end
  else mret (is_some (lookup_request (ent_context row) (pm_token _ parsed))).

Definition Store_inbound_route s peer parsed : res OscoreError Endpoint :=
  if negb (Store_is_some s) && (sto_generation s =? 0) then mret (Endpoint_physical peer)
  else if existsb (fun row => negb (ent_revoked row) && negb (is_some (ent_association row))) (entries s)
  then mret (Endpoint_physical peer)
  else
    let '(options, option) := OptionsByNumber_next (get_options parsed ON_OSCORE) in
    option ← option;
    second ← (OptionsByNumber_next options).2;
    if is_some second then Err OHeader
    else
      header ← match option with
               | Some value => h ← OscoreHeader_parse (opt_value value); mret (Some h)
               | None => mret None
               end;
      only_route None (active s) (routes parsed header peer) peer.

Fixpoint commit_all {W} (commit : option Association → ReplayCheckpoint → W → W * bool) (rows : list (AssocEntry T)) (w : W) : W * bool :=
  match rows with
  | [] => (w, true)
  | row :: rows =>
      match commit (ent_association row) (replay_checkpoint (ent_context row)) w with
      | (w, true) => commit_all commit rows w
      | (w, false) => (w, false)
      end
  end.

#[export] Instance Store_storage : ContextStorage (AssocStore T) T := {|
  cs_context := Store_context;
  cs_context_mut := Store_context_mut;
  cs_resolve := Store_resolve;
  cs_inbound_route := Store_inbound_route;
  cs_has_live_requests s := existsb (fun row => has_live_requests (ent_context row)) (entries s);
  cs_checkpoints W commit s := commit_all commit (entries s);
  cs_association s peer := List.find (fun a => eqb (asn_route a) peer) (omap ent_association (active s));
  cs_is_some := Store_is_some
|}.

(** The same trait for a single optional context. *)
#[export] Instance Single_storage : ContextStorage (option (SecurityContext T)) T := {|
  cs_context c ns := if ns =? 0 then c else None;
  cs_context_mut c ns := if ns =? 0 then match c with Some c => Some (c, Some) | None => None end else None;
  cs_resolve _ peer := mret peer;
  cs_inbound_route _ peer _ := mret peer;
  cs_has_live_requests c := match c with Some c => has_live_requests c | None => false end;
  cs_checkpoints W commit c w := match c with Some c => commit None (replay_checkpoint c) w | None => (w, false) end;
  cs_association _ _ := None;
  cs_is_some := is_some
|}.

(** ** The handles of [App] *)
Definition association_at s (index : nat) : option Association :=
  match sto_rows s !! index with Some (Some row) => ent_association row | _ => None end.
Definition association_is_active s (a : Association) : bool :=
  existsb (fun row => negb (ent_revoked row) && eqb (ent_association row) (Some a)) (entries s).
Definition association_context s (a : Association) : option (SecurityContext T) :=
  option_map ent_context (List.find (fun row => eqb (ent_association row) (Some a)) (entries s)).
(** The three steps of [remove_association] on the table: find the row, disable
    it, and take it once nothing of it is pinned. *)
Definition association_index s (a : Association) : option nat :=
  position (fun r => match r with Some row => eqb (ent_association row) (Some a) | None => false end) (sto_rows s).
Definition revoke {E} (index : nat) s : res E (AssocStore T) :=
  r ← idx (sto_rows s) index;
  match r with
  | Some row => mret (mkStore (<[index := Some (mkEntry (ent_context row) (ent_association row) true)]> (sto_rows s)) (sto_generation s))
  | None => Panic
  end.
Definition reclaim {E} (index : nat) s : res E (AssocStore T * SecurityContext T) :=
  r ← idx (sto_rows s) index;
  match r with
  | Some row => mret (mkStore (<[index := None]> (sto_rows s)) (sto_generation s), ent_context row)
  | None => Panic
  end.
End store.
