(* ===== verification/AppOscore.v ===== *)
(** * The OSCORE hooks of an application

    [src/app/oscore.rs] in the build with the [oscore] feature: opening what
    arrives, sealing what is sent into a TX slot, and the checkpoint that must
    be durable before effects.  Everything is written against
    [ContextStorage].  The sizes of the profile ([TX_DATAGRAM_BYTES] and the
    scratch buffer) are parameters. *)
From S2P Require Import Prelude Errors MsgTypes Options Encode Decode OptionsBuilder OptionValues MessageOptions MissingBlocks.
From S2P Require Import OscoreHeader OscoreCbor OscoreContext OscoreProtect Occupancy Pending DatagramPool PendingCons.
From S2P Require Import SlotTable Dedup Observe Block BodyPool Exchange Engine Problem AppIdentity Transport AppSend AppResponse AppAssociations.

Arguments AeOscore {ER} _.
Arguments AeOscoreCheckpointRequired {ER}.
Arguments AeOscoreCheckpointFailed {ER}.

Inductive CheckpointState : Type := CkVolatile | CkDirty | CkClean.
Definition ck_required (c : CheckpointState) : bool := match c with CkVolatile => false | _ => true end.
Definition ck_require (c : CheckpointState) : CheckpointState := if negb (ck_required c) then CkDirty else c.
Definition ck_invalidate (c : CheckpointState) : CheckpointState := if ck_required c then CkDirty else c.

(** What an authenticated response changes once it is accepted. *)
Inductive ResponseState (T : Type) : Type :=
  | RsNone
  | RsNotification (token : T) (piv : option PartialIv)
  | RsReplay (sequence : Z)
  | RsResponseWithoutPiv (token : T).
Arguments RsNone {T}.
Arguments RsNotification {T} _ _.
Arguments RsReplay {T} _.
Arguments RsResponseWithoutPiv {T} _.

Record Opened (T : Type) : Type := mkOpened {
  op_inner : ParsedMessage T;
  op_wire : list Z;
  op_request : RequestRef;
  op_state : ResponseState T
}.
Arguments mkOpened {T} _ _ _ _.
Arguments op_inner {T} _.
Arguments op_wire {T} _.
Arguments op_request {T} _.
Arguments op_state {T} _.

Section hooks.
Context {F T ER : Type} `{Target, Ccm} `{OwnedToken T, !EqDecision T} `{!ContextStorage F T}.
Implicit Types (f : F) (c : SecurityContext T) (peer : Endpoint) (parsed : ParsedMessage T) (msg : Message T).

(** A stored context is missing only where none is attached at all. *)
Definition selected f (ns : Z) : res OscoreError (option (SecurityContext T)) :=
  let value := cs_context f ns in
  if cs_is_some (T:=T) f && negb (is_some value) then Err OContext else Ok value.

Definition selected_mut f (ns : Z) : res OscoreError (option (SecurityContext T * (SecurityContext T → F))) :=
  let value := cs_context_mut f ns in
  if cs_is_some (T:=T) f && negb (is_some value) then Err OContext else Ok value.

(** Run on the selected context and store it back. *)
Definition on_context {R E A} (lens : SecurityContext T * (SecurityContext T → F)) (m : st (SecurityContext T * R) E A) : st (F * R) E A :=
  fun '(_, r) => let '(c, put) := lens in let '((c, r), x) := m (c, r) in ((put c, r), x).

Definition app_resolve f peer : res (AppError ER) Endpoint := map_err AeOscore (cs_resolve (T:=T) f peer).
Definition route_allowed f peer : bool := negb (cs_is_some (T:=T) f) || is_some (cs_context f (ep_association peer)).

Definition flush {W} f (commit : option (option Association → ReplayCheckpoint → W → W * bool))
    : st (CheckpointState * W) (AppError ER) unit :=
  '(state, w) ← st_get;
  if ck_required state then
    commit ← st_lift (ok_or commit AeOscoreCheckpointRequired);
    match state with
    | CkDirty =>
        let '(w, ok) := cs_checkpoints (T:=T) commit f w in
        st_put (state, w);;
        if negb ok then st_fail AeOscoreCheckpointFailed else st_put (CkClean, w)
    | _ => mret tt
    end
  else mret tt.

Definition commit_state (state : ResponseState T) : ctx_st unit :=
  match state with
  | RsNone => mret tt
  | RsNotification token piv => accept_notification token piv
  | RsResponseWithoutPiv token => accept_response_without_piv token
  | RsReplay sequence =>
      c ← st_get;
      if negb (replay_fresh c sequence) then st_fail OReplay else st_put (replay_accept c sequence)
  end.
Definition commit_response peer (state : ResponseState T) : st F (AppError ER) unit := fun f =>
  match selected_mut f (ep_association peer) with
  | Ok (Some (c, put)) => let '(c, r) := commit_state state c in (put c, map_err AeOscore r)
  | Ok None => (f, Ok tt)
  | Err e => (f, Err (AeOscore e))
  | Panic => (f, Panic)
  | Diverge => (f, Diverge)
  end.

(** ** Opening what arrives *)
(** The replay rule of an opened response. *)
Definition response_state c parsed (inner : ParsedMessage T) (request : RequestRef) : res OscoreError (ResponseState T) :=
  value ← pm_oscore parsed;
  value ← ok_or value OHeader;
  header ← OscoreHeader_parse value;
  o ← pm_observe inner;
  let observe := is_some o in
  if observe && negb (eqb (observe_request c (pm_token _ parsed)) (Some request)) then Err OReplay
  else if observe then
    if eqb (pm_ty parsed) Acknowledgement && negb (is_some (oh_piv header)) then mret RsNone
    else
      _ ← notification_fresh c (pm_token _ parsed) (oh_piv header);
      mret (RsNotification (pm_token _ parsed) (oh_piv header))
  else
    blocks ← pm_q_block2 inner;
    format ← pm_content_format inner;
    if negb (is_nil blocks) || ((pm_code inner =? Code_REQUEST_ENTITY_INCOMPLETE)
         && match format with Some (Ok x) => x =? CF_MISSING_BLOCKS | _ => false end)
    then
      match oh_piv header with
      | Some piv =>
          seq ← PartialIv_seq piv;
          if negb (replay_fresh c seq) then Err OReplay else mret (RsReplay seq)
      | None =>
          if eqb (observe_request c (pm_token _ parsed)) (Some request) then
            _ ← notification_fresh c (pm_token _ parsed) None;
            mret (RsNotification (pm_token _ parsed) None)
          else
            _ ← response_without_piv_fresh c (pm_token _ parsed);
            mret (RsResponseWithoutPiv (pm_token _ parsed))
      end
    else mret RsNone.

Definition open_message parsed : oscore_st (Opened T) :=
  '(c, _) ← st_get;
  '(wire, request) ← (if Code_is_request (pm_code parsed) then unprotect_request_wire parsed
                      else on_snd (unprotect_bound_response_wire c parsed));
  inner ← st_lift (decode_owned wire);
  state ← (if negb (Code_is_request (pm_code parsed)) then '(c, _) ← st_get; st_lift (response_state c parsed inner request)
           else mret RsNone);
  mret (mkOpened inner wire request state).

Definition inbound peer parsed : st (F * list Z) OscoreError (option (Opened T)) :=
  '(f, _) ← st_get;
  lens ← st_lift (selected_mut f (ep_association peer));
  match lens with
  | None => mret None
  | Some lens =>
      option ← st_lift (pm_oscore parsed);
      if is_some option then o ← on_context lens (open_message parsed); mret (Some o)
      else if pm_is_empty parsed then mret None
      else st_fail OUnprotected
  end.

(** ** Sealing what is sent *)
Definition protect_err (e : OscoreError) : AppError ER :=
  match e with
  | OBufferTooSmall | OMessageLength => AeMessage (SMEncode Errors.BufferTooSmall)
  | OEncode e => AeMessage (SMEncode e)
  | OOptions => AeMessage (SMEncode EncodeOptionsFull)
  | other => AeOscore other
  end.

Definition stage_notification peer (request : option RequestRef) msg : st (F * list Z) (AppError ER) nat :=
  '(f, _) ← st_get;
  lens ← st_lift (map_err AeOscore (selected_mut f (ep_association peer)));
  match lens with
  | Some lens =>
      match request with
      | None => st_fail (protect_err OContext)
      | Some request => st_map_err protect_err (on_context lens (protect_response_piv msg request))
      end
  | None => on_snd (st_map_err (fun e => AeMessage (SMEncode e)) (encode msg))
  end.

Definition oscore_cancel peer (token : T) f : F :=
  match cs_context_mut f (ep_association peer) with Some (c, put) => put (take_request token c).1 | None => f end.
End hooks.

Section slots.
Context {RX TX RB TB T Q ER F : Type} `{Target, Ccm} `{OwnedToken T, !EqDecision T} `{!ContextStorage F T}.
Context `{!SlotPool RX} `{!DatagramBytes RX} `{!SlotPool TX} `{!DatagramBytes TX} `{!BodyCells T RB} `{!BodyCells T TB}.
Abbreviation Eng := (Engine RX TX RB TB T Q).
Context (TX_DATAGRAM_BYTES TX_SCRATCH : nat).
Implicit Types (tx : SlotId) (peer : Endpoint) (msg : Message T).
Abbreviation app A := (st (Eng * F) (AppError ER) A).

(** The buffer of a TX slot lent together with the contexts. *)
Definition lend_tx {E A} (vacant : E) tx (m : st (F * list Z) E A) : st (Eng * F) E A := fun '(en, f) =>
  match db_payload_mut (E:=E) (tx_of en) tx with
  | Ok (Some (buf, store)) => let '((f, buf), r) := m (f, buf) in ((with_tx en (store buf), f), r)
  | Ok None => ((en, f), Err vacant)
  | Err e => ((en, f), Err e)
  | Panic => ((en, f), Panic)
  | Diverge => ((en, f), Diverge)
  end.
(** [AccessMut::capacity]. *)
Definition tx_capacity tx : st Eng SlotError nat := fun en =>
  (en, match db_payload_mut (tx_of en) tx with
       | Ok (Some (buf, _)) => Ok (length buf)
       | Ok None => Err NotOccupied
       | Err e => Err e
       | Panic => Panic
       | Diverge => Diverge
       end).
(** [&mut buf[..limit]]. *)
Definition on_prefix {E A} (limit : nat) (m : st (F * list Z) E A) : st (F * list Z) E A := fun '(f, buf) =>
  match slice_idx (E:=E) buf 0 limit with
  | Ok part => let '((f, part), r) := m (f, part) in ((f, splice buf 0 part), r)
  | _ => ((f, buf), Panic)
  end.

Definition fill_tx tx (bytes : list Z) : st Eng SlotMessageError unit :=
  st_map_err SMSlot (access_tx tx);;
  on_tx (in_slot (SMSlot NotOccupied) tx (fun buf =>
    if (length buf <? length bytes)%nat then (buf, Err (SMEncode Errors.BufferTooSmall))
    else st_upd (copy_into 0 (length bytes) bytes) buf));;
  on_tx (st_map_err SMSlot (set_len tx (length bytes))).

(** Sealed into a scratch buffer, so that a refusal keeps the packet. *)
Definition protect_retained_tx tx (limit : nat) (encode : st (F * list Z) (AppError ER) nat) : app unit :=
  '(_, f) ← st_get;
  let wire := replicate TX_SCRATCH 0 in
  let '((f, wire), r) := on_prefix (Nat.min limit (length wire)) encode (f, wire) in
  on_snd (st_put f);;
  n ← st_lift r;
  bytes ← st_lift (slice_idx wire 0 n);
  on_fst (st_map_err AppError_from_message (fill_tx tx bytes)).

Definition protect_into_tx tx (encode : st (F * list Z) (AppError ER) nat) : app unit :=
  payload ← on_fst (st_map_err AppError_from_slot (access_tx tx));
  capacity ← on_fst (st_map_err AppError_from_slot (tx_capacity tx));
  let limit := Nat.min capacity TX_DATAGRAM_BYTES in
  if is_nil payload then
    n ← lend_tx (AppError_from_slot NotOccupied) tx (on_prefix limit encode);
    on_fst (st_map_err AppError_from_slot (on_tx (set_len tx n)))
  else protect_retained_tx tx limit encode.

(** Without a context the message is encoded as it is. *)
Definition encode_plain tx msg : app unit := on_fst (st_map_err AppError_from_message (encode_tx tx msg));; mret tt.

Definition app_encode_request peer tx msg : app unit :=
  '(_, f) ← st_get;
  lens ← st_lift (map_err AeOscore (selected_mut f (ep_association peer)));
  match lens with
  | Some lens => protect_into_tx tx (st_map_err protect_err (on_context lens (protect_request msg)))
  | None => encode_plain tx msg
  end.
Definition app_encode_message peer (request : option RequestRef) tx msg : app unit :=
  '(_, f) ← st_get;
  c ← st_lift (map_err AeOscore (selected f (ep_association peer)));
  match c with
  | Some c =>
      match request with
      | None => st_fail (protect_err OContext)
      | Some request => protect_into_tx tx (on_snd (st_map_err protect_err (protect_response c msg request)))
      end
  | None => encode_plain tx msg
  end.
Definition app_encode_notification peer (request : option RequestRef) tx msg : app unit :=
  '(_, f) ← st_get;
  if cs_is_some (T:=T) f then protect_into_tx tx (stage_notification peer request msg)
  else encode_plain tx msg.
End slots.
