(* ===== verification/AppOscoreLaws.v ===== *)
(** * Associations stay apart and traffic stays protected

    Theorems on [AppAssociations] and [AppOscore]: a namespace names one
    association for ever, a request reaches the one context its identifiers
    name, and nothing leaves or enters unprotected once a context is attached. *)
From S2P Require Import Prelude Errors MsgTypes Options Encode Decode OptionsBuilder OptionValues MessageOptions MissingBlocks.
From S2P Require Import Codec OscoreHeader OscoreCbor OscoreContext OscoreProtect OscoreSeal OscoreOutcome Occupancy Pending DatagramPool PendingCons.
From S2P Require Import SlotTable Dedup Observe Block BodyPool Exchange Engine EngineExchange DatagramBuffer.
From S2P Require Import Problem AppIdentity Transport AppSend AppResponse AppAssociations AppOscore.

(** ** Associations over time *)
Section associations.
Context {T : Type} `{Target} `{OwnedToken T, !EqDecision T}.
Implicit Types (s : AssocStore T) (row : AssocEntry T) (c : SecurityContext T) (a : Association) (h : list Association).

(** The identifiers a context is routed by. *)
Definition ids c (rid ctx : list Z) : Prop :=
  (∀ E, Id_as_bytes (E:=E) (sc_recipient_id c) = Ok rid) ∧ (∀ E, id_context (E:=E) c = Ok ctx) ∧ sc_id_context_len c = Z.of_nat (length ctx).
Definition identified c : Prop := ∃ rid ctx, ids c rid ctx.
Definition same_ids c c' : Prop :=
  sc_recipient_id c' = sc_recipient_id c ∧ sc_id_context c' = sc_id_context c ∧ sc_id_context_len c' = sc_id_context_len c.

(** What happens to the table: an installation, work on a selected context
    (which never changes its identifiers), the two halves of a removal, and the
    primary context, which [set_oscore] refuses after the first installation. *)
Inductive assoc_step : AssocStore T * list Association → AssocStore T * list Association → Prop :=
  | as_install s h endpoint owner epoch c s' a :
      identified c → install endpoint owner epoch (s, Some c) = ((s', None), Ok a) → assoc_step (s, h) (s', a :: h)
  | as_work s h ns c put c' :
      cs_context_mut s ns = Some (c, put) → same_ids c c' → assoc_step (s, h) (put c', h)
  | as_revoke s h a k s' :
      association_index s a = Some k → revoke (E:=OscoreInstallError) k s = Ok s' → assoc_step (s, h) (s', h)
  | as_reclaim s h a k s' c :
      association_index s a = Some k → reclaim (E:=OscoreInstallError) k s = Ok (s', c) → assoc_step (s, h) (s', h)
  | as_primary s h c s' :
      sto_generation s = 0 → identified c → set_primary (E:=OscoreInstallError) c s = Ok s' → assoc_step (s, h) (s', h).
Definition assoc_steps : relation (AssocStore T * list Association) := rtc assoc_step.
Definition assoc_reachable (x : AssocStore T * list Association) : Prop := ∃ A, assoc_steps (Store_new A, []) x.

Definition ns_of a : Z := ep_association (asn_route a).
Definition has_entry s (k : nat) row : Prop := sto_rows s !! k = Some (Some row).
(** Two rows compete for the same requests. *)
Definition same_recipient row row' : Prop :=
  match ent_association row, ent_association row' with
  | Some a, Some a' =>
      Association_endpoint a = Association_endpoint a' ∧
      ∃ rid ctx, ids (ent_context row) rid ctx ∧ ids (ent_context row') rid ctx
  | _, _ => False
  end.

(** The issued handles are numbered up to the generation, latest first. *)
Definition assoc_inv (x : AssocStore T * list Association) : Prop :=
  let '(s, h) := x in
  0 ≤ sto_generation s < 2 ^ 32 ∧
  map ns_of h = map Z.of_nat (rev (seq 1 (Z.to_nat (sto_generation s)))) ∧
  (∀ k row, has_entry s k row → identified (ent_context row)) ∧
  (∀ k row, has_entry s k row → match ent_association row with Some a => a ∈ h | None => sto_generation s = 0 ∧ k = 0%nat end) ∧
  (∀ j k row row', has_entry s j row → has_entry s k row' → j ≠ k →
     ent_association row ≠ ent_association row' ∧ ¬ same_recipient row row').

Lemma entries_spec s row : row ∈ entries s ↔ ∃ k, has_entry s k row.
Proof.
  unfold entries, has_entry. rewrite list_elem_of_omap. split.
  - intros (r & Hr & ->). by apply list_elem_of_lookup.
  - intros [k Hk]. exists (Some row). split; [by eapply list_elem_of_lookup_2|done].
Qed.
Lemma any_false {E A} (f : A → res E bool) (l : list A) x : any f l = Ok false → x ∈ l → f x = Ok false.
Proof.
  induction l as [|y l IH]; [by intros _ ?%elem_of_nil|]. cbn [any]. unbind. destruct (f y) as [[]| | |] eqn:Ey; try done.
  intros Ha. rewrite elem_of_cons. intros [->|Hx]; [done|by apply IH].
Qed.

(** What a successful installation found and left. *)
Lemma install_inv endpoint owner epoch s c s' a :
  install endpoint owner epoch (s, Some c) = ((s', None), Ok a) →
  ∃ k, sto_rows s !! k = Some None ∧ sto_generation s + 1 < 2 ^ 32 ∧
    a = mkAssociation (Endpoint_with_association (Endpoint_physical endpoint) (sto_generation s + 1)) owner epoch ∧
    s' = mkStore (<[k := Some (mkEntry c (Some a) false)]> (sto_rows s)) (sto_generation s + 1) ∧
    ∀ j row, has_entry s j row → is_some (ent_association row) = true ∧
      same_identity (E:=OscoreInstallError) endpoint owner epoch c row = Ok false.
Proof.
  unfold install, check_install. unbind. cbn [ok_or]. destruct (existsb _ (entries s)) eqn:Eb; [done|].
  destruct (any (E:=OscoreInstallError) _ (entries s)) as [[]| | |] eqn:Ea; try done.
  destruct (position _ (sto_rows s)) as [k|] eqn:Ep; [|done]. apply position_Some in Ep as [(r & Hk & Hr) _]. destruct r; [done|].
  cbn [ok_or]. unfold checked_add. destruct (sto_generation s + 1 <=? max_u 32) eqn:Eg; [|done]. bools. unfold max_u in Eg. cbn [ok_or].
  unfold set_idx. rewrite (proj2 (Nat.ltb_lt _ _)) by (by eapply lookup_lt_Some).
  intros [= <- <-]. exists k. split_and!; [done|lia|done|done|].
  intros j row Hj. assert (row ∈ entries s) as Hin by (apply entries_spec; by exists j). split.
  - destruct (is_some (ent_association row)) eqn:Es; [done|]. exfalso.
    assert (existsb (fun row => negb (is_some (ent_association row))) (entries s) = true) as Ht; [|congruence].
    apply existsb_exists. exists row. split; [by apply list_elem_of_In|by rewrite Es].
  - by eapply any_false in Ea.
Qed.

(** The identity test as the relation it decides. *)
Lemma same_identity_false endpoint owner epoch c row a :
  ent_association row = Some a → identified c → identified (ent_context row) →
  same_identity (E:=OscoreInstallError) endpoint owner epoch c row = Ok false →
  Association_endpoint a = Endpoint_physical endpoint →
  ¬ ∃ rid ctx, ids (ent_context row) rid ctx ∧ ids c rid ctx.
Proof.
  intros Ha _ _ Hs He (rid & ctx & (Hr1 & Hc1 & _) & (Hr2 & Hc2 & _)). unfold same_identity in Hs. rewrite Ha in Hs.
  destruct (_ && _); [done|]. rewrite He in Hs. unfold eqb in Hs. rewrite bool_decide_eq_true_2 in Hs by done. cbn [negb] in Hs.
  revert Hs. unbind. rewrite Hr1, Hr2. cbn iota beta. rewrite bool_decide_eq_true_2 by done. cbn [negb].
  rewrite Hc1, Hc2. cbn iota beta. by rewrite bool_decide_eq_true_2.
Qed.
Lemma ids_same c c' rid ctx : same_ids c c' → ids c' rid ctx ↔ ids c rid ctx.
Proof. intros (Hr & Hc & Hl). unfold ids, id_context. by rewrite Hr, Hc, Hl. Qed.
Lemma association_index_spec s a k :
  association_index s a = Some k → ∃ row, has_entry s k row ∧ ent_association row = Some a.
Proof.
  unfold association_index. intros [([row|] & Hk & Hr) _]%position_Some; [|done].
  exists row. split; [done|]. unfold eqb in Hr. by apply bool_decide_eq_true_1 in Hr.
Qed.
Lemma with_context_same s k row : has_entry s k row → with_context s k row (ent_context row) = s.
Proof.
  intros Hk. unfold with_context, has_entry in *. destruct s as [rows g], row as [c a v]. cbn [sto_rows sto_generation ent_context ent_association ent_revoked] in *.
  by rewrite list_insert_id.
Qed.
Lemma context_mut_spec s ns c put :
  cs_context_mut s ns = Some (c, put) →
  ∃ k row, has_entry s k row ∧ ent_revoked row = false ∧ namespace row = ns ∧ c = ent_context row ∧ put = with_context s k row.
Proof.
  cbn [cs_context_mut Store_storage]. unfold Store_context_mut. destruct (position _ _) as [k|] eqn:Ep; [|done].
  apply position_Some in Ep as [(r & Hk & Hr) _]. rewrite Hk. destruct r as [row|]; [|done]. intros [= <- <-].
  cbn [selects] in Hr. bools. exists k, row. split_and!; try done; lia.
Qed.

Lemma has_entry_insert s k (x : option (AssocEntry T)) g j row :
  has_entry (mkStore (<[k := x]> (sto_rows s)) g) j row ↔
  (j = k ∧ x = Some row ∧ (k < length (sto_rows s))%nat) ∨ (j ≠ k ∧ has_entry s j row).
Proof.
  unfold has_entry. cbn [sto_rows]. rewrite list_lookup_insert_Some. naive_solver.
Qed.
Lemma same_recipient_same row1 row1' row2 row2' :
  ent_association row1' = ent_association row1 → same_ids (ent_context row1) (ent_context row1') →
  ent_association row2' = ent_association row2 → same_ids (ent_context row2) (ent_context row2') →
  same_recipient row1' row2' → same_recipient row1 row2.
Proof.
  intros Ha1 H1 Ha2 H2. unfold same_recipient. rewrite Ha1, Ha2. destruct (ent_association row1), (ent_association row2); try done.
  intros (He & rid & ctx & Hi1 & Hi2). split; [done|]. exists rid, ctx.
  rewrite <- (ids_same _ _ rid ctx H1), <- (ids_same _ _ rid ctx H2). done.
Qed.
Lemma same_ids_refl c : same_ids c c.
Proof. done. Qed.
Lemma same_recipient_sym row row' : same_recipient row row' → same_recipient row' row.
Proof.
  unfold same_recipient. destruct (ent_association row), (ent_association row'); try done.
  intros (? & rid & ctx & ? & ?). split; [done|]. by exists rid, ctx.
Qed.

(** A row may change anything but its handle and its identifiers. *)
Lemma inv_replace s h k row row' :
  assoc_inv (s, h) → has_entry s k row → ent_association row' = ent_association row → same_ids (ent_context row) (ent_context row') →
  assoc_inv (mkStore (<[k := Some row']> (sto_rows s)) (sto_generation s), h).
Proof.
  intros (Hg & Hh & Hid & Has & Hd) Hk Ha Hi. split; [exact Hg|]. split; [exact Hh|]. split_and!.
  - intros j r [(-> & [= ->] & _)|(_ & Hj)]%has_entry_insert; [|by eapply Hid].
    destruct (Hid _ _ Hk) as (rid & ctx & Hx). exists rid, ctx. by apply (ids_same _ _ rid ctx Hi).
  - intros j r [(-> & [= ->] & _)|(_ & Hj)]%has_entry_insert; [|by apply (Has j)]. rewrite Ha. by apply Has.
  - intros i j r1 r2 [(-> & [= ->] & _)|(Hni & H1)]%has_entry_insert [(-> & [= ->] & _)|(Hnj & H2)]%has_entry_insert Hne; [done| | |by eapply Hd].
    + rewrite Ha. destruct (Hd k j row r2) as [Hx Hy]; [done..|]. split; [done|]. intros Hs. apply Hy. revert Hs. by apply same_recipient_same.
    + rewrite Ha. destruct (Hd i k r1 row) as [Hx Hy]; [done..|]. split; [done|]. intros Hs. apply Hy. revert Hs. by apply same_recipient_same.
Qed.
Lemma inv_clear s h k : assoc_inv (s, h) → assoc_inv (mkStore (<[k := None]> (sto_rows s)) (sto_generation s), h).
Proof.
  intros (Hg & Hh & Hid & Has & Hd). split; [exact Hg|]. split; [exact Hh|]. split_and!.
  - intros j r [(_ & ? & _)|(_ & Hj)]%has_entry_insert; [done|by eapply Hid].
  - intros j r [(_ & ? & _)|(_ & Hj)]%has_entry_insert; [done|by apply (Has j)].
  - intros i j r1 r2 [(_ & ? & _)|(Hni & H1)]%has_entry_insert [(_ & ? & _)|(Hnj & H2)]%has_entry_insert Hne; try done. by eapply Hd.
Qed.
Lemma inv_primary s h c :
  assoc_inv (s, h) → sto_generation s = 0 → identified c →
  assoc_inv (mkStore (<[0%nat := Some (mkEntry c None false)]> (sto_rows s)) (sto_generation s), h).
Proof.
  intros (Hg & Hh & Hid & Has & Hd) Hz Hc.
  assert (h = []) as Hnil by (rewrite Hz in Hh; destruct h; [done|discriminate Hh]).
  assert (∀ j row, has_entry s j row → j = 0%nat) as Honly.
  { intros j row Hj. pose proof (Has j row Hj) as Hx. rewrite Hnil in Hx. destruct (ent_association row); [by apply elem_of_nil in Hx|by destruct Hx]. }
  split; [exact Hg|]. split; [exact Hh|]. split_and!.
  - intros j r [(-> & [= <-] & _)|(_ & Hj)]%has_entry_insert; [done|by eapply Hid].
  - intros j r [(-> & [= <-] & _)|(_ & Hj)]%has_entry_insert; [done|by apply (Has j)].
  - intros i j r1 r2 [(-> & _ & _)|(Hni & H1)]%has_entry_insert [(-> & _ & _)|(Hnj & H2)]%has_entry_insert Hne; [done| | |];
      naive_solver.
Qed.

Lemma inv_install s h endpoint owner epoch c s' a :
  assoc_inv (s, h) → identified c → install endpoint owner epoch (s, Some c) = ((s', None), Ok a) → assoc_inv (s', a :: h).
Proof.
  intros (Hg & Hh & Hid & Has & Hd) Hc (k & Hk & Hgen & -> & -> & Hnew)%install_inv.
  assert (∀ a', a' ∈ h → ns_of a' ≤ sto_generation s) as Hold.
  { intros a' Ha. apply (list_elem_of_fmap_2 ns_of) in Ha. change (ns_of <$> h) with (map ns_of h) in Ha. rewrite Hh in Ha.
    apply list_elem_of_In, in_map_iff in Ha as (n & <- & Hn). apply in_rev in Hn. apply in_seq in Hn. lia. }
  assert (∀ j row, has_entry s j row → ent_association row ≠
    Some (mkAssociation (Endpoint_with_association (Endpoint_physical endpoint) (sto_generation s + 1)) owner epoch)) as Hfresh.
  { intros j row Hj Heq. pose proof (Has j row Hj) as Hx. rewrite Heq in Hx. apply Hold in Hx. unfold ns_of in Hx. simpl in Hx. lia. }
  assert (∀ j row (e' : Z), has_entry s j row → ¬ same_recipient row (mkEntry c (Some (mkAssociation
    (Endpoint_with_association (Endpoint_physical endpoint) (sto_generation s + 1)) owner e')) false)) as Hdiff.
  { intros j row e' Hj Hs. destruct (Hnew _ _ Hj) as [Hso Hsi]. unfold same_recipient in Hs. cbn [ent_association ent_context] in Hs.
    destruct (ent_association row) as [a0|] eqn:Ea; [|done]. destruct Hs as (He & Hr).
    apply (same_identity_false endpoint owner epoch c row a0 Ea Hc (Hid _ _ Hj) Hsi); [|done]. by rewrite He. }
  split; [cbn [sto_generation]; lia|]. split_and!; cbn [sto_generation].
  - simpl map. rewrite Hh. replace (Z.to_nat (sto_generation s + 1)) with (S (Z.to_nat (sto_generation s))) by lia.
    rewrite seq_S, rev_app_distr. simpl. f_equal. unfold ns_of. simpl. lia.
  - intros j r [(-> & [= <-] & _)|(_ & Hj)]%has_entry_insert; [done|by eapply Hid].
  - intros j r [(-> & [= <-] & _)|(_ & Hj)]%has_entry_insert; [cbn [ent_association]; by left|].
    pose proof (Has j r Hj) as Hx. destruct (Hnew _ _ Hj) as [Hso _]. destruct (ent_association r); [by right|done].
  - intros i j r1 r2 [(-> & [= <-] & _)|(Hni & H1)]%has_entry_insert [(-> & [= <-] & _)|(Hnj & H2)]%has_entry_insert Hne; [done| | |by eapply Hd].
    + split; [cbn [ent_association]; intros Heq; by apply (Hfresh _ _ H2)|]. intros Hs%same_recipient_sym. by apply (Hdiff _ _ _ H2) in Hs.
    + split; [by apply (Hfresh _ _ H1)|by apply (Hdiff _ _ _ H1)].
Qed.

Lemma assoc_step_inv x y : assoc_step x y → assoc_inv x → assoc_inv y.
Proof.
  intros [s h endpoint owner epoch c s' a Hc Hi|s h ns c put c' Hm Hs|s h a k s' Hk Hr|s h a k s' c Hk Hr|s h c s' Hz Hc Hp] Hinv.
  - by eapply inv_install.
  - apply context_mut_spec in Hm as (k & row & Hk & _ & _ & -> & ->). by eapply inv_replace.
  - apply association_index_spec in Hk as (row & Hk & _). revert Hr. unfold revoke, idx. unbind. unfold has_entry in Hk. rewrite Hk.
    intros [= <-]. by eapply inv_replace.
  - apply association_index_spec in Hk as (row & Hk & _). revert Hr. unfold reclaim, idx. unbind. unfold has_entry in Hk. rewrite Hk.
    intros [= <- _]. by apply inv_clear.
  - revert Hp. unfold set_primary, set_idx. unbind. destruct (_ <? _)%nat; [|done]. intros [= <-]. by apply inv_primary.
Qed.
Lemma assoc_steps_inv x y : assoc_steps x y → assoc_inv x → assoc_inv y.
Proof. induction 1 as [|x y z Hxy _ IH]; [done|]. intros Hx. by eapply IH, assoc_step_inv. Qed.
Lemma reachable_inv x : assoc_reachable x → assoc_inv x.
Proof.
  intros [A HA]. apply (assoc_steps_inv _ _ HA). split; [done|]. split; [done|].
  assert (∀ k row, ¬ has_entry (Store_new A) k row) as Hno.
  { intros k row Hk. unfold has_entry, Store_new in Hk. cbn [sto_rows] in Hk. by apply lookup_replicate in Hk as [? _]. }
  split_and!; intros; exfalso; by eapply Hno.
Qed.

(** ** Selection *)
Lemma issued_once s h a a' : assoc_inv (s, h) → a ∈ h → a' ∈ h → ns_of a = ns_of a' → a = a'.
Proof.
  intros (_ & Hh & _) [i Hi]%list_elem_of_lookup [j Hj]%list_elem_of_lookup He.
  assert (NoDup (map ns_of h)) as Hn.
  { rewrite Hh. apply NoDup_fmap_2; [by intros ? ? ?%Nat2Z.inj|]. apply NoDup_ListNoDup, List.NoDup_rev, List.seq_NoDup. }
  assert (i = j) as ->; [|congruence]. eapply NoDup_lookup; [exact Hn| |].
  - change (map ns_of h) with (ns_of <$> h). rewrite list_lookup_fmap, Hi. done.
  - change (map ns_of h) with (ns_of <$> h). rewrite list_lookup_fmap, Hj. cbn [fmap option_fmap option_map]. by rewrite He.
Qed.
Lemma issued_positive s h a : assoc_inv (s, h) → a ∈ h → 0 < ns_of a ≤ sto_generation s.
Proof.
  intros (Hg & Hh & _) Ha. apply (list_elem_of_fmap_2 ns_of) in Ha. change (ns_of <$> h) with (map ns_of h) in Ha. rewrite Hh in Ha.
  apply list_elem_of_In, in_map_iff in Ha as (n & <- & Hn). apply in_rev in Hn. apply in_seq in Hn. lia.
Qed.
Lemma namespace_row s h j k row row' :
  assoc_inv (s, h) → has_entry s j row → has_entry s k row' → namespace row = namespace row' → j = k ∧ row = row'.
Proof.
  intros Hinv Hj Hk Hn. assert (j = k) as ->; [|unfold has_entry in *; split; congruence].
  pose proof Hinv as (_ & _ & _ & Has & Hd). destruct (decide (j = k)) as [|Hne]; [done|exfalso].
  destruct (Hd j k row row' Hj Hk Hne) as [Hx _]. apply Hx. apply Has in Hj, Hk. unfold namespace in Hn.
  destruct (ent_association row) as [a|], (ent_association row') as [a'|].
  - f_equal. by eapply issued_once.
  - apply (issued_positive _ _ _ Hinv) in Hj. unfold ns_of in Hj. lia.
  - apply (issued_positive _ _ _ Hinv) in Hk. unfold ns_of in Hk. lia.
  - done.
Qed.
Lemma context_spec s h ns c :
  assoc_inv (s, h) →
  cs_context s ns = Some c ↔ ∃ k row, has_entry s k row ∧ ent_revoked row = false ∧ namespace row = ns ∧ ent_context row = c.
Proof.
  intros Hinv. cbn [cs_context Store_storage]. unfold Store_context. split.
  - destruct (List.find _ (entries s)) as [row|] eqn:Ef; [|done]. intros [= <-].
    apply find_some in Ef as [Hin Hb]. apply list_elem_of_In, entries_spec in Hin as [k Hk]. bools. by exists k, row.
  - intros (k & row & Hk & Hr & Hn & Hc). destruct (List.find _ (entries s)) as [row'|] eqn:Ef.
    + apply find_some in Ef as [Hin Hb]. apply list_elem_of_In, entries_spec in Hin as [j Hj]. bools.
      destruct (namespace_row s h j k row' row Hinv Hj Hk) as [_ ->]; [congruence|]. simpl. congruence.
    + exfalso. apply (find_none _ _) with (x:=row) in Ef; [|apply list_elem_of_In, entries_spec; by exists k].
      rewrite Hr, Hn, Z.eqb_refl in Ef. done.
Qed.
Lemma context_of_mut s h ns : assoc_inv (s, h) → cs_context s ns = option_map fst (cs_context_mut s ns).
Proof.
  intros Hinv. destruct (cs_context_mut s ns) as [[c put]|] eqn:Em.
  - apply (context_spec s h); [done|]. apply context_mut_spec in Em as (k & row & ? & ? & ? & -> & _). by exists k, row.
  - destruct (cs_context s ns) as [c|] eqn:Ec; [|done]. exfalso. apply (context_spec s h) in Ec as (k & row & Hk & Hr & Hn & _); [|done].
    revert Em. cbn [cs_context_mut Store_storage]. unfold Store_context_mut. destruct (position _ _) as [j|] eqn:Ep.
    + apply position_Some in Ep as [(r & Hj & Hs) _]. rewrite Hj. by destruct r.
    + apply position_None in Ep. apply (Forall_lookup_1 _ _ _ _ Ep) in Hk. cbn [selects] in Hk. by rewrite Hr, Hn, Z.eqb_refl in Hk.
Qed.
Lemma active_context s h a c :
  assoc_inv (s, h) → a ∈ h → cs_context s (ns_of a) = Some c ↔ ∃ k, has_entry s k (mkEntry c (Some a) false).
Proof.
  intros Hinv Ha. rewrite (context_spec s h) by done. split.
  - intros (k & row & Hk & Hr & Hn & <-). exists k. destruct row as [c0 [a0|] rv]; cbn [ent_revoked namespace ent_association ent_context] in *.
    + assert (a0 = a) as ->; [|by rewrite Hr in Hk]. pose proof Hinv as (_ & _ & _ & Has & _). apply Has in Hk. by eapply issued_once.
    + apply (issued_positive _ _ _ Hinv) in Ha. unfold namespace in Hn. cbn [ent_association] in Hn. lia.
  - intros [k Hk]. by exists k, (mkEntry c (Some a) false).
Qed.

(** ** For ever *)
Definition gone s a : Prop := ∀ k row, has_entry s k row → ent_association row = Some a → ent_revoked row = true.
Lemma gone_spec s a : association_is_active s a = false ↔ gone s a.
Proof.
  unfold association_is_active, gone. rewrite <- not_true_iff_false, existsb_exists. split.
  - intros Hn k row Hk Ha. destruct (ent_revoked row) eqn:Er; [done|]. destruct Hn. exists row.
    split; [apply list_elem_of_In, entries_spec; by exists k|]. rewrite Er, Ha. unfold eqb. by rewrite bool_decide_eq_true_2.
  - intros Hg (row & Hin & Hb). apply list_elem_of_In, entries_spec in Hin as [k Hk]. bools. rewrite (Hg k row) in *; done.
Qed.
Lemma gone_step s h s' h' a :
  assoc_step (s, h) (s', h') → assoc_inv (s, h) → a ∈ h → gone s a → gone s' a ∧ a ∈ h'.
Proof.
  intros Hst Hinv Ha Hg. inversion Hst as [s0 h0 endpoint owner epoch c s1 a1 Hc Hi|s0 h0 ns c put c' Hm Hs|s0 h0 a1 k s1 Hk Hr|s0 h0 a1 k s1 c Hk Hr|s0 h0 c s1 Hz Hc Hp]; subst.
  - apply install_inv in Hi as (k & _ & _ & -> & -> & _). split; [|by right].
    intros j row [(-> & [= <-] & _)|(_ & Hj)]%has_entry_insert Hr; [|by eapply Hg]. exfalso. cbn [ent_association] in Hr. injection Hr as <-.
    apply (issued_positive _ _ _ Hinv) in Ha. unfold ns_of in Ha. simpl in Ha. lia.
  - apply context_mut_spec in Hm as (k & row & Hk & _ & _ & -> & ->). split; [|done].
    intros j r [(-> & [= <-] & _)|(_ & Hj)]%has_entry_insert Hr; [by apply (Hg k row)|by eapply Hg].
  - apply association_index_spec in Hk as (row & Hk & _). revert Hr. unfold revoke, idx. unbind. unfold has_entry in Hk. rewrite Hk.
    intros [= <-]. split; [|done]. intros j r [(-> & [= <-] & _)|(_ & Hj)]%has_entry_insert Hr; [done|by eapply Hg].
  - apply association_index_spec in Hk as (row & Hk & _). revert Hr. unfold reclaim, idx. unbind. unfold has_entry in Hk. rewrite Hk.
    intros [= <- _]. split; [|done]. intros j r [(_ & ? & _)|(_ & Hj)]%has_entry_insert Hr; [done|by eapply Hg].
  - revert Hp. unfold set_primary, set_idx. unbind. destruct (_ <? _)%nat; [|done]. intros [= <-]. split; [|done].
    intros j r [(_ & [= <-] & _)|(_ & Hj)]%has_entry_insert Hr; [done|by eapply Hg].
Qed.
Lemma gone_steps x y a : assoc_steps x y → assoc_inv x → a ∈ x.2 → gone x.1 a → gone y.1 a ∧ a ∈ y.2.
Proof.
  induction 1 as [|[s h] [s' h'] z Hxy _ IH]; [done|]. intros Hx Ha Hg.
  destruct (gone_step _ _ _ _ a Hxy Hx Ha Hg). apply IH; [by eapply assoc_step_inv|done..].
Qed.
Lemma issued_step s h s' h' a : assoc_step (s, h) (s', h') → a ∈ h → a ∈ h'.
Proof. intros Hst Ha. inversion Hst; subst; [by right|done..]. Qed.
Lemma issued_steps x y a : assoc_steps x y → a ∈ x.2 → a ∈ y.2.
Proof. induction 1 as [|[s h] [s' h'] z Hxy _ IH]; [done|]. intros Ha. apply IH. by eapply issued_step. Qed.

(** ** Routing *)
Lemma omap_id_NoDup {A} (l : list (option A)) :
  (∀ i j x, l !! i = Some (Some x) → l !! j = Some (Some x) → i = j) → NoDup (omap (fun r => r) l).
Proof.
  induction l as [|[x|] l IH]; intros Hd; cbn; [constructor| |].
  - constructor.
    + intros (r & Hr & ->)%list_elem_of_omap. apply list_elem_of_lookup in Hr as [k Hk]. by specialize (Hd 0%nat (S k) x eq_refl Hk).
    + apply IH. intros i j y Hi Hj. by injection (Hd (S i) (S j) y Hi Hj).
  - apply IH. intros i j y Hi Hj. by injection (Hd (S i) (S j) y Hi Hj).
Qed.
Lemma active_spec s row : row ∈ active s ↔ (∃ k, has_entry s k row) ∧ ent_revoked row = false.
Proof. unfold active. rewrite list_elem_of_In, filter_In, <- list_elem_of_In, entries_spec. by rewrite negb_true_iff. Qed.
Lemma active_NoDup s h : assoc_inv (s, h) → NoDup (active s).
Proof.
  intros Hinv. apply NoDup_ListNoDup, List.NoDup_filter, NoDup_ListNoDup, omap_id_NoDup.
  intros i j row Hi Hj. by destruct (namespace_row s h i j row row Hinv Hi Hj).
Qed.

Lemma only_route_none found rows (m : AssocEntry T → res OscoreError bool) peer :
  (∀ row, row ∈ rows → m row = Ok false) → only_route found rows m peer = ok_or found OContext.
Proof.
  induction rows as [|row rows IH]; [done|]. intros Hm. cbn [only_route]. unbind. rewrite Hm by (by left). apply IH. intros r Hr. apply Hm. by right.
Qed.
Lemma only_route_one rows (m : AssocEntry T → res OscoreError bool) peer row :
  NoDup rows → row ∈ rows → m row = Ok true → (∀ r, r ∈ rows → r ≠ row → m r = Ok false) →
  only_route None rows m peer = Ok (route_of row peer).
Proof.
  induction rows as [|r rows IH]; [by intros _ ?%elem_of_nil|]. intros [Hn Hd]%NoDup_cons Hin Ht Hf. cbn [only_route]. unbind.
  apply elem_of_cons in Hin as [<-|Hin].
  - rewrite Ht. cbn [is_some]. rewrite only_route_none; [done|]. intros r' Hr'. apply Hf; [by right|]. by intros ->.
  - rewrite Hf; [|by left|by intros ->]. apply IH; [done..|]. intros r' Hr'. apply Hf. by right.
Qed.

(** A context answers to one pair of identifiers. *)
Lemma matches_ids c rid ctx (kid kctx : option (list Z)) :
  ids c rid ctx →
  matches_recipient (E:=OscoreError) c kid kctx = Ok (bool_decide (rid = default [] kid ∧ ctx = default [] kctx)).
Proof.
  intros (Hr & Hc & Hl). unfold matches_recipient. unbind. rewrite Hr. unfold eqb. destruct (decide (default [] kid = rid)) as [Hk|Hk].
  - rewrite (bool_decide_eq_true_2 _ Hk). cbn [negb]. destruct kctx as [x|].
    + rewrite Hc. f_equal. apply bool_decide_ext. cbn [default]. naive_solver.
    + f_equal. rewrite Hl. symmetry. apply eq_true_iff_eq. rewrite bool_decide_eq_true, Z.eqb_eq. cbn [default].
      destruct ctx; simpl; naive_solver lia.
  - rewrite (bool_decide_eq_false_2 _ Hk). cbn [negb]. rewrite bool_decide_eq_false_2; [done|naive_solver].
Qed.

(** The row with handle [a] answers for the peer and the identifiers. *)
Definition answers s peer (hd : OscoreHeader) a c : Prop :=
  (∃ k, has_entry s k (mkEntry c (Some a) false)) ∧ Association_endpoint a = Endpoint_physical peer ∧
  matches_recipient (E:=OscoreError) c (oh_kid hd) (oh_kid_context hd) = Ok true.

Lemma answers_once s h peer hd a c a' c' :
  assoc_inv (s, h) → answers s peer hd a c → answers s peer hd a' c' → a = a' ∧ c = c'.
Proof.
  intros Hinv ((j & Hj) & He & Hm) ((k & Hk) & He' & Hm'). pose proof Hinv as (_ & _ & Hid & _ & Hd).
  destruct (Hid _ _ Hj) as (rid & ctx & Hx). destruct (Hid _ _ Hk) as (rid' & ctx' & Hx'). cbn [ent_context] in *.
  rewrite (matches_ids _ _ _ _ _ Hx) in Hm. rewrite (matches_ids _ _ _ _ _ Hx') in Hm'.
  injection Hm as [-> ->]%bool_decide_eq_true. injection Hm' as [-> ->]%bool_decide_eq_true.
  destruct (decide (j = k)) as [->|Hne]; [unfold has_entry in *; split; congruence|]. exfalso.
  destruct (Hd j k _ _ Hj Hk Hne) as [_ Hs]. apply Hs. split; [by rewrite He, He'|]. by eexists _, _.
Qed.

(** The options with a number, one by one. *)
Lemma next_two (parsed : ParsedMessage T) o n :
  get_options_list (E:=OscoreError) parsed n = Ok [o] →
  ∃ rest rest', OptionsByNumber_next (E:=OscoreError) (get_options parsed n) = (rest, Ok (Some o)) ∧
    OptionsByNumber_next (E:=OscoreError) rest = (rest', Ok None).
Proof.
  unfold get_options_list. cbn [obn_collect]. destruct (OptionsByNumber_next (get_options parsed n)) as [rest [[x|]| | |]]; unbind; try done.
  destruct (length (pm_options T parsed)) as [|k]; cbn [obn_collect]; [done|].
  destruct (OptionsByNumber_next rest) as [rest' [[y|]| | |]] eqn:Er; unbind; try done; [by destruct (obn_collect k rest')|].
  intros [= ->]. by exists rest, rest'.
Qed.

Lemma row_routes s h peer (parsed : ParsedMessage T) hd row a :
  assoc_inv (s, h) → Code_is_request (pm_code parsed) = true → row ∈ active s → ent_association row = Some a →
  ∃ b, routes parsed (Some hd) peer row = Ok b ∧ (b = true ↔ answers s peer hd a (ent_context row)).
Proof.
  intros Hinv Hreq [(k & Hk) Hv]%active_spec Ha. pose proof Hinv as (_ & _ & Hid & _). destruct (Hid _ _ Hk) as (rid & ctx & Hx).
  unfold routes, route_of. rewrite Ha, Hreq. unfold eqb. change (Endpoint_physical (asn_route a)) with (Association_endpoint a).
  destruct row as [c a0 v]. cbn [ent_association ent_revoked ent_context] in *. subst.
  destruct (bool_decide (Association_endpoint a = Endpoint_physical peer)) eqn:Ee; bools; cbn [negb].
  - rewrite (matches_ids _ _ _ _ _ Hx). eexists. split; [done|]. unfold answers. rewrite (matches_ids _ _ _ _ _ Hx). split.
    + intros ->. split_and!; [by exists k|done|done].
    + intros (_ & _ & [= Hm]). done.
  - exists false. split; [done|]. split; [done|]. by intros (_ & ? & _).
Qed.

Lemma route_exact s h peer (parsed : ParsedMessage T) (o : Opt) hd :
  assoc_inv (s, h) → h ≠ [] → Code_is_request (pm_code parsed) = true →
  get_options_list (E:=OscoreError) parsed ON_OSCORE = Ok [o] → OscoreHeader_parse (opt_value o) = Ok hd →
  (∃ a c, answers s peer hd a c ∧ cs_inbound_route s peer parsed = Ok (asn_route a) ∧ cs_context s (ns_of a) = Some c ∧
     ∀ a' c', answers s peer hd a' c' → a' = a ∧ c' = c) ∨
  ((∀ a c, ¬ answers s peer hd a c) ∧ cs_inbound_route s peer parsed = Err OContext).
Proof.
  intros Hinv Hne Hreq Hf Hhd. pose proof Hinv as (_ & _ & _ & Has & _).
  assert (sto_generation s ≠ 0) as Hg.
  { destruct h as [|a h]; [done|]. pose proof (issued_positive _ _ a Hinv ltac:(by left)). lia. }
  assert (∀ k row, has_entry s k row → ∃ a, ent_association row = Some a ∧ a ∈ h) as Hall.
  { intros k row Hk. pose proof (Has k row Hk) as Hx. destruct (ent_association row) as [a|]; [by exists a|by destruct Hx]. }
  assert (cs_inbound_route s peer parsed = only_route None (active s) (routes parsed (Some hd) peer) peer) as Hroute.
  { cbn [cs_inbound_route Store_storage]. unfold Store_inbound_route, Store_is_some. rewrite (proj2 (Z.eqb_neq _ _) Hg). cbn [negb orb andb].
    replace (existsb _ (entries s)) with false.
    - destruct (next_two parsed o ON_OSCORE Hf) as (rest & rest' & -> & Hn). unbind. rewrite Hn. cbn [snd is_some]. by rewrite Hhd.
    - symmetry. apply not_true_iff_false. rewrite existsb_exists. intros (row & Hin & Hx). apply list_elem_of_In, entries_spec in Hin as [k Hk].
      destruct (Hall _ _ Hk) as (a & Ha & _). rewrite Ha in Hx. bools. done. }
  destruct (List.find (fun row => match routes parsed (Some hd) peer row with Ok b => b | _ => false end) (active s)) as [row|] eqn:Ef.
  - left. apply find_some in Ef as [Hin Hx]. apply list_elem_of_In in Hin. pose proof Hin as [(k & Hk) Hv]%active_spec.
    destruct (Hall _ _ Hk) as (a & Ha & Hah). destruct (row_routes s h peer parsed hd row a Hinv Hreq Hin Ha) as (b & Hb' & Hans).
    rewrite Hb' in Hx. subst b. pose proof (proj1 Hans eq_refl) as Hanswer. exists a, (ent_context row). split_and!; [done| | |].
    + rewrite Hroute, (only_route_one _ _ _ row); [unfold route_of; by rewrite Ha|by eapply active_NoDup|done|done|].
      intros r Hr Hrne. pose proof Hr as [(j & Hj) Hrv]%active_spec. destruct (Hall _ _ Hj) as (a' & Ha' & _).
      destruct (row_routes s h peer parsed hd r a' Hinv Hreq Hr Ha') as ([] & -> & Hans'); [|done]. exfalso. apply Hrne.
      destruct (answers_once s h peer hd _ _ _ _ Hinv Hanswer (proj1 Hans' eq_refl)) as [<- Hc].
      destruct row as [c0 a0 v0], r as [c1 a1 v1]. cbn [ent_association ent_revoked ent_context] in *. congruence.
    + apply (active_context s h); [done..|]. by destruct Hanswer as (? & _).
    + intros a' c' Hans'. by destruct (answers_once s h peer hd _ _ _ _ Hinv Hans' Hanswer).
  - right. assert (∀ row, row ∈ active s → routes parsed (Some hd) peer row = Ok false) as Hno.
    { intros row Hin. pose proof Hin as [(k & Hk) Hv]%active_spec. destruct (Hall _ _ Hk) as (a & Ha & _).
      destruct (row_routes s h peer parsed hd row a Hinv Hreq Hin Ha) as (b & Hb' & _).
      apply (find_none _ _) with (x:=row) in Ef; [|by apply list_elem_of_In]. rewrite Hb' in *. by subst. }
    split; [|by rewrite Hroute, only_route_none].
    intros a c Hans. pose proof Hans as ((k & Hk) & _). assert (mkEntry c (Some a) false ∈ active s) as Hin by (apply active_spec; by split; [exists k|]).
    destruct (row_routes s h peer parsed hd _ a Hinv Hreq Hin eq_refl) as (b & Hb' & Hiff). rewrite (Hno _ Hin) in Hb'. injection Hb' as <-.
    by apply Hiff in Hans.
Qed.

(** A protected request is opened with the one context its identifiers
    name.  If an active association of the sender's address has the Recipient ID
    and the ID Context of the request's OSCORE option, the datagram is routed to
    it and to no other, and its route selects that context; if none has, the
    request is refused.  Installation rules out that two have. *)
Theorem inbound_route_exact s h peer (parsed : ParsedMessage T) (o : Opt) hd :
  assoc_reachable (s, h) → h ≠ [] → Code_is_request (pm_code parsed) = true →
  get_options_list (E:=OscoreError) parsed ON_OSCORE = Ok [o] → OscoreHeader_parse (opt_value o) = Ok hd →
  (∃ a c, answers s peer hd a c ∧ cs_inbound_route s peer parsed = Ok (asn_route a) ∧ cs_context s (ns_of a) = Some c ∧
     ∀ a' c', answers s peer hd a' c' → a' = a ∧ c' = c) ∨
  ((∀ a c, ¬ answers s peer hd a c) ∧ cs_inbound_route s peer parsed = Err OContext).
Proof. intros Hr%reachable_inv. apply route_exact. done. Qed.

(** C8: A handle names one security context for as long as the application
    lives.  Whatever is installed, used, revoked and removed and in whatever
    order, no two issued handles share a namespace; the namespace of a handle
    selects exactly the context that was installed with it, and nothing once it
    is revoked, then or later; work under another namespace leaves its context
    as it was; and after the first installation the application never falls back
    to unprotected traffic. *)
Theorem associations_isolated s h a :
  assoc_reachable (s, h) → a ∈ h →
  (∀ a', a' ∈ h → ns_of a' = ns_of a → a' = a) ∧
  (∀ c, cs_context s (ns_of a) = Some c ↔ ∃ k, has_entry s k (mkEntry c (Some a) false)) ∧
  (∀ ns c put c', ns ≠ ns_of a → cs_context_mut s ns = Some (c, put) → same_ids c c' →
     cs_context (put c') (ns_of a) = cs_context s (ns_of a)) ∧
  (∀ s' h', assoc_steps (s, h) (s', h') →
     cs_is_some (T:=T) s' = true ∧ (association_is_active s a = false → cs_context s' (ns_of a) = None)).
Proof.
  intros Hr%reachable_inv Ha. split_and!.
  - intros a' Ha' Hn. by eapply issued_once.
  - intros c. by apply (active_context s h).
  - intros ns c put c' Hne Hm Hs. pose proof (assoc_step_inv _ _ (as_work s h ns c put c' Hm Hs) Hr) as Hr'.
    apply context_mut_spec in Hm as (k & row & Hk & _ & Hns & -> & ->). apply option_eq. intros c0. rewrite !(active_context _ h) by done.
    unfold with_context. setoid_rewrite has_entry_insert. split.
    + intros (j & [(-> & [= Hc Has Hrv] & _)|(_ & Hj)]); [|by exists j]. exfalso. unfold namespace in Hns. rewrite Has in Hns. done.
    + intros (j & Hj). exists j. right. split; [|done]. intros ->. unfold has_entry in *. rewrite Hk in Hj. injection Hj as ->. done.
  - intros s' h' Hst. pose proof (assoc_steps_inv _ _ Hst Hr) as Hr'. split.
    + pose proof (issued_positive _ _ _ Hr' (issued_steps _ _ a Hst Ha)). cbn [cs_is_some Store_storage]. unfold Store_is_some.
      rewrite (proj2 (Z.eqb_neq _ _)) by lia. done.
    + intros Hg%gone_spec. destruct (gone_steps _ _ a Hst Hr Ha Hg) as [Hg' Ha']. cbn [fst snd] in *.
      destruct (cs_context s' (ns_of a)) as [c|] eqn:Ec; [|done]. apply (active_context s' h') in Ec as [k Hk]; [|done..].
      by specialize (Hg' _ _ Hk eq_refl).
Qed.
End associations.

(** ** What is written into a slot *)
Section slots.
Context {RX TX RB TB T Q ER F : Type} `{Target, CcmLaws} `{OwnedTokenLaws T} `{!EqDecision T} `{!ContextStorage F T}.
Context `{!SlotPool RX} `{!DatagramBytes RX} `{!SlotPool TX} `{!DatagramBytes TX} `{!DatagramLaws TX} `{!BufferLaws TX} `{!BodyCells T RB} `{!BodyCells T TB}.
Abbreviation Eng := (Engine RX TX RB TB T Q).
Context (TX_DATAGRAM_BYTES TX_SCRATCH : nat).
Implicit Types (tx : SlotId) (peer : Endpoint) (m : Message T) (en : Eng) (f : F) (c : SecurityContext T).

(** An encoder that keeps the size of its buffer and returns. *)
Definition tame (cap : nat) f (enc : st (F * list Z) (AppError ER) nat) : Prop :=
  ∀ b, (length b ≤ cap)%nat →
    length (enc (f, b)).1.2 = length b ∧
    match (enc (f, b)).2 with Ok n => (n ≤ length b)%nat | Err _ => True | Panic | Diverge => False end.

Lemma view_payload_same (s : SlotView) : set_view_payload (sv_payload s) s = s.
Proof. by destruct s. Qed.
Lemma rewrites_same (p p' : TX) tx s :
  slot_at (pool_view p) tx = Some s → rewrites p tx s p' → pool_inv p' ∧ pool_view p' = pool_view p ∧ pool_cap p' = pool_cap p.
Proof.
  intros Hs (Hi & Hc & Hv). split_and!; [done| |done]. rewrite Hv. unfold slot_at in Hs. apply list_insert_id.
  destruct (pool_view p !! tx) as [[x|]|]; simpl in Hs; congruence.
Qed.

Lemma on_prefix_spec f (enc : st (F * list Z) (AppError ER) nat) (buf : list Z) (limit : nat) :
  (limit ≤ length buf)%nat → tame limit f enc →
  let '((f', part), r) := enc (f, take limit buf) in
  on_prefix limit enc (f, buf) = ((f', splice buf 0 part), r) ∧ length (splice buf 0 part) = length buf ∧
  ∀ n, r = Ok n → take n (splice buf 0 part) = take n part ∧ (n ≤ limit)%nat.
Proof.
  intros Hl Ht. unfold on_prefix. rewrite slice_prefix by lia. specialize (Ht (take limit buf) ltac:(rewrite length_take; lia)).
  destruct (enc (f, take limit buf)) as [[f' part] r]. cbn [fst snd] in Ht. destruct Ht as [Hpl Hr]. rewrite length_take in Hpl, Hr.
  assert (length part = limit) as Hpl' by lia.
  split; [done|]. split; [rewrite length_splice; lia|]. intros n ->.
  split; [|lia]. rewrite splice_0, take_app_le by lia. done.
Qed.

(** The room a datagram has: less in a slot that holds a packet. *)
Definition tx_limit (s : SlotView) (cap : nat) : nat :=
  let limit := Nat.min cap TX_DATAGRAM_BYTES in if is_nil (sv_payload s) then limit else Nat.min limit TX_SCRATCH.
Lemma tx_limit_le s cap : (tx_limit s cap ≤ cap)%nat.
Proof. unfold tx_limit. destruct (is_nil _); lia. Qed.

Lemma protect_into_tx_spec en f tx s (enc : st (F * list Z) (AppError ER) nat) :
  pool_inv (tx_of en) → slot_at (pool_view (tx_of en)) tx = Some s → sv_pinned s = false → tame (pool_cap (tx_of en)) f enc →
  ∃ b, length b = tx_limit s (pool_cap (tx_of en)) ∧
  let '((f', b'), r) := enc (f, b) in
  ∃ en', protect_into_tx TX_DATAGRAM_BYTES TX_SCRATCH tx enc (en, f) = ((en', f'), match r with Ok _ => Ok tt | Err e => Err e | Panic => Panic | Diverge => Diverge end) ∧
    match r with
    | Ok n => rewrites (tx_of en) tx (set_view_payload (take n b') s) (tx_of en')
    | _ => pool_inv (tx_of en') ∧ pool_view (tx_of en') = pool_view (tx_of en)
    end.
Proof.
  intros Hi Hs Hp Ht. unfold protect_into_tx. unbind. pose proof (law_access (tx_of en) tx Hi) as Ha. rewrite Hs, Hp in Ha.
  destruct Ha as (p0 & Ha & _). unfold on_fst at 1, st_map_err at 1, access_tx at 1. rewrite Ha. cbn [map_err].
  pose proof (fun E => law_buffer (tx_of en) tx (E:=E) Hi) as Hb. rewrite Hs in Hb.
  unfold on_fst at 1, st_map_err at 1, tx_capacity at 1. destruct (Hb SlotError) as (buf0 & store0 & -> & Hl0 & _). cbn [map_err]. rewrite Hl0.
  set (limit := Nat.min _ _). assert (limit ≤ pool_cap (tx_of en))%nat as Hlim by lia.
  destruct (is_nil (sv_payload s)) eqn:En.
  - unfold lend_tx at 1. destruct (Hb (AppError ER)) as (buf & store & -> & Hl & Hw).
    assert (tame limit f enc) as Ht' by (intros b Hbl; apply Ht; lia).
    pose proof (on_prefix_spec f enc buf limit ltac:(lia) Ht') as Hpre. exists (take limit buf). split; [unfold tx_limit; rewrite En, length_take; lia|].
    pose proof (Ht (take limit buf) ltac:(rewrite length_take; lia)) as Hr.
    destruct (enc (f, take limit buf)) as [[f' part] r]. destruct Hpre as (-> & Hls & Hn). cbn [fst snd] in Hr.
    assert (length (splice buf 0 part) = pool_cap (tx_of en)) as Hls' by lia. destruct (Hw _ Hls') as [Hkeep Hset].
    destruct r as [n|e| |]; try (by destruct Hr).
    + destruct (Hn n eq_refl) as [Htk Hnl]. specialize (Hset n). rewrite (proj2 (Nat.leb_le _ _)) in Hset by lia. destruct Hset as (p' & Hset & Hrw).
      unfold on_fst, st_map_err, on_tx, zoom, set_len. unbind.
      match goal with |- context [db_set_len (tx_of ?z) tx _] => change (tx_of z) with (store (splice buf 0 part)) end. rewrite Hset. cbn [map_err].
      eexists. split; [done|]. rewrite <- Htk. exact Hrw.
    + eexists. split; [done|]. assert (sv_payload s = []) as Hnil by (by destruct (sv_payload s)). rewrite Hnil in Hkeep. cbn [length] in Hkeep. rewrite take_0, <- Hnil, view_payload_same in Hkeep.
      destruct (rewrites_same _ _ tx s Hs Hkeep) as (? & ? & _). done.
  - unfold protect_retained_tx. unbind. rewrite length_replicate. set (limit' := Nat.min limit TX_SCRATCH). set (z := replicate TX_SCRATCH 0).
    assert (length z = TX_SCRATCH) as Hz by apply length_replicate. assert (tame limit' f enc) as Ht' by (intros b Hbl; apply Ht; lia).
    pose proof (on_prefix_spec f enc z limit' ltac:(lia) Ht') as Hpre. exists (take limit' z). split; [unfold tx_limit; rewrite En, length_take; lia|].
    pose proof (Ht (take limit' z) ltac:(rewrite length_take; lia)) as Hr.
    destruct (enc (f, take limit' z)) as [[f' part] r]. destruct Hpre as (-> & Hls & Hn). cbn [fst snd] in Hr. unfold on_snd at 1.
    destruct r as [n|e| |]; try (by destruct Hr); [|by eexists].
    destruct (Hn n eq_refl) as [Htk Hnl]. rewrite slice_prefix by lia. rewrite Htk. cbn iota beta.
    assert (length (take n part) ≤ pool_cap (tx_of en))%nat as Hfit by (rewrite length_take; lia).
    unfold on_fst at 1, st_map_err at 1, fill_tx. unbind. unfold st_map_err at 1, access_tx at 1. rewrite Ha. cbn [map_err].
    unfold on_tx at 1, zoom at 1, in_slot at 1. destruct (Hb SlotMessageError) as (buf & store & -> & Hl & Hw).
    rewrite (proj2 (Nat.ltb_ge _ _)) by lia. rewrite copy_into_ok by lia.
    assert (length (splice buf 0 (take n part)) = pool_cap (tx_of en)) as Hls' by (rewrite length_splice; lia). destruct (Hw _ Hls') as [_ Hset].
    specialize (Hset (length (take n part))). rewrite (proj2 (Nat.leb_le _ _)) in Hset by lia. destruct Hset as (p' & Hset & Hrw).
    unfold on_tx, zoom, set_len, st_map_err. unbind.
    match goal with |- context [db_set_len (tx_of ?z) tx _] => change (tx_of z) with (store (splice buf 0 (take n part))) end. rewrite Hset. cbn [map_err].
    eexists. split; [done|]. rewrite take_splice_0 in Hrw. exact Hrw.
Qed.

(** An encoder whose every outcome is that of sealing under [key]. *)
Definition enc_seals f (enc : st (F * list Z) (AppError ER) nat) (key : list Z) m (tb : list Z) : Prop :=
  ∀ b, slice_fits b → ∃ f' b' r, enc (f, b) = ((f', b'), map_err protect_err r) ∧ seals key m tb b b' r.

(** The outcome of writing a sealed datagram: in the slot, or nothing. *)
Definition sealed_or_none (key : list Z) m tx s en (x : (Eng * F) * res (AppError ER) unit) : Prop :=
  match x with
  | ((en', _), Ok _) => ∃ tb bs ctx kid bytes, (∀ E, ot_as_bytes (E:=E) (msg_token _ m) = Ok tb) ∧
      ciphertext_of key m tb bs ctx kid bytes ∧ rewrites (tx_of en) tx (set_view_payload bytes s) (tx_of en')
  | ((en', _), Err _) => pool_inv (tx_of en') ∧ pool_view (tx_of en') = pool_view (tx_of en)
  | _ => False
  end.

Lemma into_tx_sealed en f tx s (enc : st (F * list Z) (AppError ER) nat) (key tb : list Z) m :
  pool_inv (tx_of en) → 2 * Z.of_nat (pool_cap (tx_of en)) ≤ usize_max → slot_at (pool_view (tx_of en)) tx = Some s → sv_pinned s = false →
  (∀ E, ot_as_bytes (E:=E) (msg_token _ m) = Ok tb) → enc_seals f enc key m tb →
  sealed_or_none key m tx s en (protect_into_tx TX_DATAGRAM_BYTES TX_SCRATCH tx enc (en, f)).
Proof.
  intros Hi Hfit Hs Hp Htb Henc.
  assert (tame (pool_cap (tx_of en)) f enc) as Ht.
  { intros b Hb. destruct (Henc b ltac:(unfold slice_fits; lia)) as (f' & b' & r & -> & Hl & Hr). cbn [fst snd]. split; [done|].
    destruct r; cbn [map_err]; try done. by destruct Hr. }
  destruct (protect_into_tx_spec en f tx s enc Hi Hs Hp Ht) as (b & Hb & Hx). pose proof (tx_limit_le s (pool_cap (tx_of en))).
  destruct (Henc b ltac:(unfold slice_fits; lia)) as (f' & b' & r & He & Hl & Hr). rewrite He in Hx. destruct Hx as (en' & -> & Hv).
  destruct r as [n|e| |]; cbn [map_err] in *; try done. destruct Hr as (_ & bs & ctx & kid & Hc). by exists tb, bs, ctx, kid, (take n b').
Qed.

Lemma request_enc_seals f lens m (sid ctx tb : list Z) :
  context_wf lens.1 sid ctx → message_typed m → (∀ E, ot_as_bytes (E:=E) (msg_token _ m) = Ok tb) →
  enc_seals f (st_map_err protect_err (on_context lens (protect_request m))) (sc_sender_key lens.1) m tb.
Proof.
  intros Hc Hm Htb b Hb. destruct lens as [c put]. cbn [fst] in *. pose proof (protect_request_seals c m sid ctx tb b Hc Hm Htb Hb) as Hs.
  unfold st_map_err, on_context. destruct (protect_request m (c, b)) as [[c' b'] r]. destruct Hs as [Hs _]. by exists (put c'), b', r.
Qed.
Lemma notification_enc_seals f lens m q (sid ctx tb : list Z) :
  context_wf lens.1 sid ctx → request_wf q → message_typed m → (∀ E, ot_as_bytes (E:=E) (msg_token _ m) = Ok tb) →
  enc_seals f (st_map_err protect_err (on_context lens (protect_response_piv m q))) (sc_sender_key lens.1) m tb.
Proof.
  intros Hc Hq Hm Htb b Hb. destruct lens as [c put]. cbn [fst] in *. pose proof (protect_response_piv_seals c m q sid ctx tb b Hc Hq Hm Htb Hb) as Hs.
  unfold st_map_err, on_context. destruct (protect_response_piv m q (c, b)) as [[c' b'] r]. destruct Hs as [Hs _]. by exists (put c'), b', r.
Qed.
Lemma message_enc_seals f c m q (sid ctx tb : list Z) :
  context_wf c sid ctx → request_wf q → message_typed m → (∀ E, ot_as_bytes (E:=E) (msg_token _ m) = Ok tb) →
  enc_seals f (on_snd (st_map_err protect_err (protect_response c m q))) (sc_sender_key c) m tb.
Proof.
  intros Hc Hq Hm Htb b Hb. pose proof (protect_response_seals c m q sid ctx tb b Hc Hq Hm Htb Hb) as Hs.
  unfold st_map_err, on_snd. destruct (protect_response c m q b) as [b' r]. by exists f, b', r.
Qed.
(** An encoder that refuses at once. *)
Lemma refusal_enc_seals f e key m tb : enc_seals f (st_fail (protect_err e)) key m tb.
Proof. intros b Hb. by exists f, b, (Err e). Qed.
Lemma into_tx_refused en f tx s (enc : st (F * list Z) (AppError ER) nat) e :
  pool_inv (tx_of en) → slot_at (pool_view (tx_of en)) tx = Some s → sv_pinned s = false → (∀ b, enc (f, b) = ((f, b), Err e)) →
  ∃ en', protect_into_tx TX_DATAGRAM_BYTES TX_SCRATCH tx enc (en, f) = ((en', f), Err e) ∧ pool_view (tx_of en') = pool_view (tx_of en).
Proof.
  intros Hi Hs Hp He. assert (tame (pool_cap (tx_of en)) f enc) as Ht by (intros b _; by rewrite He).
  destruct (protect_into_tx_spec en f tx s enc Hi Hs Hp Ht) as (b & _ & Hx). rewrite He in Hx. destruct Hx as (en' & -> & _ & Hv). by exists en'.
Qed.
End slots.

Section traffic.
Context {RX TX RB TB T Q ER : Type} `{Target, CcmLaws} `{OwnedTokenLaws T} `{!EqDecision T}.
Context `{!SlotPool RX} `{!DatagramBytes RX} `{!SlotPool TX} `{!DatagramBytes TX} `{!DatagramLaws TX} `{!BufferLaws TX} `{!BodyCells T RB} `{!BodyCells T TB}.
Abbreviation Eng := (Engine RX TX RB TB T Q).
Context (TX_DATAGRAM_BYTES TX_SCRATCH : nat).
Implicit Types (tx : SlotId) (peer : Endpoint) (m : Message T) (en : Eng) (st : AssocStore T) (c : SecurityContext T).

(** The three ways the application sends a message. *)
Inductive sending : Type := SendRequest | SendMessage (request : option RequestRef) | SendNotification (request : option RequestRef).
Definition encode_sending (x : sending) peer tx m : Prelude.st (Eng * AssocStore T) (AppError ER) unit :=
  match x with
  | SendRequest => app_encode_request TX_DATAGRAM_BYTES TX_SCRATCH peer tx m
  | SendMessage q => app_encode_message TX_DATAGRAM_BYTES TX_SCRATCH peer q tx m
  | SendNotification q => app_encode_notification TX_DATAGRAM_BYTES TX_SCRATCH peer q tx m
  end.
Definition sending_wf (x : sending) : Prop :=
  match x with SendMessage (Some q) | SendNotification (Some q) => request_wf q | _ => True end.
Definition store_wf st : Prop := ∀ k row, has_entry st k row → ∃ sid ctx, context_wf (ent_context row) sid ctx.

(** What is in the slot afterwards. *)
Definition left_protected st peer tx s m en (y : (Eng * AssocStore T) * res (AppError ER) unit) : Prop :=
  match y with
  | ((en', _), Ok _) => ∃ c tb bs ctx kid bytes, cs_context st (ep_association peer) = Some c ∧
      (∀ E, ot_as_bytes (E:=E) (msg_token _ m) = Ok tb) ∧ ciphertext_of (sc_sender_key c) m tb bs ctx kid bytes ∧
      rewrites (tx_of en) tx (set_view_payload bytes s) (tx_of en')
  | ((en', _), Err _) => pool_view (tx_of en') = pool_view (tx_of en)
  | _ => False
  end.
Lemma sealed_left st peer tx s m en c y :
  cs_context st (ep_association peer) = Some c → sealed_or_none (sc_sender_key c) m tx s en y → left_protected st peer tx s m en y.
Proof.
  intros Hc Hy. destruct y as [[en' f'] [u|e| |]]; cbn [sealed_or_none left_protected] in *; try done; [|by destruct Hy].
  destruct Hy as (tb & bs & ctx & kid & bytes & Hy). by exists c, tb, bs, ctx, kid, bytes.
Qed.

(** C7: Once a context is attached nothing leaves in the clear.  Whether a
    request, a response or a notification is encoded, and whatever its size, its
    options and its slot, either the slot holds a datagram that carries the
    message as ciphertext under the sender key of the context its route selects,
    or the call fails and every slot is as it was; a route without a context and
    a response without its request are among the failures. *)
Theorem nothing_leaves_unprotected en st h (x : sending) peer tx s m :
  assoc_reachable (st, h) → store_wf st → cs_is_some (T:=T) st = true → sending_wf x → message_typed m →
  pool_inv (tx_of en) → 2 * Z.of_nat (pool_cap (tx_of en)) ≤ usize_max →
  slot_at (pool_view (tx_of en)) tx = Some s → sv_pinned s = false →
  left_protected st peer tx s m en (encode_sending x peer tx m (en, st)).
Proof.
  intros Hr%reachable_inv Hwf Hsome Hx Hm Hi Hfit Hs Hp. pose proof Hm as (_ & _ & Htok & _). destruct (ot_wf_bytes _ Htok) as (tb & Htb & _).
  assert (∀ c, cs_context st (ep_association peer) = Some c → ∃ sid ctx, context_wf c sid ctx) as Hcw.
  { intros c (k & row & Hk & _ & _ & <-)%(context_spec st h); [|done]. by eapply Hwf. }
  pose proof (context_of_mut st h (ep_association peer) Hr) as Hcm.
  destruct x as [|q|q]; cbn [encode_sending sending_wf] in *.
  - unfold app_encode_request, selected_mut. unbind. rewrite Hsome.
    destruct (cs_context_mut st (ep_association peer)) as [[c put]|] eqn:Em; cbn [is_some negb andb map_err]; [|done].
    cbn [option_map fst] in Hcm. destruct (Hcw c Hcm) as (sid & ctx & Hc). apply (sealed_left _ _ _ _ _ _ c _ Hcm).
    eapply into_tx_sealed; try done. by apply (request_enc_seals st (c, put) m sid ctx tb).
  - unfold app_encode_message, selected. unbind. rewrite Hsome.
    destruct (cs_context st (ep_association peer)) as [c|] eqn:Ec; cbn [is_some negb andb map_err]; [|done].
    destruct q as [q|]; [|done]. destruct (Hcw c eq_refl) as (sid & ctx & Hc). apply (sealed_left _ _ _ _ _ _ c _ Ec).
    eapply into_tx_sealed; try done. by apply (message_enc_seals st c m q sid ctx tb).
  - unfold app_encode_notification. unbind. rewrite Hsome.
    destruct (cs_context_mut st (ep_association peer)) as [[c put]|] eqn:Em; cbn [option_map fst] in Hcm.
    + destruct (Hcw c Hcm) as (sid & ctx & Hc). apply (sealed_left _ _ _ _ _ _ c _ Hcm). eapply into_tx_sealed; try done. intros b Hb.
      unfold stage_notification, selected_mut. unbind. rewrite Hsome, Em. cbn [is_some negb andb map_err].
      destruct q as [q|]; [by apply (notification_enc_seals st (c, put) m q sid ctx tb)|by apply refusal_enc_seals].
    + destruct (into_tx_refused (ER:=ER) TX_DATAGRAM_BYTES TX_SCRATCH en st tx s (stage_notification peer q m) (AeOscore OContext) Hi Hs Hp) as (en' & -> & Hv); [|done].
      intros b. unfold stage_notification, selected_mut. unbind. by rewrite Hsome, Em.
Qed.
End traffic.

(** ** What is opened *)
Section opened.
Context {T : Type} `{Target, Ccm} `{OwnedToken T, !EqDecision T}.
Implicit Types (c : SecurityContext T) (parsed : ParsedMessage T).

(** [plain] is what the recipient key of [c] verifies in the payload: as many
    bytes as the ciphertext, of a buffer the plaintext was written into. *)
Definition authenticated c parsed (plain : list Z) : Prop :=
  ∃ nonce aad body tag pt buf, pm_payload _ parsed = body ++ tag ∧ length tag = TAG_LEN ∧
    ccm_decrypt (sc_recipient_key c) nonce aad body tag = (pt, true) ∧
    plain = take (length body) (splice buf 0 pt).

Lemma aead_open_inv (key nonce aad ct out out' : list Z) n :
  aead_open key nonce aad ct out = (out', Ok n) →
  ∃ body tag pt, ct = body ++ tag ∧ length tag = TAG_LEN ∧ ccm_decrypt key nonce aad body tag = (pt, true) ∧
    out' = splice out 0 pt ∧ n = length body.
Proof.
  unfold aead_open. unbind. destruct (_ <? _)%nat eqn:E1; [done|]. bools. destruct (length out <? _)%nat eqn:E2; [done|]. bools.
  set (k := (length ct - TAG_LEN)%nat) in *. unfold slice_idx.
  destruct (slice_get ct k (length ct)) as [tag|] eqn:Et; [|done]. apply slice_get_Some in Et as [_ ->].
  destruct (slice_get ct 0 k) as [body|] eqn:Eb; [|done]. apply slice_get_Some in Eb as [_ ->].
  destruct (ccm_decrypt _ _ _ _ _) as [pt []] eqn:Ed; [|done]. intros [= <- <-]. unfold TAG_LEN in *.
  rewrite drop_0, Nat.sub_0_r in *. rewrite (take_ge (drop k ct)) in * by (rewrite length_drop; lia).
  exists (take k ct), (drop k ct), pt. split_and!; [by rewrite take_drop|rewrite length_drop; lia|done|done|rewrite length_take; lia].
Qed.

(** What the application reads is stitched from the verified plaintext. *)
Definition stitched parsed (plain out out' wire : list Z) : Prop :=
  ∃ k, stitch_inner (pm_ty parsed) (pm_message_id parsed) (pm_token _ parsed) (pm_options _ parsed) plain out = (out', Ok k) ∧
    wire = take k out'.

Lemma unprotect_request_inv c parsed (out out' : list Z) c' r :
  unprotect_request_wire parsed (c, out) = ((c', out'), r) →
  (c' = c ∧ ∀ x, r ≠ Ok x) ∨
  ∃ plain seq, authenticated c parsed plain ∧ replay_fresh c seq = true ∧ c' = replay_accept c seq ∧
    ∀ wire q, r = Ok (wire, q) → stitched parsed plain out out' wire.
Proof.
  unfold unprotect_request_wire. unbind. destruct (parse_protected parsed) as [hd|e| |]; try (intros [= <- _ <-]; by left).
  destruct (matches_recipient c _ _) as [[]|e| |]; cbn [negb]; try (intros [= <- _ <-]; by left).
  destruct (oh_piv hd) as [piv|]; cbn [ok_or]; [|intros [= <- _ <-]; by left].
  destruct (PartialIv_seq piv) as [seq|e| |]; try (intros [= <- _ <-]; by left).
  destruct (replay_fresh c seq) eqn:Ef; cbn [negb]; [|intros [= <- _ <-]; by left]. destruct (_ <? TAG_LEN)%nat; [intros [= <- _ <-]; by left|].
  destruct (PartialIv_as_bytes piv) as [pb|e| |]; try (intros [= <- _ <-]; by left).
  destruct (Aad_new _ pb) as [aad|e| |]; try (intros [= <- _ <-]; by left).
  destruct (recipient_nonce c piv) as [nc|e| |]; try (intros [= <- _ <-]; by left).
  destruct (Aad_as_bytes aad) as [ab|e| |]; try (intros [= <- _ <-]; by left).
  destruct (aead_open _ _ _ _ _) as [pt [n|e| |]] eqn:Eo; try (intros [= <- _ <-]; by left). unfold on_fst. intros Hr. right.
  apply aead_open_inv in Eo as (body & tag & pt0 & Hp & Htl & Hd & -> & ->).
  exists (take (length body) (splice (replicate INNER 0) 0 pt0)), seq. split; [by exists nc, ab, body, tag, pt0, (replicate INNER 0)|]. split; [done|].
  revert Hr. generalize (splice (replicate INNER 0) 0 pt0). intros buf. unfold slice_idx at 1.
  destruct (slice_get buf 0 (length body)) as [plain|] eqn:Es; [|intros [= <- _ <-]; by split].
  apply slice_get_Some in Es as [_ ->]. rewrite drop_0, Nat.sub_0_r. set (plain := take _ buf).
  destruct (head plain) as [first|]; cbn [ok_or]; [|intros [= <- _ <-]; by split].
  destruct (negb _); [intros [= <- _ <-]; by split|]. unfold on_snd.
  destruct (stitch_inner _ _ _ _ plain out) as [out1 [k|e| |]] eqn:Est; try (intros [= <- _ <-]; by split).
  destruct (from_kid _ piv) as [q|e| |]; try (intros [= <- _ <-]; by split). unfold slice_idx.
  destruct (slice_get out1 0 k) as [wire|] eqn:Ew; [|intros [= <- _ <-]; by split]. apply slice_get_Some in Ew as [_ ->].
  intros [= <- <- <-]. split; [done|]. intros w q' [= <- _]. exists k. split; [done|]. by rewrite drop_0, Nat.sub_0_r.
Qed.

Lemma try_candidates_inv c hd (payload : list Z) cs (buf buf' : list Z) n q :
  try_candidates c hd payload cs buf = (buf', Ok (Some (n, q))) →
  ∃ nonce aad b, aead_open (sc_recipient_key c) nonce aad payload b = (buf', Ok n).
Proof.
  revert buf. induction cs as [|x cs IH]; intros buf; cbn [try_candidates]; unbind; [done|].
  destruct (RequestRef_kid x) as [kid|e| |]; try done. destruct (PartialIv_as_bytes _) as [pb|e| |]; try done.
  destruct (Aad_new _ pb) as [aad|e| |]; try done.
  destruct (match oh_piv hd with Some _ => _ | None => _ end) as [nc|e| |]; try done. destruct (Aad_as_bytes aad) as [ab|e| |]; try done.
  unfold or_decrypt. destruct (aead_open _ _ _ _ buf) as [b [k|e| |]] eqn:Eo; try done; [|by destruct e; try done; intros ?%IH].
  intros [= -> -> _]. by exists nc, ab, buf.
Qed.

Lemma unprotect_bound_inv c parsed (out out' wire : list Z) q :
  unprotect_bound_response_wire c parsed out = (out', Ok (wire, q)) →
  ∃ plain, authenticated c parsed plain ∧ stitched parsed plain out out' wire.
Proof.
  unfold unprotect_bound_response_wire, unprotect_response_candidates. unbind. destruct (lookup_request _ _) as [q0|]; cbn [ok_or]; [|done].
  destruct (parse_protected parsed) as [hd|e| |]; try done. destruct (_ <? TAG_LEN)%nat; [done|].
  destruct (try_candidates _ _ _ _ _) as [pt [[[n q1]|]|e| |]] eqn:Et; cbn [ok_or]; try done.
  apply try_candidates_inv in Et as (nc & aad & b & Eo). apply aead_open_inv in Eo as (body & tag & pt0 & Hp & Htl & Hd & -> & ->).
  unfold slice_idx at 1. destruct (slice_get _ 0 (length body)) as [plain|] eqn:Es; [|done].
  apply slice_get_Some in Es as [_ ->]. rewrite drop_0, Nat.sub_0_r. set (plain := take _ _).
  destruct (head plain) as [first|]; cbn [ok_or]; [|done]. destruct (negb _); [done|].
  destruct (stitch_inner _ _ _ _ plain out) as [out1 [k|e| |]] eqn:Est; try done. unfold slice_idx.
  destruct (slice_get out1 0 k) as [w|] eqn:Ew; [|done]. apply slice_get_Some in Ew as [_ ->]. intros [= <- <- _].
  exists plain. split; [by exists nc, aad, body, tag, pt0, b|]. exists k. split; [done|]. by rewrite drop_0, Nat.sub_0_r.
Qed.

(** Opening a message: the context changes only by what was verified. *)
Lemma open_message_inv c parsed (out out' : list Z) c' r :
  open_message parsed (c, out) = ((c', out'), r) →
  (c' = c ∨ ∃ plain seq, authenticated c parsed plain ∧ replay_fresh c seq = true ∧ c' = replay_accept c seq) ∧
  ∀ o, r = Ok o → (∃ plain, authenticated c parsed plain ∧ stitched parsed plain out out' (op_wire o)) ∧ decode_owned (op_wire o) = Ok (op_inner o).
Proof.
  unfold open_message. unbind. destruct (Code_is_request (pm_code parsed)); cbn [negb].
  - destruct (unprotect_request_wire parsed (c, out)) as [[c1 out1] x] eqn:Eu. apply unprotect_request_inv in Eu as [[-> Hx]|(plain & seq & Ha & Hf & -> & Hx)].
    + destruct x as [x|e| |]; [by destruct (Hx x)|..]; (intros [= <- _ <-]; split; [by left|done]).
    + assert (replay_accept c seq = c ∨ ∃ plain seq', authenticated c parsed plain ∧ replay_fresh c seq' = true ∧ replay_accept c seq = replay_accept c seq')
        as Hc by (right; by exists plain, seq).
      destruct x as [[wire q]|e| |]; try (intros [= <- _ <-]; split; [done|done]).
      destruct (decode_owned wire) as [inner|e| |] eqn:Ed; try (intros [= <- _ <-]; split; [done|done]).
      intros [= <- <- <-]. split; [done|]. intros o [= <-]. cbn [op_wire op_inner]. split; [|done]. exists plain. split; [done|]. by apply (Hx wire q).
  - unfold on_snd. destruct (unprotect_bound_response_wire c parsed out) as [out1 [[wire q]|e| |]] eqn:Eu; try (intros [= <- _ <-]; split; [by left|done]).
    apply unprotect_bound_inv in Eu. destruct (decode_owned wire) as [inner|e| |] eqn:Ed; try (intros [= <- _ <-]; split; [by left|done]).
    destruct (response_state c parsed inner q) as [x|e| |]; try (intros [= <- _ <-]; split; [by left|done]).
    intros [= <- <- <-]. split; [by left|]. intros o [= <-]. by split.
Qed.

(** C9: Once a context is attached nothing is accepted that it did not verify.
    A message is given to the application only if it carries the OSCORE option,
    its payload was verified with the recipient key of the context its route
    selects, and the inner message is decoded from that plaintext; without the
    option only an Empty message passes.  A message that is refused leaves every
    replay window as it was unless it was verified too. *)
Theorem nothing_enters_unverified (s : AssocStore T) peer parsed (out out' : list Z) s' r :
  cs_is_some (T:=T) s = true → inbound peer parsed (s, out) = ((s', out'), r) →
  (s' = s ∨ ∃ c put plain seq, cs_context_mut s (ep_association peer) = Some (c, put) ∧ authenticated c parsed plain ∧
     replay_fresh c seq = true ∧ s' = put (replay_accept c seq)) ∧
  match r with
  | Ok None => pm_is_empty parsed = true ∧ s' = s
  | Ok (Some o) => ∃ c put plain, cs_context_mut s (ep_association peer) = Some (c, put) ∧
      (∃ v, pm_oscore (E:=OscoreError) parsed = Ok (Some v)) ∧ authenticated c parsed plain ∧
      stitched parsed plain out out' (op_wire o) ∧ decode_owned (op_wire o) = Ok (op_inner o)
  | _ => True
  end.
Proof.
  intros Hsome. unfold inbound, selected_mut. unbind. rewrite Hsome.
  destruct (cs_context_mut s (ep_association peer)) as [[c put]|] eqn:Em; cbn [is_some negb andb]; [|intros [= <- _ <-]; split; [by left|done]].
  destruct (pm_oscore parsed) as [[v|]|e| |] eqn:Eo; cbn [is_some]; try (intros [= <- _ <-]; split; [by left|done]).
  - unfold on_context. destruct (open_message parsed (c, out)) as [[c' out1] x] eqn:Ex. apply open_message_inv in Ex as [Hc Hx].
    assert (put c' = s ∨ ∃ c0 put0 plain seq, Some (c, put) = Some (c0, put0) ∧ authenticated c0 parsed plain ∧ replay_fresh c0 seq = true ∧ put c' = put0 (replay_accept c0 seq)) as Hput.
    { destruct Hc as [->|(plain & seq & Ha & Hf & ->)]; [left|right; by exists c, put, plain, seq].
      apply context_mut_spec in Em as (k & row & Hk & _ & _ & -> & ->). by apply with_context_same. }
    destruct x as [o|e| |]; intros [= <- <- <-]; (split; [done|]); try done.
    destruct (Hx o eq_refl) as [(plain & Ha & Hst) Hd]. exists c, put, plain. split_and!; try done. by exists v.
  - destruct (pm_is_empty parsed) eqn:Ee; intros [= <- _ <-]; (split; [by left|done]).
Qed.
End opened.
