(* ===== verification/AppOscoreRound.v ===== *)
(** * A request through both applications

    The composition of [AppAssociations], [AppOscore], the TX slot and the
    codec: what one application seals into a slot the other routes, opens and
    hands on, once. *)
From S2P Require Import Prelude Errors MsgTypes Options Encode Decode OptionsBuilder OptionValues MessageOptions MissingBlocks.
From S2P Require Import Codec OscoreHeader OscoreCbor OscoreContext OscoreProtect OscoreSeal OscoreOutcome Occupancy Pending DatagramPool PendingCons.
From S2P Require Import SlotTable Dedup Observe Block BodyPool Exchange Engine EngineExchange DatagramBuffer.
From S2P Require Import Problem AppIdentity Transport AppSend AppResponse AppAssociations AppOscore AppOscoreLaws.

Section receive.
Context `{Target, CcmLaws} {T : Type} `{OwnedTokenLaws T} `{!EqDecision T}.
Implicit Types (c s : SecurityContext T) (m : Message T) (st : AssocStore T).

Lemma paired_ids c s sid ctx : paired c s sid ctx → ids s sid ctx.
Proof. intros (_ & _ & _ & _ & _ & Hr & _ & _ & _ & Hc & _ & _ & Hl). done. Qed.
Lemma outer_request (code : Code) os : Code_is_request code = true → Code_is_request (outer_code code os) = true.
Proof. intros Hc. unfold outer_code. rewrite Hc. by destruct (negb _). Qed.

(** The one OSCORE option of a protected request. *)
Lemma protected_option m (tb bs ct : list Z) (ctx kid : option (list Z)) :
  protectable m tb bs ctx kid → slice_fits (pm_options _ (protected_pm m tb bs ctx kid ct)) →
  get_options_list (E:=OscoreError) (protected_pm m tb bs ctx kid ct) ON_OSCORE = Ok [Opt_oscore (oscore_wire bs ctx kid)] ∧
  OscoreHeader_parse (opt_value (Opt_oscore (oscore_wire bs ctx kid))) = Ok (mkOscoreHeader (opt_piv bs) ctx kid).
Proof.
  intros (_ & _ & _ & Hos & _ & Hh & _) Hfit. destruct (oscore_wire_ok bs ctx kid Hh) as [Hwl Hwb].
  pose proof Hh as (Hbl & _ & Hc & Hk & _).
  assert (opts_wf 0 (outer_opts (outer_code (msg_code _ m) (msg_options _ m)) (msg_options _ m) (oscore_wire bs ctx kid))) as Hwf.
  { apply outer_opts_wf; [by apply opts_wf_0 in Hos as [_ Ho]|done|lia]. }
  split; [|by apply parse_wire].
  rewrite (get_options_list_spec _ (outer_opts (outer_code (msg_code _ m) (msg_options _ m)) (msg_options _ m) (oscore_wire bs ctx kid))).
  - f_equal. rewrite <- (outer_opts_oscore (outer_code (msg_code _ m) (msg_options _ m)) (msg_options _ m) (oscore_wire bs ctx kid)).
    apply list_filter_iff. done.
  - by apply options_wire_bytes.
  - unfold pm_opts. by apply Options_iter_wire.
Qed.

(** The lens of an active row. *)
Lemma active_lens st h k a c :
  assoc_inv (st, h) → has_entry st k (mkEntry c (Some a) false) →
  cs_context_mut st (ns_of a) = Some (c, with_context st k (mkEntry c (Some a) false)).
Proof.
  intros Hinv Hk. assert (cs_context st (ns_of a) = Some c) as Hc by (apply (context_spec st h); [done|]; by exists k, (mkEntry c (Some a) false)).
  rewrite (context_of_mut st h) in Hc by done. destruct (cs_context_mut st (ns_of a)) as [[c0 put]|] eqn:Em; [|done].
  cbn [option_map fst] in Hc. injection Hc as ->. apply context_mut_spec in Em as (j & row & Hj & _ & Hn & _ & ->).
  destruct (namespace_row st h j k row (mkEntry c (Some a) false) Hinv Hj Hk Hn) as [-> ->]. done.
Qed.
(** What remains of [unprotect_request] without the last decoding. *)
Lemma wire_of_request pm c (out : list Z) y x :
  unprotect_request pm (c, out) = (y, x) →
  match x with
  | Ok (pm2, r) => ∃ wire, unprotect_request_wire pm (c, out) = (y, Ok (wire, r)) ∧ decode_owned wire = Ok pm2
  | Err OReplay => unprotect_request_wire pm (c, out) = (y, Err OReplay)
  | _ => True
  end.
Proof.
  unfold unprotect_request. unbind. destruct (unprotect_request_wire pm (c, out)) as [s1 [[wire r]|e| |]]; try (by intros [= <- <-]).
  - unfold decode_owned. destruct (decode_with_token wire) as [pm2|e| |] eqn:Ed; cbn [map_err]; intros [= <- <-]; try done.
    + exists wire. by rewrite Ed.
    + by destruct e.
  - intros [= <- <-]. by destruct e.
Qed.

(** The receiving side: the datagram is routed to its association and opened
    once. *)
Lemma request_opened st h k a addr c s m (sid ctx tb bs ct nc out : list Z) (seq : Z) :
  let pm := protected_pm m tb bs (context_field ctx) (Some sid) ct in
  assoc_inv (st, h) → has_entry st k (mkEntry s (Some a) false) → Association_endpoint a = Endpoint_physical addr →
  paired c s sid ctx → Code_is_request (msg_code _ m) = true → bs ≠ [] → ot_wf (msg_token _ m) →
  protectable m tb bs (context_field ctx) (Some sid) → ct ≠ [] →
  nonce (E:=OscoreError) (sc_common_iv c) sid (piv_of bs) = Ok nc →
  sealed (sc_sender_key c) nc (aad_wire sid bs []) (plain_wire m) ct →
  PartialIv_seq (E:=OscoreError) (piv_of bs) = Ok seq → replay_fresh s seq = true →
  (length (app_options false (msg_options _ m)) ≤ OPT_SLOTS)%nat → slice_fits (pm_options _ pm) → slice_fits out →
  (length (app_wire m tb) ≤ length out)%nat → (length (app_wire m tb) ≤ INNER)%nat →
  cs_inbound_route st addr pm = Ok (asn_route a) ∧
  ∃ st' o, inbound (asn_route a) pm (st, out) = ((st', splice out 0 (app_wire m tb)), Ok (Some o)) ∧ received (op_inner o) m ∧
    RequestRef_kid (E:=OscoreError) (op_request o) = Ok sid ∧ rr_piv (op_request o) = piv_of bs ∧
    cs_context st' (ns_of a) = Some (replay_accept s seq) ∧
    ∀ out3, inbound (asn_route a) pm (st', out3) = ((st', out3), Err OReplay).
Proof.
  intros pm Hinv Hk Haddr Hpair Hreq Hne Htok Hprot Hct Hnc Hsealed Hseq Hfresh Hcount Hfo Hout Hl HlI.
  destruct (protected_option m tb bs ct (context_field ctx) (Some sid) Hprot Hfo) as [Hopt Hhd]. fold pm in Hopt.
  assert (a ∈ h) as Hah by (pose proof Hinv as (_ & _ & _ & Has & _); by apply (Has k) in Hk).
  assert (Code_is_request (pm_code pm) = true) as Hpreq by (by apply outer_request).
  assert (answers st addr (mkOscoreHeader (opt_piv bs) (context_field ctx) (Some sid)) a s) as Hans.
  { split; [by exists k|]. split; [done|]. cbn [oh_kid oh_kid_context]. by apply (matches_paired c). }
  split.
  { destruct (route_exact st h addr pm _ _ Hinv ltac:(by intros ->; apply elem_of_nil in Hah) Hpreq Hopt Hhd) as [(a' & c' & Ha' & Hr & _)|[Hno _]]; [|by destruct (Hno a s)].
    by destruct (answers_once st h addr _ _ _ _ _ Hinv Ha' Hans) as [-> _]. }
  assert (pm_oscore (E:=OscoreError) pm = Ok (Some (oscore_wire bs (context_field ctx) (Some sid)))) as Hosc.
  { destruct (next_two pm _ _ Hopt) as (rest & rest' & Hn & _). unfold pm_oscore, get_option. unbind. by rewrite Hn. }
  destruct (unprotect_request_ok c s m sid ctx tb bs ct nc out seq) as (pm2 & r & Hun & Hrec & Hkid & Hrp); try done. fold pm in Hun.
  apply wire_of_request in Hun as (wire & Hwire & Hdec).
  assert (∀ st0 c0 put out0 y, cs_context_mut st0 (ns_of a) = Some (c0, put) → open_message pm (c0, out0) = y →
    inbound (asn_route a) pm (st0, out0) = ((put y.1.1, y.1.2), match y.2 with Ok o => Ok (Some o) | Err e => Err e | Panic => Panic | Diverge => Diverge end)) as Hin.
  { intros st0 c0 put out0 y Hm Hy. unfold inbound, selected_mut. unbind. unfold ns_of in Hm. rewrite Hm. cbn [is_some negb]. rewrite andb_false_r.
    rewrite Hosc. cbn [is_some]. unfold on_context. rewrite Hy. by destruct y as [[c1 o1] [o|e| |]]. }
  set (row := mkEntry s (Some a) false) in *. set (st' := with_context st k row (replay_accept s seq)).
  assert (has_entry st' k (mkEntry (replay_accept s seq) (Some a) false)) as Hk'.
  { unfold st', with_context. apply has_entry_insert. left. split_and!; [done..|]. by eapply lookup_lt_Some. }
  assert (assoc_inv (st', h)) as Hinv'.
  { eapply inv_replace; [done|exact Hk|done|]. unfold replay_accept. cbn [ent_context row]. by destruct (_ || _); [|destruct (_ <=? _)]. }
  exists st', (mkOpened pm2 wire r RsNone). split_and!; [|done..| |].
  - rewrite (Hin st s _ out ((replay_accept s seq, splice out 0 (app_wire m tb)), Ok (mkOpened pm2 wire r RsNone)) (active_lens st h k a s Hinv Hk)); [done|].
    unfold open_message. unbind. rewrite Hpreq. cbn [negb]. rewrite Hwire, Hdec. done.
  - apply (active_context st' h); [done..|by exists k].
  - intros out3. pose proof (unprotect_replayed c s m sid ctx tb bs ct out3 seq Hpair Hne Hprot Hct Hfo Hseq) as Hrp'. fold pm in Hrp'.
    apply wire_of_request in Hrp'.
    rewrite (Hin st' (replay_accept s seq) _ out3 ((replay_accept s seq, out3), Err OReplay) (active_lens st' h k a _ Hinv' Hk')).
    + cbn [fst snd]. f_equal. f_equal. exact (with_context_same st' k _ Hk').
    + unfold open_message. unbind. rewrite Hpreq. cbn [negb]. rewrite Hrp'. done.
Qed.
End receive.

Section delivery.
Context {RX TX RB TB T Q ER : Type} `{Target, CcmLaws} `{OwnedTokenLaws T} `{!EqDecision T}.
Context `{!SlotPool RX} `{!DatagramBytes RX} `{!SlotPool TX} `{!DatagramBytes TX} `{!DatagramLaws TX} `{!BufferLaws TX} `{!BodyCells T RB} `{!BodyCells T TB}.
Abbreviation Eng := (Engine RX TX RB TB T Q).
Context (TX_DATAGRAM_BYTES TX_SCRATCH : nat).
Implicit Types (tx : SlotId) (peer addr : Endpoint) (m : Message T) (en : Eng) (c s : SecurityContext T).

(** The two ends of an association: the sender's route selects [c], and the
    receiver holds [s] for the sender's address [addr] under the handle [a]. *)
Definition linked (client server : AssocStore T) peer addr c put a s (sid ctx : list Z) : Prop :=
  cs_context_mut client (ep_association peer) = Some (c, put) ∧
  (∃ k, has_entry server k (mkEntry s (Some a) false)) ∧ Association_endpoint a = Endpoint_physical addr ∧ paired c s sid ctx.
(** The next number of [c] is free and unused at [s]. *)
Definition fresh_number c s (bs : list Z) : Prop :=
  0 ≤ sc_sender_seq c < SEQ_END ∧ sc_sender_seq c < sc_sender_reserved_end c ∧ bs ≠ [] ∧
  PartialIv_from_seq (sc_sender_seq c) = Ok (piv_of bs) ∧ replay_fresh s (sc_sender_seq c) = true.

(** C2: A request sealed by one application is delivered by the other, to the
    owner of the key and once.  Encoding it into a free slot succeeds; the
    datagram in the slot decodes; the receiver routes it to the association that
    shares the sender's keys, among all the associations it has; opening it there
    yields the sender's type, code, Message ID, token, payload and options, with
    the reference that binds the answer; and the same datagram again is refused
    as a replay. *)
Theorem sealed_request_delivered en client server hs peer addr c put a s m (sid ctx tb bs out : list Z) (j : nat) tx v :
  assoc_reachable (server, hs) → linked client server peer addr c put a s sid ctx → fresh_number c s bs →
  position is_none_row (sc_live c) = Some j → Code_is_request (msg_code _ m) = true → message_typed m →
  protectable m tb bs (context_field ctx) (Some sid) →
  pool_inv (tx_of en) → 2 * Z.of_nat (pool_cap (tx_of en)) ≤ usize_max →
  slot_at (pool_view (tx_of en)) tx = Some v → sv_pinned v = false → sv_payload v = [] →
  (length (protected_wire m tb bs (context_field ctx) (Some sid) (replicate (length (plain_wire m) + TAG_LEN) 0%Z))
     ≤ Nat.min (pool_cap (tx_of en)) TX_DATAGRAM_BYTES)%nat →
  (length (app_options false (msg_options _ m)) ≤ OPT_SLOTS)%nat → slice_fits out →
  (length (app_wire m tb) ≤ length out)%nat → (length (app_wire m tb) ≤ INNER)%nat →
  ∃ en' client' wire pm server' out' o,
    app_encode_request (ER:=ER) TX_DATAGRAM_BYTES TX_SCRATCH peer tx m (en, client) = ((en', client'), Ok tt) ∧
    rewrites (tx_of en) tx (set_view_payload wire v) (tx_of en') ∧ decode_with_token wire = Ok pm ∧
    cs_inbound_route server addr pm = Ok (asn_route a) ∧
    inbound (asn_route a) pm (server, out) = ((server', out'), Ok (Some o)) ∧ received (op_inner o) m ∧
    RequestRef_kid (E:=OscoreError) (op_request o) = Ok sid ∧ rr_piv (op_request o) = piv_of bs ∧
    ∀ out3, inbound (asn_route a) pm (server', out3) = ((server', out3), Err OReplay).
Proof.
  intros Hr%reachable_inv (Hlens & [k Hk] & Haddr & Hpair) (Hseq & Hres & Hne & Hpiv & Hfresh) Hj Hreq Hm Hprot Hi Hfit Hs Hp Hempty Hlen Hcount Hout Hl HlI.
  pose proof Hprot as (Htb & _). pose proof Hm as (_ & _ & Htok & _).
  assert (context_wf c sid ctx) as Hcw.
  { destruct Hpair as (_ & _ & Hkl & Hivl & Hsid & _ & Hsl & Hsb & Hctx & _ & _ & Hcb & _). split_and!; try done. unfold in_u, SEQ_END in *. lia. }
  pose proof (request_enc_seals (ER:=ER) client (c, put) m sid ctx tb Hcw Hm Htb) as Henc.
  assert (tame (pool_cap (tx_of en)) client (st_map_err (protect_err (ER:=ER)) (on_context (c, put) (protect_request m)))) as Ht.
  { intros b Hb. destruct (Henc b ltac:(unfold slice_fits; lia)) as (f' & b' & r & -> & Hbl & Hx). cbn [fst snd]. split; [done|].
    destruct r; cbn [map_err]; try done. by destruct Hx. }
  destruct (protect_into_tx_spec TX_DATAGRAM_BYTES TX_SCRATCH en client tx v _ Hi Hs Hp Ht) as (b & Hb & Hx).
  unfold tx_limit in Hb. rewrite Hempty in Hb. cbn [is_nil] in Hb.
  destruct (protect_request_ok c s m sid ctx tb bs b j) as (c' & nc & ct & Hnc & Hsealed & Hctl & Hpr); try done; [unfold slice_fits; lia|lia|].
  unfold st_map_err, on_context in Hx. rewrite Hpr in Hx. cbn [map_err] in Hx. destruct Hx as (en' & Hinto & Hrw). rewrite take_splice_0 in Hrw.
  set (wire := protected_wire m tb bs (context_field ctx) (Some sid) ct) in *.
  assert (length wire ≤ length b)%nat as Hwl by (unfold wire; erewrite length_protected_wire; [rewrite Hb; exact Hlen|by rewrite length_replicate]).
  assert (slice_fits wire) as Hwf by (unfold slice_fits in *; lia).
  set (pm := protected_pm m tb bs (context_field ctx) (Some sid) ct) in *.
  assert (slice_fits (pm_options _ pm)) as Hfo.
  { unfold slice_fits, wire, protected_wire, msg_wire, pm, protected_pm in *. simpl. rewrite !length_app in Hwf. lia. }
  assert (PartialIv_seq (E:=OscoreError) (piv_of bs) = Ok (sc_sender_seq c)) as Hsq.
  { pose proof (from_seq_ok (sc_sender_seq c)) as Hf. unfold SEQ_END in *. rewrite (proj2 (Z.ltb_lt _ _)) in Hf by lia.
    destruct Hf as (p & Hp' & _ & Hq); [unfold in_u; lia|]. by rewrite Hpiv in Hp'; simplify_eq. }
  destruct (request_opened server hs k a addr c s m sid ctx tb bs ct nc out (sc_sender_seq c)) as (Hroute & server' & o & Hin & Hrec & Hkid & Hrp & _ & Hreplay);
    try done; [intros ->; simpl in Hctl; unfold TAG_LEN in Hctl; lia|]. fold pm in Hroute, Hin, Hreplay.
  exists en', (put c'), wire, pm, server', (splice out 0 (app_wire m tb)), o. split_and!; try done.
  - unfold app_encode_request, selected_mut. unbind. rewrite Hlens. cbn [is_some negb]. rewrite andb_false_r. cbn [map_err]. exact Hinto.
  - by apply decode_protected.
Qed.
End delivery.

(** ** Witnesses: a server with one association and its client *)
Section witness.
#[local] Existing Instance target64.

Definition ex_client_addr : Endpoint := mkEndpoint (replicate 16 7) 0 0 5683 true.
Definition ex_handle : Association := mkAssociation (Endpoint_with_association ex_client_addr 1) (replicate 32 3) 1.
Definition ex_server : AssocStore Token := mkStore [Some (mkEntry ProtectDemo.server (Some ex_handle) false); None] 1.
Definition ex_client : AssocStore Token := mkStore [Some (mkEntry ProtectDemo.client None false)] 0.

Lemma ex_server_reachable : assoc_reachable (ex_server, [ex_handle]).
Proof.
  exists 2%nat. apply rtc_once. apply (as_install _ _ ex_client_addr (replicate 32 3) 1 ProtectDemo.server); [|reflexivity].
  exists [], []. by repeat split.
Qed.
Lemma ex_client_reachable : assoc_reachable (ex_client, []).
Proof.
  exists 1%nat. apply rtc_once. apply (as_primary _ _ ProtectDemo.client); [done| |reflexivity].
  exists [1], []. by repeat split.
Qed.
Lemma ex_handle_issued : ex_handle ∈ [ex_handle].
Proof. by left. Qed.

Lemma associations_isolated_witness :
  assoc_reachable (ex_server, [ex_handle]) ∧ cs_context ex_server (ns_of ex_handle) = Some ProtectDemo.server ∧
  ∀ s' h', assoc_steps (ex_server, [ex_handle]) (s', h') → cs_is_some (T:=Token) s' = true.
Proof.
  split; [exact ex_server_reachable|].
  destruct (associations_isolated ex_server [ex_handle] ex_handle ex_server_reachable ex_handle_issued) as (_ & Hc & _ & Hs).
  split; [apply Hc; by exists 0%nat|]. intros s' h' Hst. by destruct (Hs s' h' Hst).
Defined.

(** The datagram of the client's first request. *)
Definition ex_sealed : ParsedMessage Token := protected_pm ProtectDemo.request [7; 9] [0] (context_field []) (Some []) (replicate 20 1).
Lemma inbound_route_exact_witness :
  cs_inbound_route ex_server ex_client_addr ex_sealed = Ok (asn_route ex_handle) ∧ cs_context ex_server (ns_of ex_handle) = Some ProtectDemo.server.
Proof.
  destruct (inbound_route_exact ex_server [ex_handle] ex_client_addr ex_sealed (Opt_oscore (oscore_wire [0] None (Some []))) (mkOscoreHeader (opt_piv [0]) None (Some [])))
    as [(a & c & ((k & Hk) & _) & Hr & Hc & _)|[Hno _]].
  - exact ex_server_reachable.
  - done.
  - reflexivity.
  - by vm_compute.
  - by vm_compute.
  - unfold has_entry in Hk. destruct k as [|[|k]]; [|discriminate Hk..]. injection Hk as <- <-. by split.
  - destruct (Hno ex_handle ProtectDemo.server). split; [by exists 0%nat|]. split; [done|by vm_compute].
Defined.

(** An engine with one free slot of sixty-four bytes. *)
Definition ex_room_pool : AllocDatagramPool := mkAlloc [mkAllocSlot (replicate 64 0) 0 None None] 64 (mkOcc [true] [false] 0 1).
Definition ex_room : SlotView := mkView [] None None false.
Definition ex_room_engine : Engine AllocDatagramPool AllocDatagramPool (AllocBodyPool Token) (AllocBodyPool Token) Token unit :=
  from_storage (mkMemory (ex_slot_pool ex_response (Some ex_peer_ep)) (mkTx ex_room_pool 0) (DedupTable_new 1) (SlotTable_new 1) (ExchangeTable_new 1) None).
Lemma ex_room_pool_ok : pool_inv (tx_of ex_room_engine).
Proof.
  change (ad_inv ex_room_pool). unfold ad_inv, ex_room_pool. cbn [ad_occ ad_slots ad_slot_bytes]. split_and!; [|done|done|].
  - split_and!; [done|left; simpl; lia|simpl; lia|]. intros i Hi. by destruct i as [|[|i]].
  - repeat constructor; cbn [as_buf as_len]; rewrite ?length_replicate; lia.
Qed.
Lemma ex_request_typed : message_typed ProtectDemo.request.
Proof. repeat (constructor || split); by vm_compute. Qed.
Lemma ex_notification_typed : message_typed ProtectDemo.notification.
Proof. repeat (constructor || split); by vm_compute. Qed.
Definition ex_ref : RequestRef := mkRequestRef (mkId (replicate 7 0) 0) (piv_of [0]).
Lemma ex_server_wf : store_wf ex_server.
Proof.
  intros [|[|k]] row Hk; [|discriminate Hk..]. injection Hk as <-. exists [1], []. cbn [ent_context].
  split_and!; try done; first [by repeat constructor | by apply Nat.leb_le].
Qed.

Lemma nothing_leaves_unprotected_witness :
  (encode_sending (ER:=unit) 64 64 (SendMessage (Some ex_ref)) (asn_route ex_handle) 0%nat ProtectDemo.notification (ex_room_engine, ex_server)).2 = Ok tt ∧
  left_protected ex_server (asn_route ex_handle) 0%nat ex_room ProtectDemo.notification ex_room_engine
    (encode_sending (ER:=unit) 64 64 (SendMessage (Some ex_ref)) (asn_route ex_handle) 0%nat ProtectDemo.notification (ex_room_engine, ex_server)).
Proof.
  split; [by vm_compute|]. apply (nothing_leaves_unprotected 64 64 ex_room_engine ex_server [ex_handle]).
  - exact ex_server_reachable.
  - exact ex_server_wf.
  - reflexivity.
  - exists [], [0]. split; [done|]. split; [unfold MAX_ID_LEN; simpl; lia|]. split; [done|unfold MAX_PIV_LEN; simpl; lia].
  - exact ex_notification_typed.
  - exact ex_room_pool_ok.
  - by vm_compute.
  - reflexivity.
  - reflexivity.
Defined.

Lemma nothing_enters_unverified_witness :
  let parsed := mkParsed Token (mkHeader 1 Confirmable 2 Code_GET 77) ex_token [] [] in
  inbound (asn_route ex_handle) parsed (ex_server, replicate 64 0) = ((ex_server, replicate 64 0), Err OUnprotected) ∧
  (ex_server = ex_server ∨ ∃ c put plain seq, cs_context_mut ex_server 1 = Some (c, put) ∧ authenticated c parsed plain ∧
     replay_fresh c seq = true ∧ ex_server = put (replay_accept c seq)).
Proof.
  intros parsed. assert (inbound (asn_route ex_handle) parsed (ex_server, replicate 64 0) = ((ex_server, replicate 64 0), Err OUnprotected)) as Hin by (by vm_compute).
  split; [exact Hin|]. exact (proj1 (nothing_enters_unverified ex_server (asn_route ex_handle) parsed _ _ _ _ eq_refl Hin)).
Defined.

Lemma sealed_request_delivered_witness :
  ∃ en' client' wire pm server' out' o,
    app_encode_request (ER:=unit) 64 64 ex_client_addr 0%nat ProtectDemo.request (ex_room_engine, ex_client) = ((en', client'), Ok tt) ∧
    rewrites (tx_of ex_room_engine) 0%nat (set_view_payload wire ex_room) (tx_of en') ∧ decode_with_token wire = Ok pm ∧
    cs_inbound_route ex_server ex_client_addr pm = Ok (asn_route ex_handle) ∧
    inbound (asn_route ex_handle) pm (ex_server, replicate 32 0) = ((server', out'), Ok (Some o)) ∧ received (op_inner o) ProtectDemo.request.
Proof.
  destruct (sealed_request_delivered (ER:=unit) 64 64 ex_room_engine ex_client ex_server [ex_handle] ex_client_addr ex_client_addr ProtectDemo.client
    (with_context ex_client 0 (mkEntry ProtectDemo.client None false)) ex_handle ProtectDemo.server ProtectDemo.request [] [] [7; 9] [0] (replicate 32 0) 0 0%nat ex_room)
    as (en' & client' & wire & pm & server' & out' & o & H1 & H2 & H3 & H4 & H5 & H6 & _).
  - exact ex_server_reachable.
  - split; [reflexivity|]. split; [by exists 0%nat|]. split; [reflexivity|exact ProtectDemo.request_paired].
  - split; [split; [apply Z.le_refl|reflexivity]|]. split; [reflexivity|]. split; [discriminate|]. by split.
  - reflexivity.
  - reflexivity.
  - exact ex_request_typed.
  - exact ProtectDemo.request_protectable.
  - exact ex_room_pool_ok.
  - by vm_compute.
  - reflexivity.
  - reflexivity.
  - reflexivity.
  - by apply Nat.leb_le.
  - by apply Nat.leb_le.
  - by vm_compute.
  - by apply Nat.leb_le.
  - by apply Nat.leb_le.
  - exists en', client', wire, pm, server', out', o. exact (conj H1 (conj H2 (conj H3 (conj H4 (conj H5 H6))))). 
Defined.
End witness.
