(* ===== verification/AppPath.v ===== *)
(** * Requests and method routers

    [src/app/request.rs] (paths, the borrowed view of one inbound request)
    and [src/app/routing.rs] (the methods, the table of handlers of one path,
    the snapshots of observations).  A handler is the application's own
    function; text is its UTF-8 bytes.  Code that indexes a fixed array
    returns [res], since indexing could panic. *)
From Stdlib Require Import String.
From S2P Require Import Prelude Errors MsgTypes Options Encode Decode OptionsBuilder OptionValues MessageOptions MissingBlocks.
From S2P Require Import Occupancy Pending DatagramPool PendingCons SlotTable Dedup Observe Block BodyPool Exchange Engine.
From S2P Require Import AsciiText Problem AppIdentity Transport AppSend AppResponse AppAssociations.

(** ** Paths *)
Definition MAX_PATH_SEGMENTS : nat := 8.
Inductive PathError : Type := PathBadUtf8 | PathTooLong | PathEmptySegment | PathDotSegment.
#[export] Instance PathError_eq_dec : EqDecision PathError.
Proof. solve_decision. Defined.

Definition reject_dot_segment (segment : list Z) : res PathError unit :=
  if is_dots segment then Err PathDotSegment else Ok tt.

(** The loop of [path_from_segments] and of [Path::from_segments]. *)
Fixpoint store_segments (i : nat) (segments : list (list Z)) : st (list (list Z)) PathError unit :=
  match segments with
  | [] => mret tt
  | segment :: segments =>
      if is_nil segment then st_fail PathEmptySegment
      else
        st_lift (reject_dot_segment segment);;
        st_upd (set_idx i segment);;
        store_segments (S i) segments
  end.
Definition path_from_segments (segments : list (list Z)) : st (list (list Z)) PathError nat :=
  out ← st_get;
  if (length out <? length segments)%nat then st_fail PathTooLong
  else store_segments 0 segments;; mret (length segments).

(** [str::trim_start_matches] of a character. *)
Fixpoint trim_start (c : Z) (s : list Z) : list Z :=
  match s with b :: s' => if b =? c then trim_start c s' else s | [] => [] end.

Fixpoint split_pieces_loop (n : nat) (pieces : list (list Z)) : st (list (list Z)) PathError nat :=
  match pieces with
  | [] => mret n
  | segment :: pieces =>
      if is_nil segment then st_fail PathEmptySegment
      else
        st_lift (reject_dot_segment segment);;
        out ← st_get;
        if (length out <=? n)%nat then st_fail PathTooLong
        else st_upd (set_idx n segment);; split_pieces_loop (S n) pieces
  end.
Definition split_path (path : list Z) : st (list (list Z)) PathError nat :=
  let rest := trim_start 47 path in
  if is_nil rest then mret 0%nat else split_pieces_loop 0 (split 47 rest).

(** [IntoPath]: a slice of segments, or one slash-separated string. *)
Inductive IntoPath : Type := PathSegments (segments : list (list Z)) | PathText (path : list Z).
Definition fill_path (path : IntoPath) : st (list (list Z)) PathError nat :=
  match path with PathSegments segments => path_from_segments segments | PathText path => split_path path end.

Record Path : Type := mkPath { pa_segs : list (list Z); pa_len : Z }.
Definition Path_empty : Path := mkPath (replicate MAX_PATH_SEGMENTS []) 0.
Definition Path_from_segments (segments : list (list Z)) : res PathError Path :=
  if (MAX_PATH_SEGMENTS <? length segments)%nat then Err PathTooLong
  else
    let '(segs, r) := store_segments 0 segments (pa_segs Path_empty) in
    r;; mret (mkPath segs (wrap 8 (Z.of_nat (length segments)))).

Fixpoint message_segments (path : Path) (values : list (res ValueError (list Z))) : res PathError Path :=
  match values with
  | [] => mret path
  | value :: values =>
      segment ← map_err (fun _ => PathBadUtf8) value;
      reject_dot_segment segment;;
      let i := Z.to_nat (pa_len path) in
      if (MAX_PATH_SEGMENTS <=? i)%nat then Err PathTooLong
      else
        segs ← set_idx i segment (pa_segs path);
        len ← from_option Ok Panic (checked_add 8 (pa_len path) 1);
        message_segments (mkPath segs len) values
  end.
Definition Path_from_message `{Target} {T} (parsed : ParsedMessage T) : res PathError Path :=
  values ← pm_uri_path parsed;
  message_segments Path_empty values.

Definition segments {E} (path : Path) : res E (list (list Z)) := prefix_of (pa_segs path) (Z.to_nat (pa_len path)).
Definition path_matches {E} (path : Path) (other : list (list Z)) : res E bool := segs ← segments path; mret (eqb segs other).

Definition path_from_into (path : IntoPath) : res PathError Path :=
  let '(segs, r) := fill_path path (replicate MAX_PATH_SEGMENTS []) in
  n ← r;
  segments ← ok_or (if (n <=? length segs)%nat then Some (take n segs) else None) PathTooLong;
  Path_from_segments segments.

(** ** Methods *)
Inductive Method : Type := Get | Post | Put | Delete | Fetch | Patch | IPatch.
#[export] Instance Method_eq_dec : EqDecision Method.
Proof. solve_decision. Defined.

Definition Method_from_code (code : Code) : option Method :=
  if code =? Code_GET then Some Get else if code =? Code_POST then Some Post else if code =? Code_PUT then Some Put
  else if code =? Code_DELETE then Some Delete else if code =? Code_FETCH then Some Fetch
  else if code =? Code_PATCH then Some Patch else if code =? Code_IPATCH then Some IPatch else None.
Definition Method_code (m : Method) : Code :=
  match m with
  | Get => Code_GET | Post => Code_POST | Put => Code_PUT | Delete => Code_DELETE
  | Fetch => Code_FETCH | Patch => Code_PATCH | IPatch => Code_IPATCH
  end.
Definition Method_index (m : Method) : nat :=
  match m with Get => 0 | Post => 1 | Put => 2 | Delete => 3 | Fetch => 4 | Patch => 5 | IPatch => 6 end.
Definition METHOD_COUNT : nat := 7.

(** ** Requests *)
Record Request (T : Type) : Type := mkRequest {
  rq_message : ParsedMessage T;
  rq_path : Path;
  rq_peer : Endpoint;
  rq_association : option Association;
  rq_method : option Method;
  rq_body : option (list Z);
  rq_retained_if_none_match : bool
}.
Arguments mkRequest {T} _ _ _ _ _ _ _.
Arguments rq_message {T} _.
Arguments rq_path {T} _.
Arguments rq_peer {T} _.
Arguments rq_association {T} _.
Arguments rq_method {T} _.
Arguments rq_body {T} _.
Arguments rq_retained_if_none_match {T} _.

Section request.
Context {T : Type} `{Target}.
Implicit Types (q : Request T).

Definition from_decoded (message : ParsedMessage T) (peer : Endpoint) (body : option (list Z)) : res PathError (Request T) :=
  path ← Path_from_message message;
  mret (mkRequest message path peer None (Method_from_code (pm_code message)) body false).
Definition with_retained_if_none_match q (retained : bool) : Request T :=
  mkRequest (rq_message q) (rq_path q) (rq_peer q) (rq_association q) (rq_method q) (rq_body q) retained.
Definition with_body q (body : option (list Z)) : Request T :=
  mkRequest (rq_message q) (rq_path q) (rq_peer q) (rq_association q) (rq_method q) body (rq_retained_if_none_match q).
Definition with_association q (association : option Association) : Request T :=
  mkRequest (rq_message q) (rq_path q) (rq_peer q) association (rq_method q) (rq_body q) (rq_retained_if_none_match q).

Definition request_path {E} q : res E (list (list Z)) := segments (rq_path q).
Definition request_peer q : Endpoint := Endpoint_physical (rq_peer q).
Definition has_body q : bool := is_some (rq_body q).
Definition request_if_none_match {E} q : res E bool :=
  if rq_retained_if_none_match q then mret true else pm_if_none_match (rq_message q).
Definition request_precondition {E} q (exist : bool) (etag : option (list Z)) : res E Precondition :=
  if rq_retained_if_none_match q && exist then mret FailedIfNoneMatch
  else
    result ← precondition (rq_message q) exist etag;
    mret (match result with
          | Unconditional => if rq_retained_if_none_match q then Satisfied else Unconditional
          | result => result
          end).
End request.

(** ** Routers *)
Definition HandlerFn (T : Type) : Type := Request T → Response T.
Definition ObserveSource (T : Type) : Type := unit → Response T.
Inductive SnapshotSource (T : Type) : Type := Plain (source : ObserveSource T) | Selected (source : HandlerFn T).
Arguments Plain {T} _.
Arguments Selected {T} _.

Record MethodRouter (T : Type) : Type := mkRouter {
  mr_handlers : list (option (HandlerFn T));
  mr_observe : option (SnapshotSource T)
}.
Arguments mkRouter {T} _ _.
Arguments mr_handlers {T} _.
Arguments mr_observe {T} _.

Section router.
Context {T : Type} `{Target}.
Implicit Types (m : MethodRouter T).

(** [SnapshotSource::snapshot]: a source that selects is given the request
    retained with the interest. *)
Definition snapshot_of `{OwnedToken T} {Q E} (source : SnapshotSource T) (interest : ObserveInterest T Q)
    (association : option Association) : res E (option (Response T)) :=
  match source with
  | Plain source => mret (Some (source tt))
  | Selected source =>
      match oi_selection interest with
      | None => mret None
      | Some selection =>
          bytes ← slice_idx (sel_bytes selection) 0 (Z.to_nat (sel_len selection));
          match decode_with_token bytes with
          | Ok parsed =>
              match from_decoded parsed (Endpoint_physical (ok_endpoint (oi_key interest))) None with
              | Ok request => mret (Some (source (with_association request association)))
              | Err _ => mret None
              | Panic => Panic
              | Diverge => Diverge
              end
          | Err _ => mret None
          | Panic => Panic
          | Diverge => Diverge
          end
      end
  end.

Definition MethodRouter_new : MethodRouter T := mkRouter (replicate METHOD_COUNT None) None.
Definition router_observe m (source : ObserveSource T) : MethodRouter T := mkRouter (mr_handlers m) (Some (Plain source)).
Definition router_observe_selected m (source : HandlerFn T) : MethodRouter T := mkRouter (mr_handlers m) (Some (Selected source)).
Definition on {E} m (method : Method) (handler : HandlerFn T) : res E (MethodRouter T) :=
  handlers ← set_idx (Method_index method) (Some handler) (mr_handlers m); mret (mkRouter handlers (mr_observe m)).
Definition router_get {E} m (handler : HandlerFn T) : res E (MethodRouter T) := on m Get handler.
Definition router_post {E} m (handler : HandlerFn T) : res E (MethodRouter T) := on m Post handler.
Definition router_put {E} m (handler : HandlerFn T) : res E (MethodRouter T) := on m Put handler.
Definition router_delete {E} m (handler : HandlerFn T) : res E (MethodRouter T) := on m Delete handler.
Definition router_fetch {E} m (handler : HandlerFn T) : res E (MethodRouter T) := on m Fetch handler.
Definition router_patch {E} m (handler : HandlerFn T) : res E (MethodRouter T) := on m Patch handler.
Definition router_ipatch {E} m (handler : HandlerFn T) : res E (MethodRouter T) := on m IPatch handler.

(** [Response::problem(Code::METHOD_NOT_ALLOWED).title("Method Not Allowed")]. *)
Definition not_allowed {E} : res E (Response T) := r ← Response_problem Code_METHOD_NOT_ALLOWED; title r (lit "Method Not Allowed").
Definition router_call {E} m (method : Method) (request : Request T) : res E (Response T) :=
  handler ← idx (mr_handlers m) (Method_index method);
  match handler with Some handler => mret (handler request) | None => not_allowed end.
End router.
