(* ===== verification/AppSite.v ===== *)
(** * The site

    [src/app/site.rs]: the bounded table of routes, the dispatch of a request
    to its handler, and the catalog of [/.well-known/core], which is written
    into scratch storage of the caller. *)
From Stdlib Require Import String.
From S2P Require Import Prelude Errors MsgTypes Options Encode Decode OptionsBuilder OptionValues MessageOptions MissingBlocks.
From S2P Require Import Occupancy Pending DatagramPool PendingCons SlotTable Dedup Observe Block BodyPool Exchange Engine.
From S2P Require Import AsciiText LinkFormat Problem AppIdentity Transport AppSend AppResponse AppAssociations AppPath.

Inductive RouteError : Type := RoutePath (e : PathError) | RouteFull | RouteNotFound | RouteMetadata (e : LinkError).

(** ** Links *)
Definition uri_path_byte_is_literal (b : Z) : bool := is_ascii_alphanumeric b || one_of (lit "-._~!$&'()*+,;=:@") b.

Section links.
Context `{Target}.

Fixpoint segment_bytes (limit n : nat) (segment : list Z) : option nat :=
  match segment with
  | [] => Some n
  | byte :: segment =>
      n ← usize_checked_add n (if uri_path_byte_is_literal byte then 1 else 3);
      if (n <=? limit)%nat then segment_bytes limit n segment else None
  end.
Fixpoint segments_bytes (limit total : nat) (segs : list (list Z)) : option nat :=
  match segs with
  | [] => Some total
  | segment :: segs =>
      total ← usize_checked_add total 1;
      if (limit <? total)%nat then None
      else total ← segment_bytes limit total segment; segments_bytes limit total segs
  end.
Definition link_bytes (segs : list (list Z)) (limit : nat) : option nat :=
  if is_nil segs then if (3 <=? limit)%nat then Some 3%nat else None else segments_bytes limit 2 segs.

Definition HEX : list Z := lit "0123456789ABCDEF".
(** [buf[*n] = byte; *n += 1]. *)
Definition put_byte {E} (byte : Z) : st (list Z * nat) E unit :=
  '(buf, n) ← st_get;
  buf ← st_lift (set_idx n byte buf);
  st_put (buf, (n + 1)%nat).
Definition put_escape {E} (byte : Z) : st (list Z * nat) E unit :=
  '(buf, n) ← st_get;
  buf ← st_lift (set_idx n 37 buf);
  high ← st_lift (idx HEX (Z.to_nat (Z.shiftr byte 4)));
  buf ← st_lift (set_idx (n + 1) high buf);
  low ← st_lift (idx HEX (Z.to_nat (Z.land byte 15)));
  buf ← st_lift (set_idx (n + 2) low buf);
  st_put (buf, (n + 3)%nat).
Fixpoint put_segment {E} (segment : list Z) : st (list Z * nat) E unit :=
  match segment with
  | [] => mret tt
  | byte :: segment => (if uri_path_byte_is_literal byte then put_byte byte else put_escape byte);; put_segment segment
  end.
Fixpoint put_segments {E} (segs : list (list Z)) : st (list Z * nat) E unit :=
  match segs with [] => mret tt | segment :: segs => put_byte 47;; put_segment segment;; put_segments segs end.

(** [write_link] of this file; that of [src/link_format.rs] takes a target that is encoded already. *)
Definition write_path_link {E} (segs : list (list Z)) : st (list Z * nat) E bool :=
  '(buf, n) ← st_get;
  match link_bytes segs (length buf - n) with
  | None => mret false
  | Some _ =>
      put_byte 60;;
      (if is_nil segs then put_byte 47 else put_segments segs);;
      put_byte 62;;
      mret true
  end.

(** Identity of a catalog: 32-bit FNV-1a. *)
Definition catalog_etag (body : list Z) : list Z :=
  be_bytes 4 (foldl (fun hash byte => wrapping_mul 32 (Z.lxor hash byte) 16777619) 2166136261 body).
End links.

(** ** The table *)
Record SiteEntry (T : Type) : Type := mkSiteEntry { se_path : Path; se_methods : MethodRouter T; se_metadata : option Metadata }.
Arguments mkSiteEntry {T} _ _ _.
Arguments se_path {T} _.
Arguments se_methods {T} _.
Arguments se_metadata {T} _.

Record Site (T : Type) : Type := mkSite { si_entries : list (option (SiteEntry T)); si_len : nat; si_well_known : bool }.
Arguments mkSite {T} _ _ _.
Arguments si_entries {T} _.
Arguments si_len {T} _.
Arguments si_well_known {T} _.

Section site.
Context {T : Type} `{Target}.
Implicit Types (s : Site T) (e : SiteEntry T).

Definition Site_new (N : nat) : Site T := mkSite (replicate N None) 0 false.
Definition site_is_full s : bool := (length (si_entries s) <=? si_len s)%nat.
Definition well_known_core s : Site T := mkSite (si_entries s) (si_len s) true.
Definition with_entry s (k : nat) (entry : option (SiteEntry T)) (len : nat) : Site T :=
  mkSite (<[k := entry]> (si_entries s)) len (si_well_known s).

(** The first occupied slot whose path has these segments. *)
Fixpoint path_position {E} (segs : list (list Z)) (es : list (option (SiteEntry T))) : res E (option nat) :=
  match es with
  | [] => mret None
  | None :: es => k ← path_position segs es; mret (option_map S k)
  | Some e :: es =>
      same ← path_matches (se_path e) segs;
      if (same : bool) then mret (Some 0%nat) else k ← path_position segs es; mret (option_map S k)
  end.
(** [path_position] returns an occupied slot. *)
Definition entry_at {E} s (k : nat) : res E (SiteEntry T) :=
  match si_entries s !! k with Some (Some e) => Ok e | _ => Panic end.

Definition insert_route (path : Path) (methods : MethodRouter T) : st (Site T) RouteError unit :=
  s ← st_get;
  segs ← st_lift (segments path);
  found ← st_lift (path_position segs (si_entries s));
  match found with
  | Some k =>
      e ← st_lift (entry_at s k);
      st_put (with_entry s k (Some (mkSiteEntry (se_path e) methods (se_metadata e))) (si_len s))
  | None =>
      if (length (si_entries s) <=? si_len s)%nat then st_fail RouteFull
      else
        k ← st_lift (ok_or (position (fun entry => negb (is_some entry)) (si_entries s)) RouteFull);
        len ← st_lift (from_option Ok Panic (usize_checked_add (si_len s) 1));
        st_put (with_entry s k (Some (mkSiteEntry path methods None)) len)
  end.
Definition try_route (path : IntoPath) (methods : MethodRouter T) : st (Site T) RouteError unit :=
  path ← st_lift (map_err RoutePath (path_from_into path));
  insert_route path methods.
(** [route]: a refusal panics. *)
Definition route {E} (path : IntoPath) (methods : MethodRouter T) : st (Site T) E unit := fun s =>
  match try_route path methods s with
  | (s, Ok u) => (s, Ok u)
  | (s, Diverge) => (s, Diverge)
  | (s, _) => (s, Panic)
  end.

Definition set_discovery_metadata (path : IntoPath) (metadata : option Metadata) : st (Site T) RouteError unit :=
  path ← st_lift (map_err RoutePath (path_from_into path));
  (match metadata with
   | Some metadata => st_lift (map_err RouteMetadata (Metadata_encoded_len metadata));; mret tt
   | None => mret tt
   end);;
  s ← st_get;
  segs ← st_lift (segments path);
  found ← st_lift (path_position segs (si_entries s));
  k ← st_lift (ok_or found RouteNotFound);
  e ← st_lift (entry_at s k);
  st_put (with_entry s k (Some (mkSiteEntry (se_path e) (se_methods e) metadata)) (si_len s)).

Definition contains_path {E} s (path : Path) : res E bool :=
  segs ← segments path; found ← path_position segs (si_entries s); mret (is_some found).
Definition remove_path {E} (path : Path) : st (Site T) E bool :=
  s ← st_get;
  segs ← st_lift (segments path);
  found ← st_lift (path_position segs (si_entries s));
  match found with
  | None => mret false
  | Some k =>
      len ← st_lift (from_option Ok Panic (usize_checked_sub (si_len s) 1));
      st_put (with_entry s k None len);;
      mret true
  end.
Definition remove_route (path : IntoPath) : st (Site T) PathError bool :=
  path ← st_lift (path_from_into path);
  remove_path path.

Definition observe_resource {E} s (segs : list (list Z)) : res E ObserveResource :=
  found ← path_position segs (si_entries s);
  mret (match found with Some k => app_route (Z.of_nat k) | None => RESOURCE_NONE end).
Definition observe_source s (resource : ObserveResource) : option (SnapshotSource T) :=
  find_map (fun '(k, entry) =>
    e ← entry; if app_route (Z.of_nat k) =? resource then mr_observe (se_methods e) else None)
    (zip (seq 0 (length (si_entries s))) (si_entries s)).

(** ** The catalog *)

(** [metadata.write_into(&mut buf[n..])], with its count added to [n]. *)
Definition put_metadata {E} (metadata : Metadata) : st (list Z * nat) E bool := fun '(buf, n) =>
  if (n <=? length buf)%nat then
    let '(tail, r) := Metadata_write_into metadata (drop n buf) in
    let buf := take n buf ++ tail in
    match r with
    | Ok written => ((buf, (n + written)%nat), Ok true)
    | Err _ => ((buf, n), Ok false)
    | Panic => ((buf, n), Panic)
    | Diverge => ((buf, n), Diverge)
    end
  else ((buf, n), Panic).

(** [false]: the catalog does not fit. *)
Fixpoint put_links {E} (first : bool) (es : list (SiteEntry T)) : st (list Z * nat) E bool :=
  match es with
  | [] => mret true
  | e :: es =>
      '(buf, n) ← st_get;
      if negb first && (length buf <=? n)%nat then mret false
      else
        (if first then mret tt else put_byte 44);;
        segs ← st_lift (segments (se_path e));
        fits ← write_path_link segs;
        if negb (fits : bool) then mret false
        else
          fits ← (match se_metadata e with Some metadata => put_metadata metadata | None => mret true end);
          if negb (fits : bool) then mret false else put_links false es
  end.
Definition CF_LINK_FORMAT : Z := 40.
Definition link_format {E} s : st (list Z) E (Response T) := fun storage =>
  let cap := Nat.min RESPONSE_BODY (length storage) in
  let '((buf, n), r) := put_links true (omap id (si_entries s)) (take cap storage, 0%nat) in
  (buf ++ drop cap storage,
   fits ← r;
   if negb (fits : bool) then mret internal_error
   else
     body ← slice_idx buf 0 n;
     response ← payload_copy_full (Response_new Code_CONTENT) body;
     etag (content_format response CF_LINK_FORMAT) (catalog_etag body)).

(** ** Dispatch *)
Definition WELL_KNOWN : list (list Z) := [lit ".well-known"; lit "core"].
Definition site_not_found {E} : res E (Response T) := r ← Response_problem Code_NOT_FOUND; title r (lit "Not Found").

(** [dispatch_with_catalog]; the state is the scratch storage. *)
Definition dispatch {E} s (request : Request T) : st (list Z) E (Response T) :=
  segs ← st_lift (request_path request);
  found ← st_lift (path_position segs (si_entries s));
  match found with
  | Some k =>
      e ← st_lift (entry_at s k);
      st_lift (match rq_method request with
               | Some method => router_call (se_methods e) method request
               | None => not_allowed
               end)
  | None =>
      if si_well_known s && eqb segs WELL_KNOWN then
        match rq_method request with
        | Some Get => link_format s
        | _ => st_lift not_allowed
        end
      else st_lift site_not_found
  end.
End site.

Definition LINK_FORMAT_PER_ROUTE : nat := 24.
Definition DEFAULT_ROUTES : nat := 8.
Definition link_format_capacity `{Target} (N : nat) : nat :=
  let n := match usize_checked_mul N LINK_FORMAT_PER_ROUTE with Some n => n | None => Z.to_nat usize_max end in
  if (n <? INLINE_PAYLOAD)%nat then INLINE_PAYLOAD else if (RESPONSE_BODY <? n)%nat then RESPONSE_BODY else n.

(** [LinkFormatScratch::new().as_mut()]: the zeroed storage a poll dispatches with. *)
Definition LinkFormatScratch_new `{Target} (N : nat) : list Z :=
  let chunks := match usize_checked_mul N LINK_FORMAT_PER_ROUTE with Some n => n | None => Z.to_nat usize_max end in
  let size := if (INLINE_PAYLOAD <=? chunks)%nat then (N * LINK_FORMAT_PER_ROUTE)%nat else INLINE_PAYLOAD in
  take (Nat.min (link_format_capacity N) size) (replicate size 0).
