(* ===== verification/AppSiteLaws.v ===== *)
(** * The site is a bounded map of paths to handlers

    Theorems on [AppPath] and [AppSite]: how text becomes a path, that a site
    keeps exactly the routes it was given, under any sequence of
    registrations, removals and metadata, and that its catalog is read back
    as those routes. *)
From Stdlib Require Import String.
From stdpp Require Import gmap.
From S2P Require Import Prelude Errors MsgTypes Options Encode Decode OptionsBuilder OptionValues MessageOptions MissingBlocks.
From S2P Require Import Codec Occupancy Pending DatagramPool PendingCons SlotTable Dedup Observe Block BodyPool Exchange Engine.
From S2P Require Import AsciiText LinkFormat Uri Problem ProblemRound AppIdentity Transport AppSend AppResponse AppResponseLaws.
From S2P Require Import AppAssociations AppPath AppSite.

(** ** Paths *)
Definition seg_error (segment : list Z) : option PathError :=
  if is_nil segment then Some PathEmptySegment else if is_dots segment then Some PathDotSegment else None.
Definition refused_as (o : option PathError) : res PathError unit := match o with Some e => Err e | None => Ok tt end.

(** The path that holds [segs]. *)
Definition path_of (segs : list (list Z)) : Path := mkPath (splice (replicate MAX_PATH_SEGMENTS []) 0 segs) (Z.of_nat (length segs)).
(** What the code calls a path: at most eight segments, each a proper one. *)
Definition segs_ok (segs : list (list Z)) : Prop := (length segs ≤ MAX_PATH_SEGMENTS)%nat ∧ find_map seg_error segs = None.

Lemma segments_path_of {E} segs : (length segs ≤ MAX_PATH_SEGMENTS)%nat → segments (E:=E) (path_of segs) = Ok segs.
Proof.
  intros Hl. unfold segments, prefix_of, path_of. cbn [pa_segs pa_len]. rewrite Nat2Z.id.
  rewrite length_splice by (rewrite length_replicate; lia). rewrite length_replicate, (proj2 (Nat.leb_le _ _)) by done.
  f_equal. unfold splice. rewrite take_0. cbn [app]. by apply take_app_length.
Qed.

Lemma seg_error_cons seg segs :
  find_map seg_error (seg :: segs) =
    if is_nil seg then Some PathEmptySegment else if is_dots seg then Some PathDotSegment else find_map seg_error segs.
Proof. cbn. unfold seg_error at 1. by destruct (is_nil seg), (is_dots seg). Qed.
Lemma store_segments_spec segs : ∀ i out, (i + length segs ≤ length out)%nat →
  ∃ out', store_segments i segs out = (out', refused_as (find_map seg_error segs)) ∧ length out' = length out ∧
    (find_map seg_error segs = None → out' = splice out i segs).
Proof.
  induction segs as [|seg segs IH]; intros i out Hl; [exists out; by rewrite splice_nil|].
  cbn [store_segments]. rewrite seg_error_cons. destruct (is_nil seg); [by exists out|].
  unfold reject_dot_segment. unbind. destruct (is_dots seg); [by exists out|]. cbn [length] in Hl.
  unfold st_upd. unbind. rewrite set_idx_ok by lia. destruct (IH (S i) (splice out i [seg])) as (out' & -> & Hlen & Hs).
  { rewrite length_splice by (simpl; lia). lia. }
  exists out'. split; [done|]. rewrite Hlen, length_splice by (simpl; lia). split; [done|]. intros Hn. rewrite (Hs Hn).
  change (seg :: segs) with ([seg] ++ segs). apply splice_splice; simpl; lia.
Qed.

Lemma path_from_segments_ok segs : (length segs ≤ MAX_PATH_SEGMENTS)%nat →
  Path_from_segments segs = (refused_as (find_map seg_error segs);; mret (path_of segs)).
Proof.
  intros Hl. unfold Path_from_segments. rewrite (proj2 (Nat.ltb_ge _ _)) by done.
  destruct (store_segments_spec segs 0 (pa_segs Path_empty)) as (out & -> & _ & Hs); [exact Hl|].
  destruct (find_map seg_error segs); [done|]. cbn. rewrite (Hs eq_refl). unfold path_of. f_equal. f_equal.
  apply wrap_small. unfold in_u, MAX_PATH_SEGMENTS in *. lia.
Qed.

Lemma from_into_segments segs :
  path_from_into (PathSegments segs) =
    if (MAX_PATH_SEGMENTS <? length segs)%nat then Err PathTooLong else refused_as (find_map seg_error segs);; mret (path_of segs).
Proof.
  unfold path_from_into, fill_path, path_from_segments. unbind. rewrite length_replicate.
  destruct (Nat.ltb_spec MAX_PATH_SEGMENTS (length segs)) as [|Hl]; [done|].
  destruct (store_segments_spec segs 0 (replicate MAX_PATH_SEGMENTS [])) as (out & -> & Hlen & Hs); [by rewrite length_replicate|].
  destruct (find_map seg_error segs) eqn:Ef; [done|]. cbn. rewrite Hlen, length_replicate, (proj2 (Nat.leb_le _ _)) by done. cbn [ok_or].
  rewrite (Hs eq_refl). unfold splice. rewrite take_0. cbn [app]. rewrite take_app_length. unbind.
  rewrite path_from_segments_ok by done. by rewrite Ef.
Qed.

(** What [split_path] does with the pieces: the first fault decides, and a
    ninth piece is only counted once it is a proper segment. *)
Lemma split_pieces_spec pieces : ∀ n out, (n ≤ length out)%nat →
  ∃ out', split_pieces_loop n pieces out =
    (out', match find_map seg_error (take (S (length out - n)) pieces) with
           | Some e => Err e
           | None => if (length out <? n + length pieces)%nat then Err PathTooLong else Ok (n + length pieces)%nat
           end) ∧
    (find_map seg_error pieces = None → (n + length pieces ≤ length out)%nat → out' = splice out n pieces).
Proof.
  induction pieces as [|seg pieces IH]; intros n out Hn.
  { exists out. cbn [split_pieces_loop take find_map length]. rewrite Nat.add_0_r, (proj2 (Nat.ltb_ge _ _)) by done. by rewrite splice_nil. }
  cbn [split_pieces_loop take]. rewrite !seg_error_cons. destruct (is_nil seg); [by exists out|].
  unfold reject_dot_segment. unbind. destruct (is_dots seg); [by exists out|]. cbn [length].
  destruct (Nat.leb_spec (length out) n).
  { exists out. replace (length out - n)%nat with 0%nat by lia. cbn [take find_map]. rewrite (proj2 (Nat.ltb_lt _ _)) by lia. split; [done|lia]. }
  unfold st_upd. unbind. rewrite set_idx_ok by lia. destruct (IH (S n) (splice out n [seg])) as (out' & -> & Hs).
  { rewrite length_splice by (simpl; lia). lia. }
  exists out'. rewrite !length_splice in * by (simpl; lia). replace (length out - n)%nat with (S (length out - S n)) by lia.
  rewrite Nat.add_succ_r. split; [done|]. intros Hf Hl. rewrite Hs by (done || lia).
  change (seg :: pieces) with ([seg] ++ pieces). apply splice_splice; simpl; lia.
Qed.

Lemma find_map_take {A B} (f : A → option B) n l : find_map f l = None → find_map f (take n l) = None.
Proof. rewrite !find_map_None. by apply Forall_take. Qed.

(** The pieces of a text path: none when it is only slashes. *)
Definition pieces (text : list Z) : list (list Z) := let rest := trim_start 47 text in if is_nil rest then [] else split 47 rest.

Lemma from_into_text text :
  path_from_into (PathText text) =
    match find_map seg_error (take (S MAX_PATH_SEGMENTS) (pieces text)) with
    | Some e => Err e
    | None => if (MAX_PATH_SEGMENTS <? length (pieces text))%nat then Err PathTooLong else Ok (path_of (pieces text))
    end.
Proof.
  unfold path_from_into, fill_path, split_path, pieces. destruct (is_nil (trim_start 47 text)); [done|].
  set (ps := split 47 (trim_start 47 text)).
  destruct (split_pieces_spec ps 0 (replicate MAX_PATH_SEGMENTS [])) as (out & -> & Hs); [rewrite length_replicate; lia|].
  rewrite length_replicate in *. rewrite Nat.sub_0_r, Nat.add_0_l in *.
  destruct (find_map seg_error (take (S MAX_PATH_SEGMENTS) ps)) eqn:Ef; [done|].
  destruct (Nat.ltb_spec MAX_PATH_SEGMENTS (length ps)) as [|Hl]; [done|]. cbn.
  rewrite take_ge in Ef by lia. rewrite (Hs Ef Hl), length_splice by (by rewrite length_replicate).
  rewrite length_replicate, (proj2 (Nat.leb_le _ _)) by done. cbn [ok_or]. unfold splice. rewrite take_0. cbn [app]. rewrite take_app_length. unbind.
  rewrite path_from_segments_ok by done. by rewrite Ef.
Qed.

(** A path text and its segments name the same path. *)
Lemma from_into_joined segs : segs_ok segs → Forall (fun s => 47 ∉ s) segs → path_from_into (PathText (47 :: join 47 segs)) = Ok (path_of segs).
Proof.
  intros [Hl Hf] Hs. assert (pieces (47 :: join 47 segs) = segs) as Hp.
  { unfold pieces. cbn. destruct segs as [|seg segs]; [done|].
    assert (∃ b r, join 47 (seg :: segs) = b :: r ∧ b ≠ 47) as (b & r & Hj & Hb).
    { cbn in Hf. unfold seg_error at 1 in Hf. destruct seg as [|b seg]; [done|]. apply Forall_cons in Hs as [Hs _].
      destruct segs; eexists b, _; (split; [done|]); set_solver. }
    assert (trim_start 47 (join 47 (seg :: segs)) = join 47 (seg :: segs)) as ->.
    { rewrite Hj. cbn. by rewrite (proj2 (Z.eqb_neq _ _)) by done. }
    rewrite split_join by done. by rewrite Hj. }
  rewrite from_into_text, Hp, find_map_take by done. by rewrite (proj2 (Nat.ltb_ge _ _)) by done.
Qed.

Lemma message_segments_spec l : ∀ segs, (length segs ≤ MAX_PATH_SEGMENTS)%nat → ∀ p,
  message_segments (path_of segs) l = Ok p ↔ ∃ more, l = Ok <$> more ∧ Forall (fun s => is_dots s = false) more ∧
    (length segs + length more ≤ MAX_PATH_SEGMENTS)%nat ∧ p = path_of (segs ++ more).
Proof.
  induction l as [|v l IH]; intros segs Hl p.
  { cbn. split; [intros [= <-]; exists []; rewrite app_nil_r, Nat.add_0_r; auto|]. intros (more & Hm & _ & _ & ->).
    destruct more; [by rewrite app_nil_r|done]. }
  cbn [message_segments]. destruct v as [seg| | |]; cbn [map_err];
    [|unbind; split; [done|]; intros (more & Hm & _); by destruct more..].
  unfold reject_dot_segment. unbind. destruct (is_dots seg) eqn:Ed.
  { split; [done|]. intros (more & Hm & Hd & _). destruct more as [|m more]; [done|]. injection Hm as -> ->. apply Forall_cons in Hd as [Hd _]. congruence. }
  cbn [path_of pa_len pa_segs]. rewrite Nat2Z.id. destruct (Nat.leb_spec MAX_PATH_SEGMENTS (length segs)).
  { split; [done|]. intros (more & Hm & _ & Hlen & _). destruct more; [done|]. simpl in Hlen. lia. }
  rewrite set_idx_ok by (rewrite length_splice; rewrite length_replicate; lia).
  rewrite splice_splice by (rewrite ?length_replicate; simpl; lia).
  unfold checked_add, max_u, MAX_PATH_SEGMENTS in *. rewrite (proj2 (Z.leb_le _ _)) by lia. cbn [from_option].
  specialize (IH (segs ++ [seg]) ltac:(rewrite length_app; simpl; lia) p). unfold path_of at 1 in IH. rewrite length_app in IH. cbn [length] in IH.
  replace (Z.of_nat (length segs + 1)) with (Z.of_nat (length segs) + 1) in IH by lia. rewrite IH. split.
  - intros (more & -> & Hd & Hlen & ->). exists (seg :: more). rewrite <- app_assoc. split_and!; [done|by constructor|simpl; lia|done].
  - intros (more & Hm & Hd & Hlen & ->). destruct more as [|m more]; [done|]. injection Hm as <- ->. apply Forall_cons in Hd as [_ Hd].
    exists more. rewrite <- app_assoc. split_and!; [done|done|simpl in Hlen; lia|done].
Qed.

(** The segments a path argument names, or the first fault found in it. *)
Definition path_spec (path : IntoPath) : res PathError (list (list Z)) :=
  match path with
  | PathSegments segs =>
      if (MAX_PATH_SEGMENTS <? length segs)%nat then Err PathTooLong
      else match find_map seg_error segs with Some e => Err e | None => Ok segs end
  | PathText text =>
      match find_map seg_error (take (S MAX_PATH_SEGMENTS) (pieces text)) with
      | Some e => Err e
      | None => if (MAX_PATH_SEGMENTS <? length (pieces text))%nat then Err PathTooLong else Ok (pieces text)
      end
  end.
Lemma from_into_spec path : path_from_into path = (segs ← path_spec path; mret (path_of segs)).
Proof.
  destruct path as [segs|text]; [rewrite from_into_segments|rewrite from_into_text]; cbn [path_spec].
  - destruct (_ <? _)%nat; [done|]. by destruct (find_map seg_error segs).
  - destruct (find_map seg_error _); [done|]. by destruct (_ <? _)%nat.
Qed.
Lemma path_spec_ok path segs : path_spec path = Ok segs → segs_ok segs.
Proof.
  destruct path as [l|text]; cbn [path_spec].
  - destruct (Nat.ltb_spec MAX_PATH_SEGMENTS (length l)); [done|]. destruct (find_map seg_error l) eqn:Ef; [done|]. by intros [= <-].
  - destruct (find_map seg_error (take _ _)) eqn:Ef; [done|]. destruct (Nat.ltb_spec MAX_PATH_SEGMENTS (length (pieces text))); [done|].
    intros [= <-]. rewrite take_ge in Ef by lia. done.
Qed.
Lemma path_spec_returns path : returns (path_spec path).
Proof. destruct path as [segs|text]; cbn [path_spec]; repeat case_match; done. Qed.

(** ** Slots of a table *)
Section slots.
Context {A : Type}.
Implicit Types (l : list (option A)).

Lemma omap_id_insert l k (a b : option A) : l !! k = Some a →
  (length (omap id (<[k := b]> l)) + length (omap id [a]) = length (omap id l) + length (omap id [b]))%nat.
Proof.
  intros Hk. pose proof (lookup_lt_Some _ _ _ Hk). rewrite insert_take_drop by done.
  rewrite <- (take_drop_middle l k a Hk) at 3. rewrite !omap_app. cbn [omap list_omap].
  destruct a, b; cbn; rewrite !length_app; cbn; lia.
Qed.
Lemma slots_length l : (length (omap id l) ≤ length l)%nat.
Proof. induction l as [|o l IH]; [done|]. change (omap id (o :: l)) with (match o with Some a => a :: omap id l | None => omap id l end). destruct o; simpl; lia. Qed.
Lemma elem_of_slots l a : a ∈ omap id l ↔ ∃ k, l !! k = Some (Some a).
Proof.
  rewrite list_elem_of_omap. split.
  - intros (o & Ho & He). cbn in He. subst o. by apply list_elem_of_lookup.
  - intros [k Hk]. exists (Some a). split; [by eapply list_elem_of_lookup_2|done].
Qed.
Lemma slots_NoDup {B} (f : A → B) l :
  NoDup (f <$> omap id l) ↔ ∀ j k a b, l !! j = Some (Some a) → l !! k = Some (Some b) → f a = f b → j = k.
Proof.
  induction l as [|o l IH]; [split; [by intros _ [|j]|constructor]|]. destruct o as [a|]; cbn.
  - rewrite NoDup_cons, IH. split.
    + intros [Hn Hd] [|j] [|k] x y; cbn; intros Hx Hy Hf; [done| | |f_equal; by eapply Hd].
      * injection Hx as <-. destruct Hn. rewrite Hf. apply list_elem_of_fmap_2, elem_of_slots. by exists k.
      * injection Hy as <-. destruct Hn. rewrite <- Hf. apply list_elem_of_fmap_2, elem_of_slots. by exists j.
    + intros Hd. split.
      * intros (b & Hb & He)%list_elem_of_fmap. apply elem_of_slots in He as [k Hk]. by discriminate (Hd 0%nat (S k) a b eq_refl Hk Hb).
      * intros j k x y Hx Hy Hf. by injection (Hd (S j) (S k) x y Hx Hy Hf).
  - rewrite IH. split.
    + intros Hd [|j] [|k] x y; cbn; intros Hx Hy Hf; try done. f_equal. by eapply Hd.
    + intros Hd j k x y Hx Hy Hf. by injection (Hd (S j) (S k) x y Hx Hy Hf).
Qed.
End slots.

(** ** The table *)
Section table.
Context {T : Type} `{Target}.
Implicit Types (s : Site T) (e : SiteEntry T).
Abbreviation Routes := (gmap (list (list Z)) (MethodRouter T * option Metadata)).

Definition key e : list (list Z) := take (Z.to_nat (pa_len (se_path e))) (pa_segs (se_path e)).
Definition holds s (k : nat) e : Prop := si_entries s !! k = Some (Some e).
(** The routes of a site. *)
Definition site_map s : Routes := list_to_map ((fun e => (key e, (se_methods e, se_metadata e))) <$> omap id (si_entries s)).

Record site_inv s : Prop := {
  inv_paths k e : holds s k e → segs_ok (key e) ∧ se_path e = path_of (key e);
  inv_distinct j k e e' : holds s j e → holds s k e' → key e = key e' → j = k;
  inv_len : si_len s = length (omap id (si_entries s));
  inv_size : usize_ok (length (si_entries s))
}.

Lemma key_path_of segs methods metadata : (length segs ≤ MAX_PATH_SEGMENTS)%nat → key (mkSiteEntry (path_of segs) methods metadata) = segs.
Proof. intros Hl. unfold key, path_of. cbn [se_path pa_len pa_segs]. rewrite Nat2Z.id. unfold splice. rewrite take_0. cbn [app]. by apply take_app_length. Qed.

Lemma site_map_lookup s segs v : site_inv s →
  site_map s !! segs = Some v ↔ ∃ k e, holds s k e ∧ key e = segs ∧ v = (se_methods e, se_metadata e).
Proof.
  intros Hi. unfold site_map. rewrite <- elem_of_list_to_map.
  - rewrite list_elem_of_fmap. split.
    + intros (e & [= -> ->] & (k & Hk)%elem_of_slots). by exists k, e.
    + intros (k & e & Hk & <- & ->). exists e. split; [done|]. apply elem_of_slots. by exists k.
  - rewrite <- list_fmap_compose. apply slots_NoDup. intros j k a b Ha Hb Hab. by eapply (inv_distinct s Hi).
Qed.
Lemma site_map_size s : site_inv s → size (site_map s) = si_len s.
Proof.
  intros Hi. unfold site_map. rewrite map_size_list_to_map, length_fmap; [by rewrite (inv_len s Hi)|].
  rewrite <- list_fmap_compose. apply slots_NoDup. intros j k a b Ha Hb Hab. by eapply (inv_distinct s Hi).
Qed.

(** One slot changes, to an entry no other slot names. *)
Lemma holds_with_entry s k o len j e : (k < length (si_entries s))%nat →
  holds (with_entry s k o len) j e ↔ (j = k ∧ o = Some e) ∨ (j ≠ k ∧ holds s j e).
Proof.
  intros Hk. unfold holds, with_entry. cbn [si_entries]. destruct (decide (j = k)) as [->|Hn].
  - rewrite list_lookup_insert_eq by done. split; [intros [= ->]; auto|]. intros [[_ ->]|[Hne _]]; [done|by destruct Hne].
  - rewrite list_lookup_insert_ne by done. naive_solver.
Qed.
Lemma with_entry_inv s k (o o' : option (SiteEntry T)) len :
  site_inv s → si_entries s !! k = Some o →
  match o' with
  | Some e => segs_ok (key e) ∧ se_path e = path_of (key e) ∧ ∀ j e', holds s j e' → key e' = key e → j = k
  | None => True
  end →
  (len + length (omap id [o]) = si_len s + length (omap id [o']))%nat →
  site_inv (with_entry s k o' len).
Proof.
  intros Hi Hk Ho Hlen. pose proof (lookup_lt_Some _ _ _ Hk) as Hlt. split.
  - intros j e. rewrite holds_with_entry by done. intros [[-> ->]|[_ Hh]]; [by destruct Ho as (? & ? & _)|by eapply (inv_paths s Hi)].
  - intros j k' e e'. rewrite !holds_with_entry by done. intros [[-> ->]|[Hj Hh]] [[-> He]|[Hj' Hh']] Hkey; [done| | |by eapply (inv_distinct s Hi)].
    + destruct Ho as (_ & _ & Hu). destruct Hj'. by eapply Hu.
    + subst o'. destruct Ho as (_ & _ & Hu). destruct Hj. by eapply Hu.
  - unfold with_entry. cbn [si_len si_entries]. pose proof (omap_id_insert (si_entries s) k o o' Hk). rewrite <- (inv_len s Hi) in *. lia.
  - unfold with_entry, usize_ok. cbn [si_entries]. rewrite length_insert. apply (inv_size s Hi).
Qed.
Lemma with_entry_put s k o e len :
  site_inv s → si_entries s !! k = Some o → site_inv (with_entry s k (Some e) len) →
  (∀ e', o = Some e' → key e' = key e) → (∀ j e', holds s j e' → key e' = key e → j = k) →
  site_map (with_entry s k (Some e) len) = <[key e := (se_methods e, se_metadata e)]> (site_map s).
Proof.
  intros Hi Hk Hi' Ho Hu. pose proof (lookup_lt_Some _ _ _ Hk) as Hlt. apply map_eq. intros segs. apply option_eq. intros v.
  rewrite (site_map_lookup _ segs v Hi'). setoid_rewrite holds_with_entry; [|done]. rewrite lookup_insert_Some, (site_map_lookup _ segs v Hi). split.
  - intros (j & e' & [[-> [= <-]]|[Hj Hh]] & <- & ->); [by left|]. right. split; [|by exists j, e']. intros Hkey. destruct Hj. by eapply Hu.
  - intros [[<- <-]|[Hn (j & e' & Hh & <- & ->)]]; [by exists k, e; auto|]. exists j, e'. split; [|done]. right. split; [|done].
    intros ->. unfold holds in Hh. rewrite Hk in Hh. injection Hh as ->. destruct Hn. symmetry. by apply Ho.
Qed.
Lemma with_entry_delete s k e len :
  site_inv s → holds s k e → site_inv (with_entry s k None len) → site_map (with_entry s k None len) = delete (key e) (site_map s).
Proof.
  intros Hi Hk Hi'. pose proof (lookup_lt_Some _ _ _ Hk) as Hlt. apply map_eq. intros segs. apply option_eq. intros v.
  rewrite (site_map_lookup _ segs v Hi'). setoid_rewrite holds_with_entry; [|done]. rewrite lookup_delete_Some, (site_map_lookup _ segs v Hi). split.
  - intros (j & e' & [[_ ?]|[Hj Hh]] & <- & ->); [done|]. split; [|by exists j, e']. intros Hkey. destruct Hj. by eapply (inv_distinct s Hi).
  - intros [Hn (j & e' & Hh & <- & ->)]. exists j, e'. split; [|done]. right. split; [|done]. intros ->. unfold holds in *. congruence.
Qed.

(** ** Searching *)
Lemma path_position_spec {E} s segs : site_inv s →
  path_position (E:=E) segs (si_entries s) = Ok (position (fun o => match o with Some e => eqb (key e) segs | None => false end) (si_entries s)).
Proof.
  intros Hi. pose proof (fun k e => inv_paths s Hi k e) as Hp. unfold holds in Hp. induction (si_entries s) as [|o es IH]; [done|].
  cbn [path_position position]. destruct o as [e|].
  - destruct (Hp 0%nat e eq_refl) as [[Hl _] Hpath]. unfold path_matches. rewrite Hpath, segments_path_of by done. unbind.
    destruct (eqb (key e) segs); [done|]. rewrite IH by (intros k e'; apply (Hp (S k))). by destruct (position _ es).
  - unbind. rewrite IH by (intros k e'; apply (Hp (S k))). by destruct (position _ es).
Qed.
Lemma path_found s segs : site_inv s →
  ∃ o, (∀ E, path_position (E:=E) segs (si_entries s) = Ok o) ∧
    match o with
    | Some k => ∃ e, holds s k e ∧ key e = segs ∧ (∀ E, entry_at (E:=E) s k = Ok e) ∧ site_map s !! segs = Some (se_methods e, se_metadata e)
    | None => (∀ k e, holds s k e → key e ≠ segs) ∧ site_map s !! segs = None
    end.
Proof.
  intros Hi. eexists. split; [intros E; by apply path_position_spec|]. destruct (position _ _) as [k|] eqn:Ep.
  - apply position_Some in Ep as [([e|] & Hk & Hp) _]; [|done]. apply bool_decide_eq_true in Hp. exists e. split_and!; [done|done| |].
    + intros E. unfold entry_at. by rewrite Hk.
    + apply site_map_lookup; [done|]. by exists k, e.
  - rewrite position_None, Forall_lookup in Ep. assert (∀ k e, holds s k e → key e ≠ segs) as Hn.
    { intros k e Hk He. specialize (Ep k _ Hk). cbn in Ep. by apply bool_decide_eq_false in Ep. }
    split; [done|]. apply eq_None_not_Some. intros [v Hv]. apply site_map_lookup in Hv as (k & e & Hk & He & _); [|done]. by eapply Hn.
Qed.

(** ** Histories *)
Inductive site_op : Type :=
  | SRoute (path : IntoPath) (methods : MethodRouter T)
  | SRemove (path : IntoPath)
  | SMetadata (path : IntoPath) (metadata : option Metadata)
  | SWellKnown.
Definition run_op (op : site_op) : st (Site T) RouteError bool :=
  match op with
  | SRoute path methods => try_route path methods;; mret true
  | SRemove path => st_map_err RoutePath (remove_route path)
  | SMetadata path metadata => set_discovery_metadata path metadata;; mret true
  | SWellKnown => st_upd (fun s => Ok (well_known_core s));; mret true
  end.
Fixpoint site_run (ops : list site_op) s : Site T * list (res RouteError bool) :=
  match ops with [] => (s, []) | op :: ops => let '(s, r) := run_op op s in let '(s, rs) := site_run ops s in (s, r :: rs) end.

(** The promise: a map of at most [N] paths.  A path is registered anew only
    while there is room, is replaced in place with its metadata kept, and is
    forgotten with its metadata. *)
Definition named (path : IntoPath) (m : Routes) (f : list (list Z) → Routes * res RouteError bool) : Routes * res RouteError bool :=
  match path_spec path with Ok segs => f segs | Err e => (m, Err (RoutePath e)) | Panic => (m, Panic) | Diverge => (m, Diverge) end.
Definition abs_op (N : nat) (op : site_op) (m : Routes) : Routes * res RouteError bool :=
  match op with
  | SRoute path methods => named path m (fun segs =>
      match m !! segs with
      | Some (_, metadata) => (<[segs := (methods, metadata)]> m, Ok true)
      | None => if (size m <? N)%nat then (<[segs := (methods, None)]> m, Ok true) else (m, Err RouteFull)
      end)
  | SRemove path => named path m (fun segs => (delete segs m, Ok (is_some (m !! segs))))
  | SMetadata path metadata => named path m (fun segs =>
      match from_option Metadata_encoded_len (Ok 0%nat) metadata with
      | Err e => (m, Err (RouteMetadata e))
      | Panic => (m, Panic)
      | Diverge => (m, Diverge)
      | Ok _ =>
          match m !! segs with Some (methods, _) => (<[segs := (methods, metadata)]> m, Ok true) | None => (m, Err RouteNotFound) end
      end)
  | SWellKnown => (m, Ok true)
  end.
Fixpoint abs_run (N : nat) (ops : list site_op) (m : Routes) : Routes * list (res RouteError bool) :=
  match ops with [] => (m, []) | op :: ops => let '(m, r) := abs_op N op m in let '(m, rs) := abs_run N ops m in (m, r :: rs) end.

(** The slots an operation on [segs] leaves as they are; [segs] keeps its own slot. *)
Definition slots_kept s s' (segs : list (list Z)) : Prop :=
  (∀ k e, key e ≠ segs → holds s k e ↔ holds s' k e) ∧
  (∀ k k' e e', holds s k e → key e = segs → holds s' k' e' → key e' = segs → k' = k).
Definition simulates s s' (m : Routes) (segs : list (list Z)) : Prop :=
  site_inv s' ∧ site_map s' = m ∧ length (si_entries s') = length (si_entries s) ∧ slots_kept s s' segs.

Lemma slots_kept_with s k o o' len segs :
  si_entries s !! k = Some o → (∀ e, o = Some e → key e = segs) → (∀ e, o' = Some e → key e = segs) → (∀ j e, holds s j e → key e = segs → j = k) →
  slots_kept s (with_entry s k o' len) segs.
Proof.
  intros Hk Ho Ho' Hu. split.
  - intros j e Hn. rewrite holds_with_entry by (by eapply lookup_lt_Some). unfold holds. split.
    + intros Hh. right. split; [|done]. intros ->. rewrite Hk in Hh. injection Hh as ->. by destruct Hn; apply Ho.
    + intros [[-> ->]|[_ Hh]]; [by destruct Hn; apply Ho'|done].
  - intros j j' e e' Hj He. rewrite holds_with_entry by (by eapply lookup_lt_Some). rewrite (Hu j e Hj He).
    intros [[-> _]|[_ Hj']] He'; [done|by eapply Hu].
Qed.
Lemma simulates_refl s segs : site_inv s → simulates s s (site_map s) segs.
Proof. intros Hi. split_and!; [done|done|done|]. split; [done|]. intros k k' e e' He Hke He' Hke'. apply (inv_distinct s Hi k' k e' e); congruence. Qed.
(** Replacing the entry of a path. *)
Lemma simulates_replace s k e methods metadata :
  site_inv s → holds s k e →
  simulates s (with_entry s k (Some (mkSiteEntry (se_path e) methods metadata)) (si_len s)) (<[key e := (methods, metadata)]> (site_map s)) (key e).
Proof.
  intros Hi Hk. set (e' := mkSiteEntry (se_path e) methods metadata). assert (key e' = key e) as He by done. rewrite <- He.
  destruct (inv_paths s Hi k e Hk) as [Hs Hp].
  assert (∀ j e'', holds s j e'' → key e'' = key e' → j = k) as Hu by (intros j e'' Hj Hkey; by eapply (inv_distinct s Hi)).
  assert (site_inv (with_entry s k (Some e') (si_len s))) as Hi' by (eapply with_entry_inv; [done|exact Hk|by split_and!|done]).
  split_and!; [done| |by cbn; rewrite length_insert|by eapply slots_kept_with; [exact Hk|intros ? [= <-]|intros ? [= <-]|]].
  apply (with_entry_put s k (Some e) e' (si_len s)); try done. by intros ? [= <-].
Qed.

Definition op_path (op : site_op) : option IntoPath := match op with SRoute path _ | SRemove path | SMetadata path _ => Some path | SWellKnown => None end.
(** One operation does what is promised, and touches one path at most. *)
Definition op_sim s (op : site_op) : Prop :=
  let '(m, r) := abs_op (length (si_entries s)) op (site_map s) in
  ∃ s', run_op op s = (s', r) ∧ ∃ segs, simulates s s' m segs ∧ (path_spec <$> op_path op = Some (Ok segs) ∨ si_entries s' = si_entries s).

Lemma encoded_len_returns md : returns (Metadata_encoded_len md).
Proof. rewrite encoded_len_spec. pose proof (metadata_validate_returns md). unbind. destruct (Metadata_validate md); try done. by destruct (_ <=? _). Qed.
Lemma run_route path methods s : site_inv s → op_sim s (SRoute path methods).
Proof.
  intros Hi. unfold op_sim. cbn [abs_op run_op op_path fmap option_fmap option_map]. unfold named, try_route. rewrite from_into_spec. unbind.
  pose proof (path_spec_returns path). destruct (path_spec path) as [segs|e| |] eqn:Ep; try done; cbn [option_map];
    [|exists s; split; [done|]; exists []; split; [by apply simulates_refl|by right]].
  pose proof (path_spec_ok path segs Ep) as Hok. cbn [map_err]. unfold insert_route. unbind. rewrite segments_path_of by apply Hok.
  destruct (path_found s segs Hi) as ([k|] & Hf & Hd); rewrite Hf.
  - destruct Hd as (e & Hk & <- & Hat & ->). rewrite Hat. eexists. split; [done|]. exists (key e). split; [by apply simulates_replace|by left].
  - destruct Hd as [Hn ->]. rewrite site_map_size by done. destruct (Nat.ltb_spec (si_len s) (length (si_entries s))) as [Hlt|Hge].
    2:{ rewrite (proj2 (Nat.leb_le _ _)) by done. exists s. split; [done|]. exists segs. split; [by apply simulates_refl|by left]. }
    rewrite (proj2 (Nat.leb_gt _ _)) by done. destruct (position _ _) as [k|] eqn:Epos.
    + apply position_Some in Epos as [(o & Hk & Ho) _]. destruct o as [e|]; [done|]. cbn [ok_or].
      unfold usize_checked_add. pose proof (inv_size s Hi) as Hsz. unfold usize_ok in Hsz. rewrite (proj2 (Z.leb_le _ _)) by lia. cbn [from_option].
      eexists. split; [done|]. exists segs. split; [|by left]. set (e := mkSiteEntry (path_of segs) methods None).
      assert (key e = segs) as He by (apply key_path_of, Hok).
      assert (∀ j e', holds s j e' → key e' = key e → j = k) as Hu by (intros j e' Hj Hkey; rewrite He in Hkey; by destruct (Hn j e' Hj)).
      assert (site_inv (with_entry s k (Some e) (si_len s + 1))) as Hi'.
      { eapply with_entry_inv; [done|done| |cbn; lia]. rewrite He. split_and!; try done. by rewrite <- He. }
      split_and!; [done| |by cbn; rewrite length_insert|by eapply slots_kept_with; [exact Hk|intros ? [=]|intros ? [= <-]|rewrite <- He]].
      rewrite <- He at 1. by apply (with_entry_put s k None e (si_len s + 1)).
    + exfalso. rewrite position_None, Forall_lookup in Epos.
      assert (∀ l : list (option (SiteEntry T)), (∀ i x, l !! i = Some x → negb (is_some x) = false) → length (omap id l) = length l) as Hall.
      { clear. induction l as [|o l IH]; intros Hl; [done|]. destruct o as [e|]; [|by discriminate (Hl 0%nat None eq_refl)]. cbn. f_equal.
        apply IH. intros i. apply (Hl (S i)). }
      specialize (Hall _ Epos). rewrite <- (inv_len s Hi) in Hall. lia.
Qed.

Lemma run_remove path s : site_inv s → op_sim s (SRemove path).
Proof.
  intros Hi. unfold op_sim. cbn [abs_op run_op op_path fmap option_fmap option_map]. unfold named, st_map_err, remove_route. rewrite from_into_spec. unbind.
  pose proof (path_spec_returns path). destruct (path_spec path) as [segs|e| |] eqn:Ep; try done; cbn [option_map];
    [|exists s; split; [done|]; exists []; split; [by apply simulates_refl|by right]].
  pose proof (path_spec_ok path segs Ep) as Hok. unfold remove_path. unbind. rewrite segments_path_of by apply Hok.
  destruct (path_found s segs Hi) as ([k|] & Hf & Hd); rewrite Hf.
  - destruct Hd as (e & Hk & <- & _ & ->).
    assert (1 ≤ si_len s)%nat as Hpos.
    { rewrite (inv_len s Hi). assert (e ∈ omap id (si_entries s)) as He by (apply elem_of_slots; by exists k).
      destruct (omap id (si_entries s)); [by apply elem_of_nil in He|simpl; lia]. }
    unfold usize_checked_sub. rewrite (proj2 (Nat.leb_le _ _)) by done. cbn [from_option is_some map_err].
    eexists. split; [done|]. exists (key e). split; [|by left].
    assert (site_inv (with_entry s k None (si_len s - 1))) as Hi' by (eapply with_entry_inv; [done|exact Hk|done|cbn; lia]).
    split_and!; [done|by apply with_entry_delete|by cbn; rewrite length_insert|].
    eapply slots_kept_with; [exact Hk|by intros ? [= <-]|by intros ? [=]|]. intros j e' Hj Hkey. by eapply (inv_distinct s Hi).
  - destruct Hd as [Hn Hm]. rewrite Hm. exists s. split; [done|]. exists segs. split; [|by left]. rewrite delete_id by done. by apply simulates_refl.
Qed.
Lemma run_metadata path metadata s : site_inv s → op_sim s (SMetadata path metadata).
Proof.
  intros Hi. unfold op_sim. cbn [abs_op run_op op_path fmap option_fmap option_map]. unfold named, set_discovery_metadata. rewrite from_into_spec. unbind.
  pose proof (path_spec_returns path). destruct (path_spec path) as [segs|e| |] eqn:Ep; try done; cbn [option_map];
    [|exists s; split; [done|]; exists []; split; [by apply simulates_refl|by right]].
  pose proof (path_spec_ok path segs Ep) as Hok. cbn [map_err].
  assert (∃ r, from_option Metadata_encoded_len (Ok 0%nat) metadata = r ∧
    (match metadata with Some metadata => st_bind (λ _ : nat, mret tt) (st_lift (map_err RouteMetadata (Metadata_encoded_len metadata)))
                       | None => mret tt end) s = (s, map_err RouteMetadata (r;; Ok tt)) ∧ returns r) as (r & -> & Hr & Hret).
  { destruct metadata as [md|]; [|by eexists]. cbn [from_option]. eexists. split; [done|].
    split; [by destruct (Metadata_encoded_len md)|apply encoded_len_returns]. }
  unfold st_bind, mret, st_mret, st_lift in *. rewrite Hr. destruct r as [n|e| |]; try done;
    [|exists s; split; [done|]; exists segs; split; [by apply simulates_refl|by left]].
  cbn. rewrite segments_path_of by apply Hok. destruct (path_found s segs Hi) as ([k|] & Hf & Hd); rewrite Hf.
  - destruct Hd as (e & Hk & <- & Hat & ->). cbn [ok_or]. rewrite Hat. eexists. split; [done|]. exists (key e). split; [by apply simulates_replace|by left].
  - destruct Hd as [Hn ->]. cbn [ok_or]. exists s. split; [done|]. exists segs. split; [by apply simulates_refl|by left].
Qed.

Lemma run_op_sim op s : site_inv s → op_sim s op.
Proof.
  intros Hi. destruct op as [path methods|path|path md|]; [by apply run_route|by apply run_remove|by apply run_metadata|].
  eexists. split; [done|]. exists []. split; [|by right].
  destruct (simulates_refl s [] Hi) as (_ & _ & _ & Hk). split_and!; [destruct Hi; by split|done|done|exact Hk].
Qed.
Lemma abs_op_returns N op m : returns (abs_op N op m).2.
Proof.
  destruct op as [path ?|path|path md|]; cbn [abs_op]; [..|done]; unfold named; pose proof (path_spec_returns path);
    (destruct (path_spec path) as [segs| | |]; try done).
  - destruct (_ !! _) as [[]|]; [done|]. by destruct (_ <? _)%nat.
  - assert (returns (from_option Metadata_encoded_len (Ok 0%nat) md)) as Hmd by (destruct md; [apply encoded_len_returns|done]).
    destruct (from_option _ _ md); try done. by destruct (_ !! _) as [[]|].
Qed.

Lemma Site_new_inv N : usize_ok N → site_inv (Site_new N).
Proof.
  intros HN. assert (∀ k e, ¬ holds (Site_new N) k e) as Hn by (intros k e Hk; by apply lookup_replicate in Hk as [? _]).
  split; [intros k e Hk; by destruct (Hn k e)|intros j k e e' Hj; by destruct (Hn j e)| |unfold usize_ok; cbn; by rewrite length_replicate].
  cbn. clear. by induction N.
Qed.
Lemma site_map_new N : site_map (Site_new N) = ∅.
Proof. unfold site_map. cbn. by induction N. Qed.
Lemma site_run_sim ops : ∀ s, site_inv s →
  let '(s', rs) := site_run ops s in
  abs_run (length (si_entries s)) ops (site_map s) = (site_map s', rs) ∧ site_inv s' ∧ length (si_entries s') = length (si_entries s) ∧ Forall returns rs.
Proof.
  induction ops as [|op ops IH]; intros s Hi; cbn [site_run abs_run]; [by split_and!|].
  pose proof (run_op_sim op s Hi) as Hop. pose proof (abs_op_returns (length (si_entries s)) op (site_map s)) as Hret. unfold op_sim in Hop.
  destruct (abs_op _ op _) as [m r]. destruct Hop as (s1 & -> & segs & (Hi1 & <- & Hlen & _) & _).
  specialize (IH s1 Hi1). destruct (site_run ops s1) as [s' rs]. rewrite Hlen in IH. destruct IH as (-> & Hi' & Hlen' & Hf).
  split_and!; [done|done|congruence|by constructor].
Qed.

(** C27: A site is a bounded map of paths.  Under every sequence of
    registrations, removals and metadata changes it returns exactly the
    results of a map of at most [N] paths, and holds exactly that map: a refusal
    leaves every route as it was, a path replaced in a full site keeps its
    metadata, and a removal frees its place.  No operation panics. *)
Theorem site_refines_map N (ops : list site_op) :
  usize_ok N →
  let '(s, rs) := site_run ops (Site_new N) in
  let '(m, rs') := abs_run N ops ∅ in
  rs = rs' ∧ site_map s = m ∧ si_len s = size m ∧ (size m ≤ N)%nat ∧ Forall returns rs ∧
  ∀ segs, (length segs ≤ MAX_PATH_SEGMENTS)%nat → contains_path (E:=RouteError) s (path_of segs) = Ok (is_some (m !! segs)).
Proof.
  intros HN. pose proof (site_run_sim ops (Site_new N) (Site_new_inv N HN)) as Hr. cbn [si_entries Site_new] in Hr. rewrite length_replicate in Hr.
  rewrite site_map_new in Hr.
  destruct (site_run ops (Site_new N)) as [s rs]. destruct Hr as (-> & Hi & Hlen & Hret). rewrite site_map_size by done. split_and!; try done.
  - rewrite (inv_len s Hi), <- Hlen. apply slots_length.
  - intros segs Hl. unfold contains_path. rewrite segments_path_of by done. unbind.
    destruct (path_found s segs Hi) as ([k|] & -> & Hd); [by destruct Hd as (e & _ & _ & _ & ->)|by destruct Hd as [_ ->]].
Qed.

Lemma site_reached N ops s : usize_ok N → (site_run ops (Site_new N)).1 = s → site_inv s.
Proof. intros HN <-. pose proof (site_run_sim ops (Site_new N) (Site_new_inv N HN)) as Hr. destruct (site_run _ _). by destruct Hr as (_ & Hi & _). Qed.

Lemma observe_resource_spec s segs r : site_inv s →
  observe_resource (E:=RouteError) s segs = Ok r ↔
    (∃ k e, holds s k e ∧ key e = segs ∧ r = app_route (Z.of_nat k)) ∨ (site_map s !! segs = None ∧ r = RESOURCE_NONE).
Proof.
  intros Hi. unfold observe_resource. unbind. destruct (path_found s segs Hi) as ([k|] & -> & Hd).
  - destruct Hd as (e & Hk & He & _ & Hm). rewrite Hm. split.
    + intros [= <-]. left. by exists k, e.
    + intros [(j & e' & Hj & He' & ->)|[? _]]; [|done]. by rewrite (inv_distinct s Hi k j e e') by congruence.
  - destruct Hd as [Hn Hm]. rewrite Hm. split; [intros [= <-]; by right|]. intros [(j & e' & Hj & He' & _)|[_ ->]]; [by destruct (Hn j e')|done].
Qed.
Lemma observe_source_spec s k e : holds s k e → observe_source s (app_route (Z.of_nat k)) = mr_observe (se_methods e).
Proof.
  unfold holds, observe_source. set (f := fun '(k', entry) => _). intros Hk.
  assert (∀ (es : list (option (SiteEntry T))) i, (∀ j, es !! j = Some (Some e) → (i + j)%nat = k → find_map f (zip (seq i (length es)) es) = mr_observe (se_methods e)) ∧
    ((k < i)%nat → find_map f (zip (seq i (length es)) es) = None)) as Hgen.
  { induction es as [|o es IH]; intros i; [by split; [intros [|j]|]|]. cbn [length seq zip zip_with find_map]. destruct (IH (S i)) as [IH1 IH2].
    assert (i ≠ k → f (i, o) = None) as Hne.
    { intros Hi. unfold f, app_route. destruct o; [|done]. cbn. by rewrite (proj2 (Z.eqb_neq _ _)) by lia. }
    split.
    - intros [|j]; [|intros Hj Hij; rewrite Hne by lia; apply (IH1 j Hj); lia]. intros [= ->] Hij. rewrite Nat.add_0_r in Hij. subst i.
      unfold f at 1. cbn. rewrite Z.eqb_refl, IH2 by lia. by destruct (mr_observe (se_methods e)).
    - intros Hlt. rewrite Hne by lia. apply IH2. lia. }
  by apply (proj1 (Hgen (si_entries s) 0%nat) k).
Qed.

(** Each route has an identity of its own.  In every site a registered path
    has a resource number that no other path has and that finds its snapshot
    source, and it keeps that number for as long as it stays registered,
    whatever is added, replaced or removed around it; an unknown path has none. *)
Theorem route_identity N (ops : list site_op) s segs :
  usize_ok N → (site_run ops (Site_new N)).1 = s →
  match site_map s !! segs with
  | None => observe_resource (E:=RouteError) s segs = Ok RESOURCE_NONE
  | Some (methods, _) =>
      ∃ r, observe_resource (E:=RouteError) s segs = Ok r ∧ r ≠ RESOURCE_NONE ∧ observe_source s r = mr_observe methods ∧
        (∀ segs', observe_resource (E:=RouteError) s segs' = Ok r → segs' = segs) ∧
        (∀ op, is_Some (site_map (run_op op s).1 !! segs) → observe_resource (E:=RouteError) (run_op op s).1 segs = Ok r)
  end.
Proof.
  intros HN Hs. pose proof (site_reached N ops s HN Hs) as Hi. destruct (site_map s !! segs) as [[methods md]|] eqn:Em; [|by apply observe_resource_spec; [|right]].
  pose proof Em as Hm. apply site_map_lookup in Hm as (k & e & Hk & <- & [= -> ->]); [|done]. exists (app_route (Z.of_nat k)). split_and!.
  - apply observe_resource_spec; [done|]. left. by exists k, e.
  - unfold app_route, RESOURCE_NONE. lia.
  - by apply observe_source_spec.
  - intros segs' [(j & e' & Hj & <- & Hr)|[_ Hr]]%observe_resource_spec; [|unfold app_route, RESOURCE_NONE in Hr; lia|done].
    assert (j = k) as -> by (unfold app_route in Hr; lia). unfold holds in *. congruence.
  - intros op [v Hv]. pose proof (run_op_sim op s Hi) as Hop. unfold op_sim in Hop. destruct (abs_op _ op _) as [m r].
    destruct Hop as (s' & Hrun & segs' & (Hi' & _ & _ & Hkept & Hown) & _). rewrite Hrun in *. cbn [fst] in *.
    apply site_map_lookup in Hv as (k' & e' & Hk' & Hkey & _); [|done]. apply observe_resource_spec; [done|]. left.
    destruct (decide (key e = segs')) as [He|Hne].
    + exists k', e'. split_and!; [done|done|]. by rewrite (Hown k k' e e') by congruence.
    + exists k, e. split_and!; [by apply Hkept|done|done].
Qed.
End table.
