(* ===== verification/AppCatalog.v ===== *)
(** * Dispatch and discovery

    Theorems on [AppSite]: which answer a decoded request gets, and that the
    catalog of [/.well-known/core] is read back, by the link parser and the
    URI reader of this library, as exactly the routes of the site. *)
From Stdlib Require Import String.
From stdpp Require Import gmap.
From S2P Require Import Prelude Errors MsgTypes Options Encode Decode OptionsBuilder OptionValues MessageOptions MissingBlocks.
From S2P Require Import Codec Occupancy Pending DatagramPool PendingCons SlotTable Dedup Observe Block BodyPool Exchange Engine.
From S2P Require Import AsciiText LinkFormat Uri Problem ProblemRound AppIdentity Transport AppSend AppResponse AppResponseLaws.
From S2P Require Import AppAssociations AppPath AppSite AppSiteLaws.

(** ** Writing at an offset *)
Section emit.
Context `{Target} {E : Type}.
Implicit Types (s t : list Z) (buf : list Z) (n : nat).

(** A writer that is called only where its text fits. *)
Definition puts (w : st (list Z * nat) E unit) t : Prop :=
  ∀ buf n, (n + length t ≤ length buf)%nat → w (buf, n) = ((splice buf n t, (n + length t)%nat), Ok tt).
(** A writer that checks: it writes its text, or reports that it does not fit. *)
Definition fits (w : st (list Z * nat) E bool) t : Prop :=
  ∀ buf n, (n ≤ length buf)%nat → usize_ok (length buf) →
    if (n + length t <=? length buf)%nat then w (buf, n) = ((splice buf n t, (n + length t)%nat), Ok true)
    else ∃ x, w (buf, n) = (x, Ok false).

Lemma puts_bind (w1 w2 : st (list Z * nat) E unit) s t : puts w1 s → puts w2 t → puts (w1;; w2) (s ++ t).
Proof.
  intros H1 H2 buf n Hn. rewrite length_app in *. unbind. rewrite H1 by lia. rewrite H2 by (rewrite length_splice; lia).
  by rewrite splice_splice, Nat.add_assoc by lia.
Qed.
Lemma puts_byte b : puts (put_byte b) [b].
Proof. intros buf n Hn. cbn [length] in *. unfold put_byte. unbind. rewrite set_idx_ok by lia. done. Qed.
Lemma puts_nil : puts (mret tt) [].
Proof. intros buf n Hn. by rewrite splice_nil, Nat.add_0_r. Qed.
Lemma fits_then (w1 w2 : st (list Z * nat) E bool) s t :
  fits w1 s → fits w2 t → fits (b ← w1; if negb (b : bool) then mret false else w2) (s ++ t).
Proof.
  intros H1 H2 buf n Hn Hb. specialize (H1 buf n Hn Hb). rewrite length_app. unbind.
  destruct (Nat.leb_spec (n + length s) (length buf)).
  - rewrite H1. cbn beta iota delta [negb]. specialize (H2 (splice buf n s) (n + length s)%nat). rewrite !length_splice in H2 by lia. specialize (H2 ltac:(lia) Hb).
    rewrite <- Nat.add_assoc in H2. destruct (Nat.leb_spec (n + (length s + length t)) (length buf)); [|exact H2].
    by rewrite H2, splice_splice by lia.
  - destruct H1 as [x ->]. rewrite (proj2 (Nat.leb_gt _ _)) by lia. by eexists.
Qed.
Lemma fits_nil : fits (mret true) [].
Proof. intros buf n Hn Hb. rewrite Nat.add_0_r, (proj2 (Nat.leb_le _ _)) by done. by rewrite splice_nil. Qed.

(** ** Links of paths *)
Definition enc_byte (b : Z) : list Z := if uri_path_byte_is_literal b then [b] else [37; hex_digit (b / 16); hex_digit (b mod 16)].
Definition enc (segment : list Z) : list Z := concat (map enc_byte segment).
Definition slashed (segs : list (list Z)) : list Z := concat (map (fun segment => 47 :: enc segment) segs).
Definition target_of (segs : list (list Z)) : list Z := if is_nil segs then [47] else slashed segs.
Definition link_of (segs : list (list Z)) : list Z := 60 :: target_of segs ++ [62].

Lemma HEX_digit d : 0 ≤ d < 16 → idx (E:=E) HEX (Z.to_nat d) = Ok (hex_digit d).
Proof.
  intros Hd. assert (d = 0 ∨ d = 1 ∨ d = 2 ∨ d = 3 ∨ d = 4 ∨ d = 5 ∨ d = 6 ∨ d = 7 ∨ d = 8 ∨ d = 9 ∨ d = 10 ∨ d = 11 ∨ d = 12 ∨ d = 13 ∨ d = 14 ∨ d = 15) as Hc by lia.
  repeat (destruct Hc as [->|Hc]; [done|]). by subst.
Qed.
Lemma puts_enc_byte b : in_u 8 b → puts (if uri_path_byte_is_literal b then put_byte b else put_escape b) (enc_byte b).
Proof.
  intros Hb. unfold enc_byte. destruct (uri_path_byte_is_literal b); [apply puts_byte|]. intros buf n Hn. cbn [length] in *.
  unfold put_escape. unbind. unfold in_u in Hb. rewrite (shiftr_pow b 4), (land_mask b 4 15) by done. change (2 ^ 4) with 16.
  rewrite set_idx_ok by lia. rewrite HEX_digit by div_lia. rewrite set_idx_ok by (rewrite length_splice; simpl; lia).
  rewrite HEX_digit by div_lia. rewrite set_idx_ok by (rewrite !length_splice; rewrite ?length_splice; simpl; lia).
  by rewrite (splice_splice buf [37]), (splice_splice buf _ _ n (n + 2)) by (simpl; lia).
Qed.
Lemma puts_segment segment : bytes_ok segment → puts (put_segment segment) (enc segment).
Proof. induction 1 as [|b segment Hb Hs IH]; [apply puts_nil|]. apply (puts_bind _ _ (enc_byte b)); [by apply puts_enc_byte|done]. Qed.
Lemma puts_segments segs : Forall bytes_ok segs → puts (put_segments segs) (slashed segs).
Proof.
  induction 1 as [|segment segs Hb Hs IH]; [apply puts_nil|]. change (slashed (segment :: segs)) with ([47] ++ enc segment ++ slashed segs).
  apply puts_bind; [apply puts_byte|]. apply puts_bind; [by apply puts_segment|done].
Qed.

(** The length that is computed before anything is written. *)
Lemma segment_bytes_spec limit segment : ∀ n, (n ≤ limit)%nat → usize_ok limit →
  segment_bytes limit n segment = if (n + length (enc segment) <=? limit)%nat then Some (n + length (enc segment))%nat else None.
Proof.
  induction segment as [|b segment IH]; intros n Hn Hl; cbn [segment_bytes].
  - cbn. by rewrite Nat.add_0_r, (proj2 (Nat.leb_le _ _)).
  - change (enc (b :: segment)) with (enc_byte b ++ enc segment). rewrite length_app.
    assert (length (enc_byte b) = if uri_path_byte_is_literal b then 1 else 3)%nat as -> by (unfold enc_byte; by case_match).
    set (k := (if uri_path_byte_is_literal b then 1 else 3)%nat). unfold usize_checked_add, usize_ok in *.
    destruct (Z.leb_spec (Z.of_nat (n + k)) usize_max) as [Hk|Hk]; cbn.
    + destruct (Nat.leb_spec (n + k) limit) as [Hle|Hgt]; [rewrite IH by done; by rewrite <- Nat.add_assoc|].
      by rewrite (proj2 (Nat.leb_gt _ _)) by lia.
    + by rewrite (proj2 (Nat.leb_gt _ _)) by lia.
Qed.
Lemma segments_bytes_spec limit segs : ∀ total, usize_ok limit → (total ≤ limit ∨ segs ≠ [])%nat →
  segments_bytes limit total segs = if (total + length (slashed segs) <=? limit)%nat then Some (total + length (slashed segs))%nat else None.
Proof.
  induction segs as [|segment segs IH]; intros total Hl Ht; cbn [segments_bytes].
  - destruct Ht as [Ht|]; [|done]. cbn. by rewrite Nat.add_0_r, (proj2 (Nat.leb_le _ _)).
  - change (slashed (segment :: segs)) with (47 :: enc segment ++ slashed segs). cbn [length]. rewrite length_app.
    unfold usize_checked_add, usize_ok in *. destruct (Z.leb_spec (Z.of_nat (total + 1)) usize_max) as [Hm|Hm]; cbn [mbind option_bind];
      [|by rewrite (proj2 (Nat.leb_gt _ _)) by lia].
    destruct (Nat.ltb_spec limit (total + 1)); [by rewrite (proj2 (Nat.leb_gt _ _)) by lia|].
    rewrite segment_bytes_spec by done. destruct (Nat.leb_spec (total + 1 + length (enc segment)) limit) as [Hle|Hgt]; cbn.
    + rewrite IH by (try done; by left).
      by replace (total + S (length (enc segment) + length (slashed segs)))%nat with (total + 1 + length (enc segment) + length (slashed segs))%nat by lia.
    + by rewrite (proj2 (Nat.leb_gt _ _)) by lia.
Qed.
Lemma link_bytes_spec segs limit : usize_ok limit → link_bytes segs limit = if (length (link_of segs) <=? limit)%nat then Some (length (link_of segs)) else None.
Proof.
  intros Hl. unfold link_bytes, link_of, target_of. destruct segs as [|segment segs]; [done|]. cbn [is_nil].
  rewrite segments_bytes_spec by (try done; by right). cbn [length]. rewrite length_app. cbn [length].
  by replace (S (length (slashed (segment :: segs)) + 1)) with (2 + length (slashed (segment :: segs)))%nat by lia.
Qed.

Lemma fits_link segs : Forall bytes_ok segs → fits (write_path_link segs) (link_of segs).
Proof.
  intros Hs buf n Hn Hb. unfold write_path_link. unbind. rewrite link_bytes_spec by (unfold usize_ok in *; lia).
  destruct (Nat.leb_spec (n + length (link_of segs)) (length buf)).
  - rewrite (proj2 (Nat.leb_le _ _)) by lia.
    assert (puts (put_byte 60;; (if is_nil segs then put_byte 47 else put_segments segs);; put_byte 62) (link_of segs)) as He.
    { change (link_of segs) with ([60] ++ target_of segs ++ [62]). apply puts_bind; [apply puts_byte|]. apply puts_bind; [|apply puts_byte].
      unfold target_of. destruct segs; [apply puts_byte|by apply puts_segments]. }
    specialize (He buf n ltac:(done)). revert He. unbind. destruct (put_byte 60 (buf, n)) as [x []]; try done. cbn.
    destruct ((if is_nil segs then put_byte 47 else put_segments segs) x) as [y []]; try done. by intros ->.
  - rewrite (proj2 (Nat.leb_gt _ _)) by lia. by eexists.
Qed.
Lemma fits_metadata md u : Metadata_validate md = Ok u → fits (put_metadata md) (attrs_wire (md_attrs md)).
Proof.
  intros Hv buf n Hn Hb. unfold put_metadata. rewrite (proj2 (Nat.leb_le n (length buf))) by done.
  rewrite write_into_spec by (unfold usize_ok in *; rewrite length_drop; lia). rewrite Hv, length_drop.
  destruct (Nat.leb_spec (n + length (attrs_wire (md_attrs md))) (length buf)) as [Hf|Hf].
  - rewrite (proj2 (Nat.leb_le _ _)) by lia. f_equal. f_equal. unfold splice. rewrite take_0. cbn [app]. by rewrite drop_drop.
  - rewrite (proj2 (Nat.leb_gt _ _)) by lia. by eexists.
Qed.
End emit.

(** ** Reading a link back *)
Lemma literal_facts b : uri_path_byte_is_literal b = true → uri_char b = true ∧ b ≠ 37 ∧ b ≠ 47.
Proof.
  unfold uri_path_byte_is_literal, uri_char. intros Hb. split_and!.
  - apply orb_true_iff in Hb as [->|Hb]; [done|]. apply orb_true_iff. right. apply one_of_In in Hb. unfold one_of. apply existsb_exists. exists b.
    split; [|apply Z.eqb_refl]. apply list_elem_of_In. revert Hb. vm_compute. set_solver.
  - by intros ->.
  - by intros ->.
Qed.
Lemma enc_byte_facts b : in_u 8 b → uri_chars (enc_byte b) = true ∧ well_escaped (enc_byte b) ∧ decoded (enc_byte b) = [b] ∧ 47 ∉ enc_byte b.
Proof.
  intros Hb. unfold enc_byte. destruct (uri_path_byte_is_literal b) eqn:El.
  - apply literal_facts in El as (Hu & H37 & H47). unfold well_escaped. cbn [uri_chars decoded chars_allowed]. rewrite Hu, (proj2 (Z.eqb_neq _ _)) by done.
    split_and!; [done..|set_solver].
  - assert (unreserved b = false) as Eu.
    { unfold uri_path_byte_is_literal, unreserved in *. destruct (is_ascii_alphanumeric b); [done|]. cbn [orb] in *. apply not_true_is_false. intros Hu.
      apply not_true_iff_false in El. destruct El. unfold one_of in *. rewrite existsb_exists in *. destruct Hu as (x & Hx & He). exists x.
      split; [|done]. apply list_elem_of_In. apply list_elem_of_In in Hx. revert Hx. vm_compute. set_solver. }
    destruct (pct_byte_facts b Hb) as (_ & Hw & Hd). unfold pct_byte in Hw, Hd. rewrite Eu in Hw, Hd. split_and!; [|done|done|]; unfold in_u in Hb.
    + assert (∀ d, 0 ≤ d < 16 → is_ascii_hexdigit (hex_digit d) = true) as Hh.
      { intros d Hr. unfold is_ascii_hexdigit, is_ascii_digit, between, hex_digit. destruct (Z.ltb_spec d 10); lia. }
      cbn [uri_chars]. change (37 =? 37) with true. cbn beta iota. by rewrite !Hh by div_lia.
    + assert (∀ d, 0 ≤ d < 16 → hex_digit d ≠ 47) as Hn by (intros d Hr; unfold hex_digit; destruct (Z.ltb_spec d 10); lia).
      pose proof (Hn (b / 16) ltac:(div_lia)). pose proof (Hn (b mod 16) ltac:(div_lia)). set_solver.
Qed.
Lemma uri_chars_app a r : uri_chars a = true → uri_chars (a ++ r) = uri_chars r.
Proof.
  induction a as [a IH] using (induction_ltof1 _ length). unfold ltof in IH. destruct a as [|b a]; [done|]. cbn [app uri_chars].
  destruct (b =? 37).
  - destruct a as [|h [|l a]]; cbn [app]; [done..|]. destruct (is_ascii_hexdigit h), (is_ascii_hexdigit l); try done. cbn [andb]. apply IH. simpl. lia.
  - destruct (uri_char b); [|done]. cbn [andb]. apply IH. simpl. lia.
Qed.
Lemma enc_facts segment : bytes_ok segment → uri_chars (enc segment) = true ∧ decoded (enc segment) = segment ∧ 47 ∉ enc segment.
Proof.
  induction 1 as [|b segment Hb Hs (IH1 & IH2 & IH3)]; [split_and!; [done|done|set_solver]|].
  change (enc (b :: segment)) with (enc_byte b ++ enc segment). destruct (enc_byte_facts b Hb) as (Hu & Hw & Hd & Hn).
  rewrite uri_chars_app, decoded_app, Hd, IH2 by done. split_and!; [done|done|]. by rewrite elem_of_app; intros [].
Qed.
Lemma slashed_join segs : segs ≠ [] → slashed segs = 47 :: join 47 (map enc segs).
Proof.
  induction segs as [|segment segs IH]; [done|]. intros _. change (slashed (segment :: segs)) with (47 :: enc segment ++ slashed segs). f_equal.
  destruct segs as [|segment' segs]; [by rewrite app_nil_r|]. cbn [map]. rewrite join_cons by done. by rewrite IH by done.
Qed.
Lemma target_uri segs : Forall bytes_ok segs → uri_chars (target_of segs) = true.
Proof.
  intros Hs. unfold target_of. destruct (is_nil segs); [done|]. induction Hs as [|segment segs Hb Hs IH]; [done|].
  change (slashed (segment :: segs)) with ([47] ++ enc segment ++ slashed segs). rewrite uri_chars_app by done. by rewrite uri_chars_app by apply enc_facts, Hb.
Qed.
(** A reader of the target finds the segments. *)
Lemma target_segments segs u : Forall bytes_ok segs → segs_ok segs → ur_path u = target_of segs → map decoded (path_segments u) = segs.
Proof.
  intros Hs [_ Hok] Hu. unfold path_segments. rewrite Hu. unfold target_of. destruct segs as [|segment segs]; [done|]. cbn [is_nil].
  rewrite slashed_join by done. cbn [is_nil orb].
  assert (join 47 (map enc (segment :: segs)) ≠ []) as Hne.
  { rewrite seg_error_cons in Hok. destruct segment as [|b segment]; [done|]. apply Forall_cons in Hs as [Hb _]. apply Forall_cons in Hb as [Hb _].
    destruct (enc_byte_facts b Hb) as (_ & _ & Hd & _). assert (enc_byte b ≠ []) as Hnb by (intros He; by rewrite He in Hd).
    assert (∃ x r, enc (b :: segment) = x :: r) as (x & r & Hx).
    { change (enc (b :: segment)) with (enc_byte b ++ enc segment). destruct (enc_byte b); [done|by eexists _, _]. }
    cbn [map]. rewrite Hx. by destruct segs. }
  unfold eqb. rewrite bool_decide_eq_false_2 by (intros He; by injection He).
  assert (strip_prefix (lit "/") (47 :: join 47 (map enc (segment :: segs))) = Some (join 47 (map enc (segment :: segs)))) as -> by done.
  rewrite split_join; [|done|].
  - rewrite map_map. clear Hok Hne Hu. induction Hs as [|x l Hx Hl IH]; [done|]. cbn [map]. f_equal; [by apply enc_facts|done].
  - apply Forall_map. eapply Forall_impl; [exact Hs|]. intros x Hx. by apply enc_facts.
Qed.

(** ** What a site can hold *)
Section catalog.
Context {T : Type} `{Target}.
Implicit Types (s : Site T) (e : SiteEntry T).
Abbreviation Routes := (gmap (list (list Z)) (MethodRouter T * option Metadata)).

(** The values are of the types the arguments have: text is bytes, a router
    has one place per method, metadata holds machine integers. *)
Definition op_typed (op : site_op (T:=T)) : Prop :=
  match op with
  | SRoute path methods =>
      match path with PathSegments segs => Forall bytes_ok segs | PathText text => bytes_ok text end ∧ length (mr_handlers methods) = METHOD_COUNT
  | SMetadata _ (Some md) => md_typed md
  | _ => True
  end.
Definition md_ok (o : option Metadata) : Prop := match o with Some md => md_typed md ∧ Metadata_validate md = Ok tt | None => True end.
Definition route_typed (segs : list (list Z)) (v : MethodRouter T * option Metadata) : Prop :=
  Forall bytes_ok segs ∧ length (mr_handlers v.1) = METHOD_COUNT ∧ md_ok v.2.

Lemma pieces_bytes text : bytes_ok text → Forall bytes_ok (pieces text).
Proof.
  intros Ht. assert (∀ x, bytes_ok x → bytes_ok (trim_start 47 x)) as Hs.
  { induction x as [|b x IH]; [done|]. intros Hs. cbn. destruct (b =? 47); [|done]. apply IH. by apply Forall_cons in Hs as [_ Hs]. }
  specialize (Hs _ Ht). unfold pieces. destruct (is_nil _); [constructor|]. revert Hs. generalize (trim_start 47 text). clear.
  intros x Hx. rewrite <- (join_split 47 x) in Hx. revert Hx. generalize (split 47 x). intros l. induction l as [|w l IH]; [done|].
  destruct l as [|w' l]; [by constructor|]. rewrite join_cons, bytes_ok_app, bytes_ok_cons by done. intros (Hw & _ & Hr). constructor; [done|by apply IH].
Qed.
Lemma path_spec_bytes path segs : path_spec path = Ok segs →
  match path with PathSegments l => Forall bytes_ok l | PathText text => bytes_ok text end → Forall bytes_ok segs.
Proof.
  destruct path as [l|text]; cbn [path_spec].
  - destruct (_ <? _)%nat; [done|]. destruct (find_map _ _); [done|]. by intros [= <-].
  - destruct (find_map _ _); [done|]. destruct (_ <? _)%nat; [done|]. intros [= <-]. apply pieces_bytes.
Qed.
Lemma abs_op_typed (N : nat) (op : site_op (T:=T)) (m : Routes) : op_typed op → map_Forall route_typed m → map_Forall route_typed (abs_op N op m).1.
Proof.
  intros Hop Hm. destruct op as [path methods|path|path md|]; cbn [abs_op]; [..|done]; unfold named;
    (destruct (path_spec path) as [segs| | |] eqn:Ep; [|done..]).
  - cbn in Hop. destruct Hop as [Hb Hl]. pose proof (path_spec_bytes _ _ Ep Hb) as Hs. destruct (m !! segs) as [[r md]|] eqn:Em.
    + apply map_Forall_insert_2; [|done]. destruct (Hm _ _ Em) as (_ & _ & ?). by split_and!.
    + destruct (_ <? _)%nat; [|done]. apply map_Forall_insert_2; [|done]. by split_and!.
  - by apply map_Forall_delete.
  - destruct (from_option _ _ md) eqn:El; [|done..]. destruct (m !! segs) as [[r md']|] eqn:Em; [|done].
    apply map_Forall_insert_2; [|done]. destruct (Hm _ _ Em) as (Hs & Hl & _). split_and!; [done|done|]. destruct md as [md|]; [|done].
    cbn in *. rewrite encoded_len_spec in El. revert El. unbind. destruct (Metadata_validate md) as [[]| | |]; [|done..]. done.
Qed.
Lemma abs_run_typed (N : nat) (ops : list (site_op (T:=T))) : ∀ m : Routes, Forall op_typed ops → map_Forall route_typed m → map_Forall route_typed (abs_run N ops m).1.
Proof.
  induction ops as [|op ops IH]; intros m Hops Hm; [done|]. apply Forall_cons in Hops as [Hop Hops]. cbn [abs_run].
  pose proof (abs_op_typed N op m Hop Hm) as H1. destruct (abs_op N op m) as [m1 r]. specialize (IH m1 Hops H1). by destruct (abs_run N ops m1).
Qed.
Lemma site_reached_typed (N : nat) (ops : list site_op) s : usize_ok N → Forall op_typed ops → (site_run ops (Site_new N)).1 = s → site_inv s ∧ map_Forall route_typed (site_map s).
Proof.
  intros HN Hops <-. split; [by eapply site_reached|]. pose proof (site_run_sim ops (Site_new N) (Site_new_inv N HN)) as Hr.
  pose proof (abs_run_typed (length (si_entries (Site_new (T:=T) N))) ops (site_map (Site_new N)) Hops) as Ht.
  rewrite site_map_new in *.
  destruct (site_run _ _) as [s rs]. destruct Hr as (Heq & _). rewrite Heq in Ht. apply Ht. apply map_Forall_empty.
Qed.

(** ** The catalog *)
Definition entry_of e : entry := (target_of (key e), from_option md_attrs [] (se_metadata e)).
Fixpoint links_text (first : bool) (es : list (SiteEntry T)) : list Z :=
  match es with [] => [] | e :: es => (if first then [] else [44]) ++ entry_wire (entry_of e) ++ links_text false es end.
Definition catalog s : list Z := join 44 (entry_wire <$> (entry_of <$> omap id (si_entries s))).
Definition entry_typed e : Prop := segs_ok (key e) ∧ se_path e = path_of (key e) ∧ Forall bytes_ok (key e) ∧ md_ok (se_metadata e).

Lemma links_text_join es : links_text true es = join 44 (entry_wire <$> (entry_of <$> es)).
Proof.
  destruct es as [|e es]; [done|]. cbn [links_text app]. revert e. induction es as [|e' es IH]; intros e; [by rewrite app_nil_r|].
  cbn [links_text app]. rewrite IH, !fmap_cons. symmetry. by apply join_cons.
Qed.
Lemma fits_entry {E} e (w : st (list Z * nat) E bool) t : entry_typed e → fits w t →
  fits (segs ← st_lift (segments (se_path e));
        fits ← write_path_link segs;
        if negb (fits : bool) then mret false
        else
          fits ← (match se_metadata e with Some metadata => put_metadata metadata | None => mret true end);
          if negb (fits : bool) then mret false else w) (entry_wire (entry_of e) ++ t).
Proof.
  intros ([Hl _] & Hp & Hb & Hm) Hw. rewrite Hp.
  replace (entry_wire (entry_of e) ++ t) with (link_of (key e) ++ attrs_wire (from_option md_attrs [] (se_metadata e)) ++ t)
    by (unfold entry_wire, entry_of, link_of; cbn [fst snd app]; by rewrite <- !app_assoc).
  pose (w' := (b ← (match se_metadata e with Some metadata => put_metadata metadata | None => mret true end); if negb (b : bool) then mret false else w) : st (list Z * nat) E bool).
  assert (fits (b ← write_path_link (key e); if negb (b : bool) then mret false else w') (link_of (key e) ++ attrs_wire (from_option md_attrs [] (se_metadata e)) ++ t)) as Hf.
  { apply fits_then; [by apply fits_link|]. apply fits_then; [|exact Hw]. destruct (se_metadata e) as [md|]; [|apply fits_nil].
    destruct Hm as [_ Hm]. by eapply fits_metadata. }
  intros buf n Hn Hu. specialize (Hf buf n Hn Hu). revert Hf. unfold w'. unbind. by rewrite segments_path_of by done.
Qed.
Lemma fits_links {E} es : ∀ first, Forall entry_typed es → fits (put_links (E:=E) first es) (links_text first es).
Proof.
  induction es as [|e es IH]; intros first Hes; [apply fits_nil|]. apply Forall_cons in Hes as [He Hes].
  pose proof (fits_entry (E:=E) e (put_links false es) _ He (IH false Hes)) as Hf. intros buf n Hn Hu. cbn [links_text put_links].
  destruct first; cbn [app negb andb]; [specialize (Hf buf n Hn Hu); revert Hf; by unbind|]. cbn [length]. unbind.
  destruct (Nat.leb_spec (length buf) n); [rewrite (proj2 (Nat.leb_gt _ _)) by lia; by eexists|].
  rewrite (puts_byte (E:=E) 44 buf n) by (simpl; lia). specialize (Hf (splice buf n [44]) (n + 1)%nat).
  rewrite length_splice in Hf by (simpl; lia). specialize (Hf ltac:(lia) Hu). revert Hf. unbind. set (t := entry_wire _ ++ _).
  replace (n + 1 + length t)%nat with (n + S (length t))%nat by lia. destruct (Nat.leb_spec (n + S (length t)) (length buf)); [|done].
  rewrite splice_splice; [|done|lia]. done.
Qed.

(** The response that carries a catalog. *)
Lemma catalog_response (body : list Z) : (length body ≤ RESPONSE_BODY)%nat →
  ∃ r : Response T,
    (response ← payload_copy_full (E:=ResponseError) (Response_new Code_CONTENT) body;
     etag (content_format response CF_LINK_FORMAT) (catalog_etag body)) = Ok r ∧
    rs_code r = Code_CONTENT ∧ rs_content_format r = Some CF_LINK_FORMAT ∧ Response_payload (E:=ResponseError) r = Ok body ∧
    etag_bytes (E:=ResponseError) r = Ok (Some (catalog_etag body)) ∧ Response_validate r = Ok tt.
Proof.
  intros Hb. destruct (body_set (T:=T) (Response_new Code_CONTENT) body) as (r & Hr & Hp & Hv). cbn [rs_invalid Response_new] in Hv.
  rewrite (proj2 (Nat.ltb_ge _ _)) in Hv by done. rewrite take_ge in Hp by done.
  assert (rs_code r = Code_CONTENT ∧ rs_etag r = replicate 8 0) as [Hc He].
  { revert Hr. unfold payload_copy_full, payload_copy. unbind. repeat case_match; try done; by intros [= <-]. }
  rewrite Hr. unfold etag. assert (length (catalog_etag body) = 4%nat) as Hl by apply length_be_bytes. unbind. rewrite Hl. cbn [Nat.leb andb negb].
  cbn [content_format put_content_format rs_etag]. rewrite He. rewrite copy_into_ok; [|by rewrite Hl|rewrite length_replicate; lia].
  eexists. split; [done|]. by split_and!.
Qed.

Lemma holds_typed s : site_inv s → map_Forall route_typed (site_map s) → Forall entry_typed (omap id (si_entries s)).
Proof.
  intros Hi Ht. apply Forall_forall. intros e [k Hk]%elem_of_slots. destruct (inv_paths s Hi k e Hk) as [Hok Hp].
  destruct (Ht (key e) (se_methods e, se_metadata e)) as (Hb & _ & Hm); [apply site_map_lookup; [done|by exists k, e]|]. by split_and!.
Qed.
Lemma entry_of_ok e : entry_typed e → entry_ok (entry_of e).
Proof.
  intros (_ & _ & Hb & Hm). unfold entry_of. split_and!; cbn [fst snd]; [by apply target_uri|..]; (destruct (se_metadata e) as [md|]; cbn [from_option];
    [destruct Hm as [Hm Hv]|]); [by eapply md_attrs_ok|constructor|by eapply md_attrs_valid|by exists 0].
Qed.
Lemma link_format_spec s storage : usize_ok (length storage) → Forall entry_typed (omap id (si_entries s)) →
  ∃ storage' r, link_format (E:=ResponseError) s storage = (storage', Ok r) ∧
    if (length (catalog s) <=? Nat.min RESPONSE_BODY (length storage))%nat
    then rs_code r = Code_CONTENT ∧ rs_content_format r = Some CF_LINK_FORMAT ∧ Response_payload (E:=ResponseError) r = Ok (catalog s) ∧
      etag_bytes (E:=ResponseError) r = Ok (Some (catalog_etag (catalog s))) ∧ Response_validate r = Ok tt
    else r = internal_error.
Proof.
  intros Hu He. set (cap := Nat.min RESPONSE_BODY (length storage)).
  assert (length (take cap storage) = cap) as Hcap by (rewrite length_take; lia).
  pose proof (fits_links (E:=ResponseError) _ true He (take cap storage) 0%nat ltac:(lia)) as Hf. rewrite Hcap, links_text_join in Hf. fold (catalog s) in Hf.
  specialize (Hf ltac:(unfold usize_ok in *; lia)). rewrite Nat.add_0_l in Hf. unfold link_format. fold cap.
  destruct (Nat.leb_spec (length (catalog s)) cap) as [Hle|Hgt].
  - rewrite Hf. cbn beta iota. unbind. cbn [negb]. rewrite slice_prefix by (rewrite length_splice; lia).
    replace (take (length (catalog s)) (splice (take cap storage) 0 (catalog s))) with (catalog s)
      by (unfold splice; rewrite take_0; cbn [app]; by rewrite take_app_length).
    destruct (catalog_response (catalog s) ltac:(lia)) as (r & Hr & Hrest). revert Hr. unbind. intros Hr. eexists _, r. split; [|exact Hrest]. by rewrite Hr.
  - destruct Hf as [[buf n] ->]. by eexists _, _.
Qed.
Lemma size_routes s : site_inv s →
  ((fun e => (key e, (se_methods e, se_metadata e))) <$> omap id (si_entries s)) ≡ₚ map_to_list (site_map s).
Proof.
  intros Hi. symmetry. apply map_to_list_to_map. rewrite <- list_fmap_compose. apply slots_NoDup. intros j k a b Ha Hb Hab. by eapply (inv_distinct s Hi).
Qed.

(** C26: Discovery tells the truth.  The catalog of a site, whatever its history,
    is refused with 5.00 only when its complete text exceeds the scratch or 4096
    bytes; otherwise the response carries a link-format document and its
    entity tag, and reading it back (the link parser, then the URI reader on each
    target) gives every route once, with its segments whatever bytes they
    contain, and with exactly the metadata that was attached to it. *)
Theorem catalog_lists_routes N (ops : list site_op) s storage :
  usize_ok N → Forall op_typed ops → (site_run ops (Site_new N)).1 = s → usize_ok (length storage) →
  ∃ storage' r text, link_format (E:=ResponseError) s storage = (storage', Ok r) ∧
    (if (length text <=? Nat.min RESPONSE_BODY (length storage))%nat
     then rs_code r = Code_CONTENT ∧ rs_content_format r = Some CF_LINK_FORMAT ∧ Response_payload (E:=ResponseError) r = Ok text ∧
       etag_bytes (E:=ResponseError) r = Ok (Some (catalog_etag text)) ∧ Response_validate r = Ok tt
     else rs_code r = Code_INTERNAL_SERVER_ERROR) ∧
    ∃ rows links, rows ≡ₚ map_to_list (site_map s) ∧ parse text = Ok <$> links ∧
      Forall2 (fun row link =>
        (∀ u, ur_path u = li_target link → map decoded (path_segments u) = row.1) ∧
        ∃ attrs, attributes (E:=LinkError) link = Ok attrs ∧ map logical attrs = from_option md_logical [] row.2.2) rows links.
Proof.
  intros HN Hops Hs Hu. destruct (site_reached_typed N ops s HN Hops Hs) as [Hi Ht]. pose proof (holds_typed s Hi Ht) as He.
  destruct (link_format_spec s storage Hu He) as (storage' & r & Hr & Hif). exists storage', r, (catalog s). split; [done|].
  split; [destruct (_ <=? _)%nat; [done|by rewrite Hif]|]. eexists _, (entry_link <$> (entry_of <$> omap id (si_entries s))).
  split; [by apply size_routes|]. assert (Forall entry_ok (entry_of <$> omap id (si_entries s))) as Hok.
  { apply Forall_fmap. eapply Forall_impl; [exact He|]. intros e. apply entry_of_ok. }
  split.
  - unfold parse, catalog. rewrite collect_wires; [by rewrite <- !list_fmap_compose|done|apply wires_length].
  - clear Hif Hr Hok. induction He as [|e es (Hok & Hp & Hb & Hm) He IH]; [constructor|]. constructor; [|exact IH]. cbn [fst snd]. split.
    + intros u Hur. by apply target_segments.
    + assert (entry_ok (entry_of e)) as (_ & Hf & _) by (apply entry_of_ok; by split_and!).
      exists (entry_of e).2. split; [unfold attributes; apply attributes_wire; [done|apply attrs_wire_length]|].
      unfold entry_of. cbn [snd]. destruct (se_metadata e) as [md|]; [|done]. destruct Hm as [Hm _]. by apply md_attrs_logical.
Qed.

(** ** Dispatch *)
Definition problem_with (code : Code) (text : list Z) (r : Response T) : Prop :=
  rs_code r = code ∧ Response_validate r = Ok tt ∧
  ∃ y, problem_details (E:=ResponseError) r = Ok (Some y) ∧ pd_code y = Some code ∧ pd_title y = Some (ProblemText_plain text) ∧ pd_detail y = None.
(** [Response::problem(code).title(text)], for a title that fits. *)
Lemma titled_problem code text :
  in_u 8 code → opt_str (Some text) → ¬ too_large code (Some text) None →
  ∃ r, (r ← Response_problem (E:=ResponseError) code; title r text) = Ok r ∧ problem_with code text r.
Proof.
  intros Hc Ht Hl. pose proof (new_ok (T:=T) code Hc) as Hn. assert (opt_str None) as Hno by done.
  destruct (problem_response (Response_new (T:=T) code) None None Hn Hno Hno ltac:(by left)) as (r1 & y1 & Hr1 & Hy1 & _ & _ & Hcase).
  assert (pd_detail y1 = None) as Hd by (by destruct Hcase as [[_ ?]|[(_ & _ & ?)|(_ & _ & _ & ?)]]).
  pose proof (problem_goes_on (Response_new (T:=T) code) None None Hn Hno Hno) as Hg. 
  assert (rs_code r1 = code ∧ rs_content_format r1 = Some CF_PROBLEM_DETAILS ∧ rs_invalid r1 = None ∧ response_ok r1) as (H1 & H2 & H3 & H4).
  { revert Hr1 Hg. unfold with_problem. unbind. cbn [rs_code put_content_format Response_new].
    destruct (problem_payload_spec (T:=T) code None None Hc Hno Hno) as (p & Hp & _). rewrite !Hp. intros [= <-] [Hok _]. by split_and!. }
  unfold Response_problem. unbind. rewrite Hr1. unfold title. unbind.
  assert (problem_field (E:=ResponseError) r1 FieldDetail = Ok None) as Hf.
  { revert Hy1. unfold problem_details, problem_field. rewrite H2. unfold eqb. rewrite bool_decide_eq_true_2 by done. cbn [negb]. unbind.
    destruct (Response_payload r1) as [b| | |]; try done. destruct (problem_decode b) as [y| | |]; try done. intros [= ->]. by rewrite Hd. }
  rewrite Hf. cbn [copy_problem_field].
  destruct (problem_response r1 (Some text) None H4 Ht Hno ltac:(by right)) as (r & y & Hr & Hy & Hcode & Hv & Hcase'). rewrite H1 in *.
  exists r. split; [done|]. split; [|split; [by apply Hv|]].
  - revert Hr. unfold with_problem. unbind. destruct (encode_problem_payload _ _ _); try done. by intros [= <-].
  - exists y. destruct Hcase' as [[? ?]|[(? & _)|(? & _)]]; by split_and!.
Qed.
Lemma short_text text : utf8_valid text && forallb (between 0 255) text && (length text <=? 128)%nat = true → opt_str (Some text).
Proof.
  rewrite !andb_true_iff, Nat.leb_le. intros [[Hv Hb] Hl] t [= <-]. pose proof usize_max_ge. split_and!; [done|unfold usize_ok; lia|].
  apply Forall_forall. intros b Hin. apply (forallb_elem _ _ _ Hb) in Hin. unfold between in Hin. unfold in_u. lia.
Qed.
Lemma not_allowed_problem : ∃ r, not_allowed (E:=ResponseError) = Ok r ∧ problem_with Code_METHOD_NOT_ALLOWED (lit "Method Not Allowed") r.
Proof. apply titled_problem; [by vm_compute|by apply short_text|]. intros Hl. unfold too_large in Hl. by vm_compute in Hl. Qed.
Lemma not_found_problem : ∃ r, site_not_found (E:=ResponseError) = Ok r ∧ problem_with Code_NOT_FOUND (lit "Not Found") r.
Proof. apply titled_problem; [by vm_compute|by apply short_text|]. intros Hl. unfold too_large in Hl. by vm_compute in Hl. Qed.

Lemma from_decoded_path (parsed : ParsedMessage T) peer body q : from_decoded parsed peer body = Ok q →
  ∃ segs, pm_uri_path (E:=PathError) parsed = Ok (Ok <$> segs) ∧ (length segs ≤ MAX_PATH_SEGMENTS)%nat ∧ rq_path q = path_of segs ∧
    rq_method q = Method_from_code (pm_code parsed).
Proof.
  unfold from_decoded, Path_from_message. unbind. destruct (pm_uri_path parsed) as [values| | |]; try done.
  destruct (message_segments Path_empty values) as [p| | |] eqn:Em; try done. intros [= <-].
  assert (Path_empty = path_of []) as He by (unfold path_of; by rewrite splice_nil). rewrite He in Em.
  apply message_segments_spec in Em as (segs & -> & _ & Hl & ->); [|simpl; lia]. by exists segs.
Qed.

(** What answered_by a request of [method] for [segs]. *)
Inductive answered_by s (q : Request T) (segs : list (list Z)) (storage : list Z) : list Z * res ResponseError (Response T) → Prop :=
  | ans_handler methods md method h :
      site_map s !! segs = Some (methods, md) → rq_method q = Some method → mr_handlers methods !! Method_index method = Some (Some h) →
      answered_by s q segs storage (storage, Ok (h q))
  | ans_unbound methods md r :
      site_map s !! segs = Some (methods, md) → (∀ method, rq_method q = Some method → mr_handlers methods !! Method_index method = Some None) →
      problem_with Code_METHOD_NOT_ALLOWED (lit "Method Not Allowed") r → answered_by s q segs storage (storage, Ok r)
  | ans_catalog :
      site_map s !! segs = None → si_well_known s = true → segs = WELL_KNOWN → rq_method q = Some Get →
      answered_by s q segs storage (link_format s storage)
  | ans_catalog_method r :
      site_map s !! segs = None → si_well_known s = true → segs = WELL_KNOWN → rq_method q ≠ Some Get →
      problem_with Code_METHOD_NOT_ALLOWED (lit "Method Not Allowed") r → answered_by s q segs storage (storage, Ok r)
  | ans_unknown r :
      site_map s !! segs = None → si_well_known s = false ∨ segs ≠ WELL_KNOWN →
      problem_with Code_NOT_FOUND (lit "Not Found") r → answered_by s q segs storage (storage, Ok r).

(** C28: Every request gets the answer its path and method name.  A decoded
    request is given to the handler bound to its method on the route with exactly
    its Uri-Path options; a registered path without that method, or with a code
    that is no method, is 4.05, an unknown path 4.04, both with problem
    details.  Only a GET of [/.well-known/core] on a site that serves it, and
    has no route of its own there, uses the scratch storage.  Nothing panics. *)
Theorem dispatch_exact N (ops : list site_op) s (parsed : ParsedMessage T) peer body q storage :
  usize_ok N → Forall op_typed ops → (site_run ops (Site_new N)).1 = s → from_decoded parsed peer body = Ok q →
  ∃ segs, pm_uri_path (E:=PathError) parsed = Ok (Ok <$> segs) ∧ rq_method q = Method_from_code (pm_code parsed) ∧
    answered_by s q segs storage (dispatch s q storage).
Proof.
  intros HN Hops Hs Hq. destruct (site_reached_typed N ops s HN Hops Hs) as [Hi Ht]. destruct (from_decoded_path parsed peer body q Hq) as (segs & Hv & Hl & Hp & Hmeth).
  exists segs. split_and!; [done|done|]. unfold dispatch, request_path. unbind. rewrite Hp, segments_path_of by done.
  destruct not_allowed_problem as (r405 & H405 & P405). destruct not_found_problem as (r404 & H404 & P404).
  destruct (path_found s segs Hi) as ([k|] & -> & Hd).
  - destruct Hd as (e & Hk & Hkey & -> & Hm). destruct (Ht _ _ Hm) as (_ & Hh & _). cbn [fst] in Hh.
    destruct (rq_method q) as [method|] eqn:Em; [|rewrite H405; eapply ans_unbound; [exact Hm|by rewrite Em|done]].
    unfold router_call. unbind. unfold idx.
    destruct (lookup_lt_is_Some_2 (mr_handlers (se_methods e)) (Method_index method)) as [o Ho]; [rewrite Hh; by destruct method; vm_compute; lia|].
    rewrite Ho. destruct o as [h|]; [by eapply ans_handler|]. rewrite H405. eapply ans_unbound; [done| |done]. rewrite Em. by intros ? [= <-].
  - destruct Hd as [_ Hm]. destruct (si_well_known s) eqn:Ew; cbn [andb]; [|rewrite H404; apply ans_unknown; auto].
    unfold eqb. destruct (bool_decide_reflect (segs = WELL_KNOWN)); [|rewrite H404; apply ans_unknown; auto].
    destruct (rq_method q) as [[]|] eqn:Em; try (rewrite H405; apply ans_catalog_method; by rewrite ?Em). by apply ans_catalog.
Qed.
End catalog.

(** ** Witnesses *)
#[local] Existing Instance target64.
Definition ex_handler : HandlerFn Token := fun q => if has_body q then changed else content (pm_payload _ (rq_message q)).
Definition ex_router : MethodRouter Token := match router_get (E:=unit) MethodRouter_new ex_handler with Ok r => r | _ => MethodRouter_new end.
Definition ex_ops : list (site_op (T:=Token)) :=
  [SRoute (PathText (lit "/a b/x")) ex_router; SMetadata (PathSegments [lit "a b"; lit "x"]) (Some ex_meta);
   SRoute (PathText (lit "y")) ex_router; SRoute (PathText (lit "z")) ex_router; SRemove (PathText (lit "a//b")); SWellKnown].
Definition ex_site : Site Token := (site_run ex_ops (Site_new 2)).1.
Lemma ex_usize : usize_ok 2.
Proof. done. Qed.
Lemma ex_ops_typed : Forall op_typed ex_ops.
Proof.
  assert (∀ text, forallb (between 0 255) text = true → bytes_ok text) as Hb.
  { intros text Ht. apply Forall_forall. intros b Hin. apply (forallb_elem _ _ _ Ht) in Hin. unfold between in Hin. unfold in_u. lia. }
  repeat constructor; try (by apply Hb); unfold in_u; simpl; lia.
Qed.

Lemma site_refines_map_witness :
  (site_run ex_ops (Site_new 2)).2 = [Ok true; Ok true; Ok true; Err RouteFull; Err (RoutePath PathEmptySegment); Ok true] ∧ si_len ex_site = 2%nat.
Proof.
  pose proof (site_refines_map 2 ex_ops ex_usize) as Hr. unfold ex_site. destruct (site_run ex_ops (Site_new 2)) as [s rs].
  cbn [fst snd]. destruct (abs_run 2 ex_ops ∅) as [m rs'] eqn:Ea. destruct Hr as (-> & _ & -> & _). vm_compute in Ea. injection Ea as <- <-. split; reflexivity.
Defined.
Lemma route_identity_witness :
  observe_resource (E:=RouteError) (run_op (SRemove (PathText (lit "a b/x"))) ex_site).1 [lit "y"] = Ok (app_route 1).
Proof.
  pose proof (route_identity 2 ex_ops ex_site [lit "y"] ex_usize eq_refl) as Hr.
  assert (∃ methods md, site_map ex_site !! [lit "y"] = Some (methods, md)) as (methods & md & Hm) by (eexists _, _; vm_compute; reflexivity).
  rewrite Hm in Hr. destruct Hr as (r & Hr & _ & _ & _ & Hk). assert (r = app_route 1) as -> by (vm_compute in Hr; by injection Hr).
  apply Hk. eexists. vm_compute. reflexivity.
Defined.
Definition ex_site_peer : Endpoint := mkEndpoint (replicate 16 7) 0 0 5683 true.
Definition ex_get : ParsedMessage Token :=
  mkParsed _ (mkHeader 1 Confirmable 0 Code_GET 77) Token_EMPTY (options_wire 0 [mkOpt ON_URI_PATH (lit "a b"); mkOpt ON_URI_PATH (lit "x")]) [7].
Lemma dispatch_exact_witness :
  ∃ q segs, from_decoded ex_get ex_site_peer None = Ok q ∧ pm_uri_path (E:=PathError) ex_get = Ok (Ok <$> segs) ∧
    answered_by ex_site q segs (replicate 4 0) (dispatch ex_site q (replicate 4 0)).
Proof.
  destruct (from_decoded ex_get ex_site_peer None) as [q| | |] eqn:Eq; [|by vm_compute in Eq..].
  destruct (dispatch_exact 2 ex_ops ex_site ex_get ex_site_peer None q (replicate 4 0) ex_usize ex_ops_typed eq_refl Eq) as (segs & Hs & _ & Ha).
  by exists q, segs.
Defined.
Lemma catalog_lists_routes_witness :
  ∃ storage r text, link_format (E:=ResponseError) ex_site (replicate 192 0) = (storage, Ok r) ∧
    (if (length text <=? 192)%nat then Response_payload (E:=ResponseError) r = Ok text else rs_code r = Code_INTERNAL_SERVER_ERROR) ∧
    ∃ links, parse text = Ok <$> links ∧ length links = 2%nat.
Proof.
  destruct (catalog_lists_routes 2 ex_ops ex_site (replicate 192 0) ex_usize ex_ops_typed eq_refl) as (storage & r & text & Hf & Hif & rows & links & Hp & Hl & H2);
    [done|]. exists storage, r, text. split; [exact Hf|]. split.
  - change (Nat.min RESPONSE_BODY (length (replicate 192 0))) with 192%nat in Hif. destruct (length text <=? 192)%nat; [apply Hif|exact Hif].
  - exists links. split; [exact Hl|]. apply Forall2_length in H2. rewrite <- H2, (Permutation_length Hp). vm_compute. reflexivity.
Defined.
