(* ===== verification/AppCalls.v ===== *)
(** * Outstanding calls of a client

    [src/app/client.rs]: the rows a client keeps for its outstanding requests
    ([ClientLives]), the query values and the canonical request a row retains
    ([RetainedQueries], [ObserveRequest]), the cool-downs a server asks for,
    the freshness of notifications, and the token of a new call.

    A [&str] is its bytes.  [values] is an iterator in the source, compared by
    [Iterator::eq]; here it is the list of its items, so a slice out of range
    is a panic of the whole list.  [retained_values] shows that no row built
    by the program has one. *)
From S2P Require Import Prelude Errors MsgTypes Options Encode Decode Codec OptionsBuilder OptionValues MessageOptions MissingBlocks.
From S2P Require Import Occupancy Pending DatagramPool PendingCons SlotTable Dedup Observe Block BodyPool Exchange Engine EngineObserve.
From S2P Require Import Problem AppIdentity Transport AppSend AppResponse AppResponseLaws AppEncode AppEncodeLaws AppReply AppReplyLaws AppPath.

(** ** Retained query values *)
Record RetainedQueries : Type := mkQueries { qv_bytes : list Z; qv_lengths : list Z; qv_count : nat }.

(** The [for (i, query)] loop of [new]. *)
Fixpoint retain_loop (i offset : nat) (queries : list (list Z)) (bytes lengths : list Z) : res EncodeError (list Z * list Z) :=
  match queries with
  | [] => mret (bytes, lengths)
  | query :: queries =>
      if (255 <? length query)%nat || (length bytes - offset <? length query)%nat then Err OptionValueTooLong
      else
        bytes ← copy_into offset (offset + length query) query bytes;
        lengths ← set_idx i (wrap 16 (Z.of_nat (length query))) lengths;
        retain_loop (S i) (offset + length query) queries bytes lengths
  end.
Definition RetainedQueries_new (queries : list (list Z)) : res EncodeError RetainedQueries :=
  if (MAX_PATH_SEGMENTS <? length queries)%nat then Err OptionValueTooLong
  else
    '(bytes, lengths) ← retain_loop 0 0 queries (replicate 256 0) (replicate MAX_PATH_SEGMENTS 0);
    mret (mkQueries bytes lengths (length queries)).

(** The closure of [values]; its [expect] is a panic. *)
Fixpoint values_from {E} (bytes : list Z) (offset : nat) (lengths : list Z) : res E (list (list Z)) :=
  match lengths with
  | [] => mret []
  | len :: lengths =>
      let end_ := (offset + Z.to_nat len)%nat in
      value ← slice_idx bytes offset end_;
      if negb (utf8_valid value) then Panic
      else rest ← values_from bytes end_ lengths; mret (value :: rest)
  end.
Definition values {E} (q : RetainedQueries) : res E (list (list Z)) :=
  lengths ← slice_idx (qv_lengths q) 0 (qv_count q);
  values_from (qv_bytes q) 0 lengths.

(** ** Requests *)
Inductive OutgoingObserve : Type := ObserveOff | ObserveRegister | ObserveDeregister.
#[export] Instance OutgoingObserve_eq_dec : EqDecision OutgoingObserve.
Proof. solve_decision. Defined.

Record ClientSend (T : Type) : Type := mkClientSend {
  cs_dest : Endpoint;
  cs_ty : MType;
  cs_code : Code;
  cs_token : T;
  cs_path : list (list Z);
  cs_payload : list Z;
  cs_content_format : option Z;
  cs_echo : option Echo;
  cs_no_response : option NoResponse;
  cs_accept : option Z;
  cs_request_tag : BodyTag;
  cs_etag : option (list Z);
  cs_if_match : option (list Z);
  cs_if_none_match : bool;
  cs_queries : list (list Z);
  cs_q_block1 : bool;
  cs_q_block2 : bool;
  cs_block2 : option BlockValue;
  cs_observe : OutgoingObserve
}.
Arguments cs_dest {T} _.
Arguments cs_ty {T} _.
Arguments cs_code {T} _.
Arguments cs_token {T} _.
Arguments cs_path {T} _.
Arguments cs_payload {T} _.
Arguments cs_content_format {T} _.
Arguments cs_echo {T} _.
Arguments cs_no_response {T} _.
Arguments cs_accept {T} _.
Arguments cs_request_tag {T} _.
Arguments cs_etag {T} _.
Arguments cs_if_match {T} _.
Arguments cs_if_none_match {T} _.
Arguments cs_queries {T} _.
Arguments cs_q_block1 {T} _.
Arguments cs_q_block2 {T} _.
Arguments cs_block2 {T} _.
Arguments cs_observe {T} _.

Definition CLIENT_OPTION_SLOTS : nat := 10 + 2 * MAX_PATH_SEGMENTS.
Definition OBSERVE_REQUEST_BYTES : nat := 512.

Section spec.
Context {T : Type}.
Implicit Types (spec : ClientSend T).

Definition given {A} (f : A → Opt) (o : option A) : list Opt := match o with Some a => [f a] | None => [] end.
(** The options in the order they are pushed. *)
Definition client_opts {E} spec (identity_only : bool) : res E (list Opt) :=
  cf ← opt_mapM (fun f => e ← EncodedUint_new f; Opt_content_format e) (cs_content_format spec);
  no_response ← opt_mapM (fun n => e ← EncodedUint_new n; Opt_no_response e) (cs_no_response spec);
  acc ← opt_mapM (fun f => e ← EncodedUint_new f; Opt_accept e) (cs_accept spec);
  q2 ← opt_mapM (fun b => e ← EncodedUint_new (BlockValue_as_uint b); Opt_q_block2 e)
         (if cs_q_block2 spec then res_ok (BlockValue_new 0 true SZX_MAX) else None);
  b2 ← opt_mapM (fun b => e ← EncodedUint_new (BlockValue_as_uint b); Opt_block2 e) (cs_block2 spec);
  echo ← opt_mapM (fun x => b ← Echo_as_slice x; mret (Opt_echo b)) (cs_echo spec);
  tag ← BodyTag_as_slice (cs_request_tag spec);
  mret (given Opt_if_match (cs_if_match spec)
        ++ (if identity_only then [] else given Opt_etag (cs_etag spec))
        ++ (if cs_if_none_match spec then [Opt_if_none_match] else [])
        ++ (if identity_only then []
            else match cs_observe spec with
                 | ObserveRegister => [Opt_observe_register]
                 | ObserveDeregister => [Opt_observe_deregister]
                 | ObserveOff => []
                 end)
        ++ map Opt_uri_path (cs_path spec) ++ cf ++ map Opt_uri_query (cs_queries spec)
        ++ acc ++ b2 ++ q2 ++ no_response ++ echo ++ given Opt_request_tag tag).
(** [with_client_options]: the slice [use_options] is applied to. *)
Definition with_client_options spec (identity_only : bool) : res EncodeError (list Opt) :=
  pushed ← client_opts spec identity_only;
  opts ← map_err (fun _ => EncodeOptionsFull) (push_all CLIENT_OPTION_SLOTS (OptionsBuilder_new CLIENT_OPTION_SLOTS) pushed);
  OptionsBuilder_as_slice opts.
End spec.

(** ** The canonical request *)
Record ObserveRequest : Type := mkObserveRequest { or_bytes : list Z; or_len : nat }.
#[export] Instance ObserveRequest_eq_dec : EqDecision ObserveRequest.
Proof. solve_decision. Defined.

Section identity.
Context {T : Type} `{Target}.

Definition identity_message (code : Code) (options : list Opt) (payload : list Z) : Message Token :=
  Message_with_payload (Message_with_options (Message_new Confirmable code 0) options) payload.
Definition request_identity_identity (spec : ClientSend T) : res EncodeError ObserveRequest :=
  options ← with_client_options spec true;
  let '(bytes, r) := encode (identity_message (cs_code spec) options (cs_payload spec)) (replicate OBSERVE_REQUEST_BYTES 0) in
  len ← r;
  mret (mkObserveRequest bytes len).

Definition identity_decode {E} (r : ObserveRequest) : res E Datagram :=
  bytes ← slice_idx (or_bytes r) 0 (or_len r);
  match extended_decode bytes with Ok d => Ok d | Diverge => Diverge | _ => Panic end.
Definition cache_key (number : OptionNumber) : bool :=
  negb (OptionNumber_is_no_cache_key number)
  && negb ((number =? ON_BLOCK1) || (number =? ON_BLOCK2) || (number =? ON_Q_BLOCK1) || (number =? ON_Q_BLOCK2)).
Definition cache_options (os : list Opt) : list Opt := List.filter (fun o => cache_key (opt_number o)) os.
Definition same_target {E} (r other : ObserveRequest) : res E bool :=
  left ← identity_decode r;
  right ← identity_decode other;
  if negb (hdr_code (pt_header left) =? hdr_code (pt_header right)) then mret false
  else if (hdr_code (pt_header left) =? Code_FETCH) && negb (eqb (pt_payload left) (pt_payload right)) then mret false
  else
    a ← Options_iter (pt_options left);
    b ← Options_iter (pt_options right);
    mret (eqb (cache_options a) (cache_options b)).
End identity.

(** ** Rows *)
Record LiveCall (T : Type) : Type := mkLive {
  lc_call : Call T;
  lc_queries : RetainedQueries;
  lc_accept : option Z;
  lc_request_tag : BodyTag;
  lc_if_match : BodyTag;
  lc_if_none_match : bool;
  lc_etag : BodyTag;
  lc_path : Path;
  lc_code : Code;
  lc_ty : MType;
  lc_content_format : option Z;
  lc_echo : option Echo;
  lc_no_response : option NoResponse;
  lc_observe : OutgoingObserve;
  lc_observed : option (Z * Z);
  lc_observed_format : option (option Z);
  lc_request_identity : option ObserveRequest;
  lc_due_ms : Z;
  lc_deadline_ms : option Z;
  lc_q_pace_ms : Z;
  lc_backoff_until_ms : Z;
  lc_retired : bool
}.
Arguments mkLive {T} _ _ _ _ _ _ _ _ _ _ _ _ _ _ _ _ _ _ _ _ _ _.
Arguments lc_call {T} _.
Arguments lc_queries {T} _.
Arguments lc_accept {T} _.
Arguments lc_request_tag {T} _.
Arguments lc_if_match {T} _.
Arguments lc_if_none_match {T} _.
Arguments lc_etag {T} _.
Arguments lc_path {T} _.
Arguments lc_code {T} _.
Arguments lc_ty {T} _.
Arguments lc_content_format {T} _.
Arguments lc_echo {T} _.
Arguments lc_no_response {T} _.
Arguments lc_observe {T} _.
Arguments lc_observed {T} _.
Arguments lc_observed_format {T} _.
Arguments lc_request_identity {T} _.
Arguments lc_due_ms {T} _.
Arguments lc_deadline_ms {T} _.
Arguments lc_q_pace_ms {T} _.
Arguments lc_backoff_until_ms {T} _.
Arguments lc_retired {T} _.

(** Assignments to fields of a row. *)
Definition set_backoff {T} (r : LiveCall T) (until : Z) : LiveCall T :=
  mkLive (lc_call r) (lc_queries r) (lc_accept r) (lc_request_tag r) (lc_if_match r) (lc_if_none_match r) (lc_etag r) (lc_path r)
    (lc_code r) (lc_ty r) (lc_content_format r) (lc_echo r) (lc_no_response r) (lc_observe r) (lc_observed r) (lc_observed_format r)
    (lc_request_identity r) (lc_due_ms r) (lc_deadline_ms r) (lc_q_pace_ms r) until (lc_retired r).
Definition set_observed {T} (r : LiveCall T) (observed : option (Z * Z)) (format : option (option Z)) : LiveCall T :=
  mkLive (lc_call r) (lc_queries r) (lc_accept r) (lc_request_tag r) (lc_if_match r) (lc_if_none_match r) (lc_etag r) (lc_path r)
    (lc_code r) (lc_ty r) (lc_content_format r) (lc_echo r) (lc_no_response r) (lc_observe r) observed format
    (lc_request_identity r) (lc_due_ms r) (lc_deadline_ms r) (lc_q_pace_ms r) (lc_backoff_until_ms r) (lc_retired r).
Definition set_retired {T} (r : LiveCall T) : LiveCall T :=
  mkLive (lc_call r) (lc_queries r) (lc_accept r) (lc_request_tag r) (lc_if_match r) (lc_if_none_match r) (lc_etag r) (lc_path r)
    (lc_code r) (lc_ty r) (lc_content_format r) (lc_echo r) (lc_no_response r) ObserveOff (lc_observed r) (lc_observed_format r)
    (lc_request_identity r) 0 None 0 (lc_backoff_until_ms r) true.

(** [rows : [Option<LiveCall>; CALLS]]. *)
Record ClientLives (T : Type) : Type := mkLives { cl_rows : list (option (LiveCall T)) }.
Arguments mkLives {T} _.
Arguments cl_rows {T} _.

Definition DEFAULT_MAX_AGE_SECS : Z := 60.

(** [iter().filter(p)] and [iter().position(p)] with a checked [p]; [min] and [max] of an iterator. *)
Fixpoint res_filter {E A} (p : A → res E bool) (l : list A) : res E (list A) :=
  match l with
  | [] => mret []
  | x :: l => b ← p x; rest ← res_filter p l; mret (if b : bool then x :: rest else rest)
  end.
Fixpoint res_position {E A} (p : A → res E bool) (l : list A) : res E (option nat) :=
  match l with
  | [] => mret None
  | x :: l => b ← p x; if b : bool then mret (Some 0%nat) else i ← res_position p l; mret (option_map S i)
  end.
Definition iter_min (l : list Z) : option Z := foldr (fun x o => Some (match o with Some y => Z.min x y | None => x end)) None l.
Definition iter_max (l : list Z) : option Z := foldr (fun x o => Some (match o with Some y => Z.max x y | None => x end)) None l.

(** Only block zero carries a new notification. *)
Definition later_block (b : res ValueError BlockValue) : bool := match b with Ok b => negb (bv_num b =? 0) | _ => false end.
Definition observation_start `{Target} {E T} (parsed : ParsedMessage T) : res E (option Z) :=
  if negb (Code_is_success (pm_code parsed)) then mret None
  else
    block2 ← pm_block2 parsed;
    if match block2 with Some b => later_block b | None => false end then mret None
    else
      q_block2 ← pm_q_block2 parsed;
      if existsb later_block q_block2 then mret None
      else observe ← pm_observe parsed; mret (ok_value observe).

Section lives.
Context {T : Type} `{Target} `{OwnedToken T} `{EqDecision T}.
Abbreviation Lives := (ClientLives T).
Abbreviation Row := (LiveCall T).
Implicit Types (l : Lives) (row live : Row) (call : Call T).

(** [rows.iter().flatten()]. *)
Definition live_rows l : list Row := omap (fun slot => slot) (cl_rows l).
Definition slot_is (f : Row → bool) (slot : option Row) : bool := match slot with Some row => f row | None => false end.
Definition lives_at l (i : nat) : option Row := match cl_rows l !! i with Some (Some row) => Some row | _ => None end.
Definition lives_set l (i : nat) (slot : option Row) : Lives := mkLives (<[i := slot]> (cl_rows l)).

Definition ClientLives_new (CALLS : nat) : Lives := mkLives (replicate CALLS None).
Definition lives_usage l : nat * nat := (length (live_rows l), length (List.filter lc_retired (live_rows l))).
Definition lives_has_protocol_state l : bool := existsb (fun row => negb (lc_retired row)) (live_rows l).
Definition response_credits l (inbox : ClientInbox T) : nat :=
  (length (List.filter (fun row => negb (lc_retired row)
             && negb (existsb (fun reply => eqb (ir_call reply) (lc_call row) && ir_complete reply
                                              && match ir_meta reply with inl _ => true | inr _ => false end) (rows_of inbox))) (live_rows l))
   + length (List.filter (fun reply => match ir_meta reply with inl _ => false | inr _ => true end
             && negb (existsb (fun live => negb (lc_retired live) && eqb (lc_call live) (ir_call reply)) (live_rows l))) (rows_of inbox)))%nat.

(** ** Cool-downs *)
Definition expire_slot (now_ms : Z) (slot : option Row) : option Row :=
  match slot with
  | Some row =>
      if lc_backoff_until_ms row <=? now_ms then if lc_retired row then None else Some (set_backoff row 0) else slot
  | None => None
  end.
Definition expire_backoffs l (now_ms : Z) : Lives := mkLives (map (expire_slot now_ms) (cl_rows l)).

Definition same_resource {E} row (peer : Endpoint) (code : Code) (path : Path) (queries : RetainedQueries) : res E bool :=
  if negb (eqb (call_peer (lc_call row)) peer && eqb (lc_code row) code) then mret false
  else
    a ← segments (lc_path row);
    b ← segments path;
    if negb (eqb a b) then mret false
    else v ← values (lc_queries row); w ← values queries; mret (eqb v w).
Definition backoff_until {E} l (peer : Endpoint) (code : Code) (path : Path) (queries : RetainedQueries) : res E (option Z) :=
  cooling ← res_filter (fun row => if lc_backoff_until_ms row =? 0 then mret false else same_resource row peer code path queries) (live_rows l);
  mret (iter_max (map lc_backoff_until_ms cooling)).

Definition is_live call row : bool := negb (lc_retired row) && eqb (lc_call row) call.
Definition record_backoff {E} l call (parsed : ParsedMessage T) (now_ms : Z) : res E Lives :=
  if negb ((pm_code parsed =? Code_TOO_MANY_REQUESTS) || (pm_code parsed =? Code_SERVICE_UNAVAILABLE)) then mret l
  else
    ages ← get_options_list parsed ON_MAX_AGE;
    if (1 <? length ages)%nat then mret l
    else
      age ← pm_max_age parsed;
      match age with
      | Some (Ok _) | None =>
          let seconds := match age with Some (Ok value) => value | _ => DEFAULT_MAX_AGE_SECS end in
          let l := expire_backoffs l now_ms in
          if seconds =? 0 then mret l
          else
            match position (slot_is (is_live call)) (cl_rows l) with
            | Some i =>
                match lives_at l i with
                | Some row => mret (lives_set l i (Some (set_backoff row
                    (Z.max (lc_backoff_until_ms row) (saturating_add 64 now_ms (seconds * 1000))))))
                | None => mret l
                end
            | None => mret l
            end
      | Some _ => mret l
      end.

(** ** Admission *)
Definition is_for (token : T) (peer : Endpoint) row : bool :=
  negb (lc_retired row) && eqb (call_token (lc_call row)) token && eqb (call_peer (lc_call row)) peer.
Definition can_admit l (token : T) (peer : Endpoint) : bool :=
  existsb (fun slot => match slot with None => true | Some live => is_for token peer live end) (cl_rows l).
Definition lives_insert l live : Lives :=
  match position (slot_is (is_for (call_token (lc_call live)) (call_peer (lc_call live)))) (cl_rows l) with
  | Some i => lives_set l i (Some live)
  | None =>
      match position (fun slot => negb (is_some slot)) (cl_rows l) with
      | Some i => lives_set l i (Some live)
      | None => l
      end
  end.
Definition lives_get l call : option Row :=
  find_map (fun slot => match slot with Some row => if is_for (call_token call) (call_peer call) row then Some row else None | None => None end)
    (cl_rows l).
Definition upload_key l call : BlockKey T :=
  BlockKey_with_identity (BlockKey_new (call_token call) (call_peer call))
    match lives_get l call with Some live => lc_request_tag live | None => BodyTag_ABSENT end.

Definition lives_remove {E} l call : res E Lives :=
  match position (slot_is (is_live call)) (cl_rows l) with
  | None => mret l
  | Some index =>
      match lives_at l index with
      | None => Panic
      | Some row =>
          if lc_backoff_until_ms row =? 0 then mret (lives_set l index None)
          else
            other ← res_position (fun slot => match slot with
                      | Some entry => if lc_retired entry then same_resource entry (call_peer (lc_call row)) (lc_code row) (lc_path row) (lc_queries row)
                                      else mret false
                      | None => mret false end) (cl_rows l);
            match other with
            | Some other =>
                match lives_at l other with
                | None => Panic
                | Some entry =>
                    mret (lives_set (lives_set l other (Some (set_backoff entry (Z.max (lc_backoff_until_ms entry) (lc_backoff_until_ms row)))))
                            index None)
                end
            | None => mret (lives_set l index (Some (set_retired row)))
            end
      end
  end.

(** ** Notifications *)
Definition observe_fresh {E} l call (parsed : ParsedMessage T) (now_ms : Z) : res E bool :=
  start ← observation_start parsed;
  match start with
  | None => mret true
  | Some sequence =>
      match lives_get l call ≫= lc_observed with
      | None => mret true
      | Some (previous, received) =>
          let delta := Z.land (wrapping_sub 32 sequence previous) 0x00ffffff in
          mret ((negb (delta =? 0) && (delta <? 0x00800000)) || (128000 <? saturating_sub now_ms received))
      end
  end.
Definition observe_format_matches {E} l call (parsed : ParsedMessage T) : res E bool :=
  start ← observation_start parsed;
  match start with
  | None => mret true
  | Some _ =>
      format ← pm_content_format parsed;
      formats ← get_options_list parsed ON_CONTENT_FORMAT;
      if match format with Some (Ok _) | None => false | Some _ => true end || (1 <? length formats)%nat then mret false
      else if (pm_code parsed =? Code_VALID) && negb (is_some format) then mret true
      else mret match lives_get l call ≫= lc_observed_format with
                | None => true
                | Some initial => eqb initial (ok_value format)
                end
  end.
Definition observe_format_admissible {E} l call (parsed : ParsedMessage T) (now_ms : Z) (protected : bool) : res E bool :=
  fresh ← (if protected then mret true else observe_fresh l call parsed now_ms);
  if negb fresh then mret true else observe_format_matches l call parsed.
Definition record_observation {E} l call (parsed : ParsedMessage T) (now_ms : Z) : res E Lives :=
  start ← observation_start parsed;
  match start with
  | None => mret l
  | Some sequence =>
      match position (slot_is (fun live => eqb (lc_call live) call)) (cl_rows l) with
      | Some i =>
          match lives_at l i with
          | Some live =>
              format ← pm_content_format parsed;
              mret (lives_set l i (Some (set_observed live (Some (sequence, now_ms))
                (if negb (is_some (lc_observed_format live)) && (negb (pm_code parsed =? Code_VALID) || is_some format)
                 then Some (ok_value format) else lc_observed_format live))))
          | None => mret l
          end
      | None => mret l
      end
  end.
Definition observe_call {ER} l (peer : Endpoint) (identity : ObserveRequest) (target : option (Call T)) (alive : Call T → bool)
    : res (AppError ER) (Call T) :=
  match List.filter (fun live =>
          eqb (call_peer (lc_call live)) peer && eqb (lc_observe live) ObserveRegister && negb (lc_due_ms live =? 0) && alive (lc_call live)
          && eqb (lc_request_identity live) (Some identity)
          && match target with Some call => eqb (lc_call live) call | None => true end) (live_rows l) with
  | [] => Err (AeObserveCancellationMismatch _)
  | [live] => Ok (lc_call live)
  | _ => Err (AeObserveCancellationAmbiguous _)
  end.

(** ** Tokens *)
Fixpoint token_attempts {W} `{Entropy W} {ER} (n : nat) l : st (AppIds * W) (AppError ER) T :=
  match n with
  | O => st_fail (AeIdentity TokenExhausted)
  | S n =>
      token ← st_map_err AeIdentity AppIds_token;
      if existsb (fun live => eqb (call_token (lc_call live)) token) (live_rows l) then token_attempts n l else mret token
  end.
Definition next_token {W} `{Entropy W} {ER} l : st (AppIds * W) (AppError ER) T := token_attempts 8 l.
End lives.

(** ** Timers *)
Section timers.
Context {RX TX RB TB T Q : Type} `{Target} `{OwnedToken T} `{EqDecision T}.
Abbreviation Eng := (Engine RX TX RB TB T Q).

Definition client_observe_live (en : Eng) (call : Call T) : bool :=
  is_some (lookup_observe (ObserveKey_new_client (call_token call) (call_peer call)) en).
Definition call_waiting (en : Eng) (inbox : ClientInbox T) (live : LiveCall T) : bool :=
  negb (lc_retired live) && (negb (inbox_contains inbox (lc_call live)) || client_observe_live en (lc_call live)).
Definition call_timers (en : Eng) (inbox : ClientInbox T) (live : LiveCall T) : list Z :=
  let waiting := call_waiting en inbox live in
  (if lc_backoff_until_ms live =? 0 then [] else [lc_backoff_until_ms live])
  ++ (if negb (lc_retired live) && negb (lc_q_pace_ms live =? 0) then [lc_q_pace_ms live] else [])
  ++ (match lc_deadline_ms live with Some d => if waiting then [d] else [] | None => [] end)
  ++ (if waiting && negb (lc_due_ms live =? 0)
         && is_some (ExchangeTable_lookup (exchange_of en) (mkExchangeKey (call_token (lc_call live)) (call_peer (lc_call live))))
      then [lc_due_ms live] else []).
Definition lives_next_timeout_after (l : ClientLives T) (en : Eng) (inbox : ClientInbox T) (after : option Z) : option Z :=
  iter_min (List.filter (fun deadline => match after with Some after => after <? deadline | None => true end)
              (flat_map (call_timers en inbox) (live_rows l))).
End timers.

(** ** Query values come back *)
Definition query_lengths (qs : list (list Z)) : list Z := map (fun q => Z.of_nat (length q)) qs.
(** What [new] accepts. *)
Definition queries_fit (qs : list (list Z)) : Prop :=
  (length qs ≤ MAX_PATH_SEGMENTS)%nat ∧ Forall (fun q => (length q ≤ 255)%nat) qs ∧ (length (concat qs) ≤ 256)%nat.
Lemma retain_loop_spec qs : ∀ i offset bytes lengths,
  (offset ≤ length bytes)%nat → (i + length qs ≤ length lengths)%nat →
  match retain_loop i offset qs bytes lengths with
  | Ok (bytes', lengths') => bytes' = splice bytes offset (concat qs) ∧ lengths' = splice lengths i (query_lengths qs) ∧
      Forall (fun q => (length q ≤ 255)%nat) qs ∧ (offset + length (concat qs) ≤ length bytes)%nat
  | Err e => e = OptionValueTooLong ∧ ¬ (Forall (fun q => (length q ≤ 255)%nat) qs ∧ (offset + length (concat qs) ≤ length bytes)%nat)
  | _ => False
  end.
Proof.
  induction qs as [|q qs IH]; intros i offset bytes lengths Ho Hi; cbn [retain_loop concat query_lengths map length] in *.
  { unbind. rewrite !splice_nil. split_and!; [done..|constructor|lia]. }
  destruct (_ || _) eqn:E.
  { split; [done|]. intros [[Hq _]%Forall_cons Hl]. rewrite length_app in Hl.
    apply orb_true_iff in E as [E%Nat.ltb_lt|E%Nat.ltb_lt]; lia. }
  apply orb_false_iff in E as [E1%Nat.ltb_ge E2%Nat.ltb_ge]. unbind.
  rewrite copy_into_ok by lia. rewrite set_idx_ok by lia. rewrite wrap_small by (unfold in_u; lia).
  specialize (IH (S i) (offset + length q)%nat (splice bytes offset q) (splice lengths i [Z.of_nat (length q)])).
  rewrite !length_splice in IH by (simpl; lia). specialize (IH ltac:(lia) ltac:(lia)).
  destruct (retain_loop _ _ _ _ _) as [[b' l']|e| |]; [|destruct IH as [? IH]|done..].
  - destruct IH as (-> & -> & Hf & Hl). rewrite !splice_splice by (unfold query_lengths; rewrite ?length_map; simpl; lia).
    rewrite length_app. split_and!; [done..|by constructor|lia].
  - split; [done|]. intros [[_ Hf]%Forall_cons Hl]. rewrite length_app in Hl. apply IH. split; [done|lia].
Qed.
Lemma values_from_spec {E} qs : ∀ pre post,
  Forall (fun q => utf8_valid q = true) qs → values_from (E:=E) (pre ++ concat qs ++ post) (length pre) (query_lengths qs) = Ok qs.
Proof.
  induction qs as [|q qs IH]; intros pre post Hu; [done|]. apply Forall_cons in Hu as [Hq Hu]. cbn [query_lengths map values_from concat].
  rewrite Nat2Z.id. unfold slice_idx. rewrite <- app_assoc, (slice_get_app pre q (concat qs ++ post)) by lia. unbind. rewrite Hq. cbn [negb].
  specialize (IH (pre ++ q) post Hu). rewrite <- app_assoc, length_app in IH. unfold query_lengths in IH. by rewrite IH.
Qed.

Definition queries_ok (q : RetainedQueries) (qs : list (list Z)) : Prop := ∀ E, values (E:=E) q = Ok qs.
Lemma splice_start {A} (buf src : list A) : (length src ≤ length buf)%nat → splice buf 0 src = src ++ drop (length src) buf.
Proof. intros. unfold splice. done. Qed.
Lemma retained_values qs : Forall (fun q => utf8_valid q = true) qs →
  match RetainedQueries_new qs with
  | Ok q => queries_fit qs ∧ queries_ok q qs
  | Err e => e = OptionValueTooLong ∧ ¬ queries_fit qs
  | _ => False
  end.
Proof.
  intros Hu. unfold RetainedQueries_new, queries_fit. destruct (Nat.ltb_spec MAX_PATH_SEGMENTS (length qs)) as [Hn|Hn].
  { split; [done|]. intros [? _]. lia. }
  pose proof (retain_loop_spec qs 0 0 (replicate 256 0) (replicate MAX_PATH_SEGMENTS 0)) as Hs.
  rewrite !length_replicate in Hs. specialize (Hs ltac:(lia) ltac:(lia)).
  destruct (retain_loop _ _ _ _ _) as [[b l]|e| |]; [|destruct Hs as [-> Hs]|done..]; unbind.
  - destruct Hs as (-> & -> & Hf & Hl). split; [by split_and!|]. intros E. unfold values. cbn [qv_bytes qv_lengths qv_count].
    rewrite (splice_start _ (query_lengths qs)) by (unfold query_lengths; rewrite length_map, length_replicate; lia).
    assert (length qs = length (query_lengths qs)) as -> by (unfold query_lengths; by rewrite length_map).
    rewrite slice_prefix by (rewrite length_app; lia). rewrite take_app_length. unbind.
    rewrite (splice_start _ (concat qs)) by (rewrite length_replicate; lia). apply (values_from_spec qs [] _ Hu).
  - split; [done|]. intros (_ & Hf & Hl). by apply Hs.
Qed.

(** ** What a response says, by its options *)
Definition overload_delay (code : Code) (os : list Opt) : option Z :=
  if (code =? Code_TOO_MANY_REQUESTS) || (code =? Code_SERVICE_UNAVAILABLE) then
    match numbered ON_MAX_AGE os with
    | [] => Some DEFAULT_MAX_AGE_SECS
    | [o] => match Opt_as_uint o with Ok secs => Some secs | _ => None end
    | _ => None
    end
  else None.
Definition notification (code : Code) (os : list Opt) : option Z :=
  if Code_is_success code && negb (existsb (fun o => later_block (Opt_as_block o)) (take 1 (numbered ON_BLOCK2 os) ++ numbered ON_Q_BLOCK2 os))
  then match numbered ON_OBSERVE os with o :: _ => match decode_observe (opt_value o) with Ok seq => Some seq | _ => None end | [] => None end
  else None.

Lemma existsb_map {A B} (f : A → B) (p : B → bool) l : existsb p (map f l) = existsb (fun x => p (f x)) l.
Proof. induction l as [|x l IH]; [done|]. cbn. by rewrite IH. Qed.
Section reading.
Context {T : Type} `{Target} (parsed : ParsedMessage T) (os : list Opt).
Hypothesis Hb : bytes_ok (pm_options _ parsed).
Hypothesis Ho : ∀ E, pm_opts (E:=E) parsed = Ok os.

Lemma read_list {E} n : get_options_list (E:=E) parsed n = Ok (numbered n os).
Proof using Hb Ho. by apply get_options_list_spec. Qed.
Lemma read_one {E} n : get_option (E:=E) parsed n = Ok (head (numbered n os)).
Proof using Hb Ho. by apply get_option_spec. Qed.
Lemma observation_start_spec {E} : observation_start (E:=E) parsed = Ok (notification (pm_code parsed) os).
Proof using Hb Ho.
  unfold observation_start, notification, pm_block2, pm_q_block2, pm_observe. destruct (Code_is_success (pm_code parsed)); [|done]. cbn [negb andb].
  rewrite !read_one, read_list. unbind. rewrite existsb_app, existsb_map.
  destruct (numbered ON_BLOCK2 os) as [|b bs]; cbn [head option_map take existsb orb];
    rewrite ?orb_false_r; [|destruct (later_block (Opt_as_block b)); [done|]];
    (destruct (existsb _ _); cbn [orb negb]; [done|]); destruct (numbered ON_OBSERVE os) as [|o ?]; try done; cbn [head option_map ok_value];
    by destruct (decode_observe (opt_value o)).
Qed.
End reading.

(** ** The table as a map of calls and a map of cool-downs *)
Definition Resource : Type := Endpoint * Code * list (list Z) * list (list Z).
Definition path_ok (path : Path) (segs : list (list Z)) : Prop := ∀ E, segments (E:=E) path = Ok segs.

Lemma iter_max_spec l :
  match iter_max l with
  | Some m => m ∈ l ∧ Forall (fun x => x ≤ m) l
  | None => l = []
  end.
Proof.
  induction l as [|x l IH]; [done|]. cbn [iter_max foldr]. fold (iter_max l). destruct (iter_max l) as [y|].
  - destruct IH as [Hy Hf]. split.
    + destruct (Z.max_spec x y) as [[_ ->]|[_ ->]]; [by right|by left].
    + constructor; [lia|]. eapply Forall_impl; [exact Hf|]. cbn. intros. lia.
  - subst l. split; [by left|]. by repeat constructor.
Qed.

Section table.
Context {T : Type} `{Target} `{OwnedToken T} `{EqDecision T}.
Abbreviation Lives := (ClientLives T).
Abbreviation Row := (LiveCall T).
Implicit Types (l : Lives) (row live : Row) (call : Call T) (r : Resource).

Definition path_segs (path : Path) : list (list Z) := match segments (E:=unit) path with Ok segs => segs | _ => [] end.
Definition query_values (q : RetainedQueries) : list (list Z) := match values (E:=unit) q with Ok qs => qs | _ => [] end.
Definition resource_of row : Resource := (call_peer (lc_call row), lc_code row, path_segs (lc_path row), query_values (lc_queries row)).
Definition row_ok row : Prop := path_ok (lc_path row) (path_segs (lc_path row)) ∧ queries_ok (lc_queries row) (query_values (lc_queries row)).

Definition holds l (i : nat) row : Prop := cl_rows l !! i = Some (Some row).
Record lives_wf l : Prop := {
  lw_rows i row : holds l i row → row_ok row ∧ 0 ≤ lc_backoff_until_ms row ∧ (lc_retired row = true → lc_backoff_until_ms row ≠ 0);
  lw_distinct i j a b : holds l i a → holds l j b → lc_call a = lc_call b → i = j
}.
Lemma elem_live_rows l row : row ∈ live_rows l ↔ ∃ i, holds l i row.
Proof.
  unfold live_rows, holds. rewrite list_elem_of_omap. split.
  - intros (slot & Hi & ->). by apply list_elem_of_lookup in Hi.
  - intros [i Hi]. exists (Some row). split; [|done]. by eapply list_elem_of_lookup_2.
Qed.
Lemma lives_at_holds l i row : lives_at l i = Some row ↔ holds l i row.
Proof. unfold lives_at, holds. destruct (cl_rows l !! i) as [[x|]|]; split; intros E; simplify_eq/=; done. Qed.
Lemma holds_set l i slot j row : (i < length (cl_rows l))%nat →
  holds (lives_set l i slot) j row ↔ (j = i ∧ slot = Some row) ∨ (j ≠ i ∧ holds l j row).
Proof.
  intros Hl. unfold holds, lives_set. cbn [cl_rows]. destruct (decide (j = i)) as [->|Hne].
  - rewrite list_lookup_insert_eq by done. split; [intros [= ->]; by left|]. intros [[_ ->]|[? _]]; done.
  - rewrite list_lookup_insert_ne by done. split; [by right|]. intros [[? _]|[_ ?]]; done.
Qed.
Lemma row_lt l i row : holds l i row → (i < length (cl_rows l))%nat.
Proof. apply lookup_lt_Some. Qed.
Lemma position_live f l i : position (slot_is f) (cl_rows l) = Some i → ∃ row, holds l i row ∧ f row = true.
Proof. intros [([row|] & Hi & Hf) _]%position_Some; [|done]. by exists row. Qed.
Lemma position_no_live f l : position (slot_is f) (cl_rows l) = None → ∀ i row, holds l i row → f row = false.
Proof. intros Hf%position_None i row Hi. by apply (Forall_lookup_1 _ _ _ _ Hf Hi). Qed.

(** ** Live rows *)
Lemma is_for_live call row : is_for (call_token call) (call_peer call) row = is_live call row.
Proof.
  unfold is_for, is_live. rewrite <- andb_assoc. f_equal. destruct call as [t p], (lc_call row) as [t' p']. cbn.
  apply eq_true_iff_eq. unfold eqb. rewrite andb_true_iff, !bool_decide_eq_true. split; [by intros [-> ->]|by intros [= -> ->]].
Qed.
Lemma is_live_true call row : is_live call row = true ↔ lc_retired row = false ∧ lc_call row = call.
Proof. unfold is_live, eqb. by rewrite andb_true_iff, negb_true_iff, bool_decide_eq_true. Qed.
Lemma lives_get_Some l call row : lives_wf l →
  lives_get l call = Some row ↔ ∃ i, holds l i row ∧ lc_retired row = false ∧ lc_call row = call.
Proof.
  intros Hw. unfold lives_get. rewrite find_map_Some. split.
  - intros (l1 & slot & l2 & Hl & Hs & _). destruct slot as [x|]; [|done]. rewrite is_for_live in Hs.
    destruct (is_live call x) eqn:Ex; [|done]. injection Hs as ->. exists (length l1). apply is_live_true in Ex. split; [|done].
    unfold holds. rewrite Hl. by apply lookup_app_mid.
  - intros (i & Hi & Hr & Hc). exists (take i (cl_rows l)), (Some row), (drop (S i) (cl_rows l)).
    split; [symmetry; by apply take_drop_middle|]. rewrite is_for_live, (proj2 (is_live_true call row)) by done. split; [done|].
    apply Forall_lookup. intros j slot Hj. destruct slot as [x|]; [|done]. rewrite is_for_live. destruct (is_live call x) eqn:Ex; [|done].
    apply is_live_true in Ex as [_ Hx]. apply lookup_take_Some in Hj as [Hj Hlt].
    assert (j = i) by (eapply (lw_distinct _ Hw); [exact Hj|exact Hi|congruence]). lia.
Qed.
Lemma lives_get_None l call : lives_get l call = None ↔ ∀ i row, holds l i row → is_live call row = false.
Proof.
  unfold lives_get. rewrite find_map_None, Forall_lookup. split.
  - intros Hn i row Hi. specialize (Hn i _ Hi). cbn in Hn. rewrite is_for_live in Hn. by destruct (is_live call row).
  - intros Hn i [row|] Hi; [|done]. by rewrite is_for_live, (Hn i).
Qed.
(** Two tables agree on a call when their live rows for it correspond under [f]. *)
Lemma lives_get_map {A} (f : Row → A) l l' call : lives_wf l → lives_wf l' →
  (∀ i row, holds l i row → is_live call row = true → ∃ j row', holds l' j row' ∧ is_live call row' = true ∧ f row' = f row) →
  (∀ j row', holds l' j row' → is_live call row' = true → ∃ i row, holds l i row ∧ is_live call row = true) →
  option_map f (lives_get l' call) = option_map f (lives_get l call).
Proof.
  intros Hw Hw' Hto Hfrom. destruct (lives_get l call) as [row|] eqn:Eg.
  - apply lives_get_Some in Eg as (i & Hi & Hr); [|done]. destruct (Hto i row Hi) as (j & row' & Hj & Hl & Hf); [by apply is_live_true|].
    apply is_live_true in Hl as [? ?]. assert (lives_get l' call = Some row') as -> by (apply lives_get_Some; eauto). cbn. by rewrite Hf.
  - rewrite lives_get_None in Eg. assert (lives_get l' call = None) as ->; [|done]. apply lives_get_None. intros j row' Hj.
    destruct (is_live call row') eqn:E; [|done]. destruct (Hfrom j row' Hj E) as (i & row & Hi & Hl). by rewrite (Eg i) in Hl.
Qed.

(** ** Cool-downs *)
Definition cools r row : bool := negb (lc_backoff_until_ms row =? 0) && eqb (resource_of row) r.
Definition cool l r : option Z := iter_max (map lc_backoff_until_ms (List.filter (cools r) (live_rows l))).
Definition cool_is l r (o : option Z) : Prop :=
  match o with
  | Some u => (∃ i row, holds l i row ∧ cools r row = true ∧ lc_backoff_until_ms row = u) ∧
              ∀ i row, holds l i row → cools r row = true → lc_backoff_until_ms row ≤ u
  | None => ∀ i row, holds l i row → cools r row = false
  end.
Lemma cool_is_cool l r : cool_is l r (cool l r).
Proof.
  pose proof (iter_max_spec (map lc_backoff_until_ms (List.filter (cools r) (live_rows l)))) as Hm. fold (cool l r) in Hm.
  assert (∀ row, row ∈ List.filter (cools r) (live_rows l) ↔ ∃ i, holds l i row ∧ cools r row = true) as Hf.
  { intros row. rewrite list_elem_of_In, filter_In, <- list_elem_of_In, elem_live_rows. split; [intros [[i Hi] Hc]; by exists i|intros (i & Hi & Hc); split; [by exists i|done]]. }
  destruct (cool l r) as [u|]; cbn.
  - destruct Hm as [(row & -> & (i & Hi & Hc)%Hf)%list_elem_of_fmap Hm]. split; [by exists i, row|]. intros j row' Hj Hc'.
    rewrite Forall_forall in Hm. apply Hm. apply list_elem_of_fmap. exists row'. split; [done|]. apply Hf. eauto.
  - apply map_eq_nil in Hm. intros i row Hi. destruct (cools r row) eqn:E; [|done].
    assert (row ∈ List.filter (cools r) (live_rows l)) as Hin by (apply Hf; eauto). rewrite Hm in Hin. by apply not_elem_of_nil in Hin.
Qed.
Lemma cool_is_eq l r o : cool_is l r o → cool l r = o.
Proof.
  pose proof (cool_is_cool l r) as Hc. destruct (cool l r) as [u|], o as [v|]; cbn in *.
  - destruct Hc as [(i & a & Hi & Ha & <-) Hu]. intros [(j & b & Hj & Hb & <-) Hv]. f_equal. pose proof (Hu _ _ Hj Hb). pose proof (Hv _ _ Hi Ha). lia.
  - destruct Hc as [(i & a & Hi & Ha & <-) _]. intros Hn. by rewrite (Hn _ _ Hi) in Ha.
  - intros [(j & b & Hj & Hb & <-) _]. by rewrite (Hc _ _ Hj) in Hb.
  - done.
Qed.
Definition dominated l l' r : Prop :=
  ∀ i row, holds l i row → cools r row = true → ∃ j row', holds l' j row' ∧ cools r row' = true ∧ lc_backoff_until_ms row ≤ lc_backoff_until_ms row'.
Lemma cool_same l l' r : dominated l l' r → dominated l' l r → cool l' r = cool l r.
Proof.
  intros H1 H2. apply cool_is_eq. pose proof (cool_is_cool l r) as Hc. destruct (cool l r) as [u|]; cbn in *.
  - destruct Hc as [(i & a & Hi & Ha & <-) Hu]. assert (∀ j b, holds l' j b → cools r b = true → lc_backoff_until_ms b ≤ lc_backoff_until_ms a) as Hle.
    { intros j b Hj Hb. destruct (H2 _ _ Hj Hb) as (k & c & Hk & Hkc & ?). pose proof (Hu _ _ Hk Hkc). lia. }
    split; [|done]. destruct (H1 _ _ Hi Ha) as (j & b & Hj & Hb & ?). exists j, b. split_and!; [done..|]. pose proof (Hle _ _ Hj Hb). lia.
  - intros j b Hj. destruct (cools r b) eqn:Eb; [|done]. destruct (H2 _ _ Hj Eb) as (k & c & Hk & Hkc & _). by rewrite (Hc _ _ Hk) in Hkc.
Qed.

Lemma same_resource_spec {E} row (peer : Endpoint) (code : Code) path q segs qs : row_ok row → path_ok path segs → queries_ok q qs →
  same_resource (E:=E) row peer code path q = Ok (eqb (resource_of row) (peer, code, segs, qs)).
Proof.
  intros [Hp Hq] Hpath Hqs. unfold same_resource, resource_of. rewrite Hp, Hpath, Hq, Hqs. unbind. unfold eqb.
  destruct (decide (call_peer (lc_call row) = peer)) as [->|]; [rewrite bool_decide_true by done|rewrite bool_decide_false by done; cbn; by rewrite bool_decide_false by congruence].
  destruct (decide (lc_code row = code)) as [->|]; [rewrite bool_decide_true by done|rewrite bool_decide_false by done; cbn; by rewrite bool_decide_false by congruence].
  cbn. destruct (decide (path_segs (lc_path row) = segs)) as [->|]; [rewrite bool_decide_true by done|rewrite bool_decide_false by done; cbn; by rewrite bool_decide_false by congruence].
  cbn. f_equal. apply bool_decide_ext. split; [by intros ->|congruence].
Qed.
Lemma res_filter_ok {E A} (p : A → res E bool) f xs : (∀ x, x ∈ xs → p x = Ok (f x)) → res_filter p xs = Ok (List.filter f xs).
Proof.
  induction xs as [|x xs IH]; intros Hx; [done|]. cbn [res_filter List.filter]. rewrite Hx by left. rewrite IH by (intros; apply Hx; by right).
  unbind. by destruct (f x).
Qed.
Lemma res_position_ok {E A} (p : A → res E bool) f xs : (∀ x, x ∈ xs → p x = Ok (f x)) → res_position p xs = Ok (position f xs).
Proof.
  induction xs as [|x xs IH]; intros Hx; [done|]. cbn [res_position position]. rewrite Hx by left. rewrite IH by (intros; apply Hx; by right).
  unbind. by destruct (f x).
Qed.
Lemma backoff_until_spec {E} l (peer : Endpoint) (code : Code) path q segs qs : lives_wf l → path_ok path segs → queries_ok q qs →
  backoff_until (E:=E) l peer code path q = Ok (cool l (peer, code, segs, qs)).
Proof.
  intros Hw Hp Hq. unfold backoff_until. rewrite (res_filter_ok _ (cools (peer, code, segs, qs))); [done|].
  intros row [i Hi]%elem_live_rows. destruct (lw_rows _ Hw _ _ Hi) as [Hok _]. unfold cools. destruct (lc_backoff_until_ms row =? 0); [done|].
  by apply same_resource_spec.
Qed.

(** ** Operations *)
(** The specification: live calls, without their cool-down, and cool-downs by resource. *)
Record Calls : Type := mkCalls { sp_live : Call T → option Row; sp_cool : Resource → option Z }.
#[export] Instance calls_equiv : Equiv Calls := fun s s' => (∀ call, sp_live s call = sp_live s' call) ∧ ∀ r, sp_cool s r = sp_cool s' r.
#[export] Instance calls_equivalence : Equivalence (≡@{Calls}).
Proof.
  split; [done|by intros ?? []; split; symmetry|]. intros ??? [H1 H2] [H3 H4]. split; intros; [by rewrite H1|by rewrite H2].
Qed.
Definition erase row : Row := set_backoff row 0.
Definition calls_of l : Calls := mkCalls (fun call => option_map erase (lives_get l call)) (cool l).

Definition sp_update call (o : option Row) (s : Calls) : Calls :=
  mkCalls (fun c => if decide (c = call) then o else sp_live s c) (sp_cool s).
Definition sp_expire (now : Z) (s : Calls) : Calls :=
  mkCalls (sp_live s) (fun r => match sp_cool s r with Some u => if u <=? now then None else Some u | None => None end).
Definition sp_delay (r : Resource) (until : Z) (s : Calls) : Calls :=
  mkCalls (sp_live s) (fun r' => if decide (r' = r) then Some (match sp_cool s r with Some u => Z.max u until | None => until end) else sp_cool s r').
#[export] Instance sp_update_proper call o : Proper ((≡) ==> (≡)) (sp_update call o).
Proof. intros s s' [Hl Hc]. split; [|done]. intros c. cbn. by destruct (decide (c = call)). Qed.
#[export] Instance sp_expire_proper now : Proper ((≡) ==> (≡)) (sp_expire now).
Proof. intros s s' [Hl Hc]. split; [done|]. intros r. cbn. by rewrite Hc. Qed.
#[export] Instance sp_delay_proper r until : Proper ((≡) ==> (≡)) (sp_delay r until).
Proof. intros s s' [Hl Hc]. split; [done|]. intros r'. cbn. by rewrite !Hc. Qed.

Definition row_good row : Prop := row_ok row ∧ 0 ≤ lc_backoff_until_ms row ∧ (lc_retired row = true → lc_backoff_until_ms row ≠ 0).
Lemma wf_set l i slot : lives_wf l → (i < length (cl_rows l))%nat →
  (∀ row, slot = Some row → row_good row ∧ ∀ j a, holds l j a → lc_call a = lc_call row → j = i) → lives_wf (lives_set l i slot).
Proof.
  intros Hw Hl Hs. split.
  - intros j row [[-> Hr]|[_ Hj]]%holds_set; [by apply Hs|by eapply lw_rows|done].
  - intros j k a b Ha Hb Hc. apply holds_set in Ha, Hb; [|done..].
    destruct Ha as [[-> Ha]|[Hj Ha]], Hb as [[-> Hb]|[Hk Hb]]; [done| | |by eapply (lw_distinct _ Hw)].
    + destruct (Hs _ Ha) as [_ Hu]. symmetry. by apply (Hu k b).
    + destruct (Hs _ Hb) as [_ Hu]. by apply (Hu j a).
Qed.
(** Replacing a row by one of the same call. *)
Lemma wf_replace l i row row' : lives_wf l → holds l i row → lc_call row' = lc_call row → row_good row' → lives_wf (lives_set l i (Some row')).
Proof.
  intros Hw Hi Hc Hg. apply wf_set; [done|by eapply row_lt|]. intros ? [= <-]. split; [done|]. intros j a Hj Ha.
  eapply (lw_distinct _ Hw); [done..|congruence].
Qed.

Lemma holds_expire l now i row' : holds (expire_backoffs l now) i row' ↔
  ∃ row, holds l i row ∧ ((now < lc_backoff_until_ms row ∧ row' = row) ∨ (lc_backoff_until_ms row ≤ now ∧ lc_retired row = false ∧ row' = erase row)).
Proof.
  unfold holds, expire_backoffs. cbn [cl_rows]. rewrite list_lookup_fmap. destruct (cl_rows l !! i) as [[row|]|]; cbn.
  - destruct (Z.leb_spec (lc_backoff_until_ms row) now); [destruct (lc_retired row) eqn:E|]; split.
    + done.
    + intros (? & [= <-] & [[? _]|(_ & ? & _)]); [lia|congruence].
    + intros [= <-]. exists row. split; [done|]. by right.
    + intros (? & [= <-] & [[? _]|(_ & _ & ->)]); [lia|done].
    + intros [= <-]. exists row. split; [done|]. by left.
    + intros (? & [= <-] & [[_ ->]|[? _]]); [done|lia].
  - split; [done|]. by intros (? & ? & _).
  - split; [done|]. by intros (? & ? & _).
Qed.
Lemma expire_wf l now : lives_wf l → lives_wf (expire_backoffs l now).
Proof.
  intros Hw. split.
  - intros i row' (row & Hi & [[_ ->]|(_ & Hr & ->)])%holds_expire; destruct (lw_rows _ Hw _ _ Hi) as (Hok & Hpos & Hn); [done|].
    split; [done|]. cbn. split; [lia|congruence].
  - intros i j a b (a' & Ha & Ea)%holds_expire (b' & Hb & Eb)%holds_expire Hc. apply (lw_distinct _ Hw i j a' b' Ha Hb).
    destruct Ea as [[_ ->]|(_ & _ & ->)], Eb as [[_ ->]|(_ & _ & ->)]; done.
Qed.
Lemma expire_spec l now : 0 ≤ now → lives_wf l → calls_of (expire_backoffs l now) ≡ sp_expire now (calls_of l).
Proof.
  intros Hnow Hw. split.
  - intros call. cbn [calls_of sp_live sp_expire]. apply lives_get_map; [done|by apply expire_wf| |].
    + intros i row Hi Hl. destruct (Z.le_gt_cases (lc_backoff_until_ms row) now).
      * exists i, (erase row). split_and!; [|done..]. apply holds_expire. exists row. split; [done|]. right. by apply is_live_true in Hl as [? _].
      * exists i, row. split_and!; [|done..]. apply holds_expire. exists row. split; [done|]. left. by split; [lia|].
    + intros j row' (row & Hj & Hr)%holds_expire Hl. exists j, row. split; [done|]. by destruct Hr as [[_ ->]|(_ & _ & ->)].
  - intros r. cbn [calls_of sp_cool sp_expire]. apply cool_is_eq. pose proof (cool_is_cool l r) as Hc. destruct (cool l r) as [u|].
    + destruct Hc as [(i & a & Hi & Ha & <-) Hu]. destruct (Z.leb_spec (lc_backoff_until_ms a) now).
      * intros j row' (row & Hj & [[Hlt ->]|(_ & _ & ->)])%holds_expire; [|done]. destruct (cools r row) eqn:E; [|done]. pose proof (Hu _ _ Hj E). lia.
      * split; [exists i, a; split_and!; [|done..]; apply holds_expire; exists a; split; [done|]; by left; split; [lia|]|].
        intros j row' (row & Hj & [[Hlt ->]|(_ & _ & ->)])%holds_expire Hr; [by apply (Hu j)|by unfold cools in Hr].
    + intros j row' (row & Hj & [[Hlt ->]|(_ & _ & ->)])%holds_expire; [by apply (Hc j)|done].
Qed.

(** A change that touches the live row of one call only. *)
Lemma live_updated l l' call o : lives_wf l → lives_wf l' →
  (∀ j row, lc_retired row = false → lc_call row ≠ call → holds l j row ↔ holds l' j row) → option_map erase (lives_get l' call) = o →
  ∀ c, option_map erase (lives_get l' c) = if decide (c = call) then o else option_map erase (lives_get l c).
Proof.
  intros Hw Hw' Hsame Ho c. destruct (decide (c = call)) as [->|Hne]; [done|].
  apply lives_get_map; [done..| |]; intros i row Hi Hl; pose proof (proj1 (is_live_true _ _) Hl) as [Hr Hc]; exists i, row; (split; [|done]);
    (apply Hsame; [done|congruence|done]).
Qed.
Lemma live_is_only l i row call : lives_wf l → holds l i row → lc_call row = call →
  lives_get l call = if lc_retired row then None else Some row.
Proof.
  intros Hw Hi Hc. destruct (lc_retired row) eqn:Hr; [|apply lives_get_Some; eauto]. apply lives_get_None. intros j a Hj.
  destruct (is_live call a) eqn:E; [|done]. apply is_live_true in E as [Ha Hca].
  assert (j = i) as -> by (eapply (lw_distinct _ Hw); [done..|congruence]). unfold holds in *. congruence.
Qed.
(** Only the row at one index changes. *)
Lemma holds_set_other l i row slot j a : lives_wf l → holds l i row → lc_call a ≠ lc_call row →
  (∀ b, slot = Some b → lc_call b = lc_call row) → holds l j a ↔ holds (lives_set l i slot) j a.
Proof.
  intros Hw Hi Hc Hs. rewrite holds_set by (by eapply row_lt). split.
  - intros Hj. right. split; [|done]. intros ->. unfold holds in *. congruence.
  - intros [[-> E]|[_ ?]]; [|done]. by destruct Hc; apply Hs.
Qed.
Lemma dominated_set l i row slot r : holds l i row →
  (cools r row = true → ∃ j b, holds (lives_set l i slot) j b ∧ cools r b = true ∧ lc_backoff_until_ms row ≤ lc_backoff_until_ms b) →
  dominated l (lives_set l i slot) r.
Proof.
  intros Hi Hr j a Hj Ha. destruct (decide (j = i)) as [->|Hne].
  - assert (a = row) as -> by (unfold holds in *; congruence). by apply Hr.
  - exists j, a. split; [|done]. apply holds_set; [by eapply row_lt|]. by right.
Qed.
Lemma set_dominated l i row slot r : holds l i row →
  (∀ b, slot = Some b → cools r b = true → ∃ j a, holds l j a ∧ cools r a = true ∧ lc_backoff_until_ms b ≤ lc_backoff_until_ms a) →
  dominated (lives_set l i slot) l r.
Proof.
  intros Hi Hr j a Hj Ha. apply holds_set in Hj as [[-> E]|[_ Hj]]; [by apply Hr|by exists j, a|by eapply row_lt].
Qed.

(** *** Removing a call *)
Lemma remove_gone l call : (∀ i row, holds l i row → is_live call row = false) → calls_of l ≡ sp_update call None (calls_of l).
Proof.
  intros Hn. split; [|done]. intros c. cbn [calls_of sp_update sp_live]. destruct (decide (c = call)) as [->|]; [|done].
  by rewrite (proj2 (lives_get_None l call)).
Qed.
Lemma remove_plain l i row : lives_wf l → holds l i row → lc_retired row = false → lc_backoff_until_ms row = 0 →
  lives_wf (lives_set l i None) ∧ calls_of (lives_set l i None) ≡ sp_update (lc_call row) None (calls_of l).
Proof.
  intros Hw Hi Hr Hb. assert (lives_wf (lives_set l i None)) as Hw' by (apply wf_set; [done|by eapply row_lt|done]). split; [done|]. split.
  - apply live_updated; [done..| |].
    + intros j a Ha Hc. by apply (holds_set_other l i row).
    + assert (lives_get (lives_set l i None) (lc_call row) = None) as ->; [|done]. apply lives_get_None.
      intros j a [[_ ?]|[Hj Ha]]%holds_set; [done| |by eapply row_lt]. destruct (is_live (lc_call row) a) eqn:E; [|done].
      apply is_live_true in E as [_ E]. destruct Hj. by eapply (lw_distinct _ Hw).
  - intros r. cbn [calls_of sp_update sp_cool]. apply cool_same.
    + apply (dominated_set l i row); [done|]. unfold cools. by rewrite Hb.
    + by apply (set_dominated l i row).
Qed.
Lemma remove_retires l i row : lives_wf l → holds l i row → lc_retired row = false → lc_backoff_until_ms row ≠ 0 →
  lives_wf (lives_set l i (Some (set_retired row))) ∧
  calls_of (lives_set l i (Some (set_retired row))) ≡ sp_update (lc_call row) None (calls_of l).
Proof.
  intros Hw Hi Hr Hb. destruct (lw_rows _ Hw _ _ Hi) as (Hok & Hpos & _).
  assert (lives_wf (lives_set l i (Some (set_retired row)))) as Hw' by (by apply (wf_replace l i row)).
  assert (holds (lives_set l i (Some (set_retired row))) i (set_retired row)) as Hi' by (apply holds_set; [by eapply row_lt|by left]).
  split; [done|]. split.
  - apply live_updated; [done..| |].
    + intros j a Ha Hc. apply (holds_set_other l i row); [done..|]. by intros ? [= <-].
    + by rewrite (live_is_only _ i (set_retired row)).
  - intros r. cbn [calls_of sp_update sp_cool]. apply cool_same.
    + apply (dominated_set l i row); [done|]. intros Hc. by exists i, (set_retired row).
    + apply (set_dominated l i row); [done|]. intros ? [= <-] Hc. by exists i, row.
Qed.
Lemma remove_merges l i row k entry : lives_wf l → holds l i row → lc_retired row = false → lc_backoff_until_ms row ≠ 0 →
  holds l k entry → lc_retired entry = true → resource_of entry = resource_of row →
  let entry' := set_backoff entry (Z.max (lc_backoff_until_ms entry) (lc_backoff_until_ms row)) in
  let l' := lives_set (lives_set l k (Some entry')) i None in
  lives_wf l' ∧ calls_of l' ≡ sp_update (lc_call row) None (calls_of l).
Proof.
  intros Hw Hi Hr Hb Hk Hre Hres entry' l'. destruct (lw_rows _ Hw _ _ Hk) as (Hok & Hpos & _). destruct (lw_rows _ Hw _ _ Hi) as (_ & Hposi & _).
  assert (i ≠ k) as Hik by (intros ->; unfold holds in *; congruence).
  assert (lives_wf (lives_set l k (Some entry'))) as Hw1 by (apply (wf_replace l k entry); [done..|]; split; [done|]; cbn; split; [lia|]; lia).
  assert (holds (lives_set l k (Some entry')) i row) as Hi1 by (apply holds_set; [by eapply row_lt|by right]).
  assert (lives_wf l') as Hw' by (apply wf_set; [done|by eapply row_lt|done]). split; [done|].
  assert (∀ j a, holds l' j a ↔ j ≠ i ∧ ((j = k ∧ a = entry') ∨ (j ≠ k ∧ holds l j a))) as Hh.
  { intros j a. unfold l'. rewrite holds_set by (by eapply row_lt). rewrite holds_set by (by eapply row_lt). split.
    - intros [[_ ?]|[Hj [[-> [= <-]]|[? ?]]]]; [done| |]; (split; [done|]); [by left|by right].
    - intros [Hj [[-> ->]|[? ?]]]; right; (split; [done|]); [by left|by right]. }
  assert (∀ r, cools r row = true → cools r entry' = true) as Hce.
  { intros r. unfold cools. intros [_ E]%andb_true_iff. change (resource_of entry') with (resource_of entry). rewrite Hres, E, andb_true_r.
    apply negb_true_iff, Z.eqb_neq. cbn. lia. }
  split.
  - apply live_updated; [done..| |].
    + intros j a Ha Hc. rewrite Hh. split.
      * intros Hj. split; [intros ->; unfold holds in *; congruence|]. right. split; [|done]. intros ->. unfold holds in *. congruence.
      * intros [_ [[_ ->]|[_ ?]]]; [|done]. cbn in Ha. congruence.
    + assert (lives_get l' (lc_call row) = None) as ->; [|done]. apply lives_get_None. intros j a [Hj [[-> ->]|[_ Ha]]]%Hh; [unfold is_live; cbn; by rewrite Hre|].
      destruct (is_live (lc_call row) a) eqn:E; [|done]. apply is_live_true in E as [_ E]. destruct Hj. by eapply (lw_distinct _ Hw).
  - intros r. cbn [calls_of sp_update sp_cool]. apply cool_same.
    + intros j a Hj Ha. destruct (decide (j = i)) as [->|Hji]; [|destruct (decide (j = k)) as [->|Hjk]].
      * assert (a = row) as -> by (unfold holds in *; congruence). exists k, entry'. split_and!; [apply Hh; split; [done|by left]|by apply Hce|cbn; lia].
      * assert (a = entry) as -> by (unfold holds in *; congruence). exists k, entry'. split_and!; [apply Hh; split; [done|by left]| |cbn; lia].
        unfold cools in *. apply andb_true_iff in Ha as [_ E]. change (resource_of entry') with (resource_of entry). rewrite E, andb_true_r.
        apply negb_true_iff, Z.eqb_neq. cbn. lia.
      * exists j, a. split; [|done]. apply Hh. split; [done|]. by right.
    + intros j a [_ [[-> ->]|[_ Hj]]]%Hh Ha; [|by exists j, a]. unfold cools in Ha. apply andb_true_iff in Ha as [_ Ha].
      change (resource_of entry') with (resource_of entry) in Ha. destruct (Z.max_spec (lc_backoff_until_ms entry) (lc_backoff_until_ms row)) as [[? E]|[? E]].
      * exists i, row. split_and!; [done| |cbn; lia]. unfold cools. rewrite <- Hres, Ha, andb_true_r. by apply negb_true_iff, Z.eqb_neq.
      * exists k, entry. split_and!; [done| |cbn; lia]. unfold cools. rewrite Ha, andb_true_r. apply negb_true_iff, Z.eqb_neq. lia.
Qed.
Lemma lives_remove_spec l call : lives_wf l → ∃ l', (∀ E, lives_remove (E:=E) l call = Ok l') ∧ lives_wf l' ∧ calls_of l' ≡ sp_update call None (calls_of l).
Proof.
  intros Hw. unfold lives_remove. destruct (position (slot_is (is_live call)) (cl_rows l)) as [i|] eqn:Ep.
  2: { exists l. split_and!; [done..|]. apply remove_gone. by apply position_no_live. }
  destruct (position_live _ _ _ Ep) as (row & Hi & Hl). apply is_live_true in Hl as [Hr <-]. rewrite (proj2 (lives_at_holds l i row) Hi).
  destruct (Z.eqb_spec (lc_backoff_until_ms row) 0) as [Hb|Hb]; [exists (lives_set l i None); split; [done|]; by apply remove_plain|].
  pose (f := fun slot : option Row => slot_is (fun entry => lc_retired entry && eqb (resource_of entry) (resource_of row)) slot).
  destruct (lw_rows _ Hw _ _ Hi) as ([Hp Hq] & _).
  assert (∀ E slot, slot ∈ cl_rows l → match slot with
      | Some entry => if lc_retired entry then same_resource (E:=E) entry (call_peer (lc_call row)) (lc_code row) (lc_path row) (lc_queries row) else mret false
      | None => mret false end = Ok (f slot)) as Hf.
  { intros E [entry|] [j Hj]%list_elem_of_lookup; [|done]. cbn. destruct (lc_retired entry); [|done]. destruct (lw_rows _ Hw _ _ Hj) as (Hok & _).
    by rewrite (same_resource_spec _ _ _ _ _ _ _ Hok Hp Hq). }
  destruct (position f (cl_rows l)) as [k|] eqn:Ek.
  - destruct (position_live _ _ _ Ek) as (entry & Hk & [Hre Hres]%andb_true_iff). apply bool_decide_eq_true in Hres.
    eexists. split; [|by apply (remove_merges l i row k entry)]. intros E. rewrite (res_position_ok _ f) by apply Hf. rewrite Ek. unbind.
    by rewrite (proj2 (lives_at_holds l k entry) Hk).
  - eexists. split; [|by apply (remove_retires l i row)]. intros E. rewrite (res_position_ok _ f) by apply Hf. by rewrite Ek.
Qed.

(** *** Admitting a call *)
Definition token_unused l (token : T) : Prop := existsb (fun live => eqb (call_token (lc_call live)) token) (live_rows l) = false.
Lemma token_unused_holds l token : token_unused l token → ∀ i row, holds l i row → call_token (lc_call row) ≠ token.
Proof.
  intros Hu i row Hi E. unfold token_unused in Hu. apply not_true_iff_false in Hu. apply Hu. apply existsb_exists. exists row.
  split; [|by apply bool_decide_eq_true]. apply list_elem_of_In, elem_live_rows. by exists i.
Qed.
(** What a send has checked when it inserts its row: the target is not cooling
    down, and the call replaces a live one for the same target or its token is
    unused and a slot is free. *)
Record admissible l live : Prop := {
  ad_row : row_ok live ∧ lc_retired live = false ∧ lc_backoff_until_ms live = 0;
  ad_room : can_admit l (call_token (lc_call live)) (call_peer (lc_call live)) = true;
  ad_cool : cool l (resource_of live) = None;
  ad_call : (∃ row, lives_get l (lc_call live) = Some row ∧ resource_of row = resource_of live) ∨ token_unused l (call_token (lc_call live))
}.
Lemma slot_filled l i live : lives_wf l → admissible l live →
  (cl_rows l !! i = Some None ∧ (∀ j a, holds l j a → lc_call a ≠ lc_call live) ∨
   ∃ row, holds l i row ∧ lc_retired row = false ∧ lc_call row = lc_call live ∧ lc_backoff_until_ms row = 0) →
  let l' := lives_set l i (Some live) in
  lives_wf l' ∧ calls_of l' ≡ sp_update (lc_call live) (Some (erase live)) (calls_of l).
Proof.
  intros Hw [(Hok & Hr & Hb) _ _ _] Hslot l'.
  assert (i < length (cl_rows l))%nat as Hlt by (destruct Hslot as [[Hs _]|(row & Hs & _)]; by eapply lookup_lt_Some).
  assert (∀ j a, holds l j a → lc_call a = lc_call live → j = i) as Honly.
  { intros j a Hj Ha. destruct Hslot as [[_ Hn]|(row & Hs & _ & Hc & _)]; [by destruct (Hn j a)|]. eapply (lw_distinct _ Hw); [done..|congruence]. }
  assert (lives_wf l') as Hw'.
  { apply wf_set; [done..|]. intros ? [= <-]. split; [|done]. split; [done|]. rewrite Hr, Hb. split; [lia|done]. }
  assert (holds l' i live) as Hi by (apply holds_set; [done|by left]). split; [done|]. split.
  - apply live_updated; [done..| |].
    + intros j a Ha Hc. unfold l'. rewrite holds_set by done. split.
      * intros Hj. right. split; [|done]. intros ->. unfold holds in Hj. destruct Hslot as [[Hs _]|(row & Hs & _ & ? & _)]; unfold holds in *; congruence.
      * intros [[_ [= <-]]|[_ ?]]; done.
    + by rewrite (live_is_only _ i live), Hr.
  - intros r. cbn [calls_of sp_update sp_cool]. apply cool_same.
    + intros j a Hj Ha. exists j, a. split; [|done]. apply holds_set; [done|]. right. split; [|done]. intros ->.
      destruct Hslot as [[Hs _]|(row & Hs & _ & _ & Hz)]; unfold holds in *; [congruence|].
      assert (a = row) as -> by congruence. unfold cools in Ha. by rewrite Hz in Ha.
    + intros j a [[-> [= <-]]|[_ Hj]]%holds_set Ha; [unfold cools in Ha; by rewrite Hb in Ha|by exists j, a|done].
Qed.
Lemma lives_insert_spec l live : lives_wf l → admissible l live →
  lives_wf (lives_insert l live) ∧ calls_of (lives_insert l live) ≡ sp_update (lc_call live) (Some (erase live)) (calls_of l).
Proof.
  intros Hw Had. pose proof Had as [(Hok & Hr & Hb) Hroom Hcool Hcall]. unfold lives_insert.
  destruct (position (slot_is _) (cl_rows l)) as [i|] eqn:Ep.
  - destruct (position_live _ _ _ Ep) as (row & Hi & Hl). rewrite is_for_live in Hl. apply is_live_true in Hl as [Hrr Hcr].
    apply slot_filled; [done..|]. right. exists row. split_and!; [done..|]. destruct Hcall as [(row' & Hg & Hres)|Hu].
    + apply lives_get_Some in Hg as (j & Hj & _ & Hc); [|done]. assert (j = i) as -> by (eapply (lw_distinct _ Hw); [done..|congruence]).
      assert (row' = row) as -> by (unfold holds in *; congruence). pose proof (cool_is_cool l (resource_of live)) as Hn. rewrite Hcool in Hn.
      specialize (Hn i row Hi). unfold cools in Hn. rewrite Hres in Hn. unfold eqb in Hn. rewrite bool_decide_true, andb_true_r in Hn by done.
      by apply negb_false_iff, Z.eqb_eq in Hn.
    + destruct (token_unused_holds _ _ Hu i row Hi). by rewrite Hcr.
  - pose proof (position_no_live _ _ Ep) as Hno. assert (token_unused l (call_token (lc_call live))) as Hu.
    { destruct Hcall as [(row & Hg & _)|?]; [|done]. apply lives_get_Some in Hg as (j & Hj & Hrj & Hc); [|done]. specialize (Hno j row Hj).
      rewrite is_for_live in Hno. apply not_true_iff_false in Hno. destruct Hno. by apply is_live_true. }
    destruct (position (fun slot => negb (is_some slot)) (cl_rows l)) as [i|] eqn:Ef.
    + apply slot_filled; [done..|]. left. apply position_Some in Ef as [([row|] & Hi & ?) _]; [done|]. split; [done|].
      intros j a Hj E. destruct (token_unused_holds _ _ Hu j a Hj). by rewrite E.
    + rewrite position_None, Forall_lookup in Ef. unfold can_admit in Hroom. apply existsb_exists in Hroom as ([row|] & Hin & Hf).
      * apply list_elem_of_In, list_elem_of_lookup in Hin as [j Hj]. by rewrite (Hno j row Hj) in Hf.
      * apply list_elem_of_In, list_elem_of_lookup in Hin as [j Hj]. by specialize (Ef j _ Hj).
Qed.

(** *** Notifications *)
Definition received (parsed : ParsedMessage T) (os : list Opt) : Prop := 
  bytes_ok (pm_options _ parsed) ∧ Forall (fun o => bytes_ok (opt_value o)) os ∧ ∀ E, pm_opts (E:=E) parsed = Ok os.
Definition format_of (os : list Opt) : option (res ValueError Z) := option_map Opt_as_uint16 (head (numbered ON_CONTENT_FORMAT os)).
Definition noted (code : Code) (os : list Opt) (seq now : Z) row : Row :=
  set_observed row (Some (seq, now))
    (if negb (is_some (lc_observed_format row)) && (negb (code =? Code_VALID) || is_some (format_of os)) then Some (ok_value (format_of os))
     else lc_observed_format row).
Definition sp_notify call (code : Code) (os : list Opt) (now : Z) (s : Calls) : Calls :=
  match notification code os with
  | Some seq => sp_update call (option_map (noted code os seq now) (sp_live s call)) s
  | None => s
  end.
Lemma sp_update_self call l o : option_map erase (lives_get l call) = o → calls_of l ≡ sp_update call o (calls_of l).
Proof. intros <-. split; [|done]. intros c. cbn [calls_of sp_update sp_live]. by destruct (decide (c = call)) as [->|]. Qed.
Lemma observation_spec l call parsed os now : lives_wf l → received parsed os →
  ∃ l', (∀ E, record_observation (E:=E) l call parsed now = Ok l') ∧ lives_wf l' ∧
    calls_of l' ≡ sp_notify call (pm_code parsed) os now (calls_of l).
Proof.
  intros Hw (Hbytes & Hval & Hos). unfold record_observation, sp_notify.
  assert (∀ E, pm_content_format (E:=E) parsed = Ok (format_of os)) as Hfmt.
  { intros E. unfold pm_content_format. by rewrite (read_one _ os). }
  destruct (notification (pm_code parsed) os) as [seq|] eqn:En.
  2: { exists l. split; [|done]. intros E. by rewrite (observation_start_spec _ os), En. }
  destruct (position _ (cl_rows l)) as [i|] eqn:Ep.
  - destruct (position_live _ _ _ Ep) as (row & Hi & Hc%bool_decide_eq_true). exists (lives_set l i (Some (noted (pm_code parsed) os seq now row))). split.
    { intros E. rewrite (observation_start_spec _ os), En by done. unbind. rewrite (proj2 (lives_at_holds l i row) Hi), Hfmt. done. }
    assert (lives_wf (lives_set l i (Some (noted (pm_code parsed) os seq now row)))) as Hw'.
    { apply (wf_replace l i row); [done..|]. apply (lw_rows _ Hw _ _ Hi). }
    split; [done|]. assert (holds (lives_set l i (Some (noted (pm_code parsed) os seq now row))) i (noted (pm_code parsed) os seq now row)) as Hi'
      by (apply holds_set; [by eapply row_lt|by left]). split.
    + apply live_updated; [done..| |].
      * intros j a Ha Hne. apply (holds_set_other l i row); [done..|congruence|]. by intros ? [= <-].
      * cbn [calls_of sp_live]. rewrite (live_is_only _ i _ call Hw' Hi' Hc), (live_is_only _ i _ call Hw Hi Hc). cbn [lc_retired noted set_observed].
        by destruct (lc_retired row).
    + intros r. cbn [calls_of sp_update sp_cool]. apply cool_same.
      * apply (dominated_set l i row); [done|]. intros Hcr. by exists i, (noted (pm_code parsed) os seq now row).
      * apply (set_dominated l i row); [done|]. intros ? [= <-] Hcr. by exists i, row.
  - exists l. split; [intros E; by rewrite (observation_start_spec _ os), En by done|]. split; [done|]. apply sp_update_self. cbn [calls_of sp_live].
    assert (lives_get l call = None) as ->; [|done]. apply lives_get_None. intros i row Hi. pose proof (position_no_live _ _ Ep i row Hi) as Hne.
    unfold is_live. rewrite Hne. apply andb_false_r.
Qed.

(** *** Overload *)
Definition sp_overload call (code : Code) (os : list Opt) (now : Z) (s : Calls) : Calls :=
  match overload_delay code os with
  | None => s
  | Some secs =>
      let s := sp_expire now s in
      if secs =? 0 then s
      else match sp_live s call with Some row => sp_delay (resource_of row) (saturating_add 64 now (secs * 1000)) s | None => s end
  end.
Definition delayed row (until : Z) : Row := set_backoff row (Z.max (lc_backoff_until_ms row) until).
Lemma cools_self row : cools (resource_of row) row = negb (lc_backoff_until_ms row =? 0).
Proof. unfold cools, eqb. by rewrite bool_decide_true, andb_true_r by done. Qed.
Lemma holds_delayed l i row until j a : holds l i row →
  holds (lives_set l i (Some (delayed row until))) j a ↔ (j = i ∧ a = delayed row until) ∨ (j ≠ i ∧ holds l j a).
Proof.
  intros Hi. rewrite holds_set by (by eapply row_lt). split; (intros [[-> E]|?]; [left|by right]); [by injection E as <-|by subst a].
Qed.
Lemma delayed_cool l i row until : lives_wf l → holds l i row → 0 < until →
  cool (lives_set l i (Some (delayed row until))) (resource_of row) =
  Some (match cool l (resource_of row) with Some u => Z.max u until | None => until end).
Proof.
  intros Hw Hi Hu. apply cool_is_eq. destruct (lw_rows _ Hw _ _ Hi) as (_ & Hpos & _).
  assert (cools (resource_of row) (delayed row until) = true) as Hc.
  { change (resource_of row) with (resource_of (delayed row until)). rewrite cools_self. apply negb_true_iff, Z.eqb_neq. cbn. lia. }
  assert (holds (lives_set l i (Some (delayed row until))) i (delayed row until)) as Hi' by (apply holds_delayed; [done|by left]).
  pose proof (cool_is_cool l (resource_of row)) as Hu'. destruct (cool l (resource_of row)) as [u|].
  - destruct Hu' as [(j & a & Hj & Ha & <-) Hmax]. assert (lc_backoff_until_ms row ≤ lc_backoff_until_ms a) as Hle.
    { destruct (Z.eq_dec (lc_backoff_until_ms row) 0) as [->|Hz]; [by apply (lw_rows _ Hw _ _ Hj)|]. apply (Hmax i row Hi).
      rewrite cools_self. by apply negb_true_iff, Z.eqb_neq. }
    split.
    + destruct (Z.le_gt_cases (lc_backoff_until_ms a) (Z.max (lc_backoff_until_ms row) until)).
      * exists i, (delayed row until). split_and!; [done..|]. cbn. lia.
      * exists j, a. split_and!; [|done|lia]. apply holds_delayed; [done|]. right. split; [|done]. intros ->.
        assert (a = row) as -> by (unfold holds in *; congruence). lia.
    + intros k b Hk Hb. apply holds_delayed in Hk as [[_ ->]|[_ Hk]]; [cbn; lia| |done]. pose proof (Hmax _ _ Hk Hb). lia.
  - assert (lc_backoff_until_ms row = 0) as Hz by (specialize (Hu' i row Hi); rewrite cools_self in Hu'; by apply negb_false_iff, Z.eqb_eq in Hu').
    split; [exists i, (delayed row until); split_and!; [done..|cbn; lia]|]. intros k b Hk Hb.
    apply holds_delayed in Hk as [[_ ->]|[_ Hk]]; [cbn; lia| |done]. by rewrite (Hu' _ _ Hk) in Hb.
Qed.
Lemma delay_spec l i row until : lives_wf l → holds l i row → 0 < until →
  let l' := lives_set l i (Some (delayed row until)) in
  lives_wf l' ∧ calls_of l' ≡ sp_delay (resource_of row) until (calls_of l).
Proof.
  intros Hw Hi Hu l'. destruct (lw_rows _ Hw _ _ Hi) as (Hok & Hpos & Hret).
  assert (lives_wf l') as Hw' by (apply (wf_replace l i row); [done..|]; split; [done|]; cbn; split; [lia|]; lia). split; [done|]. split.
  - intros c. cbn [calls_of sp_delay sp_live]. apply lives_get_map; [done..| |].
    + intros j a Hj Ha. destruct (decide (j = i)) as [->|Hne].
      * assert (a = row) as -> by (unfold holds in *; congruence). exists i, (delayed row until). split_and!; [|done..]. apply holds_delayed; [done|by left].
      * exists j, a. split; [|done]. apply holds_delayed; [done|by right].
    + intros j a Hj Ha. apply holds_delayed in Hj as [[-> ->]|[_ Hj]]; [by exists i, row|by exists j, a|done].
  - intros r. cbn [calls_of sp_delay sp_cool]. destruct (decide (r = resource_of row)) as [->|Hne]; [by apply delayed_cool|].
    apply cool_same.
    + apply (dominated_set l i row); [done|]. intros [_ E%bool_decide_eq_true]%andb_true_iff. by destruct Hne.
    + apply (set_dominated l i row); [done|]. intros ? [= <-] [_ E%bool_decide_eq_true]%andb_true_iff. by destruct Hne.
Qed.
Lemma delay_nonneg code os secs : Forall (fun o => bytes_ok (opt_value o)) os → overload_delay code os = Some secs → 0 ≤ secs.
Proof.
  intros Hv. unfold overload_delay. destruct (_ || _); [|done]. assert (Forall (fun o => bytes_ok (opt_value o)) (numbered ON_MAX_AGE os)) as Hn.
  { apply Forall_forall. intros o [_ Ho]%list_elem_of_filter. rewrite Forall_forall in Hv. by apply Hv. }
  destruct (numbered ON_MAX_AGE os) as [|o [|]]; [intros [= <-]; unfold DEFAULT_MAX_AGE_SECS; lia| |done].
  apply Forall_cons in Hn as [Ho _]. unfold Opt_as_uint. rewrite decode_uint_spec by done. destruct (_ <=? _); [|done].
  intros [= <-]. by apply from_be_bound.
Qed.
Lemma overload_spec l call parsed os now : lives_wf l → received parsed os → in_u 64 now →
  ∃ l', (∀ E, record_backoff (E:=E) l call parsed now = Ok l') ∧ lives_wf l' ∧
    calls_of l' ≡ sp_overload call (pm_code parsed) os now (calls_of l).
Proof.
  intros Hw (Hbytes & Hval & Hos) Hnow. unfold sp_overload.
  set (finish := fun secs => let l := expire_backoffs l now in if secs =? 0 then l else
    match position (slot_is (is_live call)) (cl_rows l) with
    | Some i => match lives_at l i with Some row => lives_set l i (Some (delayed row (saturating_add 64 now (secs * 1000)))) | None => l end
    | None => l end).
  assert (∀ E, record_backoff (E:=E) l call parsed now = Ok (match overload_delay (pm_code parsed) os with Some secs => finish secs | None => l end)) as Hrun.
  { intros E. unfold record_backoff, overload_delay, pm_max_age. destruct (_ || _); [|done]. cbn [negb].
    rewrite (read_list _ os), (read_one _ os) by done. unbind.
    destruct (numbered ON_MAX_AGE os) as [|o [|]]; cbn [length head option_map Nat.ltb Nat.leb]; [| |done].
    - unfold finish. destruct (_ =? 0); [done|]. destruct (position _ _) as [i|]; [|done]. by destruct (lives_at _ i).
    - destruct (Opt_as_uint o) as [secs| | |]; try done. unfold finish. destruct (_ =? 0); [done|]. destruct (position _ _) as [i|]; [|done]. by destruct (lives_at _ i). }
  assert (∀ secs, overload_delay (pm_code parsed) os = Some secs → 0 ≤ secs) as Hsecs by (intros secs; by apply delay_nonneg).
  eexists. split; [exact Hrun|]. destruct (overload_delay (pm_code parsed) os) as [secs|] eqn:Ed; [|done]. specialize (Hsecs _ eq_refl).
  unfold finish. pose proof (expire_wf l now Hw) as Hwe. pose proof (expire_spec l now (proj1 Hnow) Hw) as He. cbn zeta.
  destruct (Z.eqb_spec secs 0) as [|Hs]; [done|]. pose proof (proj1 He call) as Hcall.
  destruct (position _ (cl_rows (expire_backoffs l now))) as [i|] eqn:Ep.
  - destruct (position_live _ _ _ Ep) as (row & Hi & [Hr Hc]%is_live_true). rewrite (proj2 (lives_at_holds _ i row) Hi).
    cbn [calls_of sp_live] in Hcall. rewrite (live_is_only _ i row call Hwe Hi Hc), Hr in Hcall. cbn [calls_of sp_live]. rewrite <- Hcall. cbn [option_map].
    change (resource_of (erase row)) with (resource_of row). destruct (delay_spec _ i row (saturating_add 64 now (secs * 1000)) Hwe Hi) as [Hw' Hd].
    { unfold saturating_add, in_u, max_u in *. lia. }
    split; [done|]. by rewrite Hd, He.
  - split; [done|]. assert (lives_get (expire_backoffs l now) call = None) as Hn by (apply lives_get_None; by apply position_no_live).
    cbn [calls_of sp_live] in Hcall |- *. rewrite Hn in Hcall. rewrite <- Hcall. exact He.
Qed.
End table.

(** ** Histories *)
Section history.
Context {T : Type} `{Target} `{!OwnedToken T} `{!OwnedTokenLaws T} `{EqDecision T}.
Abbreviation Lives := (ClientLives T).
Implicit Types (l : Lives) (live : LiveCall T) (call : Call T) (parsed : ParsedMessage T) (s : Calls (T:=T)).

(** Five changes of the table: a call starts, a call leaves, cool-downs run out,
    an answer asks for one, a notification is recorded.  Left out are
    [revoke_association], which clears the rows of an association with their
    cool-downs, and the writes of [fail_call], [arm_q_pacing] and [pace_qblock1]
    to the clocks inside a row. *)
Inductive CallOp : Type :=
  | CSend live
  | CRemove call
  | CExpire (now : Z)
  | COverload call parsed (now : Z)
  | CNotify call parsed (now : Z).
Definition run_call {E} (op : CallOp) l : res E Lives :=
  match op with
  | CSend live => mret (lives_insert l live)
  | CRemove call => lives_remove l call
  | CExpire now => mret (expire_backoffs l now)
  | COverload call parsed now => record_backoff l call parsed now
  | CNotify call parsed now => record_observation l call parsed now
  end.
Fixpoint run_calls {E} (ops : list CallOp) l : res E Lives :=
  match ops with [] => mret l | op :: ops => l ← run_call op l; run_calls ops l end.

Definition opts_of parsed : list Opt := match pm_opts (E:=unit) parsed with Ok os => os | _ => [] end.
Definition sp_call (op : CallOp) s : Calls :=
  match op with
  | CSend live => sp_update (lc_call live) (Some live) s
  | CRemove call => sp_update call None s
  | CExpire now => sp_expire now s
  | COverload call parsed now => sp_overload call (pm_code parsed) (opts_of parsed) now s
  | CNotify call parsed now => sp_notify call (pm_code parsed) (opts_of parsed) now s
  end.
Definition sp_calls (ops : list CallOp) s : Calls := foldl (fun s op => sp_call op s) s ops.
Definition no_calls : Calls := mkCalls (fun _ : Call T => None) (fun _ => None).

(** A response was decoded from a datagram, and the clock is a [u64]. *)
Definition arrived parsed (now : Z) : Prop := in_u 64 now ∧ ∃ buf, bytes_ok buf ∧ slice_fits buf ∧ decode_with_token buf = Ok parsed.
Definition op_ok l (op : CallOp) : Prop :=
  match op with
  | CSend live => admissible l live
  | CRemove _ => True
  | CExpire now => in_u 64 now
  | COverload _ parsed now | CNotify _ parsed now => arrived parsed now
  end.
(** The checks hold in the state each operation starts from. *)
Fixpoint history_ok (ops : list CallOp) l : Prop :=
  match ops with
  | [] => True
  | op :: ops => op_ok l op ∧ ∀ l', run_call (E:=unit) op l = Ok l' → history_ok ops l'
  end.

Lemma arrived_received parsed now : arrived parsed now → received parsed (opts_of parsed).
Proof.
  intros (_ & buf & Hb & Hf & Hd). destruct (received_form _ _ Hb Hf Hd) as (token & os & Hw).
  assert (opts_of parsed = os) as -> by (unfold opts_of; by rewrite (wf_opts _ _ _ Hw)).
  split; [by rewrite (wf_options _ _ _ Hw); apply Hw|]. split; [|apply Hw].
  eapply Forall_impl; [apply (form_ascending _ _ _ Hw)|]. by intros o (_ & ? & _).
Qed.
#[export] Instance sp_call_proper op : Proper ((≡) ==> (≡)) (sp_call op).
Proof.
  intros s s' Hs. destruct op; cbn [sp_call]; [by rewrite Hs..| |].
  - unfold sp_overload. destruct (overload_delay _ _); [|done]. destruct (_ =? 0); [by rewrite Hs|]. cbn [sp_expire sp_live].
    rewrite (proj1 Hs). destruct (sp_live s' call); by rewrite Hs.
  - unfold sp_notify. destruct (notification _ _); [|done]. by rewrite (proj1 Hs), Hs.
Qed.
Lemma erase_live live : lc_backoff_until_ms live = 0 → erase live = live.
Proof. by destruct live; cbn; intros ->. Qed.
Lemma call_step l op : lives_wf l → op_ok l op → ∃ l', (∀ E, run_call (E:=E) op l = Ok l') ∧ lives_wf l' ∧ calls_of l' ≡ sp_call op (calls_of l).
Proof.
  intros Hw Hop. destruct op as [live|call|now|call parsed now|call parsed now]; cbn [run_call sp_call op_ok] in *.
  - destruct (lives_insert_spec l live Hw Hop) as [Hw' Hs]. rewrite erase_live in Hs by apply (ad_row _ _ Hop). by exists (lives_insert l live).
  - by apply lives_remove_spec.
  - exists (expire_backoffs l now). split; [done|]. split; [by apply expire_wf|by apply expire_spec; [apply Hop|]].
  - apply overload_spec; [done|by eapply arrived_received|apply Hop].
  - apply observation_spec; [done|by eapply arrived_received].
Qed.
Lemma call_history ops : ∀ l s, lives_wf l → calls_of l ≡ s → history_ok ops l →
  ∃ l', (∀ E, run_calls (E:=E) ops l = Ok l') ∧ lives_wf l' ∧ calls_of l' ≡ sp_calls ops s.
Proof.
  induction ops as [|op ops IH]; intros l s Hw Hs Hok; [by exists l|]. destruct Hok as [Hop Hok].
  destruct (call_step l op Hw Hop) as (l1 & Hr & Hw1 & Hs1). destruct (IH l1 (sp_call op s) Hw1) as (l' & Hr' & Hw' & Hs'); [by rewrite Hs1, Hs|by apply Hok|].
  exists l'. split; [|done]. intros E. cbn [run_calls]. by rewrite Hr.
Qed.
Lemma new_wf CALLS : lives_wf (ClientLives_new (T:=T) CALLS).
Proof. split; [intros i row Hi|intros i j a b Hi]; exfalso; unfold holds in Hi; cbn in Hi; by apply lookup_replicate in Hi as [? _]. Qed.
Lemma new_calls CALLS : calls_of (ClientLives_new (T:=T) CALLS) ≡ no_calls.
Proof.
  assert (∀ i row, ¬ holds (ClientLives_new (T:=T) CALLS) i row) as Hn by (intros i row Hi; unfold holds in Hi; cbn in Hi; by apply lookup_replicate in Hi as [? _]).
  split; [intros call; cbn [calls_of sp_live no_calls]|intros r; cbn [calls_of sp_cool no_calls]; apply cool_is_eq; intros i row Hi; by destruct (Hn i row)].
  assert (lives_get (ClientLives_new (T:=T) CALLS) call = None) as ->; [|done]. apply lives_get_None. intros i row Hi. by destruct (Hn i row).
Qed.

(** C30: the table of outstanding calls refines two maps.  Over every history of
    sends, removals, expiry, overload answers and notifications, started from
    the empty table and checked as the code checks them, no operation panics;
    a call is found exactly as it was sent, with what notifications recorded,
    until it is removed; and the cool-down of a resource is the longest delay a
    4.29 or 5.03 answer to any of its calls asked for, kept when the call that
    received it is removed and dropped only once it has elapsed. *)
Theorem calls_refine CALLS ops :
  history_ok ops (ClientLives_new CALLS) →
  ∃ l, (∀ E, run_calls (E:=E) ops (ClientLives_new CALLS) = Ok l) ∧
    (∀ call, option_map erase (lives_get l call) = sp_live (sp_calls ops no_calls) call) ∧
    ∀ E (peer : Endpoint) (code : Code) path q segs qs, path_ok path segs → queries_ok q qs →
      backoff_until (E:=E) l peer code path q = Ok (sp_cool (sp_calls ops no_calls) (peer, code, segs, qs)).
Proof.
  intros Hok. destruct (call_history ops _ no_calls (new_wf CALLS) (new_calls CALLS) Hok) as (l & Hr & Hw & [Hl Hc]).
  exists l. split; [done|]. split; [exact Hl|]. intros E peer code path q segs qs Hp Hq. rewrite (backoff_until_spec _ _ _ _ _ segs qs) by done.
  f_equal. apply Hc.
Qed.
End history.

(** ** Order of notifications *)
Section order.
Context {T : Type} `{Target} `{!OwnedToken T} `{!OwnedTokenLaws T} `{EqDecision T}.
Implicit Types (l : ClientLives T) (call : Call T) (parsed : ParsedMessage T).

(** RFC 7641, section 3.4: a notification [v2] received at [t2] is newer than
    [v1] received at [t1], times in milliseconds. *)
Definition newer (v1 t1 v2 t2 : Z) : Prop :=
  (v1 < v2 ∧ v2 - v1 < 2 ^ 23) ∨ (v2 < v1 ∧ 2 ^ 23 < v1 - v2) ∨ t1 + 128 * 1000 < t2.
Lemma fresh_newer v1 t1 v2 t2 : in_u 24 v1 → in_u 24 v2 → 0 ≤ t1 →
  (let delta := Z.land (wrapping_sub 32 v2 v1) 0x00ffffff in
   (negb (delta =? 0) && (delta <? 0x00800000)) || (128000 <? saturating_sub t2 t1)) = true ↔ newer v1 t1 v2 t2.
Proof.
  intros H1 H2 Ht. cbn zeta. rewrite (land_mask _ 24) by done.
  assert (wrapping_sub 32 v2 v1 mod 2 ^ 24 = (v2 - v1) mod 2 ^ 24) as ->.
  { unfold wrapping_sub, wrap. apply Z.mod_mod_divide. by exists 256. }
  rewrite orb_true_iff, andb_true_iff, negb_true_iff, Z.eqb_neq, !Z.ltb_lt. unfold newer, saturating_sub, in_u in *.
  assert ((v2 - v1) mod 2 ^ 24 = if v1 <=? v2 then v2 - v1 else v2 - v1 + 2 ^ 24) as ->.
  { destruct (Z.leb_spec v1 v2); [by rewrite Z.mod_small by lia|]. symmetry. apply (Z.mod_unique _ _ (-1)); lia. }
  destruct (Z.leb_spec v1 v2); lia.
Qed.
Lemma notification_seq code os seq : Forall (fun o => bytes_ok (opt_value o)) os → notification code os = Some seq → in_u 24 seq.
Proof.
  intros Hv. unfold notification. destruct (_ && _); [|done]. assert (Forall (fun o => bytes_ok (opt_value o)) (numbered ON_OBSERVE os)) as Hn.
  { apply Forall_forall. intros o [_ Ho]%list_elem_of_filter. rewrite Forall_forall in Hv. by apply Hv. }
  destruct (numbered ON_OBSERVE os) as [|o ?]; [done|]. apply Forall_cons in Hn as [Ho _]. unfold decode_observe. destruct (Nat.ltb_spec 3 (length (opt_value o))); [done|].
  rewrite decode_uint_spec by done. destruct (_ <=? _); [|done]. intros [= <-]. pose proof (from_be_bound _ Ho) as [? Hlt]. split; [done|].
  eapply Z.lt_le_trans; [exact Hlt|]. apply Z.pow_le_mono_r; lia.
Qed.

(** C31: freshness of notifications is the order of RFC 7641.  Once a
    notification of a live call was recorded, a later response is taken as
    fresh exactly when it is not the start of a notification, or its sequence
    number follows the recorded one in the 24-bit serial order, or more than
    128 seconds have passed. *)
Theorem observe_order l call row first t1 later t2 l' :
  lives_wf l → lives_get l call = Some row → arrived first t1 → arrived later t2 →
  record_observation (E:=unit) l call first t1 = Ok l' →
  ∀ v1, notification (pm_code first) (opts_of first) = Some v1 →
  ∀ E, ∃ b, observe_fresh (E:=E) l' call later t2 = Ok b ∧
    (b = true ↔ match notification (pm_code later) (opts_of later) with Some v2 => newer v1 t1 v2 t2 | None => True end).
Proof.
  intros Hw Hg Ha1 Ha2 Hr v1 Hv1 E. pose proof (arrived_received _ _ Ha1) as Hr1. pose proof (arrived_received _ _ Ha2) as (Hb2 & Hf2 & Ho2).
  destruct (observation_spec l call first _ t1 Hw Hr1) as (l1 & Hrun & Hw1 & [Hlive _]). rewrite Hrun in Hr. injection Hr as <-.
  unfold observe_fresh. rewrite (observation_start_spec _ _ Hb2 Ho2). unbind.
  destruct (notification (pm_code later) (opts_of later)) as [v2|] eqn:Hv2; [|by exists true].
  specialize (Hlive call). unfold sp_notify in Hlive. rewrite Hv1 in Hlive. cbn [calls_of sp_live sp_update] in Hlive. rewrite decide_True, Hg in Hlive by done.
  destruct (lives_get l1 call) as [row'|]; [|done].
  assert (lc_observed row' = Some (v1, t1)) as Hobs by (apply (f_equal (option_map lc_observed)) in Hlive; cbn in Hlive; congruence).
  cbn [mbind option_bind]. rewrite Hobs. eexists. split; [done|]. destruct Hr1 as (_ & Hf1 & _).
  apply fresh_newer; [exact (notification_seq _ _ _ Hf1 Hv1)|exact (notification_seq _ _ _ Hf2 Hv2)|apply Ha1].
Qed.
End order.

(** ** What a request identity identifies *)
(** An ascending list is given by its options of each number. *)
Lemma ascending_weaken p q os : q ≤ p → opts_ascending p os → opts_ascending q os.
Proof. destruct os as [|o os]; [done|]. cbn. intros ? [? ?]. split; [lia|done]. Qed.
Lemma ascending_le p os o : opts_ascending p os → o ∈ os → p ≤ opt_number o.
Proof.
  revert p. induction os as [|x os IH]; intros p; [by intros _ ?%not_elem_of_nil|]. cbn. intros [Hp Ha] [->|Hin]%elem_of_cons; [done|].
  pose proof (IH _ Ha Hin). lia.
Qed.
Lemma elem_numbered o os : o ∈ os ↔ o ∈ numbered (opt_number o) os.
Proof. unfold numbered. rewrite list_elem_of_filter. naive_solver. Qed.
Lemma ascending_numbered_eq a : ∀ p b, opts_ascending p a → opts_ascending p b → (∀ n, numbered n a = numbered n b) → a = b.
Proof.
  induction a as [|x a IH]; intros p b Ha Hb Hn.
  { destruct b as [|y b]; [done|]. specialize (Hn (opt_number y)). rewrite numbered_cons, Z.eqb_refl in Hn. done. }
  destruct b as [|y b]; [specialize (Hn (opt_number x)); rewrite numbered_cons, Z.eqb_refl in Hn; done|].
  destruct Ha as [Hpx Ha], Hb as [Hpy Hb]. assert (opt_number x = opt_number y) as Exy.
  { assert (x ∈ y :: b) as Hx by (apply (proj2 (elem_numbered x _)); rewrite <- Hn; apply (proj1 (elem_numbered x _)); left).
    assert (y ∈ x :: a) as Hy by (apply (proj2 (elem_numbered y _)); rewrite Hn; apply (proj1 (elem_numbered y _)); left).
    apply elem_of_cons in Hx as [->|Hx]; [done|]. apply elem_of_cons in Hy as [->|Hy]; [done|].
    pose proof (ascending_le _ _ _ Hb Hx). pose proof (ascending_le _ _ _ Ha Hy). lia. }
  pose proof (Hn (opt_number x)) as Hx. rewrite !numbered_cons, Exy, Z.eqb_refl in Hx. injection Hx as -> Hx. f_equal.
  apply (IH (opt_number y)); [done..|]. intros n. specialize (Hn n). rewrite !numbered_cons in Hn. destruct (opt_number y =? n); [by injection Hn|done].
Qed.
Lemma numbered_cache n os : numbered n (cache_options os) = if cache_key n then numbered n os else [].
Proof.
  induction os as [|o os IH]; [by destruct (cache_key n)|]. unfold cache_options. cbn [List.filter]. fold (cache_options os). rewrite numbered_cons.
  destruct (cache_key (opt_number o)) eqn:Ek; rewrite ?numbered_cons, IH; destruct (Z.eqb_spec (opt_number o) n) as [<-|]; rewrite ?Ek; try done.
Qed.
Lemma ascending_cache p os : opts_ascending p os → opts_ascending p (cache_options os).
Proof.
  revert p. induction os as [|o os IH]; intros p; [done|]. unfold cache_options. cbn [opts_ascending List.filter]. fold (cache_options os). intros [Hp Ha].
  destruct (cache_key (opt_number o)); [by split; [|apply IH]|]. eapply ascending_weaken; [exact Hp|by apply IH].
Qed.
Lemma cache_options_eq a b : opts_ascending 0 a → opts_ascending 0 b →
  cache_options a = cache_options b ↔ ∀ n, cache_key n = true → numbered n a = numbered n b.
Proof.
  intros Ha Hb. split.
  - intros E n Hn. pose proof (numbered_cache n a) as Hca. rewrite E, numbered_cache, Hn in Hca. done.
  - intros Hn. apply (ascending_numbered_eq _ 0); [by apply ascending_cache..|]. intros n. rewrite !numbered_cache. destruct (cache_key n) eqn:E; [by apply Hn|done].
Qed.

Section identities.
Context {T : Type} `{Target}.
Implicit Types (spec : ClientSend T).

Definition tag_of spec : option (list Z) := match BodyTag_as_slice (E:=unit) (cs_request_tag spec) with Ok o => o | _ => None end.
Definition text_ok (v : list Z) : Prop := (length v ≤ 255)%nat ∧ bytes_ok v.
(** Values the request builder accepts. *)
Record spec_ok spec : Prop := {
  so_code : in_u 8 (cs_code spec);
  so_path : (length (cs_path spec) ≤ MAX_PATH_SEGMENTS)%nat ∧ Forall text_ok (cs_path spec);
  so_queries : (length (cs_queries spec) ≤ MAX_PATH_SEGMENTS)%nat ∧ Forall text_ok (cs_queries spec);
  so_if_match : ∀ t, cs_if_match spec = Some t → text_ok t;
  so_format : ∀ f, cs_content_format spec = Some f → in_u 16 f;
  so_accept : ∀ f, cs_accept spec = Some f → in_u 16 f;
  so_no_response : ∀ n, cs_no_response spec = Some n → in_u 8 n;
  so_block2 : ∀ b, cs_block2 spec = Some b → block_wf b;
  so_echo : ∀ e, cs_echo spec = Some e → echo_ok e;
  so_tag : (∀ E, BodyTag_as_slice (E:=E) (cs_request_tag spec) = Ok (tag_of spec)) ∧ ∀ t, tag_of spec = Some t → text_ok t;
  so_payload : slice_fits (cs_payload spec)
}.
(** What a request asks for, up to the options that are not part of the cache key. *)
Definition target_of spec :=
  (cs_code spec, if cs_code spec =? Code_FETCH then cs_payload spec else [], cs_if_match spec, cs_if_none_match spec, cs_path spec,
   cs_content_format spec, cs_queries spec, cs_accept spec, cs_no_response spec, tag_of spec).

Record IdParts : Type := mkIdParts { ip_format : list Opt; ip_accept : list Opt; ip_no_response : list Opt; ip_b2 : list Opt; ip_q2 : list Opt; ip_echo : list Opt }.
Definition id_parts spec (x : IdParts) : list (OptionNumber * list Opt) :=
  [(ON_IF_MATCH, given Opt_if_match (cs_if_match spec)); (ON_IF_NONE_MATCH, if cs_if_none_match spec then [Opt_if_none_match] else []);
   (ON_URI_PATH, map Opt_uri_path (cs_path spec)); (ON_CONTENT_FORMAT, ip_format x); (ON_URI_QUERY, map Opt_uri_query (cs_queries spec));
   (ON_ACCEPT, ip_accept x); (ON_BLOCK2, ip_b2 x); (ON_Q_BLOCK2, ip_q2 x); (ON_NO_RESPONSE, ip_no_response x); (ON_ECHO, ip_echo x);
   (ON_REQUEST_TAG, given Opt_request_tag (tag_of spec))].
Definition id_opts spec (x : IdParts) : list Opt := concat (map snd (id_parts spec x)).

Lemma given_part on f (o : option (list Z)) : (∀ v, opt_number (f v) = on ∧ opt_value (f v) = v) → in_u 16 on → (∀ t, o = Some t → text_ok t) →
  part on 1 (given f o).
Proof.
  intros Hf Hon Ho. destruct o as [t|]; cbn [given]; [|split_and!; [constructor|cbn; lia|constructor]]. destruct (Hf t) as [<- Hv]. apply single_part.
  destruct (Ho t eq_refl). unfold opt_ok. by rewrite Hv.
Qed.
Lemma uint_field on (o : option Z) w : in_u 16 on → 0 ≤ w ≤ 32 → (∀ f, o = Some f → in_u w f) →
  ∃ l, (∀ E, opt_mapM (E:=E) (fun n => e ← EncodedUint_new n; Opt_uint on e) o = Ok l) ∧ uint_opts on o l ∧ part on 1 l.
Proof.
  intros Hon Hw Ho. destruct (uint_mapM on o (fun n => n)) as (l & Hl & Hu); [intros n Hn; by apply (in_u_mono w 32); [|apply Ho]|].
  assert (option_map (fun n => n) o = o) as E by (by destruct o). rewrite E in Hu. exists l. split_and!; [done..|by eapply uint_part].
Qed.
Lemma block_field on (o : option BlockValue) : in_u 16 on → (∀ b, o = Some b → block_wf b) →
  ∃ l, (∀ E, opt_mapM (E:=E) (fun b => e ← EncodedUint_new (BlockValue_as_uint b); Opt_uint on e) o = Ok l) ∧ part on 1 l.
Proof.
  intros Hon Ho. destruct o as [b|]; [|exists []; split; [done|split_and!; [constructor|cbn; lia|constructor]]].
  destruct (uint_opt_ok on _ (block_uint_in b (Ho b eq_refl))) as (bs & He & Hu). exists [mkOpt on bs].
  split; [intros E; cbn [opt_mapM]; specialize (He E); unbind; by rewrite He|]. apply (uint_part on (Some (BlockValue_as_uint b))); [done|by exists bs].
Qed.
Lemma echo_field (o : option Echo) : (∀ e, o = Some e → echo_ok e) →
  ∃ l, (∀ E, opt_mapM (E:=E) (fun x => b ← Echo_as_slice x; mret (Opt_echo b)) o = Ok l) ∧ part ON_ECHO 1 l.
Proof.
  intros Ho. destruct o as [e|]; [|exists []; split; [done|split_and!; [constructor|cbn; lia|constructor]]]. destruct (Ho e eq_refl) as (Hl & Hb & Hn).
  exists [Opt_echo (take (Z.to_nat (echo_len e)) (echo_bytes e))]. split.
  - intros E. cbn [opt_mapM]. unfold Echo_as_slice. rewrite slice_prefix by (rewrite Hl; lia). done.
  - apply (single_part (Opt_echo _)). unfold opt_ok. cbn. split_and!; [done|by apply bytes_ok_take|]. rewrite length_take, Hl. unfold Echo_MAX_LEN. lia.
Qed.
Lemma parts_spec (ps : list (OptionNumber * list Opt)) ks : Forall2 (fun p k => part p.1 k p.2) ps ks →
  Forall (fun p => all_numbered p.1 p.2) ps ∧ (length (concat (map snd ps)) ≤ sum_list ks)%nat ∧ Forall opt_ok (concat (map snd ps)).
Proof.
  induction 1 as [|[on l] k ps ks (Ha & Hl & Ho) _ (IH1 & IH2 & IH3)]; [split_and!; [constructor|done|constructor]|]. cbn in *.
  rewrite length_app. split_and!; [by constructor|lia|by apply Forall_app].
Qed.
Lemma id_opts_spec spec : spec_ok spec → ∃ x,
  (∀ E, client_opts (E:=E) spec true = Ok (id_opts spec x)) ∧ Forall (fun p => all_numbered p.1 p.2) (id_parts spec x) ∧
  (length (id_opts spec x) ≤ CLIENT_OPTION_SLOTS)%nat ∧ Forall opt_ok (id_opts spec x) ∧
  uint_opts ON_CONTENT_FORMAT (cs_content_format spec) (ip_format x) ∧ uint_opts ON_ACCEPT (cs_accept spec) (ip_accept x) ∧
  uint_opts ON_NO_RESPONSE (cs_no_response spec) (ip_no_response x).
Proof.
  intros [Hcode Hpath Hq Him Hf Hacc Hnr Hb2 Hecho [Htag Htok] Hpay].
  destruct (uint_field ON_CONTENT_FORMAT _ 16 ltac:(done) ltac:(lia) Hf) as (lf & Ef & Uf & Pf).
  destruct (uint_field ON_ACCEPT _ 16 ltac:(done) ltac:(lia) Hacc) as (la & Ea & Ua & Pa).
  destruct (uint_field ON_NO_RESPONSE _ 8 ltac:(done) ltac:(lia) Hnr) as (ln & En & Un & Pn).
  destruct (block_field ON_BLOCK2 _ ltac:(done) Hb2) as (lb & Eb & Pb).
  destruct (block_field ON_Q_BLOCK2 (if cs_q_block2 spec then res_ok (BlockValue_new 0 true SZX_MAX) else None) ltac:(done)) as (lq & Eq & Pq).
  { intros b. destruct (cs_q_block2 spec); [|done]. intros [= <-]. by vm_compute. }
  destruct (echo_field _ Hecho) as (le & Ee & Pe). exists (mkIdParts lf la ln lb lq le).
  assert (∀ k, part k 1 []) as Pnil by (intros k; split_and!; [constructor|cbn; lia|constructor]).
  assert (Forall2 (fun p k => part p.1 k p.2) (id_parts spec (mkIdParts lf la ln lb lq le))
    [1; 1; length (cs_path spec); 1; length (cs_queries spec); 1; 1; 1; 1; 1; 1]%nat) as Hp.
  { repeat (apply Forall2_cons; split); try done; cbn [fst snd].
    - by apply given_part.
    - destruct (cs_if_none_match spec); [|done]. apply (single_part Opt_if_none_match). split_and!; [done|constructor|cbn; lia].
    - apply map_part; [done..|apply Hpath].
    - apply map_part; [done..|apply Hq].
    - by apply given_part. }
  split; [intros E; unfold client_opts|].
  { unfold Opt_content_format, Opt_accept, Opt_no_response, Opt_block2, Opt_q_block2. rewrite Ef, En, Ea, Eq, Eb, Ee, Htag. unbind. f_equal.
    unfold id_opts, id_parts. cbn [map snd concat app]. by rewrite app_nil_r. }
  pose proof (parts_spec _ _ Hp) as (H1 & H2 & H3). split_and!; [done| |done..].
  etrans; [exact H2|]. destruct Hpath as [Hp1 _], Hq as [Hq1 _]. unfold CLIENT_OPTION_SLOTS, MAX_PATH_SEGMENTS in *. cbn. lia.
Qed.

(** The identity decodes to the code, the payload and the sorted options. *)
Lemma identity_decodes spec i : spec_ok spec → request_identity_identity spec = Ok i → ∃ x os, opts_ascending 0 os ∧
  (∀ n, numbered n os = numbered n (id_opts spec x)) ∧ Forall (fun p => all_numbered p.1 p.2) (id_parts spec x) ∧
  uint_opts ON_CONTENT_FORMAT (cs_content_format spec) (ip_format x) ∧ uint_opts ON_ACCEPT (cs_accept spec) (ip_accept x) ∧
  uint_opts ON_NO_RESPONSE (cs_no_response spec) (ip_no_response x) ∧
  ∀ E, ∃ d, identity_decode (E:=E) i = Ok d ∧ hdr_code (pt_header d) = cs_code spec ∧ pt_payload d = cs_payload spec ∧
    ∀ E, Options_iter (E:=E) (pt_options d) = Ok os.
Proof.
  intros Hs Hi. destruct (id_opts_spec spec Hs) as (x & Ho & Hall & Hl & Hok & Hu). unfold request_identity_identity, with_client_options in Hi.
  destruct (push_all_kept _ _ Hl Hok) as (b & os & Hpush & Hsl & Ha & Hos & Hn). rewrite Ho in Hi. unbind. rewrite Hpush in Hi. cbn [map_err] in Hi. rewrite Hsl in Hi.
  set (m := identity_message (cs_code spec) os (cs_payload spec)) in *.
  destruct (encode m (replicate OBSERVE_REQUEST_BYTES 0)) as [bytes [n|e| |]] eqn:Ee; try done. injection Hi as <-.
  assert (slice_fits (replicate OBSERVE_REQUEST_BYTES 0)) as Hfit by (unfold slice_fits, OBSERVE_REQUEST_BYTES; rewrite length_replicate; pose proof usize_max_ge; lia).
  destruct (encode_ok_inv m [] (replicate OBSERVE_REQUEST_BYTES 0) bytes n) as (Hwf & -> & Hlen & ->); [|done|done|done|].
  { split_and!; [apply (so_code _ Hs)|done|split; [done|by split_and!; [cbn; lia|..]]|by apply opts_typed|apply (so_payload _ Hs)]. }
  cbn [m identity_message msg_code msg_options msg_payload msg_ty msg_id Message_with_payload Message_with_options Message_new] in *.
  exists x, os. split_and!; [done..|apply Hu|apply Hu|apply Hu|]. intros E. unfold identity_decode. cbn [or_bytes or_len].
  rewrite length_replicate in Hlen. rewrite splice_start, slice_prefix, take_app_length by (rewrite ?length_app, ?length_replicate; lia). unbind. unfold extended_decode.
  rewrite decode_parts_wire; [|unfold slice_fits, OBSERVE_REQUEST_BYTES in *; pose proof usize_max_ge; lia|done|done|done].
  eexists. split; [done|]. cbn [wire_parts pt_header pt_payload pt_options hdr_code]. split_and!; [done..|]. intros E'.
  apply Options_iter_wire; [|apply Hwf]. unfold slice_fits, OBSERVE_REQUEST_BYTES, msg_wire in *. rewrite !length_app in Hlen. pose proof usize_max_ge. lia.
Qed.

Lemma uint_bytes_unique n bs bs' : uint_bytes n bs → uint_bytes n bs' → bs = bs'.
Proof.
  intros Hb Hb'. assert (∀ u v, uint_bytes n u → uint_bytes n v → (length v ≤ length u)%nat) as Hle.
  { intros u v Hu Hv. apply (uint_bytes_length n); [done|]. destruct Hu as (<- & Hu & _). pose proof (from_be_bound _ Hu) as [_ Hlt].
    change 256 with (2 ^ 8). by rewrite <- Z.pow_mul_r by lia. }
  pose proof (Hle _ _ Hb Hb'). pose proof (Hle _ _ Hb' Hb). destruct Hb as (Hf & Ho & _), Hb' as (Hf' & Ho' & _). apply from_be_inj; [done..|lia|congruence].
Qed.
Lemma uint_opts_iff on o o' l l' : uint_opts on o l → uint_opts on o' l' → (l = l' ↔ o = o').
Proof.
  destruct o as [n|], o' as [n'|]; cbn [uint_opts]; [|by intros (? & -> & _) ->|by intros -> (? & -> & _)|by intros -> ->].
  intros (bs & -> & Hb) (bs' & -> & Hb'). split; [|intros [= <-]; by rewrite (uint_bytes_unique n bs bs')].
  intros [= <-]. f_equal. destruct Hb as (<- & _), Hb' as (<- & _). done.
Qed.
Lemma given_inj (f : list Z → Opt) (o o' : option (list Z)) : (∀ v w, f v = f w → v = w) → (given f o = given f o' ↔ o = o').
Proof. intros Hf. split; [|by intros ->]. destruct o, o'; cbn; intros [=]; [f_equal; by apply Hf|done]. Qed.
Lemma map_opt_inj (f : list Z → Opt) (l l' : list (list Z)) : (∀ v w, f v = f w → v = w) → (map f l = map f l' ↔ l = l').
Proof. intros Hf. split; [|by intros ->]. intros E. by apply (list_fmap_eq_inj f) in E. Qed.

(** The parts of the key, at their numbers. *)
Definition key_parts spec (x : IdParts) : list (OptionNumber * list Opt) :=
  [(ON_IF_MATCH, given Opt_if_match (cs_if_match spec)); (ON_IF_NONE_MATCH, if cs_if_none_match spec then [Opt_if_none_match] else []);
   (ON_URI_PATH, map Opt_uri_path (cs_path spec)); (ON_CONTENT_FORMAT, ip_format x); (ON_URI_QUERY, map Opt_uri_query (cs_queries spec));
   (ON_ACCEPT, ip_accept x); (ON_NO_RESPONSE, ip_no_response x); (ON_REQUEST_TAG, given Opt_request_tag (tag_of spec))].
Lemma key_numbered spec x n : Forall (fun p => all_numbered p.1 p.2) (id_parts spec x) → cache_key n = true →
  numbered n (id_opts spec x) = concat (map (fun p => if p.1 =? n then p.2 else []) (key_parts spec x)).
Proof.
  intros Hp Hn. unfold id_opts. rewrite numbered_parts by done. unfold id_parts, key_parts. cbn [map concat fst snd].
  destruct (Z.eqb_spec ON_BLOCK2 n) as [<-|_]; [done|]. destruct (Z.eqb_spec ON_Q_BLOCK2 n) as [<-|_]; [done|].
  destruct (Z.eqb_spec ON_ECHO n) as [<-|_]; [done|]. done.
Qed.
Lemma key_parts_iff a b x y : Forall (fun p => all_numbered p.1 p.2) (id_parts a x) → Forall (fun p => all_numbered p.1 p.2) (id_parts b y) →
  (∀ n, cache_key n = true → numbered n (id_opts a x) = numbered n (id_opts b y)) ↔ map snd (key_parts a x) = map snd (key_parts b y).
Proof.
  intros Ha Hb. split.
  - intros Hn. assert (∀ n, cache_key n = true → concat (map (fun p => if p.1 =? n then p.2 else []) (key_parts a x)) =
      concat (map (fun p => if p.1 =? n then p.2 else []) (key_parts b y))) as He by (intros n Hk; rewrite <- !key_numbered by done; by apply Hn).
    unfold key_parts in *. cbn [map snd].
    pose proof (He ON_IF_MATCH eq_refl) as E1. pose proof (He ON_IF_NONE_MATCH eq_refl) as E2. pose proof (He ON_URI_PATH eq_refl) as E3.
    pose proof (He ON_CONTENT_FORMAT eq_refl) as E4. pose proof (He ON_URI_QUERY eq_refl) as E5. pose proof (He ON_ACCEPT eq_refl) as E6.
    pose proof (He ON_NO_RESPONSE eq_refl) as E7. pose proof (He ON_REQUEST_TAG eq_refl) as E8.
    cbn [map concat fst snd Z.eqb Pos.eqb app ON_IF_MATCH ON_IF_NONE_MATCH ON_URI_PATH ON_CONTENT_FORMAT ON_URI_QUERY ON_ACCEPT ON_NO_RESPONSE ON_REQUEST_TAG] in *.
    rewrite ?app_nil_r in *. congruence.
  - intros E n Hk. rewrite !key_numbered by done. unfold key_parts in *. cbn [map snd] in E. injection E as -> E2 -> -> -> -> -> ->. cbn [map concat fst snd]. by rewrite E2.
Qed.
Lemma target_iff a b x y :
  uint_opts ON_CONTENT_FORMAT (cs_content_format a) (ip_format x) → uint_opts ON_CONTENT_FORMAT (cs_content_format b) (ip_format y) →
  uint_opts ON_ACCEPT (cs_accept a) (ip_accept x) → uint_opts ON_ACCEPT (cs_accept b) (ip_accept y) →
  uint_opts ON_NO_RESPONSE (cs_no_response a) (ip_no_response x) → uint_opts ON_NO_RESPONSE (cs_no_response b) (ip_no_response y) →
  target_of a = target_of b ↔
  cs_code a = cs_code b ∧ (cs_code a = Code_FETCH → cs_payload a = cs_payload b) ∧ map snd (key_parts a x) = map snd (key_parts b y).
Proof.
  intros Fa Fb Aa Ab Na Nb. pose proof (uint_opts_iff _ _ _ _ _ Fa Fb) as HF. pose proof (uint_opts_iff _ _ _ _ _ Aa Ab) as HA. pose proof (uint_opts_iff _ _ _ _ _ Na Nb) as HN.
  assert ((if cs_if_none_match a then [Opt_if_none_match] else []) = (if cs_if_none_match b then [Opt_if_none_match] else []) ↔ cs_if_none_match a = cs_if_none_match b) as HI
    by (by destruct (cs_if_none_match a), (cs_if_none_match b)).
  assert (∀ n v w, mkOpt n v = mkOpt n w → v = w) as Hinj by (by intros n v w [= ->]).
  pose proof (given_inj Opt_if_match (cs_if_match a) (cs_if_match b) (Hinj _)) as HM.
  pose proof (given_inj Opt_request_tag (tag_of a) (tag_of b) (Hinj _)) as HT.
  pose proof (map_opt_inj Opt_uri_path (cs_path a) (cs_path b) (Hinj _)) as HP.
  pose proof (map_opt_inj Opt_uri_query (cs_queries a) (cs_queries b) (Hinj _)) as HQ.
  unfold target_of, key_parts. cbn [map snd]. split.
  - intros E. assert (cs_code a = cs_code b) as Ec by congruence. split; [done|]. rewrite <- Ec in E. split.
    + intros Hf. rewrite Hf in E. cbn in E. congruence.
    + f_equal; [apply HM; congruence|]. f_equal; [apply HI; congruence|]. f_equal; [apply HP; congruence|]. f_equal; [apply HF; congruence|].
      f_equal; [apply HQ; congruence|]. f_equal; [apply HA; congruence|]. f_equal; [apply HN; congruence|]. f_equal; apply HT; congruence.
  - intros (Ec & Hp & E). assert ((if cs_code a =? Code_FETCH then cs_payload a else []) = (if cs_code b =? Code_FETCH then cs_payload b else [])) as ->.
    { rewrite <- Ec. destruct (Z.eqb_spec (cs_code a) Code_FETCH); [by apply Hp|done]. }
    assert (cs_if_match a = cs_if_match b) as -> by (apply HM; congruence). assert (cs_if_none_match a = cs_if_none_match b) as -> by (apply HI; congruence).
    assert (cs_path a = cs_path b) as -> by (apply HP; congruence). assert (cs_content_format a = cs_content_format b) as -> by (apply HF; congruence).
    assert (cs_queries a = cs_queries b) as -> by (apply HQ; congruence). assert (cs_accept a = cs_accept b) as -> by (apply HA; congruence).
    assert (cs_no_response a = cs_no_response b) as -> by (apply HN; congruence). assert (tag_of a = tag_of b) as -> by (apply HT; congruence). by rewrite Ec.
Qed.

(** C32: the identity a client keeps of an observation tells its target.  Of two
    requests that were given identities, [same_target] holds exactly when they
    have the same method, conditions, path, content format, queries, accepted
    format, No-Response and Request-Tag, and for FETCH the same body; Block and
    Echo options, which do not change the resource, make no difference. *)
Theorem identity_decides_target (a b : ClientSend T) ia ib :
  spec_ok a → spec_ok b → request_identity_identity a = Ok ia → request_identity_identity b = Ok ib →
  ∀ E, same_target (E:=E) ia ib = Ok (bool_decide (target_of a = target_of b)).
Proof.
  intros Ha Hb Hia Hib E. destruct (identity_decodes a ia Ha Hia) as (x & oa & Aa & Na & Pa & Fa & Ca & Ra & Da).
  destruct (identity_decodes b ib Hb Hib) as (y & ob & Ab & Nb & Pb & Fb & Cb & Rb & Db). destruct (Da E) as (da & Eda & Hca & Hpa & Hoa), (Db E) as (db & Edb & Hcb & Hpb & Hob).
  pose proof (target_iff a b x y Fa Fb Ca Cb Ra Rb) as Ht. rewrite <- (key_parts_iff a b x y Pa Pb) in Ht.
  unfold same_target. rewrite Eda, Edb. unbind. rewrite Hca, Hcb, Hpa, Hpb.
  destruct (Z.eqb_spec (cs_code a) (cs_code b)) as [Ec|Ec]; cbn [negb]; [|f_equal; symmetry; apply bool_decide_eq_false; by intros [? _]%Ht].
  destruct (_ && _) eqn:Ef.
  { f_equal. symmetry. apply bool_decide_eq_false. intros (_ & Hp & _)%Ht. bools. by rewrite Hp in *. }
  rewrite Hoa, Hob. f_equal. apply bool_decide_ext. rewrite Ht, (cache_options_eq oa ob Aa Ab). split.
  - intros Hn. split; [done|]. split.
    + intros Hf. rewrite Hf in Ef. cbn in Ef. apply negb_false_iff, bool_decide_eq_true in Ef. done.
    + intros n Hk. rewrite <- Na, <- Nb. by apply Hn.
  - intros (_ & _ & Hn) n Hk. rewrite Na, Nb. by apply Hn.
Qed.
End identities.

(** ** Tokens of new calls *)
Section tokens.
Context {T W : Type} `{Target} `{OwnedToken T} `{EqDecision T} `{Entropy W}.

(** A new call has a token no row uses, also not one that only cools down. *)
Lemma next_token_unused {ER} (l : ClientLives T) (ids ids' : AppIds * W) token : next_token (ER:=ER) l ids = (ids', Ok token) → token_unused l token.
Proof.
  unfold next_token. generalize 8%nat. intros n. revert ids. induction n as [|n IH]; intros ids; [done|]. cbn [token_attempts]. unbind.
  destruct (st_map_err AeIdentity AppIds_token ids) as [ids1 [t| | |]]; try done. destruct (existsb _ _) eqn:Ex; [apply IH|]. by intros [= _ <-].
Qed.
End tokens.

Section witness.
#[local] Existing Instance target64.

(** GET /a to the peer of [ex_call], without queries. *)
Definition ex_queries : RetainedQueries := mkQueries (replicate 256 0) (replicate 8 0) 0.
Definition ex_path : Path := mkPath ([97] :: replicate 7 []) 1.
Definition ex_live (b : Z) : LiveCall Token :=
  mkLive (ex_call b) ex_queries None BodyTag_ABSENT BodyTag_ABSENT false BodyTag_ABSENT ex_path Code_GET Confirmable None None None
    ObserveRegister None None None 247000 None 0 0 false.
(** ACK 5.03 with Max-Age 2, and ACK 2.05 with Observe numbers, all with token 0x05. *)
Definition ex_overload_wire : list Z := [97; 163; 0; 7; 5; 209; 1; 2].
Definition ex_notify_wire (seq : list Z) : list Z := [97; 69; 0; 7; 5; 96 + Z.of_nat (length seq)] ++ seq.
Definition ex_parsed (wire : list Z) : ParsedMessage Token :=
  match decode_with_token wire with Ok p => p | _ => mkParsed _ (mkHeader 1 Acknowledgement 0 0 0) Token_EMPTY [] [] end.

Definition ex_history : list (CallOp (T:=Token)) :=
  [CSend (ex_live 5); COverload (ex_call 5) (ex_parsed ex_overload_wire) 1000; CRemove (ex_call 5); CExpire 1500].
Lemma calls_refine_witness :
  ∃ l, (∀ E, run_calls (E:=E) ex_history (ClientLives_new 2) = Ok l) ∧ lives_get l (ex_call 5) = None ∧
    backoff_until (E:=unit) l (call_peer (ex_call 5)) Code_GET ex_path ex_queries = Ok (Some 3000).
Proof.
  destruct (calls_refine 2 ex_history) as (l & Hr & Hl & Hc).
  - split; [|intros l1 E1; injection E1 as <-; split; [|intros l2 E2; vm_compute in E2; injection E2 as <-; split; [exact I|intros l3 _; split; [split; [discriminate|reflexivity]|intros; exact I]]]].
    + split; [split_and!; [split; intros E|..]; vm_compute; reflexivity|vm_compute; reflexivity..|right; vm_compute; reflexivity].
    + split; [split; [done|vm_compute; reflexivity]|]. exists ex_overload_wire. split_and!; [by repeat constructor|by vm_compute|vm_compute; reflexivity].
  - exists l. split; [exact Hr|]. split.
    + specialize (Hl (ex_call 5)).
      assert (sp_live (sp_calls ex_history no_calls) (ex_call 5) = None) as Hn by (vm_compute; reflexivity). rewrite Hn in Hl. destruct (lives_get l (ex_call 5)); [discriminate Hl|reflexivity].
    + rewrite (Hc unit _ _ _ _ [[97]] []); [vm_compute; reflexivity|intros E; vm_compute; reflexivity..].
Defined.

(** Number 2 after the largest one. *)
Lemma observe_order_witness :
  ∃ l', record_observation (E:=unit) (mkLives [Some (ex_live 5)]) (ex_call 5) (ex_parsed (ex_notify_wire [255; 255; 255])) 1000 = Ok l' ∧
    observe_fresh (E:=unit) l' (ex_call 5) (ex_parsed (ex_notify_wire [2])) 2000 = Ok true.
Proof.
  eexists. split; [vm_compute; reflexivity|].
  edestruct (observe_order (mkLives [Some (ex_live 5)]) (ex_call 5) (ex_live 5) (ex_parsed (ex_notify_wire [255; 255; 255])) 1000 (ex_parsed (ex_notify_wire [2])) 2000)
    as (b & Hb & Hn).
  - split; intros i; [intros row Hi|intros j a c Hi Hj _]; destruct i as [|[]]; try discriminate Hi.
    + injection Hi as <-. split_and!; [split; intros E; vm_compute; reflexivity|vm_compute; discriminate|discriminate].
    + destruct j as [|[]]; [reflexivity|discriminate Hj..].
  - vm_compute. reflexivity.
  - split; [split; [done|vm_compute; reflexivity]|]. exists (ex_notify_wire [255; 255; 255]). split_and!; [by repeat constructor|by vm_compute|vm_compute; reflexivity].
  - split; [split; [done|vm_compute; reflexivity]|]. exists (ex_notify_wire [2]). split_and!; [by repeat constructor|by vm_compute|vm_compute; reflexivity].
  - vm_compute. reflexivity.
  - vm_compute. reflexivity.
  - rewrite Hb. f_equal. apply Hn. right. left. vm_compute. split; reflexivity.
Defined.

(** Two observations of /a that differ in the preferred block size. *)
Definition ex_send (block2 : option BlockValue) : ClientSend Token :=
  mkClientSend _ (call_peer (ex_call 5)) Confirmable Code_GET Token_EMPTY [[97]] [] None None None None BodyTag_ABSENT None None false [] false false block2 ObserveRegister.
Definition ex_identity (block2 : option BlockValue) : ObserveRequest :=
  match request_identity_identity (ex_send block2) with Ok i => i | _ => mkObserveRequest [] 0 end.
Lemma identity_decides_target_witness :
  same_target (E:=unit) (ex_identity None) (ex_identity (Some (mkBlock 0 false 2))) = Ok true.
Proof.
  assert (∀ b, (∀ x, b = Some x → block_wf x) → spec_ok (ex_send b)) as Hok.
  { intros b Hb. constructor; try done.
    - split; [cbn; unfold MAX_PATH_SEGMENTS; lia|]. by repeat constructor.
    - split; [cbn; unfold MAX_PATH_SEGMENTS; lia|constructor]. }
  rewrite (identity_decides_target (ex_send None) (ex_send (Some (mkBlock 0 false 2))));
    [reflexivity|by apply Hok|apply Hok; by intros x [= <-]|vm_compute; reflexivity|vm_compute; reflexivity].
Defined.
End witness.
