(* ===== verification/LakersCred.v ===== *)
(** * Readers over a slice and a position

    Two readers of the provisioning code have the same shape: an input slice
    and a position that only moves forward.  [consumes] says that a reader
    accepts given bytes wherever they stand, [yields] that whatever it accepts
    has a given form; both compose along [≫=], so that the grammar of a format
    is proved by following the code of its reader. *)
From S2P Require Import Prelude.

Section Cursor.
Context {S : Type} (mk : list Z → nat → S).

(** [m] reads exactly [bs] and returns [a]. *)
Definition consumes `{Target} {E A} (m : st S E A) (bs : list Z) (a : A) : Prop :=
  ∀ p q, usize_ok (length (p ++ bs ++ q)) →
    m (mk (p ++ bs ++ q) (length p)) = (mk (p ++ bs ++ q) (length (p ++ bs)), Ok a).

(** Whenever [m] returns a value, [P] relates it to the bytes it read. *)
Definition yields {E A} (m : st S E A) (P : A → list Z → Prop) : Prop :=
  ∀ p s s' a, m (mk (p ++ s) (length p)) = (s', Ok a) →
    ∃ bs q, s = bs ++ q ∧ s' = mk (p ++ s) (length (p ++ bs)) ∧ P a bs.

Section Consumes.
Context `{Target} {E : Type}.

Lemma consumes_ret {A} (a : A) : consumes (E:=E) (mret a) [] a.
Proof. intros p q _. by rewrite app_nil_r. Qed.

Lemma consumes_bind {A B} (m : st S E A) (f : A → st S E B) b1 b2 a b :
  consumes m b1 a → consumes (f a) b2 b → consumes (m ≫= f) (b1 ++ b2) b.
Proof.
  intros Hm Hf p q Hq. unbind. rewrite <- !app_assoc in *.
  rewrite (Hm p (b2 ++ q) Hq). specialize (Hf (p ++ b1) q). rewrite <- !app_assoc in Hf.
  rewrite Hf by done. by rewrite <- ?app_assoc.
Qed.

Lemma consumes_seq {A B} (m : st S E A) (f : A → st S E B) b1 b2 bs a b :
  consumes m b1 a → consumes (f a) b2 b → bs = b1 ++ b2 → consumes (m ≫= f) bs b.
Proof. intros ? ? ->. by eapply consumes_bind. Qed.

(** A last step that reads nothing. *)
Lemma consumes_then {A B} (m : st S E A) (f : A → st S E B) bs a b :
  consumes m bs a → consumes (f a) [] b → consumes (m ≫= f) bs b.
Proof. intros Hm Hf. rewrite <- (app_nil_r bs). by eapply consumes_bind. Qed.

Lemma consumes_first {A B} (m : st S E A) (f : A → st S E B) bs a b :
  consumes m [] a → consumes (f a) bs b → consumes (m ≫= f) bs b.
Proof. intros Hm Hf. by apply (consumes_bind _ _ [] bs a b). Qed.

Lemma consumes_lift {A} (r : res E A) a : r = Ok a → consumes (st_lift r) [] a.
Proof. intros -> p q _. by rewrite app_nil_r. Qed.

Lemma consumes_map_err {F A} (g : E → F) (m : st S E A) bs a :
  consumes m bs a → consumes (st_map_err g m) bs a.
Proof. intros Hm p q Hq. unfold st_map_err. by rewrite Hm. Qed.

(** A reader that consumes the whole input ends at its end. *)
Lemma consumes_all {A} (m : st S E A) bs a :
  consumes m bs a → usize_ok (length bs) → m (mk bs 0) = (mk bs (length bs), Ok a).
Proof. intros Hm Hq. specialize (Hm [] []). rewrite app_nil_r in Hm. by apply Hm. Qed.

End Consumes.

Section Yields.
Context {E : Type}.

Lemma yields_ret {A} (a : A) : yields (E:=E) (mret a) (fun b bs => b = a ∧ bs = []).
Proof. intros p s s' b [= <- <-]. exists [], s. by rewrite app_nil_r. Qed.

Lemma yields_bind {A B} (m : st S E A) (f : A → st S E B) P Q :
  yields m P → (∀ a, yields (f a) (Q a)) →
  yields (m ≫= f) (fun b bs => ∃ a b1 b2, bs = b1 ++ b2 ∧ P a b1 ∧ Q a b b2).
Proof.
  intros Hm Hf p s s' b. unbind. destruct (m _) as [s1 [a|e| |]] eqn:E1; try done. intros E2.
  apply Hm in E1 as (b1 & q & -> & -> & HP). rewrite app_assoc in E2.
  apply Hf in E2 as (b2 & q2 & -> & -> & HQ). exists (b1 ++ b2), q2. rewrite <- !app_assoc.
  repeat split. by exists a, b1, b2.
Qed.

Lemma yields_lift {A} (r : res E A) : yields (st_lift r) (fun b bs => r = Ok b ∧ bs = []).
Proof. intros p s s' b [= <- ->]. exists [], s. by rewrite app_nil_r. Qed.

Lemma yields_fail {A} (e : E) P : yields (A:=A) (st_fail e) P.
Proof. intros p s s' b [=]. Qed.

Lemma yields_mono {A} (m : st S E A) (P Q : A → list Z → Prop) :
  yields m P → (∀ a bs, P a bs → Q a bs) → yields m Q.
Proof. intros Hm HPQ p s s' a (bs & q & -> & -> & HP)%Hm. exists bs, q. eauto. Qed.

Lemma yields_map_err {F A} (g : E → F) (m : st S E A) P : yields m P → yields (st_map_err g m) P.
Proof.
  intros Hm p s s' a. unfold st_map_err. destruct (m _) as [s1 r] eqn:E1.
  destruct r; intros [= <- <-]. by apply Hm in E1.
Qed.

(** From the start of the input. *)
Lemma yields_start {A} (m : st S E A) P bs s' a :
  yields m P → m (mk bs 0) = (s', Ok a) →
  ∃ b q, bs = b ++ q ∧ s' = mk bs (length b) ∧ P a b.
Proof. intros Hm HE. by apply (Hm [] bs) in HE. Qed.

(** A look at the next byte does not move the reader. *)
Lemma yields_peek {A B} (m : st S E A) (f : A → st S E B) P :
  (∀ s, ∃ a, m s = (s, Ok a)) → (∀ a, yields (f a) P) → yields (m ≫= f) P.
Proof.
  intros Hm Hf p s s' b. unbind. destruct (Hm (mk (p ++ s) (length p))) as [a ->]. apply Hf.
Qed.

End Yields.

(** ** Readers that end with the input *)
Section End_.
Context `{Target} {E : Type}.

Definition consumes_end {A} (m : st S E A) (bs : list Z) (a : A) : Prop :=
  ∀ p, usize_ok (length (p ++ bs)) →
    ∃ s', m (mk (p ++ bs) (length p)) = (s', Ok a).

Definition yields_end {A} (m : st S E A) (P : A → list Z → Prop) : Prop :=
  ∀ p s s' a, m (mk (p ++ s) (length p)) = (s', Ok a) → P a s.

Lemma consumes_end_bind {A B} (m : st S E A) (f : A → st S E B) b1 b2 a b :
  consumes m b1 a → consumes_end (f a) b2 b → consumes_end (m ≫= f) (b1 ++ b2) b.
Proof.
  intros Hm Hf p Hq. unbind. rewrite (Hm p b2 Hq). rewrite app_assoc in Hq |- *. by apply Hf.
Qed.

Lemma consumes_end_seq {A B} (m : st S E A) (f : A → st S E B) b1 b2 bs a b :
  consumes m b1 a → consumes_end (f a) b2 b → bs = b1 ++ b2 → consumes_end (m ≫= f) bs b.
Proof. intros ? ? ->. by eapply consumes_end_bind. Qed.

Lemma consumes_end_first {A B} (m : st S E A) (f : A → st S E B) bs a b :
  consumes m [] a → consumes_end (f a) bs b → consumes_end (m ≫= f) bs b.
Proof. intros Hm Hf. by apply (consumes_end_bind _ _ [] bs a b). Qed.

Lemma yields_end_bind {A B} (m : st S E A) (f : A → st S E B) P Q :
  yields m P → (∀ a, yields_end (f a) (Q a)) →
  yields_end (m ≫= f) (fun b s => ∃ a b1 b2, s = b1 ++ b2 ∧ P a b1 ∧ Q a b b2).
Proof.
  intros Hm Hf p s s' b. unbind. destruct (m _) as [s1 [a|e| |]] eqn:E1; try done. intros E2.
  apply Hm in E1 as (b1 & q & -> & -> & HP). rewrite app_assoc in E2. apply Hf in E2.
  by exists a, b1, q.
Qed.

Lemma yields_end_mono {A} (m : st S E A) (P Q : A → list Z → Prop) :
  yields_end m P → (∀ a bs, P a bs → Q a bs) → yields_end m Q.
Proof. intros Hm HPQ p s s' a HE. eapply HPQ, Hm, HE. Qed.

Lemma yields_end_fail {A} (e : E) P : yields_end (A:=A) (st_fail e) P.
Proof. intros p s s' b [=]. Qed.

Lemma yields_end_peek {A B} (m : st S E A) (f : A → st S E B) P :
  (∀ s, ∃ a, m s = (s, Ok a)) → (∀ a, yields_end (f a) P) → yields_end (m ≫= f) P.
Proof.
  intros Hm Hf p s s' b. unbind. destruct (Hm (mk (p ++ s) (length p))) as [a ->]. apply Hf.
Qed.

End End_.
End Cursor.

(** * Credentials of the vendored EDHOC library

    [provisioning/lakers/shared/buffer.rs], the CBOR decoder of
    [provisioning/lakers/shared/mod.rs] and [provisioning/lakers/shared/cred.rs]:
    fixed buffers, the reader of small CBOR items, the parser of CCS
    credentials and COSE keys, and the values of ID_CRED_x.

    A decoder is its input and a position, in [st]; the loops over the entries
    of a map are structural in the number of entries, at most 23. *)
(** ** Fixed buffers *)
Inductive EdhocBufferError : Type := BufferAlreadyFull | SliceTooLong.

Record EdhocBuffer : Type := mk_ebuf { eb_content : list Z; eb_len : nat }.

#[export] Instance EdhocBuffer_eq_dec : EqDecision EdhocBuffer.
Proof. solve_decision. Defined.

(** [EdhocBuffer::<N>::new]. *)
Definition ebuf_new (N : nat) : EdhocBuffer := mk_ebuf (replicate N 0) 0.

Definition fill_with_slice (slice : list Z) : st EdhocBuffer EdhocBufferError unit := fun b =>
  if (length slice <=? length (eb_content b))%nat then
    match copy_into 0 (length slice) slice (eb_content b) with
    | Ok c => (mk_ebuf c (length slice), Ok tt)
    | Err e => (b, Err e)
    | Panic => (b, Panic)
    | Diverge => (b, Diverge)
    end
  else (b, Err SliceTooLong).

Definition new_from_slice (N : nat) (slice : list Z) : res EdhocBufferError EdhocBuffer :=
  match fill_with_slice slice (ebuf_new N) with
  | (b, Ok _) => Ok b
  | (_, Err _) => Err SliceTooLong
  | (_, Panic) => Panic
  | (_, Diverge) => Diverge
  end.

Definition ebuf_push (item : Z) : st EdhocBuffer EdhocBufferError unit := fun b =>
  if (eb_len b <? length (eb_content b))%nat then
    match set_idx (eb_len b) item (eb_content b) with
    | Ok c => (mk_ebuf c (S (eb_len b)), Ok tt)
    | Err e => (b, Err e)
    | Panic => (b, Panic)
    | Diverge => (b, Diverge)
    end
  else (b, Err BufferAlreadyFull).

Definition extend_from_slice (slice : list Z) : st EdhocBuffer EdhocBufferError unit := fun b =>
  if (eb_len b + length slice <=? length (eb_content b))%nat then
    match copy_into (eb_len b) (eb_len b + length slice) slice (eb_content b) with
    | Ok c => (mk_ebuf c (eb_len b + length slice), Ok tt)
    | Err e => (b, Err e)
    | Panic => (b, Panic)
    | Diverge => (b, Diverge)
    end
  else (b, Err SliceTooLong).

(** [as_slice]: [&self.content[0..self.len]]. *)
Definition ebuf_as_slice {E} (b : EdhocBuffer) : res E (list Z) :=
  slice_idx (eb_content b) 0 (eb_len b).

(** A buffer of capacity [N] whose contents are [bs]; the rest keeps what it had. *)
Definition ebuf_of (N : nat) (bs : list Z) : EdhocBuffer :=
  mk_ebuf (splice (replicate N 0) 0 bs) (length bs).

Lemma new_from_slice_eq N bs :
  new_from_slice N bs = if (length bs <=? N)%nat then Ok (ebuf_of N bs) else Err SliceTooLong.
Proof.
  unfold new_from_slice, fill_with_slice, ebuf_new. cbn [eb_content]. rewrite length_replicate.
  destruct (Nat.leb_spec (length bs) N); [|done].
  by rewrite copy_into_ok by (rewrite ?length_replicate; lia).
Qed.

Lemma ebuf_of_as_slice {E} N bs : (length bs ≤ N)%nat → ebuf_as_slice (E:=E) (ebuf_of N bs) = Ok bs.
Proof.
  intros H. unfold ebuf_as_slice, ebuf_of. cbn [eb_content eb_len].
  rewrite slice_prefix by (rewrite length_splice; rewrite length_replicate; lia).
  f_equal. unfold splice. simpl. by rewrite take_app_length.
Qed.

Lemma extend_from_slice_of N bs s :
  (length bs + length s ≤ N)%nat →
  extend_from_slice s (ebuf_of N bs) = (ebuf_of N (bs ++ s), Ok tt).
Proof.
  intros H. unfold extend_from_slice, ebuf_of. cbn [eb_content eb_len].
  rewrite length_splice by (rewrite length_replicate; lia). rewrite length_replicate.
  rewrite (proj2 (Nat.leb_le (length bs + length s) N)) by lia.
  rewrite copy_into_ok by (rewrite ?length_splice; rewrite ?length_replicate; lia).
  rewrite splice_splice by (rewrite ?length_replicate; lia). by rewrite length_app.
Qed.

Lemma ebuf_new_of N : ebuf_new N = ebuf_of N [].
Proof. unfold ebuf_new, ebuf_of. by rewrite splice_nil. Qed.

(** ** The CBOR decoder *)
Inductive CBORError : Type := DecodingError.

Inductive EDHOCError : Type :=
  | UnexpectedCredential | MissingIdentity | IdentityAlreadySet | MacVerificationFailed
  | UnsupportedMethod | UnsupportedCipherSuite | ParsingError | EncodingError
  | CredentialTooLongError | EadLabelTooLongError | EadTooLongError | EADUnprocessable
  | AccessDenied.

(** [From<CBORError> for EDHOCError], which [?] applies. *)
Definition edhoc_of_cbor (e : CBORError) : EDHOCError :=
  match e with DecodingError => ParsingError end.

Record CBORDecoder : Type := mk_dec { d_buf : list Z; d_pos : nat }.

Definition dec_new (bytes : list Z) : CBORDecoder := mk_dec bytes 0.

Definition CBOR_MAJOR_TEXT_STRING : Z := 0x60.
Definition CBOR_MAJOR_BYTE_STRING : Z := 0x40.
Definition CBOR_MAJOR_ARRAY : Z := 0x80.
Definition CBOR_MAJOR_MAP : Z := 0xA0.
Definition KCCS_LABEL : Z := 14.
Definition KID_LABEL : Z := 4.

Definition type_of (b : Z) : Z := Z.land b 0xe0.
Definition info_of (b : Z) : Z := Z.land b 0x1f.

Section Decoder.
Context `{Target}.

Definition dread : st CBORDecoder CBORError Z := fun d =>
  match d_buf d !! d_pos d with
  | Some b => (mk_dec (d_buf d) (d_pos d + 1), Ok b)
  | None => (d, Err DecodingError)
  end.

Definition read_slice (n : nat) : st CBORDecoder CBORError (list Z) := fun d =>
  match usize_checked_add (d_pos d) n ≫= (fun stop => slice_get (d_buf d) (d_pos d) stop) with
  | Some b => (mk_dec (d_buf d) (d_pos d + n), Ok b)
  | None => (d, Err DecodingError)
  end.

Definition dec_finished (d : CBORDecoder) : bool := (d_pos d =? length (d_buf d))%nat.

(** [u8]. *)
Definition dec_u8 : st CBORDecoder CBORError Z :=
  n ← dread;
  if n <=? 0x17 then mret n
  else if 0x18 =? n then
    value ← dread;
    if value <? 24 then st_fail DecodingError else mret value
  else st_fail DecodingError.

(** [i8::try_from(u8)]. *)
Definition i8_try_from (x : Z) : option Z := if x <=? 127 then Some x else None.

(** [i8]. *)
Definition dec_i8 : st CBORDecoder CBORError Z :=
  n ← dread;
  if n <=? 0x17 then mret n
  else if (0x20 <=? n) && (n <=? 0x37) then mret (-1 - (n - 0x20))
  else if 0x18 =? n then
    argument ← dread;
    if argument <? 24 then st_fail DecodingError
    else st_lift (ok_or (i8_try_from argument) DecodingError)
  else if 0x38 =? n then
    byte ← dread;
    argument ← st_lift (ok_or (i8_try_from byte) DecodingError);
    if argument <? 24 then st_fail DecodingError else mret (-1 - argument)
  else st_fail DecodingError.

Definition as_usize (b : Z) : st CBORDecoder CBORError nat :=
  if b <=? 0x17 then mret (Z.to_nat b)
  else if 0x18 =? b then
    argument ← dread;
    if argument <? 24 then st_fail DecodingError else mret (Z.to_nat argument)
  else st_fail DecodingError.

(** [str] and [bytes], which differ in the major type. *)
Definition dec_string (major : Z) : st CBORDecoder CBORError (list Z) :=
  b ← dread;
  if negb (major =? type_of b) || (info_of b =? 31) then st_fail DecodingError
  else n ← as_usize (info_of b); read_slice n.

Definition dec_str : st CBORDecoder CBORError (list Z) := dec_string CBOR_MAJOR_TEXT_STRING.
Definition dec_bytes : st CBORDecoder CBORError (list Z) := dec_string CBOR_MAJOR_BYTE_STRING.

(** [map]. *)
Definition dec_map : st CBORDecoder CBORError nat :=
  b ← dread;
  if negb (CBOR_MAJOR_MAP =? type_of b) then st_fail DecodingError
  else if info_of b <? 24 then as_usize (info_of b)
  else st_fail DecodingError.

(** ** Credentials *)
Inductive CredentialKey : Type := Symmetric (k : list Z) | EC2Compact (x : list Z).
Inductive CredentialType : Type := CCS | CCS_PSK.

Record Credential : Type := mk_cred {
  cr_bytes : EdhocBuffer;
  cr_key : CredentialKey;
  cr_kid : option EdhocBuffer;
  cr_type : CredentialType
}.

Definition cred_public_key (c : Credential) : option (list Z) :=
  match cr_key c with EC2Compact key => Some key | _ => None end.

(** [?] on a decoder call inside a function that returns [EDHOCError]. *)
Definition cbor {A} (m : st CBORDecoder CBORError A) : st CBORDecoder EDHOCError A :=
  st_map_err edhoc_of_cbor m.

(** [<[u8; 32]>::try_from(slice)]. *)
Definition array32 (bs : list Z) : option (list Z) :=
  if (length bs =? 32)%nat then Some bs else None.

(** One entry of a COSE key. *)
Definition cosekey_entry (x : option CredentialKey) (kid : option EdhocBuffer) :
    st CBORDecoder EDHOCError (option CredentialKey * option EdhocBuffer) :=
  label ← cbor dec_i8;
  match label with
  | 1 =>
      v ← cbor dec_u8;
      if negb (v =? 2) then st_fail ParsingError else mret (x, kid)
  | 2 =>
      bs ← cbor dec_bytes;
      b ← st_lift (map_err (fun _ => ParsingError) (new_from_slice 16 bs));
      mret (x, Some b)
  | -1 =>
      v ← cbor dec_u8;
      if negb (v =? 1) then st_fail ParsingError else mret (x, kid)
  | -2 =>
      bs ← cbor dec_bytes;
      key ← st_lift (ok_or (array32 bs) ParsingError);
      mret (Some (EC2Compact key), kid)
  | -3 => _ ← cbor dec_bytes; mret (x, kid)
  | _ => st_fail ParsingError
  end.

Fixpoint cosekey_entries (items : nat) (x : option CredentialKey) (kid : option EdhocBuffer) :
    st CBORDecoder EDHOCError (option CredentialKey * option EdhocBuffer) :=
  match items with
  | O => mret (x, kid)
  | S items => '(x, kid) ← cosekey_entry x kid; cosekey_entries items x kid
  end.

Definition parse_cosekey : st CBORDecoder EDHOCError (CredentialKey * option EdhocBuffer) :=
  items ← cbor dec_map;
  '(x, kid) ← cosekey_entries items None None;
  x ← st_lift (ok_or x ParsingError);
  mret (x, kid).

(** One entry of a CCS. *)
Definition ccs_entry (x_kid : option (CredentialKey * option EdhocBuffer)) :
    st CBORDecoder EDHOCError (option (CredentialKey * option EdhocBuffer)) :=
  label ← cbor dec_u8;
  match label with
  | 2 => _ ← cbor dec_str; mret x_kid
  | 8 =>
      n ← cbor dec_map;
      if negb (n =? 1)%nat then st_fail ParsingError
      else
        v ← cbor dec_u8;
        if negb (v =? 1) then st_fail ParsingError
        else xk ← parse_cosekey; mret (Some xk)
  | _ => st_fail ParsingError
  end.

Fixpoint ccs_entries (items : nat) (x_kid : option (CredentialKey * option EdhocBuffer)) :
    st CBORDecoder EDHOCError (option (CredentialKey * option EdhocBuffer)) :=
  match items with
  | O => mret x_kid
  | S items => x_kid ← ccs_entry x_kid; ccs_entries items x_kid
  end.

Definition parse_ccs (value : list Z) : res EDHOCError Credential :=
  snd ((items ← cbor dec_map;
        x_kid ← ccs_entries items None;
        match x_kid with
        | None => st_fail ParsingError
        | Some (x, kid) =>
            d ← st_get;
            if negb (dec_finished d) then st_fail ParsingError
            else
              bytes ← st_lift (map_err (fun _ => ParsingError) (new_from_slice 192 value));
              mret (mk_cred bytes x kid CCS)
        end) (dec_new value)).

Definition parse_and_dress_naked_cosekey (cosekey : list Z) : res EDHOCError Credential :=
  match parse_cosekey (dec_new cosekey) with
  | (d, Ok (key, kid)) =>
      if negb (dec_finished d) then Err ParsingError
      else
        match extend_from_slice [0xa1; 0x08; 0xa1; 0x01] (ebuf_new 192) with
        | (bytes, Ok _) =>
            match extend_from_slice cosekey bytes with
            | (bytes, Ok _) => Ok (mk_cred bytes key kid CCS)
            | (_, Err _) => Err CredentialTooLongError
            | (_, Panic) => Panic
            | (_, Diverge) => Diverge
            end
        | (_, Err _) => Panic
        | (_, Panic) => Panic
        | (_, Diverge) => Diverge
        end
  | (_, Err e) => Err e
  | (_, Panic) => Panic
  | (_, Diverge) => Diverge
  end.

(** ** Credential identifiers *)
Record IdCred : Type := mk_idcred { ic_bytes : EdhocBuffer }.

Definition bstr_representable_as_int (v : Z) : bool :=
  ((0 <=? v) && (v <=? 0x17)) || ((0x20 <=? v) && (v <=? 0x37)).

Definition credential_too_long {E A} (r : res E A) : res EDHOCError A :=
  map_err (fun _ => CredentialTooLongError) r.

Definition from_full_value (value : list Z) : res EDHOCError IdCred :=
  b ← credential_too_long (new_from_slice 192 value); mret (mk_idcred b).

(** [from_encoded_value], whose patterns are tried in the source's order. *)
Definition from_encoded_value (value : list Z) : res EDHOCError IdCred :=
  match value with
  | [] => Err ParsingError
  | v :: tail =>
      if (length tail =? 0)%nat && bstr_representable_as_int v then
        b ← credential_too_long (new_from_slice 192 [0xa1; KID_LABEL; 0x41; v]); mret (mk_idcred b)
      else if (0x40 <=? v) && (v <=? 0x57) then
        if match tail with [single_byte] => bstr_representable_as_int single_byte | _ => false end
        then Err ParsingError
        else if negb (Z.to_nat (v - 0x40) =? length tail)%nat then Err ParsingError
        else
          b ← credential_too_long (new_from_slice 192 [0xa1; KID_LABEL]);
          match extend_from_slice value b with
          | (b, Ok _) => Ok (mk_idcred b)
          | (_, Err _) => Err CredentialTooLongError
          | (_, Panic) => Panic
          | (_, Diverge) => Diverge
          end
      else if (v =? 0xa1) && match tail with l :: _ => l =? KCCS_LABEL | [] => false end then
        b ← credential_too_long (new_from_slice 192 value); mret (mk_idcred b)
      else Err ParsingError
  end.

Definition as_full_value {E} (i : IdCred) : res E (list Z) := ebuf_as_slice (ic_bytes i).

Definition as_encoded_value {E} (i : IdCred) : res E (list Z) :=
  bs ← ebuf_as_slice (ic_bytes i);
  match bs with
  | a :: k :: rest =>
      if (a =? 0xa1) && (k =? KID_LABEL) then
        match rest with
        | [h; x] =>
            if (h =? 0x41) && (Z.shiftr x 5 <? 2) && (Z.land x 0x1f <? 24) then Ok [x]
            else Ok rest
        | _ => Ok rest
        end
      else Ok bs
  | _ => Ok bs
  end.

Definition by_kid (c : Credential) : res EDHOCError IdCred :=
  match cr_kid c with
  | None => Err MissingIdentity
  | Some kid =>
      match extend_from_slice
              [CBOR_MAJOR_MAP + 1; KID_LABEL;
               Z.lor CBOR_MAJOR_BYTE_STRING (wrap 8 (Z.of_nat (eb_len kid)))] (ebuf_new 192) with
      | (b, Ok _) =>
          ks ← ebuf_as_slice kid;
          match extend_from_slice ks b with
          | (b, Ok _) => Ok (mk_idcred b)
          | (_, Err _) => Panic
          | (_, Panic) => Panic
          | (_, Diverge) => Diverge
          end
      | (_, Err _) => Err CredentialTooLongError
      | (_, Panic) => Panic
      | (_, Diverge) => Diverge
      end
  end.

Definition by_value (c : Credential) : res EDHOCError IdCred :=
  match cr_type c with
  | CCS =>
      match extend_from_slice [CBOR_MAJOR_MAP + 1; KCCS_LABEL] (ebuf_new 192) with
      | (b, Ok _) =>
          bs ← ebuf_as_slice (cr_bytes c);
          match extend_from_slice bs b with
          | (b, Ok _) => Ok (mk_idcred b)
          | (_, Err _) => Panic
          | (_, Panic) => Panic
          | (_, Diverge) => Diverge
          end
      | (_, Err _) => Err CredentialTooLongError
      | (_, Panic) => Panic
      | (_, Diverge) => Diverge
      end
  | CCS_PSK => Err UnexpectedCredential
  end.

End Decoder.

#[export] Instance CredentialKey_eq_dec : EqDecision CredentialKey.
Proof. solve_decision. Defined.
#[export] Instance CredentialType_eq_dec : EqDecision CredentialType.
Proof. solve_decision. Defined.
#[export] Instance Credential_eq_dec : EqDecision Credential.
Proof. solve_decision. Defined.
