(* ===== verification/Credential.v ===== *)
(** * Identities and pinned peers

    [provisioning/identity.rs] with the reference checks of
    [provisioning/mod.rs]: a canonical credential is built from a P-256 point
    and a key identifier, parsed by [LakersCred.parse_ccs] and named by its
    fingerprint.  Elliptic curves and hashing are the classes [P256] and
    [Blake3]; their laws state that coordinates are 32 bytes, that the
    uncompressed form of a point decodes to it and is the only one of its length, that a scalar is kept and that a
    digest is 32 bytes. *)
From Stdlib Require Import String.
From S2P Require Import Prelude.
From S2P Require Import LakersCred.

Open Scope list_scope.
Open Scope Z_scope.

(** ** External primitives *)
Class P256 : Type := {
  PublicKey : Type;
  SecretKey : Type;
  (** [PublicKey::from_sec1_bytes]. *)
  from_sec1_bytes : list Z → option PublicKey;
  (** [to_sec1_point(false).x()] and [.y()]. *)
  sec1_x : PublicKey → option (list Z);
  sec1_y : PublicKey → option (list Z);
  (** [SecretKey::from_slice], [public_key] and [to_bytes]. *)
  secret_from_slice : list Z → option SecretKey;
  secret_public_key : SecretKey → PublicKey;
  secret_to_bytes : SecretKey → list Z
}.

Class P256Laws (P : P256) : Prop := {
  sec1_coords : ∀ pk, ∃ x y, sec1_x pk = Some x ∧ sec1_y pk = Some y ∧
    length x = 32%nat ∧ length y = 32%nat ∧ bytes_ok x ∧ bytes_ok y ∧
    from_sec1_bytes (4 :: x ++ y) = Some pk;
  (** 65 bytes are accepted only in the uncompressed form, with reduced coordinates. *)
  sec1_uncompressed : ∀ bs pk x y, length bs = 65%nat → from_sec1_bytes bs = Some pk →
    sec1_x pk = Some x → sec1_y pk = Some y → bs = 4 :: x ++ y;
  secret_kept : ∀ bs sk, secret_from_slice bs = Some sk → secret_to_bytes sk = bs
}.

Class Blake3 : Type := {
  (** [blake3::derive_key]; a hasher fed in pieces hashes their concatenation. *)
  derive_key : string → list Z → list Z
}.

Class Blake3Laws (B : Blake3) : Prop := {
  digest_length : ∀ c bs, length (derive_key c bs) = 32%nat;
  digest_bytes : ∀ c bs, bytes_ok (derive_key c bs)
}.

(** [[0; 32]]. *)
Definition zero32 : list Z := replicate 32 0.

Section Identity.
Context `{Target} `{P : P256} `{B : Blake3}.

(** ** Errors of provisioning *)
Inductive Error : Type :=
  | InvalidKey | Entropy | Parsing | Profile | Authentication | Unauthorized | SelfPeer
  | Derivation.

Definition error_of_edhoc (e : EDHOCError) : Error :=
  match e with
  | MacVerificationFailed | UnexpectedCredential => Authentication
  | _ => Parsing
  end.

(** ** Pinned peers *)
Definition CREDENTIAL_DOMAIN : string :=
  "https://github.com/jeffglousher/coaptic credential fingerprint v1".
Definition CREDENTIAL_LEN : nat := 82.

Definition Principal : Type := list Z.

Record PinnedPeer : Type := mk_peer { pp_credential : Credential; pp_principal : Principal }.

Definition from_key (public_key : PublicKey) (kid : Z) : res Error PinnedPeer :=
  x ← ok_or (sec1_x public_key) InvalidKey;
  y ← ok_or (sec1_y public_key) InvalidKey;
  let encoded := replicate CREDENTIAL_LEN 0 in
  encoded ← copy_into 0 9 [0xa1; 0x08; 0xa1; 0x01; 0xa5; 0x01; 0x02; 0x02; 0x41] encoded;
  encoded ← set_idx 9 kid encoded;
  encoded ← copy_into 10 15 [0x20; 0x01; 0x21; 0x58; 0x20] encoded;
  encoded ← copy_into 15 47 x encoded;
  encoded ← copy_into 47 50 [0x22; 0x58; 0x20] encoded;
  encoded ← copy_into 50 CREDENTIAL_LEN y encoded;
  credential ← map_err (fun _ => Parsing) (parse_ccs encoded);
  mret (mk_peer credential (derive_key CREDENTIAL_DOMAIN encoded)).

Definition from_public_key (public_key : list Z) (kid : Z) : res Error PinnedPeer :=
  pk ← ok_or (from_sec1_bytes public_key) InvalidKey;
  from_key pk kid.

(** [PinnedPeer::public_key]. *)
Definition peer_public_key {E} (p : PinnedPeer) : res E (list Z) :=
  point ← set_idx 0 4 (replicate 65 0);
  bytes ← ebuf_as_slice (cr_bytes (pp_credential p));
  x ← slice_idx bytes 15 47;
  point ← copy_into 1 33 x point;
  y ← slice_idx bytes 50 (length bytes);
  copy_into 33 65 y point.

(** [PinnedPeer::kid]. *)
Definition peer_kid {E} (p : PinnedPeer) : res E Z :=
  bytes ← ebuf_as_slice (cr_bytes (pp_credential p));
  idx bytes 9.

(** [PinnedPeer::public_x]. *)
Definition peer_public_x {E} (p : PinnedPeer) : res E (list Z) :=
  bytes ← ebuf_as_slice (cr_bytes (pp_credential p));
  x ← slice_idx bytes 15 47;
  copy_into 0 32 x zero32.

(** ** Private identities *)
Record Identity : Type := mk_identity { id_private : SecretKey; id_peer : PinnedPeer }.

Definition from_private_key (private_key : list Z) (kid : Z) : res Error Identity :=
  sk ← ok_or (secret_from_slice private_key) InvalidKey;
  peer ← from_key (secret_public_key sk) kid;
  mret (mk_identity sk peer).

Inductive IdentityProvisionError (E : Type) : Type :=
  | ProvisionState (e : Error)
  | ProvisionStore (e : E).
Arguments ProvisionState {E} e.
Arguments ProvisionStore {E} e.

(** The rejection sampling of [Identity::provision]: the entropy source fills the
    candidate and says whether it succeeded; both callbacks act on the caller's
    state [W]. *)
Fixpoint provision_loop {W E : Type} (kid : Z) (entropy : list Z → W → W * list Z * bool)
    (commit : list Z → PinnedPeer → W → W * res E unit) (tries : nat) (candidate : list Z) :
    st W (IdentityProvisionError E) Identity :=
  match tries with
  | O => st_fail (ProvisionState InvalidKey)
  | S tries => fun w =>
      match entropy candidate w with
      | (w, candidate, false) => (w, Err (ProvisionState Entropy))
      | (w, candidate, true) =>
          match secret_from_slice candidate with
          | None => provision_loop kid entropy commit tries candidate w
          | Some private_key =>
              match map_err ProvisionState (from_key (secret_public_key private_key) kid) with
              | Ok peer =>
                  match commit candidate peer w with
                  | (w, Ok _) => (w, Ok (mk_identity private_key peer))
                  | (w, Err e) => (w, Err (ProvisionStore e))
                  | (w, Panic) => (w, Panic)
                  | (w, Diverge) => (w, Diverge)
                  end
              | Err e => (w, Err e)
              | Panic => (w, Panic)
              | Diverge => (w, Diverge)
              end
          end
      end
  end.

Definition provision {W E : Type} (kid : Z) (entropy : list Z → W → W * list Z * bool)
    (commit : list Z → PinnedPeer → W → W * res E unit) :
    st W (IdentityProvisionError E) Identity :=
  provision_loop kid entropy commit 8 zero32.

(** ** Checks on a peer *)
Definition check_identity (identity : Identity) (peer : PinnedPeer) : res Error unit :=
  own ← peer_public_x (id_peer identity);
  x ← ok_or (cred_public_key (pp_credential peer)) InvalidKey;
  if eqb own x then Err SelfPeer else Ok tt.

Definition check_reference (id : IdCred) (peer : PinnedPeer) : res Error unit :=
  kid ← ok_or (cr_kid (pp_credential peer)) Profile;
  kid_bytes ← ebuf_as_slice kid;
  if negb (length kid_bytes =? 1)%nat then Err Authentication
  else
    full ← as_full_value id;
    b ← idx kid_bytes 0;
    if negb (eqb full [0xa1; 4; 0x41; b]) then Err Authentication else Ok tt.

(** [CredentialReference::from_id]. *)
Definition reference_from_id (id : IdCred) : res Error Z :=
  full ← as_full_value id;
  match full with
  | [a; b; c; kid] => if (a =? 0xa1) && (b =? 4) && (c =? 0x41) then Ok kid else Err Profile
  | _ => Err Profile
  end.

End Identity.
Arguments ProvisionState {E} e.
Arguments ProvisionStore {E} e.

#[export] Instance PinnedPeer_eq_dec : EqDecision PinnedPeer.
Proof. solve_decision. Defined.

(** * Theorems on credentials

    The canonical credential of a point and a key identifier parses, whatever
    the point and the identifier; its accessors give back what it was built
    from; importing the exported key gives the same pin; and the identifier a
    peer sends names the pin it is checked against. *)

(** ** What the decoder accepts *)
Section Decoder.
Context `{Target}.
Local Abbreviation consumes := (consumes mk_dec).

Lemma consumes_dread b : consumes dread [b] b.
Proof.
  intros p q _. unfold dread. cbn [d_buf d_pos app]. rewrite lookup_app_mid by done.
  by rewrite length_app.
Qed.

Lemma consumes_read_slice bs : consumes (read_slice (length bs)) bs bs.
Proof.
  intros p q Hq. unfold read_slice. cbn [d_buf d_pos]. unfold usize_checked_add.
  unfold usize_ok in Hq. rewrite !length_app in Hq.
  rewrite (proj2 (Z.leb_le _ _)) by lia. cbn [mbind option_bind].
  rewrite slice_get_app by done. by rewrite length_app.
Qed.

Lemma consumes_u8 n : (n <=? 0x17) = true → consumes dec_u8 [n] n.
Proof. intros Hn. eapply consumes_then; [apply consumes_dread|]. rewrite Hn. apply consumes_ret. Qed.

Lemma consumes_i8_pos n : (n <=? 0x17) = true → consumes dec_i8 [n] n.
Proof. intros Hn. eapply consumes_then; [apply consumes_dread|]. rewrite Hn. apply consumes_ret. Qed.

Lemma consumes_i8_neg n : (0x20 <=? n) && (n <=? 0x37) = true → consumes dec_i8 [n] (0x1f - n).
Proof.
  intros Hn. eapply consumes_then; [apply consumes_dread|]. rewrite Hn. bools.
  rewrite (proj2 (Z.leb_gt n 0x17)) by lia. replace (0x1f - n) with (-1 - (n - 0x20)) by lia.
  apply consumes_ret.
Qed.

(** A map of fewer than 24 entries. *)
Lemma consumes_map h n :
  type_of h = CBOR_MAJOR_MAP → (info_of h <=? 0x17) = true → n = Z.to_nat (info_of h) →
  consumes dec_map [h] n.
Proof.
  intros Ht Hi ->. eapply consumes_then; [apply consumes_dread|]. rewrite Ht, Z.eqb_refl. simpl.
  rewrite (proj2 (Z.ltb_lt _ _)) by (bools; lia). unfold as_usize. rewrite Hi. apply consumes_ret.
Qed.

(** Byte strings with the length in the first byte or in the second. *)
Lemma consumes_short_bytes h bs :
  type_of h = CBOR_MAJOR_BYTE_STRING → info_of h = Z.of_nat (length bs) → (length bs ≤ 23)%nat →
  consumes dec_bytes (h :: bs) bs.
Proof.
  intros Ht Hi Hl. apply (consumes_seq _ _ _ [h] bs _ h); [apply consumes_dread| |done].
  rewrite Ht, Z.eqb_refl, Hi. simpl. rewrite (proj2 (Z.eqb_neq _ _)) by lia.
  eapply consumes_first; [|apply consumes_read_slice]. unfold as_usize.
  rewrite (proj2 (Z.leb_le _ _)) by lia. rewrite Nat2Z.id. apply consumes_ret.
Qed.

Lemma consumes_long_bytes bs :
  (24 ≤ length bs ≤ 255)%nat →
  consumes dec_bytes (0x58 :: Z.of_nat (length bs) :: bs) bs.
Proof.
  intros Hl. apply (consumes_seq _ _ _ [0x58] (Z.of_nat (length bs) :: bs) _ 0x58);
    [apply consumes_dread| |done].
  change (info_of 0x58) with 0x18. cbn [type_of]. simpl.
  eapply (consumes_seq _ _ _ [Z.of_nat (length bs)] bs _ (length bs)); [|apply consumes_read_slice|done].
  unfold as_usize. simpl. eapply consumes_then; [apply consumes_dread|].
  rewrite (proj2 (Z.ltb_ge _ _)) by lia. rewrite Nat2Z.id. apply consumes_ret.
Qed.

Lemma consumes_cbor {A} (m : st CBORDecoder CBORError A) bs a :
  consumes m bs a → consumes (cbor m) bs a.
Proof. apply consumes_map_err. Qed.

(** ** The canonical credential *)
Definition ccs_bytes (kid : Z) (x y : list Z) : list Z :=
  [0xa1; 0x08; 0xa1; 0x01; 0xa5; 0x01; 0x02; 0x02; 0x41] ++ [kid] ++
  [0x20; 0x01; 0x21; 0x58; 0x20] ++ x ++ [0x22; 0x58; 0x20] ++ y.

Definition ccs_of (kid : Z) (x y : list Z) : Credential :=
  mk_cred (ebuf_of 192 (ccs_bytes kid x y)) (EC2Compact x) (Some (ebuf_of 16 [kid])) CCS.

Context (kid : Z) (x y : list Z) (Hx : length x = 32%nat) (Hy : length y = 32%nat).

Lemma length_ccs_bytes : length (ccs_bytes kid x y) = 82%nat.
Proof. unfold ccs_bytes. rewrite !length_app, Hx, Hy. done. Qed.

Lemma entry_kty x' k' : consumes (cosekey_entry x' k') [1; 2] (x', k').
Proof.
  eapply (consumes_bind _ _ _ [1] [2] 1); [by apply consumes_cbor, consumes_i8_pos|].
  eapply consumes_then; [by apply consumes_cbor, (consumes_u8 2)|]. apply consumes_ret.
Qed.

Lemma entry_kid x' k' : consumes (cosekey_entry x' k') [2; 0x41; kid] (x', Some (ebuf_of 16 [kid])).
Proof.
  eapply (consumes_bind _ _ _ [2] [0x41; kid] 2); [by apply consumes_cbor, consumes_i8_pos|].
  eapply consumes_then; [apply consumes_cbor, (consumes_short_bytes 0x41 [kid]); [done|done|simpl; lia]|].
  eapply consumes_first; [apply consumes_lift; by rewrite new_from_slice_eq|]. apply consumes_ret.
Qed.

Lemma entry_crv x' k' : consumes (cosekey_entry x' k') [0x20; 1] (x', k').
Proof.
  eapply (consumes_bind _ _ _ [0x20] [1] (-1)); [by apply consumes_cbor, (consumes_i8_neg 0x20)|].
  eapply consumes_then; [by apply consumes_cbor, (consumes_u8 1)|]. apply consumes_ret.
Qed.

Lemma entry_x x' k' :
  consumes (cosekey_entry x' k') ([0x21; 0x58; 0x20] ++ x) (Some (EC2Compact x), k').
Proof.
  eapply (consumes_bind _ _ _ [0x21] ([0x58; 0x20] ++ x) (-2));
    [by apply consumes_cbor, (consumes_i8_neg 0x21)|].
  eapply consumes_then.
  { apply consumes_cbor. pose proof (consumes_long_bytes x) as Hl. rewrite Hx in Hl. apply Hl. lia. }
  eapply consumes_first; [apply consumes_lift; unfold array32; by rewrite Hx|]. apply consumes_ret.
Qed.

Lemma entry_y x' k' : consumes (cosekey_entry x' k') ([0x22; 0x58; 0x20] ++ y) (x', k').
Proof.
  eapply (consumes_bind _ _ _ [0x22] ([0x58; 0x20] ++ y) (-3));
    [by apply consumes_cbor, (consumes_i8_neg 0x22)|].
  eapply consumes_then.
  { apply consumes_cbor. pose proof (consumes_long_bytes y) as Hl. rewrite Hy in Hl. apply Hl. lia. }
  apply consumes_ret.
Qed.

Lemma cosekey_canonical :
  consumes parse_cosekey (drop 4 (ccs_bytes kid x y)) (EC2Compact x, Some (ebuf_of 16 [kid])).
Proof.
  replace (drop 4 _) with ([0xa5] ++ ([1; 2] ++ [2; 0x41; kid] ++ [0x20; 1] ++
    ([0x21; 0x58; 0x20] ++ x) ++ ([0x22; 0x58; 0x20] ++ y)) ++ [])
    by (simpl; by rewrite <- app_assoc, app_nil_r).
  eapply consumes_bind; [by apply consumes_cbor, (consumes_map 0xa5 5)|].
  cbn [cosekey_entries]. eapply consumes_bind.
  - eapply consumes_bind; [apply entry_kty|]. cbn beta iota.
    eapply consumes_bind; [apply entry_kid|]. cbn beta iota.
    eapply consumes_bind; [apply entry_crv|]. cbn beta iota.
    eapply consumes_bind; [apply entry_x|]. cbn beta iota.
    eapply consumes_then; [apply entry_y|]. apply consumes_ret.
  - eapply consumes_first; [by apply consumes_lift|]. apply consumes_ret.
Qed.

Lemma parse_ccs_canonical : parse_ccs (ccs_bytes kid x y) = Ok (ccs_of kid x y).
Proof.
  assert (usize_ok (length (ccs_bytes kid x y))) as Hu.
  { rewrite length_ccs_bytes. unfold usize_ok. pose proof usize_max_ge. lia. }
  assert (consumes (items ← cbor dec_map; ccs_entries items None) (ccs_bytes kid x y)
    (Some (EC2Compact x, Some (ebuf_of 16 [kid])))) as Hc.
  { change (ccs_bytes kid x y) with ([0xa1] ++ ([8] ++ [0xa1] ++ [1] ++ drop 4 (ccs_bytes kid x y))).
    eapply consumes_bind; [by apply consumes_cbor, (consumes_map 0xa1 1)|]. cbn [ccs_entries].
    eapply consumes_then; [|apply consumes_ret].
    eapply consumes_bind; [by apply consumes_cbor, (consumes_u8 8)|]. cbn beta iota.
    eapply consumes_bind; [by apply consumes_cbor, (consumes_map 0xa1 1)|]. cbn [negb Nat.eqb].
    eapply consumes_bind; [by apply consumes_cbor, (consumes_u8 1)|]. cbn [negb Z.eqb].
    eapply consumes_then; [apply cosekey_canonical|]. apply consumes_ret. }
  apply (consumes_all mk_dec) in Hc; [|done]. unfold parse_ccs, dec_new. unbind.
  destruct (cbor dec_map _) as [d [items|e| |]] eqn:E1; try done. rewrite Hc.
  unfold dec_finished. cbn [d_pos d_buf]. rewrite Nat.eqb_refl. cbn [negb].
  rewrite new_from_slice_eq, length_ccs_bytes. done.
Qed.

End Decoder.

(** ** Pins *)
Section Peers.
Context `{Target} `{P : P256} `{HP : !P256Laws P} `{B : Blake3}.

Definition peer_of (kid : Z) (x y : list Z) : PinnedPeer :=
  mk_peer (ccs_of kid x y) (derive_key CREDENTIAL_DOMAIN (ccs_bytes kid x y)).

(** A pin of the point [pk] with coordinates [x] and [y]. *)
Definition pins (pk : PublicKey) (kid : Z) (x y : list Z) (p : PinnedPeer) : Prop :=
  sec1_x pk = Some x ∧ sec1_y pk = Some y ∧ length x = 32%nat ∧ length y = 32%nat ∧
  bytes_ok x ∧ bytes_ok y ∧ from_sec1_bytes (4 :: x ++ y) = Some pk ∧ p = peer_of kid x y.

Lemma from_key_coords pk kid x y :
  sec1_x pk = Some x → sec1_y pk = Some y → length x = 32%nat → length y = 32%nat →
  from_key pk kid = Ok (peer_of kid x y).
Proof.
  intros Ex Ey Hx Hy. unfold from_key, CREDENTIAL_LEN. rewrite Ex, Ey. unbind. cbn [ok_or].
  rewrite copy_into_ok by (rewrite ?length_replicate; simpl; lia). cbn beta iota.
  assert (∀ l : list Z, (length l ≤ 82)%nat →
    length (splice (replicate 82 0) 0 l) = 82%nat) as Hs.
  { intros l Hl. rewrite length_splice; rewrite length_replicate; [done|lia]. }
  rewrite set_idx_ok by (rewrite Hs; simpl; lia). cbn beta iota.
  rewrite splice_splice by (simpl; rewrite ?length_replicate; lia).
  rewrite copy_into_ok by (rewrite ?Hs; rewrite ?length_app; simpl; lia). cbn beta iota.
  rewrite splice_splice by (simpl; rewrite ?length_replicate; lia).
  rewrite copy_into_ok by (rewrite ?Hs; rewrite ?length_app; simpl; lia). cbn beta iota.
  rewrite splice_splice by
    (rewrite ?length_app; simpl; rewrite ?length_replicate; lia).
  rewrite copy_into_ok by (rewrite ?Hs; rewrite ?length_app; simpl; lia). cbn beta iota.
  rewrite splice_splice by
    (rewrite ?length_app; simpl; rewrite ?length_replicate; lia).
  rewrite copy_into_ok by (rewrite ?Hs; rewrite ?length_app; simpl; lia).
  cbn beta iota.
  rewrite splice_splice by
    (rewrite ?length_app; simpl; rewrite ?length_replicate; lia).
  assert (splice (replicate 82 0) 0
    ((((([161; 8; 161; 1; 165; 1; 2; 2; 65] ++ [kid]) ++ [32; 1; 33; 88; 32]) ++ x) ++
       [34; 88; 32]) ++ y) = ccs_bytes kid x y) as ->.
  { rewrite <- !app_assoc. fold (ccs_bytes kid x y). unfold splice.
    rewrite drop_ge by (rewrite length_ccs_bytes by done; by rewrite length_replicate).
    by rewrite app_nil_r. }
  by rewrite parse_ccs_canonical.
Qed.

Lemma from_key_ok pk kid : ∃ x y p, from_key pk kid = Ok p ∧ pins pk kid x y p.
Proof.
  destruct (sec1_coords pk) as (x & y & Ex & Ey & Hx & Hy & Ox & Oy & Hd).
  exists x, y, (peer_of kid x y). split; [by apply from_key_coords|]. by repeat split.
Qed.

Lemma from_key_inv pk kid p : from_key pk kid = Ok p → ∃ x y, pins pk kid x y p.
Proof.
  intros HE. destruct (from_key_ok pk kid) as (x & y & p' & E' & Hp).
  rewrite HE in E'. injection E' as <-. by exists x, y.
Qed.

Lemma from_public_key_eq bs kid :
  from_public_key bs kid =
  match from_sec1_bytes bs with Some pk => from_key pk kid | None => Err InvalidKey end.
Proof. unfold from_public_key. unbind. by destruct (from_sec1_bytes bs). Qed.

Section Accessors.
Context (kid : Z) (x y : list Z) (Hx : length x = 32%nat) (Hy : length y = 32%nat).

Lemma peer_slice {E} :
  ebuf_as_slice (E:=E) (cr_bytes (pp_credential (peer_of kid x y))) = Ok (ccs_bytes kid x y).
Proof. apply ebuf_of_as_slice. rewrite length_ccs_bytes by done. lia. Qed.

Lemma ccs_x_slice {E} : slice_idx (E:=E) (ccs_bytes kid x y) 15 47 = Ok x.
Proof.
  unfold slice_idx, ccs_bytes.
  pose proof (slice_get_app ([161; 8; 161; 1; 165; 1; 2; 2; 65] ++ [kid] ++ [32; 1; 33; 88; 32])
    x ([34; 88; 32] ++ y) 15 47) as Hs.
  rewrite <- !app_assoc in Hs. rewrite Hs; [done|done|]. rewrite !length_app, Hx. done.
Qed.

Lemma ccs_y_slice {E} : slice_idx (E:=E) (ccs_bytes kid x y) 50 82 = Ok y.
Proof.
  unfold slice_idx, ccs_bytes.
  pose proof (slice_get_tail ([161; 8; 161; 1; 165; 1; 2; 2; 65] ++ [kid] ++ [32; 1; 33; 88; 32] ++
    x ++ [34; 88; 32]) y 50 82) as Hs.
  rewrite <- !app_assoc in Hs. rewrite Hs; [done| |]; rewrite !length_app, Hx, ?Hy; done.
Qed.

Lemma peer_of_public_key {E} : peer_public_key (E:=E) (peer_of kid x y) = Ok (4 :: x ++ y).
Proof.
  unfold peer_public_key. rewrite set_idx_ok by (rewrite length_replicate; lia). unbind.
  rewrite peer_slice. cbn beta iota. rewrite ccs_x_slice. cbn beta iota.
  rewrite copy_into_ok by (rewrite ?length_splice; rewrite ?length_replicate; simpl; lia).
  cbn beta iota. rewrite length_ccs_bytes, ccs_y_slice by done. cbn beta iota.
  rewrite splice_splice by (rewrite ?length_replicate; simpl; lia).
  rewrite copy_into_ok by (rewrite ?length_splice; rewrite ?length_replicate; simpl; lia).
  rewrite splice_splice by (rewrite ?length_replicate; simpl; lia).
  f_equal. unfold splice. rewrite drop_ge by (rewrite length_replicate, !length_app, Hx, Hy; simpl; lia).
  by rewrite app_nil_r, <- app_assoc.
Qed.

Lemma peer_of_kid {E} : peer_kid (E:=E) (peer_of kid x y) = Ok kid.
Proof. unfold peer_kid. unbind. by rewrite peer_slice. Qed.

Lemma peer_of_public_x {E} : peer_public_x (E:=E) (peer_of kid x y) = Ok x.
Proof.
  unfold peer_public_x. unbind. rewrite peer_slice. cbn beta iota. rewrite ccs_x_slice.
  cbn beta iota. rewrite copy_into_ok by (unfold zero32; rewrite ?length_replicate; lia).
  f_equal. unfold splice, zero32. rewrite drop_ge by (rewrite length_replicate; lia).
  apply app_nil_r.
Qed.

End Accessors.

(** Two pins are the same when their exported keys and identifiers are. *)
Lemma pins_inj pk kid x y p pk' kid' x' y' p' :
  pins pk kid x y p → pins pk' kid' x' y' p' →
  (p' = p ↔ 4 :: x' ++ y' = 4 :: x ++ y ∧ kid' = kid).
Proof.
  intros (_ & _ & Hx & Hy & _ & _ & _ & ->) (_ & _ & Hx' & Hy' & _ & _ & _ & ->). split.
  - intros HE. pose proof (f_equal (peer_public_key (E:=unit)) HE) as E1.
    pose proof (f_equal (peer_kid (E:=unit)) HE) as E2.
    rewrite !peer_of_public_key in E1 by done. rewrite !peer_of_kid in E2 by done. by simplify_eq.
  - intros [[= [-> ->]%app_inj_1] ->]; [done|lia].
Qed.

(** ** References to credentials *)

(** The bytes ID_CRED_x takes in a message for a one-byte identifier. *)
Definition encoded_kid (k : Z) : list Z :=
  if bstr_representable_as_int k then [k] else [0x41; k].

(** What a received identifier stands for. *)
Lemma from_encoded_value_full v id :
  from_encoded_value v = Ok id →
  ∃ full, as_full_value (E:=Error) id = Ok full ∧
    ∀ k, full = [0xa1; 4; 0x41; k] ↔ v = encoded_kid k.
Proof.
  unfold from_encoded_value, as_full_value, encoded_kid. destruct v as [|a tail]; [done|].
  destruct (_ && bstr_representable_as_int a) eqn:E1; bools.
  { destruct tail; [|done]. rewrite new_from_slice_eq. unbind. cbn [length Nat.leb credential_too_long map_err].
    intros [= <-]. eexists. split; [by apply ebuf_of_as_slice; simpl; lia|]. intros k.
    split; [intros [= ->]; by rewrite H1|]. by destruct (bstr_representable_as_int k); intros [= ->]. }
  destruct ((0x40 <=? a) && _) eqn:E2; bools.
  - destruct (match tail with [_] => _ | _ => _ end) eqn:E3; [done|].
    destruct (_ =? length tail)%nat eqn:E4; bools; [|done]. cbn [negb].
    rewrite new_from_slice_eq. unbind. cbn [length Nat.leb credential_too_long map_err].
    rewrite extend_from_slice_of by (simpl; lia). intros [= <-].
    eexists. split; [apply ebuf_of_as_slice; simpl; lia|]. intros k. split.
    + intros [= -> ->]. by rewrite E3.
    + destruct (bstr_representable_as_int k) eqn:Ek; intros [= -> ->]; [|done].
      by rewrite Ek in E1; destruct E1.
  - destruct ((a =? 0xa1) && _) eqn:E3; bools; [|done]. destruct tail as [|l tail]; [done|]. bools.
    subst. rewrite new_from_slice_eq. unbind. destruct (length _ <=? 192)%nat eqn:E4; [|done].
    cbn [credential_too_long map_err]. intros [= <-].
    bools. eexists. split; [by apply ebuf_of_as_slice|]. intros k. split; [done|].
    by destruct (bstr_representable_as_int k) eqn:Ek; intros [= <-].
Qed.

Lemma by_kid_of pk kid x y p : in_u 8 kid → pins pk kid x y p →
  ∃ id, by_kid (pp_credential p) = Ok id ∧ as_full_value (E:=Error) id = Ok [0xa1; 4; 0x41; kid] ∧
    as_encoded_value (E:=Error) id = Ok (encoded_kid kid) ∧ from_encoded_value (encoded_kid kid) = Ok id.
Proof.
  intros Hk (_ & _ & _ & _ & _ & _ & _ & ->). unfold by_kid. cbn [pp_credential peer_of cr_kid ccs_of].
  rewrite ebuf_new_of, extend_from_slice_of by (simpl; lia). rewrite ebuf_of_as_slice by (simpl; lia).
  unbind. rewrite extend_from_slice_of by (simpl; lia).
  change ([] ++ [_; _; _]) with [0xa1; 4; 0x41]. eexists. split; [done|].
  split; [apply ebuf_of_as_slice; simpl; lia|].
  assert (bstr_representable_as_int kid = (Z.shiftr kid 5 <? 2) && (Z.land kid 0x1f <? 24)) as Hr.
  { rewrite shiftr_pow by done. rewrite (land_mask kid 5) by done. unfold bstr_representable_as_int.
    destruct Hk. change (2 ^ 5) with 32 in *. change (2 ^ 8) with 256 in *.
    apply eq_true_iff_eq. rewrite orb_true_iff, !andb_true_iff, !Z.leb_le, !Z.ltb_lt. div_lia. }
  unfold as_encoded_value, encoded_kid. cbn [ic_bytes]. rewrite ebuf_of_as_slice by (simpl; lia).
  unbind. cbn [app]. simpl. rewrite <- Hr. unfold from_encoded_value.
  destruct (bstr_representable_as_int kid) eqn:Ek; (split; [done|]).
  - cbn [length Nat.eqb andb]. by rewrite Ek, new_from_slice_eq.
  - cbn [length Nat.eqb andb]. rewrite Ek, new_from_slice_eq. cbn -[extend_from_slice ebuf_of].
    by rewrite extend_from_slice_of by (simpl; lia).
Qed.

Lemma check_reference_iff kid x y p id full :
  p = peer_of kid x y → as_full_value (E:=Error) id = Ok full →
  check_reference id p = if eqb full [0xa1; 4; 0x41; kid] then Ok tt else Err Authentication.
Proof.
  intros -> Hf. unfold check_reference. cbn [pp_credential peer_of cr_kid ccs_of ok_or]. unbind.
  rewrite ebuf_of_as_slice by (simpl; lia). rewrite Hf. cbn [length Nat.eqb negb idx].
  change (idx [kid] 0) with (Ok (E:=Error) kid). cbn beta iota. by destruct (eqb _ _).
Qed.

Lemma reference_from_id_iff id full k :
  as_full_value (E:=Error) id = Ok full →
  reference_from_id id = Ok k ↔ full = [0xa1; 4; 0x41; k].
Proof.
  intros Hf. unfold reference_from_id. unbind. rewrite Hf.
  destruct full as [|a [|b [|c [|d [|? ?]]]]]; try done. destruct (_ && _) eqn:E1; bools; subst.
  - split; by intros [= ->].
  - split; [done|]. intros [= -> -> -> ->]. by destruct E1.
Qed.

(** ** Properties *)

(** A pin is exactly its public point and key identifier.  Any encoding of
    a point gives the same pin as the uncompressed one, bytes that are no point
    are refused, the pin exports the point and the identifier it was made from,
    and importing them again gives the same pin; different keys or identifiers
    give different pins. *)
Theorem pinned_peer_roundtrip (bs : list Z) (kid : Z) :
  match from_sec1_bytes bs with
  | None => from_public_key bs kid = Err InvalidKey
  | Some pk => ∃ p x y, from_public_key bs kid = Ok p ∧
      sec1_x pk = Some x ∧ sec1_y pk = Some y ∧
      peer_public_key (E:=Error) p = Ok (4 :: x ++ y) ∧ peer_kid (E:=Error) p = Ok kid ∧
      peer_public_x (E:=Error) p = Ok x ∧ cred_public_key (pp_credential p) = Some x ∧
      from_public_key (4 :: x ++ y) kid = Ok p ∧
      ∀ bs' kid' p', from_public_key bs' kid' = Ok p' →
        (p' = p ↔ peer_public_key (E:=Error) p' = Ok (4 :: x ++ y) ∧ kid' = kid)
  end.
Proof.
  rewrite from_public_key_eq. destruct (from_sec1_bytes bs) as [pk|] eqn:Eb; [|done].
  destruct (from_key_ok pk kid) as (x & y & p & Ek & Hp).
  pose proof Hp as (Ex & Ey & Hx & Hy & _ & _ & Hd & ->).
  exists (peer_of kid x y), x, y. rewrite peer_of_public_key, peer_of_kid, peer_of_public_x by done.
  repeat match goal with |- _ ∧ _ => split end; try done; [by rewrite from_public_key_eq, Hd|].
  intros bs' kid' p' Hi. rewrite from_public_key_eq in Hi.
  destruct (from_sec1_bytes bs') as [pk'|]; [|done].
  apply from_key_inv in Hi as (x' & y' & Hp'). rewrite (pins_inj _ _ _ _ _ _ _ _ _ _ Hp Hp').
  destruct Hp' as (_ & _ & Hx' & Hy' & _ & _ & _ & ->). rewrite peer_of_public_key by done.
  split; intros [Hk ->]; split; congruence.
Qed.

(** The identifier a peer sends in place of its credential names one pin.
    What an endpoint sends for its own credential is read back by the peer as
    the same identifier; a received identifier passes the check against a pin
    exactly when it is the canonical encoding of that pin's key identifier, and
    is refused as a failed authentication otherwise; the lookup hint extracted
    from it is that identifier. *)
Theorem reference_exact (pk : PublicKey) (kid : Z) (p : PinnedPeer) :
  in_u 8 kid → from_key pk kid = Ok p →
  (∃ id, by_kid (pp_credential p) = Ok id ∧ as_encoded_value (E:=Error) id = Ok (encoded_kid kid) ∧
    from_encoded_value (encoded_kid kid) = Ok id) ∧
  ∀ v id, from_encoded_value v = Ok id →
    check_reference id p = (if eqb v (encoded_kid kid) then Ok tt else Err Authentication) ∧
    ∀ k, reference_from_id id = Ok k ↔ v = encoded_kid k.
Proof.
  intros Hk Hp. apply from_key_inv in Hp as (x & y & Hp). split.
  { destruct (by_kid_of _ _ _ _ _ Hk Hp) as (id & ? & _ & ? & ?). by exists id. }
  intros v id Hv. destruct (from_encoded_value_full v id Hv) as (full & Hf & Hfull).
  destruct Hp as (_ & _ & _ & _ & _ & _ & _ & ->). split.
  - rewrite (check_reference_iff kid x y _ id full eq_refl Hf). unfold eqb.
    by rewrite (bool_decide_ext _ _ (Hfull kid)).
  - intros k. by rewrite (reference_from_id_iff id full k Hf).
Qed.

End Peers.

(** ** Generating an identity *)
Section Provision.
Context `{Target} `{P : P256} `{HP : !P256Laws P} `{B : Blake3} {W E : Type}.
Context (kid : Z) (entropy : list Z → W → W * list Z * bool)
  (commit : list Z → PinnedPeer → W → W * res E unit).

(** The caller's state after entropy calls that all succeeded, with the last candidate. *)
Inductive drawn : nat → list Z → W → list Z → W → Prop :=
  | drawn_none c w : drawn 0 c w c w
  | drawn_more n c w c1 w1 c2 w2 :
      entropy c w = (w1, c1, true) → drawn n c1 w1 c2 w2 → drawn (S n) c w c2 w2.

(** Every outcome of generating an identity: between one and eight draws, then
    either one commit whose result is reported, or a refusal before any commit. *)
Lemma provision_outcome w w' r :
  provision kid entropy commit w = (w', r) →
  ∃ n c w1, (n ≤ 8)%nat ∧ drawn n zero32 w c w1 ∧
  match r with
  | Ok i => commit c (id_peer i) w1 = (w', Ok tt) ∧ from_private_key c kid = Ok i ∧
      secret_to_bytes (id_private i) = c
  | Err (ProvisionStore e) => ∃ i, from_private_key c kid = Ok i ∧ commit c (id_peer i) w1 = (w', Err e)
  | Err (ProvisionState Entropy) => ∃ c', entropy c w1 = (w', c', false)
  | Err (ProvisionState e) => e = InvalidKey ∧ n = 8%nat ∧ w' = w1
  | Panic => ∃ i, from_private_key c kid = Ok i ∧ commit c (id_peer i) w1 = (w', Panic)
  | Diverge => ∃ i, from_private_key c kid = Ok i ∧ commit c (id_peer i) w1 = (w', Diverge)
  end.
Proof.
  unfold provision. generalize zero32 as c0. generalize 8%nat as tries.
  intros tries. revert w. induction tries as [|tries IH]; intros w c0; simpl.
  { intros [= <- <-]. exists 0%nat, c0, w. by repeat constructor. }
  destruct (entropy c0 w) as [[w1 c1] [|]] eqn:Ee.
  2:{ intros [= <- <-]. exists 0%nat, c0, w. repeat constructor; [lia|eauto]. }
  destruct (secret_from_slice c1) as [sk|] eqn:Es.
  - destruct (from_key_ok (secret_public_key sk) kid) as (x & y & p & Ek & _). rewrite Ek. simpl.
    assert (from_private_key c1 kid = Ok (mk_identity sk p)) as Hi.
    { unfold from_private_key. rewrite Es. unbind. cbn [ok_or]. by rewrite Ek. }
    assert (drawn 1 c0 w c1 w1) as Hd by (repeat econstructor; done).
    destruct (commit c1 p w1) as [w2 [[]|e| |]] eqn:Ec; intros [= <- <-]; exists 1%nat, c1, w1;
      (split; [lia|]); (split; [done|]); try (by exists (mk_identity sk p)).
    repeat split; [done|done|]. by apply secret_kept.
  - intros (n & c & w2 & Hn & Hd & Hr)%IH. exists (S n), c, w2. split; [lia|].
    split; [by econstructor|]. destruct r as [i|[[]|e]| |]; try done.
    all: by destruct Hr as (? & -> & ->).
Qed.

End Provision.

(** ** Concrete primitives

    Three keys with constant coordinates and a digest that pads its input; they
    satisfy the laws and make the witnesses of the provisioning files run. *)
Module Sample.

Inductive key : Type := KA | KB | KC.
#[export] Instance key_eq_dec : EqDecision key.
Proof. solve_decision. Defined.

Definition key_byte (k : key) : Z := match k with KA => 1 | KB => 2 | KC => 3 end.
Definition key_x (k : key) : list Z := replicate 32 (key_byte k).
Definition key_y (k : key) : list Z := replicate 32 (10 + key_byte k).
Definition key_of_sec1 (bs : list Z) : option key :=
  find_map (fun k => if eqb bs (4 :: key_x k ++ key_y k) || eqb bs (2 :: key_x k)
    then Some k else None) [KA; KB; KC].
Definition key_of_scalar (bs : list Z) : option key :=
  find_map (fun k => if eqb bs (key_x k) then Some k else None) [KA; KB; KC].

#[export] Instance curve : P256 := {|
  PublicKey := key; SecretKey := key;
  from_sec1_bytes := key_of_sec1;
  sec1_x k := Some (key_x k); sec1_y k := Some (key_y k);
  secret_from_slice := key_of_scalar; secret_public_key k := k; secret_to_bytes := key_x
|}.

#[export] Instance curve_laws : P256Laws curve.
Proof.
  split.
  - intros pk. exists (key_x pk), (key_y pk). destruct pk; repeat split; try done;
      by repeat constructor.
  - intros bs pk x y Hl. simpl. unfold key_of_sec1. simpl. unfold eqb.
    repeat (case_bool_decide; simpl; [intros [= <-] [= <-] [= <-]; by subst|]). done.
  - intros bs sk. simpl. unfold key_of_scalar. simpl. unfold eqb. by repeat case_bool_decide; intros [= <-].
Qed.

(** The last 32 bytes of the input after 32 zero bytes. *)
Definition pad_digest (bs : list Z) : list Z :=
  let l := zero32 ++ map (wrap 8) bs in drop (length l - 32) l.

#[export] Instance digest : Blake3 := {| derive_key _ bs := pad_digest bs |}.

#[export] Instance digest_laws : Blake3Laws digest.
Proof.
  split; intros c bs; simpl; unfold pad_digest.
  - rewrite length_drop, length_app. unfold zero32. rewrite length_replicate. lia.
  - apply bytes_ok_drop, bytes_ok_app. split; [by repeat constructor|].
    apply Forall_map, Forall_true. intros x. by apply wrap_in_u.
Qed.

End Sample.

#[local] Existing Instance target64.
#[local] Existing Instances Sample.curve Sample.curve_laws Sample.digest.

Lemma pinned_peer_roundtrip_witness :
  ∃ p x y, from_public_key (2 :: replicate 32 1) 7 = Ok p ∧
    peer_public_key (E:=Error) p = Ok (4 :: x ++ y) ∧ from_public_key (4 :: x ++ y) 7 = Ok p.
Proof.
  pose proof (pinned_peer_roundtrip (2 :: replicate 32 1) 7) as Hr.
  destruct Hr as (p & x & y & H1 & _ & _ & H2 & _ & _ & _ & H3 & _).
  exists p, x, y. split; [exact H1|]. split; [exact H2|exact H3].
Defined.

Lemma reference_exact_witness :
  ∃ p id, from_key (P:=Sample.curve) Sample.KA 0x30 = Ok p ∧ from_encoded_value [0x30] = Ok id ∧
    check_reference id p = Ok tt ∧ reference_from_id id = Ok 0x30.
Proof.
  destruct (from_key_ok (P:=Sample.curve) Sample.KA 0x30) as (x & y & p & Hp & _).
  destruct (reference_exact (P:=Sample.curve) Sample.KA 0x30 p) as [(id & _ & _ & Hd) Hr]; [split; [discriminate|reflexivity]|exact Hp|].
  exists p, id. destruct (Hr (encoded_kid 0x30) id Hd) as [H1 H2]. split; [exact Hp|].
  split; [exact Hd|]. split; [exact H1|]. apply H2. reflexivity.
Defined.
