(* ===== verification/Ead.v ===== *)
(** * External authorization data of a handshake

    [provisioning/ead.rs]: the bounded sequence of labelled items a handshake
    message carries, its reader and writer, and how a received sequence is handed
    to the application.  [provisioning/connection_id.rs]: the identifiers of a
    connection and their CBOR form. *)
From S2P Require Import Prelude.
From S2P Require Import LakersCred.
From S2P Require Import Credential.

Open Scope list_scope.
Open Scope Z_scope.

Module EadError.
Inductive EadError : Type := Malformed | Capacity | Label.
End EadError.
Abbreviation ead_error := EadError.EadError.

(** [label] is an [i32]; negative is critical, zero is padding. *)
Record EadItem : Type := mk_item { ei_label : Z; ei_value : option (list Z) }.
Record Ead : Type := mk_ead { ead_bytes : list Z; ead_len : nat }.
Definition EAD_CAPACITY : nat := 64.
Definition Ead_new : Ead := mk_ead (replicate EAD_CAPACITY 0) 0.

Section ead.
Context `{Target}.

Definition take_head (input : list Z) : res ead_error (list Z * (Z * Z)) :=
  match input with
  | [] => Err EadError.Malformed
  | first :: tail =>
      let additional := Z.land first 31 in
      if additional <=? 23 then Ok (tail, (Z.shiftr first 5, additional))
      else if additional <=? 27 then
        let count := Z.to_nat (Z.shiftl 1 (additional - 24)) in
        part ← ok_or (slice_get tail 0 count) EadError.Malformed;
        bytes ← copy_into (8 - count) 8 part (replicate 8 0);
        let value := from_be bytes in
        let minimum := match count with 1%nat => 24 | 2%nat => 256 | 4%nat => 65536 | _ => Z.shiftl 1 32 end in
        if value <? minimum then Err EadError.Malformed
        else rest ← slice_idx tail count (length tail); mret (rest, (Z.shiftr first 5, value))
      else Err EadError.Malformed
  end.
Definition starts_bytes (input : list Z) : bool := match input with byte :: _ => Z.shiftr byte 5 =? 2 | [] => false end.
(** The value of an item, after its label. *)
Definition take_value (label : Z) (input : list Z) : res ead_error (list Z * EadItem) :=
  if starts_bytes input then
    '(input, (_, length_)) ← take_head input;
    n ← ok_or (usize_try_from length_) EadError.Malformed;
    value ← ok_or (slice_get input 0 n) EadError.Malformed;
    rest ← slice_idx input n (length input);
    mret (rest, mk_item label (Some value))
  else mret (input, mk_item label None).
Definition take_label (major argument : Z) : res ead_error Z :=
  if (major =? 0) && (argument <=? max_u 16) then Ok argument
  else if (major =? 1) && (argument <? max_u 16) then Ok (-1 - argument)
  else if (major =? 0) || (major =? 1) then Err EadError.Label
  else Err EadError.Malformed.
Definition take_item (input : list Z) : res ead_error (list Z * EadItem) :=
  '(input, (major, argument)) ← take_head input;
  label ← take_label major argument;
  take_value label input.

(** The [while] loop of [from_encoded]; an item takes at least one byte. *)
Fixpoint check_items (fuel : nat) (remaining : list Z) : res ead_error unit :=
  match remaining with
  | [] => mret tt
  | _ => match fuel with
         | O => Diverge
         | S fuel => '(remaining, _) ← take_item remaining; check_items fuel remaining
         end
  end.
Definition from_encoded (encoded : list Z) : res ead_error Ead :=
  if (EAD_CAPACITY <? length encoded)%nat then Err EadError.Capacity
  else
    check_items (length encoded) encoded;;
    bytes ← copy_into 0 (length encoded) encoded (ead_bytes Ead_new);
    mret (mk_ead bytes (length encoded)).
Definition as_encoded {E} (e : Ead) : res E (list Z) := slice_idx (ead_bytes e) 0 (ead_len e).
Definition ead_optional (e : Ead) : option Ead := if (ead_len e =? 0)%nat then None else Some e.

(** The slice of [output] that is returned. *)
Definition encode_head (major argument : Z) : list Z :=
  if argument <=? 23 then [Z.lor major argument]
  else if argument <=? 255 then [Z.lor major 24; wrap 8 argument]
  else Z.lor major 25 :: be_bytes 2 argument.
(** The [for part in ..] loop; a failed copy is a panic. *)
Fixpoint push_parts {E} (parts : list (list Z)) (e : Ead) : res E Ead :=
  match parts with
  | [] => mret e
  | part :: parts =>
      bytes ← copy_into (ead_len e) (ead_len e + length part) part (ead_bytes e);
      push_parts parts (mk_ead bytes (ead_len e + length part))
  end.
Definition ead_push (label : Z) (value : option (list Z)) : st Ead ead_error unit := fun e =>
  let magnitude := Z.abs label in
  if max_u 16 <? magnitude then (e, Err EadError.Label)
  else
    let argument := wrap 16 (if label <? 0 then magnitude - 1 else magnitude) in
    let label_bytes := encode_head (if label <? 0 then 32 else 0) argument in
    let value_bytes := match value with Some v => v | None => [] end in
    if (EAD_CAPACITY <? length value_bytes)%nat then (e, Err EadError.Capacity)
    else
      let value_header := match value with Some _ => encode_head 64 (wrap 16 (Z.of_nat (length value_bytes))) | None => [] end in
      let added := (length label_bytes + length value_header + length value_bytes)%nat in
      match usize_checked_sub EAD_CAPACITY (ead_len e) with
      | None => (e, Panic)
      | Some room =>
          if (room <? added)%nat then (e, Err EadError.Capacity)
          else match push_parts (E:=unit) [label_bytes; value_header; value_bytes] e with Ok e' => (e', Ok tt) | _ => (e, Panic) end
      end.

(** Handing a received field to the application. *)
Context {W : Type} (handler : EadItem → W → W * bool).
Fixpoint process_items (fuel : nat) (remaining : list Z) : st W Error unit :=
  match remaining with
  | [] => mret tt
  | _ => match fuel with
         | O => st_lift Diverge
         | S fuel =>
             '(remaining, item) ← st_lift (map_err (fun _ => Parsing) (take_item remaining));
             if ei_label item =? 0 then process_items fuel remaining
             else fun w =>
               let '(w, handled) := handler item w in
               if negb handled && (ei_label item <? 0) then (w, Err Profile) else process_items fuel remaining w
         end
  end.
Definition ead_process (field : option Ead) : st W Error unit :=
  match field with
  | None => mret tt
  | Some field => bytes ← st_lift (as_encoded field); process_items (length bytes) bytes
  end.
End ead.

(** ** Connection identifiers *)
Record ConnectionId : Type := mk_cid { ci_bytes : list Z; ci_len : Z }.
#[export] Instance ConnectionId_eq_dec : EqDecision ConnectionId.
Proof. solve_decision. Defined.
Definition CID_CAPACITY : nat := 7.
Definition CID_MAX : Z := 23.
Definition cid_new (value : Z) : res Error ConnectionId :=
  if value <=? CID_MAX then Ok (mk_cid [value; 0; 0; 0; 0; 0; 0] 1) else Err Profile.
Definition cid_from_slice (bytes : list Z) : res Error ConnectionId :=
  if (CID_CAPACITY <? length bytes)%nat then Err Profile
  else b ← copy_into 0 (length bytes) bytes (replicate CID_CAPACITY 0); mret (mk_cid b (wrap 8 (Z.of_nat (length bytes)))).
Definition cid_as_bytes {E} (c : ConnectionId) : res E (list Z) := slice_idx (ci_bytes c) 0 (Z.to_nat (ci_len c)).
Definition cid_as_u8 {E} (c : ConnectionId) : res E (option Z) :=
  first ← idx (ci_bytes c) 0;
  mret (if (ci_len c =? 1) && (first <=? CID_MAX) then Some first else None).
(** [0..=23 | 32..=55]. *)
Definition compact (byte : Z) : bool := ((0 <=? byte) && (byte <=? 23)) || ((32 <=? byte) && (byte <=? 55)).
Definition decode_prefix (bytes : list Z) : res Error (ConnectionId * nat) :=
  match bytes with
  | [] => Err Profile
  | first :: tail =>
      if compact first then c ← cid_from_slice [first]; mret (c, 1%nat)
      else if (64 <=? first) && (first <=? 71) then
        let len := Z.to_nat (Z.land first 31) in
        value ← ok_or (slice_get tail 0 len) Parsing;
        if match value with [byte] => compact byte | _ => false end then Err Profile
        else c ← cid_from_slice value; mret (c, (len + 1)%nat)
      else Err Profile
  end.

(** ** Preferred heads *)
Definition head_size (n : Z) : nat :=
  if n <=? 23 then 0 else if n <=? 255 then 1 else if n <=? 65535 then 2 else if n <=? max_u 32 then 4 else 8.
Definition head_wire (major n : Z) : list Z :=
  match head_size n with
  | 0%nat => [32 * major + n]
  | 1%nat => 32 * major + 24 :: be_bytes 1 n
  | 2%nat => 32 * major + 25 :: be_bytes 2 n
  | 4%nat => 32 * major + 26 :: be_bytes 4 n
  | _ => 32 * major + 27 :: be_bytes 8 n
  end.
(** A head with [k] bytes after the first. *)
Definition wide (a : Z) (k : nat) (minimum : Z) : Prop :=
  (a = 24 ∧ k = 1%nat ∧ minimum = 24) ∨ (a = 25 ∧ k = 2%nat ∧ minimum = 256) ∨
  (a = 26 ∧ k = 4%nat ∧ minimum = 65536) ∨ (a = 27 ∧ k = 8%nat ∧ minimum = 2 ^ 32).
Lemma head_wire_wide a k minimum m n : wide a k minimum → minimum ≤ n < 2 ^ (8 * Z.of_nat k) → head_wire m n = 32 * m + a :: be_bytes k n.
Proof.
  intros Hw Hn. unfold head_wire, head_size, max_u. destruct Hw as [(-> & -> & ->)|[(-> & -> & ->)|[(-> & -> & ->)|(-> & -> & ->)]]]; cbn in Hn.
  - by rewrite (proj2 (Z.leb_gt n 23)), (proj2 (Z.leb_le n 255)) by lia.
  - by rewrite (proj2 (Z.leb_gt n 23)), (proj2 (Z.leb_gt n 255)), (proj2 (Z.leb_le n 65535)) by lia.
  - by rewrite (proj2 (Z.leb_gt n 23)), (proj2 (Z.leb_gt n 255)), (proj2 (Z.leb_gt n 65535)), (proj2 (Z.leb_le n (2 ^ 32 - 1))) by lia.
  - by rewrite (proj2 (Z.leb_gt n 23)), (proj2 (Z.leb_gt n 255)), (proj2 (Z.leb_gt n 65535)), (proj2 (Z.leb_gt n (2 ^ 32 - 1))) by lia.
Qed.
Lemma head_wire_narrow m n : 0 ≤ n ≤ 23 → head_wire m n = [32 * m + n].
Proof. intros Hn. unfold head_wire, head_size. by rewrite (proj2 (Z.leb_le _ _)) by lia. Qed.
Lemma head_cases n : in_u 64 n → (0 ≤ n ≤ 23) ∨ ∃ a k minimum, wide a k minimum ∧ minimum ≤ n < 2 ^ (8 * Z.of_nat k).
Proof.
  intros Hn. unfold in_u in Hn. destruct (Z.le_gt_cases n 23); [left; lia|right]. destruct (Z.le_gt_cases n 255); [exists 24, 1%nat, 24; unfold wide; cbn; lia|].
  destruct (Z.le_gt_cases n 65535); [exists 25, 2%nat, 256; unfold wide; cbn; lia|].
  destruct (Z.lt_ge_cases n (2 ^ 32)); [exists 26, 4%nat, 65536|exists 27, 8%nat, (2 ^ 32)]; unfold wide; cbn in *; lia.
Qed.
Lemma cbor_byte m a : 0 ≤ m → 0 ≤ a < 32 → Z.land (32 * m + a) 31 = a ∧ Z.shiftr (32 * m + a) 5 = m.
Proof.
  intros Hm Ha. rewrite (land_mask _ 5) by done. rewrite shiftr_pow by done. change (2 ^ 5) with 32.
  split; [rewrite Z.add_comm, Z.mul_comm, Z.mod_add, Z.mod_small by lia; done|]. rewrite Z.mul_comm, Z.div_add_l, Z.div_small by lia. lia.
Qed.
(** What [take_head] does after the first byte of a wide head. *)
Definition take_wide (m : Z) (k : nat) (minimum : Z) (tail : list Z) : res ead_error (list Z * (Z * Z)) :=
  if (k <=? length tail)%nat && (minimum <=? from_be (take k tail)) then Ok (drop k tail, (m, from_be (take k tail))) else Err EadError.Malformed.
Lemma take_head_wide a k minimum first tail : wide a k minimum → Z.land first 31 = a →
  take_head (first :: tail) = take_wide (Z.shiftr first 5) k minimum tail.
Proof.
  intros Hw Ha. unfold take_head, take_wide. rewrite Ha.
  assert ((a <=? 23) = false ∧ (a <=? 27) = true ∧ Z.to_nat (Z.shiftl 1 (a - 24)) = k ∧ (k ≤ 8)%nat ∧
    match k with 1%nat => 24 | 2%nat => 256 | 4%nat => 65536 | _ => Z.shiftl 1 32 end = minimum) as (-> & -> & -> & Hk & Hmin)
    by (destruct Hw as [(-> & -> & ->)|[(-> & -> & ->)|[(-> & -> & ->)|(-> & -> & ->)]]]; split_and!; (done || lia)).
  rewrite Hmin. destruct (Nat.leb_spec k (length tail)) as [Hl|Hl]; cbn [andb].
  - assert (slice_get tail 0 k = Some (take k tail)) as -> by (apply slice_get_Some; split; [lia|]; by rewrite Nat.sub_0_r).
    cbn [ok_or]. unbind. rewrite copy_into_ok by (rewrite ?length_replicate, ?length_take; lia).
    assert (splice (replicate 8 0) (8 - k) (take k tail) = replicate (8 - k) 0 ++ take k tail) as ->.
    { unfold splice. rewrite take_replicate, drop_ge by (rewrite length_replicate, length_take; lia). rewrite app_nil_r. do 2 f_equal. lia. }
    rewrite from_be_zeros. rewrite Z.leb_antisym. destruct (from_be (take k tail) <? minimum); [done|]. cbn [negb].
    unfold slice_idx. assert (slice_get tail k (length tail) = Some (drop k tail)) as ->; [|done].
    apply slice_get_Some. split; [lia|]. rewrite take_ge by (rewrite length_drop; lia). done.
  - assert (slice_get tail 0 k = None) as ->; [|done]. destruct (slice_get tail 0 k) eqn:E; [|done]. apply slice_get_Some in E as [? _]. lia.
Qed.
Lemma take_head_wire m n rest : 0 ≤ m → in_u 64 n → take_head (head_wire m n ++ rest) = Ok (rest, (m, n)).
Proof.
  intros Hm Hn. destruct (head_cases n Hn) as [Hs|(a & k & mn & Hw & Hb)].
  - rewrite head_wire_narrow by done. cbn [app]. unfold take_head. destruct (cbor_byte m n Hm ltac:(lia)) as [-> ->].
    by rewrite (proj2 (Z.leb_le _ _)) by lia.
  - rewrite (head_wire_wide a k mn) by done. cbn [app]. assert (0 ≤ a < 32) as Ha by (unfold wide in Hw; lia). destruct (cbor_byte m a Hm Ha) as [E1 E2].
    rewrite (take_head_wide a k mn) by done. rewrite E2. unfold take_wide. rewrite take_app_length', drop_app_length' by (by rewrite length_be_bytes).
    rewrite from_be_bytes, Z.mod_small by (split; [unfold in_u in Hn|]; lia). rewrite length_app, length_be_bytes.
    by rewrite (proj2 (Nat.leb_le _ _)), (proj2 (Z.leb_le _ _)) by lia.
Qed.
Lemma cbor_byte_split first : in_u 8 first → ∃ m a, first = 32 * m + a ∧ 0 ≤ m < 8 ∧ 0 ≤ a < 32 ∧ Z.land first 31 = a ∧ Z.shiftr first 5 = m.
Proof.
  intros Hf. unfold in_u in Hf. exists (first / 32), (first mod 32). pose proof (Z.div_mod first 32 ltac:(lia)). pose proof (Z.mod_pos_bound first 32 ltac:(lia)).
  assert (0 ≤ first / 32 < 8) by (split; [apply Z.div_pos; lia|apply Z.div_lt_upper_bound; lia]). split_and!; try lia.
  - by rewrite (land_mask _ 5) by done.
  - by rewrite shiftr_pow by done.
Qed.
Lemma take_head_inv input : bytes_ok input →
  match take_head input with
  | Ok (rest, (m, n)) => input = head_wire m n ++ rest ∧ 0 ≤ m < 8 ∧ in_u 64 n ∧ bytes_ok rest
  | Err e => e = EadError.Malformed
  | _ => False
  end.
Proof.
  intros Hb. destruct input as [|first tail]; [done|]. apply bytes_ok_cons in Hb as [Hf Hb]. destruct (cbor_byte_split first Hf) as (m & a & E & Hm & Ha & El & Es).
  destruct (Z.le_gt_cases a 23) as [Hs|Hs].
  { unfold take_head. rewrite El, (proj2 (Z.leb_le _ _)), Es by lia. rewrite head_wire_narrow by lia. rewrite E. split_and!; [done|lia..| |done]. unfold in_u. lia. }
  destruct (Z.le_gt_cases a 27) as [Hw|Hw].
  2: { unfold take_head. rewrite El. by rewrite !(proj2 (Z.leb_gt _ _)) by lia. }
  assert (∃ k mn, wide a k mn) as (k & mn & Hwide) by (unfold wide; assert (a = 24 ∨ a = 25 ∨ a = 26 ∨ a = 27) as [->|[->|[->| ->]]] by lia; eauto 10).
  rewrite (take_head_wide a k mn) by done. unfold take_wide. destruct (Nat.leb_spec k (length tail)) as [Hl|]; cbn [andb]; [|done].
  destruct (Z.leb_spec mn (from_be (take k tail))) as [Hmn|]; [|done]. rewrite Es.
  pose proof (from_be_bound (take k tail) ltac:(by apply bytes_ok_take)) as [_ Hlt]. rewrite length_take_le in Hlt by done.
  assert (0 ≤ mn) by (unfold wide in Hwide; lia). split_and!; [|lia..| |by apply bytes_ok_drop].
  - rewrite (head_wire_wide a k mn) by done. rewrite be_bytes_from by (done || (by apply bytes_ok_take) || by rewrite length_take_le). cbn [app]. by rewrite take_drop, E.
  - unfold in_u. split; [lia|]. eapply Z.lt_le_trans; [exact Hlt|]. apply Z.pow_le_mono_r; [lia|]. unfold wide in Hwide. lia.
Qed.

(** ** Items *)
Section items.
Context `{Target}.
Implicit Types (it : EadItem) (its : list EadItem).

Definition label_wire (label : Z) : list Z := if label <? 0 then head_wire 1 (-1 - label) else head_wire 0 label.
Definition value_wire (value : option (list Z)) : list Z := match value with Some v => head_wire 2 (Z.of_nat (length v)) ++ v | None => [] end.
Definition item_wire it : list Z := label_wire (ei_label it) ++ value_wire (ei_value it).
Definition items_wire its : list Z := concat (map item_wire its).
Definition item_ok it : Prop := -65535 ≤ ei_label it ≤ 65535 ∧ ∀ v, ei_value it = Some v → usize_ok (length v).

Lemma starts_head m n rest : 0 ≤ m → in_u 64 n → starts_bytes (head_wire m n ++ rest) = (m =? 2).
Proof.
  intros Hm Hn. destruct (head_cases n Hn) as [Hs|(a & k & mn & Hw & Hb)].
  - rewrite head_wire_narrow by done. cbn. by destruct (cbor_byte m n Hm ltac:(lia)) as [_ ->].
  - rewrite (head_wire_wide a k mn) by done. cbn [app starts_bytes]. assert (0 ≤ a < 32) as Ha by (unfold wide in Hw; lia). by destruct (cbor_byte m a Hm Ha) as [_ ->].
Qed.
Lemma usize_64 n : usize_ok n → in_u 64 (Z.of_nat n).
Proof. unfold usize_ok, in_u. pose proof usize_max_le. lia. Qed.
Lemma take_label_wire label : -65535 ≤ label ≤ 65535 → ∃ m n, label_wire label = head_wire m n ∧ 0 ≤ m < 8 ∧ in_u 64 n ∧ take_label m n = Ok label.
Proof.
  intros Hl. unfold label_wire, take_label, in_u, max_u. destruct (Z.ltb_spec label 0).
  - exists 1, (-1 - label). split_and!; [done|lia..|]. cbn. rewrite (proj2 (Z.ltb_lt _ _)) by lia. f_equal. lia.
  - exists 0, label. split_and!; [done|lia..|]. cbn. by rewrite (proj2 (Z.leb_le _ _)) by lia.
Qed.
Lemma take_label_inv m n : 0 ≤ n →
  match take_label m n with
  | Ok label => label_wire label = head_wire m n ∧ -65535 ≤ label ≤ 65535
  | Err _ => True
  | _ => False
  end.
Proof.
  intros Hn. unfold take_label, label_wire, max_u. destruct (_ && _) eqn:E0; [bools; subst m|destruct ((m =? 1) && _) eqn:E1; [bools; subst m|by destruct (_ || _)]].
  - rewrite (proj2 (Z.ltb_ge _ _)) by lia. split; [done|lia].
  - rewrite (proj2 (Z.ltb_lt _ _)) by lia. split; [f_equal; lia|lia].
Qed.
Lemma slice_rest {E} (v rest : list Z) : slice_idx (E:=E) (v ++ rest) (length v) (length (v ++ rest)) = Ok rest.
Proof. unfold slice_idx. by rewrite (slice_get_tail v rest) by (rewrite ?length_app; lia). Qed.
Lemma take_value_wire label value rest : (∀ v, value = Some v → usize_ok (length v)) → (value = None → starts_bytes rest = false) →
  take_value label (value_wire value ++ rest) = Ok (rest, mk_item label value).
Proof.
  intros Hv Hr. unfold take_value, value_wire. destruct value as [v|]; [|cbn [app]; by rewrite Hr]. specialize (Hv v eq_refl). pose proof (usize_64 _ Hv) as Hu.
  rewrite <- app_assoc, starts_head, take_head_wire by (done || lia). cbn [Z.eqb Pos.eqb]. unbind. unfold usize_try_from. unfold usize_ok in Hv.
  rewrite (proj2 (Z.leb_le _ _)) by lia. cbn [ok_or]. unbind. rewrite Nat2Z.id.
  assert (slice_get (v ++ rest) 0 (length v) = Some v) as -> by (apply slice_get_Some; split; [rewrite length_app; lia|]; by rewrite Nat.sub_0_r, drop_0, take_app_length).
  cbn [ok_or]. by rewrite slice_rest.
Qed.
Lemma take_value_inv label input : bytes_ok input →
  match take_value label input with
  | Ok (rest, it) => input = value_wire (ei_value it) ++ rest ∧ ei_label it = label ∧ (∀ v, ei_value it = Some v → usize_ok (length v)) ∧ bytes_ok rest
  | Err _ => True
  | _ => False
  end.
Proof.
  intros Hb. unfold take_value. destruct (starts_bytes input) eqn:Es; [|by cbn]. unbind. pose proof (take_head_inv input Hb) as Hh.
  destruct (take_head input) as [[rest [m n]]|e| |]; try done. destruct Hh as (-> & Hm & Hn & Hbr).
  rewrite starts_head in Es by (done || lia). apply Z.eqb_eq in Es as ->. unfold usize_try_from. destruct (Z.leb_spec n usize_max) as [Hu|]; [|done]. cbn [ok_or].
  destruct (slice_get rest 0 (Z.to_nat n)) as [v|] eqn:Ev; [|done]. cbn [ok_or]. assert (∃ tl, rest = v ++ tl ∧ Z.to_nat n = length v) as (tl & -> & El).
  { destruct (slice_get_split _ _ _ _ Ev) as (E & _ & El). by exists (drop (Z.to_nat n) rest). }
  rewrite El, slice_rest. cbn [ei_value ei_label value_wire]. assert (Z.of_nat (length v) = n) as <- by (unfold in_u in Hn; lia).
  split_and!; [by rewrite <- app_assoc|done| |by apply bytes_ok_app in Hbr as [_ ?]]. intros ? [= <-]. unfold usize_ok. lia.
Qed.
Lemma take_item_wire it rest : item_ok it → (ei_value it = None → starts_bytes rest = false) → take_item (item_wire it ++ rest) = Ok (rest, it).
Proof.
  intros [Hl Hv] Hr. destruct it as [label value]. unfold take_item, item_wire. cbn [ei_label ei_value] in *. rewrite <- app_assoc.
  destruct (take_label_wire label Hl) as (m & n & -> & Hm & Hn & Ht). rewrite take_head_wire by (done || lia). unbind. rewrite Ht. by apply take_value_wire.
Qed.
Lemma head_wire_pos m n : in_u 64 n → (0 < length (head_wire m n))%nat.
Proof.
  intros Hn. destruct (head_cases n Hn) as [?|(a & k & mn & ? & ?)]; [rewrite head_wire_narrow by done|rewrite (head_wire_wide a k mn) by done]; cbn; lia.
Qed.
Lemma take_item_inv input : bytes_ok input →
  match take_item input with
  | Ok (rest, it) => input = item_wire it ++ rest ∧ item_ok it ∧ bytes_ok rest ∧ (length rest < length input)%nat
  | Err _ => True
  | _ => False
  end.
Proof.
  intros Hb. unfold take_item. pose proof (take_head_inv input Hb) as Hh. unbind. destruct (take_head input) as [[rest [m n]]|e| |]; try done.
  destruct Hh as (-> & Hm & Hn & Hbr). pose proof (head_wire_pos m n Hn) as Hpos. pose proof (take_label_inv m n (proj1 Hn)) as Hl.
  destruct (take_label m n) as [label| | |]; try done. destruct Hl as [El Hl]. pose proof (take_value_inv label rest Hbr) as Hv.
  destruct (take_value label rest) as [[rest2 it]| | |]; try done. destruct Hv as (-> & Eit & Hv & Hb2).
  unfold item_wire. rewrite Eit, El, !length_app. split_and!; [by rewrite app_assoc|split; [by rewrite Eit|done]|done|lia].
Qed.

(** ** Sequences *)
Lemma item_starts it rest : item_ok it → starts_bytes (item_wire it ++ rest) = false.
Proof.
  intros [Hl _]. unfold item_wire. rewrite <- app_assoc. unfold label_wire. destruct (Z.ltb_spec (ei_label it) 0); rewrite starts_head; (done || unfold in_u; lia).
Qed.
Lemma items_start its : Forall item_ok its → starts_bytes (items_wire its) = false.
Proof. intros [|it its' Hi _]; [done|]. unfold items_wire. cbn [map concat]. by apply item_starts. Qed.
Lemma item_wire_pos it : item_ok it → (0 < length (item_wire it))%nat.
Proof.
  intros [Hl _]. unfold item_wire, label_wire. rewrite length_app. destruct (Z.ltb_spec (ei_label it) 0).
  - pose proof (head_wire_pos 1 (-1 - ei_label it)). unfold in_u in *. lia.
  - pose proof (head_wire_pos 0 (ei_label it)). unfold in_u in *. lia.
Qed.
Lemma items_step fuel it its : Forall item_ok (it :: its) → (length (items_wire (it :: its)) ≤ S fuel)%nat →
  items_wire (it :: its) ≠ [] ∧ take_item (items_wire (it :: its)) = Ok (items_wire its, it) ∧ (length (items_wire its) ≤ fuel)%nat.
Proof.
  intros [Hi Hf]%Forall_cons Hl. unfold items_wire in *. cbn [map concat] in *. pose proof (item_wire_pos it Hi) as Hp. rewrite length_app in Hl.
  split_and!; [destruct (item_wire it); [cbn in Hp; lia|done]| |lia]. apply take_item_wire; [done|]. intros _. by apply (items_start its).
Qed.
Lemma check_items_wire its : ∀ fuel, Forall item_ok its → (length (items_wire its) ≤ fuel)%nat → check_items fuel (items_wire its) = Ok tt.
Proof.
  induction its as [|it its IH]; intros fuel Hf Hl; [by destruct fuel|]. destruct fuel as [|fuel].
  { apply Forall_cons in Hf as [Hi _]. pose proof (item_wire_pos it Hi). unfold items_wire in Hl. cbn in Hl. rewrite length_app in Hl. lia. }
  destruct (items_step fuel it its Hf Hl) as (Hne & Ht & Hl'). cbn [check_items]. destruct (items_wire (it :: its)) as [|b bs] eqn:E; [done|].
  unbind. rewrite Ht. apply IH; [by apply Forall_cons in Hf as [_ ?]|done].
Qed.
Lemma check_items_inv fuel : ∀ input, bytes_ok input → (length input ≤ fuel)%nat →
  match check_items fuel input with
  | Ok _ => ∃ its, Forall item_ok its ∧ input = items_wire its
  | Err _ => True
  | _ => False
  end.
Proof.
  induction fuel as [|fuel IH]; intros input Hb Hl; (destruct input as [|b bs]; [by exists []|]); [cbn in Hl; lia|]. cbn [check_items]. unbind.
  pose proof (take_item_inv (b :: bs) Hb) as Ht. destruct (take_item (b :: bs)) as [[rest it]| | |]; try done. destruct Ht as (E & Hi & Hbr & Hlt).
  specialize (IH rest Hbr ltac:(lia)). destruct (check_items fuel rest); try done. destruct IH as (its & Hf & ->). exists (it :: its). split; [by constructor|done].
Qed.
End items.

(** ** Writing and processing *)
Section carried.
Context `{Target}.
Implicit Types (it : EadItem) (its : list EadItem) (e : Ead).

Definition contains e (bs : list Z) : Prop :=
  (length bs ≤ EAD_CAPACITY)%nat ∧ ead_len e = length bs ∧ ead_bytes e = bs ++ replicate (EAD_CAPACITY - length bs) 0.
Lemma contains_encoded {E} e bs : contains e bs → as_encoded (E:=E) e = Ok bs.
Proof. intros (Hl & El & Eb). unfold as_encoded. rewrite El, Eb, slice_prefix by (rewrite length_app; lia). by rewrite take_app_length. Qed.
Lemma contains_eq e e' bs : contains e bs → contains e' bs → e = e'.
Proof. destruct e, e'. unfold contains. cbn. intros (_ & -> & ->) (_ & -> & ->). done. Qed.
Lemma push_part {E} e bs part : contains e bs → (length bs + length part ≤ EAD_CAPACITY)%nat →
  ∃ e', copy_into (E:=E) (ead_len e) (ead_len e + length part) part (ead_bytes e) = Ok (ead_bytes e') ∧ ead_len e' = (ead_len e + length part)%nat ∧ contains e' (bs ++ part).
Proof.
  intros (Hl & El & Eb) Hp. exists (mk_ead (bs ++ part ++ replicate (EAD_CAPACITY - length (bs ++ part)) 0) (length (bs ++ part))). cbn [ead_bytes ead_len].
  rewrite El, Eb. rewrite copy_into_ok by (rewrite ?length_app, ?length_replicate; lia). split_and!; [|by rewrite length_app|].
  - f_equal. unfold splice. rewrite take_app_length, drop_app_ge by lia. do 2 f_equal. rewrite drop_replicate. f_equal. rewrite length_app. lia.
  - split_and!; [rewrite length_app; lia|done|cbn; by rewrite <- app_assoc].
Qed.
Lemma push_parts_spec {E} parts : ∀ e bs, contains e bs → (length bs + length (concat parts) ≤ EAD_CAPACITY)%nat →
  ∃ e', push_parts (E:=E) parts e = Ok e' ∧ contains e' (bs ++ concat parts).
Proof.
  induction parts as [|part parts IH]; intros e bs Hc Hl; cbn [push_parts concat] in *; [exists e; by rewrite app_nil_r|]. rewrite length_app in Hl.
  destruct (push_part (E:=E) e bs part Hc ltac:(lia)) as ([b n] & Hcp & Hn & Hc'). rewrite Hcp. unbind. cbn [ead_bytes ead_len] in *. rewrite <- Hn.
  destruct (IH (mk_ead b n) (bs ++ part) Hc') as (e' & Hp & He'); [rewrite length_app; lia|]. exists e'. by rewrite <- app_assoc in He'.
Qed.
Lemma encode_head_wire m n : 0 ≤ m ≤ 2 → 0 ≤ n ≤ 65535 → encode_head (32 * m) n = head_wire m n.
Proof.
  intros Hm Hn. assert (∀ b, 0 ≤ b < 32 → Z.lor (32 * m) b = 32 * m + b) as Hor.
  { intros b Hb. replace (32 * m) with (Z.shiftl m 5) by (rewrite Z.shiftl_mul_pow2 by lia; lia). rewrite lor_shiftl_add by (cbn; lia). by rewrite Z.shiftl_mul_pow2 by lia. }
  unfold encode_head. destruct (Z.leb_spec n 23); [rewrite head_wire_narrow, Hor by lia; done|]. destruct (Z.leb_spec n 255).
  - rewrite (head_wire_wide 24 1 24), Hor by (unfold wide; cbn; lia). cbn [be_bytes app]. unfold wrap. done.
  - rewrite (head_wire_wide 25 2 256), Hor by (unfold wide; cbn; lia). done.
Qed.
Lemma push_spec e bs label value : contains e bs →
  match ead_push label value e with
  | (e', Ok _) => contains e' (bs ++ item_wire (mk_item label value)) ∧ item_ok (mk_item label value)
  | (e', Err EadError.Label) => e' = e ∧ 65535 < Z.abs label
  | (e', Err EadError.Capacity) => e' = e ∧ Z.abs label ≤ 65535 ∧ (EAD_CAPACITY < length (bs ++ item_wire (mk_item label value)))%nat
  | _ => False
  end.
Proof.
  intros Hc. unfold ead_push, max_u. destruct (Z.ltb_spec (2 ^ 16 - 1) (Z.abs label)) as [|Hl]; [by split; [|lia]|].
  assert (encode_head (if label <? 0 then 32 else 0) (wrap 16 (if label <? 0 then Z.abs label - 1 else Z.abs label)) = label_wire label) as ->.
  { unfold label_wire. destruct (Z.ltb_spec label 0); rewrite wrap_small by (unfold in_u; lia).
    - rewrite (encode_head_wire 1) by lia. f_equal. lia.
    - rewrite (encode_head_wire 0) by lia. f_equal. lia. }
  set (vb := match value with Some v => v | None => [] end).
  set (vh := match value with Some _ => encode_head 64 (wrap 16 (Z.of_nat (length vb))) | None => [] end).
  assert (length vb ≤ length (value_wire value))%nat as Hvb by (unfold vb, value_wire; destruct value; rewrite ?length_app; cbn; lia).
  unfold item_wire. cbn [ei_label ei_value]. destruct (Nat.ltb_spec EAD_CAPACITY (length vb)) as [Hbig|Hsmall]; [split_and!; [done|lia|rewrite !length_app; lia]|].
  assert (vh ++ vb = value_wire value) as Evw.
  { unfold vh, vb, value_wire in *. destruct value as [v|]; [|done]. unfold EAD_CAPACITY in Hsmall. rewrite wrap_small by (unfold in_u; lia). by rewrite (encode_head_wire 2) by lia. }
  pose proof (f_equal (@length Z) Evw) as Elen. rewrite length_app in Elen.
  destruct Hc as (Hbl & El & Eb). rewrite usize_checked_sub_ok by lia. destruct (Nat.ltb_spec (EAD_CAPACITY - ead_len e) (length (label_wire label) + length vh + length vb)) as [Hno|Hyes].
  { split_and!; [done|lia|rewrite !length_app; lia]. }
  destruct (push_parts_spec (E:=unit) [label_wire label; vh; vb] e bs) as (e' & -> & He'); [done|cbn; rewrite !length_app; cbn; lia|].
  cbn [concat] in He'. rewrite app_nil_r, Evw in He'. split; [done|]. split; cbn; [lia|]. intros v ->. unfold usize_ok. pose proof usize_max_ge. unfold vb, EAD_CAPACITY in Hsmall. lia.
Qed.

(** Pushing a list of items. *)
Fixpoint push_items its : st Ead ead_error unit :=
  match its with [] => mret tt | it :: its => ead_push (ei_label it) (ei_value it);; push_items its end.
Lemma push_items_spec its : ∀ e bs, contains e bs →
  match push_items its e with
  | (e', Ok _) => contains e' (bs ++ items_wire its) ∧ Forall item_ok its
  | (_, Err EadError.Label) => Exists (fun it => 65535 < Z.abs (ei_label it)) its
  | (_, Err EadError.Capacity) => (EAD_CAPACITY < length (bs ++ items_wire its))%nat
  | _ => False
  end.
Proof.
  induction its as [|it its IH]; intros e bs Hc; cbn [push_items]; [unbind; split; [by rewrite app_nil_r|constructor]|]. unbind.
  pose proof (push_spec e bs (ei_label it) (ei_value it) Hc) as Hp. destruct (ead_push (ei_label it) (ei_value it) e) as [e1 [u|err| |]]; try done.
  - replace (mk_item (ei_label it) (ei_value it)) with it in Hp by (by destruct it). destruct Hp as [Hc1 Hi]. specialize (IH e1 _ Hc1).
    destruct (push_items its e1) as [e2 [u2|err| |]]; try done.
    + destruct IH as [Hc2 Hf]. rewrite <- app_assoc in Hc2. split; [done|by constructor].
    + destruct err; [done| |by apply Exists_cons_tl]. by rewrite <- app_assoc in IH.
  - replace (mk_item (ei_label it) (ei_value it)) with it in Hp by (by destruct it). destruct err; [done| |].
    + destruct Hp as (_ & _ & Hp). unfold items_wire. cbn [map concat]. rewrite !length_app in *. lia.
    + apply Exists_cons_hd. apply Hp.
Qed.
Lemma from_encoded_spec bs : bytes_ok bs →
  match from_encoded bs with
  | Ok e => contains e bs ∧ ∃ its, Forall item_ok its ∧ bs = items_wire its
  | Err _ => ∀ its, Forall item_ok its → bs = items_wire its → (EAD_CAPACITY < length bs)%nat
  | _ => False
  end.
Proof.
  intros Hb. unfold from_encoded. destruct (Nat.ltb_spec EAD_CAPACITY (length bs)) as [|Hl]; [done|]. unbind.
  pose proof (check_items_inv (length bs) bs Hb (le_n _)) as Hc. destruct (check_items (length bs) bs) eqn:Ec; try done.
  - rewrite copy_into_ok by (cbn [Ead_new ead_bytes]; rewrite ?length_replicate; lia). split; [|done]. split_and!; [done..|]. cbn [ead_bytes ead_len Ead_new].
    unfold splice. by rewrite take_0, drop_replicate.
  - intros its Hf ->. by rewrite check_items_wire in Ec.
Qed.

Context {W : Type} (handler : EadItem → W → W * bool).
(** What the application sees of a sequence: padding is skipped, and a critical
    item it does not handle ends the processing. *)
Fixpoint deliver its : st W Error unit :=
  match its with
  | [] => mret tt
  | it :: its =>
      if ei_label it =? 0 then deliver its
      else fun w => let '(w, handled) := handler it w in if negb handled && (ei_label it <? 0) then (w, Err Profile) else deliver its w
  end.
Lemma process_items_wire its : ∀ fuel w, Forall item_ok its → (length (items_wire its) ≤ fuel)%nat → process_items handler fuel (items_wire its) w = deliver its w.
Proof.
  induction its as [|it its IH]; intros fuel w Hf Hl; [by destruct fuel|]. destruct fuel as [|fuel].
  { apply Forall_cons in Hf as [Hi _]. pose proof (item_wire_pos it Hi). unfold items_wire in Hl. cbn in Hl. rewrite length_app in Hl. lia. }
  destruct (items_step fuel it its Hf Hl) as (Hne & Ht & Hl'). apply Forall_cons in Hf as [_ Hf]. cbn [process_items deliver].
  destruct (items_wire (it :: its)) as [|b bs] eqn:E; [done|]. unbind. rewrite Ht. cbn [map_err]. destruct (ei_label it =? 0); [by apply IH|].
  destruct (handler it w) as [w1 handled]. destruct (negb handled && _); [done|]. by apply IH.
Qed.
Lemma process_contains e its w : contains e (items_wire its) → Forall item_ok its → ead_process handler (ead_optional e) w = deliver its w.
Proof.
  intros Hc Hf. unfold ead_optional, ead_process. destruct (Nat.eqb_spec (ead_len e) 0) as [Hz|Hz].
  - destruct Hc as (_ & El & _). destruct its as [|it its]; [done|]. apply Forall_cons in Hf as [Hi _]. pose proof (item_wire_pos it Hi) as Hp.
    rewrite Hz in El. unfold items_wire in El. cbn in El. rewrite length_app in El. lia.
  - rewrite (contains_encoded e _ Hc). unbind. by apply process_items_wire.
Qed.

(** C29: authorization data arrive item by item.  A list of items is written, or
    refused because a label is outside the registry or the encoding is longer
    than 64 bytes; what is written is read back by the peer as the same field;
    and for every field the reader accepts, written by this library or not, the
    application is handed exactly the items the bytes encode, in order, without
    the padding, until the first critical item it does not handle. *)
Theorem ead_carried :
  (∀ its, match push_items its Ead_new with
    | (e, Ok _) => ∃ bs, (∀ E, as_encoded (E:=E) e = Ok bs) ∧ (bytes_ok bs → from_encoded bs = Ok e) ∧
        ∀ w, ead_process handler (ead_optional e) w = deliver its w
    | (_, Err EadError.Label) => Exists (fun it => 65535 < Z.abs (ei_label it)) its
    | (_, Err EadError.Capacity) => (EAD_CAPACITY < length (items_wire its))%nat
    | _ => False
    end) ∧
  ∀ bs, bytes_ok bs → match from_encoded bs with
    | Ok e => (∀ E, as_encoded (E:=E) e = Ok bs) ∧ ∃ its, Forall item_ok its ∧ bs = items_wire its ∧
        ∀ w, ead_process handler (ead_optional e) w = deliver its w
    | Err _ => ¬ ∃ its, Forall item_ok its ∧ bs = items_wire its ∧ (length bs ≤ EAD_CAPACITY)%nat
    | _ => False
    end.
Proof.
  split.
  - intros its. pose proof (push_items_spec its Ead_new []) as Hp. specialize (Hp ltac:(split_and!; [cbn; lia|done|done])). cbn [app] in Hp.
    destruct (push_items its Ead_new) as [e [u|err| |]]; try done. destruct Hp as [Hc Hf]. exists (items_wire its). split_and!.
    + intros E. by apply contains_encoded.
    + intros Hb. pose proof (from_encoded_spec _ Hb) as Hs. destruct (from_encoded (items_wire its)) as [e'| | |]; try done.
      * f_equal. eapply contains_eq; [apply Hs|done].
      * destruct Hc as [Hl _]. specialize (Hs its Hf eq_refl). lia.
    + intros w. by apply process_contains.
  - intros bs Hb. pose proof (from_encoded_spec bs Hb) as Hs. destruct (from_encoded bs) as [e| | |]; try done.
    + destruct Hs as [Hc (its & Hf & ->)]. split; [intros E; by apply contains_encoded|]. exists its. split_and!; [done..|]. intros w. by apply process_contains.
    + intros (its & Hf & Hi & Hl). specialize (Hs its Hf Hi). lia.
Qed.
End carried.

(** A critical item with two bytes, padding, and an item without value: the
    second is skipped, the third delivered. *)
Example ex_ead :
  let its := [mk_item (-3) (Some [1; 2]); mk_item 0 None; mk_item 300 None] in
  match @push_items its Ead_new with
  | (e, Ok _) => as_encoded (E:=unit) e = Ok [34; 66; 1; 2; 0; 25; 1; 44] ∧
      @ead_process target64 _ (fun it w => (w ++ [ei_label it], true)) (Some e) [] = ([-3; 300], Ok tt)
  | _ => False
  end.
Proof. vm_compute. done. Qed.

(** ** Identifiers on the wire *)
(** A compact identifier is its own encoding; others are byte strings. *)
Definition cid_wire (id : list Z) : list Z :=
  if match id with [byte] => compact byte | _ => false end then id else 64 + Z.of_nat (length id) :: id.
Lemma cid_from_slice_ok id : (length id ≤ CID_CAPACITY)%nat → ∃ c, cid_from_slice id = Ok c ∧ ∀ E, cid_as_bytes (E:=E) c = Ok id.
Proof.
  intros Hl. unfold cid_from_slice. rewrite (proj2 (Nat.ltb_ge _ _)) by done. rewrite copy_into_ok by (rewrite ?length_replicate; lia). unbind. eexists. split; [done|].
  intros E. unfold cid_as_bytes. cbn [ci_bytes ci_len]. unfold CID_CAPACITY in Hl. rewrite wrap_small by (unfold in_u; lia). rewrite Nat2Z.id.
  rewrite slice_prefix by (rewrite length_splice; rewrite ?length_replicate; unfold CID_CAPACITY; lia). unfold splice. rewrite take_0. cbn [app]. by rewrite take_app_length.
Qed.
Lemma compact_range b : compact b = true → 0 ≤ b ≤ 23 ∨ 32 ≤ b ≤ 55.
Proof. unfold compact. intros [[? ?]%andb_true_iff|[? ?]%andb_true_iff]%orb_true_iff; bools; lia. Qed.
(** An identifier is read back from the front of any input. *)
Lemma cid_roundtrip id rest : (length id ≤ CID_CAPACITY)%nat → ∃ c,
  decode_prefix (cid_wire id ++ rest) = Ok (c, length (cid_wire id)) ∧ ∀ E, cid_as_bytes (E:=E) c = Ok id.
Proof.
  intros Hl. destruct (cid_from_slice_ok id Hl) as (c & Hc & Hb). exists c. split; [|done]. unfold cid_wire. destruct (match id with [byte] => compact byte | _ => false end) eqn:Ek.
  - destruct id as [|b [|]]; try done. cbn [app decode_prefix length]. rewrite Ek. by rewrite Hc.
  - cbn [app decode_prefix length]. unfold CID_CAPACITY in Hl. set (n := Z.of_nat (length id)).
    assert (compact (64 + n) = false) as -> by (apply not_true_iff_false; intros ?%compact_range; unfold n in *; lia).
    rewrite !(proj2 (Z.leb_le _ _)) by (unfold n; lia). cbn [andb].
    assert (Z.to_nat (Z.land (64 + n) 31) = length id) as -> by (change 64 with (32 * 2); rewrite (proj1 (cbor_byte 2 n ltac:(lia) ltac:(unfold n; lia))); unfold n; lia).
    assert (slice_get (id ++ rest) 0 (length id) = Some id) as -> by (apply slice_get_Some; split; [rewrite length_app; lia|]; by rewrite Nat.sub_0_r, drop_0, take_app_length).
    cbn [ok_or]. unbind. rewrite Ek, Hc. by rewrite Nat.add_1_r.
Qed.
(** Only these encodings are accepted: an identifier has one. *)
Lemma cid_canonical bs c n : bytes_ok bs → decode_prefix bs = Ok (c, n) → ∃ id, (∀ E, cid_as_bytes (E:=E) c = Ok id) ∧ take n bs = cid_wire id ∧ (length id ≤ CID_CAPACITY)%nat.
Proof.
  intros Hbs. destruct bs as [|first tail]; [done|]. apply bytes_ok_cons in Hbs as [Hf _]. cbn [decode_prefix]. destruct (compact first) eqn:Ek.
  - destruct (cid_from_slice_ok [first]) as (c' & -> & Hb); [cbn; unfold CID_CAPACITY; lia|]. unbind. intros [= <- <-]. exists [first]. split; [done|].
    unfold cid_wire. rewrite Ek. split; [done|cbn; unfold CID_CAPACITY; lia].
  - destruct (_ && _) eqn:Er; [|done]. bools. unbind. destruct (slice_get tail 0 _) as [v|] eqn:Ev; [|done]. cbn [ok_or].
    destruct (match v with [byte] => compact byte | _ => false end) eqn:Ec; [done|].
    assert (Z.land first 31 = first - 64) as El by (rewrite (land_mask _ 5) by done; change (2 ^ 5) with 32; rewrite <- (Z.mod_small (first - 64) 32) by lia;
      rewrite <- (Z.mod_add (first - 64) 2 32) by lia; f_equal; lia).
    rewrite El in *. pose proof (slice_get_length _ _ _ _ Ev) as Hlv. apply slice_get_Some in Ev as [Hle Ev]. rewrite Nat.sub_0_r, drop_0 in *.
    destruct (cid_from_slice_ok v) as (c' & -> & Hb); [unfold CID_CAPACITY; lia|]. unbind. intros [= <- <-]. exists v. split; [done|]. unfold cid_wire. rewrite Ec.
    split; [|unfold CID_CAPACITY; lia]. rewrite Nat.add_1_r. cbn [take]. rewrite <- Ev. f_equal. lia.
Qed.
