(* ===== verification/Trust.v ===== *)
(** * Trust in one peer

    [provisioning/trust.rs]: the record that binds a local identity to one
    pinned peer, its anchor, and the policy that grants, checks and changes
    authorization.  The durable store is the caller's; its commit callback acts on
    a state [W] and may fail with the change made or not. *)
From Stdlib Require Import String.
From S2P Require Import Prelude.
From S2P Require Import LakersCred.
From S2P Require Import Credential.

Open Scope list_scope.
Open Scope Z_scope.

Definition RECORD_VERSION : Z := 1.
Definition RECORD_DOMAIN : string :=
  "https://github.com/jeffglousher/coaptic trust record fingerprint v1".

Module TrustError.
Inductive TrustError : Type :=
  | StoreIdentity | InvalidRecord | Initialized | AnchorMismatch | IdentityMismatch | SelfPeer
  | Unauthorized | StaleGrant | Blocked | GenerationExhausted | LocalPolicy.
End TrustError.

Inductive TrustCommitError (E : Type) : Type :=
  | TrustState (e : TrustError.TrustError)
  | TrustPersistence (e : E).
Arguments TrustState {E} e.
Arguments TrustPersistence {E} e.

(** ** Anchors *)
Record TrustAnchor : Type := mk_anchor {
  ta_store : list Z;
  ta_generation : Z;
  ta_digest : list Z
}.

#[export] Instance TrustAnchor_eq_dec : EqDecision TrustAnchor.
Proof. solve_decision. Defined.

Definition anchor_from_parts (store_id : list Z) (generation : Z) (digest : list Z) :
    res TrustError.TrustError TrustAnchor :=
  if eqb store_id zero32 then Err TrustError.StoreIdentity
  else if (generation =? 0) && negb (eqb digest zero32) then Err TrustError.InvalidRecord
  else Ok (mk_anchor store_id generation digest).

Definition anchor_genesis (store_id : list Z) : res TrustError.TrustError TrustAnchor :=
  anchor_from_parts store_id 0 zero32.

Definition anchor_parts (a : TrustAnchor) : list Z * Z * list Z :=
  (ta_store a, ta_generation a, ta_digest a).

Section Trust.
Context `{Target} `{P : P256} `{B : Blake3}.

(** ** Records *)
Record TrustRecordParts : Type := mk_parts {
  tp_version : Z;
  tp_store : list Z;
  tp_generation : Z;
  tp_local : list Z;
  tp_public_key : list Z;
  tp_kid : Z;
  tp_enabled : bool
}.

Record TrustRecord : Type := mk_trust {
  tr_store : list Z;
  tr_generation : Z;
  tr_local : list Z;
  tr_peer : PinnedPeer;
  tr_enabled : bool
}.

Definition trust_from_parts (p : TrustRecordParts) : res TrustError.TrustError TrustRecord :=
  if eqb (tp_store p) zero32 then Err TrustError.StoreIdentity
  else if negb (tp_version p =? RECORD_VERSION) || (tp_generation p =? 0) then
    Err TrustError.InvalidRecord
  else
    peer ← map_err (fun _ => TrustError.InvalidRecord) (from_public_key (tp_public_key p) (tp_kid p));
    mret (mk_trust (tp_store p) (tp_generation p) (tp_local p) peer (tp_enabled p)).

Definition trust_parts {E} (r : TrustRecord) : res E TrustRecordParts :=
  key ← peer_public_key (tr_peer r);
  kid ← peer_kid (tr_peer r);
  mret (mk_parts RECORD_VERSION (tr_store r) (tr_generation r) (tr_local r) key kid (tr_enabled r)).

(** [u8::from(bool)]. *)
Definition bool_byte (b : bool) : Z := if b then 1 else 0.

Definition trust_anchor {E} (r : TrustRecord) : res E TrustAnchor :=
  key ← peer_public_key (tr_peer r);
  kid ← peer_kid (tr_peer r);
  mret (mk_anchor (tr_store r) (tr_generation r)
    (derive_key RECORD_DOMAIN
       ([RECORD_VERSION] ++ tr_store r ++ be_bytes 8 (tr_generation r) ++ tr_local r ++ key ++
        [kid; bool_byte (tr_enabled r)]))).

(** ** Grants and the policy *)
Record TrustGrant : Type := mk_grant { tg_anchor : TrustAnchor; tg_principal : Principal }.

Record PeerTrust : Type := mk_policy {
  pt_record : TrustRecord;
  pt_anchor : TrustAnchor;
  pt_blocked : bool
}.

Definition validate_peer (identity : Identity) (peer : PinnedPeer) : res TrustError.TrustError unit :=
  map_err (fun _ => TrustError.SelfPeer) (check_identity identity peer).

Definition validate_identity (identity : Identity) (record : TrustRecord) : res TrustError.TrustError unit :=
  if negb (eqb (pp_principal (id_peer identity)) (tr_local record)) then
    Err TrustError.IdentityMismatch
  else validate_peer identity (tr_peer record).

Section Store.
Context {W E : Type} (commit : TrustAnchor → TrustRecord → TrustAnchor → W → W * res E unit).

Definition trust_install (identity : Identity) (peer : PinnedPeer) (trusted_genesis : TrustAnchor) :
    st W (TrustCommitError E) PeerTrust :=
  if negb (ta_generation trusted_genesis =? 0) then st_fail (TrustState TrustError.Initialized)
  else
    _ ← st_lift (map_err TrustState (validate_peer identity peer));
    let record := mk_trust (ta_store trusted_genesis) 1 (pp_principal (id_peer identity)) peer true in
    anchor ← st_lift (trust_anchor record);
    _ ← st_map_err TrustPersistence (commit trusted_genesis record anchor);
    mret (mk_policy record anchor false).

Definition next_generation (p : PeerTrust) : res TrustError.TrustError Z :=
  ok_or (checked_add 64 (tr_generation (pt_record p)) 1) TrustError.GenerationExhausted.

(** [PeerTrust::commit]: the policy is blocked while the callback runs. *)
Definition trust_commit (record : TrustRecord) : st (PeerTrust * W) (TrustCommitError E) TrustAnchor :=
  fun '(p, w) =>
    match trust_anchor record with
    | Ok anchor =>
        let p := mk_policy (pt_record p) (pt_anchor p) true in
        match commit (pt_anchor p) record anchor w with
        | (w, Ok _) => ((mk_policy record anchor false, w), Ok anchor)
        | (w, Err e) => ((p, w), Err (TrustPersistence e))
        | (w, Panic) => ((p, w), Panic)
        | (w, Diverge) => ((p, w), Diverge)
        end
    | Err e => ((p, w), Err e)
    | Panic => ((p, w), Panic)
    | Diverge => ((p, w), Diverge)
    end.

Definition trust_replace (identity : Identity) (peer : PinnedPeer) (enabled : bool) :
    st (PeerTrust * W) (TrustCommitError E) TrustAnchor :=
  s ← st_get;
  if pt_blocked s.1 then st_fail (TrustState TrustError.Blocked)
  else
    _ ← st_lift (map_err TrustState (validate_peer identity peer));
    generation ← st_lift (map_err TrustState (next_generation s.1));
    trust_commit
      (mk_trust (tr_store (pt_record s.1)) generation (pp_principal (id_peer identity)) peer enabled).

Definition trust_revoke : st (PeerTrust * W) (TrustCommitError E) TrustAnchor :=
  s ← st_get;
  if pt_blocked s.1 then st_fail (TrustState TrustError.Blocked)
  else
    let record := pt_record s.1 in
    generation ← st_lift (map_err TrustState (next_generation s.1));
    trust_commit (mk_trust (tr_store record) generation (tr_local record) (tr_peer record) false).

End Store.

Definition trust_restore (identity : Identity) (record : TrustRecord) (trusted_anchor : TrustAnchor) :
    res TrustError.TrustError PeerTrust :=
  anchor ← trust_anchor record;
  if negb (eqb anchor trusted_anchor) then Err TrustError.AnchorMismatch
  else
    _ ← validate_identity identity record;
    mret (mk_policy record trusted_anchor false).

Definition trust_active (p : PeerTrust) : res TrustError.TrustError unit :=
  if pt_blocked p then Err TrustError.Blocked
  else if negb (tr_enabled (pt_record p)) then Err TrustError.Unauthorized
  else Ok tt.

Definition trust_grant (p : PeerTrust) (identity : Identity) : res TrustError.TrustError TrustGrant :=
  _ ← trust_active p;
  _ ← validate_identity identity (pt_record p);
  mret (mk_grant (pt_anchor p) (pp_principal (tr_peer (pt_record p)))).

Definition validate_grant (p : PeerTrust) (grant : TrustGrant) (principal : Principal) :
    res TrustError.TrustError unit :=
  _ ← trust_active p;
  if negb (eqb (tg_anchor grant) (pt_anchor p)) then Err TrustError.StaleGrant
  else if negb (eqb (tg_principal grant) (pp_principal (tr_peer (pt_record p))))
          || negb (eqb principal (tg_principal grant)) then Err TrustError.Unauthorized
  else Ok tt.

Definition trust_permits (p : PeerTrust) (grant : TrustGrant) (principal : Principal) : bool :=
  match validate_grant p grant principal with Ok _ => true | _ => false end.

(** A completed session is known here by its two principals. *)
Definition accept_session {Session : Type} (session_principal session_local : Session → Principal)
    (p : PeerTrust) (grant : TrustGrant) (session : Session) : res TrustError.TrustError Session :=
  _ ← validate_grant p grant (session_principal session);
  if negb (eqb (session_local session) (tr_local (pt_record p))) then Err TrustError.IdentityMismatch
  else Ok session.

End Trust.
Arguments TrustState {E} e.
Arguments TrustPersistence {E} e.

(** * Theorems on trust

    The durable store is a compare-and-swap register of anchors with a log of
    the records committed to it.  A run of the device interleaves installations,
    replacements and revocations whose commits may fail with or without effect,
    restarts, restorations from arbitrary record files, and the issuing of
    grants.  In every reachable state a grant is honoured only while nothing was
    committed since it was issued, and only for the enabled peer of the latest
    committed record, unless that record and the policy's collide. *)

Section Laws.
Context `{Target} `{P : P256} `{HP : !P256Laws P} `{B : Blake3} `{HB : !Blake3Laws B}.

(** ** Well-formed values *)
Definition arr32 (bs : list Z) : Prop := length bs = 32%nat ∧ bytes_ok bs.
Definition peer_ok (p : PinnedPeer) : Prop := ∃ pk kid, in_u 8 kid ∧ from_key pk kid = Ok p.
Definition identity_ok (i : Identity) : Prop :=
  ∃ bs kid, in_u 8 kid ∧ from_private_key bs kid = Ok i.
Definition record_ok (r : TrustRecord) : Prop :=
  arr32 (tr_store r) ∧ in_u 64 (tr_generation r) ∧ 0 < tr_generation r ∧ arr32 (tr_local r) ∧
  peer_ok (tr_peer r).

Lemma peer_ok_inv p : peer_ok p → ∃ pk kid x y, in_u 8 kid ∧ pins pk kid x y p.
Proof. intros (pk & kid & Hk & (x & y & Hp)%from_key_inv). by exists pk, kid, x, y. Qed.

Lemma identity_peer_ok i : identity_ok i → peer_ok (id_peer i).
Proof.
  intros (bs & kid & Hk & Hi). unfold from_private_key in Hi. unbind.
  destruct (secret_from_slice bs) as [sk|]; [|done]. simpl in Hi.
  destruct (from_key (secret_public_key sk) kid) as [p|e| |] eqn:Ek; try done.
  injection Hi as <-. exists (secret_public_key sk), kid. by split.
Qed.

Lemma peer_principal_arr p : peer_ok p → arr32 (pp_principal p).
Proof.
  intros (pk & kid & x & y & _ & _ & _ & _ & _ & _ & _ & _ & ->)%peer_ok_inv.
  split; [apply digest_length|apply digest_bytes].
Qed.

Lemma record_ok_intro s g l p e :
  arr32 s → in_u 64 g → 0 < g → arr32 l → peer_ok p → record_ok (mk_trust s g l p e).
Proof. intros. unfold record_ok. simpl. auto. Qed.

(** The exported key and identifier of a valid pin. *)
Definition peer_key (p : PinnedPeer) : list Z :=
  match peer_public_key (E:=unit) p with Ok k => k | _ => [] end.
Definition peer_kid_of (p : PinnedPeer) : Z := match peer_kid (E:=unit) p with Ok k => k | _ => 0 end.

Lemma peer_ok_export {E} p : peer_ok p →
  peer_public_key (E:=E) p = Ok (peer_key p) ∧ peer_kid (E:=E) p = Ok (peer_kid_of p) ∧
  length (peer_key p) = 65%nat ∧ bytes_ok (peer_key p) ∧ in_u 8 (peer_kid_of p) ∧
  from_public_key (peer_key p) (peer_kid_of p) = Ok p.
Proof.
  intros (pk & kid & x & y & Hk & Hp)%peer_ok_inv.
  pose proof Hp as (Ex & Ey & Hx & Hy & Ox & Oy & Hd & ->). unfold peer_key, peer_kid_of.
  rewrite !peer_of_public_key, !peer_of_kid by done. repeat (split; [done|]).
  split; [simpl; rewrite length_app; lia|]. split.
  { apply bytes_ok_cons. split; [done|]. by apply bytes_ok_app. }
  split; [done|]. rewrite from_public_key_eq, Hd. by apply from_key_coords.
Qed.

Lemma from_public_key_ok key kid p : in_u 8 kid → length key = 65%nat →
  from_public_key key kid = Ok p → peer_ok p.
Proof.
  intros Hk Hl HE. rewrite from_public_key_eq in HE. destruct (from_sec1_bytes key) as [pk|]; [|done].
  by exists pk, kid.
Qed.

Lemma from_public_key_kid key kid p : from_public_key key kid = Ok p → peer_kid_of p = kid.
Proof.
  rewrite from_public_key_eq. destruct (from_sec1_bytes key) as [pk|]; [|done].
  intros (x & y & _ & _ & Hx & Hy & _ & _ & _ & ->)%from_key_inv.
  unfold peer_kid_of. by rewrite peer_of_kid.
Qed.

Lemma from_public_key_key key kid p :
  length key = 65%nat → from_public_key key kid = Ok p → peer_key p = key.
Proof.
  intros Lk. rewrite from_public_key_eq. destruct (from_sec1_bytes key) as [pk|] eqn:Es; [|done].
  intros (x & y & Ex & Ey & Hx & Hy & _ & _ & _ & ->)%from_key_inv. unfold peer_key.
  rewrite peer_of_public_key by done. symmetry. by eapply sec1_uncompressed.
Qed.

Lemma from_public_key_returns key kid : returns (from_public_key key kid).
Proof.
  rewrite from_public_key_eq. destruct (from_sec1_bytes key) as [pk|]; [|done].
  by destruct (from_key_ok pk kid) as (x & y & p & -> & _).
Qed.

Lemma zero32_neqb `{dec : !EqDecision (list Z)} bs : bs ≠ zero32 → eqb bs zero32 = false.
Proof. intros Hn. by apply bool_decide_eq_false. Qed.

(** ** The bytes a record digest covers *)
Definition record_bytes (r : TrustRecord) (key : list Z) (kid : Z) : list Z :=
  [RECORD_VERSION] ++ tr_store r ++ be_bytes 8 (tr_generation r) ++ tr_local r ++ key ++
  [kid; bool_byte (tr_enabled r)].

Lemma trust_anchor_eq {E} r : record_ok r →
  ∃ key kid, length key = 65%nat ∧ peer_public_key (E:=E) (tr_peer r) = Ok key ∧
    peer_kid (E:=E) (tr_peer r) = Ok kid ∧
    trust_anchor (E:=E) r = Ok (mk_anchor (tr_store r) (tr_generation r)
      (derive_key RECORD_DOMAIN (record_bytes r key kid))).
Proof.
  intros (_ & _ & _ & _ & Hp). apply peer_ok_inv in Hp as (pk & kid & x & y & _ & Hp).
  destruct Hp as (_ & _ & Hx & Hy & _ & _ & _ & Hp). exists (4 :: x ++ y), kid.
  unfold trust_anchor. rewrite Hp, peer_of_public_key, peer_of_kid by done.
  split; [simpl; rewrite length_app; lia|]. done.
Qed.

Lemma be64_inj x y : in_u 64 x → in_u 64 y → be_bytes 8 x = be_bytes 8 y → x = y.
Proof.
  intros Hx Hy HE. apply (f_equal from_be) in HE. rewrite !from_be_bytes in HE.
  by rewrite !Z.mod_small in HE.
Qed.

(** Different records have different bytes. *)
Lemma record_bytes_inj r r' key kid key' kid' :
  record_ok r → record_ok r' → length key = 65%nat → length key' = 65%nat →
  record_bytes r key kid = record_bytes r' key' kid' →
  tr_store r = tr_store r' ∧ tr_generation r = tr_generation r' ∧ tr_local r = tr_local r' ∧
  key = key' ∧ kid = kid' ∧ tr_enabled r = tr_enabled r'.
Proof.
  intros ((Ls & _) & Hg & _ & (Ll & _) & _) ((Ls' & _) & Hg' & _ & (Ll' & _) & _) Hk Hk'.
  unfold record_bytes. intros HE. apply app_inj_1 in HE as [_ HE]; [|done].
  apply app_inj_1 in HE as [-> HE]; [|lia].
  apply app_inj_1 in HE as [Eg HE]; [|by rewrite !length_be_bytes]. apply be64_inj in Eg as ->; [|done..].
  apply app_inj_1 in HE as [-> HE]; [|lia]. apply app_inj_1 in HE as [-> HE]; [|lia].
  injection HE as -> HE. repeat split. by destruct (tr_enabled r), (tr_enabled r').
Qed.

(** The input of a record's digest, and its anchor. *)
Definition record_input (r : TrustRecord) : list Z :=
  record_bytes r (peer_key (tr_peer r)) (peer_kid_of (tr_peer r)).
Definition anchor_of (r : TrustRecord) : TrustAnchor :=
  mk_anchor (tr_store r) (tr_generation r) (derive_key RECORD_DOMAIN (record_input r)).

Lemma trust_anchor_of {E} r : record_ok r → trust_anchor (E:=E) r = Ok (anchor_of r).
Proof.
  intros (_ & _ & _ & _ & Hp). destruct (peer_ok_export (E:=E) _ Hp) as (Hk & Hi & _).
  unfold trust_anchor. by rewrite Hk, Hi.
Qed.

Lemma record_input_inj r r' : record_ok r → record_ok r' → record_input r = record_input r' → r = r'.
Proof.
  intros Hr Hr' HE. pose proof Hr as (_ & _ & _ & _ & Hp). pose proof Hr' as (_ & _ & _ & _ & Hp').
  destruct (peer_ok_export (E:=unit) _ Hp) as (_ & _ & Lk & _ & _ & Hf).
  destruct (peer_ok_export (E:=unit) _ Hp') as (_ & _ & Lk' & _ & _ & Hf').
  apply record_bytes_inj in HE as (? & ? & ? & Ek & Ei & ?); [|done..].
  rewrite Ek, Ei, Hf' in Hf. injection Hf as Hf. destruct r, r'. simpl in *. congruence.
Qed.

(** The digests of two different records are the same. *)
Definition Collides (r r' : TrustRecord) : Prop :=
  record_input r ≠ record_input r' ∧
  derive_key RECORD_DOMAIN (record_input r) = derive_key RECORD_DOMAIN (record_input r').

Lemma trust_anchor_inj {E} r r' a : record_ok r → record_ok r' →
  trust_anchor (E:=E) r = Ok a → trust_anchor (E:=E) r' = Ok a → r = r' ∨ Collides r r'.
Proof.
  intros Hr Hr'. rewrite !trust_anchor_of by done. intros [= <-] [= _ _ Ed].
  destruct (decide (record_input r = record_input r')); [left; by apply record_input_inj|by right].
Qed.

Lemma trust_anchor_fields {E} r a : record_ok r → trust_anchor (E:=E) r = Ok a →
  ta_store a = tr_store r ∧ ta_generation a = tr_generation r.
Proof.
  intros Hr HE. destruct (trust_anchor_eq (E:=E) r Hr) as (? & ? & _ & _ & _ & Ha).
  rewrite Ha in HE. by injection HE as <-.
Qed.

(** The anchor does not depend on the error type it is computed in. *)
Lemma trust_anchor_any {E F} r a : record_ok r →
  trust_anchor (E:=E) r = Ok a → trust_anchor (E:=F) r = Ok a.
Proof.
  intros Hr HE. destruct Hr as (_ & _ & _ & _ & Hp).
  apply peer_ok_inv in Hp as (pk & kid & x & y & _ & _ & _ & Hx & Hy & _ & _ & _ & Hp).
  revert HE. unfold trust_anchor. rewrite Hp, !peer_of_public_key, !peer_of_kid by done. unbind.
  by intros [= <-].
Qed.

(** ** The durable authority *)

(** The anchor a trusted authority holds, and what was committed to it, newest
    first. *)
Record durable : Type := mk_durable { du_anchor : TrustAnchor; du_log : list TrustRecord }.

Definition committed (d : durable) (record : TrustRecord) (anchor : TrustAnchor) : durable :=
  mk_durable anchor (record :: du_log d).

(** The documented contract of the commit callback: success is a completed
    compare-and-swap; any other outcome leaves the store as it was or is a swap
    whose acknowledgement was lost. *)
Definition cas {E} (commit : TrustAnchor → TrustRecord → TrustAnchor → durable → durable * res E unit) :
    Prop :=
  ∀ expected record anchor d,
    match commit expected record anchor d with
    | (d', Ok _) => expected = du_anchor d ∧ d' = committed d record anchor
    | (d', _) => d' = d ∨ (expected = du_anchor d ∧ d' = committed d record anchor)
    end.

(** ** Runs of a device *)

(** The authority, the live policy, and every grant ever issued with the number
    of commits at that moment. *)
Record world : Type := mk_world {
  w_store : durable;
  w_policy : option PeerTrust;
  w_grants : list (TrustGrant * nat)
}.

Inductive wstep : world → world → Prop :=
  | step_install E (commit : _ → _ → _ → durable → durable * res E unit) d g identity peer d' r :
      cas commit → identity_ok identity → peer_ok peer →
      trust_install commit identity peer (du_anchor d) d = (d', r) →
      wstep (mk_world d None g) (mk_world d' (res_ok r) g)
  | step_restore d g identity record o :
      identity_ok identity → record_ok record →
      wstep (mk_world d o g)
        (mk_world d (res_ok (trust_restore identity record (du_anchor d))) g)
  | step_replace E (commit : _ → _ → _ → durable → durable * res E unit) d g p identity peer enabled
      p' d' r :
      cas commit → identity_ok identity → peer_ok peer →
      trust_replace commit identity peer enabled (p, d) = ((p', d'), r) →
      wstep (mk_world d (Some p) g) (mk_world d' (Some p') g)
  | step_revoke E (commit : _ → _ → _ → durable → durable * res E unit) d g p p' d' r :
      cas commit → trust_revoke commit (p, d) = ((p', d'), r) →
      wstep (mk_world d (Some p) g) (mk_world d' (Some p') g)
  | step_grant d g p identity grant :
      trust_grant p identity = Ok grant →
      wstep (mk_world d (Some p) g) (mk_world d (Some p) ((grant, length (du_log d)) :: g))
  | step_crash d o g : wstep (mk_world d o g) (mk_world d None g).

Inductive reachable : world → Prop :=
  | reach_genesis store a :
      arr32 store → anchor_genesis store = Ok a →
      reachable (mk_world (mk_durable a []) None [])
  | reach_step w w' : reachable w → wstep w w' → reachable w'.

(** ** The invariant *)
Definition store_inv (d : durable) : Prop :=
  arr32 (ta_store (du_anchor d)) ∧ ta_generation (du_anchor d) = Z.of_nat (length (du_log d)) ∧
  match du_log d with
  | [] => True
  | r :: _ => record_ok r ∧ trust_anchor (E:=unit) r = Ok (du_anchor d)
  end.

(** An unblocked policy is the latest committed one, as far as anchors tell. *)
Definition policy_inv (d : durable) (p : PeerTrust) : Prop :=
  record_ok (pt_record p) ∧ trust_anchor (E:=unit) (pt_record p) = Ok (pt_anchor p) ∧
  (pt_blocked p = false → pt_anchor p = du_anchor d).

Definition grants_inv (d : durable) (g : list (TrustGrant * nat)) : Prop :=
  Forall (fun '(grant, n) => ta_generation (tg_anchor grant) = Z.of_nat n ∧
    (n ≤ length (du_log d))%nat) g.

Definition world_inv (w : world) : Prop :=
  store_inv (w_store w) ∧ from_option (policy_inv (w_store w)) True (w_policy w) ∧
  grants_inv (w_store w) (w_grants w).

Lemma committed_inv d record anchor :
  store_inv d → record_ok record → trust_anchor (E:=unit) record = Ok anchor →
  tr_generation record = ta_generation (du_anchor d) + 1 → store_inv (committed d record anchor).
Proof.
  intros (_ & Hg & _) Hr Ha Hn. destruct (trust_anchor_fields _ _ Hr Ha) as [Es Eg].
  split; [|split; [|done]]; simpl; [rewrite Es; apply Hr|]. lia.
Qed.

Lemma grants_mono d d' g :
  (length (du_log d) ≤ length (du_log d'))%nat → grants_inv d g → grants_inv d' g.
Proof. intros Hl Hg. eapply Forall_impl; [exact Hg|]. intros [grant n] [? ?]. split; [done|lia]. Qed.

(** What a commit of the next record does to store and policy, on every outcome. *)
Lemma trust_commit_inv {E} (commit : _ → _ → _ → durable → durable * res E unit) p d record p' d' r :
  cas commit → store_inv d → policy_inv d p → pt_blocked p = false → record_ok record →
  tr_generation record = tr_generation (pt_record p) + 1 →
  trust_commit commit record (p, d) = ((p', d'), r) →
  store_inv d' ∧ policy_inv d' p' ∧ (length (du_log d) ≤ length (du_log d'))%nat.
Proof.
  intros Hc Hs (Hp & Ha & Hb) Hu Hr Hn. unfold trust_commit.
  destruct (trust_anchor_eq (E:=unit) record Hr) as (key & kid & _ & _ & _ & Hra).
  rewrite (trust_anchor_any (F:=TrustCommitError E) _ _ Hr Hra). cbn [pt_anchor pt_record].
  set (anchor := mk_anchor _ _ _) in *. clearbody anchor.
  destruct (trust_anchor_fields _ _ Hp Ha) as [_ Eg].
  assert (store_inv (committed d record anchor)) as Hs'.
  { apply committed_inv; [done..|]. rewrite <- (Hb Hu), Eg. done. }
  specialize (Hc (pt_anchor p) record anchor d).
  destruct (commit (pt_anchor p) record anchor d) as [d1 [[]|e| |]].
  1:{ destruct Hc as [_ ->]. intros [= <- <- _]. split; [done|]. split; [done|]. simpl. lia. }
  all: intros [= <- <- _]; split; [|split]; [|done|]; destruct Hc as [->|[_ ->]]; try done; simpl; lia.
Qed.

Lemma checked_add_next x y : checked_add 64 x 1 = Some y → 0 ≤ x → in_u 64 y ∧ y = x + 1 ∧ 0 < y.
Proof. unfold checked_add, max_u, in_u. case_match; intros [= <-]; bools; lia. Qed.

Lemma replace_inv {E} (commit : _ → _ → _ → durable → durable * res E unit) p d identity peer enabled p' d' r :
  cas commit → store_inv d → policy_inv d p → identity_ok identity → peer_ok peer →
  trust_replace commit identity peer enabled (p, d) = ((p', d'), r) →
  store_inv d' ∧ policy_inv d' p' ∧ (length (du_log d) ≤ length (du_log d'))%nat.
Proof.
  intros Hc Hs Hp Hi Hpeer. unfold trust_replace. unbind. cbn [fst].
  destruct (pt_blocked p) eqn:Eb; [by intros [= <- <- _]|].
  destruct (map_err TrustState (validate_peer identity peer)); try by intros [= <- <- _].
  unfold next_generation. destruct (checked_add 64 _ 1) as [y|] eqn:Ec; [|by intros [= <- <- _]].
  cbn [ok_or map_err]. pose proof Hp as ((Hst & _ & Hg & _) & _).
  apply checked_add_next in Ec as (Hy & Hy' & Hpos); [|lia].
  apply trust_commit_inv; try done. apply record_ok_intro; try done.
  by apply peer_principal_arr, identity_peer_ok.
Qed.

Lemma revoke_inv {E} (commit : _ → _ → _ → durable → durable * res E unit) p d p' d' r :
  cas commit → store_inv d → policy_inv d p →
  trust_revoke commit (p, d) = ((p', d'), r) →
  store_inv d' ∧ policy_inv d' p' ∧ (length (du_log d) ≤ length (du_log d'))%nat.
Proof.
  intros Hc Hs Hp. unfold trust_revoke. unbind. cbn [fst].
  destruct (pt_blocked p) eqn:Eb; [by intros [= <- <- _]|].
  unfold next_generation. destruct (checked_add 64 _ 1) as [y|] eqn:Ec; [|by intros [= <- <- _]].
  cbn [ok_or map_err]. pose proof Hp as ((Hst & _ & Hg & Hl & Hpe) & _).
  apply checked_add_next in Ec as (Hy & Hy' & Hpos); [|lia].
  by apply trust_commit_inv.
Qed.

Lemma trust_install_inv {E} (commit : _ → _ → _ → durable → durable * res E unit) d identity peer d' r :
  cas commit → store_inv d → identity_ok identity → peer_ok peer →
  trust_install commit identity peer (du_anchor d) d = (d', r) →
  store_inv d' ∧ from_option (policy_inv d') True (res_ok r) ∧
  (length (du_log d) ≤ length (du_log d'))%nat.
Proof.
  intros Hc Hs Hi Hp. unfold trust_install.
  destruct (ta_generation (du_anchor d) =? 0) eqn:Eg; bools; simpl; [|by intros [= <- <-]]. unbind.
  destruct (map_err TrustState (validate_peer identity peer)); try by intros [= <- <-].
  set (record := mk_trust _ _ _ _ _). assert (record_ok record) as Hr.
  { apply record_ok_intro; try done; [apply Hs|by apply peer_principal_arr, identity_peer_ok]. }
  destruct (trust_anchor_eq (E:=unit) record Hr) as (key & kid & _ & _ & _ & Hra).
  rewrite (trust_anchor_any (F:=TrustCommitError E) _ _ Hr Hra).
  set (anchor := mk_anchor _ _ _) in *. clearbody anchor.
  assert (store_inv (committed d record anchor)) as Hs' by (apply committed_inv; [done..|]; simpl; lia).
  specialize (Hc (du_anchor d) record anchor d). unfold st_map_err.
  destruct (commit (du_anchor d) record anchor d) as [d1 [[]|e| |]]; simpl.
  1:{ destruct Hc as [_ ->]. intros [= <- <-]. split; [done|]. split; [done|]. simpl. lia. }
  all: intros [= <- <-]; destruct Hc as [->|[_ ->]]; split; try done; split; try done; simpl; lia.
Qed.

Lemma restore_inv d identity record : record_ok record →
  from_option (policy_inv d) True (res_ok (trust_restore identity record (du_anchor d))).
Proof.
  intros Hr. unfold trust_restore. unbind.
  destruct (trust_anchor_eq (E:=unit) record Hr) as (key & kid & _ & _ & _ & Hra).
  rewrite (trust_anchor_any (F:=TrustError.TrustError) _ _ Hr Hra).
  destruct (eqb _ (du_anchor d)) eqn:Ea; bools; simpl; [|done]. rewrite Ea in Hra.
  by destruct (validate_identity identity record).
Qed.

Lemma wstep_inv w w' : world_inv w → wstep w w' → world_inv w'.
Proof.
  intros (Hs & Hp & Hg) Hstep. destruct Hstep; simpl in *.
  - edestruct (trust_install_inv commit) as (? & ? & ?); [done..|].
    split; [done|]. split; [done|]. by eapply grants_mono.
  - split; [done|]. split; [by apply restore_inv|done].
  - edestruct (replace_inv commit) as (? & ? & ?); [done..|].
    split; [done|]. split; [done|]. by eapply grants_mono.
  - edestruct (revoke_inv commit) as (? & ? & ?); [done..|].
    split; [done|]. split; [done|]. by eapply grants_mono.
  - split; [done|]. split; [done|]. apply Forall_cons. split; [|done]. split; [|done].
    unfold trust_grant, trust_active in *. unbind. destruct (pt_blocked p) eqn:Eb; [done|].
    destruct (tr_enabled (pt_record p)); [|done]. simpl in *.
    destruct (validate_identity identity (pt_record p)); simplify_eq/=.
    destruct Hp as (_ & _ & Hp). rewrite Hp by done. apply Hs.
  - by split.
Qed.

Lemma trust_reachable_inv w : reachable w → world_inv w.
Proof.
  induction 1 as [store a Hs Ha|w w' _ IH Hst]; [|by eapply wstep_inv].
  unfold anchor_genesis, anchor_from_parts in Ha. destruct (eqb store zero32); [done|].
  destruct (_ && _); simplify_eq. split; [|by repeat constructor]. by split.
Qed.

(** A grant the policy permits carries its anchor and the enabled peer's principal. *)
Lemma permits_inv p grant principal : trust_permits p grant principal = true →
  pt_blocked p = false ∧ tr_enabled (pt_record p) = true ∧ tg_anchor grant = pt_anchor p ∧
  tg_principal grant = principal ∧ principal = pp_principal (tr_peer (pt_record p)).
Proof.
  unfold trust_permits, validate_grant, trust_active. unbind.
  destruct (pt_blocked p); [done|]. destruct (tr_enabled (pt_record p)); [|done]. simpl.
  destruct (eqb (tg_anchor grant) _) eqn:E1; [|done]. simpl. destruct (_ || _) eqn:E2; [done|].
  intros _. bools. repeat split; congruence.
Qed.

Lemma grant_permits p identity grant : trust_grant p identity = Ok grant →
  trust_permits p grant (pp_principal (tr_peer (pt_record p))) = true.
Proof.
  unfold trust_grant, trust_permits, validate_grant. unbind. destruct (trust_active p); try done.
  destruct (validate_identity identity (pt_record p)); try done. intros [= <-]. simpl.
  unfold eqb. by rewrite !bool_decide_eq_true_2.
Qed.

(** C15: trust cannot outlive a change.  Along any run of the device, with
    commits that fail ambiguously, restarts and record files replaced at will, a
    live policy that permits a grant has nothing committed to the authority since
    that grant was issued, and the principal it permits is the enabled peer of
    the record committed last, or else that record and the policy's own are
    different inputs with the same digest; and
    a grant just issued is permitted for the peer it names. *)
Theorem trust_current (w : world) (p : PeerTrust) :
  reachable w → w_policy w = Some p →
  (∀ grant n principal, (grant, n) ∈ w_grants w → trust_permits p grant principal = true →
    n = length (du_log (w_store w)) ∧
    ∃ r older, du_log (w_store w) = r :: older ∧
      ((tr_enabled r = true ∧ principal = pp_principal (tr_peer r)) ∨ Collides (pt_record p) r)) ∧
  (∀ identity grant, trust_grant p identity = Ok grant →
    trust_permits p grant (pp_principal (tr_peer (pt_record p))) = true).
Proof.
  intros Hw Hp. apply trust_reachable_inv in Hw as ((_ & Hgen & Hlog) & Hpol & Hg). rewrite Hp in Hpol.
  destruct Hpol as (Hr & Ha & Hb). split; [|intros; by eapply grant_permits].
  intros grant n principal Hin Hperm. apply permits_inv in Hperm as (Hu & Hen & Hanc & _ & ->).
  unfold grants_inv in Hg. rewrite Forall_forall in Hg. apply Hg in Hin as [Hn _].
  rewrite Hanc, (Hb Hu), Hgen in Hn. split; [lia|]. rewrite (Hb Hu) in Ha.
  destruct (du_log (w_store w)) as [|r older].
  - destruct (trust_anchor_fields _ _ Hr Ha) as [_ Eg]. destruct Hr as (_ & _ & Hpos & _).
    simpl in Hgen. lia.
  - destruct Hlog as [Hr' Ha']. exists r, older. split; [done|].
    destruct (trust_anchor_inj _ _ _ Hr Hr' Ha Ha') as [Hrr|]; [|by right]. left. by rewrite <- Hrr.
Qed.

End Laws.

(** ** Witness

    Install, grant, restart, restore, and the grant is still honoured; then a
    revocation is committed with its acknowledgement lost. *)
#[local] Existing Instance target64.
#[local] Existing Instances Sample.curve Sample.curve_laws Sample.digest Sample.digest_laws.

Lemma sample_arr32 b : in_u 8 b → arr32 (replicate 32 b).
Proof. intros Hb. split; [apply length_replicate|by apply Forall_replicate]. Qed.

Definition sample_commit (expected : TrustAnchor) (record : TrustRecord) (anchor : TrustAnchor)
    (d : durable) : durable * res unit unit :=
  if eqb expected (du_anchor d) then (committed d record anchor, Ok tt) else (d, Err tt).

Lemma sample_commit_cas : cas sample_commit.
Proof.
  intros e r a d. unfold sample_commit. destruct (eqb e (du_anchor d)) eqn:E1; bools; [done|by left].
Qed.

Lemma sample_ok {E A} (r : res E A) : is_Some (res_ok r) → ∃ a, r = Ok a.
Proof. destruct r; simpl; intros [? ?]; try done. eauto. Qed.

Definition unwrap {E A} (r : res E A) (d : A) : A := match r with Ok a => a | _ => d end.

Definition sample_peer (k : Sample.key) (kid : Z) : PinnedPeer :=
  peer_of kid (Sample.key_x k) (Sample.key_y k).
Definition sample_identity (k : Sample.key) (kid : Z) : Identity :=
  mk_identity (P:=Sample.curve) k (sample_peer k kid).

Lemma sample_peer_ok k kid : in_u 8 kid → peer_ok (sample_peer k kid).
Proof. intros Hk. exists k, kid. split; [done|]. by apply from_key_coords; destruct k. Qed.

Lemma sample_identity_ok k kid : in_u 8 kid → identity_ok (sample_identity k kid).
Proof.
  intros Hk. exists (Sample.key_x k), kid. split; [done|].
  unfold from_private_key. assert (secret_from_slice (Sample.key_x k) = Some k) as -> by by destruct k.
  unbind. cbn [ok_or].
  assert (from_key (secret_public_key k) kid = Ok (sample_peer k kid)) as Hf
    by (by apply from_key_coords; destruct k).
  by rewrite Hf.
Qed.

Definition sample_genesis : durable := mk_durable (mk_anchor (replicate 32 5) 0 zero32) [].
Definition sample_installed : durable * res (TrustCommitError unit) PeerTrust :=
  trust_install sample_commit (sample_identity Sample.KA 1) (sample_peer Sample.KB 2)
    (du_anchor sample_genesis) sample_genesis.
Definition sample_policy : PeerTrust :=
  unwrap sample_installed.2
    (mk_policy (mk_trust [] 0 [] (sample_peer Sample.KB 2) true) (mk_anchor [] 0 []) true).
Definition sample_grant : TrustGrant :=
  unwrap (trust_grant sample_policy (sample_identity Sample.KA 1)) (mk_grant (mk_anchor [] 0 []) []).
Definition sample_world : world :=
  mk_world sample_installed.1 (Some sample_policy) [(sample_grant, length (du_log sample_installed.1))].

Lemma sample_reachable : reachable sample_world.
Proof.
  assert (reachable (mk_world sample_installed.1 (Some sample_policy) [])) as Hi.
  { eapply reach_step; [apply (reach_genesis (replicate 32 5)); [by repeat constructor|done]|].
    replace (Some sample_policy) with (res_ok sample_installed.2) by (vm_compute; reflexivity).
    eapply step_install; [apply sample_commit_cas|apply (sample_identity_ok Sample.KA 1); by split
      |apply (sample_peer_ok Sample.KB 2); by split|]. vm_compute. reflexivity. }
  eapply reach_step; [exact Hi|]. unfold sample_world. eapply (step_grant _ _ _ (sample_identity Sample.KA 1)).
  vm_compute. reflexivity.
Qed.

Lemma trust_current_witness :
  trust_permits sample_policy sample_grant (pp_principal (sample_peer Sample.KB 2)) = true ∧
  1%nat = length (du_log (w_store sample_world)).
Proof.
  assert (trust_permits sample_policy sample_grant (pp_principal (sample_peer Sample.KB 2)) = true)
    as Hp by (vm_compute; reflexivity).
  split; [exact Hp|].
  destruct (trust_current sample_world sample_policy sample_reachable eq_refl) as [Hc _].
  refine (proj1 (Hc sample_grant 1%nat _ _ Hp)). apply list_elem_of_singleton. reflexivity.
Defined.
