(* ===== verification/Receipt.v ===== *)
(** * Receipts of durable operations

    [provisioning/receipt.rs]: operations a device wants applied once, the
    receipt a service returns for one, and the commit that checks the grant and
    what the provider answers.  The provider is the class [ReceiptStore]; its
    documented contract is [ReceiptLaws].  A service commits operations of many
    devices, again after every lost answer, under a policy that changes; the
    theorem says what an accepted receipt means to its device. *)
From Stdlib Require Import String.
From S2P Require Import Prelude.
From S2P Require Import LakersCred.
From S2P Require Import Credential.
From S2P Require Import Trust.

Open Scope list_scope.
Open Scope Z_scope.

Definition OPERATION_DOMAIN : string := "coaptic telemetry operation v1".
Definition MAX_PAYLOAD : nat := 1024.

Module ReceiptError.
Inductive ReceiptError (E : Type) : Type :=
  | Capacity | Unauthorized | Conflict | InvalidReceipt | Persistence (e : E).
End ReceiptError.
Arguments ReceiptError.Capacity {E}.
Arguments ReceiptError.Unauthorized {E}.
Arguments ReceiptError.Conflict {E}.
Arguments ReceiptError.InvalidReceipt {E}.
Arguments ReceiptError.Persistence {E} e.
Abbreviation receipt_error := ReceiptError.ReceiptError.

(** Sixteen bytes. *)
Definition OperationId : Type := list Z.
Record TelemetryOperation : Type := mk_operation {
  to_id : OperationId;
  to_resource : list Z;
  to_content_format : option Z;
  to_payload : list Z;
  to_digest : list Z
}.
Record Receipt : Type := mk_receipt { rc_id : OperationId; rc_digest : list Z; rc_sequence : Z }.
#[export] Instance Receipt_eq_dec : EqDecision Receipt.
Proof. solve_decision. Defined.

Definition receipt_from_parts (id : OperationId) (digest : list Z) (sequence : Z) : option Receipt :=
  if sequence =? 0 then None else Some (mk_receipt id digest sequence).
Definition receipt_encode {E} (r : Receipt) : res E (list Z) :=
  bytes ← copy_into 0 16 (rc_id r) (replicate 56 0);
  bytes ← copy_into 16 48 (rc_digest r) bytes;
  copy_into 48 56 (be_bytes 8 (rc_sequence r)) bytes.
(** The slices have the lengths of their arrays, so that no conversion fails. *)
Definition receipt_decode {E} (bytes : list Z) : res E (option Receipt) :=
  if negb (length bytes =? 56)%nat then mret None
  else
    id ← slice_idx bytes 0 16;
    digest ← slice_idx bytes 16 48;
    sequence ← slice_idx bytes 48 (length bytes);
    mret (receipt_from_parts id digest (from_be sequence)).

Definition matches_receipt (op : TelemetryOperation) (r : Receipt) : bool := eqb (rc_id r) (to_id op) && eqb (rc_digest r) (to_digest op).
Definition accept_receipt {E} (op : TelemetryOperation) (payload : list Z) : res (receipt_error E) Receipt :=
  decoded ← receipt_decode payload;
  match decoded with
  | Some receipt => if matches_receipt op receipt then Ok receipt else Err ReceiptError.InvalidReceipt
  | None => Err ReceiptError.InvalidReceipt
  end.

Section Operations.
Context `{B : Blake3}.

(** What the hasher is fed with. *)
Definition operation_input (resource : list Z) (content_format : option Z) (payload : list Z) : list Z :=
  resource ++ (match content_format with Some value => [1] ++ be_bytes 2 value | None => [0] end)
  ++ be_bytes 8 (Z.of_nat (length payload)) ++ payload.
Definition operation_new {E} (id : OperationId) (resource : list Z) (content_format : option Z) (payload : list Z)
    : res (receipt_error E) TelemetryOperation :=
  if (MAX_PAYLOAD <? length payload)%nat then Err ReceiptError.Capacity
  else Ok (mk_operation id resource content_format payload (derive_key OPERATION_DOMAIN (operation_input resource content_format payload))).
End Operations.

(** ** The provider *)
Class ReceiptStore (S E : Type) : Type := {
  store_commit : TrustAnchor → Principal → TelemetryOperation → st S (receipt_error E) Receipt
}.

Section Commit.
Context {S E : Type} `{ReceiptStore S E}.

Definition commit_telemetry (trust : PeerTrust) (grant : TrustGrant) (op : TelemetryOperation) : st S (receipt_error E) Receipt :=
  if negb (trust_permits trust grant (tg_principal grant)) then st_fail ReceiptError.Unauthorized
  else
    receipt ← store_commit (tg_anchor grant) (tg_principal grant) op;
    if negb (matches_receipt op receipt) then st_fail ReceiptError.InvalidReceipt else mret receipt.
End Commit.

(** An effect the provider has applied and made durable. *)
Record Effect : Type := mk_effect { ef_principal : Principal; ef_operation : TelemetryOperation; ef_sequence : Z }.
Definition effect_for (p : Principal) (id : OperationId) (e : Effect) : bool := eqb (ef_principal e) p && eqb (to_id (ef_operation e)) id.
(** The effects of one operation of one principal. *)
Definition effects_for (p : Principal) (id : OperationId) (l : list Effect) : list Effect := List.filter (effect_for p id) l.

Definition receipt_of (e : Effect) : Receipt := mk_receipt (to_id (ef_operation e)) (to_digest (ef_operation e)) (ef_sequence e).

(** The contract: the anchor and the resource are checked against the current
    policy; a name is applied once for each principal, with its receipt, or found
    applied; and only a failure to persist leaves open whether a new operation
    was applied.  That the content found is the one asked for is left to
    [commit_telemetry]. *)
Class ReceiptLaws (S E : Type) `{ReceiptStore S E} : Type := {
  store_anchor : S → TrustAnchor;
  store_allows : S → Principal → list Z → bool;
  store_effects : S → list Effect;
  store_commit_spec s anchor principal op :
    let '(s', r) := store_commit (E:=E) anchor principal op s in
    let allowed := anchor = store_anchor s ∧ store_allows s principal (to_resource op) = true in
    let applied seq := in_u 64 seq ∧ seq ≠ 0 ∧ effects_for principal (to_id op) (store_effects s) = [] ∧
      store_effects s' = mk_effect principal op seq :: store_effects s in
    store_anchor s' = store_anchor s ∧ (∀ p x, store_allows s' p x = store_allows s p x) ∧
    match r with
    | Ok receipt => allowed ∧ ∃ e, receipt = receipt_of e ∧
        (e = mk_effect principal op (ef_sequence e) ∧ applied (ef_sequence e) ∨
         store_effects s' = store_effects s ∧ effects_for principal (to_id op) (store_effects s) = [e])
    | Err (ReceiptError.Persistence _) => store_effects s' = store_effects s ∨ (allowed ∧ ∃ seq, applied seq)
    | Err _ => store_effects s' = store_effects s
    | _ => False
    end
}.

Section Service.
Context `{B : Blake3} `{HB : !Blake3Laws B} {S E : Type} `{ReceiptStore S E} `{!ReceiptLaws S E}.
Implicit Types (op : TelemetryOperation) (p : Principal) (l : list Effect).

(** ** Values of the program's types *)
Definition built op : Prop := length (to_id op) = 16%nat ∧ bytes_ok (to_id op) ∧ length (to_resource op) = 32%nat ∧
  (∀ f, to_content_format op = Some f → in_u 16 f) ∧
  operation_new (E:=E) (to_id op) (to_resource op) (to_content_format op) (to_payload op) = Ok op.
Definition input_of op : list Z := operation_input (to_resource op) (to_content_format op) (to_payload op).
Lemma built_digest op : built op → to_digest op = derive_key OPERATION_DOMAIN (input_of op) ∧ (length (to_payload op) ≤ MAX_PAYLOAD)%nat.
Proof.
  intros (_ & _ & _ & _ & Hn). unfold operation_new in Hn. destruct (Nat.ltb_spec MAX_PAYLOAD (length (to_payload op))); [done|].
  apply (f_equal (fun r => match r with Ok o => to_digest o | _ => [] end)) in Hn. by cbn in Hn.
Qed.
Lemma be16_inj x y : in_u 16 x → in_u 16 y → be_bytes 2 x = be_bytes 2 y → x = y.
Proof. intros Hx Hy E'. apply (f_equal from_be) in E'. rewrite !from_be_bytes in E'. unfold in_u in *. by rewrite !Z.mod_small in E' by lia. Qed.
(** The commitment has one reading. *)
Lemma operation_input_inj op op' : built op → built op' → input_of op = input_of op' → to_id op = to_id op' → op = op'.
Proof.
  intros Hb Hb' E1 Hid. destruct (built_digest _ Hb) as [Hd Hp], (built_digest _ Hb') as [Hd' Hp'].
  assert (to_digest op = to_digest op') as Hdd by congruence. destruct Hb as (_ & _ & Hr & Hf & _), Hb' as (_ & _ & Hr' & Hf' & _).
  unfold input_of, operation_input in E1. apply app_inj_1 in E1 as [Er E1]; [|congruence].
  assert (∀ a b, (length a ≤ MAX_PAYLOAD)%nat → (length b ≤ MAX_PAYLOAD)%nat →
    be_bytes 8 (Z.of_nat (length a)) ++ a = be_bytes 8 (Z.of_nat (length b)) ++ b → a = b) as Htail.
  { intros a b _ _ Ht. apply app_inj_1 in Ht as [_ ->]; [done|by rewrite !length_be_bytes]. }
  destruct op as [i r f pl d], op' as [i' r' f' pl' d']; cbn [to_id to_resource to_content_format to_payload to_digest] in *; subst.
  destruct f as [f|], f' as [f'|]; try done.
  - rewrite <- !app_assoc in E1. apply app_inv_head in E1. apply app_inj_1 in E1 as [Ef E1]; [|by rewrite !length_be_bytes].
    apply be16_inj in Ef as ->; [|by apply Hf|by apply Hf']. by rewrite (Htail _ _ Hp Hp' E1).
  - apply app_inv_head in E1. by rewrite (Htail _ _ Hp Hp' E1).
Qed.

(** ** The bytes of a receipt *)
Definition receipt_ok (r : Receipt) : Prop := length (rc_id r) = 16%nat ∧ length (rc_digest r) = 32%nat ∧ in_u 64 (rc_sequence r) ∧ rc_sequence r ≠ 0.
Definition receipt_wire (r : Receipt) : list Z := rc_id r ++ rc_digest r ++ be_bytes 8 (rc_sequence r).
Lemma receipt_encodes {F} r : receipt_ok r → receipt_encode (E:=F) r = Ok (receipt_wire r).
Proof.
  intros (Hi & Hd & _ & _). unfold receipt_encode. pose proof (length_be_bytes 8 (rc_sequence r)) as Hq.
  assert (∀ src : list Z, (length src ≤ 56)%nat → length (splice (replicate 56 0) 0 src) = 56%nat) as Hlen
    by (intros src ?; rewrite length_splice; rewrite length_replicate; lia).
  rewrite copy_into_ok by (rewrite ?length_replicate; lia). unbind.
  rewrite copy_into_ok by (rewrite ?Hlen; lia). rewrite splice_splice by (rewrite ?length_replicate; lia).
  rewrite copy_into_ok by (rewrite ?Hlen, ?length_app; rewrite ?length_app; lia). rewrite splice_splice by (rewrite ?length_app, ?length_replicate; lia).
  unfold splice, receipt_wire. f_equal.
  rewrite take_0, drop_ge by (rewrite !length_app, length_replicate; lia). cbn [app]. by rewrite app_nil_r, <- app_assoc.
Qed.
Lemma receipt_decodes {F} r : receipt_ok r → receipt_decode (E:=F) (receipt_wire r) = Ok (Some r).
Proof.
  intros (Hi & Hd & Hs & Hz). unfold receipt_decode, receipt_wire. rewrite !length_app, length_be_bytes, Hi, Hd. cbn [Nat.add Nat.eqb negb].
  rewrite slice_prefix, take_app_length' by (rewrite ?length_app; lia). unbind. unfold slice_idx. rewrite (slice_get_app (rc_id r) (rc_digest r)) by lia.
  rewrite app_assoc, (slice_get_tail (rc_id r ++ rc_digest r)) by (rewrite ?length_app, ?length_be_bytes; lia).
  rewrite from_be_bytes, Z.mod_small by exact Hs. unfold receipt_from_parts. destruct (Z.eqb_spec (rc_sequence r) 0); [done|]. by destruct r.
Qed.
Lemma receipt_wire_inj r r' : receipt_ok r → receipt_ok r' → receipt_wire r = receipt_wire r' → r = r'.
Proof.
  intros Hr Hr' E1. pose proof (receipt_decodes (F:=unit) r Hr) as D. rewrite E1, receipt_decodes in D by done. by injection D.
Qed.

(** ** Runs of the service *)
Record service : Type := mk_service { sv_store : S; sv_sent : list (Principal * list Z) }.
Inductive sstep : service → service → Prop :=
  | step_commit w trust grant op s' r sent : built op → commit_telemetry trust grant op (sv_store w) = (s', r) →
      match r with Ok receipt => ∃ bytes, receipt_encode (E:=E) receipt = Ok bytes ∧ sent = (tg_principal grant, bytes) :: sv_sent w | _ => sent = sv_sent w end →
      sstep w (mk_service s' sent)
  | step_policy w s' : store_effects s' = store_effects (sv_store w) → sstep w (mk_service s' (sv_sent w)).
Inductive serves : service → Prop :=
  | serves_new s : store_effects s = [] → serves (mk_service s [])
  | serves_step w w' : serves w → sstep w w' → serves w'.

Record service_inv (w : service) : Prop := {
  si_once p id : (length (effects_for p id (store_effects (sv_store w))) ≤ 1)%nat;
  si_effects e : e ∈ store_effects (sv_store w) → built (ef_operation e) ∧ in_u 64 (ef_sequence e) ∧ ef_sequence e ≠ 0;
  si_sent p bytes : (p, bytes) ∈ sv_sent w → ∃ e, e ∈ store_effects (sv_store w) ∧ ef_principal e = p ∧ bytes = receipt_wire (receipt_of e)
}.
Lemma receipt_of_ok e : built (ef_operation e) → in_u 64 (ef_sequence e) → ef_sequence e ≠ 0 → receipt_ok (receipt_of e).
Proof using HB. intros Hb Hs Hz. split; [apply Hb|]. split; [|done]. cbn. rewrite (proj1 (built_digest _ Hb)). apply digest_length. Qed.
Lemma effects_for_elem p id l e : e ∈ effects_for p id l ↔ e ∈ l ∧ ef_principal e = p ∧ to_id (ef_operation e) = id.
Proof.
  unfold effects_for. rewrite list_elem_of_In, filter_In, <- list_elem_of_In. unfold effect_for, eqb. by rewrite andb_true_iff, !bool_decide_eq_true.
Qed.
(** A new effect keeps the invariant; [more] is what is sent for it. *)
Lemma applied_inv w s' p op seq more : service_inv w → built op → in_u 64 seq → seq ≠ 0 →
  effects_for p (to_id op) (store_effects (sv_store w)) = [] → store_effects s' = mk_effect p op seq :: store_effects (sv_store w) →
  (more = [] ∨ more = [(p, receipt_wire (receipt_of (mk_effect p op seq)))]) → service_inv (mk_service s' (more ++ sv_sent w)).
Proof.
  intros [Ho He Hs] Hb Hq Hz Hnone Heff Hmore. split; cbn [sv_store sv_sent].
  - intros p' id. rewrite Heff. unfold effects_for. cbn [List.filter]. destruct (effect_for p' id _) eqn:Ef; [|apply Ho].
    apply andb_true_iff in Ef as [E1%bool_decide_eq_true E2%bool_decide_eq_true]. cbn in E1, E2. subst p' id.
    unfold effects_for in Hnone. by rewrite Hnone.
  - intros e. rewrite Heff. intros [->|Hin]%elem_of_cons; [done|by apply He].
  - intros p' bytes Hin. rewrite Heff. apply elem_of_app in Hin as [Hin|Hin].
    + destruct Hmore as [->| ->]; [by apply not_elem_of_nil in Hin|]. apply list_elem_of_singleton in Hin as [= -> ->].
      exists (mk_effect p op seq). split_and!; [left|done..].
    + destruct (Hs _ _ Hin) as (e & ? & ? & ?). exists e. split_and!; [by right|done..].
Qed.
Lemma same_effects_inv w s' more : service_inv w → store_effects s' = store_effects (sv_store w) →
  (∀ p bytes, (p, bytes) ∈ more → ∃ e, e ∈ store_effects (sv_store w) ∧ ef_principal e = p ∧ bytes = receipt_wire (receipt_of e)) →
  service_inv (mk_service s' (more ++ sv_sent w)).
Proof.
  intros [Ho He Hs] Heff Hmore. split; cbn [sv_store sv_sent]; rewrite ?Heff; [done..|]. intros p bytes [Hin|Hin]%elem_of_app; [by apply Hmore|by apply Hs].
Qed.
(** What a commit returns is the receipt of an effect that is in the store. *)
Lemma commit_inv trust grant op s s' r : commit_telemetry trust grant op s = (s', r) →
  match r with
  | Ok receipt => matches_receipt op receipt = true ∧ ∃ e, receipt = receipt_of e ∧
      (e = mk_effect (tg_principal grant) op (ef_sequence e) ∧ in_u 64 (ef_sequence e) ∧ ef_sequence e ≠ 0 ∧
         effects_for (tg_principal grant) (to_id op) (store_effects s) = [] ∧ store_effects s' = e :: store_effects s
       ∨ store_effects s' = store_effects s ∧ effects_for (tg_principal grant) (to_id op) (store_effects s) = [e])
  | Err _ => store_effects s' = store_effects s ∨ ∃ seq, in_u 64 seq ∧ seq ≠ 0 ∧
      effects_for (tg_principal grant) (to_id op) (store_effects s) = [] ∧ store_effects s' = mk_effect (tg_principal grant) op seq :: store_effects s
  | _ => False
  end.
Proof.
  unfold commit_telemetry. destruct (trust_permits _ _ _); cbn [negb]; [|intros [= <- <-]; by left]. unbind.
  pose proof (store_commit_spec s (tg_anchor grant) (tg_principal grant) op) as Hc. destruct (store_commit _ _ _ s) as [s1 [rc|e| |]].
  - destruct Hc as (_ & _ & _ & e & -> & Hc). destruct (matches_receipt op (receipt_of e)) eqn:Em; cbn [negb]; intros [= <- <-].
    + split; [done|]. exists e. split; [done|]. destruct Hc as [(He & H1 & H2 & H3 & H4)|Hc]; [left; rewrite <- He in H4; by split_and!|by right].
    + destruct Hc as [(He & H1 & H2 & H3 & H4)|[Hc _]]; [right; exists (ef_sequence e); by split_and!|by left].
  - intros [= <- <-]. destruct Hc as (_ & _ & Hc). destruct e; try (by left). destruct Hc as [?|(_ & seq & ?)]; [by left|right; by exists seq].
  - by destruct Hc as (_ & _ & []).
  - by destruct Hc as (_ & _ & []).
Qed.
Lemma sstep_inv w w' : service_inv w → sstep w w' → service_inv w'.
Proof using HB.
  intros Hw Hstep. destruct Hstep as [w0 trust grant op s' r sent Hb Hc Hr|w0 s' Heff]; [|apply (same_effects_inv _ s' []); [done..|by intros ?? ?%not_elem_of_nil]].
  apply commit_inv in Hc. destruct r as [rc|e| |]; [|subst sent|done..].
  - destruct Hc as [_ (e & -> & Hc)], Hr as (bytes & He & ->). destruct Hc as [(Ee & Hs & Hz & Hn & Heff)|[Heff Hfor]].
    + rewrite receipt_encodes in He by (apply receipt_of_ok; [by rewrite Ee|done..]). injection He as <-.
      apply (applied_inv _ s' (tg_principal grant) op (ef_sequence e) [_]); [done..|by rewrite <- Ee|right; by rewrite <- Ee].
    + assert (e ∈ effects_for (tg_principal grant) (to_id op) (store_effects (sv_store w0))) as Hin by (rewrite Hfor; left).
      apply effects_for_elem in Hin as (Hin & Hp & _). destruct (si_effects _ Hw e Hin) as (Hbe & Hs & Hz).
      rewrite receipt_encodes in He by (by apply receipt_of_ok). injection He as <-.
      apply (same_effects_inv _ s' [_]); [done..|]. intros p b [= -> ->]%list_elem_of_singleton. by exists e.
  - destruct Hc as [Heff|(seq & Hs & Hz & Hn & Heff)]; [apply (same_effects_inv _ s' []); [done..|by intros ?? ?%not_elem_of_nil]|].
    apply (applied_inv _ s' (tg_principal grant) op seq []); [done..|by left].
Qed.
Lemma serves_inv w : serves w → service_inv w.
Proof using HB.
  induction 1 as [s Hs|w w' _ IH Hstep]; [|by eapply sstep_inv]. split; cbn [sv_store sv_sent]; rewrite ?Hs; [intros; cbn; lia|by intros e ?%not_elem_of_nil|by intros ?? ?%not_elem_of_nil].
Qed.

(** Different contents with the same digest. *)
Definition same_digest op op' : Prop := input_of op ≠ input_of op' ∧ derive_key OPERATION_DOMAIN (input_of op) = derive_key OPERATION_DOMAIN (input_of op').

(** C13: an accepted receipt means applied exactly once.  However often
    operations are submitted again, by however many principals, and whatever the
    policy does meanwhile: when a device accepts a payload that the service
    sent to its principal as the receipt of an operation, the service has
    applied exactly one effect under that name for that principal, with the
    sequence number of the receipt, and its content is the content of the
    operation, unless the two are a collision of the digest.  And the receipt a
    commit returns is accepted by the device that submitted the operation. *)
Theorem receipt_exactly_once w op : serves w → built op →
  (∀ p payload receipt, (p, payload) ∈ sv_sent w → accept_receipt (E:=E) op payload = Ok receipt →
    ∃ e, effects_for p (to_id op) (store_effects (sv_store w)) = [e] ∧ receipt = receipt_of e ∧
      (ef_operation e = op ∨ same_digest (ef_operation e) op)) ∧
  ∀ trust grant s' receipt, commit_telemetry trust grant op (sv_store w) = (s', Ok receipt) →
    ∃ payload, receipt_encode (E:=E) receipt = Ok payload ∧ accept_receipt (E:=E) op payload = Ok receipt.
Proof using HB.
  intros Hw%serves_inv Hb. split.
  - intros p payload receipt Hin Hacc. destruct (si_sent _ Hw _ _ Hin) as (e & He & <- & ->). destruct (si_effects _ Hw _ He) as (Hbe & Hs & Hz).
    unfold accept_receipt in Hacc. rewrite receipt_decodes in Hacc by (by apply receipt_of_ok). unbind.
    destruct (matches_receipt op (receipt_of e)) eqn:Em; [|done]. injection Hacc as <-.
    apply andb_true_iff in Em as [Ei%bool_decide_eq_true Ed%bool_decide_eq_true]. cbn in Ei, Ed. exists e. split; [|split; [done|]].
    + assert (e ∈ effects_for (ef_principal e) (to_id op) (store_effects (sv_store w))) as Hf by (by apply effects_for_elem).
      pose proof (si_once _ Hw (ef_principal e) (to_id op)) as Hl. destruct (effects_for _ _ _) as [|x [|]]; [by apply not_elem_of_nil in Hf| |cbn in Hl; lia].
      by apply list_elem_of_singleton in Hf as ->.
    + destruct (decide (input_of (ef_operation e) = input_of op)); [left; by apply operation_input_inj|right]. split; [done|].
      rewrite <- (proj1 (built_digest _ Hbe)), <- (proj1 (built_digest _ Hb)). done.
  - intros trust grant s' receipt Hc. apply commit_inv in Hc as [Hm (e & -> & Hc)]. assert (receipt_ok (receipt_of e)) as Hok.
    { destruct Hc as [(Ee & Hs & Hz & _)|[_ Hfor]]; [apply receipt_of_ok; [by rewrite Ee|done..]|].
      assert (e ∈ effects_for (tg_principal grant) (to_id op) (store_effects (sv_store w))) as Hin by (rewrite Hfor; left).
      apply effects_for_elem in Hin as (Hin & _). destruct (si_effects _ Hw e Hin) as (? & ? & ?). by apply receipt_of_ok. }
    exists (receipt_wire (receipt_of e)). split; [by apply receipt_encodes|]. unfold accept_receipt. rewrite receipt_decodes by done. unbind. by rewrite Hm.
Qed.
End Service.

(** ** A provider in memory *)
Module MemoryStore.
Record memory : Type := mk_memory { me_anchor : TrustAnchor; me_effects : list Effect }.
Definition memory_commit (anchor : TrustAnchor) (principal : Principal) (op : TelemetryOperation) : st memory (receipt_error unit) Receipt := fun s =>
  if negb (eqb anchor (me_anchor s)) then (s, Err ReceiptError.Unauthorized)
  else match effects_for principal (to_id op) (me_effects s) with
       | [] =>
           if (1000 <=? length (me_effects s))%nat then (s, Err ReceiptError.Capacity)
           else let e := mk_effect principal op (Z.of_nat (length (me_effects s)) + 1) in
                (mk_memory (me_anchor s) (e :: me_effects s), Ok (receipt_of e))
       | [e] => if eqb (to_digest (ef_operation e)) (to_digest op) then (s, Ok (receipt_of e)) else (s, Err ReceiptError.Conflict)
       | _ => (s, Err ReceiptError.Conflict)
       end.
#[export] Instance memory_store : ReceiptStore memory unit := {| store_commit := memory_commit |}.
#[export, refine] Instance memory_laws : ReceiptLaws memory unit :=
  {| store_anchor := me_anchor; store_allows := fun _ _ _ => true; store_effects := me_effects |}.
Proof.
  intros s anchor principal op. cbn [store_commit memory_store]. unfold memory_commit. destruct (eqb anchor (me_anchor s)) eqn:Ea; cbn [negb]; [|done].
  apply bool_decide_eq_true in Ea as ->. destruct (effects_for principal (to_id op) (me_effects s)) as [|e [|]] eqn:Ef; [| |done].
  - destruct (Nat.leb_spec 1000 (length (me_effects s))); [done|]. split_and!; [done..|]. eexists. split; [done|]. left. split; [done|]. cbn.
    split_and!; [unfold in_u; lia|lia|done..].
  - destruct (eqb _ _); [|done]. split_and!; [done..|]. exists e. split; [done|]. by right.
Defined.
End MemoryStore.

Section Witness.
Import MemoryStore.
#[local] Existing Instances Sample.digest Sample.digest_laws.

(** Five bytes of telemetry, submitted twice. *)
Definition ex_operation : TelemetryOperation :=
  unwrap (operation_new (E:=unit) (replicate 16 7) (replicate 32 8) (Some 60) [1; 2; 3; 4; 5]) (mk_operation [] [] None [] []).
Definition ex_start : memory := mk_memory (tg_anchor sample_grant) [].
Definition ex_commit (s : memory) : memory * res (receipt_error unit) Receipt := commit_telemetry sample_policy sample_grant ex_operation s.
Definition ex_receipt : Receipt := mk_receipt (replicate 16 7) (to_digest ex_operation) 1.
Definition ex_service : service (S:=memory) :=
  mk_service (ex_commit (ex_commit ex_start).1).1
    [(tg_principal sample_grant, receipt_wire ex_receipt); (tg_principal sample_grant, receipt_wire ex_receipt)].
Lemma ex_built : built (E:=unit) ex_operation.
Proof. split_and!; [reflexivity|by repeat constructor|reflexivity|intros f [= <-]; by split|vm_compute; reflexivity]. Qed.
Lemma ex_serves : serves (S:=memory) (E:=unit) ex_service.
Proof.
  assert (∀ s, (ex_commit s).2 = Ok ex_receipt → ∀ sent, sstep (S:=memory) (E:=unit) (mk_service s sent)
    (mk_service (ex_commit s).1 ((tg_principal sample_grant, receipt_wire ex_receipt) :: sent))) as Hstep.
  { intros s Hs sent. apply (step_commit _ sample_policy sample_grant ex_operation _ (Ok ex_receipt)); [apply ex_built| |].
    - cbn [sv_store]. rewrite <- Hs. unfold ex_commit. by destruct (commit_telemetry _ _ _ s).
    - exists (receipt_wire ex_receipt). split; [vm_compute; reflexivity|reflexivity]. }
  eapply serves_step; [eapply serves_step; [apply (serves_new ex_start); reflexivity|apply (Hstep ex_start); vm_compute; reflexivity]|].
  apply Hstep. vm_compute. reflexivity.
Qed.
Lemma receipt_exactly_once_witness :
  ∃ e, effects_for (tg_principal sample_grant) (replicate 16 7) (me_effects (sv_store ex_service)) = [e] ∧ ex_receipt = receipt_of e.
Proof.
  destruct (receipt_exactly_once ex_service ex_operation ex_serves ex_built) as [Hacc _].
  destruct (Hacc (tg_principal sample_grant) (receipt_wire ex_receipt) ex_receipt) as (e & Hf & Hr & _).
  - left.
  - vm_compute. reflexivity.
  - exists e. split; [exact Hf|exact Hr].
Defined.
End Witness.
