(* ===== verification/Policy.v ===== *)
(** * Enrollment policies and their messages

    The data of [provisioning/enrollment.rs] and the fixed formats in which a
    device and its policy authority exchange them. *)
From Stdlib Require Import String.
From S2P Require Import Prelude.
From S2P Require Import OscoreHeader.
From S2P Require Import LakersCred.
From S2P Require Import Credential.
From S2P Require Import Trust.

Open Scope list_scope.
Open Scope Z_scope.

Module EnrollmentError.
Inductive EnrollmentError : Type :=
  | Authority | LocalIdentity | Entropy | Deadline | Endpoint | Message | Binding | Rollback | Policy
  | Trust (e : TrustError.TrustError)
  | Oscore (e : OscoreError).
End EnrollmentError.

Definition REQUEST_DOMAIN : string :=
  "https://github.com/jeffglousher/coaptic online policy request v1".
Definition POLICY_DOMAIN : string :=
  "https://github.com/jeffglousher/coaptic online policy snapshot v1".
Definition REQUEST_LEN : nat := 271.
Definition RESPONSE_LEN : nat := 272.

Section Policies.
Context `{Target} `{P : P256} `{B : Blake3}.

(** ** Policies *)
Record EnrollmentPolicy : Type := mk_enroll {
  ep_peer : PinnedPeer;
  ep_owner : list Z;
  ep_resource_policy : list Z
}.

Definition validate_policy (owner resource_policy : list Z) : res EnrollmentError.EnrollmentError unit :=
  if eqb owner zero32 || eqb resource_policy zero32 then Err EnrollmentError.Policy else Ok tt.

(** [EnrollmentPolicy::new]. *)
Definition policy_new (peer : PinnedPeer) (owner resource_policy : list Z) :
    res EnrollmentError.EnrollmentError EnrollmentPolicy :=
  _ ← validate_policy owner resource_policy;
  mret (mk_enroll peer owner resource_policy).

(** ** Snapshots *)
Record PolicySnapshot : Type := mk_snapshot {
  ps_record : TrustRecord;
  ps_owner : list Z;
  ps_resource_policy : list Z
}.

(** [PolicySnapshot::new]. *)
Definition snapshot_new (record : TrustRecord) (owner resource_policy : list Z) :
    res EnrollmentError.EnrollmentError PolicySnapshot :=
  _ ← validate_policy owner resource_policy;
  mret (mk_snapshot record owner resource_policy).

Definition encode_anchor {E} (anchor : TrustAnchor) (out : list Z) : res E (list Z) :=
  let '(store, generation, digest) := anchor_parts anchor in
  out ← copy_into 0 32 store out;
  out ← copy_into 32 40 (be_bytes 8 generation) out;
  copy_into 40 72 digest out.

(** [PolicySnapshot::commitment]. *)
Definition snapshot_commitment {E} (s : PolicySnapshot) : res E (list Z) :=
  anchor ← trust_anchor (ps_record s);
  bytes ← encode_anchor anchor (replicate 72 0);
  mret (derive_key POLICY_DOMAIN (bytes ++ ps_owner s ++ ps_resource_policy s)).

(** ** Queries *)
Inductive PolicyQuery : Type :=
  | Enroll (expected : TrustAnchor) (policy : EnrollmentPolicy)
  | Refresh (expected : TrustAnchor) (policy_commitment : list Z).

Definition query_expected (q : PolicyQuery) : TrustAnchor :=
  match q with Enroll expected _ | Refresh expected _ => expected end.

(** [PolicyQuery::refresh]. *)
Definition query_refresh {E} (s : PolicySnapshot) : res E PolicyQuery :=
  anchor ← trust_anchor (ps_record s);
  commitment ← snapshot_commitment s;
  mret (Refresh anchor commitment).

Definition recover_initial_commit (expected : TrustAnchor) : res EnrollmentError.EnrollmentError PolicyQuery :=
  if negb (ta_generation expected =? 0) then Err (EnrollmentError.Trust TrustError.Initialized)
  else Ok (Refresh expected zero32).

(** ** What an answer must satisfy *)
Definition validate_snapshot (snapshot : PolicySnapshot) (query : PolicyQuery) (principal : Principal) :
    res EnrollmentError.EnrollmentError unit :=
  actual ← trust_anchor (ps_record snapshot);
  let expected := query_expected query in
  if negb (eqb (tr_local (ps_record snapshot)) principal)
     || negb (eqb (ta_store actual) (ta_store expected)) then Err EnrollmentError.Binding
  else if (ta_generation actual <? ta_generation expected)
     || ((ta_generation actual =? ta_generation expected) && negb (eqb actual expected)) then
    Err EnrollmentError.Rollback
  else
    stale ←
      match query return res EnrollmentError.EnrollmentError bool with
      | Refresh _ policy_commitment =>
          if ta_generation actual =? ta_generation expected then
            commitment ← snapshot_commitment snapshot;
            mret (negb (eqb commitment policy_commitment))
          else mret false
      | Enroll _ _ => mret false
      end;
    if (stale : bool) then Err EnrollmentError.Rollback
    else
      match query with
      | Enroll expected policy =>
          if negb (ta_generation expected =? 0) || negb (ta_generation actual =? 1)
             || negb (tr_enabled (ps_record snapshot))
             || negb (eqb (pp_principal (tr_peer (ps_record snapshot))) (pp_principal (ep_peer policy)))
             || negb (eqb (ps_owner snapshot) (ep_owner policy))
             || negb (eqb (ps_resource_policy snapshot) (ep_resource_policy policy))
          then Err EnrollmentError.Binding
          else Ok tt
      | Refresh _ _ => Ok tt
      end.

(** ** Request and response payloads *)

(** The ASCII bytes of the two magic strings. *)
Definition CPQ1 : list Z := [67; 80; 81; 49].
Definition CPS1 : list Z := [67; 80; 83; 49].

(** [encode_anchor(anchor, &mut out[a..b])]: the write goes through a borrowed
    part of the buffer. *)
Definition encode_anchor_at {E} (anchor : TrustAnchor) (a b : nat) (out : list Z) : res E (list Z) :=
  part ← slice_idx out a b;
  part ← encode_anchor anchor part;
  copy_into a b part out.

Definition encode_request {E} (principal : Principal) (query : PolicyQuery) (nonce : list Z) :
    res E (list Z) :=
  let out := replicate REQUEST_LEN 0 in
  out ← copy_into 0 4 CPQ1 out;
  out ← set_idx 4 (match query with Enroll _ _ => 1 | Refresh _ _ => 0 end) out;
  out ← copy_into 5 37 nonce out;
  out ← copy_into 37 69 principal out;
  out ← encode_anchor_at (query_expected query) 69 141 out;
  match query with
  | Enroll _ policy =>
      key ← peer_public_key (ep_peer policy);
      out ← copy_into 141 206 key out;
      kid ← peer_kid (ep_peer policy);
      out ← set_idx 206 kid out;
      out ← copy_into 207 239 (ep_owner policy) out;
      copy_into 239 271 (ep_resource_policy policy) out
  | Refresh _ policy_commitment => copy_into 141 173 policy_commitment out
  end.

(** [array(&bytes[a..b])]: the slice has the array's length. *)
Definition array_at {E} (bytes : list Z) (a b : nat) : res E (list Z) :=
  s ← slice_idx bytes a b;
  copy_into 0 (b - a) s (replicate (b - a) 0).

Definition decode_anchor (bytes : list Z) : res EnrollmentError.EnrollmentError TrustAnchor :=
  store ← array_at bytes 0 32;
  generation ← array_at bytes 32 40;
  digest ← array_at bytes 40 72;
  map_err EnrollmentError.Trust (anchor_from_parts store (from_be generation) digest).

(** [iter().all(|byte| *byte == 0)]. *)
Definition all_zero (bytes : list Z) : bool := forallb (fun b => b =? 0) bytes.

Definition decode_request (bytes : list Z) : res EnrollmentError.EnrollmentError (list Z * PolicyQuery * list Z) :=
  if negb (length bytes =? REQUEST_LEN)%nat then Err EnrollmentError.Message
  else
    magic ← slice_idx bytes 0 4;
    if negb (eqb magic CPQ1) then Err EnrollmentError.Message
    else
      nonce ← array_at bytes 5 37;
      if eqb nonce zero32 then Err EnrollmentError.Entropy
      else
        local ← array_at bytes 37 69;
        anchor ← slice_idx bytes 69 141;
        expected ← decode_anchor anchor;
        kind ← idx bytes 4;
        rest ← slice_idx bytes 173 (length bytes);
        commitment ← slice_idx bytes 141 173;
        query ←
          (if (kind =? 0) && all_zero rest && Bool.eqb (ta_generation expected =? 0) (all_zero commitment)
           then
             policy_commitment ← array_at bytes 141 173;
             mret (Refresh expected policy_commitment)
           else if (kind =? 1) && (ta_generation expected =? 0) then
             key ← slice_idx bytes 141 206;
             kid ← idx bytes 206;
             peer ← map_err (fun _ => EnrollmentError.Message) (from_public_key key kid);
             owner ← array_at bytes 207 239;
             resource_policy ← array_at bytes 239 271;
             policy ← policy_new peer owner resource_policy;
             mret (Enroll expected policy)
           else Err EnrollmentError.Message);
        mret (local, query, nonce).

Definition encode_policy_response {E} (nonce digest : list Z) (snapshot : PolicySnapshot) : res E (list Z) :=
  let out := replicate RESPONSE_LEN 0 in
  out ← copy_into 0 4 CPS1 out;
  out ← copy_into 4 36 nonce out;
  out ← copy_into 36 68 digest out;
  parts ← trust_parts (ps_record snapshot);
  out ← set_idx 68 (tp_version parts) out;
  out ← copy_into 69 101 (tp_store parts) out;
  out ← copy_into 101 109 (be_bytes 8 (tp_generation parts)) out;
  out ← copy_into 109 141 (tp_local parts) out;
  out ← copy_into 141 206 (tp_public_key parts) out;
  out ← set_idx 206 (tp_kid parts) out;
  out ← set_idx 207 (bool_byte (tp_enabled parts)) out;
  out ← copy_into 208 240 (ps_owner snapshot) out;
  copy_into 240 272 (ps_resource_policy snapshot) out.

Definition decode_policy_response (bytes : list Z) : res EnrollmentError.EnrollmentError (list Z * list Z * PolicySnapshot) :=
  if negb (length bytes =? RESPONSE_LEN)%nat then Err EnrollmentError.Message
  else
    magic ← slice_idx bytes 0 4;
    enabled ← idx bytes 207;
    if negb (eqb magic CPS1) || (1 <? enabled) then Err EnrollmentError.Message
    else
      version ← idx bytes 68;
      store_id ← array_at bytes 69 101;
      generation ← array_at bytes 101 109;
      local_principal ← array_at bytes 109 141;
      peer_public_key ← array_at bytes 141 206;
      peer_kid ← idx bytes 206;
      record ← map_err EnrollmentError.Trust (trust_from_parts
        (mk_parts version store_id (from_be generation) local_principal peer_public_key peer_kid
           (enabled =? 1)));
      owner ← array_at bytes 208 240;
      resource_policy ← array_at bytes 240 272;
      snapshot ← snapshot_new record owner resource_policy;
      nonce ← array_at bytes 4 36;
      digest ← array_at bytes 36 68;
      mret (nonce, digest, snapshot).

End Policies.

#[export] Instance EnrollmentPolicy_eq_dec : EqDecision EnrollmentPolicy.
Proof. solve_decision. Defined.

(** * Theorems on policies and their messages

    The fixed layouts of requests and responses are read back as they were
    written, and an accepted answer never takes a device back behind what it
    asked with. *)

(** ** Buffers filled from the left *)
Definition filled (N : nat) (acc : list Z) : list Z := splice (replicate N 0) 0 acc.

Lemma length_filled N acc : (length acc ≤ N)%nat → length (filled N acc) = N.
Proof. intros. unfold filled. rewrite length_splice; rewrite length_replicate; [done|lia]. Qed.

Lemma filled_nil N : replicate N 0 = filled N [].
Proof. unfold filled. by rewrite splice_nil. Qed.

Lemma filled_eq N acc : filled N acc = acc ++ replicate (N - length acc) 0.
Proof. unfold filled, splice. simpl. by rewrite drop_replicate. Qed.

Lemma filled_all N acc : length acc = N → filled N acc = acc.
Proof. intros <-. rewrite filled_eq, Nat.sub_diag. apply app_nil_r. Qed.

Lemma fill_copy {E} N acc a b src :
  a = length acc → b = (a + length src)%nat → (b ≤ N)%nat →
  copy_into (E:=E) a b src (filled N acc) = Ok (filled N (acc ++ src)).
Proof.
  intros -> -> Hb. rewrite copy_into_ok by (rewrite ?length_filled; lia). unfold filled.
  by rewrite splice_splice by (rewrite ?length_replicate; lia).
Qed.

Lemma fill_set {E} N acc a x :
  a = length acc → (a < N)%nat → set_idx (E:=E) a x (filled N acc) = Ok (filled N (acc ++ [x])).
Proof.
  intros -> Hb. rewrite set_idx_ok by (rewrite length_filled; lia). unfold filled.
  by rewrite splice_splice by (rewrite ?length_replicate; simpl; lia).
Qed.

(** ** Reading a field of a layout *)
Lemma concat_split (segs : list (list Z)) k s : segs !! k = Some s →
  concat segs = concat (take k segs) ++ s ++ concat (drop (S k) segs).
Proof.
  intros Hk. transitivity (concat (take k segs ++ s :: drop (S k) segs)).
  - by rewrite take_drop_middle.
  - by rewrite concat_app.
Qed.

Lemma slice_field (segs : list (list Z)) k s a b :
  segs !! k = Some s → a = length (concat (take k segs)) → b = (a + length s)%nat →
  slice_get (concat segs) a b = Some s.
Proof.
  intros Hk -> ->. rewrite (concat_split segs k s Hk). by apply slice_get_app.
Qed.

Lemma field_at {E} (segs : list (list Z)) k s a b :
  segs !! k = Some s → a = length (concat (take k segs)) → b = (a + length s)%nat →
  slice_idx (E:=E) (concat segs) a b = Ok s.
Proof. intros. unfold slice_idx. by erewrite slice_field. Qed.

Lemma array_field {E} (segs : list (list Z)) k s a b :
  segs !! k = Some s → a = length (concat (take k segs)) → b = (a + length s)%nat →
  array_at (E:=E) (concat segs) a b = Ok s.
Proof.
  intros Hk Ha Hb. unfold array_at. rewrite (field_at segs k s a b Hk Ha Hb). unbind.
  replace (b - a)%nat with (length s) by lia.
  rewrite copy_into_ok by (rewrite ?length_replicate; lia).
  f_equal. unfold splice. rewrite drop_ge by (rewrite length_replicate; lia). apply app_nil_r.
Qed.

Lemma byte_field {E} (segs : list (list Z)) k x a :
  segs !! k = Some [x] → a = length (concat (take k segs)) → idx (E:=E) (concat segs) a = Ok x.
Proof.
  intros Hk ->. unfold idx. rewrite (concat_split segs k [x] Hk). simpl. by rewrite lookup_app_mid.
Qed.

(** The offset of a field: the lengths of the fields before it. *)
Create HintDb wire.
Ltac offset :=
  repeat match goal with s := _ : list (list Z) |- _ => subst s end;
  autounfold with wire; cbn [take concat]; rewrite ?app_nil_r, ?length_app, ?length_be_bytes; simpl; lia.

Section Laws.
Context `{Target} `{P : P256} `{HP : !P256Laws P} `{B : Blake3} `{HB : !Blake3Laws B}.

(** ** Well-formed values *)
Definition policy_ok (p : EnrollmentPolicy) : Prop :=
  peer_ok (ep_peer p) ∧ arr32 (ep_owner p) ∧ ep_owner p ≠ zero32 ∧
  arr32 (ep_resource_policy p) ∧ ep_resource_policy p ≠ zero32.

Lemma policy_new_inv p o rp pol : policy_new p o rp = Ok pol →
  pol = mk_enroll p o rp ∧ o ≠ zero32 ∧ rp ≠ zero32.
Proof.
  unfold policy_new, validate_policy. unbind. destruct (_ || _) eqn:E1; [done|]. intros [= <-]. by bools.
Qed.

Definition anchor_ok (a : TrustAnchor) : Prop :=
  arr32 (ta_store a) ∧ ta_store a ≠ zero32 ∧ in_u 64 (ta_generation a) ∧ arr32 (ta_digest a) ∧
  (ta_generation a = 0 → ta_digest a = zero32).

Definition snapshot_ok (s : PolicySnapshot) : Prop :=
  record_ok (ps_record s) ∧ tr_store (ps_record s) ≠ zero32 ∧
  arr32 (ps_owner s) ∧ ps_owner s ≠ zero32 ∧ arr32 (ps_resource_policy s) ∧ ps_resource_policy s ≠ zero32.

Definition query_ok (q : PolicyQuery) : Prop :=
  anchor_ok (query_expected q) ∧
  match q with
  | Enroll expected policy => ta_generation expected = 0 ∧ policy_ok policy
  | Refresh expected c => arr32 c ∧ (ta_generation expected = 0 ↔ c = zero32)
  end.

(** ** Anchors *)
Definition anchor_wire (a : TrustAnchor) : list Z :=
  ta_store a ++ be_bytes 8 (ta_generation a) ++ ta_digest a.

Lemma length_anchor_wire a : anchor_ok a → length (anchor_wire a) = 72%nat.
Proof.
  intros ((Ls & _) & _ & _ & (Ld & _) & _). unfold anchor_wire.
  rewrite !length_app, length_be_bytes, Ls, Ld. done.
Qed.

Lemma encode_anchor_zeros {E} a : anchor_ok a →
  encode_anchor (E:=E) a (replicate 72 0) = Ok (anchor_wire a).
Proof.
  intros Ha. pose proof Ha as ((Ls & _) & _ & _ & (Ld & _) & _).
  unfold encode_anchor, anchor_parts. rewrite filled_nil.
  rewrite fill_copy by (simpl; lia). unbind.
  rewrite fill_copy by (rewrite ?length_be_bytes; simpl; lia). cbn beta iota.
  rewrite fill_copy by (rewrite ?length_app, ?length_be_bytes; simpl; lia).
  rewrite <- app_assoc. simpl app. fold (anchor_wire a).
  rewrite filled_all; [done|by apply length_anchor_wire].
Qed.

Lemma encode_anchor_at_ok {E} a N acc i j : anchor_ok a →
  i = length acc → j = (i + 72)%nat → (j ≤ N)%nat →
  encode_anchor_at (E:=E) a i j (filled N acc) = Ok (filled N (acc ++ anchor_wire a)).
Proof.
  intros Ha -> -> Hj. unfold encode_anchor_at, slice_idx.
  assert (slice_get (filled N acc) (length acc) (length acc + 72) = Some (replicate 72 0)) as ->.
  { rewrite filled_eq. replace (N - length acc)%nat with (72 + (N - length acc - 72))%nat by lia.
    rewrite replicate_add. by apply slice_get_app. }
  unbind. rewrite encode_anchor_zeros by done. cbn beta iota.
  rewrite fill_copy; [done|done|by rewrite length_anchor_wire|lia].
Qed.

Lemma anchor_from_parts_ok a : anchor_ok a →
  anchor_from_parts (ta_store a) (ta_generation a) (ta_digest a) = Ok a.
Proof.
  intros (_ & Ns & _ & _ & Hz). unfold anchor_from_parts. rewrite (zero32_neqb _ Ns).
  destruct a as [store g digest]. cbn [ta_store ta_generation ta_digest] in *.
  destruct (g =? 0) eqn:E1; bools; simpl; [|done]. rewrite (Hz E1). unfold eqb.
  by rewrite bool_decide_eq_true_2.
Qed.

Lemma decode_anchor_wire a : anchor_ok a → decode_anchor (anchor_wire a) = Ok a.
Proof.
  intros Ha. pose proof Ha as ((Ls & _) & _ & Hg & (Ld & _) & _). unfold decode_anchor.
  replace (anchor_wire a) with (concat [ta_store a; be_bytes 8 (ta_generation a); ta_digest a])
    by (simpl; by rewrite app_nil_r).
  rewrite (array_field _ 0 (ta_store a) 0 32) by (done || offset). unbind.
  rewrite (array_field _ 1 (be_bytes 8 (ta_generation a)) 32 40) by (done || offset). cbn beta iota.
  rewrite (array_field _ 2 (ta_digest a) 40 72) by (done || offset). cbn beta iota.
  rewrite from_be_bytes, Z.mod_small by exact Hg. by rewrite anchor_from_parts_ok.
Qed.

(** ** Requests *)
Definition query_tail (q : PolicyQuery) : list (list Z) :=
  match q with
  | Enroll _ p => [peer_key (ep_peer p); [peer_kid_of (ep_peer p)]; ep_owner p; ep_resource_policy p]
  | Refresh _ c => [c; replicate 98 0]
  end.

Definition request_segs (local : list Z) (q : PolicyQuery) (nonce : list Z) : list (list Z) :=
  CPQ1 :: [match q with Enroll _ _ => 1 | Refresh _ _ => 0 end] :: nonce :: local ::
  anchor_wire (query_expected q) :: query_tail q.
Hint Unfold request_segs query_tail : wire.

Definition request_wire (local : list Z) (q : PolicyQuery) (nonce : list Z) : list Z :=
  concat (request_segs local q nonce).

Lemma encode_request_ok {E} local q nonce :
  query_ok q → length local = 32%nat → length nonce = 32%nat →
  encode_request (E:=E) local q nonce = Ok (request_wire local q nonce).
Proof.
  intros [Ha Hq] Ll Ln. pose proof (length_anchor_wire _ Ha) as La. unfold encode_request, REQUEST_LEN.
  rewrite filled_nil. rewrite fill_copy by (simpl; lia). unbind.
  rewrite fill_set by (simpl; lia). cbn beta iota.
  rewrite fill_copy by (rewrite ?length_app; simpl; lia). cbn beta iota.
  rewrite fill_copy by (rewrite ?length_app; simpl; lia). cbn beta iota.
  rewrite encode_anchor_at_ok by (done || (rewrite ?length_app; simpl; lia)). cbn beta iota.
  destruct q as [expected p|expected c]; cbn [query_expected] in *.
  - destruct Hq as (_ & Hpe & (Lo & _) & _ & (Lr & _) & _).
    destruct (peer_ok_export (E:=E) _ Hpe) as (-> & -> & Lk & _). cbn beta iota.
    rewrite fill_copy by (rewrite ?length_app; simpl; lia). cbn beta iota.
    rewrite fill_set by (rewrite ?length_app; simpl; lia). cbn beta iota.
    rewrite fill_copy by (rewrite ?length_app; simpl; lia). cbn beta iota.
    rewrite fill_copy by (rewrite ?length_app; simpl; lia). f_equal.
    rewrite filled_all by (rewrite ?length_app; simpl; lia). unfold request_wire, request_segs, query_tail. cbn [concat query_expected].
    by rewrite app_nil_r, <- !app_assoc.
  - destruct Hq as ((Lc & _) & _). rewrite fill_copy by (rewrite ?length_app; simpl; lia). f_equal.
    rewrite filled_eq. replace (_ - _)%nat with 98%nat by (rewrite ?length_app; simpl; lia).
    unfold request_wire, request_segs, query_tail. cbn [concat query_expected].
    by rewrite app_nil_r, <- !app_assoc.
Qed.

Lemma length_request_wire local q nonce :
  query_ok q → length local = 32%nat → length nonce = 32%nat →
  length (request_wire local q nonce) = REQUEST_LEN.
Proof.
  intros [Ha Hq] Ll Ln. pose proof (length_anchor_wire _ Ha) as La.
  unfold request_wire, request_segs, query_tail, REQUEST_LEN.
  destruct q as [expected p|expected c]; cbn [concat]; rewrite !length_app, La; simpl length.
  - destruct Hq as (_ & Hpe & (Lo & _) & _ & (Lr & _) & _).
    destruct (peer_ok_export (E:=unit) _ Hpe) as (_ & _ & Lk & _). lia.
  - destruct Hq as ((Lc & _) & _). lia.
Qed.

Lemma all_zero_replicate n : all_zero (replicate n 0) = true.
Proof. by induction n. Qed.

Lemma all_zero_iff bs : length bs = 32%nat → all_zero bs = true ↔ bs = zero32.
Proof.
  intros Hl. unfold all_zero, zero32. rewrite forallb_forall. split.
  - intros Hf. symmetry. apply replicate_as_elem_of. split; [done|]. intros x Hx. apply Z.eqb_eq, Hf.
    by apply list_elem_of_In.
  - intros -> x [-> _]%list_elem_of_In%elem_of_replicate. done.
Qed.

Lemma decode_request_wire local q nonce :
  query_ok q → length local = 32%nat → length nonce = 32%nat → nonce ≠ zero32 →
  decode_request (request_wire local q nonce) = Ok (local, q, nonce).
Proof.
  intros Hq Ll Ln Nn. pose proof (length_request_wire local q nonce Hq Ll Ln) as Hl.
  destruct Hq as [Ha Hq]. pose proof (length_anchor_wire _ Ha) as La.
  unfold decode_request. rewrite Hl, Nat.eqb_refl. cbn [negb]. unfold request_wire in *.
  set (segs := request_segs local q nonce) in *.
  rewrite (field_at segs 0 CPQ1 0 4) by (done || offset). unbind. replace (eqb CPQ1 CPQ1) with true by done. cbn [negb].
  rewrite (array_field segs 2 nonce 5 37) by (done || offset). cbn beta iota. rewrite (zero32_neqb _ Nn).
  rewrite (array_field segs 3 local 37 69) by (done || offset). cbn beta iota.
  rewrite (field_at segs 4 (anchor_wire (query_expected q)) 69 141) by (done || offset). cbn beta iota.
  rewrite decode_anchor_wire by done. cbn beta iota.
  rewrite (byte_field segs 1 (match q with Enroll _ _ => 1 | Refresh _ _ => 0 end) 4) by (done || offset).
  cbn beta iota. change REQUEST_LEN with 271%nat in *.
  destruct q as [expected p|expected c]; cbn [query_expected] in *.
  - destruct Hq as (Hg & Hpe & (Lo & _) & No & (Lr & _) & Nr).
    destruct (peer_ok_export (E:=unit) _ Hpe) as (_ & _ & Lk & _ & _ & Hfrom).
    assert (∃ rest, slice_idx (E:=EnrollmentError.EnrollmentError) (concat segs) 173 271 = Ok rest) as [rest ->].
    { unfold slice_idx, slice_get. rewrite Hl. by eexists. }
    assert (∃ cc, slice_idx (E:=EnrollmentError.EnrollmentError) (concat segs) 141 173 = Ok cc) as [cc ->].
    { unfold slice_idx, slice_get. rewrite Hl. by eexists. }
    cbn [Z.eqb andb]. rewrite Hg. cbn [Z.eqb Pos.eqb andb].
    rewrite (field_at segs 5 (peer_key (ep_peer p)) 141 206) by (done || offset). cbn beta iota.
    rewrite (byte_field segs 6 (peer_kid_of (ep_peer p)) 206) by (done || offset). cbn beta iota. rewrite Hfrom.
    cbn [map_err]. rewrite (array_field segs 7 (ep_owner p) 207 239) by (done || offset). cbn beta iota.
    rewrite (array_field segs 8 (ep_resource_policy p) 239 271) by (done || offset). cbn beta iota.
    unfold policy_new, validate_policy. rewrite (zero32_neqb _ No), (zero32_neqb _ Nr). unbind. by destruct p.
  - destruct Hq as ((Lc & _) & Hz).
    rewrite (field_at segs 6 (replicate 98 0) 173 271) by (done || offset). cbn beta iota.
    rewrite (field_at segs 5 c 141 173) by (done || offset). cbn beta iota.
    rewrite all_zero_replicate. cbn [Z.eqb andb].
    assert (Bool.eqb (ta_generation expected =? 0) (all_zero c) = true) as ->.
    { apply Bool.eqb_true_iff, eq_true_iff_eq. by rewrite Z.eqb_eq, all_zero_iff. }
    rewrite (array_field segs 5 c 141 173) by (done || offset). done.
Qed.

(** ** Responses *)
Definition response_segs (nonce digest : list Z) (s : PolicySnapshot) : list (list Z) :=
  let r := ps_record s in
  [CPS1; nonce; digest; [RECORD_VERSION]; tr_store r; be_bytes 8 (tr_generation r); tr_local r;
   peer_key (tr_peer r); [peer_kid_of (tr_peer r)]; [bool_byte (tr_enabled r)]; ps_owner s;
   ps_resource_policy s].
Hint Unfold response_segs : wire.

Definition response_wire (nonce digest : list Z) (s : PolicySnapshot) : list Z :=
  concat (response_segs nonce digest s).

Lemma length_response_wire nonce digest s :
  snapshot_ok s → length nonce = 32%nat → length digest = 32%nat →
  length (response_wire nonce digest s) = RESPONSE_LEN.
Proof.
  intros (((Ls & _) & _ & _ & (Ll & _) & Hpe) & _ & (Lo & _) & _ & (Lr & _) & _) Ln Ld.
  destruct (peer_ok_export (E:=unit) _ Hpe) as (_ & _ & Lk & _).
  unfold response_wire, response_segs, RESPONSE_LEN. cbn [concat].
  rewrite !length_app, length_be_bytes. simpl length. lia.
Qed.

Lemma encode_policy_response_ok {E} nonce digest s :
  snapshot_ok s → length nonce = 32%nat → length digest = 32%nat →
  encode_policy_response (E:=E) nonce digest s = Ok (response_wire nonce digest s).
Proof.
  intros Hs Ln Ld. pose proof (length_response_wire nonce digest s Hs Ln Ld) as Hl.
  destruct Hs as (((Ls & _) & _ & _ & (Ll & _) & Hpe) & _ & (Lo & _) & _ & (Lr & _) & _).
  destruct (peer_ok_export (E:=E) _ Hpe) as (Ek & Ei & Lk & _).
  unfold encode_policy_response, RESPONSE_LEN, trust_parts in *. rewrite filled_nil.
  rewrite fill_copy by (simpl; lia). unbind.
  rewrite fill_copy by (rewrite ?length_app; simpl; lia). cbn beta iota.
  rewrite fill_copy by (rewrite ?length_app; simpl; lia). cbn beta iota. rewrite Ek, Ei. cbn beta iota.
  cbn [tp_version tp_store tp_generation tp_local tp_public_key tp_kid tp_enabled].
  rewrite fill_set by (rewrite ?length_app; simpl; lia). cbn beta iota.
  rewrite fill_copy by (rewrite ?length_app; simpl; lia). cbn beta iota.
  rewrite fill_copy by (rewrite ?length_app, ?length_be_bytes; simpl; lia). cbn beta iota.
  rewrite fill_copy by (rewrite ?length_app, ?length_be_bytes; simpl; lia). cbn beta iota.
  rewrite fill_copy by (rewrite ?length_app, ?length_be_bytes; simpl; lia). cbn beta iota.
  rewrite fill_set by (rewrite ?length_app, ?length_be_bytes; simpl; lia). cbn beta iota.
  rewrite fill_set by (rewrite ?length_app, ?length_be_bytes; simpl; lia). cbn beta iota.
  rewrite fill_copy by (rewrite ?length_app, ?length_be_bytes; simpl; lia). cbn beta iota.
  rewrite fill_copy by (rewrite ?length_app, ?length_be_bytes; simpl; lia). f_equal.
  rewrite filled_all by (rewrite ?length_app, ?length_be_bytes; simpl; lia).
  unfold response_wire, response_segs. cbn [concat]. by rewrite app_nil_r, <- !app_assoc.
Qed.

Lemma trust_from_parts_ok r : record_ok r → tr_store r ≠ zero32 →
  trust_from_parts (mk_parts RECORD_VERSION (tr_store r) (tr_generation r) (tr_local r)
    (peer_key (tr_peer r)) (peer_kid_of (tr_peer r)) (tr_enabled r)) = Ok r.
Proof.
  intros (_ & _ & Hg & _ & Hpe) Ns. unfold trust_from_parts.
  cbn [tp_version tp_store tp_generation tp_local tp_public_key tp_kid tp_enabled].
  rewrite (zero32_neqb _ Ns), (proj2 (Z.eqb_neq (tr_generation r) 0)) by lia. simpl.
  destruct (peer_ok_export (E:=unit) _ Hpe) as (_ & _ & _ & _ & _ & ->). unbind. by destruct r.
Qed.

Lemma decode_policy_response_wire nonce digest s :
  snapshot_ok s → length nonce = 32%nat → length digest = 32%nat →
  decode_policy_response (response_wire nonce digest s) = Ok (nonce, digest, s).
Proof.
  intros Hs Ln Ld. pose proof (length_response_wire nonce digest s Hs Ln Ld) as Hl.
  pose proof Hs as (((Ls & _) & Hg & _ & (Ll & _) & Hpe) & Ns & (Lo & _) & No & (Lr & _) & Nr).
  destruct (peer_ok_export (E:=unit) _ Hpe) as (_ & _ & Lk & _).
  unfold decode_policy_response. rewrite Hl, Nat.eqb_refl. cbn [negb]. unfold response_wire in *.
  set (segs := response_segs nonce digest s) in *. unbind.
  rewrite (field_at segs 0 CPS1 0 4) by (done || offset). cbn beta iota.
  rewrite (byte_field segs 9 (bool_byte (tr_enabled (ps_record s))) 207) by (done || offset). cbn beta iota.
  replace (eqb CPS1 CPS1) with true by done.
  replace (1 <? bool_byte (tr_enabled (ps_record s))) with false by by destruct (tr_enabled (ps_record s)).
  cbn [negb orb]. rewrite (byte_field segs 3 RECORD_VERSION 68) by (done || offset). cbn beta iota.
  rewrite (array_field segs 4 (tr_store (ps_record s)) 69 101) by (done || offset). cbn beta iota.
  rewrite (array_field segs 5 (be_bytes 8 (tr_generation (ps_record s))) 101 109) by (done || offset). cbn beta iota.
  rewrite (array_field segs 6 (tr_local (ps_record s)) 109 141) by (done || offset). cbn beta iota.
  rewrite (array_field segs 7 (peer_key (tr_peer (ps_record s))) 141 206) by (done || offset). cbn beta iota.
  rewrite (byte_field segs 8 (peer_kid_of (tr_peer (ps_record s))) 206) by (done || offset). cbn beta iota.
  rewrite from_be_bytes, Z.mod_small by exact Hg.
  replace (bool_byte (tr_enabled (ps_record s)) =? 1) with (tr_enabled (ps_record s))
    by by destruct (tr_enabled (ps_record s)).
  rewrite trust_from_parts_ok by (done || apply Hs). cbn [map_err].
  rewrite (array_field segs 10 (ps_owner s) 208 240) by (done || offset). cbn beta iota.
  rewrite (array_field segs 11 (ps_resource_policy s) 240 272) by (done || offset). cbn beta iota.
  unfold snapshot_new, validate_policy. rewrite (zero32_neqb _ No), (zero32_neqb _ Nr). unbind. cbn [orb].
  rewrite (array_field segs 1 nonce 4 36) by (done || offset). cbn beta iota.
  rewrite (array_field segs 2 digest 36 68) by (done || offset). by destruct s.
Qed.

End Laws.
