(* ===== verification/PairingCodec.v ===== *)
(** * Local pairing records and their encoding

    The data of [provisioning/local_pairing.rs], its CBOR writer and reader, and
    the encodings of records, challenges and updates. *)
From Stdlib Require Import String.
From S2P Require Import Prelude.
From S2P Require Import LakersCred.
From S2P Require Import Credential.
From S2P Require Import Policy.
From S2P Require Import Trust.

Open Scope list_scope.
Open Scope Z_scope.

Module PairingError.
Inductive PairingError : Type := Record | Binding | Challenge | Owner | Unauthorized | Exhausted.
End PairingError.

Definition MAX_ENCODED_LEN : nat := 251.
Definition CAPACITY : nat := MAX_ENCODED_LEN.

(** ** Writer *)
Record Writer : Type := mk_writer { wr_bytes : list Z; wr_pos : nat }.

Section Codec.
Context `{Target} `{P : P256} `{B : Blake3}.

Definition wr_raw (bytes : list Z) : st Writer PairingError.PairingError unit := fun w =>
  match usize_checked_add (wr_pos w) (length bytes) with
  | None => (w, Err PairingError.Record)
  | Some stop =>
      if (wr_pos w <=? stop)%nat && (stop <=? length (wr_bytes w))%nat then
        match copy_into (wr_pos w) stop bytes (wr_bytes w) with
        | Ok out => (mk_writer out stop, Ok tt)
        | Err e => (w, Err e)
        | Panic => (w, Panic)
        | Diverge => (w, Diverge)
        end
      else (w, Err PairingError.Record)
  end.

Definition wr_bstr (value : list Z) : st Writer PairingError.PairingError unit :=
  len ← st_lift (ok_or (u_try_from_usize 8 (length value)) PairingError.Record);
  _ ← wr_raw [0x58; len];
  wr_raw value.

Definition wr_uint (value : Z) : st Writer PairingError.PairingError unit :=
  if value <=? 23 then wr_raw [wrap 8 value]
  else if value <=? 255 then wr_raw [0x18; wrap 8 value]
  else if value <=? 65535 then _ ← wr_raw [0x19]; wr_raw (be_bytes 2 (wrap 16 value))
  else if value <=? 4294967295 then _ ← wr_raw [0x1a]; wr_raw (be_bytes 4 (wrap 32 value))
  else _ ← wr_raw [0x1b]; wr_raw (be_bytes 8 value).

(** ** Reader *)
Record Reader : Type := mk_reader { rd_bytes : list Z; rd_pos : nat }.

Definition rd_new (bytes : list Z) : res PairingError.PairingError Reader :=
  if (CAPACITY <? length bytes)%nat then Err PairingError.Record else Ok (mk_reader bytes 0).

Definition rd_peek : st Reader PairingError.PairingError (option Z) := fun r =>
  (r, Ok (rd_bytes r !! rd_pos r)).

Definition rd_take (len : nat) : st Reader PairingError.PairingError (list Z) := fun r =>
  match usize_checked_add (rd_pos r) len ≫= (fun stop => slice_get (rd_bytes r) (rd_pos r) stop) with
  | Some s => (mk_reader (rd_bytes r) (rd_pos r + len), Ok s)
  | None => (r, Err PairingError.Record)
  end.

(** [take(1)?[0]]. *)
Definition rd_byte : st Reader PairingError.PairingError Z := s ← rd_take 1; st_lift (idx s 0).

Definition rd_exact (value : list Z) : st Reader PairingError.PairingError unit :=
  s ← rd_take (length value);
  if negb (eqb s value) then st_fail PairingError.Record else mret tt.

(** [bytes::<N>]. *)
Definition rd_bstr (N : nat) : st Reader PairingError.PairingError (list Z) :=
  _ ← rd_exact [0x58; wrap 8 (Z.of_nat N)];
  s ← rd_take N;
  if (length s =? N)%nat then mret s else st_fail PairingError.Record.

Definition rd_boolean : st Reader PairingError.PairingError bool :=
  b ← rd_byte;
  if b =? 0xf4 then mret false else if b =? 0xf5 then mret true else st_fail PairingError.Record.

Definition rd_uint : st Reader PairingError.PairingError Z :=
  first ← rd_byte;
  if first <=? 23 then mret first
  else
    '(len, minimum) ← st_lift
      (if first =? 0x18 then Ok (1%nat, 24)
       else if first =? 0x19 then Ok (2%nat, 256)
       else if first =? 0x1a then Ok (4%nat, 65536)
       else if first =? 0x1b then Ok (8%nat, 4294967296)
       else Err PairingError.Record);
    s ← rd_take len;
    let value := foldl (fun value byte => Z.lor (shl 64 value 8) byte) 0 s in
    if value <? minimum then st_fail PairingError.Record else mret value.

Definition rd_finish : st Reader PairingError.PairingError unit := fun r =>
  if negb (rd_pos r =? length (rd_bytes r))%nat then (r, Err PairingError.Record) else (r, Ok tt).

(** [try_into::<u8>()]. *)
Definition u8_try_from (x : Z) : option Z := if x <=? 255 then Some x else None.

Definition rd_kid : st Reader PairingError.PairingError Z :=
  v ← rd_uint; st_lift (ok_or (u8_try_from v) PairingError.Record).

(** ** Pairing records *)
Record PairingRecord : Type := mk_pairing {
  pr_store : list Z;
  pr_revision : Z;
  pr_local : list Z;
  pr_policy : option EnrollmentPolicy;
  pr_enabled : bool;
  pr_recovery_owner : option (list Z)
}.

Definition unpaired (identity : Identity) (store : list Z) : res PairingError.PairingError PairingRecord :=
  if eqb store zero32 then Err PairingError.Record
  else Ok (mk_pairing store 1 (pp_principal (id_peer identity)) None false None).

Definition validate_reconciliation_prior (r prior : PairingRecord) : res PairingError.PairingError unit :=
  current ← ok_or (pr_policy r) PairingError.Binding;
  previous ← ok_or (pr_policy prior) PairingError.Binding;
  if pr_enabled r || negb (pr_enabled prior) || (pr_revision r <=? pr_revision prior)
     || negb (eqb (pr_store prior) (pr_store r)) || negb (eqb (pr_local prior) (pr_local r))
     || negb (eqb (pp_principal (ep_peer current)) (pp_principal (ep_peer previous)))
     || negb (eqb (ep_owner current) (ep_owner previous))
     || negb (eqb (ep_resource_policy current) (ep_resource_policy previous))
  then Err PairingError.Binding
  else Ok tt.

(** The body of [PairingRecord::encode] on its writer. *)
Definition record_write (r : PairingRecord) : st Writer PairingError.PairingError unit :=
  _ ← wr_raw [match pr_recovery_owner r with Some _ => 0x8a | None => 0x89 end; 1];
  _ ← wr_bstr (pr_store r);
  _ ← wr_uint (pr_revision r);
  _ ← wr_bstr (pr_local r);
  _ ← match pr_policy r with
      | Some policy =>
          key ← st_lift (peer_public_key (ep_peer policy));
          _ ← wr_bstr key;
          kid ← st_lift (peer_kid (ep_peer policy));
          _ ← wr_uint kid;
          _ ← wr_bstr (ep_owner policy);
          wr_bstr (ep_resource_policy policy)
      | None =>
          _ ← wr_raw [0xf6; 0];
          _ ← wr_bstr zero32;
          wr_bstr zero32
      end;
  _ ← wr_raw [if pr_enabled r then 0xf5 else 0xf4];
  match pr_recovery_owner r with
  | Some owner => wr_bstr owner
  | None => mret tt
  end.

(** An encoder writes into the caller's buffer and returns how much it wrote. *)
Definition encode_with (m : st Writer PairingError.PairingError unit) : st (list Z) PairingError.PairingError nat :=
  fun output =>
    match m (mk_writer output 0) with
    | (w, Ok _) => (wr_bytes w, Ok (wr_pos w))
    | (w, Err e) => (wr_bytes w, Err e)
    | (w, Panic) => (wr_bytes w, Panic)
    | (w, Diverge) => (wr_bytes w, Diverge)
    end.

Definition record_encode (r : PairingRecord) : st (list Z) PairingError.PairingError nat :=
  encode_with (record_write r).

(** [commitment]: the record is encoded on the stack, [expect]ing that it fits. *)
Definition commitment {E} (r : PairingRecord) : res E (list Z) :=
  match record_encode r (replicate CAPACITY 0) with
  | (bytes, Ok len) =>
      s ← slice_idx bytes 0 len;
      mret (derive_key "coaptic local pairing record v1" s)
  | (_, Err _) => Panic
  | (_, Panic) => Panic
  | (_, Diverge) => Diverge
  end.

(** The fields [PairingRecord::decode] reads, in order. *)
Record record_fields : Type := mk_fields {
  rf_recovery : option (list Z);
  rf_store : list Z;
  rf_revision : Z;
  rf_local : list Z;
  rf_public : option (list Z);
  rf_kid : Z;
  rf_owner : list Z;
  rf_permissions : list Z;
  rf_enabled : bool
}.

Definition read_fields : st Reader PairingError.PairingError record_fields :=
  first ← rd_byte;
  recovery ← st_lift
    (if first =? 0x89 then Ok false else if first =? 0x8a then Ok true else Err PairingError.Record);
  _ ← rd_exact [1];
  store ← rd_bstr 32;
  revision ← rd_uint;
  local ← rd_bstr 32;
  next ← rd_peek;
  public ← (if eqb next (Some 0xf6) then _ ← rd_exact [0xf6]; mret None
            else key ← rd_bstr 65; mret (Some key));
  kid ← rd_kid;
  owner ← rd_bstr 32;
  permissions ← rd_bstr 32;
  enabled ← rd_boolean;
  recovery_owner ← (if (recovery : bool) then o ← rd_bstr 32; mret (Some o) else mret None);
  _ ← rd_finish;
  mret (mk_fields recovery_owner store revision local public kid owner permissions enabled).

(** The checks of [PairingRecord::decode] after the fields. *)
Definition check_fields (f : record_fields) : res PairingError.PairingError PairingRecord :=
  policy ←
    match rf_public f return res PairingError.PairingError (option EnrollmentPolicy) with
    | Some public =>
        if rf_revision f <? 2 then Err PairingError.Record
        else
          peer ← map_err (fun _ => PairingError.Record) (from_public_key public (rf_kid f));
          policy ← map_err (fun _ => PairingError.Record)
                     (policy_new peer (rf_owner f) (rf_permissions f));
          mret (Some policy)
    | None =>
        if negb (rf_revision f =? 1) || rf_enabled f || negb (rf_kid f =? 0)
           || negb (eqb (rf_owner f) zero32) || negb (eqb (rf_permissions f) zero32)
           || match rf_recovery f with Some _ => true | None => false end
        then Err PairingError.Record
        else mret None
    end;
  if eqb (rf_store f) zero32 || eqb (rf_local f) zero32 || (rf_revision f =? 0) then
    Err PairingError.Record
  else if match rf_recovery f with
          | Some backup =>
              eqb backup zero32
              || match policy with Some policy => eqb (ep_owner policy) backup | None => true end
          | None => false
          end
  then Err PairingError.Record
  else Ok (mk_pairing (rf_store f) (rf_revision f) (rf_local f) policy (rf_enabled f) (rf_recovery f)).

Definition record_decode (input : list Z) : res PairingError.PairingError PairingRecord :=
  read ← rd_new input;
  f ← snd (read_fields read);
  check_fields f.

(** ** Challenges *)
Record PairingChallenge : Type := mk_challenge {
  pc_device : PinnedPeer;
  pc_store : list Z;
  pc_revision : Z;
  pc_digest : list Z;
  pc_nonce : list Z
}.

Definition challenge_write (c : PairingChallenge) : st Writer PairingError.PairingError unit :=
  _ ← wr_raw [0x87; 1];
  key ← st_lift (peer_public_key (pc_device c));
  _ ← wr_bstr key;
  kid ← st_lift (peer_kid (pc_device c));
  _ ← wr_uint kid;
  _ ← wr_bstr (pc_store c);
  _ ← wr_uint (pc_revision c);
  _ ← wr_bstr (pc_digest c);
  wr_bstr (pc_nonce c).

Definition challenge_encode (c : PairingChallenge) : st (list Z) PairingError.PairingError nat :=
  encode_with (challenge_write c).

Definition read_challenge : st Reader PairingError.PairingError (list Z * Z * list Z * Z * list Z * list Z) :=
  _ ← rd_exact [0x87; 1];
  key ← rd_bstr 65;
  kid ← rd_kid;
  store ← rd_bstr 32;
  revision ← rd_uint;
  digest ← rd_bstr 32;
  nonce ← rd_bstr 32;
  _ ← rd_finish;
  mret (key, kid, store, revision, digest, nonce).

Definition challenge_decode (input : list Z) : res PairingError.PairingError PairingChallenge :=
  read ← rd_new input;
  '(key, kid, store, revision, digest, nonce) ← snd (read_challenge read);
  if eqb store zero32 || (revision =? 0) || eqb nonce zero32 then Err PairingError.Record
  else
    device ← map_err (fun _ => PairingError.Record) (from_public_key key kid);
    mret (mk_challenge device store revision digest nonce).

(** ** Updates *)
Record PairingUpdate : Type := mk_update {
  pu_challenge : PairingChallenge;
  pu_policy : EnrollmentPolicy;
  pu_revoke : bool;
  pu_current_owner : option (list Z);
  pu_recovery_action : Z
}.

Definition update_new (challenge : PairingChallenge) (policy : EnrollmentPolicy) (revoke : bool) :
    PairingUpdate := mk_update challenge policy revoke None 0.

Definition update_transfer (challenge : PairingChallenge) (current_owner : list Z)
    (policy : EnrollmentPolicy) : res PairingError.PairingError PairingUpdate :=
  if eqb current_owner zero32 || eqb current_owner (ep_owner policy) then Err PairingError.Owner
  else Ok (mk_update challenge policy false (Some current_owner) 0).

Definition update_set_recovery (challenge : PairingChallenge) (policy : EnrollmentPolicy)
    (recovery_owner : option (list Z)) : res PairingError.PairingError PairingUpdate :=
  if match recovery_owner with
     | Some owner => eqb owner zero32 || eqb owner (ep_owner policy)
     | None => false
     end
  then Err PairingError.Owner
  else Ok (mk_update challenge policy false recovery_owner 1).

Definition update_recover (challenge : PairingChallenge) (recovery_owner : list Z)
    (policy : EnrollmentPolicy) : res PairingError.PairingError PairingUpdate :=
  if eqb recovery_owner zero32 || eqb recovery_owner (ep_owner policy) then Err PairingError.Owner
  else Ok (mk_update challenge policy false (Some recovery_owner) 2).

(** [PairingUpdate::encode] after the challenge was encoded into [challenge]. *)
Definition update_write (u : PairingUpdate) (challenge : list Z) : st Writer PairingError.PairingError unit :=
  _ ← (if negb (pu_recovery_action u =? 0) then wr_raw [0x88; 1; pu_recovery_action u + 2]
       else match pu_current_owner u with
            | Some _ => wr_raw [0x88; 1; 2]
            | None => wr_raw [0x87; 1; if pu_revoke u then 1 else 0]
            end);
  _ ← wr_bstr challenge;
  key ← st_lift (peer_public_key (ep_peer (pu_policy u)));
  _ ← wr_bstr key;
  kid ← st_lift (peer_kid (ep_peer (pu_policy u)));
  _ ← wr_uint kid;
  _ ← wr_bstr (ep_owner (pu_policy u));
  _ ← wr_bstr (ep_resource_policy (pu_policy u));
  match pu_current_owner u with
  | Some owner => wr_bstr owner
  | None => if pu_recovery_action u =? 1 then wr_raw [0xf6] else mret tt
  end.

Definition update_encode (u : PairingUpdate) : st (list Z) PairingError.PairingError nat := fun output =>
  match challenge_encode (pu_challenge u) (replicate 224 0) with
  | (bytes, Ok len) =>
      match slice_idx bytes 0 len with
      | Ok challenge => encode_with (update_write u challenge) output
      | Err e => (output, Err e)
      | Panic => (output, Panic)
      | Diverge => (output, Diverge)
      end
  | (_, Err e) => (output, Err e)
  | (_, Panic) => (output, Panic)
  | (_, Diverge) => (output, Diverge)
  end.

Definition update_action (array action : Z) : res PairingError.PairingError Z :=
  if ((array =? 0x87) && (action <=? 1)) || ((array =? 0x88) && (2 <=? action) && (action <=? 4))
  then Ok action else Err PairingError.Record.

(** The reads of [PairingUpdate::decode]; the embedded challenge is decoded as
    soon as it is read. *)
Definition read_update : st Reader PairingError.PairingError
    (Z * PairingChallenge * list Z * Z * list Z * list Z * option (list Z)) :=
  array ← rd_byte;
  _ ← rd_exact [1];
  n ← rd_uint;
  action ← st_lift (update_action array n);
  _ ← rd_exact [0x58];
  len ← rd_byte;
  if len <? 24 then st_fail PairingError.Record
  else
    s ← rd_take (Z.to_nat len);
    challenge ← st_lift (challenge_decode s);
    peer ← rd_bstr 65;
    kid ← rd_kid;
    owner ← rd_bstr 32;
    permissions ← rd_bstr 32;
    next ← rd_peek;
    current_owner ←
      (if (action =? 3) && eqb next (Some 0xf6) then _ ← rd_exact [0xf6]; mret None
       else if 2 <=? action then o ← rd_bstr 32; mret (Some o)
       else mret None);
    _ ← rd_finish;
    mret (action, challenge, peer, kid, owner, permissions, current_owner).

Definition update_decode (input : list Z) : res PairingError.PairingError PairingUpdate :=
  if (384 <? length input)%nat then Err PairingError.Record
  else
    '(action, challenge, peer, kid, owner, permissions, current_owner) ←
      snd (read_update (mk_reader input 0));
    peer ← map_err (fun _ => PairingError.Record) (from_public_key peer kid);
    policy ← map_err (fun _ => PairingError.Record) (policy_new peer owner permissions);
    if action =? 2 then
      current ← ok_or current_owner PairingError.Owner;
      update_transfer challenge current policy
    else if action =? 3 then update_set_recovery challenge policy current_owner
    else if action =? 4 then
      current ← ok_or current_owner PairingError.Owner;
      update_recover challenge current policy
    else Ok (update_new challenge policy (action =? 1)).

End Codec.

#[export] Instance PairingRecord_eq_dec : EqDecision PairingRecord.
Proof. solve_decision. Defined.

(** * Theorems on the encoding of pairing data

    The wire form of a record, a challenge and an update; what the writer
    writes, on buffers long enough and too short; and that the decoders accept
    exactly the wire forms of valid values. *)

(** ** Wire forms of the items *)
Definition bstr (bs : list Z) : list Z := 0x58 :: Z.of_nat (length bs) :: bs.
Definition uint_wire (v : Z) : list Z :=
  if v <=? 23 then [v]
  else if v <=? 255 then [0x18; v]
  else if v <=? 65535 then 0x19 :: be_bytes 2 v
  else if v <=? 4294967295 then 0x1a :: be_bytes 4 v
  else 0x1b :: be_bytes 8 v.

Lemma length_bstr bs : length (bstr bs) = (2 + length bs)%nat.
Proof. done. Qed.

Lemma length_uint_wire v : (1 ≤ length (uint_wire v) ≤ 9)%nat.
Proof. unfold uint_wire. repeat case_match; simpl; lia. Qed.

Section Writer.
Context `{Target}.

(** [m] writes [bs] where there is room for it and refuses otherwise. *)
Definition writes (m : st Writer PairingError.PairingError unit) (bs : list Z) : Prop :=
  ∀ out pos, usize_ok (length out) → (pos ≤ length out)%nat →
    if (pos + length bs <=? length out)%nat
    then m (mk_writer out pos) = (mk_writer (splice out pos bs) (pos + length bs), Ok tt)
    else ∃ w, length (wr_bytes w) = length out ∧ m (mk_writer out pos) = (w, Err PairingError.Record).

Lemma writes_raw bs : writes (wr_raw bs) bs.
Proof.
  intros out pos Hu Hp. unfold wr_raw. cbn [wr_pos wr_bytes]. unfold usize_checked_add, usize_ok in *.
  destruct (Nat.leb_spec (pos + length bs) (length out)).
  - rewrite (proj2 (Z.leb_le _ _)) by lia.
    rewrite (proj2 (Nat.leb_le pos _)), (proj2 (Nat.leb_le (pos + _) _)) by lia. simpl.
    by rewrite copy_into_ok.
  - exists (mk_writer out pos). split; [done|]. destruct (_ <=? usize_max); [|done].
    rewrite (proj2 (Nat.leb_gt (pos + _) _)) by lia. by rewrite andb_false_r.
Qed.

Lemma wrote_bind m1 m2 b1 b2 :
  writes m1 b1 → writes m2 b2 → writes (_ ← m1; m2) (b1 ++ b2).
Proof.
  intros H1 H2 out pos Hu Hp. specialize (H1 out pos Hu Hp). unbind. rewrite length_app.
  destruct (Nat.leb_spec (pos + length b1) (length out)).
  - rewrite H1. specialize (H2 (splice out pos b1) (pos + length b1)%nat).
    rewrite length_splice in H2 by lia. specialize (H2 Hu ltac:(lia)). rewrite <- Nat.add_assoc in H2.
    destruct (Nat.leb_spec (pos + (length b1 + length b2)) (length out)); [|done].
    rewrite H2, splice_splice by lia. done.
  - destruct H1 as (w & Hw & ->). rewrite (proj2 (Nat.leb_gt (pos + (_ + _)) _)) by lia. by exists w.
Qed.

Lemma writes_ret : writes (mret tt) [].
Proof.
  intros out pos Hu Hp. rewrite (proj2 (Nat.leb_le _ _)) by (simpl; lia).
  by rewrite splice_nil, Nat.add_0_r.
Qed.

Lemma writes_lift {A} (r : res PairingError.PairingError A) a f bs :
  r = Ok a → writes (f a) bs → writes (x ← st_lift r; f x) bs.
Proof. intros -> Hf. exact Hf. Qed.

Lemma writes_bstr bs : (length bs ≤ 255)%nat → writes (wr_bstr bs) (bstr bs).
Proof.
  intros Hl. unfold wr_bstr. eapply writes_lift.
  - unfold u_try_from_usize. rewrite (proj2 (Z.leb_le _ _)) by (unfold max_u; lia). done.
  - apply (wrote_bind _ _ [_; _]); apply writes_raw.
Qed.

Lemma writes_uint v : in_u 64 v → writes (wr_uint v) (uint_wire v).
Proof.
  intros Hv. unfold wr_uint, uint_wire. destruct Hv.
  destruct (Z.leb_spec v 23); [rewrite wrap_small by (split; lia); apply writes_raw|].
  destruct (Z.leb_spec v 255); [rewrite wrap_small by (split; lia); apply writes_raw|].
  destruct (Z.leb_spec v 65535).
  { rewrite wrap_small by (split; lia). apply (wrote_bind _ _ [_]); apply writes_raw. }
  destruct (Z.leb_spec v 4294967295).
  { rewrite wrap_small by (split; lia). apply (wrote_bind _ _ [_]); apply writes_raw. }
  apply (wrote_bind _ _ [_]); apply writes_raw.
Qed.

(** From the start of the caller's buffer. *)
Lemma encode_with_writes m bs out :
  writes m bs → usize_ok (length out) →
  if (length bs <=? length out)%nat
  then encode_with m out = (splice out 0 bs, Ok (length bs))
  else ∃ out', length out' = length out ∧ encode_with m out = (out', Err PairingError.Record).
Proof.
  intros Hm Hu. specialize (Hm out 0%nat Hu ltac:(lia)). simpl in Hm. unfold encode_with.
  destruct (length bs <=? length out)%nat; [by rewrite Hm|]. destruct Hm as (w & Hw & ->). eauto.
Qed.

End Writer.

(** ** The reader *)
Section Reader.
Context `{Target}.
Local Abbreviation consumes := (consumes mk_reader).
Local Abbreviation yields := (yields mk_reader).

Lemma consumes_take bs n : n = length bs → consumes (rd_take n) bs bs.
Proof.
  intros -> p q Hq. unfold rd_take. cbn [rd_bytes rd_pos]. unfold usize_checked_add, usize_ok in *.
  rewrite !length_app in Hq. rewrite (proj2 (Z.leb_le _ _)) by lia. cbn [mbind option_bind].
  rewrite slice_get_app by done. by rewrite length_app.
Qed.

Lemma yields_take n : yields (rd_take n) (fun s bs => s = bs ∧ length bs = n).
Proof.
  intros p s s' a. unfold rd_take. cbn [rd_bytes rd_pos].
  destruct (usize_checked_add (length p) n) as [stop|] eqn:Ec; [|done]. cbn [mbind option_bind].
  unfold usize_checked_add in Ec. destruct (_ <=? _); simplify_eq.
  destruct (slice_get (p ++ s) _ _) as [x|] eqn:Es; [|done]. intros [= <- <-].
  apply slice_get_Some in Es as [Hl ->]. rewrite length_app in Hl. rewrite drop_app_length, Nat.add_sub'.
  exists (take n s), (drop n s). rewrite take_drop, length_app, length_take_le by lia. done.
Qed.

Lemma consumes_byte b : consumes rd_byte [b] b.
Proof. eapply consumes_then; [by apply consumes_take|]. by apply consumes_lift. Qed.

Lemma yields_byte : yields rd_byte (fun b bs => bs = [b]).
Proof.
  eapply yields_mono; [eapply yields_bind; [apply yields_take|intros; apply yields_lift]|].
  intros b bs (s & b1 & b2 & -> & [-> Hl] & Hi & ->). rewrite app_nil_r.
  destruct b1 as [|x [|? ?]]; try done. by injection Hi as ->.
Qed.

Lemma consumes_exact v : consumes (rd_exact v) v tt.
Proof.
  eapply consumes_then; [by apply consumes_take|]. unfold eqb. rewrite bool_decide_eq_true_2 by done.
  apply consumes_ret.
Qed.

Lemma yields_exact v : yields (rd_exact v) (fun _ bs => bs = v).
Proof.
  eapply yields_mono.
  - eapply yields_bind; [apply yields_take|]. intros s.
    apply (yields_mono _ _ (fun _ bs => s = v ∧ bs = [])).
    + destruct (eqb s v) eqn:Ev; bools; simpl; [|apply yields_fail].
      eapply yields_mono; [apply yields_ret|]. by intros a bs [_ ->].
    + intros ? ? Hx. exact Hx.
  - intros [] bs (s & b1 & b2 & -> & [-> _] & -> & ->). apply app_nil_r.
Qed.

Lemma consumes_bstr bs : (length bs ≤ 255)%nat → consumes (rd_bstr (length bs)) (bstr bs) bs.
Proof.
  intros Hl. unfold rd_bstr, bstr. rewrite wrap_small by (split; lia).
  eapply (consumes_bind _ _ _ [_; _] bs); [apply consumes_exact|].
  eapply consumes_then; [by apply consumes_take|]. rewrite Nat.eqb_refl. apply consumes_ret.
Qed.

Lemma yields_bstr N : (N ≤ 255)%nat →
  yields (rd_bstr N) (fun s bs => bs = bstr s ∧ length s = N).
Proof.
  intros HN. unfold rd_bstr. rewrite wrap_small by (split; lia). eapply yields_mono.
  - eapply yields_bind; [apply yields_exact|]. intros u. eapply yields_bind; [apply yields_take|].
    intros s. apply (yields_mono _ _ (fun b bs => b = s ∧ bs = [])); [|intros ? ? Hx; exact Hx].
    destruct (_ =? _)%nat; [apply yields_ret|apply yields_fail].
  - intros s bs (_ & b1 & b2 & -> & -> & s1 & b3 & b4 & -> & [-> Hl] & -> & ->).
    rewrite app_nil_r. unfold bstr. by rewrite Hl.
Qed.

Lemma yields_boolean : yields rd_boolean (fun (b : bool) bs => bs = [if b then 0xf5 else 0xf4]).
Proof.
  eapply yields_mono.
  - eapply yields_bind; [apply yields_byte|]. intros x.
    apply (yields_mono _ _ (fun (b : bool) bs => x = (if b then 0xf5 else 0xf4) ∧ bs = [])); [|intros ? ? Hx; exact Hx].
    destruct (x =? 0xf4) eqn:E1; bools; [|destruct (x =? 0xf5) eqn:E2; bools; [|apply yields_fail]];
      (eapply yields_mono; [apply yields_ret|]); by intros b bs [-> ->].
  - intros b bs (x & b1 & b2 & -> & -> & -> & ->). done.
Qed.

Lemma consumes_boolean (b : bool) : consumes rd_boolean [if b then 0xf5 else 0xf4] b.
Proof.
  eapply consumes_then; [apply consumes_byte|]. destruct b; apply consumes_ret.
Qed.

(** *** Integers *)
Lemma fold_be s : (length s ≤ 8)%nat → bytes_ok s →
  foldl (fun value byte => Z.lor (shl 64 value 8) byte) 0 s = from_be s.
Proof.
  induction s as [|b s IH] using rev_ind; intros Hl Hok; [done|].
  apply bytes_ok_app in Hok as [Hok Hb]. apply bytes_ok_cons in Hb as [Hb _].
  rewrite length_app in Hl. simpl in Hl. rewrite foldl_snoc, from_be_snoc, IH by (done || lia).
  pose proof (from_be_bound s Hok) as Hr. destruct Hb as [Hb1 Hb2].
  assert (2 ^ (8 * Z.of_nat (length s)) ≤ 2 ^ 56) as Hp by (apply Z.pow_le_mono_r; lia).
  unfold shl. rewrite wrap_small.
  - rewrite lor_shiftl_add by (done || lia). change (2 ^ 8) with 256. lia.
  - rewrite Z.shiftl_mul_pow2 by done. split; [lia|]. change (2 ^ 64) with (2 ^ 56 * 2 ^ 8). lia.
Qed.

(** The long forms: a first byte that announces [n] more, and the least value. *)
Lemma consumes_uint_long first n minimum v :
  (23 <? first) = true →
  (if first =? 0x18 then Ok (1%nat, 24) else if first =? 0x19 then Ok (2%nat, 256)
   else if first =? 0x1a then Ok (4%nat, 65536) else if first =? 0x1b then Ok (8%nat, 4294967296)
   else Err PairingError.Record) = Ok (n, minimum) →
  minimum ≤ v → 0 ≤ v < 2 ^ (8 * Z.of_nat n) → (n ≤ 8)%nat →
  consumes rd_uint (first :: be_bytes n v) v.
Proof.
  intros Hf Hn Hm Hv Hl. eapply (consumes_bind _ _ _ [first]); [apply consumes_byte|].
  rewrite (proj2 (Z.leb_gt first 23)) by (bools; lia).
  eapply consumes_first; [apply consumes_lift, Hn|]. cbn beta iota.
  eapply consumes_then; [apply consumes_take; by rewrite length_be_bytes|]. cbv zeta.
  rewrite fold_be; [|by rewrite length_be_bytes|apply be_bytes_ok].
  rewrite from_be_bytes, Z.mod_small by done. rewrite (proj2 (Z.ltb_ge v minimum)) by done.
  apply consumes_ret.
Qed.

Lemma consumes_uint v : in_u 64 v → consumes rd_uint (uint_wire v) v.
Proof.
  intros [H0 H1]. unfold uint_wire.
  destruct (Z.leb_spec v 23) as [Hs|Hs].
  { eapply consumes_then; [apply consumes_byte|]. rewrite (proj2 (Z.leb_le v 23)) by done.
    apply consumes_ret. }
  destruct (Z.leb_spec v 255) as [Hb|Hb].
  { replace [0x18; v] with (0x18 :: be_bytes 1 v)
      by (unfold be_bytes; rewrite Z.mod_small by lia; done).
    by apply (consumes_uint_long 0x18 1 24); [done|done|lia|simpl; lia|lia]. }
  destruct (Z.leb_spec v 65535); [by apply (consumes_uint_long 0x19 2 256); [done|done|lia|simpl; lia|lia]|].
  destruct (Z.leb_spec v 4294967295); [by apply (consumes_uint_long 0x1a 4 65536); [done|done|lia|simpl; lia|lia]|].
  by apply (consumes_uint_long 0x1b 8 4294967296); [done|done|lia|simpl; lia|lia].
Qed.

Lemma uint_wire_long first n minimum s :
  (if first =? 0x18 then Ok (1%nat, 24) else if first =? 0x19 then Ok (2%nat, 256)
   else if first =? 0x1a then Ok (4%nat, 65536) else if first =? 0x1b then Ok (8%nat, 4294967296)
   else Err PairingError.Record) = Ok (n, minimum) →
  length s = n → bytes_ok s → minimum ≤ from_be s →
  (n ≤ 8)%nat ∧ in_u 64 (from_be s) ∧ first :: s = uint_wire (from_be s).
Proof.
  intros Hf Hl Hok Hm. pose proof (from_be_bound s Hok) as Hb. rewrite Hl in Hb.
  assert (be_bytes n (from_be s) = s) as Hbe by (by apply be_bytes_from).
  unfold uint_wire, in_u.
  repeat match type of Hf with (if ?c then _ else _) = _ => destruct c eqn:? end; bools; try done;
    injection Hf as <- <-; simpl in Hb.
  - rewrite (proj2 (Z.leb_gt _ 23)), (proj2 (Z.leb_le _ 255)) by lia.
    simpl in Hbe. rewrite Z.mod_small in Hbe by lia. split; [lia|]. split; [lia|]. by rewrite Hbe; subst.
  - rewrite (proj2 (Z.leb_gt _ 23)), (proj2 (Z.leb_gt _ 255)), (proj2 (Z.leb_le _ 65535)) by lia.
    split; [lia|]. split; [lia|]. by rewrite Hbe; subst.
  - rewrite (proj2 (Z.leb_gt _ 23)), (proj2 (Z.leb_gt _ 255)), (proj2 (Z.leb_gt _ 65535)),
      (proj2 (Z.leb_le _ 4294967295)) by lia.
    split; [lia|]. split; [lia|]. by rewrite Hbe; subst.
  - rewrite (proj2 (Z.leb_gt _ 23)), (proj2 (Z.leb_gt _ 255)), (proj2 (Z.leb_gt _ 65535)),
      (proj2 (Z.leb_gt _ 4294967295)) by lia.
    split; [lia|]. split; [lia|]. by rewrite Hbe; subst.
Qed.

Lemma yields_uint : yields rd_uint (fun v bs => bytes_ok bs → in_u 64 v ∧ bs = uint_wire v).
Proof.
  eapply yields_mono.
  - eapply yields_bind; [apply yields_byte|]. intros first.
    apply (yields_mono _ _ (fun v bs =>
      ((first <= 23) ∧ v = first ∧ bs = []) ∨
      ∃ n minimum, (if first =? 0x18 then Ok (1%nat, 24) else if first =? 0x19 then Ok (2%nat, 256)
        else if first =? 0x1a then Ok (4%nat, 65536) else if first =? 0x1b then Ok (8%nat, 4294967296)
        else Err PairingError.Record) = Ok (n, minimum) ∧ length bs = n ∧
        v = foldl (fun value byte => Z.lor (shl 64 value 8) byte) 0 bs ∧ minimum ≤ v)); [|intros ? ? Hx; exact Hx].
    destruct (first <=? 23) eqn:Ef; bools.
    + eapply yields_mono; [apply yields_ret|]. intros v bs [-> ->]. by left.
    + eapply yields_mono.
      * eapply yields_bind with (Q := fun nm v bs => length bs = nm.1 ∧ nm.2 ≤ v ∧
          v = foldl (fun value byte => Z.lor (shl 64 value 8) byte) 0 bs); [apply yields_lift|].
        intros [n minimum]. cbn [fst snd]. eapply yields_mono.
        -- eapply yields_bind; [apply yields_take|]. intros s. cbv zeta.
           apply (yields_mono _ _ (fun v bs => bs = [] ∧ minimum ≤ v ∧
             v = foldl (fun value byte => Z.lor (shl 64 value 8) byte) 0 s)); [|intros ? ? Hx; exact Hx].
           destruct (_ <? minimum) eqn:Em; bools; [apply yields_fail|].
           eapply yields_mono; [apply yields_ret|]. by intros v bs [-> ->].
        -- intros v bs (s & b3 & b4 & -> & [-> Hl] & -> & Hm & Hv). by rewrite app_nil_r.
      * intros v bs ([n minimum] & b1 & b2 & -> & [Hn ->] & Hl & Hm & Hv).
        right. by exists n, minimum.
  - intros v bs (first & b1 & b2 & -> & -> & Hv) [Hf Hok]%bytes_ok_cons.
    destruct Hv as [(Hs & -> & ->)|(n & minimum & Hn & Hl & -> & Hm)].
    + destruct Hf. unfold uint_wire. rewrite (proj2 (Z.leb_le first 23)) by done. split; [split; lia|done].
    + assert (length b2 ≤ 8)%nat as Hl8 by (repeat case_match; simplify_eq; lia).
      rewrite fold_be in Hm |- * by done.
      destruct (uint_wire_long _ _ _ _ Hn Hl Hok Hm) as (_ & ? & ?). by split.
Qed.

Lemma consumes_kid v : in_u 8 v → consumes rd_kid (uint_wire v) v.
Proof.
  intros Hv. eapply consumes_then; [apply consumes_uint; by apply (in_u_mono 8)|].
  apply consumes_lift. unfold u8_try_from. by rewrite (proj2 (Z.leb_le v 255)) by (destruct Hv; lia).
Qed.

Lemma yields_kid : yields rd_kid (fun v bs => bytes_ok bs → in_u 8 v ∧ bs = uint_wire v).
Proof.
  eapply yields_mono.
  - eapply yields_bind; [apply yields_uint|]. intros v. apply yields_lift.
  - intros v bs (v' & b1 & b2 & -> & Hu & Hv & ->) Hok. rewrite app_nil_r in *.
    destruct (Hu Hok) as [[H0 _] ->]. unfold u8_try_from in Hv.
    destruct (v' <=? 255) eqn:E1; [|done]. injection Hv as <-. bools. split; [split; lia|done].
Qed.

Lemma consumes_end_finish {A} (x : A) :
  consumes_end mk_reader (_ ← rd_finish; mret x) [] x.
Proof.
  intros p _. unbind. unfold rd_finish. cbn [rd_pos rd_bytes]. rewrite app_nil_r, Nat.eqb_refl. by eexists.
Qed.

Lemma yields_end_finish {A} (x : A) :
  yields_end mk_reader (_ ← rd_finish; mret x) (fun a bs => a = x ∧ bs = []).
Proof.
  intros p s s' a. unbind. unfold rd_finish. cbn [rd_pos rd_bytes].
  destruct (_ =? _)%nat eqn:E1; bools; [|done]. intros [= <- <-]. split; [done|].
  rewrite length_app in E1. apply length_zero_iff_nil. lia.
Qed.

Lemma rd_peek_stays r : ∃ a, rd_peek r = (r, Ok a).
Proof. by eexists. Qed.

(** A look ahead at bytes that are then read. *)
Lemma consumes_peek {A} (f : option Z → st Reader PairingError.PairingError A) b bs a :
  consumes (f (Some b)) (b :: bs) a → consumes (n ← rd_peek; f n) (b :: bs) a.
Proof.
  intros Hf p q Hq. unbind. unfold rd_peek. cbn [rd_bytes rd_pos].
  replace ((p ++ (b :: bs) ++ q) !! length p) with (Some b)
    by (symmetry; simpl; by apply lookup_app_mid). by apply Hf.
Qed.

End Reader.

(** ** A look ahead and the item it decides *)
Section Peek.
Context `{Target}.

Lemma yields_end_choice {A C} (g : option Z → st Reader PairingError.PairingError A)
    (f : A → st Reader PairingError.PairingError C) P Q :
  (∀ n, yields mk_reader (g n) P) → (∀ a, yields_end mk_reader (f a) (Q a)) →
  yields_end mk_reader (n ← rd_peek; a ← g n; f a)
    (fun c s => ∃ a b1 b2, s = b1 ++ b2 ∧ P a b1 ∧ Q a c b2).
Proof.
  intros Hg Hf. apply yields_end_peek; [intros; apply rd_peek_stays|]. intros n.
  by apply yields_end_bind.
Qed.

Lemma consumes_end_choice {A C} (g : option Z → st Reader PairingError.PairingError A)
    (f : A → st Reader PairingError.PairingError C) b b1 b2 a c :
  consumes mk_reader (g (Some b)) (b :: b1) a → consumes_end mk_reader (f a) b2 c →
  consumes_end mk_reader (n ← rd_peek; a ← g n; f a) ((b :: b1) ++ b2) c.
Proof.
  intros Hg Hf p Hq. pose proof (consumes_end_bind mk_reader _ _ _ _ _ _ Hg Hf p Hq) as [s' Hs].
  exists s'. revert Hs. unbind. unfold rd_peek. cbn [rd_bytes rd_pos].
  replace ((p ++ (b :: b1) ++ b2) !! length p) with (Some b)
    by (symmetry; simpl; by apply lookup_app_mid). done.
Qed.

(** An optional byte string of 32 bytes. *)
Lemma yields_optional (c : bool) :
  yields mk_reader (if c then o ← rd_bstr 32; mret (Some o) else mret None)
    (fun o bs => match o with
                 | Some o => c = true ∧ bs = bstr o ∧ length o = 32%nat
                 | None => c = false ∧ bs = []
                 end).
Proof.
  destruct c.
  - eapply yields_mono; [eapply yields_bind; [apply yields_bstr; lia|]; intros; apply yields_ret|].
    intros o bs (o' & b1 & b2 & -> & [-> Hl] & -> & ->). by rewrite app_nil_r.
  - eapply yields_mono; [apply yields_ret|]. by intros o bs [-> ->].
Qed.

(** [null], or a byte string of [N] bytes, told apart by the next byte. *)
Lemma yields_nullable (N : nat) (c : bool) : (N ≤ 255)%nat →
  yields mk_reader (if c then _ ← rd_exact [0xf6]; mret None else key ← rd_bstr N; mret (Some key))
    (fun o bs => match o with Some k => bs = bstr k ∧ length k = N | None => bs = [0xf6] end).
Proof.
  intros HN. destruct c.
  - eapply yields_mono; [eapply yields_bind; [apply yields_exact|]; intros; apply yields_ret|].
    intros o bs (? & b1 & b2 & -> & -> & -> & ->). done.
  - eapply yields_mono; [eapply yields_bind; [by apply yields_bstr|]; intros; apply yields_ret|].
    intros o bs (o' & b1 & b2 & -> & [-> Hl] & -> & ->). by rewrite app_nil_r.
Qed.

End Peek.

(** ** Refusals

    A reader never panics, and the only error it reports is [Record]. *)
Section Tame.
Context `{Target}.

Definition tame {S A} (m : st S PairingError.PairingError A) : Prop :=
  ∀ s, match (m s).2 with Ok _ => True | Err e => e = PairingError.Record | _ => False end.

Lemma tame_bind {S A C} (m : st S PairingError.PairingError A) (f : A → st S PairingError.PairingError C) :
  tame m → (∀ a, tame (f a)) → tame (m ≫= f).
Proof.
  intros Hm Hf s. specialize (Hm s). unbind. destruct (m s) as [s' [a|e| |]]; try done. apply Hf.
Qed.
Lemma tame_ret {S A} (a : A) : tame (S:=S) (mret a).
Proof. done. Qed.
Lemma tame_fail {S A} : tame (S:=S) (A:=A) (st_fail PairingError.Record).
Proof. done. Qed.
Lemma tame_take n : tame (rd_take n).
Proof. intros s. unfold rd_take. by destruct (_ ≫= _). Qed.
Lemma tame_byte : tame rd_byte.
Proof.
  intros s. unfold rd_byte. unbind. destruct (rd_take 1 s) as [s' [x|e| |]] eqn:E1; simpl.
  - unfold rd_take in E1. case_match eqn:E2; simplify_eq. apply bind_Some in E2 as (stop & E3 & E4).
    unfold usize_checked_add in E3. case_match; simplify_eq. apply slice_get_length in E4.
    destruct x as [|? ?]; [simpl in E4; lia|]. done.
  - pose proof (tame_take 1 s) as Ht. by rewrite E1 in Ht.
  - pose proof (tame_take 1 s) as Ht. by rewrite E1 in Ht.
  - pose proof (tame_take 1 s) as Ht. by rewrite E1 in Ht.
Qed.
Lemma tame_exact v : tame (rd_exact v).
Proof. apply tame_bind; [apply tame_take|]. intros s. case_match; [apply tame_fail|apply tame_ret]. Qed.
Lemma tame_bstr N : tame (rd_bstr N).
Proof.
  apply tame_bind; [apply tame_exact|]. intros _. apply tame_bind; [apply tame_take|].
  intros s. case_match; [apply tame_ret|apply tame_fail].
Qed.
Lemma tame_boolean : tame rd_boolean.
Proof. apply tame_bind; [apply tame_byte|]. intros b. repeat case_match; first [apply tame_ret|apply tame_fail]. Qed.
Lemma tame_uint : tame rd_uint.
Proof.
  apply tame_bind; [apply tame_byte|]. intros b. case_match; [apply tame_ret|].
  apply tame_bind.
  { intros s. unfold st_lift. by destruct (b =? 0x18), (b =? 0x19), (b =? 0x1a), (b =? 0x1b). }
  intros [len minimum].
  apply tame_bind; [apply tame_take|]. intros s. cbv zeta. case_match; [apply tame_fail|apply tame_ret].
Qed.
Lemma tame_kid : tame rd_kid.
Proof. apply tame_bind; [apply tame_uint|]. intros v s. unfold u8_try_from. simpl. by destruct (_ <=? _). Qed.
Lemma tame_finish : tame rd_finish.
Proof. intros s. unfold rd_finish. by destruct (negb _). Qed.
Lemma tame_peek : tame rd_peek.
Proof. done. Qed.

End Tame.

#[export] Hint Resolve tame_ret tame_fail tame_take tame_byte tame_exact tame_bstr tame_boolean tame_uint
  tame_kid tame_finish tame_peek : coap.
Ltac tame_solve :=
  repeat first [ progress auto with coap
               | apply tame_bind; [|intros ?]
               | match goal with |- tame (if ?c then _ else _) => destruct c end ].

(** Walk down a reader, one lemma per item it reads. *)
Ltac read_step :=
  first [ eapply yields_end_bind;
          [first [ apply yields_byte | apply yields_lift | apply yields_exact
                 | apply yields_bstr; lia | apply yields_uint | apply yields_kid
                 | apply yields_boolean | apply yields_optional ]
          | intros ? ]
        | apply yields_end_finish ].

(** ** Records *)
Section Records.
Context `{Target} `{P : P256} `{HP : !P256Laws P} `{B : Blake3} `{HB : !Blake3Laws B}.

(** What the decoder demands of a record and every operation keeps. *)
Definition pairing_ok (r : PairingRecord) : Prop :=
  arr32 (pr_store r) ∧ pr_store r ≠ zero32 ∧ in_u 64 (pr_revision r) ∧
  arr32 (pr_local r) ∧ pr_local r ≠ zero32 ∧
  match pr_policy r with
  | Some p => 2 ≤ pr_revision r ∧ policy_ok p ∧
      match pr_recovery_owner r with
      | Some o => arr32 o ∧ o ≠ zero32 ∧ ep_owner p ≠ o
      | None => True
      end
  | None => pr_revision r = 1 ∧ pr_enabled r = false ∧ pr_recovery_owner r = None
  end.

Definition fields_of (r : PairingRecord) : record_fields :=
  mk_fields (pr_recovery_owner r) (pr_store r) (pr_revision r) (pr_local r)
    ((fun p => peer_key (ep_peer p)) <$> pr_policy r)
    (match pr_policy r with Some p => peer_kid_of (ep_peer p) | None => 0 end)
    (match pr_policy r with Some p => ep_owner p | None => zero32 end)
    (match pr_policy r with Some p => ep_resource_policy p | None => zero32 end)
    (pr_enabled r).

Definition fields_ok (f : record_fields) : Prop :=
  arr32 (rf_store f) ∧ in_u 64 (rf_revision f) ∧ arr32 (rf_local f) ∧
  match rf_public f with Some k => length k = 65%nat ∧ bytes_ok k | None => True end ∧
  in_u 8 (rf_kid f) ∧ arr32 (rf_owner f) ∧ arr32 (rf_permissions f) ∧
  match rf_recovery f with Some o => arr32 o | None => True end.

Definition fields_wire (f : record_fields) : list Z :=
  [match rf_recovery f with Some _ => 0x8a | None => 0x89 end] ++ [1] ++ bstr (rf_store f) ++
  uint_wire (rf_revision f) ++ bstr (rf_local f) ++
  match rf_public f with Some k => bstr k | None => [0xf6] end ++ uint_wire (rf_kid f) ++
  bstr (rf_owner f) ++ bstr (rf_permissions f) ++ [if rf_enabled f then 0xf5 else 0xf4] ++
  match rf_recovery f with Some o => bstr o | None => [] end.

(** The wire form of a record. *)
Definition record_wire (r : PairingRecord) : list Z := fields_wire (fields_of r).

Lemma pairing_ok_fields r : pairing_ok r → fields_ok (fields_of r).
Proof.
  intros (Hs & _ & Hr & Hl & _ & Hp). unfold fields_ok, fields_of. cbn -[zero32 in_u arr32].
  assert (arr32 zero32) as Hz by (split; [done|by repeat constructor]).
  destruct (pr_policy r) as [p|]; cbn [fmap option_fmap option_map] in *.
  - destruct Hp as (_ & (Hpe & Ho & _ & Hrp & _) & Hro).
    destruct (peer_ok_export (E:=unit) _ Hpe) as (_ & _ & ? & ? & ? & _).
    repeat (split; [done|]). by destruct (pr_recovery_owner r); [destruct Hro|].
  - destruct Hp as (_ & _ & ->). by repeat (split; [done|]).
Qed.

Lemma length_fields_wire f : fields_ok f → (length (fields_wire f) ≤ MAX_ENCODED_LEN)%nat.
Proof.
  intros ((Ls & _) & _ & (Ll & _) & Hp & Hk & (Lo & _) & (Lp & _) & Hr).
  unfold fields_wire. rewrite !length_app, !length_bstr.
  pose proof (length_uint_wire (rf_revision f)).
  assert (length (uint_wire (rf_kid f)) ≤ 2)%nat.
  { unfold uint_wire. destruct Hk. repeat case_match; bools; simpl; lia. }
  assert (length (match rf_public f with Some k => bstr k | None => [0xf6%Z] end) ≤ 67)%nat.
  { destruct (rf_public f); [|simpl; lia]. destruct Hp. rewrite length_bstr. lia. }
  assert (length (match rf_recovery f with Some o => bstr o | None => [] end) ≤ 34)%nat.
  { destruct (rf_recovery f) as [o|]; [|simpl; lia]. destruct Hr. rewrite length_bstr. lia. }
  unfold MAX_ENCODED_LEN. simpl (length [_]). lia.
Qed.

Lemma record_writes r : pairing_ok r → writes (record_write r) (record_wire r).
Proof.
  intros Hok. pose proof (pairing_ok_fields r Hok) as ((Ls & _) & _ & (Ll & _) & _ & _ & (Lo & _) & (Lp & _) & Hr).
  destruct Hok as (_ & _ & Hrev & _ & _ & Hpol). unfold record_write, record_wire, fields_wire.
  cbn [fields_of rf_store rf_revision rf_local rf_public rf_kid rf_owner rf_permissions rf_enabled rf_recovery] in *.
  rewrite (app_assoc [_] [1]). apply wrote_bind; [apply writes_raw|].
  apply wrote_bind; [apply writes_bstr; lia|]. apply wrote_bind; [by apply writes_uint|].
  apply wrote_bind; [apply writes_bstr; lia|].
  assert (writes (match pr_recovery_owner r with Some owner => wr_bstr owner | None => mret tt end)
    (match pr_recovery_owner r with Some o => bstr o | None => [] end)) as Hlast.
  { destruct (pr_recovery_owner r) as [o|]; [|apply writes_ret]. destruct Hr. apply writes_bstr. lia. }
  destruct (pr_policy r) as [p|]; cbn [fmap option_fmap option_map] in *.
  - destruct Hpol as (_ & (Hpe & _) & _).
    destruct (peer_ok_export (E:=PairingError.PairingError) _ Hpe) as (Ek & Ei & Lk & _ & Hk & _).
    rewrite (app_assoc (bstr (peer_key _))), (app_assoc _ (bstr (ep_owner p))),
      (app_assoc _ (bstr (ep_resource_policy p))).
    apply wrote_bind; [|by apply wrote_bind; [apply writes_raw|]].
    rewrite <- !app_assoc. eapply writes_lift; [done|]. apply wrote_bind; [apply writes_bstr; lia|].
    eapply writes_lift; [done|]. apply wrote_bind; [apply writes_uint; by apply (in_u_mono 8)|].
    apply wrote_bind; apply writes_bstr; lia.
  - rewrite (app_assoc [_] (uint_wire 0)), (app_assoc _ (bstr zero32)), (app_assoc _ (bstr zero32)).
    apply wrote_bind; [|by apply wrote_bind; [apply writes_raw|]].
    rewrite <- !app_assoc. rewrite (app_assoc [_]). apply wrote_bind; [apply writes_raw|].
    apply wrote_bind; apply writes_bstr; unfold zero32; rewrite length_replicate; lia.
Qed.

Lemma read_fields_wire f : fields_ok f → consumes_end mk_reader read_fields (fields_wire f) f.
Proof.
  intros ((Ls & _) & Hrev & (Ll & _) & Hp & Hk & (Lo & _) & (Lp & _) & Hr).
  unfold read_fields, fields_wire.
  eapply consumes_end_bind; [apply consumes_byte|].
  eapply (consumes_end_first _ _ _ _ (match rf_recovery f with Some _ => true | None => false end)).
  { apply consumes_lift. by destruct (rf_recovery f). }
  eapply consumes_end_bind; [apply consumes_exact|].
  eapply consumes_end_bind; [rewrite <- Ls; apply consumes_bstr; lia|].
  eapply consumes_end_bind; [by apply consumes_uint|].
  eapply consumes_end_bind; [rewrite <- Ll; apply consumes_bstr; lia|].
  assert (consumes_end mk_reader
    (kid ← rd_kid; owner ← rd_bstr 32; permissions ← rd_bstr 32; enabled ← rd_boolean;
     recovery_owner ← (if match rf_recovery f with Some _ => true | None => false end
       then o ← rd_bstr 32; mret (Some o) else mret None);
     _ ← rd_finish;
     mret (mk_fields recovery_owner (rf_store f) (rf_revision f) (rf_local f) (rf_public f) kid owner
       permissions enabled))
    (uint_wire (rf_kid f) ++ bstr (rf_owner f) ++ bstr (rf_permissions f) ++
     [if rf_enabled f then 0xf5 else 0xf4] ++ match rf_recovery f with Some o => bstr o | None => [] end) f)
    as Htail.
  { eapply consumes_end_bind; [by apply consumes_kid|].
    eapply consumes_end_bind; [rewrite <- Lo; apply consumes_bstr; lia|].
    eapply consumes_end_bind; [rewrite <- Lp; apply consumes_bstr; lia|].
    eapply consumes_end_bind; [apply consumes_boolean|].
    rewrite <- (app_nil_r (match rf_recovery f with Some o => bstr o | None => [] end)).
    eapply consumes_end_bind with (a := rf_recovery f).
    - destruct (rf_recovery f) as [o|]; [|apply consumes_ret]. destruct Hr as [Lr _].
      eapply consumes_then; [rewrite <- Lr; apply consumes_bstr; lia|]. apply consumes_ret.
    - destruct f. apply consumes_end_finish. }
  destruct (rf_public f) as [k|].
  - destruct Hp as [Lk _]. unfold bstr at 1.
    apply (consumes_end_choice (fun next => if eqb next (Some 0xf6) then _ ← rd_exact [0xf6]; mret None
            else key ← rd_bstr 65; mret (Some key))) with (a := Some k); [|exact Htail].
    simpl. eapply consumes_then; [rewrite <- Lk; apply consumes_bstr; lia|]. apply consumes_ret.
  - apply (consumes_end_choice (fun next => if eqb next (Some 0xf6) then _ ← rd_exact [0xf6]; mret None
            else key ← rd_bstr 65; mret (Some key))) with (a := None); [|exact Htail].
    simpl. eapply consumes_then; [apply consumes_exact|]. apply consumes_ret.
Qed.

(** Whatever the reader accepts is the wire form of the fields it returns. *)
Lemma read_fields_yields :
  yields_end mk_reader read_fields (fun f s => bytes_ok s → fields_ok f ∧ s = fields_wire f).
Proof.
  eapply yields_end_mono.
  - unfold read_fields. do 6 read_step.
    eapply (yields_end_choice (fun next => if eqb next (Some 0xf6) then _ ← rd_exact [0xf6]; mret None
            else key ← rd_bstr 65; mret (Some key))).
    + intros n. apply yields_nullable. lia.
    + intros ?. repeat read_step.
  - intros f s (first & b1 & s1 & -> & -> & recovery & b2 & s2 & -> & [Hrec ->] & _ & b3 & s3 & -> & -> &
      store & b4 & s4 & -> & [-> Ls] & revision & b5 & s5 & -> & Hrev & local & b6 & s6 & -> & [-> Ll] &
      public & b7 & s7 & -> & Hpub & kid & b8 & s8 & -> & Hkid & owner & b9 & s9 & -> & [-> Lo] &
      perms & b10 & s10 & -> & [-> Lp] & enabled & b11 & s11 & -> & -> & ro & b12 & s12 & -> & Hro & -> & ->).
    rewrite !bytes_ok_app. unfold bstr at 1 2 3 4. rewrite !bytes_ok_cons.
    intros (_ & _ & _ & (_ & _ & Os) & O5 & (_ & _ & Ol) & O7 & O8 & (_ & _ & Oo) & (_ & _ & Op) & _ & O12 & _).
    destruct (Hrev O5) as [Hr ->], (Hkid O8) as [Hk ->]. rewrite app_nil_l, app_nil_r.
    unfold fields_ok, fields_wire.
    cbn [rf_store rf_revision rf_local rf_public rf_kid rf_owner rf_permissions rf_enabled rf_recovery].
    assert (first = match ro with Some _ => 0x8a | None => 0x89 end) as ->.
    { destruct ro as [o|]; destruct Hro as [-> _]; repeat case_match; bools; by simplify_eq. }
    split.
    + split; [done|]. split; [done|]. split; [done|]. split.
      { destruct public; [|done]. destruct Hpub as [-> ?]. split; [done|].
        by apply bytes_ok_cons in O7 as [_ [_ ?]%bytes_ok_cons]. }
      split; [done|]. split; [done|]. split; [done|]. destruct ro as [o|]; [|done].
      destruct Hro as (_ & -> & ?). split; [done|].
      by apply bytes_ok_cons in O12 as [_ [_ ?]%bytes_ok_cons].
    + do 5 f_equal. destruct public; [destruct Hpub as [-> _]|rewrite Hpub];
        (destruct ro as [o|]; [destruct Hro as (_ & -> & _)|destruct Hro as (_ & ->)]); done.
Qed.

Lemma check_fields_of r : pairing_ok r → check_fields (fields_of r) = Ok r.
Proof.
  intros (Hs & Ns & Hrev & Hl & Nl & Hp). unfold check_fields, fields_of.
  cbn [rf_store rf_revision rf_local rf_public rf_kid rf_owner rf_permissions rf_enabled rf_recovery].
  rewrite (zero32_neqb _ Ns), (zero32_neqb _ Nl).
  destruct r as [store revision local policy enabled recovery]. simpl in *.
  destruct policy as [[peer owner rp]|]; simpl in *.
  - destruct Hp as (H2 & (Hpe & Ho & No & Hrp & Nrp) & Hro). simpl in *.
    destruct (peer_ok_export (E:=unit) _ Hpe) as (_ & _ & _ & _ & _ & ->). unbind.
    rewrite (proj2 (Z.ltb_ge revision 2)) by done. cbn [map_err].
    unfold policy_new, validate_policy. rewrite (zero32_neqb _ No), (zero32_neqb _ Nrp). unbind. cbn [orb map_err].
    rewrite (proj2 (Z.eqb_neq revision 0)) by lia. destruct recovery as [o|]; [|done].
    destruct Hro as (_ & Nz & Ne). rewrite (zero32_neqb _ Nz). cbn [ep_owner orb].
    unfold eqb. by rewrite bool_decide_eq_false_2.
  - destruct Hp as (-> & -> & ->). unbind. done.
Qed.

Lemma check_fields_inv f r : fields_ok f → check_fields f = Ok r → pairing_ok r ∧ fields_of r = f.
Proof.
  intros (Hs & Hrev & Hl & Hpub & Hk & Ho & Hp & Hr). unfold check_fields. unbind.
  destruct f as [recovery store revision local public kid owner perms enabled]. simpl in *.
  destruct public as [key|].
  - destruct (revision <? 2) eqn:E2; [done|]. bools.
    destruct (from_public_key key kid) as [peer| | |] eqn:Ek; try done. cbn [map_err].
    destruct (policy_new peer owner perms) as [pol| | |] eqn:Ep; try done. cbn [map_err].
    apply policy_new_inv in Ep as (-> & No & Np).
    destruct (_ || _) eqn:E3; [done|]. bools. destruct (match recovery with Some _ => _ | None => _ end) eqn:E4;
      [done|]. intros [= <-].
    destruct Hpub as [Lk Ok_]. pose proof (from_public_key_ok _ _ _ Hk Lk Ek) as Hpeer.
    split.
    + split; [done|]. split; [done|]. split; [done|]. split; [done|]. split; [done|]. simpl.
      split; [done|]. split; [done|]. destruct recovery as [o|]; [|done]. bools. done.
    + unfold fields_of. simpl. f_equal.
      * f_equal. by eapply from_public_key_key.
      * by apply from_public_key_kid in Ek.
  - destruct (_ || match recovery with Some _ => _ | None => _ end) eqn:E1; [done|]. bools. simpl.
    destruct (_ || _) eqn:E3; [done|]. bools. subst. destruct recovery; [done|]. intros [= <-].
    split; [|done]. unfold pairing_ok. cbn -[in_u arr32 zero32]. auto 10.
Qed.

Lemma tame_read_fields : tame read_fields.
Proof.
  unfold read_fields. tame_solve. intros s. unfold st_lift. by destruct (a =? 0x89), (a =? 0x8a).
Qed.

Lemma check_fields_refuses f :
  match check_fields f with Ok _ => True | Err e => e = PairingError.Record | _ => False end.
Proof.
  unfold check_fields. unbind. destruct (rf_public f) as [key|].
  - destruct (rf_revision f <? 2); [done|].
    pose proof (from_public_key_returns key (rf_kid f)) as Hr.
    destruct (from_public_key key (rf_kid f)); try done. cbn [map_err].
    unfold policy_new, validate_policy. unbind. destruct (_ || eqb (rf_permissions f) zero32); [done|].
    cbn [map_err]. destruct (_ || (rf_revision f =? 0)); [done|].
    by destruct (match rf_recovery f with Some _ => _ | None => _ end).
  - destruct (_ || match rf_recovery f with Some _ => _ | None => _ end); [done|].
    cbn [res_bind mret]. destruct (_ || (rf_revision f =? 0)); [done|].
    by destruct (match rf_recovery f with Some _ => _ | None => _ end).
Qed.

(** ** Properties of records *)

(** Pairing records are stored canonically.  A valid record is written in
    at most 251 bytes wherever it fits, and refused without a panic where it
    does not; the decoder accepts exactly the wire forms of valid records, gives
    back the record that was written, and refuses every other input as an
    invalid record. *)
Theorem pairing_record_codec :
  (∀ r out, pairing_ok r → usize_ok (length out) →
    (length (record_wire r) ≤ MAX_ENCODED_LEN)%nat ∧
    if (length (record_wire r) <=? length out)%nat
    then record_encode r out = (splice out 0 (record_wire r), Ok (length (record_wire r)))
    else ∃ out', length out' = length out ∧ record_encode r out = (out', Err PairingError.Record)) ∧
  (∀ bs r, bytes_ok bs → record_decode bs = Ok r ↔ pairing_ok r ∧ bs = record_wire r) ∧
  (∀ bs, (∃ r, record_decode bs = Ok r) ∨ record_decode bs = Err PairingError.Record).
Proof.
  split; [|split].
  - intros r out Hr Hu. split; [by apply length_fields_wire, pairing_ok_fields|].
    apply encode_with_writes; [by apply record_writes|done].
  - intros bs r Hok. unfold record_decode, rd_new. split.
    + destruct (CAPACITY <? length bs)%nat; [done|]. unbind.
      destruct (read_fields (mk_reader bs 0)) as [s' [f|e| |]] eqn:Ef; try done. cbn [snd].
      apply (read_fields_yields []) in Ef as [Hf ->]; [|done].
      intros HE. destruct (check_fields_inv f r Hf HE) as [Hr Hfo]. split; [done|].
      unfold record_wire. by rewrite Hfo.
    + intros [Hr ->]. pose proof (pairing_ok_fields r Hr) as Hf. pose proof (length_fields_wire _ Hf) as Hl.
      fold (record_wire r) in Hl. rewrite (proj2 (Nat.ltb_ge _ _)) by exact Hl. unbind.
      destruct (read_fields_wire _ Hf []) as [s' Hs].
      { unfold usize_ok. pose proof usize_max_ge. rewrite app_nil_l. fold (record_wire r).
        unfold MAX_ENCODED_LEN in Hl. lia. }
      cbn [app length] in Hs. fold (record_wire r) in Hs. rewrite Hs. by apply check_fields_of.
  - intros bs. unfold record_decode, rd_new. destruct (_ <? _)%nat; [by right|]. unbind.
    pose proof (tame_read_fields (mk_reader bs 0)) as Ht.
    destruct (read_fields (mk_reader bs 0)) as [s' [f|e| |]]; try done; simpl in *; [|right; by subst].
    pose proof (check_fields_refuses f) as Hc. destruct (check_fields f); try done; [by left; eauto|].
    right. by subst.
Qed.

End Records.

(** ** Witness *)
#[local] Existing Instance target64.
#[local] Existing Instances Sample.curve Sample.curve_laws Sample.digest Sample.digest_laws.

Definition sample_record : PairingRecord :=
  mk_pairing (replicate 32 5) 1 (pp_principal (sample_peer Sample.KA 1)) None false None.

Lemma sample_record_ok : pairing_ok sample_record.
Proof.
  split; [by apply sample_arr32|]. split; [done|]. split; [done|].
  split; [by apply peer_principal_arr, sample_peer_ok|]. by split.
Qed.

Lemma pairing_record_codec_witness :
  record_decode (record_wire sample_record) = Ok sample_record ∧
  ∃ out', record_encode sample_record (replicate 20 0) = (out', Err PairingError.Record).
Proof.
  destruct pairing_record_codec as (He & Hd & _). split.
  - apply Hd; [|split; [exact sample_record_ok|reflexivity]].
    apply (bool_decide_unpack _). vm_compute. exact I.
  - destruct (He sample_record (replicate 20 0) sample_record_ok) as [_ Ho];
      [unfold usize_ok; simpl; lia|]. destruct Ho as (out' & _ & Ho). exists out'. exact Ho.
Defined.

(** * Theorems on the encoding of challenges and updates *)

Section Updates.
Context `{Target} `{P : P256} `{HP : !P256Laws P} `{B : Blake3} `{HB : !Blake3Laws B}.

(** ** Challenges *)
Definition challenge_ok (c : PairingChallenge) : Prop :=
  peer_ok (pc_device c) ∧ arr32 (pc_store c) ∧ pc_store c ≠ zero32 ∧
  in_u 64 (pc_revision c) ∧ pc_revision c ≠ 0 ∧ arr32 (pc_digest c) ∧
  arr32 (pc_nonce c) ∧ pc_nonce c ≠ zero32.

Definition challenge_parts (c : PairingChallenge) : list Z * Z * list Z * Z * list Z * list Z :=
  (peer_key (pc_device c), peer_kid_of (pc_device c), pc_store c, pc_revision c, pc_digest c, pc_nonce c).

Definition parts_wire (t : list Z * Z * list Z * Z * list Z * list Z) : list Z :=
  let '(key, kid, store, revision, digest, nonce) := t in
  [0x87; 1] ++ bstr key ++ uint_wire kid ++ bstr store ++ uint_wire revision ++ bstr digest ++ bstr nonce.

Definition challenge_wire (c : PairingChallenge) : list Z := parts_wire (challenge_parts c).

Lemma length_kid k : in_u 8 k → (length (uint_wire k) ≤ 2)%nat.
Proof. intros [? ?]. unfold uint_wire. repeat case_match; bools; simpl; lia. Qed.

Lemma length_challenge_wire c : challenge_ok c → (173 ≤ length (challenge_wire c) ≤ 182)%nat.
Proof.
  intros (Hp & (Ls & _) & _ & _ & _ & (Ld & _) & (Ln & _) & _).
  destruct (peer_ok_export (E:=unit) _ Hp) as (_ & _ & Lk & _ & Hk & _).
  unfold challenge_wire, challenge_parts, parts_wire. rewrite !length_app, !length_bstr.
  pose proof (length_uint_wire (pc_revision c)). pose proof (length_uint_wire (peer_kid_of (pc_device c))).
  pose proof (length_kid _ Hk). simpl (length [_; _]). lia.
Qed.

Lemma challenge_writes c : challenge_ok c → writes (challenge_write c) (challenge_wire c).
Proof.
  intros (Hp & (Ls & _) & _ & Hr & _ & (Ld & _) & (Ln & _) & _).
  destruct (peer_ok_export (E:=PairingError.PairingError) _ Hp) as (Ek & Ei & Lk & _ & Hk & _).
  unfold challenge_write, challenge_wire, challenge_parts, parts_wire.
  apply wrote_bind; [apply writes_raw|]. eapply writes_lift; [done|].
  apply wrote_bind; [apply writes_bstr; lia|]. eapply writes_lift; [done|].
  apply wrote_bind; [apply writes_uint; by apply (in_u_mono 8)|].
  apply wrote_bind; [apply writes_bstr; lia|]. apply wrote_bind; [by apply writes_uint|].
  apply wrote_bind; apply writes_bstr; lia.
Qed.

Lemma read_challenge_wire c : challenge_ok c →
  consumes_end mk_reader read_challenge (challenge_wire c) (challenge_parts c).
Proof.
  intros (Hp & (Ls & _) & _ & Hr & _ & (Ld & _) & (Ln & _) & _).
  destruct (peer_ok_export (E:=PairingError.PairingError) _ Hp) as (_ & _ & Lk & _ & Hk & _).
  unfold read_challenge, challenge_wire, challenge_parts, parts_wire.
  eapply consumes_end_bind; [apply consumes_exact|].
  eapply consumes_end_bind; [rewrite <- Lk; apply consumes_bstr; lia|].
  eapply consumes_end_bind; [by apply consumes_kid|].
  eapply consumes_end_bind; [rewrite <- Ls; apply consumes_bstr; lia|].
  eapply consumes_end_bind; [by apply consumes_uint|].
  eapply consumes_end_bind; [rewrite <- Ld; apply consumes_bstr; lia|].
  eapply (consumes_end_seq _ _ _ _ []); [rewrite <- Ln; apply consumes_bstr; lia| |by rewrite app_nil_r].
  apply consumes_end_finish.
Qed.

Definition parts_ok (t : list Z * Z * list Z * Z * list Z * list Z) : Prop :=
  let '(key, kid, store, revision, digest, nonce) := t in
  length key = 65%nat ∧ bytes_ok key ∧ in_u 8 kid ∧ arr32 store ∧ in_u 64 revision ∧ arr32 digest ∧
  arr32 nonce.

Lemma read_challenge_yields :
  yields_end mk_reader read_challenge (fun t s => bytes_ok s → parts_ok t ∧ s = parts_wire t).
Proof.
  eapply yields_end_mono; [unfold read_challenge; repeat read_step|].
  intros t s (_ & b1 & s1 & -> & -> & key & b2 & s2 & -> & [-> Lk] & kid & b3 & s3 & -> & Hkid &
    store & b4 & s4 & -> & [-> Ls] & revision & b5 & s5 & -> & Hrev & digest & b6 & s6 & -> & [-> Ld] &
    nonce & b7 & s7 & -> & [-> Ln] & -> & ->).
  rewrite !bytes_ok_app. unfold bstr at 1 2 3 4. rewrite !bytes_ok_cons.
  intros (_ & (_ & _ & Ok_) & O3 & (_ & _ & Os) & O5 & (_ & _ & Od) & (_ & _ & On) & _).
  destruct (Hkid O3) as [Hk ->], (Hrev O5) as [Hr ->]. split.
  { unfold parts_ok, arr32. auto 12. }
  by rewrite app_nil_r.
Qed.

Lemma challenge_decode_wire c : challenge_ok c → challenge_decode (challenge_wire c) = Ok c.
Proof.
  intros Hc. pose proof (length_challenge_wire c Hc) as Hl. unfold challenge_decode, rd_new.
  rewrite (proj2 (Nat.ltb_ge _ _)) by (unfold CAPACITY, MAX_ENCODED_LEN; lia). unbind.
  destruct (read_challenge_wire c Hc []) as [s' Hs].
  { unfold usize_ok. pose proof usize_max_ge. rewrite app_nil_l. lia. }
  cbn [app length] in Hs. rewrite Hs. unfold challenge_parts. cbn [snd].
  destruct Hc as (Hp & _ & Ns & _ & Nr & _ & _ & Nn).
  rewrite (zero32_neqb _ Ns), (zero32_neqb _ Nn), (proj2 (Z.eqb_neq _ _)) by done. simpl.
  destruct (peer_ok_export (E:=PairingError.PairingError) _ Hp) as (_ & _ & _ & _ & _ & ->). by destruct c.
Qed.

(** The decoder of challenges accepts exactly their wire forms. *)
Lemma challenge_decode_iff bs c : bytes_ok bs →
  challenge_decode bs = Ok c ↔ challenge_ok c ∧ bs = challenge_wire c.
Proof.
  intros Hok. split; [|intros [Hc ->]; by apply challenge_decode_wire].
  unfold challenge_decode, rd_new. destruct (CAPACITY <? length bs)%nat; [done|]. unbind.
  destruct (read_challenge (mk_reader bs 0)) as [s' [t|e| |]] eqn:Et; try done. cbn [snd].
  apply (read_challenge_yields []) in Et as [Ht ->]; [|done].
  destruct t as [[[[[key kid] store] revision] digest] nonce].
  destruct Ht as (Lk & Ok_ & Hk & Hs & Hr & Hd & Hn).
  destruct (_ || _) eqn:E1; [done|]. bools.
  destruct (from_public_key key kid) as [device| | |] eqn:Ek; try done. intros [= <-].
  split; [split; [by eapply from_public_key_ok|]; done|].
  unfold challenge_wire, challenge_parts. cbn [pc_device pc_store pc_revision pc_digest pc_nonce].
  rewrite (from_public_key_kid _ _ _ Ek). by rewrite (from_public_key_key _ _ _ Lk Ek).
Qed.

(** ** Updates *)

(** The action code an update is written with. *)
Definition update_code (u : PairingUpdate) : Z :=
  if negb (pu_recovery_action u =? 0) then pu_recovery_action u + 2
  else match pu_current_owner u with
       | Some _ => 2
       | None => if pu_revoke u then 1 else 0
       end.

Definition other_owner (p : EnrollmentPolicy) (o : list Z) : Prop :=
  arr32 o ∧ o ≠ zero32 ∧ o ≠ ep_owner p.

(** What the constructors of updates guarantee. *)
Definition update_ok (u : PairingUpdate) : Prop :=
  challenge_ok (pu_challenge u) ∧ policy_ok (pu_policy u) ∧
  ((pu_recovery_action u = 0 ∧ pu_current_owner u = None) ∨
   (pu_revoke u = false ∧ pu_recovery_action u = 1 ∧ pu_current_owner u = None) ∨
   (pu_revoke u = false ∧ 0 ≤ pu_recovery_action u ≤ 2 ∧
     ∃ o, pu_current_owner u = Some o ∧ other_owner (pu_policy u) o)).

Definition update_tail (u : PairingUpdate) : list Z :=
  match pu_current_owner u with
  | Some o => bstr o
  | None => if pu_recovery_action u =? 1 then [0xf6] else []
  end.

Definition update_wire (u : PairingUpdate) : list Z :=
  let p := pu_policy u in
  [if update_code u <? 2 then 0x87 else 0x88] ++ [1] ++ [update_code u] ++
  bstr (challenge_wire (pu_challenge u)) ++ bstr (peer_key (ep_peer p)) ++
  uint_wire (peer_kid_of (ep_peer p)) ++ bstr (ep_owner p) ++ bstr (ep_resource_policy p) ++
  update_tail u.

Lemma update_code_cases u : update_ok u →
  (update_code u = (if pu_revoke u then 1 else 0) ∧ pu_recovery_action u = 0 ∧ pu_current_owner u = None) ∨
  (update_code u = 3 ∧ pu_revoke u = false ∧ pu_recovery_action u = 1 ∧ pu_current_owner u = None) ∨
  (update_code u = pu_recovery_action u + 2 ∧ pu_revoke u = false ∧ 0 ≤ pu_recovery_action u ≤ 2 ∧
    ∃ o, pu_current_owner u = Some o ∧ other_owner (pu_policy u) o).
Proof.
  intros (_ & _ & [[Ea Eo]|[(Er & Ea & Eo)|(Er & Ha & o & Eo & Ho)]]); unfold update_code.
  - left. by rewrite Ea, Eo.
  - right. left. by rewrite Ea, Eo.
  - right. right. split; [|eauto]. rewrite Eo. destruct (Z.eqb_spec (pu_recovery_action u) 0) as [->|]; done.
Qed.

Lemma length_update_wire u : update_ok u → (length (update_wire u) ≤ 358)%nat.
Proof.
  intros Hu. pose proof (update_code_cases u Hu) as Hc.
  destruct Hu as (Hch & (Hpe & (Lo & _) & _ & (Lr & _) & _) & _).
  pose proof (length_challenge_wire _ Hch). destruct (peer_ok_export (E:=unit) _ Hpe) as (_ & _ & Lk & _ & Hk & _).
  pose proof (length_kid _ Hk).
  assert (length (update_tail u) ≤ 34)%nat.
  { unfold update_tail. destruct Hc as [(_ & _ & ->)|[(_ & _ & _ & ->)|(_ & _ & _ & o & -> & (L & _) & _)]].
    - case_match; simpl; lia.
    - case_match; simpl; lia.
    - rewrite length_bstr. lia. }
  unfold update_wire. rewrite !length_app, !length_bstr. simpl (length [_]). lia.
Qed.

Lemma update_writes u : update_ok u →
  writes (update_write u (challenge_wire (pu_challenge u))) (update_wire u).
Proof.
  intros Hu. pose proof (update_code_cases u Hu) as Hc.
  destruct Hu as (Hch & (Hpe & (Lo & _) & _ & (Lr & _) & _) & _).
  pose proof (length_challenge_wire _ Hch) as Hl.
  destruct (peer_ok_export (E:=PairingError.PairingError) _ Hpe) as (Ek & Ei & Lk & _ & Hk & _).
  unfold update_write, update_wire. cbv zeta.
  rewrite (app_assoc [_] [1]), (app_assoc _ [update_code u]). apply wrote_bind.
  { cbn [app]. unfold update_code. destruct (pu_recovery_action u =? 0) eqn:E0; cbn [negb].
    - destruct (pu_current_owner u); [apply writes_raw|]. destruct (pu_revoke u); apply writes_raw.
    - assert ((pu_recovery_action u + 2 <? 2) = false) as ->.
      { bools. apply Z.ltb_ge. destruct Hc as [(_ & ? & _)|[(_ & _ & ? & _)|(_ & _ & ? & _)]]; lia. }
      apply writes_raw. }
  apply wrote_bind; [apply writes_bstr; lia|]. eapply writes_lift; [done|].
  apply wrote_bind; [apply writes_bstr; lia|]. eapply writes_lift; [done|].
  apply wrote_bind; [apply writes_uint; by apply (in_u_mono 8)|].
  apply wrote_bind; [apply writes_bstr; lia|]. apply wrote_bind; [apply writes_bstr; lia|].
  unfold update_tail. destruct (pu_current_owner u) as [o|] eqn:Eo.
  - apply writes_bstr. destruct Hc as [(_ & _ & ?)|[(_ & _ & _ & ?)|(_ & _ & _ & o' & ? & (L & _) & _)]];
      simplify_eq; lia.
  - destruct (_ =? 1); [apply writes_raw|apply writes_ret].
Qed.

(** The tail of an update and how its owner field is read. *)
Definition owner_choice (action : Z) (next : option Z) : st Reader PairingError.PairingError (option (list Z)) :=
  if (action =? 3) && eqb next (Some 0xf6) then _ ← rd_exact [0xf6]; mret None
  else if 2 <=? action then o ← rd_bstr 32; mret (Some o)
  else mret None.

Lemma yields_owner action n : yields mk_reader (owner_choice action n)
  (fun o bs => match o with
               | Some o => 2 ≤ action ∧ bs = bstr o ∧ length o = 32%nat
               | None => (action = 3 ∧ bs = [0xf6]) ∨ (action < 2 ∧ bs = [])
               end).
Proof.
  unfold owner_choice. destruct ((action =? 3) && _) eqn:E1; bools.
  - eapply yields_mono; [eapply yields_bind; [apply yields_exact|]; intros; apply yields_ret|].
    intros o bs (? & b1 & b2 & -> & -> & -> & ->). by left.
  - destruct (2 <=? action) eqn:E2; bools.
    + eapply yields_mono; [eapply yields_bind; [apply yields_bstr; lia|]; intros; apply yields_ret|].
      intros o bs (o' & b1 & b2 & -> & [-> Hl] & -> & ->). by rewrite app_nil_r.
    + eapply yields_mono; [apply yields_ret|]. intros o bs [-> ->]. by right.
Qed.

Lemma update_action_inv array n action : update_action array n = Ok action →
  n = action ∧ action ≤ 4 ∧ array = (if action <? 2 then 0x87 else 0x88).
Proof.
  unfold update_action. destruct (_ || _) eqn:E1; [|done]. intros [= <-]. bools.
  destruct E1 as [E1|E1]; bools; subst; (split; [done|]); (split; [lia|]).
  - by rewrite (proj2 (Z.ltb_lt n 2)) by lia.
  - by rewrite (proj2 (Z.ltb_ge n 2)) by lia.
Qed.

Lemma tame_challenge_decode bs :
  match challenge_decode bs with Ok _ => True | Err e => e = PairingError.Record | _ => False end.
Proof.
  unfold challenge_decode, rd_new. destruct (_ <? _)%nat; [done|]. unbind.
  assert (tame read_challenge) as Ht by (unfold read_challenge; tame_solve).
  specialize (Ht (mk_reader bs 0)).
  destruct (read_challenge (mk_reader bs 0)) as [s' [t|e| |]]; try done. cbn [snd].
  destruct t as [[[[[key kid] store] revision] digest] nonce]. destruct (_ || _); [done|].
  pose proof (from_public_key_returns key kid) as Hr. by destruct (from_public_key key kid).
Qed.

Lemma yields_end_guard {A} (c : bool) (m : st Reader PairingError.PairingError A) Q :
  yields_end mk_reader m Q →
  yields_end mk_reader (if c then st_fail PairingError.Record else m) (fun a s => c = false ∧ Q a s).
Proof. intros Hm. destruct c; [apply yields_end_fail|]. eapply yields_end_mono; [exact Hm|]. done. Qed.

(** The fields of an update as they were read. *)
Definition update_read : Type :=
  Z * PairingChallenge * list Z * Z * list Z * list Z * option (list Z).

Definition read_ok (t : update_read) : Prop :=
  let '(action, challenge, key, kid, owner, permissions, current) := t in
  0 ≤ action ≤ 4 ∧ challenge_ok challenge ∧ length key = 65%nat ∧ bytes_ok key ∧ in_u 8 kid ∧
  arr32 owner ∧ arr32 permissions ∧
  match current with Some o => 2 ≤ action ∧ arr32 o | None => action = 3 ∨ action < 2 end.

Definition read_wire (t : update_read) : list Z :=
  let '(action, challenge, key, kid, owner, permissions, current) := t in
  [if action <? 2 then 0x87 else 0x88] ++ [1] ++ [action] ++ bstr (challenge_wire challenge) ++
  bstr key ++ uint_wire kid ++ bstr owner ++ bstr permissions ++
  match current with Some o => bstr o | None => if action =? 3 then [0xf6] else [] end.

Lemma read_update_yields :
  yields_end mk_reader read_update (fun t s => bytes_ok s → read_ok t ∧ s = read_wire t).
Proof.
  eapply yields_end_mono.
  - unfold read_update. do 6 read_step. eapply yields_end_guard.
    eapply yields_end_bind; [apply yields_take|]. intros ?. do 5 read_step.
    eapply (yields_end_choice (owner_choice a2)).
    + intros n. apply yields_owner.
    + intros ?. read_step.
  - intros t s (array & b1 & s1 & -> & -> & _ & b2 & s2 & -> & -> & n & b3 & s3 & -> & Hn & action & b4 & s4 &
      -> & [Ha ->] & _ & b5 & s5 & -> & -> & len & b6 & s6 & -> & -> & Hlen & cs & b7 & s7 & -> & [-> Lc] &
      challenge & b8 & s8 & -> & [Hc ->] & key & b9 & s9 & -> & [-> Lk] & kid & b10 & s10 & -> & Hkid &
      owner & b11 & s11 & -> & [-> Lo] & perms & b12 & s12 & -> & [-> Lp] & current & b13 & s13 & -> & Hcur &
      -> & ->).
    rewrite !bytes_ok_app. intros (_ & _ & O3 & _ & _ & Olen & O7 & _ & O9 & O10 & O11 & O12 & O13 & _).
    destruct (Hn O3) as [Hu ->], (Hkid O10) as [Hk ->]. apply update_action_inv in Ha as (-> & H4 & ->).
    apply (challenge_decode_iff _ _ O7) in Hc as [Hc ->].
    apply bytes_ok_cons in O9 as [_ [_ O9]%bytes_ok_cons].
    apply bytes_ok_cons in O11 as [_ [_ O11]%bytes_ok_cons].
    apply bytes_ok_cons in O12 as [_ [_ O12]%bytes_ok_cons].
    apply bytes_ok_cons in Olen as [[Hl0 Hl1] _]. destruct Hu as [Hu0 _]. bools.
    assert (uint_wire action = [action]) as -> by (unfold uint_wire; by rewrite (proj2 (Z.leb_le action 23)) by lia).
    split.
    + unfold read_ok, arr32. split; [lia|]. split; [done|]. repeat (split; [done|]).
      destruct current as [o|].
      * destruct Hcur as (? & -> & ?). apply bytes_ok_cons in O13 as [_ [_ O13]%bytes_ok_cons]. done.
      * destruct Hcur as [[? _]|[? _]]; [by left|by right].
    + unfold read_wire. rewrite app_nil_l, app_nil_r, app_nil_l. 
      assert (bstr (challenge_wire challenge) = 0x58 :: len :: challenge_wire challenge) as ->
        by (unfold bstr; rewrite Lc, Z2Nat.id by lia; done).
      simpl app. do 7 f_equal. do 4 f_equal.
      destruct current as [o|]; [by destruct Hcur as (_ & -> & _)|].
      destruct Hcur as [[-> ->]|[Hlt ->]]; [done|]. by rewrite (proj2 (Z.eqb_neq action 3)) by lia.
Qed.

Lemma consumes_owner action current b bs :
  match current with
  | Some o => 2 ≤ action ∧ arr32 o ∧ b :: bs = bstr o
  | None => action = 3 ∧ b :: bs = [0xf6]
  end → consumes mk_reader (owner_choice action (Some b)) (b :: bs) current.
Proof.
  unfold owner_choice. destruct current as [o|].
  - intros (Ha & [Lo _] & Hb). rewrite Hb. injection Hb as -> _.
    replace (eqb (Some 88) (Some 246)) with false by done. rewrite andb_false_r.
    rewrite (proj2 (Z.leb_le 2 action)) by done.
    eapply consumes_then; [rewrite <- Lo; apply consumes_bstr; lia|]. apply consumes_ret.
  - intros [-> [= -> ->]]. simpl. eapply consumes_then; [apply consumes_exact|]. apply consumes_ret.
Qed.

Lemma read_update_wire t : read_ok t → consumes_end mk_reader read_update (read_wire t) t.
Proof.
  destruct t as [[[[[[action challenge] key] kid] owner] perms] current].
  intros (Ha & Hc & Lk & _ & Hk & [Lo _] & [Lp _] & Hcur). unfold read_update, read_wire.
  pose proof (length_challenge_wire _ Hc) as Hl.
  eapply consumes_end_bind; [apply consumes_byte|]. eapply consumes_end_bind; [apply consumes_exact|].
  eapply (consumes_end_bind _ _ _ [action] _ action).
  { replace [action] with (uint_wire action)
      by (unfold uint_wire; by rewrite (proj2 (Z.leb_le action 23)) by lia).
    apply consumes_uint. split; [lia|]. change (2 ^ 64) with 18446744073709551616. lia. }
  eapply (consumes_end_first _ _ _ _ action).
  { apply consumes_lift. unfold update_action. destruct (Z.ltb_spec action 2); simpl.
    - by rewrite (proj2 (Z.leb_le action 1)) by lia.
    - by rewrite (proj2 (Z.leb_le 2 action)), (proj2 (Z.leb_le action 4)) by lia. }
  unfold bstr at 1. eapply (consumes_end_bind _ _ _ [0x58]); [apply consumes_exact|].
  eapply (consumes_end_bind _ _ _ [_]); [apply consumes_byte|].
  rewrite (proj2 (Z.ltb_ge _ 24)) by lia.
  eapply consumes_end_bind; [apply consumes_take; by rewrite Nat2Z.id|].
  eapply (consumes_end_first _ _ _ _ challenge).
  { by apply consumes_lift, challenge_decode_wire. }
  eapply consumes_end_bind; [rewrite <- Lk; apply consumes_bstr; lia|].
  eapply consumes_end_bind; [by apply consumes_kid|].
  eapply consumes_end_bind; [rewrite <- Lo; apply consumes_bstr; lia|].
  eapply consumes_end_bind; [rewrite <- Lp; apply consumes_bstr; lia|].
  destruct current as [o|].
  - destruct Hcur as [H2 Ho]. rewrite <- (app_nil_r (bstr o)). unfold bstr.
    apply (consumes_end_choice (owner_choice action)) with (a := Some o).
    + apply consumes_owner. split; [done|]. by split.
    + apply consumes_end_finish.
  - destruct Hcur as [->|Hlt]; simpl.
    + rewrite <- (app_nil_r [0xf6]). apply (consumes_end_choice (owner_choice 3)) with (a := None).
      * by apply consumes_owner.
      * apply consumes_end_finish.
    + rewrite (proj2 (Z.eqb_neq action 3)) by lia. intros p Hp.
      destruct (consumes_end_finish
        ((action, challenge, key, kid, owner, perms, None) : update_read) p Hp) as [s' Hs].
      exists s'. etransitivity; [|exact Hs]. unbind. unfold rd_peek. cbn [andb].
      by rewrite (proj2 (Z.leb_gt 2 action)) by lia.
Qed.

(** *** From the fields to an update and back *)
Definition read_of (u : PairingUpdate) : update_read :=
  (update_code u, pu_challenge u, peer_key (ep_peer (pu_policy u)), peer_kid_of (ep_peer (pu_policy u)),
   ep_owner (pu_policy u), ep_resource_policy (pu_policy u), pu_current_owner u).

Lemma read_of_ok u : update_ok u → read_ok (read_of u).
Proof.
  intros Hu. pose proof (update_code_cases u Hu) as Hc. destruct Hu as (Hch & (Hpe & Ho & _ & Hr & _) & _).
  destruct (peer_ok_export (E:=unit) _ Hpe) as (_ & _ & Lk & Bk & Hk & _). unfold read_ok, read_of.
  assert (0 ≤ update_code u ≤ 4) by
    (destruct Hc as [(-> & _)|[(-> & _)|(-> & _ & ? & _)]]; [destruct (pu_revoke u)|..]; lia).
  repeat (split; [done|]).
  destruct Hc as [(-> & _ & ->)|[(-> & _ & _ & ->)|(-> & _ & ? & o & -> & Ho' & _)]].
  - right. destruct (pu_revoke u); lia.
  - by left.
  - split; [lia|done].
Qed.

Lemma read_of_wire u : update_ok u → read_wire (read_of u) = update_wire u.
Proof.
  intros Hu. unfold read_wire, read_of, update_wire. do 8 f_equal. unfold update_tail.
  destruct (update_code_cases u Hu) as [(-> & -> & ->)|[(-> & _ & -> & ->)|(_ & _ & _ & o & -> & _)]];
    [by destruct (pu_revoke u)|done|done].
Qed.

Definition update_build (t : update_read) : res PairingError.PairingError PairingUpdate :=
  let '(action, challenge, key, kid, owner, permissions, current_owner) := t in
  peer ← map_err (fun _ => PairingError.Record) (from_public_key key kid);
  policy ← map_err (fun _ => PairingError.Record) (policy_new peer owner permissions);
  if action =? 2 then
    current ← ok_or current_owner PairingError.Owner;
    update_transfer challenge current policy
  else if action =? 3 then update_set_recovery challenge policy current_owner
  else if action =? 4 then
    current ← ok_or current_owner PairingError.Owner;
    update_recover challenge current policy
  else Ok (update_new challenge policy (action =? 1)).

Lemma update_build_of u : update_ok u → update_build (read_of u) = Ok u.
Proof.
  intros Hu. pose proof (update_code_cases u Hu) as Hc.
  destruct Hu as (_ & (Hpe & Ho & No & Hr & Nr) & _). unfold update_build, read_of. unbind.
  destruct (peer_ok_export (E:=unit) _ Hpe) as (_ & _ & _ & _ & _ & ->). cbn [map_err].
  unfold policy_new, validate_policy. rewrite (zero32_neqb _ No), (zero32_neqb _ Nr). unbind. cbn [orb map_err].
  destruct u as [challenge [peer owner rp] revoke current action]. simpl in *.
  destruct Hc as [(-> & -> & ->)|[(-> & -> & -> & ->)|(-> & -> & Ha & o & -> & _ & Nz & Ne)]].
  - by destruct revoke.
  - done.
  - assert (eqb o owner = false) as Eo by by apply bool_decide_eq_false.
    unfold update_transfer, update_set_recovery, update_recover. simpl in *. rewrite (zero32_neqb _ Nz), Eo. simpl.
    assert (action = 0 ∨ action = 1 ∨ action = 2) as [->|[->| ->]] by lia; done.
Qed.

Lemma update_build_inv t u : read_ok t → update_build t = Ok u → update_ok u ∧ read_of u = t.
Proof.
  destruct t as [[[[[[action challenge] key] kid] owner] perms] current].
  intros (Ha & Hc & Lk & Bk & Hk & Ho & Hp & Hcur). unfold update_build. unbind.
  destruct (from_public_key key kid) as [peer| | |] eqn:Ek; try done. cbn [map_err].
  destruct (policy_new peer owner perms) as [pol| | |] eqn:Ep; try done. cbn [map_err].
  apply policy_new_inv in Ep as (-> & No & Np).
  assert (policy_ok (mk_enroll peer owner perms)) as Hpol
    by (split; [by eapply from_public_key_ok|done]).
  assert (∀ revoke o ra, read_of (mk_update challenge (mk_enroll peer owner perms) revoke o ra) =
    (update_code (mk_update challenge (mk_enroll peer owner perms) revoke o ra), challenge, key, kid, owner, perms, o))
    as Hread.
  { intros. unfold read_of. simpl. by rewrite (from_public_key_key _ _ _ Lk Ek), (from_public_key_kid _ _ _ Ek). }
  assert (∀ ra o, 0 ≤ ra ≤ 2 → action = ra + 2 → current = Some o → o ≠ zero32 → o ≠ owner →
    update_ok (mk_update challenge (mk_enroll peer owner perms) false (Some o) ra) ∧
    read_of (mk_update challenge (mk_enroll peer owner perms) false (Some o) ra) =
      (action, challenge, key, kid, owner, perms, current)) as Hsome.
  { intros ra o Hra -> -> Nz Ne. destruct Hcur as [_ Ho']. split.
    - split; [done|]. split; [done|]. right. right. split; [done|]. split; [done|]. by exists o.
    - rewrite Hread. unfold update_code. simpl. destruct (Z.eqb_spec ra 0) as [->|]; done. }
  destruct (action =? 2) eqn:E2; bools.
  { destruct current as [o|]; [|done]. cbn [ok_or]. unfold update_transfer. simpl.
    destruct (_ || _) eqn:E1; [done|]. bools. intros [= <-]. apply Hsome; [lia|lia|done|done|done]. }
  destruct (action =? 3) eqn:E3; bools.
  { unfold update_set_recovery. destruct current as [o|]; simpl.
    - destruct (_ || _) eqn:E1; [done|]. bools. intros [= <-]. apply Hsome; [lia|lia|done|done|done].
    - intros [= <-]. rewrite Hread. split; [|by subst]. split; [done|]. split; [done|]. by right; left. }
  destruct (action =? 4) eqn:E4; bools.
  { destruct current as [o|]; [|done]. cbn [ok_or]. unfold update_recover. simpl.
    destruct (_ || _) eqn:E1; [done|]. bools. intros [= <-]. apply Hsome; [lia|lia|done|done|done]. }
  intros [= <-]. unfold update_new. destruct current as [o|]; [lia|]. rewrite Hread.
  split; [split; [done|]; split; [done|]; by left|]. unfold update_code. simpl.
  do 6 f_equal. destruct (Z.eqb_spec action 1) as [->|]; [done|lia].
Qed.

(** An update reaches the device as the operator approved it.  Every update
    the constructors can build is written in at most 358 bytes and read back as
    it was, with the challenge it answers; the decoder accepts exactly those
    encodings, so each update has one representation. *)
Theorem pairing_update_codec :
  (∀ u out, update_ok u → usize_ok (length out) →
    if (length (update_wire u) <=? length out)%nat
    then update_encode u out = (splice out 0 (update_wire u), Ok (length (update_wire u)))
    else ∃ out', length out' = length out ∧ update_encode u out = (out', Err PairingError.Record)) ∧
  (∀ u, update_ok u → (length (update_wire u) ≤ 358)%nat) ∧
  (∀ bs u, bytes_ok bs → update_decode bs = Ok u ↔ update_ok u ∧ bs = update_wire u).
Proof.
  split; [|split; [apply length_update_wire|]].
  - intros u out Hu Ho. pose proof Hu as (Hch & _). pose proof (length_challenge_wire _ Hch) as Hl.
    unfold update_encode. pose proof (encode_with_writes _ _ (replicate 224 0) (challenge_writes _ Hch)) as He.
    rewrite length_replicate, (proj2 (Nat.leb_le _ 224)) in He by lia.
    unfold challenge_encode. rewrite He
      by (unfold usize_ok; pose proof usize_max_ge; rewrite ?length_replicate; lia).
    rewrite slice_prefix by (rewrite length_splice; rewrite length_replicate; lia).
    assert (take (length (challenge_wire (pu_challenge u))) (splice (replicate 224 0) 0
      (challenge_wire (pu_challenge u))) = challenge_wire (pu_challenge u)) as ->
      by (unfold splice; simpl; by rewrite take_app_length).
    apply encode_with_writes; [by apply update_writes|done].
  - intros bs u Hok. unfold update_decode. fold (update_build). split.
    + destruct (384 <? length bs)%nat; [done|]. unbind.
      destruct (read_update (mk_reader bs 0)) as [s' [t|e| |]] eqn:Et; try done. cbn [snd].
      apply (read_update_yields []) in Et as [Ht ->]; [|done]. intros HE.
      destruct (update_build_inv t u Ht) as [Hu Hr].
      { rewrite <- HE. by destruct t as [[[[[[? ?] ?] ?] ?] ?] ?]. }
      split; [done|]. by rewrite <- (read_of_wire u Hu), Hr.
    + intros [Hu ->]. pose proof (length_update_wire u Hu) as Hl.
      rewrite (proj2 (Nat.ltb_ge _ _)) by lia. unbind.
      destruct (read_update_wire _ (read_of_ok u Hu) []) as [s' Hs].
      { rewrite (read_of_wire u Hu). unfold usize_ok. pose proof usize_max_ge. rewrite app_nil_l. lia. }
      rewrite (read_of_wire u Hu) in Hs. cbn [app length] in Hs. rewrite Hs. cbn [snd].
      exact (update_build_of u Hu).
Qed.

End Updates.

(** ** Witness *)
#[local] Existing Instance target64.
#[local] Existing Instances Sample.curve Sample.curve_laws Sample.digest Sample.digest_laws.

(** A transfer from one owner to another. *)
Definition sample_transfer : PairingUpdate :=
  mk_update (mk_challenge (sample_peer Sample.KA 1) (replicate 32 5) 2 (replicate 32 6) (replicate 32 7))
    (mk_enroll (sample_peer Sample.KB 2) (replicate 32 4) (replicate 32 9)) false (Some (replicate 32 3)) 0.

Lemma sample_transfer_ok : update_ok sample_transfer.
Proof.
  split.
  { split; [by apply (sample_peer_ok Sample.KA 1)|]. split; [by apply sample_arr32|]. split; [done|].
    split; [done|]. split; [done|]. split; [by apply sample_arr32|]. split; [by apply sample_arr32|done]. }
  split.
  { split; [by apply (sample_peer_ok Sample.KB 2)|].
    split; [by apply sample_arr32|]. split; [done|]. split; [by apply sample_arr32|done]. }
  right. right. split; [done|]. split; [done|]. exists (replicate 32 3). split; [done|].
  split; [by apply sample_arr32|done].
Qed.

Lemma pairing_update_codec_witness :
  update_decode (update_wire sample_transfer) = Ok sample_transfer ∧ update_code sample_transfer = 2.
Proof.
  destruct pairing_update_codec as (_ & _ & Hd). split; [|reflexivity].
  apply Hd; [|split; [exact sample_transfer_ok|reflexivity]].
  apply (bool_decide_unpack _). vm_compute. exact I.
Defined.
