(* ===== verification/Pairing.v ===== *)
(** * Local pairing

    [LocalPairing] of [provisioning/local_pairing.rs]: challenges, the changes an
    operator may approve, and their commit to the caller's storage, with
    [PairingUpdate::apply] and [PeerTrust::from_local_pairing].  Clock readings and
    the entropy source are arguments; both callbacks act on the caller's state. *)
From Stdlib Require Import String.
From S2P Require Import Prelude.
From S2P Require Import LakersCred.
From S2P Require Import Credential.
From S2P Require Import Trust.
From S2P Require Import Policy.
From S2P Require Import PairingCodec.

Open Scope list_scope.
Open Scope Z_scope.

Inductive PairingCommitError (E : Type) : Type :=
  | PairingState (e : PairingError.PairingError)
  | PairingStore (e : E).
Arguments PairingState {E} e.
Arguments PairingStore {E} e.

Section Pairing.
Context `{Target} `{P : P256} `{B : Blake3}.

(** [pending] is the nonce, the time it was drawn and the deadline. *)
Record LocalPairing : Type := mk_local {
  lp_record : PairingRecord;
  lp_pending : option (list Z * Z * Z);
  lp_blocked : bool
}.

Definition pairing_restore (identity : Identity) (record : PairingRecord) :
    res PairingError.PairingError LocalPairing :=
  if negb (eqb (pr_local record) (pp_principal (id_peer identity))) then Err PairingError.Binding
  else
    same ← match pr_policy record return res PairingError.PairingError bool with
           | Some policy =>
               x ← peer_public_x (ep_peer policy);
               own ← peer_public_x (id_peer identity);
               mret (eqb x own)
           | None => mret false
           end;
    if (same : bool) then Err PairingError.Binding else Ok (mk_local record None false).

Definition pairing_peer (s : LocalPairing) : res PairingError.PairingError PinnedPeer :=
  if lp_blocked s || negb (pr_enabled (lp_record s)) then Err PairingError.Unauthorized
  else ok_or (ep_peer <$> pr_policy (lp_record s)) PairingError.Unauthorized.

Definition pairing_permits (s : LocalPairing) (principal : Principal) : bool :=
  match pairing_peer s with Ok peer => eqb (pp_principal peer) principal | _ => false end.

Definition pairing_trust_record (s : LocalPairing) (identity : Identity) :
    res TrustError.TrustError TrustRecord :=
  if negb (eqb (pr_local (lp_record s)) (pp_principal (id_peer identity))) then
    Err TrustError.IdentityMismatch
  else
    peer ← map_err (fun _ => TrustError.Unauthorized) (pairing_peer s);
    key ← peer_public_key peer;
    kid ← peer_kid peer;
    trust_from_parts (mk_parts 1 (pr_store (lp_record s)) (pr_revision (lp_record s))
      (pr_local (lp_record s)) key kid true).

(** [PeerTrust::from_local_pairing]. *)
Definition trust_from_local_pairing (identity : Identity) (s : LocalPairing) :
    res TrustError.TrustError PeerTrust :=
  record ← pairing_trust_record s identity;
  _ ← validate_identity identity record;
  anchor ← trust_anchor record;
  mret (mk_policy record anchor false).

(** [begin]: a challenge that is good for a minute and for this record only. *)
Definition pairing_begin {W : Type} (identity : Identity) (now_ms : Z)
    (entropy : list Z → W → W * list Z * bool) :
    st (LocalPairing * W) PairingError.PairingError PairingChallenge := fun '(s, w) =>
  let s := mk_local (lp_record s) None (lp_blocked s) in
  let record := lp_record s in
  if lp_blocked s || negb (eqb (pr_local record) (pp_principal (id_peer identity))) then
    ((s, w), Err PairingError.Binding)
  else
    match checked_add 64 now_ms 60000 with
    | None => ((s, w), Err PairingError.Challenge)
    | Some deadline =>
        match entropy zero32 w with
        | (w, nonce, filled) =>
            if negb filled || eqb nonce zero32 then ((s, w), Err PairingError.Challenge)
            else
              let s := mk_local record (Some (nonce, now_ms, deadline)) (lp_blocked s) in
              match commitment record with
              | Ok digest =>
                  ((s, w), Ok (mk_challenge (id_peer identity) (pr_store record) (pr_revision record)
                                 digest nonce))
              | Err e => ((s, w), Err e)
              | Panic => ((s, w), Panic)
              | Diverge => ((s, w), Diverge)
              end
        end
    end.

(** [check] uses the pending challenge up, whatever comes of it. *)
Definition pairing_check (challenge : PairingChallenge) (now_ms : Z) :
    st LocalPairing PairingError.PairingError unit := fun s =>
  let pending := lp_pending s in
  let s := mk_local (lp_record s) None (lp_blocked s) in
  match pending with
  | None => (s, Err PairingError.Challenge)
  | Some (nonce, start, deadline) =>
      if lp_blocked s || (now_ms <? start) || (deadline <=? now_ms)
         || negb (eqb nonce (pc_nonce challenge))
      then (s, Err PairingError.Challenge)
      else
        match commitment (lp_record s) with
        | Ok digest =>
            if negb (eqb (pc_store challenge) (pr_store (lp_record s)))
               || negb (pc_revision challenge =? pr_revision (lp_record s))
               || negb (eqb (pc_digest challenge) digest)
               || negb (eqb (pp_principal (pc_device challenge)) (pr_local (lp_record s)))
            then (s, Err PairingError.Binding)
            else (s, Ok tt)
        | Err e => (s, Err e)
        | Panic => (s, Panic)
        | Diverge => (s, Diverge)
        end
  end.

Section Store.
Context {W E : Type} (commit : PairingRecord → PairingRecord → W → W * res E unit).

(** Code on the pairing alone, inside an operation that may also commit. *)
Definition on_pairing {A} (m : st LocalPairing PairingError.PairingError A) :
    st (LocalPairing * W) (PairingCommitError E) A := fun '(s, w) =>
  match m s with (s, r) => ((s, w), map_err PairingState r) end.

(** The private [commit]: blocked until the callback confirms. *)
Definition pairing_commit (next : PairingRecord) : st (LocalPairing * W) (PairingCommitError E) unit :=
  fun '(s, w) =>
    match checked_add 64 (pr_revision (lp_record s)) 1 with
    | None => ((s, w), Err (PairingState PairingError.Exhausted))
    | Some revision =>
        let next := mk_pairing (pr_store next) revision (pr_local next) (pr_policy next)
                      (pr_enabled next) (pr_recovery_owner next) in
        let s := mk_local (lp_record s) (lp_pending s) true in
        match commit (lp_record s) next w with
        | (w, Ok _) => ((mk_local next (lp_pending s) false, w), Ok tt)
        | (w, Err e) => ((s, w), Err (PairingStore e))
        | (w, Panic) => ((s, w), Panic)
        | (w, Diverge) => ((s, w), Diverge)
        end
    end.

(** [challenge.device.public_x() == policy.peer().public_x()]. *)
Definition same_key {F} (challenge : PairingChallenge) (policy : EnrollmentPolicy) : res F bool :=
  a ← peer_public_x (pc_device challenge);
  b ← peer_public_x (ep_peer policy);
  mret (eqb a b).

Definition pairing_pair (challenge : PairingChallenge) (policy : EnrollmentPolicy) (now_ms : Z) :
    st (LocalPairing * W) (PairingCommitError E) unit :=
  _ ← on_pairing (pairing_check challenge now_ms);
  same ← st_lift (same_key challenge policy);
  if (same : bool) then st_fail (PairingState PairingError.Binding)
  else
    s ← st_get;
    let r := lp_record s.1 in
    if match pr_policy r with
       | Some old => negb (eqb (ep_owner old) (ep_owner policy))
       | None => false
       end
    then st_fail (PairingState PairingError.Owner)
    else pairing_commit
           (mk_pairing (pr_store r) (pr_revision r) (pr_local r) (Some policy) true (pr_recovery_owner r)).

Definition pairing_revoke (challenge : PairingChallenge) (owner : list Z) (now_ms : Z) :
    st (LocalPairing * W) (PairingCommitError E) unit :=
  _ ← on_pairing (pairing_check challenge now_ms);
  s ← st_get;
  let r := lp_record s.1 in
  if match pr_policy r with Some old => negb (eqb (ep_owner old) owner) | None => true end
  then st_fail (PairingState PairingError.Owner)
  else pairing_commit
         (mk_pairing (pr_store r) (pr_revision r) (pr_local r) (pr_policy r) false (pr_recovery_owner r)).

Definition pairing_transfer (challenge : PairingChallenge) (current_owner : list Z)
    (policy : EnrollmentPolicy) (now_ms : Z) : st (LocalPairing * W) (PairingCommitError E) unit :=
  _ ← on_pairing (pairing_check challenge now_ms);
  s ← st_get;
  let r := lp_record s.1 in
  if match pr_policy r with Some old => negb (eqb (ep_owner old) current_owner) | None => true end
     || eqb (ep_owner policy) current_owner
  then st_fail (PairingState PairingError.Owner)
  else
    same ← st_lift (same_key challenge policy);
    if (same : bool) then st_fail (PairingState PairingError.Binding)
    else pairing_commit
           (mk_pairing (pr_store r) (pr_revision r) (pr_local r) (Some policy) true None).

Definition pairing_set_recovery (challenge : PairingChallenge) (policy : EnrollmentPolicy)
    (recovery_owner : option (list Z)) (now_ms : Z) :
    st (LocalPairing * W) (PairingCommitError E) unit :=
  _ ← on_pairing (pairing_check challenge now_ms);
  s ← st_get;
  let r := lp_record s.1 in
  if match pr_policy r with
     | Some old =>
         negb (eqb (ep_owner old) (ep_owner policy))
         || negb (eqb (pp_principal (ep_peer old)) (pp_principal (ep_peer policy)))
         || negb (eqb (ep_resource_policy old) (ep_resource_policy policy))
     | None => true
     end
     || match recovery_owner with
        | Some owner => eqb owner zero32 || eqb owner (ep_owner policy)
        | None => false
        end
  then st_fail (PairingState PairingError.Owner)
  else pairing_commit
         (mk_pairing (pr_store r) (pr_revision r) (pr_local r) (pr_policy r) (pr_enabled r) recovery_owner).

Definition pairing_recover (challenge : PairingChallenge) (recovery_owner : list Z)
    (policy : EnrollmentPolicy) (now_ms : Z) : st (LocalPairing * W) (PairingCommitError E) unit :=
  _ ← on_pairing (pairing_check challenge now_ms);
  s ← st_get;
  let r := lp_record s.1 in
  if negb (eqb (pr_recovery_owner r) (Some recovery_owner)) || eqb recovery_owner (ep_owner policy)
     || match pr_policy r with Some old => eqb (ep_owner old) (ep_owner policy) | None => true end
  then st_fail (PairingState PairingError.Owner)
  else
    same ← st_lift (same_key challenge policy);
    if (same : bool) then st_fail (PairingState PairingError.Binding)
    else pairing_commit
           (mk_pairing (pr_store r) (pr_revision r) (pr_local r) (Some policy) true None).

(** [PairingUpdate::apply]. *)
Definition update_apply (u : PairingUpdate) (now_ms : Z) :
    st (LocalPairing * W) (PairingCommitError E) unit :=
  if pu_recovery_action u =? 1 then
    pairing_set_recovery (pu_challenge u) (pu_policy u) (pu_current_owner u) now_ms
  else if pu_recovery_action u =? 2 then
    owner ← st_lift (ok_or (pu_current_owner u) (PairingState PairingError.Owner));
    pairing_recover (pu_challenge u) owner (pu_policy u) now_ms
  else
    match pu_current_owner u with
    | Some owner => pairing_transfer (pu_challenge u) owner (pu_policy u) now_ms
    | None =>
        if pu_revoke u then
          s ← st_get;
          if match pr_policy (lp_record s.1) with
             | Some old =>
                 negb (eqb (pp_principal (ep_peer old)) (pp_principal (ep_peer (pu_policy u))))
                 || negb (eqb (ep_owner old) (ep_owner (pu_policy u)))
                 || negb (eqb (ep_resource_policy old) (ep_resource_policy (pu_policy u)))
             | None => true
             end
          then
            _ ← st_put (mk_local (lp_record s.1) None (lp_blocked s.1), s.2);
            st_fail (PairingState PairingError.Binding)
          else pairing_revoke (pu_challenge u) (ep_owner (pu_policy u)) now_ms
        else pairing_pair (pu_challenge u) (pu_policy u) now_ms
    end.

End Store.

(** [reconcile]: the callback settles external state for the current tombstone. *)
Definition reconcile_run {W E : Type} (reconcile : PairingRecord → W → W * res E unit) :
    st (LocalPairing * W) (PairingCommitError E) unit := fun '(s, w) =>
  let s := mk_local (lp_record s) (lp_pending s) true in
  match reconcile (lp_record s) w with
  | (w, Ok _) => ((mk_local (lp_record s) (lp_pending s) false, w), Ok tt)
  | (w, Err e) => ((s, w), Err (PairingStore e))
  | (w, Panic) => ((s, w), Panic)
  | (w, Diverge) => ((s, w), Diverge)
  end.

Definition pairing_reconcile {W E : Type} (challenge : PairingChallenge) (prior : PairingRecord)
    (now_ms : Z) (reconcile : PairingRecord → W → W * res E unit) :
    st (LocalPairing * W) (PairingCommitError E) unit :=
  _ ← on_pairing (pairing_check challenge now_ms);
  s ← st_get;
  _ ← st_lift (map_err PairingState (validate_reconciliation_prior (lp_record s.1) prior));
  reconcile_run reconcile.

End Pairing.
Arguments PairingState {E} e.
Arguments PairingStore {E} e.

(** * Theorems on local pairing

    Every change an operation commits is one the current owner, or the configured
    recovery owner, approved on a challenge of this record; a run of the device
    with failing storage and restarts keeps the record valid, counts changes and
    challenges, and permits only the peer of the record in storage. *)

Section Laws.
Context `{Target} `{P : P256} `{HP : !P256Laws P} `{B : Blake3} `{HB : !Blake3Laws B}.

(** ** The digest of a valid record *)
Definition record_digest (r : PairingRecord) : list Z :=
  derive_key "coaptic local pairing record v1" (record_wire r).

Lemma commitment_ok {E} r : pairing_ok r → commitment (E:=E) r = Ok (record_digest r).
Proof.
  intros Hr. pose proof (length_fields_wire _ (pairing_ok_fields r Hr)) as Hl. fold (record_wire r) in Hl.
  pose proof (encode_with_writes _ _ (replicate CAPACITY 0) (record_writes r Hr)) as He.
  unfold CAPACITY in *. rewrite length_replicate, (proj2 (Nat.leb_le _ _)) in He by done.
  unfold commitment, record_encode, CAPACITY. rewrite He
    by (unfold usize_ok; pose proof usize_max_ge; rewrite ?length_replicate; unfold MAX_ENCODED_LEN; lia).
  rewrite slice_prefix by (rewrite length_splice; rewrite length_replicate; lia). unbind.
  unfold splice. simpl take at 2. rewrite app_nil_l, take_app_length. done.
Qed.

Lemma same_key_ok {F} c p : peer_ok (pc_device c) → peer_ok (ep_peer p) →
  ∃ b, same_key (F:=F) c p = Ok b.
Proof.
  intros (? & ? & x & y & _ & _ & _ & Hx & Hy & _ & _ & _ & Ec)%peer_ok_inv
    (? & ? & x' & y' & _ & _ & _ & Hx' & Hy' & _ & _ & _ & Ep)%peer_ok_inv.
  unfold same_key. rewrite Ec, Ep, !peer_of_public_x by done. unbind. by eexists.
Qed.

(** ** Challenges *)

(** The challenge is the pending one, within its minute, for this very record. *)
Definition answers (c : PairingChallenge) (now : Z) (s : LocalPairing) : Prop :=
  lp_blocked s = false ∧
  (∃ start deadline, lp_pending s = Some (pc_nonce c, start, deadline) ∧ start ≤ now < deadline) ∧
  pc_store c = pr_store (lp_record s) ∧ pc_revision c = pr_revision (lp_record s) ∧
  pc_digest c = record_digest (lp_record s) ∧
  pp_principal (pc_device c) = pr_local (lp_record s).

Definition used (s : LocalPairing) : LocalPairing := mk_local (lp_record s) None (lp_blocked s).

Lemma check_effect c now s : pairing_ok (lp_record s) →
  (∃ e, pairing_check c now s = (used s, Err e)) ∨
  (pairing_check c now s = (used s, Ok tt) ∧ answers c now s).
Proof.
  intros Hr. unfold pairing_check, used. cbn [lp_blocked lp_record].
  destruct (lp_pending s) as [[[nonce start] deadline]|] eqn:Ep; [|by left; eexists].
  destruct (_ || negb (eqb nonce _)) eqn:E1; [by left; eexists|]. rewrite (commitment_ok _ Hr).
  destruct (_ || negb (eqb (pp_principal _) _)) eqn:E2; [by left; eexists|]. right. split; [done|]. bools.
  subst. repeat split; try done. by exists start, deadline.
Qed.

Section Effects.
Context {W E : Type} (commit : PairingRecord → PairingRecord → W → W * res E unit).

(** The end of an operation that reached its commit. *)
Definition settle (s : LocalPairing) (next : PairingRecord) (w : W) :
    (LocalPairing * W) * res (PairingCommitError E) unit :=
  match commit (lp_record s) next w with
  | (w, Ok _) => ((mk_local next None false, w), Ok tt)
  | (w, Err e) => ((mk_local (lp_record s) None true, w), Err (PairingStore e))
  | (w, Panic) => ((mk_local (lp_record s) None true, w), Panic)
  | (w, Diverge) => ((mk_local (lp_record s) None true, w), Diverge)
  end.

(** Either refused with the challenge used up and nothing else changed, or
    committed with a change that [R] describes. *)
Definition effect (c : PairingChallenge) (now : Z) (s : LocalPairing) (w : W)
    (R : PairingRecord → PairingRecord → Prop)
    (out : (LocalPairing * W) * res (PairingCommitError E) unit) : Prop :=
  (∃ e, out = ((used s, w), Err (PairingState e))) ∨
  (answers c now s ∧ ∃ next, R (lp_record s) next ∧ out = settle s next w).

(** [next] is [r] with the next revision and new policy, state and backup. *)
Definition changed (r : PairingRecord) (policy : option EnrollmentPolicy) (enabled : bool)
    (recovery : option (list Z)) (next : PairingRecord) : Prop :=
  in_u 64 (pr_revision r + 1) ∧
  next = mk_pairing (pr_store r) (pr_revision r + 1) (pr_local r) policy enabled recovery.

Lemma commit_effect c now s w policy enabled recovery (R : PairingRecord → PairingRecord → Prop) :
  pairing_ok (lp_record s) → answers c now s →
  (∀ next, changed (lp_record s) policy enabled recovery next → R (lp_record s) next) →
  effect c now s w R
    (pairing_commit commit
       (mk_pairing (pr_store (lp_record s)) (pr_revision (lp_record s)) (pr_local (lp_record s))
          policy enabled recovery) (used s, w)).
Proof.
  intros Hok Ha HR. unfold pairing_commit. cbn [used lp_record lp_pending].
  destruct (checked_add 64 _ 1) as [v|] eqn:Ec; [|by left; eexists]. right. split; [done|].
  destruct Hok as (_ & _ & [H0 _] & _). apply checked_add_next in Ec as (Hv & -> & _); [|done].
  eexists. split; [apply HR; split; [done|reflexivity]|].
  unfold settle. cbn [lp_record pr_store pr_local pr_policy pr_enabled pr_recovery_owner].
  by destruct (commit _ _ w) as [w' [[]|e| |]].
Qed.

(** An operation that starts with the check of its challenge. *)
Lemma checked_effect c now s w R (k : st (LocalPairing * W) (PairingCommitError E) unit) :
  pairing_ok (lp_record s) → (answers c now s → effect c now s w R (k (used s, w))) →
  effect c now s w R ((_ ← on_pairing (pairing_check c now); k) (s, w)).
Proof.
  intros Hok Hk. unbind. unfold on_pairing.
  destruct (check_effect c now s Hok) as [[e ->]|[-> Ha]]; simpl; [by left; eexists|]. by apply Hk.
Qed.

Lemma refused_effect c now s w R e : effect c now s w R (st_fail (PairingState e) (used s, w)).
Proof. left. by exists e. Qed.

(** ** What a call may change *)

(** The five changes that can be asked for, with what the caller shows. *)
Inductive PairingAsk : Type :=
  | AskPair (challenge : PairingChallenge) (policy : EnrollmentPolicy)
  | AskRevoke (challenge : PairingChallenge) (owner : list Z)
  | AskTransfer (challenge : PairingChallenge) (current_owner : list Z) (policy : EnrollmentPolicy)
  | AskSetRecovery (challenge : PairingChallenge) (policy : EnrollmentPolicy) (recovery_owner : option (list Z))
  | AskRecover (challenge : PairingChallenge) (recovery_owner : list Z) (policy : EnrollmentPolicy).

Definition ask_challenge (a : PairingAsk) : PairingChallenge :=
  match a with
  | AskPair c _ | AskRevoke c _ | AskTransfer c _ _ | AskSetRecovery c _ _ | AskRecover c _ _ => c
  end.

(** The values are of their types: peers that hold a key, 32-byte owners. *)
Definition ask_ok (a : PairingAsk) : Prop :=
  peer_ok (pc_device (ask_challenge a)) ∧
  match a with
  | AskPair _ p | AskTransfer _ _ p | AskRecover _ _ p => policy_ok p
  | AskSetRecovery _ _ (Some o) => arr32 o
  | _ => True
  end.

Definition run_ask (a : PairingAsk) (now : Z) : st (LocalPairing * W) (PairingCommitError E) unit :=
  match a with
  | AskPair c p => pairing_pair commit c p now
  | AskRevoke c o => pairing_revoke commit c o now
  | AskTransfer c o p => pairing_transfer commit c o p now
  | AskSetRecovery c p o => pairing_set_recovery commit c p o now
  | AskRecover c o p => pairing_recover commit c o p now
  end.

(** The change an update sent over the network stands for. *)
Definition update_ask (u : PairingUpdate) : option PairingAsk :=
  if pu_recovery_action u =? 1 then Some (AskSetRecovery (pu_challenge u) (pu_policy u) (pu_current_owner u))
  else if pu_recovery_action u =? 2 then
    (fun o => AskRecover (pu_challenge u) o (pu_policy u)) <$> pu_current_owner u
  else
    match pu_current_owner u with
    | Some o => Some (AskTransfer (pu_challenge u) o (pu_policy u))
    | None =>
        Some (if pu_revoke u then AskRevoke (pu_challenge u) (ep_owner (pu_policy u))
              else AskPair (pu_challenge u) (pu_policy u))
    end.

(** The record that is asked for. *)
Definition asked (a : PairingAsk) (r : PairingRecord) : PairingRecord :=
  let next := mk_pairing (pr_store r) (pr_revision r + 1) (pr_local r) in
  match a with
  | AskPair _ p => next (Some p) true (pr_recovery_owner r)
  | AskRevoke _ _ => next (pr_policy r) false (pr_recovery_owner r)
  | AskTransfer _ _ p | AskRecover _ _ p => next (Some p) true None
  | AskSetRecovery _ _ o => next (pr_policy r) (pr_enabled r) o
  end.

(** Who is shown to ask for it: an unpaired device takes its first owner; then the
    owner shown is the current one, for a recovery the configured backup. *)
Definition consented (a : PairingAsk) (r : PairingRecord) : Prop :=
  match pr_policy r with
  | None => match a with AskPair _ _ => True | _ => False end
  | Some old =>
      match a with
      | AskPair _ p => ep_owner p = ep_owner old
      | AskRevoke _ o => o = ep_owner old
      | AskTransfer _ o p => o = ep_owner old ∧ ep_owner p ≠ o
      | AskSetRecovery _ p rec =>
          ep_owner p = ep_owner old ∧ match rec with Some o => o ≠ zero32 ∧ o ≠ ep_owner old | None => True end
      | AskRecover _ o p => pr_recovery_owner r = Some o ∧ ep_owner p ≠ o ∧ ep_owner p ≠ ep_owner old
      end
  end.

Definition requested (a : PairingAsk) (r r' : PairingRecord) : Prop :=
  in_u 64 (pr_revision r + 1) ∧ r' = asked a r ∧ consented a r.

Lemma run_ask_effect a now s w : ask_ok a → pairing_ok (lp_record s) →
  effect (ask_challenge a) now s w (requested a) (run_ask a now (s, w)).
Proof.
  intros [Hdev Ha] Hok.
  assert (∀ next policy enabled rec, changed (lp_record s) policy enabled rec next →
    asked a (lp_record s) = mk_pairing (pr_store (lp_record s)) (pr_revision (lp_record s) + 1) (pr_local (lp_record s)) policy enabled rec →
    consented a (lp_record s) → requested a (lp_record s) next) as Hreq.
  { intros next policy enabled rec [Hi ->] He Hc. unfold requested. by rewrite He. }
  destruct a as [c p|c o|c o p|c p o|c o p]; cbn [run_ask ask_challenge] in *; apply checked_effect; try done; intros Han; unbind;
    unfold consented in Hreq.
  - destruct (same_key_ok (F:=PairingCommitError E) c p Hdev (proj1 Ha)) as [b ->]. cbn beta iota.
    destruct b; [apply refused_effect|]. cbn [fst used lp_record].
    destruct (match pr_policy (lp_record s) with Some old => _ | None => _ end) eqn:E2; [apply refused_effect|].
    apply commit_effect; [done|done|]. intros next Hn. eapply Hreq; [done|done|].
    destruct (pr_policy (lp_record s)); [by bools|done].
  - cbn [fst used lp_record]. destruct (match pr_policy (lp_record s) with Some old => _ | None => _ end) eqn:E2; [apply refused_effect|].
    apply commit_effect; [done|done|]. intros next Hn. eapply Hreq; [done|done|].
    destruct (pr_policy (lp_record s)); [by bools|done].
  - cbn [fst used lp_record]. destruct (_ || _) eqn:E2; [apply refused_effect|].
    destruct (same_key_ok (F:=PairingCommitError E) c p Hdev (proj1 Ha)) as [b ->]. cbn beta iota.
    destruct b; [apply refused_effect|]. apply commit_effect; [done|done|]. intros next Hn. eapply Hreq; [done|done|].
    bools. destruct (pr_policy (lp_record s)); [by bools|done].
  - cbn [fst used lp_record]. destruct (_ || _) eqn:E2; [apply refused_effect|].
    apply commit_effect; [done|done|]. intros next Hn. eapply Hreq; [done|done|].
    apply orb_false_iff in E2 as [E2 E3]. destruct (pr_policy (lp_record s)) as [old|]; [|done]. bools.
    split; [done|]. destruct o as [o|]; [|done]. bools. split; [done|congruence].
  - cbn [fst used lp_record]. destruct (_ || _) eqn:E2; [apply refused_effect|].
    destruct (same_key_ok (F:=PairingCommitError E) c p Hdev (proj1 Ha)) as [b ->]. cbn beta iota.
    destruct b; [apply refused_effect|]. apply commit_effect; [done|done|]. intros next Hn. eapply Hreq; [done|done|].
    bools. destruct (pr_policy (lp_record s)); [|done]. bools. split; [done|]. split; congruence.
Qed.

(** An update makes the change it stands for, or is refused. *)
Lemma update_apply_ask u now s w : update_ok u →
  ∃ a, update_ask u = Some a ∧ ask_ok a ∧
    (update_apply commit u now (s, w) = run_ask a now (s, w) ∨
     ∃ e, update_apply commit u now (s, w) = ((used s, w), Err (PairingState e))).
Proof.
  intros Hu. pose proof (update_code_cases u Hu) as Hc. destruct Hu as ((Hdev & _) & Hp & _).
  unfold update_apply, update_ask, ask_ok.
  destruct Hc as [(_ & Ea & Eo)|[(_ & Er & Ea & Eo)|(_ & Er & Ha & o & Eo & Ho & _)]]; rewrite ?Ea, Eo; simpl.
  - destruct (pu_revoke u); (eexists; split; [done|]); (split; [done|]); [|by left]. unbind. cbn [fst snd].
    destruct (match pr_policy (lp_record s) with Some _ => _ | None => _ end);
      [right; exists PairingError.Binding; reflexivity|by left].
  - eexists. split; [done|]. split; [done|]. by left.
  - assert (pu_recovery_action u = 0 ∨ pu_recovery_action u = 1 ∨ pu_recovery_action u = 2) as [Ez|[Ez|Ez]] by lia; rewrite Ez; simpl;
      (eexists; split; [done|]); (split; [done|]); by left.
Qed.

(** Every update has such an effect too. *)
Lemma apply_effect u a now s w : update_ok u → update_ask u = Some a → pairing_ok (lp_record s) →
  effect (ask_challenge a) now s w (requested a) (update_apply commit u now (s, w)).
Proof.
  intros Hu Ha Hok. destruct (update_apply_ask u now s w Hu) as (a' & Ha' & Hok' & [Hr|[e Hr]]); rewrite Hr; simplify_eq.
  - by apply run_ask_effect.
  - left. by exists e.
Qed.

End Effects.

(** A requested change leaves a valid record. *)
Lemma requested_ok a r r' : ask_ok a → pairing_ok r → requested a r r' → pairing_ok r'.
Proof.
  intros [_ Ha] (Hs & Ns & [H0 _] & Hl & Nl & Hpol) (Hi & -> & Hc). unfold consented in Hc.
  assert (1 ≤ pr_revision r) as H1 by (destruct (pr_policy r); lia).
  assert (∀ p en rec, policy_ok p → match rec with Some o => arr32 o ∧ o ≠ zero32 ∧ ep_owner p ≠ o | None => True end →
    pairing_ok (mk_pairing (pr_store r) (pr_revision r + 1) (pr_local r) (Some p) en rec)) as Hnew.
  { intros p en rec Hp Hrec. repeat (split; [done|]). simpl. split; [lia|]. by split. }
  destruct a as [c p|c o|c o p|c p o|c o p]; cbn [asked ask_challenge] in *.
  - apply Hnew; [done|]. destruct (pr_policy r) as [old|]; [rewrite Hc; apply Hpol|by destruct Hpol as (_ & _ & ->)].
  - destruct (pr_policy r) as [old|]; [|done]. apply Hnew; apply Hpol.
  - by apply Hnew.
  - destruct (pr_policy r) as [old|]; [|done]. apply Hnew; [apply Hpol|]. destruct o as [o|]; [|done].
    destruct Hc as (_ & ? & ?). split_and!; [done|done|congruence].
  - by apply Hnew.
Qed.

(** ** Storage and runs *)

(** The record in storage and the changes committed to it, newest first, each with
    the call that was running. *)
Record pstore : Type := mk_pstore {
  st_record : PairingRecord;
  st_log : list (PairingAsk * PairingRecord * PairingRecord)
}.

Definition stored (a : PairingAsk) (w : pstore) (next : PairingRecord) : pstore :=
  mk_pstore next ((a, st_record w, next) :: st_log w).

(** The documented contract of the commit callback: a serialized compare-and-swap
    of complete records, which may fail before or after it took place. *)
Definition local_cas {E} (a : PairingAsk) (commit : PairingRecord → PairingRecord → pstore → pstore * res E unit) : Prop :=
  ∀ old next w,
    match commit old next w with
    | (w', Ok _) => old = st_record w ∧ w' = stored a w next
    | (w', _) => w' = w ∨ (old = st_record w ∧ w' = stored a w next)
    end.

(** [pw_begun]: the nonces of the challenges drawn, newest first. *)
Record pworld : Type := mk_pworld {
  pw_store : pstore;
  pw_live : option LocalPairing;
  pw_begun : list (list Z)
}.

Definition pending_nonce (s : LocalPairing) : list (list Z) :=
  match lp_pending s with Some (nonce, _, _) => [nonce] | None => [] end.

(** Every public operation of the device that changes its state, and restarts. *)
Inductive pstep : pworld → pworld → Prop :=
  | pstep_restart w live n identity :
      pstep (mk_pworld w live n) (mk_pworld w (res_ok (pairing_restore identity (st_record w))) n)
  | pstep_begin W w s n identity now (entropy : list Z → W → W * list Z * bool) e s' e' r :
      pairing_begin identity now entropy (s, e) = ((s', e'), r) →
      pstep (mk_pworld w (Some s) n) (mk_pworld w (Some s') (pending_nonce s' ++ n))
  | pstep_ask E (commit : _ → _ → pstore → pstore * res E unit) w s n a now s' w' r :
      local_cas a commit → ask_ok a → run_ask commit a now (s, w) = ((s', w'), r) →
      pstep (mk_pworld w (Some s) n) (mk_pworld w' (Some s') n)
  | pstep_apply E (commit : _ → _ → pstore → pstore * res E unit) w s n u a now s' w' r :
      update_ok u → update_ask u = Some a → local_cas a commit → update_apply commit u now (s, w) = ((s', w'), r) →
      pstep (mk_pworld w (Some s) n) (mk_pworld w' (Some s') n)
  | pstep_reconcile W E w s n challenge prior now (reconcile : _ → W → W * res E unit) e s' e' r :
      pairing_reconcile challenge prior now reconcile (s, e) = ((s', e'), r) →
      pstep (mk_pworld w (Some s) n) (mk_pworld w (Some s') n).

Inductive preachable : pworld → Prop :=
  | preach_start identity store r :
      unpaired identity store = Ok r → pairing_ok r →
      preachable (mk_pworld (mk_pstore r []) None [])
  | preach_step w w' : preachable w → pstep w w' → preachable w'.

(** ** Invariant *)

(** The challenge of the call was for exactly this record. *)
Definition challenged (a : PairingAsk) (r : PairingRecord) : Prop :=
  pc_store (ask_challenge a) = pr_store r ∧ pc_revision (ask_challenge a) = pr_revision r ∧
  pc_digest (ask_challenge a) = record_digest r ∧ pp_principal (pc_device (ask_challenge a)) = pr_local r.

Fixpoint chained (r : PairingRecord) (log : list (PairingAsk * PairingRecord * PairingRecord)) : Prop :=
  match log with
  | [] => pr_policy r = None ∧ pr_revision r = 1
  | (a, r0, r1) :: log =>
      r = r1 ∧ (requested a r0 r1 ∧ challenged a r0) ∧ chained r0 log
  end.

Definition ask_nonces (log : list (PairingAsk * PairingRecord * PairingRecord)) : list (list Z) :=
  (fun entry => pc_nonce (ask_challenge entry.1.1)) <$> log.

Definition live_inv (w : pstore) (s : LocalPairing) : Prop :=
  pairing_ok (lp_record s) ∧ (lp_blocked s = false → lp_record s = st_record w).

Definition pworld_inv (pw : pworld) : Prop :=
  let w := pw_store pw in
  pairing_ok (st_record w) ∧ chained (st_record w) (st_log w) ∧
  from_option pending_nonce [] (pw_live pw) ++ ask_nonces (st_log w) `sublist_of` pw_begun pw ∧
  from_option (live_inv w) True (pw_live pw).

Lemma settle_inv {E} a (commit : _ → _ → pstore → pstore * res E unit) now s w n :
  local_cas a commit → ask_ok a → pworld_inv (mk_pworld w (Some s) n) →
  ∀ out, effect commit (ask_challenge a) now s w (requested a) out →
  pworld_inv (mk_pworld out.1.2 (Some out.1.1) n).
Proof.
  intros Hc Hu (Hw & Hch & Hn & Hl & Hb) out. unfold pworld_inv in *. simpl in *.
  assert (ask_nonces (st_log w) `sublist_of` n) as Hn0 by (etransitivity; [apply sublist_inserts_l; reflexivity|exact Hn]).
  intros [[e ->]|[Ha (next & Hreq & ->)]]; simpl.
  { split; [done|]. split; [done|]. split; [done|]. by split. }
  destruct Ha as (Hu0 & (start & deadline & Hpend & _) & Hst & Hrv & Hdg & Hpr). rewrite (Hb Hu0) in *.
  unfold pending_nonce at 1 in Hn. rewrite Hpend in Hn. assert (pairing_ok next) as Hnext by by eapply requested_ok.
  assert (chained (st_record (stored a w next)) (st_log (stored a w next))) as Hch'.
  { simpl. split; [done|]. by split_and!. }
  assert (ask_nonces (st_log (stored a w next)) `sublist_of` n) as Hn' by exact Hn.
  unfold settle. rewrite (Hb Hu0). specialize (Hc (st_record w) next w).
  destruct (commit (st_record w) next w) as [w' [[]|e| |]]; simpl.
  1:{ destruct Hc as [_ ->]. by split_and!. }
  all: destruct Hc as [->|[_ ->]]; by split_and!.
Qed.

Lemma begin_inv {W} identity now (entropy : list Z → W → W * list Z * bool) s e s' e' r :
  pairing_begin identity now entropy (s, e) = ((s', e'), r) →
  lp_record s' = lp_record s ∧ lp_blocked s' = lp_blocked s.
Proof.
  unfold pairing_begin. cbn [lp_blocked lp_record].
  destruct (_ || _); [by intros [= <- _ _]|]. destruct (checked_add 64 now 60000); [|by intros [= <- _ _]].
  destruct (entropy zero32 e) as [[e1 nonce] filled]. destruct (_ || _); [by intros [= <- _ _]|].
  destruct (commitment _); by intros [= <- _ _].
Qed.

Lemma reconcile_inv {W E} c prior now (reconcile : _ → W → W * res E unit) s e s' e' r :
  pairing_ok (lp_record s) →
  pairing_reconcile c prior now reconcile (s, e) = ((s', e'), r) →
  lp_record s' = lp_record s ∧ lp_pending s' = None ∧ (lp_blocked s' = false → lp_blocked s = false).
Proof.
  intros Hok. unfold pairing_reconcile, on_pairing. unbind.
  destruct (check_effect c now s Hok) as [[e1 ->]|[-> (Hu & _)]]; simpl; [by intros [= <- _ _]|].
  destruct (map_err PairingState _); try (by intros [= <- _ _]).
  unfold reconcile_run. simpl. destruct (reconcile (lp_record s) e) as [e1 [[]|e2| |]]; by intros [= <- _ _].
Qed.

Lemma pstep_inv pw pw' : pworld_inv pw → pstep pw pw' → pworld_inv pw'.
Proof.
  intros Hinv Hstep. destruct Hstep as [w live n identity|W w s n identity now entropy e s' e' r Hb
    |E commit w s n a now s' w' r Hc Hu Ha|E commit w s n u a now s' w' r Hu Hua Hc Ha|W E w s n challenge prior now reconcile e s' e' r Hr].
  all: pose proof Hinv as (Hw & Hch & Hn & Hl); simpl in *.
  all: assert (ask_nonces (st_log w) `sublist_of` n) as Hn0 by (etransitivity; [apply sublist_inserts_l; reflexivity|exact Hn]).
  - unfold pworld_inv. simpl. split; [done|]. split; [done|].
    unfold pairing_restore. destruct (negb _); simpl; [done|]. unbind.
    by destruct (match pr_policy _ with Some _ => _ | None => _ end) as [[|]| | |].
  - apply begin_inv in Hb as (Hr' & Hb'). split; [done|]. split; [done|]. simpl.
    split; [by apply sublist_app|]. unfold live_inv. by rewrite Hr', Hb'.
  - pose proof (run_ask_effect commit a now s w Hu (proj1 Hl)) as He. rewrite Ha in He.
    by apply (settle_inv a commit now s w n Hc Hu) in He.
  - pose proof (apply_effect commit u a now s w Hu Hua (proj1 Hl)) as He. rewrite Ha in He.
    assert (ask_ok a) as Hok by (destruct (update_apply_ask commit u now s w Hu) as (a' & ? & ? & _); by simplify_eq).
    by apply (settle_inv a commit now s w n Hc Hok) in He.
  - destruct Hl as [Hl Hbl]. apply reconcile_inv in Hr as (Hr' & Hp' & Hb'); [|done]. split; [done|]. split; [done|]. simpl.
    unfold live_inv, pending_nonce. rewrite Hr', Hp'. split; [done|]. split; [done|]. auto.
Qed.

Lemma preachable_inv pw : preachable pw → pworld_inv pw.
Proof.
  induction 1 as [identity store r Hun Hr|pw pw' _ IH Hs]; [|by eapply pstep_inv].
  unfold unpaired in Hun. destruct (eqb store zero32); simplify_eq.
  split; [done|]. split; [done|]. split; [constructor|done].
Qed.

(** The revision counts the changes. *)
Lemma chained_revision r log : chained r log → pr_revision r = 1 + Z.of_nat (length log).
Proof.
  revert r. induction log as [|[[a r0] r1] log IH]; intros r; simpl; [by intros [_ ->]|].
  intros (-> & ((_ & -> & _) & _) & Hch). apply IH in Hch.
  assert (pr_revision (asked a r0) = pr_revision r0 + 1) by (by destruct a). lia.
Qed.

Lemma chained_elem r log a r0 r1 : chained r log → (a, r0, r1) ∈ log → requested a r0 r1 ∧ challenged a r0.
Proof.
  revert r. induction log as [|[[b x] y] log IH]; intros r; simpl; [by intros _ ?%elem_of_nil|].
  intros (_ & Hreq & Hch) [[= -> -> ->]|Hin]%elem_of_cons; [done|]. by eapply IH.
Qed.

(** Who may be replaced as owner, and who asked. *)
Lemma requested_owner a r r' old new :
  requested a r r' → pr_policy r = Some old → pr_policy r' = Some new → ep_owner new ≠ ep_owner old →
  (∃ c, a = AskTransfer c (ep_owner old) new) ∨ (∃ c o, pr_recovery_owner r = Some o ∧ a = AskRecover c o new).
Proof.
  intros (_ & -> & Hc) Hold Hnew Hne. unfold consented in Hc. rewrite Hold in Hc.
  destruct a as [c p|c o|c o p|c p o|c o p]; cbn [asked pr_policy] in Hnew; simplify_eq/=; try congruence.
  - left. destruct Hc as [-> _]. by eexists.
  - right. destruct Hc as [-> _]. by eexists _, _.
Qed.

(** C16: a paired device changes hands only with consent.  Along every run of a
    device, with storage that may fail before or after a write, restarts, and the
    operations called directly or through updates sent by anyone, the stored record
    stays valid and its revision counts the committed changes.  Every committed
    change is exactly the one the call that was running asked for, on a challenge
    drawn for the record it replaces, used once; that call showed the current
    owner, or for a recovery the backup owner configured before, and an unpaired
    device only takes a first owner.  So the owner changes only in a transfer
    that shows the very owner replaced or a recovery that shows the configured
    backup; and only the peer enabled in the stored record is permitted. *)
Theorem pairing_owned (pw : pworld) :
  preachable pw →
  let w := pw_store pw in
  pairing_ok (st_record w) ∧ pr_revision (st_record w) = 1 + Z.of_nat (length (st_log w)) ∧
  ask_nonces (st_log w) `sublist_of` pw_begun pw ∧
  (∀ a r r', (a, r, r') ∈ st_log w → r' = asked a r ∧ consented a r ∧ challenged a r) ∧
  (∀ a r r' old new, (a, r, r') ∈ st_log w →
    pr_policy r = Some old → pr_policy r' = Some new → ep_owner new ≠ ep_owner old →
    (∃ c, a = AskTransfer c (ep_owner old) new) ∨ (∃ c o, pr_recovery_owner r = Some o ∧ a = AskRecover c o new)) ∧
  (∀ s principal, pw_live pw = Some s → pairing_permits s principal = true →
    pr_enabled (st_record w) = true ∧
    ∃ p, pr_policy (st_record w) = Some p ∧ pp_principal (ep_peer p) = principal).
Proof.
  intros Hr. apply preachable_inv in Hr as (Hw & Hch & Hn & Hl). cbv zeta.
  split; [done|]. split; [by apply chained_revision|].
  split; [etransitivity; [apply sublist_inserts_l; reflexivity|exact Hn]|]. split.
  { intros a r r' Hin. destruct (chained_elem _ _ _ _ _ Hch Hin) as [(_ & -> & Hc) Hq]. done. }
  split.
  - intros a r r' old new Hin. destruct (chained_elem _ _ _ _ _ Hch Hin) as [Hreq _]. by apply requested_owner.
  - intros s principal Hs Hp. rewrite Hs in Hl. destruct Hl as [_ Hb].
    unfold pairing_permits, pairing_peer in Hp. destruct (lp_blocked s); [done|]. rewrite <- (Hb eq_refl).
    simpl in Hp. destruct (pr_enabled (lp_record s)); [|done]. split; [done|]. simpl in Hp.
    destruct (pr_policy (lp_record s)) as [p|]; [|done]. exists p. split; [done|]. simpl in Hp. by bools.
Qed.

End Laws.

(** ** Witness

    A device is paired with its first owner by an update, then handed over by that
    owner. *)
#[local] Existing Instance target64.
#[local] Existing Instances Sample.curve Sample.curve_laws Sample.digest Sample.digest_laws.

Definition sample_local_commit (a : PairingAsk) (old next : PairingRecord) (w : pstore) : pstore * res unit unit :=
  if eqb old (st_record w) then (stored a w next, Ok tt) else (w, Err tt).

Lemma sample_local_cas a : local_cas a (sample_local_commit a).
Proof.
  intros old next w. unfold sample_local_commit.
  destruct (eqb old (st_record w)) eqn:E1; bools; [done|by left].
Qed.

Definition sample_begin (nonce now : Z) (s : LocalPairing) : LocalPairing :=
  (pairing_begin (sample_identity Sample.KA 1) now (fun _ w => (w, replicate 32 nonce, true)) (s, tt)).1.1.
Definition sample_challenge (r : PairingRecord) (nonce : Z) : PairingChallenge :=
  mk_challenge (sample_peer Sample.KA 1) (replicate 32 5) (pr_revision r) (record_digest r) (replicate 32 nonce).
Definition sample_owned (owner : Z) : EnrollmentPolicy :=
  mk_enroll (sample_peer Sample.KB 2) (replicate 32 owner) (replicate 32 9).

Definition sample_update : PairingUpdate := update_new (sample_challenge sample_record 7) (sample_owned 4) false.
Definition sample_pair : PairingAsk := AskPair (sample_challenge sample_record 7) (sample_owned 4).
Definition sample_paired : LocalPairing * pstore :=
  (update_apply (sample_local_commit sample_pair) sample_update 1
    (sample_begin 7 0 (mk_local sample_record None false), mk_pstore sample_record [])).1.
Definition sample_transfer : PairingAsk :=
  AskTransfer (sample_challenge (st_record sample_paired.2) 8) (replicate 32 4) (sample_owned 6).
Definition sample_handed : LocalPairing * pstore :=
  (run_ask (sample_local_commit sample_transfer) sample_transfer 3 (sample_begin 8 2 sample_paired.1, sample_paired.2)).1.
Definition sample_pworld : pworld :=
  mk_pworld sample_handed.2 (Some sample_handed.1) [replicate 32 8; replicate 32 7].

Lemma sample_owned_ok owner : in_u 8 owner → owner ≠ 0 → policy_ok (sample_owned owner).
Proof.
  intros Ho Hn. split; [by apply (sample_peer_ok Sample.KB 2)|].
  split; [by apply sample_arr32|]. split; [unfold sample_owned; cbn [ep_owner]; intros HE; injection HE; done|].
  split; [by apply sample_arr32|done].
Qed.

Lemma sample_update_ok : update_ok sample_update.
Proof.
  split.
  { split; [by apply (sample_peer_ok Sample.KA 1)|]. split; [by apply sample_arr32|]. split; [done|].
    split; [done|]. split; [done|]. split; [split; [apply digest_length|apply digest_bytes]|].
    split; [by apply sample_arr32|done]. }
  split; [by apply sample_owned_ok|by left].
Qed.

Lemma sample_preachable : preachable sample_pworld.
Proof.
  assert (preachable (mk_pworld sample_paired.2 (Some sample_paired.1) [replicate 32 7])) as Hp.
  { eapply preach_step.
    - eapply preach_step.
      + eapply preach_step; [|apply (pstep_restart (mk_pstore sample_record []) None [] (sample_identity Sample.KA 1))].
        apply (preach_start (sample_identity Sample.KA 1) (replicate 32 5) sample_record);
          [vm_compute; reflexivity|apply sample_record_ok].
      + replace (res_ok (pairing_restore (sample_identity Sample.KA 1) (st_record (mk_pstore sample_record []))))
          with (Some (mk_local sample_record None false)) by (vm_compute; reflexivity).
        eapply (pstep_begin unit _ _ [] (sample_identity Sample.KA 1) 0 (fun _ w => (w, replicate 32 7, true)) tt
          (sample_begin 7 0 (mk_local sample_record None false))). vm_compute. reflexivity.
    - apply (pstep_apply unit (sample_local_commit sample_pair) (mk_pstore sample_record [])
        (sample_begin 7 0 (mk_local sample_record None false)) [replicate 32 7] sample_update sample_pair 1
        sample_paired.1 sample_paired.2
        (update_apply (sample_local_commit sample_pair) sample_update 1
          (sample_begin 7 0 (mk_local sample_record None false), mk_pstore sample_record [])).2);
        [apply sample_update_ok|reflexivity|apply sample_local_cas|].
      unfold sample_paired. by destruct (update_apply _ _ _ _) as [[? ?] ?]. }
  eapply preach_step.
  - eapply preach_step; [exact Hp|].
    eapply (pstep_begin unit _ _ _ (sample_identity Sample.KA 1) 2 (fun _ w => (w, replicate 32 8, true)) tt
      (sample_begin 8 2 sample_paired.1)). vm_compute. reflexivity.
  - apply (pstep_ask unit (sample_local_commit sample_transfer) sample_paired.2 (sample_begin 8 2 sample_paired.1)
      [replicate 32 8; replicate 32 7] sample_transfer 3 sample_handed.1 sample_handed.2
      (run_ask (sample_local_commit sample_transfer) sample_transfer 3 (sample_begin 8 2 sample_paired.1, sample_paired.2)).2);
      [apply sample_local_cas| |].
    + split; [by apply (sample_peer_ok Sample.KA 1)|by apply (sample_owned_ok 6)].
    + unfold sample_handed. by destruct (run_ask _ _ _ _) as [[? ?] ?].
Qed.

Lemma pairing_owned_witness :
  pr_revision (st_record (pw_store sample_pworld)) = 3 ∧
  pairing_permits sample_handed.1 (pp_principal (sample_peer Sample.KB 2)) = true ∧
  pr_enabled (st_record (pw_store sample_pworld)) = true ∧
  st_log (pw_store sample_pworld) =
    [(sample_transfer, st_record sample_paired.2, st_record sample_handed.2);
     (sample_pair, sample_record, st_record sample_paired.2)] ∧
  consented sample_transfer (st_record sample_paired.2).
Proof.
  assert (pairing_permits sample_handed.1 (pp_principal (sample_peer Sample.KB 2)) = true) as Hp
    by (vm_compute; reflexivity).
  assert (st_log (pw_store sample_pworld) =
    [(sample_transfer, st_record sample_paired.2, st_record sample_handed.2);
     (sample_pair, sample_record, st_record sample_paired.2)]) as Hlog by (vm_compute; reflexivity).
  destruct (pairing_owned sample_pworld sample_preachable) as (_ & _ & _ & Hc & _ & Hl).
  split; [vm_compute; reflexivity|]. split; [exact Hp|]. split; [exact (proj1 (Hl _ _ eq_refl Hp))|].
  split; [exact Hlog|]. apply (Hc sample_transfer (st_record sample_paired.2) (st_record sample_handed.2)).
  rewrite Hlog. apply elem_of_cons. left. reflexivity.
Defined.
