(* ===== verification/Authority.v ===== *)
(** * The enrollment authority

    [provisioning/authority.rs]: the record a policy authority keeps of one
    registered device, its validation and digest, and the operations of
    [EnrollmentAuthority].  The durable store is the caller's: the class
    [EnrollmentStore] has its two operations on a state [W]. *)
From Stdlib Require Import String.
From S2P Require Import Prelude.
From S2P Require Import LakersCred.
From S2P Require Import Credential.
From S2P Require Import Trust.
From S2P Require Import Policy.

Open Scope list_scope.
Open Scope Z_scope.

Definition AUTHORITY_DOMAIN : string :=
  "https://github.com/jeffglousher/coaptic enrollment authority record v1".

(** [InvalidRecord] is the source's [Record]. *)
Module ApprovalError.
Inductive ApprovalError : Type :=
  | InvalidRecord | Anchor | Device | Owner | Approval | NotEnrolled | Policy | Blocked | Exhausted.
End ApprovalError.

Inductive ApprovalCommitError (E : Type) : Type :=
  | ApprovalState (e : ApprovalError.ApprovalError)
  | ApprovalStore (e : E).
Arguments ApprovalState {E} e.
Arguments ApprovalStore {E} e.

(** ** Anchors *)
Record EnrollmentAnchor : Type := mk_ea { ea_anchor : TrustAnchor }.

#[export] Instance EnrollmentAnchor_eq_dec : EqDecision EnrollmentAnchor.
Proof. solve_decision. Defined.

Definition ea_from_parts (store : list Z) (revision : Z) (digest : list Z) :
    res ApprovalError.ApprovalError EnrollmentAnchor :=
  if revision =? 0 then Err ApprovalError.InvalidRecord
  else
    anchor ← map_err (fun _ => ApprovalError.InvalidRecord) (anchor_from_parts store revision digest);
    mret (mk_ea anchor).

Section Authority.
Context `{Target} `{P : P256} `{B : Blake3}.

(** ** Records *)
Record EnrollmentRecordParts : Type := mk_erp {
  er_version : Z;
  er_device : PinnedPeer;
  er_genesis : TrustAnchor;
  er_revision : Z;
  er_policy : option EnrollmentPolicy;
  er_approved : bool;
  er_snapshot : option PolicySnapshot
}.

Record EnrollmentRecord : Type := mk_er { er_parts : EnrollmentRecordParts }.

(** Whether the policy of a record is refused: too early a revision, or the
    device's own key. *)
Definition refuses_policy {E} (p : EnrollmentRecordParts) : res E bool :=
  match er_policy p with
  | None => mret false
  | Some policy =>
      if er_revision p <? 2 then mret true
      else
        x ← peer_public_x (ep_peer policy);
        own ← peer_public_x (er_device p);
        mret (eqb x own)
  end.

(** Whether a snapshot of a record with this policy is refused. *)
Definition refuses_snapshot {E} (p : EnrollmentRecordParts) (policy : EnrollmentPolicy)
    (snapshot : PolicySnapshot) : res E bool :=
  let record := ps_record snapshot in
  if negb (eqb (tr_local record) (pp_principal (er_device p))) then mret true
  else
    anchor ← trust_anchor record;
    mret (negb (eqb (ta_store anchor) (ta_store (er_genesis p)))
      || negb (eqb (pp_principal (tr_peer record)) (pp_principal (ep_peer policy)))
      || negb (Bool.eqb (tr_enabled record) (er_approved p))
      || negb (eqb (ps_owner snapshot) (ep_owner policy))
      || negb (eqb (ps_resource_policy snapshot) (ep_resource_policy policy))
      || match checked_add 64 (ta_generation anchor) 2 with
         | None => true
         | Some minimum => er_revision p <? minimum
         end).

(** [EnrollmentRecord::from_parts]. *)
Definition er_from_parts (p : EnrollmentRecordParts) :
    res ApprovalError.ApprovalError EnrollmentRecord :=
  if negb (er_version p =? 1) || (er_revision p =? 0) || negb (ta_generation (er_genesis p) =? 0) then
    Err ApprovalError.InvalidRecord
  else if er_approved p && match er_policy p with None => true | Some _ => false end then
    Err ApprovalError.InvalidRecord
  else
    bad ← refuses_policy p;
    if (bad : bool) then Err ApprovalError.InvalidRecord
    else
      match er_snapshot p with
      | None => Ok (mk_er p)
      | Some snapshot =>
          policy ← ok_or (er_policy p) ApprovalError.InvalidRecord;
          bad ← refuses_snapshot p policy snapshot;
          if (bad : bool) then Err ApprovalError.InvalidRecord else Ok (mk_er p)
      end.

Definition er_principal (r : EnrollmentRecord) : Principal := pp_principal (er_device (er_parts r)).

Definition some_byte {A} (o : option A) : Z := match o with Some _ => 1 | None => 0 end.

(** [EnrollmentRecord::anchor]; a store of zeros fails its [expect]. *)
Definition er_anchor {E} (r : EnrollmentRecord) : res E EnrollmentAnchor :=
  let p := er_parts r in
  commitment ←
    match er_snapshot p return res E (list Z) with
    | Some snapshot => snapshot_commitment snapshot
    | None => mret []
    end;
  let digest := derive_key AUTHORITY_DOMAIN
    ([er_version p] ++ er_principal r ++ ta_store (er_genesis p) ++ be_bytes 8 (er_revision p) ++
     [bool_byte (er_approved p); some_byte (er_policy p)] ++
     match er_policy p with
     | Some policy => pp_principal (ep_peer policy) ++ ep_owner policy ++ ep_resource_policy policy
     | None => []
     end ++
     [some_byte (er_snapshot p)] ++ commitment) in
  match anchor_from_parts (ta_store (er_genesis p)) (er_revision p) digest with
  | Ok anchor => Ok (mk_ea anchor)
  | _ => Panic
  end.

Definition snapshot_for (p : EnrollmentRecordParts) (generation : Z) :
    res ApprovalError.ApprovalError PolicySnapshot :=
  policy ← ok_or (er_policy p) ApprovalError.Approval;
  key ← peer_public_key (ep_peer policy);
  kid ← peer_kid (ep_peer policy);
  record ← map_err (fun _ => ApprovalError.InvalidRecord) (trust_from_parts
    (mk_parts 1 (ta_store (er_genesis p)) generation (pp_principal (er_device p)) key kid
       (er_approved p)));
  map_err (fun _ => ApprovalError.InvalidRecord)
    (snapshot_new record (ep_owner policy) (ep_resource_policy policy)).

(** ** The authority *)
Class EnrollmentStore (W E : Type) : Type := {
  (** The independently current anchor. *)
  store_current : W → W * res E EnrollmentAnchor;
  store_commit : option EnrollmentAnchor → EnrollmentRecord → EnrollmentAnchor → W → W * res E unit
}.

Record AuthenticatedPolicyRequest : Type := mk_apr { ar_principal : Principal; ar_query : PolicyQuery }.

Record EnrollmentAuthority (W : Type) : Type := mk_auth {
  au_record : EnrollmentRecord;
  au_store : W;
  au_blocked : bool
}.
Arguments mk_auth {W}.
Arguments au_record {W}.
Arguments au_store {W}.
Arguments au_blocked {W}.

Context {W E : Type} `{!EnrollmentStore W E}.

(** A call of the store from the authority that owns it. *)
Definition with_store {A} (f : W → W * res E A) : st (EnrollmentAuthority W) (ApprovalCommitError E) A :=
  fun a =>
    match f (au_store a) with
    | (w, r) => (mk_auth (au_record a) w (au_blocked a), map_err ApprovalStore r)
    end.

Definition set_blocked (b : bool) : st (EnrollmentAuthority W) (ApprovalCommitError E) unit :=
  fun a => (mk_auth (au_record a) (au_store a) b, Ok tt).

Definition set_record (r : EnrollmentRecord) : st (EnrollmentAuthority W) (ApprovalCommitError E) unit :=
  fun a => (mk_auth r (au_store a) (au_blocked a), Ok tt).

Definition state_err {F A} (r : res ApprovalError.ApprovalError A) : res (ApprovalCommitError F) A :=
  map_err ApprovalState r.

(** The store is moved into the authority; on failure only its durable effects
    are left. *)
Definition auth_register (device : PinnedPeer) (genesis : TrustAnchor) :
    st W (ApprovalCommitError E) (EnrollmentAuthority W) :=
  record ← st_lift (state_err (er_from_parts (mk_erp 1 device genesis 1 None false None)));
  anchor ← st_lift (er_anchor record);
  _ ← st_map_err ApprovalStore (store_commit None record anchor);
  store ← st_get;
  mret (mk_auth record store false).

Definition auth_restore (record : EnrollmentRecord) (current : EnrollmentAnchor) (store : W) :
    res ApprovalError.ApprovalError (EnrollmentAuthority W) :=
  anchor ← er_anchor record;
  if negb (eqb anchor current) then Err ApprovalError.Anchor else Ok (mk_auth record store false).

Definition auth_check (a : EnrollmentAuthority W) (expected : EnrollmentAnchor) :
    res ApprovalError.ApprovalError unit :=
  if au_blocked a then Err ApprovalError.Blocked
  else
    anchor ← er_anchor (au_record a);
    if negb (eqb expected anchor) then Err ApprovalError.Anchor else Ok tt.

(** [EnrollmentAuthority::commit]: blocked until the store confirms. *)
Definition auth_commit (next : EnrollmentRecordParts) :
    st (EnrollmentAuthority W) (ApprovalCommitError E) EnrollmentAnchor :=
  a ← st_get;
  revision ← st_lift (ok_or (checked_add 64 (er_revision (er_parts (au_record a))) 1)
    (ApprovalState ApprovalError.Exhausted));
  let next := mk_erp (er_version next) (er_device next) (er_genesis next) revision (er_policy next)
    (er_approved next) (er_snapshot next) in
  record ← st_lift (state_err (er_from_parts next));
  anchor ← st_lift (er_anchor record);
  _ ← set_blocked true;
  current ← st_lift (er_anchor (au_record a));
  _ ← with_store (store_commit (Some current) record anchor);
  _ ← set_record record;
  _ ← set_blocked false;
  mret anchor.

(** The snapshot of the changed record, one generation later. *)
Definition next_snapshot (next : EnrollmentRecordParts) :
    res (ApprovalCommitError E) (option PolicySnapshot) :=
  match er_snapshot next with
  | None => mret None
  | Some snapshot =>
      anchor ← trust_anchor (ps_record snapshot);
      generation ← ok_or (checked_add 64 (ta_generation anchor) 1) (ApprovalState ApprovalError.Exhausted);
      s ← state_err (snapshot_for next generation);
      mret (Some s)
  end.

Definition with_snapshot (p : EnrollmentRecordParts) (s : option PolicySnapshot) : EnrollmentRecordParts :=
  mk_erp (er_version p) (er_device p) (er_genesis p) (er_revision p) (er_policy p) (er_approved p) s.

Definition auth_approve (expected : EnrollmentAnchor) (policy : EnrollmentPolicy) :
    st (EnrollmentAuthority W) (ApprovalCommitError E) EnrollmentAnchor :=
  a ← st_get;
  _ ← st_lift (state_err (auth_check a expected));
  let p := er_parts (au_record a) in
  if match er_policy p with Some old => negb (eqb (ep_owner old) (ep_owner policy)) | None => false end
  then st_fail (ApprovalState ApprovalError.Owner)
  else
    let next := mk_erp (er_version p) (er_device p) (er_genesis p) (er_revision p) (Some policy) true
      (er_snapshot p) in
    s ← st_lift (next_snapshot next);
    auth_commit (with_snapshot next s).

Definition auth_revoke (expected : EnrollmentAnchor) :
    st (EnrollmentAuthority W) (ApprovalCommitError E) EnrollmentAnchor :=
  a ← st_get;
  _ ← st_lift (state_err (auth_check a expected));
  let p := er_parts (au_record a) in
  let next := mk_erp (er_version p) (er_device p) (er_genesis p) (er_revision p) (er_policy p) false
    (er_snapshot p) in
  s ← st_lift (next_snapshot next);
  auth_commit (with_snapshot next s).

(** [resolve] on a first enrollment and on a refresh, once the record is known to
    be current. *)
Definition resolve_enroll (p : EnrollmentRecordParts) (expected : TrustAnchor) (policy : EnrollmentPolicy) :
    st (EnrollmentAuthority W) (ApprovalCommitError E) PolicySnapshot :=
  approved ← st_lift (ok_or
    (match er_policy p with
     | Some approved =>
         if er_approved p && match er_snapshot p with None => true | Some _ => false end
         then Some approved else None
     | None => None
     end) (ApprovalState ApprovalError.Approval));
  if negb (eqb expected (er_genesis p))
     || negb (eqb (pp_principal (ep_peer policy)) (pp_principal (ep_peer approved)))
     || negb (eqb (ep_owner policy) (ep_owner approved))
     || negb (eqb (ep_resource_policy policy) (ep_resource_policy approved))
  then st_fail (ApprovalState ApprovalError.Approval)
  else
    snapshot ← st_lift (state_err (snapshot_for p 1));
    _ ← auth_commit (with_snapshot p (Some snapshot));
    mret snapshot.

Definition resolve_refresh (p : EnrollmentRecordParts) (expected : TrustAnchor) (commitment : list Z) :
    res (ApprovalCommitError E) PolicySnapshot :=
  snapshot ← ok_or (er_snapshot p) (ApprovalState ApprovalError.NotEnrolled);
  actual ← trust_anchor (ps_record snapshot);
  if negb (eqb (ta_store expected) (ta_store actual))
     || (ta_generation actual <? ta_generation expected)
     || ((ta_generation expected =? 0) && negb (eqb commitment zero32))
  then Err (ApprovalState ApprovalError.Policy)
  else
    changed ←
      (if ta_generation expected =? ta_generation actual then
         if negb (eqb expected actual) then mret true
         else c ← snapshot_commitment snapshot; mret (negb (eqb commitment c))
       else mret false);
    if (changed : bool) then Err (ApprovalState ApprovalError.Policy) else Ok snapshot.

Definition auth_resolve (request : AuthenticatedPolicyRequest) :
    st (EnrollmentAuthority W) (ApprovalCommitError E) PolicySnapshot :=
  a ← st_get;
  own ← st_lift (er_anchor (au_record a));
  _ ← st_lift (state_err (auth_check a own));
  if negb (eqb (ar_principal request) (er_principal (au_record a))) then
    st_fail (ApprovalState ApprovalError.Device)
  else
    _ ← set_blocked true;
    current ← with_store store_current;
    if negb (eqb current own) then st_fail (ApprovalState ApprovalError.Anchor)
    else
      _ ← set_blocked false;
      match ar_query request with
      | Enroll expected policy => resolve_enroll (er_parts (au_record a)) expected policy
      | Refresh expected commitment => st_lift (resolve_refresh (er_parts (au_record a)) expected commitment)
      end.

End Authority.
Arguments mk_auth {W}.
Arguments au_record {W}.
Arguments au_store {W}.
Arguments au_blocked {W}.

(** * Theorems on the authority

    The durable store is a compare-and-swap register with a log of what was
    committed to it; several replicas of the authority may work on it at the same
    time, be lost, and be restored from arbitrary files.  The log is a history of
    an abstract claim (who owns the device, what is approved, how many times the
    policy changed), and a replica that answers a device answers with the policy
    committed last. *)
Section Laws.
Context `{Target} `{P : P256} `{HP : !P256Laws P} `{B : Blake3} `{HB : !Blake3Laws B}.

(** ** Well-formed values *)
Definition erp_ok (p : EnrollmentRecordParts) : Prop :=
  peer_ok (er_device p) ∧ anchor_ok (er_genesis p) ∧ in_u 64 (er_revision p) ∧
  from_option policy_ok True (er_policy p) ∧ from_option snapshot_ok True (er_snapshot p).

Definition er_ok (r : EnrollmentRecord) : Prop :=
  erp_ok (er_parts r) ∧ er_from_parts (er_parts r) = Ok r.

(** ** Digests *)
Lemma anchor_of_ok s : snapshot_ok s → anchor_ok (anchor_of (ps_record s)).
Proof.
  intros ((Hst & Hg & Hpos & _) & Ns & _). unfold anchor_ok, anchor_of. simpl.
  split; [done|]. split; [done|]. split; [done|]. split; [|lia].
  split; [apply digest_length|apply digest_bytes].
Qed.

Definition policy_input (s : PolicySnapshot) : list Z :=
  anchor_wire (anchor_of (ps_record s)) ++ ps_owner s ++ ps_resource_policy s.
Definition commitment_of (s : PolicySnapshot) : list Z := derive_key POLICY_DOMAIN (policy_input s).

Lemma snapshot_commitment_of {E} s : snapshot_ok s →
  snapshot_commitment (E:=E) s = Ok (commitment_of s).
Proof.
  intros Hs. unfold snapshot_commitment. rewrite trust_anchor_of by apply Hs. unbind.
  by rewrite encode_anchor_zeros by by apply anchor_of_ok.
Qed.

Definition er_input (r : EnrollmentRecord) : list Z :=
  let p := er_parts r in
  [er_version p] ++ er_principal r ++ ta_store (er_genesis p) ++ be_bytes 8 (er_revision p) ++
  [bool_byte (er_approved p); some_byte (er_policy p)] ++
  match er_policy p with
  | Some policy => pp_principal (ep_peer policy) ++ ep_owner policy ++ ep_resource_policy policy
  | None => []
  end ++
  [some_byte (er_snapshot p)] ++ from_option commitment_of [] (er_snapshot p).

Definition er_anchor_of (r : EnrollmentRecord) : EnrollmentAnchor :=
  mk_ea (mk_anchor (ta_store (er_genesis (er_parts r))) (er_revision (er_parts r))
    (derive_key AUTHORITY_DOMAIN (er_input r))).

Lemma er_from_parts_head p r : er_from_parts p = Ok r →
  r = mk_er p ∧ er_version p = 1 ∧ er_revision p ≠ 0 ∧ ta_generation (er_genesis p) = 0 ∧
  (er_approved p = true → is_Some (er_policy p)).
Proof.
  unfold er_from_parts. destruct (_ || _) eqn:E1; [done|]. bools. destruct (er_approved p && _) eqn:E2; [done|].
  unbind. destruct (refuses_policy p) as [[]|e| |]; try done. intros HE.
  assert (r = mk_er p) as ->.
  { destruct (er_snapshot p) as [s|]; [|by simplify_eq]. destruct (ok_or _ _) as [pol|e| |]; try done.
    destruct (refuses_snapshot p pol s) as [[]|e| |]; by simplify_eq. }
  repeat split; try lia. intros Ha. rewrite Ha in E2. by destruct (er_policy p).
Qed.

Lemma er_anchor_eq {E} r : er_ok r → er_anchor (E:=E) r = Ok (er_anchor_of r).
Proof.
  intros [(_ & (_ & Ns & _) & _ & _ & Hs) (_ & _ & Hn & _)%er_from_parts_head]. unfold er_anchor.
  assert ((match er_snapshot (er_parts r) return res E (list Z) with
    | Some snapshot => snapshot_commitment snapshot | None => mret [] end) =
    Ok (from_option commitment_of [] (er_snapshot (er_parts r)))) as ->.
  { destruct (er_snapshot (er_parts r)); [|done]. by apply snapshot_commitment_of. }
  unbind. unfold anchor_from_parts. rewrite (zero32_neqb _ Ns).
  by rewrite (proj2 (Z.eqb_neq (er_revision (er_parts r)) 0)) by done.
Qed.

(** What the validation of a snapshot leaves open is its generation. *)
Lemma er_from_parts_snapshot p r s : erp_ok p → er_from_parts p = Ok r → er_snapshot p = Some s →
  ∃ policy, er_policy p = Some policy ∧ tr_local (ps_record s) = pp_principal (er_device p) ∧
    tr_store (ps_record s) = ta_store (er_genesis p) ∧
    pp_principal (tr_peer (ps_record s)) = pp_principal (ep_peer policy) ∧
    tr_enabled (ps_record s) = er_approved p ∧ ps_owner s = ep_owner policy ∧
    ps_resource_policy s = ep_resource_policy policy ∧
    tr_generation (ps_record s) + 2 ≤ er_revision p.
Proof.
  intros (_ & _ & _ & _ & Hs) HE Es. rewrite Es in Hs. simpl in Hs. unfold er_from_parts in HE.
  destruct (_ || _); [done|]. destruct (er_approved p && _); [done|]. unfold mbind in HE. unbind.
  destruct (refuses_policy p) as [[]|e| |]; try done. rewrite Es in HE.
  destruct (er_policy p) as [policy|]; [|done]. cbn [ok_or] in HE. exists policy. split; [done|].
  unfold refuses_snapshot in HE. unbind.
  destruct (eqb (tr_local (ps_record s)) (pp_principal (er_device p))) eqn:E1; [|done]. cbn [negb] in HE.
  rewrite trust_anchor_of in HE by apply Hs. cbn beta iota in HE.
  destruct (_ || _) eqn:E2; [done|]. cbn [anchor_of ta_store ta_generation] in E2. bools.
  case_match eqn:E4; [|done]. bools. unfold checked_add in E4. destruct (_ <=? _) in E4; [|done]. injection E4 as <-.
  destruct (Bool.eqb _ _) eqn:E3; [|done].
  apply Bool.eqb_prop in E3. by repeat split.
Qed.

(** ** Files that are not what was committed

    Every input hashed for a record: the credentials of its peers, its policy and
    the record itself. *)
Definition peer_input (p : PinnedPeer) : list Z :=
  match ebuf_as_slice (E:=unit) (cr_bytes (pp_credential p)) with Ok bs => bs | _ => [] end.

Lemma peer_input_spec p : peer_ok p →
  (∀ E, ebuf_as_slice (E:=E) (cr_bytes (pp_credential p)) = Ok (peer_input p)) ∧
  pp_principal p = derive_key CREDENTIAL_DOMAIN (peer_input p).
Proof.
  intros (pk & kid & x & y & _ & (_ & _ & Hx & Hy & _ & _ & _ & ->))%peer_ok_inv. unfold peer_input.
  rewrite peer_slice by done. split; [|done]. intros E. by rewrite peer_slice.
Qed.

Lemma peer_input_inj p p' : peer_ok p → peer_ok p' → peer_input p = peer_input p' → p = p'.
Proof.
  intros Hp Hp' HE. destruct (peer_input_spec p Hp) as [Hs _], (peer_input_spec p' Hp') as [Hs' _].
  destruct (peer_ok_export (E:=unit) p Hp) as (_ & _ & _ & _ & _ & Hf).
  destruct (peer_ok_export (E:=unit) p' Hp') as (_ & _ & _ & _ & _ & Hf').
  assert (peer_key p = peer_key p' ∧ peer_kid_of p = peer_kid_of p') as [Hk Hi].
  { unfold peer_key, peer_kid_of, peer_public_key, peer_kid. by rewrite !Hs, !Hs', HE. }
  rewrite Hk, Hi, Hf' in Hf. by injection Hf.
Qed.

Definition hashed (r : EnrollmentRecord) : list (string * list Z) :=
  let p := er_parts r in
  [(AUTHORITY_DOMAIN, er_input r); (CREDENTIAL_DOMAIN, peer_input (er_device p))] ++
  from_option (fun policy => [(CREDENTIAL_DOMAIN, peer_input (ep_peer policy))]) [] (er_policy p) ++
  from_option (fun s => [(CREDENTIAL_DOMAIN, peer_input (tr_peer (ps_record s)));
    (POLICY_DOMAIN, policy_input s)]) [] (er_snapshot p).

(** No two of the inputs hashed for the two records collide. *)
Definition resists (r r' : EnrollmentRecord) : Prop :=
  ∀ c a b, (c, a) ∈ hashed r → (c, b) ∈ hashed r' → derive_key c a = derive_key c b → a = b.

Lemma resists_peer r r' p p' : resists r r' → peer_ok p → peer_ok p' →
  (CREDENTIAL_DOMAIN, peer_input p) ∈ hashed r → (CREDENTIAL_DOMAIN, peer_input p') ∈ hashed r' →
  pp_principal p = pp_principal p' → p = p'.
Proof.
  intros Hr Hp Hp' Hi Hi' HE. apply peer_input_inj; [done..|]. eapply Hr; [done..|].
  by rewrite <- (proj2 (peer_input_spec p Hp)), <- (proj2 (peer_input_spec p' Hp')).
Qed.

Lemma policy_input_inj s s' : snapshot_ok s → snapshot_ok s' → policy_input s = policy_input s' →
  tr_generation (ps_record s) = tr_generation (ps_record s').
Proof.
  intros Hs Hs' HE. apply app_inj_1 in HE as [HE _].
  2:{ by rewrite !length_anchor_wire by by apply anchor_of_ok. }
  unfold anchor_wire, anchor_of in HE. cbn [ta_store ta_generation ta_digest] in HE.
  destruct Hs as (((Ls & _) & Hg & _) & _), Hs' as (((Ls' & _) & Hg' & _) & _).
  apply app_inj_1 in HE as [_ HE]; [|lia]. apply app_inj_1 in HE as [HE _]; [|by rewrite !length_be_bytes].
  by apply be64_inj.
Qed.

(** The parts of a record that its input shows. *)
Definition shown (r : EnrollmentRecord) : Principal * list Z * Z * bool * option (Principal * list Z * list Z) *
    option (list Z) :=
  let p := er_parts r in
  (er_principal r, ta_store (er_genesis p), er_revision p, er_approved p,
   (fun policy => (pp_principal (ep_peer policy), ep_owner policy, ep_resource_policy policy)) <$> er_policy p,
   commitment_of <$> er_snapshot p).

Lemma er_input_inj r r' : er_ok r → er_ok r' → er_input r = er_input r' → shown r = shown r'.
Proof.
  intros [(Hd & ((Lg & _) & _) & Hv & Hp & _) _] [(Hd' & ((Lg' & _) & _) & Hv' & Hp' & _) _].
  apply peer_principal_arr in Hd as [Ld _], Hd' as [Ld' _]. unfold er_input, shown, er_principal.
  destruct r as [[v d g n pol ap s]], r' as [[v' d' g' n' pol' ap' s']].
  cbn [er_parts er_device er_genesis er_revision er_policy er_snapshot er_approved er_version] in *.
  intros HE. apply app_inj_1 in HE as [_ HE]; [|done]. apply app_inj_1 in HE as [-> HE]; [|lia].
  apply app_inj_1 in HE as [-> HE]; [|lia].
  apply app_inj_1 in HE as [En HE]; [|by rewrite !length_be_bytes]. apply be64_inj in En as ->; [|done..].
  apply app_inj_1 in HE as [Eb HE]; [|done]. injection Eb as Ea Ep.
  assert (ap = ap') as -> by by destruct ap, ap'.
  assert ((fun p => (pp_principal (ep_peer p), ep_owner p, ep_resource_policy p)) <$> pol =
    (fun p => (pp_principal (ep_peer p), ep_owner p, ep_resource_policy p)) <$> pol' ∧
    [some_byte s] ++ from_option commitment_of [] s = [some_byte s'] ++ from_option commitment_of [] s')
    as [-> Es].
  { destruct pol as [pol|], pol' as [pol'|]; try done. simpl in Hp, Hp'.
    destruct Hp as (Hq & (Lo & _) & _ & (Lr & _) & _), Hp' as (Hq' & (Lo' & _) & _ & (Lr' & _) & _).
    apply peer_principal_arr in Hq as [Lq _], Hq' as [Lq' _].
    apply app_inj_1 in HE as [Ez HE]; [|rewrite !length_app; lia]. split; [|exact HE].
    apply app_inj_1 in Ez as [E1 Ez]; [|lia]. apply app_inj_1 in Ez as [E2 E3]; [|lia]. simpl. congruence. }
  destruct s, s'; try done. simpl in Es |- *. congruence.
Qed.

Lemma shown_policy r r' : er_ok r → er_ok r' → resists r r' → shown r = shown r' →
  er_policy (er_parts r) = er_policy (er_parts r').
Proof.
  intros [(_ & _ & _ & Hp & _) _] [(_ & _ & _ & Hp' & _) _] Hres Ed.
  apply (f_equal (fun x => x.1.2)) in Ed. cbn [shown fst snd] in Ed.
  destruct (er_policy (er_parts r)) as [pol|] eqn:E1, (er_policy (er_parts r')) as [pol'|] eqn:E2; try done.
  simpl in Ed. injection Ed as Ep Eo Er. destruct Hp as (Hq & _), Hp' as (Hq' & _).
  apply (resists_peer r r') in Ep; [|done..|unfold hashed; rewrite E1; simpl; set_solver
    |unfold hashed; rewrite E2; simpl; set_solver].
  destruct pol, pol'. simpl in *. congruence.
Qed.

Lemma shown_snapshot r r' : er_ok r → er_ok r' → resists r r' → shown r = shown r' →
  er_snapshot (er_parts r) = er_snapshot (er_parts r').
Proof.
  intros Hr Hr' Hres Ed. pose proof (shown_policy r r' Hr Hr' Hres Ed) as Epol.
  destruct Hr as [Hr Hf], Hr' as [Hr' Hf']. pose proof Hr as (_ & _ & _ & _ & Hs).
  pose proof Hr' as (_ & _ & _ & _ & Hs'). injection Ed as E1 E2 _ E4 _ E6.
  destruct (er_snapshot (er_parts r)) as [s|] eqn:Es, (er_snapshot (er_parts r')) as [s'|] eqn:Es'; try done.
  simpl in Hs, Hs', E6. injection E6 as E6. apply Hres in E6;
    [|unfold hashed; rewrite Es; simpl; set_solver|unfold hashed; rewrite Es'; simpl; set_solver].
  apply policy_input_inj in E6; [|done..].
  destruct (er_from_parts_snapshot _ _ _ Hr Hf Es) as (pol & Ep & A1 & A2 & A3 & A4 & A5 & A6 & _).
  destruct (er_from_parts_snapshot _ _ _ Hr' Hf' Es') as (pol' & Ep' & B1 & B2 & B3 & B4 & B5 & B6 & _).
  rewrite Epol, Ep' in Ep. injection Ep as <-. rewrite <- B3 in A3.
  apply (resists_peer r r') in A3; [|done|apply Hs|apply Hs'|unfold hashed; rewrite Es; simpl; set_solver
    |unfold hashed; rewrite Es'; simpl; set_solver].
  unfold er_principal in E1. destruct s as [[] ? ?], s' as [[] ? ?]. simpl in *. congruence.
Qed.

Lemma er_anchor_inj r r' : er_ok r → er_ok r' → resists r r' → er_anchor_of r = er_anchor_of r' → r = r'.
Proof.
  intros Hr Hr' Hres [= _ _ Ed]. apply Hres in Ed; [|by left|by left].
  apply er_input_inj in Ed; [|done..]. pose proof (shown_policy r r' Hr Hr' Hres Ed) as Epol.
  pose proof (shown_snapshot r r' Hr Hr' Hres Ed) as Es.
  destruct Hr as [(Hd & Hg & _) Hf], Hr' as [(Hd' & Hg' & _) Hf'].
  destruct (er_from_parts_head _ _ Hf) as (_ & Ev & _ & Z1 & _).
  destruct (er_from_parts_head _ _ Hf') as (_ & Ev' & _ & Z1' & _).
  destruct Hg as (_ & _ & _ & _ & Hz), Hg' as (_ & _ & _ & _ & Hz'). injection Ed as E1 E2 E3 E4 _ _.
  apply (resists_peer r r') in E1; [|done..|by right; left|by right; left].
  specialize (Hz Z1). specialize (Hz' Z1').
  destruct r as [[? ? [] ? ? ? ?]], r' as [[? ? [] ? ? ? ?]]. simpl in *. congruence.
Qed.

(** ** The abstract claim *)

(** Who may use the device for what, whether that is approved now, and how often
    the enrolled policy changed; [None] before the first enrollment. *)
Record claim : Type := mk_claim {
  cl_policy : option EnrollmentPolicy;
  cl_approved : bool;
  cl_generation : option Z
}.

Inductive claim_step : claim → claim → Prop :=
  | claim_approve c p :
      (∀ old, cl_policy c = Some old → ep_owner old = ep_owner p) →
      claim_step c (mk_claim (Some p) true (Z.succ <$> cl_generation c))
  | claim_revoke c :
      claim_step c (mk_claim (cl_policy c) false (Z.succ <$> cl_generation c))
  | claim_enroll p :
      claim_step (mk_claim (Some p) true None) (mk_claim (Some p) true (Some 1)).

Definition claim_of (r : EnrollmentRecord) : claim :=
  mk_claim (er_policy (er_parts r)) (er_approved (er_parts r))
    ((fun s => tr_generation (ps_record s)) <$> er_snapshot (er_parts r)).

(** The snapshot of a claim is determined by the rest. *)
Definition claim_snapshot (device : PinnedPeer) (genesis : TrustAnchor) (c : claim) : option PolicySnapshot :=
  policy ← cl_policy c;
  generation ← cl_generation c;
  Some (mk_snapshot (mk_trust (ta_store genesis) generation (pp_principal device) (ep_peer policy)
    (cl_approved c)) (ep_owner policy) (ep_resource_policy policy)).

Definition record_of (device : PinnedPeer) (genesis : TrustAnchor) (revision : Z) (c : claim) :
    EnrollmentRecord :=
  mk_er (mk_erp 1 device genesis revision (cl_policy c) (cl_approved c) (claim_snapshot device genesis c)).

(** A log, newest first, that a run of the abstract claim explains. *)
Inductive history (device : PinnedPeer) (genesis : TrustAnchor) : list EnrollmentRecord → Prop :=
  | history_start : history device genesis [record_of device genesis 1 (mk_claim None false None)]
  | history_next r rs c :
      history device genesis (r :: rs) → claim_step (claim_of r) c →
      history device genesis (record_of device genesis (er_revision (er_parts r) + 1) c :: r :: rs).

Lemma snapshot_for_eq p policy g : erp_ok p → er_policy p = Some policy → in_u 64 g → 0 < g →
  snapshot_for p g = Ok (mk_snapshot (mk_trust (ta_store (er_genesis p)) g (pp_principal (er_device p))
    (ep_peer policy) (er_approved p)) (ep_owner policy) (ep_resource_policy policy)).
Proof.
  intros (_ & (_ & Ns & _) & _ & Hp & _) Ep Hg Hpos. rewrite Ep in Hp. simpl in Hp.
  destruct Hp as (Hpe & _ & No & _ & Nr). unfold snapshot_for. rewrite Ep. cbn [ok_or]. unbind.
  destruct (peer_ok_export (E:=ApprovalError.ApprovalError) _ Hpe) as (-> & -> & _ & _ & _ & Hf). cbn beta iota.
  unfold trust_from_parts. cbn [tp_version tp_store tp_generation tp_local tp_public_key tp_kid tp_enabled].
  rewrite (zero32_neqb _ Ns), (proj2 (Z.eqb_neq g 0)) by lia. simpl. rewrite Hf. unbind. cbn [map_err].
  unfold snapshot_new, validate_policy. rewrite (zero32_neqb _ No), (zero32_neqb _ Nr). done.
Qed.

Lemma snapshot_for_ok p policy g s : erp_ok p → er_policy p = Some policy → in_u 64 g → 0 < g →
  snapshot_for p g = Ok s → snapshot_ok s.
Proof.
  intros Hp Ep Hg Hpos. rewrite (snapshot_for_eq p policy) by done. intros [= <-].
  destruct Hp as (Hd & (Hst & Ns & _) & _ & Hp & _). rewrite Ep in Hp. destruct Hp as (Hpe & Ho & No & Hr & Nr).
  split; [|done]. apply record_ok_intro; try done. by apply peer_principal_arr.
Qed.

(** ** The store *)
Record register : Type := mk_register {
  rg_current : option EnrollmentAnchor;
  rg_log : list EnrollmentRecord
}.

Definition rg_committed (d : register) (r : EnrollmentRecord) (a : EnrollmentAnchor) : register :=
  mk_register (Some a) (r :: rg_log d).

(** The documented contract: a commit is a compare-and-swap whose acknowledgement
    may be lost; reading the current anchor does not change it. *)
Class StoreLaws {E} (S : EnrollmentStore register E) : Prop := {
  commit_swaps : ∀ expected r a d,
    match store_commit expected r a d with
    | (d', Ok _) => expected = rg_current d ∧ d' = rg_committed d r a
    | (d', _) => d' = d ∨ (expected = rg_current d ∧ d' = rg_committed d r a)
    end;
  current_reads : ∀ d,
    match store_current d with
    | (d', Ok a) => d' = d ∧ rg_current d = Some a
    | (d', _) => d' = d
    end
}.

Section Replica.
Context {E : Type} (S : EnrollmentStore register E) `{!StoreLaws S}.

(** What an operation on a replica may do: nothing to the store, or the commit of
    one record that follows the replica's own, which was the current one. *)
Definition committed_next (a : EnrollmentAuthority register) (c : claim) (a' : EnrollmentAuthority register) :
    Prop :=
  let p := er_parts (au_record a) in
  let r' := record_of (er_device p) (er_genesis p) (er_revision p + 1) c in
  rg_current (au_store a) = Some (er_anchor_of (au_record a)) ∧ er_ok r' ∧
  au_store a' = rg_committed (au_store a) r' (er_anchor_of r') ∧
  (au_record a' = r' ∨ au_record a' = au_record a ∧ au_blocked a' = true).

Definition unchanged (a a' : EnrollmentAuthority register) : Prop :=
  au_store a' = au_store a ∧ au_record a' = au_record a.

Lemma auth_commit_effect a next c a' x :
  er_ok (au_record a) → erp_ok next → er_version next = 1 →
  er_device next = er_device (er_parts (au_record a)) →
  er_genesis next = er_genesis (er_parts (au_record a)) →
  er_policy next = cl_policy c → er_approved next = cl_approved c →
  er_snapshot next = claim_snapshot (er_device next) (er_genesis next) c →
  auth_commit next a = (a', x) →
  (unchanged a a' ∧ res_ok x = None) ∨
  (committed_next a c a' ∧ (is_Some (res_ok x) →
     au_record a' = record_of (er_device next) (er_genesis next) (er_revision (er_parts (au_record a)) + 1) c)).
Proof.
  intros Ha (Nd & Ng & _ & Np & Ns) Ev Ed Eg Ep Eap Es. unfold auth_commit. unbind.
  unfold st_get, st_lift, with_store, set_blocked, set_record. unbind.
  destruct (checked_add 64 _ 1) as [rev|] eqn:Er; [|intros [= <- <-]; by left].
  cbn [ok_or]. unfold checked_add in Er. case_match; [|done]. injection Er as <-. bools.
  rewrite Ev, Ep, Eap, Es. set (parts := mk_erp _ _ _ _ _ _ _).
  assert (erp_ok parts) as Hok.
  { split; [done|]. split; [done|]. split; [|by rewrite Ep, Es in *].
    destruct Ha as [(_ & _ & Hv & _) _]. unfold in_u, max_u in *. simpl. lia. }
  destruct (er_from_parts parts) as [r|e| |] eqn:Ef; try by (intros [= <- <-]; left).
  cbn [state_err map_err]. destruct (er_from_parts_head _ _ Ef) as [Er _].
  assert (er_ok r) as Hr by (subst r; by split).
  rewrite !er_anchor_eq by done. cbn [au_store au_record au_blocked].
  pose proof (commit_swaps (Some (er_anchor_of (au_record a))) r (er_anchor_of r) (au_store a)) as Hc.
  unfold committed_next. rewrite <- Ed, <- Eg. fold parts. change (mk_er parts) with
    (record_of (er_device next) (er_genesis next) (er_revision (er_parts (au_record a)) + 1) c) in Er.
  rewrite <- Er. destruct (store_commit _ _ _ _) as [w [[]|e| |]]; cbn [map_err au_store au_record au_blocked].
  1: destruct Hc as [Hc ->]; intros [= <- <-]; right; split; [|done]; split_and!; try done; by left.
  all: intros [= <- <-]; destruct Hc as [->|[Hc ->]]; [by left|]; right;
    split; [split_and!; try done; by right|by intros [? ?]].
Qed.

Definition gen_of (p : EnrollmentRecordParts) : option Z :=
  (fun s => tr_generation (ps_record s)) <$> er_snapshot p.

Lemma next_snapshot_eq next s : erp_ok next → next_snapshot (E:=E) next = Ok s →
  s = claim_snapshot (er_device next) (er_genesis next)
    (mk_claim (er_policy next) (er_approved next) (Z.succ <$> gen_of next)) ∧
  from_option snapshot_ok True s.
Proof.
  intros Hn. pose proof Hn as (_ & _ & _ & _ & Hs). unfold next_snapshot, gen_of, claim_snapshot. unbind.
  destruct (er_snapshot next) as [s0|] eqn:Es.
  2:{ intros [= <-]. split; [|done]. by destruct (er_policy next). }
  simpl in Hs. rewrite trust_anchor_of by apply Hs. cbn [anchor_of ta_generation].
  destruct (checked_add 64 _ 1) as [g|] eqn:Eg; [|done]. cbn [ok_or].
  apply checked_add_next in Eg as (Hg & -> & Hpos); [|destruct Hs as ((_ & _ & ? & _) & _); lia].
  destruct (er_policy next) as [policy|] eqn:Ep; [|by unfold snapshot_for; rewrite Ep].
  pose proof (snapshot_for_eq next policy _ Hn Ep Hg Hpos) as Hf. rewrite Hf. intros [= <-].
  split; [done|]. simpl. by eapply snapshot_for_ok.
Qed.

Definition follows (a a' : EnrollmentAuthority register) : Prop :=
  unchanged a a' ∨ ∃ c, claim_step (claim_of (au_record a)) c ∧ committed_next a c a'.

(** A change of policy and approval, with the snapshot renewed. *)
Lemma change_effect a policy approved a' x :
  let p := er_parts (au_record a) in
  let next := mk_erp (er_version p) (er_device p) (er_genesis p) (er_revision p) policy approved
    (er_snapshot p) in
  er_ok (au_record a) → from_option policy_ok True policy →
  claim_step (claim_of (au_record a)) (mk_claim policy approved (Z.succ <$> gen_of p)) →
  (s ← st_lift (next_snapshot next); auth_commit (with_snapshot next s)) a = (a', x) → follows a a'.
Proof.
  intros p next Ha Hp Hc. unbind. destruct Ha as [Hpa Hfa]. pose proof Hpa as (Hd & Hg & Hv & _ & Hs).
  assert (erp_ok next) as Hn by (split_and!; simpl; auto).
  destruct (next_snapshot next) as [s|e| |] eqn:En; try by (intros [= <- _]; left).
  apply next_snapshot_eq in En as [Es Hso]; [|done]. intros HE.
  destruct (er_from_parts_head _ _ Hfa) as (_ & Ev & _).
  apply (auth_commit_effect a (with_snapshot next s) (mk_claim policy approved (Z.succ <$> gen_of p))) in HE;
    try done.
  destruct HE as [[HE _]|[HE _]]; [by left|right; by exists (mk_claim policy approved (Z.succ <$> gen_of p))].
Qed.

Lemma approve_effect a expected policy a' x :
  er_ok (au_record a) → policy_ok policy → auth_approve expected policy a = (a', x) → follows a a'.
Proof.
  intros Ha Hp. unfold auth_approve. unfold mbind at 1, st_mbind at 1, st_bind at 1. unfold st_get.
  unfold mbind at 1, st_mbind at 1, st_bind at 1. unfold st_lift at 1.
  destruct (state_err (auth_check a expected)); try by (intros [= <- _]; left).
  destruct (match er_policy _ with Some _ => _ | None => false end) eqn:Eo; [intros [= <- _]; by left|].
  apply change_effect; [done..|]. apply (claim_approve (claim_of (au_record a))). simpl.
  intros old Hold. rewrite Hold in Eo. by bools.
Qed.

Lemma auth_revoke_effect a expected a' x :
  er_ok (au_record a) → auth_revoke expected a = (a', x) → follows a a'.
Proof.
  intros Ha. unfold auth_revoke. unfold mbind at 1, st_mbind at 1, st_bind at 1. unfold st_get.
  unfold mbind at 1, st_mbind at 1, st_bind at 1. unfold st_lift at 1.
  destruct (state_err (auth_check a expected)); try by (intros [= <- _]; left).
  apply change_effect; [done|apply Ha|]. apply (claim_revoke (claim_of (au_record a))).
Qed.

(** ** Answers *)
Lemma refresh_valid r s expected commitment : er_ok r →
  resolve_refresh (E:=E) (er_parts r) expected commitment = Ok s →
  er_snapshot (er_parts r) = Some s ∧
  validate_snapshot s (Refresh expected commitment) (er_principal r) = Ok tt.
Proof.
  intros [Hp Hf]. unfold resolve_refresh. unbind.
  destruct (er_snapshot (er_parts r)) as [s0|] eqn:Es; [|done]. cbn [ok_or].
  pose proof Hp as (_ & _ & _ & _ & Hs). rewrite Es in Hs. simpl in Hs.
  destruct (er_from_parts_snapshot _ _ _ Hp Hf Es) as (policy & _ & El & _).
  rewrite trust_anchor_of by apply Hs. destruct (_ || _) eqn:E1; [done|]. intros HE.
  assert (s0 = s) as <-.
  { destruct (ta_generation expected =? ta_generation (anchor_of (ps_record s0))); [|by injection HE].
    destruct (negb (eqb expected (anchor_of (ps_record s0)))); [done|].
    destruct (snapshot_commitment s0) as [cm|e| |]; try done.
    destruct (negb (eqb commitment cm)); [done|by injection HE]. }
  split; [done|]. bools. unfold validate_snapshot. unbind. rewrite trust_anchor_of by apply Hs.
  cbn [query_expected]. unfold er_principal. rewrite El. unfold eqb at 1. rewrite bool_decide_eq_true_2 by done.
  rewrite <- H0. unfold eqb at 1. rewrite bool_decide_eq_true_2 by done. cbn [negb orb].
  rewrite (proj2 (Z.ltb_ge _ _)) by lia. rewrite (Z.eqb_sym (ta_generation (anchor_of _))).
  destruct (ta_generation expected =? ta_generation (anchor_of (ps_record s0))) eqn:Eg; [|done].
  destruct (eqb expected (anchor_of (ps_record s0))) eqn:Ea; [|done]. bools. subst expected.
  unfold eqb at 1. rewrite bool_decide_eq_true_2 by done. cbn [negb orb andb] in *.
  rewrite (snapshot_commitment_of (E:=EnrollmentError.EnrollmentError)) by done.
  rewrite snapshot_commitment_of in HE by done.
  destruct (eqb commitment (commitment_of s0)) eqn:Ec; bools; [|done]. subst commitment.
  unfold eqb. by rewrite bool_decide_eq_true_2.
Qed.

(** An answer: the snapshot of the replica's record, which is the current one and
    which the device accepts. *)
Definition answered (a' : EnrollmentAuthority register) (request : AuthenticatedPolicyRequest)
    (s : PolicySnapshot) : Prop :=
  er_snapshot (er_parts (au_record a')) = Some s ∧ er_ok (au_record a') ∧
  er_principal (au_record a') = ar_principal request ∧
  rg_current (au_store a') = Some (er_anchor_of (au_record a')) ∧
  validate_snapshot s (ar_query request) (ar_principal request) = Ok tt.

Lemma enroll_valid p expected policy approved : erp_ok p → er_policy p = Some approved →
  expected = er_genesis p → ta_generation (er_genesis p) = 0 →
  pp_principal (ep_peer policy) = pp_principal (ep_peer approved) →
  ep_owner policy = ep_owner approved → ep_resource_policy policy = ep_resource_policy approved →
  validate_snapshot (mk_snapshot (mk_trust (ta_store (er_genesis p)) 1 (pp_principal (er_device p))
      (ep_peer approved) true) (ep_owner approved) (ep_resource_policy approved))
    (Enroll expected policy) (pp_principal (er_device p)) = Ok tt.
Proof.
  intros Hp Ep -> Hg E1 E2 E3.
  set (p1 := mk_erp 1 (er_device p) (er_genesis p) (er_revision p) (er_policy p) true None).
  assert (erp_ok p1) as Hp1 by (destruct Hp as (? & ? & ? & ? & ?); by split_and!).
  pose proof (snapshot_for_eq p1 approved 1 Hp1 Ep ltac:(done) ltac:(done)) as Hf.
  pose proof (snapshot_for_ok p1 approved 1 _ Hp1 Ep ltac:(done) ltac:(done) Hf) as Hs.
  unfold validate_snapshot. unbind. cbn [ps_record p1 er_genesis er_device er_approved] in *.
  rewrite trust_anchor_of by apply Hs. unfold anchor_of. cbn [query_expected tr_local ta_store ta_generation tr_store
    tr_generation tr_enabled tr_peer ps_owner ps_resource_policy].
  rewrite Hg, E1, E2, E3. cbn [Z.ltb Z.eqb Z.compare andb orb negb Pos.eqb].
  unfold eqb. do 5 rewrite (bool_decide_eq_true_2 (_ = _)) by done. done.
Qed.

Lemma enroll_effect a expected policy a' x request : er_ok (au_record a) →
  ar_principal request = er_principal (au_record a) → ar_query request = Enroll expected policy →
  resolve_enroll (er_parts (au_record a)) expected policy a = (a', x) →
  follows a a' ∧ (∀ s, x = Ok s → answered a' request s ∧ au_record a' ≠ au_record a).
Proof.
  intros Ha Er Eq. pose proof Ha as [Hp Hf]. unfold resolve_enroll. unbind.
  destruct (er_from_parts_head _ _ Hf) as (_ & Ev & _ & Hg & _).
  set (p := er_parts (au_record a)) in *.
  destruct (er_policy p) as [approved|] eqn:Ep; [|intros [= <- <-]; split; [by left|done]].
  destruct (er_approved p) eqn:Eap; [|intros [= <- <-]; split; [by left|done]].
  destruct (er_snapshot p) as [s|] eqn:Es; [intros [= <- <-]; split; [by left|done]|]. cbn [andb ok_or].
  destruct (_ || _) eqn:E1; [intros [= <- <-]; split; [by left|done]|]. bools.
  pose proof (snapshot_for_eq p approved 1 Hp Ep ltac:(done) ltac:(done)) as Hfor.
  pose proof (snapshot_for_ok p approved 1 _ Hp Ep ltac:(done) ltac:(done) Hfor) as Hs.
  rewrite Hfor. cbn [state_err map_err]. rewrite Eap in Hs |- *. set (s := mk_snapshot _ _ _) in *.
  destruct (auth_commit _ a) as [a1 x1] eqn:Ec.
  assert (claim_step (claim_of (au_record a)) (mk_claim (Some approved) true (Some 1))) as Hstep.
  { unfold claim_of. fold p. rewrite Ep, Eap, Es. apply claim_enroll. }
  apply (auth_commit_effect a _ (mk_claim (Some approved) true (Some 1))) in Ec; try done.
  2:{ destruct Hp as (? & ? & ? & ? & ?). by split_and!. }
  destruct Ec as [[Hu Hn]|[Hc Hr]].
  { destruct x1; try done; intros [= <- <-]; (split; [by left|done]). }
  assert (follows a a1) as Hfo by (right; by eexists).
  destruct x1 as [an|e| |]; intros [= <- <-]; (split; [done|]); try done. intros s' [= <-].
  specialize (Hr ltac:(by eexists)). destruct Hc as (_ & Hok & Hst & _).
  change (au_record a1 = record_of (er_device (er_parts (au_record a))) (er_genesis (er_parts (au_record a)))
    (er_revision (er_parts (au_record a)) + 1) (mk_claim (Some approved) true (Some 1))) in Hr.
  rewrite <- Hr in Hok, Hst. split.
  - unfold answered. rewrite Hst, Er, Eq, Hr. split; [done|]. split; [by rewrite <- Hr|]. split; [done|]. split; [done|].
    by apply enroll_valid.
  - intros HE. apply (f_equal (fun r => er_revision (er_parts r))) in HE. rewrite Hr in HE. simpl in HE. lia.
Qed.

Lemma resolve_effect a request a' x : er_ok (au_record a) → auth_resolve request a = (a', x) →
  follows a a' ∧ (∀ s, x = Ok s → answered a' request s).
Proof.
  intros Ha. unfold auth_resolve, with_store, set_blocked. unbind. rewrite !er_anchor_eq by done. cbn beta iota.
  destruct (state_err (auth_check a _)); try by (intros [= <- <-]; split; [left|]).
  destruct (eqb (ar_principal request) _) eqn:Er; [|intros [= <- <-]; split; [by left|done]]. bools. cbn [negb].
  pose proof (current_reads (au_store a)) as Hc. cbn [au_store au_record au_blocked].
  destruct (store_current (au_store a)) as [w [cur|e| |]]; cbn [map_err];
    [destruct Hc as [-> Hc]|subst w; intros [= <- <-]; split; [by left|done]..].
  destruct (eqb cur _) eqn:Ec; [|intros [= <- <-]; split; [by left|done]]. bools. cbn [negb]. rewrite Ec in Hc.
  cbn [au_store au_record au_blocked]. destruct (ar_query request) as [expected policy|expected commitment] eqn:Eq.
  - intros HE. apply (enroll_effect (mk_auth (au_record a) (au_store a) false) _ _ _ _ request) in HE as [Hfo Hs];
      [|done..]. split; [exact Hfo|]. intros s Hx. by apply Hs.
  - destruct (resolve_refresh (er_parts (au_record a)) expected commitment) as [s| | |] eqn:Es; intros [= <- <-];
      (split; [by left|]); try done. intros s' [= <-]. apply refresh_valid in Es as [Es Hv]; [|done].
    unfold answered. rewrite Eq, Er. by split_and!.
Qed.

End Replica.

(** ** Histories *)
Lemma history_revision device genesis r rs : history device genesis (r :: rs) →
  er_revision (er_parts r) = Z.of_nat (length (r :: rs)) ∧
  ∀ r', r' ∈ rs → er_revision (er_parts r') < er_revision (er_parts r).
Proof.
  intros Hh. remember (r :: rs) as l eqn:El. revert r rs El.
  induction Hh as [|r0 rs0 c Hh IH Hs]; intros r rs [= <- <-].
  { split; [done|]. intros r' Hr'. by apply elem_of_nil in Hr'. }
  destruct (IH r0 rs0 eq_refl) as [IH1 IH2]. simpl. split; [simpl in IH1; lia|].
  intros r' [->|Hr']%elem_of_cons; [lia|]. apply IH2 in Hr'. lia.
Qed.

Lemma history_tail device genesis r r' rs :
  history device genesis (r :: r' :: rs) → history device genesis (r' :: rs).
Proof. by inversion 1; subst. Qed.

(** The claim of a record built from a claim that can be enrolled. *)
Definition claim_wf (c : claim) : Prop := cl_policy c = None → cl_generation c = None.

Lemma claim_step_wf c c' : claim_wf c → claim_step c c' → claim_wf c'.
Proof.
  intros Hc Hs. destruct Hs as [c p Hp|c|p]; unfold claim_wf; simpl; try done.
  intros HE. by rewrite (Hc HE).
Qed.

Lemma claim_of_record device genesis n c : claim_wf c → claim_of (record_of device genesis n c) = c.
Proof.
  intros Hc. destruct c as [[p|] ap [g|]]; try done. by specialize (Hc eq_refl).
Qed.

Lemma history_wf device genesis r rs : history device genesis (r :: rs) →
  claim_wf (claim_of r) ∧
  r = record_of device genesis (er_revision (er_parts r)) (claim_of r).
Proof.
  intros Hh. remember (r :: rs) as l eqn:El. revert r rs El.
  induction Hh as [|r0 rs0 c Hh IH Hs]; intros r rs [= <- <-]; [done|].
  destruct (IH r0 rs0 eq_refl) as [IH1 _]. pose proof (claim_step_wf _ _ IH1 Hs) as Hc.
  by rewrite claim_of_record.
Qed.

(** What a newer record keeps of an older one. *)
Definition supersedes (r r' : EnrollmentRecord) : Prop :=
  (∀ p', er_policy (er_parts r') = Some p' →
    ∃ p, er_policy (er_parts r) = Some p ∧ ep_owner p = ep_owner p') ∧
  (∀ g', cl_generation (claim_of r') = Some g' →
    ∃ g, cl_generation (claim_of r) = Some g ∧ g' < g).

Lemma supersedes_trans r1 r2 r3 : supersedes r1 r2 → supersedes r2 r3 → supersedes r1 r3.
Proof.
  intros [Ha Hb] [Hc Hd]. split.
  - intros p Hp. apply Hc in Hp as (p2 & Hp & <-). by apply Ha.
  - intros g Hg. apply Hd in Hg as (g2 & Hg & ?). apply Hb in Hg as (g1 & ? & ?). exists g1. split; [done|lia].
Qed.

Lemma claim_step_supersedes device genesis n r c : claim_wf (claim_of r) → claim_step (claim_of r) c →
  supersedes (record_of device genesis n c) r.
Proof.
  intros Hw Hs. pose proof (claim_step_wf _ _ Hw Hs) as Hc. unfold supersedes.
  rewrite claim_of_record by done. cbn [record_of er_parts er_policy].
  change (er_policy (er_parts r)) with (cl_policy (claim_of r)).
  destruct Hs as [c p Hp|c|p]; cbn [cl_policy cl_generation]; (split; [intros p' Hp'|intros g' Hg']); try done;
    rewrite ?Hg'; simpl; eauto with lia.
  exists p. split; [done|]. symmetry. by apply Hp.
Qed.

Lemma history_supersedes device genesis r rs r' :
  history device genesis (r :: rs) → r' ∈ rs → supersedes r r'.
Proof.
  intros Hh. remember (r :: rs) as l eqn:El. revert r rs El.
  induction Hh as [|r0 rs0 c Hh IH Hs]; intros r rs [= <- <-]; [by intros ?%elem_of_nil|].
  pose proof (claim_step_supersedes device genesis (er_revision (er_parts r0) + 1) r0 c
    (proj1 (history_wf _ _ _ _ Hh)) Hs) as Hn.
  intros [->|Hr']%elem_of_cons; [done|]. eapply supersedes_trans; [exact Hn|]. by apply (IH r0 rs0).
Qed.

(** ** Runs with replicas *)

(** The store and the live replicas: each its record and whether it is blocked. *)
Record aworld : Type := mk_aworld {
  aw_store : register;
  aw_live : list (EnrollmentRecord * bool)
}.

Inductive aop : Type :=
  | ApproveOp (expected : EnrollmentAnchor) (policy : EnrollmentPolicy)
  | RevokeOp (expected : EnrollmentAnchor)
  | ResolveOp (request : AuthenticatedPolicyRequest).

Definition aop_ok (op : aop) : Prop := match op with ApproveOp _ p => policy_ok p | _ => True end.

Definition run_aop {E} (S : EnrollmentStore register E) (op : aop) (a : EnrollmentAuthority register) :
    EnrollmentAuthority register :=
  match op with
  | ApproveOp expected policy => (auth_approve expected policy a).1
  | RevokeOp expected => (auth_revoke expected a).1
  | ResolveOp request => (auth_resolve request a).1
  end.

Definition replica (w : aworld) (r : EnrollmentRecord) (b : bool) : EnrollmentAuthority register :=
  mk_auth r (aw_store w) b.

Inductive astep : aworld → aworld → Prop :=
  | astep_register E (S : EnrollmentStore register E) d live device genesis d' x :
      StoreLaws S → peer_ok device → anchor_ok genesis →
      auth_register device genesis d = (d', x) →
      astep (mk_aworld d live)
        (mk_aworld d' (from_option (fun a => [(au_record a, au_blocked a)]) [] (res_ok x) ++ live))
  | astep_restore d live record current a :
      er_ok record → rg_current d = Some current →
      (∀ head older, rg_log d = head :: older → resists record head) →
      auth_restore record current d = Ok a →
      astep (mk_aworld d live) (mk_aworld d ((au_record a, au_blocked a) :: live))
  | astep_op E (S : EnrollmentStore register E) w i r b op :
      StoreLaws S → aw_live w !! i = Some (r, b) → aop_ok op →
      astep w (let a := run_aop S op (replica w r b) in
               mk_aworld (au_store a) (<[i := (au_record a, au_blocked a)]> (aw_live w)))
  | astep_lost w i : astep w (mk_aworld (aw_store w) (delete i (aw_live w))).

Inductive areachable : aworld → Prop :=
  | areach_empty : areachable (mk_aworld (mk_register None []) [])
  | areach_step w w' : areachable w → astep w w' → areachable w'.

Definition aworld_inv (w : aworld) : Prop :=
  match rg_log (aw_store w) with
  | [] => rg_current (aw_store w) = None ∧ aw_live w = []
  | head :: older =>
      (∃ device genesis, history device genesis (head :: older)) ∧ Forall er_ok (head :: older) ∧
      rg_current (aw_store w) = Some (er_anchor_of head) ∧
      Forall (fun rb => rb.1 ∈ head :: older) (aw_live w)
  end.

Lemma log_head head older r device genesis :
  history device genesis (head :: older) → r ∈ head :: older →
  er_anchor_of r = er_anchor_of head → r = head.
Proof.
  intros Hh Hr HE. apply elem_of_cons in Hr as [->|Hr]; [done|]. injection HE as _ En _.
  apply (proj2 (history_revision _ _ _ _ Hh)) in Hr. lia.
Qed.

Lemma follows_inv w i r b a' : aworld_inv w → aw_live w !! i = Some (r, b) → follows (replica w r b) a' →
  aworld_inv (mk_aworld (au_store a') (<[i := (au_record a', au_blocked a')]> (aw_live w))).
Proof.
  unfold aworld_inv. cbn [aw_store aw_live]. intros Hw Hi Hf.
  destruct (rg_log (aw_store w)) as [|head older] eqn:El; [destruct Hw as [_ Hn]; by rewrite Hn in Hi|].
  destruct Hw as ((device & genesis & Hh) & Hok & Hc & Hl).
  assert (r ∈ head :: older) as Hin by (rewrite Forall_forall in Hl; by apply (Hl (r, b)), list_elem_of_lookup; exists i).
  destruct Hf as [[Hs Hr]|(c & Hst & Hcur & Hrok & Hs & Hr)]; rewrite Hs; cbn [replica au_store au_record] in *.
  - rewrite El, Hr. split_and!; try done; [by exists device, genesis|]. by apply Forall_insert.
  - rewrite Hc in Hcur. assert (er_anchor_of r = er_anchor_of head) as Ha by congruence.
    apply (log_head head older r device genesis) in Hin; [|done..].
    subst r. destruct (history_wf _ _ _ _ Hh) as [_ Hrec].
    assert (er_device (er_parts head) = device ∧ er_genesis (er_parts head) = genesis) as [Ed Eg]
      by (rewrite Hrec; done).
    rewrite Ed, Eg in *. cbn [rg_committed rg_log rg_current]. rewrite El. split_and!.
    + exists device, genesis. by apply history_next.
    + by apply Forall_cons.
    + done.
    + apply Forall_insert; [eapply Forall_impl; [exact Hl|]; intros; by right|]. simpl.
      destruct Hr as [->|[-> _]]; [by left|by right; left].
Qed.

Lemma run_aop_follows {E} (S : EnrollmentStore register E) `{!StoreLaws S} op a :
  er_ok (au_record a) → aop_ok op → follows a (run_aop S op a).
Proof.
  intros Ha Hop. destruct op as [expected policy|expected|request]; simpl.
  - destruct (auth_approve expected policy a) as [a' x] eqn:HE. by eapply approve_effect.
  - destruct (auth_revoke expected a) as [a' x] eqn:HE. by eapply auth_revoke_effect.
  - destruct (auth_resolve request a) as [a' x] eqn:HE. by eapply resolve_effect.
Qed.

Lemma register_inv {E} (S : EnrollmentStore register E) `{!StoreLaws S} d live device genesis d' x :
  aworld_inv (mk_aworld d live) → peer_ok device → anchor_ok genesis →
  auth_register device genesis d = (d', x) →
  aworld_inv (mk_aworld d' (from_option (fun a => [(au_record a, au_blocked a)]) [] (res_ok x) ++ live)).
Proof.
  intros Hw Hd Hg. unfold auth_register, st_map_err. unbind. set (parts := mk_erp _ _ _ _ _ _ _).
  destruct (er_from_parts parts) as [r|e| |] eqn:Ef; try by intros [= <- <-].
  cbn [state_err map_err]. destruct (er_from_parts_head _ _ Ef) as [-> _].
  assert (er_ok (mk_er parts)) as Hr by (split; [by split_and!|done]). rewrite er_anchor_eq by done.
  pose proof (commit_swaps None (mk_er parts) (er_anchor_of (mk_er parts)) d) as Hc.
  assert (rg_current d = None → ∀ l, Forall (fun rb => rb.1 = mk_er parts) l →
    aworld_inv (mk_aworld (rg_committed d (mk_er parts) (er_anchor_of (mk_er parts))) (l ++ live))) as Hnew.
  { intros Hn l Hl. unfold aworld_inv in *. cbn [aw_store aw_live rg_committed rg_log rg_current] in *.
    destruct (rg_log d); [|destruct Hw as (_ & _ & Hw & _); congruence]. destruct Hw as [_ ->].
    rewrite app_nil_r. split; [exists device, genesis; apply history_start|].
    split; [by apply Forall_singleton|]. split; [done|].
    eapply Forall_impl; [exact Hl|]. intros rb ->. by left. }
  destruct (store_commit _ _ _ _) as [w [[]|e| |]]; intros [= <- <-]; simpl.
  1: destruct Hc as [Hn ->]; apply (Hnew (eq_sym Hn) [(mk_er parts, false)]); by apply Forall_singleton.
  all: destruct Hc as [->|[Hn ->]]; [done|]; by apply (Hnew (eq_sym Hn) []).
Qed.

Lemma live_ok w i r b : aworld_inv w → aw_live w !! i = Some (r, b) → er_ok r.
Proof.
  intros Hw Hi. unfold aworld_inv in Hw. destruct (rg_log (aw_store w)) as [|head older].
  { destruct Hw as [_ Hn]. by rewrite Hn in Hi. }
  destruct Hw as (_ & Hok & _ & Hl). rewrite Forall_forall in Hok. rewrite Forall_forall in Hl.
  apply Hok, (Hl (r, b)), list_elem_of_lookup. by exists i.
Qed.

Lemma astep_inv w w' : aworld_inv w → astep w w' → aworld_inv w'.
Proof.
  intros Hw Hs. destruct Hs as [E S d live device genesis d' x HS Hd Hg HE
    |d live record current a Hr Hc Hres HE|E S w i r b op HS Hi Hop|w i].
  - by eapply register_inv.
  - unfold aworld_inv in *. cbn [aw_store aw_live] in *.
    destruct (rg_log d) as [|head older]; [by destruct Hw; congruence|].
    destruct Hw as (Hh & Hok & Hc' & Hl). split_and!; try done. apply Forall_cons. split; [|done].
    unfold auth_restore in HE. rewrite er_anchor_eq in HE by done. unbind.
    destruct (eqb _ current) eqn:Ea; [|done]. injection HE as <-. bools. simpl.
    assert (record = head) as ->; [|by left]. apply er_anchor_inj; [done|by inversion Hok|by eapply Hres|congruence].
  - eapply follows_inv; [done..|]. apply run_aop_follows; [done|by eapply live_ok|done].
  - unfold aworld_inv in *. cbn [aw_store aw_live]. destruct (rg_log (aw_store w)) as [|head older].
    { by destruct Hw as [? ->]. }
    destruct Hw as (Hh & Hok & Hc & Hl). split_and!; try done. by apply Forall_delete.
Qed.

Lemma areachable_inv w : areachable w → aworld_inv w.
Proof. induction 1 as [|w w' _ IH Hs]; [done|by eapply astep_inv]. Qed.

Lemma history_drop device genesis log r : history device genesis log → ∀ i, log !! i = Some r →
  history device genesis (r :: drop (S i) log) ∧ (i < length log)%nat.
Proof.
  intros Hh i Hi. split; [|by eapply lookup_lt_Some]. revert i Hi.
  induction Hh as [|r0 rs c Hh IH Hs]; intros [|i] Hi; simplify_eq/=.
  - apply history_start.
  - by apply history_next.
  - by apply IH.
Qed.

(** C12: the authority refines its claim.  However many replicas work on the
    store, fail in the middle of a commit, are lost and are restored from files,
    what is durably committed is a history of the abstract claim for one device:
    registration first, then approvals by the same owner, revocations, and one
    enrollment of an approved policy; each record holds exactly the snapshot its
    claim determines, revisions count the records, a newer record keeps the owner
    of every older one, and its policy generation is higher. *)
Theorem authority_refines_claim (w : aworld) :
  areachable w → rg_log (aw_store w) ≠ [] →
  ∃ device genesis, history device genesis (rg_log (aw_store w)) ∧
    (∀ i r, rg_log (aw_store w) !! i = Some r →
      er_revision (er_parts r) = Z.of_nat (length (rg_log (aw_store w)) - i)) ∧
    (∀ i j r r', (i < j)%nat → rg_log (aw_store w) !! i = Some r → rg_log (aw_store w) !! j = Some r' →
      supersedes r r').
Proof.
  intros Hw%areachable_inv Hne. unfold aworld_inv in Hw.
  destruct (rg_log (aw_store w)) as [|head older]; [done|]. destruct Hw as ((device & genesis & Hh) & _).
  exists device, genesis. split; [done|]. clear Hne. revert Hh. generalize (head :: older) as log. intros log Hh. split.
  - intros i r Hi. destruct (history_drop _ _ _ _ Hh _ Hi) as [Hd Hl].
    apply history_revision in Hd as [-> _]. simpl. rewrite length_drop. lia.
  - intros i j r r' Hij Hi Hj. destruct (history_drop _ _ _ _ Hh _ Hi) as [Hd _].
    eapply history_supersedes; [exact Hd|]. apply list_elem_of_lookup. exists (j - S i)%nat.
    rewrite lookup_drop. by replace (S i + (j - S i))%nat with j by lia.
Qed.

(** C11: a replica that answers a device answers with the policy in force.  Whatever
    happened before, if [resolve] on any live replica returns a snapshot, then the
    record committed last is a record of the device that asked and holds exactly
    this snapshot, enabled exactly when that record is approved, and the device's
    own check of the answer against its query accepts it. *)
Theorem resolve_answers_current {E} (S : EnrollmentStore register E) (w : aworld) i r b request a' s :
  StoreLaws S → areachable w → aw_live w !! i = Some (r, b) →
  auth_resolve request (replica w r b) = (a', Ok s) →
  ∃ head older, rg_log (au_store a') = head :: older ∧ er_snapshot (er_parts head) = Some s ∧
    er_principal head = ar_principal request ∧
    tr_enabled (ps_record s) = er_approved (er_parts head) ∧
    validate_snapshot s (ar_query request) (ar_principal request) = Ok tt.
Proof.
  intros HS Hw Hi HE. apply areachable_inv in Hw. pose proof (live_ok _ _ _ _ Hw Hi) as Hr.
  apply (resolve_effect S) in HE as [Hf Hs]; [|done]. destruct (Hs s eq_refl) as (Es & Hok & Ep & Hc & Hv).
  pose proof (follows_inv w i r b a' Hw Hi Hf) as Hw'. unfold aworld_inv in Hw'. cbn [aw_store aw_live] in Hw'.
  destruct (rg_log (au_store a')) as [|head older]; [by destruct Hw'; congruence|].
  destruct Hw' as ((device & genesis & Hh) & _ & Hc' & Hl). rewrite Forall_forall in Hl.
  assert (au_record a' ∈ head :: older) as Hin.
  { apply (Hl (au_record a', au_blocked a')), list_elem_of_lookup. exists i.
    apply list_lookup_insert_eq. by eapply lookup_lt_Some. }
  apply (log_head _ _ _ device genesis) in Hin; [|done|congruence]. rewrite Hin in *.
  exists head, older. split_and!; try done.
  by destruct (er_from_parts_snapshot _ _ _ (proj1 Hok) (proj2 Hok) Es) as (? & _ & _ & _ & _ & ? & _).
Qed.

Lemma log_snapshot device genesis r rs s : history device genesis (r :: rs) →
  er_snapshot (er_parts r) = Some s →
  cl_generation (claim_of r) = Some (tr_generation (ps_record s)) ∧ tr_store (ps_record s) = ta_store genesis.
Proof.
  intros [_ Hr]%history_wf Es. split; [unfold claim_of; by rewrite Es|].
  apply (f_equal (fun r => er_snapshot (er_parts r))) in Hr. rewrite Es in Hr. revert Hr.
  destruct (claim_of r) as [[p|] ap [g|]]; try done. by intros [= ->].
Qed.

Lemma refresh_newer {E} p s expected commitment : er_snapshot p = Some s → snapshot_ok s →
  ta_store expected = tr_store (ps_record s) → ta_generation expected < tr_generation (ps_record s) →
  (ta_generation expected = 0 → commitment = zero32) →
  resolve_refresh (E:=E) p expected commitment = Ok s.
Proof.
  intros Es Hs Est Hlt Hz. unfold resolve_refresh. rewrite Es. unbind. cbn [ok_or].
  rewrite trust_anchor_of by apply Hs. cbn [anchor_of ta_store ta_generation]. rewrite Est.
  unfold eqb at 1. rewrite bool_decide_eq_true_2 by done. rewrite (proj2 (Z.ltb_ge _ _)) by lia. cbn [negb orb].
  assert ((ta_generation expected =? 0) && negb (eqb commitment zero32) = false) as ->.
  { destruct (ta_generation expected =? 0) eqn:E0; [|done]. bools. rewrite (Hz E0). unfold eqb.
    by rewrite bool_decide_eq_true_2. }
  by rewrite (proj2 (Z.eqb_neq _ _)) by lia.
Qed.

Lemma refresh_same {E} p s : er_snapshot p = Some s → snapshot_ok s →
  resolve_refresh (E:=E) p (anchor_of (ps_record s)) (commitment_of s) = Ok s.
Proof.
  intros Es Hs. pose proof Hs as ((_ & _ & Hpos & _) & _). unfold resolve_refresh. rewrite Es. unbind. cbn [ok_or].
  rewrite trust_anchor_of by apply Hs. cbn [anchor_of ta_store ta_generation].
  unfold eqb at 1. rewrite bool_decide_eq_true_2, Z.ltb_irrefl, Z.eqb_refl by done.
  rewrite (proj2 (Z.eqb_neq (tr_generation (ps_record s)) 0)) by lia. cbn [negb orb andb].
  unfold eqb at 1. rewrite bool_decide_eq_true_2 by done. cbn [negb]. rewrite snapshot_commitment_of by done.
  unfold eqb. by rewrite bool_decide_eq_true_2.
Qed.

Lemma current_refreshes {E} head older s0 r0 device genesis :
  history device genesis (head :: older) → Forall er_ok (head :: older) → r0 ∈ head :: older →
  er_snapshot (er_parts r0) = Some s0 →
  ∃ s, er_snapshot (er_parts head) = Some s ∧
    resolve_refresh (E:=E) (er_parts head) (anchor_of (ps_record s0)) (commitment_of s0) = Ok s.
Proof.
  intros Hh Hok Hin Es0. pose proof Hok as [[Hokh _] _]%Forall_cons. rewrite Forall_forall in Hok.
  pose proof (proj1 (Hok _ Hin)) as (_ & _ & _ & _ & Hs0). rewrite Es0 in Hs0. simpl in Hs0.
  pose proof Hs0 as ((_ & _ & Hpos & _) & _).
  assert (∃ s, er_snapshot (er_parts head) = Some s ∧ tr_store (ps_record s) = tr_store (ps_record s0) ∧
    (s = s0 ∨ tr_generation (ps_record s0) < tr_generation (ps_record s))) as (s & Es & Est & Hg).
  { destruct (list_elem_of_lookup_1 _ _ Hin) as [i Hi]. destruct (history_drop _ _ _ _ Hh _ Hi) as [Hd _].
    destruct (log_snapshot _ _ _ _ _ Hd Es0) as [Hg0 Hst0].
    apply elem_of_cons in Hin as [->|Hin]; [exists s0; split_and!; try done; by left|].
    destruct (proj2 (history_supersedes _ _ _ _ _ Hh Hin) _ Hg0) as (g & Hg & Hlt).
    destruct (er_snapshot (er_parts head)) as [s|] eqn:Es; [|unfold claim_of in Hg; by rewrite Es in Hg].
    destruct (log_snapshot _ _ _ _ _ Hh Es) as [Hg' Hst]. rewrite Hg' in Hg. injection Hg as <-.
    exists s. split; [done|]. split; [congruence|by right]. }
  exists s. split; [done|]. destruct Hokh as (_ & _ & _ & _ & Hs). rewrite Es in Hs. simpl in Hs.
  destruct Hg as [->|Hg]; [by apply refresh_same|]. apply refresh_newer; try done. simpl. lia.
Qed.

(** A device is always brought up to date.  A replica that is not blocked and
    holds the record committed last, on a store that can be read, answers the
    refresh built from any snapshot ever committed, and the one that recovers a
    first enrollment whose answer was lost, with the snapshot in force. *)
Theorem refresh_brings_up_to_date {E} (S : EnrollmentStore register E) (w : aworld) i head older current r0 s0 q :
  StoreLaws S → areachable w → rg_log (aw_store w) = head :: older → aw_live w !! i = Some (head, false) →
  store_current (aw_store w) = (aw_store w, Ok current) →
  r0 ∈ head :: older → er_snapshot (er_parts r0) = Some s0 →
  query_refresh (E:=unit) s0 = Ok q ∨
    recover_initial_commit (er_genesis (er_parts head)) = Ok q →
  ∃ a' s, auth_resolve (mk_apr (er_principal head) q) (replica w head false) = (a', Ok s) ∧
    er_snapshot (er_parts head) = Some s ∧ au_store a' = aw_store w.
Proof.
  intros HS Hw%areachable_inv El Hi Hcur Hin Es0 Hq. unfold aworld_inv in Hw. rewrite El in Hw.
  destruct Hw as ((device & genesis & Hh) & Hok & Hc & Hl). pose proof Hok as [[Hhok Hhf] _]%Forall_cons.
  pose proof (conj Hhok Hhf : er_ok head) as Hhe.
  pose proof (current_reads (aw_store w)) as Hr. rewrite Hcur in Hr. destruct Hr as [_ Hr].
  assert (current = er_anchor_of head) as -> by congruence.
  destruct (current_refreshes (E:=E) head older s0 r0 device genesis Hh Hok Hin Es0) as (s & Es & Href).
  pose proof Hhok as (_ & Hg & _ & _ & Hs). rewrite Es in Hs. simpl in Hs.
  destruct (log_snapshot _ _ _ _ _ Hh Es) as [_ Hst].
  assert (er_genesis (er_parts head) = genesis) as Eg by by rewrite (proj2 (history_wf _ _ _ _ Hh)).
  assert (∃ expected c, q = Refresh expected c ∧
    resolve_refresh (E:=E) (er_parts head) expected c = Ok s) as (expected & c & -> & Hres).
  { destruct Hq as [Hq|Hq].
    - unfold query_refresh in Hq. unbind. rewrite Forall_forall in Hok.
      pose proof (proj1 (Hok _ Hin)) as (_ & _ & _ & _ & Hs0). rewrite Es0 in Hs0. simpl in Hs0.
      rewrite trust_anchor_of, snapshot_commitment_of in Hq by (done || apply Hs0). injection Hq as <-. eauto.
    - unfold recover_initial_commit in Hq. destruct (negb _) eqn:E0; [done|]. injection Hq as <-. bools.
      do 2 eexists. split; [done|]. apply refresh_newer; try done; [congruence|].
      destruct Hs as ((_ & _ & ? & _) & _). lia. }
  exists (replica w head false), s. unfold auth_resolve, auth_check, with_store, set_blocked. unbind.
  cbn [replica au_record au_blocked au_store ar_principal ar_query]. rewrite !er_anchor_eq by done.
  unfold eqb. rewrite !bool_decide_eq_true_2 by done. cbn [negb state_err map_err au_record au_store au_blocked].
  cbn [replica au_record au_store]. rewrite Hcur. cbn [map_err]. rewrite bool_decide_eq_true_2 by done. cbn [negb]. by rewrite Hres.
Qed.

End Laws.

(** ** Witnesses

    A device is registered, approved and enrolled, and asks again. *)
#[local] Existing Instance target64.
#[local] Existing Instances Sample.curve Sample.curve_laws Sample.digest Sample.digest_laws.

#[local] Instance sample_store : EnrollmentStore register unit := {
  store_current d := (d, ok_or (rg_current d) tt);
  store_commit expected r a d :=
    if eqb expected (rg_current d) then (rg_committed d r a, Ok tt) else (d, Err tt)
}.

#[local] Instance sample_store_laws : StoreLaws sample_store.
Proof.
  split.
  - intros e r a d. simpl. destruct (eqb e (rg_current d)) eqn:E1; bools; [done|by left].
  - intros d. simpl. by destruct (rg_current d).
Qed.

Definition sample_device : PinnedPeer := sample_peer Sample.KA 1.
Definition sample_genesis_anchor : TrustAnchor := mk_anchor (replicate 32 5) 0 zero32.
Definition sample_access : EnrollmentPolicy :=
  mk_enroll (sample_peer Sample.KB 2) (replicate 32 6) (replicate 32 7).
Definition sample_query : AuthenticatedPolicyRequest :=
  mk_apr (pp_principal sample_device) (Enroll sample_genesis_anchor sample_access).

Definition sample_registered : register * res (ApprovalCommitError unit) (EnrollmentAuthority register) :=
  auth_register sample_device sample_genesis_anchor (mk_register None []).
Definition sample_first : EnrollmentRecord :=
  record_of sample_device sample_genesis_anchor 1 (mk_claim None false None).
Definition aworld0 : aworld := mk_aworld sample_registered.1 [(sample_first, false)].
Definition after (op : aop) (w : aworld) : aworld :=
  let a := run_aop sample_store op (replica w (default (sample_first, false) (aw_live w !! 0%nat)).1 false) in
  mk_aworld (au_store a) (<[0%nat := (au_record a, au_blocked a)]> (aw_live w)).
Definition aworld1 : aworld := after (ApproveOp (er_anchor_of sample_first) sample_access) aworld0.
Definition aworld2 : aworld := after (ResolveOp sample_query) aworld1.

Lemma sample_access_ok : policy_ok sample_access.
Proof.
  split; [apply (sample_peer_ok Sample.KB 2); by split|].
  split; [by apply sample_arr32|]. split; [done|]. split; [by apply sample_arr32|done].
Qed.

Lemma aworld0_reachable : areachable aworld0.
Proof.
  eapply areach_step; [apply areach_empty|].
  replace aworld0 with (mk_aworld sample_registered.1
    (from_option (fun a => [(au_record a, au_blocked a)]) [] (res_ok sample_registered.2) ++ []))
    by (vm_compute; reflexivity).
  apply (astep_register unit sample_store _ _ sample_device sample_genesis_anchor); [exact sample_store_laws| | |].
  - apply (sample_peer_ok Sample.KA 1). by split.
  - split; [by apply sample_arr32|]. split; [done|]. split; [done|]. split; [by apply sample_arr32|done].
  - fold sample_registered. by destruct sample_registered.
Qed.

Lemma after_reachable op w r : areachable w → aw_live w !! 0%nat = Some (r, false) → aop_ok op →
  areachable (after op w).
Proof.
  intros Hw Hl Hop. eapply areach_step; [exact Hw|]. unfold after. rewrite Hl.
  apply (astep_op unit sample_store w 0 r false op); [exact sample_store_laws|done..].
Qed.

Lemma aworld1_reachable : areachable aworld1.
Proof. eapply after_reachable; [apply aworld0_reachable|reflexivity|apply sample_access_ok]. Qed.

Definition head_of (w : aworld) : EnrollmentRecord := default sample_first (head (rg_log (aw_store w))).

Lemma aworld2_reachable : areachable aworld2.
Proof.
  apply (after_reachable _ _ (head_of aworld1)); [apply aworld1_reachable|vm_compute; reflexivity|done].
Qed.

Lemma authority_refines_claim_witness :
  length (rg_log (aw_store aworld2)) = 3%nat ∧
  ∃ device genesis, history device genesis (rg_log (aw_store aworld2)).
Proof.
  assert (length (rg_log (aw_store aworld2)) = 3%nat) as Hl by (vm_compute; reflexivity). split; [exact Hl|].
  destruct (authority_refines_claim aworld2 aworld2_reachable) as (device & genesis & Hh & _).
  - intros HE. rewrite HE in Hl. discriminate Hl.
  - exists device, genesis. exact Hh.
Defined.

Definition sample_answer : EnrollmentAuthority register * res (ApprovalCommitError unit) PolicySnapshot :=
  auth_resolve sample_query (replica aworld1 (head_of aworld1) false).
Definition sample_snapshot : PolicySnapshot :=
  unwrap sample_answer.2 (mk_snapshot (mk_trust [] 0 [] sample_device false) [] []).

Lemma resolve_answers_current_witness :
  tr_generation (ps_record sample_snapshot) = 1 ∧
  validate_snapshot sample_snapshot (ar_query sample_query) (pp_principal sample_device) = Ok tt.
Proof.
  split; [vm_compute; reflexivity|].
  destruct (resolve_answers_current sample_store aworld1 0 (head_of aworld1) false sample_query
    sample_answer.1 sample_snapshot sample_store_laws aworld1_reachable) as (h & o & _ & _ & _ & _ & Hv);
    [vm_compute; reflexivity|vm_compute; reflexivity|exact Hv].
Defined.

Lemma refresh_brings_up_to_date_witness :
  ∃ a' s, auth_resolve (mk_apr (er_principal (head_of aworld2)) (Refresh sample_genesis_anchor zero32))
      (replica aworld2 (head_of aworld2) false) = (a', Ok s) ∧ ps_owner s = replicate 32 6.
Proof.
  destruct (refresh_brings_up_to_date sample_store aworld2 0 (head_of aworld2) (tail (rg_log (aw_store aworld2)))
    (er_anchor_of (head_of aworld2)) (head_of aworld2) sample_snapshot (Refresh sample_genesis_anchor zero32)
    sample_store_laws aworld2_reachable) as (a' & s & HE & Es & _).
  - vm_compute. reflexivity.
  - vm_compute. reflexivity.
  - vm_compute. reflexivity.
  - left.
  - vm_compute. reflexivity.
  - right. vm_compute. reflexivity.
  - exists a', s. split; [exact HE|]. vm_compute in Es. injection Es as <-. vm_compute. reflexivity.
Defined.
