(* ===== verification/Enrollment.v ===== *)
(** * The online policy exchange

    [provisioning/enrollment.rs]: one protected request of a device for its
    current policy, the authority's protected answer, and its acceptance.  The
    OSCORE context of a session is derived from keying material exported by the
    handshake; here the material is an argument.  The policy provider is the class
    [OnlinePolicyAuthority], with the enrollment authority as instance.  Time and
    entropy come from the caller. *)
From Stdlib Require Import String.
From S2P Require Import Prelude Errors MsgTypes Options Encode Decode Codec OptionValues MessageOptions Pending.
From S2P Require Import OscoreHeader OscoreCbor OscoreContext OscoreProtect AsciiText.
From S2P Require Import LakersCred Credential Trust Policy Authority.

Open Scope list_scope.
Open Scope Z_scope.

Definition DATAGRAM_LEN : nat := 384.
Definition POLICY_PATH : list Z := lit "coaptic-policy".
Definition OCTET_STREAM : Z := 42.
Definition MAX_EXCHANGE_LIFETIME_MS : Z := 30000.

Inductive PolicyServeError (E : Type) : Type :=
  | Exchange (e : EnrollmentError.EnrollmentError)
  | Provider (e : E).
Arguments Exchange {E} e.
Arguments Provider {E} e.

Section Exchange.
Context `{Target} `{Ccm} `{P : P256} `{B : Blake3}.

(** ** Sessions *)

(** Of a completed handshake: its context and the two principals. *)
Record Session : Type := mk_session {
  se_context : SecurityContext Token;
  se_principal : Principal;
  se_local : Principal
}.

(** [Session::derive], from the exported secret and salt. *)
Definition session_derive (hkdf : list Z → list Z → list Z → nat → option (list Z)) (secret salt : list Z)
    (local_id peer_id : list Z) (local_principal : Principal) (peer : PinnedPeer) : res Error Session :=
  context ← map_err (fun _ => Derivation)
    (derive hkdf LIVE_REQUESTS (mkDeriveParams secret salt peer_id local_id []));
  mret (mk_session context (pp_principal peer) local_principal).

Record AuthorityConnection : Type := mk_connection {
  ac_context : SecurityContext Token;
  ac_local : Principal;
  ac_peer : Principal;
  ac_endpoint : Endpoint
}.

Definition connection_take (endpoint : Endpoint) (session : Session) : AuthorityConnection :=
  mk_connection (se_context session) (se_local session) (se_principal session) endpoint.

Record BootstrapAuthority : Type := mk_bootstrap { ba_pin : PinnedPeer }.

(** [AuthorityConnection::from_session]. *)
Definition connection_from_session (identity : Identity) (authority : BootstrapAuthority)
    (endpoint : Endpoint) (session : Session) : res EnrollmentError.EnrollmentError AuthorityConnection :=
  if negb (eqb (se_local session) (pp_principal (id_peer identity))) then Err EnrollmentError.LocalIdentity
  else if negb (eqb (se_principal session) (pp_principal (ba_pin authority))) then Err EnrollmentError.Authority
  else Ok (connection_take endpoint session).

Record AuthorityResponder : Type := mk_responder { rs_channel : AuthorityConnection }.

(** [AuthorityResponder::from_session]. *)
Definition responder_from_session (identity : Identity) (endpoint : Endpoint) (session : Session) :
    res EnrollmentError.EnrollmentError AuthorityResponder :=
  if negb (eqb (se_local session) (pp_principal (id_peer identity))) then Err EnrollmentError.LocalIdentity
  else Ok (mk_responder (connection_take endpoint session)).

(** ** The request *)
Record PendingPolicy : Type := mk_pending {
  pe_channel : AuthorityConnection;
  pe_query : PolicyQuery;
  pe_nonce : list Z;
  pe_digest : list Z;
  pe_token : Token;
  pe_message_id : MessageId;
  pe_deadline_ms : Z;
  pe_last_seen_ms : Z;
  pe_clock_blocked : bool;
  pe_request : RequestRef;
  pe_datagram : list Z;
  pe_len : nat
}.

(** The Content-Format option of both messages. *)
Definition octet_stream {E} : res E Opt := e ← EncodedUint_new OCTET_STREAM; Opt_content_format e.

Definition begin_message {E} (message_id : MessageId) (token : Token) (payload : list Z) : res E (Message Token) :=
  format ← octet_stream;
  mret (Message_with_payload (Message_with_options (Message_con Code_POST message_id token)
    [Opt_uri_path POLICY_PATH; format]) payload).

(** [AuthorityConnection::begin]: entropy fills the nonce and says whether it
    could. *)
Definition policy_begin {W} (c : AuthorityConnection) (query : PolicyQuery) (message_id : MessageId)
    (now_ms deadline_ms : Z) (entropy : list Z → W → W * list Z * bool) :
    st W EnrollmentError.EnrollmentError PendingPolicy :=
  if (deadline_ms <=? now_ms) || (MAX_EXCHANGE_LIFETIME_MS <? deadline_ms - now_ms) then
    st_fail EnrollmentError.Deadline
  else if match query with Enroll expected _ => negb (ta_generation expected =? 0) | Refresh _ _ => false end then
    st_fail (EnrollmentError.Trust TrustError.Initialized)
  else if match query with
          | Refresh expected policy_commitment =>
              negb (Bool.eqb (ta_generation expected =? 0) (eqb policy_commitment zero32))
          | Enroll _ _ => false
          end then
    st_fail EnrollmentError.Binding
  else fun w =>
    let '(w, nonce, filled) := entropy zero32 w in
    (w,
     if negb filled || eqb nonce zero32 then Err EnrollmentError.Entropy
     else
       payload ← encode_request (ac_local c) query nonce;
       let digest := derive_key REQUEST_DOMAIN payload in
       prefix ← slice_idx nonce 0 8;
       token ← Token_from_checked prefix;
       message ← begin_message message_id token payload;
       let '((context, datagram), len) := protect_request message (ac_context c, replicate DATAGRAM_LEN 0) in
       len ← map_err EnrollmentError.Oscore len;
       request ← ok_or (lookup_request context token) EnrollmentError.Binding;
       mret (mk_pending (mk_connection context (ac_local c) (ac_peer c) (ac_endpoint c)) query nonce digest
         token message_id deadline_ms now_ms false request datagram len)).

(** ** The pending request *)

(** [check_deadline], which changes the cells of a shared reference. *)
Definition check_deadline (now_ms : Z) : st PendingPolicy EnrollmentError.EnrollmentError unit := fun p =>
  let set seen blocked :=
    mk_pending (pe_channel p) (pe_query p) (pe_nonce p) (pe_digest p) (pe_token p) (pe_message_id p)
      (pe_deadline_ms p) seen blocked (pe_request p) (pe_datagram p) (pe_len p) in
  if pe_clock_blocked p || (now_ms <? pe_last_seen_ms p) || (pe_deadline_ms p <=? now_ms) then
    (set (pe_last_seen_ms p) true, Err EnrollmentError.Deadline)
  else (set now_ms (pe_clock_blocked p), Ok tt).

(** [PendingPolicy::datagram]. *)
Definition pending_datagram (now_ms : Z) : st PendingPolicy EnrollmentError.EnrollmentError (Endpoint * list Z) :=
  _ ← check_deadline now_ms;
  p ← st_get;
  bytes ← st_lift (slice_idx (pe_datagram p) 0 (pe_len p));
  mret (ac_endpoint (pe_channel p), bytes).

(** The loop of [valid_options]: paths and formats seen so far. *)
Fixpoint valid_loop (request : bool) (options : list Opt) (paths formats : nat) : bool :=
  match options with
  | [] => (paths =? if request then 1 else 0)%nat && (formats =? 1)%nat
  | option :: options =>
      if (opt_number option =? ON_URI_PATH) && (request && eqb (opt_value option) POLICY_PATH) then
        valid_loop request options (S paths) formats
      else if (opt_number option =? ON_CONTENT_FORMAT) && eqb (opt_value option) [42] then
        valid_loop request options paths (S formats)
      else false
  end.

Definition valid_options {E} (message : ParsedMessage Token) (request : bool) : res E bool :=
  options ← pm_opts message;
  mret (valid_loop request options 0 0).

(** ** Acceptance *)
Record VerifiedPolicy : Type := mk_verified {
  vp_snapshot : PolicySnapshot;
  vp_accepted_ms : Z;
  vp_deadline_ms : Z
}.

Definition policy_accept (p : PendingPolicy) (identity : Identity) (endpoint : Endpoint) (now_ms : Z)
    (datagram : list Z) : res EnrollmentError.EnrollmentError VerifiedPolicy :=
  let '(p, deadline) := check_deadline now_ms p in
  _ ← deadline;
  let channel := pe_channel p in
  if negb (eqb (ac_local channel) (pp_principal (id_peer identity))) then Err EnrollmentError.LocalIdentity
  else if negb (eqb endpoint (ac_endpoint channel)) then Err EnrollmentError.Endpoint
  else
    outer ← map_err (fun _ => EnrollmentError.Message) (decode datagram);
    if negb (eqb (pm_token _ outer) (pe_token p)) || negb (pm_message_id outer =? pe_message_id p)
       || negb (eqb (pm_ty outer) Acknowledgement) then Err EnrollmentError.Message
    else
      message ← map_err EnrollmentError.Oscore
        (unprotect_response (ac_context channel) outer (pe_request p) (replicate DATAGRAM_LEN 0)).2;
      valid ← (if negb (pm_code message =? Code_CONTENT) then mret false else valid_options message false);
      if negb valid then Err EnrollmentError.Message
      else
        '(nonce, digest, snapshot) ← decode_policy_response (pm_payload _ message);
        if negb (eqb nonce (pe_nonce p)) || negb (eqb digest (pe_digest p)) then Err EnrollmentError.Binding
        else
          _ ← validate_snapshot snapshot (pe_query p) (ac_local channel);
          anchor ← trust_anchor (ps_record snapshot);
          _ ← map_err EnrollmentError.Trust (trust_restore identity (ps_record snapshot) anchor);
          mret (mk_verified snapshot now_ms (pe_deadline_ms p)).

Definition persist_and_restore {W E} (v : VerifiedPolicy) (identity : Identity)
    (persist : PolicySnapshot → W → W * res E unit) : st W (TrustCommitError E) PeerTrust :=
  anchor ← st_lift (trust_anchor (ps_record (vp_snapshot v)));
  trust ← st_lift (map_err TrustState (trust_restore identity (ps_record (vp_snapshot v)) anchor));
  _ ← st_map_err TrustPersistence (persist (vp_snapshot v));
  mret trust.

(** ** The answer *)
Class OnlinePolicyAuthority (A E : Type) : Type :=
  resolve : AuthenticatedPolicyRequest → A → A * res E PolicySnapshot.

Record ProtectedPolicyResponse : Type := mk_response {
  pr_endpoint : Endpoint;
  pr_bytes : list Z;
  pr_len : Z
}.

Definition reply_message {E} (message_id : MessageId) (token : Token) (payload : list Z) : res E (Message Token) :=
  format ← octet_stream;
  mret (Message_with_payload (Message_with_options
    (Message_with_token (Message_new Acknowledgement Code_CONTENT message_id) token) [format]) payload).

(** [serve] of the channel; the channel is consumed, the authority is not. *)
Definition policy_serve {A E} `{!OnlinePolicyAuthority A E} (c : AuthorityConnection) (endpoint : Endpoint)
    (datagram : list Z) : st A (PolicyServeError E) ProtectedPolicyResponse :=
  if negb (eqb endpoint (ac_endpoint c)) then st_fail (Exchange EnrollmentError.Endpoint)
  else
    outer ← st_lift (map_err (fun _ => Exchange EnrollmentError.Message) (decode datagram));
    let '((context, _), opened) := unprotect_request outer (ac_context c, replicate DATAGRAM_LEN 0) in
    '(message, reference) ← st_lift (map_err (fun e => Exchange (EnrollmentError.Oscore e)) opened);
    valid ← st_lift (if negb (eqb (pm_ty message) Confirmable) || negb (pm_code message =? Code_POST)
                     then mret false else valid_options message true);
    if negb valid then st_fail (Exchange EnrollmentError.Message)
    else
      '(local, query, nonce) ← st_lift (map_err Exchange (decode_request (pm_payload _ message)));
      if negb (eqb local (ac_peer c)) then st_fail (Exchange EnrollmentError.LocalIdentity)
      else
        let digest := derive_key REQUEST_DOMAIN (pm_payload _ message) in
        snapshot ← st_map_err Provider (resolve (mk_apr (ac_peer c) query));
        _ ← st_lift (map_err Exchange (validate_snapshot snapshot query (ac_peer c)));
        payload ← st_lift (encode_policy_response nonce digest snapshot);
        reply ← st_lift (reply_message (pm_message_id message) (pm_token _ message) payload);
        let '(bytes, sealed) := protect_response context reply reference (replicate DATAGRAM_LEN 0) in
        len ← st_lift (map_err (fun e => Exchange (EnrollmentError.Oscore e)) sealed);
        mret (mk_response endpoint bytes (wrap 16 (Z.of_nat len))).

(** [AuthorityResponder::serve]. *)
Definition responder_serve {A E} `{!OnlinePolicyAuthority A E} (r : AuthorityResponder) (endpoint : Endpoint)
    (datagram : list Z) : st A (PolicyServeError E) ProtectedPolicyResponse :=
  policy_serve (rs_channel r) endpoint datagram.

(** [ProtectedPolicyResponse::datagram]. *)
Definition response_datagram {E} (r : ProtectedPolicyResponse) : res E (Endpoint * list Z) :=
  bytes ← slice_idx (pr_bytes r) 0 (Z.to_nat (pr_len r));
  mret (pr_endpoint r, bytes).

End Exchange.

#[export] Instance authority_resolves `{Target, P256, Blake3} {W E} `{!EnrollmentStore W E} :
    OnlinePolicyAuthority (EnrollmentAuthority W) (ApprovalCommitError E) := auth_resolve.

(** * Theorems on the policy exchange *)

(** ** Sizes of the two messages *)
Section Sizes.
Context `{Target}.

Definition request_msg (mid : Z) (t : Token) (payload : list Z) : Message Token :=
  mkMessage _ Confirmable Code_POST mid t [mkOpt ON_URI_PATH POLICY_PATH; mkOpt ON_CONTENT_FORMAT [42]] payload.
Definition reply_msg (mid : Z) (t : Token) (payload : list Z) : Message Token :=
  mkMessage _ Acknowledgement Code_CONTENT mid t [mkOpt ON_CONTENT_FORMAT [42]] payload.

Lemma begin_message_eq {E} mid t payload : begin_message (E:=E) mid t payload = Ok (request_msg mid t payload).
Proof. reflexivity. Qed.

Lemma reply_message_eq {E} mid t payload : reply_message (E:=E) mid t payload = Ok (reply_msg mid t payload).
Proof. reflexivity. Qed.

Lemma length_payload_wire p : (length (payload_wire p) ≤ S (length p))%nat.
Proof. destruct p; simpl; lia. Qed.

Lemma length_msg_wire ty code id tb os p : (length tb ≤ 8)%nat →
  (length (msg_wire ty code id tb os p) ≤ 13 + length (options_wire 0 os) + length p)%nat.
Proof.
  intros Ht. unfold msg_wire. rewrite !length_app. pose proof (length_payload_wire p).
  assert (length (header_wire ty code id tb) = 4 + length tb)%nat; [|lia].
  unfold header_wire. unfold ext_field. rewrite (proj2 (Z.ltb_lt _ _)) by lia. reflexivity.
Qed.

Lemma oscore_value_length sid : (length sid ≤ MAX_ID_LEN)%nat →
  (length (oscore_wire [0%Z] None (Some sid)) ≤ 9)%nat.
Proof. unfold MAX_ID_LEN. simpl. lia. Qed.

(** The outer message has the OSCORE option only. *)
Lemma request_outer mid t payload v :
  outer_opts (outer_code Code_POST (msg_options _ (request_msg mid t payload)))
    (msg_options _ (request_msg mid t payload)) v = [mkOpt 9 v].
Proof. reflexivity. Qed.

Lemma reply_outer mid t payload v :
  outer_opts (outer_code Code_CONTENT (msg_options _ (reply_msg mid t payload)))
    (msg_options _ (reply_msg mid t payload)) v = [mkOpt 9 v].
Proof. reflexivity. Qed.

Lemma length_oscore_option v : (length v ≤ 12)%nat → length (options_wire 0 [mkOpt 9 v]) = S (length v).
Proof.
  intros Hv. cbn [options_wire opt_number opt_value]. rewrite app_nil_r. unfold opt_wire, ext_field.
  rewrite (proj2 (Z.ltb_lt (Z.of_nat _) 13)) by lia. reflexivity.
Qed.

Lemma small_fits (l : list Z) : (length l ≤ 384)%nat → slice_fits l.
Proof. intros. apply inner_small. change INNER with 1280%nat. lia. Qed.

Context (mid : Z) (t : Token) (tb payload : list Z) (Ht : Token_wf t) (Hm : in_u 16 mid)
  (Htb : ∀ E, Token_as_bytes (E:=E) t = Ok tb) (Hl : length tb = 8%nat) (Hp : (length payload ≤ 272)%nat).

Lemma length_request_plain : (length (plain_wire (request_msg mid t payload)) ≤ 20 + length payload)%nat.
Proof.
  unfold plain_wire. pose proof (length_payload_wire payload).
  set (os := options_wire _ _). assert (length os = 18%nat) as Ho by reflexivity. clearbody os.
  cbn [length]. rewrite length_app. cbn [request_msg msg_payload]. lia.
Qed.

Lemma length_reply_plain : (length (plain_wire (reply_msg mid t payload)) ≤ 4 + length payload)%nat.
Proof.
  unfold plain_wire. pose proof (length_payload_wire payload).
  set (os := options_wire _ _). assert (length os = 2%nat) as Ho by reflexivity. clearbody os.
  cbn [length]. rewrite length_app. cbn [reply_msg msg_payload]. lia.
Qed.

Lemma query_protectable sid : (length sid ≤ MAX_ID_LEN)%nat → bytes_ok sid →
  protectable (request_msg mid t payload) tb [0] None (Some sid).
Proof.
  intros Hsl Hsb. pose proof length_request_plain. unfold protectable.
  cbn [request_msg msg_token msg_id msg_payload].
  split; [exact Htb|]. split; [lia|]. split; [done|]. split; [vm_compute; repeat split; try done; repeat constructor; done|].
  split; [apply small_fits; lia|]. split.
  { split; [by apply Nat.leb_le|]. split; [by repeat constructor|]. split; [done|].
    split; [by apply Nat.ltb_ge|]. split; [by constructor|done]. }
  split; [by apply Nat.leb_le|]. change INNER with 1280%nat. change TAG_LEN with 8%nat. fold (request_msg mid t payload). lia.
Qed.

Lemma answer_protectable : protectable (reply_msg mid t payload) tb [] None None.
Proof.
  pose proof length_reply_plain. unfold protectable. cbn [reply_msg msg_token msg_id msg_payload].
  split; [exact Htb|]. split; [lia|]. split; [done|]. split; [vm_compute; repeat split; try done; repeat constructor; done|].
  split; [apply small_fits; lia|]. split.
  { repeat split; try done; try (by apply Nat.leb_le); constructor. }
  split; [by apply Nat.leb_le|]. change INNER with 1280%nat. change TAG_LEN with 8%nat. fold (reply_msg mid t payload). lia.
Qed.

Lemma request_wire_small sid ct : (length sid ≤ MAX_ID_LEN)%nat →
  length ct = (length (plain_wire (request_msg mid t payload)) + TAG_LEN)%nat →
  (length (protected_wire (request_msg mid t payload) tb [0%Z] None (Some sid) ct) ≤ 384)%nat.
Proof.
  intros Hs Hc. pose proof length_request_plain. change TAG_LEN with 8%nat in Hc. unfold protected_wire.
  cbn [request_msg msg_code msg_ty msg_id]. fold (request_msg mid t payload). rewrite request_outer.
  pose proof (oscore_value_length sid Hs).
  etransitivity; [apply length_msg_wire; lia|]. rewrite length_oscore_option by lia. lia.
Qed.

Lemma reply_wire_small ct : length ct = (length (plain_wire (reply_msg mid t payload)) + TAG_LEN)%nat →
  (length (protected_wire (reply_msg mid t payload) tb [] None None ct) ≤ 384)%nat.
Proof.
  intros Hc. pose proof length_reply_plain. change TAG_LEN with 8%nat in Hc. unfold protected_wire.
  cbn [reply_msg msg_code msg_ty msg_id]. fold (reply_msg mid t payload). rewrite reply_outer.
  etransitivity; [apply length_msg_wire; lia|]. rewrite length_oscore_option by (simpl; lia). simpl length. lia.
Qed.

Lemma app_wire_small (m : Message Token) :
  m = request_msg mid t payload ∨ m = reply_msg mid t payload → (length (app_wire m tb) ≤ 384)%nat.
Proof.
  intros [-> | ->]; unfold app_wire; (etransitivity; [apply length_msg_wire; lia|]);
    set (os := options_wire _ _).
  - assert (length os = 18%nat) as -> by reflexivity. cbn [request_msg msg_payload]. lia.
  - assert (length os = 2%nat) as -> by reflexivity. cbn [reply_msg msg_payload]. lia.
Qed.

End Sizes.

(** The compact decoder on a protected datagram. *)
Lemma decode_protected_compact `{Target} (m : Message Token) tb bs ctx kid ct :
  Token_wf (msg_token _ m) → (length tb ≤ 8)%nat →
  protectable m tb bs ctx kid → slice_fits (protected_wire m tb bs ctx kid ct) →
  decode (protected_wire m tb bs ctx kid ct) = Ok (protected_pm m tb bs ctx kid ct).
Proof.
  intros Ht Hl (Htb & Htl & Hid & Hos & _ & Hh & Hc & _) Hfit. destruct (oscore_wire_ok _ _ _ Hh) as [Hwl Hwb].
  unfold decode, protected_wire. unbind. rewrite decode_parts_wire; [|done|done| |done].
  2:{ split_and!; [done| |by intros E%outer_code_nonzero].
      apply outer_opts_wf; [by apply opts_wf_0 in Hos as [_ Ho]|done|lia]. }
  unfold wire_parts. cbn [pt_token].
  destruct (Token_from_checked_ok (E:=ParseError) tb Hl) as (t' & Hf & Htw & Htb'). rewrite Hf.
  assert (t' = msg_token _ m) as ->; [|done].
  apply (ot_eq_bytes (T:=Token)); [done..|]. rewrite Htb. apply Htb'.
Qed.

(** ** Sessions derived by both ends *)
Section Sessions.
Context `{Target} (hkdf : list Z → list Z → list Z → nat → option (list Z)).
Context (hkdf_length : ∀ salt secret info n out, hkdf salt secret info n = Some out → length out = n).

(** The two contexts of a session before its first message. *)
Definition fresh_pair (c s : SecurityContext Token) (cid sid : list Z) : Prop :=
  paired c s cid [] ∧ paired s c sid [] ∧ sc_sender_seq c = 0 ∧ 0 < sc_sender_reserved_end c ∧
  replay_fresh s 0 = true ∧ sc_live c = replicate LIVE_REQUESTS None.

Lemma hkdf_expand_length secret salt id ctx label n out :
  hkdf_expand hkdf secret salt id ctx label n = Ok out → length out = n.
Proof.
  unfold hkdf_expand. unbind. destruct (ok_or _ _) as [l| | |]; try done.
  destruct (encode_info _ _ _ _ _) as [info [k| | |]]; try done.
  destruct (slice_idx _ _ _) as [i| | |]; try done. destruct (hkdf _ _ _ _) as [o|] eqn:Eh; [|done].
  intros [= <-]. by eapply hkdf_length.
Qed.

(** What a derived context holds. *)
Lemma derive_inv secret salt a b (c : SecurityContext Token) :
  derive hkdf LIVE_REQUESTS (mkDeriveParams secret salt a b []) = Ok c →
  (length a ≤ MAX_ID_LEN)%nat ∧ (length b ≤ MAX_ID_LEN)%nat ∧
  (∀ E, Id_as_bytes (E:=E) (sc_sender_id c) = Ok a) ∧ (∀ E, Id_as_bytes (E:=E) (sc_recipient_id c) = Ok b) ∧
  hkdf_expand hkdf secret salt a None LABEL_KEY KEY_LEN = Ok (sc_sender_key c) ∧
  hkdf_expand hkdf secret salt b None LABEL_KEY KEY_LEN = Ok (sc_recipient_key c) ∧
  hkdf_expand hkdf secret salt [] None LABEL_IV NONCE_LEN = Ok (sc_common_iv c) ∧
  (∀ E, id_context (E:=E) c = Ok []) ∧ sc_id_context_len c = 0 ∧ sc_sender_seq c = 0 ∧
  sc_sender_reserved_end c = U64_MAX ∧ replay_fresh c 0 = true ∧ sc_live c = replicate LIVE_REQUESTS None.
Proof.
  unfold derive. cbn [dp_master_secret dp_master_salt dp_sender_id dp_recipient_id dp_id_context].
  destruct (_ || _); [done|]. destruct (64 <? _)%nat; [done|]. simpl (_ <? _)%nat. cbn iota. unbind.
  assert (∀ i x, Id_new i = Ok x → (length i ≤ MAX_ID_LEN)%nat) as Hlen.
  { intros i x. unfold Id_new. destruct (MAX_ID_LEN <? length i)%nat eqn:El; [done|]. intros _. by apply Nat.ltb_ge. }
  destruct (Id_new a) as [ia| | |] eqn:Ea; try done. destruct (Id_new b) as [ib| | |] eqn:Eb; try done.
  destruct (Id_new_ok a (Hlen _ _ Ea)) as (ia' & Ea' & Ha). rewrite Ea in Ea'. injection Ea' as <-.
  destruct (Id_new_ok b (Hlen _ _ Eb)) as (ib' & Eb' & Hb). rewrite Eb in Eb'. injection Eb' as <-.
  rewrite Ha, Hb. cbn beta iota. destruct (eqb a b); [done|]. cbn [length Nat.eqb].
  destruct (hkdf_expand hkdf secret salt a None LABEL_KEY KEY_LEN) as [ka| | |]; try done.
  destruct (hkdf_expand hkdf secret salt b None LABEL_KEY KEY_LEN) as [kb| | |]; try done.
  destruct (hkdf_expand hkdf secret salt [] None LABEL_IV NONCE_LEN) as [iv| | |]; try done.
  rewrite copy_into_ok by (rewrite ?length_replicate; simpl; lia). intros [= <-].
  split_and!; try done; by eapply Hlen.
Qed.

Lemma derived_paired secret salt a b (c s : SecurityContext Token) : bytes_ok a → bytes_ok b →
  derive hkdf LIVE_REQUESTS (mkDeriveParams secret salt a b []) = Ok c →
  derive hkdf LIVE_REQUESTS (mkDeriveParams secret salt b a []) = Ok s →
  fresh_pair c s a b.
Proof.
  intros Ba Bb (La & Lb & C1 & C2 & C3 & C4 & C5 & C6 & C7 & C8 & C9 & _ & C11)%derive_inv
    (_ & _ & S1 & S2 & S3 & S4 & S5 & S6 & S7 & _ & _ & S10 & _)%derive_inv.
  pose proof (hkdf_expand_length _ _ _ _ _ _ _ C3) as L3. pose proof (hkdf_expand_length _ _ _ _ _ _ _ C5) as L5.
  rewrite S4 in C3. injection C3 as E3. rewrite S3 in C4. injection C4 as E4. rewrite S5 in C5. injection C5 as E5.
  pose proof (hkdf_expand_length _ _ _ _ _ _ _ S3) as L4.
  unfold fresh_pair, paired. rewrite E3, E4, E5, C7, S7, C9. split_and!; try done; try congruence; simpl; lia || by constructor.
Qed.
End Sessions.

(** ** The request on its way *)
Section Flow.
Context `{Target, CcmLaws} `{P : P256} `{HP : !P256Laws P} `{B : Blake3} `{HB : !Blake3Laws B}.

(** The context a protected request leaves behind, when the request neither
    observes nor downloads. *)
Lemma protect_request_context (m : Message Token) c out c' out' n :
  existsb is_observe_opt (msg_options _ m) = false → existsb is_block2_opt (msg_options _ m) = false →
  protect_request m (c, out) = ((c', out'), Ok n) →
  ∃ c1 piv, take_sender_piv c = (c1, Ok piv) ∧
    remember_live (msg_token _ m) (request_ref c1 piv) false c1 = (c', Ok tt).
Proof.
  intros Ho Hb. unfold protect_request. rewrite Ho, Hb. cbn [negb andb].
  destruct (Code_is_request (msg_code Token m)); [|done]. cbn [negb]. unbind. unfold on_fst at 1.
  destruct (take_sender_piv c) as [c1 [piv| | |]]; try done. cbn beta iota.
  intros HE. exists c1, piv. split; [done|]. revert HE.
  repeat (match goal with
    | |- context [match ?r with Ok _ => _ | Err _ => _ | Panic => _ | Diverge => _ end] =>
        match type of r with res _ _ => destruct r; try done; cbn beta iota end
    end).
  unfold on_snd. destruct (seal_message _ _ _ _ _ _ _ out) as [o [k| | |]]; try done. cbn beta iota. unfold on_fst.
  destruct (remember_live _ _ _ c1) as [c2 [[]| | |]]; try done. by intros [= <- _ _].
Qed.

(** Such a request changes no key. *)
Lemma protect_request_key (m : Message Token) c out c' out' n :
  existsb is_observe_opt (msg_options _ m) = false → existsb is_block2_opt (msg_options _ m) = false →
  protect_request m (c, out) = ((c', out'), Ok n) → sc_recipient_key c' = sc_recipient_key c.
Proof.
  intros Ho Hb HE. apply protect_request_context in HE as (c1 & piv & Ht & Hrem); [|done..].
  unfold take_sender_piv in Ht. unbind. unfold st_get, st_put, st_lift in Ht.
  destruct (SEQ_END <=? _); [done|]. destruct (_ <=? _); [done|]. destruct (PartialIv_from_seq _); try done.
  destruct (checked_add _ _ _); [|done]. injection Ht as <- _.
  unfold remember_live in Hrem. unbind. unfold st_get, st_put in Hrem.
  destruct (position _ _); [by injection Hrem as <-|]. destruct (position _ _); [by injection Hrem as <-|done].
Qed.

Lemma from_seq_zero : PartialIv_from_seq 0 = Ok (piv_of [0]).
Proof. reflexivity. Qed.

(** After the first request of a fresh context: its binding, and the same keys. *)
Lemma first_request (m : Message Token) c out c' out' n cid :
  existsb is_observe_opt (msg_options _ m) = false → existsb is_block2_opt (msg_options _ m) = false →
  sc_sender_seq c = 0 → 0 < sc_sender_reserved_end c → sc_live c = replicate LIVE_REQUESTS None →
  (∀ E, Id_as_bytes (E:=E) (sc_sender_id c) = Ok cid) →
  protect_request m (c, out) = ((c', out'), Ok n) →
  ∃ r, lookup_request c' (msg_token _ m) = Some r ∧ (∀ E, RequestRef_kid (E:=E) r = Ok cid) ∧
    rr_piv r = piv_of [0] ∧ sc_recipient_key c' = sc_recipient_key c ∧ sc_common_iv c' = sc_common_iv c.
Proof.
  intros Ho Hb Hs Hr Hl Hid HE. apply protect_request_context in HE as (c1 & piv & Ht & Hrem); [|done..].
  rewrite (take_sender_piv_fwd c (piv_of [0])) in Ht by (rewrite ?Hs; done). injection Ht as <- <-.
  unfold remember_live in Hrem. unbind. cbn [set_sender sc_live] in Hrem. rewrite Hl in Hrem. simpl in Hrem.
  injection Hrem as <-. exists (request_ref c (piv_of [0])). split_and!; try done.
  unfold lookup_request, eqb. simpl. by rewrite bool_decide_eq_true_2.
Qed.

Lemma begin_guards query : query_ok query →
  match query with Enroll expected _ => negb (ta_generation expected =? 0) | Refresh _ _ => false end = false ∧
  match query with
  | Refresh expected c => negb (Bool.eqb (ta_generation expected =? 0) (eqb c zero32))
  | Enroll _ _ => false
  end = false.
Proof.
  intros [_ Hq]. destruct query as [expected p|expected c]; [by destruct Hq as [-> _]|]. split; [done|].
  destruct Hq as [_ Hz]. apply negb_false_iff, Bool.eqb_true_iff, eq_true_iff_eq. rewrite Z.eqb_eq, Hz.
  unfold eqb. by rewrite bool_decide_eq_true.
Qed.

Definition request_digest (local : Principal) (query : PolicyQuery) (nonce : list Z) : list Z :=
  derive_key REQUEST_DOMAIN (request_wire local query nonce).

(** The nonce of the first message of the sender [cid]. *)
Definition nonce_of (c : SecurityContext Token) (cid nc : list Z) : Prop :=
  nonce (E:=OscoreError) (sc_common_iv c) cid (piv_of [0]) = Ok nc.

(** A pending request whose datagram is the protected request. *)
Definition sent (p : PendingPolicy) (c : AuthorityConnection) (query : PolicyQuery) (mid : Z) (nonce cid tb ct nc : list Z) : Prop :=
  let m := request_msg mid (pe_token p) (request_wire (ac_local c) query nonce) in
  pe_query p = query ∧ pe_nonce p = nonce ∧ pe_digest p = request_digest (ac_local c) query nonce ∧
  pe_message_id p = mid ∧ Token_wf (pe_token p) ∧ (∀ E, Token_as_bytes (E:=E) (pe_token p) = Ok tb) ∧
  ac_local (pe_channel p) = ac_local c ∧ ac_endpoint (pe_channel p) = ac_endpoint c ∧
  sc_recipient_key (ac_context (pe_channel p)) = sc_recipient_key (ac_context c) ∧
  sc_common_iv (ac_context (pe_channel p)) = sc_common_iv (ac_context c) ∧
  (∀ E, RequestRef_kid (E:=E) (pe_request p) = Ok cid) ∧ rr_piv (pe_request p) = piv_of [0] ∧
  nonce_of (ac_context c) cid nc ∧
  sealed (sc_sender_key (ac_context c)) nc (aad_wire cid [0] []) (plain_wire m) ct ∧
  length ct = (length (plain_wire m) + TAG_LEN)%nat ∧
  slice_idx (E:=EnrollmentError.EnrollmentError) (pe_datagram p) 0 (pe_len p) =
    Ok (protected_wire m tb [0] None (Some cid) ct).

Lemma begin_sends {W} (c : AuthorityConnection) s cid sid query mid now deadline entropy (w w' : W) fresh :
  fresh_pair (ac_context c) s cid sid → length (ac_local c) = 32%nat → query_ok query → in_u 16 mid →
  now < deadline ≤ now + MAX_EXCHANGE_LIFETIME_MS → entropy zero32 w = (w', fresh, true) →
  length fresh = 32%nat → fresh ≠ zero32 →
  ∃ p tb ct nc, policy_begin c query mid now deadline entropy w = (w', Ok p) ∧
    length tb = 8%nat ∧ sent p c query mid fresh cid tb ct nc ∧
    pe_deadline_ms p = deadline ∧ pe_last_seen_ms p = now ∧ pe_clock_blocked p = false.
Proof.
  intros (Hpair & _ & Hseq & Hres & _ & Hlive) Hlocal Hq Hm Hd He Lf Nf.
  unfold policy_begin. rewrite (proj2 (Z.leb_gt _ _)), (proj2 (Z.ltb_ge _ _)) by lia. cbn [orb].
  destruct (begin_guards query Hq) as [-> ->]. cbn beta iota. rewrite He.
  cbn beta iota zeta.
  rewrite (zero32_neqb _ Nf). cbn [negb orb].
  rewrite encode_request_ok by done. unbind. rewrite slice_prefix by lia.
  destruct (Token_from_checked_ok (E:=EnrollmentError.EnrollmentError) (take 8 fresh)) as (t & Ht & Htw & Htb).
  { rewrite length_take. lia. }
  rewrite Ht, begin_message_eq. assert (length (take 8 fresh) = 8%nat) as Ltb by (rewrite length_take; lia).
  set (payload := request_wire (ac_local c) query fresh).
  assert (length payload = 271%nat) as Lp by by apply length_request_wire.
  pose proof Hpair as (_ & _ & _ & _ & Hid & _ & Hsl & Hsb & _).
  pose proof (query_protectable mid t (take 8 fresh) payload Hm Htb Ltb ltac:(lia) cid Hsl Hsb) as Hprot.
  destruct (protect_request_ok (ac_context c) s (request_msg mid t payload) cid [] (take 8 fresh) [0]
    (replicate DATAGRAM_LEN 0) 0) as (c' & nc & ct & Hnc & Hseal & Hctl & Hpr); try done.
  { by rewrite Hseq. } { by rewrite Hseq. } { by rewrite Hseq. } { by rewrite Hlive. }
  { by apply small_fits. }
  { rewrite length_replicate. apply request_wire_small; try done; [lia|by rewrite length_replicate]. }
  change (context_field []) with (@None (list Z)) in *.
  rewrite Hpr. cbn [map_err]. 
  destruct (first_request (request_msg mid t payload) _ _ _ _ _ cid eq_refl eq_refl Hseq Hres Hlive Hid Hpr) as (r & Hr & Hk & Hpv & Hrk & Hiv).
  cbn [request_msg msg_token] in Hr. rewrite Hr. cbn [ok_or].
  do 4 eexists. split; [done|]. split; [done|]. unfold sent. cbn [pe_query pe_nonce pe_digest pe_message_id pe_token
    pe_channel pe_request pe_datagram pe_len ac_local ac_endpoint ac_context pe_deadline_ms pe_last_seen_ms pe_clock_blocked].
  split; [|done]. split_and!; try done.
  assert (length (protected_wire (request_msg mid t payload) (take 8 fresh) [0%Z] None (Some cid) ct) ≤ 384)%nat
    by (apply request_wire_small; done || lia).
  rewrite slice_prefix by (rewrite length_splice; rewrite length_replicate; done). by rewrite take_splice_0.
Qed.

Lemma options_any {E F} fuel o os : Options_collect (E:=E) fuel o = Ok os → Options_collect (E:=F) fuel o = Ok os.
Proof.
  revert o os. induction fuel as [|fuel IH]; intros o os; [done|]. rewrite !Options_collect_S. unfold Options_next.
  destruct (_ <=? _)%nat; [unbind; by intros [= <-]|].
  destruct (read_option _ _) as [[i p] [opt| | |]]; unbind; try done; [|by intros [= <-]].
  destruct (Options_collect (E:=E) fuel _) as [rest| | |] eqn:Er; try done. intros [= <-]. by rewrite (IH _ _ Er).
Qed.

(** The options of both messages pass on the other side. *)
Lemma received_valid {E} pm mid t payload (request : bool) :
  received pm (if request then request_msg mid t payload else reply_msg mid t payload) →
  valid_options (E:=E) pm request = Ok true.
Proof.
  intros (_ & _ & _ & _ & _ & Hos). unfold valid_options. unbind. unfold pm_opts, Options_iter in *.
  by destruct request; rewrite (options_any (F:=E) _ _ _ Hos).
Qed.

Lemma accept_keys (s : SecurityContext Token) seq :
  sc_sender_key (replay_accept s seq) = sc_sender_key s ∧ sc_common_iv (replay_accept s seq) = sc_common_iv s.
Proof. unfold replay_accept. by destruct (_ || _); [|destruct (_ <=? _)]. Qed.

Lemma wire_parts_fit (m : Message Token) tb bs ctx kid ct :
  (length (protected_wire m tb bs ctx kid ct) ≤ 384)%nat →
  slice_fits (protected_wire m tb bs ctx kid ct) ∧ slice_fits (pm_options _ (protected_pm m tb bs ctx kid ct)).
Proof.
  intros Hw. split; [by apply small_fits|]. apply small_fits. unfold protected_wire, msg_wire in Hw. simpl.
  rewrite !length_app in Hw. lia.
Qed.

Lemma kid_any {E F} (r : RequestRef) kid : RequestRef_kid (E:=E) r = Ok kid → RequestRef_kid (E:=F) r = Ok kid.
Proof.
  unfold RequestRef_kid, Id_as_bytes, slice_idx. destruct (slice_get _ _ _); [|done]. by intros [= <-].
Qed.

(** The answer on its way. *)
Definition replied (r : ProtectedPolicyResponse) (endpoint : Endpoint) (s : SecurityContext Token) (t : Token)
    (mid : Z) (payload cid tb ct nc : list Z) : Prop :=
  let m := reply_msg mid t payload in
  nonce_of s cid nc ∧ sealed (sc_sender_key s) nc (aad_wire cid [0] []) (plain_wire m) ct ∧
  length ct = (length (plain_wire m) + TAG_LEN)%nat ∧
  (∀ E, response_datagram (E:=E) r = Ok (endpoint, protected_wire m tb [] None None ct)).

Lemma serve_replies {A E} `{!OnlinePolicyAuthority A E} (c r : AuthorityConnection) cid sid p query mid fresh tb ct nc
    (a a' : A) snapshot :
  fresh_pair (ac_context c) (ac_context r) cid sid → sent p c query mid fresh cid tb ct nc → length tb = 8%nat →
  length (ac_local c) = 32%nat → ac_peer r = ac_local c → query_ok query → in_u 16 mid →
  length fresh = 32%nat → fresh ≠ zero32 →
  resolve (mk_apr (ac_peer r) query) a = (a', Ok snapshot) → snapshot_ok snapshot →
  validate_snapshot snapshot query (ac_peer r) = Ok tt →
  ∃ reply ct2 nc2,
    policy_serve r (ac_endpoint r) (protected_wire
      (request_msg mid (pe_token p) (request_wire (ac_local c) query fresh)) tb [0] None (Some cid) ct) a
      = (a', Ok reply) ∧
    replied reply (ac_endpoint r) (ac_context r) (pe_token p) mid
      (response_wire fresh (request_digest (ac_local c) query fresh) snapshot) cid tb ct2 nc2.
Proof.
  intros (Hpair & Hback & Hseq & _ & Hfresh & _) (_ & _ & _ & _ & Htw & Htb & _ & _ & _ & _ & _ & _ & Hnc & Hsealed & Hctl & _)
    Ltb Ll Epeer Hq Hm Lf Nf Hres Hsnap Hval.
  set (payload := request_wire (ac_local c) query fresh) in *. set (t := pe_token p) in *.
  assert (length payload = 271%nat) as Lp by by apply length_request_wire.
  pose proof Hpair as (_ & _ & _ & _ & Hid & _ & Hsl & Hsb & _).
  pose proof (query_protectable mid t tb payload Hm Htb Ltb ltac:(lia) cid Hsl Hsb) as Hprot.
  pose proof (request_wire_small mid t tb payload Ltb ltac:(lia) cid ct Hsl Hctl) as Hw.
  destruct (wire_parts_fit _ _ _ _ _ _ Hw) as [Hf1 Hf2].
  unfold policy_serve. unfold eqb at 1. rewrite bool_decide_eq_true_2 by done. cbn [negb].
  rewrite decode_protected_compact by (done || lia). unbind. cbn [map_err].
  destruct (unprotect_request_ok (ac_context c) (ac_context r) (request_msg mid t payload) cid [] tb [0] ct nc
    (replicate DATAGRAM_LEN 0) 0) as (pm & ref & Hun & Hrec & Hkid & Hrp); try done.
  { by apply Nat.leb_le. } { by apply small_fits. }
  { rewrite length_replicate. apply (app_wire_small mid t tb payload); [done|lia|by left]. }
  { etransitivity; [apply (app_wire_small mid t tb payload); [done|lia|by left]|by apply Nat.leb_le]. }
  change (context_field []) with (@None (list Z)) in Hun. rewrite Hun. cbn [map_err].
  pose proof Hrec as (Ety & Ecode & Emid & Etok & Epl & _). rewrite Ety, Ecode, Epl.
  cbn [request_msg msg_ty msg_code msg_payload]. change (eqb Confirmable Confirmable) with true.
  change (Code_POST =? Code_POST) with true. cbn [negb orb].
  rewrite (received_valid pm mid t payload true Hrec). cbn [negb].
  unfold payload at 1. rewrite decode_request_wire by done. cbn [map_err]. rewrite Epeer in *.
  unfold eqb at 1. rewrite bool_decide_eq_true_2 by done. cbn [negb]. unfold st_map_err. rewrite Hres.
  cbn [map_err]. rewrite Hval. cbn [map_err].
  fold (request_digest (ac_local c) query fresh). set (digest := request_digest (ac_local c) query fresh).
  rewrite encode_policy_response_ok by (done || apply digest_length).
  rewrite Emid, Etok, reply_message_eq. cbn [request_msg msg_id msg_token].
  set (answer := response_wire fresh digest snapshot).
  assert (length answer = 272%nat) as La by (by apply length_response_wire; [| |apply digest_length]).
  pose proof (answer_protectable mid t tb answer Hm Htb Ltb ltac:(lia)) as Hprot2.
  destruct (accept_keys (ac_context r) 0) as [Ek Eiv].
  pose proof Hback as (_ & _ & Lk & Liv & _).
  destruct (protect_response_ok (replay_accept (ac_context r) 0) (reply_msg mid t answer) cid tb [0]
    (replicate DATAGRAM_LEN 0) ref) as (nc2 & ct2 & Hnc2 & Hseal2 & Hctl2 & Hpr); try done.
  { by rewrite Ek. } { by rewrite Eiv. } { intros E0. by eapply kid_any. } { by apply Nat.leb_le. }
  { by apply small_fits. }
  { rewrite length_replicate. apply reply_wire_small; [done|lia|by rewrite length_replicate]. }
  change (derive_key REQUEST_DOMAIN payload) with digest. fold answer. rewrite Hpr. cbn [map_err].
  pose proof (reply_wire_small mid t tb answer Ltb ltac:(lia) ct2 Hctl2) as Hw2.
  do 3 eexists. split; [done|]. unfold replied, nonce_of. rewrite Ek in Hseal2. rewrite Eiv in Hnc2.
  split_and!; [done..|]. intros F. unfold response_datagram. unbind. cbn [pr_bytes pr_len pr_endpoint].
  rewrite wrap_small by (unfold in_u; lia). rewrite Nat2Z.id.
  rewrite slice_prefix by (rewrite length_splice; rewrite length_replicate; done). by rewrite take_splice_0.
Qed.

(** Reading the clock changes neither the request nor its deadline. *)
Lemma check_deadline_ok now p : pe_clock_blocked p = false → pe_last_seen_ms p ≤ now < pe_deadline_ms p →
  check_deadline now p =
    (mk_pending (pe_channel p) (pe_query p) (pe_nonce p) (pe_digest p) (pe_token p) (pe_message_id p)
       (pe_deadline_ms p) now false (pe_request p) (pe_datagram p) (pe_len p), Ok tt).
Proof.
  intros Hb Hn. unfold check_deadline. rewrite Hb. rewrite (proj2 (Z.ltb_ge _ _)), (proj2 (Z.leb_gt _ _)) by lia. done.
Qed.

Lemma validate_snapshot_local s query principal : snapshot_ok s →
  validate_snapshot s query principal = Ok tt → tr_local (ps_record s) = principal.
Proof.
  intros Hs. unfold validate_snapshot. unbind. rewrite trust_anchor_of by apply Hs.
  destruct (eqb (tr_local (ps_record s)) principal) eqn:E1; bools; [done|done].
Qed.

Lemma accept_accepts (c r : AuthorityConnection) cid sid p query mid fresh tb ct nc ct2 nc2 reply snapshot identity
    now bytes :
  fresh_pair (ac_context c) (ac_context r) cid sid → sent p c query mid fresh cid tb ct nc → length tb = 8%nat →
  in_u 16 mid → length fresh = 32%nat →
  replied reply (ac_endpoint r) (ac_context r) (pe_token p) mid
    (response_wire fresh (request_digest (ac_local c) query fresh) snapshot) cid tb ct2 nc2 →
  response_datagram (E:=unit) reply = Ok (ac_endpoint r, bytes) →
  pe_clock_blocked p = false → pe_last_seen_ms p ≤ now < pe_deadline_ms p →
  ac_local c = pp_principal (id_peer identity) → snapshot_ok snapshot →
  validate_snapshot snapshot query (ac_local c) = Ok tt →
  validate_peer identity (tr_peer (ps_record snapshot)) = Ok tt →
  policy_accept p identity (ac_endpoint c) now bytes = Ok (mk_verified snapshot now (pe_deadline_ms p)).
Proof.
  intros (Hpair & Hback & _) (Eq & En & Ed & Em & Htw & Htb & El & Ee & Ek & Eiv & Hkid & Hpiv & _) Ltb Hm Lf
    (Hnc2 & Hseal & Hctl & Hdg) Hbytes Hb Hn Eid Hs Hval Hpeer.
  rewrite Hdg in Hbytes. injection Hbytes as <-. set (digest := request_digest _ _ _) in *.
  set (answer := response_wire fresh digest snapshot) in *. set (t := pe_token p) in *.
  assert (length answer = 272%nat) as La by (by apply length_response_wire; [| |apply digest_length]).
  pose proof (answer_protectable mid t tb answer Hm Htb Ltb ltac:(lia)) as Hprot.
  pose proof (reply_wire_small mid t tb answer Ltb ltac:(lia) ct2 Hctl) as Hw.
  destruct (wire_parts_fit _ _ _ _ _ _ Hw) as [Hf1 Hf2].
  pose proof Hback as (Hkey & Hiv & _ & Liv & _). pose proof Hpair as (_ & _ & _ & _ & _ & _ & Hsl & _).
  unfold policy_accept. rewrite check_deadline_ok by done. unbind.
  cbn [pe_channel pe_query pe_nonce pe_digest pe_token pe_message_id pe_request pe_deadline_ms].
  rewrite El, Ee, Eid. unfold eqb at 1. rewrite bool_decide_eq_true_2 by done. cbn [negb].
  unfold eqb at 1. rewrite bool_decide_eq_true_2 by done. cbn [negb].
  rewrite decode_protected_compact by (done || lia). cbn [map_err].
  assert (eqb (pm_token _ (protected_pm (reply_msg mid t answer) tb [] None None ct2)) (pe_token p) = true) as ->
    by (unfold eqb; by rewrite bool_decide_eq_true_2).
  change (pm_message_id (protected_pm (reply_msg mid t answer) tb [] None None ct2)) with mid.
  change (eqb (pm_ty (protected_pm (reply_msg mid t answer) tb [] None None ct2)) Acknowledgement) with true.
  rewrite Em, Z.eqb_refl. cbn [negb orb].
  destruct (unprotect_response_ok (ac_context (pe_channel p)) (reply_msg mid t answer) (sc_sender_key (ac_context r))
    (sc_common_iv (ac_context r)) cid tb [0] ct2 nc2 (replicate DATAGRAM_LEN 0) (pe_request p))
    as (pm & Hun & Hrec); try done.
  { by rewrite Ek. } { by rewrite Eiv. } { by apply Nat.leb_le. } { by apply Nat.leb_le. } { by apply small_fits. }
  { rewrite length_replicate. apply (app_wire_small mid t tb answer); [done|lia|by right]. }
  { etransitivity; [apply (app_wire_small mid t tb answer); [done|lia|by right]|by apply Nat.leb_le]. }
  rewrite Hun. cbn [snd map_err]. pose proof Hrec as (_ & Ecode & _ & _ & Epl & _). rewrite Ecode, Epl.
  change (msg_code Token (reply_msg mid t answer) =? Code_CONTENT) with true.
  change (msg_payload Token (reply_msg mid t answer)) with answer. cbn [negb].
  rewrite (received_valid pm mid t answer false Hrec). cbn [negb].
  unfold answer at 1. rewrite decode_policy_response_wire by (done || apply digest_length). cbn beta iota.
  rewrite En, Ed, Eq. unfold eqb. rewrite !bool_decide_eq_true_2 by done. cbn [negb orb].
  rewrite <- Eid, Hval. rewrite trust_anchor_of by apply Hs.
  unfold trust_restore. unbind. rewrite trust_anchor_of by apply Hs. unfold eqb. rewrite bool_decide_eq_true_2 by done.
  cbn [negb]. unfold validate_identity. rewrite (validate_snapshot_local _ _ _ Hs Hval), Eid.
  unfold eqb. rewrite bool_decide_eq_true_2 by done. cbn [negb]. by rewrite Hpeer.
Qed.

(** C10: a device that asks its authority gets the policy in force.  When both ends
    derived their contexts from the same exported keying material, with their
    identifiers swapped, the whole exchange completes within the deadline: the
    device's channel and the authority's open, the request is sealed once and
    opened by the authority as the query of exactly this device, whatever snapshot
    the provider resolves comes back sealed under the same exchange, and the
    device accepts exactly that snapshot, with the time of acceptance and the
    deadline it asked with. *)
Theorem policy_exchange_completes {W A E} `{!OnlinePolicyAuthority A E}
    (hkdf : list Z → list Z → list Z → nat → option (list Z)) (device authority : Identity)
    (secret salt did aid : list Z) (dep aep : Endpoint) (s1 s2 : Session) (query : PolicyQuery) (mid : MessageId)
    (now now1 now2 deadline : Z) (entropy : list Z → W → W * list Z * bool) (w w' : W) (fresh : list Z)
    (a a' : A) (snapshot : PolicySnapshot) :
  (∀ salt secret info n out, hkdf salt secret info n = Some out → length out = n) →
  identity_ok device → bytes_ok did → bytes_ok aid →
  session_derive hkdf secret salt did aid (pp_principal (id_peer device)) (id_peer authority) = Ok s1 →
  session_derive hkdf secret salt aid did (pp_principal (id_peer authority)) (id_peer device) = Ok s2 →
  query_ok query → in_u 16 mid → now ≤ now1 ≤ now2 → now2 < deadline ≤ now + MAX_EXCHANGE_LIFETIME_MS →
  entropy zero32 w = (w', fresh, true) → length fresh = 32%nat → fresh ≠ zero32 →
  resolve (mk_apr (pp_principal (id_peer device)) query) a = (a', Ok snapshot) → snapshot_ok snapshot →
  validate_snapshot snapshot query (pp_principal (id_peer device)) = Ok tt →
  validate_peer device (tr_peer (ps_record snapshot)) = Ok tt →
  ∃ c r p p1 request reply answer,
    connection_from_session device (mk_bootstrap (id_peer authority)) aep s1 = Ok c ∧
    responder_from_session authority dep s2 = Ok r ∧
    policy_begin c query mid now deadline entropy w = (w', Ok p) ∧
    pending_datagram now1 p = (p1, Ok (aep, request)) ∧
    responder_serve r dep request a = (a', Ok reply) ∧
    response_datagram (E:=unit) reply = Ok (dep, answer) ∧
    policy_accept p1 device aep now2 answer = Ok (mk_verified snapshot now2 deadline).
Proof.
  intros Hh Hdev Bd Ba Hs1 Hs2 Hq Hm Hn Hd He Lf Nf Hres Hs Hval Hpeer.
  unfold session_derive in Hs1, Hs2. unbind.
  destruct (derive hkdf LIVE_REQUESTS (mkDeriveParams secret salt aid did [])) as [cc| | |] eqn:E1; try done.
  destruct (derive hkdf LIVE_REQUESTS (mkDeriveParams secret salt did aid [])) as [cs| | |] eqn:E2; try done.
  injection Hs1 as <-. injection Hs2 as <-.
  pose proof (derived_paired hkdf Hh _ _ _ _ _ _ Ba Bd E1 E2) as Hf.
  set (local := pp_principal (id_peer device)) in *. set (auth := pp_principal (id_peer authority)) in *.
  assert (length local = 32%nat) as Ll by by apply peer_principal_arr, identity_peer_ok.
  set (c := mk_connection cc local auth aep). set (r := mk_connection cs auth local dep).
  destruct (begin_sends c cs aid did query mid now deadline entropy w w' fresh Hf Ll Hq Hm ltac:(lia) He Lf Nf)
    as (p & tb & ct & nc & Hbegin & Ltb & Hsent & Edl & Els & Ebl).
  destruct (serve_replies c r aid did p query mid fresh tb ct nc a a' snapshot Hf Hsent Ltb Ll eq_refl Hq Hm Lf Nf
    Hres Hs Hval) as (reply & ct2 & nc2 & Hserve & Hrep).
  set (p1 := mk_pending (pe_channel p) (pe_query p) (pe_nonce p) (pe_digest p) (pe_token p) (pe_message_id p)
       (pe_deadline_ms p) now1 false (pe_request p) (pe_datagram p) (pe_len p)).
  pose proof Hrep as (_ & _ & _ & Hdg).
  exists c, (mk_responder r), p, p1. do 3 eexists. split_and!; [..|exact Hserve|apply Hdg|].
  - unfold connection_from_session, eqb. by rewrite !bool_decide_eq_true_2.
  - unfold responder_from_session, eqb. by rewrite !bool_decide_eq_true_2.
  - done.
  - unfold pending_datagram. unbind. rewrite check_deadline_ok by (done || lia). fold p1.
    destruct Hsent as (_ & _ & _ & _ & _ & _ & _ & Ee & _ & _ & _ & _ & _ & _ & _ & Hsl).
    change (pe_datagram p1) with (pe_datagram p). change (pe_len p1) with (pe_len p). rewrite Hsl.
    change (pe_channel p1) with (pe_channel p). by rewrite Ee.
  - rewrite <- Edl. apply (accept_accepts c r aid did p1 query mid fresh tb ct nc ct2 nc2 reply snapshot device now2);
      try done. simpl. lia.
Qed.

(** ** What acceptance means *)

(** The snapshot is of the device and of the store asked about, not behind the
    anchor asked with, and for a first enrollment exactly what was asked for. *)
Definition bound_to (s : PolicySnapshot) (query : PolicyQuery) (principal : Principal) : Prop :=
  let r := ps_record s in
  tr_local r = principal ∧ tr_store r = ta_store (query_expected query) ∧
  ta_generation (query_expected query) ≤ tr_generation r ∧
  (tr_generation r = ta_generation (query_expected query) → trust_anchor (E:=EnrollmentError.EnrollmentError) r = Ok (query_expected query)) ∧
  match query with
  | Enroll expected policy =>
      ta_generation expected = 0 ∧ tr_generation r = 1 ∧ tr_enabled r = true ∧
      pp_principal (tr_peer r) = pp_principal (ep_peer policy) ∧ ps_owner s = ep_owner policy ∧
      ps_resource_policy s = ep_resource_policy policy
  | Refresh expected commitment =>
      tr_generation r = ta_generation expected → snapshot_commitment (E:=EnrollmentError.EnrollmentError) s = Ok commitment
  end.

Lemma anchor_fields {E} r a : trust_anchor (E:=E) r = Ok a → ta_store a = tr_store r ∧ ta_generation a = tr_generation r.
Proof.
  unfold trust_anchor. unbind. destruct (peer_public_key _); try done. destruct (peer_kid _); try done.
  by intros [= <-].
Qed.

Lemma validate_snapshot_inv s query principal :
  validate_snapshot s query principal = Ok tt → bound_to s query principal.
Proof.
  unfold validate_snapshot, bound_to. unbind.
  destruct (trust_anchor (ps_record s)) as [actual| | |] eqn:Ea; try done.
  destruct (anchor_fields _ _ Ea) as [<- <-].
  destruct (negb (eqb (tr_local _) _) || negb (eqb (ta_store actual) _)) eqn:E1; [done|].
  destruct ((ta_generation actual <? _) || _) eqn:E2; [done|]. apply orb_false_iff in E2 as [E2 E3]. bools.
  intros HE. split; [done|]. split; [done|]. split; [lia|]. split.
  { intros Eg. rewrite (proj2 (Z.eqb_eq _ _) Eg) in E3. destruct E3 as [|E3]; [done|]. bools. congruence. }
  destruct query as [expected policy|expected commitment]; cbn [query_expected] in *.
  - destruct (_ || _) eqn:E4 in HE; [done|]. bools. by split_and!.
  - intros Eg. rewrite (proj2 (Z.eqb_eq _ _) Eg) in HE. destruct (snapshot_commitment s) as [cm| | |]; try done.
    destruct (eqb cm commitment) eqn:E4; bools; [by subst|done].
Qed.

(** A single acceptance, unfolded. *)
Lemma policy_accept_inv p identity endpoint now datagram v :
  policy_accept p identity endpoint now datagram = Ok v →
  pe_clock_blocked p = false ∧ pe_last_seen_ms p ≤ now < pe_deadline_ms p ∧
  vp_accepted_ms v = now ∧ vp_deadline_ms v = pe_deadline_ms p ∧ endpoint = ac_endpoint (pe_channel p) ∧
  ac_local (pe_channel p) = pp_principal (id_peer identity) ∧
  (∃ outer scratch message, decode datagram = Ok outer ∧ pm_token _ outer = pe_token p ∧
    pm_message_id outer = pe_message_id p ∧ pm_ty outer = Acknowledgement ∧
    unprotect_response (ac_context (pe_channel p)) outer (pe_request p) (replicate DATAGRAM_LEN 0)
      = (scratch, Ok message) ∧ pm_code message = Code_CONTENT ∧
    decode_policy_response (pm_payload _ message) = Ok (pe_nonce p, pe_digest p, vp_snapshot v)) ∧
  bound_to (vp_snapshot v) (pe_query p) (pp_principal (id_peer identity)) ∧
  (∀ W E (persist : PolicySnapshot → W → W * res E unit) w w' trust,
    persist_and_restore v identity persist w = (w', Ok trust) →
    pt_record trust = ps_record (vp_snapshot v) ∧ persist (vp_snapshot v) w = (w', Ok tt)).
Proof.
  unfold policy_accept, check_deadline. destruct (_ || _) eqn:E1; [done|]. bools.
  cbn [pe_channel pe_query pe_nonce pe_digest pe_token pe_message_id pe_request pe_deadline_ms]. unbind.
  destruct (eqb (ac_local (pe_channel p)) _) eqn:E2; [|done]. destruct (eqb endpoint _) eqn:E3; [|done]. bools. cbn [negb].
  destruct (decode datagram) as [outer| | |]; try done. cbn [map_err]. destruct (_ || _) eqn:E4; [done|]. bools.
  destruct (unprotect_response _ _ _ _) as [scratch [message| | |]] eqn:Eu; try done. cbn [snd map_err].
  destruct (pm_code message =? Code_CONTENT) eqn:Ec; [|done]. cbn [negb]. bools.
  destruct (valid_options message false) as [[]| | |]; try done. cbn [negb].
  destruct (decode_policy_response _) as [[[nonce digest] snapshot]| | |] eqn:Ed; try done.
  destruct (_ || _) eqn:E5; [done|]. bools. subst nonce digest.
  destruct (validate_snapshot _ _ _) as [[]| | |] eqn:Ev; try done. rewrite E2 in Ev.
  destruct (trust_anchor _) as [anchor| | |]; try done.
  destruct (map_err _ _); try done. intros [= <-]. cbn [vp_snapshot vp_accepted_ms vp_deadline_ms].
  split_and!; try done; try lia; [by exists outer, scratch, message|by apply validate_snapshot_inv|].
  intros W E persist w w' trust. unfold persist_and_restore. unbind. cbn [vp_snapshot].
  destruct (trust_anchor (ps_record snapshot)) as [b1| | |]; try done. unfold trust_restore. unbind.
  destruct (trust_anchor (ps_record snapshot)) as [b2| | |]; try done. destruct (negb _); [done|].
  destruct (validate_identity _ _); try done. cbn [map_err]. unfold st_map_err.
  destruct (persist snapshot w) as [w2 [[]| | |]]; try done. by intros [= <- <-].
Qed.

(** The pending request after its datagram was asked for at these times,
    whether that was refused or not. *)
Fixpoint polled (times : list Z) (p : PendingPolicy) : PendingPolicy :=
  match times with
  | [] => p
  | now :: times => polled times (pending_datagram now p).1
  end.

(** The same exchange, at another reading of the clock. *)
Definition same_exchange (p q : PendingPolicy) : Prop :=
  pe_channel q = pe_channel p ∧ pe_query q = pe_query p ∧ pe_nonce q = pe_nonce p ∧ pe_digest q = pe_digest p ∧
  pe_token q = pe_token p ∧ pe_message_id q = pe_message_id p ∧ pe_deadline_ms q = pe_deadline_ms p ∧
  pe_request q = pe_request p ∧ pe_datagram q = pe_datagram p ∧ pe_len q = pe_len p.

Lemma pending_datagram_state now p : (pending_datagram now p).1 = (check_deadline now p).1.
Proof. unfold pending_datagram. unbind. unfold st_get, st_lift. unbind. destruct (check_deadline now p) as [q [[]| | |]]; try done. by destruct (slice_idx _ _ _). Qed.

Lemma check_deadline_same now p : same_exchange p (check_deadline now p).1.
Proof. unfold check_deadline. by destruct (_ || _). Qed.

Lemma polled_same times p : same_exchange p (polled times p).
Proof.
  revert p. induction times as [|t times IH]; intros p; cbn [polled]; [done|].
  pose proof (IH (pending_datagram t p).1) as Ha. rewrite pending_datagram_state in *.
  pose proof (check_deadline_same t p) as Hb. unfold same_exchange in *. intuition congruence.
Qed.

(** A clock that still passes was never behind nor past the deadline. *)
Lemma polled_steady times p now :
  pe_clock_blocked (polled times p) = false → pe_last_seen_ms (polled times p) ≤ now < pe_deadline_ms (polled times p) →
  pe_clock_blocked p = false ∧ Sorted Z.le (pe_last_seen_ms p :: times ++ [now]) ∧
  Forall (fun t => t < pe_deadline_ms p) (times ++ [now]).
Proof.
  revert p. induction times as [|t times IH]; intros p; cbn [polled app].
  - intros Hb Hn. split; [done|]. split; [|by repeat constructor; lia]. repeat constructor. lia.
  - rewrite pending_datagram_state. intros Hb Hn. destruct (IH _ Hb Hn) as (Hb1 & Hs & Hf).
    unfold check_deadline in Hb1, Hs, Hf. destruct (_ || _) eqn:E1; [done|].
    cbn [fst pe_clock_blocked pe_last_seen_ms pe_deadline_ms] in *. bools. split; [done|].
    split; [constructor; [done|constructor; lia]|constructor; [lia|done]].
Qed.

(** A request just begun: the nonce of this entropy, the digest of the request it
    is in, the query, the Message ID and the deadline asked for, and the channel
    with the keys it had. *)
Lemma policy_begin_inv {W} c query mid began deadline entropy (w w' : W) p :
  policy_begin c query mid began deadline entropy w = (w', Ok p) →
  (began < deadline ≤ began + MAX_EXCHANGE_LIFETIME_MS ∧ pe_deadline_ms p = deadline ∧ pe_last_seen_ms p = began) ∧
  (entropy zero32 w = (w', pe_nonce p, true) ∧ pe_nonce p ≠ zero32) ∧
  (∃ payload, encode_request (E:=EnrollmentError.EnrollmentError) (ac_local c) query (pe_nonce p) = Ok payload ∧ pe_digest p = derive_key REQUEST_DOMAIN payload) ∧
  pe_query p = query ∧ pe_message_id p = mid ∧ ac_endpoint (pe_channel p) = ac_endpoint c ∧
  ac_local (pe_channel p) = ac_local c ∧ sc_recipient_key (ac_context (pe_channel p)) = sc_recipient_key (ac_context c) ∧
  lookup_request (ac_context (pe_channel p)) (pe_token p) = Some (pe_request p).
Proof.
  unfold policy_begin. destruct (_ || _) eqn:E1; [done|]. bools.
  destruct (match query with Enroll _ _ => _ | Refresh _ _ => _ end); [done|].
  destruct (match query with Enroll _ _ => _ | Refresh _ _ => _ end); [done|].
  destruct (entropy zero32 w) as [[w1 nonce] filled] eqn:Een. destruct (negb filled || eqb nonce zero32) eqn:E2; [done|]. bools. subst filled.
  unbind. destruct (encode_request _ _ _) as [payload| | |] eqn:Ep; try done.
  destruct (slice_idx _ _ _) as [prefix| | |]; try done. destruct (Token_from_checked _) as [t| | |]; try done.
  rewrite begin_message_eq. destruct (protect_request _ _) as [[ctx dg] r] eqn:Epr.
  destruct r as [len| | |]; try done. cbn [map_err].
  destruct (lookup_request ctx t) as [rr|] eqn:El; [|done]. cbn [ok_or]. intros [= <- <-].
  pose proof (protect_request_key (request_msg mid t payload) _ _ _ _ _ eq_refl eq_refl Epr) as Hrk. cbn [pe_deadline_ms pe_last_seen_ms pe_nonce pe_digest pe_query
    pe_message_id pe_channel ac_endpoint ac_local ac_context pe_token pe_request]. split_and!; try done; try lia. by exists payload.
Qed.

(** C14: what a device accepts is bound to its question.  Whenever the datagram of
    a request was asked for between the beginning of the exchange and an
    acceptance, none of these readings of the clock was behind the one before it
    nor past the deadline, which is at most the longest lifetime after the
    beginning: one reading that was would have refused the acceptance.  The
    accepted policy came from the endpoint asked, in the acknowledgement of the
    request, sealed for that request under the authority's key, and repeats the
    fresh nonce and the digest of the request; it is for this identity and
    store, never behind the generation asked with, identical to it when equal, and
    for a first enrollment exactly the policy asked for; it keeps the deadline, and
    restoring trust from it gives exactly its record once it is persisted. *)
Theorem accepted_policy_bound {W} c query mid began deadline entropy (w w' : W) p times identity endpoint now datagram v :
  policy_begin c query mid began deadline entropy w = (w', Ok p) →
  policy_accept (polled times p) identity endpoint now datagram = Ok v →
  Sorted Z.le (began :: times ++ [now]) ∧ Forall (fun t => t < deadline) (times ++ [now]) ∧
  deadline ≤ began + MAX_EXCHANGE_LIFETIME_MS ∧ vp_accepted_ms v = now ∧ vp_deadline_ms v = deadline ∧
  endpoint = ac_endpoint c ∧ ac_local c = pp_principal (id_peer identity) ∧
  (∃ nonce payload, entropy zero32 w = (w', nonce, true) ∧ nonce ≠ zero32 ∧
   encode_request (E:=EnrollmentError.EnrollmentError) (ac_local c) query nonce = Ok payload ∧
   ∃ outer scratch message, decode datagram = Ok outer ∧ pm_token _ outer = pe_token p ∧
    pm_message_id outer = mid ∧ pm_ty outer = Acknowledgement ∧
    lookup_request (ac_context (pe_channel p)) (pe_token p) = Some (pe_request p) ∧
    sc_recipient_key (ac_context (pe_channel p)) = sc_recipient_key (ac_context c) ∧
    unprotect_response (ac_context (pe_channel p)) outer (pe_request p) (replicate DATAGRAM_LEN 0)
      = (scratch, Ok message) ∧ pm_code message = Code_CONTENT ∧
    decode_policy_response (pm_payload _ message) = Ok (nonce, derive_key REQUEST_DOMAIN payload, vp_snapshot v)) ∧
  bound_to (vp_snapshot v) query (pp_principal (id_peer identity)) ∧
  (∀ W E (persist : PolicySnapshot → W → W * res E unit) w w' trust,
    persist_and_restore v identity persist w = (w', Ok trust) →
    pt_record trust = ps_record (vp_snapshot v) ∧ persist (vp_snapshot v) w = (w', Ok tt)).
Proof.
  intros Hb Ha. apply policy_begin_inv in Hb as ((Hd & Hdl & Hls) & (Hent & Hnz) & (payload & Hpay & Hdg) & Hq & Hm & He & Hl & Hrk & Hreq).
  destruct (polled_same times p) as (Sc & Sq & Sn & Sd & St & Sm & Sdl & Sr & _).
  apply policy_accept_inv in Ha as (Hblk & Hnow & Hv1 & Hv2 & Hep & Hid & Hopen & Hbound & Hper).
  destruct (polled_steady times p now Hblk Hnow) as (_ & Hs & Hf).
  rewrite Hdl, Hls in *. rewrite Sdl in Hv2. rewrite Sc in Hep, Hid, Hopen. rewrite Sq, Hq in Hbound.
  rewrite St, Sm, Sr, Sn, Sd, Hm, Hdg in Hopen. rewrite He in Hep. rewrite Hl in Hid.
  split_and!; try done; [lia|]. exists (pe_nonce p), payload. split_and!; try done.
  destruct Hopen as (outer & scratch & message & Ho1 & Ho2 & Ho3 & Ho4 & Ho5 & Ho6 & Ho7). by exists outer, scratch, message.
Qed.

End Flow.

(** ** Witnesses

    The device of the authority's example enrolls over a session. *)
#[local] Existing Instance target64.
#[local] Existing Instances Sample.curve Sample.curve_laws Sample.digest Sample.digest_laws sample_store.

Definition sample_requester : Identity := sample_identity Sample.KA 1.
Definition sample_service : Identity := sample_identity Sample.KC 3.
Definition sample_endpoint (last : Z) : Endpoint := mkEndpoint [10; 0; 0; last] 0 0 5683 false.
Definition sample_session (local peer : list Z) (own other : Identity) : Session :=
  unwrap (session_derive Demo.hkdf [1; 2] [] local peer (pp_principal (id_peer own)) (id_peer other))
    (mk_session ProtectDemo.client [] []).
Definition sample_entropy (buf : list Z) (w : unit) : unit * list Z * bool := (w, replicate 32 9, true).
Definition sample_replica : EnrollmentAuthority register := replica aworld1 (head_of aworld1) false.

Definition sample_connection : AuthorityConnection :=
  connection_take (sample_endpoint 2) (sample_session [1] [2] sample_requester sample_service).
Definition sample_responder : AuthorityResponder :=
  mk_responder (connection_take (sample_endpoint 1) (sample_session [2] [1] sample_service sample_requester)).

Lemma sample_expected_ok : anchor_ok sample_genesis_anchor.
Proof. split; [by apply sample_arr32|]. split; [done|]. split; [done|]. split; [by apply sample_arr32|done]. Qed.

Lemma sample_query_ok : query_ok (ar_query sample_query).
Proof. split; [apply sample_expected_ok|]. split; [reflexivity|apply sample_access_ok]. Qed.

Lemma sample_snapshot_ok : snapshot_ok sample_snapshot.
Proof.
  assert (sample_snapshot = mk_snapshot (mk_trust (replicate 32 5) 1 (pp_principal (sample_peer Sample.KA 1))
    (sample_peer Sample.KB 2) true) (replicate 32 6) (replicate 32 7)) as -> by (vm_compute; reflexivity).
  split; [|split; [done|]].
  - apply record_ok_intro; [by apply sample_arr32|done|done| |].
    + apply peer_principal_arr, (sample_peer_ok Sample.KA 1). by split.
    + apply (sample_peer_ok Sample.KB 2). by split.
  - split; [by apply sample_arr32|]. split; [done|]. split; [by apply sample_arr32|done].
Qed.

Lemma policy_exchange_completes_witness :
  ∃ p p1 request reply answer,
    policy_begin sample_connection (ar_query sample_query) 77 1000 5000 sample_entropy tt = (tt, Ok p) ∧
    pending_datagram 1200 p = (p1, Ok (sample_endpoint 2, request)) ∧
    responder_serve sample_responder (sample_endpoint 1) request sample_replica = (sample_answer.1, Ok reply) ∧
    response_datagram (E:=unit) reply = Ok (sample_endpoint 1, answer) ∧
    policy_accept p1 sample_requester (sample_endpoint 2) 1400 answer = Ok (mk_verified sample_snapshot 1400 5000).
Proof.
  destruct (policy_exchange_completes (P:=Sample.curve) Demo.hkdf sample_requester sample_service [1; 2] [] [1] [2]
    (sample_endpoint 1) (sample_endpoint 2) (sample_session [1] [2] sample_requester sample_service)
    (sample_session [2] [1] sample_service sample_requester) (ar_query sample_query) 77 1000 1200 1400 5000
    sample_entropy tt tt (replicate 32 9) sample_replica sample_answer.1 sample_snapshot)
    as (c & r & p & p1 & request & reply & answer & Hc & Hr & H1 & H2 & H3 & H4 & H5).
  - intros salt secret info n out HE. injection HE as <-. apply length_replicate.
  - apply (sample_identity_ok Sample.KA 1). by split.
  - by repeat constructor.
  - by repeat constructor.
  - vm_compute. reflexivity.
  - vm_compute. reflexivity.
  - apply sample_query_ok.
  - by split.
  - split; by apply Z.leb_le.
  - split; [reflexivity|by apply Z.leb_le].
  - reflexivity.
  - reflexivity.
  - discriminate.
  - vm_compute. reflexivity.
  - apply sample_snapshot_ok.
  - vm_compute. reflexivity.
  - vm_compute. reflexivity.
  - assert (c = sample_connection) as -> by (vm_compute in Hc; injection Hc as <-; vm_compute; reflexivity).
    assert (r = sample_responder) as -> by (vm_compute in Hr; injection Hr as <-; vm_compute; reflexivity).
    exists p, p1, request, reply, answer. exact (conj H1 (conj H2 (conj H3 (conj H4 H5)))).
Defined.

(** The same exchange, computed: the request asked for twice, then the answer. *)
Definition sample_pending : res EnrollmentError.EnrollmentError PendingPolicy :=
  (policy_begin sample_connection (ar_query sample_query) 77 1000 5000 sample_entropy tt).2.
Definition sample_answer : res EnrollmentError.EnrollmentError (list Z) :=
  pending ← sample_pending;
  '(_, request) ← (pending_datagram 1200 pending).2;
  reply ← map_err (fun _ => EnrollmentError.Message)
    (responder_serve sample_responder (sample_endpoint 1) request sample_replica).2;
  '(_, answer) ← response_datagram reply;
  mret answer.

Lemma accepted_policy_bound_witness : ∃ p answer v,
  sample_pending = Ok p ∧ sample_answer = Ok answer ∧
  policy_accept (polled [1200; 1300] p) sample_requester (sample_endpoint 2) 1400 answer = Ok v ∧
  vp_deadline_ms v = 5000 ∧ Sorted Z.le [1000; 1200; 1300; 1400].
Proof.
  destruct sample_pending as [p|e| |] eqn:Hp; [|exfalso; vm_compute in Hp; discriminate Hp..].
  destruct sample_answer as [answer|e| |] eqn:Hn; [|exfalso; vm_compute in Hn; discriminate Hn..].
  exists p, answer.
  destruct (policy_accept (polled [1200; 1300] p) sample_requester (sample_endpoint 2) 1400 answer) as [v|e| |] eqn:Ha;
    [|exfalso; vm_compute in Hp, Hn; injection Hp as <-; injection Hn as <-; vm_compute in Ha; discriminate Ha..].
  exists v. split; [reflexivity|]. split; [reflexivity|]. split; [reflexivity|].
  destruct (policy_begin sample_connection (ar_query sample_query) 77 1000 5000 sample_entropy tt) as [w' r] eqn:Hb.
  assert (r = Ok p) as -> by (transitivity sample_pending; [unfold sample_pending; rewrite Hb; reflexivity|exact Hp]).
  destruct (accepted_policy_bound (P:=Sample.curve) sample_connection (ar_query sample_query) 77 1000 5000 sample_entropy tt w' p
    [1200; 1300] sample_requester (sample_endpoint 2) 1400 answer v Hb Ha) as (Hs & _ & _ & _ & Hd & _).
  split; [exact Hd|exact Hs].
Defined.
